(* ===== verification/_CoqProject ===== *)
-Q . S2P
Prelude.v
RustStd.v
Text.v
Packet.v
Connection.v
ConnectionSpec.v
Transport.v
Watcher.v
Auth.v
KeyStore.v
PairPacket.v
Spake2.v
Pairing.v
Mdns.v
ProxyOps.v
Libc.v
DeviceProxy.v
DeviceServer.v
ProxyClient.v
ProxyRpc.v
Listing.v
Remote.v
Job.v
Queue.v
Progress.v
DaemonInput.v
Worker.v
WorkerSpec.v
WorkerEnds.v
WorkerCases.v
Cache.v
Filesystem.v
Paths.v
FilesystemSpec.v
FilesystemCases.v
DaemonTree.v
DaemonWalk.v
DaemonWalkSpec.v
DaemonInstall.v
DaemonState.v
DaemonDispatch.v
DaemonDevices.v
DaemonDevicesSpec.v
DaemonShutdown.v
DaemonApi.v
Packages.v
DaemonTools.v
DaemonToolsSpec.v
Checked.v
Apk.v
Axml.v
AxmlSpec.v
AxmlRoundtrip.v
GuiModels.v
Browser.v
BrowserSpec.v
AppListing.v
AppListingSpec.v
TextField.v
TextFieldSpec.v
Debloat.v
DebloatSpec.v
Clipboard.v
AppWindow.v
AppInstalls.v
AppTransfers.v
AppTransfersSpec.v
AppInstallsSpec.v
AppPackages.v
Thumbnails.v
ThumbnailsSpec.v
Prefs.v
PrefsSpec.v
ToolsView.v
ToolsViewSpec.v
ToolsLog.v
HostDesktop.v
LocalFs.v
LocalFsSpec.v
TrashSpec.v
