(* ===== verification/Prelude.v ===== *)
(** * adbshare verification library

    adbshare moves files between a Linux host and an Android device over adb.
    The crates under src/crates and how they work together:

    - adbshare-proxy-device runs on the device: a server that reads request
      frames from a socket, performs the file operation and answers a frame.
    - adb-proxy is its client on the host: a pool of connections, one method
      per remote operation, remote file handles.
    - transfer-engine copies files with it: jobs with states and controls, a
      queue that dispatches them, a worker that pushes or pulls one job.
    - adbfs mounts the device with FUSE on the same client: inode tables, two
      caches and one handler per kernel request.
    - adb-device speaks the adb protocol itself: packets, multiplexed
      streams, the handshake with the host's key, the device watcher.
    - adb-pairing pairs with a device over Wi-Fi: discovery, SPAKE2, a sealed
      exchange of names and keys.
    - adb-daemon owns the devices and serves the user interface over D-Bus:
      file and tree operations, transfers, installs, packages, device
      readings. It sets a device up when the watcher reports it.
    - adb-gui is that interface: a window with a file browser, transfers and
      installs, package changes that can be undone, tools for the phone, a
      clipboard, thumbnails, settings, a reader of APK files.

    ** The files

    - [Prelude]: results, bytes at their width, little-endian codecs, lists
      indexed by integers, tactics and the hint bases [adb] and [adb_len].
    - [RustStd], [Text]: what the code uses of the standard library: UTF-8
      checks, formatting and parsing of numbers, splitting, trimming and
      joining, lines and words, Unix paths.
    - [Packet]: adb-device packet.rs. [Command], [Message] with its encoder
      and decoder.
    - [Connection], [ConnectionSpec]: connection.rs. Reader, writer, openers,
      closers and stream users are actors; an event is what one does between
      two awaits on the maps and bounded channels they share.
    - [Transport]: transport.rs: the CNXN and AUTH conversation, the USB pump.
    - [Watcher]: watcher.rs and device.rs: the reply of the adb server, the
      polls of both watchers and the events they send.
    - [Auth], [KeyStore]: auth.rs: the text of the public key; finding,
      importing, creating and storing the key pair, over the classes [Rsa]
      and [Disk].
    - [PairPacket], [Spake2], [Pairing], [Mdns]: adb-pairing: packet.rs and
      qr.rs; spake2.rs over the class [Edwards] of curve operations; cipher.rs
      and client.rs over the class [Aead]; mdns.rs.
    - [ProxyOps]: adb-proxy ops.rs: operation and status codes, flags, modes,
      the 60-byte [Stat].
    - [Libc]: the device's kernel as the class [Libc] (the system calls the
      server makes) with the laws [LibcLaws] of files; [MemFs] is an
      instance, so the laws can be met.
    - [DeviceProxy]: adbshare-proxy-device main.rs: argument parsers, every
      arm of [dispatch], the table of owned descriptors, the request loop.
      [DeviceServer]: the listener and the idle watchdogs around it, as a
      machine of the connections' tasks, the watchdogs' threads and the clock.
    - [ProxyClient]: adb-proxy client.rs: pool, semaphore, request framing,
      reader task, every method, close on drop. The TCP stream to the device
      is the class [Net].
    - [ProxyRpc], [Listing]: client and server composed. [Net]'s instance
      runs the device's loop on the bytes the client sends.
    - [Remote]: the part of the client the worker uses, as a class with laws;
      the client on a lawful device is an instance.
    - [Job], [Queue], [Progress]: transfer-engine job.rs, queue.rs,
      progress.rs. Job handles share cells in a store, as clones share Arcs.
      [Queue] gives each operation and the machine whose events are the
      critical sections of its locks and the messages sent behind them.
    - [Worker]: worker.rs and verify.rs as programs of a state monad whose
      state is the job's cell, the local files (class [Local]) and the
      remote; between two steps other tasks may pause, resume or cancel.
      [WorkerSpec] and [WorkerEnds] hold the proofs, [WorkerCases] an instance
      of the local files and closed runs.
    - [Cache], [Filesystem]: adbfs cache.rs and filesystem.rs. The handlers
      are state transformers; the proxy thread is the class [FsProxy], whose
      instance [client_proxy] is the client; the kernel's reply buffer is the
      class [DirBuf]. [Paths] views absolute paths as lists of names,
      [FilesystemSpec] holds the proofs, [FilesystemCases] closed runs.
    - adb-daemon main.rs: [DaemonInput] the checks on what callers send and
      the shell commands built from it; [DaemonTree] deleting a tree;
      [DaemonWalk] and [DaemonWalkSpec] pushing, pulling and copying trees, on
      [FsProxy] and [Queue]; [DaemonInstall] package installs as a machine of
      requests and answers of adb; [DaemonState] the caches of device
      readings, the parsers behind them, logcat and the QR session.
    - [DaemonDispatch]: the same file's worker loop: the queue of [Queue], the
      loop and the workers as one machine of interleaved steps.
    - [DaemonDevices], [DaemonDevicesSpec]: the same file's device life: what
      the watcher's events make the daemon do, as trees of commands with a
      branch for every answer; the record [outside] answers them, the slots
      and the forwards of adb are state. [DaemonShutdown]: the end of the
      daemon on ctrl-c, beside the watcher task.
    - [DaemonTools], [DaemonToolsSpec]: the tools of its bus interface (shell,
      screenshots, recordings, forwards, reboots, packages), interleaved
      between their commands. [DaemonApi]: listings, jobs, status and the
      logcat streams of the same interface.
    - [Packages]: adb-daemon packages.rs: the inventory, the verdict on an
      action, the batch of concurrent tasks as a step relation.
    - [Checked], [Apk], [Axml]: adb-gui state/apk.rs and state/apk/manifest.rs:
      the zip reader, the binary manifest, the card of an APK. [Checked] is
      the monad of code that can panic; inflate is an argument. [AxmlSpec]
      holds the safety and the faults, [AxmlRoundtrip] a compiler of
      manifests and the round trip.
    - [GuiModels]: adb-gui protocol.rs: entries, sorting, the search test.
    - [Browser], [BrowserSpec]: views/browser.rs: the pane's listing, filters,
      selection, history and target.
    - [AppListing], [AppListingSpec]: the part of app.rs that asks for
      listings and takes their answers in whatever order they come.
    - [TextField], [TextFieldSpec]: views/textinput.rs: a value in UTF-8 with
      a selection and marked text.
    - [Debloat], [DebloatSpec]: state/debloat.rs, state/history.rs,
      views/debloat.rs: the rows of packages, the changes and their ledger;
      the daemon's side is the batch of [Packages].
    - [AppPackages]: the part of app.rs around the package view: asking,
      sending batches and taking their results, in any order of answers.
    - [Clipboard]: state/clipboard.rs.
    - [AppWindow]: what the handlers of app.rs share: the window with its
      dialog (views/dialogs.rs) and toasts (views/toast.rs), and programs of
      commands with a branch for every answer. [AppInstalls]: installs,
      their history and pairing; [AppTransfers]: copying, pasting, dropping,
      renaming, deleting, transfers and the answers of the dialogs.
      [AppTransfersSpec] and [AppInstallsSpec] hold the proofs, the first with
      the bus and the queue, the second with the daemon's installs.
    - [Thumbnails], [ThumbnailsSpec]: thumbnails.rs: the shared cache, its
      keys in PNG files and the pool of workers beside files that change.
    - [Prefs], [PrefsSpec]: state/prefs.rs on a disk that can lose power.
    - [ToolsView], [ToolsViewSpec]: views/tools.rs: every button and the tasks
      it starts. [ToolsLog]: the same beside the logcat streams of [DaemonApi].
    - [HostDesktop]: the listings of state/localfs.rs and the programs it starts.
    - [LocalFs], [LocalFsSpec], [TrashSpec]: state/localfs.rs: copying, moving
      and trashing on the host's disk, a map from paths to nodes; the record
      [kernel] makes any system call fail and says what it leaves behind.

    ** What the theorems show

    - Wire formats: [decode_encode], [encode_decode], [try_encode_error],
      [stat_roundtrip].
    - The server loop does not depend on how TCP cuts the stream
      ([handle_connection_chunking]), answers every request in order
      ([device_serves_requests]), and the host's reader finds exactly the
      framed answers ([host_reads_replies]); idle connections, and only
      those, are closed ([idle_connections_closed]), except in
      [long_request_cut] and [other_connection_shut].
    - Remote operations end to end: [remote_write_read], [remote_lstat],
      [listdir_complete]; [listdir_repeats_entry] shows a directory that is
      listed wrongly.
    - The pool under every interleaving of its users: [pool_safe],
      [poisoned_never_reused].
    - Transfers: a job that ends Completed has copied the file
      ([push_copies], [pull_copies]); a push that is not paused ends
      ([push_run_ends]); the overwrite modes and the renaming
      ([skip_existing_untouched], [pick_remote_rename_first_free]); two runs
      that end badly ([late_pause_ends_paused],
      [pull_open_failure_leaves_file]).
    - The queue at lock granularity: [queue_conserves_jobs],
      [no_lost_wakeup], [retry_failed_for_exact],
      [snapshot_misses_finishing]; jobs and progress:
      [controls_state_machine], [progress_history].
    - FUSE: [inode_tables_consistent], [rename_keeps_inodes],
      [rename_noreplace_safe], [readdir_offers], the caches
      ([stat_cache_sound], [dir_cache_no_stale_listing]), and three runs that
      lose an inode or a name ([forget_ignores_count], [forget_stale_inode],
      [readdir_loses_entry]).
    - The adb protocol: streams of one connection are independent pipes
      whatever the tasks' interleaving ([streams_are_pipes]); the handshake
      ([handshake_conversation]), the USB bytes ([usb_bytes_in_order]); a
      subscriber of a watcher knows the devices ([watcher_in_sync],
      [devices_roundtrip]); where it goes wrong: [reader_stop_strands],
      [promised_frame_stops_reader].
    - Keys and pairing: the public key can be read back
      ([public_key_readable]) and stays the same ([key_is_stable], but
      [load_loses_key]); both sides of SPAKE2 agree ([spake2_agree]); pairing
      succeeds with the right device and accepts nothing unsealed
      ([pair_succeeds], [pair_authenticated]), but reports a refusal as an
      I/O error ([refusal_is_io_error]); discovery ([mdns_codec],
      [discover_self_named], [truncated_address_panics]).
    - What reaches a device's shell: [shell_argv_policy], [quoted_words],
      [inputs_contained], [cap_output_cases].
    - Trees: [delete_exact], [tree_pull_exact], [tree_push_exact],
      [tree_copy_exact], [tree_calls_end]; [pull_escapes] and
      [copy_into_itself] are two runs that go wrong.
    - The daemon's state: [installs_one_at_a_time], [cache_honest],
      [logcat_follow], [qr_session_outcome], [batch_in_order],
      [inventory_reads], [apply_one_verdict]; [quiet_phone_is_blank],
      [packages_never_forgotten], [old_session_fails_new] and
      [name_taken_for_failure] show where it does not do what it means to.
    - The bus interface: every command line of the tools keeps to a policy
      ([tools_policy]); calls about jobs do to the queue what they say
      ([bus_jobs]), listings and installs come in order ([list_dir_shows],
      [installs_newest_first]), a reader of a log gets its lines once
      ([logcat_streams]). Where it goes wrong: [failed_pull_loses_recording],
      [refusals_reported_as_success], [second_recording_hides_first],
      [logcat_ends_at_bad_line].
    - The worker loop, the workers and the queue together:
      [no_job_stranded]; [panicked_job_stays_running] is a job that cannot be
      retried.
    - The life of a device, with the watcher: [forwards_have_owners],
      [offered_phones_serve], [healthy_left_alone]; [late_forward_stays] and
      [forward_outlives_daemon] are forwards that are never taken back.
    - APK files: [zip_reads], [zip_never_panics], [apk_recognised],
      [parse_comes_back], [apk_card]; [wrapper_hangs], [odd_map_panics],
      [utf8_pool_misread], [utf8_pool_panics], [arsc_never_found] and
      [short_package_chunk_panics] are files the reader fails on.
    - The window: what is shown is of the open folder
      ([listing_is_of_the_open_folder]) and what is acted on is shown
      ([acts_on_visible_rows]); [sort_follows_files], [history_is_a_trail],
      [search_is_lowercase_contains]; the text field stays inside its value
      ([text_field_safe], [keys_edit_at_the_caret], [ime_names_characters]);
      undoing package changes puts them back ([undo_puts_back],
      [broken_exact]); copied files can be pasted ([clipboard_round_trip]);
      moving and trashing lose nothing at whatever call they fail
      ([move_loses_nothing], [trash_recoverable]); a listing of the disk is
      complete ([listing_complete]) and a shell opens in the folder that is
      browsed ([device_terminal_opens]).
    - Handlers of the window with the daemon: a paste reaches the queue with
      every file from where it was copied to the open folder ([paste_places],
      [paste_is_queued]); what is deleted was selected ([delete_targets]);
      the history of installs is what the daemon did ([installs_recorded]);
      addresses that are sent are addresses ([addresses_reach_daemon]);
      packages are changed as the user was asked and put on record
      ([batches_confirmed], [results_recorded]); nothing that loses data is sent by the tools view
      without a confirmation ([destructive_confirmed]) and its buttons keep to
      the daemon's policy ([buttons_within_policy]); the log shown is the
      phone's ([log_shown]); toasts ([toast_stack]); a cached picture is of the
      file as it is ([cached_is_current], [keys_read_back]); settings survive
      failures and losses of power ([preferences_kept]).
    - Where the window goes wrong: [stale_band], [preview_leaves_the_mount],
      [mount_of_the_other_phone], [older_answer_wins],
      [failed_poll_remembers], [value_under_mark], [mark_behind_accent],
      [undo_twice_redoes], [packages_of_the_other_phone],
      [one_sided_dependency], [undo_restore_disables], [trailing_blank_lost],
      [private_dir_opened], [pipe_lost], [dangling_link_overwritten];
      transfers: [folder_paste_spills], [mixed_paste_sends_folder_as_file],
      [foreign_paste_wrong_folder], [late_download_forgets_folder],
      [cancel_counts_refusals], [late_confirmation_deletes_here]; installs and
      pairing: [batch_reports_nothing], [unpolled_install_lost],
      [card_of_another_apk], [local_apk_never_installed],
      [dismissed_pairing_returns], [pairing_dialog_differs]; packages:
      [changed_on_the_other_phone], [confirmed_for_one_done_on_another],
      [undo_unseen], [figures_stay_old]; tools: [apps_of_the_other_phone],
      [refused_toggle_shown], [recording_of_the_other_phone],
      [refreshed_forwards_not_shown], [unread_port_is_zero],
      [two_polls_show_a_line_twice], [lines_of_the_other_phone],
      [stream_left_running]; thumbnails and settings: [failure_outlives_fix],
      [capital_extension_no_program], [shown_picture_stays],
      [running_picture_requeued], [failed_save_forgotten],
      [nothing_saved_without_daemon], [two_windows_tear].

    Several of these hold under conditions, which their comments name: the
    classes of laws for kernels, disks and devices ([LibcLaws], [LocalLaws],
    [RemoteLaws]: a read on a descriptor succeeds only if the kernel says so,
    a local write lasts from the flush on), names in UTF-8 or without slashes,
    trees without pipes, a trash without links, changes of packages that their
    opposite reverses. Where the program does go wrong without the condition,
    the run is one of the examples listed here.

    ** Bounds and fuel

    Rust integers are [Z] with the wrap-around written where the code casts
    or wraps. Loops that are not structural take fuel: the server loop one
    unit per frame ([handle_connection_chunking] needs as much as there are
    bytes), the client's [listdir] one unit per page (one per 16384 entries
    and one more is enough, by [listdir_complete]), the worker's loops one per chunk ([push_run_ends] gives
    enough: a unit per source byte and one more), a tree walk one per
    directory opened ([tree_calls_end] gives enough for every device, and the
    exactness theorems the number of the tree's directories). Deleting is
    structural on the 65 levels the code allows, reading a DNS name on the
    bytes left and its 11 levels of pointers. The manifest parser takes one
    unit per chunk; one per byte is enough by [parse_comes_back], and
    [wrapper_hangs] shows the files no fuel is enough for. The tries of the
    daemon's push and probe loops are bounded by the code itself. A copied
    tree takes one unit per directory; its number of nodes is enough by
    [move_loses_nothing]. Loops of the window that poll the daemon take a
    bound on their rounds, for which the theorems are general, except the
    tools view's, which is unfolded one round at a time; the loops
    over a PNG file take its length, which is enough because every round takes
    a chunk off. A worker that waits while
    paused uses up the controls other tasks will still send; with none left
    it waits for ever, the model's [stuck].

    ** What is not modelled

    The tokio runtime, sockets, threads and clocks as such (their outcomes
    are arguments or classes); SHA-256, SHA-512, HKDF, AES-GCM, RSA, the curve
    and TLS (parameters or classes with laws); the kernels, libusb and the
    adb binary (what they answer is an argument); JSON and log output. In
    detail: opening and claiming a USB interface; the start-up of the
    daemon; the fuser session of adbfs. In adb-gui the drawing of every view,
    the menus, icons and themes, geometry and scrolling, the formatting of
    sizes and dates, and the D-Bus declarations. *)

From stdpp Require Import base list gmap strings pretty.

Global Generalizable All Variables.

Declare Scope adb_scope.
Delimit Scope adb_scope with adb.
Global Open Scope adb_scope.
Global Open Scope Z_scope.

(** ** Results: Rust's [Result<A, E>] *)

Inductive result (E A : Type) : Type :=
| Ok (a : A)
| Err (e : E).
Arguments Ok {E A} a.
Arguments Err {E A} e.

Global Instance result_ret (E : Type) : MRet (result E) := fun A a => Ok a.
Global Instance result_bind (E : Type) : MBind (result E) :=
  fun A B f r => match r with Ok a => f a | Err e => Err e end.
Global Instance result_fmap (E : Type) : FMap (result E) :=
  fun A B f r => match r with Ok a => Ok (f a) | Err e => Err e end.

(** [Result::map_err] *)
Definition map_err {E F A} (f : E -> F) (r : result E A) : result F A :=
  match r with Ok a => Ok a | Err e => Err (f e) end.

(** [Option::ok_or] *)
Definition ok_or {E A} (o : option A) (e : E) : result E A :=
  match o with Some a => Ok a | None => Err e end.

(** [Result::ok] *)
Definition ok {E A} (r : result E A) : option A :=
  match r with Ok a => Some a | Err _ => None end.

(** [Result::is_ok] *)
Definition is_ok {E A} (r : result E A) : bool :=
  match r with Ok _ => true | Err _ => false end.

(** ** Byte strings

    A byte is a [Z] in [0, 256); a Rust [&[u8]], [Vec<u8>], [Bytes], [&str] or
    [String] is a list of bytes (a [str] is its UTF-8 encoding). *)

Abbreviation bytes := (list Z).

Definition u8_ok (z : Z) : Prop := 0 <= z < 2 ^ 8.
Definition u16_ok (z : Z) : Prop := 0 <= z < 2 ^ 16.
Definition u32_ok (z : Z) : Prop := 0 <= z < 2 ^ 32.
Definition u64_ok (z : Z) : Prop := 0 <= z < 2 ^ 64.
Definition i64_ok (z : Z) : Prop := - 2 ^ 63 <= z < 2 ^ 63.

(** [as u32], [as u64], [as i64], [as i32]: truncation to the width. *)
Definition as_u8 (z : Z) : Z := z mod 2 ^ 8.
Definition as_u32 (z : Z) : Z := z mod 2 ^ 32.
Definition as_u64 (z : Z) : Z := z mod 2 ^ 64.
Definition as_i64 (z : Z) : Z := (z + 2 ^ 63) mod 2 ^ 64 - 2 ^ 63.
Definition as_i32 (z : Z) : Z := (z + 2 ^ 31) mod 2 ^ 32 - 2 ^ 31.

Lemma as_u32_id z : 0 <= z < 2 ^ 32 -> as_u32 z = z.
Proof. apply Z.mod_small. Qed.
Lemma as_u64_id z : 0 <= z < 2 ^ 64 -> as_u64 z = z.
Proof. apply Z.mod_small. Qed.
Lemma as_i32_id z : - 2 ^ 31 <= z < 2 ^ 31 -> as_i32 z = z.
Proof. intros. unfold as_i32. rewrite Z.mod_small; lia. Qed.
Lemma as_i64_id z : - 2 ^ 63 <= z < 2 ^ 63 -> as_i64 z = z.
Proof. intros. unfold as_i64. rewrite Z.mod_small; lia. Qed.

(** String literals as bytes: [b"..."] and [.as_bytes()]. *)
Definition bs (s : string) : bytes :=
  (fun a => Z.of_N (Ascii.N_of_ascii a)) <$> String.list_ascii_of_string s.

(** [{}] formatting of an unsigned integer. *)
Definition fmt_dec (z : Z) : bytes := bs (pretty (Z.to_N z)).

(** ** Lengths and slices, at machine integers *)

Definition zlen {A} (l : list A) : Z := Z.of_nat (length l).
Definition ztake {A} (n : Z) (l : list A) : list A := take (Z.to_nat n) l.
Definition zdrop {A} (n : Z) (l : list A) : list A := drop (Z.to_nat n) l.

(** [&l[i..i + n]], used behind the bounds check the source makes. *)
Definition slice {A} (l : list A) (i n : Z) : list A := ztake n (zdrop i l).

(** [l.get(i..i + n)]: [None] when the range leaves the buffer. *)
Definition get_range {A} (l : list A) (i n : Z) : option (list A) :=
  if i + n <=? zlen l then Some (slice l i n) else None.

(** [l.get(i)] *)
Definition zget {A} (l : list A) (i : Z) : option A :=
  if i <? 0 then None else l !! Z.to_nat i.

(** ** Fixed-width integer codecs *)

(** [to_le_bytes] of an [n]-byte integer. [Z]'s floored division makes it the
    two's-complement encoding on negative values. *)
Fixpoint le_bytes (n : nat) (z : Z) : bytes :=
  match n with
  | O => []
  | S n => (z mod 256) :: le_bytes n (z / 256)
  end.

(** [from_le_bytes], unsigned. *)
Fixpoint le_val (l : bytes) : Z :=
  match l with
  | [] => 0
  | b :: l => b + 256 * le_val l
  end.

Definition be_bytes (n : nat) (z : Z) : bytes := reverse (le_bytes n z).
Definition be_val (l : bytes) : Z := le_val (reverse l).

(** [u32::from_le_bytes] and friends read at an offset the caller has checked. *)
Definition u32_le_at (l : bytes) (i : Z) : Z := le_val (slice l i 4).
Definition u64_le_at (l : bytes) (i : Z) : Z := le_val (slice l i 8).
Definition i64_le_at (l : bytes) (i : Z) : Z := as_i64 (le_val (slice l i 8)).
Definition i32_le_at (l : bytes) (i : Z) : Z := as_i32 (le_val (slice l i 4)).

(** ** Automation *)

Create HintDb adb.
Create Rewrite HintDb adb_len.

#[export] Hint Unfold u8_ok u16_ok u32_ok u64_ok i64_ok : adb.

(** Close a linear side condition after computing lengths. *)
Ltac len_lia :=
  autorewrite with adb_len in *; unfold u8_ok, u16_ok, u32_ok, u64_ok, i64_ok in *;
  unfold zlen in *; lia.

(** Case analysis on every [if] over a boolean comparison of the goal. *)
Ltac case_bool :=
  match goal with
  | |- context [if ?b then _ else _] => destruct b eqn:?
  end.

(** Turn boolean facts in the context into propositions. *)
Ltac bool_to_prop :=
  repeat match goal with
  | H : (_ && _)%bool = true |- _ => apply andb_true_iff in H as [? ?]
  | H : (_ && _)%bool = false |- _ => apply andb_false_iff in H
  | H : (_ || _)%bool = true |- _ => apply orb_true_iff in H
  | H : (_ || _)%bool = false |- _ => apply orb_false_iff in H as [? ?]
  | H : negb _ = true |- _ => apply negb_true_iff in H
  | H : negb _ = false |- _ => apply negb_false_iff in H
  | H : (_ =? _) = true |- _ => apply Z.eqb_eq in H
  | H : (_ =? _) = false |- _ => apply Z.eqb_neq in H
  | H : (_ <? _) = true |- _ => apply Z.ltb_lt in H
  | H : (_ <? _) = false |- _ => apply Z.ltb_ge in H
  | H : (_ <=? _) = true |- _ => apply Z.leb_le in H
  | H : (_ <=? _) = false |- _ => apply Z.leb_gt in H
  | H : (_ >? _) = true |- _ => apply Z.gtb_lt in H
  | H : (_ >? _) = false |- _ => rewrite Z.gtb_ltb in H; apply Z.ltb_ge in H
  | H : bool_decide _ = true |- _ => apply bool_decide_eq_true in H
  | H : bool_decide _ = false |- _ => apply bool_decide_eq_false in H
  end.

(** Decide the [if]s whose condition follows by [lia] from the context. *)
Ltac decide_if :=
  repeat match goal with
  | |- context [if ?a <? ?b then _ else _] =>
      first [ replace (a <? b) with true by (symmetry; apply Z.ltb_lt; len_lia)
            | replace (a <? b) with false by (symmetry; apply Z.ltb_ge; len_lia) ]
  | |- context [if ?a <=? ?b then _ else _] =>
      first [ replace (a <=? b) with true by (symmetry; apply Z.leb_le; len_lia)
            | replace (a <=? b) with false by (symmetry; apply Z.leb_gt; len_lia) ]
  | |- context [if ?a >? ?b then _ else _] =>
      first [ replace (a >? b) with true by (symmetry; rewrite Z.gtb_ltb; apply Z.ltb_lt; len_lia)
            | replace (a >? b) with false by (symmetry; rewrite Z.gtb_ltb; apply Z.ltb_ge; len_lia) ]
  | |- context [if ?a =? ?b then _ else _] =>
      first [ replace (a =? b) with true by (symmetry; apply Z.eqb_eq; len_lia)
            | replace (a =? b) with false by (symmetry; apply Z.eqb_neq; len_lia) ]
  end.

(** ** Lengths *)

Lemma zlen_nonneg {A} (l : list A) : 0 <= zlen l.
Proof. unfold zlen. lia. Qed.
#[export] Hint Resolve zlen_nonneg : adb.

Lemma zlen_nil {A} : zlen (@nil A) = 0.
Proof. done. Qed.
Lemma zlen_cons {A} (x : A) l : zlen (x :: l) = 1 + zlen l.
Proof. unfold zlen. simpl. lia. Qed.
Lemma zlen_app {A} (l k : list A) : zlen (l ++ k) = zlen l + zlen k.
Proof. unfold zlen. rewrite length_app. lia. Qed.
Lemma zlen_reverse {A} (l : list A) : zlen (reverse l) = zlen l.
Proof. unfold zlen. by rewrite length_reverse. Qed.
Lemma zlen_replicate {A} n (x : A) : zlen (replicate n x) = Z.of_nat n.
Proof. unfold zlen. by rewrite length_replicate. Qed.
Lemma zlen_fmap {A B} (f : A -> B) l : zlen (f <$> l) = zlen l.
Proof. unfold zlen. by rewrite length_fmap. Qed.
Lemma zlen_ztake {A} n (l : list A) : zlen (ztake n l) = Z.min (Z.max 0 n) (zlen l).
Proof. unfold zlen, ztake. rewrite length_take. lia. Qed.
Lemma zlen_zdrop {A} n (l : list A) : zlen (zdrop n l) = zlen l - Z.min (Z.max 0 n) (zlen l).
Proof. unfold zlen, zdrop. rewrite length_drop. lia. Qed.
Lemma zlen_slice {A} (l : list A) i n :
  zlen (slice l i n) = Z.min (Z.max 0 n) (zlen l - Z.min (Z.max 0 i) (zlen l)).
Proof. unfold slice. by rewrite zlen_ztake, zlen_zdrop. Qed.
Lemma zlen_le_bytes n z : zlen (le_bytes n z) = Z.of_nat n.
Proof.
  revert z. induction n as [|n IH]; intros z; [done|].
  simpl. rewrite zlen_cons, IH. lia.
Qed.
Lemma zlen_be_bytes n z : zlen (be_bytes n z) = Z.of_nat n.
Proof. unfold be_bytes. by rewrite zlen_reverse, zlen_le_bytes. Qed.
#[export] Hint Rewrite @zlen_nil @zlen_cons @zlen_app @zlen_reverse @zlen_replicate
  @zlen_fmap @zlen_ztake @zlen_zdrop @zlen_slice zlen_le_bytes zlen_be_bytes : adb_len.

Lemma zlen_0_nil {A} (l : list A) : zlen l = 0 -> l = [].
Proof. unfold zlen. destruct l; simpl; [done|lia]. Qed.

(** ** Slices of concatenations *)

Lemma ztake_0 {A} (l : list A) : ztake 0 l = [].
Proof. done. Qed.
Lemma zdrop_0 {A} (l : list A) : zdrop 0 l = l.
Proof. done. Qed.

Lemma ztake_app {A} (l k : list A) n : zlen l = n -> ztake n (l ++ k) = l.
Proof. intros <-. unfold ztake, zlen. rewrite Nat2Z.id. by rewrite take_app_length. Qed.

Lemma ztake_all {A} (l : list A) n : zlen l <= n -> ztake n l = l.
Proof. intros H. unfold ztake, zlen in *. apply take_ge. lia. Qed.

Lemma zdrop_all {A} (l : list A) n : zlen l <= n -> zdrop n l = [].
Proof. intros H. unfold zdrop, zlen in *. apply drop_ge. lia. Qed.

Lemma zdrop_app {A} (l k : list A) n : zlen l <= n -> zdrop n (l ++ k) = zdrop (n - zlen l) k.
Proof.
  intros H. unfold zdrop, zlen in *.
  rewrite drop_app_ge by lia. f_equal. lia.
Qed.

Lemma zdrop_app_exact {A} (l k : list A) n : zlen l = n -> zdrop n (l ++ k) = k.
Proof. intros <-. rewrite zdrop_app by lia. by rewrite Z.sub_diag. Qed.

Lemma ztake_app_l {A} (l k : list A) n : n <= zlen l -> ztake n (l ++ k) = ztake n l.
Proof. intros H. unfold ztake, zlen in *. apply take_app_le. lia. Qed.

Lemma zdrop_app_l {A} (l k : list A) n : n <= zlen l -> zdrop n (l ++ k) = zdrop n l ++ k.
Proof. intros H. unfold zdrop, zlen in *. apply drop_app_le. lia. Qed.

Lemma zdrop_zdrop {A} (l : list A) i j : 0 <= i -> 0 <= j -> zdrop i (zdrop j l) = zdrop (j + i) l.
Proof. intros ??. unfold zdrop. rewrite drop_drop. f_equal. lia. Qed.

Lemma ztake_zdrop {A} (l : list A) n : ztake n l ++ zdrop n l = l.
Proof. unfold ztake, zdrop. apply take_drop. Qed.

Lemma slice_skip {A} (l k : list A) i n : zlen l <= i -> slice (l ++ k) i n = slice k (i - zlen l) n.
Proof. intros H. unfold slice. by rewrite zdrop_app. Qed.

Lemma slice_here {A} (l k : list A) n : zlen l = n -> slice (l ++ k) 0 n = l.
Proof. intros H. unfold slice. by rewrite zdrop_0, ztake_app. Qed.

Lemma slice_all {A} (l : list A) n : zlen l = n -> slice l 0 n = l.
Proof. intros H. unfold slice. rewrite zdrop_0. apply ztake_all. lia. Qed.

Lemma slice_app_l {A} (l k : list A) i n :
  0 <= i <= zlen l -> i + n <= zlen l -> slice (l ++ k) i n = slice l i n.
Proof.
  intros ??. unfold slice. rewrite zdrop_app_l by lia.
  apply ztake_app_l. rewrite zlen_zdrop. lia.
Qed.

Lemma head_app_l {A} (l k : list A) : 0 < zlen l -> head (l ++ k) = head l.
Proof. destruct l; [done|done]. Qed.

(** Reduce [slice], [ztake] and [zdrop] of a concatenation of pieces of known
    length. *)
Ltac slices :=
  repeat first
    [ rewrite slice_here by len_lia
    | rewrite slice_all by len_lia
    | rewrite slice_skip by len_lia; autorewrite with adb_len
    | rewrite zdrop_app_exact by len_lia
    | rewrite ztake_app by len_lia
    | rewrite zdrop_app by len_lia; autorewrite with adb_len ];
  try match goal with |- context [slice _ ?i _] =>
    let j := eval cbv in i in change i with j end.

(** ** Codec round trips *)

Lemma le_val_le_bytes n z : le_val (le_bytes n z) = z mod 2 ^ (8 * Z.of_nat n).
Proof.
  revert z. induction n as [|n IH]; intros z; [by rewrite Z.mod_1_r|].
  cbn [le_bytes le_val]. rewrite IH.
  replace (8 * Z.of_nat (S n)) with (8 + 8 * Z.of_nat n) by lia.
  rewrite Z.pow_add_r by lia. change (2 ^ 8) with 256.
  rewrite Z.rem_mul_r by lia. lia.
Qed.

Lemma le_val_u32 z : u32_ok z -> le_val (le_bytes 4 z) = z.
Proof. intros H. rewrite le_val_le_bytes. by apply Z.mod_small. Qed.
Lemma le_val_u64 z : u64_ok z -> le_val (le_bytes 8 z) = z.
Proof. intros H. rewrite le_val_le_bytes. by apply Z.mod_small. Qed.
Lemma le_val_i64 z : i64_ok z -> as_i64 (le_val (le_bytes 8 z)) = z.
Proof.
  unfold i64_ok, as_i64. intros H. rewrite le_val_le_bytes.
  change (2 ^ (8 * Z.of_nat 8)) with (2 ^ 64).
  rewrite Zplus_mod_idemp_l, Z.mod_small; lia.
Qed.
Lemma be_val_be_bytes n z : be_val (be_bytes n z) = z mod 2 ^ (8 * Z.of_nat n).
Proof. unfold be_val, be_bytes. by rewrite reverse_involutive, le_val_le_bytes. Qed.
#[export] Hint Resolve le_val_u32 le_val_u64 le_val_i64 : adb.

Lemma le_bytes_u8 n z : Forall u8_ok (le_bytes n z).
Proof.
  revert z. induction n as [|n IH]; intros z; simpl; constructor; auto.
  apply Z.mod_pos_bound. lia.
Qed.

Lemma le_val_bound l : Forall u8_ok l -> 0 <= le_val l < 2 ^ (8 * zlen l).
Proof.
  induction 1 as [|b l Hb _ IH]; [by split|].
  cbn [le_val]. rewrite zlen_cons.
  replace (8 * (1 + zlen l)) with (8 + 8 * zlen l) by lia.
  rewrite Z.pow_add_r by (try lia; specialize (zlen_nonneg l); lia).
  unfold u8_ok in Hb. nia.
Qed.

Lemma le_bytes_le_val l : Forall u8_ok l -> le_bytes (length l) (le_val l) = l.
Proof.
  induction 1 as [|b l Hb _ IH]; [done|].
  cbn [le_val length le_bytes]. unfold u8_ok in Hb.
  rewrite Z.mul_comm, Z.mod_add, Z.mod_small by lia.
  by rewrite Z.div_add, Z.div_small, Z.add_0_l, IH by lia.
Qed.

(** ** Bit packing *)

Lemma lor_shiftl a b k : 0 <= k -> 0 <= b < 2 ^ k -> Z.lor (Z.shiftl a k) b = a * 2 ^ k + b.
Proof.
  intros Hk Hb. rewrite <- Z.add_nocarry_lor; [by rewrite Z.shiftl_mul_pow2|].
  apply Z.bits_inj'. intros n Hn. rewrite Z.land_spec, Z.bits_0.
  destruct (decide (n < k)); [by rewrite Z.shiftl_spec_low by lia|].
  rewrite andb_comm. replace (Z.testbit b n) with false; [done|]. symmetry.
  destruct (decide (b = 0)) as [->|]; [apply Z.bits_0|].
  apply Z.bits_above_log2; [lia|]. apply Z.log2_lt_pow2; [lia|].
  eapply Z.lt_le_trans; [apply Hb|]. apply Z.pow_le_mono_r; lia.
Qed.

Lemma land_bit p k : 0 <= k -> Z.land p (2 ^ k) = if Z.testbit p k then 2 ^ k else 0.
Proof.
  intros Hk. apply Z.bits_inj'. intros n Hn. rewrite Z.land_spec, Z.pow2_bits_eqb by done.
  destruct (Z.eqb_spec k n) as [->|Hne].
  - destruct (Z.testbit p n); [by rewrite Z.pow2_bits_true|by rewrite Z.bits_0].
  - rewrite andb_false_r. destruct (Z.testbit p k); [by rewrite Z.pow2_bits_false|by rewrite Z.bits_0].
Qed.

(** ** Buffered reads *)

(** [while buf.len() < n { reader.read_buf(&mut buf) }] over the chunks the
    socket delivers. An empty chunk or the end of the list is [Ok(0)] or a read
    error: the connection is over. *)
Fixpoint fill (n : Z) (buf : bytes) (chunks : list bytes) : option (bytes * list bytes) :=
  if n <=? zlen buf then Some (buf, chunks)
  else match chunks with
       | (_ :: _) as c :: chunks => fill n (buf ++ c) chunks
       | _ => None
       end.

Definition nonempty_chunks (chunks : list bytes) : Prop := Forall (fun c => c <> []) chunks.

(** [fill] only regroups bytes, and fails exactly when too few are left. *)
Lemma fill_spec n buf chunks :
  nonempty_chunks chunks ->
  match fill n buf chunks with
  | Some (buf', chunks') =>
      n <= zlen buf' /\ zlen buf <= zlen buf' /\ buf' ++ concat chunks' = buf ++ concat chunks
      /\ nonempty_chunks chunks'
  | None => zlen (buf ++ concat chunks) < n
  end.
Proof.
  revert buf. induction chunks as [|c chunks IH]; intros buf Hne; cbn [fill].
  - case_bool; bool_to_prop; [done|]. simpl. by rewrite app_nil_r.
  - case_bool; bool_to_prop; [done|].
    apply Forall_cons in Hne as [Hc Hne]. destruct c as [|b c]; [done|].
    specialize (IH (buf ++ b :: c) Hne). destruct (fill _ _ _) as [[buf' chunks']|].
    + destruct IH as (? & ? & -> & ?). simpl. split_and!; [done|len_lia|..]; [|done]. by rewrite <- (assoc_L (++)).
    + simpl. by rewrite <- (assoc_L (++)) in IH.
Qed.

Global Arguments le_bytes : simpl never.
Global Arguments le_val : simpl never.
Global Arguments bs : simpl never.
