(* ===== verification/RustStd.v ===== *)
(** * What the sources use of Rust's standard library on text

    UTF-8 validation and [String::from_utf8_lossy] over byte strings, and the
    [str] operations the parsers call. *)

From stdpp Require Import base list strings.
From S2P Require Import Prelude.

(** ** UTF-8 *)

Definition in_range (lo hi b : Z) : bool := (lo <=? b) && (b <=? hi).
Definition is_cont (o : option Z) : bool :=
  match o with Some b => in_range 0x80 0xBF b | None => false end.

(** The first scalar of a non-empty byte string: whether it is well formed, and
    how many bytes it (or the maximal ill-formed prefix) takes. *)
Definition utf8_head (b : Z) (l : bytes) : bool * nat :=
  let second lo hi := match head l with Some x => in_range lo hi x | None => false end in
  if b <? 0x80 then (true, 1%nat)
  else if in_range 0xC2 0xDF b then
    if is_cont (l !! 0%nat) then (true, 2%nat) else (false, 1%nat)
  else if in_range 0xE0 0xEF b then
    let ok2 := if b =? 0xE0 then second 0xA0 0xBF
               else if b =? 0xED then second 0x80 0x9F
               else second 0x80 0xBF in
    if negb ok2 then (false, 1%nat)
    else if is_cont (l !! 1%nat) then (true, 3%nat) else (false, 2%nat)
  else if in_range 0xF0 0xF4 b then
    let ok2 := if b =? 0xF0 then second 0x90 0xBF
               else if b =? 0xF4 then second 0x80 0x8F
               else second 0x80 0xBF in
    if negb ok2 then (false, 1%nat)
    else if negb (is_cont (l !! 1%nat)) then (false, 2%nat)
    else if is_cont (l !! 2%nat) then (true, 4%nat) else (false, 3%nat)
  else (false, 1%nat).

Fixpoint utf8_valid_fuel (fuel : nat) (l : bytes) : bool :=
  match fuel, l with
  | _, [] => true
  | O, _ => false
  | S fuel, b :: l' =>
      let '(ok, n) := utf8_head b l' in ok && utf8_valid_fuel fuel (drop n l)
  end.

(** [std::str::from_utf8(l).is_ok()] *)
Definition utf8_valid (l : bytes) : bool := utf8_valid_fuel (length l) l.

(** ASCII text is valid. *)
Lemma utf8_valid_ascii l : Forall (fun b => 0 <= b < 0x80) l -> utf8_valid l = true.
Proof.
  unfold utf8_valid. induction 1 as [|b l Hb _ IH]; [done|].
  cbn [length utf8_valid_fuel]. unfold utf8_head. decide_if. cbn. exact IH.
Qed.

(** U+FFFD *)
Definition REPLACEMENT : bytes := [0xEF; 0xBF; 0xBD].

Fixpoint utf8_lossy_fuel (fuel : nat) (l : bytes) : bytes :=
  match fuel, l with
  | _, [] => []
  | O, _ => []
  | S fuel, b :: l' =>
      let '(ok, n) := utf8_head b l' in
      (if ok then take n l else REPLACEMENT) ++ utf8_lossy_fuel fuel (drop n l)
  end.

(** [String::from_utf8_lossy] *)
Definition from_utf8_lossy (l : bytes) : bytes := utf8_lossy_fuel (length l) l.

Lemma utf8_lossy_fuel_valid fuel l :
  utf8_valid_fuel fuel l = true -> utf8_lossy_fuel fuel l = l.
Proof.
  revert l. induction fuel as [|fuel IH]; intros [|b l] H; try done.
  cbn [utf8_valid_fuel utf8_lossy_fuel] in *.
  destruct (utf8_head b l) as [ok n]. bool_to_prop. subst ok.
  rewrite IH by done. by rewrite take_drop.
Qed.

(** Valid text is unchanged by the lossy decoder. *)
Lemma from_utf8_lossy_valid l : utf8_valid l = true -> from_utf8_lossy l = l.
Proof. apply utf8_lossy_fuel_valid. Qed.

(** ** Splitting *)

(** [s.split(c)]: pieces between the separators, empty ones included. *)
Fixpoint split_on (c : Z) (l : bytes) : list bytes :=
  match l with
  | [] => [[]]
  | b :: l =>
      match split_on c l with
      | [] => [[b]]
      | p :: ps => if b =? c then [] :: p :: ps else (b :: p) :: ps
      end
  end.

(** [parts.join(sep)] *)
Fixpoint join (sep : bytes) (ps : list bytes) : bytes :=
  match ps with
  | [] => []
  | [p] => p
  | p :: ps => p ++ sep ++ join sep ps
  end.

(** [s.strip_suffix(suffix)] *)
Definition strip_suffix (suf l : bytes) : option bytes :=
  let n := zlen l - zlen suf in
  if (0 <=? n) && bool_decide (zdrop n l = suf) then Some (ztake n l) else None.

Lemma split_on_nonempty c l : split_on c l <> [].
Proof. destruct l as [|b l]; simpl; [done|]. destruct (split_on c l); [done|]. by case_match. Qed.

(** Splitting undoes joining on pieces free of the separator. *)
Lemma split_on_app c p l :
  Forall (fun b => b <> c) p -> split_on c (p ++ c :: l) = p :: split_on c l.
Proof.
  induction 1 as [|b p Hb Hp IH]; simpl.
  - destruct (split_on c l) eqn:E; [by apply split_on_nonempty in E|]. by rewrite Z.eqb_refl.
  - rewrite IH. by replace (b =? c) with false by (symmetry; by apply Z.eqb_neq).
Qed.

Lemma split_on_none c p : Forall (fun b => b <> c) p -> split_on c p = [p].
Proof.
  induction 1 as [|b p Hb Hp IH]; simpl; [done|]. rewrite IH.
  by replace (b =? c) with false by (symmetry; by apply Z.eqb_neq).
Qed.

Lemma split_join c ps :
  ps <> [] -> Forall (Forall (fun b => b <> c)) ps -> split_on c (join [c] ps) = ps.
Proof.
  intros Hne. induction 1 as [|p ps Hp Hps IH]; [done|].
  destruct ps as [|q ps]; [by apply split_on_none|].
  change (split_on c (p ++ c :: join [c] (q :: ps)) = p :: q :: ps).
  rewrite split_on_app by done. by rewrite IH.
Qed.

(** ** Paths

    [std::path::Path] on Unix, on the raw bytes. *)

(** Text before the last ['/'] of a reversed path, slash included. *)
Fixpoint rev_dir (r : bytes) : bytes :=
  match r with
  | [] => []
  | b :: r' => if b =? 47 then r else rev_dir r'
  end.

(** Strip trailing slashes and ["."] components, keeping the root. *)
Fixpoint rev_trim (r : bytes) : bytes :=
  match r with
  | b :: ((b' :: r') as tl) =>
      if b =? 47 then rev_trim tl
      else if (b =? 46) && (b' =? 47) then rev_trim tl
      else r
  | _ => r
  end.

(** [p.rsplit(|b| *b == b'/').next()] *)
Definition last_component (p : bytes) : bytes :=
  reverse ((fix go r := match r with
                        | [] => []
                        | b :: r => if b =? 47 then [] else b :: go r
                        end) (reverse p)).

Definition path_trim (p : bytes) : bytes := reverse (rev_trim (reverse p)).

(** [Path::file_name] *)
Definition file_name (p : bytes) : option bytes :=
  let last := last_component (path_trim p) in
  if bool_decide (last = [] \/ last = bs "." \/ last = bs "..") then None else Some last.

(** [Path::parent] *)
Definition parent (p : bytes) : option bytes :=
  let t := path_trim p in
  if bool_decide (t = [] \/ t = bs "/") then None
  else Some (reverse (rev_trim (rev_dir (reverse t)))).

(** The text before and after the last [c]. *)
Fixpoint rsplit_at (c : Z) (l : bytes) : option (bytes * bytes) :=
  match l with
  | [] => None
  | b :: l' =>
      match rsplit_at c l' with
      | Some (x, y) => Some (b :: x, y)
      | None => if b =? c then Some ([], l') else None
      end
  end.

(** [Path::file_stem] and [Path::extension] of a file name. *)
Definition stem_ext (name : bytes) : bytes * option bytes :=
  match rsplit_at 46 name with
  | Some ((_ :: _) as stem, ext) => (stem, Some ext)
  | _ => (name, None)
  end.

(** [Path::join] *)
Definition path_join (a b : bytes) : bytes :=
  match b with
  | 47 :: _ => b
  | _ => match last a with
         | None => b
         | Some c => if c =? 47 then a ++ b else a ++ [47] ++ b
         end
  end.

(** [Path::with_file_name] *)
Definition with_file_name (p name : bytes) : bytes :=
  match file_name p with
  | None => path_join p name
  | Some _ => path_join (default [] (parent p)) name
  end.

Example paths_1 : file_name (bs "/sdcard//DCIM/./a.b.jpg/") = Some (bs "a.b.jpg")
  /\ parent (bs "/sdcard//DCIM/./a.b.jpg/") = Some (bs "/sdcard//DCIM")
  /\ stem_ext (bs "a.b.jpg") = (bs "a.b", Some (bs "jpg"))
  /\ stem_ext (bs ".bashrc") = (bs ".bashrc", None)
  /\ parent (bs "/a") = Some (bs "/") /\ parent (bs "/") = None /\ parent (bs "a") = Some []
  /\ path_join (bs "/") (bs "x") = bs "/x".
Proof. by vm_compute. Qed.
