(* ===== verification/Text.v ===== *)
(** * Operations on [str]

    The characters of a byte string, Unicode white space, and the methods of
    [str] the parsers use. *)

From stdpp Require Import base list strings pretty.
From S2P Require Import Prelude RustStd.

(** ** Characters *)

Fixpoint chars_fuel (fuel : nat) (l : bytes) : list bytes :=
  match fuel, l with
  | S fuel, b :: l' => let n := (utf8_head b l').2 in take n l :: chars_fuel fuel (drop n l)
  | _, _ => []
  end.
(** [s.chars()], each as its bytes. *)
Definition chars (l : bytes) : list bytes := chars_fuel (length l) l.

(** [char::is_whitespace]: the Unicode property White_Space. *)
Definition whitespace : list bytes :=
  [[9]; [10]; [11]; [12]; [13]; [32]; [0xC2; 0x85]; [0xC2; 0xA0]; [0xE1; 0x9A; 0x80];
   [0xE2; 0x80; 0x80]; [0xE2; 0x80; 0x81]; [0xE2; 0x80; 0x82]; [0xE2; 0x80; 0x83];
   [0xE2; 0x80; 0x84]; [0xE2; 0x80; 0x85]; [0xE2; 0x80; 0x86]; [0xE2; 0x80; 0x87];
   [0xE2; 0x80; 0x88]; [0xE2; 0x80; 0x89]; [0xE2; 0x80; 0x8A]; [0xE2; 0x80; 0xA8];
   [0xE2; 0x80; 0xA9]; [0xE2; 0x80; 0xAF]; [0xE2; 0x81; 0x9F]; [0xE3; 0x80; 0x80]].
Definition is_whitespace (c : bytes) : bool := bool_decide (c ∈ whitespace).

(** [s.split_whitespace()] *)
Fixpoint words (cs : list bytes) (cur : bytes) : list bytes :=
  let flush := match cur with [] => [] | _ => [cur] end in
  match cs with
  | [] => flush
  | c :: cs => if is_whitespace c then flush ++ words cs [] else words cs (cur ++ c)
  end.
Definition split_whitespace (l : bytes) : list bytes := words (chars l) [].

Fixpoint drop_while {A} (f : A -> bool) (l : list A) : list A :=
  match l with
  | [] => []
  | x :: l' => if f x then drop_while f l' else l
  end.
(** [s.trim()] *)
Definition trim (l : bytes) : bytes :=
  concat (reverse (drop_while is_whitespace (reverse (drop_while is_whitespace (chars l))))).

(** [s.lines()]: the pieces between newlines without a carriage return before
    the newline; an empty last piece is none. *)
Definition strip_cr (l : bytes) : bytes := default l (strip_suffix [13] l).
Fixpoint lines_of (ps : list bytes) : list bytes :=
  match ps with
  | [] => []
  | [p] => match p with [] => [] | _ => [p] end
  | p :: ps => strip_cr p :: lines_of ps
  end.
Definition lines (l : bytes) : list bytes := lines_of (split_on 10 l).

(** ** Searching *)

(** [s.starts_with(p)], [s.strip_prefix(p)] *)
Definition has_prefix (p l : bytes) : bool := bool_decide (ztake (zlen p) l = p).
Definition strip_pre (p l : bytes) : option bytes :=
  if has_prefix p l then Some (zdrop (zlen p) l) else None.

(** [s.contains(p)] *)
Fixpoint contains (p l : bytes) : bool :=
  has_prefix p l || match l with [] => false | _ :: l => contains p l end.

(** [s.split_once(p)]: around the first occurrence. *)
Fixpoint split_once (p l : bytes) : option (bytes * bytes) :=
  if has_prefix p l then Some ([], zdrop (zlen p) l)
  else match l with
       | [] => None
       | b :: l => (fun '(x, y) => (b :: x, y)) <$> split_once p l
       end.

(** [s.rsplit_once(p)]: around the last occurrence. *)
Fixpoint rsplit_once (p l : bytes) : option (bytes * bytes) :=
  match match l with [] => None | b :: l => (fun '(x, y) => (b :: x, y)) <$> rsplit_once p l end with
  | Some r => Some r
  | None => if has_prefix p l then Some ([], zdrop (zlen p) l) else None
  end.

(** [str]'s order: byte by byte, a prefix first. *)
Fixpoint bytes_cmp (a b : bytes) : comparison :=
  match a, b with
  | [], [] => Eq
  | [], _ => Lt
  | _, [] => Gt
  | x :: a, y :: b => match x ?= y with Eq => bytes_cmp a b | c => c end
  end.

(** [BTreeSet<String>] as a sorted list without repetition, by bytes. *)
Fixpoint set_insert (x : bytes) (s : list bytes) : list bytes :=
  match s with
  | [] => [x]
  | y :: s' => match bytes_cmp x y with
               | Lt => x :: s
               | Eq => s
               | Gt => y :: set_insert x s'
               end
  end.

Lemma bytes_cmp_eq a b : bytes_cmp a b = Eq -> a = b.
Proof.
  revert b. induction a as [|x a IH]; intros [|y b] H; try done. cbn in H.
  destruct (x ?= y) eqn:E; try done. apply Z.compare_eq in E as ->. f_equal. auto.
Qed.

Lemma elem_of_set_insert x y s : x ∈ set_insert y s <-> x = y \/ x ∈ s.
Proof.
  induction s as [|z s IH]; cbn [set_insert]; [by rewrite list_elem_of_singleton, elem_of_nil; naive_solver|].
  destruct (bytes_cmp y z) eqn:E; [apply bytes_cmp_eq in E as ->|..]; rewrite !elem_of_cons, ?IH; naive_solver.
Qed.

(** ** Bytes and numbers *)

Definition is_digit (b : Z) : bool := in_range 48 57 b.
Definition is_alpha (b : Z) : bool := in_range 65 90 b || in_range 97 122 b.
Definition is_alnum (b : Z) : bool := is_digit b || is_alpha b.
Definition is_hex (b : Z) : bool := is_digit b || in_range 65 70 b || in_range 97 102 b.
Definition hex_val (b : Z) : Z :=
  if is_digit b then b - 48 else if in_range 97 102 b then b - 87 else b - 55.

(** [T::from_str_radix] and [parse]: an optional plus sign and digits, within
    the type's maximum. *)
Definition unsigned (radix : Z) (ok : Z -> bool) (val : Z -> Z) (max : Z) (l : bytes) : option Z :=
  let l := match l with 43 :: l' => match l' with [] => l | _ => l' end | _ => l end in
  if bool_decide (l <> []) && forallb ok l then
    let n := fold_left (fun a b => a * radix + val b) l 0 in
    if n <=? max then Some n else None
  else None.
Definition parse_hex (max : Z) : bytes -> option Z := unsigned 16 is_hex hex_val max.
Definition parse_dec (max : Z) : bytes -> option Z := unsigned 10 is_digit (fun b => b - 48) max.

Example text_1 : split_whitespace (bs "  R58 device  usb:1-1 ") = [bs "R58"; bs "device"; bs "usb:1-1"]
  /\ trim (bs "  a b
") = bs "a b"
  /\ lines (bs "one" ++ [13; 10] ++ bs "two" ++ [10]) = [bs "one"; bs "two"]
  /\ split_once (bs "=") (bs "a=b=c") = Some (bs "a", bs "b=c")
  /\ rsplit_once (bs "=") (bs "a=b=c") = Some (bs "a=b", bs "c")
  /\ parse_hex 65535 (bs "00fF") = Some 255 /\ parse_dec 65535 (bs "65536") = None.
Proof. by vm_compute. Qed.

(** ** ASCII text *)

Definition ascii (l : bytes) : Prop := Forall (fun b => 0 <= b < 0x80) l.

Lemma chars_ascii l : ascii l -> chars l = (fun b => [b]) <$> l.
Proof.
  unfold chars. induction 1 as [|b l Hb _ IH]; [done|].
  cbn [length chars_fuel]. unfold utf8_head. decide_if. cbn [snd].
  change (take 1 (b :: l)) with [b]. change (drop 1 (b :: l)) with l. by rewrite IH.
Qed.

Definition blank (b : Z) : bool := in_range 9 13 b || (b =? 32).

Lemma is_whitespace_byte b : 0 <= b < 0x80 -> is_whitespace [b] = blank b.
Proof.
  intros Hb. unfold is_whitespace, blank, in_range. apply eq_true_iff_eq.
  rewrite bool_decide_eq_true, orb_true_iff, andb_true_iff, !Z.leb_le, Z.eqb_eq.
  unfold whitespace. rewrite !elem_of_cons, elem_of_nil. split.
  - intros H. repeat (destruct H as [H|H]; [simplify_eq; lia|]). done.
  - intros [H|H]; [|naive_solver].
    assert (b = 9 \/ b = 10 \/ b = 11 \/ b = 12 \/ b = 13) as [->|[->|[->|[->| ->]]]] by lia; tauto.
Qed.

(** A word: ASCII, without blanks, not empty. *)
Definition is_word (w : bytes) : Prop := ascii w /\ Forall (fun b => blank b = false) w /\ w <> [].

Lemma words_word w cs cur :
  ascii w -> Forall (fun b => blank b = false) w ->
  words (((fun b => [b]) <$> w) ++ cs) cur = words cs (cur ++ w).
Proof.
  intros Ha Hb. revert cur. induction Ha as [|b w Hx Ha IH]; intros cur; [by rewrite app_nil_r|].
  inv Hb. cbn [fmap list_fmap app words]. rewrite is_whitespace_byte by done.
  replace (blank b) with false by done. rewrite IH by done. by rewrite <- app_assoc.
Qed.

Lemma words_blank b cs cur :
  0 <= b < 0x80 -> blank b = true ->
  words ([b] :: cs) cur = match cur with [] => [] | _ => [cur] end ++ words cs [].
Proof. intros Hb Hk. cbn [words]. by rewrite is_whitespace_byte, Hk. Qed.

(** Digits without a sign. *)
Lemma unsigned_digits radix ok val max l :
  l <> [] -> ok 43 = false -> forallb ok l = true ->
  fold_left (fun a b => a * radix + val b) l 0 <= max ->
  unsigned radix ok val max l = Some (fold_left (fun a b => a * radix + val b) l 0).
Proof.
  intros Hne H43 Hok Hmax. unfold unsigned.
  replace (match l with 43 :: l' => match l' with [] => l | _ => l' end | _ => l end) with l.
  - rewrite bool_decide_eq_true_2, Hok by done. simpl. by rewrite (proj2 (Z.leb_le _ _)).
  - destruct l as [|b l]; [done|]. simpl in Hok. apply andb_true_iff in Hok as [Hb _].
    assert (b <> 43) by congruence. by repeat case_match.
Qed.

Lemma unsigned_bound radix ok val max l n :
  0 <= radix -> (forall b, ok b = true -> 0 <= val b) -> unsigned radix ok val max l = Some n -> 0 <= n <= max.
Proof.
  intros Hr Hv. unfold unsigned. set (l' := match l with 43 :: _ => _ | _ => _ end).
  case_bool; [|done]. case_bool; [|done]. intros [= <-]. bool_to_prop. split; [|done].
  assert (Hf : forall k a, forallb ok k = true -> 0 <= a -> 0 <= fold_left (fun a b => a * radix + val b) k a).
  { clear - Hr Hv. induction k as [|b k IH]; intros a Hk Ha; [done|]. simpl in *. bool_to_prop.
    apply IH; [done|]. specialize (Hv b ltac:(done)). nia. }
  by apply Hf.
Qed.

Lemma has_prefix_spec p l : has_prefix p l = true -> l = p ++ zdrop (zlen p) l.
Proof. unfold has_prefix. intros H. bool_to_prop. rewrite <- H at 1. symmetry. apply ztake_zdrop. Qed.

(** Printed lines are read back. *)
Lemma lines_printed ls :
  Forall (Forall (fun b => b <> 10 /\ b <> 13)) ls ->
  lines (concat ((fun l => l ++ [10]) <$> ls)) = ls.
Proof.
  intros H. unfold lines. induction H as [|l ls Hl Hls IH]; [done|].
  cbn [fmap list_fmap concat]. rewrite <- app_assoc. simpl.
  rewrite split_on_app by (eapply Forall_impl; [exact Hl|]; naive_solver).
  destruct (split_on 10 (concat _)) as [|p ps] eqn:E; [by apply split_on_nonempty in E|].
  change (strip_cr l :: lines_of (p :: ps) = l :: ls). rewrite IH. f_equal. unfold strip_cr.
  destruct (strip_suffix [13] l) as [l'|] eqn:Es; [|done]. exfalso. unfold strip_suffix in Es.
  case_match eqn:Hm; simplify_eq. apply andb_true_iff in Hm as [_ Hm]. apply bool_decide_eq_true in Hm.
  assert (13 ∈ l) as H13.
  { rewrite <- (ztake_zdrop l (zlen l - zlen [13])), Hm. apply elem_of_app. right. by left. }
  rewrite Forall_forall in Hl. by apply Hl in H13 as [_ ?].
Qed.

Lemma word_no_newline w : is_word w -> Forall (fun b => b <> 10 /\ b <> 13) w.
Proof. intros (_ & H & _). eapply Forall_impl; [exact H|]. intros b Hb. split; intros ->; done. Qed.

(** Trimming a word, and splitting off what was put in front. *)
Lemma drop_while_head {A} (f : A -> bool) x l : f x = false -> drop_while f (x :: l) = x :: l.
Proof. intros H. simpl. by rewrite H. Qed.
Lemma concat_singletons (l : bytes) : concat ((fun b => [b]) <$> l) = l.
Proof. induction l as [|b l IH]; [done|]. cbn. f_equal. exact IH. Qed.
Lemma trim_ends l x y : ascii l -> head l = Some x -> last l = Some y -> blank x = false -> blank y = false -> trim l = l.
Proof.
  intros Ha Hx Hy Bx By. unfold trim. rewrite chars_ascii by done.
  destruct l as [|x' l]; [done|]. injection Hx as ->. cbn [fmap list_fmap].
  rewrite drop_while_head by (rewrite is_whitespace_byte; [done|by apply Forall_inv in Ha]).
  change ([x] :: ((fun b => [b]) <$> l)) with ((fun b : Z => [b]) <$> (x :: l)). rewrite <- fmap_reverse.
  destruct (x :: l) as [|z k _] using rev_ind; [done|]. rewrite last_snoc in Hy. injection Hy as ->.
  rewrite reverse_snoc. cbn [fmap list_fmap].
  rewrite drop_while_head by (rewrite is_whitespace_byte; [done|apply Forall_app in Ha as [_ Ha]; by apply Forall_inv in Ha]).
  change ([y] :: ((fun b => [b]) <$> reverse k)) with ((fun b : Z => [b]) <$> (y :: reverse k)).
  rewrite <- fmap_reverse, reverse_cons, reverse_involutive. apply concat_singletons.
Qed.
Lemma trim_word w : is_word w -> trim w = w.
Proof.
  intros (Ha & Hb & Hne). destruct w as [|x w]; [done|].
  destruct (last (x :: w)) as [y|] eqn:Hl; [|by apply last_None in Hl].
  apply (trim_ends _ x y); [done|done|done|by apply Forall_inv in Hb|].
  rewrite Forall_forall in Hb. apply Hb. by apply last_Some_elem_of.
Qed.
Lemma has_prefix_app p l : has_prefix p (p ++ l) = true.
Proof. unfold has_prefix. apply bool_decide_eq_true. by apply ztake_app. Qed.
Lemma strip_pre_app p l : strip_pre p (p ++ l) = Some l.
Proof. unfold strip_pre. rewrite has_prefix_app. f_equal. by apply zdrop_app_exact. Qed.
Lemma rsplit_once_none c l : Forall (fun b => b <> c) l -> rsplit_once [c] l = None.
Proof.
  induction 1 as [|b l Hb _ IH]; [done|]. cbn [rsplit_once]. rewrite IH. cbn.
  unfold has_prefix. case_bool_decide as E; [|done]. injection E as ->. done.
Qed.
Lemma rsplit_once_last c a l : Forall (fun b => b <> c) l -> rsplit_once [c] (a ++ [c] ++ l) = Some (a, l).
Proof.
  intros H. induction a as [|b a IH]; [|cbn [app rsplit_once]; cbn [app] in IH; by rewrite IH].
  cbn [app rsplit_once]. rewrite rsplit_once_none by done. cbn [fmap option_fmap option_map].
  change (c :: l) with ([c] ++ l). rewrite has_prefix_app. f_equal.
Qed.

(** ** Decimals *)

Lemma fmt_dec_digits z : Forall (fun b => is_digit b = true) (fmt_dec z) /\ fmt_dec z <> [].
Proof.
  unfold fmt_dec. assert (Hgo : forall x s, Forall (fun b => is_digit b = true) (bs s) ->
    Forall (fun b => is_digit b = true) (bs (pretty_N_go x s)) /\ ((0 < x)%N \/ bs s <> [] -> bs (pretty_N_go x s) <> [])).
  { intros x. induction (N.lt_wf_0 x) as [x _ IH]. intros s Hs. destruct (decide (x = 0%N)) as [->|Hx].
    - rewrite pretty_N_go_0. split; [done|]. intros [?|?]; [lia|done].
    - rewrite pretty_N_go_step by lia. destruct (IH (x `div` 10)%N) with (s := String (pretty_N_char (x `mod` 10)) s) as [H1 H2].
      + apply N.div_lt; lia.
      + change (bs (String ?a ?s)) with (Z.of_N (Ascii.N_of_ascii a) :: bs s). constructor; [|done].
        assert (Hm : (x `mod` 10 < 10)%N) by (apply N.mod_lt; lia). generalize dependent (x `mod` 10)%N. clear.
        intros m Hm. assert (m = 0 \/ m = 1 \/ m = 2 \/ m = 3 \/ m = 4 \/ m = 5 \/ m = 6 \/ m = 7 \/ m = 8 \/ m = 9)%N as Hc by lia.
        by repeat (destruct Hc as [->|Hc]; [done|]); subst.
      + split; [done|]. intros _. apply H2. right. done. }
  unfold pretty, pretty_N. case_decide as Hz; [split; [by repeat constructor|done]|].
  destruct (Hgo (Z.to_N z) ""%string) as [H1 H2]; [constructor|]. split; [done|]. apply H2. left. lia.
Qed.

Lemma fmt_dec_len (k : nat) z : (0 < k)%nat -> z < 2 ^ Z.of_nat k -> zlen (fmt_dec z) <= Z.of_nat k.
Proof.
  assert (Hgo : forall k x s, (x < 2 ^ N.of_nat k)%N -> (length (bs (pretty_N_go x s)) <= k + length (bs s))%nat).
  { clear. intros k. induction k as [|k IH]; intros x s Hx.
    - assert (x = 0%N) as -> by (cbn in Hx; lia). by rewrite pretty_N_go_0.
    - destruct (decide (x = 0%N)) as [->|Hne]; [rewrite pretty_N_go_0; lia|]. rewrite pretty_N_go_step by lia.
      etrans; [apply IH|]; [|change (bs (String ?a ?s)) with (Z.of_N (Ascii.N_of_ascii a) :: bs s); cbn [length]; lia].
      rewrite Nat2N.inj_succ, N.pow_succ_r' in Hx. apply N.Div0.div_lt_upper_bound. lia. }
  intros Hk Hz. unfold fmt_dec, pretty, pretty_N. case_decide as E; [change (zlen (bs "0")) with 1; lia|]. unfold zlen. apply inj_le.
  etrans; [apply (Hgo k)|change (length (bs ""%string)) with 0%nat; lia]. apply N2Z.inj_lt. rewrite N2Z.inj_pow, nat_N_Z. change (Z.of_N 2) with 2.
  destruct (decide (0 <= z)) as [H0|H0]; [by rewrite Z2N.id|]. assert (0 < 2 ^ Z.of_nat k) by (apply Z.pow_pos_nonneg; lia). lia.
Qed.
