(* ===== verification/Packet.v ===== *)
(** * ADB wire packets: [crates/adb-device/src/packet.rs] and [error.rs]

    The eight ADB commands, the 24-byte message header with its additive
    checksum and complement magic, and the (fallible) encoder and decoder of a
    message. The theorems show that decoding inverts encoding, that the decoder
    accepts nothing but canonical frames, and when encoding fails. *)

From stdpp Require Import base list strings.
From S2P Require Import Prelude.

(** ** Errors: [AdbError] *)

(** The payload of the library errors ([rusb], [std::io], [der]) is their
    displayed text. *)
Inductive AdbError : Type :=
| Usb (e : bytes)
| Io (e : bytes)
| Der (e : bytes)
| Protocol (msg : bytes)
| DeviceNotFound (id : bytes)
| Disconnected
| Unauthorized
| Timeout
| InvalidResponse (msg : bytes)
| Other (msg : bytes).

Abbreviation adb_result := (result AdbError).

(** ** Constants *)

Definition ADB_VERSION : Z := 0x01000000.
Definition MAX_PAYLOAD : Z := 256 * 1024.

Definition A_SYNC : Z := 0x434e5953.
Definition A_CNXN : Z := 0x4e584e43.
Definition A_OPEN : Z := 0x4e45504f.
Definition A_OKAY : Z := 0x59414b4f.
Definition A_CLSE : Z := 0x45534c43.
Definition A_WRTE : Z := 0x45545257.
Definition A_AUTH : Z := 0x48545541.
Definition A_FAIL : Z := 0xFFFFFFFF.

Definition AUTH_TOKEN : Z := 1.
Definition AUTH_SIGNATURE : Z := 2.
Definition AUTH_RSAPUBLICKEY : Z := 3.

(** ** Commands *)

Module Command.

Inductive t : Type :=
| Sync | Connect | Open | Okay | Close | Write | Auth | Fail.

#[global] Instance eq_dec : EqDecision t.
Proof. solve_decision. Defined.

Definition from_u32 (v : Z) : option t :=
  if v =? A_SYNC then Some Sync
  else if v =? A_CNXN then Some Connect
  else if v =? A_OPEN then Some Open
  else if v =? A_OKAY then Some Okay
  else if v =? A_CLSE then Some Close
  else if v =? A_WRTE then Some Write
  else if v =? A_AUTH then Some Auth
  else if v =? A_FAIL then Some Fail
  else None.

Definition as_u32 (c : t) : Z :=
  match c with
  | Sync => A_SYNC
  | Connect => A_CNXN
  | Open => A_OPEN
  | Okay => A_OKAY
  | Close => A_CLSE
  | Write => A_WRTE
  | Auth => A_AUTH
  | Fail => A_FAIL
  end.

Lemma from_as c : from_u32 (as_u32 c) = Some c.
Proof. by destruct c. Qed.

Lemma from_u32_inv v c : from_u32 v = Some c -> v = as_u32 c.
Proof.
  unfold from_u32. intros H.
  repeat case_match; simplify_eq; bool_to_prop; by subst.
Qed.

Lemma as_u32_ok c : u32_ok (as_u32 c).
Proof. destruct c; unfold u32_ok; vm_compute; split; congruence. Qed.

End Command.

(** ** Messages *)

(** [data_checksum]: the wrapping 32-bit sum of the bytes. *)
Definition data_checksum (data : bytes) : Z :=
  fold_left (fun a b => Prelude.as_u32 (a + b)) data 0.

Lemma data_checksum_ok data : u32_ok (data_checksum data).
Proof.
  unfold data_checksum. assert (u32_ok 0) as H0 by (unfold u32_ok; lia).
  revert H0. generalize 0 as a.
  induction data as [|b data IH]; intros a Ha; [done|].
  simpl. apply IH. unfold u32_ok, Prelude.as_u32. apply Z.mod_pos_bound. lia.
Qed.
#[export] Hint Resolve Command.as_u32_ok data_checksum_ok : adb.

(** [{:08x}] of an unsigned integer: lower-case hex, padded to eight digits. *)
Definition hex_digit (d : Z) : Z := if d <? 10 then 48 + d else 87 + d.
Definition fmt_08x (z : Z) : bytes :=
  (fun i => hex_digit (Z.shiftr z (4 * i) `mod` 16)) <$> [7; 6; 5; 4; 3; 2; 1; 0].

Module Message.

Record t : Type := new {
  command : Command.t;
  arg0 : Z;
  arg1 : Z;
  payload : bytes;
}.

Definition HEADER_LEN : Z := 24.

(** The fields at their Rust types. *)
Definition wf (m : t) : Prop := u32_ok (arg0 m) /\ u32_ok (arg1 m).

Definition try_encode (m : t) : adb_result bytes :=
  let n := zlen (payload m) in
  if n <? 2 ^ 32 then
    Ok (le_bytes 4 (Command.as_u32 (command m))
        ++ le_bytes 4 (arg0 m)
        ++ le_bytes 4 (arg1 m)
        ++ le_bytes 4 n
        ++ le_bytes 4 (data_checksum (payload m))
        ++ le_bytes 4 (Z.lxor (Command.as_u32 (command m)) 0xFFFFFFFF)
        ++ payload m)
  else
    Err (Protocol (bs "payload length " ++ fmt_dec n
                   ++ bs " exceeds the 32-bit ADB data_length field")).

(** [encode] panics ([expect]) where [try_encode] fails: [None] is the panic. *)
Definition encode (m : t) : option bytes := ok (try_encode m).

Definition decode (h : bytes) (p : bytes) : adb_result t :=
  let cmd := u32_le_at h 0 in
  let a0 := u32_le_at h 4 in
  let a1 := u32_le_at h 8 in
  let data_length := u32_le_at h 12 in
  let data_crc := u32_le_at h 16 in
  let magic := u32_le_at h 20 in
  c ← ok_or (Command.from_u32 cmd)
        (InvalidResponse (bs "unknown command 0x" ++ fmt_08x cmd));
  if negb (magic =? Z.lxor (Command.as_u32 c) 0xFFFFFFFF) then
    Err (InvalidResponse (bs "magic mismatch"))
  else if negb (data_length =? zlen p) then
    Err (InvalidResponse (bs "payload length " ++ fmt_dec (zlen p)
                          ++ bs " != header " ++ fmt_dec data_length))
  else
    let actual_crc := data_checksum p in
    if negb (actual_crc =? data_crc) then
      Err (InvalidResponse (bs "crc mismatch: got " ++ fmt_08x actual_crc
                            ++ bs ", want " ++ fmt_08x data_crc))
    else Ok (new c a0 a1 p).

(** ** Header layout *)

Definition header (c : Z) (a0 a1 n crc magic : Z) : bytes :=
  le_bytes 4 c ++ le_bytes 4 a0 ++ le_bytes 4 a1
  ++ le_bytes 4 n ++ le_bytes 4 crc ++ le_bytes 4 magic.

Lemma header_len c a0 a1 n crc m : zlen (header c a0 a1 n crc m) = HEADER_LEN.
Proof. unfold header, HEADER_LEN. len_lia. Qed.

Lemma header_fields c a0 a1 n crc m :
  u32_ok c -> u32_ok a0 -> u32_ok a1 -> u32_ok n -> u32_ok crc -> u32_ok m ->
  let h := header c a0 a1 n crc m in
  u32_le_at h 0 = c /\ u32_le_at h 4 = a0 /\ u32_le_at h 8 = a1 /\
  u32_le_at h 12 = n /\ u32_le_at h 16 = crc /\ u32_le_at h 20 = m.
Proof.
  intros. unfold h, u32_le_at, header. repeat split; slices; auto with adb.
Qed.

Lemma complement_u32 c : u32_ok c -> u32_ok (Z.lxor c 0xFFFFFFFF).
Proof.
  unfold u32_ok. intros H. change 0xFFFFFFFF with (Z.ones 32).
  rewrite <- (Z.mod_small c (2 ^ 32)) at 1 2 by lia.
  rewrite <- Z.land_ones by lia.
  replace (Z.lxor (Z.land c (Z.ones 32)) (Z.ones 32))
    with (Z.land (Z.lxor c (Z.ones 32)) (Z.ones 32)).
  - rewrite Z.land_ones by lia. apply Z.mod_pos_bound. lia.
  - apply Z.bits_inj'. intros i Hi. rewrite !Z.land_spec, !Z.lxor_spec, Z.land_spec.
    by destruct (Z.testbit c i), (Z.testbit (Z.ones 32) i).
Qed.

(** A 24-byte header is determined by its six words. *)
Lemma header_eta h :
  Forall u8_ok h -> zlen h = HEADER_LEN ->
  h = header (u32_le_at h 0) (u32_le_at h 4) (u32_le_at h 8)
             (u32_le_at h 12) (u32_le_at h 16) (u32_le_at h 20).
Proof.
  intros Hu Hl. unfold zlen, HEADER_LEN in Hl.
  do 24 (destruct h as [|? h]; [simpl in Hl; lia|]).
  destruct h as [|? h]; [|simpl in Hl; lia].
  repeat match goal with H : Forall _ (_ :: _) |- _ => inversion_clear H end.
  unfold header, u32_le_at, slice, ztake, zdrop.
  change (Z.to_nat 0) with 0%nat; change (Z.to_nat 4) with 4%nat;
  change (Z.to_nat 8) with 8%nat; change (Z.to_nat 12) with 12%nat;
  change (Z.to_nat 16) with 16%nat; change (Z.to_nat 20) with 20%nat.
  cbn [drop take app].
  repeat match goal with |- context [le_bytes 4 (le_val ?l)] =>
    change (le_bytes 4 (le_val l)) with (le_bytes (length l) (le_val l));
    rewrite (le_bytes_le_val l) by (rewrite !Forall_cons, Forall_nil; tauto) end.
  reflexivity.
Qed.

Lemma try_encode_header m b :
  try_encode m = Ok b ->
  zlen (payload m) < 2 ^ 32 /\
  b = header (Command.as_u32 (command m)) (arg0 m) (arg1 m) (zlen (payload m))
        (data_checksum (payload m)) (Z.lxor (Command.as_u32 (command m)) 0xFFFFFFFF)
      ++ payload m.
Proof.
  unfold try_encode, header. case_match; intros; simplify_eq. bool_to_prop.
  split; [done|]. by rewrite <- !(assoc_L (++)).
Qed.

(** [decode] on a header given by its words. *)
Lemma decode_header_ok c a0 a1 p :
  u32_ok a0 -> u32_ok a1 -> zlen p < 2 ^ 32 ->
  decode (header (Command.as_u32 c) a0 a1 (zlen p) (data_checksum p)
            (Z.lxor (Command.as_u32 c) 0xFFFFFFFF)) p = Ok (new c a0 a1 p).
Proof.
  intros H0 H1 Hp. unfold decode.
  assert (u32_ok (zlen p)) as Hn by len_lia.
  destruct (header_fields (Command.as_u32 c) a0 a1 (zlen p) (data_checksum p)
    (Z.lxor (Command.as_u32 c) 0xFFFFFFFF)) as (-> & -> & -> & -> & -> & ->);
    auto using complement_u32 with adb.
  rewrite Command.from_as. cbn. by rewrite !Z.eqb_refl.
Qed.

(** ** Properties *)

(** Round trip. A message that [try_encode] accepts is recovered exactly by
    [decode] from the first 24 bytes (the header) and the rest (the payload)
    of its encoding, for every command, arguments and payload. *)
Theorem decode_encode (m : t) (b : bytes) :
  wf m -> try_encode m = Ok b ->
  decode (ztake HEADER_LEN b) (zdrop HEADER_LEN b) = Ok m.
Proof.
  intros [H0 H1] (Hp & ->)%try_encode_header.
  rewrite ztake_app, zdrop_app_exact by apply header_len.
  rewrite decode_header_ok by done. by destruct m.
Qed.

Lemma decode_encode_witness :
  decode (ztake 24 (le_bytes 4 A_OKAY ++ le_bytes 4 7 ++ le_bytes 4 9 ++ le_bytes 4 2
                    ++ le_bytes 4 3 ++ le_bytes 4 (Z.lxor A_OKAY 0xFFFFFFFF) ++ [1; 2]))
         [1; 2] = Ok (new Command.Okay 7 9 [1; 2]).
Proof.
  apply (decode_encode (new Command.Okay 7 9 [1; 2])
    (le_bytes 4 A_OKAY ++ le_bytes 4 7 ++ le_bytes 4 9 ++ le_bytes 4 2
     ++ le_bytes 4 3 ++ le_bytes 4 (Z.lxor A_OKAY 0xFFFFFFFF) ++ [1; 2])).
  - unfold wf, u32_ok; simpl; lia.
  - vm_compute. reflexivity.
Defined.

(** Canonicity. [decode] accepts a 24-byte header and a payload only when
    together they are byte for byte the encoding of the message it returns:
    no other frame (wrong magic, length or checksum, unknown command) is ever
    accepted. *)
Theorem encode_decode (h p : bytes) (m : t) :
  Forall u8_ok h -> zlen h = HEADER_LEN -> decode h p = Ok m ->
  try_encode m = Ok (h ++ p) /\ wf m.
Proof.
  intros Hu Hl. unfold decode.
  assert (forall i, 0 <= i -> u32_ok (u32_le_at h i)) as Hw.
  { intros i Hi. unfold u32_ok, u32_le_at, slice, ztake, zdrop.
    assert (Forall u8_ok (take (Z.to_nat 4) (drop (Z.to_nat i) h))) as Hs
      by (by apply Forall_take, Forall_drop).
    apply le_val_bound in Hs. split; [lia|]. eapply Z.lt_le_trans; [apply Hs|].
    apply Z.pow_le_mono_r; [lia|]. unfold zlen. rewrite length_take. lia. }
  destruct (Command.from_u32 _) as [c|] eqn:Hc; [|done].
  apply Command.from_u32_inv in Hc. cbn.
  repeat case_bool; intros; simplify_eq; bool_to_prop.
  pose proof (header_eta h Hu Hl) as Hh. rewrite <- Hc in *.
  split; [|split; apply Hw; lia].
  unfold try_encode; cbn.
  replace (zlen p <? 2 ^ 32) with true
    by (symmetry; apply Z.ltb_lt; specialize (Hw 12); unfold u32_ok in Hw; lia).
  f_equal. symmetry. etransitivity; [apply (f_equal (.++ p) Hh)|].
  unfold header. rewrite <- !(assoc_L (++)).
  repeat match goal with H : u32_le_at h _ = _ |- _ => rewrite H end.
  repeat match goal with H : _ = u32_le_at h _ |- _ => rewrite <- H end.
  reflexivity.
Qed.

Lemma encode_decode_witness :
  try_encode (new Command.Close 1 2 []) =
  Ok (header A_CLSE 1 2 0 0 (Z.lxor A_CLSE 0xFFFFFFFF) ++ []).
Proof.
  apply (encode_decode _ _ (new Command.Close 1 2 [])).
  - vm_compute. repeat constructor; congruence.
  - reflexivity.
  - vm_compute. reflexivity.
Defined.

(** Encoding fails, as a [Protocol] error and never by truncating the
    length field, exactly on payloads of 2^32 bytes or more. *)
Theorem try_encode_error (m : t) :
  (exists e, try_encode m = Err (Protocol e)) <-> 2 ^ 32 <= zlen (payload m).
Proof.
  unfold try_encode. case_bool; bool_to_prop; split.
  - intros [e He]. discriminate.
  - lia.
  - done.
  - eauto.
Qed.

End Message.
