(* ===== verification/Connection.v ===== *)
(** * A multiplexed adb connection (adb-device/src/connection.rs)

    [AdbConnection] as a machine: its reader task, its writer task, the tasks
    that close streams and the callers of [open_stream], [poll_read] and
    [poll_write] are the actors, an event is what one of them does between two
    awaits, and an event that would wait is not enabled. The stream of bytes of
    the transport enters as the frames the reader reads and leaves as the
    frames the writer wrote. *)

From stdpp Require Import base list gmap strings.
From S2P Require Import Prelude RustStd Packet.

Definition WRITE_QUEUE : Z := 2048.
Definition DATA_QUEUE : Z := 256.

Inductive WriteReq : Type :=
| Frame (m : Message.t)
| Data (local remote : Z) (payload : bytes).

(** The receiving side of a stream: its data channel and the chunk [poll_read]
    has begun; [sid] and [close_tx] are set once the stream is open. *)
Record endpoint : Type := mkEnd {
  rx : list bytes;
  incoming : option bytes;
  sid : option (Z * Z);
  close_tx : bool;
}.

(** Where the reader task is: between frames, sending a payload to a stream's
    channel, sending an answer to the writer, or gone. In the middle two it
    holds a clone of the stream's sender. *)
Inductive reader_at : Type :=
| RIdle
| RDeliver (local remote : Z) (payload : bytes)
| RReply (local : Z) (m : Message.t)
| RStopped.

(** A caller of [open_stream]: sending its OPEN, or waiting for the answer. *)
Inductive opener_at : Type := OSend (dest : bytes) | OWait.

(** A stream's close task, told the id: before and after it removed the entry. *)
Inductive closer_at : Type := CRemove (id : Z * Z) | CSend (id : Z * Z).

Record conn : Type := mkConn {
  next_local : Z;
  streams : gset Z;
  pending_opens : gset Z;
  replies : gmap Z (adb_result (Z * Z));
  openers : gmap Z opener_at;
  ends : gmap Z endpoint;
  closers : gmap Z closer_at;
  write_q : list WriteReq;
  writer_alive : bool;
  reader : reader_at;
}.

Definition from_parts : conn := mkConn 1 ∅ ∅ ∅ ∅ ∅ ∅ [] true RIdle.

(** What can be seen of a run. *)
Inductive obs : Type :=
| Registered (l : Z)
| Arrived (l : Z) (p : bytes) (taken : bool)
| Got (l : Z) (d : bytes)
| Queued (m : WriteReq)
| Sent (m : Message.t)
| Opened (l : Z) (r : adb_result (Z * Z)).

Inductive poll (A : Type) : Type := Ready (a : A) | Pending.
Arguments Ready {A} a.
Arguments Pending {A}.

(** ** State updates *)

Definition set_streams (s : gset Z) (c : conn) : conn :=
  mkConn (next_local c) s (pending_opens c) (replies c) (openers c) (ends c) (closers c)
    (write_q c) (writer_alive c) (reader c).
Definition set_reader (r : reader_at) (c : conn) : conn :=
  mkConn (next_local c) (streams c) (pending_opens c) (replies c) (openers c) (ends c)
    (closers c) (write_q c) (writer_alive c) r.
Definition set_ends (e : gmap Z endpoint) (c : conn) : conn :=
  mkConn (next_local c) (streams c) (pending_opens c) (replies c) (openers c) e (closers c)
    (write_q c) (writer_alive c) (reader c).
Definition set_closers (k : gmap Z closer_at) (c : conn) : conn :=
  mkConn (next_local c) (streams c) (pending_opens c) (replies c) (openers c) (ends c) k
    (write_q c) (writer_alive c) (reader c).
Definition set_openers (o : gmap Z opener_at) (c : conn) : conn :=
  mkConn (next_local c) (streams c) (pending_opens c) (replies c) o (ends c) (closers c)
    (write_q c) (writer_alive c) (reader c).
Definition set_opens (p : gset Z) (r : gmap Z (adb_result (Z * Z))) (c : conn) : conn :=
  mkConn (next_local c) (streams c) p r (openers c) (ends c) (closers c) (write_q c)
    (writer_alive c) (reader c).

(** [write_tx.send(req).await]: [None] while the queue is full. *)
Definition enqueue (q : WriteReq) (c : conn) : option conn :=
  if zlen (write_q c) <? WRITE_QUEUE then
    Some (mkConn (next_local c) (streams c) (pending_opens c) (replies c) (openers c) (ends c)
            (closers c) (write_q c ++ [q]) (writer_alive c) (reader c))
  else None.

(** ** Reader task *)

(** The loop's end: every waiting [open_stream] is told. *)
Definition stop_reader (c : conn) : conn :=
  set_reader RStopped
    (set_opens ∅ (gset_to_gmap (Err Disconnected) (pending_opens c) ∪ replies c) c).

(** [if let Some(tx) = pending_opens.remove(&local) { tx.send(r) }] *)
Definition resolve (l : Z) (r : adb_result (Z * Z)) (c : conn) : conn :=
  if bool_decide (l ∈ pending_opens c)
  then set_opens (pending_opens c ∖ {[l]}) (<[l := r]> (replies c)) c
  else c.

(** The reason in a FAIL payload: a 4-byte length and the text. *)
Definition fail_reason (p : bytes) : bytes :=
  if zlen p >? 4 then
    let n := u32_le_at p 0 in
    let e := Z.min (4 + n) (zlen p) in
    from_utf8_lossy (slice p 4 (e - 4))
  else [].
Definition refusal (local remote : Z) (p : bytes) : AdbError :=
  let reason := fail_reason p in
  Protocol (match reason with
            | [] => bs "device refused the request (stream " ++ fmt_dec local ++ bs "/"
                    ++ fmt_dec remote ++ bs ")"
            | _ => bs "device refused the request: " ++ reason
            end).

(** A decoded message. *)
Definition on_message (m : Message.t) (c : conn) : conn * list obs :=
  let local := Message.arg1 m in
  let remote := Message.arg0 m in
  match Message.command m with
  | Command.Okay => (resolve local (Ok (local, remote)) c, [])
  | Command.Fail => (resolve local (Err (refusal local remote (Message.payload m))) c, [])
  | Command.Close =>
      let c := resolve local (Err (InvalidResponse (bs "CLSE on OPEN"))) c in
      (set_streams (streams c ∖ {[local]}) c, [])
  | Command.Write =>
      if bool_decide (local ∈ streams c)
      then (set_reader (RDeliver local remote (Message.payload m)) c,
            [Arrived local (Message.payload m) true])
      else (c, [Arrived local (Message.payload m) false])
  | _ => (c, [])
  end.

(** One iteration of the loop up to its first await: [h] is the header that
    was read and [p] the payload of the length it claims. *)
Definition on_frame (h p : bytes) (c : conn) : option (conn * list obs) :=
  match reader c with
  | RIdle =>
      if negb (zlen h =? Message.HEADER_LEN) then None
      else
        let len := u32_le_at h 12 in
        if len >? MAX_PAYLOAD then Some (stop_reader c, [])
        else if negb (zlen p =? len) then None
        else match Message.decode h p with
             | Ok m => Some (on_message m c)
             | Err _ => Some (c, [])
             end
  | _ => None
  end.

(** The awaits of a WRTE: [tx.send(payload)], then the answer. *)
Definition reader_step (c : conn) : option (conn * list obs) :=
  match reader c with
  | RDeliver l remote p =>
      match ends c !! l with
      | None =>
          let clse := Message.new Command.Close l remote [] in
          Some (set_reader (RReply l clse) (set_streams (streams c ∖ {[l]}) c), [])
      | Some e =>
          if zlen (rx e) <? DATA_QUEUE then
            let okay := Message.new Command.Okay l remote [] in
            Some (set_reader (RReply l okay)
                    (set_ends (<[l := mkEnd (rx e ++ [p]) (incoming e) (sid e) (close_tx e)]> (ends c)) c),
                  [])
          else None
      end
  | RReply l m =>
      if writer_alive c then
        c ← enqueue (Frame m) c; Some (set_reader RIdle c, [Queued (Frame m)])
      else Some (stop_reader c, [])
  | _ => None
  end.

(** A failed read, or the signal from [Drop]: only while it waits for a header
    or reads a payload. *)
Definition reader_stop (c : conn) : option (conn * list obs) :=
  match reader c with RIdle => Some (stop_reader c, []) | _ => None end.

(** ** Writer task *)

Definition stop_writer (c : conn) : conn :=
  mkConn (next_local c) ∅ (pending_opens c) (replies c) (openers c) (ends c) (closers c) []
    false (reader c).

Definition frame_of (q : WriteReq) : Message.t :=
  match q with
  | Frame m => m
  | Data local remote payload => Message.new Command.Write local remote payload
  end.

Definition writer_step (ok : bool) (c : conn) : option (conn * list obs) :=
  match write_q c with
  | [] => None
  | q :: rest =>
      if negb (writer_alive c) then None
      else if ok then
        Some (mkConn (next_local c) (streams c) (pending_opens c) (replies c) (openers c) (ends c)
                (closers c) rest (writer_alive c) (reader c), [Sent (frame_of q)])
      else Some (stop_writer c, [])
  end.

Definition writer_stop (c : conn) : option (conn * list obs) :=
  if writer_alive c then Some (stop_writer c, []) else None.

(** ** [open_stream] *)

(** The pending slot, the registered channel and the receiver go. *)
Definition abort_open (l : Z) (c : conn) : conn :=
  set_ends (delete l (ends c))
    (set_openers (delete l (openers c))
      (set_streams (streams c ∖ {[l]})
        (set_opens (pending_opens c ∖ {[l]}) (delete l (replies c)) c))).

Definition open_stream (dest : bytes) (c : conn) : option (conn * list obs) :=
  let l := as_u32 (next_local c + 1) in
  Some (mkConn l (streams c ∪ {[l]}) (pending_opens c ∪ {[l]}) (replies c)
          (<[l := OSend dest]> (openers c)) (<[l := mkEnd [] None None false]> (ends c)) (closers c)
          (write_q c) (writer_alive c) (reader c),
        [Registered l]).

Definition open_send (l : Z) (c : conn) : option (conn * list obs) :=
  match openers c !! l with
  | Some (OSend dest) =>
      if writer_alive c then
        let q := Frame (Message.new Command.Open l 0 (dest ++ [0])) in
        c ← enqueue q c; Some (set_openers (<[l := OWait]> (openers c)) c, [Queued q])
      else Some (abort_open l c, [Opened l (Err Disconnected)])
  | _ => None
  end.

Definition open_reply (l : Z) (c : conn) : option (conn * list obs) :=
  match openers c !! l, replies c !! l, ends c !! l with
  | Some OWait, Some (Ok id), Some e =>
      Some (set_ends (<[l := mkEnd (rx e) (incoming e) (Some id) true]> (ends c))
              (set_openers (delete l (openers c))
                (set_opens (pending_opens c) (delete l (replies c)) c)), [Opened l (Ok id)])
  | Some OWait, Some (Err er), _ => Some (abort_open l c, [Opened l (Err er)])
  | _, _, _ => None
  end.

Definition open_timeout (l : Z) (c : conn) : option (conn * list obs) :=
  match openers c !! l with
  | Some OWait => Some (abort_open l c, [Opened l (Err Timeout)])
  | _ => None
  end.

(** ** An open stream *)

(** Some sender of the stream's channel is alive. *)
Definition has_sender (l : Z) (c : conn) : bool :=
  bool_decide (l ∈ streams c)
  || match reader c with
     | RDeliver l' _ _ | RReply l' _ => l' =? l
     | _ => false
     end.

Definition put_end (l : Z) (r : list bytes) (i : option bytes) (e : endpoint) (c : conn) : conn :=
  set_ends (<[l := mkEnd r i (sid e) (close_tx e)]> (ends c)) c.

(** What is left of a chunk after [n] bytes. *)
Definition rest_of (n : Z) (p : bytes) : option bytes :=
  if n <? zlen p then Some (zdrop n p) else None.

(** [poll_read] into a buffer of [n] bytes. *)
Definition poll_read (l n : Z) (c : conn) : option (poll bytes * conn) :=
  match ends c !! l with
  | None => None
  | Some e =>
      if n =? 0 then Some (Ready [], c)
      else
        let from_channel :=
          match rx e with
          | chunk :: r =>
              let k := Z.min (zlen chunk) n in
              Some (Ready (ztake k chunk), put_end l r (rest_of k chunk) e c)
          | [] =>
              let c := put_end l [] None e c in
              if has_sender l c then Some (Pending, c) else Some (Ready [], c)
          end in
        match incoming e with
        | Some p =>
            let k := Z.min (zlen p) n in
            if k >? 0 then Some (Ready (ztake k p), put_end l (rx e) (rest_of k p) e c)
            else from_channel
        | None => from_channel
        end
  end.

Definition do_read (l : Z) (n : nat) (c : conn) : option (conn * list obs) :=
  match poll_read l (Z.of_nat n) c with
  | Some (Ready d, c) => Some (c, [Got l d])
  | Some (Pending, c) => Some (c, [])
  | None => None
  end.

Definition BROKEN_PIPE : bytes := bs "connection writer closed".

(** [poll_write]: how many bytes were accepted. *)
Definition poll_write (l : Z) (data : bytes) (c : conn) : option (poll (result bytes Z) * conn) :=
  match e ← ends c !! l; sid e with
  | None => None
  | Some (local, remote) =>
      if writer_alive c then
        let take := Z.min (zlen data) MAX_PAYLOAD in
        match enqueue (Data local remote (ztake take data)) c with
        | Some c => Some (Ready (Ok take), c)
        | None => Some (Pending, c)
        end
      else Some (Ready (Err BROKEN_PIPE), c)
  end.

Definition do_write (l : Z) (data : bytes) (c : conn) : option (conn * list obs) :=
  match poll_write l data c with
  | Some (Ready (Ok k), c') =>
      match e ← ends c !! l; sid e with
      | Some (local, remote) => Some (c', [Queued (Data local remote (ztake k data))])
      | None => None
      end
  | Some (_, c) => Some (c, [])
  | None => None
  end.

(** [if let Some(tx) = self.close_tx.take() { tx.send(self.id) }] *)
Definition send_close (l : Z) (e : endpoint) (c : conn) : conn :=
  match close_tx e, sid e with
  | true, Some id => set_closers (<[l := CRemove id]> (closers c)) c
  | _, _ => c
  end.

Definition poll_shutdown (l : Z) (c : conn) : option (conn * list obs) :=
  match ends c !! l with
  | Some e =>
      match sid e with
      | Some _ =>
          Some (send_close l e (set_ends (<[l := mkEnd (rx e) (incoming e) (sid e) false]> (ends c)) c), [])
      | None => None
      end
  | None => None
  end.

Definition drop_stream (l : Z) (c : conn) : option (conn * list obs) :=
  match ends c !! l with
  | Some e =>
      match sid e with
      | Some _ => Some (send_close l e (set_ends (delete l (ends c)) c), [])
      | None => None
      end
  | None => None
  end.

(** The close task: the entry, then CLSE (an error is ignored). *)
Definition closer_step (l : Z) (c : conn) : option (conn * list obs) :=
  match closers c !! l with
  | Some (CRemove id) =>
      Some (set_closers (<[l := CSend id]> (closers c)) (set_streams (streams c ∖ {[id.1]}) c), [])
  | Some (CSend id) =>
      let c' := set_closers (delete l (closers c)) c in
      if writer_alive c then
        let q := Frame (Message.new Command.Close id.1 id.2 []) in
        c' ← enqueue q c'; Some (c', [Queued q])
      else Some (c', [])
  | None => None
  end.

(** ** The machine *)

Inductive event : Type :=
| EFrame (h p : bytes)
| EReader
| EReaderStop
| EWriter (ok : bool)
| EWriterStop
| EOpen (dest : bytes)
| EOpenSend (l : Z)
| EOpenReply (l : Z)
| EOpenTimeout (l : Z)
| ERead (l : Z) (n : nat)
| EWrite (l : Z) (data : bytes)
| EShutdown (l : Z)
| EDrop (l : Z)
| ECloser (l : Z).

Definition step (ev : event) (c : conn) : option (conn * list obs) :=
  match ev with
  | EFrame h p => on_frame h p c
  | EReader => reader_step c
  | EReaderStop => reader_stop c
  | EWriter ok => writer_step ok c
  | EWriterStop => writer_stop c
  | EOpen dest => open_stream dest c
  | EOpenSend l => open_send l c
  | EOpenReply l => open_reply l c
  | EOpenTimeout l => open_timeout l c
  | ERead l n => do_read l n c
  | EWrite l data => do_write l data c
  | EShutdown l => poll_shutdown l c
  | EDrop l => drop_stream l c
  | ECloser l => closer_step l c
  end.

(** A run: [None] when an event was not enabled. *)
Fixpoint run (evs : list event) (c : conn) : option (conn * list obs) :=
  match evs with
  | [] => Some (c, [])
  | ev :: evs =>
      '(c, o) ← step ev c;
      '(c, os) ← run evs c;
      Some (c, o ++ os)
  end.
