(* ===== verification/ConnectionSpec.v ===== *)
(** * Streams of a connection are independent byte pipes

    Under every interleaving of the tasks of a connection each open stream
    reads exactly the payloads that arrived for it, in order; every payload it
    was given is acknowledged once; buffers stay within their capacity. And a
    run in which the end of the transport never reaches a waiting reader. *)

From stdpp Require Import base list gmap strings.
From S2P Require Import Prelude RustStd Packet Connection.

(** ** What a run did, per stream *)

(** The payloads taken for stream [l], and the bytes it read. *)
Definition accepted (l : Z) (os : list obs) : bytes :=
  concat (omap (fun o => match o with
    | Arrived l' p true => if l' =? l then Some p else None | _ => None end) os).
Definition got (l : Z) (os : list obs) : bytes :=
  concat (omap (fun o => match o with
    | Got l' d => if l' =? l then Some d else None | _ => None end) os).

(** How many payloads were taken for [l], and how many OKAYs queued. *)
Definition taken_by (l : Z) (o : obs) : bool :=
  match o with Arrived l' _ true => l' =? l | _ => false end.
Definition okay_for (l : Z) (o : obs) : bool :=
  match o with
  | Queued (Frame m) => bool_decide (Message.command m = Command.Okay) && (Message.arg0 m =? l)
  | _ => false
  end.
Definition count (f : obs -> bool) (os : list obs) : Z := zlen (List.filter f os).

(** A payload for [l] was dropped since [l] was registered. *)
Definition missed (l : Z) (os : list obs) : bool :=
  foldl (fun b o => match o with
    | Registered l' => if l' =? l then false else b
    | Arrived l' _ false => if l' =? l then true else b
    | _ => b end) false os.

Lemma accepted_app l o1 o2 : accepted l (o1 ++ o2) = accepted l o1 ++ accepted l o2.
Proof. unfold accepted. by rewrite omap_app, concat_app. Qed.
Lemma got_app l o1 o2 : got l (o1 ++ o2) = got l o1 ++ got l o2.
Proof. unfold got. by rewrite omap_app, concat_app. Qed.
Lemma count_app f o1 o2 : count f (o1 ++ o2) = count f o1 + count f o2.
Proof. unfold count. by rewrite List.filter_app, zlen_app. Qed.
Lemma missed_app l o1 o2 :
  missed l (o1 ++ o2) = foldl (fun b o => match o with
    | Registered l' => if l' =? l then false else b
    | Arrived l' _ false => if l' =? l then true else b
    | _ => b end) (missed l o1) o2.
Proof. unfold missed. by rewrite foldl_app. Qed.

(** Observations that say nothing on the data of a stream. *)
Definition silent (o : obs) : bool :=
  match o with
  | Sent _ | Opened _ _ => true
  | Queued (Frame m) => negb (bool_decide (Message.command m = Command.Okay))
  | Queued (Data _ _ _) => true
  | _ => false
  end.

Lemma silent_spec l os : Forall (fun o => silent o = true) os ->
  accepted l os = [] /\ got l os = [] /\ count (taken_by l) os = 0 /\ count (okay_for l) os = 0
  /\ forall o, missed l (o ++ os) = missed l o.
Proof.
  induction 1 as [|o os Ho _ (IH1 & IH2 & IH3 & IH4 & IH5)].
  { split_and!; try done. intros o. by rewrite app_nil_r. }
  assert (H1 : accepted l [o] = [] /\ got l [o] = [] /\ count (taken_by l) [o] = 0
    /\ count (okay_for l) [o] = 0 /\ forall o', missed l (o' ++ [o]) = missed l o').
  { destruct o as [ | |?|[m|]|?|]; try done; split_and!; try done.
    all: try (intros o'; by rewrite missed_app).
    simpl in Ho. apply negb_true_iff in Ho. unfold count; simpl. by rewrite Ho. }
  destruct H1 as (A & B & C & D & E). change (o :: os) with ([o] ++ os).
  rewrite accepted_app, got_app, !count_app, A, B, C, D, IH1, IH2, IH3, IH4.
  split_and!; try done. intros o'. by rewrite app_assoc, IH5, E.
Qed.

Lemma silent_app l os o : Forall (fun o => silent o = true) o ->
  accepted l (os ++ o) = accepted l os /\ got l (os ++ o) = got l os
  /\ count (taken_by l) (os ++ o) = count (taken_by l) os
  /\ count (okay_for l) (os ++ o) = count (okay_for l) os /\ missed l (os ++ o) = missed l os.
Proof.
  intros H. destruct (silent_spec l o H) as (H1 & H2 & H3 & H4 & H5).
  rewrite accepted_app, got_app, !count_app, H1, H2, H3, H4, H5, !app_nil_r, !Z.add_0_r. done.
Qed.

(** ** The invariant *)

(** Bytes received for a stream and not yet read. *)
Definition in_flight (r : reader_at) (l : Z) : bytes :=
  match r with RDeliver l' _ p => if l' =? l then p else [] | _ => [] end.
Definition unread (c : conn) (l : Z) (e : endpoint) : bytes :=
  default [] (incoming e) ++ concat (rx e) ++ in_flight (reader c) l.

(** Payloads taken and not yet acknowledged. *)
Definition owed (r : reader_at) (l : Z) : Z :=
  match r with
  | RDeliver l' _ _ | RReply l' _ => if l' =? l then 1 else 0
  | _ => 0
  end.

Definition reader_id (r : reader_at) : option Z :=
  match r with RDeliver l _ _ | RReply l _ => Some l | _ => None end.

Record inv (c : conn) (os : list obs) : Prop := {
  i_next : 1 <= next_local c < 2 ^ 32;
  i_streams : forall l, l ∈ streams c -> l <= next_local c;
  i_ends : forall l e, ends c !! l = Some e -> l <= next_local c;
  i_reader : forall l, reader_id (reader c) = Some l -> l <= next_local c;
  i_unused : forall l, next_local c < l ->
    accepted l os = [] /\ got l os = [] /\ count (taken_by l) os = 0 /\ count (okay_for l) os = 0;
  i_bytes : forall l e, ends c !! l = Some e -> accepted l os = got l os ++ unread c l e;
  i_acks : reader c <> RStopped -> forall l e, ends c !! l = Some e ->
    count (taken_by l) os = count (okay_for l) os + owed (reader c) l;
  i_reply : forall l m, reader c = RReply l m -> exists r,
    m = Message.new Command.Okay l r [] \/ (m = Message.new Command.Close l r [] /\ ends c !! l = None);
  i_kept : forall l, l ∈ streams c -> missed l os = false;
  i_queue : zlen (write_q c) <= WRITE_QUEUE;
  i_rx : forall l e, ends c !! l = Some e -> zlen (rx e) <= DATA_QUEUE;
}.

Lemma from_parts_inv : inv from_parts [].
Proof. by split; simpl. Qed.

(** A step that leaves the data of every stream that survives it alone. *)
Record calm (c c' : conn) : Prop := {
  k_next : next_local c' = next_local c;
  k_streams : streams c' ⊆ streams c;
  k_ends : forall l e', ends c' !! l = Some e' ->
    exists e, ends c !! l = Some e /\ rx e' = rx e /\ incoming e' = incoming e;
  k_reader : reader c' = reader c \/ (reader c' = RStopped /\ forall l, in_flight (reader c) l = []);
  k_queue : zlen (write_q c) <= WRITE_QUEUE -> zlen (write_q c') <= WRITE_QUEUE;
}.

Lemma calm_inv c c' os o :
  calm c c' -> Forall (fun o => silent o = true) o -> inv c os -> inv c' (os ++ o).
Proof.
  intros [Kn Ks Ke Kr Kq] Ho [I1 I2 I3 I4 I5 I6 I7 I8 I9 I10 I11].
  assert (Hfl : forall l, in_flight (reader c') l = in_flight (reader c) l)
    by (intros l; destruct Kr as [->|[-> Hn]]; [done|by rewrite Hn]).
  split; rewrite ?Kn; try done; try (by auto).
  - intros l e He. destruct (Ke l e He) as (e0 & He0 & _). eauto.
  - intros l Hl. apply I4. destruct Kr as [<-|[Hr _]]; [done|]. by rewrite Hr in Hl.
  - intros l Hl. destruct (silent_app l os o Ho) as (-> & -> & -> & -> & _). auto.
  - intros l e He. destruct (silent_app l os o Ho) as (-> & -> & _ & _ & _).
    destruct (Ke l e He) as (e0 & He0 & Hrx & Hinc). rewrite (I6 l e0 He0).
    unfold unread. by rewrite Hrx, Hinc, Hfl.
  - intros Hs l e He. destruct (silent_app l os o Ho) as (_ & _ & -> & -> & _).
    destruct (Ke l e He) as (e0 & He0 & _). destruct Kr as [Hr|[Hr _]]; [|done].
    rewrite Hr in *. eauto.
  - intros l m Hm. destruct Kr as [Hr|[Hr _]]; [|congruence]. rewrite Hr in Hm.
    destruct (I8 l m Hm) as (r & [->|[-> Hd]]); exists r; [by left|right; split; [done|]].
    destruct (ends c' !! l) as [e|] eqn:He; [|done]. apply Ke in He as (? & ? & _). congruence.
  - intros l Hl. destruct (silent_app l os o Ho) as (_ & _ & _ & _ & ->). auto.
  - intros l e He. destruct (Ke l e He) as (e0 & He0 & -> & _). eauto.
Qed.

Lemma calm_refl c : calm c c.
Proof. split; eauto. Qed.

Lemma enqueue_calm q c c' : enqueue q c = Some c' -> calm c c'.
Proof.
  unfold enqueue. case_bool; intros; simplify_eq. bool_to_prop. split; simpl; eauto.
  intros _. len_lia.
Qed.

Lemma calm_trans c1 c2 c3 : calm c1 c2 -> calm c2 c3 -> calm c1 c3.
Proof.
  intros [A1 A2 A3 A4 A5] [B1 B2 B3 B4 B5]. split; [congruence|set_solver| | |by auto].
  - intros l e He. destruct (B3 l e He) as (e2 & He2 & ? & ?).
    destruct (A3 l e2 He2) as (e1 & ? & ? & ?). exists e1. split_and!; congruence.
  - destruct B4 as [->|[-> Hf]]; [done|]. right. split; [done|].
    destruct A4 as [<-|[_ ?]]; done.
Qed.

Lemma resolve_calm l r c : calm c (resolve l r c).
Proof. unfold resolve. case_bool; [|apply calm_refl]. split; simpl; eauto. Qed.
Lemma set_streams_calm s c : s ⊆ streams c -> calm c (set_streams s c).
Proof. intros H. split; simpl; eauto. Qed.
Lemma stop_reader_calm c : (forall l, in_flight (reader c) l = []) -> calm c (stop_reader c).
Proof. intros H. split; simpl; eauto. Qed.
Lemma stop_writer_calm c : calm c (stop_writer c).
Proof. split; simpl; eauto; [set_solver|done]. Qed.
Lemma set_closers_calm k c : calm c (set_closers k c).
Proof. split; simpl; eauto. Qed.
Lemma set_openers_calm o c : calm c (set_openers o c).
Proof. split; simpl; eauto. Qed.
Lemma abort_open_calm l c : calm c (abort_open l c).
Proof.
  split; simpl; eauto; [set_solver|]. intros k e [_ He]%lookup_delete_Some. eauto.
Qed.

Ltac calm_tac :=
  eauto using calm_refl, calm_trans, enqueue_calm, resolve_calm, set_streams_calm,
    stop_writer_calm, set_closers_calm, set_openers_calm, abort_open_calm.

(** The events that touch no stream's data. *)
Definition calm_event (ev : event) : bool :=
  match ev with
  | EFrame _ _ | EReader | EOpen _ | ERead _ _ => false
  | _ => true
  end.

Lemma send_close_calm l e c : calm c (send_close l e c).
Proof. unfold send_close. repeat case_match; calm_tac. Qed.

Lemma calm_steps ev c c' o :
  calm_event ev = true -> step ev c = Some (c', o) ->
  calm c c' /\ Forall (fun o => silent o = true) o.
Proof.
  intros Hev. destruct ev; try done; simpl.
  - unfold reader_stop. case_match; intros; simplify_eq. split; [|by constructor].
    apply stop_reader_calm. intros l. by destruct (reader c).
  - unfold writer_step. repeat case_match; intros; simplify_eq; split; try (by repeat constructor).
    + split; simpl; eauto. intros Hq. revert Hq. replace (write_q c) with (w :: l). len_lia.
    + calm_tac.
  - unfold writer_stop. case_match; intros; simplify_eq. split; [calm_tac|by constructor].
  - unfold open_send. repeat case_match; intros; simplify_eq.
    + destruct (enqueue _ c) as [c1|] eqn:E; simplify_eq/=. split; [|by repeat constructor].
      eapply calm_trans; [by eapply enqueue_calm|]. calm_tac.
    + split; [calm_tac|by repeat constructor].
  - unfold open_reply. repeat case_match; intros; simplify_eq; (split; [|by repeat constructor]); [|calm_tac].
    split; simpl; eauto. intros k e' [[<- <-]|[_ ?]]%lookup_insert_Some; [|eauto].
    eexists. split; [eassumption|done].
  - unfold open_timeout. repeat case_match; intros; simplify_eq. split; [calm_tac|by repeat constructor].
  - unfold do_write, poll_write. destruct (ends c !! l) as [e|] eqn:He; [|done]. simpl.
    destruct (sid e) as [[lo re]|] eqn:Hs; [|done].
    destruct (writer_alive c); [|intros; simplify_eq; split; [calm_tac|by constructor]].
    destruct (enqueue _ c) as [c1|] eqn:E; intros; simplify_eq/=;
      split; eauto using enqueue_calm, calm_refl; by repeat constructor.
  - unfold poll_shutdown. repeat case_match; intros; simplify_eq. split; [|by constructor].
    eapply calm_trans; [|apply send_close_calm]. split; simpl; eauto.
    intros k e' [[<- <-]|[_ ?]]%lookup_insert_Some; [|eauto]. eexists. split; [eassumption|done].
  - unfold drop_stream. repeat case_match; intros; simplify_eq. split; [|by constructor].
    eapply calm_trans; [|apply send_close_calm]. split; simpl; eauto.
    intros k e' [_ ?]%lookup_delete_Some. eauto.
  - unfold closer_step. repeat case_match; intros; simplify_eq.
    + split; [|by constructor]. eapply calm_trans; [apply set_streams_calm|calm_tac]. set_solver.
    + destruct (enqueue _ _) as [c1|] eqn:E; simplify_eq/=. split; [|by repeat constructor].
      eapply calm_trans; [|by eapply enqueue_calm]. calm_tac.
    + split; [calm_tac|by constructor].
Qed.

(** ** Arrivals *)

Lemma count_one f o : count f [o] = if f o then 1 else 0.
Proof. unfold count. simpl. by destruct (f o). Qed.
Lemma accepted_one l o : accepted l [o] =
  match o with Arrived l' p true => if l' =? l then p else [] | _ => [] end.
Proof. destruct o as [|? ? []| | | |]; try done. unfold accepted; simpl. case_bool; [apply app_nil_r|done]. Qed.
Lemma got_one l o : got l [o] = match o with Got l' d => if l' =? l then d else [] | _ => [] end.
Proof. destruct o; try done. unfold got; simpl. case_bool; [apply app_nil_r|done]. Qed.

Ltac one_obs := rewrite ?accepted_app, ?got_app, ?count_app, ?count_one, ?accepted_one, ?got_one;
  cbn [taken_by okay_for]; rewrite ?app_nil_r, ?Z.add_0_r.

Lemma dropped_inv c os l p :
  l ∉ streams c -> inv c os -> inv c (os ++ [Arrived l p false]).
Proof.
  intros Hl [I1 I2 I3 I4 I5 I6 I7 I8 I9 I10 I11]. split; try done.
  - intros k Hk. one_obs. auto.
  - intros k e He. one_obs. auto.
  - intros Hr k e He. one_obs. eauto.

  - intros k Hk. rewrite missed_app. simpl. rewrite I9 by done.
    destruct (Z.eqb_spec l k); [by subst|done].
Qed.

Lemma taken_inv c os l r p :
  reader c = RIdle -> l ∈ streams c -> inv c os ->
  inv (set_reader (RDeliver l r p) c) (os ++ [Arrived l p true]).
Proof.
  intros Hr Hl [I1 I2 I3 I4 I5 I6 I7 I8 I9 I10 I11]. split; try done; simpl.
  - intros k [= <-]. auto.
  - intros k Hk. specialize (I2 l Hl). destruct (I5 k Hk) as (E1 & E2 & E3 & E4).
    one_obs. rewrite E1, E2, E3, E4. destruct (Z.eqb_spec l k); [lia|done].
  - intros k e He. one_obs. rewrite (I6 k e He). unfold unread. rewrite Hr. simpl.
    rewrite app_nil_r, !app_assoc. by destruct (l =? k).
  - intros _ k e He. one_obs. rewrite Hr in I7. rewrite (I7 ltac:(done) k e He). simpl. lia.
  - intros k Hk. rewrite missed_app. simpl. auto.
Qed.

Lemma frame_inv h p c c' o os :
  on_frame h p c = Some (c', o) -> inv c os -> inv c' (os ++ o).
Proof.
  unfold on_frame. destruct (reader c) eqn:Hr; try done. case_bool; [done|].
  case_bool.
  { intros [= <- <-] Hi. eapply calm_inv; [|by constructor|done]. apply stop_reader_calm. by rewrite Hr. }
  case_bool; [done|]. destruct (Message.decode h p) as [m|e]; intros Hs Hi; simplify_eq;
    [|eapply calm_inv; [apply calm_refl|by constructor|done]].
  assert (Hcalm : calm c c' -> o = [] -> inv c' (os ++ o))
    by (intros Hc ->; eapply calm_inv; [done|by constructor|done]).
  unfold on_message in Hs. destruct (Message.command m); simplify_eq;
    try (apply Hcalm; [first [apply calm_refl|apply resolve_calm]|done]).
  - apply Hcalm; [|done]. eapply calm_trans; [apply resolve_calm|]. apply set_streams_calm. set_solver.
  - case_match; bool_to_prop; simplify_eq; [by apply taken_inv|by apply dropped_inv].
Qed.

(** ** The reader's awaits *)

Lemma deliver_inv c os l r p e :
  reader c = RDeliver l r p -> ends c !! l = Some e -> zlen (rx e) < DATA_QUEUE -> inv c os ->
  inv (set_reader (RReply l (Message.new Command.Okay l r []))
         (set_ends (<[l := mkEnd (rx e ++ [p]) (incoming e) (sid e) (close_tx e)]> (ends c)) c)) os.
Proof.
  intros Hr He Hroom [I1 I2 I3 I4 I5 I6 I7 I8 I9 I10 I11]. rewrite Hr in *. split; try done; simpl.
  - intros k e' [[<- <-]|[_ Hk]]%lookup_insert_Some; eauto.
  - intros k e' [[<- <-]|[Hne Hk]]%lookup_insert_Some.
    + rewrite (I6 l e He). unfold unread. rewrite Hr. simpl. rewrite Z.eqb_refl, concat_app. simpl.
      by rewrite !app_nil_r.
    + rewrite (I6 k e' Hk). unfold unread. rewrite Hr. simpl. by apply Z.eqb_neq in Hne as ->.
  - intros _ k e' [[<- <-]|[_ Hk]]%lookup_insert_Some; [by apply (I7 ltac:(done) l e)|].
    by apply (I7 ltac:(done) k e').
  - intros k m [= <- <-]. exists r. by left.
  - intros k e' [[<- <-]|[_ Hk]]%lookup_insert_Some; simpl; [len_lia|eauto].
Qed.

Lemma gone_inv c os l r p :
  reader c = RDeliver l r p -> ends c !! l = None -> inv c os ->
  inv (set_reader (RReply l (Message.new Command.Close l r [])) (set_streams (streams c ∖ {[l]}) c)) os.
Proof.
  intros Hr He [I1 I2 I3 I4 I5 I6 I7 I8 I9 I10 I11]. rewrite Hr in *. split; try done; simpl.
  - intros k Hk. apply I2. set_solver.
  - intros k e' Hk. rewrite (I6 k e' Hk). unfold unread. rewrite Hr. simpl.
    destruct (Z.eqb_spec l k); [congruence|done].
  - intros _. by apply I7.
  - intros k m [= <- <-]. exists r. by right.
  - intros k Hk. apply I9. set_solver.
Qed.

Lemma reply_inv c c1 os l m :
  reader c = RReply l m -> enqueue (Frame m) c = Some c1 -> inv c os ->
  inv (set_reader RIdle c1) (os ++ [Queued (Frame m)]).
Proof.
  intros Hr Hq [I1 I2 I3 I4 I5 I6 I7 I8 I9 I10 I11]. unfold enqueue in Hq. case_match; simplify_eq.
  bool_to_prop. destruct (I8 l m Hr) as (r & Hm). split; try done; simpl.
  - intros k Hk. one_obs. destruct (I5 k Hk) as (-> & -> & -> & ->).
    assert (Hlk : l <= next_local c) by (apply I4; by rewrite Hr).
    split_and!; try done. destruct Hm as [->|[-> _]]; simpl; [|done].
    destruct (Z.eqb_spec l k); [lia|done].
  - intros k e He. one_obs. rewrite (I6 k e He). unfold unread. by rewrite Hr.
  - intros _ k e He. one_obs. rewrite Hr in I7. rewrite (I7 ltac:(done) k e He). simpl.
    destruct Hm as [->|[-> Hd]]; simpl; [lia|].
    destruct (Z.eqb_spec l k); [congruence|lia].
  - intros k Hk. rewrite missed_app. simpl. auto.
  - len_lia.
Qed.

Lemma reader_inv c c' o os : reader_step c = Some (c', o) -> inv c os -> inv c' (os ++ o).
Proof.
  unfold reader_step. destruct (reader c) as [|l r p|l m|] eqn:Hr; try done.
  - destruct (ends c !! l) as [e|] eqn:He.
    + case_bool; intros; simplify_eq. bool_to_prop. rewrite app_nil_r. by apply deliver_inv.
    + intros; simplify_eq. rewrite app_nil_r. by eapply gone_inv.
  - destruct (writer_alive c).
    + destruct (enqueue _ c) as [c1|] eqn:Hq; [|done]. simpl. intros; simplify_eq. by eapply reply_inv.
    + intros; simplify_eq. eapply calm_inv; [|by constructor|done]. apply stop_reader_calm. by rewrite Hr.
Qed.

(** ** Opening and reading *)

Lemma open_inv dest c c' o os :
  next_local c + 1 < 2 ^ 32 -> open_stream dest c = Some (c', o) -> inv c os -> inv c' (os ++ o).
Proof.
  intros Hn Ho [I1 I2 I3 I4 I5 I6 I7 I8 I9 I10 I11]. unfold open_stream in Ho.
  rewrite as_u32_id in Ho by lia. simplify_eq/=. set (l := next_local c + 1).
  destruct (I5 l ltac:(lia)) as (U1 & U2 & U3 & U4).
  assert (Hid : forall k, reader_id (reader c) = Some k -> k <> l)
    by (intros k Hk; apply I4 in Hk; lia).
  split; simpl; try done.
  - lia.
  - intros k Hk. destruct (decide (k = l)); [lia|]. assert (k ∈ streams c) as Hs by set_solver.
    apply I2 in Hs. lia.
  - intros k e [[<- _]|[_ He]]%lookup_insert_Some; [lia|]. apply I3 in He. lia.
  - intros k Hk. apply I4 in Hk. lia.
  - intros k Hk. one_obs. apply I5. lia.
  - intros k e [[<- <-]|[_ He]]%lookup_insert_Some; one_obs; [|by apply I6].
    rewrite U1, U2. unfold unread. simpl. destruct (reader c) as [|k r p| |]; try done. simpl.
    destruct (Z.eqb_spec k l); [|done]. by apply Hid in e.
  - intros Hr k e [[<- <-]|[_ He]]%lookup_insert_Some; one_obs; [|by eapply I7].
    rewrite U3, U4. destruct (reader c) as [|k r p|k m|]; simpl; try done;
      (destruct (Z.eqb_spec k l) as [E|]; [by apply Hid in E|done]).
  - intros k m Hm. destruct (I8 k m Hm) as (r & [->|[-> Hd]]); exists r; [by left|right].
    split; [done|]. rewrite lookup_insert_ne; [done|]. intros E. symmetry in E. revert E. apply Hid. by rewrite Hm.
  - intros k Hk. rewrite missed_app. simpl. destruct (Z.eqb_spec l k); [done|]. apply I9. set_solver.
  - intros k e [[<- <-]|[_ He]]%lookup_insert_Some; [done|eauto].
Qed.

Lemma rest_of_spec k p : ztake k p ++ default [] (rest_of k p) = p.
Proof.
  unfold rest_of. case_bool; bool_to_prop; simpl; [apply ztake_zdrop|].
  rewrite app_nil_r. apply ztake_all. lia.
Qed.

(** A poll hands out a prefix of what is buffered. *)
Lemma poll_read_spec l n c r c' :
  0 <= n -> poll_read l n c = Some (r, c') ->
  exists e e', ends c !! l = Some e /\ c' = set_ends (<[l := e']> (ends c)) c
  /\ zlen (rx e') <= zlen (rx e)
  /\ default [] (incoming e) ++ concat (rx e) =
     match r with Ready d => d | Pending => [] end ++ default [] (incoming e') ++ concat (rx e').
Proof.
  intros Hn. unfold poll_read. destruct (ends c !! l) as [e|] eqn:He; [|done]. case_bool; bool_to_prop.
  { intros; simplify_eq. exists e, e. rewrite insert_id by done. split_and!; try done. by destruct c'. }
  assert (Hch : forall r' c1, match rx e with
     | chunk :: r =>
         let k := Z.min (zlen chunk) n in
         Some (Ready (ztake k chunk), put_end l r (rest_of k chunk) e c)
     | [] =>
         let c := put_end l [] None e c in
         if has_sender l c then Some (Pending, c) else Some (Ready [], c)
     end = Some (r', c1) -> exists e', c1 = set_ends (<[l := e']> (ends c)) c
     /\ zlen (rx e') <= zlen (rx e)
     /\ concat (rx e) = match r' with Ready d => d | Pending => [] end
                        ++ default [] (incoming e') ++ concat (rx e')).
  { intros r' c1. destruct (rx e) as [|chunk q]; simpl.
    - case_bool; intros; simplify_eq; eexists; split_and!; try done.
    - intros; simplify_eq. eexists. split_and!; [done|simpl; len_lia|]. simpl.
      by rewrite app_assoc, rest_of_spec. }
  destruct (incoming e) as [p|] eqn:Hinc.
  - case_bool; bool_to_prop.
    + intros; simplify_eq. exists e. eexists. split_and!; [done|done|simpl; lia|]. simpl.
      by rewrite (app_assoc (ztake _ _)), rest_of_spec, Hinc.
    + assert (p = []) as -> by (apply zlen_0_nil; pose proof (zlen_nonneg p); lia).
      intros Hs. apply Hch in Hs as (e' & -> & Hl & Hc). exists e, e'. rewrite Hinc. by split_and!.
  - intros Hs. apply Hch in Hs as (e' & -> & Hl & Hc). exists e, e'. rewrite Hinc. by split_and!.
Qed.

Lemma read_inv l n c c' o os : do_read l n c = Some (c', o) -> inv c os -> inv c' (os ++ o).
Proof.
  unfold do_read. destruct (poll_read l (Z.of_nat n) c) as [[r c1]|] eqn:Hp; [|done].
  apply poll_read_spec in Hp as (e & e' & He & -> & Hrx & Hb); [|lia]. intros Ho Hi.
  set (d := match r with Ready d => d | Pending => [] end) in *.
  assert (Hg : c' = set_ends (<[l := e']> (ends c)) c /\ forall k, accepted k o = []
    /\ got k o = (if l =? k then d else []) /\ count (taken_by k) o = 0 /\ count (okay_for k) o = 0
    /\ forall os, missed k (os ++ o) = missed k os).
  { destruct r; simplify_eq; (split; [done|]); intros k; one_obs; split_and!; try done.
    - intros os'. by rewrite missed_app.
    - by case_match.
    - intros os'. by rewrite app_nil_r. }
  destruct Hg as [-> Hg]. destruct Hi as [I1 I2 I3 I4 I5 I6 I7 I8 I9 I10 I11].
  split; try done; simpl.
  - intros k e0 [[<- <-]|[_ Hk]]%lookup_insert_Some; eauto.
  - intros k Hk. destruct (Hg k) as (G1 & G2 & G3 & G4 & _).
    rewrite accepted_app, got_app, !count_app, G1, G2, G3, G4, app_nil_r, !Z.add_0_r.
    apply I3 in He. destruct (Z.eqb_spec l k); [lia|]. rewrite app_nil_r. auto.
  - intros k e0 Hk. destruct (Hg k) as (G1 & G2 & _). rewrite accepted_app, got_app, G1, G2, app_nil_r.
    apply lookup_insert_Some in Hk as [[<- <-]|[Hne Hk]].
    + rewrite (I6 l e He), Z.eqb_refl. unfold unread; simpl. rewrite !app_assoc. f_equal.
      rewrite <- !app_assoc. f_equal. exact Hb.
    + apply Z.eqb_neq in Hne as ->. rewrite app_nil_r. by apply I6.
  - intros Hr k e0 Hk. destruct (Hg k) as (_ & _ & G3 & G4 & _). rewrite !count_app, G3, G4, !Z.add_0_r.
    apply lookup_insert_Some in Hk as [[<- <-]|[Hne Hk]]; eauto.
  - intros k m Hm. destruct (I8 k m Hm) as (r' & [->|[-> Hd]]); exists r'; [by left|right].
    split; [done|]. rewrite lookup_insert_ne; [done|]. congruence.
  - intros k Hk. destruct (Hg k) as (_ & _ & _ & _ & G). rewrite G. auto.
  - intros k e0 [[<- <-]|[_ Hk]]%lookup_insert_Some; [|eauto]. apply I11 in He. lia.
Qed.

(** ** Every run *)

Definition opens (evs : list event) : Z :=
  zlen (List.filter (fun ev => match ev with EOpen _ => true | _ => false end) evs).

Lemma step_next ev c c' o :
  (forall dest, ev = EOpen dest -> next_local c + 1 < 2 ^ 32) ->
  step ev c = Some (c', o) -> 1 <= next_local c ->
  next_local c' = next_local c + opens [ev].
Proof.
  intros H2 Hs H1. unfold opens. destruct (calm_event ev) eqn:Hc.
  { destruct (calm_steps _ _ _ _ Hc Hs) as [[-> _ _ _ _] _]. destruct ev; try done; unfold zlen; simpl; lia. }
  destruct ev; try done; unfold zlen; simpl in Hs |- *; rewrite ?Z.add_0_r.
  - unfold on_frame, on_message, resolve in Hs. repeat case_match; simplify_eq; try done; simpl; lia.
  - unfold reader_step in Hs. repeat case_match; simplify_eq; simpl; try lia.
    unfold enqueue in Hs. case_match; simplify_eq/=. lia.
  - unfold open_stream in Hs. simplify_eq/=. specialize (H2 dest eq_refl). rewrite as_u32_id by lia. done.
  - unfold do_read in Hs. destruct (poll_read l (Z.of_nat n) c) as [[r c1]|] eqn:Hp; [|done].
    apply poll_read_spec in Hp as (e & e' & _ & -> & _); [|lia]. destruct r; simplify_eq; simpl; lia.
Qed.

Lemma conn_step_inv ev c c' o os :
  (forall dest, ev = EOpen dest -> next_local c + 1 < 2 ^ 32) ->
  step ev c = Some (c', o) -> inv c os -> inv c' (os ++ o).
Proof.
  intros Hn Hs Hi. destruct (calm_event ev) eqn:Hc.
  { destruct (calm_steps _ _ _ _ Hc Hs). by eapply calm_inv. }
  destruct ev; try done; simpl in Hs.
  - by eapply frame_inv.
  - by eapply reader_inv.
  - eapply open_inv; [by eapply Hn|done|done].
  - by eapply read_inv.
Qed.

Lemma conn_run_inv evs c os c' o :
  next_local c + opens evs < 2 ^ 32 -> run evs c = Some (c', o) -> inv c os -> inv c' (os ++ o).
Proof.
  revert c os o. induction evs as [|ev evs IH]; intros c os o Hn Hr Hi; simpl in Hr.
  { simplify_eq. by rewrite app_nil_r. }
  destruct (step ev c) as [[c1 o1]|] eqn:Hs; [|done]. simpl in Hr.
  destruct (run evs c1) as [[c2 o2]|] eqn:Hr'; [|done]. simplify_eq/=.
  assert (Hopens : opens (ev :: evs) = opens [ev] + opens evs)
    by (unfold opens; simpl; destruct ev; len_lia).
  assert (H1 : 0 <= opens [ev] /\ 0 <= opens evs) by (unfold opens, zlen; lia).
  assert (Hopen : forall dest, ev = EOpen dest -> next_local c + 1 < 2 ^ 32)
    by (intros dest ->; change (opens [EOpen dest]) with 1 in *; lia).
  rewrite app_assoc. apply (IH c1); [|done|].
  - rewrite (step_next _ _ _ _ Hopen Hs (proj1 (i_next _ _ Hi))). lia.
  - by eapply conn_step_inv.
Qed.

(** C5: The streams of a connection are independent byte pipes. After any run,
    whatever way its tasks interleave, with fewer than 2^32 - 1 opens: for every stream
    whose receiver is alive the bytes it read, followed by those buffered
    for it, are exactly the payloads taken for it in the order of their
    arrival; as long as it is registered none that arrived was dropped; every payload
    taken was answered with one OKAY, but for one the running reader still
    owes; and no queue exceeds its capacity. *)
Theorem streams_are_pipes (evs : list event) (c : conn) (os : list obs) :
  opens evs < 2 ^ 32 - 1 -> run evs from_parts = Some (c, os) ->
  (forall l e, ends c !! l = Some e ->
     accepted l os = got l os ++ unread c l e
     /\ (reader c <> RStopped ->
         count (taken_by l) os = count (okay_for l) os + owed (reader c) l)
     /\ zlen (rx e) <= DATA_QUEUE)
  /\ (forall l, l ∈ streams c -> missed l os = false)
  /\ zlen (write_q c) <= WRITE_QUEUE.
Proof.
  intros Hn Hr. destruct (conn_run_inv evs from_parts [] c os) as [_ _ _ _ _ I6 I7 _ I9 I10 I11];
    [simpl; lia|done|apply from_parts_inv|].
  split_and!; [|done|done]. intros l e He. split_and!; eauto.
Qed.

(** ** The end of the transport *)

(** The events after which a stream's channel may have no sender. *)
Definition closes (l : Z) (ev : event) : bool :=
  match ev with
  | EWriterStop | EWriter false => true
  | EShutdown l' | EDrop l' | EOpenTimeout l' | EOpenReply l' | EOpenSend l' | ECloser l' => l' =? l
  | _ => false
  end.

(** Ids are kept under their own local number. *)
Record ids_ok (c : conn) : Prop := {
  d_closers : forall k id, closers c !! k = Some (CRemove id) -> id.1 = k;
  d_sid : forall k e id, ends c !! k = Some e -> sid e = Some id -> id.1 = k;
  d_replies : forall k id, replies c !! k = Some (Ok id) -> id.1 = k;
}.

Lemma enqueue_ids q c c' : enqueue q c = Some c' -> ids_ok c -> ids_ok c'.
Proof. unfold enqueue. case_match; intros; simplify_eq. destruct H1. by split. Qed.
Lemma resolve_ids l r c : (forall id, r = Ok id -> id.1 = l) -> ids_ok c -> ids_ok (resolve l r c).
Proof.
  intros Hr [H1 H2 H3]. unfold resolve. case_match; [|done]. split; simpl; [done|done|].
  intros k id [[<- ->]|[_ ?]]%lookup_insert_Some; eauto.
Qed.
Lemma stop_reader_ids c : ids_ok c -> ids_ok (stop_reader c).
Proof.
  intros [H1 H2 H3]. split; simpl; [done|done|]. intros k id.
  rewrite lookup_union_Some_raw, lookup_gset_to_gmap_Some. naive_solver.
Qed.
Lemma abort_open_ids l c : ids_ok c -> ids_ok (abort_open l c).
Proof.
  intros [H1 H2 H3]. split; simpl; [done| |].
  - intros k e id [_ ?]%lookup_delete_Some. eauto.
  - intros k id [_ ?]%lookup_delete_Some. eauto.
Qed.
Lemma send_close_ids l e c :
  (forall id, sid e = Some id -> id.1 = l) -> ids_ok c -> ids_ok (send_close l e c).
Proof.
  intros He [H1 H2 H3]. unfold send_close. repeat case_match; try done. split; simpl; [|done|done].
  intros k id [[<- [= <-]]|[_ ?]]%lookup_insert_Some; eauto.
Qed.
Lemma set_ends_ids es c :
  (forall k e id, es !! k = Some e -> sid e = Some id -> id.1 = k) -> ids_ok c -> ids_ok (set_ends es c).
Proof. intros H [? ? ?]. by split. Qed.

Lemma insert_end_ids l e' e c :
  ends c !! l = Some e -> (forall id, sid e' = Some id -> id.1 = l) -> ids_ok c ->
  ids_ok (set_ends (<[l := e']> (ends c)) c).
Proof.
  intros He Hs Hi. apply set_ends_ids; [|done].
  intros k e0 id [[<- <-]|[_ Hk]]%lookup_insert_Some; [eauto|]. by eapply d_sid.
Qed.

Lemma do_write_cases l data c c' o :
  do_write l data c = Some (c', o) -> c' = c \/ exists q, enqueue q c = Some c'.
Proof.
  unfold do_write, poll_write. destruct (ends c !! l) as [e|]; [|done]. simpl.
  destruct (sid e) as [[lo re]|]; [|done].
  destruct (writer_alive c); [|intros; simplify_eq; by left].
  destruct (enqueue _ c) as [c1|] eqn:E; intros; simplify_eq/=; eauto.
Qed.

Lemma step_ids ev c c' o : step ev c = Some (c', o) -> ids_ok c -> ids_ok c'.
Proof.
  intros Hs Hi. pose proof Hi as [H1 H2 H3]. destruct ev; simpl in Hs.
  - unfold on_frame, on_message in Hs. repeat case_match; simplify_eq;
      try done; try (apply stop_reader_ids; done); try (by split).
    + apply resolve_ids; [by intros ? [= <-]|done].
    + assert (Hc : ids_ok (resolve (Message.arg1 a) (Err (InvalidResponse (bs "CLSE on OPEN"))) c))
        by (by apply resolve_ids). destruct Hc. by split.
    + by apply resolve_ids.
  - unfold reader_step in Hs. destruct (reader c); try done.
    + destruct (ends c !! local) as [e|] eqn:He; [|simplify_eq; by split].
      case_match; simplify_eq. destruct (insert_end_ids local (mkEnd (rx e ++ [payload]) (incoming e) (sid e) (close_tx e)) e c)
        as [A B C]; [done|by eauto|done|]. by split.
    + destruct (writer_alive c); [|simplify_eq; by apply stop_reader_ids].
      destruct (enqueue _ c) as [c1|] eqn:E; simplify_eq/=. destruct (enqueue_ids _ _ _ E Hi). by split.
  - unfold reader_stop in Hs. case_match; simplify_eq. by apply stop_reader_ids.
  - unfold writer_step in Hs. repeat case_match; simplify_eq; by split.
  - unfold writer_stop in Hs. case_match; simplify_eq; by split.
  - unfold open_stream in Hs. simplify_eq. split; simpl; [done| |done].
    intros k e id [[<- <-]|[_ ?]]%lookup_insert_Some; [done|eauto].
  - unfold open_send in Hs. repeat case_match; simplify_eq; [|by apply abort_open_ids].
    destruct (enqueue _ c) as [c1|] eqn:E; simplify_eq/=. destruct (enqueue_ids _ _ _ E Hi). by split.
  - unfold open_reply in Hs. repeat case_match; simplify_eq; [|by apply abort_open_ids].
    split; simpl; [done| |].
    + intros k e0 id [[<- <-]|[_ ?]]%lookup_insert_Some Hid; simpl in *; simplify_eq; eauto.
    + intros k id [_ ?]%lookup_delete_Some. eauto.
  - unfold open_timeout in Hs. repeat case_match; simplify_eq. by apply abort_open_ids.
  - unfold do_read in Hs. destruct (poll_read l (Z.of_nat n) c) as [[r c1]|] eqn:Hp; [|done].
    assert (c' = c1) as -> by (by destruct r; simplify_eq).
    unfold poll_read in Hp. destruct (ends c !! l) as [e|] eqn:He; [|done].
    repeat case_match; simplify_eq; try done; eapply insert_end_ids; simpl; eauto.
  - apply do_write_cases in Hs as [->|[q Hq]]; eauto using enqueue_ids.
  - unfold poll_shutdown in Hs. repeat case_match; simplify_eq. apply send_close_ids; [eauto|].
    eapply insert_end_ids; [done|simpl; intros; simplify_eq; eauto|done].
  - unfold drop_stream in Hs. repeat case_match; simplify_eq. apply send_close_ids; [eauto|].
    apply set_ends_ids; [|done]. intros k e0 id [_ ?]%lookup_delete_Some. eauto.
  - unfold closer_step in Hs. repeat case_match; simplify_eq.
    + split; simpl; [|done|done]. intros k id' [[<- ?]|[_ ?]]%lookup_insert_Some; [done|eauto].
    + destruct (enqueue _ _) as [c1|] eqn:E; simplify_eq/=. eapply enqueue_ids; [done|].
      split; simpl; [|done|done]. intros k id' [_ ?]%lookup_delete_Some. eauto.
    + split; simpl; [|done|done]. intros k id' [_ ?]%lookup_delete_Some. eauto.
Qed.

(** An idle registered stream of a connection whose reader is gone. *)
Definition stranded (l : Z) (c : conn) : Prop :=
  reader c = RStopped /\ l ∈ streams c
  /\ exists e, ends c !! l = Some e /\ rx e = [] /\ incoming e = None.

Lemma stranded_reader l c c' :
  stranded l c -> reader c' = reader c -> streams c' = streams c -> ends c' = ends c -> stranded l c'.
Proof. unfold stranded. intros ? -> -> ->. done. Qed.

Lemma stranded_other l k c c' :
  l <> k -> stranded l c -> reader c' = reader c -> streams c ∖ {[k]} ⊆ streams c' ->
  ends c' !! l = ends c !! l -> stranded l c'.
Proof.
  intros Hne (Hr & Hs & He) Hr' Hs' He'. split_and!; [by rewrite Hr'| |by rewrite He'].
  apply Hs'. set_solver.
Qed.

Lemma enqueue_stranded l q c c' : enqueue q c = Some c' -> stranded l c -> stranded l c'.
Proof. unfold enqueue. case_match; intros; simplify_eq. by eapply stranded_reader. Qed.

Lemma send_close_stranded l k e c : stranded l c -> stranded l (send_close k e c).
Proof. unfold send_close. by repeat case_match. Qed.

Lemma stranded_read l k n c r c' :
  poll_read k n c = Some (r, c') -> stranded l c -> stranded l c'.
Proof.
  intros Hp (Hr & Hs & e & He & Hrx & Hinc). unfold poll_read in Hp.
  destruct (decide (k = l)) as [->|Hne].
  - rewrite He, Hrx, Hinc in Hp. repeat case_match; simplify_eq; split_and!; try done; eauto;
      simpl; rewrite lookup_insert_eq; eauto.
  - repeat case_match; simplify_eq; split_and!; try done; eauto;
      simpl; rewrite lookup_insert_ne by done; eauto.
Qed.

Lemma stranded_step l ev c c' o :
  closes l ev = false -> ids_ok c -> step ev c = Some (c', o) -> stranded l c -> stranded l c'.
Proof.
  intros Hcl [Hk _ _] Hs Hst. pose proof Hst as (Hr & Hl & e & He & Hrx & Hinc).
  destruct ev; simpl in Hcl, Hs; try (apply Z.eqb_neq in Hcl).
  - unfold on_frame in Hs. by rewrite Hr in Hs.
  - unfold reader_step in Hs. by rewrite Hr in Hs.
  - unfold reader_stop in Hs. by rewrite Hr in Hs.
  - destruct ok; [|done]. unfold writer_step in Hs. repeat case_match; simplify_eq.
    by eapply stranded_reader.
  - done.
  - unfold open_stream in Hs. simplify_eq. split_and!; [done|simpl; set_solver|]. simpl.
    destruct (decide (as_u32 (next_local c + 1) = l)) as [->|Hne];
      [rewrite lookup_insert_eq|rewrite lookup_insert_ne by done]; eauto.
  - unfold open_send in Hs. repeat case_match; simplify_eq.
    + destruct (enqueue _ c) as [c1|] eqn:E; simplify_eq/=. eapply stranded_reader; [by eapply enqueue_stranded|..]; done.
    + eapply (stranded_other l l0); [done|done|done|done|]. simpl. by rewrite lookup_delete_ne.
  - unfold open_reply in Hs. repeat case_match; simplify_eq.
    + eapply (stranded_other l l0); [done|done|done|simpl; set_solver|]. simpl. by rewrite lookup_insert_ne.
    + eapply (stranded_other l l0); [done|done|done|done|]. simpl. by rewrite lookup_delete_ne.
  - unfold open_timeout in Hs. repeat case_match; simplify_eq.
    eapply (stranded_other l l0); [done|done|done|done|]. simpl. by rewrite lookup_delete_ne.
  - unfold do_read in Hs. destruct (poll_read l0 (Z.of_nat n) c) as [[r c1]|] eqn:Hp; [|done].
    assert (c' = c1) as -> by (by destruct r; simplify_eq). by eapply stranded_read.
  - apply do_write_cases in Hs as [->|[q Hq]]; eauto using enqueue_stranded.
  - unfold poll_shutdown in Hs. repeat case_match; simplify_eq. apply send_close_stranded.
    eapply (stranded_other l l0); [done|done|done|simpl; set_solver|]. simpl. by rewrite lookup_insert_ne.
  - unfold drop_stream in Hs. repeat case_match; simplify_eq. apply send_close_stranded.
    eapply (stranded_other l l0); [done|done|done|simpl; set_solver|]. simpl. by rewrite lookup_delete_ne.
  - unfold closer_step in Hs. destruct (closers c !! l0) as [[id|id]|] eqn:Hc; [| |done].
    + simplify_eq. apply Hk in Hc. eapply (stranded_other l l0); [done|done|done|simpl; by rewrite Hc|done].
    + case_match; simplify_eq; [|by eapply stranded_reader].
      destruct (enqueue _ _) as [c1|] eqn:E; simplify_eq/=. eapply enqueue_stranded; [done|].
      by eapply stranded_reader.
Qed.

Lemma stranded_run l evs c c' o :
  Forall (fun ev => closes l ev = false) evs -> ids_ok c -> run evs c = Some (c', o) ->
  stranded l c -> stranded l c'.
Proof.
  intros Hev. revert c o. induction Hev as [|ev evs He Hevs IH]; intros c o Hi Hr Hst; simpl in Hr; [by simplify_eq|].
  destruct (step ev c) as [[c1 o1]|] eqn:Hs; [|done]. simpl in Hr.
  destruct (run evs c1) as [[c2 o2]|] eqn:Hr'; [|done]. simplify_eq/=.
  eapply IH; [by eapply step_ids|done|by eapply stranded_step].
Qed.

Lemma run_ids evs c c' o : run evs c = Some (c', o) -> ids_ok c -> ids_ok c'.
Proof.
  revert c o. induction evs as [|ev evs IH]; intros c o Hr Hi; simpl in Hr; [by simplify_eq|].
  destruct (step ev c) as [[c1 o1]|] eqn:Hs; [|done]. simpl in Hr.
  destruct (run evs c1) as [[c2 o2]|] eqn:Hr'; [|done]. simplify_eq/=.
  eapply IH; [done|by eapply step_ids].
Qed.

(** The end of the transport does not reach a stream that is waiting for
    data. Once the reader task has stopped, a registered stream with nothing
    buffered stays pending on every read, whatever else the connection
    does, until the writer task stops or fails, or the stream itself is closed: its end of file is never
    delivered. *)
Theorem reader_stop_strands (l n : Z) (evs1 evs2 : list event) (c1 c2 : conn) (os1 os2 : list obs) :
  run evs1 from_parts = Some (c1, os1) -> stranded l c1 ->
  run evs2 c1 = Some (c2, os2) -> Forall (fun ev => closes l ev = false) evs2 -> 0 < n ->
  exists c3, poll_read l n c2 = Some (Pending, c3).
Proof.
  intros Hr1 Hst Hr2 Hev Hn.
  assert (Hi : ids_ok c1) by (eapply run_ids; [done|]; by split).
  destruct (stranded_run l evs2 c1 c2 os2 Hev Hi Hr2 Hst) as (Hr & Hl & e & He & Hrx & Hinc).
  unfold poll_read. rewrite He, Hrx, Hinc. rewrite (proj2 (Z.eqb_neq n 0)) by lia.
  unfold has_sender. simpl. rewrite bool_decide_eq_true_2 by done. simpl. eauto.
Qed.

(** ** A run *)

(** The frame of a message. *)
Definition frame (m : Message.t) : event :=
  EFrame (Message.header (Command.as_u32 (Message.command m)) (Message.arg0 m) (Message.arg1 m)
            (zlen (Message.payload m)) (data_checksum (Message.payload m))
            (Z.lxor (Command.as_u32 (Message.command m)) 0xFFFFFFFF)) (Message.payload m).

(** A shell is opened, the device answers, sends five bytes of which three are read. *)
Definition shell_run : list event :=
  [EOpen (bs "shell:"); EOpenSend 2; EWriter true; frame (Message.new Command.Okay 7 2 []); EOpenReply 2;
   frame (Message.new Command.Write 7 2 (bs "hello")); EReader; EReader; EWriter true; ERead 2 3].

(** What holds after a run. *)
Definition after {A} (evs : list event) (d : A) (f : conn -> list obs -> A) : A :=
  match run evs from_parts with Some (c, os) => f c os | None => d end.

Lemma after_run {A} evs (d x : A) f :
  after evs d f = x -> x <> d -> exists c os, run evs from_parts = Some (c, os) /\ f c os = x.
Proof. unfold after. destruct (run evs from_parts) as [[c os]|]; [eauto|congruence]. Qed.

Lemma streams_are_pipes_witness :
  exists c os e, run shell_run from_parts = Some (c, os) /\ ends c !! 2 = Some e
  /\ got 2 os = bs "hel" /\ accepted 2 os = bs "hello" /\ unread c 2 e = bs "lo".
Proof.
  destruct (after_run shell_run [] [bs "hel"; bs "hello"]
    (fun c os => match ends c !! 2 with Some _ => [got 2 os; accepted 2 os] | None => [] end))
    as (c & os & Hr & Hf); [by vm_compute|done|].
  destruct (ends c !! 2) as [e|] eqn:He; [|done]. injection Hf as Hg Ha.
  destruct (streams_are_pipes shell_run c os ltac:(done) Hr) as (Hp & _).
  destruct (Hp 2 e He) as (Hb & _). exists c, os, e. rewrite Hg, Ha in Hb.
  apply (app_inv_head (bs "hel")) in Hb. exact (conj Hr (conj He (conj Hg (conj Ha (eq_sym Hb))))).
Defined.

(** The rest is read and the device unplugged; another open times out. *)
Definition unplugged : list event := shell_run ++ [ERead 2 10; EReaderStop].
Definition afterwards : list event := [EOpen (bs "sync:"); EOpenSend 3; EOpenTimeout 3; ERead 2 10].

Definition is_stranded (l : Z) (c : conn) : bool :=
  match reader c with RStopped => true | _ => false end && bool_decide (l ∈ streams c)
  && match ends c !! l with Some (mkEnd [] None _ _) => true | _ => false end.

Lemma is_stranded_spec l c : is_stranded l c = true -> stranded l c.
Proof.
  unfold is_stranded, stranded. intros H. bool_to_prop.
  destruct (reader c); try done. destruct (ends c !! l) as [[[|] [] ? ?]|]; try done.
  split_and!; [done|done|]. eexists. by split.
Qed.

Lemma reader_stop_strands_witness :
  exists c1 os1 c2 os2 c3, run unplugged from_parts = Some (c1, os1)
    /\ run afterwards c1 = Some (c2, os2) /\ poll_read 2 10 c2 = Some (Pending, c3).
Proof.
  destruct (after_run unplugged false true
    (fun c os => is_stranded 2 c && match run afterwards c with Some _ => true | None => false end))
    as (c1 & os1 & H1 & Hf); [by vm_compute|done|].
  apply andb_true_iff in Hf as [Hst H2]. destruct (run afterwards c1) as [[c2 os2]|] eqn:Hr2; [|done].
  destruct (reader_stop_strands 2 10 unplugged afterwards c1 c2 os1 os2 H1 (is_stranded_spec _ _ Hst) Hr2)
    as [c3 H3]; [by repeat constructor|lia|].
  exists c1, os1, c2, os2, c3. exact (conj H1 (conj Hr2 H3)).
Defined.

(** An empty payload ends a read as the end of the stream would. *)
Example empty_write_reads_as_eof :
  after (take 5 shell_run ++
    [frame (Message.new Command.Write 7 2 []); EReader; EReader; ERead 2 10]) None
    (fun c os => if bool_decide (2 ∈ streams c) then last os else None) = Some (Got 2 []).
Proof. by vm_compute. Qed.
