(* ===== verification/Transport.v ===== *)
(** * The adb handshake and the USB pump (adb-device/src/transport.rs)

    [open_inner] over the bytes the device will send and the outcomes of the
    host's writes; the pump's write loop over the outcomes of its bulk
    transfers; the reader that hands the pump's chunks out. RSA is the
    argument [AdbKey]. *)

From stdpp Require Import base list gmap strings.
From S2P Require Import Prelude RustStd Packet Connection.

(** The [MAX_PAYLOAD] of this file, not packet.rs's. *)
Definition HANDSHAKE_MAX_PAYLOAD : Z := 1024 * 1024.
Definition MAX_AUTH_ATTEMPTS : nat := 3.
(** What CNXN tells the device it may send in one frame. *)
Definition ADVERTISED_MAX : Z := Z.shiftl 1 20.

Record AdbKey : Type := mkKey { sign : bytes -> adb_result bytes; ssh_public : bytes }.

(** The two halves of the transport: what the device will send and how that
    ends (closed, or an I/O error), the outcomes of the coming writes (none
    left: they succeed), and what has been read and written so far. *)
Record wires : Type := mkWires {
  inp : bytes;
  inp_end : option bytes;
  wr : list (option bytes);
  seen : list Message.t;
  sent : list Message.t;
}.

Definition H (A : Type) : Type := wires -> adb_result A * wires.
#[local] Instance H_ret : MRet H := fun A a w => (Ok a, w).
#[local] Instance H_bind : MBind H := fun A B k m w =>
  match m w with (Ok a, w) => k a w | (Err e, w) => (Err e, w) end.
Definition throw {A} (e : AdbError) : H A := fun w => (Err e, w).
Definition lift {A} (r : adb_result A) : H A := fun w => (r, w).

(** [read_exact] of [n] bytes: [None] is an early end of file. *)
Definition read_exact (n : Z) : H (option bytes) := fun w =>
  if n <=? zlen (inp w)
  then (Ok (Some (ztake n (inp w))), mkWires (zdrop n (inp w)) (inp_end w) (wr w) (seen w) (sent w))
  else (match inp_end w with None => Ok None | Some e => Err (Io e) end,
        mkWires [] (inp_end w) (wr w) (seen w) (sent w)).

(** A message was read. *)
Definition note (m : Message.t) : H unit := fun w =>
  (Ok tt, mkWires (inp w) (inp_end w) (wr w) (seen w ++ [m]) (sent w)).

Definition EARLY_EOF : bytes := bs "early eof".

Definition read_message : H (option Message.t) :=
  h ← read_exact Message.HEADER_LEN;
  match h with
  | None => mret None
  | Some header =>
      let data_len := u32_le_at header 12 in
      if data_len >? HANDSHAKE_MAX_PAYLOAD
      then throw (InvalidResponse (bs "ADB payload too large: " ++ fmt_dec data_len))
      else
        p ← read_exact data_len;
        match p with
        | None => throw (Io EARLY_EOF)
        | Some payload =>
            m ← lift (Message.decode header payload); note m ;; mret (Some m)
        end
  end.

(** [write_all] and [flush] of an encoded message. *)
Definition write_message (m : Message.t) : H unit := fun w =>
  match wr w with
  | Some e :: rest => (Err (Io e), mkWires (inp w) (inp_end w) rest (seen w) (sent w))
  | None :: rest => (Ok tt, mkWires (inp w) (inp_end w) rest (seen w) (sent w ++ [m]))
  | [] => (Ok tt, mkWires (inp w) (inp_end w) [] (seen w) (sent w ++ [m]))
  end.

(** A message, or the device is gone. *)
Definition next_message : H Message.t :=
  r ← read_message;
  match r with Some m => mret m | None => throw Disconnected end.

Definition is_token (m : Message.t) : bool :=
  bool_decide (Message.command m = Command.Auth) && (Message.arg0 m =? AUTH_TOKEN).

Definition sig_msg (sig : bytes) : Message.t := Message.new Command.Auth AUTH_SIGNATURE 0 sig.
Definition pk_msg (key : AdbKey) : Message.t :=
  Message.new Command.Auth AUTH_RSAPUBLICKEY 0 (ssh_public key).

(** The loop's body: the token is signed and, if the device asks again, the
    public key is sent. *)
Definition auth_round (key : AdbKey) (msg : Message.t) : H Message.t :=
  sig ← lift (sign key (Message.payload msg));
  write_message (sig_msg sig) ;;
  msg ← next_message;
  if is_token msg then write_message (pk_msg key) ;; next_message else mret msg.

(** The [while msg.command == Auth] loop with [attempts] left. *)
Fixpoint auth_loop (attempts : nat) (key : option AdbKey) (msg : Message.t) : H Message.t :=
  if negb (bool_decide (Message.command msg = Command.Auth)) then mret msg
  else
    match attempts with
    | O => throw Unauthorized
    | S attempts =>
        key' ← lift (ok_or key Unauthorized);
        if negb (Message.arg0 msg =? AUTH_TOKEN) then
          throw (InvalidResponse (bs "unexpected AUTH type " ++ fmt_dec (Message.arg0 msg)))
        else msg ← auth_round key' msg; auth_loop attempts key msg
    end.

Definition debug (c : Command.t) : bytes :=
  match c with
  | Command.Sync => bs "Sync" | Command.Connect => bs "Connect" | Command.Open => bs "Open"
  | Command.Okay => bs "Okay" | Command.Close => bs "Close" | Command.Write => bs "Write"
  | Command.Auth => bs "Auth" | Command.Fail => bs "Fail"
  end.

Section handshake.
Context (version serial : bytes) (key : option AdbKey).

Definition connect_msg : Message.t :=
  Message.new Command.Connect ADB_VERSION ADVERTISED_MAX
    (bs "adbshare::" ++ version ++ bs "::" ++ serial).

Definition open_inner : H conn :=
  write_message connect_msg ;;
  msg ← next_message;
  msg ← auth_loop MAX_AUTH_ATTEMPTS key msg;
  if negb (bool_decide (Message.command msg = Command.Connect))
  then throw (InvalidResponse (bs "expected CNXN, got " ++ debug (Message.command msg)))
  else mret from_parts.

(** ** The conversation *)

(** [n] rounds of authentication: a token is answered by its signature and,
    if the device sends a token again, by the public key. *)
Inductive talk (k : AdbKey) : nat -> list Message.t -> list Message.t -> Prop :=
| talk_done : talk k 0 [] []
| talk_sig n t sig ms os :
    is_token t = true -> sign k (Message.payload t) = Ok sig -> talk k n ms os ->
    talk k (S n) (t :: ms) (sig_msg sig :: os)
| talk_pk n t t' sig ms os :
    is_token t = true -> sign k (Message.payload t) = Ok sig -> is_token t' = true -> talk k n ms os ->
    talk k (S n) (t :: t' :: ms) (sig_msg sig :: pk_msg k :: os).

Ltac ret_inv := unfold mret, H_ret, throw, lift in *; simplify_eq/=.

Lemma h_bind_inv {A B} (m : H A) (f : A -> H B) w r w' :
  (m ≫= f) w = (r, w') ->
  (exists a w1, m w = (Ok a, w1) /\ f a w1 = (r, w')) \/ (exists e, m w = (Err e, w') /\ r = Err e).
Proof.
  unfold mbind, H_bind. destruct (m w) as [[a|e] w1]; intros; simplify_eq; eauto 10.
Qed.

Lemma read_exact_log n w r w' : read_exact n w = (r, w') -> seen w' = seen w /\ sent w' = sent w.
Proof. unfold read_exact. case_bool; intros; by simplify_eq. Qed.

Lemma write_log m w r w' : write_message m w = (r, w') ->
  seen w' = seen w /\ ((exists u, r = Ok u) /\ sent w' = sent w ++ [m] \/ (exists e, r = Err e) /\ sent w' = sent w).
Proof. unfold write_message. destruct (wr w) as [|[e|] ?]; intros; simplify_eq; simpl; eauto 10. Qed.

Lemma read_message_log w r w' : read_message w = (r, w') ->
  sent w' = sent w /\ seen w' = seen w ++ match r with Ok (Some m) => [m] | _ => [] end.
Proof.
  unfold read_message. intros [(h & w1 & H1 & H2)|(e & H1 & ->)]%h_bind_inv;
    apply read_exact_log in H1 as [E1 E2]; [|by rewrite E1, E2, app_nil_r].
  rewrite <- E1, <- E2. clear E1 E2.
  destruct h as [header|]; [|ret_inv; by rewrite app_nil_r].
  revert H2. case_bool; [intros H2; ret_inv; by rewrite app_nil_r|].
  intros [(p & w2 & H1 & H2)|(e & H1 & ->)]%h_bind_inv;
    apply read_exact_log in H1 as [E1 E2]; [|by rewrite E1, E2, app_nil_r].
  rewrite <- E1, <- E2. clear E1 E2.
  destruct p as [payload|]; [|ret_inv; by rewrite app_nil_r].
  unfold mbind, H_bind, lift, note, mret, H_ret in H2.
  destruct (Message.decode header payload); simplify_eq/=; by rewrite ?app_nil_r.
Qed.

Lemma next_log w r w' : next_message w = (r, w') ->
  sent w' = sent w /\ seen w' = seen w ++ match r with Ok m => [m] | _ => [] end.
Proof.
  unfold next_message. intros [(o & w1 & H1 & H2)|(e & H1 & ->)]%h_bind_inv; apply read_message_log in H1; [|done].
  destruct o; ret_inv; done.
Qed.

(** The message behind a conversation, if one came. *)
Definition behind (fin : option Message.t) : list Message.t := match fin with Some m => [m] | None => [] end.

Lemma talk_length k n ms os : talk k n ms os -> zlen os <= 2 * Z.of_nat n.
Proof. induction 1; rewrite ?zlen_cons, ?zlen_nil; lia. Qed.

(** One round, however it ends: unanswered; answered by the signature with a
    message behind it or none; or by signature and key. *)
Lemma auth_round_log k msg w r w' :
  auth_round k msg w = (r, w') ->
  (exists e, r = Err e /\ seen w' = seen w /\ sent w' = sent w)
  \/ exists sig, sign k (Message.payload msg) = Ok sig /\
     ((exists fin, seen w' = seen w ++ behind fin /\ sent w' = sent w ++ [sig_msg sig]
        /\ match fin with
           | Some m => if is_token m then exists e, r = Err e else r = Ok m
           | None => exists e, r = Err e
           end)
      \/ exists t fin, is_token t = true /\ seen w' = seen w ++ t :: behind fin
           /\ sent w' = sent w ++ [sig_msg sig; pk_msg k]
           /\ match fin with Some m => r = Ok m | None => exists e, r = Err e end).
Proof.
  unfold auth_round. intros [(sig & w1 & Hs & Hr)|(e & Hs & ->)]%h_bind_inv; unfold lift in Hs; simplify_eq; [|left; eauto].
  apply h_bind_inv in Hr as [(u & w2 & Hw & Hr)|(e & Hw & ->)];
    apply write_log in Hw as (E1 & [[[? ?] E2]|[[? ?] E2]]); simplify_eq; [|left; eauto].
  right. exists sig. split; [done|].
  apply h_bind_inv in Hr as [(m1 & w3 & Hm & Hr)|(e & Hm & ->)]; apply next_log in Hm as [F1 F2].
  2:{ left. exists None. rewrite F1, F2, E1, E2. eauto. }
  destruct (is_token m1) eqn:Ht.
  - apply h_bind_inv in Hr as [(u & w4 & Hw & Hr)|(e & Hw & ->)];
      apply write_log in Hw as (G1 & [[[? ?] G2]|[[? ?] G2]]); simplify_eq.
    + apply next_log in Hr as [K1 K2]. right. exists m1, (match r with Ok m => Some m | Err _ => None end).
      rewrite K1, K2, G1, G2, F1, F2, E1, E2, <- !app_assoc. destruct r; split_and!; eauto.
    + left. exists (Some m1). rewrite G1, G2, F1, F2, E1, E2. rewrite Ht. eauto.
  - ret_inv. left. exists (Some m1). rewrite F1, F2, E1, E2, Ht. done.
Qed.

(** Rounds with the key there is; without one there are none. *)
Definition talked (n : nat) (ms os : list Message.t) : Prop :=
  match key with Some k => talk k n ms os | None => ms = [] /\ os = [] end.

(** The log of a loop that was given [msg], however it ends: its rounds are a
    talk, and it returns the message behind them exactly if that is no AUTH. *)
Definition loop_log (n : nat) (msg : Message.t) (w : wires) (r : adb_result Message.t) (w' : wires) : Prop :=
  exists j ms os fin new, (j <= n)%nat /\ talked j ms os /\ msg :: new = ms ++ behind fin
    /\ seen w' = seen w ++ new /\ sent w' = sent w ++ os
    /\ match r with
       | Ok m => fin = Some m /\ Message.command m <> Command.Auth
       | Err _ => forall m, fin = Some m -> Message.command m = Command.Auth
       end.

(** The loop stops at [msg] itself, nothing read or sent. *)
Lemma loop_log_stop n msg w r w' :
  seen w' = seen w -> sent w' = sent w ->
  match r with Ok m => m = msg /\ Message.command m <> Command.Auth | Err _ => Message.command msg = Command.Auth end ->
  loop_log n msg w r w'.
Proof.
  intros E1 E2 Hr. exists 0%nat, [], [], (Some msg), []. rewrite !app_nil_r. split_and!; try done; [lia| |].
  - unfold talked. destruct key; (done || constructor).
  - destruct r; [by destruct Hr as [-> ?]|]. by intros m [= <-].
Qed.

(** A round that gave [m1] goes before a loop that was given [m1]. *)
Lemma loop_log_round k n msg w m1 w1 r w' :
  key = Some k -> is_token msg = true -> auth_round k msg w = (Ok m1, w1) ->
  loop_log n m1 w1 r w' -> loop_log (S n) msg w r w'.
Proof.
  intros Hkey Htok Hm (j & ms & os & fin & new & Hj & Ht & Hnew & E1 & E2 & Hres).
  unfold loop_log, talked in *. rewrite Hkey in *.
  apply auth_round_log in Hm as [(e' & He & _)|(sig & Hsig & [(f & L1 & L2 & Hf)|(t & f & Htt & L1 & L2 & Hf)])]; [done| |].
  - destruct f as [m|]; [|by destruct Hf]. destruct (is_token m); [by destruct Hf|]. injection Hf as <-.
    exists (S j), (msg :: ms), (sig_msg sig :: os), fin, (m1 :: new). rewrite E1, E2, L1, L2, <- !app_assoc.
    split_and!; try done; [lia|by constructor|by rewrite Hnew].
  - destruct f as [m|]; [|by destruct Hf]. injection Hf as <-.
    exists (S j), (msg :: t :: ms), (sig_msg sig :: pk_msg k :: os), fin, (t :: m1 :: new).
    rewrite E1, E2, L1, L2, <- !app_assoc.
    split_and!; try done; [lia|by constructor|by rewrite Hnew].
Qed.

(** A round that failed is the last. *)
Lemma loop_log_failed k n msg w e w' :
  key = Some k -> is_token msg = true -> auth_round k msg w = (Err e, w') -> loop_log (S n) msg w (Err e) w'.
Proof.
  intros Hkey Htok Hm.
  assert (Hauth : forall m, is_token m = true -> Message.command m = Command.Auth).
  { intros m Em. unfold is_token in Em. by bool_to_prop. }
  apply auth_round_log in Hm as [(e' & He & L1 & L2)|(sig & Hsig & [(f & L1 & L2 & Hf)|(t & f & Htt & L1 & L2 & Hf)])];
    [by apply loop_log_stop; auto| |]; unfold loop_log, talked; rewrite Hkey.
  - exists 1%nat, [msg], [sig_msg sig], f, (behind f). split_and!; try done; [lia|repeat constructor; done|].
    intros m ->. destruct (is_token m) eqn:Em; [by apply Hauth|done].
  - destruct f as [m|]; [done|]. exists 1%nat, [msg; t], [sig_msg sig; pk_msg k], None, [t].
    split_and!; try done; [lia|repeat constructor; done].
Qed.

Lemma auth_loop_talk n msg w r w' : auth_loop n key msg w = (r, w') -> loop_log n msg w r w'.
Proof.
  revert msg w. induction n as [|n IH]; intros msg w; cbn [auth_loop];
    (case_bool; bool_to_prop; [intros; ret_inv; by apply loop_log_stop|]).
  { intros; ret_inv; by apply loop_log_stop. }
  intros [(k & w1 & Hk & Hr)|(e & Hk & ->)]%h_bind_inv; unfold lift in Hk;
    destruct key as [k'|] eqn:Hkey; simplify_eq/=; [|by apply loop_log_stop].
  revert Hr. case_bool; bool_to_prop; [intros; ret_inv; by apply loop_log_stop|].
  assert (Htok : is_token msg = true).
  { unfold is_token. rewrite bool_decide_eq_true_2 by done. by apply Z.eqb_eq. }
  intros [(m1 & w2 & Hm & Hr)|(e & Hm & ->)]%h_bind_inv.
  - eapply loop_log_round; [done|done|done|]. by apply IH.
  - by eapply loop_log_failed.
Qed.

(** C13: The adb handshake is a bounded conversation. However it ends, it has sent
    nothing at all (the first write failed) or CNXN and then
    only the answers of at most three rounds of authentication, each to a token the
    device sent, signed with the host's key, the public key only when a token
    followed the signature; behind those rounds at most one more message was read, and it succeeds exactly when this is there and is
    CNXN. It never sends more than seven messages, and
    without a key nothing but CNXN. A message whose write failed half way does not count as sent. *)
Theorem handshake_conversation w r w' :
  seen w = [] -> sent w = [] -> open_inner w = (r, w') ->
  (seen w' = [] /\ sent w' = [] /\ is_ok r = false
   \/ exists n ms os fin, (n <= MAX_AUTH_ATTEMPTS)%nat /\ talked n ms os
        /\ seen w' = ms ++ behind fin /\ sent w' = connect_msg :: os
        /\ (is_ok r = true <-> exists m, fin = Some m /\ Message.command m = Command.Connect))
  /\ zlen (sent w') <= 7
  /\ (key = None -> sent w' = [] \/ sent w' = [connect_msg]).
Proof.
  intros Hseen Hsent Ho.
  cut (seen w' = [] /\ sent w' = [] /\ is_ok r = false
   \/ exists n ms os fin, (n <= MAX_AUTH_ATTEMPTS)%nat /\ talked n ms os
        /\ seen w' = ms ++ behind fin /\ sent w' = connect_msg :: os
        /\ (is_ok r = true <-> exists m, fin = Some m /\ Message.command m = Command.Connect)).
  { intros Hc. split; [exact Hc|]. destruct Hc as [(_ & -> & _)|(n & ms & os & fin & Hn & Ht & _ & -> & _)]; [split; [done|by left]|].
    unfold talked in Ht. destruct key as [k|]; [|destruct Ht as [_ ->]; split; [by vm_compute|by right]].
    apply talk_length in Ht. unfold MAX_AUTH_ATTEMPTS in Hn. rewrite zlen_cons. split; [lia|done]. }
  revert Ho. unfold open_inner.
  intros [(u & w1 & Hw & Hr)|(e & Hw & ->)]%h_bind_inv;
    apply write_log in Hw as (E1 & [[[? ?] E2]|[[? ?] E2]]); simplify_eq; [|left; by rewrite E1, E2].
  right. rewrite Hseen in E1. rewrite Hsent in E2. simpl in E2.
  apply h_bind_inv in Hr as [(m1 & w2 & Hm & Hr)|(e & Hm & ->)]; apply next_log in Hm as [F1 F2]; rewrite E1 in F2; rewrite E2 in F1.
  2:{ exists 0%nat, [], [], None. rewrite F1, F2. unfold talked. split_and!; try done; [lia|destruct key; (done || constructor)|].
      split; [done|by intros (? & ? & _)]. }
  simpl in F2. apply h_bind_inv in Hr as [(m2 & w3 & Hm & Hr)|(e & Hm & ->)];
    apply auth_loop_talk in Hm as (j & ms & os & fin & new & Hj & Ht & Hnew & G1 & G2 & Hres); rewrite F1, F2 in *.
  2:{ exists j, ms, os, fin. rewrite G1, G2. split_and!; try done. split; [done|]. intros (m & Hf & Hc). apply Hres in Hf. congruence. }
  destruct Hres as [-> Hna]. revert Hr. case_bool; bool_to_prop; intros Hr; ret_inv; exists j, ms, os, (Some m2);
    rewrite G1, G2; (split_and!; try done); split; try done; eauto. intros (m & [= <-] & ?). done.
Qed.
End handshake.

(** ** A device that asks for one signature *)

Definition echo_key : AdbKey := mkKey (fun t => Ok (reverse t)) (bs "QUJD adb@host").
Definition encoded (m : Message.t) : bytes := default [] (Message.encode m).
Definition asking_device : wires :=
  mkWires (encoded (Message.new Command.Auth AUTH_TOKEN 0 [1; 2; 3])
           ++ encoded (Message.new Command.Connect ADB_VERSION 4096 (bs "device::"))) None [] [] [].

Lemma handshake_conversation_witness :
  exists c w', open_inner (bs "0.1") (bs "X") (Some echo_key) asking_device = (Ok c, w')
  /\ zlen (sent w') <= 7 /\ last (sent w') = Some (sig_msg [3; 2; 1])
  /\ (exists m ms, seen w' = ms ++ [m] /\ Message.command m = Command.Connect).
Proof.
  destruct (open_inner (bs "0.1") (bs "X") (Some echo_key) asking_device) as [r w'] eqn:E.
  destruct (handshake_conversation (bs "0.1") (bs "X") (Some echo_key) asking_device r w'
    ltac:(done) ltac:(done) E) as (Hok & Hlen & _).
  assert (Hr : is_ok r = true /\ last (sent w') = Some (sig_msg [3; 2; 1])).
  { replace r with (open_inner (bs "0.1") (bs "X") (Some echo_key) asking_device).1 by (by rewrite E).
    replace w' with (open_inner (bs "0.1") (bs "X") (Some echo_key) asking_device).2 by (by rewrite E).
    split; by vm_compute. }
  destruct Hr as [Hr Hl]. destruct r as [c|]; [|done].
  destruct Hok as [(_ & _ & Hf)|(n & ms & os & fin & _ & _ & Hs & _ & Hiff)]; [discriminate Hf|].
  destruct (proj1 Hiff Hr) as (m & Hm & Hc). rewrite Hm in Hs. exists c, w'.
  exact (conj eq_refl (conj Hlen (conj Hl (ex_intro _ m (ex_intro _ ms (conj Hs Hc)))))).
Defined.

(** The handshake promises what the connection then refuses: CNXN tells the
    device that it may send payloads of one mebibyte, but on any frame that
    claims more than 256 KiB the connection's reader stops for good, failing every pending open. *)
Theorem promised_frame_stops_reader version serial (h p : bytes) (c : conn) :
  zlen h = Message.HEADER_LEN -> reader c = RIdle ->
  MAX_PAYLOAD < u32_le_at h 12 <= Message.arg1 (connect_msg version serial) ->
  Message.arg1 (connect_msg version serial) = 1024 * 1024
  /\ on_frame h p c = Some (stop_reader c, []) /\ reader (stop_reader c) = RStopped
  /\ forall l, l ∈ pending_opens c -> replies (stop_reader c) !! l = Some (Err Disconnected).
Proof.
  intros Hh Hr Hlen. split; [done|]. split.
  - unfold on_frame. rewrite Hr, Hh, Z.eqb_refl. simpl.
    rewrite (proj2 (Z.gtb_lt _ _)) by lia. done.
  - split; [done|]. intros l Hl. simpl. apply lookup_union_Some_raw. left.
    by apply lookup_gset_to_gmap_Some.
Qed.

Lemma promised_frame_stops_reader_witness :
  on_frame (Message.header A_WRTE 7 2 (512 * 1024) 0 (Z.lxor A_WRTE 0xFFFFFFFF)) [] from_parts
  = Some (stop_reader from_parts, []).
Proof.
  apply (promised_frame_stops_reader (bs "0.1") (bs "X")); [done|done|]. by vm_compute.
Defined.

(** ** The USB pump *)

(** The chunks the pump handed over and the tail of one that was too long for
    its read. *)
Record ChannelReader : Type := mkReader { chunks : list bytes; pending : option bytes }.

Definition serve_chunk (n : Z) (chunk : bytes) (q : list bytes) : bytes * ChannelReader :=
  let take := Z.min (zlen chunk) n in
  (ztake take chunk, mkReader q (if take <? zlen chunk then Some (zdrop take chunk) else None)).

(** [poll_read] into [n] bytes once a chunk is there or the pump is gone. *)
Definition channel_read (n : Z) (r : ChannelReader) : bytes * ChannelReader :=
  if n >? 0 then
    match pending r with
    | Some p => serve_chunk n p (chunks r)
    | None =>
        match chunks r with
        | chunk :: q => serve_chunk n chunk q
        | [] => ([], r)
        end
    end
  else ([], r).

(** The outcomes of the pump's bulk writes. *)
Inductive written : Type := Wrote | WriteFailed | Starved.

(** [while written < chunk.len() { write_bulk(..) }]: the bytes on the wire,
    how it ended, the outcomes left. *)
Fixpoint write_chunk (chunk : bytes) (res : list (option Z)) : bytes * written * list (option Z) :=
  match chunk with
  | [] => ([], Wrote, res)
  | _ =>
      match res with
      | [] => ([], Starved, [])
      | None :: res => ([], WriteFailed, res)
      | Some n :: res =>
          if n =? 0 then ([], WriteFailed, res)
          else let '(out, e, res) := write_chunk (zdrop n chunk) res in (ztake n chunk ++ out, e, res)
      end
  end.

(** The drain of the outgoing queue. *)
Fixpoint drain (q : list bytes) (res : list (option Z)) : bytes * written * list (option Z) :=
  match q with
  | [] => ([], Wrote, res)
  | chunk :: q =>
      match write_chunk chunk res with
      | (out, Wrote, res) => let '(out', e, res) := drain q res in (out ++ out', e, res)
      | (out, e, res) => (out, e, res)
      end
  end.

Lemma write_chunk_prefix chunk res :
  let '(out, e, _) := write_chunk chunk res in
  exists rest, chunk = out ++ rest /\ (e = Wrote -> rest = []).
Proof.
  revert chunk. induction res as [|r res IH]; intros [|b chunk]; simpl; try (by eexists).
  destruct r as [n|]; [|by eexists]. case_bool; [by eexists|]. specialize (IH (zdrop n (b :: chunk))).
  destruct (write_chunk _ res) as [[out e] res']. destruct IH as (rest & Hz & Hr). exists rest.
  split; [|done]. by rewrite <- app_assoc, <- Hz, ztake_zdrop.
Qed.

Lemma drain_prefix q res :
  let '(out, e, _) := drain q res in
  exists rest, concat q = out ++ rest /\ (e = Wrote -> rest = []).
Proof.
  revert res. induction q as [|chunk q IH]; intros res; simpl; [by eexists|].
  pose proof (write_chunk_prefix chunk res) as Hc. destruct (write_chunk chunk res) as [[out e] res'].
  destruct Hc as (rest & -> & Hr). destruct e; [|exists (rest ++ concat q); by rewrite app_assoc..].
  specialize (IH res'). destruct (drain q res') as [[out' e'] res'']. destruct IH as (rest' & -> & Hr').
  rewrite (Hr eq_refl), app_nil_r. exists rest'. by rewrite app_assoc.
Qed.

(** Reads of a sequence of sizes. *)
Fixpoint channel_reads (ns : list Z) (r : ChannelReader) : list bytes * ChannelReader :=
  match ns with
  | [] => ([], r)
  | n :: ns => let '(d, r) := channel_read n r in let '(ds, r) := channel_reads ns r in (d :: ds, r)
  end.

Definition left_in (r : ChannelReader) : bytes := default [] (pending r) ++ concat (chunks r).
Definition no_empty (r : ChannelReader) : Prop :=
  Forall (fun c => c <> []) (chunks r) /\ pending r <> Some [].

Lemma serve_chunk_spec n chunk q :
  0 < n -> chunk <> [] -> Forall (fun c => c <> []) q ->
  let '(d, r) := serve_chunk n chunk q in
  chunk ++ concat q = d ++ left_in r /\ no_empty r /\ d <> [].
Proof.
  intros Hn Hc Hq. unfold serve_chunk, left_in, no_empty; simpl.
  assert (Hl : 0 < zlen chunk) by (destruct chunk; [done|len_lia]).
  split_and!.
  - case_bool; bool_to_prop; simpl; [by rewrite app_assoc, ztake_zdrop|].
    by rewrite ztake_all by lia.
  - done.
  - case_bool; bool_to_prop; [|done]. intros [= E]. apply (f_equal zlen) in E. len_lia.
  - intros E. apply (f_equal zlen) in E. len_lia.
Qed.

Lemma channel_read_spec n r :
  0 < n -> no_empty r ->
  let '(d, r') := channel_read n r in
  left_in r = d ++ left_in r' /\ no_empty r' /\ (d = [] -> left_in r = []).
Proof.
  intros Hn [Hq Hp]. unfold channel_read. rewrite (proj2 (Z.gtb_lt _ _)) by lia.
  destruct r as [q [p|]]; cbn [pending chunks] in *.
  - pose proof (serve_chunk_spec n p q Hn ltac:(congruence) Hq) as Hs.
    destruct (serve_chunk n p q) as [d r']. destruct Hs as (Hl & He & Hd). split_and!; [exact Hl|done|by intros ->].
  - destruct q as [|c q]; [done|]. inv Hq.
    pose proof (serve_chunk_spec n c q Hn ltac:(done) ltac:(done)) as Hs.
    destruct (serve_chunk n c q) as [d r']. destruct Hs as (Hl & He & Hd). split_and!; [exact Hl|done|by intros ->].
Qed.

(** The USB pump neither loses, repeats nor reorders bytes. Outgoing, the
    bytes on the wire are a prefix of the queued chunks, all of them when no
    transfer failed, however the bulk writes are split; incoming, any
    sequence of reads returns the chunks' bytes in order, and an empty result
    means that everything was read. *)
Theorem usb_bytes_in_order (q : list bytes) (res : list (option Z)) (ns : list Z) (r : ChannelReader) :
  Forall (fun n => 0 < n) ns -> no_empty r ->
  (let '(out, e, _) := drain q res in exists rest, concat q = out ++ rest /\ (e = Wrote -> rest = []))
  /\ (let '(ds, r') := channel_reads ns r in
      left_in r = concat ds ++ left_in r' /\ (([] : bytes) ∈ ds -> left_in r' = [])).
Proof.
  intros Hns Hr. split; [apply drain_prefix|].
  revert r Hr. induction Hns as [|n ns Hn Hns IH]; intros r Hr; simpl.
  { split; [done|]. by intros ?%not_elem_of_nil. }
  pose proof (channel_read_spec n r Hn Hr) as Hs. destruct (channel_read n r) as [d r1].
  destruct Hs as (Hl & Hr1 & Hd). specialize (IH r1 Hr1). destruct (channel_reads ns r1) as [ds r2].
  destruct IH as [IH1 IH2]. simpl. split; [by rewrite Hl, IH1, app_assoc|].
  rewrite elem_of_cons. intros [E|Hin]; [|by apply IH2].
  symmetry in E. apply Hd in E as Hnil. rewrite Hl, E in Hnil. simpl in Hnil. rewrite Hnil in IH1.
  symmetry in IH1. by apply app_nil in IH1 as [_ ?].
Qed.

Lemma usb_bytes_in_order_witness :
  let '(ds, _) := channel_reads [2; 24; 4] (mkReader [bs "ABCDE"; bs "F"] None) in
  ds = [bs "AB"; bs "CDE"; bs "F"] /\ (drain [bs "XYZ"] [Some 2; Some 1]).1.1 = bs "XYZ".
Proof.
  pose proof (usb_bytes_in_order [bs "XYZ"] [Some 2; Some 1] [2; 24; 4] (mkReader [bs "ABCDE"; bs "F"] None)
    ltac:(repeat constructor) ltac:(split; [by repeat constructor|done])) as [_ _].
  by vm_compute.
Defined.
