(* ===== verification/Watcher.v ===== *)
(** * Device watcher (adb-device/src/watcher.rs, device.rs)

    The adb server's device list, the comparison of two successive lists and
    the events sent to the subscriber; libusb's enumeration and the adb server
    process enter by their outcomes. *)

From stdpp Require Import base list gmap strings.
From S2P Require Import Prelude RustStd Text.

Inductive DeviceState : Type :=
| Online | Offline | Unauthorized | Recovery | Sideload | Bootloader | Unknown.
#[global] Instance DeviceState_eq_dec : EqDecision DeviceState.
Proof. solve_decision. Defined.

Record DeviceInfo : Type := mkInfo { id : bytes; state : DeviceState }.

Inductive WatchEvent : Type :=
| Added (d : bytes)
| Removed (d : bytes)
| Changed (d : bytes).

(** ** The adb server's list *)

Inductive io_error : Type := ConnectionRefused | OtherError (msg : bytes).

Definition REQUEST : bytes := bs "000e" ++ bs "host:devices-l".

Definition state_of (w : bytes) : DeviceState :=
  if bool_decide (w = bs "device") then Online
  else if bool_decide (w = bs "offline") then Offline
  else if bool_decide (w = bs "unauthorized") then Unauthorized
  else if bool_decide (w = bs "recovery") then Recovery
  else if bool_decide (w = bs "sideload") then Sideload
  else if bool_decide (w = bs "bootloader") then Bootloader
  else Unknown.

Definition parse_line (line : bytes) : option DeviceInfo :=
  let parts := split_whitespace line in
  let serial := default [] (parts !! 0%nat) in
  let st := state_of (default [] (parts !! 1%nat)) in
  match serial with [] => None | _ => Some (mkInfo serial st) end.

Definition parse_devices (body : bytes) : list DeviceInfo :=
  omap parse_line (lines (from_utf8_lossy body)).

(** [query_adb_server] on the bytes the server sends before it closes. *)
Definition query_adb_server (reply : bytes) : result io_error (list DeviceInfo) :=
  let eof := Err (OtherError (bs "early eof")) in
  if zlen reply <? 8 then eof
  else
    let status := slice reply 0 4 in
    let len_str := slice reply 4 4 in
    if negb (utf8_valid status) then Err (OtherError (bs "bad status"))
    else if negb (bool_decide (status = bs "OKAY")) then Err (OtherError (bs "adb server: " ++ status))
    else if negb (utf8_valid len_str) then Err (OtherError (bs "bad length"))
    else match parse_hex (2 ^ 64 - 1) len_str with
         | None => Err (OtherError (bs "bad length '" ++ len_str ++ bs "'"))
         | Some n =>
             if zlen reply - 8 <? n then eof else Ok (parse_devices (slice reply 8 n))
         end.

(** [ensure_adb_server]: the command line, and what its run leads to. *)
Definition start_args (port : Z) : list bytes :=
  bs "start-server" :: if port =? 5037 then [] else [bs "-P"; fmt_dec port].

Definition ensure_adb_server (host : bytes) (port : Z) (runs : list bytes -> result io_error bool)
    : result io_error unit :=
  if negb (bool_decide (host = bs "127.0.0.1")) && negb (bool_decide (host = bs "localhost"))
     && negb (bool_decide (host = bs "::1"))
  then Err (OtherError (bs "adb server at " ++ host ++ bs ":" ++ fmt_dec port ++ bs " unreachable"))
  else
    success ← runs (start_args port);
    if (success : bool) then Ok tt else Err (OtherError (bs "adb start-server failed")).

(** [fetch]: one query, or the server is started and asked again. *)
Definition fetch (host : bytes) (port : Z) (query1 : result io_error (list DeviceInfo))
    (runs : list bytes -> result io_error bool) (query2 : result io_error (list DeviceInfo))
    : result io_error (list DeviceInfo) :=
  match query1 with
  | Ok devices => Ok devices
  | Err ConnectionRefused => ensure_adb_server host port runs ;; query2
  | Err e => Err e
  end.

(** ** Events *)

Definition ids (l : list DeviceInfo) : list bytes := id <$> l.

Definition removed (prev current : list DeviceInfo) : list WatchEvent :=
  omap (fun p => if bool_decide (id p ∈ ids current) then None else Some (Removed (id p))) prev.

Definition appeared (prev : list DeviceInfo) (d : DeviceInfo) : option WatchEvent :=
  if negb (bool_decide (id d ∈ ids prev)) then Some (Added (id d))
  else match List.find (fun p => bool_decide (id p = id d)) prev with
       | Some p => if bool_decide (state p = state d) then None else Some (Changed (id d))
       | None => None
       end.

(** [NetstatWatcher::poll]: the events and the list kept for the next poll. *)
Definition poll (fetched : result io_error (list DeviceInfo)) (last : list DeviceInfo)
    : list WatchEvent * list DeviceInfo :=
  match fetched with
  | Err _ => ([], last)
  | Ok current => (omap (appeared last) current ++ removed last current, current)
  end.

(** ** USB *)

Definition VENDOR_GOOGLE : Z := 0x18d1.
Definition VENDOR_SAMSUNG : Z := 0x04e8.
Definition ADB_CLASS : Z := 0xff.
Definition ADB_SUBCLASS : Z := 0x42.
Definition ADB_PROTOCOL : Z := 0x01.

(** A USB device: its descriptor (vendor) if readable, and for each
    configuration its interface descriptors if readable. *)
Record UsbDevice : Type := mkUsb {
  bus_number : Z;
  address : Z;
  vendor_id : option Z;
  configs : list (option (list (Z * Z * Z)));
}.

Definition is_adb_device (d : UsbDevice) : bool :=
  match vendor_id d with
  | None => false
  | Some v =>
      if negb (v =? VENDOR_GOOGLE) && negb (v =? VENDOR_SAMSUNG) then false
      else existsb (fun cfg => match cfg with
             | None => false
             | Some ifaces =>
                 existsb (fun '(c, s, p) => (c =? ADB_CLASS) && (s =? ADB_SUBCLASS) && (p =? ADB_PROTOCOL)) ifaces
             end) (configs d)
  end.

(** [{:03}] *)
Definition fmt_03 (z : Z) : bytes :=
  let d := fmt_dec z in replicate (3 - length d) 48 ++ d.

Definition usb_info (d : UsbDevice) : DeviceInfo :=
  mkInfo (bs "usb:" ++ fmt_03 (bus_number d) ++ bs ":" ++ fmt_03 (address d)) Online.

(** [UsbWatcher::poll]; [None]: no context or the enumeration failed. *)
Definition usb_poll (devices : option (list UsbDevice)) (last : list DeviceInfo)
    : list WatchEvent * list DeviceInfo :=
  match devices with
  | None => ([], last)
  | Some devices =>
      let current := usb_info <$> List.filter is_adb_device devices in
      (omap (fun d => if bool_decide (id d ∈ ids last) then None else Some (Added (id d))) current
       ++ removed last current, current)
  end.

(** ** The subscriber *)

(** The devices a subscriber knows after an event. *)
Definition observe (view : gset bytes) (ev : WatchEvent) : gset bytes :=
  match ev with
  | Added d => view ∪ {[d]}
  | Removed d => view ∖ {[d]}
  | Changed _ => view
  end.

Definition watch (polls : list (result io_error (list DeviceInfo)))
    : list WatchEvent * list DeviceInfo :=
  foldl (fun '(evs, last) f => let '(e, last) := poll f last in (evs ++ e, last)) ([], []) polls.
Definition watch_usb (polls : list (option (list UsbDevice))) : list WatchEvent * list DeviceInfo :=
  foldl (fun '(evs, last) f => let '(e, last) := usb_poll f last in (evs ++ e, last)) ([], []) polls.

Definition view_of (evs : list WatchEvent) : gset bytes := foldl observe ∅ evs.

(** What the events of one poll say of a device. *)
Definition says (evs : list WatchEvent) (added gone : bytes -> Prop) : Prop :=
  forall d, (Added d ∈ evs <-> added d) /\ (Removed d ∈ evs <-> gone d).

Lemma foldl_observe evs view d :
  d ∈ foldl observe view evs ->
  Added d ∈ evs \/ (d ∈ view /\ Removed d ∉ evs).
Proof.
  revert view. induction evs as [|ev evs IH]; intros view; simpl; [set_solver|].
  intros [H|[H1 H2]]%IH; [left; by right|]. destruct ev as [d'|d'|d']; simpl in H1.
  - destruct (decide (d = d')) as [->|Hne]; [left; by left|]. right. split; [set_solver|].
    rewrite elem_of_cons. naive_solver.
  - right. split; [set_solver|]. rewrite elem_of_cons. intros [[= ->]|?]; set_solver.
  - right. split; [done|]. rewrite elem_of_cons. naive_solver.
Qed.

Lemma foldl_observe_in evs view d :
  (Added d ∈ evs \/ d ∈ view) -> Removed d ∉ evs -> d ∈ foldl observe view evs.
Proof.
  revert view. induction evs as [|ev evs IH]; intros view Hin Hr; simpl.
  { destruct Hin as [Hin|?]; [by apply not_elem_of_nil in Hin|done]. }
  apply not_elem_of_cons in Hr as [Hne Hr]. apply IH; [|done].
  rewrite elem_of_cons in Hin. destruct Hin as [[<-|?]|Hv]; [right; simpl; set_solver|by left|].
  right. destruct ev as [d'|d'|d']; simpl; [set_solver| |done].
  apply elem_of_difference. split; [done|]. intros ->%elem_of_singleton. done.
Qed.

Lemma elem_of_ids l d : d ∈ ids l <-> exists p, d = id p /\ p ∈ l.
Proof. apply list_elem_of_fmap. Qed.

Lemma elem_of_removed prev cur d :
  Removed d ∈ removed prev cur <-> d ∈ ids prev /\ d ∉ ids cur.
Proof.
  unfold removed. rewrite list_elem_of_omap, (elem_of_ids prev). split.
  - intros (p & Hp & E). case_match; simplify_eq. bool_to_prop. eauto.
  - intros [(p & -> & Hp) Hn]. exists p. split; [done|]. by rewrite bool_decide_eq_false_2.
Qed.

Lemma added_not_removed prev cur d :
  (Added d ∉ removed prev cur) /\ (Changed d ∉ removed prev cur).
Proof.
  unfold removed. split; intros (p & _ & E)%list_elem_of_omap; by case_match.
Qed.

Lemma elem_of_appeared prev cur d :
  (Added d ∈ omap (appeared prev) cur <-> d ∈ ids cur /\ d ∉ ids prev)
  /\ Removed d ∉ omap (appeared prev) cur.
Proof.
  rewrite !list_elem_of_omap, (elem_of_ids cur). unfold appeared. split; [split|].
  - intros (p & Hp & E). case_match; bool_to_prop; simplify_eq; [eauto|]. by repeat case_match.
  - intros [(p & -> & Hp) Hn]. exists p. split; [done|]. by rewrite bool_decide_eq_false_2.
  - intros (p & Hp & E). by repeat case_match.
Qed.

(** The subscriber's set follows the list. *)
Lemma view_follows evs view prev cur :
  (forall d, d ∈ view <-> d ∈ ids prev) ->
  (forall d, Added d ∈ evs <-> d ∈ ids cur /\ d ∉ ids prev) ->
  (forall d, Removed d ∈ evs <-> d ∈ ids prev /\ d ∉ ids cur) ->
  forall d, d ∈ foldl observe view evs <-> d ∈ ids cur.
Proof.
  intros Hv Ha Hr d. split.
  - intros [H|[H1 H2]]%foldl_observe; [by apply Ha|]. rewrite Hv in H1. rewrite Hr in H2.
    destruct (decide (d ∈ ids cur)); [done|]. exfalso. auto.
  - intros Hd. apply foldl_observe_in; [|rewrite Hr; naive_solver].
    destruct (decide (d ∈ ids prev)); [right; by apply Hv|left; by apply Ha].
Qed.

Lemma view_empty d : d ∈ view_of [] <-> d ∈ ids [].
Proof. split; [by intros ?%not_elem_of_empty|by intros ?%not_elem_of_nil]. Qed.

Lemma poll_says f last :
  let '(evs, cur) := poll f last in
  (forall d, Added d ∈ evs <-> d ∈ ids cur /\ d ∉ ids last)
  /\ (forall d, Removed d ∈ evs <-> d ∈ ids last /\ d ∉ ids cur).
Proof.
  unfold poll. destruct f as [cur|e].
  - split; intros d; rewrite elem_of_app; destruct (elem_of_appeared last cur d) as [Ha Hr];
      destruct (added_not_removed last cur d); rewrite ?Ha, ?elem_of_removed; naive_solver.
  - split; intros d; (split; [by intros ?%not_elem_of_nil|naive_solver]).
Qed.

Lemma usb_poll_says f last :
  let '(evs, cur) := usb_poll f last in
  (forall d, Added d ∈ evs <-> d ∈ ids cur /\ d ∉ ids last)
  /\ (forall d, Removed d ∈ evs <-> d ∈ ids last /\ d ∉ ids cur).
Proof.
  unfold usb_poll. destruct f as [ds|].
  2:{ split; intros d; (split; [by intros ?%not_elem_of_nil|naive_solver]). }
  set (cur := usb_info <$> _). split; intros d; rewrite elem_of_app, list_elem_of_omap.
  - destruct (added_not_removed last cur d) as [Hn _]. rewrite (elem_of_ids cur). split.
    + intros [(p & Hp & E)|?]; [|done]. case_match; bool_to_prop; simplify_eq. eauto.
    + intros [(p & -> & Hp) Hd]. left. exists p. split; [done|]. by rewrite bool_decide_eq_false_2.
  - rewrite elem_of_removed. split; [|by right]. intros [(p & Hp & E)|?]; [by case_match|done].
Qed.

(** The last poll that succeeded, and what it returned. *)
Definition last_listed (polls : list (result io_error (list DeviceInfo))) : list DeviceInfo :=
  match List.find is_ok (rev polls) with Some (Ok devices) => devices | _ => [] end.
Definition last_attached (polls : list (option (list UsbDevice))) : list UsbDevice :=
  match List.find (fun f => match f with Some _ => true | None => false end) (rev polls) with
  | Some (Some devices) => devices
  | _ => []
  end.

Lemma last_listed_snoc polls f :
  last_listed (polls ++ [f]) = match f with Ok devices => devices | Err _ => last_listed polls end.
Proof. unfold last_listed. rewrite rev_app_distr. by destruct f. Qed.

Lemma last_attached_snoc polls f :
  last_attached (polls ++ [f]) = match f with Some devices => devices | None => last_attached polls end.
Proof. unfold last_attached. rewrite rev_app_distr. by destruct f. Qed.

Lemma watch_snoc polls f :
  watch (polls ++ [f]) = let '(evs, last) := watch polls in let '(e, last) := poll f last in (evs ++ e, last).
Proof. unfold watch. rewrite foldl_app. simpl. by destruct (foldl _ _ polls). Qed.

Lemma watch_usb_snoc polls f :
  watch_usb (polls ++ [f])
  = let '(evs, last) := watch_usb polls in let '(e, last) := usb_poll f last in (evs ++ e, last).
Proof. unfold watch_usb. rewrite foldl_app. simpl. by destruct (foldl _ _ polls). Qed.

(** What the watcher keeps is what the last successful poll returned. *)
Lemma watch_keeps polls : (watch polls).2 = last_listed polls.
Proof.
  induction polls as [|f polls IH] using rev_ind; [done|].
  rewrite watch_snoc, last_listed_snoc. destruct (watch polls) as [evs last], f; done.
Qed.

Lemma watch_usb_keeps usb : (watch_usb usb).2 = usb_info <$> List.filter is_adb_device (last_attached usb).
Proof.
  induction usb as [|f usb IH] using rev_ind; [done|].
  rewrite watch_usb_snoc, last_attached_snoc. destruct (watch_usb usb) as [evs last], f; done.
Qed.

Lemma watch_view polls d : d ∈ view_of (watch polls).1 <-> d ∈ ids (watch polls).2.
Proof.
  revert d. induction polls as [|f polls IH] using rev_ind; [apply view_empty|]. rewrite watch_snoc.
  destruct (watch polls) as [evs last]. pose proof (poll_says f last) as Hs.
  destruct (poll f last) as [e cur]. destruct Hs as [Ha Hr]. simpl in *. unfold view_of.
  rewrite foldl_app. by apply (view_follows e _ last).
Qed.

Lemma watch_usb_view usb d : d ∈ view_of (watch_usb usb).1 <-> d ∈ ids (watch_usb usb).2.
Proof.
  revert d. induction usb as [|f usb IH] using rev_ind; [apply view_empty|]. rewrite watch_usb_snoc.
  destruct (watch_usb usb) as [evs last]. pose proof (usb_poll_says f last) as Hs.
  destruct (usb_poll f last) as [e cur]. destruct Hs as [Ha Hr]. simpl in *. unfold view_of.
  rewrite foldl_app. by apply (view_follows e _ last).
Qed.

(** A change is told of a device that was there and is there in another state. *)
Lemma changed_says f last d :
  Changed d ∈ (poll f last).1 ->
  exists o n cur, f = Ok cur /\ o ∈ last /\ n ∈ cur /\ id o = d /\ id n = d /\ state o <> state n.
Proof.
  destruct f as [cur|e]; simpl; [|by intros ?%not_elem_of_nil].
  rewrite elem_of_app. intros [(n & Hn & E)%list_elem_of_omap|H]; [|by apply added_not_removed in H].
  unfold appeared in E. case_match; [done|]. destruct (List.find _ last) as [o|] eqn:Ef; [|done].
  apply List.find_some in Ef as [Ho Hid]. case_match; simplify_eq. bool_to_prop.
  exists o, n, cur. split_and!; try done. by apply list_elem_of_In.
Qed.


(** ** The list, printed and parsed *)

Definition blanks (g : bytes) : Prop := Forall (fun b => b = 32 \/ b = 9) g.

(** A line of [adb devices -l]. *)
Record line : Type := mkLine { l_serial : bytes; l_gap : bytes; l_state : bytes; l_extra : bytes }.
Definition print_line (x : line) : bytes := l_serial x ++ l_gap x ++ l_state x ++ l_extra x.

(** The extra properties are separated by a blank. *)
Definition good_line (x : line) : Prop :=
  is_word (l_serial x) /\ is_word (l_state x) /\ blanks (l_gap x) /\ l_gap x <> []
  /\ ascii (l_extra x) /\ Forall (fun b => b <> 10 /\ b <> 13) (l_extra x)
  /\ match l_extra x with [] => True | b :: _ => b = 32 \/ b = 9 end.

Definition hex4 (n : Z) : bytes :=
  let d i := let v := Z.shiftr n (4 * i) `mod` 16 in if v <? 10 then 48 + v else 87 + v in
  [d 3; d 2; d 1; d 0].
Definition server_reply (ls : list line) : bytes :=
  let body := concat ((fun x => print_line x ++ [10]) <$> ls) in bs "OKAY" ++ hex4 (zlen body) ++ body.

Lemma hex_val_digit v : 0 <= v < 16 ->
  is_hex (if v <? 10 then 48 + v else 87 + v) = true
  /\ hex_val (if v <? 10 then 48 + v else 87 + v) = v.
Proof.
  intros Hv. unfold is_hex, hex_val, is_digit, in_range. case_bool; bool_to_prop.
  - replace (48 <=? 48 + v) with true by (symmetry; apply Z.leb_le; lia).
    replace (48 + v <=? 57) with true by (symmetry; apply Z.leb_le; lia). simpl. split; [done|lia].
  - replace (87 + v <=? 57) with false by (symmetry; apply Z.leb_gt; lia).
    replace (97 <=? 87 + v) with true by (symmetry; apply Z.leb_le; lia).
    replace (87 + v <=? 102) with true by (symmetry; apply Z.leb_le; lia).
    rewrite andb_false_r. simpl. rewrite orb_true_r. split; [done|lia].
Qed.

Lemma parse_hex4 n : 0 <= n < 2 ^ 16 -> parse_hex (2 ^ 64 - 1) (hex4 n) = Some n.
Proof.
  intros Hn. set (v i := Z.shiftr n (4 * i) `mod` 16).
  assert (Hv : forall i, 0 <= v i < 16) by (intros i; apply Z.mod_pos_bound; lia).
  set (d i := if v i <? 10 then 48 + v i else 87 + v i).
  assert (Hd : forall i, is_hex (d i) = true /\ hex_val (d i) = v i) by (intros i; by apply hex_val_digit).
  change (hex4 n) with [d 3; d 2; d 1; d 0].
  assert (E : fold_left (fun a b => a * 16 + hex_val b) [d 3; d 2; d 1; d 0] 0 = n).
  { cbn [fold_left]. rewrite !(fun i => proj2 (Hd i)). unfold v. rewrite !Z.shiftr_div_pow2 by lia.
    change (2 ^ (4 * 3)) with 4096. change (2 ^ (4 * 2)) with 256. change (2 ^ (4 * 1)) with 16.
    change (2 ^ (4 * 0)) with 1. Z.div_mod_to_equations. lia. }
  unfold parse_hex. rewrite unsigned_digits, E; [done|done|done| |rewrite E; lia].
  cbn [forallb]. by rewrite !(fun i => proj1 (Hd i)).
Qed.

Lemma words_gap g cs cur :
  blanks g -> g <> [] -> cur <> [] ->
  words (((fun b => [b]) <$> g) ++ cs) cur = cur :: words cs [].
Proof.
  intros Hg Hne Hcur. destruct g as [|b g]; [done|]. inv Hg.
  assert (Hb : forall x, x = 32 \/ x = 9 -> 0 <= x < 0x80 /\ blank x = true) by (intros x [-> | ->]; done).
  cbn [fmap list_fmap app]. rewrite words_blank by (by apply Hb).
  replace (match cur with [] => [] | _ => [cur] end) with [cur] by (by destruct cur). simpl. f_equal.
  clear H1. induction H2 as [|x g Hx Hg IH]; [done|]. cbn [fmap list_fmap app].
  rewrite words_blank by (by apply Hb). simpl. apply IH. done.
Qed.

Lemma parse_good_line x : good_line x -> parse_line (print_line x) = Some (mkInfo (l_serial x) (state_of (l_state x))).
Proof.
  intros ((Hs1 & Hs2 & Hs3) & (Hw1 & Hw2 & Hw3) & Hg & Hg0 & Ha & He & Hh).
  assert (Hgap : ascii (l_gap x)) by (eapply Forall_impl; [exact Hg|]; simpl; lia).
  unfold parse_line, split_whitespace, print_line.
  rewrite chars_ascii by (unfold ascii; rewrite !Forall_app; done).
  rewrite !fmap_app, words_word by done. simpl.
  rewrite words_gap by done. rewrite words_word by done.
  destruct (l_extra x) as [|b e].
  - simpl. replace (match l_state x with [] => [] | _ => [l_state x] end) with [l_state x] by (by destruct (l_state x)).
    simpl. by destruct (l_serial x).
  - inv Ha. cbn [fmap list_fmap]. rewrite (words_blank b) by (destruct Hh as [-> | ->]; done).
    simpl. destruct (l_state x); [done|]. by destruct (l_serial x).
Qed.

(** Parsing what the adb server prints gives the devices it listed: a
    reply with any lines of a serial, blanks, a state and further properties
    is read back as those serials with their states, in order. *)
Theorem devices_roundtrip (ls : list line) :
  Forall good_line ls -> zlen (concat ((fun x => print_line x ++ [10]) <$> ls)) < 2 ^ 16 ->
  query_adb_server (server_reply ls) =
  Ok ((fun x => mkInfo (l_serial x) (state_of (l_state x))) <$> ls).
Proof.
  intros Hls Hlen. unfold server_reply. set (body := concat _) in *.
  pose proof (zlen_nonneg body) as H0. unfold query_adb_server.
  assert (Hhex : zlen (hex4 (zlen body)) = 4) by done.
  assert (Hok : zlen (bs "OKAY") = 4) by done.
  assert (Hl : zlen (bs "OKAY" ++ hex4 (zlen body) ++ body) = 8 + zlen body) by (rewrite !zlen_app; lia).
  rewrite Hl. rewrite (proj2 (Z.ltb_ge _ _)) by lia.
  rewrite (slice_here (bs "OKAY")), (slice_skip (bs "OKAY")), (slice_here (hex4 (zlen body))) by done.
  rewrite !(utf8_valid_ascii (bs "OKAY")) by (vm_compute; repeat constructor; done). simpl negb. cbv iota.
  assert (Hasc : ascii (hex4 (zlen body))).
  { unfold hex4. repeat constructor; cbv zeta; (case_bool; bool_to_prop);
      match goal with |- context [Z.shiftr ?a ?b `mod` 16] => pose proof (Z.mod_pos_bound (Z.shiftr a b) 16) end; lia. }
  rewrite utf8_valid_ascii by done. simpl negb. cbv iota. rewrite parse_hex4 by lia.
  rewrite (proj2 (Z.ltb_ge _ _)) by lia.
  rewrite slice_skip by lia. rewrite slice_skip by lia. rewrite slice_all by lia.
  f_equal. unfold parse_devices.
  assert (Hbody : ascii body /\ lines body = print_line <$> ls).
  { unfold body. replace ((fun x => print_line x ++ [10]) <$> ls) with ((fun l => l ++ [10]) <$> (print_line <$> ls))
      by (by rewrite <- list_fmap_compose). split.
    - apply Forall_concat, Forall_fmap, Forall_fmap. eapply Forall_impl; [exact Hls|].
      intros x ((A1 & _) & (A2 & _) & A3 & _ & A4 & _). simpl. unfold print_line, ascii. rewrite !Forall_app.
      split_and!; try done; [|by constructor]. eapply Forall_impl; [exact A3|]. simpl. lia.
    - apply lines_printed, Forall_fmap. eapply Forall_impl; [exact Hls|].
      intros x (B1 & B2 & B3 & _ & _ & B4 & _). simpl. unfold print_line. rewrite !Forall_app.
      split_and!; try done; [by apply word_no_newline| |by apply word_no_newline].
      eapply Forall_impl; [exact B3|]. simpl. lia. }
  destruct Hbody as [Hasc' Hlines].
  rewrite from_utf8_lossy_valid, Hlines by (by apply utf8_valid_ascii).
  clear -Hls. induction Hls as [|x ls Hx Hls IH]; [done|]. cbn [fmap list_fmap omap list_omap].
  by rewrite parse_good_line, IH.
Qed.

Lemma devices_roundtrip_witness :
  query_adb_server (server_reply
    [mkLine (bs "R58M") (bs "      ") (bs "device") (bs " usb:1-1 product:a52");
     mkLine (bs "10.0.0.2:5555") (bs " ") (bs "offline") []]) =
  Ok [mkInfo (bs "R58M") Online; mkInfo (bs "10.0.0.2:5555") Offline].
Proof.
  rewrite devices_roundtrip; [by vm_compute| |by vm_compute].
  assert (Hall : forall l : bytes, forallb (fun b => (0 <=? b) && (b <? 0x80) && negb (blank b)) l = true ->
    ascii l /\ Forall (fun b => blank b = false) l).
  { intros l Hl. rewrite forallb_forall in Hl. split; apply Forall_forall; intros b Hb;
      apply list_elem_of_In, Hl in Hb; bool_to_prop; [lia|done]. }
  repeat constructor; try done; try (by apply Hall); try (by vm_compute); try lia.
Defined.
