(* ===== verification/Auth.v ===== *)
(** * The host's RSA key (adb-device/src/auth.rs)

    The text of the public key sent to the device (base64 of an SSH key blob)
    and where the private key comes from: the program's own file, an imported
    [~/.android/adbkey], or a new key. The RSA, PEM and OpenSSH codecs are the
    class [Rsa], the files the class [Disk]. *)

From stdpp Require Import base list gmap strings.
From S2P Require Import Prelude RustStd Text Packet.

(** ** Base64 *)

Definition TABLE : bytes := bs "ABCDEFGHIJKLMNOPQRSTUVWXYZabcdefghijklmnopqrstuvwxyz0123456789+/".

(** [TABLE[(n >> k) as usize & 63]] *)
Definition symbol (n k : Z) : Z := default 0 (zget TABLE (Z.land (Z.shiftr n k) 63)).

(** The loop's body. *)
Definition base64_chunk (chunk : bytes) : bytes :=
  let b0 := default 0 (zget chunk 0) in
  let b1 := default 0 (zget chunk 1) in
  let b2 := default 0 (zget chunk 2) in
  let n := Z.lor (Z.lor (Z.shiftl b0 16) (Z.shiftl b1 8)) b2 in
  [symbol n 18; symbol n 12;
   if zlen chunk >? 1 then symbol n 6 else 61;
   if zlen chunk >? 2 then symbol n 0 else 61].

(** [data.chunks(3)] *)
Fixpoint chunks3 (data : bytes) : list bytes :=
  match data with
  | [] => []
  | a :: b :: c :: rest => [a; b; c] :: chunks3 rest
  | _ => [data]
  end.

Definition base64_encode (data : bytes) : bytes := concat (base64_chunk <$> chunks3 data).

(** ** The SSH key blob *)

Definition ssh_string (s : bytes) : bytes := be_bytes 4 (as_u32 (zlen s)) ++ s.

(** [while v.len() > 1 && v[0] == 0 { v = &v[1..] }] *)
Fixpoint strip_zeros (v : bytes) : bytes :=
  match v with
  | b :: ((_ :: _) as v') => if b =? 0 then strip_zeros v' else v
  | _ => v
  end.

Definition ssh_mpint (b : bytes) : bytes :=
  let v := strip_zeros b in
  match v with
  | x :: _ =>
      if negb (Z.land x 0x80 =? 0) then be_bytes 4 (as_u32 (zlen v + 1)) ++ [0] ++ v
      else ssh_string v
  | [] => ssh_string v
  end.

Definition ssh_blob (e n : bytes) : bytes := ssh_string (bs "ssh-rsa") ++ ssh_mpint e ++ ssh_mpint n.

(** The host's environment: variables, and what reading the two host name
    files gives. *)
Record environ : Type := mkEnv {
  env_user : option bytes;
  env_logname : option bytes;
  env_hostname : option bytes;
  proc_hostname : option bytes;
  etc_hostname : option bytes;
  env_xdg : option bytes;
  data_dir : option bytes;
  home_dir : option bytes;
}.

Definition or_else {A} (o : option A) (k : option A) : option A :=
  match o with Some a => Some a | None => k end.

Definition current_hostname (v : environ) : bytes :=
  default (bs "localhost")
    (or_else (env_hostname v)
       (h ← or_else (proc_hostname v) (etc_hostname v);
        let h := trim h in if bool_decide (h = []) then None else Some h)).

Definition user_name (v : environ) : bytes :=
  default (bs "unknown") (or_else (env_user v) (env_logname v)).

(** The payload of AUTH RSAPUBLICKEY. *)
Definition public_text (v : environ) (e n : bytes) : bytes :=
  base64_encode (ssh_blob e n) ++ bs " " ++ user_name v ++ bs "@" ++ current_hostname v ++ [0].

(** ** Reference readers: RFC 4648 and RFC 4251 *)

Fixpoint index_of (b : Z) (l : bytes) : option Z :=
  match l with
  | [] => None
  | x :: l => if x =? b then Some 0 else Z.succ <$> index_of b l
  end.
Definition sextet (b : Z) : option Z := index_of b TABLE.

Fixpoint base64_decode (l : bytes) : option bytes :=
  match l with
  | [] => Some []
  | a :: b :: c :: d :: rest =>
      i ← sextet a; j ← sextet b;
      if (d =? 61) && bool_decide (rest = []) then
        if c =? 61 then Some [(i * 64 + j) / 16]
        else k ← sextet c; let v := (i * 64 + j) * 64 + k in Some [v / 1024; v / 4 mod 256]
      else
        k ← sextet c; m ← sextet d;
        let v := ((i * 64 + j) * 64 + k) * 64 + m in
        l ← base64_decode rest;
        Some ([v / 65536; v / 256 mod 256; v mod 256] ++ l)
  | _ => None
  end.

Definition read_string (l : bytes) : option (bytes * bytes) :=
  let n := be_val (ztake 4 l) in
  if (4 <=? zlen l) && (n <=? zlen l - 4) then Some (slice l 4 n, zdrop (4 + n) l) else None.

(** A positive number: no sign bit and no superfluous zero byte. *)
Definition read_mpint (l : bytes) : option (Z * bytes) :=
  '(s, l) ← read_string l;
  match s with
  | x :: y :: _ => if (x <? 128) && ((0 <? x) || (128 <=? y)) then Some (be_val s, l) else None
  | [x] => if (0 <? x) && (x <? 128) then Some (be_val s, l) else None
  | [] => None
  end.

Definition read_public (l : bytes) : option (Z * Z) :=
  '(alg, l) ← read_string l;
  if bool_decide (alg = bs "ssh-rsa") then
    '(e, l) ← read_mpint l;
    '(n, l) ← read_mpint l;
    if bool_decide (l = []) then Some (e, n) else None
  else None.

Example base64_1 : base64_encode (bs "any carnal pleas") = bs "YW55IGNhcm5hbCBwbGVhcw=="
  /\ base64_decode (bs "YW55IGNhcm5hbCBwbGVhcw==") = Some (bs "any carnal pleas")
  /\ ssh_mpint [0; 0; 0x80] = [0; 0; 0; 2; 0; 0x80].
Proof. by vm_compute. Qed.

(** ** The public key text is read back *)

Lemma zget_table i : 0 <= i < 64 -> exists b, zget TABLE i = Some b /\ sextet b = Some i /\ b <> 61 /\ b <> 32.
Proof.
  intros Hi.
  assert (H : forallb (fun j => match zget TABLE j with
      | Some b => bool_decide (sextet b = Some j) && negb (b =? 61) && negb (b =? 32)
      | None => false end) (Z.of_nat <$> seq 0 64) = true) by by vm_compute.
  rewrite forallb_forall in H. specialize (H i).
  assert (Hin : In i (Z.of_nat <$> seq 0 64))
    by (apply list_elem_of_In, list_elem_of_fmap; exists (Z.to_nat i); rewrite elem_of_seq; lia).
  specialize (H Hin). destruct (zget TABLE i) as [b|]; [|done]. bool_to_prop. eauto.
Qed.

Lemma symbol_spec n k : 0 <= k ->
  sextet (symbol n k) = Some (n / 2 ^ k mod 64) /\ symbol n k <> 61 /\ symbol n k <> 32.
Proof.
  intros Hk. unfold symbol. change 63 with (Z.ones 6). rewrite Z.land_ones, Z.shiftr_div_pow2 by lia.
  change (2 ^ 6) with 64.
  destruct (zget_table (n / 2 ^ k mod 64)) as (b & -> & H); [apply Z.mod_pos_bound; lia|exact H].
Qed.

Lemma pack3 a b c : u8_ok b -> u8_ok c ->
  Z.lor (Z.lor (Z.shiftl a 16) (Z.shiftl b 8)) c = (a * 256 + b) * 256 + c.
Proof.
  unfold u8_ok. intros Hb Hc.
  replace (Z.lor (Z.shiftl a 16) (Z.shiftl b 8)) with (Z.shiftl (Z.lor (Z.shiftl a 8) b) 8)
    by by rewrite Z.shiftl_lor, Z.shiftl_shiftl by lia.
  by rewrite !lor_shiftl by lia.
Qed.

Lemma zget_u8 l i : Forall u8_ok l -> u8_ok (default 0 (zget l i)).
Proof.
  intros Hl. unfold zget. destruct (i <? 0); [done|].
  destruct (l !! Z.to_nat i) eqn:E; [by eapply Forall_lookup_1 in E|done].
Qed.

(** A group of four symbols is decoded to the chunk it encodes. *)
Lemma decode_chunk chunk rest :
  Forall u8_ok chunk -> 0 < zlen chunk -> zlen chunk = 3 \/ zlen chunk < 3 /\ rest = [] ->
  base64_decode (base64_chunk chunk ++ rest) = (chunk ++.) <$> base64_decode rest.
Proof.
  intros Hu Hl Hr. unfold base64_chunk. cbn [app base64_decode].
  rewrite pack3 by by apply zget_u8.
  match goal with |- context [symbol ?x 18] => set (n := x) end.
  destruct (symbol_spec n 18) as (E0 & N0 & _); [done|].
  destruct (symbol_spec n 12) as (E1 & N1 & _); [done|].
  destruct (symbol_spec n 6) as (E2 & N2 & _); [done|].
  destruct (symbol_spec n 0) as (E3 & N3 & _); [done|].
  rewrite E0, E1. cbn [mbind option_bind].
  destruct chunk as [|b0 [|b1 [|b2 [|? ?]]]]; [done| | | |exfalso; len_lia]; inv Hu; decompose_Forall_hyps; unfold u8_ok in *;
    simpl in n; change (2 ^ 18) with 262144; change (2 ^ 12) with 4096; change (2 ^ 6) with 64; change (2 ^ 0) with 1.
  - destruct Hr as [?|[_ ->]]; [done|]. simpl. do 2 f_equal. subst n. Z.to_euclidean_division_equations; lia.
  - destruct Hr as [?|[_ ->]]; [done|]. simpl. apply Z.eqb_neq in N2. rewrite N2, E2. simpl.
    subst n. do 2 f_equal; [|f_equal]; Z.to_euclidean_division_equations; lia.
  - apply Z.eqb_neq in N3. simpl. rewrite N3, E2, E3. simpl. destruct (base64_decode rest) as [l|]; [simpl|done].
    subst n. do 2 f_equal; [|f_equal; [|f_equal]]; Z.to_euclidean_division_equations; lia.
Qed.

Lemma base64_roundtrip data : Forall u8_ok data -> base64_decode (base64_encode data) = Some data.
Proof.
  unfold base64_encode. remember (length data) as n eqn:Hn. revert data Hn.
  induction (lt_wf n) as [n _ IH]. intros data -> Hu.
  destruct data as [|a [|b [|c rest]]]; [done| | |].
  - cbn [chunks3 fmap list_fmap concat]. by rewrite decode_chunk by (first [done|by right]).
  - cbn [chunks3 fmap list_fmap concat]. by rewrite decode_chunk by (first [done|by right]).
  - cbn [chunks3 fmap list_fmap concat].
    rewrite !Forall_cons in Hu. destruct Hu as (? & ? & ? & Hu).
    rewrite decode_chunk; [|by rewrite !Forall_cons, Forall_nil|done|by left].
    change (concat (list_fmap bytes bytes base64_chunk (chunks3 rest))) with (concat (base64_chunk <$> chunks3 rest)).
    rewrite (IH (length rest)) by (simpl; lia || done). done.
Qed.

Lemma base64_no_space data : Forall (fun b => b <> 32) (base64_encode data).
Proof.
  unfold base64_encode. apply Forall_concat, Forall_fmap, Forall_true. intros chunk.
  unfold compose, base64_chunk.
  repeat constructor; try (case_match; [|done]); by apply symbol_spec.
Qed.

Lemma read_ssh_string s l : zlen s < 2 ^ 32 -> read_string (ssh_string s ++ l) = Some (s, l).
Proof.
  intros Hs. unfold read_string, ssh_string. rewrite <- app_assoc.
  rewrite (ztake_app (be_bytes 4 _)) by len_lia. rewrite be_val_be_bytes.
  change (2 ^ (8 * Z.of_nat 4)) with (2 ^ 32). pose proof (zlen_nonneg s). rewrite as_u32_id, Z.mod_small by done.
  replace (_ && _) with true by (symmetry; apply andb_true_iff; rewrite !Z.leb_le; len_lia).
  rewrite slice_skip by len_lia. rewrite zlen_be_bytes. rewrite (slice_here s l) by done.
  rewrite zdrop_app by len_lia. rewrite zdrop_app_exact by len_lia. done.
Qed.

Lemma le_val_app l k : le_val (l ++ k) = le_val l + 2 ^ (8 * zlen l) * le_val k.
Proof.
  induction l as [|b l IH]; [change (le_val k = 0 + 1 * le_val k); lia|].
  change (b + 256 * le_val (l ++ k) = b + 256 * le_val l + 2 ^ (8 * zlen (b :: l)) * le_val k).
  rewrite IH, zlen_cons.
  replace (2 ^ (8 * (1 + zlen l))) with (256 * 2 ^ (8 * zlen l)); [lia|].
  rewrite <- (Z.pow_add_r 2 8) by (unfold zlen; lia). f_equal. lia.
Qed.
Lemma be_val_cons x l : be_val (x :: l) = x * 2 ^ (8 * zlen l) + be_val l.
Proof. unfold be_val. rewrite reverse_cons, le_val_app, zlen_reverse. change (le_val [x]) with (x + 256 * 0). lia. Qed.

Lemma strip_zeros_spec v :
  be_val (strip_zeros v) = be_val v /\ zlen (strip_zeros v) <= zlen v
  /\ (0 < be_val v -> exists x l, strip_zeros v = x :: l /\ x <> 0).
Proof.
  induction v as [|b v IH]; [done|]. destruct v as [|c v].
  - split_and!; [done|done|]. intros H. exists b, []. split; [done|]. by intros ->.
  - cbn [strip_zeros] in *. destruct (b =? 0) eqn:E; bool_to_prop.
    + subst b. rewrite (be_val_cons 0). destruct IH as (E & L & P). split_and!; [lia|len_lia|exact P].
    + split_and!; [done|done|]. eauto.
Qed.

Lemma strip_zeros_u8 v : Forall u8_ok v -> Forall u8_ok (strip_zeros v).
Proof.
  induction 1 as [|b v Hb Hv IH]; [constructor|]. destruct v as [|c v]; [by constructor|].
  cbn [strip_zeros] in *. case_bool; [done|by constructor].
Qed.

Lemma land_128 x : u8_ok x -> (Z.land x 0x80 =? 0) = (x <? 128).
Proof.
  intros Hx. change 0x80 with (2 ^ 7). rewrite land_bit, Z.testbit_odd, Z.shiftr_div_pow2 by lia.
  unfold u8_ok in Hx. change (2 ^ 7) with 128. destruct (Z.ltb_spec x 128).
  - by rewrite Z.div_small by lia.
  - replace (x / 128) with 1; [done|]. Z.to_euclidean_division_equations; lia.
Qed.

Lemma read_ssh_mpint b l : Forall u8_ok b -> 0 < be_val b -> zlen b < 2 ^ 32 - 1 ->
  read_mpint (ssh_mpint b ++ l) = Some (be_val b, l).
Proof.
  intros Hu Hv Hl. destruct (strip_zeros_spec b) as (Ev & Len & Hp).
  destruct (Hp Hv) as (x & v & E & Hx). unfold ssh_mpint.
  pose proof (strip_zeros_u8 b Hu) as Hu'. rewrite E in *. inv Hu'.
  rewrite land_128 by done. destruct (Z.ltb_spec x 128); simpl negb; cbv iota.
  - unfold read_mpint. rewrite read_ssh_string by lia. cbn [mbind option_bind].
    unfold u8_ok in *. destruct v as [|y v].
    + replace (_ && _) with true by (symmetry; apply andb_true_iff; rewrite !Z.ltb_lt; lia). by rewrite Ev.
    + replace ((x <? 128) && _) with true; [by rewrite Ev|]. symmetry.
      apply andb_true_iff. rewrite orb_true_iff, !Z.ltb_lt. lia.
  - change (be_bytes 4 (as_u32 (zlen (x :: v) + 1)) ++ [0] ++ x :: v)
      with (be_bytes 4 (as_u32 (zlen (x :: v) + 1)) ++ (0 :: x :: v)).
    replace (zlen (x :: v) + 1) with (zlen (0 :: x :: v)) by (rewrite (zlen_cons 0); lia).
    change (be_bytes 4 (as_u32 (zlen (0 :: x :: v))) ++ 0 :: x :: v)
      with (ssh_string (0 :: x :: v)). unfold read_mpint.
    rewrite read_ssh_string by (rewrite zlen_cons; lia). cbn [mbind option_bind].
    replace (_ && _) with true by (symmetry; apply andb_true_iff; rewrite orb_true_iff, !Z.ltb_lt, Z.leb_le; lia).
    by rewrite be_val_cons, Ev.
Qed.

Lemma ssh_blob_u8 e n : Forall u8_ok e -> Forall u8_ok n -> Forall u8_ok (ssh_blob e n).
Proof.
  assert (Hs : forall l, Forall u8_ok l -> Forall u8_ok (ssh_string l)).
  { intros l Hl. apply Forall_app. split; [apply Forall_reverse, le_bytes_u8|done]. }
  assert (Hm : forall l, Forall u8_ok l -> Forall u8_ok (ssh_mpint l)).
  { intros l Hl%strip_zeros_u8. unfold ssh_mpint. destruct (strip_zeros l) as [|x v]; [by apply Hs|].
    case_bool; [|by apply Hs]. rewrite !Forall_app. split_and!; [apply Forall_reverse, le_bytes_u8|by repeat constructor|done]. }
  intros He Hn. unfold ssh_blob. rewrite !Forall_app. split_and!; [|by apply Hm..].
  apply Hs. repeat constructor; done.
Qed.

(** The public key the device stores is the host's. The text sent in
    AUTH RSAPUBLICKEY is base64 without blanks, a blank, user\@host and a final
    NUL; its base64 part decodes, by RFC 4648, to a blob that RFC 4251
    readers accept as an "ssh-rsa" key with exactly the exponent and the
    modulus, as minimal positive numbers and with nothing after them. *)
Theorem public_key_readable (v : environ) (e n : bytes) :
  Forall u8_ok e -> Forall u8_ok n -> 0 < be_val e -> 0 < be_val n ->
  zlen e < 2 ^ 32 - 1 -> zlen n < 2 ^ 32 - 1 ->
  exists b64 blob, public_text v e n = b64 ++ bs " " ++ user_name v ++ bs "@" ++ current_hostname v ++ [0]
  /\ Forall (fun b => b <> 32) b64
  /\ base64_decode b64 = Some blob
  /\ read_public blob = Some (be_val e, be_val n).
Proof.
  intros He Hn Pe Pn Le Ln. exists (base64_encode (ssh_blob e n)), (ssh_blob e n).
  split_and!; [done|apply base64_no_space| |].
  - apply base64_roundtrip, ssh_blob_u8; done.
  - unfold read_public, ssh_blob. rewrite read_ssh_string by done. cbn [mbind option_bind].
    rewrite bool_decide_eq_true_2 by done. rewrite read_ssh_mpint by done. cbn [mbind option_bind].
    rewrite <- (app_nil_r (ssh_mpint n)). by rewrite read_ssh_mpint.
Qed.

Definition my_host : environ :=
  mkEnv (Some (bs "ann")) None None None (Some (bs "box" ++ [10])) None None (Some (bs "/home/ann")).

Lemma public_key_readable_witness :
  exists b64 blob, public_text my_host [1; 0; 1] [0; 0xC0; 7] = b64 ++ bs " ann@box" ++ [0]
  /\ base64_decode b64 = Some blob /\ read_public blob = Some (65537, 0xC007).
Proof.
  destruct (public_key_readable my_host [1; 0; 1] [0; 0xC0; 7]) as (b64 & blob & E & _ & D & R);
    [repeat constructor; done|repeat constructor; done|done|done|done|done|].
  exists b64, blob. exact (conj E (conj D R)).
Defined.
