(* ===== verification/KeyStore.v ===== *)
(** * Where the host's key comes from (adb-device/src/auth.rs)

    [load_or_create_key] over a disk: the program's own key file, an import of
    [~/.android/adbkey] in three formats, or a new key. The RSA, PEM and
    OpenSSH codecs are the class [Rsa], the files the class [Disk]; an error of
    theirs is its displayed text. *)

From stdpp Require Import base list gmap strings.
From S2P Require Import Prelude RustStd Packet Auth.

Class Rsa := {
  RsaPrivateKey : Type;
  SshPrivateKey : Type;
  RsaKeypair : Type;
  from_pkcs8_pem : bytes -> result bytes RsaPrivateKey;
  from_pkcs1_pem : bytes -> result bytes RsaPrivateKey;
  from_pkcs8_der : bytes -> result bytes RsaPrivateKey;
  to_pkcs8_pem : RsaPrivateKey -> result bytes bytes;
  to_pkcs8_der : RsaPrivateKey -> result bytes bytes;
  der_to_pem : bytes -> result bytes bytes;
  from_openssh : bytes -> result bytes SshPrivateKey;
  key_data : SshPrivateKey -> option RsaKeypair;
  rsa_try_into : RsaKeypair -> result bytes RsaPrivateKey;
  key_n : RsaPrivateKey -> bytes;
  key_e : RsaPrivateKey -> bytes;
}.

Class Disk (D : Type) := {
  file_exists : bytes -> D -> bool;
  read_file : bytes -> D -> result bytes bytes;
  create_dir_all : bytes -> D -> result bytes unit * D;
  (** Open with the mode, truncated or created, and write everything. *)
  create_write : bytes -> Z -> bytes -> D -> result bytes unit * D;
}.

Record AdbKey : Type := mkKey { pkcs8_der : bytes; ssh_pub : bytes; path : bytes }.

(** Octal 600. *)
Definition MODE_0600 : Z := 6 * 64.

Section keys.
Context {R : Rsa} {D : Type} {DD : Disk D} (v : environ).

Definition K (A : Type) : Type := D -> adb_result A * D.
#[local] Instance K_ret : MRet K := fun A a d => (Ok a, d).
#[local] Instance K_bind : MBind K := fun A B k m d =>
  match m d with (Ok a, d) => k a d | (Err e, d) => (Err e, d) end.
Definition pure {A} (r : adb_result A) : K A := fun d => (r, d).
Definition io {A} (f : D -> result bytes A * D) : K A := fun d =>
  let '(r, d) := f d in (map_err Io r, d).
(** [map_err(|e| AdbError::Other(format!("what: {e}")))] *)
Definition other {A} (what : bytes) (r : result bytes A) : K A :=
  pure (map_err (fun e => Other (what ++ bs ": " ++ e)) r).

Definition fs_read (p : bytes) : K bytes := io (fun d => (read_file p d, d)).

Definition write_private_file (p contents : bytes) : K unit :=
  match parent p with Some dir => io (create_dir_all dir) | None => mret tt end ;;
  io (create_write p MODE_0600 contents).

Definition ssh_pub_from_pkcs8 (der : bytes) : K bytes :=
  key ← other (bs "parse pkcs8") (from_pkcs8_der der);
  mret (public_text v (key_e key) (key_n key)).

Definition from_der (der p : bytes) : K AdbKey :=
  pub ← ssh_pub_from_pkcs8 der; mret (mkKey der pub p).

Definition store_key (key : RsaPrivateKey) (store_path : bytes) : K AdbKey :=
  pem ← other (bs "encode pkcs8 pem") (to_pkcs8_pem key);
  write_private_file store_path pem ;;
  der ← other (bs "re-encode pkcs8") (to_pkcs8_der key);
  from_der der store_path.

(** [fresh] is what the key generator returns. *)
Definition generate_key (fresh : result bytes RsaPrivateKey) (p : bytes) : K AdbKey :=
  key ← other (bs "rsa keygen") fresh;
  der ← other (bs "encode pkcs8") (to_pkcs8_der key);
  pem ← pure (map_err Der (der_to_pem der));
  write_private_file p pem ;;
  from_der der p.

Definition load_pkcs8_pem (pem_path store_path : bytes) : K AdbKey :=
  pem ← fs_read pem_path;
  let s := from_utf8_lossy pem in
  key ← match from_pkcs8_pem s with
        | Ok k => mret k
        | Err e =>
            pure (map_err (fun e1 => Other (bs "parse pkcs8 pem: " ++ e ++ bs "; parse pkcs1 pem: " ++ e1))
                    (from_pkcs1_pem s))
        end;
  store_key key store_path.

Definition import_pkcs8_pem (pem_path store_path : bytes) : K AdbKey :=
  pem ← fs_read pem_path;
  key ← other (bs "parse pkcs8 pem") (from_pkcs8_pem (from_utf8_lossy pem));
  store_key key store_path.

Definition import_pkcs1_pem (pem_path store_path : bytes) : K AdbKey :=
  pem ← fs_read pem_path;
  key ← other (bs "parse pkcs1 pem") (from_pkcs1_pem (from_utf8_lossy pem));
  store_key key store_path.

Definition import_openssh (openssh_path store_path : bytes) : K AdbKey :=
  pem ← fs_read openssh_path;
  priv_key ← other (bs "parse openssh") (from_openssh pem);
  rsa_data ← pure (ok_or (key_data priv_key) (Other (bs "not an RSA key")));
  key ← other (bs "openssh -> rsa") (rsa_try_into rsa_data);
  store_key key store_path.

Definition default_key_path : bytes :=
  path_join (path_join (default (bs ".") (or_else (env_xdg v) (data_dir v))) (bs "adbshare")) (bs "adb_key.pkcs8").
Definition android_adb_key_path : option bytes :=
  (fun h => path_join (path_join h (bs ".android")) (bs "adbkey")) <$> home_dir v.

(** The first of the attempts that succeeds; the disk keeps what each did. *)
Fixpoint first_ok (ms : list (K AdbKey)) (k : K AdbKey) : K AdbKey := fun d =>
  match ms with
  | [] => k d
  | m :: ms => match m d with (Ok key, d) => (Ok key, d) | (Err _, d) => first_ok ms k d end
  end.

Definition load_or_create_key (fresh : result bytes RsaPrivateKey) : K AdbKey :=
  let our_path := default_key_path in
  let import : K AdbKey := fun d =>
    match android_adb_key_path with
    | Some a =>
        if file_exists a d then
          first_ok [import_openssh a our_path; import_pkcs8_pem a our_path; import_pkcs1_pem a our_path]
            (generate_key fresh our_path) d
        else generate_key fresh our_path d
    | None => generate_key fresh our_path d
    end in
  fun d =>
    if file_exists our_path d then first_ok [load_pkcs8_pem our_path our_path] import d
    else import d.

(** ** The key stays the same *)

(** What is relied on: a PEM text of a key is UTF-8 and parses to it, a
    document to a key; the file written is there and reads back. *)
Record key_laws : Prop := mkLaws {
  pem_text k pem : to_pkcs8_pem k = Ok pem -> utf8_valid pem = true /\ from_pkcs8_pem pem = Ok k;
  doc_text k der pem : to_pkcs8_der k = Ok der -> der_to_pem der = Ok pem ->
    utf8_valid pem = true /\ from_pkcs8_pem pem = Ok k;
  pem_total k der : to_pkcs8_der k = Ok der -> exists pem, to_pkcs8_pem k = Ok pem;
  written p m c d d' : create_write p m c d = (Ok tt, d') -> file_exists p d' = true /\ read_file p d' = Ok c;
}.

(** The disk holds [key] at [p]. *)
Definition holds (p : bytes) (key : AdbKey) (d : D) : Prop :=
  exists k pem, file_exists p d = true /\ read_file p d = Ok pem /\ utf8_valid pem = true
  /\ from_pkcs8_pem pem = Ok k /\ to_pkcs8_der k = Ok (pkcs8_der key)
  /\ (forall d, ssh_pub_from_pkcs8 (pkcs8_der key) d = (Ok (ssh_pub key), d)) /\ path key = p.

Lemma k_bind_ok {A B} (m : K A) (f : A -> K B) d b d' :
  (m ≫= f) d = (Ok b, d') -> exists a d1, m d = (Ok a, d1) /\ f a d1 = (Ok b, d').
Proof. unfold mbind, K_bind. destruct (m d) as [[a|e] d1]; naive_solver. Qed.

Lemma other_ok {A} w (r : result bytes A) d a d' : other w r d = (Ok a, d') -> r = Ok a /\ d = d'.
Proof. unfold other, pure. by destruct r; intros; simplify_eq/=. Qed.

Lemma pub_ok der d pub d' : ssh_pub_from_pkcs8 der d = (Ok pub, d') ->
  d' = d /\ forall d, ssh_pub_from_pkcs8 der d = (Ok pub, d).
Proof.
  unfold ssh_pub_from_pkcs8. intros (k & d1 & [E <-]%other_ok & Hk)%k_bind_ok.
  unfold mret, K_ret in Hk. simplify_eq. split; [done|]. intros d. unfold mbind, K_bind, other, pure. by rewrite E.
Qed.

Lemma from_der_ok der p d key d' : from_der der p d = (Ok key, d') ->
  d' = d /\ pkcs8_der key = der /\ path key = p /\ forall d, ssh_pub_from_pkcs8 der d = (Ok (ssh_pub key), d).
Proof.
  unfold from_der. intros (pub & d1 & [-> H]%pub_ok & Hk)%k_bind_ok.
  unfold mret, K_ret in Hk. by simplify_eq.
Qed.

Lemma write_private_ok p c d u d' : key_laws -> write_private_file p c d = (Ok u, d') ->
  file_exists p d' = true /\ read_file p d' = Ok c.
Proof.
  intros HL (w & d1 & _ & Hw)%k_bind_ok. unfold io in Hw.
  destruct (create_write p MODE_0600 c d1) as [[[]|e] d2] eqn:E; simplify_eq/=. by eapply written.
Qed.

Lemma store_key_holds k p d key d' : key_laws -> store_key k p d = (Ok key, d') -> holds p key d'.
Proof.
  intros HL (pem & d1 & [E <-]%other_ok & Hk)%k_bind_ok.
  apply k_bind_ok in Hk as (u & d2 & Hw & Hk). apply write_private_ok in Hw as [He Hr]; [|done].
  apply k_bind_ok in Hk as (der & d3 & [Ed <-]%other_ok & Hk).
  apply from_der_ok in Hk as (-> & Eder & Hp & Hpub). destruct (pem_text HL _ _ E) as [Hu Hf].
  exists k, pem. rewrite Eder. done.
Qed.

Lemma generate_key_holds fresh p d key d' : key_laws -> generate_key fresh p d = (Ok key, d') -> holds p key d'.
Proof.
  intros HL (k & d1 & [E <-]%other_ok & Hk)%k_bind_ok.
  apply k_bind_ok in Hk as (der & d2 & [Ed <-]%other_ok & Hk).
  apply k_bind_ok in Hk as (pem & d3 & Hp & Hk). unfold pure in Hp.
  destruct (der_to_pem der) as [pem'|] eqn:Ep; simplify_eq/=.
  apply k_bind_ok in Hk as (u & d4 & Hw & Hk). apply write_private_ok in Hw as [He Hr]; [|done].
  apply from_der_ok in Hk as (-> & Eder & Hp & Hpub). destruct (doc_text HL _ _ _ Ed Ep) as [Hu Hf].
  exists k, pem. rewrite Eder. done.
Qed.

(** An attempt that stores what it returns. *)
Definition keeps (m : K AdbKey) : Prop := forall d key d', m d = (Ok key, d') -> holds default_key_path key d'.

Lemma keeps_bind {A} (m : K A) (f : A -> K AdbKey) : (forall a, keeps (f a)) -> keeps (m ≫= f).
Proof. intros H d key d' (a & d1 & _ & Hf)%k_bind_ok. by eapply H. Qed.
Lemma keeps_first ms k : Forall keeps ms -> keeps k -> keeps (first_ok ms k).
Proof.
  induction 1 as [|m ms Hm Hms IH]; [done|]. intros Hk d key d'. simpl.
  destruct (m d) as [[key'|e] d1] eqn:E; [|by apply IH]. intros; simplify_eq. by eapply Hm.
Qed.

Lemma load_keeps fresh : key_laws -> keeps (load_or_create_key fresh).
Proof.
  intros HL. assert (Hg : keeps (generate_key fresh default_key_path)) by (intros ? ? ?; by apply generate_key_holds).
  assert (Hs : forall k, keeps (store_key k default_key_path)) by (intros ? ? ? ?; by apply store_key_holds).
  assert (Hi : forall a, keeps (first_ok [import_openssh a default_key_path; import_pkcs8_pem a default_key_path;
      import_pkcs1_pem a default_key_path] (generate_key fresh default_key_path))).
  { intros a. apply keeps_first; [|done]. rewrite !Forall_cons, Forall_nil.
    split_and!; try done; repeat first [apply Hs | apply keeps_bind; intros ?]. }
  assert (Hl : keeps (load_pkcs8_pem default_key_path default_key_path)).
  { repeat first [apply Hs | apply keeps_bind; intros ?]. }
  set (import := fun d => match android_adb_key_path with
    | Some a => if file_exists a d then first_ok [import_openssh a default_key_path;
        import_pkcs8_pem a default_key_path; import_pkcs1_pem a default_key_path]
        (generate_key fresh default_key_path) d else generate_key fresh default_key_path d
    | None => generate_key fresh default_key_path d end).
  assert (Him : keeps import).
  { intros d key d'. unfold import. destruct android_adb_key_path as [a|]; [|apply Hg].
    destruct (file_exists a d); [apply Hi|apply Hg]. }
  intros d key d'. unfold load_or_create_key. fold import. destruct (file_exists default_key_path d); [|apply Him].
  apply (keeps_first [_] import); [by rewrite Forall_singleton|done].
Qed.

(** The host keeps its identity. Whatever [load_or_create_key] returned,
    loaded, imported in any of the three formats or generated, the next call
    on that disk returns the same private key with the same public
    text, without looking at [~/.android/adbkey] or generating anything, as
    long as a key can still be written to its file; and every key it returns is the one
    stored at the program's path. *)
Theorem key_is_stable (fresh fresh' : result bytes RsaPrivateKey) (d d' : D) (key : AdbKey) :
  key_laws -> load_or_create_key fresh d = (Ok key, d') ->
  (forall k pem, to_pkcs8_pem k = Ok pem -> is_ok (write_private_file default_key_path pem d').1 = true) ->
  holds default_key_path key d'
  /\ exists d'', load_or_create_key fresh' d' = (Ok key, d'').
Proof.
  intros HL Hrun Hw. pose proof (load_keeps fresh HL _ _ _ Hrun) as Hh. split; [exact Hh|].
  destruct Hh as (k & pem & He & Hr & Hu & Hf & Hd & Hpub & Hp).
  destruct (pem_total HL _ _ Hd) as [pem' Epem]. specialize (Hw k pem' Epem).
  destruct (write_private_file default_key_path pem' d') as [[u|e] d2] eqn:Ew; [|done].
  exists d2. unfold load_or_create_key. rewrite He. cbn [first_ok].
  assert (El : load_pkcs8_pem default_key_path default_key_path d' = (Ok key, d2)); [|by rewrite El].
  unfold load_pkcs8_pem, fs_read, io, mbind at 1, K_bind at 1. rewrite Hr. cbn [map_err].
  rewrite from_utf8_lossy_valid, Hf by done.
  unfold store_key, other, pure, mbind, K_bind, mret, K_ret. rewrite Epem. cbn [map_err].
  rewrite Ew, Hd. cbn [map_err]. unfold from_der, mbind, K_bind, mret, K_ret. rewrite Hpub.
  destruct key; simpl in *. by subst.
Qed.

End keys.

(** ** Two keys on a small disk *)

Definition pem8 (k : bool) : bytes := if k then bs "PKCS8 one" else bs "PKCS8 two".
Definition pem1 (k : bool) : bytes := if k then bs "RSA one" else bs "RSA two".
Definition parses (f : bool -> bytes) (l : bytes) : result bytes bool :=
  if bool_decide (l = f true) then Ok true else if bool_decide (l = f false) then Ok false else Err (bs "bad").

#[global] Instance two_keys : Rsa := {|
  RsaPrivateKey := bool; SshPrivateKey := unit; RsaKeypair := bool;
  from_pkcs8_pem := parses pem8; from_pkcs1_pem := parses pem1;
  from_pkcs8_der := parses (fun k => if k then [1] else [2]);
  to_pkcs8_pem k := Ok (pem8 k); to_pkcs8_der k := Ok (if k then [1] else [2]);
  der_to_pem der := Ok (if bool_decide (der = [1]) then pem8 true else pem8 false);
  from_openssh _ := Err (bs "not openssh"); key_data _ := None; rsa_try_into k := Ok k;
  key_n k := if k then [0xC1] else [0xC3]; key_e _ := [1; 0; 1] |}.

(** Files and the free bytes. *)
Record small_disk : Type := mkDisk { files : gmap bytes bytes; room : Z }.
#[global] Instance small_disk_disk : Disk small_disk := {|
  file_exists p d := bool_decide (is_Some (files d !! p));
  read_file p d := ok_or (files d !! p) (bs "not found");
  create_dir_all _ d := (Ok tt, d);
  create_write p _ c d :=
    let freed := room d + zlen (default [] (files d !! p)) in
    if zlen c <=? freed then (Ok tt, mkDisk (<[p := c]> (files d)) (freed - zlen c))
    else (Err (bs "no space"), mkDisk (<[p := []]> (files d)) freed) |}.

Lemma two_keys_laws : key_laws (R := two_keys) (D := small_disk).
Proof.
  split.
  - intros [] pem [= <-]; by vm_compute.
  - intros [] der pem [= <-] [= <-]; by vm_compute.
  - intros k der _. by eexists.
  - intros p m c d d'. simpl. case_bool; [|done]. intros [= <-]. simpl.
    rewrite lookup_insert_eq. by rewrite bool_decide_eq_true_2 by done.
Qed.

Definition with_android : small_disk := mkDisk {[ bs "/home/ann/.android/adbkey" := pem1 true ]} 1000.

Abbreviation load := (load_or_create_key (R := two_keys) my_host (Ok false)).

(** The first key, and the next writes succeed. *)
Definition first_load_ok (r : adb_result AdbKey * small_disk) : bool :=
  match r with
  | (Ok key, d) =>
      bool_decide (pkcs8_der key = [1])
      && forallb (fun k => is_ok (write_private_file (default_key_path my_host) (pem8 k) d).1) [true; false]
  | _ => false
  end.

(** An imported PKCS#1 key, kept although the generator would give another. *)
Lemma key_is_stable_witness :
  exists key d', load with_android = (Ok key, d') /\ pkcs8_der key = [1] /\ exists d'', load d' = (Ok key, d'').
Proof.
  destruct (load with_android) as [[key|e] d'] eqn:E; [|by vm_compute in E].
  exists key, d'. split; [reflexivity|].
  assert (H : first_load_ok (load with_android) = true) by by vm_compute.
  rewrite E in H. unfold first_load_ok in H.
  bool_to_prop. split; [done|].
  apply (key_is_stable (R := two_keys) my_host (Ok false) (Ok false) with_android d' key two_keys_laws E).
  simpl in *. bool_to_prop. intros [] pem [= <-]; assumption.
Defined.

(** Loading rewrites the key file in place, here from PKCS#1 to the longer
    PKCS#8: on a full disk the key is read, then truncated away, and the call
    fails. *)
Example load_loses_key :
  let d := mkDisk {[ default_key_path my_host := pem1 true ]} 0 in
  is_ok (load d).1 = false /\ files (load d).2 !! default_key_path my_host = Some [].
Proof. by vm_compute. Qed.
