(* ===== verification/PairPacket.v ===== *)
(** * Pairing packets (adb-pairing/src/packet.rs, error.rs, qr.rs)

    The six-byte header, the fixed-size PeerInfo record and the QR payload. *)

From stdpp Require Import base list strings.
From S2P Require Import Prelude RustStd Text.

Inductive Error : Type :=
| CodeMismatch
| Io (e : bytes)
| Tls (e : bytes)
| Protocol (e : bytes)
| Key (e : bytes)
| Timeout
| Other (e : bytes).

Definition VERSION : Z := 1.
Definition TYPE_SPAKE2_MSG : Z := 0.
Definition TYPE_PEER_INFO : Z := 1.
Definition HEADER_LEN : Z := 6.
Definition MAX_PAYLOAD : Z := 16384.
Definition PEER_INFO_SIZE : Z := 8192.

Definition encode_header (packet_type payload_len : Z) : result Error bytes :=
  if (payload_len =? 0) || (payload_len >? MAX_PAYLOAD) then Err (Protocol (bs "bad payload length"))
  else Ok ([VERSION; packet_type] ++ be_bytes 4 (as_u32 payload_len)).

(** [header] has six bytes. *)
Definition decode_header (header : bytes) : result Error (Z * Z) :=
  let kind := default 0 (zget header 1) in
  let len := be_val (slice header 2 4) in
  if negb (default 0 (zget header 0) =? VERSION) then Err (Protocol (bs "bad pairing packet version"))
  else if negb (kind =? TYPE_SPAKE2_MSG) && negb (kind =? TYPE_PEER_INFO)
  then Err (Protocol (bs "unknown pairing packet type"))
  else if (len =? 0) || (len >? MAX_PAYLOAD) then Err (Protocol (bs "bad pairing packet length"))
  else Ok (kind, len).

Definition zeros (n : Z) : bytes := replicate (Z.to_nat n) 0.

Definition peer_info (public_key : bytes) : result Error bytes :=
  if zlen public_key >=? PEER_INFO_SIZE - 1 then Err (Protocol (bs "public key too long for PeerInfo"))
  else Ok ([0] ++ public_key ++ zeros (PEER_INFO_SIZE - 1 - zlen public_key)).

(** [while data.last() == Some(&0) { data.pop(); }] *)
Definition cut_nuls (data : bytes) : bytes := reverse (drop_while (fun b => b =? 0) (reverse data)).

Definition parse_peer_info (record : bytes) : result Error (Z * bytes) :=
  if negb (zlen record =? PEER_INFO_SIZE) then Err (Protocol (bs "PeerInfo has wrong size"))
  else Ok (default 0 (zget record 0), cut_nuls (zdrop 1 record)).

(** ** QR payload *)

Definition INSTANCE_PREFIX : bytes := bs "studio-".
Definition INSTANCE_SUFFIX_LEN : Z := 10.
Definition PASSWORD_LEN : Z := 16.
Definition ALPHABET : bytes := bs "ABCDEFGHIJKLMNOPQRSTUVWXYZabcdefghijklmnopqrstuvwxyz0123456789".

Record QrSession : Type := mkSession { instance : bytes; password : bytes }.

(** [buf] is what was read from [/dev/urandom]. *)
Definition random (buf : bytes) : bytes := (fun b => default 0 (zget ALPHABET (b mod zlen ALPHABET))) <$> buf.

Definition new_session (rnd1 rnd2 : bytes) : QrSession :=
  mkSession (INSTANCE_PREFIX ++ random rnd1) (random rnd2).

Definition payload (s : QrSession) : bytes :=
  bs "WIFI:T:ADB;S:" ++ instance s ++ bs ";P:" ++ password s ++ bs ";;".

(** ** Round trips *)

Lemma len_ok n : 0 < n <= MAX_PAYLOAD -> (n =? 0) || (n >? MAX_PAYLOAD) = false.
Proof. intros Hn. rewrite orb_false_iff, Z.eqb_neq, Z.gtb_ltb, Z.ltb_ge. lia. Qed.

Lemma header_at k n : slice ([VERSION; k] ++ be_bytes 4 n) 2 4 = be_bytes 4 n.
Proof. rewrite slice_skip by done. apply slice_all. by rewrite zlen_be_bytes. Qed.

Lemma decode_encode_header k n : k = TYPE_SPAKE2_MSG \/ k = TYPE_PEER_INFO -> 0 < n <= MAX_PAYLOAD ->
  exists h, encode_header k n = Ok h /\ zlen h = HEADER_LEN /\ decode_header h = Ok (k, n).
Proof.
  intros Hk Hn. unfold encode_header. rewrite len_ok by done. eexists. split; [done|].
  split; [by rewrite zlen_app, zlen_be_bytes|].
  unfold decode_header. rewrite header_at, be_val_be_bytes. unfold MAX_PAYLOAD in Hn.
  rewrite as_u32_id by lia. rewrite Z.mod_small by (simpl; lia). rewrite len_ok by done.
  by destruct Hk as [-> | ->].
Qed.

Lemma cut_nuls_zeros n l : (last l = Some 0 -> False) -> cut_nuls (l ++ replicate n 0) = l.
Proof.
  intros Hl. unfold cut_nuls. rewrite reverse_app, reverse_replicate.
  assert (H : drop_while (fun b => b =? 0) (replicate n 0 ++ reverse l) = reverse l); [|by rewrite H, reverse_involutive].
  induction n as [|n IH]; [|done]. simpl. destruct (reverse l) as [|b r] eqn:E; [done|]. simpl.
  destruct (Z.eqb_spec b 0) as [->|]; [|done]. exfalso. apply Hl.
  by rewrite <- (reverse_involutive l), E, reverse_cons, last_snoc.
Qed.

Lemma peer_info_size key info : peer_info key = Ok info -> zlen info = PEER_INFO_SIZE.
Proof.
  unfold peer_info. case_match eqn:E; [done|]. intros [= <-]. rewrite Z.geb_leb in E. bool_to_prop.
  unfold zeros, PEER_INFO_SIZE in *. rewrite zlen_cons, zlen_app, zlen_replicate. lia.
Qed.

Lemma parse_peer_info_roundtrip key : zlen key < PEER_INFO_SIZE - 1 -> (last key = Some 0 -> False) ->
  exists info, peer_info key = Ok info /\ parse_peer_info info = Ok (0, key).
Proof.
  intros Hl Hn. destruct (peer_info key) as [info|e] eqn:E.
  - exists info. split; [done|]. unfold parse_peer_info. rewrite (peer_info_size _ _ E), Z.eqb_refl. simpl negb. cbv iota.
    unfold peer_info in E. case_match; [done|]. injection E as <-.
    change (zget (0 :: ?l) 0) with (Some 0). change (zdrop 1 (0 :: ?l)) with l. cbn [default].
    unfold zeros. by rewrite cut_nuls_zeros.
  - unfold peer_info in E. case_match eqn:Ec; [|done]. rewrite Z.geb_leb in Ec. bool_to_prop. lia.
Qed.

(** ** QR payload *)

Lemma random_alphabet buf : Forall (fun b => is_alnum b = true) (random buf).
Proof.
  unfold random. apply Forall_fmap, Forall_true. intros b. unfold compose.
  assert (Hall : Forall (fun b => is_alnum b = true) ALPHABET) by (apply (bool_decide_unpack _); by vm_compute).
  assert (Hb : 0 <= b mod zlen ALPHABET < zlen ALPHABET) by (apply Z.mod_pos_bound; done).
  unfold zget. rewrite (proj2 (Z.ltb_ge _ _)) by lia.
  destruct (lookup_lt_is_Some_2 ALPHABET (Z.to_nat (b mod zlen ALPHABET))) as [x Hx]; [unfold zlen in *; lia|].
  rewrite Hx. exact (Forall_lookup_1 _ _ _ _ Hall Hx).
Qed.

(** The scanner's reading of the payload: the fields between semicolons. *)
Lemma payload_fields rnd1 rnd2 :
  let s := new_session rnd1 rnd2 in
  split_on 59 (payload s) = [bs "WIFI:T:ADB"; bs "S:" ++ instance s; bs "P:" ++ password s; []; []].
Proof.
  intros s. subst s. assert (Hn : forall buf, Forall (fun b => b <> 59) (random buf)).
  { intros buf. eapply Forall_impl; [apply random_alphabet|]. by intros b Hb ->. }
  change (instance _) with (INSTANCE_PREFIX ++ random rnd1). change (password _) with (random rnd2).
  replace (payload (new_session rnd1 rnd2)) with
    (join [59] [bs "WIFI:T:ADB"; bs "S:" ++ INSTANCE_PREFIX ++ random rnd1; bs "P:" ++ random rnd2; []; []]).
  - apply split_join; [done|]. rewrite !Forall_cons, !Forall_nil. split_and!; [| | |done..].
    + (apply (bool_decide_unpack _); by vm_compute).
    + rewrite !Forall_app. split_and!; [(apply (bool_decide_unpack _); by vm_compute)..|apply Hn].
    + rewrite Forall_app. split; [(apply (bool_decide_unpack _); by vm_compute)|apply Hn].
  - unfold payload. cbn [join instance password new_session]. by rewrite <- !app_assoc.
Qed.
