(* ===== verification/Spake2.v ===== *)
(** * SPAKE2 over edwards25519 (adb-pairing/src/spake2.rs)

    The 256-bit scalar arithmetic on little-endian bytes, the double-and-add
    multiplication and both roles of the exchange. The curve (curve25519-dalek)
    is the class [Edwards], a group up to the equivalence of its projective
    coordinates; SHA-512 and the reduction of a 64-byte scalar are its
    companions in [Hashes]. *)

From stdpp Require Import base list strings.
From S2P Require Import Prelude PairPacket.

(** ** Scalars *)

(** [add_wide]: the bytes of [dest] with the carry of the bytes before. *)
Fixpoint add_carry (carry : Z) (dest src : bytes) : bytes :=
  match dest, src with
  | d :: dest, s :: src =>
      let sum := d + s + carry in as_u8 sum :: add_carry (Z.shiftr sum 8) dest src
  | _, _ => dest
  end.
Definition add_wide (dest src : bytes) : bytes := add_carry 0 dest src.

Fixpoint shift3_carry (carry : Z) (scalar : bytes) : bytes :=
  match scalar with
  | [] => []
  | b :: scalar => Z.lor (as_u8 (Z.shiftl b 3)) carry :: shift3_carry (Z.shiftr b 5) scalar
  end.
Definition left_shift_3 (scalar : bytes) : bytes := shift3_carry 0 scalar.

(** The prime order of the base point's group, little-endian. *)
Definition ORDER : bytes :=
  [0xed; 0xd3; 0xf5; 0x5c; 0x1a; 0x63; 0x12; 0x58; 0xd6; 0x9a; 0x7a; 0xa2; 0xde; 0xf9; 0xde; 0x14;
   0x00; 0x00; 0x00; 0x00; 0x00; 0x00; 0x00; 0x00; 0x00; 0x00; 0x00; 0x00; 0x00; 0x00; 0x00; 0x10].
Definition M_ENCODED : bytes :=
  [0x5a; 0xda; 0x7e; 0x4b; 0xf6; 0xdd; 0xd9; 0xad; 0xb6; 0x62; 0x6d; 0x32; 0x13; 0x1c; 0x6b; 0x5c;
   0x51; 0xa1; 0xe3; 0x47; 0xa3; 0x47; 0x8f; 0x53; 0xcf; 0xcf; 0x44; 0x1b; 0x88; 0xee; 0xd1; 0x2e].
Definition N_ENCODED : bytes :=
  [0x10; 0xe3; 0xdf; 0x0a; 0xe3; 0x7d; 0x8e; 0x7a; 0x99; 0xb5; 0xfe; 0x74; 0xb4; 0x46; 0x72; 0x10;
   0x3d; 0xbd; 0xdc; 0xbd; 0x06; 0xaf; 0x68; 0x0d; 0x71; 0x32; 0x9a; 0x11; 0x69; 0x3b; 0xc7; 0x78].

(** The loop over the three low bits: a set bit is cleared by adding the order,
    doubled each round. *)
Definition clear_bit (sc : bytes * bytes) (bit : Z) : bytes * bytes :=
  let '(scalar, order) := sc in
  let scalar :=
    if negb (Z.land (default 0 (zget scalar 0)) (Z.shiftl 1 bit) =? 0) then add_wide scalar order else scalar in
  (scalar, add_wide order order).
Definition adjust (scalar : bytes) : bytes := (foldl clear_bit (scalar, ORDER) [0; 1; 2]).1.

Lemma add_carry_spec carry dest src :
  length dest = length src -> Forall u8_ok dest -> Forall u8_ok src -> 0 <= carry <= 1 ->
  le_val (add_carry carry dest src) = (le_val dest + le_val src + carry) mod 2 ^ (8 * zlen dest)
  /\ zlen (add_carry carry dest src) = zlen dest /\ Forall u8_ok (add_carry carry dest src).
Proof.
  revert carry src. induction dest as [|d dest IH]; intros carry [|s src] Hl Hd Hs Hc; try done.
  { simpl. by rewrite Z.mod_1_r. }
  rewrite !Forall_cons in *. destruct Hd as [Hd Hds], Hs as [Hs Hss]. unfold u8_ok in *.
  cbn [add_carry]. rewrite Z.shiftr_div_pow2 by lia.
  destruct (IH ((d + s + carry) / 2 ^ 8) src) as (E & L & U);
    [by simplify_eq/=|done|done|Z.to_euclidean_division_equations; lia|].
  split_and!; [|by rewrite !zlen_cons, L|]; [|rewrite Forall_cons; split; [|done]; apply Z.mod_pos_bound; lia].
  change (le_val (as_u8 (d + s + carry) :: add_carry ((d + s + carry) / 2 ^ 8) dest src)) with
    (as_u8 (d + s + carry) + 256 * le_val (add_carry ((d + s + carry) / 2 ^ 8) dest src)).
  change (le_val (d :: dest)) with (d + 256 * le_val dest). change (le_val (s :: src)) with (s + 256 * le_val src).
  rewrite E, zlen_cons. unfold as_u8. change (2 ^ 8) with 256.
  replace (2 ^ (8 * (1 + zlen dest))) with (256 * 2 ^ (8 * zlen dest))
    by (rewrite <- (Z.pow_add_r 2 8) by (unfold zlen; lia); f_equal; lia).
  rewrite Z.rem_mul_r by (try apply Z.pow_pos_nonneg; unfold zlen; lia).
  replace (d + 256 * le_val dest + (s + 256 * le_val src) + carry)
    with (d + s + carry + (le_val dest + le_val src) * 256) by lia.
  rewrite Z.mod_add, Z.div_add by lia. do 3 f_equal. lia.
Qed.

Lemma add_wide_spec dest src :
  length dest = length src -> Forall u8_ok dest -> Forall u8_ok src ->
  le_val (add_wide dest src) = (le_val dest + le_val src) mod 2 ^ (8 * zlen dest)
  /\ zlen (add_wide dest src) = zlen dest /\ Forall u8_ok (add_wide dest src).
Proof. intros Hl Hd Hs. rewrite <- (Z.add_0_r (le_val dest + le_val src)). by apply add_carry_spec. Qed.

Lemma shift3_byte b c : 0 <= c < 8 -> Z.lor (as_u8 (Z.shiftl b 3)) c = b mod 32 * 8 + c.
Proof.
  intros Hc. replace (as_u8 (Z.shiftl b 3)) with (Z.shiftl (b mod 32) 3); [by rewrite lor_shiftl|].
  rewrite !Z.shiftl_mul_pow2 by lia. unfold as_u8. change (2 ^ 8) with (32 * 2 ^ 3).
  by rewrite Z.mul_mod_distr_r.
Qed.

Lemma shift3_carry_spec carry l :
  Forall u8_ok l -> 0 <= carry < 8 ->
  le_val (shift3_carry carry l) = (8 * le_val l + carry) mod 2 ^ (8 * zlen l)
  /\ zlen (shift3_carry carry l) = zlen l /\ Forall u8_ok (shift3_carry carry l).
Proof.
  intros Hl. revert carry. induction Hl as [|b l Hb Hl IH]; intros carry Hc; [simpl; by rewrite Z.mod_1_r|].
  unfold u8_ok in Hb. cbn [shift3_carry]. rewrite shift3_byte, Z.shiftr_div_pow2 by lia. change (2 ^ 5) with 32.
  destruct (IH (b / 32)) as (E & L & U); [Z.to_euclidean_division_equations; lia|].
  split_and!; [|by rewrite !zlen_cons, L|].
  2:{ rewrite Forall_cons; split; [|done]. unfold u8_ok. Z.to_euclidean_division_equations; lia. }
  change (le_val (b mod 32 * 8 + carry :: shift3_carry (b / 32) l)) with
    (b mod 32 * 8 + carry + 256 * le_val (shift3_carry (b / 32) l)).
  change (le_val (b :: l)) with (b + 256 * le_val l). rewrite E, zlen_cons.
  replace (2 ^ (8 * (1 + zlen l))) with (256 * 2 ^ (8 * zlen l))
    by (rewrite <- (Z.pow_add_r 2 8) by (unfold zlen; lia); f_equal; lia).
  rewrite Z.rem_mul_r by (try apply Z.pow_pos_nonneg; unfold zlen; lia).
  replace (8 * (b + 256 * le_val l) + carry) with (b mod 32 * 8 + carry + (8 * le_val l + b / 32) * 256)
    by (pose proof (Z.div_mod b 32); lia).
  rewrite Z.mod_add, Z.div_add by lia.
  rewrite (Z.mod_small (b mod 32 * 8 + carry)), (Z.div_small (b mod 32 * 8 + carry))
    by (Z.to_euclidean_division_equations; lia). done.
Qed.

Lemma left_shift_3_spec l : Forall u8_ok l ->
  le_val (left_shift_3 l) = (8 * le_val l) mod 2 ^ (8 * zlen l)
  /\ zlen (left_shift_3 l) = zlen l /\ Forall u8_ok (left_shift_3 l).
Proof. intros Hl. rewrite <- (Z.add_0_r (8 * le_val l)). by apply shift3_carry_spec. Qed.

(** ** The password scalar *)

Definition L : Z := le_val ORDER.

Definition is_scalar (l : bytes) : Prop := length l = 32%nat /\ Forall u8_ok l.

Lemma scalar_len l : is_scalar l -> zlen l = 32.
Proof. intros [H _]. unfold zlen. by rewrite H. Qed.

Lemma add_wide_scalar a b : is_scalar a -> is_scalar b -> le_val a + le_val b < 2 ^ 256 ->
  le_val (add_wide a b) = le_val a + le_val b /\ is_scalar (add_wide a b).
Proof.
  intros Ha Hb Hlt. pose proof (scalar_len a Ha) as La. destruct Ha as [Ea Ua], Hb as [Eb Ub].
  destruct (add_wide_spec a b) as (E & Le & U); [congruence|done|done|].
  rewrite E, La. change (8 * 32) with 256. rewrite Z.mod_small; [split; [done|split; [|done]]|].
  - unfold zlen in *; lia.
  - pose proof (le_val_bound a Ua). pose proof (le_val_bound b Ub). lia.
Qed.

(** A bit of the low byte is a bit of the number. *)
Lemma low_bit l i : is_scalar l -> 0 <= i < 8 ->
  negb (Z.land (default 0 (zget l 0)) (Z.shiftl 1 i) =? 0) = Z.testbit (le_val l) i.
Proof.
  intros [Hl Hu] Hi. destruct l as [|b l]; [discriminate Hl|]. apply Forall_cons in Hu as [Hb _]. unfold u8_ok in Hb.
  change (default 0 (zget (b :: l) 0)) with b.
  rewrite Z.shiftl_1_l, land_bit by lia.
  replace (Z.testbit (le_val (b :: l)) i) with (Z.testbit b i).
  - destruct (Z.testbit b i); [|done]. pose proof (Z.pow_pos_nonneg 2 i).
    apply negb_true_iff, Z.eqb_neq. lia.
  - rewrite <- (Z.mod_pow2_bits_low (le_val (b :: l)) 8 i) by lia.
    change (le_val (b :: l)) with (b + 256 * le_val l).
    replace ((b + 256 * le_val l) mod 2 ^ 8) with b; [done|].
    change (2 ^ 8) with 256. rewrite Z.mul_comm, Z.mod_add, Z.mod_small by lia. done.
Qed.

Lemma L_facts : L mod 2 = 1 /\ 0 < L /\ 8 * L < 2 ^ 256 /\ L < 2 ^ 253.
Proof. split_and!; reflexivity. Qed.

(** After [i] rounds: the value is the reduced one plus a multiple of the
    order, and its [i] low bits are clear. *)
Definition cleared (r i : Z) (sc : bytes * bytes) : Prop :=
  is_scalar sc.1 /\ is_scalar sc.2 /\ le_val sc.2 = 2 ^ i * L
  /\ le_val sc.1 mod 2 ^ i = 0 /\ exists k, 0 <= k < 2 ^ i /\ le_val sc.1 = r + k * L.

(** Adding an odd multiple of a power of two flips that bit. *)
Lemma flip_bit v l p : 0 < p -> v mod p = 0 -> v / p mod 2 <> 0 -> l mod 2 = 1 -> (v + p * l) mod (2 * p) = 0.
Proof.
  intros Hp Hm Hb Hl. rewrite (Z.mul_comm 2 p), Z.rem_mul_r by lia.
  replace (v + p * l) with (v + l * p) by lia. rewrite Z.mod_add, Z.div_add, Hm by lia.
  replace ((v / p + l) mod 2) with 0; [lia|]. Z.to_euclidean_division_equations; lia.
Qed.

Lemma clear_bit_step r i sc : 0 <= r < L -> 0 <= i < 3 -> cleared r i sc -> cleared r (i + 1) (clear_bit sc i).
Proof.
  destruct sc as [s o]. intros Hr Hi (Hs & Ho & Eo & Hm & k & Hk & Es). unfold cleared in *. simpl in *.
  destruct L_facts as (Lodd & Lpos & Lb & _).
  assert (Hp : 2 ^ (i + 1) = 2 * 2 ^ i) by (rewrite Z.pow_add_r by lia; lia).
  assert (Hi8 : 1 <= 2 ^ i <= 4) by (assert (i = 0 \/ i = 1 \/ i = 2) as [->|[->| ->]] by lia; done).
  destruct (add_wide_scalar o o) as [Eo' Ho']; [done|done|rewrite Eo; nia|].
  rewrite low_bit by (done || lia). rewrite Hp.
  assert (Hbit : Z.testbit (le_val s) i = negb (le_val s / 2 ^ i mod 2 =? 0)).
  { rewrite Z.testbit_odd, Z.shiftr_div_pow2, Zmod_odd by lia. by destruct (Z.odd _). }
  rewrite Hbit. destruct (Z.eqb_spec (le_val s / 2 ^ i mod 2) 0) as [E|E]; simpl.
  - split_and!; [done|done|rewrite Eo'; lia| |exists k; split; [lia|done]].
    rewrite (Z.mul_comm 2), Z.rem_mul_r, Hm, E by lia. lia.
  - destruct (add_wide_scalar s o) as [Es' Hs']; [done|done|rewrite Es, Eo; nia|].
    split_and!; [done|done|rewrite Eo'; lia| |].
    + rewrite Es', Eo. by apply flip_bit; [lia|..].
    + exists (k + 2 ^ i). split; [lia|]. rewrite Es', Es, Eo. lia.
Qed.

(** The password scalar is the reduced hash modulo the order, kills the
    cofactor, and never overflows its 256 bits: the [debug_assert] holds. *)
Lemma adjust_spec s : is_scalar s -> le_val s < L ->
  is_scalar (adjust s) /\ le_val (adjust s) mod 8 = 0
  /\ exists k, 0 <= k < 8 /\ le_val (adjust s) = le_val s + k * L.
Proof.
  intros Hs Hlt. pose proof (le_val_bound s (proj2 Hs)) as Hb.
  assert (H0 : cleared (le_val s) 0 (s, ORDER)).
  { split_and!; [done|split; [done|by apply (bool_decide_unpack _)]|done|apply Z.mod_1_r|].
    exists 0. split; [done|simpl; lia]. }
  apply clear_bit_step in H0; [|lia|lia]. apply clear_bit_step in H0; [|lia|lia].
  apply clear_bit_step in H0; [|lia|lia]. by destruct H0 as (? & _ & _ & ? & ?).
Qed.

(** ** The curve *)

(** Points as the library keeps them; [≡] is equality of the points they
    stand for. *)
Class Edwards (G : Type) := {
  ge_equiv :: Equiv G;
  identity : G;
  point_add : G -> G -> G;
  point_sub : G -> G -> G;
  basepoint : G;
  compress : G -> bytes;
  decompress : bytes -> option G;
}.

Class EdwardsLaws (G : Type) `{Edwards G} : Prop := {
  ge_equivalence :: Equivalence (≡@{G});
  add_proper :: Proper ((≡) ==> (≡) ==> (≡)) point_add;
  sub_proper :: Proper ((≡) ==> (≡) ==> (≡)) point_sub;
  compress_proper :: Proper ((≡) ==> (=)) compress;
  add_comm (P Q : G) : point_add P Q ≡ point_add Q P;
  add_assoc (P Q R : G) : point_add P (point_add Q R) ≡ point_add (point_add P Q) R;
  add_identity (P : G) : point_add identity P ≡ P;
  add_sub (P Q : G) : point_sub (point_add P Q) Q ≡ P;
  compress_len (P : G) : zlen (compress P) = 32;
  decompress_compress (P : G) : exists Q, decompress (compress P) = Some Q /\ Q ≡ P;
  masks_decompress : is_Some (decompress M_ENCODED) /\ is_Some (decompress N_ENCODED);
}.

Section mul.
Context {G : Type} `{Edwards G}.

(** One bit of [mul_wide]: the running sum and the doubled point. *)
Definition mul_bit (st : G * G) (bit : bool) : G * G :=
  let '(result, addend) := st in
  (if bit then point_add result addend else result, point_add addend addend).

Definition byte_bits (byte : Z) : list bool :=
  (fun i => Z.land (Z.shiftr byte i) 1 =? 1) <$> [0; 1; 2; 3; 4; 5; 6; 7].

Definition mul_wide (point : G) (scalar : bytes) : G :=
  (foldl (fun st byte => foldl mul_bit st (byte_bits byte)) (identity, point) scalar).1.

(** ** Multiples *)

Definition gmul (k : Z) (P : G) : G := Nat.iter (Z.to_nat k) (point_add P) identity.

Context {GL : EdwardsLaws G}.

#[global] Instance gmul_proper k : Proper ((≡) ==> (≡)) (gmul k).
Proof.
  intros P Q HPQ. unfold gmul. induction (Z.to_nat k) as [|n IH]; simpl; [done|]. by rewrite IH, HPQ.
Qed.

Lemma gmul_succ k P : 0 <= k -> gmul (k + 1) P ≡ point_add P (gmul k P).
Proof. intros Hk. unfold gmul. by rewrite Z2Nat.inj_add, Nat.add_comm by lia. Qed.
Lemma gmul_0 P : gmul 0 P ≡ identity.
Proof. done. Qed.
Lemma gmul_1 P : gmul 1 P ≡ P.
Proof. change (point_add P identity ≡ P). by rewrite add_comm, add_identity. Qed.

Lemma gmul_add a b P : 0 <= a -> 0 <= b -> gmul (a + b) P ≡ point_add (gmul a P) (gmul b P).
Proof.
  intros Ha Hb. pattern a. apply natlike_ind; [|intros k Hk IH|done].
  - by rewrite gmul_0, add_identity.
  - unfold Z.succ. replace (k + 1 + b) with (k + b + 1) by lia.
    by rewrite !gmul_succ, IH, add_assoc by lia.
Qed.

Lemma gmul_mul a b P : 0 <= a -> 0 <= b -> gmul a (gmul b P) ≡ gmul (a * b) P.
Proof.
  intros Ha Hb. pattern a. apply natlike_ind; [|intros k Hk IH|done]; [done|].
  unfold Z.succ. rewrite gmul_succ, IH by done. replace ((k + 1) * b) with (b + k * b) by lia.
  rewrite gmul_add by nia. done.
Qed.

(** ** Double and add *)

Fixpoint bits_val (l : list bool) : Z :=
  match l with [] => 0 | b :: l => Z.b2z b + 2 * bits_val l end.

Lemma bits_val_nonneg l : 0 <= bits_val l.
Proof. induction l as [|[] l IH]; simpl; lia. Qed.

Lemma byte_bits_val b : u8_ok b -> bits_val (byte_bits b) = b.
Proof.
  intros Hb. assert (Hall : forallb (fun x => bits_val (byte_bits x) =? x) (Z.of_nat <$> seq 0 256) = true)
    by by vm_compute.
  rewrite forallb_forall in Hall. apply Z.eqb_eq, Hall, list_elem_of_In, list_elem_of_fmap.
  exists (Z.to_nat b). unfold u8_ok in Hb. rewrite elem_of_seq. lia.
Qed.

Lemma mul_bits_spec l res add :
  (foldl mul_bit (res, add) l).1 ≡ point_add res (gmul (bits_val l) add)
  /\ (foldl mul_bit (res, add) l).2 ≡ gmul (2 ^ zlen l) add.
Proof.
  revert res add. induction l as [|b l IH]; intros res add.
  - simpl. by rewrite gmul_0, add_comm, add_identity, gmul_1.
  - cbn [foldl mul_bit]. destruct (IH (if b then point_add res add else res) (point_add add add)) as [-> ->].
    pose proof (bits_val_nonneg l) as Hb.
    assert (Hd : forall k, 0 <= k -> gmul k (point_add add add) ≡ gmul (2 * k) add).
    { intros k Hk. rewrite Z.mul_comm, <- gmul_mul by lia. apply gmul_proper.
      change 2 with (1 + 1). by rewrite gmul_add, gmul_1 by lia. }
    rewrite !Hd by (try apply Z.pow_nonneg; unfold zlen; lia). rewrite zlen_cons.
    split; [|by rewrite Z.pow_add_r by (unfold zlen; lia)].
    cbn [bits_val]. destruct b; [|done].
    rewrite gmul_add, gmul_1 by (simpl; lia). by rewrite add_assoc.
Qed.

Lemma mul_wide_spec P scalar : Forall u8_ok scalar -> mul_wide P scalar ≡ gmul (le_val scalar) P.
Proof.
  intros Hu. unfold mul_wide. rewrite <- (add_identity (gmul _ P)). generalize identity at 1 2. revert P.
  induction Hu as [|b l Hb Hl IH]; intros P res.
  - simpl. by rewrite gmul_0, add_comm, add_identity.
  - cbn [foldl]. destruct (foldl mul_bit (res, P) (byte_bits b)) as [res' add'] eqn:E.
    destruct (mul_bits_spec (byte_bits b) res P) as [E1 E2]. rewrite E in E1, E2. cbn [fst snd] in E1, E2.
    rewrite IH, E1, E2, byte_bits_val by done.
    change (le_val (b :: l)) with (b + 256 * le_val l). pose proof (le_val_bound l Hl). unfold u8_ok in Hb.
    rewrite gmul_mul, <- add_assoc, <- gmul_add by (simpl; lia).
    by rewrite (Z.mul_comm (le_val l)).
Qed.

End mul.

(** ** The exchange *)

(** SHA-512 and [Scalar::from_bytes_mod_order_wide]. *)
Class Hashes := {
  sha512 : bytes -> bytes;
  from_bytes_mod_order_wide : bytes -> bytes;
}.
Class HashesLaws `{Hashes} : Prop := {
  reduce_scalar w : is_scalar (from_bytes_mod_order_wide w);
  reduce_value w : le_val (from_bytes_mod_order_wide w) = le_val w mod L;
}.

Definition ALICE_NAME : bytes := bs "adb pair client" ++ [0].
Definition BOB_NAME : bytes := bs "adb pair server" ++ [0].

Section exchange.
Context {G : Type} `{Edwards G} `{Hashes}.

Record Spake2 : Type := mkSpake {
  role_alice : bool;
  my_name : bytes;
  their_name : bytes;
  password_hash : bytes;
  password_scalar : bytes;
  my_msg : bytes;
  my_msg_point : G;
  private_scalar : bytes;
  generated : bool;
}.

Definition spake_new (alice : bool) (pw : bytes) : Spake2 :=
  let hash := sha512 pw in
  mkSpake alice (if alice then ALICE_NAME else BOB_NAME) (if alice then BOB_NAME else ALICE_NAME)
    hash (adjust (from_bytes_mod_order_wide hash)) (zeros 32) identity (zeros 32) false.

(** [rnd] are the 64 bytes of [/dev/urandom]; [None] is a panic. *)
Definition generate_msg (rnd : bytes) (s : Spake2) : option (bytes * Spake2) :=
  let scalar := left_shift_3 (from_bytes_mod_order_wide rnd) in
  mask_point ← decompress (if role_alice s then M_ENCODED else N_ENCODED);
  let point := point_add (mul_wide basepoint scalar) (mul_wide mask_point (password_scalar s)) in
  let msg := compress point in
  Some (msg, mkSpake (role_alice s) (my_name s) (their_name s) (password_hash s) (password_scalar s)
               msg point scalar true).

(** A field of the transcript: its length as a [u64] and its bytes. *)
Definition lp (data : bytes) : bytes := le_bytes 8 (zlen data) ++ data.

Definition NO_MASK : Error := Protocol (bs "SPAKE2 mask point does not decompress").

Definition process_msg (their_msg : bytes) (s : Spake2) : result Error bytes :=
  if negb (generated s) then Err (Protocol (bs "process before generate"))
  else
    their_point ← ok_or (decompress their_msg) (Protocol (bs "peer point not on curve"));
    their_mask ← ok_or (decompress (if role_alice s then N_ENCODED else M_ENCODED)) NO_MASK;
    let unmasked := point_sub their_point (mul_wide their_mask (password_scalar s)) in
    let dh_encoded := compress (mul_wide unmasked (private_scalar s)) in
    Ok (sha512 (
      (if role_alice s
       then lp (my_name s) ++ lp (their_name s) ++ lp (my_msg s) ++ lp their_msg
       else lp (their_name s) ++ lp (my_name s) ++ lp their_msg ++ lp (my_msg s))
      ++ lp dh_encoded ++ lp (password_hash s))).

Context {GL : EdwardsLaws G} {HL : HashesLaws}.

(** What [generate_msg] leaves: the ephemeral is eight times the reduced
    random number, and the message hides its multiple of the base point. *)
Lemma generate_msg_spec rnd s : is_scalar (password_scalar s) ->
  exists msg s' mask, generate_msg rnd s = Some (msg, s')
  /\ decompress (if role_alice s then M_ENCODED else N_ENCODED) = Some mask
  /\ generated s' = true /\ my_msg s' = msg /\ role_alice s' = role_alice s
  /\ my_name s' = my_name s /\ their_name s' = their_name s
  /\ password_hash s' = password_hash s /\ password_scalar s' = password_scalar s
  /\ le_val (private_scalar s') = 8 * (le_val rnd mod L) /\ is_scalar (private_scalar s')
  /\ exists P, msg = compress P
       /\ P ≡ point_add (gmul (8 * (le_val rnd mod L)) basepoint) (gmul (le_val (password_scalar s)) mask).
Proof.
  intros Hs. unfold generate_msg. destruct masks_decompress as [[PM EM] [PN EN]].
  assert (exists mask, decompress (if role_alice s then M_ENCODED else N_ENCODED) = Some mask) as [mask Em]
    by (destruct (role_alice s); eauto).
  rewrite Em. cbn [mbind option_bind].
  destruct (reduce_scalar rnd) as [Hl Hu].
  destruct (left_shift_3_spec (from_bytes_mod_order_wide rnd) Hu) as (E & Len & U).
  rewrite reduce_value in E. destruct L_facts as (_ & Lpos & L8 & _).
  assert (Hsc : le_val (left_shift_3 (from_bytes_mod_order_wide rnd)) = 8 * (le_val rnd mod L)).
  { rewrite E. unfold zlen. rewrite Hl. apply Z.mod_small. change (8 * Z.of_nat 32) with 256.
    pose proof (Z.mod_pos_bound (le_val rnd) L). lia. }
  eexists _, _, mask. split; [reflexivity|]. simpl. split_and!; try done.
  - split; [unfold zlen in Len; lia|done].
  - eexists. split; [done|]. rewrite !mul_wide_spec by (done || apply Hs). by rewrite Hsc.
Qed.

Lemma new_scalar alice pw : is_scalar (password_scalar (spake_new alice pw)).
Proof.
  simpl. apply adjust_spec; [apply reduce_scalar|]. rewrite reduce_value.
  apply Z.mod_pos_bound. apply L_facts.
Qed.

(** What a peer unmasks is the multiple of the base point by the ephemeral. *)
Lemma unmask P a w mask :
  Forall u8_ok w -> P ≡ point_add (gmul a basepoint) (gmul (le_val w) mask) ->
  point_sub P (mul_wide mask w) ≡ gmul a basepoint.
Proof. intros Hw ->. rewrite mul_wide_spec by done. apply add_sub. Qed.

(** The two sides of a pairing derive the same secret. With the same
    password and any randomness, the client's [process_msg] of the device's
    message and the device's of the client's succeed with the same 64-byte
    value, the hash of one transcript. The password scalar is a multiple of the
    cofactor congruent to the reduced hash, so the assertion on its low bits
    holds, and no scalar overflows 256 bits. *)
Theorem spake2_agree (pw ra rb : bytes) :
  exists amsg bmsg alice bob secret,
  generate_msg ra (spake_new true pw) = Some (amsg, alice)
  /\ generate_msg rb (spake_new false pw) = Some (bmsg, bob)
  /\ zlen amsg = 32 /\ zlen bmsg = 32
  /\ process_msg bmsg alice = Ok secret /\ process_msg amsg bob = Ok secret
  /\ le_val (password_scalar alice) mod 8 = 0
  /\ le_val (password_scalar alice) mod L = le_val (sha512 pw) mod L
  /\ le_val (private_scalar alice) = 8 * (le_val ra mod L).
Proof.
  destruct (generate_msg_spec ra (spake_new true pw) (new_scalar _ _))
    as (amsg & alice & M & Ea & EM & Ga & Ma & Ra & Na & Ta & Ha & Wa & Sa & Ia & P & -> & EP).
  destruct (generate_msg_spec rb (spake_new false pw) (new_scalar _ _))
    as (bmsg & bob & N & Eb & EN & Gb & Mb & Rb & Nb & Tb & Hb & Wb & Sb & Ib & Q & -> & EQ).
  pose proof (new_scalar true pw) as Hw. simpl in *.
  destruct (decompress_compress P) as (P' & DP & EP'). destruct (decompress_compress Q) as (Q' & DQ & EQ').
  assert (Hdh : compress (mul_wide (point_sub Q' (mul_wide N (password_scalar alice))) (private_scalar alice))
      = compress (mul_wide (point_sub P' (mul_wide M (password_scalar bob))) (private_scalar bob))).
  { rewrite Wa, Wb. apply compress_proper.
    rewrite (mul_wide_spec _ (private_scalar alice) (proj2 Ia)), (mul_wide_spec _ (private_scalar bob) (proj2 Ib)).
    rewrite (unmask Q' _ _ N (proj2 Hw) ltac:(by etrans)), (unmask P' _ _ M (proj2 Hw) ltac:(by etrans)).
    rewrite Sa, Sb. pose proof (Z.mod_pos_bound (le_val ra) L ltac:(apply L_facts)).
    pose proof (Z.mod_pos_bound (le_val rb) L ltac:(apply L_facts)).
    rewrite !gmul_mul by lia. by rewrite Z.mul_comm. }
  eexists _, _, alice, bob, _. split; [done|]. split; [done|]. split; [apply compress_len|]. split; [apply compress_len|].
  split; [unfold process_msg; rewrite Ga, DQ, Ra, EN; simpl; reflexivity|]. split.
  - unfold process_msg. rewrite Gb, DP, Rb, EM. simpl. rewrite Hdh, Na, Ta, Nb, Tb, Ma, Mb, Ha, Hb.
    by rewrite <- !app_assoc.
  - rewrite Wa. destruct (adjust_spec (from_bytes_mod_order_wide (sha512 pw))) as (_ & H8 & k & _ & Ek);
      [apply reduce_scalar|rewrite reduce_value; apply Z.mod_pos_bound, L_facts|].
    split_and!; [done| |done]. rewrite Ek, reduce_value, Z.mod_add, Z.mod_mod by (pose proof L_facts; lia). done.
Qed.

End exchange.

(** ** A small instance: the additive group modulo 2^256 *)

Module Small.

#[export] Instance equiv : Equiv Z := fun a b => a mod 2 ^ 256 = b mod 2 ^ 256.
#[export] Instance edwards : Edwards Z := {|
  ge_equiv := equiv; identity := 0; point_add := Z.add; point_sub := Z.sub; basepoint := 9;
  compress := le_bytes 32; decompress l := Some (le_val l) |}.
#[export] Instance hashes : Hashes := {|
  sha512 l := l; from_bytes_mod_order_wide w := le_bytes 32 (le_val w mod L) |}.

Lemma le_bytes_mod n z : le_bytes n (z mod 2 ^ (8 * Z.of_nat n)) = le_bytes n z.
Proof.
  rewrite <- le_val_le_bytes.
  rewrite <- (le_bytes_le_val (le_bytes n z)) at 2 by apply le_bytes_u8. f_equal.
  pose proof (zlen_le_bytes n z). unfold zlen in *. lia.
Qed.

#[export] Instance laws : EdwardsLaws Z.
Proof.
  split; unfold equiv, ge_equiv, point_add, point_sub, identity, compress, decompress, edwards, base.equiv, equiv.
  - split; [done|by intros ? ? ?|by intros ? ? ? -> ].
  - intros a b Hab c d Hcd. by rewrite Z.add_mod, Hab, Hcd, <- Z.add_mod by done.
  - intros a b Hab c d Hcd. by rewrite Zminus_mod, Hab, Hcd, <- Zminus_mod.
  - intros a b Hab. rewrite <- (le_bytes_mod 32 a), <- (le_bytes_mod 32 b). by f_equal.
  - intros. f_equal. lia.
  - intros. f_equal. lia.
  - intros. f_equal.
  - intros. f_equal. lia.
  - intros. by rewrite zlen_le_bytes.
  - intros. eexists. split; [done|]. rewrite le_val_le_bytes. by apply Z.mod_mod.
  - split; eauto.
Qed.

#[export] Instance hash_laws : HashesLaws.
Proof.
  split; intros w.
  - split; [|apply le_bytes_u8]. pose proof (zlen_le_bytes 32 (le_val w mod L)). unfold zlen in *. simpl. lia.
  - simpl. rewrite le_val_le_bytes. apply Z.mod_small.
    pose proof (Z.mod_pos_bound (le_val w) L ltac:(apply L_facts)). pose proof L_facts.
    change (8 * Z.of_nat 32) with 256. lia.
Qed.

End Small.

Section witness.
Import Small.

Lemma spake2_agree_witness :
  exists amsg bmsg (alice bob : Spake2 (G := Z)) secret,
  generate_msg [5; 7] (spake_new true (bs "123456")) = Some (amsg, alice)
  /\ generate_msg [8] (spake_new false (bs "123456")) = Some (bmsg, bob)
  /\ process_msg bmsg alice = Ok secret /\ process_msg amsg bob = Ok secret.
Proof.
  destruct (spake2_agree (bs "123456") [5; 7] [8])
    as (amsg & bmsg & alice & bob & secret & Ea & Eb & _ & _ & Pa & Pb & _).
  exists amsg, bmsg, alice, bob, secret. exact (conj Ea (conj Eb (conj Pa Pb))).
Defined.

End witness.
