(* ===== verification/Pairing.v ===== *)
(** * The pairing client (adb-pairing/src/cipher.rs, client.rs)

    [pair] over the bytes the device will send inside the TLS session and the
    outcomes of the host's writes; the AEAD and HKDF are the class [Aead], the
    TCP connection with the TLS handshake is the argument [tls], its exporter
    or the error. *)

From stdpp Require Import base list strings.
From S2P Require Import Prelude PairPacket Spake2.

(** ** Cipher *)

Class Aead := {
  hkdf_sha256 : bytes -> bytes -> bytes;
  aes_seal : bytes -> bytes -> bytes -> bytes;
  aes_open : bytes -> bytes -> bytes -> option bytes;
}.
Class AeadLaws `{Aead} : Prop := {
  open_seal k n p : aes_open k n (aes_seal k n p) = Some p;
  seal_len k n p : zlen (aes_seal k n p) = zlen p + 16;
}.

Definition HKDF_INFO : bytes := bs "adb pairing_auth aes-128-gcm key".

Section pairing.
Context {G : Type} `{Edwards G} `{Hashes} `{Aead}.

Definition derive_key (shared_secret : bytes) : bytes := hkdf_sha256 shared_secret HKDF_INFO.

Definition nonce (sequence : Z) : bytes := le_bytes 8 sequence ++ zeros 4.

Record PairingCipher : Type := mkCipher { key : bytes; enc_sequence : Z; dec_sequence : Z }.

Definition cipher_new (shared_secret : bytes) : PairingCipher := mkCipher (derive_key shared_secret) 0 0.

Definition encrypt (plaintext : bytes) (c : PairingCipher) : bytes * PairingCipher :=
  (aes_seal (key c) (nonce (enc_sequence c)) plaintext,
   mkCipher (key c) (as_u64 (enc_sequence c + 1)) (dec_sequence c)).

Definition decrypt (ciphertext : bytes) (c : PairingCipher) : result Error bytes * PairingCipher :=
  match aes_open (key c) (nonce (dec_sequence c)) ciphertext with
  | Some p => (Ok p, mkCipher (key c) (enc_sequence c) (as_u64 (dec_sequence c + 1)))
  | None => (Err CodeMismatch, c)
  end.

(** ** Client *)

(** What the device will send and how that ends, the outcomes of the coming
    writes (none left: they succeed), and what was written. *)
Record wires : Type := mkWires {
  inp : bytes;
  inp_end : Error;
  wr : list (option Error);
  sent : list bytes;
}.

Definition PEER_CLOSED : Error := Io (bs "peer closed during pairing").

(** [None] is a panic. *)
Definition C (A : Type) : Type := wires -> option (result Error A * wires).
#[local] Instance C_ret : MRet C := fun A a w => Some (Ok a, w).
#[local] Instance C_bind : MBind C := fun A B k m w =>
  match m w with
  | Some (Ok a, w) => k a w
  | Some (Err e, w) => Some (Err e, w)
  | None => None
  end.
Definition throw {A} (e : Error) : C A := fun w => Some (Err e, w).
Definition lift {A} (r : result Error A) : C A := fun w => Some (r, w).
Definition expect {A} (o : option A) : C A := fun w => (fun a => (Ok a, w)) <$> o.

Definition read_exact (n : Z) : C bytes := fun w =>
  if n <=? zlen (inp w)
  then Some (Ok (ztake n (inp w)), mkWires (zdrop n (inp w)) (inp_end w) (wr w) (sent w))
  else Some (Err (inp_end w), mkWires [] (inp_end w) (wr w) (sent w)).

Definition write_all (buf : bytes) : C unit := fun w =>
  match wr w with
  | Some e :: rest => Some (Err e, mkWires (inp w) (inp_end w) rest (sent w))
  | None :: rest => Some (Ok tt, mkWires (inp w) (inp_end w) rest (sent w ++ [buf]))
  | [] => Some (Ok tt, mkWires (inp w) (inp_end w) [] (sent w ++ [buf]))
  end.

(** A header and its payload. *)
Definition write_packet (kind : Z) (msg : bytes) : C unit :=
  header ← lift (encode_header kind (zlen msg));
  write_all header ;; write_all msg.

Definition read_packet (want : Z) (other : bytes) : C bytes :=
  header_buf ← read_exact HEADER_LEN;
  '(kind, len) ← lift (decode_header header_buf);
  if negb (kind =? want) then throw (Protocol other) else read_exact len.

(** The device's PeerInfo. *)
Definition read_info (cipher : PairingCipher) : C bytes :=
  sealed ← read_packet TYPE_PEER_INFO (bs "expected PeerInfo");
  plain ← lift (decrypt sealed cipher).1;
  if negb (zlen plain =? PEER_INFO_SIZE) then throw (Protocol (bs "PeerInfo has wrong size"))
  else mret plain.

Definition pair (tls : result Error bytes) (password pubkey rnd : bytes) : C bytes :=
  exporter ← lift tls;
  '(msg, spake) ← expect (generate_msg (G := G) rnd (spake_new true (password ++ exporter)));
  write_packet TYPE_SPAKE2_MSG msg ;;
  their_msg ← read_packet TYPE_SPAKE2_MSG (bs "expected a SPAKE2 message");
  if negb (zlen their_msg =? 32) then throw (Protocol (bs "SPAKE2 message has wrong size"))
  else
    shared ← lift (process_msg their_msg spake);
    ours ← lift (peer_info pubkey);
    let '(sealed, cipher) := encrypt ours (cipher_new shared) in
    write_packet TYPE_PEER_INFO sealed ;; read_info cipher.

(** ** The device's side *)

Definition packet (kind : Z) (msg : bytes) : bytes :=
  match encode_header kind (zlen msg) with Ok h => h ++ msg | Err _ => [] end.

(** A device that knows the same password: what it sends after the client's
    message, and its cipher after that. *)
Definition device_answer (pw rnd info amsg : bytes) : option (bytes * PairingCipher) :=
  '(bmsg, bob) ← generate_msg (G := G) rnd (spake_new false pw);
  secret ← ok (process_msg amsg bob);
  let '(sealed, c) := encrypt info (cipher_new secret) in
  Some (packet TYPE_SPAKE2_MSG bmsg ++ packet TYPE_PEER_INFO sealed, c).

Context {GL : EdwardsLaws G} {HL : HashesLaws} {AL : AeadLaws}.

Lemma bind_some {A B} (m : C A) (f : A -> C B) w a w' : m w = Some (Ok a, w') -> (m ≫= f) w = f a w'.
Proof. intros E. unfold mbind, C_bind. by rewrite E. Qed.

Lemma write_packet_ok kind msg w : kind = TYPE_SPAKE2_MSG \/ kind = TYPE_PEER_INFO ->
  0 < zlen msg <= MAX_PAYLOAD -> wr w = [] ->
  exists h, encode_header kind (zlen msg) = Ok h /\
  write_packet kind msg w = Some (Ok tt, mkWires (inp w) (inp_end w) [] (sent w ++ [h; msg])).
Proof.
  intros Hk Hl Hw. destruct (decode_encode_header kind (zlen msg) Hk Hl) as (h & E & Lh & D). exists h.
  split; [done|]. unfold write_packet. rewrite E. unfold write_all, lift, mbind, C_bind. simpl. rewrite Hw. simpl.
  by rewrite <- app_assoc.
Qed.

Lemma read_packet_ok kind other msg rest w : kind = TYPE_SPAKE2_MSG \/ kind = TYPE_PEER_INFO ->
  0 < zlen msg <= MAX_PAYLOAD -> inp w = packet kind msg ++ rest ->
  read_packet kind other w = Some (Ok msg, mkWires rest (inp_end w) (wr w) (sent w)).
Proof.
  intros Hk Hl Hw. destruct (decode_encode_header kind (zlen msg) Hk Hl) as (h & E & Lh & D).
  unfold packet in Hw. rewrite E in Hw. unfold read_packet, read_exact, lift, mbind, C_bind. cbv beta. rewrite Hw.
  rewrite <- app_assoc. rewrite (proj2 (Z.leb_le _ _)) by (rewrite !zlen_app, Lh; pose proof (zlen_nonneg rest); lia).
  cbv beta iota. rewrite ztake_app, D by done. cbv beta iota. rewrite Z.eqb_refl. simpl negb. cbv iota. cbn [inp].
  rewrite zdrop_app_exact by done. cbv beta iota delta [negb]. cbn [inp inp_end wr sent]. rewrite (proj2 (Z.leb_le _ _)) by (rewrite zlen_app; pose proof (zlen_nonneg rest); lia).
  by rewrite ztake_app, zdrop_app_exact by done.
Qed.

(** The client up to the point where it waits for the device's PeerInfo. *)
Lemma pair_until_info exporter password pubkey rnd amsg alice their secret ours rest e :
  generate_msg (G := G) rnd (spake_new true (password ++ exporter)) = Some (amsg, alice) ->
  zlen amsg = 32 -> zlen their = 32 -> process_msg their alice = Ok secret -> peer_info pubkey = Ok ours ->
  exists h1 h2, pair (Ok exporter) password pubkey rnd (mkWires (packet TYPE_SPAKE2_MSG their ++ rest) e [] [])
    = read_info (mkCipher (derive_key secret) 1 0)
        (mkWires rest e [] [h1; amsg; h2; aes_seal (derive_key secret) (nonce 0) ours]).
Proof.
  intros Ea La Lt Es Eo. pose proof (peer_info_size _ _ Eo) as Lo. set (w0 := mkWires _ e [] []).
  destruct (write_packet_ok TYPE_SPAKE2_MSG amsg w0) as (h1 & E1 & W1); [by left|by rewrite La|done|].
  set (w1 := mkWires _ _ _ _) in W1.
  pose proof (read_packet_ok TYPE_SPAKE2_MSG (bs "expected a SPAKE2 message") their rest w1
    ltac:(by left) ltac:(by rewrite Lt) eq_refl) as R1. set (w2 := mkWires _ _ _ _) in R1.
  destruct (write_packet_ok TYPE_PEER_INFO (aes_seal (derive_key secret) (nonce 0) ours) w2) as (h2 & E2 & W2);
    [by right|by rewrite seal_len, Lo|done|].
  exists h1, h2. unfold pair. erewrite bind_some by reflexivity.
  erewrite bind_some by (unfold expect; rewrite Ea; reflexivity).
  cbv beta iota. erewrite bind_some by exact W1. erewrite bind_some by exact R1.
  rewrite Lt. cbn [Z.eqb Pos.eqb negb]. erewrite bind_some by (unfold lift; rewrite Es; reflexivity).
  erewrite bind_some by (unfold lift; rewrite Eo; reflexivity). cbn [encrypt cipher_new key enc_sequence dec_sequence].
  erewrite bind_some by exact W2. reflexivity.
Qed.

(** C16: Pairing with a device that knows the code succeeds on both sides.
    Whatever the randomness of the two sides, when the device answers with
    the SPAKE2 message and the sealed PeerInfo of the same password and TLS session, [pair]
    returns exactly that PeerInfo; the second packet it sent opens under the
    device's cipher to the record of the host's public key, and the
    device reads that key out of it. *)
Theorem pair_succeeds (exporter password pubkey rnd rndb info rest : bytes) (e : Error) :
  zlen info = PEER_INFO_SIZE -> zlen pubkey < PEER_INFO_SIZE - 1 -> ~ last pubkey = Some 0 ->
  exists amsg answer c, (exists alice, generate_msg (G := G) rnd (spake_new true (password ++ exporter)) = Some (amsg, alice))
  /\ device_answer (password ++ exporter) rndb info amsg = Some (answer, c)
  /\ exists h1 h2 sealed ours,
     pair (Ok exporter) password pubkey rnd (mkWires (answer ++ rest) e [] [])
       = Some (Ok info, mkWires rest e [] [h1; amsg; h2; sealed])
     /\ (decrypt sealed c).1 = Ok ours /\ parse_peer_info ours = Ok (0, pubkey).
Proof.
  intros Hinfo Hlen Hlast.
  destruct (spake2_agree (G := G) (password ++ exporter) rnd rndb)
    as (amsg & bmsg & alice & bob & secret & Ea & Eb & La & Lb & Pa & Pb & _).
  destruct (parse_peer_info_roundtrip pubkey Hlen Hlast) as (ours & Eo & Epo).
  pose proof (peer_info_size _ _ Eo) as Lo.
  set (bsealed := aes_seal (derive_key secret) (nonce 0) info).
  assert (LB : 0 < zlen bsealed <= MAX_PAYLOAD) by (unfold bsealed; rewrite seal_len, Hinfo; done).
  destruct (pair_until_info exporter password pubkey rnd amsg alice bmsg secret ours
    (packet TYPE_PEER_INFO bsealed ++ rest) e Ea La Lb Pa Eo) as (h1 & h2 & Hrun).
  exists amsg, (packet TYPE_SPAKE2_MSG bmsg ++ packet TYPE_PEER_INFO bsealed), (mkCipher (derive_key secret) 1 0).
  split; [eauto|]. split.
  { unfold device_answer. rewrite Eb. cbn [mbind option_bind]. by rewrite Pb. }
  eexists h1, h2, _, ours. split_and!; [|unfold decrypt; cbn [key dec_sequence]; by rewrite open_seal|done].
  rewrite <- app_assoc, Hrun. unfold read_info.
  erewrite bind_some by (apply read_packet_ok; [by right|exact LB|reflexivity]).
  erewrite bind_some by (unfold lift, decrypt; cbn [key dec_sequence]; unfold bsealed; rewrite open_seal; reflexivity).
  by rewrite Hinfo.
Qed.

Lemma bind_ok {A B} (m : C A) (f : A -> C B) w b w' :
  (m ≫= f) w = Some (Ok b, w') -> exists a w1, m w = Some (Ok a, w1) /\ f a w1 = Some (Ok b, w').
Proof. unfold mbind, C_bind. destruct (m w) as [[[a|e] w1]|]; naive_solver. Qed.

Lemma lift_ok {A} (r : result Error A) w a w' : lift r w = Some (Ok a, w') -> r = Ok a /\ w' = w.
Proof. unfold lift. naive_solver. Qed.

Lemma read_exact_ok n w d w' : read_exact n w = Some (Ok d, w') -> 0 <= n ->
  inp w = d ++ inp w' /\ zlen d = n /\ sent w' = sent w.
Proof.
  unfold read_exact. case_bool; [|done]. intros [= <- <-] Hn. bool_to_prop. cbn [inp sent].
  split_and!; [by rewrite ztake_zdrop|rewrite zlen_ztake; lia|done].
Qed.

Lemma write_packet_sent kind msg w u w' : write_packet kind msg w = Some (Ok u, w') ->
  inp w' = inp w /\ exists h, encode_header kind (zlen msg) = Ok h /\ sent w' = sent w ++ [h; msg].
Proof.
  assert (Hall : forall b w u w', write_all b w = Some (Ok u, w') -> inp w' = inp w /\ sent w' = sent w ++ [b]).
  { intros b v x v'. unfold write_all. destruct (wr v) as [|[e|] ?]; naive_solver. }
  intros (h & w1 & [Hh ->]%lift_ok & Hp)%bind_ok. apply bind_ok in Hp as (x & w2 & [E1 F1]%Hall & [E2 F2]%Hall).
  split; [congruence|]. exists h. split; [done|]. by rewrite F2, F1, <- app_assoc.
Qed.

Lemma decode_header_len h kind len : decode_header h = Ok (kind, len) -> Forall u8_ok h -> 0 <= len.
Proof.
  unfold decode_header. intros Hd Hu. repeat (revert Hd; case_bool; intros Hd); simplify_eq.
  unfold be_val. apply le_val_bound, Forall_reverse. unfold slice, ztake, zdrop. by apply Forall_take, Forall_drop.
Qed.

Lemma generate_msg_len rnd pw msg s : generate_msg (G := G) rnd (spake_new true pw) = Some (msg, s) -> zlen msg = 32.
Proof.
  intros E. destruct (generate_msg_spec (G := G) rnd (spake_new true pw) (new_scalar _ _))
    as (m & s' & M & E' & _ & _ & _ & _ & _ & _ & _ & _ & _ & _ & Q & EQ & _).
  rewrite E in E'. injection E' as -> ->. rewrite EQ. apply compress_len.
Qed.

(** A packet that was read is the next of the stream: its header and its payload. *)
Lemma read_packet_got want other w msg w' : read_packet want other w = Some (Ok msg, w') -> Forall u8_ok (inp w) ->
  sent w' = sent w /\ exists h, zlen h = HEADER_LEN /\ decode_header h = Ok (want, zlen msg) /\ inp w = h ++ msg ++ inp w'.
Proof.
  intros (h & w1 & Hh & Hp)%bind_ok Hu. apply read_exact_ok in Hh as (E1 & L1 & F1); [|done].
  apply bind_ok in Hp as ([kind len] & w2 & [Hd ->]%lift_ok & Hp). cbv beta iota in Hp. revert Hp. case_bool; [done|]. bool_to_prop.
  intros Hm. apply read_exact_ok in Hm as (E2 & L2 & F2); [|eapply decode_header_len; [exact Hd|]; rewrite E1 in Hu; by apply Forall_app in Hu as [? _]].
  split; [congruence|]. exists h. split_and!; [done|congruence|congruence].
Qed.

(** C38: Nothing unauthenticated is accepted. Whatever the device sends, when [pair] returns a
    PeerInfo, the bytes it has read are exactly two packets, a SPAKE2 message of 32 bytes and a
    sealed text, and what it returns, 8192 bytes, is what this text opens to, with
    the first nonce, under the key derived from the secret of that message and
    of the password with this TLS session; the host's record was sent sealed
    under the same key. When the text a device sends does
    not open under that key, as with another code, the answer is a code mismatch. *)
Theorem pair_authenticated (tls : result Error bytes) (password pubkey rnd : bytes) :
  (forall w info w', Forall u8_ok (inp w) -> pair tls password pubkey rnd w = Some (Ok info, w') ->
     zlen info = PEER_INFO_SIZE
     /\ exists exporter amsg alice h1 their secret h2 sealed g1 g2 ours, tls = Ok exporter
     /\ generate_msg (G := G) rnd (spake_new true (password ++ exporter)) = Some (amsg, alice)
     /\ inp w = h1 ++ their ++ h2 ++ sealed ++ inp w'
     /\ zlen h1 = HEADER_LEN /\ decode_header h1 = Ok (TYPE_SPAKE2_MSG, zlen their) /\ zlen their = 32
     /\ zlen h2 = HEADER_LEN /\ decode_header h2 = Ok (TYPE_PEER_INFO, zlen sealed)
     /\ process_msg their alice = Ok secret
     /\ aes_open (derive_key secret) (nonce 0) sealed = Some info
     /\ peer_info pubkey = Ok ours
     /\ sent w' = sent w ++ [g1; amsg; g2; aes_seal (derive_key secret) (nonce 0) ours])
  /\ (forall exporter amsg alice their secret sealed rest e, tls = Ok exporter ->
     zlen pubkey < PEER_INFO_SIZE - 1 -> ~ last pubkey = Some 0 ->
     generate_msg (G := G) rnd (spake_new true (password ++ exporter)) = Some (amsg, alice) ->
     zlen their = 32 -> process_msg their alice = Ok secret ->
     0 < zlen sealed <= MAX_PAYLOAD -> aes_open (derive_key secret) (nonce 0) sealed = None ->
     exists w', pair tls password pubkey rnd
         (mkWires (packet TYPE_SPAKE2_MSG their ++ packet TYPE_PEER_INFO sealed ++ rest) e [] [])
       = Some (Err CodeMismatch, w')).
Proof.
  split.
  - intros w info w' Hu (exporter & w1 & [-> ->]%lift_ok & Hp)%bind_ok.
    apply bind_ok in Hp as ([amsg alice] & w2 & Hg & Hp). unfold expect in Hg.
    destruct (generate_msg rnd _) as [[amsg' alice']|] eqn:Eg; [|done]. simplify_eq/=.
    apply bind_ok in Hp as (u & w3 & (I1 & g1 & _ & S1)%write_packet_sent & Hp).
    apply bind_ok in Hp as (their & w4 & Hr & Hp). rewrite <- I1 in Hu.
    apply read_packet_got in Hr as (S2 & h1 & L1 & D1 & I2); [|done]. rewrite I2, !Forall_app in Hu. destruct Hu as (_ & _ & Hu).
    revert Hp. case_bool; [done|]. bool_to_prop. intros Hp.
    apply bind_ok in Hp as (secret & w5 & [Hs ->]%lift_ok & Hp). apply bind_ok in Hp as (ours & w6 & [Ho ->]%lift_ok & Hp).
    apply bind_ok in Hp as (u' & w7 & (I3 & g2 & _ & S3)%write_packet_sent & Hp).
    apply bind_ok in Hp as (sealed & w8 & Hr & Hp). rewrite <- I3 in Hu.
    apply read_packet_got in Hr as (S4 & h2 & L2 & D2 & I4); [|done].
    apply bind_ok in Hp as (plain & w9 & [Hd ->]%lift_ok & Hp). revert Hp. case_bool; [done|]. bool_to_prop.
    unfold mret, C_ret. intros [= <- <-]. split; [done|].
    unfold decrypt in Hd. cbn [key dec_sequence] in Hd. case_match eqn:Hop; simplify_eq/=.
    exists exporter, amsg, alice, h1, their, secret, h2, sealed, g1, g2, ours. split_and!; try done.
    + by rewrite <- I1, I2, <- I3, I4.
    + by rewrite S4, S3, S2, S1, <- app_assoc.
  - intros exporter amsg alice their secret sealed rest e -> Hlen Hlast Ea Lt Es Ls Ho.
    destruct (parse_peer_info_roundtrip pubkey Hlen Hlast) as (ours & Eo & _).
    assert (La : zlen amsg = 32) by (by eapply generate_msg_len).
    destruct (pair_until_info exporter password pubkey rnd amsg alice their secret ours
      (packet TYPE_PEER_INFO sealed ++ rest) e Ea La Lt Es Eo) as (h1 & h2 & ->).
    eexists. unfold read_info. erewrite bind_some by (apply read_packet_ok; [by right|exact Ls|reflexivity]).
    unfold lift, decrypt, mbind, C_bind. cbn [key dec_sequence]. rewrite Ho. reflexivity.
Qed.

(** A device that closes after its SPAKE2 message, which is what one that
    refuses the code does, is reported as an I/O error and not as the code
    mismatch the comment of error.rs promises. *)
Theorem refusal_is_io_error (password pubkey rnd exporter : bytes) (P : G) :
  zlen pubkey < PEER_INFO_SIZE - 1 -> ~ last pubkey = Some 0 ->
  exists w', pair (Ok exporter) password pubkey rnd (mkWires (packet TYPE_SPAKE2_MSG (compress P)) PEER_CLOSED [] [])
    = Some (Err PEER_CLOSED, w').
Proof.
  intros Hlen Hlast.
  destruct (generate_msg_spec (G := G) rnd (spake_new true (password ++ exporter)) (new_scalar _ _))
    as (amsg & alice & M & Ea & EM & Ga & _ & Ra & _ & _ & _ & _ & _ & _ & Q & Eq & _).
  destruct (decompress_compress P) as (P' & DP & _).
  assert (exists secret, process_msg (compress P) alice = Ok secret) as [secret Es].
  { unfold process_msg. rewrite Ga, DP, Ra. destruct masks_decompress as [_ [N EN]]. simpl. rewrite EN. by eexists. }
  destruct (parse_peer_info_roundtrip pubkey Hlen Hlast) as (ours & Eo & _).
  destruct (pair_until_info exporter password pubkey rnd amsg alice (compress P) secret ours [] PEER_CLOSED
    Ea ltac:(rewrite Eq; apply compress_len) (compress_len P) Es Eo) as (h1 & h2 & Hrun).
  rewrite app_nil_r in Hrun. rewrite Hrun. by eexists.
Qed.

End pairing.

(** ** A small instance *)

Module SmallAead.

#[export] Instance aead : Aead := {|
  hkdf_sha256 secret _ := ztake 16 secret; aes_seal _ _ p := p ++ zeros 16;
  aes_open _ _ c := if 16 <=? zlen c then Some (ztake (zlen c - 16) c) else None |}.
#[export] Instance laws : AeadLaws.
Proof.
  split; intros k n p.
  - unfold aes_open, aes_seal, aead. rewrite zlen_app. change (zlen (zeros 16)) with 16.
    rewrite (proj2 (Z.leb_le _ _)) by (pose proof (zlen_nonneg p); lia). by rewrite ztake_app by lia.
  - unfold aes_seal, aead. by rewrite zlen_app.
Qed.

End SmallAead.

Section witness.
Import Small SmallAead.

Definition host_key : bytes := bs "QUJD ann@box".

Lemma pair_succeeds_witness :
  exists amsg answer c h1 h2 sealed,
  device_answer (G := Z) (bs "123456" ++ [1; 2]) [4] (zeros 8192) amsg = Some (answer, c)
  /\ pair (G := Z) (Ok [1; 2]) (bs "123456") host_key [3] (mkWires (answer ++ []) Timeout [] [])
       = Some (Ok (zeros 8192), mkWires [] Timeout [] [h1; amsg; h2; sealed]).
Proof.
  destruct (pair_succeeds (G := Z) [1; 2] (bs "123456") host_key [3] [4] (zeros 8192) [] Timeout)
    as (amsg & answer & c & _ & Hd & h1 & h2 & sealed & ours & Hp & _); [by unfold zeros; rewrite zlen_replicate|done|done|].
  exists amsg, answer, c, h1, h2, sealed. exact (conj Hd Hp).
Defined.

(** The sealed text is too short for a tag. *)
Lemma pair_authenticated_witness :
  exists amsg alice secret w', generate_msg (G := Z) [3] (spake_new true (bs "123456" ++ [1; 2])) = Some (amsg, alice)
  /\ process_msg (compress 77) alice = Ok secret
  /\ pair (G := Z) (Ok [1; 2]) (bs "123456") host_key [3]
       (mkWires (packet TYPE_SPAKE2_MSG (compress 77) ++ packet TYPE_PEER_INFO [5; 6] ++ []) PEER_CLOSED [] [])
     = Some (Err CodeMismatch, w').
Proof.
  destruct (generate_msg (G := Z) [3] (spake_new true (bs "123456" ++ [1; 2]))) as [[amsg alice]|] eqn:Ea; [|by vm_compute in Ea].
  destruct (process_msg (compress 77) alice) as [secret|e] eqn:Es; [|by vm_compute in Ea; simplify_eq; vm_compute in Es].
  destruct (proj2 (pair_authenticated (G := Z) (Ok [1; 2]) (bs "123456") host_key [3]) [1; 2] amsg alice (compress 77)
    secret [5; 6] [] PEER_CLOSED eq_refl ltac:(done) ltac:(done) Ea ltac:(done) Es ltac:(done) ltac:(done)) as [w' Hp].
  exists amsg, alice, secret, w'. exact (conj eq_refl (conj Es Hp)).
Defined.

End witness.
