(* ===== verification/Mdns.v ===== *)
(** * Service discovery (adb-pairing/src/mdns.rs)

    The DNS name and record codecs, with the position kept in the message
    (advanced also by a read that fails) and panics, and the discovery loop
    over the datagrams that arrive before the deadline. *)

From stdpp Require Import base list gmap strings.
From S2P Require Import Prelude RustStd Text PairPacket.

Definition PAIRING_TYPE : bytes := bs "_adb-tls-pairing._tcp.local".
Definition CONNECT_TYPE : bytes := bs "_adb-tls-connect._tcp.local".

(** An IPv4 address: its four bytes. *)
Record ServiceEndpoint : Type := mkEndpoint {
  ep_instance : bytes;
  ep_host : bytes;
  ep_ip : bytes;
  ep_port : Z;
  ep_txt : gmap bytes bytes;
}.

(** ** Names *)

Definition write_name (name : bytes) : bytes :=
  concat ((fun label => match label with [] => [] | _ => as_u8 (zlen label) :: label end) <$> split_on 46 name)
  ++ [0].

Definition build_query (query_id : Z) (service_type : bytes) : bytes :=
  be_bytes 2 query_id ++ [0; 0] ++ [0; 1] ++ [0; 0] ++ [0; 0] ++ [0; 0]
  ++ write_name service_type ++ [0; 0x0C] ++ [0x80; 1].

(** [msg.get(i..i + n)] *)
Definition get (msg : bytes) (i n : Z) : option bytes := get_range msg i n.

(** A read: the position after it and what it returned. *)
Definition read_result : Type := Z * result Error bytes.

Definition overrun (what : bytes) : Error := Protocol what.

(** The loop of [read_name_depth], with [deeper] for the recursive call; each
    round advances at least one byte, so the length of the message bounds
    them and [None], out of fuel, does not occur. *)
Fixpoint read_labels (fuel : nat) (deeper : Z -> option read_result) (msg : bytes) (off : Z) (parts : list bytes)
    : option read_result :=
  match fuel with
  | O => None
  | S fuel =>
      match zget msg off with
      | None => Some (off, Err (overrun (bs "dns name overrun")))
      | Some len =>
          let off := off + 1 in
          if len =? 0 then Some (off, Ok (join [46] parts))
          else if Z.land len 0xC0 =? 0xC0 then
            match zget msg off with
            | None => Some (off, Err (overrun (bs "dns ptr overrun")))
            | Some lo =>
                let off := off + 1 in
                let ptr := Z.lor (Z.shiftl (Z.land len 0x3F) 8) lo in
                if ptr >=? zlen msg then Some (off, Err (Protocol (bs "dns ptr out of bounds")))
                else
                  '(_, r) ← deeper ptr;
                  Some (off, match r with
                             | Err e => Err e
                             | Ok suffix =>
                                 match suffix with
                                 | [] => Ok (join [46] parts)
                                 | _ =>
                                     let all := join [46] parts in
                                     Ok ((match all with [] => [] | _ => all ++ [46] end) ++ suffix)
                                 end
                             end)
            end
          else
            match get msg off len with
            | None => Some (off, Err (overrun (bs "dns label overrun")))
            | Some label => read_labels fuel deeper msg (off + len) (parts ++ [from_utf8_lossy label])
            end
      end
  end.

(** [depth] levels are left before the recursion limit. *)
Fixpoint read_name_depth (depth : nat) (msg : bytes) (off : Z) : option read_result :=
  match depth with
  | O => Some (off, Err (Protocol (bs "dns compression loop or recursion limit")))
  | S depth => read_labels (S (length msg)) (read_name_depth depth msg) msg off []
  end.

Definition read_name (msg : bytes) (off : Z) : option read_result := read_name_depth 11 msg off.

(** ** Records *)

Inductive Record_ : Type :=
| Ptr (target : bytes)
| Srv (target : bytes) (port : Z)
| Txt (strings : list bytes)
| A (ip : bytes).

Definition be16 (hi lo : Z) : Z := 256 * hi + lo.
Definition byte_at (msg : bytes) (i : Z) : Z := default 0 (zget msg i).

(** [while p < rdata_end]: the strings of a TXT record. *)
Fixpoint txt_strings (fuel : nat) (msg : bytes) (p rdata_end : Z) : list bytes :=
  match fuel with
  | O => []
  | S fuel =>
      if p <? rdata_end then
        let slen := byte_at msg p in
        from_utf8_lossy (default [] (get msg (p + 1) slen)) :: txt_strings fuel msg (p + 1 + slen) rdata_end
      else []
  end.

(** The outcome of a step of the parser: go on, return, or an index out of
    bounds. *)
Inductive parsed (X : Type) : Type := More (x : X) | Stop | Panic.
Arguments More {X} x.
Arguments Stop {X}.
Arguments Panic {X}.

Definition name_ok (r : option read_result) : option bytes * Z :=
  match r with Some (off, Ok n) => (Some n, off) | Some (off, Err _) => (None, off) | None => (None, 0) end.

(** The data of a record of type [rtype] at [off]: the record and the new
    position. *)
Definition parse_rdata (msg : bytes) (rtype rdlen off : Z) : parsed (option Record_ * Z) :=
  let rdata_end := off + rdlen in
  if rtype =? 12 then
    let '(n, off) := name_ok (read_name msg off) in More (Ptr <$> n, off)
  else if rtype =? 33 then
    let port := be16 (byte_at msg (off + 4)) (byte_at msg (off + 5)) in
    let '(n, off) := name_ok (read_name msg (off + 6)) in More ((fun t => Srv t port) <$> n, off)
  else if rtype =? 16 then
    More (Some (Txt (txt_strings (Z.to_nat rdlen) msg off rdata_end)), rdata_end)
  else if (rtype =? 1) && (rdlen =? 4) then
    match get msg off 4 with
    | Some ip => More (Some (A ip), rdata_end)
    | None => Panic
    end
  else More (None, rdata_end).

Definition parse_record (msg : bytes) (off : Z) : parsed (option (bytes * Record_) * Z) :=
  match name_ok (read_name msg off) with
  | (None, _) => Stop
  | (Some owner, off) =>
      match get msg off 10 with
      | None => Stop
      | Some hdr =>
          let rtype := be16 (byte_at hdr 0) (byte_at hdr 1) in
          let rdlen := be16 (byte_at hdr 8) (byte_at hdr 9) in
          match parse_rdata msg rtype rdlen (off + 10) with
          | More (r, off) => More ((pair owner) <$> r, off)
          | Stop => Stop
          | Panic => Panic
          end
      end
  end.

(** [None] is a panic. *)
Fixpoint parse_records (n : nat) (msg : bytes) (off : Z) (out : list (bytes * Record_))
    : option (list (bytes * Record_)) :=
  match n with
  | O => Some out
  | S n =>
      match parse_record msg off with
      | More (r, off) => parse_records n msg off (out ++ option_list r)
      | Stop => Some out
      | Panic => None
      end
  end.

Fixpoint skip_questions (n : nat) (msg : bytes) (off : Z) : option Z :=
  match n with
  | O => Some off
  | S n =>
      match name_ok (read_name msg off) with
      | (None, _) => None
      | (Some _, off) => skip_questions n msg (off + 4)
      end
  end.

Definition parse_response (msg : bytes) : option (list (bytes * Record_)) :=
  if zlen msg <? 12 then Some []
  else
    let counts i := be16 (byte_at msg i) (byte_at msg (i + 1)) in
    match skip_questions (Z.to_nat (counts 4)) msg 12 with
    | None => Some []
    | Some off => parse_records (Z.to_nat (counts 6 + counts 8 + counts 10)) msg off []
    end.

(** ** Discovery *)

Record tables : Type := mkTables {
  ptrs : gset bytes;
  srvs : gmap bytes (bytes * Z);
  txts : gmap bytes (gmap bytes bytes);
  addrs : gmap bytes bytes;
}.
Definition no_tables : tables := mkTables ∅ ∅ ∅ ∅.

Definition service_instance_name (service_type target : bytes) : bytes :=
  default target (strip_suffix ([46] ++ service_type) target).

Definition wanted (service_type : bytes) (instance : option bytes) (target : bytes) : bool :=
  match instance with
  | None => true
  | Some want => bool_decide (service_instance_name service_type target = want)
  end.

Definition txt_map (strings : list bytes) : gmap bytes bytes :=
  foldl (fun m s => match split_once [61] s with Some (k, v) => <[k := v]> m | None => m end) ∅ strings.

Definition absorb (service_type : bytes) (instance : option bytes) (t : tables) (r : bytes * Record_) : tables :=
  let '(owner, record) := r in
  match record with
  | Ptr target =>
      if wanted service_type instance target
      then mkTables (ptrs t ∪ {[target]}) (srvs t) (txts t) (addrs t) else t
  | Srv target port => mkTables (ptrs t) (<[target := (target, port)]> (srvs t)) (txts t) (addrs t)
  | Txt strings => mkTables (ptrs t) (srvs t) (<[owner := txt_map strings]> (txts t)) (addrs t)
  | A ip => mkTables (ptrs t) (srvs t) (txts t) (<[owner := ip]> (addrs t))
  end.

(** The loop over [ptrs.keys()]; a wanted target that cannot be resolved ends
    it. *)
Fixpoint resolve_keys (service_type : bytes) (instance : option bytes) (t : tables) (keys : list bytes)
    : option ServiceEndpoint :=
  match keys with
  | [] => None
  | target :: keys =>
      if wanted service_type instance target then
        '(host, port) ← srvs t !! target;
        ip ← addrs t !! host;
        Some (mkEndpoint (service_instance_name service_type target) host ip port (default ∅ (txts t !! target)))
      else resolve_keys service_type instance t keys
  end.

(** [order] is the order in which the map is iterated. *)
Definition resolve (order : gset bytes -> list bytes) (service_type : bytes) (instance : option bytes) (t : tables)
    : option ServiceEndpoint := resolve_keys service_type instance t (order (ptrs t)).

(** The datagrams of the rounds before the deadline ([None]: none came);
    the outer [None] is a panic. *)
Fixpoint discover (order : gset bytes -> list bytes) (service_type : bytes) (instance : option bytes)
    (received : list (option bytes)) (t : tables) : option (result Error ServiceEndpoint) :=
  match received with
  | [] => Some (Err Timeout)
  | None :: received => discover order service_type instance received t
  | Some datagram :: received =>
      records ← parse_response (ztake 4096 datagram);
      let t := foldl (absorb service_type instance) t records in
      match resolve order service_type instance t with
      | Some ep => Some (Ok ep)
      | None => discover order service_type instance received t
      end
  end.

(** ** Reading a name ends *)

Lemma zget_some {X} (l : list X) i x : zget l i = Some x -> 0 <= i < zlen l /\ x ∈ l.
Proof.
  unfold zget. case_match eqn:E; [done|]. bool_to_prop. intros Hx. split; [|by eapply list_elem_of_lookup_2].
  apply lookup_lt_Some in Hx. unfold zlen. lia.
Qed.

Lemma read_labels_total deeper msg fuel off parts :
  (forall o, 0 <= o -> deeper o <> None) -> 0 <= off -> Forall u8_ok msg ->
  Z.max 0 (zlen msg - off) < Z.of_nat fuel -> read_labels fuel deeper msg off parts <> None.
Proof.
  intros Hd. revert off parts. induction fuel as [|fuel IH]; intros off parts Ho Hu Hf; [lia|].
  cbn [read_labels]. destruct (zget msg off) as [len|] eqn:El; [|done].
  apply zget_some in El as [Hr Hin]. rewrite Forall_forall in Hu. pose proof (Hu _ Hin) as Hlen. unfold u8_ok in Hlen.
  destruct (len =? 0) eqn:E0; [done|]. bool_to_prop. destruct (Z.land len 0xC0 =? 0xC0).
  - destruct (zget msg (off + 1)) as [lo|] eqn:E1; [|done]. case_bool; [done|].
    apply zget_some in E1 as [_ Hin1]. pose proof (Hu _ Hin1) as Hlo. unfold u8_ok in Hlo.
    destruct (deeper _) as [[o r]|] eqn:E; [done|]. exfalso. apply Hd in E; [done|].
    apply Z.lor_nonneg. split; [|lia]. apply Z.shiftl_nonneg, Z.land_nonneg. lia.
  - destruct (get msg (off + 1) len); [|done]. apply IH; [lia|by apply Forall_forall|lia].
Qed.

(** Every name is read in at most eleven levels, each at most the length of
    the message long: the fuel is enough, also for a message whose pointers form
    a cycle. *)
Lemma read_name_depth_total depth msg off : 0 <= off -> Forall u8_ok msg -> read_name_depth depth msg off <> None.
Proof.
  intros Ho Hu. revert off Ho. induction depth as [|depth IH]; intros off Ho; [done|].
  cbn [read_name_depth]. apply read_labels_total; [done|done|done|unfold zlen; lia].
Qed.

(** ** Names round trip *)

(** A label DNS can carry, as text. *)
Definition is_label (l : bytes) : Prop :=
  0 < zlen l < 64 /\ Forall (fun b => b <> 46) l /\ utf8_valid l = true.

Definition print_label (l : bytes) : bytes := zlen l :: l.

Lemma write_name_labels ls : ls <> [] -> Forall is_label ls ->
  write_name (join [46] ls) = concat (print_label <$> ls) ++ [0].
Proof.
  intros Hne Hls. unfold write_name. rewrite split_join; [|done|by eapply Forall_impl; [done|]; intros ? (_ & ? & _)].
  f_equal. f_equal. apply list_fmap_ext. intros i l Hi. pose proof (Forall_lookup_1 _ _ _ _ Hls Hi) as (Hl & _).
  destruct l as [|b l]; [change (0 < 0 < 64) in Hl; lia|]. unfold print_label, as_u8. by rewrite Z.mod_small by lia.
Qed.

Lemma zget_app {X} (l k : list X) i : zlen l <= i -> zget (l ++ k) i = zget k (i - zlen l).
Proof.
  intros Hi. unfold zget, zlen in *. rewrite !(proj2 (Z.ltb_ge _ _)) by lia.
  rewrite lookup_app_r by lia. f_equal. lia.
Qed.

Lemma get_app pre l post off n : zlen pre = off -> zlen l = n -> get (pre ++ l ++ post) off n = Some l.
Proof.
  intros <- <-. unfold get, get_range. pose proof (zlen_nonneg post).
  rewrite (proj2 (Z.leb_le _ _)) by (rewrite !zlen_app; lia).
  rewrite slice_skip, Z.sub_diag by lia. by rewrite slice_here.
Qed.

Lemma zget_at pre (x : Z) post off : zlen pre = off -> zget (pre ++ x :: post) off = Some x.
Proof. intros <-. by rewrite zget_app, Z.sub_diag by lia. Qed.

Lemma land_small x : 0 <= x < 64 -> (Z.land x 0xC0 =? 0xC0) = false.
Proof.
  intros Hx. assert (Hall : forallb (fun x => negb (Z.land x 0xC0 =? 0xC0)) (Z.of_nat <$> seq 0 64) = true) by by vm_compute.
  rewrite forallb_forall in Hall. apply negb_true_iff, Hall, list_elem_of_In, list_elem_of_fmap.
  exists (Z.to_nat x). rewrite elem_of_seq. lia.
Qed.

Lemma join_snoc ps p : ps <> [] -> join [46] (ps ++ [p]) = join [46] ps ++ [46] ++ p.
Proof.
  induction ps as [|q ps IH]; [done|]. intros _. destruct ps as [|r ps]; [done|].
  change (join [46] ((q :: r :: ps) ++ [p])) with (q ++ [46] ++ join [46] ((r :: ps) ++ [p])).
  rewrite IH by done. change (join [46] (q :: r :: ps)) with (q ++ [46] ++ join [46] (r :: ps)). by rewrite <- !app_assoc.
Qed.

Lemma read_labels_print fuel deeper pre ls post parts :
  Forall is_label ls -> (length ls < fuel)%nat ->
  read_labels fuel deeper (pre ++ (concat (print_label <$> ls) ++ [0]) ++ post) (zlen pre) parts
  = Some (zlen pre + zlen (concat (print_label <$> ls) ++ [0]), Ok (join [46] (parts ++ ls))).
Proof.
  intros Hls. revert fuel pre parts. induction Hls as [|l ls (Hl & _ & Hv) Hls IH]; intros fuel pre parts Hf;
    (destruct fuel as [|fuel]; [simpl in Hf; lia|]); cbn [read_labels].
  - change ((concat (print_label <$> []) ++ [0]) ++ post) with (0 :: post). rewrite (zget_at pre) by done.
    by rewrite app_nil_r.
  - change (concat (print_label <$> l :: ls)) with (print_label l ++ concat (print_label <$> ls)).
    set (tail := concat (print_label <$> ls) ++ [0]).
    replace (pre ++ ((print_label l ++ concat (print_label <$> ls)) ++ [0]) ++ post)
      with (pre ++ zlen l :: (l ++ tail ++ post)) by (unfold tail, print_label; by rewrite <- !app_assoc).
    rewrite zget_at by done. rewrite (proj2 (Z.eqb_neq _ _)) by lia.
    rewrite (land_small (zlen l)) by lia.
    replace (pre ++ zlen l :: l ++ tail ++ post) with ((pre ++ [zlen l]) ++ l ++ tail ++ post) by by rewrite <- app_assoc.
    rewrite get_app by (rewrite ?zlen_app; done). cbv iota. rewrite from_utf8_lossy_valid by done.
    replace ((pre ++ [zlen l]) ++ l ++ tail ++ post) with ((pre ++ print_label l) ++ tail ++ post)
      by (unfold print_label; by rewrite <- !app_assoc).
    replace (zlen pre + 1 + zlen l) with (zlen (pre ++ print_label l))
      by (unfold print_label; rewrite zlen_app, zlen_cons; lia).
    rewrite IH by (simpl in Hf; lia). fold tail. rewrite <- app_assoc. cbn [app]. do 2 f_equal.
    rewrite <- app_assoc. fold tail. rewrite !zlen_app. lia.
Qed.

Lemma labels_len ls : (length ls <= length (concat (print_label <$> ls)))%nat.
Proof.
  induction ls as [|l ls IH]; [done|].
  change (concat (print_label <$> l :: ls)) with (print_label l ++ concat (print_label <$> ls)).
  rewrite length_app. unfold print_label at 1. simpl length. lia.
Qed.

(** Labels joined by dots. *)
Definition is_name (n : bytes) : Prop := exists ls, n = join [46] ls /\ ls <> [] /\ Forall is_label ls.

(** A name written without compression is read back, wherever it stands. *)
Lemma read_write_name pre n post : is_name n ->
  name_ok (read_name (pre ++ write_name n ++ post) (zlen pre)) = (Some n, zlen pre + zlen (write_name n)).
Proof.
  intros (ls & -> & Hne & Hls). unfold read_name. cbn [read_name_depth]. rewrite write_name_labels by done.
  rewrite read_labels_print; [done|done|]. rewrite !length_app. pose proof (labels_len ls). lia.
Qed.

(** ** Responses round trip *)

(** A printer of answers: class IN, a time to live, no compression. *)
Definition print_rdata (r : Record_) : bytes :=
  match r with
  | Ptr target => write_name target
  | Srv target port => be_bytes 2 0 ++ be_bytes 2 0 ++ be_bytes 2 port ++ write_name target
  | Txt strings => concat ((fun s => zlen s :: s) <$> strings)
  | A ip => ip
  end.
Definition type_of (r : Record_) : Z :=
  match r with Ptr _ => 12 | Srv _ _ => 33 | Txt _ => 16 | A _ => 1 end.
Definition print_record (ttl : Z) (or : bytes * Record_) : bytes :=
  write_name or.1 ++ (be_bytes 2 (type_of or.2) ++ be_bytes 2 1 ++ be_bytes 4 ttl ++ be_bytes 2 (zlen (print_rdata or.2)))
  ++ print_rdata or.2.
Definition print_response (ttl : Z) (rs : list (bytes * Record_)) : bytes :=
  ([0; 0; 0x84; 0; 0; 0] ++ be_bytes 2 (zlen rs) ++ [0; 0; 0; 0]) ++ concat (print_record ttl <$> rs).

Definition good_record (r : Record_) : Prop :=
  zlen (print_rdata r) < 2 ^ 16 /\
  match r with
  | Ptr target => is_name target
  | Srv target port => is_name target /\ u16_ok port
  | Txt strings => Forall (fun s => zlen s < 256 /\ utf8_valid s = true) strings
  | A ip => zlen ip = 4
  end.

Lemma be2 z : u16_ok z -> exists hi lo, be_bytes 2 z = [hi; lo] /\ be16 hi lo = z.
Proof.
  intros Hz. eexists _, _. split; [reflexivity|]. unfold be16, u16_ok in *. simpl.
  Z.to_euclidean_division_equations; lia.
Qed.

Lemma txt_strings_print fuel pre strings post :
  Forall (fun s => zlen s < 256 /\ utf8_valid s = true) strings ->
  let data := concat ((fun s => zlen s :: s) <$> strings) in
  (length strings <= fuel)%nat ->
  txt_strings fuel (pre ++ data ++ post) (zlen pre) (zlen pre + zlen data) = strings.
Proof.
  intros Hs. simpl. revert fuel pre. induction Hs as [|s strings [Hl Hv] Hs IH]; intros fuel pre Hf.
  - change (zlen (concat _)) with 0. rewrite Z.add_0_r. destruct fuel; [done|]. cbn [txt_strings].
    by rewrite Z.ltb_irrefl.
  - destruct fuel as [|fuel]; [simpl in Hf; lia|]. cbn [txt_strings].
    change (concat (_ <$> s :: strings)) with ((zlen s :: s) ++ concat ((fun s => zlen s :: s) <$> strings)).
    set (tail := concat _). pose proof (zlen_nonneg s). pose proof (zlen_nonneg tail).
    rewrite (proj2 (Z.ltb_lt _ _)) by (rewrite zlen_app, zlen_cons; lia).
    unfold byte_at. replace (pre ++ ((zlen s :: s) ++ tail) ++ post) with (pre ++ zlen s :: (s ++ tail ++ post))
      by by rewrite <- !app_assoc.
    rewrite zget_at by done. cbv beta iota delta [from_option id].
    replace (pre ++ zlen s :: (s ++ tail ++ post)) with ((pre ++ [zlen s]) ++ s ++ tail ++ post) by by rewrite <- app_assoc.
    rewrite get_app by (rewrite ?zlen_app; done). cbv beta iota delta [from_option id]. rewrite from_utf8_lossy_valid by done. f_equal.
    replace ((pre ++ [zlen s]) ++ s ++ tail ++ post) with ((pre ++ zlen s :: s) ++ tail ++ post)
      by by rewrite <- !app_assoc.
    replace (zlen pre + 1 + zlen s) with (zlen (pre ++ zlen s :: s)) by (rewrite zlen_app, zlen_cons; lia).
    replace (zlen pre + zlen ((zlen s :: s) ++ tail)) with (zlen (pre ++ zlen s :: s) + zlen tail)
      by (rewrite !zlen_app; lia).
    apply IH. simpl in Hf. lia.
Qed.

Lemma parse_rdata_print pre r post : good_record r ->
  parse_rdata (pre ++ print_rdata r ++ post) (type_of r) (zlen (print_rdata r)) (zlen pre)
  = More (Some r, zlen pre + zlen (print_rdata r)).
Proof.
  intros [Hlen Hr]. unfold parse_rdata. destruct r as [target|target port|strings|ip]; cbn [type_of Z.eqb Pos.eqb andb].
  - change (print_rdata (Ptr target)) with (write_name target). by rewrite read_write_name.
  - destruct Hr as [Hn Hp]. destruct (be2 port Hp) as (hi & lo & Eb & Ev).
    change (print_rdata (Srv target port)) with (be_bytes 2 0 ++ be_bytes 2 0 ++ be_bytes 2 port ++ write_name target).
    rewrite Eb. set (name := write_name target). change (be_bytes 2 0) with [0; 0].
    replace (pre ++ ([0; 0] ++ [0; 0] ++ [hi; lo] ++ name) ++ post)
      with ((pre ++ [0; 0; 0; 0; hi; lo]) ++ name ++ post) by by rewrite <- !app_assoc.
    replace (zlen pre + 6) with (zlen (pre ++ [0; 0; 0; 0; hi; lo])) by by rewrite zlen_app.
    unfold name. rewrite read_write_name by done. fold name. unfold byte_at.
    rewrite <- app_assoc. rewrite (zget_app pre _ (zlen pre + 4)), (zget_app pre _ (zlen pre + 5)) by lia.
    replace (zlen pre + 4 - zlen pre) with 4 by lia. replace (zlen pre + 5 - zlen pre) with 5 by lia.
    change (zget ([0; 0; 0; 0; hi; lo] ++ name ++ post) 4) with (Some hi).
    change (zget ([0; 0; 0; 0; hi; lo] ++ name ++ post) 5) with (Some lo).
    cbv beta iota delta [from_option id]. rewrite Ev. cbn [fmap option_fmap option_map].
    do 2 f_equal. rewrite !zlen_app. change (zlen [0; 0; 0; 0; hi; lo]) with 6. change (zlen [0; 0]) with 2.
    change (zlen [hi; lo]) with 2. lia.
  - change (print_rdata (Txt strings)) with (concat ((fun s => zlen s :: s) <$> strings)).
    rewrite txt_strings_print; [done|done|].
    unfold zlen. rewrite Nat2Z.id. apply labels_len.
  - change (print_rdata (A ip)) with ip. rewrite Hr. cbn [Z.eqb Pos.eqb andb]. by rewrite get_app.
Qed.

Lemma parse_record_print ttl pre owner r post : is_name owner -> good_record r ->
  parse_record (pre ++ print_record ttl (owner, r) ++ post) (zlen pre)
  = More (Some (owner, r), zlen pre + zlen (print_record ttl (owner, r))).
Proof.
  intros Hn Hr. unfold parse_record, print_record. cbn [fst snd].
  set (data := print_rdata r). set (name := write_name owner).
  set (hdr := be_bytes 2 (type_of r) ++ be_bytes 2 1 ++ be_bytes 4 ttl ++ be_bytes 2 (zlen data)).
  replace (pre ++ (name ++ hdr ++ data) ++ post) with (pre ++ name ++ hdr ++ data ++ post) by by rewrite <- !app_assoc.
  unfold name. rewrite read_write_name by done. fold name. rewrite <- zlen_app.
  assert (Lh : zlen hdr = 10) by (unfold hdr; by rewrite !zlen_app, !zlen_be_bytes).
  replace (pre ++ name ++ hdr ++ data ++ post) with ((pre ++ name) ++ hdr ++ data ++ post) by by rewrite <- app_assoc.
  rewrite get_app by done.
  destruct (be2 (type_of r)) as (th & tl & Et & Vt); [by destruct r|].
  destruct (be2 (zlen data)) as (lh & ll & El & Vl); [split; [apply zlen_nonneg|apply Hr]|].
  assert (Eh : exists a b c d, hdr = [th; tl; 0; 1; a; b; c; d; lh; ll]).
  { unfold hdr. rewrite Et, El. eexists _, _, _, _. reflexivity. }
  assert (Hb : byte_at hdr 0 = th /\ byte_at hdr 1 = tl /\ byte_at hdr 8 = lh /\ byte_at hdr 9 = ll)
    by (by destruct Eh as (a & b & c & d & ->)).
  destruct Hb as (-> & -> & -> & ->). rewrite Vt, Vl.
  replace ((pre ++ name) ++ hdr ++ data ++ post) with (((pre ++ name) ++ hdr) ++ data ++ post) by by rewrite <- app_assoc.
  rewrite <- Lh, <- zlen_app. unfold data. rewrite parse_rdata_print by done. fold data.
  cbn [fmap option_fmap option_map]. do 2 f_equal. rewrite !zlen_app. lia.
Qed.

Lemma parse_records_print ttl n pre rs post out : Forall (fun or => is_name or.1 /\ good_record or.2) rs ->
  let body := concat (print_record ttl <$> rs) in
  parse_records (length rs + n) (pre ++ body ++ post) (zlen pre) out
  = parse_records n (pre ++ body ++ post) (zlen pre + zlen body) (out ++ rs).
Proof.
  intros Hrs. simpl. revert pre out. induction Hrs as [|[owner r] rs [Hn Hr] Hrs IH]; intros pre out.
  { change (zlen (concat _)) with 0. by rewrite app_nil_r, Z.add_0_r. }
  cbn [length Nat.add parse_records].
  change (concat (print_record ttl <$> (owner, r) :: rs)) with (print_record ttl (owner, r) ++ concat (print_record ttl <$> rs)).
  set (rec := print_record ttl (owner, r)). set (tail := concat _).
  replace (pre ++ (rec ++ tail) ++ post) with (pre ++ rec ++ tail ++ post) by by rewrite <- app_assoc.
  unfold rec. rewrite parse_record_print by done. fold rec. rewrite <- zlen_app.
  replace (pre ++ rec ++ tail ++ post) with ((pre ++ rec) ++ tail ++ post) by by rewrite <- app_assoc.
  unfold tail. rewrite IH. rewrite !zlen_app. f_equal; [lia|]. cbn [option_list]. by rewrite <- app_assoc.
Qed.

(** The header of an answer with [n] records. *)
Definition answer_header (n : Z) : bytes := [0; 0; 0x84; 0; 0; 0] ++ be_bytes 2 n ++ [0; 0; 0; 0].

Lemma parse_answer n body : u16_ok n ->
  parse_response (answer_header n ++ body) = parse_records (Z.to_nat n) (answer_header n ++ body) 12 [].
Proof.
  intros Hn. destruct (be2 n Hn) as (hi & lo & E & V). unfold answer_header. rewrite E.
  change ([0; 0; 0x84; 0; 0; 0] ++ [hi; lo] ++ [0; 0; 0; 0]) with [0; 0; 0x84; 0; 0; 0; hi; lo; 0; 0; 0; 0].
  set (hdr := [0; 0; 0x84; 0; 0; 0; hi; lo; 0; 0; 0; 0]). unfold parse_response.
  rewrite (proj2 (Z.ltb_ge _ _)) by (rewrite zlen_app; change (zlen hdr) with 12; pose proof (zlen_nonneg body); lia).
  change (be16 (byte_at (hdr ++ body) 4) (byte_at (hdr ++ body) (4 + 1))) with 0.
  change (be16 (byte_at (hdr ++ body) 6) (byte_at (hdr ++ body) (6 + 1))) with (be16 hi lo).
  change (be16 (byte_at (hdr ++ body) 8) (byte_at (hdr ++ body) (8 + 1))) with 0.
  change (be16 (byte_at (hdr ++ body) 10) (byte_at (hdr ++ body) (10 + 1))) with 0.
  change (Z.to_nat 0) with 0%nat. cbn [skip_questions]. by rewrite V, !Z.add_0_r.
Qed.

Lemma parse_print_response ttl rs : Forall (fun or => is_name or.1 /\ good_record or.2) rs -> zlen rs < 2 ^ 16 ->
  parse_response (print_response ttl rs) = Some rs.
Proof.
  intros Hrs Hl. change (print_response ttl rs) with (answer_header (zlen rs) ++ concat (print_record ttl <$> rs)).
  rewrite parse_answer by (split; [apply zlen_nonneg|done]). unfold zlen at 1. rewrite Nat2Z.id.
  rewrite <- (app_nil_r (concat _)). rewrite <- (Nat.add_0_r (length rs)).
  change 12 with (zlen (answer_header (zlen rs))). by rewrite parse_records_print.
Qed.

(** The DNS codec is sound and ends. A response printed with any records of
    the four kinds, in any order, is parsed to exactly those records; a name is
    always read in bounded work, whatever the bytes, also when its
    compression pointers form a cycle. *)
Theorem mdns_codec (ttl : Z) (rs : list (bytes * Record_)) (msg : bytes) (off : Z) :
  Forall (fun or => is_name or.1 /\ good_record or.2) rs -> zlen rs < 2 ^ 16 ->
  0 <= off -> Forall u8_ok msg ->
  parse_response (print_response ttl rs) = Some rs /\ read_name msg off <> None.
Proof. intros Hrs Hl Ho Hu. split; [by apply parse_print_response|by apply read_name_depth_total]. Qed.

(** ** What discovery finds *)

(** A record of the datagrams. *)
Definition received_record (received : list (option bytes)) (or : bytes * Record_) : Prop :=
  exists d rs, Some d ∈ received /\ parse_response (ztake 4096 d) = Some rs /\ or ∈ rs.

(** The tables hold nothing but received records. *)
Definition from_records (service_type : bytes) (instance : option bytes) (R : bytes * Record_ -> Prop) (t : tables) : Prop :=
  (forall target, target ∈ ptrs t -> wanted service_type instance target = true /\ exists owner, R (owner, Ptr target))
  /\ (forall k host port, srvs t !! k = Some (host, port) -> k = host /\ exists owner, R (owner, Srv host port))
  /\ (forall host ip, addrs t !! host = Some ip -> R (host, A ip)).

Lemma absorb_from service_type instance (R : bytes * Record_ -> Prop) t r :
  R r -> from_records service_type instance R t -> from_records service_type instance R (absorb service_type instance t r).
Proof.
  intros Hr (Hp & Hs & Ha). destruct r as [owner [target|target port|strings|ip]]; unfold absorb.
  - destruct (wanted service_type instance target) eqn:Ew; [|by split_and!].
    split_and!; simpl; [|done|done]. intros x [Hx|Hx%elem_of_singleton]%elem_of_union; [by apply Hp|]. subst. eauto.
  - split_and!; simpl; [done| |done]. intros k host p. rewrite lookup_insert_Some.
    intros [[<- [= <- <-]]|[_ H]]; [eauto|by apply Hs].
  - by split_and!.
  - split_and!; simpl; [done|done|]. intros host i. rewrite lookup_insert_Some.
    intros [[<- <-]|[_ H]]; [done|by apply Ha].
Qed.

Lemma absorb_all_from service_type instance R t rs :
  Forall R rs -> from_records service_type instance R t ->
  from_records service_type instance R (foldl (absorb service_type instance) t rs).
Proof. intros Hrs. revert t. induction Hrs; [done|]. intros t Ht. simpl. apply IHHrs. by apply absorb_from. Qed.

Lemma resolve_keys_sound service_type instance R t keys ep :
  (forall k, k ∈ keys -> k ∈ ptrs t) -> from_records service_type instance R t ->
  resolve_keys service_type instance t keys = Some ep ->
  exists target o1 o2, R (o1, Ptr target) /\ R (o2, Srv target (ep_port ep)) /\ R (target, A (ep_ip ep))
  /\ ep_host ep = target /\ ep_instance ep = service_instance_name service_type target
  /\ wanted service_type instance target = true.
Proof.
  intros Hk (Hp & Hs & Ha). induction keys as [|target keys IH]; [done|]. cbn [resolve_keys].
  destruct (wanted service_type instance target) eqn:Ew; [|apply IH; intros; apply Hk; by right].
  destruct (srvs t !! target) as [[host port]|] eqn:Es; [|done].
  destruct (Hs _ _ _ Es) as [<- [o2 H2]]. destruct (Hp target) as [_ [o1 H1]]; [apply Hk; by left|].
  cbn [mbind option_bind]. destruct (addrs t !! target) as [ip|] eqn:Ea; [|done]. intros [= <-].
  exists target, o1, o2. split_and!; try done. by apply Ha.
Qed.

Lemma discover_from order service_type instance received (R : bytes * Record_ -> Prop) t ep :
  (forall s k, k ∈ order s -> k ∈ s) -> from_records service_type instance R t ->
  (forall or, received_record received or -> R or) ->
  discover order service_type instance received t = Some (Ok ep) ->
  exists target o1 o2, R (o1, Ptr target) /\ R (o2, Srv target (ep_port ep)) /\ R (target, A (ep_ip ep))
  /\ ep_host ep = target /\ ep_instance ep = service_instance_name service_type target
  /\ wanted service_type instance target = true.
Proof.
  intros Ho. revert t. induction received as [|[d|] received IH]; intros t Ht HR; [done| |].
  - simpl. destruct (parse_response (ztake 4096 d)) as [rs|] eqn:E; [|done]. cbn [mbind option_bind].
    assert (Ht' : from_records service_type instance R (foldl (absorb service_type instance) t rs)).
    { apply absorb_all_from; [|done]. apply Forall_forall. intros or Hin. apply HR. exists d, rs. split_and!; [by left|done|done]. }
    destruct (resolve _ _ _ _) as [ep'|] eqn:Er.
    + intros [= ->]. eapply resolve_keys_sound; [|done|done]. intros k. apply Ho.
    + apply IH; [done|]. intros or (d' & rs' & ? & ?). apply HR. exists d', rs'. split; [by right|done].
  - apply IH; [done|]. intros or (d' & rs' & ? & ?). apply HR. exists d', rs'. split; [by right|done].
Qed.

(** The standard answer: the instance, its host and the host's address. *)
Definition standard (service_type inst host ip : bytes) (port : Z) : list (bytes * Record_) :=
  [(service_type, Ptr inst); (inst, Srv host port); (host, A ip)].

Lemma print_response_rdata ttl rs or : or ∈ rs -> zlen (print_rdata or.2) <= zlen (print_response ttl rs).
Proof.
  intros (l1 & l2 & ->)%list_elem_of_split. unfold print_response. rewrite fmap_app, concat_app.
  change (concat (print_record ttl <$> or :: l2)) with (print_record ttl or ++ concat (print_record ttl <$> l2)).
  unfold print_record at 2. rewrite !zlen_app. unfold zlen. lia.
Qed.

Lemma standard_parses ttl service_type inst host ip port :
  is_name service_type -> is_name inst -> is_name host -> u16_ok port -> zlen ip = 4 ->
  zlen (print_response ttl (standard service_type inst host ip port)) <= 4096 ->
  parse_response (ztake 4096 (print_response ttl (standard service_type inst host ip port)))
  = Some (standard service_type inst host ip port).
Proof.
  intros Hst Hi Hh Hport Hip Hlen. rewrite ztake_all by done. apply parse_print_response; [|done].
  apply Forall_forall. intros or Hin. split.
  - unfold standard in Hin. rewrite !elem_of_cons, elem_of_nil in Hin.
    by destruct Hin as [->|[->|[->|[]]]].
  - split; [pose proof (print_response_rdata ttl _ _ Hin); lia|].
    unfold standard in Hin. rewrite !elem_of_cons, elem_of_nil in Hin.
    by destruct Hin as [->|[->|[->|[]]]].
Qed.

(** Tables in which the instance has no server. *)
Definition unresolved (inst : bytes) (t : tables) : Prop := ptrs t ⊆ {[inst]} /\ srvs t !! inst = None.

Lemma absorb_standard service_type instance inst host ip port t : inst <> host -> unresolved inst t ->
  unresolved inst (foldl (absorb service_type instance) t (standard service_type inst host ip port)).
Proof.
  intros Hne [Hp Hs]. unfold unresolved. simpl. destruct (wanted service_type instance inst); simpl;
    rewrite lookup_insert_ne by done; (split; [set_solver|done]).
Qed.

Lemma unresolved_none order service_type instance inst t :
  (forall s k, k ∈ order s -> k ∈ s) -> unresolved inst t -> resolve order service_type instance t = None.
Proof.
  intros Ho [Hp Hs]. unfold resolve. assert (Hk : forall k, k ∈ order (ptrs t) -> k = inst) by set_solver.
  induction (order (ptrs t)) as [|k keys IH]; [done|]. cbn [resolve_keys].
  rewrite (Hk k) by (by left). rewrite Hs. case_bool; [done|]. apply IH. intros x Hx. apply Hk. by right.
Qed.

Lemma discover_standard order service_type instance inst host ip port ttl n t :
  (forall s k, k ∈ order s -> k ∈ s) -> is_name service_type -> is_name inst -> is_name host -> inst <> host ->
  u16_ok port -> zlen ip = 4 -> zlen (print_response ttl (standard service_type inst host ip port)) <= 4096 ->
  unresolved inst t ->
  discover order service_type instance
    (replicate n (Some (print_response ttl (standard service_type inst host ip port)))) t = Some (Err Timeout).
Proof.
  intros Ho Hst Hi Hh Hne Hport Hip Hlen. revert t. induction n as [|n IH]; intros t Ht; [done|].
  cbn [replicate discover]. rewrite standard_parses by done. cbn [mbind option_bind].
  pose proof (absorb_standard service_type instance inst host ip port t Hne Ht) as Ht'.
  rewrite (unresolved_none _ _ _ inst) by done. by apply IH.
Qed.

(** What discovery returns was announced, but only for services that are
    their own host. An endpoint comes from a PTR record of a wanted
    instance, an SRV record and an address record that were received, and
    its host is the target of the PTR record itself: an answer in the
    standard form, in which the SRV record of an instance names another host, is
    never resolved, and the search runs into its deadline. *)
Theorem discover_self_named (order : gset bytes -> list bytes) (service_type : bytes) (instance : option bytes)
    (received : list (option bytes)) :
  (forall s k, k ∈ order s -> k ∈ s) ->
  (forall ep, discover order service_type instance received no_tables = Some (Ok ep) ->
     exists target o1 o2, received_record received (o1, Ptr target)
     /\ received_record received (o2, Srv target (ep_port ep)) /\ received_record received (target, A (ep_ip ep))
     /\ ep_host ep = target /\ ep_instance ep = service_instance_name service_type target
     /\ wanted service_type instance target = true)
  /\ forall n inst host ip port ttl, is_name service_type -> is_name inst -> is_name host -> inst <> host ->
     u16_ok port -> zlen ip = 4 -> zlen (print_response ttl (standard service_type inst host ip port)) <= 4096 ->
     discover order service_type instance
       (replicate n (Some (print_response ttl (standard service_type inst host ip port)))) no_tables
     = Some (Err Timeout).
Proof.
  intros Ho. split.
  - intros ep Hd. eapply discover_from; [done| |done|done].
    split_and!; [set_solver|..]; simpl; intros *; by rewrite lookup_empty.
  - intros. by apply discover_standard.
Qed.

(** A truncated address record crashes the client. A datagram whose last
    record announces four bytes of IPv4 address and carries fewer makes
    [parse_response] index out of bounds, and [discover] panics on it
    whatever came before. *)
Theorem truncated_address_panics (ttl : Z) (owner data : bytes) (rs : list (bytes * Record_)) :
  is_name owner -> zlen data < 4 -> Forall (fun or => is_name or.1 /\ good_record or.2) rs -> zlen rs + 1 < 2 ^ 16 ->
  parse_response (answer_header (zlen rs + 1) ++ concat (print_record ttl <$> rs)
    ++ write_name owner ++ (be_bytes 2 1 ++ be_bytes 2 1 ++ be_bytes 4 ttl ++ be_bytes 2 4) ++ data) = None.
Proof.
  intros Hn Hd Hrs Hl. rewrite parse_answer by (split; [pose proof (zlen_nonneg rs); lia|done]).
  replace (Z.to_nat (zlen rs + 1)) with (length rs + 1)%nat by (unfold zlen; lia).
  set (head := answer_header _). change 12 with (zlen head). rewrite parse_records_print by done. cbn [app].
  set (hdr := be_bytes 2 1 ++ _). set (body := concat _). set (name := write_name owner).
  set (msg := head ++ body ++ name ++ hdr ++ data). rewrite <- zlen_app.
  assert (En : name_ok (read_name msg (zlen (head ++ body))) = (Some owner, zlen ((head ++ body) ++ name))).
  { replace msg with ((head ++ body) ++ name ++ hdr ++ data) by (unfold msg; by rewrite <- app_assoc).
    unfold name. by rewrite read_write_name, (zlen_app (head ++ body)). }
  assert (Eh : get msg (zlen ((head ++ body) ++ name)) 10 = Some hdr).
  { replace msg with (((head ++ body) ++ name) ++ hdr ++ data) by (unfold msg; by rewrite <- !app_assoc).
    by apply get_app. }
  cbn [parse_records]. unfold parse_record. rewrite En, Eh.
  change (be16 (byte_at hdr 0) (byte_at hdr 1)) with 1. change (be16 (byte_at hdr 8) (byte_at hdr 9)) with 4.
  unfold parse_rdata. cbn [Z.eqb Pos.eqb andb]. unfold get, get_range. rewrite (proj2 (Z.leb_gt _ _)); [done|].
  unfold msg. rewrite !zlen_app. change (zlen hdr) with 10. lia.
Qed.

Lemma truncated_address_panics_witness :
  is_name (bs "a.b") /\ parse_response (answer_header 1 ++ write_name (bs "a.b")
    ++ (be_bytes 2 1 ++ be_bytes 2 1 ++ be_bytes 4 120 ++ be_bytes 2 4) ++ [192; 168]) = None.
Proof.
  assert (Hn : is_name (bs "a.b")).
  { exists [bs "a"; bs "b"]. split; [done|]. split; [done|]. by repeat constructor. }
  split; [exact Hn|]. exact (truncated_address_panics 120 (bs "a.b") [192; 168] [] Hn eq_refl (Forall_nil_2 _) eq_refl).
Defined.

(** ** A phone's answer *)

Definition PHONE : bytes := bs "studio-Ab1._adb-tls-pairing._tcp.local".
Definition phone_answer : list (bytes * Record_) :=
  standard PAIRING_TYPE PHONE (bs "Android.local") [192; 168; 1; 7] 37000 ++ [(PHONE, Txt [bs "v=1"])].

Lemma phone_names : is_name PAIRING_TYPE /\ is_name PHONE /\ is_name (bs "Android.local").
Proof.
  split_and!; [exists [bs "_adb-tls-pairing"; bs "_tcp"; bs "local"]
    |exists [bs "studio-Ab1"; bs "_adb-tls-pairing"; bs "_tcp"; bs "local"]|exists [bs "Android"; bs "local"]];
    (split; [reflexivity|]; split; [discriminate|]; by repeat constructor).
Qed.

Lemma mdns_codec_witness :
  parse_response (print_response 120 phone_answer) = Some phone_answer /\ read_name [0xC0; 0] 0 <> None.
Proof.
  destruct phone_names as (N1 & N2 & N3).
  apply (mdns_codec 120 phone_answer [0xC0; 0] 0); [|done|done|by repeat constructor].
  repeat (apply Forall_cons; split); try apply Forall_nil; split; try done; split; try done; try (split; done).
  by repeat constructor.
Defined.

Lemma discover_self_named_witness :
  PHONE <> bs "Android.local" /\
  discover elements PAIRING_TYPE (Some (bs "studio-Ab1"))
    (replicate 20 (Some (print_response 120 (standard PAIRING_TYPE PHONE (bs "Android.local") [192; 168; 1; 7] 37000))))
    no_tables = Some (Err Timeout).
Proof.
  split; [discriminate|]. destruct phone_names as (N1 & N2 & N3).
  destruct (discover_self_named elements PAIRING_TYPE (Some (bs "studio-Ab1")) []) as [_ H];
    [intros s k; by rewrite elem_of_elements|].
  apply H; [exact N1|exact N2|exact N3|discriminate|done|done|by vm_compute].
Defined.
