(* ===== verification/ProxyOps.v ===== *)
(** * Proxy protocol types: [crates/adb-proxy/src/ops.rs] and [lib.rs]

    The op codes, status bytes, open flags and file modes of the host/device
    RPC, and the 60-byte little-endian [Stat] record with its codec. *)

From stdpp Require Import base list strings.
From S2P Require Import Prelude.

Definition DEFAULT_PROXY_PORT : Z := 31337.

Module Op.

Inductive t : Type :=
| Open | Close | Read | Write | Stat | ListDir | Mkdir | Unlink | Rmdir
| Rename | Truncate | ReadLink | Symlink | Lstat | Utime | DiskUsage
| CopyFile | Fstat.

(** [op as u8] *)
Definition code (o : t) : Z :=
  match o with
  | Open => 0x01
  | Close => 0x02
  | Read => 0x03
  | Write => 0x04
  | Stat => 0x05
  | ListDir => 0x06
  | Mkdir => 0x07
  | Unlink => 0x08
  | Rmdir => 0x09
  | Rename => 0x0A
  | Truncate => 0x0B
  | ReadLink => 0x0D
  | Symlink => 0x0E
  | Lstat => 0x0F
  | Utime => 0x10
  | DiskUsage => 0x11
  | CopyFile => 0x12
  | Fstat => 0x13
  end.

End Op.

Module Status.

Inductive t : Type :=
| Ok | NotFound | PermissionDenied | IsDir | NotDir | Exists | NotEmpty
| IoError | InvalidArg | NoSpace | NameTooLong | NotSupported.

#[global] Instance eq_dec : EqDecision t.
Proof. solve_decision. Defined.

Definition code (s : t) : Z :=
  match s with
  | Ok => 0x00
  | NotFound => 0x01
  | PermissionDenied => 0x02
  | IsDir => 0x03
  | NotDir => 0x04
  | Exists => 0x05
  | NotEmpty => 0x06
  | IoError => 0x07
  | InvalidArg => 0x08
  | NoSpace => 0x09
  | NameTooLong => 0x0A
  | NotSupported => 0x0B
  end.

Definition from_u8 (v : Z) : t :=
  if v =? 0x00 then Ok
  else if v =? 0x01 then NotFound
  else if v =? 0x02 then PermissionDenied
  else if v =? 0x03 then IsDir
  else if v =? 0x04 then NotDir
  else if v =? 0x05 then Exists
  else if v =? 0x06 then NotEmpty
  else if v =? 0x07 then IoError
  else if v =? 0x08 then InvalidArg
  else if v =? 0x09 then NoSpace
  else if v =? 0x0A then NameTooLong
  else NotSupported.

Lemma from_code s : from_u8 (code s) = s.
Proof. by destruct s. Qed.

(** Only the zero byte is success: an unknown status is never read as [Ok]. *)
Lemma from_u8_Ok v : from_u8 v = Ok <-> v = 0.
Proof.
  unfold from_u8. split; [|by intros ->].
  repeat case_bool; bool_to_prop; done.
Qed.

End Status.

(** ** Open flags *)

Module OpenFlags.

Definition READ : Z := 0x1.
Definition WRITE : Z := 0x2.
Definition CREATE : Z := 0x4.
Definition EXCL : Z := 0x8.
Definition TRUNC : Z := 0x10.
Definition APPEND : Z := 0x20.

(** [bitflags]' [contains]. *)
Definition contains (f g : Z) : bool := Z.land f g =? g.

Definition from_octal (mode : Z) : Z :=
  let f := 0 in
  let f := if negb (Z.land mode 0x124 =? 0) then Z.lor f READ else f in
  if negb (Z.land mode 0x92 =? 0) then Z.lor f WRITE else f.

End OpenFlags.

(** ** File modes *)

Module FileMode.

Definition S_IFMT : Z := 0xF000.
Definition S_IFREG : Z := 0x8000.
Definition S_IFDIR : Z := 0x4000.
Definition S_IFLNK : Z := 0xA000.

Definition is_dir (m : Z) : bool := Z.land m S_IFMT =? S_IFDIR.
Definition is_symlink (m : Z) : bool := Z.land m S_IFMT =? S_IFLNK.
Definition permissions (m : Z) : Z := Z.land m 0xFFF.

Definition dir : Z := Z.lor S_IFDIR 0x1ED.
Definition file : Z := Z.lor S_IFREG 0x1A4.
Definition symlink : Z := Z.lor S_IFLNK 0x1FF.

(** The two kind tests exclude one another. *)
Lemma dir_not_symlink m : is_dir m = true -> is_symlink m = false.
Proof. unfold is_dir, is_symlink. intros H. bool_to_prop. rewrite H. done. Qed.

End FileMode.

(** ** [Stat] *)

Module Stat.

Record t : Type := mk {
  mode : Z;
  size : Z;
  mtime : Z;
  atime : Z;
  ctime : Z;
  uid : Z;
  gid : Z;
  nlink : Z;
  blksize : Z;
  blocks : Z;
}.

Definition wf (s : t) : Prop :=
  u32_ok (mode s) /\ u64_ok (size s) /\ i64_ok (mtime s) /\ i64_ok (atime s)
  /\ i64_ok (ctime s) /\ u32_ok (uid s) /\ u32_ok (gid s) /\ u32_ok (nlink s)
  /\ u32_ok (blksize s) /\ u64_ok (blocks s).

Definition encode (s : t) : bytes :=
  le_bytes 4 (mode s) ++ le_bytes 8 (size s) ++ le_bytes 8 (mtime s)
  ++ le_bytes 8 (atime s) ++ le_bytes 8 (ctime s) ++ le_bytes 4 (uid s)
  ++ le_bytes 4 (gid s) ++ le_bytes 4 (nlink s) ++ le_bytes 4 (blksize s)
  ++ le_bytes 8 (blocks s).

Definition decode (b : bytes) : option t :=
  if zlen b <? 60 then None
  else Some (mk (u32_le_at b 0) (u64_le_at b 4) (i64_le_at b 12)
               (i64_le_at b 20) (i64_le_at b 28) (u32_le_at b 36)
               (u32_le_at b 40) (u32_le_at b 44) (u32_le_at b 48)
               (u64_le_at b 52)).

Lemma encode_len s : zlen (encode s) = 60.
Proof. unfold encode. len_lia. Qed.

Lemma eta s :
  mk (mode s) (size s) (mtime s) (atime s) (ctime s) (uid s) (gid s) (nlink s)
     (blksize s) (blocks s) = s.
Proof. by destruct s. Qed.

(** Decoding ignores whatever follows the 60 bytes. *)
Lemma decode_encode_app s rest : wf s -> decode (encode s ++ rest) = Some s.
Proof.
  intros (?&?&?&?&?&?&?&?&?&?). unfold decode.
  replace (_ <? 60) with false
    by (symmetry; apply Z.ltb_ge; rewrite zlen_app, encode_len; len_lia).
  etransitivity; [|apply f_equal, eta].
  unfold encode. rewrite <- !(assoc_L (++)).
  unfold u32_le_at, u64_le_at, i64_le_at.
  f_equal; f_equal; slices; auto with adb.
Qed.

End Stat.
#[export] Hint Rewrite Stat.encode_len : adb_len.

Module DirEntry.
Record t : Type := mk { name : bytes; stat : Stat.t }.
End DirEntry.

(** Round trip of the [Stat] record: the 60 wire bytes of a stat whose
    fields are in their Rust types decode to the same stat, negative times
    included. *)
Theorem stat_roundtrip (s : Stat.t) :
  Stat.wf s -> Stat.decode (Stat.encode s) = Some s.
Proof.
  intros H. rewrite <- (Stat.decode_encode_app s []) by done. by rewrite app_nil_r.
Qed.

Lemma stat_roundtrip_witness :
  let s := Stat.mk 0x81A4 5000000000 (-1) 1700000000 0 2000 2000 1 4096 16 in
  Stat.decode (Stat.encode s) = Some s.
Proof.
  intros s. apply (stat_roundtrip s).
  unfold Stat.wf, u32_ok, u64_ok, i64_ok; simpl; lia.
Defined.
