(* ===== verification/Libc.v ===== *)
(** * The device's kernel as a parameter

    [Libc W] lists the system calls the device proxy makes as functions on a
    world [W]; a failing call returns its errno. [LibcLaws W] states the POSIX
    behaviour of positional reads and writes on regular files that the transfer
    theorems rely on. [MemFs] is an in-memory instance of both, on which the
    witnesses run. *)

From stdpp Require Import base list gmap strings.
From S2P Require Import Prelude ProxyOps.

Definition O_RDONLY : Z := 0.
Definition O_WRONLY : Z := 1.
Definition O_RDWR : Z := 2.
Definition O_CREAT : Z := 0x40.
Definition O_EXCL : Z := 0x80.
Definition O_TRUNC : Z := 0x200.
Definition O_APPEND : Z := 0x400.
Definition O_NONBLOCK : Z := 0x800.
Definition O_CLOEXEC : Z := 0x80000.
(** The aarch64 values; the two are the only flags here that differ by target. *)
Definition O_DIRECTORY : Z := 0x4000.
Definition O_NOFOLLOW : Z := 0x8000.

Definition EPERM : Z := 1.
Definition ENOENT : Z := 2.
Definition EACCES : Z := 13.
Definition EEXIST : Z := 17.
Definition ENOTDIR : Z := 20.
Definition EISDIR : Z := 21.
Definition EINVAL : Z := 22.
Definition ENOSPC : Z := 28.
Definition ENAMETOOLONG : Z := 36.
Definition ELOOP : Z := 40.

(** [struct stat], with the fields the program reads. *)
Record c_stat : Type := CStat {
  st_mode : Z; st_size : Z; st_mtime : Z; st_atime : Z; st_ctime : Z;
  st_uid : Z; st_gid : Z; st_nlink : Z; st_blksize : Z; st_blocks : Z;
  st_dev : Z; st_ino : Z;
}.

(** The fields at their C types. *)
Definition c_stat_ok (st : c_stat) : Prop :=
  u32_ok (st_mode st) /\ i64_ok (st_mtime st) /\ i64_ok (st_atime st) /\ i64_ok (st_ctime st)
  /\ u32_ok (st_uid st) /\ u32_ok (st_gid st).

(** [struct statvfs]. *)
Record c_statvfs : Type := CStatvfs { f_bavail : Z; f_blocks : Z; f_bsize : Z }.

(** A system call's result: [Err] carries errno. *)
Abbreviation sys := (result Z).

Class Libc (W : Type) : Type := {
  libc_open : bytes -> Z -> Z -> W -> sys Z * W;
  libc_close : Z -> W -> sys unit * W;
  libc_pread : Z -> Z -> Z -> W -> sys bytes;
  libc_pwrite : Z -> bytes -> Z -> W -> sys Z * W;
  libc_stat : bytes -> W -> sys c_stat;
  libc_lstat : bytes -> W -> sys c_stat;
  libc_fstat : Z -> W -> sys c_stat;
  (** [opendir] and the [readdir] sequence, ["."] and [".."] included. *)
  libc_readdir : bytes -> W -> sys (list bytes);
  libc_mkdir : bytes -> Z -> W -> sys unit * W;
  libc_unlink : bytes -> W -> sys unit * W;
  libc_rmdir : bytes -> W -> sys unit * W;
  libc_rename : bytes -> bytes -> W -> sys unit * W;
  libc_truncate : bytes -> Z -> W -> sys unit * W;
  libc_realpath : bytes -> W -> sys bytes;
  libc_readlink : bytes -> W -> sys bytes;
  libc_symlink : bytes -> bytes -> W -> sys unit * W;
  libc_utimes : bytes -> Z -> Z -> W -> sys unit * W;
  libc_statvfs : bytes -> W -> sys c_statvfs;
  libc_openat : Z -> bytes -> Z -> Z -> W -> sys Z * W;
  libc_fstatat : Z -> bytes -> W -> sys c_stat;
  libc_unlinkat : Z -> bytes -> W -> sys unit * W;
  libc_fsync : Z -> W -> sys unit * W;
  (** [std::io::copy] of at most [size] bytes from one fd to another. *)
  libc_copy : Z -> Z -> Z -> W -> sys Z * W;
  (** [io::Error::to_string]. *)
  strerror : Z -> bytes;
}.

(** What libc reads of a buffer it is given as a [char *]. *)
Fixpoint c_str (buf : bytes) : bytes :=
  match buf with
  | [] => []
  | b :: buf => if b =? 0 then [] else b :: c_str buf
  end.

Definition no_nul (p : bytes) : bool := forallb (fun b => negb (b =? 0)) p.

Lemma c_str_no_nul p : no_nul p = true -> c_str (p ++ [0]) = p.
Proof.
  unfold no_nul. induction p as [|b p IH]; [done|]. simpl. intros H. bool_to_prop.
  replace (b =? 0) with false by (symmetry; by apply Z.eqb_neq). by rewrite IH.
Qed.


(** ** POSIX laws *)

(** A positional write: bytes past the end read as zero up to the offset; writing
    nothing changes nothing. *)
Definition splice (c : bytes) (off : Z) (data : bytes) : bytes :=
  match data with
  | [] => c
  | _ => ztake off c ++ replicate (Z.to_nat (off - zlen c)) 0 ++ data ++ zdrop (off + zlen data) c
  end.

(** The bytes just written read back. *)
Lemma slice_splice c off data : 0 <= off -> slice (splice c off data) off (zlen data) = data.
Proof.
  intros Ho. destruct data as [|b data0]; [done|]. unfold splice. set (data := b :: data0).
  pose proof (zlen_nonneg c). pose proof (zlen_nonneg data). rewrite (assoc_L (++)). rewrite slice_skip by len_lia.
  replace (off - zlen _) with 0 by len_lia. by apply slice_here.
Qed.

(** [file_content p w]: the bytes of the regular file that path [p] leads to.
    [fd_file fd w]: the path an open fd was opened with, while that path still
    leads to the fd's file; none for an fd opened with [O_APPEND], on which a
    positional write goes to the end. Which calls succeed is not said: a read through an
    fd opened with [O_WRONLY], or on a failing disk, is an [Err]. *)
Class LibcLaws (W : Type) `{!Libc W} : Type := {
  file_content : bytes -> W -> option bytes;
  fd_file : Z -> W -> option bytes;
  pread_law : forall fd p len off c w d,
    fd_file fd w = Some p -> file_content p w = Some c -> 0 <= off -> 0 <= len ->
    libc_pread fd len off w = Ok d -> d = slice c off len;
  pwrite_law : forall fd p data off c w n w',
    fd_file fd w = Some p -> file_content p w = Some c -> 0 <= off ->
    libc_pwrite fd data off w = (Ok n, w') -> n = zlen data ->
    fd_file fd w' = Some p /\ file_content p w' = Some (splice c off data);
  (** Opening an existing file, or creating one with [O_CREAT]. *)
  open_law : forall p flags mode w fd w' c,
    libc_open p flags mode w = (Ok fd, w') -> Z.land flags O_APPEND = 0 ->
    (file_content p w = Some c
     \/ libc_stat p w = Err ENOENT /\ Z.land flags O_CREAT <> 0 /\ c = []) ->
    0 <= fd < 2 ^ 31 /\ fd_file fd w' = Some p
    /\ file_content p w' = Some (if Z.land flags O_TRUNC =? 0 then c else []);
  close_law : forall fd p w r w',
    libc_close fd w = (r, w') -> file_content p w' = file_content p w;
  stat_law : forall p c w st,
    file_content p w = Some c -> libc_stat p w = Ok st -> st_size st = zlen c;
  stat_fields_law : forall p w st, libc_stat p w = Ok st -> c_stat_ok st;
  file_size_law : forall p c w, file_content p w = Some c -> zlen c < 2 ^ 63;
  (** Error texts are short. *)
  strerror_len : forall e, zlen (strerror e) <= 4096;
}.

Definition fd_content {W} `{LibcLaws W} (fd : Z) (w : W) : option bytes :=
  p ← fd_file fd w; file_content p w.

Lemma fd_content_spec {W} `{LibcLaws W} fd (w : W) c :
  fd_content fd w = Some c -> exists p, fd_file fd w = Some p /\ file_content p w = Some c.
Proof. unfold fd_content. destruct (fd_file fd w) as [p|]; [|done]. eauto. Qed.

(** ** An in-memory file system *)

Module MemFs.

Inductive node : Type := File (c : bytes) | Dir | Link (target : bytes).

Record t : Type := mk {
  nodes : gmap bytes node;
  fds : gmap Z bytes;
  next_fd : N;
}.

Definition EBADF : Z := 9.
Definition EFBIG : Z := 27.
Definition EMFILE : Z := 24.

Definition node_stat (n : node) : c_stat :=
  match n with
  | File c => CStat 0x81A4 (zlen c) 0 0 0 2000 2000 1 4096 0 1 1
  | Dir => CStat 0x41ED 4096 0 0 0 2000 2000 2 4096 8 1 1
  | Link tgt => CStat 0xA1FF (zlen tgt) 0 0 0 2000 2000 1 4096 0 1 1
  end.

Definition stat_of (p : bytes) (m : t) : sys c_stat :=
  match nodes m !! p with Some n => Ok (node_stat n) | None => Err ENOENT end.

Definition content (fd : Z) (m : t) : option bytes :=
  p ← fds m !! fd;
  match nodes m !! p with Some (File c) => Some c | _ => None end.

Definition set_node (p : bytes) (n : node) (m : t) : t :=
  mk (<[p := n]> (nodes m)) (fds m) (next_fd m).
Definition del_node (p : bytes) (m : t) : t :=
  mk (delete p (nodes m)) (fds m) (next_fd m).

Definition open_file (p : bytes) (flags : Z) (m : t) : sys Z * t :=
  let alloc m :=
    if Z.of_N (next_fd m) <? 2 ^ 31
    then (Ok (Z.of_N (next_fd m)),
          mk (nodes m) (<[Z.of_N (next_fd m) := p]> (fds m)) (next_fd m + 1)%N)
    else (Err EMFILE, m) in
  match nodes m !! p with
  | Some (File _) =>
      if negb (Z.land flags O_EXCL =? 0) then (Err EEXIST, m)
      else if negb (Z.land flags O_TRUNC =? 0) then alloc (set_node p (File []) m)
      else alloc m
  | Some _ => alloc m
  | None => if Z.land flags O_CREAT =? 0 then (Err ENOENT, m) else alloc (set_node p (File []) m)
  end.

(** [dir] joined with the last component, for the directory entries of [dir]. *)
Definition child_of (dir p : bytes) : option bytes :=
  let pre := if bool_decide (dir = bs "/") then dir else dir ++ bs "/" in
  if bool_decide (ztake (zlen pre) p = pre) && negb (existsb (Z.eqb 47) (zdrop (zlen pre) p))
     && negb (zlen p =? zlen pre)
  then Some (zdrop (zlen pre) p) else None.

Definition remove (p : bytes) (m : t) : sys unit * t :=
  match nodes m !! p with Some _ => (Ok tt, del_node p m) | None => (Err ENOENT, m) end.

#[global] Instance libc : Libc t := {|
  libc_open p flags _ m := open_file p flags m;
  libc_close fd m :=
    match fds m !! fd with
    | Some _ => (Ok tt, mk (nodes m) (delete fd (fds m)) (next_fd m))
    | None => (Err EBADF, m)
    end;
  libc_pread fd len off m :=
    match content fd m with Some c => Ok (slice c off len) | None => Err EBADF end;
  libc_pwrite fd data off m :=
    match fds m !! fd, content fd m with
    | Some p, Some c =>
        if zlen (splice c off data) <? 2 ^ 63
        then (Ok (zlen data), set_node p (File (splice c off data)) m) else (Err EFBIG, m)
    | _, _ => (Err EBADF, m)
    end;
  libc_stat := stat_of;
  libc_lstat := stat_of;
  libc_fstat fd m := match fds m !! fd with Some p => stat_of p m | None => Err EBADF end;
  libc_readdir p m :=
    match nodes m !! p with
    | Some Dir => Ok (bs "." :: bs ".." :: omap (child_of p) (map_to_list (nodes m)).*1)
    | Some _ => Err ENOTDIR
    | None => Err ENOENT
    end;
  libc_mkdir p _ m :=
    match nodes m !! p with Some _ => (Err EEXIST, m) | None => (Ok tt, set_node p Dir m) end;
  libc_unlink := remove;
  libc_rmdir := remove;
  libc_rename a b m :=
    match nodes m !! a with
    | Some n => (Ok tt, set_node b n (del_node a m))
    | None => (Err ENOENT, m)
    end;
  libc_truncate p size m :=
    match nodes m !! p with
    | Some (File c) => (Ok tt, set_node p (File (ztake size c)) m)
    | _ => (Err ENOENT, m)
    end;
  libc_realpath p _ := Ok p;
  libc_readlink p m :=
    match nodes m !! p with Some (Link tgt) => Ok tgt | Some _ => Err EINVAL | None => Err ENOENT end;
  libc_symlink tgt p m :=
    match nodes m !! p with Some _ => (Err EEXIST, m) | None => (Ok tt, set_node p (Link tgt) m) end;
  libc_utimes p _ _ m := match nodes m !! p with Some _ => (Ok tt, m) | None => (Err ENOENT, m) end;
  libc_statvfs _ _ := Ok (CStatvfs 1000 2000 4096);
  libc_openat dir name flags _ m :=
    match fds m !! dir with
    | Some d => open_file (d ++ bs "/" ++ name) flags m
    | None => (Err EBADF, m)
    end;
  libc_fstatat dir name m :=
    match fds m !! dir with
    | Some d => stat_of (d ++ bs "/" ++ name) m
    | None => Err EBADF
    end;
  libc_unlinkat dir name m :=
    match fds m !! dir with
    | Some d => remove (d ++ bs "/" ++ name) m
    | None => (Err EBADF, m)
    end;
  libc_fsync fd m := match fds m !! fd with Some _ => (Ok tt, m) | None => (Err EBADF, m) end;
  libc_copy a b size m :=
    match content a m, fds m !! b with
    | Some c, Some p => (Ok (zlen (ztake size c)), set_node p (File (ztake size c)) m)
    | _, _ => (Err EBADF, m)
    end;
  strerror _ := bs "os error";
|}.

Definition file_at (p : bytes) (m : t) : option bytes :=
  match nodes m !! p with
  | Some (File c) => if zlen c <? 2 ^ 63 then Some c else None
  | _ => None
  end.

Lemma file_at_node p m c : file_at p m = Some c -> nodes m !! p = Some (File c) /\ zlen c < 2 ^ 63.
Proof. unfold file_at. repeat case_match; intros; simplify_eq; bool_to_prop; done. Qed.

Lemma file_at_set p c m : zlen c < 2 ^ 63 -> file_at p (set_node p (File c) m) = Some c.
Proof. intros H. unfold file_at. simpl. rewrite lookup_insert_eq. by decide_if. Qed.

#[global] Program Instance laws : LibcLaws t :=
  {| file_content := file_at; fd_file fd m := fds m !! fd |}.
Next Obligation.
  intros fd p len off c w d Hp Hc _ _. simpl. unfold content. rewrite Hp. simpl.
  apply file_at_node in Hc as [-> _]. by intros [= <-].
Qed.
Next Obligation.
  intros fd p data off c w n w' Hp Hc _ Hw _. simpl in Hw. unfold content in Hw.
  rewrite Hp in Hw. simpl in Hw. apply file_at_node in Hc as [Hc _]. rewrite Hc in Hw.
  revert Hw. case_bool; bool_to_prop; intros; simplify_eq. split; [done|by apply file_at_set].
Qed.
Next Obligation.
  intros p flags mode w fd w' c Ho _ Hc. simpl in *. unfold open_file in Ho.
  destruct Hc as [[Hc Hl]%file_at_node|(Hst & Hcr & ->)].
  - rewrite Hc in Ho. repeat case_match; simplify_eq; bool_to_prop; simpl in *;
      rewrite lookup_insert_eq; (split_and!; [lia|lia|done|]).
    + by apply file_at_set.
    + unfold file_at; simpl. rewrite Hc. by decide_if.
  - unfold stat_of in Hst. destruct (nodes w !! p); [done|].
    repeat case_match; simplify_eq; bool_to_prop; try done; simpl in *;
      rewrite lookup_insert_eq; (split_and!; [lia|lia|done|by apply file_at_set]).
Qed.
Next Obligation.
  intros fd p w r w' Hc. simpl in Hc. repeat case_match; simplify_eq; done.
Qed.
Next Obligation.
  intros p c w st [Hc _]%file_at_node Hs. simpl in Hs. unfold stat_of in Hs. rewrite Hc in Hs.
  by simplify_eq.
Qed.
Next Obligation.
  intros p w st. simpl. unfold stat_of. destruct (nodes w !! p) as [n|]; intros; simplify_eq.
  destruct n; unfold c_stat_ok, u32_ok, i64_ok; simpl; lia.
Qed.
Next Obligation. by intros p c w [_ H]%file_at_node. Qed.
Next Obligation. intros e. vm_compute. congruence. Qed.

(** A file system with one directory and the given files in it. *)
Definition with_files (l : list (bytes * bytes)) : t :=
  mk (<[bs "/d" := Dir]> (list_to_map ((fun '(n, c) => (bs "/d/" ++ n, File c)) <$> l))) ∅ 3%N.

End MemFs.
