(* ===== verification/DeviceProxy.v ===== *)
(** * The device-side proxy: [crates/adbshare-proxy-device/src/main.rs]

    The server half of the file RPC: path decoding, one handler per op over an
    abstract libc, the reply frame, the paged directory listing, the exclusive
    file copy, and the per-connection request loop over an arbitrarily chunked
    byte stream.

    The kernel is a parameter: the class [Libc W] of [Libc.v]. *)

From stdpp Require Import base list gmap strings.
From S2P Require Import Prelude RustStd ProxyOps Libc.

Definition MAX_REQUEST : Z := 8 * 1024 * 1024.
Definition MAX_PATH : Z := 4096.
Definition MAX_RESPONSE : Z := 8 * 1024 * 1024.
Definition LISTDIR_PAGE : Z := 16384.

(** ** Wire paths *)

Definition read_path (args : bytes) : option (bytes * bytes) :=
  if zlen args <? 4 then None
  else
    let len := u32_le_at args 0 in
    if (len >? MAX_PATH) || (zlen args <? 4 + len) then None
    else Some (slice args 4 len, zdrop (4 + len) args).

(** [p.starts_with(b"/")] *)
Definition starts_with_slash (p : bytes) : bool :=
  match p with b :: _ => b =? 47 | [] => false end.

Definition read_two_paths (args : bytes) : option (bytes * bytes) :=
  '(src, rest) ← read_path args;
  '(dst, rest) ← read_path rest;
  if negb (zlen rest =? 0)
     || existsb (fun p => negb (starts_with_slash p) || negb (no_nul p)) [src; dst]
  then None
  else Some (src, dst).

(** [cstring]: [CString::new] rejects an embedded NUL. *)
Definition cstring (path : bytes) : option bytes :=
  if no_nul path then Some path else None.

(** ** Errno mapping *)

(** [copy_error] without the text. *)
Definition copy_status (errno : Z) : Z :=
  if errno =? ENOENT then 0x01
  else if (errno =? EACCES) || (errno =? EPERM) then 0x02
  else if errno =? EISDIR then 0x03
  else if errno =? ENOTDIR then 0x04
  else if errno =? EEXIST then 0x05
  else if (errno =? EINVAL) || (errno =? ELOOP) then 0x08
  else if errno =? ENOSPC then 0x09
  else if errno =? ENAMETOOLONG then 0x0A
  else 0x07.

Definition stat_status (errno : Z) : Z :=
  if errno =? ENOENT then 0x01
  else if (errno =? EACCES) || (errno =? EPERM) then 0x02
  else if errno =? ENOTDIR then 0x04
  else if errno =? ELOOP then 0x08
  else if errno =? ENAMETOOLONG then 0x0A
  else 0x07.

(** ** Open flags *)

(** The wire-to-libc translation of [handle_open]. *)
Definition libc_flags (proto : Z) : Z :=
  let has f := negb (Z.land proto f =? 0) in
  let l := 0 in
  let l := if has 0x1 && has 0x2 then Z.lor l O_RDWR
           else if has 0x2 then Z.lor l O_WRONLY
           else Z.lor l O_RDONLY in
  let l := if has 0x4 then Z.lor l O_CREAT else l in
  let l := if has 0x8 then Z.lor l O_EXCL else l in
  let l := if has 0x10 then Z.lor l O_TRUNC else l in
  if has 0x20 then Z.lor l O_APPEND else l.

(** ** The stat record on the wire *)

Definition encode_stat (st : c_stat) : bytes :=
  le_bytes 4 (st_mode st) ++ le_bytes 8 (as_u64 (st_size st))
  ++ le_bytes 8 (st_mtime st) ++ le_bytes 8 (st_atime st)
  ++ le_bytes 8 (st_ctime st) ++ le_bytes 4 (st_uid st)
  ++ le_bytes 4 (st_gid st) ++ le_bytes 4 (as_u32 (st_nlink st))
  ++ le_bytes 4 (as_u32 (st_blksize st)) ++ le_bytes 8 (as_u64 (st_blocks st)).

(** ** Handlers

    A reply body is the status byte followed by data or a message. *)

Definition fail (status : Z) (msg : string) : bytes := status :: bs msg.
Definition BAD_PATH : bytes := fail 0x08 "bad path".
Definition SHORT : bytes := fail 0x08 "short".

(** A call whose every failure is the same IoError reply. *)
Definition unit_reply {W} (r : sys unit * W) (msg : string) : bytes * W :=
  match r with
  | (Ok _, w) => ([0], w)
  | (Err _, w) => (fail 0x07 msg, w)
  end.

Definition OwnedFds : Type := gmap Z Z.
Definition track (fd conn : Z) (o : OwnedFds) : OwnedFds := <[fd := conn]> o.
Definition untrack (fd : Z) (o : OwnedFds) : OwnedFds := delete fd o.
Definition count_for (conn : Z) (o : OwnedFds) : Z :=
  zlen (filter (fun p => p.2 = conn) (map_to_list o)).

Section handlers.
Context {W : Type} `{!Libc W}.

Definition handle_open (args : bytes) (w : W) : result (Z * string) Z * W :=
  if zlen args <? 8 then (Err (0x08, "short"%string), w)
  else
    let proto_flags := u32_le_at args 0 in
    let mode := u32_le_at args 4 in
    if zlen args <? 12 then (Err (0x08, "short"%string), w)
    else
      let path_len := u32_le_at args 8 in
      if zlen args <? 12 + path_len then (Err (0x08, "short"%string), w)
      else
        let cpath := slice args 12 path_len ++ [0] in
        match libc_open (c_str cpath) (libc_flags proto_flags) mode w with
        | (Err _, w) => (Err (0x07, "open"%string), w)
        | (Ok fd, w) => (Ok (Prelude.as_u32 fd), w)
        end.

Definition stat_error (errno : Z) : Z * bytes := (stat_status errno, strerror errno).
Definition copy_error (errno : Z) : Z * bytes := (copy_status errno, strerror errno).

Definition do_stat (path : bytes) (w : W) : result (Z * bytes) bytes :=
  match libc_stat (c_str (path ++ [0])) w with
  | Ok st => Ok (encode_stat st)
  | Err e => Err (stat_error e)
  end.

Definition do_lstat (path : bytes) (w : W) : result (Z * bytes) bytes :=
  match libc_lstat (c_str (path ++ [0])) w with
  | Ok st => Ok (encode_stat st)
  | Err e => Err (stat_error e)
  end.

(** *** Directory pages *)

(** [path] with exactly one slash between it and [name]. *)
Definition full_path (path name : bytes) : bytes :=
  (match last path with
   | Some b => if b =? 47 then path else path ++ [47]
   | None => path ++ [47]
   end) ++ name.

Definition is_dot (name : bytes) : bool :=
  bool_decide (name = bs ".") || bool_decide (name = bs "..").

Definition dir_record (name : bytes) (st : c_stat) : bytes :=
  le_bytes 4 (zlen name) ++ name ++ encode_stat st.

(** The [readdir] loop: [seen] counts the names passed, [emitted] the records
    appended to [body]. *)
Fixpoint listdir_loop (w : W) (path : bytes) (offset max_entries : Z)
    (names : list bytes) (seen emitted : Z) (body : bytes) : Z * bytes :=
  match names with
  | [] => (emitted, body)
  | name :: names =>
      if is_dot name then
        listdir_loop w path offset max_entries names seen emitted body
      else
        let seen := seen + 1 in
        if seen <=? offset then
          listdir_loop w path offset max_entries names seen emitted body
        else
          match libc_lstat (c_str (full_path path name ++ [0])) w with
          | Err _ => listdir_loop w path offset max_entries names seen emitted body
          | Ok st =>
              let body := body ++ dir_record name st in
              let emitted := emitted + 1 in
              if emitted >=? max_entries then (emitted, body)
              else listdir_loop w path offset max_entries names seen emitted body
          end
  end.

Definition do_listdir (path : bytes) (offset max_entries : Z) (w : W)
    : result (Z * bytes) bytes :=
  match libc_readdir (c_str (path ++ [0])) w with
  | Err e => Err (stat_error e)
  | Ok names =>
      let '(emitted, body) := listdir_loop w path offset max_entries names 0 0 [] in
      Ok (le_bytes 4 (Prelude.as_u32 emitted) ++ body)
  end.

(** *** Exclusive copy *)

(** [Path::parent] of an absolute path that ends in a normal component. *)
Definition path_parent (p : bytes) : bytes := reverse (rev_trim (rev_dir (reverse p))).

(** An [io::Error]: an errno, or the EOF error the copy raises itself. *)
Inductive io_error : Type := Os (errno : Z) | UnexpectedEof.

Definition copy_io_error (e : io_error) : Z * bytes :=
  match e with
  | Os errno => copy_error errno
  | UnexpectedEof => (0x07, bs "source shortened during copy")
  end.

Definition is_regular (mode : Z) : bool := Z.land mode FileMode.S_IFMT =? FileMode.S_IFREG.

(** Dropping the [File]s: each fd is closed, the outcome ignored. *)
Definition drop_fds (fds : list Z) (w : W) : W :=
  fold_left (fun w fd => (libc_close fd w).2) fds w.

Definition remove_owned_partial (parent : Z) (name : bytes) (file : Z) (w : W) : W :=
  match libc_fstat file w with
  | Err _ => w
  | Ok owned =>
      match libc_fstatat parent name w with
      | Ok current =>
          if (st_dev current =? st_dev owned) && (st_ino current =? st_ino owned)
          then (libc_unlinkat parent name w).2 else w
      | Err _ => w
      end
  end.

Definition copy_into_owned (source size destination parent : Z) (name : bytes) (w : W)
    : result io_error unit * W :=
  let '(res, w) :=
    match libc_copy source destination size w with
    | (Err e, w) => (Err (Os e), drop_fds [source] w)
    | (Ok copied, w) =>
        if negb (copied =? size) then (Err UnexpectedEof, drop_fds [source] w)
        else match libc_fsync destination w with
             | (Err e, w) => (Err (Os e), drop_fds [source] w)
             | (Ok _, w) => (Ok tt, drop_fds [source] w)
             end
    end in
  match res with
  | Err e => (Err e, remove_owned_partial parent name destination w)
  | Ok _ => (Ok tt, w)
  end.

Definition do_copy_file (src dst : bytes) (w : W) : result (Z * bytes) unit * W :=
  if existsb (fun p => negb (starts_with_slash p) || negb (no_nul p)
                       || (zlen p >? MAX_PATH)) [src; dst]
  then (Err (0x08, bs "bad path"), w)
  else
  match libc_open src (Z.lor O_RDONLY (Z.lor O_CLOEXEC (Z.lor O_NOFOLLOW O_NONBLOCK))) 0x1B6 w with
  | (Err e, w) => (Err (copy_error e), w)
  | (Ok source, w) =>
  match libc_fstat source w with
  | Err e => (Err (copy_error e), drop_fds [source] w)
  | Ok metadata =>
  if negb (is_regular (st_mode metadata)) then
    (Err (if FileMode.is_dir (st_mode metadata) then 0x03 else 0x08,
          bs "source must be a regular file"), drop_fds [source] w)
  else
  let name := last_component dst in
  if bool_decide (name = []) || bool_decide (name = bs ".") || bool_decide (name = bs "..")
  then (Err (0x08, bs "destination must name a file"), drop_fds [source] w)
  else
  match libc_open (path_parent dst) (Z.lor O_RDONLY (Z.lor O_CLOEXEC O_DIRECTORY)) 0x1B6 w with
  | (Err e, w) => (Err (copy_error e), drop_fds [source] w)
  | (Ok parent, w) =>
  match libc_openat parent name
          (Z.lor O_WRONLY (Z.lor O_CREAT (Z.lor O_EXCL (Z.lor O_NOFOLLOW O_CLOEXEC)))) 0x1B6 w with
  | (Err e, w) => (Err (copy_error e), drop_fds [parent; source] w)
  | (Ok destination, w) =>
      let '(res, w) := copy_into_owned source (as_u64 (st_size metadata)) destination parent name w in
      (map_err copy_io_error res, drop_fds [destination; parent] w)
  end end end end.

(** *** One reply per op *)

Definition op_open (args : bytes) (conn : Z) (o : OwnedFds) (w : W) : bytes * OwnedFds * W :=
  match handle_open args w with
  | (Ok fd, w) => (0 :: le_bytes 4 fd, track fd conn o, w)
  | (Err (s, msg), w) => (fail s msg, o, w)
  end.

Definition op_close (args : bytes) (o : OwnedFds) (w : W) : bytes * OwnedFds * W :=
  if zlen args <? 4 then (SHORT, o, w)
  else
    let fd := u32_le_at args 0 in
    match libc_close (as_i32 fd) w with
    | (Ok _, w) => ([0], untrack fd o, w)
    | (Err _, w) => (fail 0x07 "close failed", o, w)
    end.

Definition op_read (args : bytes) (w : W) : bytes :=
  if zlen args <? 16 then SHORT
  else
    let fd := u32_le_at args 0 in
    let off := u64_le_at args 4 in
    let len := u32_le_at args 12 in
    if len >? MAX_RESPONSE then fail 0x07 "too big"
    else match libc_pread (as_i32 fd) len (as_i64 off) w with
         | Err _ => fail 0x07 "pread"
         | Ok data => 0 :: data
         end.

Definition op_write (args : bytes) (w : W) : bytes * W :=
  if zlen args <? 16 then (SHORT, w)
  else
    let fd := u32_le_at args 0 in
    let off := u64_le_at args 4 in
    let len := u32_le_at args 12 in
    if zlen args <? 16 + len then (SHORT, w)
    else
      let data := slice args 16 len in
      match libc_pwrite (as_i32 fd) data (as_i64 off) w with
      | (Err _, w) => (fail 0x07 "pwrite", w)
      | (Ok n, w) => if negb (n =? len) then (fail 0x07 "short write", w) else ([0], w)
      end.

Definition data_reply (r : result (Z * bytes) bytes) : bytes :=
  match r with
  | Ok data => 0 :: data
  | Err (s, msg) => s :: msg
  end.

Definition op_stat (op : Z) (args : bytes) (w : W) : bytes :=
  match read_path args with
  | Some (path, _) => data_reply (if op =? 0x05 then do_stat path w else do_lstat path w)
  | None => BAD_PATH
  end.

Definition op_fstat (args : bytes) (w : W) : bytes :=
  if zlen args <? 4 then fail 0x08 "short fstat"
  else match libc_fstat (i32_le_at args 0) w with
       | Err _ => fail 0x07 "fstat"
       | Ok st => 0 :: encode_stat st
       end.

Definition op_listdir (args : bytes) (w : W) : bytes :=
  match read_path args with
  | Some (path, rest) =>
      let '(offset, max_entries) :=
        if 8 <=? zlen rest then (u32_le_at rest 0, u32_le_at rest 4)
        else (0, LISTDIR_PAGE) in
      data_reply (do_listdir path offset (Z.max max_entries 1) w)
  | None => BAD_PATH
  end.

Definition op_mkdir (args : bytes) (w : W) : bytes * W :=
  match read_path args with
  | Some (path, rest) =>
      if zlen rest <? 4 then (SHORT, w)
      else match cstring path with
           | Some p => unit_reply (libc_mkdir p (u32_le_at rest 0) w) "mkdir"
           | None => (BAD_PATH, w)
           end
  | None => (BAD_PATH, w)
  end.

(** [Unlink] and [Rmdir] differ only in the call and its message. *)
Definition op_remove (call : bytes -> W -> sys unit * W) (msg : string)
    (args : bytes) (w : W) : bytes * W :=
  match read_path args with
  | Some (path, _) =>
      match cstring path with
      | Some p => unit_reply (call p w) msg
      | None => (BAD_PATH, w)
      end
  | None => (BAD_PATH, w)
  end.

(** [Rename] and [Symlink]: two NUL-free paths. *)
Definition op_two (call : bytes -> bytes -> W -> sys unit * W) (msg : string)
    (args : bytes) (w : W) : bytes * W :=
  match read_path args with
  | Some (src, rest) =>
      match read_path rest with
      | Some (dst, _) =>
          match cstring src, cstring dst with
          | Some s, Some d => unit_reply (call s d w) msg
          | _, _ => (BAD_PATH, w)
          end
      | None => (BAD_PATH, w)
      end
  | None => (BAD_PATH, w)
  end.

Definition op_truncate (args : bytes) (w : W) : bytes * W :=
  match read_path args with
  | Some (path, rest) =>
      if zlen rest <? 8 then (SHORT, w)
      else match cstring path with
           | Some p => unit_reply (libc_truncate p (as_i64 (u64_le_at rest 0)) w) "truncate"
           | None => (BAD_PATH, w)
           end
  | None => (BAD_PATH, w)
  end.

Definition op_realpath (args : bytes) (w : W) : bytes :=
  match read_path args with
  | Some (path, _) =>
      match cstring path with
      | Some p => match libc_realpath p w with
                  | Err _ => fail 0x01 "realpath"
                  | Ok r => 0 :: le_bytes 4 (as_u32 (zlen r)) ++ r
                  end
      | None => BAD_PATH
      end
  | None => BAD_PATH
  end.

Definition op_readlink (args : bytes) (w : W) : bytes :=
  match read_path args with
  | Some (path, _) =>
      match cstring path with
      | Some p =>
          match libc_readlink p w with
          | Err e =>
              let '(s, msg) := if e =? EINVAL then (0x08, strerror e) else stat_error e in
              s :: msg
          | Ok target => 0 :: le_bytes 4 (as_u32 (zlen target)) ++ target
          end
      | None => BAD_PATH
      end
  | None => BAD_PATH
  end.

Definition op_utime (args : bytes) (w : W) : bytes * W :=
  match read_path args with
  | Some (path, rest) =>
      if zlen rest <? 16 then (SHORT, w)
      else match cstring path with
           | Some p => unit_reply (libc_utimes p (i64_le_at rest 0) (i64_le_at rest 8) w) "utimes"
           | None => (BAD_PATH, w)
           end
  | None => (BAD_PATH, w)
  end.

Definition op_diskusage (args : bytes) (w : W) : bytes :=
  match read_path args with
  | Some (path, _) =>
      match cstring path with
      | Some p => match libc_statvfs p w with
                  | Err _ => fail 0x07 "statvfs"
                  | Ok st => 0 :: le_bytes 8 (f_bavail st) ++ le_bytes 8 (f_blocks st)
                               ++ le_bytes 8 (f_bsize st)
                  end
      | None => BAD_PATH
      end
  | None => BAD_PATH
  end.

Definition op_copyfile (args : bytes) (w : W) : bytes * W :=
  match read_two_paths args with
  | Some (src, dst) =>
      match do_copy_file src dst w with
      | (Ok _, w) => ([0], w)
      | (Err (s, msg), w) => (s :: msg, w)
      end
  | None => (BAD_PATH, w)
  end.

(** ** Dispatch *)

(** A handler that leaves the world, or only the fd table, alone. *)
Definition pure_reply (o : OwnedFds) (w : W) (out : bytes) : bytes * OwnedFds * W := (out, o, w).
Definition world_reply (o : OwnedFds) (r : bytes * W) : bytes * OwnedFds * W := (r.1, o, r.2).

(** The reply body [out] of [dispatch], before framing. *)
Definition reply (op : Z) (args : bytes) (conn : Z) (o : OwnedFds) (w : W)
    : bytes * OwnedFds * W :=
  if op =? 0x01 then op_open args conn o w
  else if op =? 0x02 then op_close args o w
  else if op =? 0x03 then pure_reply o w (op_read args w)
  else if op =? 0x04 then world_reply o (op_write args w)
  else if (op =? 0x05) || (op =? 0x0F) then pure_reply o w (op_stat op args w)
  else if op =? 0x13 then pure_reply o w (op_fstat args w)
  else if op =? 0x06 then pure_reply o w (op_listdir args w)
  else if op =? 0x07 then world_reply o (op_mkdir args w)
  else if op =? 0x08 then world_reply o (op_remove libc_unlink "unlink" args w)
  else if op =? 0x09 then world_reply o (op_remove libc_rmdir "rmdir" args w)
  else if op =? 0x0A then world_reply o (op_two libc_rename "rename" args w)
  else if op =? 0x0B then world_reply o (op_truncate args w)
  else if op =? 0x0C then pure_reply o w (op_realpath args w)
  else if op =? 0x0D then pure_reply o w (op_readlink args w)
  else if op =? 0x0E then world_reply o (op_two libc_symlink "symlink" args w)
  else if op =? 0x10 then world_reply o (op_utime args w)
  else if op =? 0x11 then pure_reply o w (op_diskusage args w)
  else if op =? 0x12 then world_reply o (op_copyfile args w)
  else pure_reply o w (fail 0x0B "unknown op").

Definition frame_reply (out : bytes) : bytes := le_bytes 4 (as_u32 (zlen out)) ++ out.

Definition dispatch (op : Z) (args : bytes) (conn : Z) (o : OwnedFds) (w : W)
    : bytes * OwnedFds * W :=
  let '(out, o, w) := reply op args conn o w in (frame_reply out, o, w).

(** ** The request loop *)

Inductive conn_end : Type := Eof | PrematureEof | TooBig | OutOfFuel.

(** The oversized-frame answer, after which the connection is dropped. *)
Definition too_big_reply (len : Z) : bytes :=
  frame_reply (0x08 :: bs "request too big: " ++ fmt_dec len ++ bs " bytes").

(** [handle_connection]: the replies written, in order, how the connection
    ended, and the state it leaves. One unit of fuel per request. *)
Fixpoint handle_connection (fuel : nat) (conn : Z) (buf : bytes) (chunks : list bytes)
    (o : OwnedFds) (w : W) : list bytes * conn_end * OwnedFds * W :=
  match fuel with
  | O => ([], OutOfFuel, o, w)
  | S fuel =>
      match fill 5 buf chunks with
      | None => ([], Eof, o, w)
      | Some (buf, chunks) =>
          let len := u32_le_at buf 1 in
          if len >? MAX_REQUEST then ([too_big_reply len], TooBig, o, w)
          else match fill (5 + len) buf chunks with
               | None => ([], PrematureEof, o, w)
               | Some (buf, chunks) =>
                   let op := default 0 (head buf) in
                   let args := slice buf 5 len in
                   let buf := zdrop (5 + len) buf in
                   let '(response, o, w) := dispatch op args conn o w in
                   let '(out, e, o, w) := handle_connection fuel conn buf chunks o w in
                   (response :: out, e, o, w)
               end
      end
  end.

(** The same server reading one contiguous byte string: the specification of
    the loop. *)
Fixpoint serve_bytes (fuel : nat) (conn : Z) (s : bytes) (o : OwnedFds) (w : W)
    : list bytes * conn_end * OwnedFds * W :=
  match fuel with
  | O => ([], OutOfFuel, o, w)
  | S fuel =>
      if zlen s <? 5 then ([], Eof, o, w)
      else
        let len := u32_le_at s 1 in
        if len >? MAX_REQUEST then ([too_big_reply len], TooBig, o, w)
        else if zlen s <? 5 + len then ([], PrematureEof, o, w)
        else
          let '(response, o, w) := dispatch (default 0 (head s)) (slice s 5 len) conn o w in
          let '(out, e, o, w) := serve_bytes fuel conn (zdrop (5 + len) s) o w in
          (response :: out, e, o, w)
  end.

Lemma handle_connection_serve fuel conn buf chunks o w :
  nonempty_chunks chunks ->
  handle_connection fuel conn buf chunks o w =
  serve_bytes fuel conn (buf ++ concat chunks) o w.
Proof.
  revert buf chunks o w. induction fuel as [|fuel IH]; intros buf chunks o w Hne; [done|].
  cbn [handle_connection serve_bytes].
  pose proof (fill_spec 5 buf chunks Hne) as Hf.
  destruct (fill 5 buf chunks) as [[buf1 ch1]|]; [|by decide_if].
  destruct Hf as (Hl & _ & <- & Hne1).
  replace (zlen (buf1 ++ concat ch1) <? 5) with false by (symmetry; apply Z.ltb_ge; len_lia).
  unfold u32_le_at. rewrite (slice_app_l buf1 (concat ch1) 1) by len_lia.
  fold (u32_le_at buf1 1). case_bool; [done|].
  pose proof (fill_spec (5 + u32_le_at buf1 1) buf1 ch1 Hne1) as Hf2.
  destruct (fill _ buf1 ch1) as [[buf2 ch2]|]; [|by decide_if].
  destruct Hf2 as (Hl2 & Hle & <- & Hne2). decide_if.
  rewrite head_app_l, slice_app_l, zdrop_app_l by len_lia.
  destruct (dispatch _ _ _ _ _) as [[response o'] w']. by rewrite IH.
Qed.

(** Each request consumes at least five bytes, so the loop runs out of input
    before it runs out of fuel. *)
Lemma serve_bytes_fuel fuel conn s o w :
  Forall u8_ok s -> zlen s < Z.of_nat fuel ->
  (serve_bytes fuel conn s o w).1.1.2 <> OutOfFuel.
Proof.
  revert s o w. induction fuel as [|fuel IH]; intros s o w Hu Hl; [len_lia|].
  cbn [serve_bytes]. repeat case_bool; try done. bool_to_prop.
  destruct (dispatch _ _ _ _ _) as [[response o'] w'] eqn:Hd.
  specialize (IH (zdrop (5 + u32_le_at s 1) s) o' w').
  destruct (serve_bytes _ _ _ _ _) as [[[out e] o''] w'']. apply IH.
  - by apply Forall_drop.
  - assert (0 <= u32_le_at s 1) by (apply le_val_bound, Forall_take, Forall_drop, Hu).
    rewrite zlen_zdrop. lia.
Qed.

(** C9: The request loop is independent of how TCP fragments the stream: on any
    sequence of non-empty reads it sends the same replies, ends the same way
    and leaves the same state as the server reading the concatenated bytes at
    once; and with one unit of fuel per byte it always reaches an end of
    connection (it never stops for lack of fuel). *)
Theorem handle_connection_chunking (conn : Z) (chunks : list bytes) (o : OwnedFds) (w : W) :
  nonempty_chunks chunks -> Forall u8_ok (concat chunks) ->
  let fuel := S (length (concat chunks)) in
  handle_connection fuel conn [] chunks o w = serve_bytes fuel conn (concat chunks) o w
  /\ (handle_connection fuel conn [] chunks o w).1.1.2 <> OutOfFuel.
Proof.
  intros Hne Hu fuel. rewrite handle_connection_serve by done. split; [done|].
  apply serve_bytes_fuel; [done|]. unfold fuel, zlen. simpl. lia.
Qed.

End handlers.

Lemma handle_connection_chunking_witness :
  let chunks := [[5; 6; 0]; [0; 0; 2; 0; 0; 0]; [47; 100]] in
  handle_connection 12 1 [] chunks ∅ (MemFs.with_files [])
    = serve_bytes 12 1 (concat chunks) ∅ (MemFs.with_files [])
  /\ (handle_connection 12 1 [] chunks ∅ (MemFs.with_files [])).1.1.2 <> OutOfFuel.
Proof.
  intros chunks. apply (handle_connection_chunking 1 chunks ∅ (MemFs.with_files [])).
  - repeat constructor; done.
  - vm_compute. repeat constructor; done.
Defined.
