(* ===== verification/DeviceServer.v ===== *)
(** * The device server's connections and idle watchdogs

    [main], [next_conn_id] and [spawn_idle_watchdog] of
    adbshare-proxy-device/src/main.rs: the listener that gives every
    connection an id and a task, and the thread beside each connection that
    shuts its socket down when it is idle. What a request does is
    [DeviceProxy]; here it is its changes of the table of open files. An event
    is a step of the listener, of a connection's task, of a watchdog's thread or of the clock,
    in seconds. *)

From stdpp Require Import base gmap list.
From S2P Require Import Prelude DeviceProxy.

Definition IDLE_TIMEOUT : Z := 5 * 60.

(** ** State *)

(** What the task of a connection is doing. *)
Inductive task := Reading | Dispatching | Over.
(** A watchdog: none could be started; it waits for a message until the time; it found the
    connection idle and is about to shut the socket down; its thread has ended. *)
Inductive watch := Unwatched | Waiting (until : Z) | Closing | Ended.
(** [sock] is the number of the socket's descriptor; [sent] counts the messages in the watchdog's
    channel; [shut]: the socket was shut down. [last_touch] only records, for the
    statements, when the last message was sent. *)
Record conn := mkConn {
  id : Z; sock : Z; doing : task; watchdog : watch; sent : nat; shut : bool; last_touch : Z }.

Record server := mkServer { conns : list conn; next_id : Z; owned : OwnedFds; now : Z }.
Definition started : server := mkServer [] 0 ∅ 0.

Definition with_conns (cs : list conn) (s : server) : server := mkServer cs (next_id s) (owned s) (now s).
Definition on_conn (i : nat) (f : conn -> conn) (s : server) : server := with_conns (alter f i (conns s)) s.

(** The descriptors of the connections that are not over. *)
Definition open_socks (s : server) : list Z := omap (fun c => match doing c with Over => None | _ => Some (sock c) end) (conns s).

(** ** The listener *)

(** [next_conn_id], and what [handle_connection] does first. The counter is a u64, which no number of
    connections a device lives to see wraps. *)
Definition next_conn_id (s : server) : Z * server := (next_id s + 1, mkServer (conns s) (next_id s + 1) (owned s) (now s)).
Definition spawn_idle_watchdog (thread_ok : bool) (t : Z) : watch := if thread_ok then Waiting (t + IDLE_TIMEOUT) else Unwatched.
(** The kernel gives the socket a number that is not in use. *)
Definition accept (fd : Z) (thread_ok : bool) (s : server) : server :=
  if bool_decide (fd ∈ open_socks s) then s else
  let '(i, s) := next_conn_id s in
  with_conns (conns s ++ [mkConn i fd Reading (spawn_idle_watchdog thread_ok (now s)) 0 false (now s)]) s.

(** ** A connection *)

(** [touch]; nobody receives it when the thread is gone. *)
Definition touch (t : Z) (c : conn) : conn :=
  mkConn (id c) (sock c) (doing c) (watchdog c) (match watchdog c with Waiting _ => S (sent c) | _ => sent c end) (shut c) t.
Definition set_doing (d : task) (c : conn) : conn :=
  mkConn (id c) (sock c) d (watchdog c) (sent c) (shut c) (last_touch c).

(** A whole request was read. *)
Definition request_read (t : Z) (c : conn) : conn :=
  match doing c with Reading => set_doing Dispatching (touch t c) | _ => c end.
(** Its reply was written. *)
Definition reply_written (t : Z) (c : conn) : conn :=
  match doing c with Dispatching => set_doing Reading (touch t c) | _ => c end.
(** The peer closed, a read or a write failed: the socket is closed and the sender dropped. *)
Definition connection_ends (c : conn) : conn := set_doing Over c.

(** ** A watchdog *)

Definition set_watchdog (w : watch) (c : conn) : conn :=
  mkConn (id c) (sock c) (doing c) w (sent c) (shut c) (last_touch c).
Definition is_over (c : conn) : bool := match doing c with Over => true | _ => false end.

(** [recv_timeout]: a message, the end of the channel, or the time. *)
Definition receive (t : Z) (c : conn) : conn :=
  match watchdog c, sent c with
  | Waiting _, S n => mkConn (id c) (sock c) (doing c) (Waiting (t + IDLE_TIMEOUT)) n (shut c) (last_touch c)
  | Waiting _, O => if is_over c then set_watchdog Ended c else c
  | _, _ => c
  end.
Definition time_out (o : OwnedFds) (t : Z) (c : conn) : conn :=
  match watchdog c, sent c with
  | Waiting until, O =>
      if is_over c || (t <? until) then c
      else if count_for (id c) o >? 0 then set_watchdog (Waiting (t + IDLE_TIMEOUT)) c
      else mkConn (id c) (sock c) (doing c) Closing O (shut c) (last_touch c)
  | _, _ => c
  end.

(** [libc::shutdown] on the number of a descriptor: whichever socket has it now. *)
Definition shut_sock (fd : Z) (c : conn) : conn :=
  if negb (is_over c) && (sock c =? fd) then
    mkConn (id c) (sock c) (doing c) (watchdog c) (sent c) true (last_touch c) else c.
Definition shut_down (i : nat) (s : server) : server :=
  match conns s !! i with
  | Some c => match watchdog c with
              | Closing => on_conn i (set_watchdog Ended) (with_conns (shut_sock (sock c) <$> conns s) s)
              | _ => s
              end
  | None => s
  end.

(** ** Events *)

Inductive event :=
| Accepted (fd : Z) (thread_ok : bool) | RequestRead (i : nat) | Opened (i : nat) (fd : Z) | Closed (i : nat) (fd : Z)
| ReplyWritten (i : nat) | Ends (i : nat) | Received (i : nat) | TimedOut (i : nat) | ShutDown (i : nat) | Elapsed (seconds : Z).

(** [Opened] and [Closed]: the request a connection is working on opened or closed a file. *)
Definition in_dispatch (i : nat) (f : Z -> OwnedFds -> OwnedFds) (s : server) : server :=
  match conns s !! i with
  | Some c => match doing c with
              | Dispatching => mkServer (conns s) (next_id s) (f (id c) (owned s)) (now s)
              | _ => s
              end
  | None => s
  end.
Definition step (s : server) (e : event) : server :=
  match e with
  | Accepted fd ok => accept fd ok s
  | RequestRead i => on_conn i (request_read (now s)) s
  | Opened i fd => in_dispatch i (fun c => track fd c) s
  | Closed i fd => in_dispatch i (fun _ => untrack fd) s
  | ReplyWritten i => on_conn i (reply_written (now s)) s
  | Ends i => on_conn i connection_ends s
  | Received i => on_conn i (receive (now s)) s
  | TimedOut i => on_conn i (time_out (owned s) (now s)) s
  | ShutDown i => shut_down i s
  | Elapsed d => mkServer (conns s) (next_id s) (owned s) (now s + Z.max 0 d)
  end.
Definition run (es : list event) : server := foldl step started es.

(** ** Proofs *)

Lemma run_snoc es e : run (es ++ [e]) = step (run es) e.
Proof. unfold run. by rewrite foldl_snoc. Qed.

(** Messages that were received put the time off. *)
Definition timed (t : Z) (c : conn) : Prop :=
  last_touch c <= t
  /\ forall u, watchdog c = Waiting u -> u <= t + IDLE_TIMEOUT /\ (sent c = O -> last_touch c + IDLE_TIMEOUT <= u).
Lemma timed_later t t' c : t <= t' -> timed t c -> timed t' c.
Proof. intros Ht [H1 H2]. split; [lia|]. intros u Hu. destruct (H2 u Hu). split; [lia|done]. Qed.
Lemma timed_touch t c d : timed t c -> timed t (set_doing d (touch t c)).
Proof. intros [H1 H2]. split; cbn; [lia|]. intros u Hu. destruct (H2 u Hu) as [H3 _]. rewrite Hu. by split. Qed.
Lemma timed_shut t fd c : timed t c -> timed t (shut_sock fd c).
Proof. unfold shut_sock. by destruct (_ && _). Qed.
Lemma timed_ended t c : timed t c -> timed t (set_watchdog Ended c).
Proof. intros [H1 H2]. by split. Qed.
Lemma timed_receive t c : timed t c -> timed t (receive t c).
Proof.
  intros H. unfold receive. destruct (watchdog c) as [|u| |] eqn:Ew; try done. destruct (sent c) as [|n] eqn:Es.
  - destruct (is_over c); [by apply timed_ended|done].
  - destruct H as [H1 _]. split; cbn; [done|]. intros u' [= <-]. lia.
Qed.
Lemma timed_time_out o t c : timed t c -> timed t (time_out o t c).
Proof.
  intros H. unfold time_out. destruct (watchdog c) as [|u| |] eqn:Ew; try done. destruct (sent c) as [|n] eqn:Es; [|done].
  destruct (_ || _); [done|]. destruct H as [H1 _]. destruct (_ >? 0); split; cbn; try done. intros u' [= <-]. lia.
Qed.

Lemma timed_alter s i f : Forall (timed (now s)) (conns s) -> (forall c, timed (now s) c -> timed (now s) (f c)) ->
  Forall (timed (now (on_conn i f s))) (conns (on_conn i f s)).
Proof. intros H Hf. unfold on_conn, with_conns. cbn. apply Forall_alter; [done|]. intros c _ Hc. by apply Hf. Qed.

Lemma always_timed es : Forall (timed (now (run es))) (conns (run es)).
Proof.
  induction es as [|e es IH] using rev_ind; [constructor|]. rewrite run_snoc. set (s := run es) in *. destruct e; cbn [step].
  - unfold accept. case_bool; [done|]. cbn. apply Forall_app. split; [done|]. apply Forall_singleton. split; cbn; [lia|].
    intros u. unfold spawn_idle_watchdog. destruct thread_ok; [intros [= <-]; lia|done].
  - apply timed_alter; [done|]. intros c Hc. unfold request_read. destruct (doing c); [by apply timed_touch|done..].
  - unfold in_dispatch. destruct (conns s !! i) as [c|]; [|done]. by destruct (doing c).
  - unfold in_dispatch. destruct (conns s !! i) as [c|]; [|done]. by destruct (doing c).
  - apply timed_alter; [done|]. intros c Hc. unfold reply_written. destruct (doing c); [done|by apply timed_touch|done].
  - apply timed_alter; [done|]. by intros c [H1 H2].
  - apply timed_alter; [done|]. intros c Hc. by apply timed_receive.
  - apply timed_alter; [done|]. intros c Hc. by apply timed_time_out.
  - unfold shut_down. destruct (conns s !! i) as [c|]; [|done]. destruct (watchdog c); try done.
    apply timed_alter; [|intros; by apply timed_ended]. cbn. apply Forall_fmap. eapply Forall_impl; [exact IH|]. intros c' Hc'. by apply timed_shut.
  - cbn. eapply Forall_impl; [exact IH|]. intros c Hc. eapply timed_later; [|exact Hc]. lia.
Qed.

(** The descriptors of open connections differ. *)
Lemma open_socks_alter f i s : (forall c, is_over (f c) = is_over c /\ sock (f c) = sock c) -> open_socks (on_conn i f s) = open_socks s.
Proof.
  intros Hf. unfold open_socks, on_conn, with_conns. cbn. revert i. induction (conns s) as [|c cs IH]; intros [|i]; cbn; try done.
  - destruct (Hf c) as [H1 H2]. unfold is_over in H1. rewrite H2. by destruct (doing (f c)), (doing c).
  - by rewrite IH.
Qed.
Lemma open_socks_fmap f s : (forall c, is_over (f c) = is_over c /\ sock (f c) = sock c) -> open_socks (with_conns (f <$> conns s) s) = open_socks s.
Proof.
  intros Hf. unfold open_socks, with_conns. cbn. induction (conns s) as [|c cs IH]; cbn; [done|]. rewrite IH.
  destruct (Hf c) as [H1 H2]. unfold is_over in H1. rewrite H2. by destruct (doing (f c)), (doing c).
Qed.
Lemma ends_socks i s : open_socks (on_conn i connection_ends s) `sublist_of` open_socks s.
Proof.
  unfold open_socks, on_conn, with_conns. cbn. revert i. induction (conns s) as [|c cs IH]; intros [|i]; cbn; try done.
  - destruct (doing c); by try apply sublist_cons.
  - destruct (doing c); try apply sublist_skip; apply IH.
Qed.
Lemma shut_sock_same fd c : is_over (shut_sock fd c) = is_over c /\ sock (shut_sock fd c) = sock c.
Proof. unfold shut_sock. by destruct (_ && _). Qed.
Lemma shut_down_socks i s : open_socks (shut_down i s) = open_socks s.
Proof.
  unfold shut_down. destruct (conns s !! i) as [c|]; [|done]. destruct (watchdog c); try done.
  rewrite open_socks_alter by done. apply open_socks_fmap. intros c'. apply shut_sock_same.
Qed.
Lemma always_distinct es : NoDup (open_socks (run es)).
Proof.
  induction es as [|e es IH] using rev_ind; [constructor|]. rewrite run_snoc. set (s := run es) in *. destruct e; cbn [step].
  - unfold accept. case_bool; bool_to_prop; [done|]. unfold open_socks in *. cbn. rewrite omap_app. cbn. apply NoDup_app. split_and!; [done| |by apply NoDup_singleton].
    intros x Hx ->%list_elem_of_singleton. done.
  - rewrite open_socks_alter; [done|]. intros c. unfold request_read. destruct (doing c) eqn:E; unfold is_over; cbn; by rewrite ?E.
  - unfold in_dispatch. destruct (conns s !! i) as [c|]; [|done]. by destruct (doing c).
  - unfold in_dispatch. destruct (conns s !! i) as [c|]; [|done]. by destruct (doing c).
  - rewrite open_socks_alter; [done|]. intros c. unfold reply_written. destruct (doing c) eqn:E; unfold is_over; cbn; by rewrite ?E.
  - eapply sublist_NoDup; [exact IH|]. apply ends_socks.
  - rewrite open_socks_alter; [done|]. intros c. unfold receive. destruct (watchdog c), (sent c); try done. by destruct (is_over c) eqn:E; unfold is_over in *; cbn; rewrite ?E.
  - rewrite open_socks_alter; [done|]. intros c. unfold time_out. destruct (watchdog c), (sent c); try done. destruct (_ || _); [done|]. by destruct (_ >? 0).
  - by rewrite shut_down_socks.
  - done.
Qed.

(** What an event does to connection [i]. *)
Definition local (s : server) (e : event) (i : nat) (c : conn) : conn :=
  match e with
  | RequestRead j => if decide (j = i) then request_read (now s) c else c
  | ReplyWritten j => if decide (j = i) then reply_written (now s) c else c
  | Ends j => if decide (j = i) then connection_ends c else c
  | Received j => if decide (j = i) then receive (now s) c else c
  | TimedOut j => if decide (j = i) then time_out (owned s) (now s) c else c
  | ShutDown j =>
      match conns s !! j with
      | Some cj => match watchdog cj with
                   | Closing => (if decide (j = i) then set_watchdog Ended else fun c => c) (shut_sock (sock cj) c)
                   | _ => c
                   end
      | None => c
      end
  | Accepted _ _ | Opened _ _ | Closed _ _ | Elapsed _ => c
  end.
Lemma lookup_on_conn j f s i : conns (on_conn j f s) !! i = (fun c => if decide (j = i) then f c else c) <$> conns s !! i.
Proof.
  unfold on_conn, with_conns. cbn. destruct (decide (j = i)) as [->|Hne]; [by rewrite list_lookup_alter_eq; destruct (conns s !! i)|].
  rewrite list_lookup_alter_ne by done. by destruct (conns s !! i).
Qed.
Lemma lookup_step s e i : (i < length (conns s))%nat -> conns (step s e) !! i = local s e i <$> conns s !! i.
Proof.
  intros Hi. assert (Hid : conns s !! i = (fun c => c) <$> conns s !! i) by (by destruct (conns s !! i)).
  destruct e; cbn [step local]; try apply lookup_on_conn; try exact Hid.
  - unfold accept. case_bool; [exact Hid|]. cbn. rewrite lookup_app_l by done. exact Hid.
  - unfold in_dispatch. destruct (conns s !! i0) as [c|]; [|exact Hid]. by destruct (doing c).
  - unfold in_dispatch. destruct (conns s !! i0) as [c|]; [|exact Hid]. by destruct (doing c).
  - destruct (conns s !! i) as [ci|] eqn:Ei; cbn [fmap option_fmap option_map local]; unfold shut_down.
    + destruct (conns s !! i0) as [c|] eqn:E; [|done]. destruct (watchdog c); try done.
      rewrite lookup_on_conn. cbn. rewrite list_lookup_fmap, Ei. cbn. by destruct (decide (i0 = i)).
    + apply lookup_ge_None in Ei. lia.
Qed.
Lemma step_length s e : (length (conns s) <= length (conns (step s e)))%nat.
Proof.
  destruct e; cbn [step]; unfold on_conn; cbn; rewrite ?length_alter; try done.
  - unfold accept. case_bool; [done|]. cbn. rewrite length_app. lia.
  - unfold in_dispatch. destruct (conns s !! i) as [c|]; [|done]. by destruct (doing c).
  - unfold in_dispatch. destruct (conns s !! i) as [c|]; [|done]. by destruct (doing c).
  - unfold shut_down. destruct (conns s !! i) as [c|]; [|done]. destruct (watchdog c); try done. unfold on_conn. cbn. by rewrite length_alter, length_fmap.
Qed.

(** A connection after an event: what it was before, or a new one. *)
Lemma step_origin s e i c : conns (step s e) !! i = Some c ->
  (exists c0, conns s !! i = Some c0 /\ c = local s e i c0)
  \/ (conns s !! i = None /\ shut c = false /\ watchdog c <> Closing /\ is_over c = false).
Proof.
  intros H. destruct (decide (i < length (conns s))%nat) as [Hi|Hi].
  - rewrite lookup_step in H by done. destruct (conns s !! i) as [c0|] eqn:E; [|done]. injection H as <-. left. eauto.
  - right. split; [by apply lookup_ge_None_2; lia|]. destruct e; cbn [step] in H; try (rewrite lookup_on_conn, lookup_ge_None_2 in H by lia; done).
    all: try (by apply lookup_lt_Some in H; cbn in H; lia).
    + unfold accept in H. revert H. case_bool; [intros H; by apply lookup_lt_Some in H; lia|]. cbn. rewrite lookup_app_r by lia.
      intros [_ <-]%list_lookup_singleton_Some. split_and!; try done. cbn. unfold spawn_idle_watchdog. by destruct thread_ok.
    + unfold in_dispatch in H. destruct (conns s !! i0) as [c1|]; [destruct (doing c1)|]; apply lookup_lt_Some in H; cbn in H; lia.
    + unfold in_dispatch in H. destruct (conns s !! i0) as [c1|]; [destruct (doing c1)|]; apply lookup_lt_Some in H; cbn in H; lia.
    + unfold shut_down in H. destruct (conns s !! i0) as [c1|]; [destruct (watchdog c1)|]; apply lookup_lt_Some in H; cbn in H; rewrite ?length_alter, ?length_fmap in H; lia.
Qed.

Definition idle_at (es : list event) (i : nat) (c : conn) : Prop :=
  exists c1, conns (run es) !! i = Some c1 /\ sock c1 = sock c /\ id c1 = id c /\ is_over c1 = false
    /\ last_touch c1 + IDLE_TIMEOUT <= now (run es) /\ count_for (id c1) (owned (run es)) = 0.
Definition found_idle (es : list event) (i : nat) (c : conn) : Prop := exists es1 es2, es = es1 ++ TimedOut i :: es2 /\ idle_at es1 i c.

Lemma shut_sock_keeps fd c : id (shut_sock fd c) = id c /\ sock (shut_sock fd c) = sock c /\ watchdog (shut_sock fd c) = watchdog c.
Proof. unfold shut_sock. by destruct (_ && _). Qed.
Lemma local_same s e i c : id (local s e i c) = id c /\ sock (local s e i c) = sock c.
Proof.
  destruct e as [fd ok|j|j fd|j fd|j|j|j|j|j|d]; cbn [local]; try done; try (case_decide; [|done]); try done.
  - unfold request_read. by destruct (doing c).
  - unfold reply_written. by destruct (doing c).
  - unfold receive. destruct (watchdog c), (sent c); try done. by destruct (is_over c).
  - unfold time_out. destruct (watchdog c), (sent c); try done. destruct (_ || _); [done|]. by destruct (_ >? 0).
  - destruct (conns s !! j) as [cj|]; [|done]. destruct (watchdog cj); try done. destruct (shut_sock_keeps (sock cj) c) as (H1 & H2 & _). by case_decide.
Qed.
Lemma local_closing s e i c : watchdog (local s e i c) = Closing ->
  watchdog c = Closing
  \/ e = TimedOut i /\ sent c = O /\ is_over c = false /\ count_for (id c) (owned s) <= 0 /\ exists u, watchdog c = Waiting u /\ u <= now s.
Proof.
  destruct e as [fd ok|j|j fd|j fd|j|j|j|j|j|d]; cbn [local]; try (by left); try (case_decide; [subst j|by left]).
  - unfold request_read. destruct (doing c); by left.
  - unfold reply_written. destruct (doing c); by left.
  - by left.
  - unfold receive. destruct (watchdog c) as [|u| |] eqn:Ew; [by rewrite Ew| |by left|by rewrite Ew].
    destruct (sent c); [destruct (is_over c)|]; cbn; by rewrite ?Ew.
  - unfold time_out. destruct (watchdog c) as [|u| |] eqn:Ew; [by rewrite Ew| |by left|by rewrite Ew]. destruct (sent c) eqn:Es; [|by rewrite Ew].
    destruct (is_over c) eqn:Eo; cbn [orb]; [by rewrite Ew|]. case_bool; bool_to_prop; [by rewrite Ew|]. case_bool; bool_to_prop; [done|].
    intros _. right. split_and!; try done; try lia. exists u. split; [done|lia].
  - destruct (conns s !! j) as [cj|]; [|by left]. destruct (watchdog cj); try (by left).
    destruct (shut_sock_keeps (sock cj) c) as (_ & _ & H). case_decide; cbn; [done|]. rewrite H. by left.
Qed.

Lemma count_for_nonneg i o : 0 <= count_for i o.
Proof. apply zlen_nonneg. Qed.
Lemma closing_was_idle es i c : conns (run es) !! i = Some c -> watchdog c = Closing -> found_idle es i c.
Proof.
  revert c. induction es as [|e es IH] using rev_ind; [done|]. intros c. rewrite run_snoc. intros Hc Hw.
  destruct (step_origin _ _ _ _ Hc) as [(c0 & Hc0 & ->)|(_ & _ & H & _)]; [|done].
  destruct (local_same (run es) e i c0) as [Hid Hs].
  destruct (local_closing _ _ _ _ Hw) as [Hw0|(-> & Hn & Ho & Hk & u & Hu & Hl)].
  - destruct (IH c0 Hc0 Hw0) as (es1 & es2 & -> & c1 & H). exists es1, (es2 ++ [e]). split; [by rewrite <- app_assoc|].
    exists c1. by rewrite Hid, Hs.
  - exists es, []. split; [done|]. exists c0. split_and!; try done.
    + pose proof (always_timed es) as Ht. rewrite Forall_lookup in Ht. destruct (Ht i c0 Hc0) as [_ Ht']. destruct (Ht' u Hu) as [_ H]. specialize (H Hn). lia.
    + pose proof (count_for_nonneg (id c0) (owned (run es))). lia.
Qed.

Lemma distinct_index {A} (f : A -> option Z) l i j a b x : NoDup (omap f l) ->
  l !! i = Some a -> l !! j = Some b -> f a = Some x -> f b = Some x -> i = j.
Proof.
  revert i j. induction l as [|y l IH]; intros i j Hd Ha Hb Hfa Hfb; [done|].
  assert (Hx : forall k z, l !! k = Some z -> f z = Some x -> x ∈ omap f l) by (intros k z Hk Hz; apply list_elem_of_omap; eexists; split; [by eapply list_elem_of_lookup_2|done]).
  destruct i as [|i], j as [|j]; cbn in *; simplify_eq; try done.
  - exfalso. rewrite Hfa in Hd. apply NoDup_cons in Hd as [Hn _]. eapply Hn, Hx; done.
  - exfalso. rewrite Hfb in Hd. apply NoDup_cons in Hd as [Hn _]. eapply Hn, Hx; done.
  - f_equal. eapply IH; try done. destruct (f y); [by apply NoDup_cons in Hd as [_ Hd]|done].
Qed.
Lemma same_sock es i j a b : conns (run es) !! i = Some a -> conns (run es) !! j = Some b ->
  is_over a = false -> is_over b = false -> sock a = sock b -> i = j.
Proof.
  intros Ha Hb Oa Ob Hs. eapply (distinct_index _ _ i j a b (sock a) (always_distinct es)); try done; unfold is_over in *; cbn.
  - by destruct (doing a).
  - rewrite Hs. by destruct (doing b).
Qed.

(** A socket that is shut was shut by a watchdog of its number. *)
Definition shut_by (es : list event) (i : nat) (c : conn) : Prop :=
  exists es1 j cj es2, es = es1 ++ ShutDown j :: es2 /\ conns (run es1) !! j = Some cj /\ watchdog cj = Closing /\ sock cj = sock c
    /\ (j = i \/ is_over cj = true).
Lemma local_shut s e i c : shut (local s e i c) = true -> shut c = true
  \/ exists j cj, e = ShutDown j /\ conns s !! j = Some cj /\ watchdog cj = Closing /\ sock cj = sock c /\ is_over c = false.
Proof.
  destruct e as [fd ok|j|j fd|j fd|j|j|j|j|j|d]; cbn [local]; try (by left); try (case_decide; [subst j|by left]).
  - unfold request_read. destruct (doing c); by left.
  - unfold reply_written. destruct (doing c); by left.
  - by left.
  - unfold receive. destruct (watchdog c), (sent c); try (by left). destruct (is_over c); by left.
  - unfold time_out. destruct (watchdog c), (sent c); try (by left). destruct (_ || _); [by left|]. destruct (_ >? 0); by left.
  - destruct (conns s !! j) as [cj|] eqn:Ej; [|by left]. destruct (watchdog cj) eqn:Ew; try (by left). intros H.
    assert (H' : shut (shut_sock (sock cj) c) = true) by (by case_decide). unfold shut_sock in H'.
    destruct (negb (is_over c) && (sock c =? sock cj)) eqn:E; [|by left]. bool_to_prop. right. exists j, cj. by destruct (is_over c).
Qed.
Lemma shut_was_closing es i c : conns (run es) !! i = Some c -> shut c = true -> shut_by es i c.
Proof.
  revert c. induction es as [|e es IH] using rev_ind; [done|]. intros c. rewrite run_snoc. intros Hc Hw.
  destruct (step_origin _ _ _ _ Hc) as [(c0 & Hc0 & ->)|(_ & H & _)]; [|congruence].
  destruct (local_same (run es) e i c0) as [_ Hs]. destruct (local_shut _ _ _ _ Hw) as [Hw0|(j & cj & -> & Hj & Hcl & Hsock & Ho)].
  - destruct (IH c0 Hc0 Hw0) as (es1 & j & cj & es2 & -> & H). exists es1, j, cj, (es2 ++ [e]). rewrite Hs. split; [by rewrite <- app_assoc|done].
  - exists es, j, cj, []. rewrite Hs. split_and!; try done. destruct (is_over cj) eqn:Oj; [by right|left]. by eapply (same_sock es j i cj c0).
Qed.

(** The watchdog takes its messages. *)
Lemma drain n es i c u : conns (run es) !! i = Some c -> watchdog c = Waiting u -> sent c = n ->
  let s := run (es ++ replicate n (Received i)) in
  owned s = owned (run es) /\ now s = now (run es)
  /\ exists c' u', conns s !! i = Some c' /\ watchdog c' = Waiting u' /\ sent c' = O /\ id c' = id c /\ doing c' = doing c.
Proof.
  revert es c u. induction n as [|n IH]; intros es c u Hc Hw Hn; cbv zeta.
  { cbn [replicate]. rewrite app_nil_r. eauto 10. }
  cbn [replicate]. rewrite cons_middle, app_assoc.
  assert (Hr : conns (run (es ++ [Received i])) !! i = Some (receive (now (run es)) c)).
  { rewrite run_snoc. cbn [step]. rewrite lookup_on_conn, Hc. cbn. by rewrite decide_True. }
  assert (E : receive (now (run es)) c = mkConn (id c) (sock c) (doing c) (Waiting (now (run es) + IDLE_TIMEOUT)) n (shut c) (last_touch c))
    by (unfold receive; by rewrite Hw, Hn).
  rewrite E in Hr. destruct (IH _ _ _ Hr eq_refl eq_refl) as (H1 & H2 & c' & u' & H3). rewrite H1, H2.
  split; [by rewrite run_snoc|]. split; [by rewrite run_snoc|]. exists c', u'. by destruct H3 as (? & ? & ? & ? & ?).
Qed.

Definition closes_idle (n i : nat) : list event := replicate n (Received i) ++ [Elapsed IDLE_TIMEOUT; TimedOut i; ShutDown i].
Lemma idle_is_closed es i c u : conns (run es) !! i = Some c -> is_over c = false -> watchdog c = Waiting u ->
  count_for (id c) (owned (run es)) = 0 ->
  shut <$> conns (run (es ++ closes_idle (sent c) i)) !! i = Some true.
Proof.
  intros Hc Ho Hw Hk. unfold closes_idle. rewrite app_assoc.
  destruct (drain (sent c) es i c u Hc Hw eq_refl) as (H1 & H2 & c' & u' & Hc' & Hw' & Hn' & Hid & Hdo).
  set (es' := es ++ replicate (sent c) (Received i)) in *. pose proof (always_timed es') as Ht. rewrite Forall_lookup in Ht.
  destruct (Ht i c' Hc') as [_ Ht']. destruct (Ht' u' Hw') as [Hu _].
  replace (es' ++ [Elapsed IDLE_TIMEOUT; TimedOut i; ShutDown i]) with (((es' ++ [Elapsed IDLE_TIMEOUT]) ++ [TimedOut i]) ++ [ShutDown i])
    by (by rewrite <- !app_assoc).
  set (s := run es') in *. rewrite !run_snoc. fold s. cbn [step].
  set (s1 := mkServer (conns s) (next_id s) (owned s) (now s + Z.max 0 IDLE_TIMEOUT)).
  assert (Hl : (i < length (conns s))%nat) by (by eapply lookup_lt_Some).
  assert (E2 : conns (on_conn i (time_out (owned s1) (now s1)) s1) !! i
             = Some (mkConn (id c') (sock c') (doing c') Closing O (shut c') (last_touch c'))).
  { rewrite lookup_on_conn. cbn [conns s1]. rewrite Hc'. cbn. rewrite decide_True by done. unfold time_out. rewrite Hw', Hn'.
    assert (Oc : is_over c' = false) by (unfold is_over in *; by rewrite Hdo). rewrite Oc. cbn [orb now s1 owned].
    rewrite (proj2 (Z.ltb_ge _ _)) by lia. by rewrite Hid, H1, Hk. }
  set (s2 := on_conn i _ s1) in *. unfold shut_down. rewrite E2. cbn [watchdog]. rewrite lookup_on_conn. cbn [conns with_conns].
  rewrite list_lookup_fmap, E2. cbn [fmap option_fmap option_map]. rewrite decide_True by done. unfold shut_sock, is_over. cbn [doing sock].
  rewrite Z.eqb_refl, Hdo. unfold is_over in Ho. by destruct (doing c).
Qed.

(** C10: a connection is closed for being idle when it is, and only then. However the
    connections, their requests, their watchdogs and the clock go on: a watchdog
    that shuts a socket down found its connection, not yet over, without a request
    read or a reply written for five minutes and without an open file;
    the socket is its own unless its connection has ended meanwhile; and
    a watched connection without open files that stays silent from now
    on is shut down at the first check five minutes later. *)
Theorem idle_connections_closed (es : list event) (i : nat) (c : conn) :
  conns (run es) !! i = Some c ->
  (shut c = true -> exists es1 j cj es2, es = es1 ++ ShutDown j :: es2 /\ conns (run es1) !! j = Some cj
     /\ sock cj = sock c /\ (j = i \/ is_over cj = true) /\ found_idle es1 j cj)
  /\ (forall u, watchdog c = Waiting u -> is_over c = false -> count_for (id c) (owned (run es)) = 0 ->
      shut <$> conns (run (es ++ closes_idle (sent c) i)) !! i = Some true).
Proof.
  intros Hc. split.
  - intros Hs. destruct (shut_was_closing es i c Hc Hs) as (es1 & j & cj & es2 & -> & Hj & Hw & Hk & Ho).
    exists es1, j, cj, es2. split_and!; try done. by apply closing_was_idle.
  - intros u Hw Ho Hk. by eapply idle_is_closed.
Qed.

(** A file is opened and closed, five minutes later the connection is shut. *)
Definition one_request : list event :=
  [Accepted 7 true; RequestRead 0; Opened 0 30; ReplyWritten 0; RequestRead 0; Closed 0 30; ReplyWritten 0].
Lemma idle_connections_closed_witness :
  shut <$> conns (run (one_request ++ closes_idle 4 0)) !! 0%nat = Some true
  /\ exists c, conns (run (one_request ++ closes_idle 4 0)) !! 0%nat = Some c
     /\ exists es1 j cj es2, one_request ++ closes_idle 4 0 = es1 ++ ShutDown j :: es2 /\ conns (run es1) !! j = Some cj /\ found_idle es1 j cj.
Proof.
  assert (H : shut <$> conns (run (one_request ++ closes_idle 4 0)) !! 0%nat = Some true).
  { apply (proj2 (idle_connections_closed one_request 0 (mkConn 1 7 Reading (Waiting 300) 4 false 0) eq_refl) 300); by vm_compute. }
  split; [exact H|]. destruct (conns (run (one_request ++ closes_idle 4 0)) !! 0%nat) as [c|] eqn:E; [|done]. exists c. split; [done|].
  destruct (proj1 (idle_connections_closed _ 0 c E)) as (es1 & j & cj & es2 & H1 & H2 & _ & _ & H3); [by injection H|]. exists es1, j, cj, es2. done.
Defined.

(** ** Where a busy connection is shut *)

(** A request that takes longer than five minutes, as the copy of a large file does, has its
    connection shut before it is answered. *)
Theorem long_request_cut :
  let s := run ([Accepted 7 true; RequestRead 0; Received 0; Elapsed 300; TimedOut 0; ShutDown 0]) in
  exists c, conns s !! 0%nat = Some c /\ doing c = Dispatching /\ shut c = true.
Proof. eexists. split; [by vm_compute|done]. Qed.

(** The number of the descriptor is given to another connection between the check and the
    shutdown: that one is shut, although it has just been accepted. *)
Theorem other_connection_shut :
  let s := run ([Accepted 7 true; Elapsed 300; TimedOut 0; Ends 0; Accepted 7 true; RequestRead 1; ShutDown 0]) in
  exists c, conns s !! 1%nat = Some c /\ last_touch c = now s /\ shut c = true.
Proof. eexists. split; [by vm_compute|done]. Qed.
