(* ===== verification/ProxyClient.v ===== *)
(** * The host-side RPC client: [crates/adb-proxy/src/client.rs]

    The request/reply framing, the connection pool with its permits and
    poisoning, and every client operation: argument encoding, the call, and the
    decoding of the reply. TCP and the peer are a parameter, the class [Net]. *)

From stdpp Require Import base list gmap strings.
From S2P Require Import Prelude RustStd ProxyOps.

(** ** Errors and limits *)

Inductive ProxyError : Type :=
| Io (e : bytes)
| Closed
| TooLarge (n : Z)
| StatusErr (s : Status.t) (msg : bytes)
| Invalid (msg : bytes)
| PoolExhausted
| Busy
| Timeout
| Other (msg : bytes).

Abbreviation presult := (result ProxyError).

(** [{:?}] of a [Status] and [{}] of a [ProxyError]. *)
Definition status_debug (s : Status.t) : bytes :=
  bs match s with
     | Status.Ok => "Ok"
     | Status.NotFound => "NotFound"
     | Status.PermissionDenied => "PermissionDenied"
     | Status.IsDir => "IsDir"
     | Status.NotDir => "NotDir"
     | Status.Exists => "Exists"
     | Status.NotEmpty => "NotEmpty"
     | Status.IoError => "IoError"
     | Status.InvalidArg => "InvalidArg"
     | Status.NoSpace => "NoSpace"
     | Status.NameTooLong => "NameTooLong"
     | Status.NotSupported => "NotSupported"
     end.
Definition display (e : ProxyError) : bytes :=
  match e with
  | Io e => bs "io: " ++ e
  | Closed => bs "connection closed"
  | TooLarge n => bs "response too large (" ++ fmt_dec n ++ bs " bytes)"
  | StatusErr s m => bs "server error: " ++ status_debug s ++ bs " " ++ m
  | Invalid m => bs "invalid response: " ++ m
  | PoolExhausted => bs "connection pool exhausted"
  | Busy => bs "no free connection available (pool busy)"
  | Timeout => bs "request timed out"
  | Other m => m
  end.

Definition MAX_RESPONSE : Z := 8 * 1024 * 1024.
Definition MAX_RESPONSE_FRAME : Z := MAX_RESPONSE + 1.
Definition MAX_REQUEST : Z := 8 * 1024 * 1024.
Definition CLOSE_RETRIES : nat := 4.
Definition LISTDIR_PAGE : Z := 16384.

(** ** Framing *)

(** [op u8][len u32 LE][args] *)
Definition request_frame (op : Op.t) (args : bytes) : bytes :=
  [Op.code op] ++ le_bytes 4 (zlen args) ++ args.

(** The frame [Drop] builds for [Op::Close]. *)
Definition close_frame (fd : Z) : bytes :=
  [Op.code Op.Close] ++ le_bytes 4 4 ++ le_bytes 4 fd.

(** The reader task: the reply bodies it forwards, in order, until the stream
    ends or a frame is oversized (either way it then marks the connection
    closed). One unit of fuel per frame. *)
Fixpoint reader_task (fuel : nat) (buf : bytes) (chunks : list bytes) : list bytes :=
  match fuel with
  | O => []
  | S fuel =>
      match fill 4 buf chunks with
      | None => []
      | Some (buf, chunks) =>
          let len := u32_le_at buf 0 in
          if len >? MAX_RESPONSE_FRAME then []
          else match fill (4 + len) buf chunks with
               | None => []
               | Some (buf, chunks) =>
                   slice buf 4 len :: reader_task fuel (zdrop (4 + len) buf) chunks
               end
      end
  end.

(** What [request] makes of a reply body: status byte, then data or message. *)
Definition parse_reply (resp : bytes) : presult bytes :=
  match resp with
  | [] => Err (Invalid (bs "empty response frame"))
  | b :: data =>
      match Status.from_u8 b with
      | Status.Ok => Ok data
      | s => Err (StatusErr s (from_utf8_lossy data))
      end
  end.

(** ** Reply decoders *)

Module DiskUsage.

Record t : Type := mk { avail_bytes : Z; total_bytes : Z }.

(** [u64::saturating_mul] *)
Definition saturating_mul (a b : Z) : Z := Z.min (a * b) (2 ^ 64 - 1).

Definition decode (data : bytes) : presult t :=
  if 24 <=? zlen data then
    let avail := u64_le_at data 0 in
    let total := u64_le_at data 8 in
    let bsize := u64_le_at data 16 in
    Ok (mk (saturating_mul avail bsize) (saturating_mul total bsize))
  else if 12 <=? zlen data then
    let avail := u32_le_at data 0 in
    let total := u32_le_at data 4 in
    let bsize := u32_le_at data 8 in
    Ok (mk (saturating_mul avail bsize) (saturating_mul total bsize))
  else Err (Invalid (bs "diskusage decode")).

End DiskUsage.

(** [parse_dir_entries]'s loop, on the unread suffix [data[i..]]. *)
Fixpoint parse_entries (fuel : nat) (rest : bytes) : presult (list DirEntry.t) :=
  match rest, fuel with
  | [], _ => Ok []
  | _, O => Err (Invalid [])
  | _, S fuel =>
      if zlen rest <? 4 then Err (Invalid (bs "dir entry name len"))
      else
        let name_len := u32_le_at rest 0 in
        if zlen rest <? 4 + name_len + 60 then Err (Invalid (bs "dir entry payload"))
        else
          let name := from_utf8_lossy (slice rest 4 name_len) in
          stat ← ok_or (Stat.decode (slice rest (4 + name_len) 60))
                   (Invalid (bs "dir entry stat"));
          entries ← parse_entries fuel (zdrop (4 + name_len + 60) rest);
          Ok (DirEntry.mk name stat :: entries)
  end.

Definition parse_dir_entries (data : bytes) (expect : Z) : presult (list DirEntry.t) :=
  entries ← parse_entries (length data) data;
  if negb (zlen entries =? expect) then
    Err (Invalid (bs "listdir page: header said " ++ fmt_dec expect
                  ++ bs " entries, buffer held " ++ fmt_dec (zlen entries)))
  else Ok entries.

Definition parse_dir_page (data : bytes) : presult (list DirEntry.t) :=
  if zlen data <? 4 then Err (Invalid (bs "listdir count"))
  else parse_dir_entries (zdrop 4 data) (u32_le_at data 0).

(** The target of a [ReadLink] reply. *)
Definition parse_readlink (resp : bytes) : presult bytes :=
  if zlen resp <? 4 then Err (Invalid (bs "readlink decode"))
  else match get_range resp 4 (u32_le_at resp 0) with
       | Some target => Ok target
       | None => Err (Invalid (bs "readlink length"))
       end.

(** ** Argument blocks *)

Definition path_arg (p : bytes) : bytes := le_bytes 4 (as_u32 (zlen p)) ++ p.

Definition open_args (path : bytes) (flags mode : Z) : bytes :=
  le_bytes 4 flags ++ le_bytes 4 mode ++ path_arg path.
Definition listdir_args (path : bytes) (offset : Z) : bytes :=
  path_arg path ++ le_bytes 4 offset ++ le_bytes 4 LISTDIR_PAGE.
Definition read_args (fd offset len : Z) : bytes :=
  le_bytes 4 fd ++ le_bytes 8 offset ++ le_bytes 4 len.
Definition write_args (fd offset : Z) (data : bytes) : bytes :=
  le_bytes 4 fd ++ le_bytes 8 offset ++ le_bytes 4 (as_u32 (zlen data)) ++ data.

(** ** The network *)

(** What waiting for the reply to one frame comes to. *)
Inductive rpc_outcome : Type :=
| Reply (body : bytes)    (* the next frame the reader task forwarded *)
| Hangup                  (* a channel end is gone: the connection closed *)
| NoAnswer.               (* [REQUEST_TIMEOUT] elapsed *)

Class Net (S : Type) : Type := {
  (** [TcpStream::connect] for the connection with this id. *)
  net_connect : Z -> S -> result bytes unit * S;
  (** Send one frame on a connection and wait for the next reply frame. *)
  net_rpc : Z -> bytes -> S -> rpc_outcome * S;
}.

(** ** The connection pool *)

(** Connections are named by an allocation counter. [pool] is the [Vec], its
    last element first. [permits] is what the semaphore has left. *)
Record client (S : Type) : Type := Client {
  pool : list Z;
  closed : gset Z;
  poisoned : gset Z;
  next_conn : Z;
  permits : Z;
  max_conns : Z;
  net : S;
}.
Arguments Client {S} _ _ _ _ _ _ _.
Arguments pool {S} c.
Arguments closed {S} c.
Arguments poisoned {S} c.
Arguments next_conn {S} c.
Arguments permits {S} c.
Arguments max_conns {S} c.
Arguments net {S} c.

Section pool.
Context {S : Type} `{!Net S}.
Implicit Types (c : client S).

Definition is_closed (k : Z) c : bool := bool_decide (k ∈ closed c).
Definition is_poisoned (k : Z) c : bool := bool_decide (k ∈ poisoned c).
Definition usable (k : Z) c : bool := negb (is_closed k c) && negb (is_poisoned k c).

Definition set_pool (p : list Z) c : client S :=
  Client p (closed c) (poisoned c) (next_conn c) (permits c) (max_conns c) (net c).
Definition set_permits (n : Z) c : client S :=
  Client (pool c) (closed c) (poisoned c) (next_conn c) n (max_conns c) (net c).
Definition set_net (s : S) c : client S :=
  Client (pool c) (closed c) (poisoned c) (next_conn c) (permits c) (max_conns c) s.
Definition mark_closed (k : Z) c : client S :=
  Client (pool c) ({[k]} ∪ closed c) (poisoned c) (next_conn c) (permits c) (max_conns c) (net c).
Definition mark_poisoned (k : Z) c : client S :=
  Client (pool c) ({[k]} ∪ closed c) ({[k]} ∪ poisoned c) (next_conn c) (permits c)
    (max_conns c) (net c).

(** [ProxyConn::open] *)
Definition conn_open c : presult Z * client S :=
  let k := next_conn c in
  match net_connect k (net c) with
  | (Ok _, s) =>
      (Ok k, Client (pool c) (closed c) (poisoned c) (k + 1) (permits c) (max_conns c) s)
  | (Err e, s) => (Err (Io e), set_net s c)
  end.

(** [ProxyClient::connect]: [max_conns] connections up front, or the first error. *)
Fixpoint connect_loop (n : nat) c : presult unit * client S :=
  match n with
  | O => (Ok tt, c)
  | Datatypes.S n =>
      match conn_open c with
      | (Ok k, c) => connect_loop n (set_pool (k :: pool c) c)
      | (Err e, c) => (Err e, c)
      end
  end.
Definition connect (max : Z) (s : S) : presult (client S) :=
  match connect_loop (Z.to_nat max) (Client [] ∅ ∅ 0 max max s) with
  | (Ok _, c) => Ok c
  | (Err e, _) => Err e
  end.

(** The pop loop of [acquire]; the permit is already taken. *)
Fixpoint acquire_loop (p : list Z) c : presult Z * client S :=
  match p with
  | [] => conn_open (set_pool [] c)
  | k :: p =>
      let c := set_pool p c in
      if usable k c then (Ok k, c)
      else match conn_open c with
           | (Ok fresh, c) => (Ok fresh, c)
           | (Err _, c) => acquire_loop p c
           end
  end.

(** [acquire]: with no permit within [POOL_TIMEOUT] it is [Busy]; a failed dial
    drops the permit again. *)
Definition acquire c : presult Z * client S :=
  if permits c <=? 0 then (Err Busy, c)
  else
    match acquire_loop (pool c) (set_permits (permits c - 1) c) with
    | (Ok k, c) => (Ok k, c)
    | (Err e, c) => (Err e, set_permits (permits c + 1) c)
    end.

Definition release (k : Z) c : client S :=
  if is_closed k c || is_poisoned k c then c
  else if zlen (pool c) <? max_conns c then set_pool (k :: pool c) c
  else c.

(** The end of an operation: [release], and the permit goes out of scope. *)
Definition give_back (k : Z) c : client S :=
  let c := release k c in set_permits (permits c + 1) c.

(** ** Requests *)

(** Send a built frame on connection [k] and interpret the reply. *)
Definition exchange (k : Z) (frame : bytes) c : presult bytes * client S :=
  match net_rpc k frame (net c) with
  | (NoAnswer, s) => (Err Timeout, mark_poisoned k (set_net s c))
  | (Hangup, s) => (Err Closed, mark_closed k (set_net s c))
  | (Reply resp, s) => (parse_reply resp, set_net s c)
  end.

Definition request (k : Z) (op : Op.t) (args : bytes) c : presult bytes * client S :=
  if is_closed k c || is_poisoned k c then (Err Closed, c)
  else if zlen args >? MAX_REQUEST then (Err (TooLarge (zlen args)), c)
  else if negb (zlen args <? 2 ^ 32) then (Err (TooLarge (zlen args)), c)
  else exchange k (request_frame op args) c.

Definition send_frame_and_await (k : Z) (frame : bytes) c : presult bytes * client S :=
  if is_closed k c || is_poisoned k c then (Err Closed, c)
  else exchange k frame c.

(** Borrow a connection, make one request, give the connection back. *)
Definition call (op : Op.t) (args : bytes) c : presult bytes * client S :=
  match acquire c with
  | (Err e, c) => (Err e, c)
  | (Ok k, c) => let '(r, c) := request k op args c in (r, give_back k c)
  end.

(** [call] followed by a decoder of the data section. *)
Definition call_with {A} (dec : bytes -> presult A) (op : Op.t) (args : bytes) c
    : presult A * client S :=
  let '(r, c) := call op args c in (r ≫= dec, c).

Definition unit_dec (_ : bytes) : presult unit := Ok tt.
Definition stat_dec (what : string) (resp : bytes) : presult Stat.t :=
  ok_or (Stat.decode resp) (Invalid (bs what)).

(** ** Operations *)

Definition stat (path : bytes) := call_with (stat_dec "stat decode") Op.Stat (path_arg path).
Definition lstat (path : bytes) := call_with (stat_dec "lstat decode") Op.Lstat (path_arg path).

Definition symlink (target link : bytes) c : presult unit * client S :=
  match acquire c with
  | (Err e, c) => (Err e, c)
  | (Ok k, c) =>
      let '(r, c) :=
        if (zlen target >? MAX_REQUEST) || (zlen link >? MAX_REQUEST)
        then (Err (TooLarge (Z.max (zlen target) (zlen link))), c)
        else let '(r, c) := request k Op.Symlink (path_arg target ++ path_arg link) c in
             (r ≫= unit_dec, c) in
      (r, give_back k c)
  end.

Definition readlink (path : bytes) := call_with parse_readlink Op.ReadLink (path_arg path).

Definition listdir_page (path : bytes) (offset : Z) :=
  call_with parse_dir_page Op.ListDir (listdir_args path offset).

(** [listdir]: page until a short page; [offset] is a [u32]. [None] is fuel
    exhausted. *)
Fixpoint listdir_from (fuel : nat) (path : bytes) (offset : Z) (all : list DirEntry.t) c
    : option (presult (list DirEntry.t)) * client S :=
  match fuel with
  | O => (None, c)
  | Datatypes.S fuel =>
      match listdir_page path offset c with
      | (Err e, c) => (Some (Err e), c)
      | (Ok page, c) =>
          let got := as_u32 (zlen page) in
          let all := all ++ page in
          if got <? LISTDIR_PAGE then (Some (Ok all), c)
          else listdir_from fuel path (as_u32 (offset + got)) all c
      end
  end.
Definition listdir (fuel : nat) (path : bytes) := listdir_from fuel path 0 [].

(** A device-side file: the fd, [None] once closed. *)
Record ProxyFile : Type := mkFile { file_fd : option Z; file_path : bytes }.

Definition open (path : bytes) (flags mode : Z) c : presult ProxyFile * client S :=
  call_with (fun resp =>
    if zlen resp <? 4 then Err (Invalid (bs "open response short"))
    else Ok (mkFile (Some (u32_le_at resp 0)) path)) Op.Open (open_args path flags mode) c.

Definition mkdir (path : bytes) (mode : Z) :=
  call_with unit_dec Op.Mkdir (path_arg path ++ le_bytes 4 mode).
Definition unlink (path : bytes) := call_with unit_dec Op.Unlink (path_arg path).
Definition rmdir (path : bytes) := call_with unit_dec Op.Rmdir (path_arg path).
Definition rename (src dst : bytes) :=
  call_with unit_dec Op.Rename (path_arg src ++ path_arg dst).

Definition copyable_path (p : bytes) : bool :=
  match p with b :: _ => b =? 47 | [] => false end
  && forallb (fun b => negb (b =? 0)) p && (zlen p <=? 4096).

Definition copy_file (src dst : bytes) c : presult unit * client S :=
  if negb (copyable_path src) || negb (copyable_path dst) then
    (Err (StatusErr Status.InvalidArg
       (bs "copy paths must be absolute, non-NUL, and at most 4096 bytes")), c)
  else
    match acquire c with
    | (Err e, c) => (Err e, c)
    | (Ok k, c) =>
        let '(r, c) := request k Op.CopyFile (path_arg src ++ path_arg dst) c in
        (match r with
         | Ok _ => Ok tt
         | Err (StatusErr s m) => Err (StatusErr s m)
         | Err e => Err (Other (display e ++
             bs "; completion unknown; destination may be incomplete or still copying"))
         end, give_back k c)
    end.

Definition truncate (path : bytes) (size : Z) :=
  call_with unit_dec Op.Truncate (path_arg path ++ le_bytes 8 size).
Definition utime (path : bytes) (atime mtime : Z) :=
  call_with unit_dec Op.Utime (path_arg path ++ le_bytes 8 atime ++ le_bytes 8 mtime).
Definition disk_usage (path : bytes) :=
  call_with DiskUsage.decode Op.DiskUsage (path_arg path).

(** *** Files *)

Definition read_at (f : ProxyFile) (offset len : Z) c : presult bytes * client S :=
  match file_fd f with
  | None => (Err Closed, c)
  | Some fd => call Op.Read (read_args fd offset len) c
  end.

Definition write_at (f : ProxyFile) (offset : Z) (data : bytes) c : presult unit * client S :=
  match file_fd f with
  | None => (Err Closed, c)
  | Some fd => call_with unit_dec Op.Write (write_args fd offset data) c
  end.

Definition fstat (f : ProxyFile) c : presult Stat.t * client S :=
  match file_fd f with
  | None => (Err Closed, c)
  | Some fd => call_with (stat_dec "fstat decode") Op.Fstat (le_bytes 4 fd) c
  end.

(** [close]: borrow first, then claim the fd. *)
Definition close (f : ProxyFile) c : presult unit * ProxyFile * client S :=
  match acquire c with
  | (Err e, c) => (Err e, f, c)
  | (Ok k, c) =>
      match file_fd f with
      | None => (Err Closed, f, give_back k c)
      | Some fd =>
          let f := mkFile None (file_path f) in
          let '(r, c) := request k Op.Close (le_bytes 4 fd) c in
          (r ≫= unit_dec, f, give_back k c)
      end
  end.

(** The task [Drop] spawns for the last handle: retry while the pool is busy;
    [wait] is what other tasks do to the pool during the back-off. *)
Fixpoint drop_task (attempts : nat) (wait : client S -> client S) (fd : Z) c : client S :=
  match attempts with
  | O => c
  | Datatypes.S attempts =>
      match acquire c with
      | (Ok k, c) =>
          let '(_, c) := send_frame_and_await k (close_frame fd) c in give_back k c
      | (Err Busy, c) =>
          match attempts with O => c | _ => drop_task attempts wait fd (wait c) end
      | (Err _, c) => c
      end
  end.
Definition drop_file (wait : client S -> client S) (strong_count : Z) (f : ProxyFile) c
    : client S :=
  if negb (strong_count =? 1) then c
  else match file_fd f with
       | None => c
       | Some fd => drop_task CLOSE_RETRIES wait fd c
       end.

(** ** Pool invariant *)

(** [held] are the connections borrowed by requests in progress: no connection
    is borrowed twice or both idle and borrowed, and every id in use was
    allocated. *)
Record pool_ids c (held : list Z) : Prop := {
  ids_nodup : NoDup (pool c ++ held);
  ids_alloc : Forall (fun k => k < next_conn c) (pool c ++ held);
  ids_flags : forall k, k ∈ closed c \/ k ∈ poisoned c -> k < next_conn c;
  ids_size : zlen (pool c) <= max_conns c;
}.

Record pool_inv c (held : list Z) : Prop := {
  inv_ids : pool_ids c held;
  inv_permits : permits c + zlen held = max_conns c;
  inv_nonneg : 0 <= permits c;
}.

(** The counters an operation must leave alone. *)
Definition same_counts c c' : Prop := permits c' = permits c /\ max_conns c' = max_conns c.

Lemma pool_ids_drop c held k p :
  pool_ids (set_pool (k :: p) c) held -> pool_ids (set_pool p c) held.
Proof.
  intros [H1 H2 H3 H4]; simpl in *.
  apply NoDup_cons in H1 as [_ H1]. apply Forall_cons in H2 as [_ H2].
  constructor; simpl; auto. len_lia.
Qed.

Lemma pool_ids_borrow c held k p :
  pool_ids (set_pool (k :: p) c) held -> pool_ids (set_pool p c) (k :: held).
Proof.
  intros [H1 H2 H3 H4]; simpl in *. constructor; simpl; auto.
  - by rewrite <- Permutation_middle.
  - by rewrite <- Permutation_middle.
  - len_lia.
Qed.

Lemma usable_spec k c : usable k c = true <-> (k ∉ closed c) /\ (k ∉ poisoned c).
Proof.
  unfold usable, is_closed, is_poisoned.
  rewrite andb_true_iff, !negb_true_iff, !bool_decide_eq_false. done.
Qed.

(** A fresh connection is unflagged and joins the borrowed ones. *)
Lemma conn_open_spec c held :
  pool_ids c held ->
  match conn_open c with
  | (Ok k, c') => pool_ids c' (k :: held) /\ usable k c' = true /\ same_counts c c'
                  /\ pool c' = pool c
  | (Err _, c') => pool_ids c' held /\ same_counts c c' /\ pool c' = pool c
  end.
Proof.
  intros [H1 H2 H3 H4]. unfold conn_open, same_counts.
  destruct (net_connect _ _) as [[?|e] s]; simpl.
  - split_and!; try done.
    + constructor; simpl; [..|done].
      * rewrite <- Permutation_middle. apply NoDup_cons. split; [|done].
        intros Hin. rewrite Forall_forall in H2. specialize (H2 _ Hin). lia.
      * rewrite <- Permutation_middle. constructor; [lia|].
        eapply Forall_impl; [done|]. simpl. lia.
      * intros k Hk. specialize (H3 k Hk). lia.
    + apply usable_spec. simpl. split; intros Hk.
      * specialize (H3 (next_conn c) (or_introl Hk)). lia.
      * specialize (H3 (next_conn c) (or_intror Hk)). lia.
  - split_and!; try done.
Qed.

Lemma acquire_loop_spec p c held :
  pool_ids (set_pool p c) held ->
  match acquire_loop p c with
  | (Ok k, c') => pool_ids c' (k :: held) /\ usable k c' = true /\ same_counts c c'
  | (Err _, c') => pool_ids c' held /\ same_counts c c'
  end.
Proof.
  revert c. induction p as [|k p IH]; intros c H; cbn [acquire_loop].
  - pose proof (conn_open_spec _ _ H) as Ho.
    destruct (conn_open _) as [[k|e] c']; intuition.
  - destruct (usable k (set_pool p c)) eqn:Hu.
    + split_and!; [by apply pool_ids_borrow|done|done].
    + pose proof (conn_open_spec _ _ (pool_ids_drop _ _ _ _ H)) as Ho.
      destruct (conn_open _) as [[fresh|e] c'] eqn:E.
      * intuition.
      * destruct Ho as (Hi & [Hp Hm] & Hpool). specialize (IH c').
        replace (set_pool p c') with c' in IH by (destruct c'; simpl in *; by subst).
        specialize (IH Hi). unfold same_counts in *.
        destruct (acquire_loop p c') as [[k'|e'] c'']; simpl in *; intuition congruence.
Qed.

Lemma acquire_spec c held :
  pool_inv c held ->
  match acquire c with
  | (Ok k, c') => pool_inv c' (k :: held) /\ usable k c' = true
  | (Err _, c') => pool_inv c' held
  end.
Proof.
  intros [Hi Hp Hn]. unfold acquire. case_bool; [done|]. bool_to_prop.
  pose proof (acquire_loop_spec (pool c) (set_permits (permits c - 1) c) held) as Ha.
  assert (pool_ids (set_pool (pool c) (set_permits (permits c - 1) c)) held) as Hi'
    by (destruct Hi; by constructor).
  specialize (Ha Hi'). destruct (acquire_loop _ _) as [[k|e] c'].
  - destruct Ha as (? & ? & [Hp' Hm']); simpl in *. split; [|done].
    constructor; [done|rewrite Hp', Hm'; len_lia|lia].
  - destruct Ha as ([] & [Hp' Hm']); simpl in *.
    constructor; [by constructor|simpl; rewrite Hp', Hm'; len_lia|simpl; lia].
Qed.

(** Changing flags of allocated connections, or the network, keeps it. *)
Lemma pool_inv_flags c held k s :
  pool_inv c held -> k < next_conn c ->
  pool_inv (set_net s c) held /\ pool_inv (mark_closed k (set_net s c)) held
  /\ pool_inv (mark_poisoned k (set_net s c)) held.
Proof.
  intros [[H1 H2 H3 H4] H5 H6] Hk.
  split_and!; (constructor; [constructor|..]; simpl; try done;
    intros k'; rewrite ?elem_of_union, ?elem_of_singleton; intros;
    destruct_or?; subst; auto).
Qed.

Lemma held_alloc c held k : pool_inv c held -> k ∈ held -> k < next_conn c.
Proof.
  intros [[_ H2 _ _] _ _] Hk. apply Forall_app in H2 as [_ H2].
  rewrite Forall_forall in H2. by apply H2.
Qed.

Lemma exchange_inv k frame c held :
  pool_inv c held -> k ∈ held -> pool_inv (exchange k frame c).2 held.
Proof.
  intros H Hk. pose proof (held_alloc _ _ _ H Hk) as Ha. unfold exchange.
  destruct (net_rpc _ _ _) as [[body| |] s]; simpl;
    destruct (pool_inv_flags c held k s H Ha) as (? & ? & ?); done.
Qed.

Lemma request_inv k op args c held :
  pool_inv c held -> k ∈ held -> pool_inv (request k op args c).2 held.
Proof. intros. unfold request. repeat case_bool; try done. by apply exchange_inv. Qed.

Lemma give_back_inv k c held :
  pool_inv c (k :: held) -> pool_inv (give_back k c) held.
Proof.
  intros [[H1 H2 H3 H4] H5 H6]. rewrite <- Permutation_middle in H1, H2.
  rewrite zlen_cons in H5. pose proof (zlen_nonneg held) as Hh.
  assert (NoDup (pool c ++ held)) by (by apply NoDup_cons in H1 as [_ ?]).
  assert (Forall (fun k => k < next_conn c) (pool c ++ held)) by (by apply Forall_cons in H2 as [_ ?]).
  unfold give_back, release. repeat case_bool; bool_to_prop;
    (constructor; [constructor|..]; simpl; auto; len_lia).
Qed.

(** ** Interleavings *)

(** The steps concurrent tasks take on a shared client; [held] collects the
    borrowed connections. The peer may close any connection at any time. *)
Inductive pool_step : client S * list Z -> client S * list Z -> Prop :=
| step_acquire c held k c' :
    acquire c = (Ok k, c') -> pool_step (c, held) (c', k :: held)
| step_acquire_err c held e c' :
    acquire c = (Err e, c') -> pool_step (c, held) (c', held)
| step_request c held k op args r c' :
    k ∈ held -> request k op args c = (r, c') -> pool_step (c, held) (c', held)
| step_send c held k frame r c' :
    k ∈ held -> send_frame_and_await k frame c = (r, c') -> pool_step (c, held) (c', held)
| step_give_back c held held' k :
    held ≡ₚ k :: held' -> pool_step (c, held) (give_back k c, held')
| step_peer_close c held k :
    k < next_conn c -> pool_step (c, held) (mark_closed k c, held).

Lemma pool_inv_perm c held held' :
  held ≡ₚ held' -> pool_inv c held -> pool_inv c held'.
Proof.
  intros Hp [[H1 H2 H3 H4] H5 H6]. constructor; [constructor|..]; try done.
  - by rewrite <- Hp.
  - by rewrite <- Hp.
  - unfold zlen in *. by rewrite <- Hp.
Qed.

Lemma pool_step_inv x y : pool_step x y -> pool_inv x.1 x.2 -> pool_inv y.1 y.2.
Proof.
  destruct 1 as [c held k c' E|c held e c' E|c held k op args r c' Hk E
    |c held k frame r c' Hk E|c held held' k Hp|c held k Hk]; simpl; intros H.
  - pose proof (acquire_spec _ _ H) as Ha. rewrite E in Ha. apply Ha.
  - pose proof (acquire_spec _ _ H) as Ha. by rewrite E in Ha.
  - pose proof (request_inv k op args _ _ H Hk) as Hr. by rewrite E in Hr.
  - unfold send_frame_and_await in E.
    destruct (is_closed k c || is_poisoned k c); simplify_eq; [done|].
    pose proof (exchange_inv k frame _ _ H Hk) as Hr. by rewrite E in Hr.
  - apply give_back_inv. by apply (pool_inv_perm _ held).
  - destruct (pool_inv_flags _ _ k (net c) H Hk) as (_ & Hm & _). by destruct c.
Qed.

Lemma connect_loop_spec n c c' :
  pool_ids c [] -> zlen (pool c) + Z.of_nat n <= max_conns c ->
  connect_loop n c = (Ok tt, c') -> pool_ids c' [] /\ same_counts c c'.
Proof.
  revert c. induction n as [|n IH]; intros c Hi Hn; cbn [connect_loop].
  { intros. by simplify_eq. }
  pose proof (conn_open_spec _ _ Hi) as Ho.
  destruct (conn_open c) as [[k|e] c1]; [|done].
  destruct Ho as ([H1 H2 H3 H4] & _ & [Hp Hm] & Hpool).
  intros Hc. apply IH in Hc as [? [? ?]].
  - split; [done|]. unfold same_counts; simpl in *. split; congruence.
  - rewrite <- Permutation_middle in H1, H2. constructor; simpl; try done.
    rewrite Hpool, Hm. len_lia.
  - simpl. rewrite Hpool, Hm. len_lia.
Qed.

Lemma connect_inv max s c : 0 <= max -> connect max s = Ok c -> pool_inv c [].
Proof.
  unfold connect. intros Hm. destruct (connect_loop _ _) as [[[]|e] c'] eqn:E; [|done].
  intros; simplify_eq. apply connect_loop_spec in E as [Hi [Hp Hm']]; simpl in *.
  - constructor; [done|rewrite Hp, Hm'; len_lia|lia].
  - constructor; simpl; try constructor; try done. set_solver.
  - len_lia.
Qed.

Lemma pool_reach_inv x y : rtc pool_step x y -> pool_inv x.1 x.2 -> pool_inv y.1 y.2.
Proof. induction 1; eauto using pool_step_inv. Qed.

(** Acquiring changes neither the flags nor the bound. *)
Definition same_flags c c' : Prop :=
  closed c' = closed c /\ poisoned c' = poisoned c /\ max_conns c' = max_conns c.

Lemma conn_open_flags c k c' : conn_open c = (k, c') -> same_flags c c'.
Proof. unfold conn_open. destruct (net_connect _ _) as [[]]; intros; by simplify_eq. Qed.

Lemma acquire_loop_flags p c k c' : acquire_loop p c = (k, c') -> same_flags c c'.
Proof.
  revert c. induction p as [|j p IH]; intros c; cbn [acquire_loop].
  - intros E%conn_open_flags. done.
  - destruct (usable _ _); [intros; by simplify_eq|].
    destruct (conn_open _) as [[fresh|e] c1] eqn:E; apply conn_open_flags in E as (E1 & E2 & E3).
    + intros; by simplify_eq.
    + intros (E4 & E5 & E6)%IH. unfold same_flags; simpl in *. split_and!; congruence.
Qed.

Lemma acquire_flags c k c' : acquire c = (k, c') -> same_flags c c'.
Proof.
  unfold acquire. case_bool; [intros; by simplify_eq|].
  destruct (acquire_loop _ _) as [[j|e] c1] eqn:E; apply acquire_loop_flags in E;
    intros; by simplify_eq.
Qed.

Lemma exchange_poisoned j frame c k : k ∈ poisoned c -> k ∈ poisoned (exchange j frame c).2.
Proof.
  unfold exchange. destruct (net_rpc _ _ _) as [[| |]]; simpl; [done..|]. set_solver.
Qed.

Lemma pool_step_poisoned x y k :
  pool_step x y -> pool_inv x.1 x.2 ->
  k ∈ poisoned x.1 -> k ∉ x.2 -> k ∈ poisoned y.1 /\ k ∉ y.2.
Proof.
  destruct 1 as [c held j c' E|c held e c' E|c held j op args r c' Hj E
    |c held j frame r c' Hj E|c held held' j Hp|c held j Hj]; simpl; intros Hi Hk Hh.
  - pose proof (acquire_spec _ _ Hi) as Ha. rewrite E in Ha. destruct Ha as [_ Hu].
    apply usable_spec in Hu as [_ Hu]. apply acquire_flags in E as (_ & E & _).
    rewrite E in *. split; [done|]. set_solver.
  - apply acquire_flags in E as (_ & E & _). by rewrite E.
  - split; [|done]. unfold request in E.
    destruct (is_closed _ _ || is_poisoned _ _); simplify_eq; [done|].
    destruct (_ >? _); simplify_eq; [done|]. destruct (negb _); simplify_eq; [done|].
    pose proof (exchange_poisoned j (request_frame op args) c k Hk) as H. by rewrite E in H.
  - split; [|done]. unfold send_frame_and_await in E.
    destruct (is_closed _ _ || is_poisoned _ _); simplify_eq; [done|].
    pose proof (exchange_poisoned j frame c k Hk) as H. by rewrite E in H.
  - split; [unfold give_back, release; by repeat case_bool|].
    intros Hin. apply Hh. rewrite Hp. by right.
  - done.
Qed.

Lemma exchange_max k frame c : max_conns (exchange k frame c).2 = max_conns c.
Proof. unfold exchange. by destruct (net_rpc _ _ _) as [[| |]]. Qed.

Lemma pool_step_max x y : pool_step x y -> max_conns y.1 = max_conns x.1.
Proof.
  destruct 1 as [c held j c' E|c held e c' E|c held j op args r c' Hj E
    |c held j frame r c' Hj E|c held held' j Hp|c held j Hj]; simpl.
  - apply acquire_flags in E. apply E.
  - apply acquire_flags in E. apply E.
  - unfold request in E.
    destruct (is_closed _ _ || is_poisoned _ _); simplify_eq; [done|].
    destruct (_ >? _); simplify_eq; [done|]. destruct (negb _); simplify_eq; [done|].
    rewrite <- (exchange_max j (request_frame op args) c). by rewrite E.
  - unfold send_frame_and_await in E.
    destruct (is_closed _ _ || is_poisoned _ _); simplify_eq; [done|].
    rewrite <- (exchange_max j frame c). by rewrite E.
  - unfold give_back, release. by repeat case_bool.
  - done.
Qed.

Lemma connect_loop_max n c r c' : connect_loop n c = (r, c') -> max_conns c' = max_conns c.
Proof.
  revert c. induction n as [|n IH]; intros c; cbn [connect_loop]; [intros; by simplify_eq|].
  destruct (conn_open c) as [[k|e] c1] eqn:E; apply conn_open_flags in E as (_ & _ & E).
  - intros H%IH. by rewrite H.
  - intros; by simplify_eq.
Qed.

(** C7: Under every interleaving of borrowing, requesting, timing out, returning
    and peer closes, starting from a connected client: no connection is ever
    borrowed by two requests at once or both idle and borrowed (so a reply can
    only reach the request that asked for it), at most [max] connections are
    borrowed, the semaphore counts exactly the borrowed ones, and the idle pool
    never exceeds [max]. *)
Theorem pool_safe (max : Z) (s : S) (c c' : client S) (held : list Z) :
  0 <= max -> connect max s = Ok c -> rtc pool_step (c, []) (c', held) ->
  NoDup (pool c' ++ held) /\ zlen held <= max /\ permits c' = max - zlen held
  /\ zlen (pool c') <= max.
Proof.
  intros Hm Hc Hr. pose proof (connect_inv _ _ _ Hm Hc) as Hi.
  pose proof (pool_reach_inv _ _ Hr Hi) as [[H1 _ _ H4] H5 H6]; simpl in *.
  assert (max_conns c' = max) as Hmax.
  { transitivity (max_conns c).
    - change (max_conns (c', held).1 = max_conns (c, @nil Z).1).
      clear -Hr. induction Hr as [|x y z Hs _ IH]; [done|].
      rewrite IH. by apply pool_step_max.
    - unfold connect in Hc. destruct (connect_loop _ _) as [[[]|] c1] eqn:E; simplify_eq.
      by apply connect_loop_max in E. }
  split_and!; [done|lia..].
Qed.

(** A connection whose request timed out (so that a stale reply may still
    arrive on it) and which has been given up by its borrower is never handed
    to another request, whatever the other tasks and the peer do next. *)
Theorem poisoned_never_reused (c c' : client S) (held held' : list Z) (k : Z) :
  pool_inv c held -> k ∈ poisoned c -> k ∉ held ->
  rtc pool_step (c, held) (c', held') -> k ∉ held'.
Proof.
  intros Hi Hk Hh Hr.
  enough (k ∈ poisoned (c', held').1 /\ k ∉ (c', held').2) by tauto.
  change (pool_inv (c, held).1 (c, held).2) in Hi.
  change (k ∈ poisoned (c, held).1) in Hk. change (k ∉ (c, held).2) in Hh.
  induction Hr as [|x y z Hs _ IH]; [done|].
  destruct (pool_step_poisoned _ _ k Hs Hi Hk Hh) as [? ?].
  apply IH; eauto using pool_step_inv.
Qed.

End pool.

(** A network on which every dial succeeds and no request is ever answered. *)
Definition silent_net : Net unit :=
  {| net_connect _ s := (Ok tt, s); net_rpc _ _ s := (NoAnswer, s) |}.

Section witnesses.
#[local] Existing Instance silent_net.

(** One request is sent on connection 1 and times out. *)
Definition c0 : client unit := Client [1; 0] ∅ ∅ 2 2 2 tt.
Definition c1 : client unit := Client [0] ∅ ∅ 2 1 2 tt.
Definition c2 : client unit := (request 1 Op.Close (le_bytes 4 3) c1).2.

Lemma c0_c2 : rtc pool_step (c0, []) (c2, [1]).
Proof.
  eapply rtc_l; [by apply (step_acquire c0 [] 1 c1)|].
  eapply rtc_l; [|apply rtc_refl].
  apply (step_request c1 [1] 1 Op.Close (le_bytes 4 3) (Err Timeout) c2); [set_solver|].
  reflexivity.
Qed.

Lemma pool_safe_witness :
  NoDup (pool c2 ++ [1]) /\ zlen [1] <= 2 /\ permits c2 = 2 - zlen [1] /\ zlen (pool c2) <= 2.
Proof. apply (pool_safe 2 tt c0 c2 [1]); [lia|reflexivity|apply c0_c2]. Defined.

Lemma c2_inv : pool_inv (give_back 1 c2) [].
Proof.
  apply give_back_inv. apply (pool_reach_inv _ _ c0_c2). by apply (connect_inv 2 tt).
Qed.

Lemma poisoned_never_reused_witness : (1 ∈ poisoned (give_back 1 c2)) /\ (1 ∉ [2; 0]).
Proof.
  split; [apply (bool_decide_eq_true_1 _); vm_compute; reflexivity|].
  pose (c3 := (acquire (give_back 1 c2)).2).
  apply (poisoned_never_reused (give_back 1 c2) (acquire c3).2 [] [2; 0] 1).
  - apply c2_inv.
  - apply (bool_decide_eq_true_1 _). vm_compute. reflexivity.
  - apply not_elem_of_nil.
  - eapply rtc_l; [by apply (step_acquire (give_back 1 c2) [] 0 c3)|].
    eapply rtc_l; [by apply (step_acquire c3 [0] 2 (acquire c3).2)|apply rtc_refl].
Defined.

End witnesses.
