(* ===== verification/ProxyRpc.v ===== *)
(** * The proxy protocol end to end

    The host client of [ProxyClient.v] against the device server of
    [DeviceProxy.v]: framing in both directions, argument blocks, and the
    composed operations down to the system call. *)

From stdpp Require Import base list gmap strings.
From S2P Require Import Prelude RustStd ProxyOps Libc DeviceProxy ProxyClient.

(** ** Framing *)

Lemma request_frame_len op args : zlen (request_frame op args) = 5 + zlen args.
Proof. unfold request_frame. len_lia. Qed.

Lemma request_frame_fields op args rest :
  zlen args < 2 ^ 32 ->
  let s := request_frame op args ++ rest in
  u32_le_at s 1 = zlen args /\ head s = Some (Op.code op)
  /\ slice s 5 (zlen args) = args /\ zdrop (5 + zlen args) s = rest.
Proof.
  intros Ha s. pose proof (zlen_nonneg args). unfold s, request_frame.
  rewrite <- !(assoc_L (++)). split_and!.
  - unfold u32_le_at. slices. apply le_val_u32. unfold u32_ok. lia.
  - done.
  - slices. done.
  - rewrite !zdrop_app by len_lia. autorewrite with adb_len.
    replace (5 + zlen args - (1 + 0) - Z.of_nat 4 - zlen args) with 0 by lia.
    apply zdrop_0.
Qed.

Lemma frame_reply_len out : zlen (frame_reply out) = 4 + zlen out.
Proof. unfold frame_reply. len_lia. Qed.

Lemma frame_reply_fields out rest :
  zlen out < 2 ^ 32 ->
  let s := frame_reply out ++ rest in
  u32_le_at s 0 = zlen out /\ slice s 4 (zlen out) = out /\ zdrop (4 + zlen out) s = rest.
Proof.
  intros Ho s. pose proof (zlen_nonneg out). unfold s, frame_reply.
  assert (as_u32 (zlen out) = zlen out) as -> by (apply Z.mod_small; lia).
  rewrite <- !(assoc_L (++)). split_and!.
  - unfold u32_le_at. slices. apply le_val_u32. unfold u32_ok. lia.
  - slices. done.
  - rewrite !zdrop_app by len_lia. autorewrite with adb_len.
    replace (4 + zlen out - Z.of_nat 4 - zlen out) with 0 by lia. apply zdrop_0.
Qed.

(** ** The server on a stream of requests *)

Section server.
Context {W : Type} `{!Libc W}.

Definition req : Type := Op.t * bytes.
Definition req_ok (r : req) : Prop := zlen r.2 <= DeviceProxy.MAX_REQUEST.

(** Serving one request after another, each from the state the last one left. *)
Fixpoint serve_all (conn : Z) (reqs : list req) (o : OwnedFds) (w : W)
    : list bytes * OwnedFds * W :=
  match reqs with
  | [] => ([], o, w)
  | (op, args) :: reqs =>
      let '(out, o, w) := reply (Op.code op) args conn o w in
      let '(outs, o, w) := serve_all conn reqs o w in
      (out :: outs, o, w)
  end.

Definition request_stream (reqs : list req) : bytes :=
  concat ((fun r => request_frame r.1 r.2) <$> reqs).

Lemma serve_bytes_requests fuel conn reqs o w :
  Forall req_ok reqs -> (length reqs < fuel)%nat ->
  serve_bytes fuel conn (request_stream reqs) o w =
  let '(outs, o, w) := serve_all conn reqs o w in (frame_reply <$> outs, Eof, o, w).
Proof.
  revert fuel o w. induction reqs as [|[op args] reqs IH]; intros fuel o w Hok Hf;
    (destruct fuel as [|fuel]; [simpl in Hf; lia|]); [done|].
  apply Forall_cons in Hok as [Ha Hok]. unfold req_ok in Ha; simpl in Ha.
  assert (zlen args < 2 ^ 32) as Hlt by (unfold DeviceProxy.MAX_REQUEST in Ha; lia).
  unfold request_stream. rewrite fmap_cons. cbn [concat fst snd].
  fold (request_stream reqs).
  destruct (request_frame_fields op args (request_stream reqs) Hlt) as (Hl & Hh & Hs & Hd).
  pose proof (request_frame_len op args). pose proof (zlen_nonneg args).
  cbn [serve_bytes]. rewrite Hl, Hh, Hs, Hd.
  replace (zlen (_ ++ _) <? 5) with false
    by (symmetry; apply Z.ltb_ge; rewrite zlen_app; len_lia).
  replace (zlen args >? DeviceProxy.MAX_REQUEST) with false
    by (symmetry; rewrite Z.gtb_ltb; apply Z.ltb_ge; lia).
  replace (zlen (_ ++ _) <? 5 + zlen args) with false
    by (symmetry; apply Z.ltb_ge; rewrite zlen_app; len_lia).
  cbn [default serve_all]. unfold dispatch.
  destruct (reply _ _ _ _ _) as [[out o1] w1].
  rewrite IH by (try done; simpl in Hf; lia).
  by destruct (serve_all conn reqs o1 w1) as [[outs o2] w2].
Qed.

(** Pipelining is safe. Whatever way the request frames of a list of calls
    are fragmented into reads, the device answers every call, in order, with
    exactly the reply of its own handler run on the state its predecessors
    left, and then sees the end of the stream; the 5-byte framing never loses
    or merges requests. *)
Theorem device_serves_requests (conn : Z) (reqs : list req) (chunks : list bytes)
    (o : OwnedFds) (w : W) :
  Forall req_ok reqs -> nonempty_chunks chunks -> concat chunks = request_stream reqs ->
  handle_connection (S (length reqs)) conn [] chunks o w =
  let '(outs, o, w) := serve_all conn reqs o w in (frame_reply <$> outs, Eof, o, w).
Proof.
  intros Hok Hne Hc. rewrite handle_connection_serve by done.
  rewrite app_nil_l, Hc. apply serve_bytes_requests; [done|lia].
Qed.

End server.

(** ** The host reader on a stream of replies *)

Lemma reader_task_frames fuel buf chunks outs rest :
  nonempty_chunks chunks ->
  Forall (fun out => zlen out <= MAX_RESPONSE_FRAME) outs ->
  buf ++ concat chunks = concat (frame_reply <$> outs) ++ rest ->
  take (length outs) (reader_task (length outs + fuel) buf chunks) = outs.
Proof.
  revert buf chunks. induction outs as [|out outs IH]; intros buf chunks Hne Hok Hs; [done|].
  apply Forall_cons in Hok as [Ho Hok].
  assert (zlen out < 2 ^ 32) as Hlt by (unfold MAX_RESPONSE_FRAME, MAX_RESPONSE in Ho; lia).
  pose proof (zlen_nonneg out). pose proof (frame_reply_len out) as Hfl.
  rewrite fmap_cons in Hs. cbn [concat] in Hs. rewrite <- (assoc_L (++)) in Hs.
  destruct (frame_reply_fields out (concat (frame_reply <$> outs) ++ rest) Hlt) as (Hl & Hsl & Hd).
  rewrite <- Hs in Hl, Hsl, Hd.
  assert (4 + zlen out <= zlen (buf ++ concat chunks)) as Hlen
    by (rewrite Hs, zlen_app, Hfl; len_lia).
  cbn [length Nat.add reader_task].
  pose proof (fill_spec 4 buf chunks Hne) as Hf.
  destruct (fill 4 buf chunks) as [[buf1 ch1]|]; [|lia].
  destruct Hf as (Hl1 & _ & Heq & Hne1). rewrite <- Heq in Hl, Hsl, Hd, Hlen.
  unfold u32_le_at in Hl. rewrite slice_app_l in Hl by len_lia.
  fold (u32_le_at buf1 0) in Hl. rewrite Hl.
  replace (_ >? _) with false by (symmetry; rewrite Z.gtb_ltb; apply Z.ltb_ge; lia).
  pose proof (fill_spec (4 + zlen out) buf1 ch1 Hne1) as Hf2.
  destruct (fill _ buf1 ch1) as [[buf2 ch2]|]; [|lia].
  destruct Hf2 as (Hl2 & _ & Heq2 & Hne2). rewrite <- Heq2 in Hsl, Hd.
  rewrite slice_app_l in Hsl by len_lia. rewrite zdrop_app_l in Hd by len_lia.
  rewrite Hsl. cbn [take]. f_equal. by apply IH.
Qed.

(** The host's reader forwards exactly the reply bodies the device framed, in
    order, for every fragmentation of the reply stream and whatever follows it,
    as long as each body fits the frame limit (status byte plus 8 MiB). *)
Theorem host_reads_replies (chunks outs : list bytes) (rest : bytes) :
  nonempty_chunks chunks ->
  Forall (fun out => zlen out <= MAX_RESPONSE_FRAME) outs ->
  concat chunks = concat (frame_reply <$> outs) ++ rest ->
  take (length outs) (reader_task (S (length outs)) [] chunks) = outs.
Proof.
  intros Hne Hok Hc. rewrite <- Nat.add_1_r.
  by apply (reader_task_frames 1 [] chunks outs rest).
Qed.

Lemma device_serves_requests_witness :
  let reqs := [(Op.Stat, path_arg (bs "/d")); (Op.Unlink, path_arg (bs "/d/a"))] in
  let w := MemFs.with_files [(bs "a", [1; 2; 3])] in
  let chunks := (fun b => [b]) <$> request_stream reqs in
  handle_connection 3 1 [] chunks ∅ w =
  let '(outs, o, w) := serve_all 1 reqs ∅ w in (frame_reply <$> outs, Eof, o, w).
Proof.
  intros reqs w chunks. apply (device_serves_requests 1 reqs chunks ∅ w).
  - repeat constructor; vm_compute; congruence.
  - unfold chunks. apply Forall_fmap, Forall_true. done.
  - reflexivity.
Defined.

Lemma host_reads_replies_witness :
  let outs := [[0]; [0; 7; 8]; fail 0x07 "pread"] in
  take 3 (reader_task 4 [] [[1; 0]; drop 2 (concat (frame_reply <$> outs))]) = outs.
Proof.
  intros outs.
  apply (host_reads_replies [[1; 0]; drop 2 (concat (frame_reply <$> outs))] outs []).
  - repeat constructor; done.
  - repeat constructor; vm_compute; congruence.
  - reflexivity.
Defined.

(** ** Argument blocks *)

Definition wire_path (p : bytes) : Prop := zlen p <= MAX_PATH.

Lemma path_arg_len p : zlen (path_arg p) = 4 + zlen p.
Proof. unfold path_arg. len_lia. Qed.
#[export] Hint Rewrite path_arg_len request_frame_len frame_reply_len : adb_len.

(** The device reads back the path the host wrote, and what follows it. *)
Lemma read_path_arg p rest : wire_path p -> read_path (path_arg p ++ rest) = Some (p, rest).
Proof.
  unfold wire_path, MAX_PATH. intros Hp. pose proof (zlen_nonneg p). unfold read_path, path_arg.
  rewrite as_u32_id, <- (assoc_L (++)) by lia.
  replace (zlen _ <? 4) with false by (symmetry; apply Z.ltb_ge; len_lia).
  unfold u32_le_at. rewrite slice_here by len_lia. rewrite le_val_u32 by (unfold u32_ok; lia).
  replace (zlen p >? MAX_PATH) with false
    by (symmetry; rewrite Z.gtb_ltb; apply Z.ltb_ge; unfold MAX_PATH; lia).
  replace (zlen _ <? 4 + zlen p) with false by (symmetry; apply Z.ltb_ge; len_lia).
  cbn [orb]. f_equal. f_equal.
  - slices. done.
  - rewrite !zdrop_app by len_lia. autorewrite with adb_len.
    replace (4 + zlen p - Z.of_nat 4 - zlen p) with 0 by lia. apply zdrop_0.
Qed.

(** A longer path is refused whatever follows. *)
Lemma read_path_long p rest : MAX_PATH < zlen p < 2 ^ 32 -> read_path (path_arg p ++ rest) = None.
Proof.
  intros Hp. unfold read_path, path_arg. rewrite as_u32_id, <- (assoc_L (++)) by len_lia.
  replace (zlen _ <? 4) with false by (symmetry; apply Z.ltb_ge; len_lia).
  unfold u32_le_at. rewrite slice_here, le_val_u32 by len_lia.
  by replace (zlen p >? MAX_PATH) with true by (symmetry; rewrite Z.gtb_ltb; apply Z.ltb_lt; lia).
Qed.

Lemma read_path_arg_nil p : wire_path p -> read_path (path_arg p) = Some (p, []).
Proof. intros H. rewrite <- (app_nil_r (path_arg p)). by apply read_path_arg. Qed.

Lemma read_two_paths_args a b :
  wire_path a -> wire_path b -> starts_with_slash a = true -> starts_with_slash b = true ->
  no_nul a = true -> no_nul b = true ->
  read_two_paths (path_arg a ++ path_arg b) = Some (a, b).
Proof.
  intros Ha Hb Hsa Hsb Hna Hnb. unfold read_two_paths.
  rewrite read_path_arg by done. simpl. rewrite read_path_arg_nil by done. simpl.
  by rewrite Hsa, Hsb, Hna, Hnb.
Qed.

Lemma cstring_no_nul p : no_nul p = true -> cstring p = Some p.
Proof. unfold cstring. by intros ->. Qed.

Section args.
Context {W : Type} `{!Libc W}.

Lemma op_read_args fd off len (w : W) :
  u32_ok fd -> u64_ok off -> 0 <= len <= DeviceProxy.MAX_RESPONSE ->
  op_read (read_args fd off len) w =
  match libc_pread (as_i32 fd) len (as_i64 off) w with
  | Err _ => fail 0x07 "pread"
  | Ok data => 0 :: data
  end.
Proof.
  intros Hf Ho Hl. unfold op_read, read_args.
  assert (u32_ok len) as Hl' by (unfold DeviceProxy.MAX_RESPONSE, u32_ok in *; lia).
  decide_if. unfold u32_le_at, u64_le_at. slices. rewrite !le_val_u32, le_val_u64 by done.
  by decide_if.
Qed.

Lemma op_write_args fd off data (w : W) :
  u32_ok fd -> u64_ok off -> zlen data < 2 ^ 32 ->
  op_write (write_args fd off data) w =
  match libc_pwrite (as_i32 fd) data (as_i64 off) w with
  | (Err _, w) => (fail 0x07 "pwrite", w)
  | (Ok n, w) => if negb (n =? zlen data) then (fail 0x07 "short write", w) else ([0], w)
  end.
Proof.
  intros Hf Ho Hl. pose proof (zlen_nonneg data). unfold op_write, write_args.
  rewrite as_u32_id by lia.
  decide_if. unfold u32_le_at, u64_le_at. slices. rewrite !le_val_u32, le_val_u64 by (try done; unfold u32_ok; lia).
  decide_if. slices. done.
Qed.

Lemma op_open_args path flags mode conn o (w : W) :
  u32_ok flags -> u32_ok mode -> zlen path < 2 ^ 32 -> no_nul path = true ->
  op_open (open_args path flags mode) conn o w =
  match libc_open path (libc_flags flags) mode w with
  | (Err _, w) => (fail 0x07 "open", o, w)
  | (Ok fd, w) => (0 :: le_bytes 4 (as_u32 fd), track (as_u32 fd) conn o, w)
  end.
Proof.
  intros Hf Hm Hl Hn. pose proof (zlen_nonneg path).
  unfold op_open, handle_open, open_args, path_arg. rewrite as_u32_id by lia.
  decide_if. unfold u32_le_at. slices. rewrite !le_val_u32 by (try done; unfold u32_ok; lia).
  decide_if. slices. rewrite c_str_no_nul by done.
  by destruct (libc_open _ _ _ _) as [[fd|e] w'].
Qed.

End args.

(** ** The client connected to a device *)

Section device.
Context {W : Type} `{!Libc W}.

(** One exchange: the device reads the frame and answers; the host's reader
    parses the answer. A reply the reader refuses closes the connection. *)
Definition device_rpc (k : Z) (frame : bytes) (s : OwnedFds * W) : rpc_outcome * (OwnedFds * W) :=
  let '(replies, _, o, w) := handle_connection 1 k [] [frame] s.1 s.2 in
  match replies with
  | resp :: _ =>
      match reader_task 1 [] [resp] with
      | body :: _ => (Reply body, (o, w))
      | [] => (Hangup, (o, w))
      end
  | [] => (Hangup, (o, w))
  end.

(** A device that accepts every connection. *)
#[local] Instance device_net : Net (OwnedFds * W) := {|
  net_connect _ s := (Ok tt, s);
  net_rpc := device_rpc;
|}.

Lemma device_rpc_reply k op args o w out o' w' :
  zlen args <= DeviceProxy.MAX_REQUEST ->
  reply (Op.code op) args k o w = (out, o', w') ->
  zlen out <= MAX_RESPONSE_FRAME ->
  device_rpc k (request_frame op args) (o, w) = (Reply out, (o', w')).
Proof.
  intros Ha Hr Ho. unfold device_rpc.
  rewrite handle_connection_serve by (constructor; [done|constructor]).
  assert (zlen args < 2 ^ 32) as Hlt by (unfold DeviceProxy.MAX_REQUEST in Ha; lia).
  destruct (request_frame_fields op args [] Hlt) as (Hl & Hh & Hs & Hd).
  cbn [concat app]. pose proof (zlen_nonneg args).
  cbn [serve_bytes]. rewrite Hl, Hh, Hs. decide_if.
  unfold dispatch. cbn [default from_option fst snd]. unfold id. rewrite Hr.
  assert (frame_reply out <> []) as Hne.
  { intros E. apply (f_equal zlen) in E. autorewrite with adb_len in E. unfold zlen in E; lia. }
  pose proof (reader_task_frames 0 [] [frame_reply out] [out] []) as Hrt.
  cbn [length Nat.add] in Hrt.
  destruct (reader_task 1 [] [frame_reply out]) as [|x l]; cbn [take] in Hrt.
  - exfalso. eapply nil_cons, Hrt; [by constructor|by constructor|by rewrite !app_nil_r].
  - enough ([x] = [out]) by (by simplify_eq).
    apply Hrt; [by constructor|by constructor|by rewrite !app_nil_r].
Qed.

Lemma acquire_device c :
  0 < permits c -> exists k c', acquire c = (Ok k, c') /\ net c' = net c.
Proof.
  intros Hp. unfold acquire. decide_if.
  enough (forall p (c : client (OwnedFds * W)),
    exists k c', acquire_loop p c = (Ok k, c') /\ net c' = net c) as H.
  { destruct (H (pool c) (set_permits (permits c - 1) c)) as (k & c' & -> & Hn). eauto. }
  intros p. induction p as [|k p IH]; intros c0; cbn [acquire_loop].
  - unfold conn_open. simpl. eauto.
  - destruct (usable _ _); [eauto|]. unfold conn_open. simpl. eauto.
Qed.

(** A client none of whose connections is borrowed. *)
Definition idle (c : client (OwnedFds * W)) : Prop := pool_inv c [] /\ 0 < permits c.

Lemma call_device c op args :
  idle c -> zlen args <= DeviceProxy.MAX_REQUEST ->
  exists k, forall out o' w',
    reply (Op.code op) args k (net c).1 (net c).2 = (out, o', w') ->
    zlen out <= MAX_RESPONSE_FRAME ->
    exists c', call op args c = (parse_reply out, c') /\ net c' = (o', w') /\ idle c'.
Proof.
  intros [Hi Hp] Ha. destruct (acquire_device c Hp) as (k & c1 & Hacq & Hn).
  exists k. intros out o' w' Hr Ho.
  pose proof (acquire_spec _ _ Hi) as Hs. rewrite Hacq in Hs. destruct Hs as [Hi1 Hu].
  unfold call. rewrite Hacq.
  assert (request k op args c1 = (parse_reply out, set_net (o', w') c1)) as ->.
  { unfold request. apply usable_spec in Hu as [Hc1 Hp1].
    unfold is_closed, is_poisoned. rewrite !bool_decide_eq_false_2 by done. cbn [orb].
    assert (zlen args < 2 ^ 32) as Hlt by (unfold DeviceProxy.MAX_REQUEST in Ha; lia).
    unfold MAX_REQUEST, DeviceProxy.MAX_REQUEST in *. decide_if.
    replace (zlen args <? 2 ^ 32) with true by (symmetry; apply Z.ltb_lt; lia). cbn [negb].
    unfold exchange. simpl. rewrite Hn. destruct (net c) as [o w] eqn:En.
    by rewrite (device_rpc_reply k op args o w out o' w'). }
  assert (pool_inv (give_back k (set_net (o', w') c1)) []) as Hg.
  { apply give_back_inv. eapply pool_inv_flags; [done|].
    eapply held_alloc; [done|]. by left. }
  exists (give_back k (set_net (o', w') c1)). split_and!; [done| |].
  - unfold give_back, release. by repeat case_bool.
  - split; [done|]. destruct Hg as [_ Hg1 Hg2]. destruct Hi1 as [_ Hi1 Hi2].
    unfold give_back, release in *. repeat case_bool; simpl in *; lia.
Qed.

(** [call] with the reply spelled out, for ops that do not touch the fd table. *)
Lemma call_device_stateless c op args out w' :
  idle c -> zlen args <= DeviceProxy.MAX_REQUEST ->
  (forall k, reply (Op.code op) args k (net c).1 (net c).2 = (out, (net c).1, w')) ->
  zlen out <= MAX_RESPONSE_FRAME ->
  exists c', call op args c = (parse_reply out, c') /\ net c' = ((net c).1, w') /\ idle c'.
Proof.
  intros Hi Ha Hr Ho. destruct (call_device c op args Hi Ha) as [k Hk].
  by apply (Hk out (net c).1 w').
Qed.

Lemma fail_len s m : zlen (fail s m) = 1 + zlen (bs m).
Proof. apply zlen_cons. Qed.

(** *** Reading and writing an open file *)

Context `{!LibcLaws W}.

(** The file a handle refers to on the device. *)
Definition remote_content (f : ProxyFile) (c : client (OwnedFds * W)) : option bytes :=
  fd ← file_fd f; fd_content (as_i32 fd) (net c).2.

Definition handle_ok (f : ProxyFile) : Prop :=
  match file_fd f with Some fd => 0 <= fd < 2 ^ 31 | None => False end.

(** What [pread] on the device answers for a handle. *)
Definition remote_pread (f : ProxyFile) (off len : Z) (c : client (OwnedFds * W)) : sys bytes :=
  match file_fd f with Some fd => libc_pread (as_i32 fd) len off (net c).2 | None => Err 0 end.

Lemma read_at_device c f off len content :
  idle c -> handle_ok f -> remote_content f c = Some content ->
  0 <= off < 2 ^ 63 -> 0 <= len <= DeviceProxy.MAX_RESPONSE ->
  exists r c', read_at f off len c = (r, c') /\ net c' = net c /\ idle c'
    /\ match remote_pread f off len c with
       | Ok _ => r = Ok (slice content off len)
       | Err _ => exists e, r = Err e
       end.
Proof.
  unfold handle_ok, remote_content, remote_pread, read_at. intros Hi Hf Hc Hoff Hlen.
  destruct (file_fd f) as [fd|]; [|done]. cbn in Hc.
  assert (u32_ok fd) by (unfold u32_ok; lia). assert (u64_ok off) by (unfold u64_ok; lia).
  pose proof (op_read_args fd off len (net c).2 ltac:(done) ltac:(done) Hlen) as Hr.
  rewrite (as_i64_id off) in Hr by lia.
  apply fd_content_spec in Hc as (p & Hp & Hc).
  set (out := op_read (read_args fd off len) (net c).2) in *.
  destruct (call_device_stateless c Op.Read (read_args fd off len) out (net c).2 Hi) as (c' & Hcall & Hn & Hi').
  - unfold read_args, DeviceProxy.MAX_REQUEST. len_lia.
  - done.
  - rewrite Hr. destruct (libc_pread _ _ _ _) as [d|e] eqn:Ed; [|by vm_compute].
    rewrite (pread_law _ p len off content _ d) by (done || lia).
    unfold MAX_RESPONSE_FRAME, MAX_RESPONSE, DeviceProxy.MAX_RESPONSE in *. len_lia.
  - eexists _, c'. rewrite Hcall. split_and!; [done|by rewrite Hn; destruct (net c)|done|]. rewrite Hr.
    destruct (libc_pread _ _ _ _) as [d|e] eqn:Ed; [|by eexists].
    by rewrite (pread_law _ p len off content _ d) by (done || lia).
Qed.

Lemma write_at_device c f fd off data :
  idle c -> file_fd f = Some fd -> 0 <= fd < 2 ^ 31 ->
  0 <= off < 2 ^ 63 -> 16 + zlen data <= DeviceProxy.MAX_REQUEST ->
  exists r c', write_at f off data c = (r, c') /\ idle c'
    /\ (r = Ok tt ->
        libc_pwrite (as_i32 fd) data off (net c).2 = (Ok (zlen data), (net c').2)).
Proof.
  unfold write_at. intros Hi -> Hf Hoff Hlen. unfold DeviceProxy.MAX_REQUEST in Hlen.
  assert (u32_ok fd) by (unfold u32_ok; lia). assert (u64_ok off) by (unfold u64_ok; lia).
  pose proof (op_write_args fd off data (net c).2 ltac:(done) ltac:(done) ltac:(lia)) as Hw.
  rewrite (as_i64_id off) in Hw by lia.
  destruct (op_write (write_args fd off data) (net c).2) as [out w'] eqn:Ew.
  destruct (call_device_stateless c Op.Write (write_args fd off data) out w' Hi)
    as (c' & Hcall & Hn & Hi').
  - unfold write_args, DeviceProxy.MAX_REQUEST. len_lia.
  - intros k. unfold reply. simpl. unfold world_reply. by rewrite Ew.
  - destruct (libc_pwrite _ _ _ _) as [[n|e] w1];
      [destruct (n =? zlen data)|]; injection Hw as -> ->; done.
  - exists (parse_reply out ≫= unit_dec), c'. unfold call_with. rewrite Hcall.
    split_and!; [done|done|]. intros Hok. rewrite Hn; cbn.
    destruct (libc_pwrite _ _ _ _) as [[n|e] w1] eqn:Ep;
      [destruct (n =? zlen data) eqn:En|]; injection Hw as -> ->; bool_to_prop.
    + by rewrite En.
    + by vm_compute in Hok.
    + by vm_compute in Hok.
Qed.

(** C3: Write then read. Over the wire, through the pool, the frame codecs and the
    device's handlers: when [write_at] reports success the file on the device is
    the old contents with the data spliced in at the offset. A following [read_at]
    of the same range returns exactly the data if the device's [pread] succeeds (the handle
    was also opened for reading and the disk does not fail), and an error if it
    does not. *)
Theorem remote_write_read (c c1 : client (OwnedFds * W)) (f : ProxyFile) (off : Z)
    (data content : bytes) :
  idle c -> handle_ok f -> remote_content f c = Some content ->
  0 <= off < 2 ^ 63 -> 16 + zlen data <= DeviceProxy.MAX_REQUEST ->
  write_at f off data c = (Ok tt, c1) ->
  remote_content f c1 = Some (splice content off data)
  /\ exists r c2, read_at f off (zlen data) c1 = (r, c2)
     /\ match remote_pread f off (zlen data) c1 with Ok _ => r = Ok data | Err _ => exists e, r = Err e end.
Proof.
  intros Hi Hf Hc Ho Hl Hw.
  destruct (file_fd f) as [fd|] eqn:Efd; [|by unfold handle_ok in Hf; rewrite Efd in Hf].
  pose proof Hf as Hfd. unfold handle_ok in Hfd. rewrite Efd in Hfd.
  destruct (write_at_device c f fd off data) as (r & c' & Hw' & Hi' & Hpw); try done.
  rewrite Hw in Hw'. simplify_eq. specialize (Hpw eq_refl).
  assert (remote_content f c' = Some (splice content off data)) as Hr.
  { unfold remote_content in *. rewrite Efd in *. cbn in *.
    apply fd_content_spec in Hc as (p & Hp & Hc).
    destruct (pwrite_law _ p data off content _ _ _ Hp Hc (proj1 Ho) Hpw eq_refl) as [Hp' Hc'].
    unfold fd_content. by rewrite Hp'. }
  split; [done|].
  destruct (read_at_device c' f off (zlen data) (splice content off data))
    as (r & c2 & -> & _ & _ & Hd); try done.
  - unfold DeviceProxy.MAX_REQUEST, DeviceProxy.MAX_RESPONSE in *. len_lia.
  - exists r, c2. split; [done|]. by rewrite slice_splice in Hd by lia.
Qed.

(** *** Attributes by path *)

(** The host's view of a [struct stat]. *)
Definition host_stat (st : c_stat) : Stat.t :=
  Stat.mk (st_mode st) (as_u64 (st_size st)) (st_mtime st) (st_atime st) (st_ctime st)
    (st_uid st) (st_gid st) (as_u32 (st_nlink st)) (as_u32 (st_blksize st))
    (as_u64 (st_blocks st)).

Lemma encode_stat_host st : encode_stat st = Stat.encode (host_stat st).
Proof. done. Qed.

Lemma host_stat_wf st : c_stat_ok st -> Stat.wf (host_stat st).
Proof.
  intros (?&?&?&?&?&?). unfold Stat.wf, host_stat; cbn.
  split_and!; try done; unfold as_u64, as_u32, u32_ok, u64_ok; apply Z.mod_pos_bound; lia.
Qed.

Lemma decode_encode_stat st : c_stat_ok st -> Stat.decode (encode_stat st) = Some (host_stat st).
Proof.
  intros H. rewrite encode_stat_host, <- (app_nil_r (Stat.encode _)).
  by apply Stat.decode_encode_app, host_stat_wf.
Qed.

(** What the host makes of an errno a path lookup failed with. *)
Definition stat_failure (e : Z) : ProxyError :=
  StatusErr (Status.from_u8 (stat_status e)) (from_utf8_lossy (strerror e)).

Lemma stat_status_not_ok e : Status.from_u8 (stat_status e) <> Status.Ok.
Proof. unfold stat_status. by repeat case_bool. Qed.

Lemma stat_status_notfound e : Status.from_u8 (stat_status e) = Status.NotFound <-> e = ENOENT.
Proof.
  unfold stat_status. split; [|by intros ->]. by repeat case_bool; bool_to_prop.
Qed.

Lemma parse_stat_failure e :
  parse_reply (data_reply (Err (stat_error e))) = Err (stat_failure e).
Proof.
  unfold stat_failure, stat_error, data_reply, parse_reply.
  pose proof (stat_status_not_ok e). by destruct (Status.from_u8 _).
Qed.

Lemma encode_stat_len st : zlen (encode_stat st) = 60.
Proof. rewrite encode_stat_host. apply Stat.encode_len. Qed.

(** [lstat] over the wire is the device's [lstat]: the attributes arrive field
    for field, an errno arrives as its status, and NotFound is reported exactly
    when the name does not exist ([ENOENT]) and for no other failure, so that an
    existence probe never mistakes an error for a free name. *)
Theorem remote_lstat (c : client (OwnedFds * W)) (path : bytes) :
  idle c -> wire_path path -> no_nul path = true ->
  (forall st, libc_lstat path (net c).2 = Ok st -> c_stat_ok st) ->
  (exists c', lstat path c =
     (match libc_lstat path (net c).2 with
      | Ok st => Ok (host_stat st)
      | Err e => Err (stat_failure e)
      end, c') /\ net c' = net c)
  /\ (forall m, (lstat path c).1 = Err (StatusErr Status.NotFound m) <->
        libc_lstat path (net c).2 = Err ENOENT /\ m = from_utf8_lossy (strerror ENOENT)).
Proof.
  intros Hi Hp Hn Hst. unfold lstat, call_with.
  set (out := data_reply (do_lstat path (net c).2)).
  destruct (call_device_stateless c Op.Lstat (path_arg path) out (net c).2 Hi)
    as (c' & -> & Hnet & _).
  - unfold DeviceProxy.MAX_REQUEST. unfold wire_path, MAX_PATH in Hp. len_lia.
  - intros k. unfold reply. simpl. unfold pure_reply, op_stat.
    by rewrite read_path_arg_nil.
  - unfold out, do_lstat, MAX_RESPONSE_FRAME, MAX_RESPONSE. rewrite c_str_no_nul by done.
    destruct (libc_lstat path (net c).2) as [st|e]; unfold data_reply, stat_error; rewrite zlen_cons.
    + rewrite encode_stat_len. lia.
    + pose proof (strerror_len e). lia.
  - assert (parse_reply out ≫= stat_dec "lstat decode" =
      match libc_lstat path (net c).2 with
      | Ok st => Ok (host_stat st) | Err e => Err (stat_failure e) end) as ->.
    { unfold out, do_lstat. rewrite c_str_no_nul by done.
      destruct (libc_lstat path (net c).2) as [st|e] eqn:E.
      - unfold data_reply, parse_reply. cbn. unfold stat_dec. by rewrite decode_encode_stat by auto.
      - rewrite parse_stat_failure. done. }
    split.
    + exists c'. rewrite Hnet. by destruct (net c).
    + intros m. cbn. destruct (libc_lstat path (net c).2) as [st|e]; [naive_solver|].
      unfold stat_failure. split.
      * intros [= H1 H2]. apply stat_status_notfound in H1. by subst.
      * by intros [[= ->] ->].
Qed.

End device.

(** ** Witnesses: a client with one pooled connection to the in-memory device *)

Definition one_conn {S} (s : S) : client S := Client [0] ∅ ∅ 1 1 1 s.

Lemma one_conn_idle {W} `{!Libc W} (s : OwnedFds * W) : idle (one_conn s).
Proof.
  split; [|done]. constructor; [constructor|..]; simpl; try done.
  - apply NoDup_singleton.
  - by repeat constructor.
  - intros k [?%elem_of_empty|?%elem_of_empty]; done.
Qed.

(** The file system with /d/a open as fd 3. *)
Definition opened : MemFs.t := (libc_open (bs "/d/a") O_RDWR 0 (MemFs.with_files [(bs "a", [1; 2; 3])])).2.

Lemma remote_write_read_witness :
  let c := one_conn (∅, opened) in
  let f := mkFile (Some 3) (bs "/d/a") in
  let c1 := (@write_at _ device_net f 2 [9; 8] c).2 in
  remote_content f c1 = Some [1; 2; 9; 8]
  /\ exists c2, @read_at _ device_net f 2 2 c1 = (Ok [9; 8], c2).
Proof.
  intros c f c1. cut (remote_content f c1 = Some [1; 2; 9; 8] /\ exists r c2, @read_at _ device_net f 2 (zlen [9; 8]) c1 = (r, c2)
    /\ match remote_pread f 2 (zlen [9; 8]) c1 with Ok _ => r = Ok [9; 8] | Err _ => exists e, r = Err e end).
  { intros (H & r & c2 & Hr & Hd). split; [exact H|]. exists c2. vm_compute in Hd. subst r. exact Hr. }
  apply (remote_write_read c c1 f 2 [9; 8] [1; 2; 3]).
  - apply one_conn_idle.
  - unfold handle_ok; simpl; lia.
  - vm_compute. reflexivity.
  - lia.
  - vm_compute. congruence.
  - vm_compute. reflexivity.
Defined.

Lemma remote_lstat_witness :
  let c := one_conn (∅, MemFs.with_files []) in
  exists c', @lstat _ device_net (bs "/d") c = (Ok (host_stat (MemFs.node_stat MemFs.Dir)), c')
             /\ net c' = net c.
Proof.
  intros c. destruct (remote_lstat c (bs "/d")) as [H _]; [..|exact H].
  - apply one_conn_idle.
  - vm_compute. congruence.
  - reflexivity.
  - intros st H. vm_compute in H. injection H as <-.
    unfold c_stat_ok, u32_ok, i64_ok; simpl; lia.
Defined.
