(* ===== verification/Listing.v ===== *)
(** * Paged directory listings, end to end

    [do_listdir] on the device, [parse_dir_page] and the paging loop of
    [ProxyClient::listdir] on the host. When every entry can be stat'ed, the
    host obtains each entry of the directory exactly once, in order, whatever
    its size; the offsets of the two sides disagree otherwise. *)

From stdpp Require Import base list gmap strings.
From S2P Require Import Prelude RustStd ProxyOps Libc DeviceProxy ProxyClient ProxyRpc.

#[local] Existing Instance device_net.

Section listing.
Context {W : Type} `{!Libc W} `{!LibcLaws W}.
Variable w : W.
Variable path : bytes.

(** The device's [lstat] of an entry of the directory. *)
Definition entry_stat (name : bytes) : sys c_stat :=
  libc_lstat (c_str (full_path path name ++ [0])) w.

Definition listed (name : bytes) : bool := negb (is_dot name).

(** A name with attributes, as the host sees it. *)
Definition host_entry (name : bytes) : DirEntry.t :=
  DirEntry.mk name match entry_stat name with
                   | Ok st => host_stat st
                   | Err _ => Stat.mk 0 0 0 0 0 0 0 0 0 0
                   end.

Definition entry_record (name : bytes) : bytes :=
  match entry_stat name with Ok st => dir_record name st | Err _ => [] end.

(** File names of a Linux file system that can be stat'ed. *)
Record good_name (name : bytes) : Prop := {
  good_utf8 : utf8_valid name = true;
  good_len : zlen name <= 255;
  good_stat : exists st, entry_stat name = Ok st /\ c_stat_ok st;
}.

(** ** The device's page *)

Lemma listdir_loop_dots off max names seen emitted body :
  listdir_loop w path off max names seen emitted body =
  listdir_loop w path off max (List.filter listed names) seen emitted body.
Proof.
  revert seen emitted body. induction names as [|n names IH]; intros; [done|].
  cbn [listdir_loop List.filter]. unfold listed at 1.
  destruct (is_dot n) eqn:Hd; cbn [negb]; [by rewrite IH|].
  cbn [listdir_loop]. rewrite Hd. repeat case_match; by rewrite ?IH.
Qed.

Lemma listdir_loop_good off max names seen emitted body :
  Forall (fun n => listed n = true) names -> Forall good_name names ->
  0 <= seen -> emitted < max ->
  let page := ztake (max - emitted) (zdrop (off - seen) names) in
  listdir_loop w path off max names seen emitted body =
  (emitted + zlen page, body ++ concat (entry_record <$> page)).
Proof.
  revert seen emitted body. induction names as [|n names IH]; intros seen emitted body Hl Hg Hs He page.
  { assert (page = []) as ->.
    { unfold page, ztake, zdrop. by rewrite drop_nil, take_nil. }
    cbn. by rewrite app_nil_r, Z.add_0_r. }
  apply Forall_cons in Hl as [Hn Hl], Hg as [Hgn Hg].
  unfold listed in Hn. apply negb_true_iff in Hn.
  cbn [listdir_loop]. rewrite Hn.
  destruct (Z.leb_spec (seen + 1) off) as [Hoff|Hoff].
  - rewrite IH by (done || lia). subst page.
    assert (zdrop (off - seen) (n :: names) = zdrop (off - (seen + 1)) names) as ->; [|done].
    unfold zdrop. replace (Z.to_nat (off - seen)) with (S (Z.to_nat (off - (seen + 1)))) by lia. done.
  - destruct (good_stat n Hgn) as (st & Hst & _).
    fold (entry_stat n). rewrite Hst.
    assert (page = n :: ztake (max - (emitted + 1)) names) as Hpage.
    { subst page. unfold ztake, zdrop. replace (Z.to_nat (off - seen)) with O by lia.
      replace (Z.to_nat (max - emitted)) with (S (Z.to_nat (max - (emitted + 1)))) by lia. done. }
    assert (entry_record n = dir_record n st) as Hrec by (unfold entry_record; by rewrite Hst).
    rewrite Hpage, fmap_cons, zlen_cons. cbn [concat]. rewrite Hrec.
    destruct (emitted + 1 >=? max) eqn:Hmax.
    + apply Z.geb_le in Hmax. replace (max - (emitted + 1)) with 0 by lia.
      rewrite ztake_0. cbn. rewrite app_nil_r. f_equal.
    + assert (emitted + 1 < max) by (rewrite Z.geb_leb in Hmax; bool_to_prop; lia).
      rewrite IH by (done || lia).
      replace (zdrop (off - (seen + 1)) names) with names
        by (unfold zdrop; by replace (Z.to_nat (off - (seen + 1))) with O by lia).
      rewrite <- (assoc_L (++)). f_equal. lia.
Qed.

(** ** The host's parser *)

Lemma dir_record_len name st : zlen (dir_record name st) = 64 + zlen name.
Proof. unfold dir_record. rewrite !zlen_app, zlen_le_bytes, encode_stat_len. lia. Qed.

Lemma parse_entries_records fuel names :
  Forall good_name names -> (length (concat (entry_record <$> names)) <= fuel)%nat ->
  parse_entries fuel (concat (entry_record <$> names)) = Ok (host_entry <$> names).
Proof.
  revert fuel. induction names as [|n names IH]; intros fuel Hg Hf; [by destruct fuel|].
  apply Forall_cons in Hg as [Hgn Hg]. rewrite fmap_cons in *. cbn [concat] in *.
  destruct (good_stat n Hgn) as (st & Hst & Hok).
  assert (entry_record n = dir_record n st) as Hrec by (unfold entry_record; by rewrite Hst).
  rewrite Hrec in *. pose proof (dir_record_len n st) as Hlen.
  pose proof (good_len n Hgn). pose proof (zlen_nonneg n).
  set (rest := concat (entry_record <$> names)) in *.
  assert (zlen (dir_record n st ++ rest) = 64 + zlen n + zlen rest) as Htot
    by (rewrite zlen_app; lia).
  rewrite length_app in Hf. unfold zlen in Hlen.
  destruct fuel as [|fuel]; [lia|].
  destruct (dir_record n st ++ rest) as [|b s] eqn:Es; [exfalso; len_lia|].
  cbn [parse_entries]. rewrite <- Es in *. rewrite Htot.
  unfold dir_record in Es |- *. rewrite <- !(assoc_L (++)) in *.
  assert (u32_le_at (le_bytes 4 (zlen n) ++ n ++ encode_stat st ++ rest) 0 = zlen n) as ->.
  { unfold u32_le_at. rewrite slice_here by len_lia. apply le_val_u32. unfold u32_ok. lia. }
  pose proof (zlen_nonneg rest). decide_if.
  assert (slice (le_bytes 4 (zlen n) ++ n ++ encode_stat st ++ rest) 4 (zlen n) = n) as ->
    by (by slices).
  assert (slice (le_bytes 4 (zlen n) ++ n ++ encode_stat st ++ rest) (4 + zlen n) 60
          = encode_stat st) as ->.
  { rewrite !slice_skip by len_lia. autorewrite with adb_len.
    replace (4 + zlen n - Z.of_nat 4 - zlen n) with 0 by lia.
    apply slice_here, encode_stat_len. }
  assert (zdrop (4 + zlen n + 60) (le_bytes 4 (zlen n) ++ n ++ encode_stat st ++ rest) = rest) as ->.
  { rewrite !zdrop_app by (rewrite ?encode_stat_len; len_lia).
    rewrite encode_stat_len. autorewrite with adb_len.
    replace (4 + zlen n + 60 - Z.of_nat 4 - zlen n - 60) with 0 by lia. apply zdrop_0. }
  rewrite decode_encode_stat by done. cbn [ok_or mbind result_bind].
  rewrite IH by (try done; lia). cbn. f_equal. f_equal.
  unfold host_entry. rewrite Hst. f_equal. by apply from_utf8_lossy_valid, good_utf8.
Qed.

Lemma records_len names :
  Forall good_name names -> zlen (concat (entry_record <$> names)) <= 319 * zlen names.
Proof.
  induction 1 as [|n names Hn _ IH]; [done|].
  rewrite fmap_cons. cbn [concat]. rewrite zlen_app, zlen_cons.
  destruct (good_stat n Hn) as (st & Hst & _). unfold entry_record at 1. rewrite Hst.
  rewrite dir_record_len. pose proof (good_len n Hn). lia.
Qed.

Lemma parse_page names :
  Forall good_name names -> zlen names < 2 ^ 32 ->
  parse_dir_page (le_bytes 4 (as_u32 (zlen names)) ++ concat (entry_record <$> names))
  = Ok (host_entry <$> names).
Proof.
  intros Hg Hn. pose proof (zlen_nonneg names). rewrite as_u32_id by lia.
  unfold parse_dir_page. decide_if.
  rewrite zdrop_app_exact by len_lia.
  unfold u32_le_at. rewrite slice_here by len_lia. rewrite le_val_u32 by (unfold u32_ok; lia).
  unfold parse_dir_entries. rewrite parse_entries_records by (done || lia). cbn [mbind result_bind].
  by rewrite zlen_fmap, Z.eqb_refl.
Qed.

End listing.

(** ** The host's paging loop *)

Section paging.
Context {W : Type} `{!Libc W} `{!LibcLaws W}.
Implicit Types (c : client (OwnedFds * W)).

(** The page the device sends for [offset], as the names in it. *)
Lemma listdir_page_device c path names offset page :
  idle c -> wire_path path -> no_nul path = true -> u32_ok offset ->
  libc_readdir path (net c).2 = Ok names ->
  listdir_loop (net c).2 path offset LISTDIR_PAGE names 0 0 [] =
    (zlen page, concat (entry_record (net c).2 path <$> page)) ->
  Forall (good_name (net c).2 path) page -> zlen page <= LISTDIR_PAGE ->
  exists c', listdir_page path offset c = (Ok (host_entry (net c).2 path <$> page), c')
             /\ net c' = net c /\ idle c'.
Proof.
  intros Hi Hp Hn Ho Hd Hloop Hg Hlen. unfold listdir_page, call_with.
  pose proof (records_len (net c).2 path page Hg) as Hrec.
  unfold LISTDIR_PAGE in Hlen.
  set (out := 0 :: le_bytes 4 (as_u32 (zlen page)) ++ concat (entry_record (net c).2 path <$> page)).
  destruct (call_device_stateless c Op.ListDir (listdir_args path offset) out (net c).2 Hi)
    as (c' & -> & Hnet & Hi').
  - unfold listdir_args, DeviceProxy.MAX_REQUEST. unfold wire_path, MAX_PATH in Hp. len_lia.
  - intros k. unfold reply. cbn [Op.code Z.eqb Pos.eqb orb]. unfold pure_reply, op_listdir, listdir_args.
    rewrite read_path_arg by done. decide_if.
    unfold u32_le_at. rewrite slice_here by len_lia. rewrite le_val_u32 by done.
    slices. rewrite le_val_u32 by done.
    change (Z.max LISTDIR_PAGE 1) with LISTDIR_PAGE.
    unfold do_listdir. rewrite c_str_no_nul, Hd, Hloop by done. done.
  - unfold out, MAX_RESPONSE_FRAME, MAX_RESPONSE. len_lia.
  - exists c'. rewrite Hnet. split_and!; [|by destruct (net c)|done]. f_equal.
    unfold out, parse_reply. cbn [Status.from_u8 Z.eqb mbind result_bind].
    apply parse_page; [done|lia].
Qed.

Lemma Forall_ztake {A} (P : A -> Prop) n l : Forall P l -> Forall P (ztake n l).
Proof. apply Forall_take. Qed.
Lemma Forall_zdrop {A} (P : A -> Prop) n l : Forall P l -> Forall P (zdrop n l).
Proof. apply Forall_drop. Qed.

Lemma Forall_listed names : Forall (fun n => listed n = true) (List.filter listed names).
Proof. apply List.Forall_forall. intros x Hx. by apply List.filter_In in Hx as [_ ?]. Qed.

Lemma listdir_from_device fuel c path names off acc :
  let all := List.filter listed names in
  idle c -> wire_path path -> no_nul path = true ->
  libc_readdir path (net c).2 = Ok names -> Forall (good_name (net c).2 path) all ->
  zlen all + LISTDIR_PAGE < 2 ^ 32 -> 0 <= off <= zlen all ->
  zlen all - off < LISTDIR_PAGE * Z.of_nat fuel ->
  exists c', listdir_from fuel path off acc c =
    (Some (Ok (acc ++ (host_entry (net c).2 path <$> zdrop off all))), c') /\ net c' = net c.
Proof.
  intros all. revert c off acc. induction fuel as [|fuel IH];
    intros c off acc Hi Hp Hn Hd Hg Hsz Hoff Hf; [lia|].
  set (page := ztake LISTDIR_PAGE (zdrop off all)).
  assert (zlen page = Z.min LISTDIR_PAGE (zlen all - off)) as Hlen
    by (unfold page, LISTDIR_PAGE; rewrite zlen_ztake, zlen_zdrop; lia).
  destruct (listdir_page_device c path names off page) as (c1 & Hpage & Hnet & Hi1); try done.
  { unfold u32_ok, LISTDIR_PAGE in *; lia. }
  { rewrite listdir_loop_dots. fold all.
    rewrite listdir_loop_good; [|apply Forall_listed|done|lia|unfold LISTDIR_PAGE; lia].
    by rewrite !Z.sub_0_r. }
  { by apply Forall_ztake, Forall_zdrop. }
  { lia. }
  cbn [listdir_from]. rewrite Hpage. rewrite zlen_fmap, as_u32_id by (unfold LISTDIR_PAGE in *; lia).
  case_bool; bool_to_prop.
  - exists c1. split; [|done]. repeat f_equal. unfold page.
    apply ztake_all. rewrite zlen_zdrop. lia.
  - assert (zlen page = LISTDIR_PAGE) as Hfull by lia.
    rewrite as_u32_id by (unfold LISTDIR_PAGE in *; lia).
    destruct (IH c1 (off + zlen page) (acc ++ (host_entry (net c).2 path <$> page)))
      as (c2 & Hrec & Hnet2); rewrite ?Hnet; try done; try (unfold LISTDIR_PAGE in *; lia).
    rewrite Hnet in Hrec, Hnet2.
    exists c2. rewrite Hrec. split; [|done].
    rewrite <- (assoc_L (++)), <- fmap_app.
    apply (f_equal (fun x => (Some (Ok (acc ++ (_ <$> x))), c2))).
    rewrite Hfull. unfold page. rewrite <- (zdrop_zdrop all LISTDIR_PAGE off) by (unfold LISTDIR_PAGE; lia).
    apply ztake_zdrop.
Qed.

(** C6: A directory of any size is listed completely. If every entry can be
    stat'ed, the host's paging loop returns each entry of the directory (["."]
    and [".."] left out) exactly once, in the device's order, with its
    attributes; it needs one page per 16384 entries and one more. *)
Theorem listdir_complete (fuel : nat) (c : client (OwnedFds * W)) (path : bytes)
    (names : list bytes) :
  let all := List.filter listed names in
  idle c -> wire_path path -> no_nul path = true ->
  libc_readdir path (net c).2 = Ok names -> Forall (good_name (net c).2 path) all ->
  zlen all + LISTDIR_PAGE < 2 ^ 32 -> zlen all < LISTDIR_PAGE * Z.of_nat fuel ->
  exists c', listdir fuel path c = (Some (Ok (host_entry (net c).2 path <$> all)), c')
             /\ net c' = net c.
Proof.
  intros all Hi Hp Hn Hd Hg Hsz Hf. pose proof (zlen_nonneg all). subst all.
  destruct (listdir_from_device fuel c path names 0 []) as (c' & Heq & Hnet); try done; try lia.
  exists c'. split; [exact Heq|done].
Qed.

(** *** An entry that cannot be stat'ed *)

(** With an unreadable first entry, every page after the first starts one entry
    early: the device's skip counter has counted it, the host's offset has not. *)
Lemma listdir_loop_bad w path off max bad goods :
  listed bad = true -> (exists e, entry_stat w path bad = Err e) ->
  Forall (fun n => listed n = true) goods -> Forall (good_name w path) goods -> 0 < max ->
  let page := ztake max (zdrop (off - 1) goods) in
  listdir_loop w path off max (bad :: goods) 0 0 [] =
  (zlen page, concat (entry_record w path <$> page)).
Proof.
  intros Hb [e He] Hl Hg Hm page. unfold listed in Hb. apply negb_true_iff in Hb.
  cbn [listdir_loop]. rewrite Hb. change (0 + 1) with 1.
  fold (entry_stat w path bad). rewrite He.
  destruct (1 <=? off); by rewrite listdir_loop_good, Z.sub_0_r by (done || lia).
Qed.

(** The two sides' offsets disagree. In a directory whose first entry cannot be
    stat'ed and which holds between 16384 and 32766 readable entries after it,
    the listing the host returns repeats the 16384th readable entry: the host
    advances its offset by the entries it received, the device skips by the
    entries it passed, unreadable ones included. *)
Theorem listdir_repeats_entry (c : client (OwnedFds * W)) (path bad : bytes)
    (goods : list bytes) :
  idle c -> wire_path path -> no_nul path = true ->
  libc_readdir path (net c).2 = Ok (bad :: goods) ->
  listed bad = true -> (exists e, entry_stat (net c).2 path bad = Err e) ->
  Forall (fun n => listed n = true) goods -> Forall (good_name (net c).2 path) goods ->
  LISTDIR_PAGE <= zlen goods < 2 * LISTDIR_PAGE - 1 ->
  exists c', listdir 2 path c =
    (Some (Ok (host_entry (net c).2 path <$>
                 ztake LISTDIR_PAGE goods ++ zdrop (LISTDIR_PAGE - 1) goods)), c').
Proof.
  intros Hi Hp Hn Hd Hb He Hl Hg Hsz.
  assert (forall c1 off, idle c1 -> net c1 = net c -> u32_ok off ->
    exists c', listdir_page path off c1 =
      (Ok (host_entry (net c).2 path <$> ztake LISTDIR_PAGE (zdrop (off - 1) goods)), c')
      /\ net c' = net c1 /\ idle c') as Hpage.
  { intros c1 off Hi1 Hn1 Ho. rewrite <- Hn1 in *.
    apply (listdir_page_device c1 path (bad :: goods)); try done.
    - by apply listdir_loop_bad.
    - by apply Forall_ztake, Forall_zdrop.
    - rewrite zlen_ztake. unfold LISTDIR_PAGE. lia. }
  unfold listdir. cbn [listdir_from].
  destruct (Hpage c 0 Hi eq_refl) as (c1 & -> & Hn1 & Hi1); [by unfold u32_ok|].
  change (0 - 1) with (-1). change (zdrop (-1) goods) with goods.
  assert (zlen (ztake LISTDIR_PAGE goods) = LISTDIR_PAGE) as Hz
    by (rewrite zlen_ztake; unfold LISTDIR_PAGE in *; lia).
  rewrite zlen_fmap, Hz, as_u32_id by done. cbn [Z.ltb Z.compare].
  replace (LISTDIR_PAGE <? LISTDIR_PAGE) with false by done.
  change (as_u32 (0 + LISTDIR_PAGE)) with LISTDIR_PAGE.
  destruct (Hpage c1 LISTDIR_PAGE Hi1 Hn1) as (c2 & -> & _); [by unfold u32_ok|].
  assert (ztake LISTDIR_PAGE (zdrop (LISTDIR_PAGE - 1) goods) = zdrop (LISTDIR_PAGE - 1) goods)
    as -> by (apply ztake_all; rewrite zlen_zdrop; unfold LISTDIR_PAGE in *; lia).
  rewrite zlen_fmap, as_u32_id by (rewrite zlen_zdrop; unfold LISTDIR_PAGE in *; lia).
  exists c2. replace (_ <? LISTDIR_PAGE) with true.
  - by rewrite app_nil_l, fmap_app.
  - symmetry. apply Z.ltb_lt. rewrite zlen_zdrop. unfold LISTDIR_PAGE in *. lia.
Qed.

End paging.

(** ** Witnesses *)

Lemma listdir_complete_witness :
  let fs := MemFs.with_files [(bs "a", [1; 2; 3]); (bs "b", [])] in
  let c := one_conn (∅, fs) in
  exists c', listdir 1 (bs "/d") c =
    (Some (Ok [DirEntry.mk (bs "b") (host_stat (MemFs.node_stat (MemFs.File [])));
               DirEntry.mk (bs "a") (host_stat (MemFs.node_stat (MemFs.File [1; 2; 3])))]), c')
    /\ net c' = net c.
Proof.
  intros fs c. set (names := [bs "."; bs ".."; bs "b"; bs "a"]).
  match goal with |- context [Ok ?l] => replace l with
    (host_entry (net c).2 (bs "/d") <$> List.filter listed names) by (vm_compute; reflexivity) end.
  apply (listdir_complete 1 c (bs "/d") names).
  - apply one_conn_idle.
  - vm_compute. congruence.
  - reflexivity.
  - vm_compute. reflexivity.
  - change (List.filter listed names) with [bs "b"; bs "a"].
    apply Forall_cons; split; [|apply Forall_singleton]; (split; [done|done|]).
    + exists (MemFs.node_stat (MemFs.File [])).
      split; [vm_compute; reflexivity|unfold c_stat_ok, u32_ok, i64_ok; simpl; lia].
    + exists (MemFs.node_stat (MemFs.File [1; 2; 3])).
      split; [vm_compute; reflexivity|unfold c_stat_ok, u32_ok, i64_ok; simpl; lia].
  - vm_compute. reflexivity.
  - vm_compute. reflexivity.
Defined.

(** A directory of 16384 readable files whose first entry is denied. *)
Module WideDir.

(** Three-letter names. *)
Definition name (i : Z) : bytes := [97 + i / 676 mod 26; 97 + i / 26 mod 26; 97 + i mod 26].
Definition readable : list bytes := name <$> seqZ 0 16384.
Definition denied : bytes := bs "denied".

#[local] Instance libc : Libc MemFs.t := {|
  libc_open := libc_open; libc_close := libc_close; libc_pread := libc_pread;
  libc_pwrite := libc_pwrite; libc_stat := libc_stat; libc_fstat := libc_fstat;
  libc_lstat p _ :=
    if bool_decide (p = bs "/d/denied") then Err EACCES
    else Ok (MemFs.node_stat (MemFs.File []));
  libc_readdir _ _ := Ok (denied :: readable);
  libc_mkdir := libc_mkdir; libc_unlink := libc_unlink; libc_rmdir := libc_rmdir;
  libc_rename := libc_rename; libc_truncate := libc_truncate;
  libc_realpath := libc_realpath; libc_readlink := libc_readlink;
  libc_symlink := libc_symlink; libc_utimes := libc_utimes; libc_statvfs := libc_statvfs;
  libc_openat := libc_openat; libc_fstatat := libc_fstatat; libc_unlinkat := libc_unlinkat;
  libc_fsync := libc_fsync; libc_copy := libc_copy; strerror := strerror;
|}.

#[local] Instance laws : @LibcLaws MemFs.t libc :=
  @Build_LibcLaws MemFs.t libc MemFs.file_at (@fd_file _ _ MemFs.laws)
    (@pread_law _ _ MemFs.laws) (@pwrite_law _ _ MemFs.laws) (@open_law _ _ MemFs.laws)
    (@close_law _ _ MemFs.laws) (@stat_law _ _ MemFs.laws)
    (@stat_fields_law _ _ MemFs.laws) (@file_size_law _ _ MemFs.laws)
    (@strerror_len _ _ MemFs.laws).

Lemma name_letters i : Forall (fun b => 97 <= b < 123) (name i).
Proof.
  unfold name. repeat (apply Forall_cons; split; [|]); [..|constructor];
    match goal with |- context [?x mod 26] => pose proof (Z.mod_pos_bound x 26) end; lia.
Qed.

Lemma name_not_denied i : c_str (full_path (bs "/d") (name i) ++ [0]) <> bs "/d/denied".
Proof.
  intros H%(f_equal length). revert H. change (full_path (bs "/d") (name i)) with (bs "/d/" ++ name i).
  rewrite c_str_no_nul; [done|].
  unfold no_nul. rewrite forallb_app. apply andb_true_iff. split; [done|].
  apply forallb_forall. intros b Hb. pose proof (name_letters i) as Hl.
  rewrite List.Forall_forall in Hl. specialize (Hl b Hb).
  apply negb_true_iff, Z.eqb_neq. lia.
Qed.

Lemma readable_good (w : MemFs.t) : Forall (good_name w (bs "/d")) readable.
Proof.
  apply Forall_fmap, Forall_true. intros i. split.
  - apply utf8_valid_ascii. eapply Forall_impl; [apply name_letters|]. simpl. lia.
  - done.
  - exists (MemFs.node_stat (MemFs.File [])). split.
    + unfold entry_stat. cbn [libc_lstat libc].
      rewrite bool_decide_eq_false_2; [done|apply name_not_denied].
    + unfold c_stat_ok, u32_ok, i64_ok; simpl; lia.
Qed.

Lemma readable_listed : Forall (fun n => listed n = true) readable.
Proof.
  apply Forall_fmap, Forall_true. intros i. unfold listed, is_dot. simpl.
  by rewrite !bool_decide_eq_false_2.
Qed.

Lemma readable_len : zlen readable = 16384.
Proof. unfold readable. rewrite zlen_fmap. unfold zlen. rewrite length_seqZ. lia. Qed.

Lemma seqZ_split (f : Z -> bytes) n l :
  0 <= n -> l = f <$> seqZ 0 (n + 1) -> l ++ [f n] = ztake (n + 1) l ++ zdrop n l.
Proof.
  intros Hn ->. rewrite ztake_all by (unfold zlen; rewrite length_fmap, length_seqZ; lia).
  f_equal. rewrite seqZ_app, fmap_app, Z.add_0_l by lia.
  symmetry. apply zdrop_app_exact. rewrite zlen_fmap. unfold zlen. rewrite length_seqZ. lia.
Qed.

Lemma readable_split :
  readable ++ [name 16383] = ztake LISTDIR_PAGE readable ++ zdrop (LISTDIR_PAGE - 1) readable.
Proof.
  assert (LISTDIR_PAGE = 16383 + 1) as Hp by done.
  assert (LISTDIR_PAGE - 1 = 16383) as -> by done. rewrite Hp.
  apply seqZ_split; [lia|].
  exact (f_equal (fun n => name <$> seqZ 0 n) (eq_refl : 16384 = 16383 + 1)).
Qed.

Lemma listdir_repeats_entry_witness :
  let c := one_conn (∅, MemFs.with_files []) in
  exists c', listdir 2 (bs "/d") c =
    (Some (Ok (host_entry (net c).2 (bs "/d") <$> readable ++ [name 16383])), c').
Proof.
  intros c. rewrite readable_split.
  apply (listdir_repeats_entry c (bs "/d") denied readable).
  - apply one_conn_idle.
  - vm_compute. congruence.
  - reflexivity.
  - reflexivity.
  - reflexivity.
  - exists EACCES. reflexivity.
  - apply readable_listed.
  - apply readable_good.
  - rewrite readable_len. done.
Defined.

End WideDir.
