(* ===== verification/Remote.v ===== *)
(** * The interface between the proxy client and its users

    [Remote S] lists the client operations the transfer worker calls;
    [RemoteLaws S] states what it may rely on when they succeed. The instance at
    the end discharges the laws for the real client talking to the device
    proxy, through the frame codecs and the connection pool. *)

From stdpp Require Import base list gmap strings.
From S2P Require Import Prelude RustStd ProxyOps Libc DeviceProxy ProxyClient ProxyRpc.

Class Remote (S : Type) : Type := {
  r_stat : bytes -> S -> presult Stat.t * S;
  r_open : bytes -> Z -> Z -> S -> presult ProxyFile * S;
  r_read_at : ProxyFile -> Z -> Z -> S -> presult bytes * S;
  r_write_at : ProxyFile -> Z -> bytes -> S -> presult unit * S;
  r_close : ProxyFile -> S -> presult unit * S;
  r_unlink : bytes -> S -> presult unit * S;
}.

Definition MAX_CHUNK : Z := 8 * 1024 * 1024 - 16.

(** [r_content p s]: the bytes of the regular file at [p]. [r_at f p s]: handle [f]
    is open on [p]. [r_ok s]: no request is in progress. *)
Class RemoteLaws (S : Type) `{!Remote S} : Type := {
  r_ok : S -> Prop;
  r_path : bytes -> Prop;
  r_content : bytes -> S -> option bytes;
  r_absent : bytes -> S -> Prop;
  r_at : ProxyFile -> bytes -> S -> Prop;
  r_stat_law : forall p s r s',
    r_ok s -> r_path p -> r_stat p s = (r, s') ->
    r_ok s' /\ (forall q, r_content q s' = r_content q s) /\ (forall q, r_absent q s -> r_absent q s')
    /\ (forall f q, r_at f q s -> r_at f q s')
    /\ (forall st c, r = Ok st -> r_content p s = Some c -> Stat.size st = zlen c)
    /\ (r_absent p s -> forall st, r <> Ok st);
  r_open_law : forall p flags mode s f s' c,
    r_ok s -> r_path p -> u32_ok flags -> u32_ok mode -> r_open p flags mode s = (Ok f, s') ->
    OpenFlags.contains flags OpenFlags.APPEND = false ->
    (r_content p s = Some c
     \/ r_absent p s /\ OpenFlags.contains flags OpenFlags.CREATE = true /\ c = []) ->
    r_ok s' /\ r_at f p s'
    /\ r_content p s' = Some (if OpenFlags.contains flags OpenFlags.TRUNC then [] else c);
  r_read_law : forall f p c off len s d s',
    r_ok s -> r_at f p s -> r_content p s = Some c -> 0 <= off < 2 ^ 63 -> 0 <= len <= MAX_CHUNK ->
    r_read_at f off len s = (Ok d, s') ->
    r_ok s' /\ r_at f p s' /\ r_content p s' = Some c /\ d = slice c off len;
  r_write_law : forall f p c off data s s',
    r_ok s -> r_at f p s -> r_content p s = Some c -> 0 <= off < 2 ^ 63 -> zlen data <= MAX_CHUNK ->
    r_write_at f off data s = (Ok tt, s') ->
    r_ok s' /\ r_at f p s' /\ r_content p s' = Some (splice c off data);
  r_close_law : forall f p s r s',
    r_ok s -> r_at f p s -> r_close f s = (r, s') ->
    r_ok s' /\ r_content p s' = r_content p s;
  r_size_law : forall p c s, r_content p s = Some c -> zlen c < 2 ^ 63;
}.

(** ** The client is a [Remote] *)

Section client_remote.
Context {W : Type} `{!Libc W}.
#[local] Existing Instance device_net.

#[global] Instance client_remote : Remote (client (OwnedFds * W)) := {|
  r_stat := stat;
  r_open := open;
  r_read_at := read_at;
  r_write_at := write_at;
  r_close f c := let '(r, _, c) := close f c in (r, c);
  r_unlink := unlink;
|}.

Context `{!LibcLaws W}.
Implicit Types (c : client (OwnedFds * W)).

Definition device_path (p : bytes) : Prop := wire_path p /\ no_nul p = true.

Definition handle_at (f : ProxyFile) (p : bytes) c : Prop :=
  handle_ok f /\ match file_fd f with
                 | Some fd => fd_file (as_i32 fd) (net c).2 = Some p
                 | None => False
                 end.

Lemma stat_device c path :
  idle c -> device_path path ->
  exists c', stat path c =
    (match libc_stat path (net c).2 with
     | Ok st => Ok (host_stat st)
     | Err e => Err (stat_failure e)
     end, c') /\ net c' = net c /\ idle c'.
Proof.
  intros Hi [Hp Hn]. unfold stat, call_with.
  set (out := data_reply (do_stat path (net c).2)).
  destruct (call_device_stateless c Op.Stat (path_arg path) out (net c).2 Hi)
    as (c' & -> & Hnet & Hi').
  - unfold DeviceProxy.MAX_REQUEST. unfold wire_path, MAX_PATH in Hp. len_lia.
  - intros k. unfold reply. simpl. unfold pure_reply, op_stat. by rewrite read_path_arg_nil.
  - unfold out, do_stat, MAX_RESPONSE_FRAME, MAX_RESPONSE. rewrite c_str_no_nul by done.
    destruct (libc_stat path (net c).2) as [st|e]; unfold data_reply, stat_error; rewrite zlen_cons.
    + rewrite encode_stat_len. lia.
    + pose proof (strerror_len e). lia.
  - exists c'. split_and!; [|by rewrite Hnet; destruct (net c)|done].
    f_equal. unfold out, do_stat. rewrite c_str_no_nul by done.
    destruct (libc_stat path (net c).2) as [st|e] eqn:E.
    + unfold data_reply, parse_reply. cbn. unfold stat_dec. by rewrite decode_encode_stat by eauto using stat_fields_law.
    + by rewrite parse_stat_failure.
Qed.

Lemma open_device c path flags mode :
  idle c -> device_path path -> u32_ok flags -> u32_ok mode ->
  exists r c', open path flags mode c = (r, c') /\ idle c' /\
    match libc_open path (libc_flags flags) mode (net c).2 with
       | (Ok fd, w') => r = Ok (mkFile (Some (as_u32 fd)) path) /\ (net c').2 = w'
       | (Err _, w') => (exists e, r = Err e) /\ (net c').2 = w'
       end.
Proof.
  intros Hi [Hp Hn] Hf Hm. unfold open, call_with. unfold wire_path, MAX_PATH in Hp.
  destruct (call_device c Op.Open (open_args path flags mode) Hi) as [k Hk].
  { unfold open_args, DeviceProxy.MAX_REQUEST. len_lia. }
  pose proof (op_open_args path flags mode k (net c).1 (net c).2 Hf Hm ltac:(lia) Hn) as Ho.
  destruct (libc_open path (libc_flags flags) mode (net c).2) as [[fd|e] w'].
  - destruct (Hk _ _ _ Ho) as (c' & -> & Hnet & Hi').
    { rewrite zlen_cons, zlen_le_bytes. by vm_compute. }
    exists (Ok (mkFile (Some (as_u32 fd)) path)), c'. split_and!; [|done|done|by rewrite Hnet].
    f_equal. cbn [parse_reply Status.from_u8 Z.eqb mbind result_bind].
    rewrite zlen_le_bytes. cbn [Z.of_nat Z.ltb Z.compare]. unfold u32_le_at.
    rewrite slice_all by (by rewrite zlen_le_bytes).
    rewrite le_val_u32; [done|]. unfold u32_ok, as_u32. apply Z.mod_pos_bound. lia.
  - destruct (Hk _ _ _ Ho) as (c' & -> & Hnet & Hi'); [by vm_compute|].
    eexists _, c'. split_and!; [done|done| |by rewrite Hnet]. by eexists.
Qed.

Lemma close_device c f fd :
  idle c -> file_fd f = Some fd -> u32_ok fd ->
  exists r f' c', close f c = (r, f', c') /\ idle c'
    /\ (net c').2 = (libc_close (as_i32 fd) (net c).2).2.
Proof.
  intros Hi Hf Hfd. pose proof Hi as [Hinv Hp].
  destruct (call_device c Op.Close (le_bytes 4 fd) Hi) as [k Hk].
  { rewrite zlen_le_bytes. by vm_compute. }
  assert (op_close (le_bytes 4 fd) (net c).1 (net c).2 =
    match libc_close (as_i32 fd) (net c).2 with
    | (Ok _, w) => ([0], untrack fd (net c).1, w)
    | (Err _, w) => (fail 0x07 "close failed", (net c).1, w)
    end) as Hc.
  { unfold op_close. rewrite zlen_le_bytes. cbn [Z.of_nat Z.ltb Z.compare].
    unfold u32_le_at. rewrite slice_all, le_val_u32 by (done || by rewrite zlen_le_bytes). done. }
  assert (exists out o' w', op_close (le_bytes 4 fd) (net c).1 (net c).2 = (out, o', w')
    /\ zlen out <= MAX_RESPONSE_FRAME /\ w' = (libc_close (as_i32 fd) (net c).2).2)
    as (out & o' & w' & Ho & Hlen & Hw).
  { rewrite Hc. destruct (libc_close _ _) as [[]]; eexists _, _, _; (split_and!; [done|by vm_compute|done]). }
  destruct (Hk _ _ _ Ho Hlen) as (c' & Hcall & Hnet & Hi').
  unfold close. unfold call in Hcall. destruct (acquire c) as [[k'|e] c1].
  - rewrite Hf. destruct (request k' Op.Close _ c1) as [r c2]. simplify_eq.
    eexists _, _, _. split_and!; [done|done|]. by rewrite Hnet.
  - simplify_eq. eexists _, _, _. split_and!; [done|done|]. by rewrite Hnet.
Qed.

(** A wire flag is a single bit: [contains] and the device's mask test agree. *)
Lemma libc_flags_bits flags :
  OpenFlags.contains flags OpenFlags.CREATE = negb (Z.land (libc_flags flags) O_CREAT =? 0)
  /\ OpenFlags.contains flags OpenFlags.TRUNC = negb (Z.land (libc_flags flags) O_TRUNC =? 0)
  /\ OpenFlags.contains flags OpenFlags.APPEND = negb (Z.land (libc_flags flags) O_APPEND =? 0).
Proof.
  unfold libc_flags, OpenFlags.contains, OpenFlags.CREATE, OpenFlags.TRUNC, OpenFlags.APPEND.
  pose proof (land_bit flags 0 ltac:(lia)) as H0. pose proof (land_bit flags 1 ltac:(lia)) as H1.
  pose proof (land_bit flags 2 ltac:(lia)) as H2. pose proof (land_bit flags 3 ltac:(lia)) as H3.
  pose proof (land_bit flags 4 ltac:(lia)) as H4. pose proof (land_bit flags 5 ltac:(lia)) as H5.
  change (2 ^ 0) with 1 in H0. change (2 ^ 1) with 2 in H1. change (2 ^ 2) with 4 in H2.
  change (2 ^ 3) with 8 in H3. change (2 ^ 4) with 16 in H4. change (2 ^ 5) with 32 in H5.
  rewrite H0, H1, H2, H3, H4, H5. clear.
  repeat match goal with |- context [Z.testbit flags ?k] => destruct (Z.testbit flags k) end; by vm_compute.
Qed.

#[global] Program Instance client_remote_laws : RemoteLaws (client (OwnedFds * W)) := {|
  r_ok := idle;
  r_path := device_path;
  r_content p c := file_content p (net c).2;
  r_absent p c := libc_stat p (net c).2 = Err ENOENT;
  r_at := handle_at;
|}.
Next Obligation.
  intros p c r c' Hi Hp Hs. simpl in *. destruct (stat_device c p Hi Hp) as (c1 & Hs' & Hn & Hi1).
  rewrite Hs in Hs'. simplify_eq. unfold handle_at. rewrite Hn. split_and!; try done.
  - intros st b Hr Hc. destruct (libc_stat p (net c).2) as [st'|e] eqn:E; [|done]. simplify_eq.
    simpl. pose proof (stat_law _ _ _ _ Hc E) as ->. pose proof (file_size_law _ _ _ Hc).
    apply as_u64_id. pose proof (zlen_nonneg b). lia.
  - by intros ->.
Qed.
Next Obligation.
  intros p flags mode c f c' b Hi Hp Hf Hm Ho Hap Hb. simpl in *.
  destruct (libc_flags_bits flags) as (Hcr & Htr & Ha). rewrite Ha in Hap. apply negb_false_iff, Z.eqb_eq in Hap.
  destruct (open_device c p flags mode Hi Hp Hf Hm) as (r & c1 & Ho' & Hi1 & Hl).
  rewrite Ho in Ho'. simplify_eq.
  destruct (libc_open p _ mode (net c).2) as [[fd|e] w'] eqn:E; [|by destruct Hl as [[? ?] _]].
  destruct Hl as [Hr Hw]. simplify_eq.
  destruct (open_law _ _ _ _ _ _ b E Hap) as (Hfd & Hat & Hcont).
  { destruct Hb as [?|(? & ? & ?)]; [by left|right]. split_and!; try done.
    rewrite Hcr in *. by bool_to_prop. }
  split_and!; [done| |].
  - unfold handle_at, handle_ok. simpl. rewrite as_u32_id by lia. rewrite as_i32_id by lia. done.
  - rewrite Hcont, Htr. by case_bool.
Qed.
Next Obligation.
  intros f p b off len c d c' Hi [Hok Hat] Hc Hoff Hlen Hr. simpl in *.
  destruct (read_at_device c f off len b) as (r & c1 & Hr' & Hn & Hi1 & Hdata); try done.
  { unfold remote_content. destruct (file_fd f); [|done]. simpl. unfold fd_content. by rewrite Hat. }
  { unfold MAX_CHUNK, DeviceProxy.MAX_RESPONSE in *. lia. }
  rewrite Hr in Hr'. simplify_eq. unfold handle_at. rewrite Hn. split_and!; try done. destruct (remote_pread f off len c); [by injection Hdata|by destruct Hdata].
Qed.
Next Obligation.
  intros f p b off data c c' Hi [Hok Hat] Hc Hoff Hlen Hw. simpl in *.
  unfold handle_ok in Hok. destruct (file_fd f) as [fd|] eqn:Ef; [|done].
  destruct (write_at_device c f fd off data) as (r & c1 & Hw' & Hi1 & Hpw); try done.
  { unfold MAX_CHUNK, DeviceProxy.MAX_REQUEST in *. lia. }
  rewrite Hw in Hw'. simplify_eq. specialize (Hpw eq_refl).
  destruct (pwrite_law _ p data off b _ _ _ Hat Hc (proj1 Hoff) Hpw eq_refl) as [Hp' Hc'].
  unfold handle_at, handle_ok. by rewrite Ef.
Qed.
Next Obligation.
  intros f p c r c' Hi [Hok Hat] Hcl. simpl in *. unfold handle_ok in Hok.
  destruct (file_fd f) as [fd|] eqn:Ef; [|done].
  destruct (close_device c f fd Hi Ef) as (r1 & f1 & c1 & Hcl' & Hi1 & Hn); [unfold u32_ok; lia|].
  rewrite Hcl' in Hcl. simplify_eq. split; [done|]. rewrite Hn.
  destruct (libc_close _ _) as [x w'] eqn:E. by eapply close_law.
Qed.
Next Obligation. intros p b c H. exact (file_size_law _ _ _ H). Qed.

End client_remote.
