(* ===== verification/Job.v ===== *)
(** * Transfer jobs (transfer-engine/src/job.rs)

    A [Job] handle holds immutable fields and a reference to the state its
    clones share through [Arc]s. The shared states live in a [store], so a
    change through one handle is seen through every clone. *)

From stdpp Require Import base list gmap strings.
From S2P Require Import Prelude.

Inductive Direction : Type := Push | Pull.
Inductive VerifyMode : Type := VerifyOff | VerifyOn | VerifyOnError.
Inductive OverwriteMode : Type := Always | SkipExisting | Resume | Rename.
Inductive JobState : Type :=
| Pending | Running | Paused | Completed | Skipped | Failed | Cancelled.

#[global] Instance JobState_eq_dec : EqDecision JobState.
Proof. solve_decision. Defined.

Definition DEFAULT_CHUNK : Z := 2 * 1024 * 1024.
Definition DEFAULT_PARALLELISM : Z := 4.

Record JobOptions : Type := mkOptions {
  chunk_size : Z;
  verify : VerifyMode;
  overwrite : OverwriteMode;
}.

Definition default_options : JobOptions := mkOptions DEFAULT_CHUNK VerifyOff SkipExisting.

(** What the [Arc]s of a job point to. [started] is the [Instant]'s reading. *)
Record cell : Type := mkCell {
  state : JobState;
  bytes_done : Z;
  bytes_total : Z;
  speed_bps : Z;
  eta_secs : Z;
  started : option Z;
  error : option bytes;
  cancelled : bool;
  paused : bool;
}.

Definition fresh_cell : cell := mkCell Pending 0 0 0 0 None None false false.

Record Job : Type := mkJob {
  id : Z;
  direction : Direction;
  source : bytes;
  destination : bytes;
  options : JobOptions;
  device : option bytes;
  arc : Z;
}.

Abbreviation store := (gmap Z cell).

Definition cell_of (s : store) (j : Job) : cell := default fresh_cell (s !! arc j).
Definition update (f : cell -> cell) (j : Job) (s : store) : store :=
  <[arc j := f (cell_of s j)]> s.

(** ** Setters on the shared state *)

Definition set_state (x : JobState) (c : cell) : cell :=
  mkCell x (bytes_done c) (bytes_total c) (speed_bps c) (eta_secs c) (started c) (error c)
    (cancelled c) (paused c).
Definition set_speed_bps (x : Z) (c : cell) : cell :=
  mkCell (state c) (bytes_done c) (bytes_total c) x (eta_secs c) (started c) (error c)
    (cancelled c) (paused c).
Definition set_eta_secs (x : Z) (c : cell) : cell :=
  mkCell (state c) (bytes_done c) (bytes_total c) (speed_bps c) x (started c) (error c)
    (cancelled c) (paused c).
(** [fetch_add] wraps. *)
Definition add_bytes (n : Z) (c : cell) : cell :=
  mkCell (state c) (as_u64 (bytes_done c + n)) (bytes_total c) (speed_bps c) (eta_secs c)
    (started c) (error c) (cancelled c) (paused c).
Definition set_total (n : Z) (c : cell) : cell :=
  mkCell (state c) (bytes_done c) n (speed_bps c) (eta_secs c) (started c) (error c)
    (cancelled c) (paused c).
Definition mark_started (now : Z) (c : cell) : cell :=
  mkCell (state c) (bytes_done c) (bytes_total c) (speed_bps c) (eta_secs c) (Some now) (error c)
    (cancelled c) (paused c).
Definition set_error (e : bytes) (c : cell) : cell :=
  mkCell (state c) (bytes_done c) (bytes_total c) (speed_bps c) (eta_secs c) (started c) (Some e)
    (cancelled c) (paused c).
Definition cancel (c : cell) : cell :=
  mkCell (state c) (bytes_done c) (bytes_total c) (speed_bps c) (eta_secs c) (started c) (error c)
    true (paused c).
Definition set_paused (b : bool) (c : cell) : cell :=
  mkCell (state c) (bytes_done c) (bytes_total c) (speed_bps c) (eta_secs c) (started c) (error c)
    (cancelled c) b.

Definition reset_for_retry (c : cell) : cell := mkCell Pending 0 0 0 0 None None false false.

Definition pause (c : cell) : cell :=
  let c := set_paused true c in
  match state c with
  | Pending | Running => set_state Paused c
  | _ => c
  end.

Definition resume (c : cell) : cell :=
  let c := set_paused false c in
  if bool_decide (state c = Paused) then set_state Running c else c.

(** [with_device]: a handle and the state it allocates. *)
Definition with_device (i : Z) (dir : Direction) (src dst : bytes) (o : JobOptions)
    (dev : option bytes) (loc : Z) (s : store) : Job * store :=
  let j := mkJob i dir src dst o dev loc in (j, <[loc := fresh_cell]> s).

(** ** Terminal states *)

Definition terminal (x : JobState) : bool :=
  match x with Completed | Skipped | Failed | Cancelled => true | _ => false end.

(** The controls a user has on a job. *)
Inductive control : Type := DoPause | DoResume | DoCancel.
Definition apply_control (a : control) (c : cell) : cell :=
  match a with DoPause => pause c | DoResume => resume c | DoCancel => cancel c end.
Definition apply_controls (l : list control) (c : cell) : cell := foldl (fun c a => apply_control a c) c l.

(** A paused label always has the flag that parks the worker. *)
Definition cell_ok (c : cell) : Prop := state c = Paused -> paused c = true.

Lemma apply_control_ok a c : cell_ok c -> cell_ok (apply_control a c).
Proof.
  unfold cell_ok. destruct a; simpl; unfold pause, resume; simpl.
  - by destruct (state c).
  - case_bool; bool_to_prop; [done|]. intros _ E. by destruct Heqb.
  - done.
Qed.

Lemma apply_control_terminal a c : terminal (state c) = true -> state (apply_control a c) = state c.
Proof.
  destruct a; simpl; unfold pause, resume; simpl; [destruct (state c) eqn:E; simpl; congruence| |done].
  intros Ht. case_bool; bool_to_prop; [|done]. simpl in *. by rewrite Heqb in Ht.
Qed.

Lemma apply_controls_ok l c : cell_ok c -> cell_ok (apply_controls l c).
Proof. revert c. induction l; simpl; eauto using apply_control_ok. Qed.

Lemma cell_of_update f j s : cell_of (update f j s) j = f (cell_of s j).
Proof. unfold cell_of, update. by rewrite lookup_insert_eq. Qed.

Lemma cell_of_update_ne f j k s : arc j <> arc k -> cell_of (update f j s) k = cell_of s k.
Proof. intros. unfold cell_of, update. by rewrite lookup_insert_ne. Qed.

(** Controls and the state machine. No sequence of pause, resume and cancel
    changes the state of a job that has completed, was skipped, failed or was
    cancelled; on any other job it only ever leads to the states Running and
    Paused or keeps the state; a job labelled Paused always has the flag that
    parks its worker; and once cancelled, the cancel request is never lost. *)
Theorem controls_state_machine (l : list control) (c : cell) :
  cell_ok c ->
  (terminal (state c) = true -> state (apply_controls l c) = state c)
  /\ (state (apply_controls l c) = state c \/ state (apply_controls l c) = Running
      \/ state (apply_controls l c) = Paused)
  /\ cell_ok (apply_controls l c)
  /\ (cancelled c = true -> cancelled (apply_controls l c) = true).
Proof.
  intros Hok. split_and!; [..|by apply apply_controls_ok|]; clear Hok;
    revert c; induction l as [|a l IH]; intros c; simpl; auto.
  - intros Ht. pose proof (apply_control_terminal a c Ht) as E. rewrite IH; congruence.
  - destruct (IH (apply_control a c)) as [E|E]; [|tauto]. rewrite E.
    destruct a; simpl; unfold pause, resume; simpl; [destruct (state c) eqn:Es; simpl; auto| |by auto].
    case_bool; simpl; auto.
  - intros Hc. apply IH. destruct a; simpl; unfold pause, resume; [by destruct (state _)| |done].
    by case_bool.
Qed.

Lemma controls_state_machine_witness :
  let c := set_state Completed fresh_cell in
  state (apply_controls [DoPause; DoCancel; DoResume] c) = Completed.
Proof.
  intros c. destruct (controls_state_machine [DoPause; DoCancel; DoResume] c) as [H _]; [done|].
  by apply H.
Defined.
