(* ===== verification/Queue.v ===== *)
(** * The job queue (transfer-engine/src/queue.rs)

    The three lists and their operations over the shared job states, then the
    queue under concurrency: every critical section is one event and the message
    to the dispatcher, which is sent behind it with no lock held, is another,
    so that [submit] is two events, [mark_done] and [retry_job], which release
    one lock before taking the next, are three, and any other task may run in between. *)

From stdpp Require Import base list gmap strings sorting.
From S2P Require Import Prelude Job.

Definition MAX_COMPLETED : Z := 200.

Definition trim_completed (completed : list Job) : list Job :=
  if zlen completed >? MAX_COMPLETED then zdrop (zlen completed - MAX_COMPLETED) completed
  else completed.

(** What [trim_completed] drains. *)
Definition trimmed (completed : list Job) : list Job :=
  if zlen completed >? MAX_COMPLETED then ztake (zlen completed - MAX_COMPLETED) completed else [].

(** [notified] counts the messages sent to the dispatcher; [on_update] is the
    callback's log of job ids, when there is a callback. *)
Record JobQueue : Type := mkQueue {
  pending : list Job;
  in_flight : list Job;
  completed : list Job;
  next_id : Z;
  parallelism : Z;
  notified : Z;
  on_update : option (list Z);
}.

Definition new (par : Z) : JobQueue := mkQueue [] [] [] 1 par 0 None.

Definition set_lists (p f c : list Job) (q : JobQueue) : JobQueue :=
  mkQueue p f c (next_id q) (parallelism q) (notified q) (on_update q).
Definition notify (q : JobQueue) : JobQueue :=
  mkQueue (pending q) (in_flight q) (completed q) (next_id q) (parallelism q) (notified q + 1)
    (on_update q).

Definition with_id (i : Z) (j : Job) : Job :=
  mkJob i (direction j) (source j) (destination j) (options j) (device j) (arc j).

(** [submit]: the job is numbered and queued; then the message is sent and the
    callback, if there is one, called. *)
Definition submit_push (job : Job) (q : JobQueue) : Job * JobQueue :=
  let '(job, nx) :=
    if id job =? 0 then (with_id (next_id q) job, as_u64 (next_id q + 1)) else (job, next_id q) in
  (job, mkQueue (pending q ++ [job]) (in_flight q) (completed q) nx (parallelism q) (notified q) (on_update q)).
Definition call_back (i : Z) (q : JobQueue) : JobQueue :=
  mkQueue (pending q) (in_flight q) (completed q) (next_id q) (parallelism q) (notified q)
    ((fun l => l ++ [i]) <$> on_update q).
Definition submit (job : Job) (q : JobQueue) : Z * JobQueue :=
  let '(job, q) := submit_push job q in (id job, call_back (id job) (notify q)).

Definition is_id (i : Z) (j : Job) : bool := id j =? i.

(** [mark_done]: its two critical sections, and the whole with the message. *)
Definition mark_done_remove (job : Job) (q : JobQueue) : JobQueue :=
  set_lists (pending q) (List.filter (fun j => negb (is_id (id job) j)) (in_flight q))
    (completed q) q.
Definition mark_done_push (job : Job) (q : JobQueue) : JobQueue :=
  set_lists (pending q) (in_flight q) (trim_completed (completed q ++ [job])) q.
Definition mark_done (job : Job) (q : JobQueue) : JobQueue :=
  notify (mark_done_push job (mark_done_remove job q)).

Definition jobs_snapshot (q : JobQueue) : list Job := pending q ++ in_flight q ++ completed q.

Definition try_dispatch (q : JobQueue) : option Job * JobQueue :=
  if zlen (in_flight q) >=? parallelism q then (None, q)
  else match pending q with
       | [] => (None, q)
       | job :: p => (Some job, set_lists p (in_flight q ++ [job]) (completed q) q)
       end.

Definition find (i : Z) (q : JobQueue) : option Job :=
  match List.find (is_id i) (pending q) with
  | Some j => Some j
  | None =>
      match List.find (is_id i) (in_flight q) with
      | Some j => Some j
      | None => List.find (is_id i) (completed q)
      end
  end.

(** [find(id).map(f).is_some()] *)
Definition on_found (f : cell -> cell) (i : Z) (q : JobQueue) (s : store) : bool * store :=
  match find i q with
  | Some j => (true, update f j s)
  | None => (false, s)
  end.

Definition pause_job : Z -> JobQueue -> store -> bool * store := on_found pause.
Definition resume_job : Z -> JobQueue -> store -> bool * store := on_found resume.

(** [position] then [remove]: the first match and the list without it. *)
Fixpoint take_first (p : Job -> bool) (l : list Job) : option (Job * list Job) :=
  match l with
  | [] => None
  | j :: l =>
      if p j then Some (j, l)
      else match take_first p l with Some (k, l) => Some (k, j :: l) | None => None end
  end.

Definition cancel_job (i : Z) (q : JobQueue) (s : store) : bool * JobQueue * store :=
  match take_first (is_id i) (pending q) with
  | Some (job, p) =>
      (true, set_lists p (in_flight q) (trim_completed (completed q ++ [job])) q,
       update (fun c => set_state Cancelled (set_error (bs "cancelled") (cancel c))) job s)
  | None => let '(b, s) := on_found cancel i q s in (b, q, s)
  end.

Definition retryable (x : JobState) : bool :=
  match x with Failed | Cancelled | Skipped => true | _ => false end.

(** [retry_job]: take the job out of the history, queue it again, send the message. *)
Definition retry_take (i : Z) (q : JobQueue) (s : store) : option (Job * JobQueue) :=
  match take_first (fun j => is_id i j && retryable (state (cell_of s j))) (completed q) with
  | Some (job, c) => Some (job, set_lists (pending q) (in_flight q) c q)
  | None => None
  end.
Definition retry_push (job : Job) (q : JobQueue) (s : store) : JobQueue * store :=
  (set_lists (pending q ++ [job]) (in_flight q) (completed q) q,
   update reset_for_retry job s).
Definition retry_job (i : Z) (q : JobQueue) (s : store) : bool * JobQueue * store :=
  match retry_take i q s with
  | Some (job, q) => let '(q, s) := retry_push job q s in (true, notify q, s)
  | None => (false, q, s)
  end.

(** The [retain] closure of [retry_failed] and [retry_failed_for]: the jobs kept,
    the jobs pushed to pending, the count and the states. *)
Fixpoint retain_failed (mine : Job -> bool) (l : list Job) (s : store)
    : list Job * list Job * Z * store :=
  match l with
  | [] => ([], [], 0, s)
  | j :: l =>
      if mine j && bool_decide (state (cell_of s j) = Failed) then
        let '(kept, re, n, s) := retain_failed mine l (update reset_for_retry j s) in
        (kept, j :: re, n + 1, s)
      else
        let '(kept, re, n, s) := retain_failed mine l s in (j :: kept, re, n, s)
  end.

Definition retry_where (mine : Job -> bool) (q : JobQueue) (s : store) : Z * JobQueue * store :=
  let '(kept, re, n, s) := retain_failed mine (completed q) s in
  (n, set_lists (pending q ++ re) (in_flight q) kept q, s).

(** What is done under the locks, and the whole with the message behind it. *)
Definition retry_failed_lists : JobQueue -> store -> Z * JobQueue * store := retry_where (fun _ => true).
Definition retry_failed_for_lists (serial : bytes) (q : JobQueue) (s : store) : Z * JobQueue * store :=
  if bool_decide (serial = []) then (0, q, s)
  else retry_where (fun j => bool_decide (device j = Some serial)) q s.
Definition tell_if_any (r : Z * JobQueue * store) : Z * JobQueue * store :=
  let '(n, q, s) := r in (n, if n >? 0 then notify q else q, s).

Definition retry_failed (q : JobQueue) (s : store) : Z * JobQueue * store := tell_if_any (retry_failed_lists q s).
Definition retry_failed_for (serial : bytes) (q : JobQueue) (s : store) : Z * JobQueue * store :=
  tell_if_any (retry_failed_for_lists serial q s).

(** ** The queue under concurrency *)

(** [finishing]: jobs a worker has taken out of [in_flight] and not yet put in
    the history. [requeueing]: jobs taken out of the history and not yet queued.
    [forgotten]: the jobs trimmed from the history. [owed]: the tasks that have
    released the lock and not yet sent their message. The queue has no callback:
    nothing sets one. *)
Record world : Type := mkWorld {
  queue : JobQueue;
  heap : store;
  finishing : list Job;
  requeueing : list Job;
  forgotten : list Job;
  owed : Z;
}.

Inductive event : Type :=
| Submit (dir : Direction) (src dst : bytes) (o : JobOptions) (dev : option bytes)
| Dispatch
| DoneRemove (i : Z)
| DonePush (i : Z)
| PauseJob (i : Z)
| ResumeJob (i : Z)
| CancelJob (i : Z)
| RetryTake (i : Z)
| RetryPush (i : Z)
| RetryFailed
| RetryFailedFor (serial : bytes)
| Send                               (* a task that owes its message sends it *)
| Work (i : Z) (f : cell -> cell).   (* the worker of job [i] writes its state *)

Definition set_queue (q : JobQueue) (w : world) : world :=
  mkWorld q (heap w) (finishing w) (requeueing w) (forgotten w) (owed w).
Definition set_heap (s : store) (w : world) : world :=
  mkWorld (queue w) s (finishing w) (requeueing w) (forgotten w) (owed w).

Definition exec (e : event) (w : world) : world :=
  let q := queue w in
  match e with
  | Submit dir src dst o dev =>
      let '(j, s) := with_device 0 dir src dst o dev (next_id q) (heap w) in
      mkWorld (submit_push j q).2 s (finishing w) (requeueing w) (forgotten w) (owed w + 1)
  | Dispatch => set_queue (try_dispatch q).2 w
  | DoneRemove i =>
      match List.find (is_id i) (in_flight q) with
      | Some j => mkWorld (mark_done_remove j q) (heap w) (j :: finishing w) (requeueing w)
                    (forgotten w) (owed w)
      | None => w
      end
  | DonePush i =>
      match take_first (is_id i) (finishing w) with
      | Some (j, l) => mkWorld (mark_done_push j q) (heap w) l (requeueing w)
                         (trimmed (completed q ++ [j]) ++ forgotten w) (owed w + 1)
      | None => w
      end
  | PauseJob i => set_heap (pause_job i q (heap w)).2 w
  | ResumeJob i => set_heap (resume_job i q (heap w)).2 w
  | CancelJob i =>
      let '(_, q', s) := cancel_job i q (heap w) in
      let out := match take_first (is_id i) (pending q) with
                 | Some (j, _) => trimmed (completed q ++ [j]) | None => [] end in
      mkWorld q' s (finishing w) (requeueing w) (out ++ forgotten w) (owed w)
  | RetryTake i =>
      match retry_take i q (heap w) with
      | Some (j, q) => mkWorld q (heap w) (finishing w) (j :: requeueing w) (forgotten w) (owed w)
      | None => w
      end
  | RetryPush i =>
      match take_first (is_id i) (requeueing w) with
      | Some (j, l) =>
          let '(q, s) := retry_push j q (heap w) in mkWorld q s (finishing w) l (forgotten w) (owed w + 1)
      | None => w
      end
  | RetryFailed =>
      let '(n, q, s) := retry_failed_lists q (heap w) in
      mkWorld q s (finishing w) (requeueing w) (forgotten w) (if n >? 0 then owed w + 1 else owed w)
  | RetryFailedFor serial =>
      let '(n, q, s) := retry_failed_for_lists serial q (heap w) in
      mkWorld q s (finishing w) (requeueing w) (forgotten w) (if n >? 0 then owed w + 1 else owed w)
  | Send =>
      if 0 <? owed w then mkWorld (notify q) (heap w) (finishing w) (requeueing w) (forgotten w) (owed w - 1) else w
  | Work i f =>
      match List.find (is_id i) (in_flight q) with
      | Some j => set_heap (update f j (heap w)) w
      | None => w
      end
  end.

(** [submit] and [retry_failed] of one caller, up to their end. *)
Definition submit_whole (dir : Direction) (src dst : bytes) (o : JobOptions) (dev : option bytes) (w : world) : world :=
  exec Send (exec (Submit dir src dst o dev) w).
Definition retry_failed_whole (w : world) : world :=
  let w' := exec RetryFailed w in if (retry_failed_lists (queue w) (heap w)).1.1 >? 0 then exec Send w' else w'.

Definition start (par : Z) : world := mkWorld (new par) ∅ [] [] [] 0.
Definition run (par : Z) (es : list event) : world := foldl (fun w e => exec e w) (start par) es.

Definition submits (es : list event) : Z :=
  zlen (List.filter (fun e => match e with Submit _ _ _ _ _ => true | _ => false end) es).

(** ** Every job is in exactly one place *)

Definition all_jobs (w : world) : list Job :=
  pending (queue w) ++ in_flight (queue w) ++ completed (queue w)
  ++ finishing w ++ requeueing w ++ forgotten w.
Definition ids (l : list Job) : list Z := id <$> l.

Lemma trim_split l : trimmed l ++ trim_completed l = l.
Proof. unfold trimmed, trim_completed. case_bool; [apply ztake_zdrop|done]. Qed.

Lemma trim_len l : zlen (trim_completed l) <= MAX_COMPLETED.
Proof.
  unfold trim_completed, MAX_COMPLETED. case_bool; bool_to_prop; [|lia].
  rewrite zlen_zdrop. lia.
Qed.

Lemma take_first_perm p l j k : take_first p l = Some (j, k) -> l ≡ₚ j :: k.
Proof.
  revert j k. induction l as [|x l IH]; intros j k; [done|]. cbn [take_first].
  destruct (p x); [intros; by simplify_eq|].
  destruct (take_first p l) as [[y r]|]; [|done]. intros; simplify_eq.
  rewrite (IH _ _ eq_refl). apply Permutation_swap.
Qed.

Lemma retain_failed_perm mine l s :
  let '(kept, re, n, _) := retain_failed mine l s in l ≡ₚ re ++ kept /\ n = zlen re.
Proof.
  revert s. induction l as [|j l IH]; intros s; cbn [retain_failed]; [done|].
  case_bool.
  - specialize (IH (update reset_for_retry j s)).
    destruct (retain_failed mine l _) as [[[kept re] n] s']. destruct IH as [-> ->].
    split; [done|]. rewrite zlen_cons. lia.
  - specialize (IH s). destruct (retain_failed mine l s) as [[[kept re] n] s'].
    destruct IH as [IH ->]. split; [|done]. rewrite IH at 1. apply Permutation_middle.
Qed.

(** [retain(|j| j.id != i)] removes exactly the job found, ids being distinct. *)
Lemma filter_id_perm i l j :
  NoDup (ids l) -> List.find (is_id i) l = Some j ->
  id j = i /\ l ≡ₚ j :: List.filter (fun k => negb (is_id (id j) k)) l.
Proof.
  unfold is_id. intros Hnd Hf. pose proof (List.find_some _ _ Hf) as [Hin Hi].
  bool_to_prop. split; [done|]. subst i. clear Hf.
  induction l as [|x l IH]; [done|]. cbn [ids fmap list_fmap] in Hnd.
  apply NoDup_cons in Hnd as [Hx Hnd]. cbn [List.filter].
  destruct Hin as [->|Hin].
  - rewrite Z.eqb_refl. cbn [negb]. f_equiv. clear IH.
    induction l as [|y l IH]; [done|]. cbn [ids fmap list_fmap] in *.
    apply not_elem_of_cons in Hx as [Hxy Hx]. apply NoDup_cons in Hnd as [_ Hnd].
    cbn [List.filter]. replace (id y =? id j) with false by (symmetry; apply Z.eqb_neq; congruence).
    cbn [negb]. f_equiv. auto.
  - replace (id x =? id j) with false.
    + cbn [negb]. rewrite (IH Hnd Hin) at 1. apply Permutation_swap.
    + symmetry. apply Z.eqb_neq. intros E. apply Hx. rewrite E.
      apply list_elem_of_fmap. exists j. split; [done|]. by apply list_elem_of_In.
Qed.

(** The jobs an event creates. *)
Definition created (e : event) (w : world) : list Job :=
  match e with
  | Submit dir src dst o dev =>
      [mkJob (next_id (queue w)) dir src dst o dev (next_id (queue w))]
  | _ => []
  end.

Lemma finish_perm p f c fin re fo j :
  p ++ f ++ trim_completed (c ++ [j]) ++ fin ++ re ++ trimmed (c ++ [j]) ++ fo
  ≡ₚ j :: p ++ f ++ c ++ fin ++ re ++ fo.
Proof.
  transitivity ((trimmed (c ++ [j]) ++ trim_completed (c ++ [j])) ++ p ++ f ++ fin ++ re ++ fo);
    [|rewrite trim_split]; solve_Permutation.
Qed.

Lemma retry_where_perm mine q s fin re fo ow ow' :
  let '(_, q', _) := retry_where mine q s in
  all_jobs (mkWorld q' s fin re fo ow') ≡ₚ all_jobs (mkWorld q s fin re fo ow)
  /\ next_id q' = next_id q.
Proof.
  unfold retry_where. pose proof (retain_failed_perm mine (completed q) s) as H.
  destruct (retain_failed _ _ _) as [[[kept rq] n] s']. destruct H as [H _].
  unfold all_jobs, set_lists; simpl. split; [rewrite H; solve_Permutation|done].
Qed.

(** Where a job goes, event by event; nothing is duplicated or dropped. *)
Lemma exec_perm e w :
  NoDup (ids (in_flight (queue w))) ->
  all_jobs (exec e w) ≡ₚ created e w ++ all_jobs w
  /\ next_id (queue (exec e w)) =
     match e with Submit _ _ _ _ _ => as_u64 (next_id (queue w) + 1) | _ => next_id (queue w) end.
Proof.
  destruct w as [q h fin re fo ow]. unfold all_jobs; destruct e; simpl; intros Hnd; try done.
  - split; [solve_Permutation|done].
  - unfold try_dispatch. case_bool; [done|]. destruct (pending q) eqn:E; simpl; rewrite ?E; [done|].
    split; [solve_Permutation|done].
  - destruct (List.find _ _) as [j|] eqn:E; [|done].
    apply filter_id_perm in E as [_ E]; [|done]. simpl. split; [|done].
    rewrite E at 2. solve_Permutation.
  - destruct (take_first _ _) as [[j l]|] eqn:E; [|done].
    apply take_first_perm in E. simpl. split; [|done]. rewrite finish_perm, E. solve_Permutation.
  - unfold cancel_job. destruct (take_first _ _) as [[j l]|] eqn:E.
    + apply take_first_perm in E. simpl. split; [|done]. rewrite finish_perm, E. solve_Permutation.
    + by destruct (on_found _ _ _ _).
  - unfold retry_take. destruct (take_first _ _) as [[j l]|] eqn:E; [|done].
    apply take_first_perm in E. simpl. split; [|done]. rewrite E. solve_Permutation.
  - destruct (take_first _ _) as [[j l]|] eqn:E; [|done].
    apply take_first_perm in E. simpl. split; [|done]. rewrite E. solve_Permutation.
  - pose proof (retry_where_perm (fun _ => true) q h fin re fo 0 0) as H. unfold retry_failed_lists.
    by destruct (retry_where _ _ _) as [[n q'] s].
  - unfold retry_failed_for_lists. case_bool; [done|].
    pose proof (retry_where_perm (fun j => bool_decide (device j = Some serial)) q h fin re fo 0 0) as H.
    by destruct (retry_where _ _ _) as [[n q'] s].
  - by case_bool.
  - by destruct (List.find _ _).
Qed.

Lemma zlen_perm {A} (l k : list A) : l ≡ₚ k -> zlen l = zlen k.
Proof. intros H. unfold zlen. by rewrite H. Qed.

Lemma ids_app l k : ids (l ++ k) = ids l ++ ids k.
Proof. apply fmap_app. Qed.

(** The bounds: slots, history, and no job forgotten before the history fills. *)
Record bounds (par : Z) (w : world) : Prop := {
  b_par : parallelism (queue w) = par;
  b_slots : zlen (in_flight (queue w)) <= Z.max 0 par;
  b_history : zlen (completed (queue w)) <= MAX_COMPLETED;
  b_forgotten : forgotten w <> [] -> MAX_COMPLETED < zlen (all_jobs w);
}.

Lemma trimmed_nil l : zlen l <= MAX_COMPLETED -> trimmed l = [].
Proof. unfold trimmed. intros. case_bool; bool_to_prop; [lia|done]. Qed.

(** Pushing to the history: either nothing is forgotten, or there were 200 jobs in it. *)
Lemma forget_bound (c fo rest : list Job) j :
  (fo <> [] -> MAX_COMPLETED < zlen (rest ++ c ++ [j] ++ fo)) ->
  trimmed (c ++ [j]) ++ fo <> [] -> MAX_COMPLETED < zlen (rest ++ c ++ [j] ++ fo).
Proof.
  intros Hfo Hne. destruct (Z.le_gt_cases (zlen (c ++ [j])) MAX_COMPLETED) as [H|H].
  - rewrite trimmed_nil in Hne by done. auto.
  - pose proof (zlen_nonneg rest). pose proof (zlen_nonneg fo). len_lia.
Qed.

Lemma exec_par e w : parallelism (queue (exec e w)) = parallelism (queue w).
Proof.
  destruct w as [q h fin re fo ow]. destruct e; simpl; try done;
    unfold try_dispatch, cancel_job, on_found, retry_take, retry_failed_for_lists, retry_failed_lists, retry_where;
    repeat case_match; simplify_eq; done.
Qed.

Lemma find_len_remove i l j :
  NoDup (ids l) -> List.find (is_id i) l = Some j ->
  zlen (List.filter (fun k => negb (is_id (id j) k)) l) <= zlen l.
Proof.
  intros Hnd [_ H]%filter_id_perm; [|done]. apply zlen_perm in H. rewrite zlen_cons in H. lia.
Qed.

Lemma retain_kept_len mine l s : let '(kept, _, _, _) := retain_failed mine l s in zlen kept <= zlen l.
Proof.
  pose proof (retain_failed_perm mine l s) as H.
  destruct (retain_failed _ _ _) as [[[kept re] n] s']. destruct H as [H%zlen_perm _].
  pose proof (zlen_nonneg re). len_lia.
Qed.

Lemma retry_where_bounds mine q s :
  let '(_, q', _) := retry_where mine q s in
  in_flight q' = in_flight q /\ zlen (completed q') <= zlen (completed q).
Proof.
  unfold retry_where. pose proof (retain_kept_len mine (completed q) s) as H.
  by destruct (retain_failed _ _ _) as [[[kept re] n] s'].
Qed.

Lemma exec_lists par e w :
  NoDup (ids (in_flight (queue w))) -> bounds par w ->
  zlen (in_flight (queue (exec e w))) <= Z.max 0 par
  /\ zlen (completed (queue (exec e w))) <= MAX_COMPLETED.
Proof.
  destruct w as [q h fin re fo ow]. intros Hnd [Hp Hs Hc _]; simpl in *. destruct e; simpl; try done.
  - unfold try_dispatch. case_bool; [done|]. destruct (pending q); simpl; [done|].
    rewrite Z.geb_leb in Heqb. bool_to_prop. split; [len_lia|done].
  - destruct (List.find _ _) as [j|] eqn:E; [|done]. simpl.
    pose proof (find_len_remove _ _ _ Hnd E). split; [lia|done].
  - destruct (take_first _ _) as [[j l]|]; [|done]. simpl. split; [done|apply trim_len].
  - unfold cancel_job. destruct (take_first _ _) as [[j l]|]; simpl.
    + split; [done|apply trim_len].
    + by destruct (on_found _ _ _ _).
  - unfold retry_take. destruct (take_first _ _) as [[j l]|] eqn:E; [|done].
    apply take_first_perm, zlen_perm in E. simpl. rewrite zlen_cons in E. split; [done|lia].
  - by destruct (take_first _ _) as [[j l]|].
  - pose proof (retry_where_bounds (fun _ => true) q h) as H. unfold retry_failed_lists.
    destruct (retry_where _ _ _) as [[n q'] s]. simpl. destruct H as [-> ?]. split; [done|lia].
  - unfold retry_failed_for_lists. case_bool; [done|].
    pose proof (retry_where_bounds (fun j => bool_decide (device j = Some serial)) q h) as H.
    destruct (retry_where _ _ _) as [[n q'] s]. simpl. destruct H as [-> ?]. split; [done|lia].
  - by case_bool.
  - by destruct (List.find _ _).
Qed.

Lemma exec_forgotten e w :
  (forgotten w <> [] -> MAX_COMPLETED < zlen (all_jobs w)) ->
  forgotten (exec e w) <> [] -> MAX_COMPLETED < zlen (all_jobs w).
Proof.
  destruct w as [q h fin re fo ow]. unfold all_jobs. intros Hfo. destruct e; simpl in *; try done.
  - by destruct (List.find _ _).
  - destruct (take_first _ _) as [[j l]|] eqn:E; [|done]. simpl.
    apply take_first_perm in E. revert Hfo.
    assert (forall x, x = zlen (pending q ++ in_flight q ++ completed q ++ fin ++ re ++ fo) ->
      x = zlen ((pending q ++ in_flight q ++ l ++ re) ++ completed q ++ [j] ++ fo)) as Hx.
    { intros x ->. apply zlen_perm. rewrite E. solve_Permutation. }
    rewrite (Hx _ eq_refl). apply forget_bound.
  - unfold cancel_job. destruct (take_first _ _) as [[j l]|] eqn:E.
    + simpl. apply take_first_perm in E. revert Hfo.
      assert (forall x, x = zlen (pending q ++ in_flight q ++ completed q ++ fin ++ re ++ fo) ->
        x = zlen ((l ++ in_flight q ++ fin ++ re) ++ completed q ++ [j] ++ fo)) as Hx.
      { intros x ->. apply zlen_perm. rewrite E. solve_Permutation. }
      rewrite (Hx _ eq_refl). apply forget_bound.
    + by destruct (on_found _ _ _ _).
  - by destruct (retry_take _ _ _) as [[]|].
  - by destruct (take_first _ _) as [[]|].
  - by destruct (retry_failed_lists _ _) as [[] ].
  - by destruct (retry_failed_for_lists _ _ _) as [[] ].
  - by case_bool.
  - by destruct (List.find _ _).
Qed.

(** ** The queue invariant *)

Record queue_inv (par n : Z) (w : world) : Prop := {
  qi_next : next_id (queue w) = 1 + n;
  qi_ids : ids (all_jobs w) ≡ₚ seqZ 1 n;
  qi_arcs : Forall (fun j => arc j = id j) (all_jobs w);
  qi_bounds : bounds par w;
}.

Lemma start_inv par : queue_inv par 0 (start par).
Proof.
  split; [done|done|by constructor|]. split; try done. simpl. rewrite zlen_nil. lia.
Qed.

Lemma inv_nodup par n w : queue_inv par n w -> NoDup (ids (all_jobs w)).
Proof. intros [_ H _ _]. rewrite H. apply NoDup_seqZ. Qed.

Lemma inv_in_flight_nodup par n w : queue_inv par n w -> NoDup (ids (in_flight (queue w))).
Proof.
  intros H%inv_nodup. unfold all_jobs in H. rewrite !ids_app in H.
  apply NoDup_app in H as (_ & _ & H). by apply NoDup_app in H as (H & _).
Qed.

Definition is_submit (e : event) : Z := match e with Submit _ _ _ _ _ => 1 | _ => 0 end.

Lemma exec_inv par n e w :
  queue_inv par n w -> 0 <= n < 2 ^ 64 - 2 -> queue_inv par (n + is_submit e) (exec e w).
Proof.
  intros Hi Hn. pose proof (inv_in_flight_nodup _ _ _ Hi) as Hnd.
  destruct Hi as [Hnext Hids Harcs Hb].
  destruct (exec_perm e w Hnd) as [Hperm Hid].
  assert (n + is_submit e = n + zlen (created e w)) as -> by (by destruct e).
  split.
  - rewrite Hid, Hnext. destruct e; unfold created; rewrite ?zlen_nil, ?zlen_cons; try lia.
    rewrite as_u64_id; rewrite ?zlen_nil; lia.
  - unfold ids in *. rewrite Hperm, fmap_app, Hids, (Permutation_app_comm _ (seqZ 1 n)).
    rewrite seqZ_app by (try apply zlen_nonneg; lia). f_equiv.
    destruct e; simpl; try done. by rewrite Hnext.
  - rewrite Hperm. apply Forall_app. split; [|done]. destruct e; simpl; by repeat constructor.
  - destruct (exec_lists par e w Hnd Hb) as [? ?]. destruct Hb as [? ? ? Hf]. split; try done.
    + by rewrite exec_par.
    + intros Hfo%exec_forgotten; [|done]. apply zlen_perm in Hperm. rewrite Hperm, zlen_app.
      pose proof (zlen_nonneg (created e w)). lia.
Qed.

Lemma send_inv par n w : queue_inv par n w -> queue_inv par n (exec Send w).
Proof. intros Hi. cbn [exec]. case_bool; [|done]. destruct Hi as [? ? ? []]. by repeat split. Qed.

Lemma submit_whole_inv par n dir src dst o dev w :
  queue_inv par n w -> 0 <= n < 2 ^ 64 - 2 -> queue_inv par (n + 1) (submit_whole dir src dst o dev w).
Proof. intros Hi Hn. apply send_inv. by apply (exec_inv par n (Submit dir src dst o dev)). Qed.

(** A message changes neither the lists nor the states. *)
Lemma send_keeps w :
  pending (queue (exec Send w)) = pending (queue w) /\ in_flight (queue (exec Send w)) = in_flight (queue w)
  /\ completed (queue (exec Send w)) = completed (queue w) /\ next_id (queue (exec Send w)) = next_id (queue w)
  /\ heap (exec Send w) = heap w.
Proof. cbn [exec]. by case_bool. Qed.

Lemma submits_cons e es : submits (e :: es) = is_submit e + submits es.
Proof. unfold submits. cbn [List.filter]. destruct e; rewrite ?zlen_cons; simpl; lia. Qed.

Lemma submits_bound es : 0 <= submits es <= zlen es.
Proof.
  induction es as [|e es IH]; [done|]. rewrite submits_cons, zlen_cons. destruct e; simpl; lia.
Qed.

Lemma run_from_inv par es n w :
  queue_inv par n w -> 0 <= n -> n + zlen es < 2 ^ 64 - 2 ->
  queue_inv par (n + submits es) (foldl (fun w e => exec e w) w es).
Proof.
  revert n w. induction es as [|e es IH]; intros n w Hi Hn Hlen; simpl.
  { change (submits []) with 0. by rewrite Z.add_0_r. }
  rewrite zlen_cons in Hlen. pose proof (zlen_nonneg es). rewrite submits_cons, Z.add_assoc.
  apply IH.
  - apply exec_inv; [done|lia].
  - destruct e; simpl; lia.
  - destruct e; simpl; lia.
Qed.

Lemma run_inv par es :
  zlen es < 2 ^ 64 - 2 -> queue_inv par (submits es) (run par es).
Proof. intros H. apply (run_from_inv par es 0 (start par)); [apply start_inv|lia..]. Qed.

(** C4: Conservation. After any interleaving of submits, dispatches, completions,
    pauses, cancellations and retries, at the granularity of the queue's locks:
    the jobs ever submitted are in exactly one place each (ids 1 to the number
    of submits, none twice, none missing), at most [parallelism] jobs are in
    flight, the history holds at most 200, and none is forgotten while at most
    200 were submitted. *)
Theorem queue_conserves_jobs (par : Z) (es : list event) :
  0 <= par -> zlen es < 2 ^ 64 - 2 ->
  let w := run par es in
  ids (all_jobs w) ≡ₚ seqZ 1 (submits es)
  /\ zlen (in_flight (queue w)) <= par /\ zlen (completed (queue w)) <= MAX_COMPLETED
  /\ (submits es <= MAX_COMPLETED -> forgotten w = []).
Proof.
  intros Hp Hl w. destruct (run_inv par es Hl) as [_ Hids _ [_ Hs Hc Hf]]. fold w in Hids, Hs, Hc, Hf.
  split_and!; [done|lia|done|]. intros Hn.
  destruct (forgotten w) eqn:E; [done|].
  assert (MAX_COMPLETED < zlen (all_jobs w)) as Hlt by (by apply Hf).
  apply zlen_perm in Hids. unfold ids in Hids. rewrite zlen_fmap in Hids.
  pose proof (submits_bound es). unfold zlen in Hids at 2. rewrite length_seqZ in Hids. lia.
Qed.

(** Two jobs through two slots, one failing and retried. *)
Definition demo_submit : event := Submit Pull (bs "/sdcard/a") (bs "/tmp/a") default_options None.
Definition demo : list event :=
  [demo_submit; demo_submit; Send; Dispatch; Send; Dispatch; Work 1 (set_state Failed); DoneRemove 1;
   DonePush 1; RetryFailed; Send; CancelJob 1; RetryTake 1].

Lemma queue_conserves_jobs_witness :
  ids (all_jobs (run 2 demo)) ≡ₚ [1; 2] /\ zlen (in_flight (queue (run 2 demo))) <= 2.
Proof.
  destruct (queue_conserves_jobs 2 demo) as (H & H2 & _ & _); [lia|vm_compute; reflexivity|].
  split; [exact H|exact H2].
Defined.

(** ** Snapshots *)

(** A snapshot never shows a job twice, but it can miss one: between the two
    critical sections of [mark_done] the finishing job is in no list, so that a
    snapshot, a lookup, a pause and a cancel at that moment do not find it. *)
Theorem snapshot_misses_finishing (par : Z) (es : list event) (i : Z) :
  zlen es < 2 ^ 64 - 2 -> i ∈ ids (in_flight (queue (run par es))) ->
  let w := run par es in
  NoDup (ids (jobs_snapshot (queue w)))
  /\ i ∈ ids (jobs_snapshot (queue w))
  /\ (i ∉ ids (jobs_snapshot (queue (exec (DoneRemove i) w))))
  /\ i ∈ ids (jobs_snapshot (queue (exec (DonePush i) (exec (DoneRemove i) w)))).
Proof.
  intros Hl Hi w. pose proof (run_inv par es Hl) as Hinv. fold w in Hinv, Hi.
  pose proof (inv_nodup _ _ _ Hinv) as Hnd. pose proof (inv_in_flight_nodup _ _ _ Hinv) as Hfl.
  assert (exists j, List.find (is_id i) (in_flight (queue w)) = Some j) as [j Hj].
  { apply list_elem_of_fmap in Hi as (k & -> & Hk). destruct (List.find _ _) eqn:E; [eauto|].
    eapply List.find_none in E; [|by apply list_elem_of_In]. unfold is_id in E.
    by rewrite Z.eqb_refl in E. }
  destruct (filter_id_perm _ _ _ Hfl Hj) as [Hij Hp].
  unfold jobs_snapshot. rewrite !ids_app. unfold all_jobs in Hnd. rewrite !ids_app in Hnd.
  split_and!.
  - rewrite !(assoc_L (++)) in *. by do 3 apply NoDup_app in Hnd as [Hnd _].
  - set_solver.
  - simpl. rewrite Hj. simpl. clear Hinv Hi Hfl. unfold ids in *.
    rewrite Hp in Hnd. simpl in Hnd. rewrite Hij in *. clear -Hnd.
    apply NoDup_app in Hnd as (_ & H1 & H2). apply NoDup_cons in H2 as [H2 _].
    specialize (fun H => H1 i H (list_elem_of_here _ _)). set_solver.
  - simpl. rewrite Hj. simpl. rewrite <- Hij.
    assert (is_id (id j) j = true) as -> by apply Z.eqb_refl. simpl.
    assert (j ∈ trim_completed (completed (queue w) ++ [j])) as Hin.
    { unfold trim_completed. case_bool; bool_to_prop; [|set_solver].
      rewrite zdrop_app_l by (unfold MAX_COMPLETED in *; len_lia). set_solver. }
    apply (list_elem_of_fmap_2 id) in Hin. rewrite !elem_of_app. auto.
Qed.

Lemma snapshot_misses_finishing_witness :
  let w := run 1 [demo_submit; Dispatch] in
  1 ∈ ids (jobs_snapshot (queue w)) /\ 1 ∉ ids (jobs_snapshot (queue (exec (DoneRemove 1) w))).
Proof.
  destruct (snapshot_misses_finishing 1 [demo_submit; Dispatch] 1) as (_ & H1 & H2 & _);
    [reflexivity|by apply list_elem_of_here|]. split; [exact H1|exact H2].
Defined.

(** ** Retrying *)

Lemma filter_ext_in {A} (f g : A -> bool) (l : list A) :
  (forall x, x ∈ l -> f x = g x) -> List.filter f l = List.filter g l.
Proof. intros H. apply List.filter_ext_in. intros x Hx. apply H. by apply list_elem_of_In. Qed.

Lemma filter_none {A} (f : A -> bool) (l : list A) :
  (forall x, f x = false) -> List.filter f l = [] /\ List.filter (fun x => negb (f x)) l = l.
Proof.
  intros H. induction l as [|x l [IH1 IH2]]; [done|]. cbn [List.filter]. rewrite H. cbn [negb].
  by rewrite IH1, IH2.
Qed.

Definition requeues (mine : Job -> bool) (s : store) (j : Job) : bool :=
  mine j && bool_decide (state (cell_of s j) = Failed).

Lemma requeues_frame mine s j k :
  arc j <> arc k -> requeues mine (update reset_for_retry j s) k = requeues mine s k.
Proof. intros H. unfold requeues. by rewrite cell_of_update_ne. Qed.

Lemma retain_failed_spec mine l s :
  NoDup (arc <$> l) ->
  let hit := requeues mine s in
  exists s', retain_failed mine l s =
    (List.filter (fun j => negb (hit j)) l, List.filter hit l, zlen (List.filter hit l), s')
    /\ (forall j, j ∈ List.filter hit l -> cell_of s' j = fresh_cell)
    /\ (forall j, (forall k, k ∈ List.filter hit l -> arc k <> arc j) -> cell_of s' j = cell_of s j).
Proof.
  revert s. induction l as [|j l IH]; intros s Hnd hit.
  { exists s. split_and!; try done. intros j Hj. by apply not_elem_of_nil in Hj. }
  apply NoDup_cons in Hnd as [Hj Hnd]. cbn [retain_failed List.filter].
  assert (forall k, k ∈ l -> arc j <> arc k) as Hne.
  { intros k Hk E. apply Hj. rewrite E. by apply list_elem_of_fmap_2. }
  fold (requeues mine s j). fold hit. destruct (hit j); cbn [negb].
  - destruct (IH (update reset_for_retry j s) Hnd) as (s' & E & Hre & Hfr).
    assert (forall k, k ∈ l -> requeues mine (update reset_for_retry j s) k = hit k) as Heq
      by (intros; apply requeues_frame; auto).
    rewrite (filter_ext_in (requeues mine (update reset_for_retry j s)) hit l) in E, Hre, Hfr by done.
    rewrite (filter_ext_in (fun k => negb (requeues mine (update reset_for_retry j s) k))
      (fun k => negb (hit k)) l) in E by (intros; by rewrite Heq).
    exists s'. rewrite E, zlen_cons, Z.add_comm. split_and!; [done| |].
    + intros k [->|Hk]%elem_of_cons; [|auto]. rewrite Hfr, cell_of_update; [done|].
      intros k' Hk' E'. apply list_elem_of_In, List.filter_In in Hk' as [Hk' _].
      apply (Hne k'); [by apply list_elem_of_In|done].
    + intros k Hk. rewrite Hfr by (intros k' Hk'; apply Hk; by right).
      apply cell_of_update_ne. apply Hk. by left.
  - destruct (IH s Hnd) as (s' & E & Hre & Hfr). exists s'. rewrite E. by split_and!.
Qed.

(** Retry after a replug. [retry_failed_for] requeues, in order and at the end of
    the queue, exactly the failed jobs whose device tag equals the serial, resets
    their progress, errors and flags, returns their number, and leaves every
    other job of the history (and its state) alone; with an empty serial it does
    nothing. *)
Theorem retry_failed_for_exact (serial : bytes) (q : JobQueue) (s : store) :
  NoDup (arc <$> completed q) ->
  let hit j := bool_decide (serial <> []) && bool_decide (device j = Some serial)
               && bool_decide (state (cell_of s j) = Failed) in
  exists s' k, retry_failed_for serial q s =
    (zlen (List.filter hit (completed q)),
     mkQueue (pending q ++ List.filter hit (completed q)) (in_flight q)
       (List.filter (fun j => negb (hit j)) (completed q)) (next_id q) (parallelism q)
       (notified q + k) (on_update q), s')
    /\ (k = 1 <-> List.filter hit (completed q) <> [])
    /\ (forall j, j ∈ List.filter hit (completed q) -> cell_of s' j = fresh_cell)
    /\ (forall j, (forall k, k ∈ List.filter hit (completed q) -> arc k <> arc j) ->
          cell_of s' j = cell_of s j).
Proof.
  intros Hnd hit. unfold retry_failed_for.
  destruct (decide (serial = [])) as [->|Hne].
  { exists s, 0. unfold retry_failed_for_lists, tell_if_any. rewrite bool_decide_eq_true_2 by done.
    destruct (filter_none hit (completed q)) as [-> ->]; [done|].
    rewrite app_nil_r, Z.add_0_r. destruct q; split_and!; try done.
    intros j Hj. by apply not_elem_of_nil in Hj. }
  unfold retry_failed_for_lists. rewrite bool_decide_eq_false_2 by done. unfold retry_where, tell_if_any.
  destruct (retain_failed_spec (fun j => bool_decide (device j = Some serial)) (completed q) s Hnd)
    as (s' & E & Hre & Hfr).
  assert (forall j, hit j = requeues (fun j => bool_decide (device j = Some serial)) s j) as Hh.
  { intros j. unfold hit. by rewrite (bool_decide_eq_true_2 (serial <> [])). }
  setoid_rewrite (List.filter_ext _ _ Hh).
  setoid_rewrite (List.filter_ext (fun j => negb (hit j)) _ (fun j => f_equal negb (Hh j))).
  rewrite E. destruct (List.filter (requeues _ s) (completed q)) as [|j l] eqn:Ef.
  - exists s', 0. destruct q. rewrite Z.add_0_r. by split_and!.
  - exists s', 1. rewrite zlen_cons. pose proof (zlen_nonneg l). decide_if. by split_and!.
Qed.

(** A history with failures of two devices, one serial a prefix of the other. *)
Definition tagged (i : Z) (serial : string) : Job :=
  mkJob i Pull (bs "/sdcard/a") (bs "/tmp/ABC") default_options (Some (bs serial)) i.
Definition history : JobQueue :=
  mkQueue [] [] [tagged 1 "ABC"; tagged 2 "ABCD"; tagged 3 "ABC"] 4 4 0 None.
Definition history_states : store :=
  <[1 := set_state Failed fresh_cell]> (<[2 := set_state Failed fresh_cell]>
    (<[3 := set_state Completed fresh_cell]> ∅)).

Lemma retry_failed_for_exact_witness :
  exists s', retry_failed_for (bs "ABC") history history_states =
    (1, mkQueue [tagged 1 "ABC"] [] [tagged 2 "ABCD"; tagged 3 "ABC"] 4 4 1 None, s')
    /\ cell_of s' (tagged 2 "ABCD") = set_state Failed fresh_cell.
Proof.
  destruct (retry_failed_for_exact (bs "ABC") history history_states)
    as (s' & k & H & Hk & _ & Hfr).
  - repeat constructor; set_solver.
  - exists s'. assert (k = 1) as -> by (apply Hk; vm_compute; congruence).
    split; [rewrite H; vm_compute; reflexivity|].
    rewrite Hfr; [reflexivity|]. intros j Hj. vm_compute in Hj.
    apply list_elem_of_singleton in Hj as ->. done.
Defined.

(** ** Wake-ups *)

Definition can_dispatch (q : JobQueue) : bool :=
  match (try_dispatch q).1 with Some _ => true | None => false end.

(** The messages sent, those owed, and those the [mark_done]s between their
    critical sections will owe. *)
Definition wakeups (w : world) : Z := notified (queue w) + owed w + zlen (finishing w).

Lemma can_dispatch_spec q :
  can_dispatch q = true <-> zlen (in_flight q) < parallelism q /\ pending q <> [].
Proof.
  unfold can_dispatch, try_dispatch. rewrite Z.geb_leb.
  destruct (Z.leb_spec (parallelism q) (zlen (in_flight q))); cbn.
  - split; [done|lia].
  - destruct (pending q); cbn; naive_solver.
Qed.

Lemma retry_where_wakes mine q s :
  let '(n, q', _) := retry_where mine q s in
  (q' = set_lists (pending q) (in_flight q) (completed q') q \/ 0 < n)
  /\ notified q' = notified q /\ in_flight q' = in_flight q /\ parallelism q' = parallelism q.
Proof.
  unfold retry_where. pose proof (retain_failed_perm mine (completed q) s) as H.
  destruct (retain_failed _ _ _) as [[[kept re] n] s']. destruct H as [_ ->].
  destruct re; simpl; [rewrite app_nil_r; auto|]. split_and!; try done. right. len_lia.
Qed.

(** What a retry of many does to the wake-ups. *)
Lemma retry_many_wakes mine (q : JobQueue) (s : store) (ow fin : Z) :
  let '(n, q', _) := retry_where mine q s in
  let ow' := if n >? 0 then ow + 1 else ow in
  notified q + ow + fin <= notified q' + ow' + fin
  /\ (can_dispatch q = false -> can_dispatch q' = true -> notified q + ow + fin < notified q' + ow' + fin).
Proof.
  pose proof (retry_where_wakes mine q s) as H. destruct (retry_where _ _ _) as [[n q'] s'].
  destruct H as (Hq & Hn & Hf & Hp). rewrite Hn. case_bool; bool_to_prop; [split; lia|]. split; [lia|].
  intros H1 H2. destruct Hq as [Hq|]; [|lia]. rewrite Hq in H2. apply can_dispatch_spec in H2. simpl in H2.
  apply can_dispatch_spec in H2. congruence.
Qed.

(** No lost wake-up. Whenever an event makes a dispatch possible that was not
    possible before (a job arrives or a slot frees), the task that did it owes the
    dispatcher a message, or is in the middle of a [mark_done] and will owe it;
    no event ever takes a message back, sent or owed. *)
Theorem no_lost_wakeup (e : event) (w : world) :
  wakeups w <= wakeups (exec e w)
  /\ (can_dispatch (queue w) = false -> can_dispatch (queue (exec e w)) = true ->
      wakeups w < wakeups (exec e w)).
Proof.
  assert (forall q q', can_dispatch q = false -> can_dispatch q' = true ->
    ~ (zlen (in_flight q) <= zlen (in_flight q') /\ parallelism q' = parallelism q
       /\ (pending q = [] -> pending q' = []))) as Hno.
  { intros q q' H1 [H2 H3]%can_dispatch_spec (H4 & H5 & H6).
    assert (can_dispatch q = true) by (apply can_dispatch_spec; split; [lia|auto]). congruence. }
  destruct w as [q h fin re fo ow]. unfold wakeups.
  destruct e; simpl; try (split; [lia|congruence]).
  - split; lia.
  - split; [unfold try_dispatch; repeat case_match; simpl; lia|]. intros H1 H2. exfalso.
    assert ((try_dispatch q).2 = q) as E
      by (revert H1; unfold can_dispatch, try_dispatch; by repeat case_match).
    rewrite E in H2. congruence.
  - destruct (List.find _ _); simpl; [rewrite zlen_cons; split; lia|split; [lia|congruence]].
  - destruct (take_first _ _) as [[j l]|] eqn:E; simpl; [|split; [lia|congruence]].
    apply take_first_perm, zlen_perm in E. rewrite zlen_cons in E. split; [lia|].
    intros H1 H2. exfalso. by apply (Hno _ _ H1 H2).
  - unfold cancel_job. destruct (take_first _ _) as [[j l]|] eqn:E; simpl.
    + split; [lia|]. intros H1 H2. exfalso. apply (Hno _ _ H1 H2). simpl. split_and!; try lia.
      intros Hn. rewrite Hn in E. done.
    + destruct (on_found _ _ _ _). simpl. split; [lia|congruence].
  - unfold retry_take. destruct (take_first _ _) as [[j l]|]; simpl; [|split; [lia|congruence]].
    split; [lia|]. intros H1 H2. exfalso. by apply (Hno _ _ H1 H2).
  - destruct (take_first _ _) as [[j l]|]; simpl; split; try lia; congruence.
  - pose proof (retry_many_wakes (fun _ => true) q h ow (zlen fin)) as H. unfold retry_failed_lists.
    by destruct (retry_where _ _ _) as [[n q'] s].
  - unfold retry_failed_for_lists. case_bool; [simpl; split; [lia|congruence]|].
    pose proof (retry_many_wakes (fun j => bool_decide (device j = Some serial)) q h ow (zlen fin)) as H.
    by destruct (retry_where _ _ _) as [[n q'] s].
  - case_bool; simpl; (split; [lia|]); intros H1 H2; exfalso; by apply (Hno _ _ H1 H2).
  - destruct (List.find _ _); simpl; split; try lia; congruence.
Qed.
