(* ===== verification/Progress.v ===== *)
(** * Transfer progress (transfer-engine/src/progress.rs and [Job::progress_frac])

    Speeds and ratios are IEEE binary64 numbers ([SpecFloat] with 53 bits of
    precision), times are nanoseconds of the monotonic clock. *)

From Stdlib Require Import SpecFloat.
From stdpp Require Import base list gmap strings.
From S2P Require Import Prelude Job.

(** ** [f64] *)

Abbreviation f64 := spec_float.
Definition f_div : f64 -> f64 -> f64 := SFdiv 53 1024.
Definition f_add : f64 -> f64 -> f64 := SFadd 53 1024.
Definition f_zero : f64 := S754_zero false.
(** [x as f64] of an integer: rounded to nearest, ties to even. *)
Definition f_of (z : Z) : f64 := binary_normalize 53 1024 z 0 false.

(** [f64::max] *)
Definition f_max (a b : f64) : f64 :=
  match SFcompare a b with
  | Some Lt => b
  | Some _ => a
  | None => match a with S754_nan => b | _ => a end
  end.

(** [f64::clamp] *)
Definition f_clamp (x lo hi : f64) : f64 :=
  let x := if SFltb x lo then lo else x in if SFltb hi x then hi else x.

Definition NANOS : Z := 1000000000.

(** [Duration::as_secs_f64] *)
Definition as_secs_f64 (nanos : Z) : f64 :=
  f_add (f_of (nanos / NANOS)) (f_div (f_of (nanos mod NANOS)) (f_of NANOS)).

(** 0.001 *)
Definition f_milli : f64 := f_div (f_of 1) (f_of 1000).

(** [m * 2 ^ e], rounded to an integer, ties to even. *)
Definition round_even (m e : Z) : Z :=
  if 0 <=? e then m * 2 ^ e
  else
    let d := 2 ^ (- e) in
    let q := m / d in let r := m mod d in
    if 2 * r <? d then q else if d <? 2 * r then q + 1 else if Z.even q then q else q + 1.

(** [Duration::from_secs_f64], in nanoseconds; [None] is the panic on a negative
    or too large value. *)
Definition from_secs_f64 (x : f64) : option Z :=
  match x with
  | S754_zero _ => Some 0
  | S754_finite false m e =>
      let nanos := round_even (Zpos m * NANOS) e in
      if nanos <? 2 ^ 64 * NANOS then Some nanos else None
  | _ => None
  end.

(** ** The tracker *)

Record SpeedSample : Type := mkSample { at_time : Z; sample_bytes : Z; bps : f64 }.

Record ProgressTracker : Type := mkTracker {
  last_sample : option (Z * Z);
  history : list SpeedSample;
  max_history : Z;
  started_at : Z;
}.

Record ProgressSnapshot : Type := mkSnapshot {
  snap_done : Z; snap_total : Z; current_bps : f64; avg_bps : f64; eta : option Z;
  snap_history : list SpeedSample;
}.

Definition new (now : Z) : ProgressTracker := mkTracker None [] 60 now.

Definition saturating_sub (a b : Z) : Z := Z.max 0 (a - b).

(** [while history.len() > max { history.pop_front() }] *)
Fixpoint pop_front_until (max : Z) (l : list SpeedSample) : list SpeedSample :=
  match l with
  | [] => []
  | _ :: l' => if zlen l >? max then pop_front_until max l' else l
  end.

Definition tick (now bytes_done : Z) (t : ProgressTracker) : SpeedSample * ProgressTracker :=
  let rate :=
    match last_sample t with
    | Some (t0, b) =>
        let dt := f_max (as_secs_f64 (saturating_sub now t0)) f_milli in
        f_div (f_of (saturating_sub bytes_done b)) dt
    | None => f_zero
    end in
  let sample := mkSample now bytes_done rate in
  (sample, mkTracker (Some (now, bytes_done))
     (pop_front_until (max_history t) (history t ++ [sample])) (max_history t) (started_at t)).

(** [None]: the ETA's [Duration::from_secs_f64] panics. *)
Definition snapshot (now total : Z) (t : ProgressTracker) : option ProgressSnapshot :=
  let bytes_done := match last (history t) with Some s => sample_bytes s | None => 0 end in
  let current := match last (history t) with Some s => bps s | None => f_zero end in
  let avg := f_div (f_of bytes_done) (f_max (as_secs_f64 (saturating_sub now (started_at t))) f_milli) in
  if SFltb f_zero current && (0 <? total) then
    match from_secs_f64 (f_div (f_of (saturating_sub total bytes_done)) current) with
    | Some d => Some (mkSnapshot bytes_done total current avg (Some d) (history t))
    | None => None
    end
  else Some (mkSnapshot bytes_done total current avg None (history t)).

Definition progress_frac (c : cell) : f64 :=
  let frac :=
    if bytes_total c =? 0 then
      match state c with Completed | Skipped => f_of 1 | _ => f_zero end
    else f_div (f_of (bytes_done c)) (f_of (bytes_total c)) in
  f_clamp frac f_zero (f_of 1).

(** Ten megabytes in two seconds, of one hundred. *)
Example five_megabytes_per_second :
  let t := (tick 2000000000 10000000 (tick 0 0 (new 0)).2).2 in
  option_map (fun s => (current_bps s, eta s)) (snapshot 2000000000 100000000 t)
  = Some (f_of 5000000, Some (18 * NANOS)).
Proof. by vm_compute. Qed.

(** ** Bounds *)

Lemma pop_front_until_spec max l :
  0 <= max -> pop_front_until max l = zdrop (zlen l - max) l.
Proof.
  intros Hm. induction l as [|s l IH]; [by rewrite zlen_nil; unfold zdrop; rewrite drop_nil|].
  cbn [pop_front_until]. destruct (Z.gtb_spec (zlen (s :: l)) max) as [H|H].
  - rewrite IH, zlen_cons in *. unfold zdrop.
    replace (Z.to_nat (1 + zlen l - max)) with (Datatypes.S (Z.to_nat (zlen l - max))) by lia. done.
  - unfold zdrop. by replace (Z.to_nat (zlen (s :: l) - max)) with O by lia.
Qed.

(** Ticking through a list of (clock, bytes) readings. *)
Definition ticks (l : list (Z * Z)) (t : ProgressTracker) : ProgressTracker :=
  foldl (fun t '(now, b) => (tick now b t).2) t l.

Definition reading (s : SpeedSample) : Z * Z := (at_time s, sample_bytes s).

(** The last [n] elements. *)
Definition lastn {A} (n : Z) (l : list A) : list A := zdrop (zlen l - n) l.

Lemma lastn_app_last {A} n (l k : list A) : 0 <= n -> lastn n (lastn n l ++ k) = lastn n (l ++ k).
Proof.
  intros Hn. unfold lastn. pose proof (zlen_nonneg l). pose proof (zlen_nonneg k).
  rewrite !zlen_app, zlen_zdrop.
  destruct (Z.le_gt_cases (zlen l) n) as [Hl|Hl].
  { rewrite Z.max_l by lia. rewrite Z.min_l, Z.sub_0_r by lia.
    unfold zdrop at 2. replace (Z.to_nat (zlen l - n)) with O by lia. by rewrite drop_0. }
  rewrite Z.max_r, Z.min_l by lia. replace (zlen l - (zlen l - n) + zlen k - n) with (zlen k) by lia.
  destruct (Z.le_gt_cases (zlen k) n) as [Hk|Hk].
  - rewrite !zdrop_app_l by (rewrite ?zlen_zdrop; lia). rewrite zdrop_zdrop by lia. do 2 f_equal. lia.
  - rewrite !zdrop_app by (rewrite ?zlen_zdrop; lia). rewrite zlen_zdrop. f_equal. lia.
Qed.

Lemma fmap_lastn {A B} (f : A -> B) n l : f <$> lastn n l = lastn n (f <$> l).
Proof. unfold lastn, zdrop. rewrite zlen_fmap. apply fmap_drop. Qed.

Lemma ticks_history l t past :
  max_history t = 60 -> reading <$> history t = lastn 60 past ->
  max_history (ticks l t) = 60 /\ reading <$> history (ticks l t) = lastn 60 (past ++ l).
Proof.
  revert t past. induction l as [|[now b] l IH]; intros t past Hm Hh; [by rewrite app_nil_r|].
  change (ticks ((now, b) :: l) t) with (ticks l (tick now b t).2).
  rewrite (app_assoc past [(now, b)] l : past ++ (now, b) :: l = _).
  apply IH; [done|]. simpl. rewrite Hm, pop_front_until_spec by done.
  fold (lastn 60 (history t ++ [mkSample now b
    match last_sample t with
    | Some (t0, b0) => f_div (f_of (saturating_sub b b0)) (f_max (as_secs_f64 (saturating_sub now t0)) f_milli)
    | None => f_zero end])).
  rewrite fmap_lastn, fmap_app, Hh. by apply lastn_app_last.
Qed.

(** The progress history is bounded and faithful. After any number of ticks it
    holds exactly the last 60 (clock, bytes) readings, oldest first, and a
    snapshot reports the last reading's byte count, the total it was asked for
    and that history. *)
Theorem progress_history (l : list (Z * Z)) (start now total : Z) :
  let t := ticks l (new start) in
  reading <$> history t = lastn 60 l /\ zlen (history t) <= 60
  /\ forall s, snapshot now total t = Some s ->
       snap_done s = default 0 (snd <$> last l) /\ snap_total s = total
       /\ snap_history s = history t.
Proof.
  intros t. destruct (ticks_history l (new start) [] eq_refl eq_refl) as [_ Hh]. fold t in Hh.
  rewrite app_nil_l in Hh.
  assert (zlen (history t) <= 60) as Hlen.
  { rewrite <- (zlen_fmap reading), Hh. unfold lastn. rewrite zlen_zdrop.
    pose proof (zlen_nonneg l). lia. }
  split_and!; [done|done|]. intros s Hs.
  assert (snap_done s = match last (history t) with Some s => sample_bytes s | None => 0 end
    /\ snap_total s = total /\ snap_history s = history t) as (-> & ? & ?)
    by (unfold snapshot in Hs; repeat case_match; simplify_eq; done).
  split; [|done].
  assert (last (reading <$> history t) = last l) as Hlast.
  { rewrite Hh. unfold lastn, zdrop. destruct l as [|x l] using rev_ind; [done|].
    rewrite drop_app_le by (rewrite zlen_app; unfold zlen; simpl; lia). by rewrite !last_snoc. }
  rewrite fmap_last in Hlast. rewrite <- Hlast. by destruct (last (history t)).
Qed.
