(* ===== verification/DaemonInput.v ===== *)
(** * What the daemon accepts from its callers (adb-daemon/src/main.rs)

    The checks on names, addresses and commands that arrive over the bus, and
    the words of the commands built from them, as a POSIX shell on the device
    reads them. *)

From stdpp Require Import base list strings sets.
From S2P Require Import Prelude RustStd Text Job.

(** [zbus::fdo::Error] *)
Inductive bus_error : Type :=
| InvalidArgs (msg : bytes)
| ServiceUnknown (msg : bytes)
| Failed_ (msg : bytes).

(** [s.chars().all(|c| p(c))] for a predicate that holds of ASCII only. *)
Definition char_is (p : Z -> bool) (c : bytes) : bool :=
  match c with [b] => p b | _ => false end.
Definition all_chars (p : Z -> bool) (s : bytes) : bool := forallb (char_is p) (chars s).

(** [c.is_ascii_alphanumeric() || set.contains(c)] *)
Definition alnum_or (set : bytes) (b : Z) : bool := is_alnum b || bool_decide (b ∈ set).

(** ** Names and addresses *)

Definition sanitize_mount_name (serial : bytes) : option bytes :=
  let cleaned := concat ((fun c => if char_is (alnum_or (bs "-_.")) c then c else bs "_") <$> chars serial) in
  if bool_decide (cleaned = [] \/ cleaned = bs "." \/ cleaned = bs "..") then None else Some cleaned.

Definition mountpoint_for (mount_base serial : bytes) (no_fuse : bool) : option bytes :=
  if no_fuse then None else path_join mount_base <$> sanitize_mount_name serial.

Definition count_byte (b : Z) (l : bytes) : nat := length (filter (fun x => x = b) l).

Definition DEFAULT_PORT : Z := 5037.
Definition port_of (p : bytes) : option Z := parse_dec 65535 p.

Definition parse_adb_server (spec : bytes) : bytes * Z :=
  match '(host, after) ← (rest ← strip_pre (bs "[") spec; split_once (bs "]") rest); Some (host, after) with
  | Some (host, after) => (host, default DEFAULT_PORT (p ← strip_pre (bs ":") after; port_of p))
  | None =>
      if negb (has_prefix (bs "[") spec) && (1 <? count_byte 58 spec)%nat then (spec, DEFAULT_PORT)
      else
        match rsplit_once (bs ":") spec with
        | Some (host, port) => (host, default DEFAULT_PORT (port_of port))
        | None => (spec, DEFAULT_PORT)
        end
  end.

Definition is_wireless_serial (serial : bytes) : bool :=
  match rsplit_once (bs ":") serial with
  | Some (host, port) => bool_decide (host <> []) && bool_decide (is_Some (port_of port))
  | None => false
  end.

Definition host_name (host : bytes) : bytes :=
  match strip_pre (bs "[") host with
  | Some host => default [] (strip_suffix (bs "]") host)
  | None => if bool_decide (is_Some (strip_suffix (bs "]") host)) then [] else host
  end.

Definition host_port_ok (address : bytes) : bool :=
  match rsplit_once (bs ":") address with
  | None => false
  | Some (host, port) =>
      if bool_decide (port = []) || negb (forallb is_digit port) then false
      else match port_of port with
           | None => false
           | Some port =>
               if port =? 0 then false
               else
                 let host := host_name host in
                 bool_decide (host <> []) && negb (bool_decide (91 ∈ host) || bool_decide (93 ∈ host))
                 && all_chars (alnum_or (bs ".-_:%")) host
           end
  end.

Definition validate_host_port (address : bytes) : result bus_error unit :=
  if host_port_ok address then Ok tt else Err (InvalidArgs (bs "address must be host:port")).

Definition segment_ok (segment : bytes) : bool :=
  match chars segment with
  | first :: rest => char_is is_alpha first && forallb (char_is (alnum_or (bs "_"))) rest
  | [] => false
  end.

Definition is_package_name (package : bytes) : bool :=
  if bool_decide (package = []) || (zlen package >? 224) then false
  else forallb segment_ok (split_on 46 package).

(** [exists] is whether the path names a file of this computer. *)
Definition is_device_local_path (exists_ : bytes -> bool) (path : bytes) : bool :=
  if has_prefix (bs "/sdcard/") path || has_prefix (bs "/storage/") path || has_prefix (bs "/data/") path
     || has_prefix (bs "/mnt/") path
  then true
  else has_prefix (bs "/") path && negb (exists_ path).

Definition parse_job_options (overwrite : bytes) (verify : bool) : result bus_error JobOptions :=
  mode ← (if bool_decide (overwrite = bs "skip") then Ok SkipExisting
          else if bool_decide (overwrite = bs "replace") then Ok Always
          else if bool_decide (overwrite = bs "keep-both") then Ok Rename
          else Err (InvalidArgs (bs "overwrite must be skip, replace, or keep-both")));
  Ok (mkOptions (chunk_size default_options) (if verify then VerifyOn else VerifyOff) mode).

(** ** Shell commands *)

Definition SHELL_ALLOWLIST : list bytes :=
  [bs "pm"; bs "am"; bs "svc"; bs "settings"; bs "wm"; bs "getprop"; bs "dumpsys"; bs "input"; bs "monkey"].

Definition is_safe_shell_arg (arg : bytes) : bool :=
  bool_decide (arg <> []) && (zlen arg <=? 512) && all_chars (alnum_or (bs "-_./:=@,+%")) arg.

(** [argv.get(i).map(|s| s.as_str()).unwrap_or("")] *)
Definition arg (argv : list bytes) (i : nat) : bytes := default [] (argv !! i).
Definition one_of (x : bytes) (l : list bytes) : bool := bool_decide (x ∈ l).

(** The error texts are those of the source up to the words they quote. *)
Definition validate_shell_argv (argv : list bytes) : result bytes unit :=
  match argv with
  | [] => Err (bs "empty argv")
  | head :: _ =>
      if negb (one_of head SHELL_ALLOWLIST) then Err (bs "command not allowed: " ++ head)
      else if negb (forallb is_safe_shell_arg argv) then Err (bs "argument contains unsafe characters")
      else
        let sub := arg argv 1 in
        let refuse (ok : bool) (what : bytes) : result bytes unit :=
          if ok then Ok tt else Err (what ++ sub) in
        if one_of head [bs "getprop"; bs "dumpsys"] then Ok tt
        else if bool_decide (head = bs "svc") then
          refuse (one_of sub [bs "wifi"; bs "data"; bs "bluetooth"] && one_of (arg argv 2) [bs "enable"; bs "disable"])
            (bs "disallowed svc command: ")
        else if bool_decide (head = bs "settings") then
          refuse (one_of sub [bs "get"; bs "put"]) (bs "disallowed settings subcommand: ")
        else if bool_decide (head = bs "wm") then
          refuse (one_of sub [bs "size"; bs "density"]) (bs "disallowed wm subcommand: ")
        else if bool_decide (head = bs "am") then
          refuse (one_of sub [bs "force-stop"]) (bs "disallowed am subcommand: ")
        else if bool_decide (head = bs "pm") then
          refuse (one_of sub [bs "clear"; bs "grant"; bs "revoke"; bs "list"; bs "path"]) (bs "disallowed pm subcommand: ")
        else if bool_decide (head = bs "input") then
          refuse (one_of sub [bs "tap"; bs "text"; bs "keyevent"; bs "swipe"]) (bs "disallowed input subcommand: ")
        else if bool_decide (head = bs "monkey") then
          if (zlen argv =? 6) && bool_decide (argv !! 1%nat = Some (bs "-p"))
             && bool_decide (argv !! 3%nat = Some (bs "-c"))
             && bool_decide (argv !! 4%nat = Some (bs "android.intent.category.LAUNCHER"))
             && bool_decide (argv !! 5%nat = Some (bs "1"))
          then Ok tt else Err (bs "disallowed monkey invocation")
        else Err (bs "command not allowed: " ++ head)
  end.

Definition OUTPUT_CAP : Z := 200000.
Definition TRUNCATED : bytes := [10; 0xE2; 0x80; 0xA6] ++ bs "(truncated)".

(** [String::truncate]: [None] is the panic inside a character. *)
Definition truncate (n : Z) (s : bytes) : option bytes :=
  if zlen s <=? n then Some s
  else if is_cont (zget s n) then None else Some (ztake n s).

(** The reply to [run_shell] for the output of the command. *)
Definition cap_output (text : bytes) : option bytes :=
  if zlen text >? OUTPUT_CAP then (fun t => t ++ TRUNCATED) <$> truncate OUTPUT_CAP text else Some text.

(** ** Quoting *)

Definition INSTALL_STAGE : bytes := bs "/data/local/tmp/adbshare_install_stage.apk".

(** [path.replace('\'', "'\\''")] *)
Definition escape (path : bytes) : bytes :=
  concat ((fun b => if b =? 39 then [39; 92; 39; 39] else [b]) <$> path).

Definition cp_command (path : bytes) : bytes := bs "cp '" ++ escape path ++ bs "' " ++ INSTALL_STAGE.
Definition uninstall_command (package : bytes) : bytes := bs "pm uninstall '" ++ package ++ bs "'".
Definition dumpsys_command (package : bytes) : bytes := bs "dumpsys package '" ++ package ++ bs "'".

(** ** The device's shell *)

(** Unquoted bytes that are not part of a word: operators, expansions,
    comments, patterns and the end of the command. *)
Definition special : bytes := [10; 13; 33; 34; 35; 36; 38; 40; 41; 42; 59; 60; 62; 63; 91; 93; 94; 96; 123; 124; 125; 126].

(** The words of a simple command: blanks separate, single quotes keep
    everything, a backslash keeps the next byte; [None] when the line is anything else. *)
Fixpoint sh (l : bytes) (cur : option bytes) (quoted : bool) : option (list bytes) :=
  let add b := Some (default [] cur ++ [b]) in
  match l with
  | [] => if quoted then None else Some (option_list cur)
  | b :: l =>
      if quoted then if b =? 39 then sh l cur false else sh l (add b) true
      else if b =? 39 then sh l (Some (default [] cur)) true
      else if (b =? 32) || (b =? 9) then (option_list cur ++.) <$> sh l None false
      else if b =? 92 then match l with c :: l => sh l (add c) false | [] => None end
      else if bool_decide (b ∈ special) then None
      else sh l (add b) false
  end.
Definition sh_words (l : bytes) : option (list bytes) := sh l None false.

Example sh_1 : sh_words (bs "pm uninstall 'a.b'") = Some [bs "pm"; bs "uninstall"; bs "a.b"]
  /\ sh_words (cp_command (bs "it's; rm -rf /")) = Some [bs "cp"; bs "it's; rm -rf /"; INSTALL_STAGE]
  /\ sh_words (bs "a; b") = None
  /\ parse_adb_server (bs "[::1]:5038") = (bs "::1", 5038) /\ parse_adb_server (bs "::1") = (bs "::1", 5037)
  /\ parse_adb_server (bs "host:99999") = (bs "host", 5037)
  /\ host_port_ok (bs "192.168.1.5:5555") = true /\ host_port_ok (bs "[fe80::1%eth0]:5555") = true
  /\ host_port_ok (bs "a b:5555") = false /\ host_port_ok (bs "host:0") = false
  /\ is_package_name (bs "com.a_b.C9") = true /\ is_package_name (bs "com..b") = false
  /\ mountpoint_for (bs "/run") (bs "../x:1") false = Some (bs "/run/.._x_1").
Proof. by vm_compute. Qed.

(** ** Characters *)

Lemma utf8_head_pos b l : (1 <= (utf8_head b l).2)%nat.
Proof. unfold utf8_head. repeat case_bool; simpl; lia. Qed.

Lemma chars_concat l : concat (chars l) = l.
Proof.
  unfold chars. assert (H : forall fuel l, (length l <= fuel)%nat -> concat (chars_fuel fuel l) = l); [|by apply H].
  clear l. induction fuel as [|fuel IH]; intros [|b l] Hl; try done; [simpl in Hl; lia|].
  cbn [chars_fuel]. pose proof (utf8_head_pos b l) as Hp. set (n := (utf8_head b l).2) in *.
  change (take n (b :: l) ++ concat (chars_fuel fuel (drop n (b :: l))) = b :: l).
  rewrite IH; [apply take_drop|]. rewrite length_drop. simpl in *. lia.
Qed.

Lemma char_is_single p c : char_is p c = true -> exists b, c = [b] /\ p b = true.
Proof. destruct c as [|b [|? ?]]; [done|by exists b|done]. Qed.

Lemma all_single p cs : forallb (char_is p) cs = true -> Forall (fun b => p b = true) (concat cs).
Proof.
  intros H. induction cs as [|c cs IH]; [constructor|]. simpl in *. bool_to_prop.
  destruct (char_is_single p c) as (b & -> & Hb); [done|]. simpl. constructor; auto.
Qed.

Lemma all_chars_bytes p s : all_chars p s = true -> Forall (fun b => p b = true) s.
Proof. intros H. rewrite <- (chars_concat s). by apply all_single. Qed.

(** ** Words *)

(** Bytes the shell takes as they are. *)
Definition plain (b : Z) : bool :=
  negb (b =? 39) && negb ((b =? 32) || (b =? 9)) && negb (b =? 92) && negb (bool_decide (b ∈ special)).

Lemma sh_plain w l cur : Forall (fun b => plain b = true) w -> w <> [] ->
  sh (w ++ l) cur false = sh l (Some (default [] cur ++ w)) false.
Proof.
  intros Hw. revert cur. induction Hw as [|b w Hb Hw IH]; [done|]. intros cur _. cbn [app sh].
  unfold plain in Hb. bool_to_prop. rewrite (proj2 (Z.eqb_neq b 39)) by done.
  rewrite (proj2 (Z.eqb_neq b 32)), (proj2 (Z.eqb_neq b 9)), (proj2 (Z.eqb_neq b 92)) by done.
  rewrite bool_decide_eq_false_2 by done. cbn [orb].
  destruct w as [|c w]; [done|]. rewrite IH by done. cbv beta iota delta [from_option Datatypes.id]. by rewrite <- app_assoc.
Qed.

(** A word of plain bytes, then a blank. *)
Lemma sh_word w l : Forall (fun b => plain b = true) w -> w <> [] ->
  sh (w ++ 32 :: l) None false = (w ::.) <$> sh l None false.
Proof. intros Hw Hne. rewrite sh_plain by done. reflexivity. Qed.

Lemma sh_join ws : ws <> [] -> Forall (fun w => Forall (fun b => plain b = true) w /\ w <> []) ws ->
  sh_words (join [32] ws) = Some ws.
Proof.
  unfold sh_words. intros Hne. induction 1 as [|w ws [Hw Hn] Hws IH]; [done|]. destruct ws as [|v ws].
  - cbn [join]. rewrite <- (app_nil_r w) at 1. by rewrite sh_plain.
  - change (join [32] (w :: v :: ws)) with (w ++ 32 :: join [32] (v :: ws)). rewrite sh_word, IH by done. done.
Qed.

(** Inside single quotes: bytes without a quote, and the escaped form of any. *)
Lemma sh_quoted w l cur : Forall (fun b => b <> 39) w ->
  sh (w ++ 39 :: l) (Some cur) true = sh l (Some (cur ++ w)) false.
Proof.
  intros Hw. revert cur. induction Hw as [|b w Hb Hw IH]; intros cur; cbn [app sh].
  - by rewrite app_nil_r.
  - rewrite (proj2 (Z.eqb_neq b 39)) by done. rewrite IH. cbv beta iota delta [from_option Datatypes.id]. by rewrite <- app_assoc.
Qed.

Lemma sh_escaped path l cur : sh (escape path ++ 39 :: l) (Some cur) true = sh l (Some (cur ++ path)) false.
Proof.
  revert cur. induction path as [|b path IH]; intros cur; [simpl; by rewrite app_nil_r|].
  change (escape (b :: path)) with ((if b =? 39 then [39; 92; 39; 39] else [b]) ++ escape path).
  destruct (Z.eqb_spec b 39) as [->|Hb].
  - cbn [app sh Z.eqb Pos.eqb from_option Datatypes.id]. rewrite IH. by rewrite <- app_assoc.
  - cbn [app sh]. rewrite (proj2 (Z.eqb_neq b 39)) by done. rewrite IH. cbv beta iota delta [from_option Datatypes.id]. by rewrite <- app_assoc.
Qed.

(** ** The commands that may run *)

(** The pairs of a command and its first argument. *)
Definition SUBCOMMANDS : list (bytes * bytes) :=
  [(bs "settings", bs "get"); (bs "settings", bs "put"); (bs "wm", bs "size"); (bs "wm", bs "density");
   (bs "am", bs "force-stop"); (bs "pm", bs "clear"); (bs "pm", bs "grant"); (bs "pm", bs "revoke");
   (bs "pm", bs "list"); (bs "pm", bs "path"); (bs "input", bs "tap"); (bs "input", bs "text");
   (bs "input", bs "keyevent"); (bs "input", bs "swipe")].

Inductive policy : list bytes -> Prop :=
| may_read head rest : head ∈ [bs "getprop"; bs "dumpsys"] -> policy (head :: rest)
| may_sub head sub rest : (head, sub) ∈ SUBCOMMANDS -> policy (head :: sub :: rest)
| may_switch target action rest :
    target ∈ [bs "wifi"; bs "data"; bs "bluetooth"] -> action ∈ [bs "enable"; bs "disable"] ->
    policy (bs "svc" :: target :: action :: rest)
| may_launch package :
    policy [bs "monkey"; bs "-p"; package; bs "-c"; bs "android.intent.category.LAUNCHER"; bs "1"].

Lemma alnum_plain b : is_alnum b = true -> plain b = true.
Proof.
  unfold is_alnum, is_digit, is_alpha, in_range. intros H.
  assert (Hr : 48 <= b <= 57 \/ 65 <= b <= 90 \/ 97 <= b <= 122).
  { apply orb_true_iff in H as [H|H]; [|apply orb_true_iff in H as [H|H]]; bool_to_prop; lia. }
  unfold plain. rewrite !andb_true_iff, !negb_true_iff, orb_false_iff, !Z.eqb_neq, bool_decide_eq_false.
  split_and!; try lia. unfold special. rewrite !elem_of_cons, elem_of_nil. lia.
Qed.

Lemma safe_arg_plain a : is_safe_shell_arg a = true ->
  Forall (fun b => plain b = true) a /\ a <> [] /\ zlen a <= 512.
Proof.
  unfold is_safe_shell_arg. intros H. bool_to_prop. split_and!; [|done|done].
  eapply Forall_impl; [by apply all_chars_bytes|]. simpl. intros b Hb. unfold alnum_or in Hb.
  apply orb_true_iff in Hb as [Hb|Hb]; [by apply alnum_plain|]. bool_to_prop.
  assert (Hall : Forall (fun b => plain b = true) (bs "-_./:=@,+%")) by (apply (bool_decide_unpack _); by vm_compute).
  rewrite Forall_forall in Hall. by apply Hall.
Qed.

Lemma one_of_spec x l : one_of x l = true <-> x ∈ l.
Proof. unfold one_of. apply bool_decide_eq_true. Qed.

(** A missing word is none of a list of words. *)
Ltac not_among :=
  exfalso; match goal with H : ?x ∈ ?l |- _ => apply (bool_decide_eq_true_2 (x ∈ l)) in H; by vm_compute in H end.

(** A command whose first argument is one of a list. *)
Lemma sub_policy head argv l what : [] ∉ l -> Forall (fun sub => (head, sub) ∈ SUBCOMMANDS) l ->
  (if one_of (arg (head :: argv) 1) l then Ok tt else Err what) = (Ok tt : result bytes unit) -> policy (head :: argv).
Proof.
  intros Hne Hl. case_bool; [intros _|done]. apply one_of_spec in Heqb. destruct argv as [|sub rest]; [done|].
  apply may_sub. rewrite Forall_forall in Hl. by apply Hl.
Qed.

Lemma validate_sound argv : validate_shell_argv argv = Ok tt ->
  Forall (fun a => is_safe_shell_arg a = true) argv /\ policy argv.
Proof.
  destruct argv as [|head argv]; [done|]. unfold validate_shell_argv. case_bool; [done|]. case_bool; [done|].
  bool_to_prop. intros H. split.
  { apply Forall_forall. intros x Hx%list_elem_of_In. by eapply forallb_forall in Hx. }
  revert H. case_bool; [intros _; by apply may_read, one_of_spec|].
  case_bool; bool_to_prop.
  { subst head. case_bool; [intros _|done]. bool_to_prop.
    repeat match goal with H : one_of _ _ = true |- _ => apply one_of_spec in H end.
    destruct argv as [|target [|action rest]]; [not_among|not_among|]. by apply may_switch. }
  do 5 (case_bool; [bool_to_prop; subst head; apply sub_policy;
    [by apply (bool_decide_unpack _)|by apply (bool_decide_unpack _)]|]).
  case_bool; [|done]. bool_to_prop. subst head. case_bool; [intros _|done]. bool_to_prop.
  destruct argv as [|a1 [|a2 [|a3 [|a4 [|a5 [|? ?]]]]]]; simplify_eq/=; try done; [|exfalso; len_lia].
  apply may_launch.
Qed.

Lemma validate_complete argv : Forall (fun a => is_safe_shell_arg a = true) argv -> policy argv ->
  validate_shell_argv argv = Ok tt.
Proof.
  intros Hs Hp. assert (Hf : forallb is_safe_shell_arg argv = true).
  { apply forallb_forall. intros x Hx%list_elem_of_In. rewrite Forall_forall in Hs. auto. }
  destruct Hp as [head rest Hh|head sub rest Hh|target action rest Ht Ha|package]; unfold validate_shell_argv; rewrite Hf.
  - unfold one_of. rewrite (bool_decide_eq_true_2 (head ∈ [_; _])) by done. rewrite bool_decide_eq_true_2; [done|set_solver].
  - unfold SUBCOMMANDS in Hh. rewrite !elem_of_cons, elem_of_nil in Hh.
    repeat (destruct Hh as [Hh|Hh]; [by injection Hh as -> ->|]). done.
  - rewrite !elem_of_cons, elem_of_nil in Ht. rewrite !elem_of_cons, elem_of_nil in Ha.
    by destruct Ht as [->|[->|[->|[]]]], Ha as [->|[->|[]]].
  - done.
Qed.

(** The daemon runs on a device exactly the commands of its policy.
    [validate_shell_argv] accepts a list of words if and only if each is a
    non-empty run of at most 512 harmless characters and together they are
    a property or service dump, one of fourteen subcommands, a radio switch or
    the launch of a package; the shell that receives them joined by
    blanks reads exactly those words, with nothing expanded, redirected
    or appended. *)
Theorem shell_argv_policy (argv : list bytes) :
  (validate_shell_argv argv = Ok tt <-> Forall (fun a => is_safe_shell_arg a = true) argv /\ policy argv)
  /\ (validate_shell_argv argv = Ok tt -> sh_words (join [32] argv) = Some argv
      /\ Forall (fun a => 0 < zlen a <= 512) argv).
Proof.
  split; [split; [apply validate_sound|intros [??]; by apply validate_complete]|].
  intros [Hs Hp]%validate_sound. split.
  - apply sh_join; [by destruct Hp|]. eapply Forall_impl; [done|]. intros a Ha%safe_arg_plain. naive_solver.
  - eapply Forall_impl; [done|]. intros a (_ & Hne & Hl)%safe_arg_plain. destruct a; [done|]. len_lia.
Qed.

Lemma shell_argv_policy_witness :
  validate_shell_argv [bs "svc"; bs "wifi"; bs "enable"] = Ok tt
  /\ sh_words (bs "svc wifi enable") = Some [bs "svc"; bs "wifi"; bs "enable"].
Proof.
  assert (H : validate_shell_argv [bs "svc"; bs "wifi"; bs "enable"] = Ok tt) by by vm_compute.
  split; [exact H|]. apply (proj2 (shell_argv_policy [bs "svc"; bs "wifi"; bs "enable"]) H).
Defined.

(** ** Quoted words *)

Lemma segment_bytes s : segment_ok s = true -> Forall (fun b => alnum_or (bs "_") b = true) s.
Proof.
  unfold segment_ok. intros H. rewrite <- (chars_concat s). destruct (chars s) as [|c cs]; [done|]. bool_to_prop.
  destruct (char_is_single _ _ H) as (b & -> & Hb). simpl. constructor; [|by apply all_single].
  unfold alnum_or, is_alnum. by rewrite Hb, orb_true_r.
Qed.

Lemma split_on_forall (P : Z -> Prop) c l : P c -> Forall (Forall P) (split_on c l) -> Forall P l.
Proof.
  intros Hc. induction l as [|b l IH]; [constructor|]. simpl. pose proof (split_on_nonempty c l) as Hne.
  destruct (split_on c l) as [|p ps]; [done|]. destruct (Z.eqb_spec b c) as [->|]; intros H.
  - rewrite !Forall_cons in *. naive_solver.
  - rewrite !Forall_cons in *. destruct H as [[Hb Hp] Hps]. split; [done|]. apply IH. done.
Qed.

Lemma package_bytes p : is_package_name p = true ->
  Forall (fun b => alnum_or (bs "_.") b = true) p /\ p <> [] /\ zlen p <= 224.
Proof.
  unfold is_package_name. case_bool; [done|]. intros H. bool_to_prop. split_and!; [|done|lia].
  apply (split_on_forall _ 46); [done|]. apply Forall_forall. intros s Hs%list_elem_of_In.
  eapply forallb_forall in Hs; [|done]. eapply Forall_impl; [by apply segment_bytes|].
  simpl. intros b. unfold alnum_or. rewrite !orb_true_iff, !bool_decide_eq_true. intros [?|?]; [by left|right].
  assert (Hin : bs "_" ⊆ bs "_.") by (apply (bool_decide_unpack _); by vm_compute). by apply Hin.
Qed.

Lemma package_no_quote p : is_package_name p = true -> Forall (fun b => b <> 39) p.
Proof. intros [H _]%package_bytes. eapply Forall_impl; [done|]. by intros b Hb ->. Qed.

(** A name cannot break out of the command it is put into. Whatever
    the bytes of the APK's path, the shell of the device reads the staging command
    as the copy of exactly that path; and for every accepted package name
    the uninstall and the query are the commands of exactly that package. *)
Theorem quoted_words (path package : bytes) :
  sh_words (cp_command path) = Some [bs "cp"; path; INSTALL_STAGE]
  /\ (is_package_name package = true ->
      sh_words (uninstall_command package) = Some [bs "pm"; bs "uninstall"; package]
      /\ sh_words (dumpsys_command package) = Some [bs "dumpsys"; bs "package"; package]).
Proof.
  split.
  - unfold sh_words, cp_command. change (bs "cp '" ++ ?l) with (bs "cp" ++ 32 :: 39 :: l).
    rewrite sh_word by (done || (apply (bool_decide_unpack _); by vm_compute)).
    change (bs "' " ++ INSTALL_STAGE) with (39 :: 32 :: INSTALL_STAGE).
    change (sh (39 :: ?l) None false) with (sh l (Some []) true). rewrite sh_escaped.
    change (sh (32 :: INSTALL_STAGE) (Some ([] ++ path)) false) with (([path] ++.) <$> sh_words (join [32] [INSTALL_STAGE])).
    rewrite sh_join; [done|done|]. apply Forall_singleton. split; [|done]. apply (bool_decide_unpack _); by vm_compute.
  - intros Hp. pose proof (package_no_quote _ Hp) as Hq. split; unfold sh_words.
    + unfold uninstall_command. change (bs "pm uninstall '" ++ ?l) with (bs "pm" ++ 32 :: (bs "uninstall" ++ 32 :: 39 :: l)).
      rewrite !sh_word by (done || (apply (bool_decide_unpack _); by vm_compute)).
      change (sh (39 :: ?l) None false) with (sh l (Some []) true). change (bs "'") with [39]. by rewrite sh_quoted.
    + unfold dumpsys_command. change (bs "dumpsys package '" ++ ?l) with (bs "dumpsys" ++ 32 :: (bs "package" ++ 32 :: 39 :: l)).
      rewrite !sh_word by (done || (apply (bool_decide_unpack _); by vm_compute)).
      change (sh (39 :: ?l) None false) with (sh l (Some []) true). change (bs "'") with [39]. by rewrite sh_quoted.
Qed.

Lemma quoted_words_witness :
  is_package_name (bs "com.example.app") = true
  /\ sh_words (uninstall_command (bs "com.example.app")) = Some [bs "pm"; bs "uninstall"; bs "com.example.app"].
Proof.
  assert (H : is_package_name (bs "com.example.app") = true) by by vm_compute.
  split; [exact H|]. apply (proj2 (quoted_words [] (bs "com.example.app")) H).
Defined.

(** ** Mount directories and addresses *)

Lemma cleaned_bytes serial :
  Forall (fun b => alnum_or (bs "-_.") b = true)
    (concat ((fun c => if char_is (alnum_or (bs "-_.")) c then c else bs "_") <$> chars serial)).
Proof.
  apply Forall_concat, Forall_fmap, Forall_true. intros c. unfold compose. case_bool.
  - destruct (char_is_single _ _ Heqb) as (b & -> & Hb). by constructor.
  - by constructor.
Qed.

Lemma rsplit_once_spec p l x y : rsplit_once p l = Some (x, y) -> l = x ++ p ++ y.
Proof.
  revert x y. induction l as [|b l IH]; intros x y; cbn [rsplit_once].
  - destruct (has_prefix p []) eqn:E; [|done]. intros [= <- <-]. by apply has_prefix_spec in E.
  - destruct (rsplit_once p l) as [[x' y']|]; cbn [fmap option_fmap option_map].
    + intros [= <- <-]. simpl. f_equal. by apply IH.
    + destruct (has_prefix p (b :: l)) eqn:E; [|done]. intros [= <- <-]. by apply has_prefix_spec in E.
Qed.

(** C39: A serial cannot move the mount out of its directory, and an address
    cannot smuggle anything into [adb]. The mountpoint of a device is the
    base with one path component appended that is not empty, [.] or [..] and
    holds only letters, digits, dash, underscore and dot; an accepted address is a
    host and a decimal port from 1 to 65535 joined by a colon, the
    host, without its brackets, of harmless characters only. *)
Theorem inputs_contained (base serial mountpoint address : bytes) :
  (mountpoint_for base serial false = Some mountpoint ->
   exists name, mountpoint = path_join base name /\ name <> [] /\ name <> bs "." /\ name <> bs ".."
   /\ Forall (fun b => alnum_or (bs "-_.") b = true) name)
  /\ (validate_host_port address = Ok tt ->
   exists host port n, address = host ++ bs ":" ++ port /\ port_of port = Some n /\ 0 < n <= 65535
   /\ Forall (fun b => is_digit b = true) port
   /\ host_name host <> [] /\ Forall (fun b => alnum_or (bs ".-_:%") b = true) (host_name host)).
Proof.
  split.
  - unfold mountpoint_for. cbv iota. unfold sanitize_mount_name. case_bool; [done|]. bool_to_prop.
    intros [= <-]. eexists. split; [done|]. pose proof (cleaned_bytes serial). naive_solver.
  - unfold validate_host_port. destruct (host_port_ok address) eqn:Hok; [intros _|done]. revert Hok.
    unfold host_port_ok. destruct (rsplit_once (bs ":") address) as [[host port]|] eqn:E; [|done].
    apply rsplit_once_spec in E. case_bool; [done|]. bool_to_prop.
    destruct (port_of port) as [n|] eqn:En; [|done]. case_bool; [done|]. intros Hok.
    bool_to_prop. exists host, port, n.
    assert (Hn : 0 <= n <= 65535).
    { unfold port_of, parse_dec in En. apply unsigned_bound in En; [done|done|]. intros b Hb.
      unfold is_digit, in_range in Hb. bool_to_prop. lia. }
    split_and!; try done; try lia; [|by apply all_chars_bytes].
    apply Forall_forall. intros b Hb%list_elem_of_In. by eapply forallb_forall in Hb.
Qed.

(** A long reply can crash the call. [run_shell] caps the output of a
    command at 200000 bytes, but when that position falls inside a
    character the cut panics; an output of whole characters up to there is
    cut and marked, and a shorter one is returned unchanged. *)
Theorem cap_output_cases (text : bytes) :
  (zlen text <= OUTPUT_CAP -> cap_output text = Some text)
  /\ (OUTPUT_CAP < zlen text -> is_cont (zget text OUTPUT_CAP) = true -> cap_output text = None)
  /\ (OUTPUT_CAP < zlen text -> is_cont (zget text OUTPUT_CAP) = false ->
      cap_output text = Some (ztake OUTPUT_CAP text ++ TRUNCATED)).
Proof.
  unfold cap_output, truncate. split_and!.
  - intros H. rewrite Z.gtb_ltb, (proj2 (Z.ltb_ge _ _)) by lia. done.
  - intros H Hc. rewrite Z.gtb_ltb, (proj2 (Z.ltb_lt _ _)), (proj2 (Z.leb_gt _ _)), Hc by lia. done.
  - intros H Hc. rewrite Z.gtb_ltb, (proj2 (Z.ltb_lt _ _)), (proj2 (Z.leb_gt _ _)), Hc by lia. done.
Qed.

Lemma inputs_contained_witness :
  (exists name, mountpoint_for (bs "/run/adbshare") (bs "10.0.0.2:5555") false = Some (path_join (bs "/run/adbshare") name))
  /\ exists host port n, bs "10.0.0.2:5555" = host ++ bs ":" ++ port /\ port_of port = Some n /\ 0 < n <= 65535.
Proof.
  destruct (inputs_contained (bs "/run/adbshare") (bs "10.0.0.2:5555") (bs "/run/adbshare/10.0.0.2_5555") (bs "10.0.0.2:5555"))
    as [H1 H2].
  destruct H1 as (name & E & _); [by vm_compute|]. destruct H2 as (host & port & n & H & Hp & Hn & _); [by vm_compute|].
  split; [exists name; rewrite <- E; by vm_compute|]. exists host, port, n. exact (conj H (conj Hp Hn)).
Defined.

(** An output whose 200001st byte is the second half of a letter. *)
Definition long_output : bytes := replicate (Z.to_nat 199999) 97 ++ [0xC3; 0xA9].
Lemma cap_output_cases_witness : cap_output long_output = None.
Proof.
  apply (proj1 (proj2 (cap_output_cases long_output))).
  - unfold long_output. by rewrite zlen_app, zlen_replicate, Z2Nat.id.
  - unfold long_output, zget, OUTPUT_CAP. rewrite lookup_app_r by (rewrite length_replicate; lia).
    rewrite length_replicate. by replace (Z.to_nat 200000 - Z.to_nat 199999)%nat with 1%nat by lia.
Defined.
