(* ===== verification/Worker.v ===== *)
(** * The transfer worker (transfer-engine/src/worker.rs, verify.rs)

    [run] with [push], [pull], the overwrite modes, renaming and verification,
    in a state monad over the job's shared state, the remote ([Remote]) and the
    local file system ([Local], tokio::fs). Other tasks pause, resume and cancel
    the job while the worker runs: [schedule] lists what they do, one batch per
    point at which the worker reads the shared flags. *)

From stdpp Require Import base list gmap strings.
From S2P Require Import Prelude RustStd ProxyOps ProxyClient Remote Job.

(** The calls of tokio::fs the worker makes. Open files are numbers; errors are
    their texts. *)
Class Local (L : Type) : Type := {
  l_metadata : bytes -> L -> result bytes Z;
  l_open : bytes -> L -> result bytes Z * L;
  l_create : bytes -> L -> result bytes Z * L;
  (** [OpenOptions::new().create(true).write(true).truncate(false)] *)
  l_open_rw : bytes -> L -> result bytes Z * L;
  l_seek : Z -> Z -> L -> result bytes unit * L;
  l_read : Z -> Z -> L -> result bytes bytes * L;
  l_write_all : Z -> bytes -> L -> result bytes unit * L;
  l_flush : Z -> L -> result bytes unit * L;
  l_remove_file : bytes -> L -> result bytes unit * L;
  l_create_dir_all : bytes -> L -> result bytes unit * L;
}.

(** What the worker may rely on when the calls succeed. [l_at h p pos l]: [h] is open on
    [p] with its cursor at [pos] and nothing waiting to be written. A write
    of tokio is buffered: [l_writes h p pos c l] says that [p] will hold [c] once what
    was written through [h] has reached it, which only a flush ensures. *)
Class LocalLaws (L : Type) `{!Local L} : Type := {
  l_content : bytes -> L -> option bytes;
  l_absent : bytes -> L -> Prop;
  l_at : Z -> bytes -> Z -> L -> Prop;
  l_writes : Z -> bytes -> Z -> bytes -> L -> Prop;
  l_metadata_law : forall p c l n, l_content p l = Some c -> l_metadata p l = Ok n -> n = zlen c;
  l_absent_law : forall p l n, l_absent p l -> l_metadata p l <> Ok n;
  l_open_law : forall p c l h l', l_content p l = Some c -> l_open p l = (Ok h, l') ->
    l_content p l' = Some c /\ l_at h p 0 l';
  l_create_law : forall p l h l', l_create p l = (Ok h, l') ->
    l_content p l' = Some [] /\ l_at h p 0 l';
  l_open_rw_law : forall p c l h l', l_content p l = Some c -> l_open_rw p l = (Ok h, l') ->
    l_content p l' = Some c /\ l_at h p 0 l';
  l_seek_law : forall h p pos off c l l', l_at h p pos l -> l_content p l = Some c -> 0 <= off ->
    l_seek h off l = (Ok tt, l') -> l_content p l' = Some c /\ l_at h p off l';
  (** A read returns a non-empty piece of what is left, or nothing at the end. *)
  l_read_law : forall h p pos n c l d l',
    l_at h p pos l -> l_content p l = Some c -> 0 < n -> 0 <= pos -> l_read h n l = (Ok d, l') ->
    l_content p l' = Some c /\ l_at h p (pos + zlen d) l'
    /\ d = slice c pos (zlen d) /\ zlen d <= n /\ (d = [] -> zlen c <= pos)
    /\ (d <> [] -> pos + zlen d <= zlen c);
  l_writes_law : forall h p pos c l, l_at h p pos l -> l_content p l = Some c -> l_writes h p pos c l;
  l_write_law : forall h p pos d c l l',
    l_writes h p pos c l -> 0 <= pos -> l_write_all h d l = (Ok tt, l') ->
    l_writes h p (pos + zlen d) (Libc.splice c pos d) l';
  l_flush_law : forall h p pos c l l',
    l_writes h p pos c l -> l_flush h l = (Ok tt, l') -> l_content p l' = Some c;
  l_create_dir_all_law : forall dir p l r l',
    l_create_dir_all dir l = (r, l') ->
    l_content p l' = l_content p l /\ (parent p = Some dir -> l_absent p l -> l_absent p l');
  l_size_law : forall p c l, l_content p l = Some c -> zlen c < 2 ^ 63;
}.

(** ** Alternate names *)

Module RenameCandidates.

Record t : Type := mk { dir : bytes; stem : bytes; ext : bytes; n : Z }.

Definition new (path : bytes) : t :=
  let '(stem, ext) :=
    match file_name path with
    | Some name =>
        let '(s, e) := stem_ext name in
        (from_utf8_lossy s,
         match e with Some e => bs "." ++ from_utf8_lossy e | None => [] end)
    | None => (bs "file", [])
    end in
  mk (default [] (parent path)) stem ext 0.

(** [next]: the counter is incremented first. *)
Definition bump (c : t) : t := mk (dir c) (stem c) (ext c) (as_u32 (n c + 1)).
Definition cand (c : t) : bytes :=
  path_join (dir c) (stem c ++ bs " (" ++ fmt_dec (n c) ++ bs ")" ++ ext c).
Definition next (c : t) : bytes * t := let c := bump c in (cand c, c).

End RenameCandidates.

(** Readings of the monotonic clock and of the speed and ETA estimates, which
    depend on it; SHA-256 in hex (crates sha2 and hex); [Worker::chunk_size]. *)
Class WorkerEnv : Type := {
  clock : Z -> Z;
  speed_now : Z -> Z -> Z;
  eta_now : Z -> Z -> Z;
  sha256_hex : bytes -> bytes;
  chunk : Z;
}.

(** The shared job state, the two file systems, what the other tasks will do, and
    the number of clock readings so far. *)
Record wstate (S L : Type) : Type := mkW {
  shared : cell;
  remote : S;
  local : L;
  schedule : list (list control);
  ticks : Z;
}.
Arguments mkW {S L} _ _ _ _ _.
Arguments shared {S L} w.
Arguments remote {S L} w.
Arguments local {S L} w.
Arguments schedule {S L} w.
Arguments ticks {S L} w.

(** The monad. [None] is an execution that does not return: the job is parked
    and never resumed, or the fuel of a loop is exhausted. *)
Definition M (S L A : Type) : Type := wstate S L -> option (A * wstate S L).
#[global] Instance M_ret {S L} : MRet (M S L) := fun A a w => Some (a, w).
#[global] Instance M_bind {S L} : MBind (M S L) :=
  fun A B k m w => match m w with Some (a, w) => k a w | None => None end.

(** The [?] operator. *)
Definition try {S L A B : Type} (m : M S L (presult A)) (k : A -> M S L (presult B))
    : M S L (presult B) :=
  r ← m; match r with Ok a => k a | Err e => mret (Err e) end.
Notation "x ←! m ; k" := (try m (fun x => k)) (at level 100, m at next level, right associativity).

Section worker.
Context {S L : Type} `{!Remote S} `{!Local L} `{!WorkerEnv}.
#[local] Abbreviation M := (M S L).

Definition on_remote {A} (f : S -> A * S) : M A := fun w =>
  let '(a, s) := f (remote w) in Some (a, mkW (shared w) s (local w) (schedule w) (ticks w)).
Definition on_local {A} (f : L -> A * L) : M A := fun w =>
  let '(a, l) := f (local w) in Some (a, mkW (shared w) (remote w) l (schedule w) (ticks w)).
Definition peek_local {A} (f : L -> A) : M A := fun w => Some (f (local w), w).
Definition modify (f : cell -> cell) : M unit := fun w =>
  Some (tt, mkW (f (shared w)) (remote w) (local w) (schedule w) (ticks w)).
Definition gets {A} (f : cell -> A) : M A := fun w => Some (f (shared w), w).
Definition stuck {A} : M A := fun _ => None.

(** The other tasks take their turn. *)
Definition yield : M unit := fun w =>
  match schedule w with
  | [] => Some (tt, w)
  | b :: rest => Some (tt, mkW (apply_controls b (shared w)) (remote w) (local w) rest (ticks w))
  end.

Definition now : M Z := fun w =>
  Some (clock (ticks w), mkW (shared w) (remote w) (local w) (schedule w) (ticks w + 1)).

(** [.map_err(|e| ProxyError::Other(format!(pre, e)))] on an I/O result. *)
Definition io_err {A} (pre : string) (r : result bytes A) : presult A :=
  map_err (fun e => Other (bs pre ++ e)) r.
(** The same on a proxy result. *)
Definition px_err {A} (pre : string) (r : presult A) : presult A :=
  map_err (fun e => Other (bs pre ++ display e)) r.

(** ** Pausing *)

(** Polls the flags; with nothing left in the schedule a paused job stays parked. *)
Fixpoint wait_loop (n : nat) : M bool :=
  p ← gets paused; c ← gets cancelled;
  if p && negb c then
    match n with O => stuck | Datatypes.S n => yield ;; wait_loop n end
  else gets cancelled.
Definition wait_while_paused : M bool := fun w => wait_loop (length (schedule w)) w.

(** [job.is_cancelled() || self.wait_while_paused(job).await] *)
Definition stop_requested : M bool :=
  yield ;; c ← gets cancelled; if (c : bool) then mret true else wait_while_paused.

Definition report (offset n : Z) : M unit :=
  modify (add_bytes n) ;; t ← now;
  modify (fun c => set_eta_secs (eta_now t offset) (set_speed_bps (speed_now t offset) c)).

(** ** Verification *)

Definition sha256_file_loop := fix go (fuel : nat) (h : Z) (acc : bytes) : M (result bytes bytes) :=
  match fuel with
  | O => stuck
  | Datatypes.S fuel =>
      r ← on_local (l_read h (64 * 1024));
      match r with
      | Err e => mret (Err e)
      | Ok [] => mret (Ok (sha256_hex acc))
      | Ok d => go fuel h (acc ++ d)
      end
  end.
Definition sha256_file (fuel : nat) (path : bytes) : M (result bytes bytes) :=
  r ← on_local (l_open path);
  match r with Err e => mret (Err e) | Ok h => sha256_file_loop fuel h [] end.

Fixpoint hash_remote_loop (fuel : nat) (f : ProxyFile) (offset : Z) (acc : bytes)
    : M (presult bytes) :=
  match fuel with
  | O => stuck
  | Datatypes.S fuel =>
      d ←! on_remote (r_read_at f offset (Z.min chunk (2 ^ 32 - 1)));
      match d with
      | [] => mret (Ok acc)
      | _ => hash_remote_loop fuel f (as_u64 (offset + zlen d)) (acc ++ d)
      end
  end.
Definition hash_remote (fuel : nat) (path : bytes) : M (presult bytes) :=
  f ←! on_remote (r_open path OpenFlags.READ 0);
  acc ←! hash_remote_loop fuel f 0 [];
  r ← on_remote (r_close f);
  match px_err "close remote file: " r with
  | Err e => mret (Err e)
  | Ok _ => mret (Ok (sha256_hex acc))
  end.

Definition verify_paths (fuel : nat) (loc rem : bytes) : M (presult unit) :=
  lh ← sha256_file fuel loc;
  match io_err "verify: hashing local file failed: " lh with
  | Err e => mret (Err e)
  | Ok local_hash =>
      rh ← hash_remote fuel rem;
      match px_err "verify: hashing remote file failed: " rh with
      | Err e => mret (Err e)
      | Ok remote_hash =>
          if negb (bool_decide (local_hash = remote_hash)) then
            mret (Err (Other (bs "verify: checksum mismatch (local sha256 " ++ local_hash
              ++ bs ", remote sha256 " ++ remote_hash ++ bs ")")))
          else mret (Ok tt)
      end
  end.

(** ** Renaming *)

Fixpoint pick_remote_loop (n : nat) (cands : RenameCandidates.t) : M (option bytes) :=
  match n with
  | O => mret None
  | Datatypes.S n =>
      let '(cand, cands) := RenameCandidates.next cands in
      r ← on_remote (r_stat (from_utf8_lossy cand));
      match r with
      | Err _ => mret (Some (from_utf8_lossy cand))
      | Ok _ => pick_remote_loop n cands
      end
  end.
Definition pick_remote_rename (original : bytes) : M bytes :=
  r ← pick_remote_loop 999 (RenameCandidates.new original);
  mret (default (original ++ bs ".adbshare-new") r).

Fixpoint pick_local_loop (n : nat) (cands : RenameCandidates.t) : M (option bytes) :=
  match n with
  | O => mret None
  | Datatypes.S n =>
      let '(cand, cands) := RenameCandidates.next cands in
      r ← peek_local (l_metadata cand);
      match r with
      | Err _ => mret (Some cand)
      | Ok _ => pick_local_loop n cands
      end
  end.
Definition pick_local_rename (original : bytes) : M bytes :=
  r ← pick_local_loop 999 (RenameCandidates.new original);
  mret (default (with_file_name original
    (match file_name original with Some s => from_utf8_lossy s | None => [] end
     ++ bs ".adbshare-new")) r).

(** ** Push *)

Definition CREATE_WRITE : Z := Z.lor OpenFlags.CREATE OpenFlags.WRITE.
Definition CREATE_WRITE_TRUNC : Z := Z.lor CREATE_WRITE OpenFlags.TRUNC.

Fixpoint push_loop (fuel : nat) (h : Z) (f : ProxyFile) (offset : Z) : M (presult unit) :=
  match fuel with
  | O => stuck
  | Datatypes.S fuel =>
      stop ← stop_requested;
      if (stop : bool) then mret (Err (Other (bs "cancelled")))
      else
        r ← on_local (l_read h chunk);
        d ←! mret (io_err "read source: " r);
        match d with
        | [] => mret (Ok tt)
        | _ =>
            _ ←! on_remote (r_write_at f offset d);
            report (as_u64 (offset + zlen d)) (zlen d) ;;
            push_loop fuel h f (as_u64 (offset + zlen d))
        end
  end.

(** What the destination's state and the overwrite mode call for. *)
Inductive plan : Type :=
| Skip (size : Z)
| Write (dest : bytes) (flags offset : Z) (created : bool).

Definition plan_push (job : Job) (source_len : Z) (dest : bytes) : M plan :=
  r ← on_remote (r_stat dest);
  match ok r, overwrite (options job) with
  | Some st, SkipExisting => mret (Skip (Stat.size st))
  | Some st, Resume =>
      if Stat.size st <? source_len then mret (Write dest CREATE_WRITE (Stat.size st) false)
      else mret (Write dest CREATE_WRITE_TRUNC 0 false)
  | Some _, Rename =>
      dest ← pick_remote_rename dest; mret (Write dest CREATE_WRITE_TRUNC 0 true)
  | existing, _ => mret (Write dest CREATE_WRITE_TRUNC 0 (bool_decide (existing = None)))
  end.

(** The copy from the open source [h], with the clean-up; 0o644 is 0x1A4. *)
Definition push_body (fuel : nat) (job : Job) (h : Z) (dest : bytes) (flags offset : Z)
    (created : bool) : M (presult unit) :=
  f ←! on_remote (r_open dest flags 0x1A4);
  outcome ← push_loop fuel h f offset;
  match outcome with
  | Err e =>
      on_remote (r_close f) ;;
      (if created then on_remote (r_unlink dest) ;; mret tt else mret tt) ;;
      mret (Err e)
  | Ok _ =>
      r ← on_remote (r_close f);
      _ ←! mret (px_err "close destination: " r);
      match verify (options job) with
      | VerifyOn => verify_paths fuel (source job) dest
      | _ => mret (Ok tt)
      end
  end.

(** The transfer once the destination is chosen. *)
Definition push_to (fuel : nat) (job : Job) (dest : bytes) (flags offset : Z) (created : bool)
    : M (presult unit) :=
  r ← on_local (l_open (source job));
  h ←! mret (io_err "" r);
  _ ←! (if offset >? 0 then
          r ← on_local (l_seek h offset);
          _ ←! mret (io_err "seek source: " r);
          modify (add_bytes offset) ;; mret (Ok tt)
        else mret (Ok tt));
  push_body fuel job h dest flags offset created.

Definition skip_with (size : Z) : M (presult unit) :=
  modify (set_total size) ;; modify (add_bytes size) ;; modify (set_state Skipped) ;; mret (Ok tt).

Definition push (fuel : nat) (job : Job) : M (presult unit) :=
  meta ← peek_local (l_metadata (source job));
  source_len ←! mret (io_err "stat source: " meta);
  p ← plan_push job source_len (from_utf8_lossy (destination job));
  match p with
  | Skip size => skip_with size
  | Write dest flags offset created => push_to fuel job dest flags offset created
  end.

(** ** Pull *)

Fixpoint pull_loop (fuel : nat) (f : ProxyFile) (h : Z) (offset : Z) : M (presult unit) :=
  match fuel with
  | O => stuck
  | Datatypes.S fuel =>
      stop ← stop_requested;
      if (stop : bool) then mret (Err (Other (bs "cancelled")))
      else
        d ←! on_remote (r_read_at f offset (as_u32 chunk));
        match d with
        | [] => mret (Ok tt)
        | _ =>
            w ← on_local (l_write_all h d);
            _ ←! mret (io_err "write destination: " w);
            report (as_u64 (offset + zlen d)) (zlen d) ;;
            pull_loop fuel f h (as_u64 (offset + zlen d))
        end
  end.

(** The destination as opened (path, file, offset, and whether this job created
    it), or the size of the file to skip. *)
Definition opened_dest : Type := sum Z (bytes * Z * Z * bool).

Definition fresh (dest : bytes) (created : bool) : M (presult opened_dest) :=
  r ← on_local (l_create dest);
  h ←! mret (io_err "create destination: " r);
  mret (Ok (inr (dest, h, 0, created))).

Definition open_pull (job : Job) (existing : option Z) : M (presult opened_dest) :=
  let dest := destination job in
  match existing, overwrite (options job) with
  | Some len, SkipExisting => mret (Ok (inl len))
  | Some len, Resume =>
      total ← gets bytes_total;
      if (total =? 0) || (len <? total) then
        r ← on_local (l_open_rw dest);
        h ←! mret (io_err "open destination: " r);
        r ← on_local (l_seek h len);
        _ ←! mret (io_err "seek destination: " r);
        modify (add_bytes len) ;; mret (Ok (inr (dest, h, len, false)))
      else fresh dest false
  | Some _, Rename => dest ← pick_local_rename dest; fresh dest true
  | _, _ => fresh dest (bool_decide (existing = None))
  end.

Definition pull_to (fuel : nat) (job : Job) (dest : bytes) (h offset : Z) (created : bool)
    : M (presult unit) :=
  f ←! on_remote (r_open (source job) OpenFlags.READ 0);
  outcome ← pull_loop fuel f h offset;
  match outcome with
  | Err e =>
      on_remote (r_close f) ;;
      (if created then on_local (l_flush h) ;; on_local (l_remove_file dest) ;; mret tt
       else mret tt) ;;
      mret (Err e)
  | Ok _ =>
      r ← on_remote (r_close f);
      _ ←! mret (px_err "close source: " r);
      r ← on_local (l_flush h);
      _ ←! mret (io_err "" r);
      match verify (options job) with
      | VerifyOn => verify_paths fuel dest (from_utf8_lossy (source job))
      | _ => mret (Ok tt)
      end
  end.

Definition pull (fuel : nat) (job : Job) : M (presult unit) :=
  match parent (destination job) with
  | Some dir => on_local (l_create_dir_all dir) ;; mret tt
  | None => mret tt
  end ;;
  meta ← peek_local (l_metadata (destination job));
  if negb (utf8_valid (source job)) then
    mret (Err (Other (bs "source path is not valid UTF-8: " ++ from_utf8_lossy (source job))))
  else
    d ←! open_pull job (ok meta);
    match d with
    | inl size => skip_with size
    | inr (dest, h, offset, created) => pull_to fuel job dest h offset created
    end.

(** ** A job from start to end *)

Definition finish (e : bytes) (st : JobState) : M unit :=
  modify (set_error e) ;; modify (set_state st).

(** [self.client.stat(job.source.to_str().unwrap_or(""))], retried once. *)
Definition pull_total (job : Job) : M Z :=
  let path := if utf8_valid (source job) then source job else [] in
  r ← on_remote (r_stat path);
  match r with
  | Ok st => mret (Stat.size st)
  | Err _ =>
      r ← on_remote (r_stat path);
      match r with Ok st => mret (Stat.size st) | Err _ => mret 0 end
  end.

Definition run_transfer (fuel : nat) (job : Job) (total : Z) : M (presult unit) :=
  modify (set_total total) ;;
  result ← match direction job with Push => push fuel job | Pull => pull fuel job end;
  yield ;; c ← gets cancelled;
  if (c : bool) then finish (bs "cancelled") Cancelled ;; mret (Ok tt)
  else
    match result with
    | Err e => finish (display e) Failed
    | Ok _ =>
        yield ;; st ← gets state;
        if bool_decide (st = Running) then yield ;; modify (set_state Completed) else mret tt
    end ;;
    mret result.

Definition run (fuel : nat) (job : Job) : M (presult unit) :=
  yield ;; c ← gets cancelled;
  if (c : bool) then finish (bs "cancelled") Cancelled ;; mret (Ok tt)
  else
    yield ;; st ← gets state;
    (if bool_decide (st = Paused) then mret tt else yield ;; modify (set_state Running)) ;;
    t ← now; modify (mark_started t) ;;
    match direction job with
    | Push =>
        meta ← peek_local (l_metadata (source job));
        match io_err "" meta with
        | Err e => finish (display e) Failed ;; mret (Err e)
        | Ok len => run_transfer fuel job len
        end
    | Pull => total ← pull_total job; run_transfer fuel job total
    end.

End worker.
