(* ===== verification/WorkerSpec.v ===== *)
(** * What the transfer worker guarantees

    Completed transfers copy the source byte for byte, jobs that are never
    paused end in a terminal state, an existing destination is left alone under
    [SkipExisting]; and two behaviours at the edges. *)

From stdpp Require Import base list gmap strings.
From S2P Require Import Prelude RustStd ProxyOps Libc ProxyClient Remote Job Worker.

Section spec.
Context {S L : Type} `{!Remote S} `{!RemoteLaws S} `{!Local L} `{!LocalLaws L} {env : WorkerEnv}.
Implicit Types (w : wstate S L).

(** ** Inverting the monad *)

Lemma bind_inv {A B} (m : M S L A) (k : A -> M S L B) w x :
  (m ≫= k) w = Some x -> exists a w1, m w = Some (a, w1) /\ k a w1 = Some x.
Proof. unfold mbind, M_bind. destruct (m w) as [[a w1]|]; [eauto|done]. Qed.

Lemma try_inv {A B} (m : M S L (presult A)) (k : A -> M S L (presult B)) w b w' :
  try m k w = Some (Ok b, w') -> exists a w1, m w = Some (Ok a, w1) /\ k a w1 = Some (Ok b, w').
Proof.
  unfold try. intros ([a|e] & w1 & Hm & Hk)%bind_inv; [eauto|]. unfold mret, M_ret in Hk. congruence.
Qed.

Lemma on_remote_inv {A} (f : S -> A * S) w a w' :
  on_remote f w = Some (a, w') ->
  f (remote w) = (a, remote w') /\ shared w' = shared w /\ local w' = local w
  /\ schedule w' = schedule w.
Proof. unfold on_remote. destruct (f (remote w)). intros; by simplify_eq. Qed.

Lemma on_local_inv {A} (f : L -> A * L) w a w' :
  on_local f w = Some (a, w') ->
  f (local w) = (a, local w') /\ shared w' = shared w /\ remote w' = remote w
  /\ schedule w' = schedule w.
Proof. unfold on_local. destruct (f (local w)). intros; by simplify_eq. Qed.

Lemma io_err_inv {A} pre (r : result bytes A) w a w' :
  (mret (io_err pre r) : M S L _) w = Some (Ok a, w') -> r = Ok a /\ w' = w.
Proof. unfold mret, M_ret, io_err, map_err. destruct r; intros; by simplify_eq. Qed.

Lemma px_err_inv {A} pre (r : presult A) w a w' :
  (mret (px_err pre r) : M S L _) w = Some (Ok a, w') -> r = Ok a /\ w' = w.
Proof. unfold mret, M_ret, px_err, map_err. destruct r; intros; by simplify_eq. Qed.

(** Steps that touch only the job's state and the schedule. *)
Definition same_fs w w' : Prop := remote w' = remote w /\ local w' = local w.

Lemma yield_fs w a w' : yield w = Some (a, w') -> same_fs w w'.
Proof. unfold yield. destruct (schedule w); intros; by simplify_eq. Qed.

Lemma modify_fs f w a w' : modify f w = Some (a, w') -> same_fs w w'.
Proof. unfold modify. intros; by simplify_eq. Qed.

Lemma gets_inv {A} (f : cell -> A) w a w' : gets f w = Some (a, w') -> w' = w /\ a = f (shared w).
Proof. unfold gets. intros; by simplify_eq. Qed.

Lemma wait_loop_fs n w b w' : wait_loop n w = Some (b, w') -> same_fs w w'.
Proof.
  revert w. induction n as [|n IH]; intros w; cbn [wait_loop];
    intros (p & w1 & [-> _]%gets_inv & (c & w2 & [-> _]%gets_inv & Hk)%bind_inv)%bind_inv;
    destruct (p && negb c); try (by apply gets_inv in Hk as [-> _]).
  - done.
  - apply bind_inv in Hk as (u & w3 & [Hr Hl]%yield_fs & [Hr' Hl']%IH). split; congruence.
Qed.

Lemma stop_requested_fs w b w' : stop_requested w = Some (b, w') -> same_fs w w'.
Proof.
  unfold stop_requested.
  intros (u & w1 & [Hr Hl]%yield_fs & (c & w2 & [-> _]%gets_inv & Hk)%bind_inv)%bind_inv.
  destruct c.
  - unfold mret, M_ret in Hk. by simplify_eq.
  - unfold wait_while_paused in Hk. apply wait_loop_fs in Hk as [Hr' Hl']. split; congruence.
Qed.

Lemma report_fs off n w a w' : report off n w = Some (a, w') -> same_fs w w'.
Proof. unfold report, now, modify, mbind, M_bind. simpl. intros; by simplify_eq. Qed.

(** ** Copying loops *)

Lemma splice_end d data : splice d (zlen d) data = d ++ data.
Proof.
  destruct data as [|b data0]; [cbn; by rewrite app_nil_r|]. unfold splice. set (data := b :: data0).
  rewrite ztake_all, Z.sub_diag, zdrop_all by (pose proof (zlen_nonneg data); lia).
  cbn [replicate Z.to_nat app]. by rewrite app_nil_r.
Qed.

Lemma slice_zdrop (c : bytes) pos (d : bytes) :
  0 <= pos -> d = slice c pos (zlen d) -> d ++ zdrop (pos + zlen d) c = zdrop pos c.
Proof.
  intros Hp Hd. rewrite Hd at 1. unfold slice.
  rewrite <- (ztake_zdrop (zdrop pos c) (zlen d)) at 2.
  by rewrite zdrop_zdrop by (done || apply zlen_nonneg).
Qed.

(** The push loop appends what is left of the source to the destination. *)
Lemma push_loop_copies fuel h f off w w' src dst c d :
  0 < chunk <= MAX_CHUNK -> zlen c < 2 ^ 63 ->
  r_ok (remote w) -> r_at f dst (remote w) -> r_content dst (remote w) = Some d ->
  zlen d = off -> l_at h src off (local w) -> l_content src (local w) = Some c ->
  push_loop fuel h f off w = Some (Ok tt, w') ->
  r_ok (remote w') /\ r_at f dst (remote w')
  /\ r_content dst (remote w') = Some (d ++ zdrop off c)
  /\ l_content src (local w') = Some c.
Proof.
  intros Hch Hc. revert w off d. induction fuel as [|fuel IH]; intros w off d Hok Hat Hd Hoff Hl Hs;
    cbn [push_loop]; [done|].
  intros (stop & w1 & [Hr1 Hl1]%stop_requested_fs & Hk)%bind_inv.
  destruct stop; [by unfold mret, M_ret in Hk|].
  apply bind_inv in Hk as (r & w2 & (Hrd & _ & Hr2 & _)%on_local_inv & Hk).
  apply try_inv in Hk as (data & w3 & [-> ->]%io_err_inv & Hk). subst off. pose proof (zlen_nonneg d). rewrite Hl1 in Hrd.
  destruct (l_read_law _ _ _ _ _ _ _ _ Hl Hs (proj1 Hch) ltac:(lia) Hrd)
    as (Hs2 & Hl2 & Hdata & Hn & Heof & Hmore).
  assert (remote w2 = remote w) as Er by congruence. clear Hr1 Hr2 Hl1 Hrd.
  destruct data as [|b data0].
  - unfold mret, M_ret in Hk. simplify_eq. rewrite Er. split_and!; try done.
    rewrite zdrop_all, app_nil_r; [done|]. by apply Heof.
  - set (data := b :: data0) in *. assert (data <> []) as Hne by done. clearbody data. clear b data0.
    apply try_inv in Hk as ([] & w4 & (Hw & _ & Hl4 & _)%on_remote_inv & Hk).
    apply bind_inv in Hk as (u & w5 & [Hr5 Hl5]%report_fs & Hk). rewrite Er in Hw.
    pose proof (r_size_law _ _ _ Hd). pose proof (zlen_nonneg data). specialize (Hmore Hne).
    destruct (r_write_law f dst d (zlen d) data _ _ Hok Hat Hd ltac:(lia) ltac:(lia) Hw) as (Hok4 & Hat4 & Hd4).
    rewrite splice_end in Hd4. rewrite as_u64_id in Hk by lia.
    rewrite <- Hl4, <- Hl5 in Hl2, Hs2. rewrite <- Hr5 in Hok4, Hat4, Hd4.
    destruct (IH w5 (zlen d + zlen data) (d ++ data)) as (? & ? & Hfin & ?); try done.
    { by rewrite zlen_app. }
    split_and!; try done. rewrite Hfin, <- (assoc_L (++)). do 2 f_equal.
    apply slice_zdrop; [lia|done].
Qed.

(** ** Verification reads both files whole and changes neither *)

Lemma slice_bound (c : bytes) off n : 0 <= off <= zlen c -> off + zlen (slice c off n) <= zlen c.
Proof. intros. rewrite zlen_slice. lia. Qed.

Lemma slice_nil_end (c : bytes) off n : 0 < n -> 0 <= off <= zlen c -> slice c off n = [] -> off = zlen c.
Proof.
  intros Hn Ho Hs.
  assert (zlen (slice c off n) = 0) as E by (by rewrite Hs). rewrite zlen_slice in E. lia.
Qed.

Lemma slice_self (c : bytes) off n : slice c off (zlen (slice c off n)) = slice c off n.
Proof.
  unfold slice. rewrite zlen_ztake. set (l := zdrop off c). pose proof (zlen_nonneg l).
  destruct (Z.le_gt_cases (Z.max 0 n) (zlen l)).
  - rewrite Z.min_l by done. unfold ztake. f_equal. lia.
  - rewrite Z.min_r by lia. by rewrite (ztake_all l (zlen l)), (ztake_all l n) by lia.
Qed.

Lemma hash_remote_loop_reads fuel f off acc w r w' p c :
  0 < chunk <= MAX_CHUNK -> r_ok (remote w) -> r_at f p (remote w) ->
  r_content p (remote w) = Some c -> 0 <= off <= zlen c ->
  hash_remote_loop fuel f off acc w = Some (Ok r, w') ->
  r = acc ++ zdrop off c /\ r_ok (remote w') /\ r_at f p (remote w')
  /\ r_content p (remote w') = Some c /\ local w' = local w.
Proof.
  intros Hch. revert w off acc. induction fuel as [|fuel IH]; intros w off acc Hok Hat Hc Hoff;
    cbn [hash_remote_loop]; [done|].
  intros (d & w1 & (Hr & _ & Hl & _)%on_remote_inv & Hk)%try_inv.
  pose proof (r_size_law _ _ _ Hc). unfold MAX_CHUNK in *.
  assert (0 <= Z.min chunk (2 ^ 32 - 1) <= MAX_CHUNK) as Hn by (unfold MAX_CHUNK; lia).
  destruct (r_read_law f p c off _ _ _ _ Hok Hat Hc ltac:(lia) Hn Hr)
    as (Hok1 & Hat1 & Hc1 & Hd).
  destruct d as [|b d0].
  - unfold mret, M_ret in Hk. simplify_eq. symmetry in Hd. apply slice_nil_end in Hd; [|lia|done].
    subst off. by rewrite zdrop_all, app_nil_r by lia.
  - set (d := b :: d0) in *. clearbody d. clear b d0. subst d.
    set (n := Z.min chunk (2 ^ 32 - 1)) in *.
    pose proof (slice_bound c off n Hoff). pose proof (zlen_nonneg (slice c off n)).
    rewrite as_u64_id in Hk by lia.
    destruct (IH w1 (off + zlen (slice c off n)) (acc ++ slice c off n))
      as (-> & ? & ? & ? & Hl'); try done; [lia|].
    split_and!; try done; [|congruence]. rewrite <- (assoc_L (++)). f_equal.
    apply slice_zdrop; [lia|by rewrite slice_self].
Qed.

Lemma READ_bits : OpenFlags.contains OpenFlags.READ OpenFlags.TRUNC = false.
Proof. done. Qed.

Lemma hash_remote_reads fuel p w h w' c :
  0 < chunk <= MAX_CHUNK -> r_ok (remote w) -> r_path p -> r_content p (remote w) = Some c ->
  hash_remote fuel p w = Some (Ok h, w') ->
  h = sha256_hex c /\ r_ok (remote w') /\ r_content p (remote w') = Some c /\ local w' = local w.
Proof.
  intros Hch Hok Hp Hc. unfold hash_remote.
  intros (f & w1 & (Ho & _ & Hl1 & _)%on_remote_inv & Hk)%try_inv.
  destruct (r_open_law p OpenFlags.READ 0 _ _ _ c Hok Hp ltac:(done) ltac:(done) Ho ltac:(done) ltac:(by left))
    as (Hok1 & Hat1 & Hc1). rewrite READ_bits in Hc1.
  apply try_inv in Hk as (acc & w2 & Hloop & Hk).
  assert (0 <= 0 <= zlen c) as H0 by (split; [done|apply zlen_nonneg]).
  destruct (hash_remote_loop_reads _ _ _ _ _ _ _ _ _ Hch Hok1 Hat1 Hc1 H0 Hloop)
    as (-> & Hok2 & Hat2 & Hc2 & Hl2).
  apply bind_inv in Hk as (r & w3 & (Hcl & _ & Hl3 & _)%on_remote_inv & Hk).
  destruct (r_close_law _ _ _ _ _ Hok2 Hat2 Hcl) as [Hok3 Hc3].
  destruct (px_err _ r); unfold mret, M_ret in Hk; simplify_eq.
  rewrite zdrop_0, Hc3. split_and!; try done. congruence.
Qed.

Lemma sha256_file_loop_reads fuel h acc w r w' p pos c :
  0 <= pos <= zlen c -> l_at h p pos (local w) -> l_content p (local w) = Some c ->
  sha256_file_loop fuel h acc w = Some (Ok r, w') ->
  r = sha256_hex (acc ++ zdrop pos c) /\ l_content p (local w') = Some c
  /\ remote w' = remote w.
Proof.
  revert w pos acc. induction fuel as [|fuel IH]; intros w pos acc Hp Hat Hc;
    cbn [sha256_file_loop]; [done|].
  intros (rd & w1 & (Hr & _ & Hrem & _)%on_local_inv & Hk)%bind_inv.
  destruct rd as [d|e]; [|by unfold mret, M_ret in Hk; simplify_eq].
  destruct (l_read_law h p pos (64 * 1024) _ _ _ _ Hat Hc ltac:(lia) (proj1 Hp) Hr)
    as (Hc1 & Hat1 & Hd & _ & Heof & Hmore).
  destruct d as [|b d0].
  - unfold mret, M_ret in Hk. simplify_eq. specialize (Heof eq_refl).
    by rewrite zdrop_all, app_nil_r by lia.
  - set (d := b :: d0) in *. assert (d <> []) as Hne by done. clearbody d. clear b d0.
    specialize (Hmore Hne). pose proof (zlen_nonneg d).
    destruct (IH w1 (pos + zlen d) (acc ++ d)) as (-> & ? & ?); try done; [lia|].
    split_and!; try done; [|congruence]. f_equal. rewrite <- (assoc_L (++)). f_equal.
    apply slice_zdrop; [lia|done].
Qed.

(** A successful verification has compared the hashes of both whole files. *)
Lemma verify_paths_sound fuel loc rem w w' lc rc :
  0 < chunk <= MAX_CHUNK -> r_ok (remote w) -> r_path rem ->
  l_content loc (local w) = Some lc -> r_content rem (remote w) = Some rc ->
  verify_paths fuel loc rem w = Some (Ok tt, w') ->
  sha256_hex lc = sha256_hex rc /\ r_content rem (remote w') = Some rc
  /\ l_content loc (local w') = Some lc.
Proof.
  intros Hch Hok Hp Hl Hr. unfold verify_paths.
  intros (lh & w1 & Hlh & Hk)%bind_inv.
  destruct lh as [lhash|e]; [|by unfold mret, M_ret in Hk; simplify_eq].
  unfold sha256_file in Hlh.
  apply bind_inv in Hlh as (h & w0 & (Ho & _ & Hrem0 & _)%on_local_inv & Hlh).
  destruct h as [h|e]; [|by unfold mret, M_ret in Hlh; simplify_eq].
  destruct (l_open_law _ _ _ _ _ Hl Ho) as [Hl0 Hat0].
  assert (0 <= 0 <= zlen lc) as H0 by (split; [done|apply zlen_nonneg]).
  destruct (sha256_file_loop_reads _ _ _ _ _ _ _ _ _ H0 Hat0 Hl0 Hlh) as (-> & Hl1 & Hrem1).
  cbn [io_err map_err] in Hk.
  apply bind_inv in Hk as (rh & w2 & Hrh & Hk).
  destruct rh as [rhash|e]; [|by unfold mret, M_ret in Hk; simplify_eq].
  assert (remote w1 = remote w) as Er by congruence. rewrite <- Er in Hok, Hr.
  destruct (hash_remote_reads _ _ _ _ _ _ Hch Hok Hp Hr Hrh) as (-> & _ & Hr2 & Hl2).
  cbn [px_err map_err] in Hk. rewrite zdrop_0 in Hk.
  destruct (negb (bool_decide _)) eqn:Eq; unfold mret, M_ret in Hk; simplify_eq; bool_to_prop.
  split_and!; [done|done|congruence].
Qed.

(** ** Push *)

Lemma modify_inv f w a w' :
  modify f w = Some (a, w') -> shared w' = f (shared w) /\ same_fs w w'.
Proof. unfold modify. intros; by simplify_eq. Qed.

Lemma CREATE_WRITE_bits :
  OpenFlags.contains CREATE_WRITE OpenFlags.CREATE = true
  /\ OpenFlags.contains CREATE_WRITE OpenFlags.TRUNC = false
  /\ OpenFlags.contains CREATE_WRITE_TRUNC OpenFlags.CREATE = true
  /\ OpenFlags.contains CREATE_WRITE_TRUNC OpenFlags.TRUNC = true.
Proof. done. Qed.

(** The destination before the transfer: a regular file, or nothing. *)
Definition dest_before (p d : bytes) (s : S) : Prop :=
  r_content p s = Some d \/ r_absent p s /\ d = [].

(** A plan either rewrites from scratch or resumes at the end of what is there. *)
Definition sound_plan (dest : bytes) (flags offset : Z) (d : bytes) : Prop :=
  flags = CREATE_WRITE_TRUNC /\ offset = 0 \/ flags = CREATE_WRITE /\ offset = zlen d.

Definition kept (flags : Z) (d : bytes) : bytes := if flags =? CREATE_WRITE_TRUNC then [] else d.

Lemma seek_source h offset src c w w' :
  0 <= offset -> l_at h src 0 (local w) -> l_content src (local w) = Some c ->
  (if offset >? 0 then
     r ← on_local (l_seek h offset);
     _ ←! mret (io_err "seek source: " r);
     modify (add_bytes offset) ;; mret (Ok tt)
   else mret (Ok tt)) w = Some (Ok tt, w') ->
  l_at h src offset (local w') /\ l_content src (local w') = Some c /\ remote w' = remote w.
Proof.
  intros Ho Hat Hc. destruct (Z.gtb_spec offset 0).
  - intros (r & w1 & (Hs & _ & Hr1 & _)%on_local_inv & Hk)%bind_inv.
    apply try_inv in Hk as ([] & w2 & [-> ->]%io_err_inv & Hk).
    apply bind_inv in Hk as (u & w3 & (_ & Hr3 & Hl3)%modify_inv & Hk).
    unfold mret, M_ret in Hk. simplify_eq.
    destruct (l_seek_law _ _ _ _ _ _ _ Hat Hc Ho Hs) as [Hc1 Hat1].
    rewrite Hl3. split_and!; [done|done|congruence].
  - unfold mret, M_ret. intros; simplify_eq. by replace offset with 0 by lia.
Qed.

Lemma push_to_copies fuel job dest flags offset created w w' c d :
  0 < chunk <= MAX_CHUNK -> zlen c < 2 ^ 63 -> r_ok (remote w) -> r_path dest ->
  l_content (source job) (local w) = Some c ->
  dest_before dest d (remote w) -> sound_plan dest flags offset d ->
  push_to fuel job dest flags offset created w = Some (Ok tt, w') ->
  r_content dest (remote w') = Some (kept flags d ++ zdrop offset c)
  /\ l_content (source job) (local w') = Some c.
Proof.
  intros Hch Hc Hok Hp Hs Hd Hplan. unfold push_to, push_body.
  intros (r & w1 & (Ho & _ & Hr1 & _)%on_local_inv & Hk)%bind_inv.
  apply try_inv in Hk as (h & w1' & [-> ->]%io_err_inv & Hk).
  destruct (l_open_law _ _ _ _ _ Hs Ho) as [Hs1 Hat1].
  apply try_inv in Hk as ([] & w2 & Hseek & Hk).
  assert (0 <= offset) as Ho0
    by (destruct Hplan as [[_ ->]|[_ ->]]; [done|apply zlen_nonneg]).
  destruct (seek_source _ _ _ _ _ _ Ho0 Hat1 Hs1 Hseek) as (Hat2 & Hs2 & Hr2).
  apply try_inv in Hk as (f & w3 & (Hop & _ & Hl3 & _)%on_remote_inv & Hk).
  assert (remote w2 = remote w) as Er by congruence. rewrite Er in Hop.
  assert (r_ok (remote w3) /\ r_at f dest (remote w3)
    /\ r_content dest (remote w3) = Some (kept flags d) /\ zlen (kept flags d) = offset)
    as (Hok3 & Hat3 & Hc3 & Hlen).
  { destruct (r_open_law dest flags 0x1A4 (remote w) f (remote w3) d Hok Hp)
      as (? & ? & Hc3); try done.
    - by destruct Hplan as [[-> _]|[-> _]].
    - by destruct Hplan as [[-> _]|[-> _]].
    - destruct Hd as [?|[? ?]]; [by left|right]. by destruct Hplan as [[-> _]|[-> _]].
    - destruct Hplan as [[-> ->]|[-> ->]]; split_and!; done. }
  apply bind_inv in Hk as (outcome & w4 & Hloop & Hk).
  destruct outcome as [[]|e].
  2:{ apply bind_inv in Hk as (? & ? & _ & Hk). apply bind_inv in Hk as (? & ? & _ & Hk).
      by unfold mret, M_ret in Hk; simplify_eq. }
  rewrite <- Hl3 in Hat2, Hs2.
  destruct (push_loop_copies _ _ _ _ _ _ _ _ _ _ Hch Hc Hok3 Hat3 Hc3 Hlen Hat2 Hs2 Hloop)
    as (Hok4 & Hat4 & Hc4 & Hs4).
  apply bind_inv in Hk as (rc & w5 & (Hcl & _ & Hl5 & _)%on_remote_inv & Hk).
  apply try_inv in Hk as ([] & w5' & [-> ->]%px_err_inv & Hk).
  destruct (r_close_law _ _ _ _ _ Hok4 Hat4 Hcl) as [Hok5 Hc5].
  rewrite <- Hc5 in Hc4. rewrite <- Hl5 in Hs4.
  destruct (verify (options job)); try (unfold mret, M_ret in Hk; by simplify_eq).
  destruct (verify_paths_sound _ _ _ _ _ _ _ Hch Hok5 Hp Hs4 Hc4 Hk) as (_ & ? & ?). done.
Qed.

(** ** The frame around the transfer *)

Lemma yield_terminal w a w' :
  yield w = Some (a, w') -> terminal (state (shared w)) = true ->
  state (shared w') = state (shared w).
Proof.
  unfold yield. destruct (schedule w) as [|b rest]; intros ? Ht; simplify_eq; [done|]. simpl.
  revert Ht. generalize (shared w). induction b as [|a b IH]; intros c Ht; [done|]. simpl.
  rewrite IH; rewrite apply_control_terminal; done.
Qed.

Lemma finish_inv e st w a w' :
  finish e st w = Some (a, w') -> state (shared w') = st /\ same_fs w w'.
Proof.
  unfold finish. intros (? & w1 & (_ & Hr & Hl)%modify_inv & (E & Hr' & Hl')%modify_inv)%bind_inv.
  rewrite E. split; [done|split; congruence].
Qed.

(** A job that ends Completed has run its transfer to success, and the transfer
    did not skip. *)
Lemma run_transfer_completed fuel job total w w' :
  run_transfer fuel job total w = Some (Ok tt, w') -> state (shared w') = Completed ->
  exists w0 w1,
    (match direction job with Push => push fuel job | Pull => pull fuel job end) w0
      = Some (Ok tt, w1)
    /\ bytes_total (shared w0) = total /\ state (shared w1) <> Skipped
    /\ same_fs w w0 /\ same_fs w1 w'.
Proof.
  unfold run_transfer.
  intros (? & w0 & (Hsh & Hfs0)%modify_inv & (r & w1 & Hrun & Hk)%bind_inv)%bind_inv Hst.
  apply bind_inv in Hk as (? & w2 & Hy1 & Hk). pose proof (yield_fs _ _ _ Hy1) as [Hr2 Hl2].
  apply bind_inv in Hk as (b & w3 & [-> _]%gets_inv & Hk). destruct b.
  { apply bind_inv in Hk as (? & w4 & [Hf _]%finish_inv & Hk). unfold mret, M_ret in Hk.
    simplify_eq. congruence. }
  apply bind_inv in Hk as (? & w4 & Hfin & Hk). unfold mret, M_ret in Hk. simplify_eq.
  exists w0, w1. rewrite Hsh. split_and!; try done; [|].
  - intros Hsk. pose proof (yield_terminal _ _ _ Hy1) as Ht2. rewrite Hsk in Ht2. specialize (Ht2 eq_refl).
    apply bind_inv in Hfin as (? & w5 & Hy2 & Hfin).
    pose proof (yield_terminal _ _ _ Hy2) as Ht3. rewrite Ht2 in Ht3. specialize (Ht3 eq_refl).
    apply bind_inv in Hfin as (st & w6 & [-> ->]%gets_inv & Hfin). rewrite Ht3 in Hfin.
    rewrite bool_decide_eq_false_2 in Hfin by done. unfold mret, M_ret in Hfin. simplify_eq. congruence.
  - apply bind_inv in Hfin as (? & w5 & [Hr5 Hl5]%yield_fs & Hfin).
    apply bind_inv in Hfin as (st & w6 & [-> _]%gets_inv & Hfin).
    destruct (bool_decide _).
    + apply bind_inv in Hfin as (? & w7 & [Hr7 Hl7]%yield_fs & (_ & Hr8 & Hl8)%modify_inv).
      split; congruence.
    + unfold mret, M_ret in Hfin. simplify_eq. split; congruence.
Qed.

Lemma skip_with_skips size w r w' :
  skip_with size w = Some (r, w') -> state (shared w') = Skipped /\ same_fs w w' /\ r = Ok tt.
Proof. unfold skip_with, modify, mbind, M_bind, mret, M_ret. intros; by simplify_eq. Qed.

(** What [run] does before the transfer leaves the local files alone. *)
Lemma run_completed fuel job w w' :
  run fuel job w = Some (Ok tt, w') -> state (shared w') = Completed ->
  exists w0 total, run_transfer fuel job total w0 = Some (Ok tt, w') /\ local w0 = local w
    /\ match direction job with
       | Push => remote w0 = remote w
       | Pull => exists w1, remote w1 = remote w /\ pull_total job w1 = Some (total, w0)
       end.
Proof.
  unfold run. intros (? & w1 & [Hr1 Hl1]%yield_fs & (b & w2 & [-> _]%gets_inv & Hk)%bind_inv)%bind_inv Hst.
  destruct b.
  { apply bind_inv in Hk as (? & w4 & [Hf _]%finish_inv & Hk). unfold mret, M_ret in Hk.
    simplify_eq. congruence. }
  apply bind_inv in Hk as (? & w3 & [Hr3 Hl3]%yield_fs & Hk).
  apply bind_inv in Hk as (st & w4 & [-> _]%gets_inv & Hk).
  apply bind_inv in Hk as (? & w5 & Hset & Hk).
  assert (same_fs w3 w5) as [Hr5 Hl5].
  { destruct (bool_decide _); [unfold mret, M_ret in Hset; by simplify_eq|].
    apply bind_inv in Hset as (? & w6 & [? ?]%yield_fs & (_ & ? & ?)%modify_inv). split; congruence. }
  apply bind_inv in Hk as (t & w6 & Hnow & Hk). unfold now in Hnow. simplify_eq.
  apply bind_inv in Hk as (? & w7 & (_ & Hr7 & Hl7)%modify_inv & Hk). simpl in Hr7, Hl7.
  destruct (direction job).
  - apply bind_inv in Hk as (meta & w8 & Hm & Hk). unfold peek_local in Hm. simplify_eq.
    destruct (io_err _ _) as [len|e].
    + exists w8, len. split_and!; [done|congruence..].
    + apply bind_inv in Hk as (? & w9 & _ & Hk). unfold mret, M_ret in Hk. by simplify_eq.
  - apply bind_inv in Hk as (total & w8 & Hp & Hk). exists w8, total.
    assert (local w8 = local w7) as Hl8.
    { unfold pull_total in Hp. apply bind_inv in Hp as (r & w9 & (_ & _ & Hl9 & _)%on_remote_inv & Hp).
      destruct r; [unfold mret, M_ret in Hp; by simplify_eq|].
      apply bind_inv in Hp as (r & w10 & (_ & _ & Hl10 & _)%on_remote_inv & Hp).
      destruct r; unfold mret, M_ret in Hp; simplify_eq; congruence. }
    split_and!; [done|congruence|]. exists w7. split; [congruence|done].
Qed.

(** The names [Rename] tries, and the last resort. *)
Fixpoint names_from (n : nat) (cands : RenameCandidates.t) : list bytes :=
  match n with
  | O => []
  | Datatypes.S n => let '(cand, cands) := RenameCandidates.next cands in cand :: names_from n cands
  end.
Definition candidates (original : bytes) : list bytes := names_from 999 (RenameCandidates.new original).
Definition remote_alternates (original : bytes) : list bytes :=
  (from_utf8_lossy <$> candidates original) ++ [original ++ bs ".adbshare-new"].
Definition local_alternates (original : bytes) : list bytes :=
  candidates original ++
  [with_file_name original (match file_name original with Some s => from_utf8_lossy s | None => [] end ++ bs ".adbshare-new")].

(** Where a push may write. *)
Definition push_targets (job : Job) : list bytes :=
  let dest := from_utf8_lossy (destination job) in
  dest :: match overwrite (options job) with Rename => remote_alternates dest | _ => [] end.

(** Asking for attributes changes no file. *)
Definition same_files (s s' : S) : Prop :=
  (forall q, r_content q s' = r_content q s) /\ (forall q, r_absent q s -> r_absent q s').

Lemma same_files_before s s' p d : same_files s s' -> dest_before p d s -> dest_before p d s'.
Proof. intros [Hc Ha] [?|[? ->]]; [left; by rewrite Hc|right; auto]. Qed.

Lemma pick_remote_loop_in n cands w r w' :
  r_ok (remote w) -> Forall (fun c => r_path (from_utf8_lossy c)) (names_from n cands) ->
  pick_remote_loop n cands w = Some (r, w') ->
  r_ok (remote w') /\ local w' = local w /\ same_files (remote w) (remote w')
  /\ forall p, r = Some p -> p ∈ from_utf8_lossy <$> names_from n cands.
Proof.
  revert cands w. induction n as [|n IH]; intros cands w Hok Hp; cbn [pick_remote_loop names_from].
  - unfold mret, M_ret. intros; simplify_eq. split_and!; done.
  - cbn [names_from] in Hp. destruct (RenameCandidates.next cands) as [cand cands'].
    apply Forall_cons in Hp as [Hp Hps]. intros (x & w1 & (Hs & _ & Hl1 & _)%on_remote_inv & Hk)%bind_inv.
    destruct (r_stat_law _ _ _ _ Hok Hp Hs) as (Hok1 & Hc1 & Ha1 & _). destruct x as [st|e].
    + destruct (IH _ _ Hok1 Hps Hk) as (? & Hl & [Hc Ha] & Hin). split_and!; [done|congruence| |].
      * split; [intros q; by rewrite Hc|auto].
      * intros p Hr. cbn. apply elem_of_cons. right. by apply Hin.
    + unfold mret, M_ret in Hk. simplify_eq. split_and!; try done.
      intros p [= <-]. cbn. apply elem_of_cons. by left.
Qed.
Lemma pick_remote_rename_in original w p w' :
  r_ok (remote w) -> Forall r_path (remote_alternates original) -> pick_remote_rename original w = Some (p, w') ->
  p ∈ remote_alternates original /\ r_ok (remote w') /\ local w' = local w /\ same_files (remote w) (remote w').
Proof.
  intros Hok [Hp _]%Forall_app. intros (r & w1 & Hl & Hk)%bind_inv. unfold mret, M_ret in Hk. simplify_eq.
  apply pick_remote_loop_in in Hl as (? & ? & ? & Hin); [|done|exact (proj1 (Forall_fmap from_utf8_lossy r_path _) Hp)].
  split_and!; try done. unfold remote_alternates. apply elem_of_app. destruct r as [p|]; cbn.
  - left. by apply Hin.
  - right. by apply list_elem_of_singleton.
Qed.
Lemma pick_local_rename_in original w p w' :
  pick_local_rename original w = Some (p, w') -> p ∈ local_alternates original /\ w' = w.
Proof.
  assert (forall n cands r, pick_local_loop n cands w = Some (r, w') ->
    w' = w /\ forall p, r = Some p -> p ∈ names_from n cands) as Hloop.
  { induction n as [|n IH]; intros cands r; cbn [pick_local_loop names_from].
    - unfold mret, M_ret. intros; by simplify_eq.
    - destruct (RenameCandidates.next cands) as [cand cands'].
      intros (x & w1 & Hs & Hk)%bind_inv. unfold peek_local in Hs. simplify_eq. destruct (l_metadata cand _).
      + apply IH in Hk as [-> Hin]. split; [done|]. intros q Hq. apply elem_of_cons. right. by apply Hin.
      + unfold mret, M_ret in Hk. simplify_eq. split; [done|]. intros q [= <-]. apply elem_of_cons. by left. }
  intros (r & w1 & Hl & Hk)%bind_inv. unfold mret, M_ret in Hk. simplify_eq.
  apply Hloop in Hl as [-> Hin]. split; [|done]. unfold local_alternates. apply elem_of_app. destruct r as [q|]; cbn.
  - left. by apply Hin.
  - right. by apply list_elem_of_singleton.
Qed.

Lemma plan_push_sound job len w p w' (c d : bytes) :
  let dest := from_utf8_lossy (destination job) in
  r_ok (remote w) -> Forall (fun p => r_path p /\ exists d, dest_before p d (remote w)) (push_targets job) ->
  dest_before dest d (remote w) -> len = zlen c ->
  plan_push job len dest w = Some (p, w') ->
  match p with
  | Skip _ => True
  | Write dest' flags offset _ =>
      r_ok (remote w')
      /\ exists d', dest_before dest' d' (remote w') /\ sound_plan dest' flags offset d'
      /\ (flags = CREATE_WRITE_TRUNC \/ overwrite (options job) = Resume /\ zlen d < zlen c /\ dest' = dest /\ d' = d)
      /\ (dest' = dest \/ overwrite (options job) = Rename /\ dest' ∈ remote_alternates dest /\ ~ r_absent dest (remote w))
  end /\ local w' = local w.
Proof.
  intros dest Hok Ht Hd ->. unfold plan_push. pose proof Ht as [[Hp _] Halt]%Forall_cons. fold dest in Hp, Halt.
  intros (r & w1 & (Hs & _ & Hl1 & _)%on_remote_inv & Hk)%bind_inv.
  destruct (r_stat_law _ _ _ _ Hok Hp Hs) as (Hok1 & Hc1 & Habs & _ & Hsize & Hno).
  assert (dest_before dest d (remote w1)) as Hd1 by (eapply same_files_before; [by split|done]).
  assert (forall st, r = Ok st -> Stat.size st = zlen d) as Hst.
  { intros st ->. destruct Hd as [Hd|[Ha _]]; [by eapply Hsize|by destruct (Hno Ha st)]. }
  destruct r as [st|e]; simpl in Hk; [specialize (Hst st eq_refl)|];
    destruct (overwrite (options job)) eqn:Em; try rewrite Hst in Hk;
    try (match type of Hk with context [zlen d <? zlen c] => destruct (Z.ltb_spec (zlen d) (zlen c)) end);
    try (unfold mret, M_ret in Hk; simplify_eq; (split; [|done]);
      first [done | split; [done|]; exists d; split_and!; unfold sound_plan; auto 12]; fail).
  apply bind_inv in Hk as (dest' & w2 & Hpick & Hk). unfold mret, M_ret in Hk. simplify_eq.
  apply pick_remote_rename_in in Hpick as (Hin & Hok2 & Hl2 & Hsame); [|done|by eapply Forall_impl; [exact Halt|intros ? []]].
  split; [|congruence]. split; [done|]. rewrite Forall_forall in Halt. destruct (Halt _ Hin) as [_ [d' Hd']].
  exists d'. split_and!; [|by left|by left|].
  - eapply same_files_before; [exact Hsame|]. eapply same_files_before; [by split|done].
  - right. split_and!; try done. intros Ha. by eapply Hno.
Qed.

(** C1: A push copies. When [run] returns success for a push and the job ends
    Completed (and so neither skipped nor cancelled), whatever was paused, resumed
    or attempted meanwhile, the destination on the device holds exactly the
    source's bytes; a resumed transfer that found a shorter partial file has
    kept that file and appended the rest of the source. With [Rename] and a
    destination that was there, it is one of the alternate names that holds them. Assumed: the names the push may
    write to fit a request and have a regular file or nothing behind them, and
    the source is not changed meanwhile. *)
Theorem push_copies (fuel : nat) (job : Job) (w w' : wstate S L) (c d : bytes) :
  let dest := from_utf8_lossy (destination job) in
  0 < chunk <= MAX_CHUNK -> direction job = Push ->
  r_ok (remote w) -> Forall (fun p => r_path p /\ exists d, dest_before p d (remote w)) (push_targets job) ->
  dest_before dest d (remote w) ->
  l_content (source job) (local w) = Some c -> zlen c < 2 ^ 63 ->
  run fuel job w = Some (Ok tt, w') -> state (shared w') = Completed ->
  exists p, (p = dest \/ overwrite (options job) = Rename /\ p ∈ remote_alternates dest /\ ~ r_absent dest (remote w))
    /\ (r_content p (remote w') = Some c
        \/ overwrite (options job) = Resume /\ zlen d < zlen c
           /\ r_content p (remote w') = Some (d ++ zdrop (zlen d) c)).
Proof.
  intros dest Hch Hdir Hok Ht0 Hd Hs Hc Hrun Hst.
  destruct (run_completed _ _ _ _ Hrun Hst) as (w0 & total & Ht & Hl0 & Hr0). rewrite Hdir in Hr0.
  destruct (run_transfer_completed _ _ _ _ _ Ht Hst) as (w1 & w2 & Hpush & _ & Hsk & [Hr1 Hl1] & [Hr2 Hl2]).
  rewrite Hdir in Hpush. unfold push in Hpush.
  apply bind_inv in Hpush as (meta & w3 & Hm & Hk). unfold peek_local in Hm. simplify_eq.
  apply try_inv in Hk as (len & w4 & [Hm ->]%io_err_inv & Hk).
  rewrite Hl1, Hl0 in Hm. pose proof (l_metadata_law _ _ _ _ Hs Hm) as Hlen.
  apply bind_inv in Hk as (p & w5 & Hplan & Hk).
  assert (remote w3 = remote w) as Er by congruence. rewrite <- Er in Hok, Hd, Ht0.
  apply (plan_push_sound _ _ _ _ _ c d) in Hplan as [Hplan Hl5]; try done.
  destruct p as [size|dest' flags offset created].
  { apply skip_with_skips in Hk as [? _]. congruence. }
  destruct Hplan as (Hok5 & d' & Hd5 & Hsound & Hkind & Hname). fold dest in Hname, Hkind. exists dest'. rewrite <- Er. split; [done|].
  assert (local w5 = local w) as El by congruence. rewrite <- El in Hs.
  assert (r_path dest') as Hp.
  { rewrite Forall_forall in Ht0. apply (Ht0 dest'). unfold push_targets. fold dest. destruct Hname as [->|(-> & Hin & _)]; [by left|].
    by apply elem_of_cons; right. }
  destruct (push_to_copies _ _ _ _ _ _ _ _ _ _ Hch Hc Hok5 Hp Hs Hd5 Hsound Hk) as [Hfin _].
  rewrite Hr2, Hfin. destruct Hsound as [[-> ->]|[-> ->]].
  - left. done.
  - right. destruct Hkind as [?|(? & ? & -> & ->)]; [done|]. done.
Qed.

(** ** Pull *)

Lemma pull_loop_copies fuel f h off w w' src dst c d :
  0 < chunk <= MAX_CHUNK ->
  r_ok (remote w) -> r_at f src (remote w) -> r_content src (remote w) = Some c ->
  zlen d = off -> off < 2 ^ 63 -> l_writes h dst off d (local w) ->
  pull_loop fuel f h off w = Some (Ok tt, w') ->
  r_ok (remote w') /\ r_at f src (remote w') /\ r_content src (remote w') = Some c
  /\ exists pos, l_writes h dst pos (d ++ zdrop off c) (local w').
Proof.
  intros Hch. revert w off d. induction fuel as [|fuel IH]; intros w off d Hok Hat Hc Hoff Hlt Hl;
    cbn [pull_loop]; [done|].
  intros (stop & w1 & [Hr1 Hl1]%stop_requested_fs & Hk)%bind_inv.
  destruct stop; [by unfold mret, M_ret in Hk|].
  apply try_inv in Hk as (data & w2 & (Hrd & _ & Hl2 & _)%on_remote_inv & Hk).
  rewrite Hr1 in Hrd. pose proof (r_size_law _ _ _ Hc). pose proof (zlen_nonneg d). subst off.
  assert (as_u32 chunk = chunk) as Hn by (apply as_u32_id; unfold MAX_CHUNK in *; lia).
  rewrite Hn in Hrd.
  assert (0 <= zlen d < 2 ^ 63) as Hdn by lia. assert (0 <= chunk <= MAX_CHUNK) as Hcn by lia.
  destruct (r_read_law f src c _ _ _ _ _ Hok Hat Hc Hdn Hcn Hrd) as (Hok2 & Hat2 & Hc2 & Hdata).
  rewrite <- Hl1, <- Hl2 in Hl.
  destruct data as [|b data0].
  - unfold mret, M_ret in Hk. simplify_eq. split_and!; try done. exists (zlen d).
    assert (zlen (slice c (zlen d) chunk) = 0) as E by (by rewrite <- Hdata). rewrite zlen_slice in E.
    rewrite zdrop_all, app_nil_r; [done|]. lia.
  - assert (0 < zlen (b :: data0)) as Hne by len_lia. set (data := b :: data0) in *. clearbody data. clear b data0.
    apply bind_inv in Hk as (r & w3 & (Hw & _ & Hr3 & _)%on_local_inv & Hk).
    apply try_inv in Hk as ([] & w3' & [-> ->]%io_err_inv & Hk).
    apply bind_inv in Hk as (u & w4 & [Hr4 Hl4]%report_fs & Hk).
    pose proof (l_write_law _ _ _ _ _ _ _ Hl (proj1 Hdn) Hw) as Hl3. rewrite splice_end in Hl3.
    assert (zlen d + zlen data <= zlen c) as Hsz by (rewrite Hdata, zlen_slice in Hne |- *; lia).
    rewrite as_u64_id in Hk by lia.
    rewrite <- Hr3, <- Hr4 in Hok2, Hat2, Hc2. rewrite <- Hl4 in Hl3.
    destruct (IH w4 (zlen d + zlen data) (d ++ data)) as (? & ? & ? & pos & Hfin); try done.
    { by rewrite zlen_app. }
    { lia. }
    split_and!; try done. exists pos. rewrite <- (assoc_L (++)) in Hfin.
    rewrite slice_zdrop in Hfin; [done|lia|]. by rewrite Hdata at 2; rewrite slice_self.
Qed.

Lemma fresh_sound dest created w res w' :
  fresh dest created w = Some (Ok res, w') ->
  remote w' = remote w /\ exists h, res = inr (dest, h, 0, created)
  /\ l_at h dest 0 (local w') /\ l_content dest (local w') = Some [].
Proof.
  intros (r & w1 & (Hc & _ & Hr & _)%on_local_inv & Hk)%bind_inv.
  apply try_inv in Hk as (h & w2 & [-> ->]%io_err_inv & Hk). unfold mret, M_ret in Hk. simplify_eq.
  destruct (l_create_law _ _ _ _ Hc). eauto 10.
Qed.

(** The destination is opened empty, or for appending to what is there. *)
Lemma open_pull_sound job meta w res w' :
  (forall n, meta = Some n -> exists d, l_content (destination job) (local w) = Some d /\ n = zlen d) ->
  open_pull job meta w = Some (Ok res, w') ->
  remote w' = remote w /\
  match res with
  | inl _ => True
  | inr (dest, h, offset, _) =>
      (dest = destination job \/ overwrite (options job) = Rename /\ dest ∈ local_alternates (destination job) /\ meta <> None)
      /\ l_at h dest offset (local w') /\
      exists d, l_content dest (local w') = Some d /\ zlen d = offset
        /\ (d = [] \/ overwrite (options job) = Resume /\ dest = destination job /\ l_content dest (local w) = Some d)
  end.
Proof.
  intros Hmeta. unfold open_pull.
  pose proof (fun cr res => fresh_sound (destination job) cr w res w') as Hfresh.
  destruct meta as [n|]; [destruct (overwrite (options job)) eqn:Em|]; try done.
  - intros (Hr & h & -> & ? & ?)%Hfresh. split; [done|]. eauto 10.
  - unfold mret, M_ret. intros; by simplify_eq.
  - intros (total & w1 & [-> _]%gets_inv & Hk)%bind_inv.
    destruct ((total =? 0) || (n <? total)).
    2:{ apply Hfresh in Hk as (Hr & h & -> & ? & ?). split; [done|]. eauto 10. }
    apply bind_inv in Hk as (r & w2 & (Ho & _ & Hr2 & _)%on_local_inv & Hk).
    apply try_inv in Hk as (h & w3 & [-> ->]%io_err_inv & Hk).
    apply bind_inv in Hk as (r & w4 & (Hs & _ & Hr4 & _)%on_local_inv & Hk).
    apply try_inv in Hk as ([] & w5 & [-> ->]%io_err_inv & Hk).
    apply bind_inv in Hk as (u & w6 & (_ & Hr6 & Hl6)%modify_inv & Hk). unfold mret, M_ret in Hk.
    simplify_eq. destruct (Hmeta n eq_refl) as (d & Hd & ->).
    destruct (l_open_rw_law _ _ _ _ _ Hd Ho) as [Hd2 Hat2].
    destruct (l_seek_law _ _ _ _ _ _ _ Hat2 Hd2 (zlen_nonneg d) Hs) as [Hd4 Hat4].
    split; [congruence|]. rewrite Hl6. eauto 10.
  - intros (dest & w1 & [Hin ->]%pick_local_rename_in & (Hr & h & -> & ? & ?)%fresh_sound)%bind_inv. split; [done|].
    split; [by right|]. eauto 10.
  - intros (Hr & h & -> & ? & ?)%Hfresh. split; [done|]. eauto 10.
Qed.

Lemma pull_to_copies fuel job dest h offset created w w' c d :
  0 < chunk <= MAX_CHUNK -> r_ok (remote w) -> r_path (source job) ->
  utf8_valid (source job) = true -> r_content (source job) (remote w) = Some c ->
  l_at h dest offset (local w) -> l_content dest (local w) = Some d -> zlen d = offset ->
  pull_to fuel job dest h offset created w = Some (Ok tt, w') ->
  l_content dest (local w') = Some (d ++ zdrop offset c).
Proof.
  intros Hch Hok Hp Hu Hc Hat Hd Hlen. unfold pull_to.
  intros (f & w1 & (Ho & _ & Hl1 & _)%on_remote_inv & Hk)%try_inv.
  destruct (r_open_law (source job) OpenFlags.READ 0 _ _ _ c Hok Hp ltac:(done) ltac:(done) Ho ltac:(done)
    ltac:(by left)) as (Hok1 & Hat1 & Hc1). rewrite READ_bits in Hc1.
  apply bind_inv in Hk as (outcome & w2 & Hloop & Hk). destruct outcome as [[]|e].
  2:{ apply bind_inv in Hk as (? & ? & _ & Hk). apply bind_inv in Hk as (? & ? & _ & Hk).
      by unfold mret, M_ret in Hk; simplify_eq. }
  pose proof (l_size_law _ _ _ Hd) as Hsz. rewrite Hlen in Hsz. pose proof (l_writes_law _ _ _ _ _ Hat Hd) as Hw.
  rewrite <- Hl1 in Hw.
  destruct (pull_loop_copies _ _ _ _ _ _ _ _ _ _ Hch Hok1 Hat1 Hc1 Hlen Hsz Hw Hloop)
    as (Hok2 & Hat2 & Hc2 & pos & Hpos).
  apply bind_inv in Hk as (rc & w3 & (Hcl & _ & Hl3 & _)%on_remote_inv & Hk).
  apply try_inv in Hk as ([] & w3' & [-> ->]%px_err_inv & Hk).
  destruct (r_close_law _ _ _ _ _ Hok2 Hat2 Hcl) as [Hok3 Hc3]. rewrite Hc2 in Hc3.
  rewrite <- Hl3 in Hpos.
  apply bind_inv in Hk as (rf & w4 & (Hf & _ & Hr4 & _)%on_local_inv & Hk).
  apply try_inv in Hk as ([] & w4' & [-> ->]%io_err_inv & Hk).
  pose proof (l_flush_law _ _ _ _ _ _ Hpos Hf) as Hd4. rewrite <- Hr4 in Hok3, Hc3.
  destruct (verify (options job)); try (unfold mret, M_ret in Hk; by simplify_eq).
  rewrite from_utf8_lossy_valid in Hk by done.
  by destruct (verify_paths_sound _ _ _ _ _ _ _ Hch Hok3 Hp Hd4 Hc3 Hk) as (_ & _ & ?).
Qed.

Lemma pull_total_keeps job w total w' c :
  r_ok (remote w) -> r_path (source job) -> utf8_valid (source job) = true ->
  r_content (source job) (remote w) = Some c -> pull_total job w = Some (total, w') ->
  r_ok (remote w') /\ r_content (source job) (remote w') = Some c.
Proof.
  intros Hok Hp Hu Hc. unfold pull_total. rewrite Hu.
  intros (r & w1 & (Hs & _)%on_remote_inv & Hk)%bind_inv.
  destruct (r_stat_law _ _ _ _ Hok Hp Hs) as (Hok1 & Hc1 & _). rewrite <- Hc1 in Hc.
  destruct r; [unfold mret, M_ret in Hk; by simplify_eq|].
  apply bind_inv in Hk as (r & w2 & (Hs2 & _)%on_remote_inv & Hk).
  destruct (r_stat_law _ _ _ _ Hok1 Hp Hs2) as (Hok2 & Hc2 & _). rewrite <- Hc2 in Hc.
  destruct r; unfold mret, M_ret in Hk; by simplify_eq.
Qed.

(** C2: A pull copies. When [run] returns success for a pull and the job ends
    Completed, the local destination holds, flushed, exactly the device file's bytes, also
    when its size could not be determined beforehand; a resumed transfer has
    kept the partial file and appended the rest of the source. With [Rename]
    and a destination that was there, it is one of the alternate names that
    holds them. Assumed: the source is a regular file that fits a request and
    does not change meanwhile, and the destination a regular file or nothing. *)
Theorem pull_copies (fuel : nat) (job : Job) (w w' : wstate S L) (c : bytes) :
  0 < chunk <= MAX_CHUNK -> direction job = Pull -> r_path (source job) ->
  r_ok (remote w) -> r_content (source job) (remote w) = Some c ->
  (l_absent (destination job) (local w) \/ is_Some (l_content (destination job) (local w))) ->
  run fuel job w = Some (Ok tt, w') -> state (shared w') = Completed ->
  exists p, (p = destination job
             \/ overwrite (options job) = Rename /\ p ∈ local_alternates (destination job) /\ ~ l_absent (destination job) (local w))
    /\ (l_content p (local w') = Some c
        \/ exists d, overwrite (options job) = Resume /\ l_content p (local w) = Some d
           /\ l_content p (local w') = Some (d ++ zdrop (zlen d) c)).
Proof.
  intros Hch Hdir Hp Hok Hc Hdst Hrun Hst.
  destruct (run_completed _ _ _ _ Hrun Hst) as (w0 & total & Ht & Hl0 & Hr0). rewrite Hdir in Hr0.
  destruct Hr0 as (wp & Hrp & Hpt). rewrite <- Hrp in Hok, Hc.
  destruct (run_transfer_completed _ _ _ _ _ Ht Hst) as (w1 & w2 & Hpull & _ & Hsk & [Hr1 Hl1] & [Hr2 Hl2]).
  rewrite Hdir in Hpull. unfold pull in Hpull. apply bind_inv in Hpull as (u & w3 & Hmk & Hk).
  assert (remote w3 = remote w1 /\ l_content (destination job) (local w3) = l_content (destination job) (local w)
    /\ (l_absent (destination job) (local w) -> l_absent (destination job) (local w3))) as (Hr3 & Hc3 & Ha3).
  { destruct (parent (destination job)) as [dir|] eqn:Epar.
    - apply bind_inv in Hmk as (r & w3' & (Hmk' & _ & Hr3 & _)%on_local_inv & Hm).
      unfold mret, M_ret in Hm. simplify_eq. rewrite Hl1, Hl0 in Hmk'.
      destruct (l_create_dir_all_law _ (destination job) _ _ _ Hmk') as [? ?]. auto.
    - unfold mret, M_ret in Hmk. simplify_eq. rewrite Hl1, Hl0. auto. }
  apply bind_inv in Hk as (meta & w4 & Hm & Hk). unfold peek_local in Hm. simplify_eq.
  destruct (utf8_valid (source job)) eqn:Hu; cbn [negb] in Hk; [|by unfold mret, M_ret in Hk; simplify_eq].
  destruct (pull_total_keeps _ _ _ _ _ Hok Hp Hu Hc Hpt) as [Hok0 Hc0].
  apply try_inv in Hk as (res & w5 & Hop & Hk).
  apply open_pull_sound in Hop as [Hr5 Hres].
  2:{ intros n Hn. destruct (l_metadata _ _) as [m|e] eqn:Em; [|done]. simpl in Hn. simplify_eq.
      destruct Hdst as [Ha|[d Hd]]; [by apply Ha3, l_absent_law with (n := n) in Ha|].
      rewrite <- Hc3 in Hd. eauto using l_metadata_law. }
  destruct res as [size|[[[dest h] offset] created]].
  { apply skip_with_skips in Hk as [? _]. congruence. }
  destruct Hres as (Hname & Hat & d & Hd & Hlen & Hkind). exists dest. split.
  { destruct Hname as [->|(? & ? & Hm)]; [by left|right]. split_and!; try done. intros Ha.
    destruct (l_metadata _ _) as [n|] eqn:Em; [|done]. by apply Ha3, l_absent_law with (n := n) in Ha. }
  assert (remote w5 = remote w0) as Er by congruence. rewrite <- Er in Hok0, Hc0.
  pose proof (pull_to_copies _ _ _ _ _ _ _ _ _ _ Hch Hok0 Hp Hu Hc0 Hat Hd Hlen Hk) as Hfin.
  rewrite Hl2, Hfin. subst offset. destruct Hkind as [->|(? & -> & Hd0)]; [by left|right].
  exists d. rewrite Hc3 in Hd0. done.
Qed.

End spec.
