(* ===== verification/WorkerEnds.v ===== *)
(** * Every push that is never paused ends

    Total correctness of the worker's control flow: with one unit of fuel more than the
    source has bytes, [run] returns, whatever the device answers, and leaves the
    job in a terminal state. A verified push reads the destination back until
    the device says it ends, so there the device has to keep the laws of [RemoteLaws]. *)

From stdpp Require Import base list gmap strings.
From S2P Require Import Prelude RustStd ProxyOps ProxyClient Remote Job Worker WorkerSpec.

Section ends.
Context {S L : Type} `{!Remote S} `{!RemoteLaws S} `{!Local L} `{!LocalLaws L} {env : WorkerEnv}.
Implicit Types (w : wstate S L).

(** ** A weakest precondition *)

Definition ends {A} (m : M S L A) (Q : A -> wstate S L -> Prop) w : Prop :=
  exists a w', m w = Some (a, w') /\ Q a w'.

Lemma ends_ret {A} (a : A) (Q : A -> wstate S L -> Prop) w : Q a w -> ends (mret a) Q w.
Proof. intros H. by exists a, w. Qed.

Lemma ends_bind {A B} (m : M S L A) (k : A -> M S L B) (Q : B -> wstate S L -> Prop) w :
  ends m (fun a => ends (k a) Q) w -> ends (m ≫= k) Q w.
Proof.
  intros (a & w1 & Hm & b & w2 & Hk & HQ). exists b, w2. split; [|done].
  unfold mbind, M_bind. by rewrite Hm.
Qed.

Lemma ends_try {A B} (m : M S L (presult A)) (k : A -> M S L (presult B))
    (Q : presult B -> wstate S L -> Prop) w :
  ends m (fun r w => match r with Ok a => ends (k a) Q w | Err e => Q (Err e) w end) w ->
  ends (try m k) Q w.
Proof.
  intros (r & w1 & Hm & Hk). apply ends_bind. exists r, w1. split; [done|].
  destruct r; [done|]. by apply ends_ret.
Qed.

Lemma ends_mono {A} (m : M S L A) (Q R : A -> wstate S L -> Prop) w :
  (forall a w, Q a w -> R a w) -> ends m Q w -> ends m R w.
Proof. intros H (a & w' & ? & ?). exists a, w'. auto. Qed.

(** What is known of the result when there is one. *)
Lemma ends_with {A} (m : M S L A) (Q P : A -> wstate S L -> Prop) w :
  ends m Q w -> (forall a w', m w = Some (a, w') -> P a w') -> ends m (fun a w' => Q a w' /\ P a w') w.
Proof. intros (a & w' & Hm & HQ) HP. exists a, w'. auto. Qed.

(** ** Calm executions: nobody pauses the job *)

Record calm (s : JobState) w : Prop := {
  calm_flag : paused (shared w) = false;
  calm_state : state (shared w) = s;
  calm_schedule : Forall (Forall (fun a => a <> DoPause)) (schedule w);
}.

Lemma calm_controls b c s :
  Forall (fun a => a <> DoPause) b -> s <> Paused -> paused c = false -> state c = s ->
  paused (apply_controls b c) = false /\ state (apply_controls b c) = s.
Proof.
  intros Hb Hs. revert c. induction Hb as [|a b Ha _ IH]; intros c Hp Hc; [done|]. simpl.
  destruct a; [done| |by apply IH]. unfold apply_control, resume.
  rewrite bool_decide_eq_false_2 by (simpl; congruence). by apply IH.
Qed.

Lemma yield_calm s w (Q : unit -> wstate S L -> Prop) :
  s <> Paused -> calm s w ->
  (forall w', calm s w' -> same_fs w w' -> Q tt w') -> ends yield Q w.
Proof.
  intros Hs [Hp Hst Hsch] HQ. unfold ends, yield.
  destruct (schedule w) as [|b rest] eqn:E; eexists _, _; (split; [done|]); apply HQ; try done.
  - split; try done. by rewrite E.
  - apply Forall_cons in Hsch as [Hb Hr].
    destruct (calm_controls b (shared w) s Hb Hs Hp Hst). by split.
Qed.

Lemma gets_ends {A} (f : cell -> A) (Q : A -> wstate S L -> Prop) w :
  Q (f (shared w)) w -> ends (gets f) Q w.
Proof. intros H. by eexists _, _. Qed.

Lemma modify_calm f s s' w (Q : unit -> wstate S L -> Prop) :
  calm s w -> (forall c, paused (f c) = paused c) -> state (f (shared w)) = s' ->
  (forall w', calm s' w' -> same_fs w w' -> Q tt w') -> ends (modify f) Q w.
Proof.
  intros [Hp Hs Hsch] Hf Hs' HQ. eexists _, _. split; [done|]. apply HQ; [|done].
  split; simpl; [by rewrite Hf|done|done].
Qed.

Lemma on_remote_calm {A} (f : S -> A * S) s w (Q : A -> wstate S L -> Prop) :
  calm s w -> (forall a w', calm s w' -> local w' = local w -> f (remote w) = (a, remote w') -> Q a w') ->
  ends (on_remote f) Q w.
Proof.
  intros [? ? ?] HQ. unfold ends, on_remote. destruct (f (remote w)) as [a r] eqn:E.
  eexists _, _. split; [done|]. by apply HQ.
Qed.

Lemma on_local_calm {A} (f : L -> A * L) s w (Q : A -> wstate S L -> Prop) :
  calm s w -> (forall a w', calm s w' -> f (local w) = (a, local w') -> remote w' = remote w -> Q a w') ->
  ends (on_local f) Q w.
Proof.
  intros [? ? ?] HQ. unfold ends, on_local. destruct (f (local w)) as [a l] eqn:E.
  eexists _, _. split; [done|]. by apply HQ.
Qed.

Lemma stop_requested_calm s w (Q : bool -> wstate S L -> Prop) :
  s <> Paused -> calm s w -> (forall b w', calm s w' -> same_fs w w' -> Q b w') ->
  ends stop_requested Q w.
Proof.
  intros Hs Hc HQ. apply ends_bind, (yield_calm s); [done|done|]. intros w1 Hc1 [Hr1 Hl1].
  apply ends_bind, gets_ends. destruct (cancelled (shared w1)); [apply ends_ret; by apply HQ|].
  unfold wait_while_paused, ends. destruct (length (schedule w1)); simpl;
    unfold mbind, M_bind, gets; simpl; rewrite (calm_flag _ _ Hc1); simpl;
    (eexists _, _; split; [done|by apply HQ]).
Qed.

Lemma report_calm s off n w (Q : unit -> wstate S L -> Prop) :
  calm s w -> (forall w', calm s w' -> same_fs w w' -> Q tt w') -> ends (report off n) Q w.
Proof.
  intros [? ? ?] HQ. unfold ends, report, mbind, M_bind, modify, now. simpl.
  eexists _, _. split; [done|]. by apply HQ.
Qed.

(** ** The push *)

Lemma push_loop_ends fuel h f off pos src c w (Q : presult unit -> wstate S L -> Prop) :
  0 < chunk -> 0 <= pos <= zlen c -> zlen c - pos < Z.of_nat fuel -> calm Running w ->
  l_at h src pos (local w) -> l_content src (local w) = Some c ->
  (forall r w', calm Running w' -> Q r w') -> ends (push_loop fuel h f off) Q w.
Proof.
  intros Hch. revert off pos w. induction fuel as [|fuel IH];
    intros off pos w Hpos Hf Hc Hat Hs HQ; cbn [push_loop].
  - lia.
  - apply ends_bind, (stop_requested_calm Running); [done|done|]. intros stop w1 Hc1 [Hr1 Hl1].
    destruct stop; [by apply ends_ret, HQ|].
    apply ends_bind, (on_local_calm _ Running); [done|]. intros r w2 Hc2 Hrd _.
    apply ends_try, ends_ret. destruct r as [data|e]; cbn [io_err map_err]; [|by apply HQ].
    rewrite Hl1 in Hrd.
    destruct (l_read_law _ _ _ _ _ _ _ _ Hat Hs Hch (proj1 Hpos) Hrd) as (Hs2 & Hat2 & _ & _ & _ & Hmore).
    destruct data as [|b data0]; [by apply ends_ret, HQ|].
    assert (0 < zlen (b :: data0)) by len_lia. specialize (Hmore ltac:(done)).
    set (data := b :: data0) in *. clearbody data.
    apply ends_try, (on_remote_calm _ Running); [done|]. intros [[]|e] w3 Hc3 Hl3 _; [|by apply HQ].
    apply ends_bind, (report_calm Running); [done|]. intros w4 Hc4 [Hr4 Hl4].
    apply (IH _ (pos + zlen data)); [lia|lia|done| | |done]; rewrite Hl4, Hl3; done.
Qed.

Lemma pick_remote_loop_ends n cands s w (Q : option bytes -> wstate S L -> Prop) :
  calm s w -> (forall r w', calm s w' -> local w' = local w -> Q r w') ->
  ends (pick_remote_loop n cands) Q w.
Proof.
  revert cands w. induction n as [|n IH]; intros cands w Hc HQ; cbn [pick_remote_loop].
  - by apply ends_ret, HQ.
  - unfold RenameCandidates.next.
    apply ends_bind, (on_remote_calm _ s); [done|]. intros [st|e] w1 Hc1 Hl1 _.
    + apply IH; [done|]. intros r w2 Hc2 Hl2. apply HQ; [done|congruence].
    + apply ends_ret. by apply HQ.
Qed.

Lemma plan_push_ends job len dest s w (Q : plan -> wstate S L -> Prop) :
  calm s w ->
  (forall p w', calm s w' -> local w' = local w ->
     match p with Skip _ => True | Write _ _ offset _ => offset <= len \/ offset = 0 end ->
     Q p w') ->
  ends (plan_push job len dest) Q w.
Proof.
  intros Hc HQ. apply ends_bind, (on_remote_calm _ s); [done|]. intros r w1 Hc1 Hl1 _.
  destruct (ok r) as [st|], (overwrite (options job));
    try (apply ends_ret, HQ; auto; fail).
  - destruct (Z.ltb_spec (Stat.size st) len); apply ends_ret, HQ; auto with lia.
  - unfold pick_remote_rename. apply ends_bind, ends_bind, (pick_remote_loop_ends _ _ s); [done|].
    intros d w2 Hc2 Hl2. apply ends_ret, ends_ret, HQ; [done|congruence|auto].
Qed.

(** ** Verification *)

Lemma sha256_file_loop_ends fuel h acc pos p c w (Q : result bytes bytes -> wstate S L -> Prop) :
  0 <= pos <= zlen c -> zlen c - pos < Z.of_nat fuel -> calm Running w ->
  l_at h p pos (local w) -> l_content p (local w) = Some c ->
  (forall r w', calm Running w' -> remote w' = remote w -> Q r w') -> ends (sha256_file_loop fuel h acc) Q w.
Proof.
  revert acc pos w. induction fuel as [|fuel IH]; intros acc pos w Hpos Hf Hc Hat Hs HQ; cbn [sha256_file_loop]; [lia|].
  apply ends_bind, (on_local_calm _ Running); [done|]. intros r w1 Hc1 Hrd Hr1.
  destruct r as [d|e]; [|by apply ends_ret, HQ].
  destruct (l_read_law _ _ _ (64 * 1024) _ _ _ _ Hat Hs ltac:(lia) (proj1 Hpos) Hrd) as (Hs1 & Hat1 & _ & _ & _ & Hmore).
  destruct d as [|b d0]; [by apply ends_ret, HQ|].
  assert (0 < zlen (b :: d0)) by len_lia. specialize (Hmore ltac:(done)).
  set (d := b :: d0) in *. clearbody d.
  apply (IH _ (pos + zlen d)); try done; [lia|lia|]. intros r w2 Hc2 Hr2. apply HQ; [done|congruence].
Qed.

Lemma hash_remote_loop_ends fuel f off acc p c w (Q : presult bytes -> wstate S L -> Prop) :
  0 < chunk <= MAX_CHUNK -> 0 <= off <= zlen c -> zlen c - off < Z.of_nat fuel -> calm Running w ->
  r_ok (remote w) -> r_at f p (remote w) -> r_content p (remote w) = Some c ->
  (forall r w', calm Running w' -> Q r w') -> ends (hash_remote_loop fuel f off acc) Q w.
Proof.
  intros Hch. revert off acc w. induction fuel as [|fuel IH]; intros off acc w Hoff Hf Hc Hok Hat Hs HQ; cbn [hash_remote_loop]; [lia|].
  apply ends_try, (on_remote_calm _ Running); [done|]. intros r w1 Hc1 _ Hrd.
  destruct r as [d|e]; [|by apply HQ]. pose proof (r_size_law _ _ _ Hs).
  assert (0 <= Z.min chunk (2 ^ 32 - 1) <= MAX_CHUNK) as Hn by (unfold MAX_CHUNK in *; lia).
  destruct (r_read_law f p c off _ _ _ _ Hok Hat Hs ltac:(lia) Hn Hrd) as (Hok1 & Hat1 & Hs1 & Hd).
  destruct d as [|b d0]; [by apply ends_ret, HQ|].
  assert (0 < zlen (b :: d0)) by len_lia. set (d := b :: d0) in *. clearbody d. subst d.
  pose proof (slice_bound c off (Z.min chunk (2 ^ 32 - 1)) Hoff). rewrite as_u64_id by lia.
  apply IH; try done; lia.
Qed.

Lemma verify_paths_ends fuel loc rem lc rc w (Q : presult unit -> wstate S L -> Prop) :
  0 < chunk <= MAX_CHUNK -> calm Running w -> r_ok (remote w) -> r_path rem ->
  l_content loc (local w) = Some lc -> zlen lc < Z.of_nat fuel ->
  r_content rem (remote w) = Some rc -> zlen rc < Z.of_nat fuel ->
  (forall r w', calm Running w' -> Q r w') -> ends (verify_paths fuel loc rem) Q w.
Proof.
  intros Hch Hc Hok Hp Hl Hlf Hr Hrf HQ. pose proof (zlen_nonneg lc). pose proof (zlen_nonneg rc).
  apply ends_bind, (ends_mono _ (fun _ w' => calm Running w' /\ remote w' = remote w)).
  - intros lh w1 [Hc1 Hr1]. destruct lh as [lhash|e]; cbn [io_err map_err]; [|by apply ends_ret, HQ].
    apply ends_bind, (ends_mono _ (fun _ w' => calm Running w')).
    + intros [rhash|e] w2 Hc2; cbn [px_err map_err]; [|by apply ends_ret, HQ].
      by destruct (negb _); apply ends_ret, HQ.
    + rewrite <- Hr1 in Hok, Hr. unfold hash_remote.
      apply ends_try, (on_remote_calm _ Running); [done|]. intros r w2 Hc2 _ Ho. destruct r as [f|e]; [|done].
      destruct (r_open_law rem OpenFlags.READ 0 _ _ _ rc Hok Hp ltac:(done) ltac:(done) Ho ltac:(done) ltac:(by left))
        as (Hok2 & Hat2 & Hc2'). rewrite READ_bits in Hc2'.
      apply ends_try, (hash_remote_loop_ends _ _ _ _ rem rc); try done; [lia|]. intros [acc|e] w3 Hc3; [|done].
      apply ends_bind, (on_remote_calm _ Running); [done|]. intros r w4 Hc4 _ _. by destruct r; apply ends_ret.
  - unfold sha256_file. apply ends_bind, (on_local_calm _ Running); [done|]. intros r w1 Hc1 Ho Hr1.
    destruct r as [h|e]; [|by apply ends_ret]. destruct (l_open_law _ _ _ _ _ Hl Ho) as [Hl1 Hat1].
    apply (sha256_file_loop_ends _ _ _ 0 loc lc); try done; [lia|]. intros r w2 Hc2 Hr2. split; [done|congruence].
Qed.

(** ** A push *)

(** What a verified push relies on: the device keeps the laws, and where the
    push may write there is a regular file or nothing. *)
Definition verifiable (job : Job) w : Prop :=
  chunk <= MAX_CHUNK /\ r_ok (remote w)
  /\ Forall (fun p => r_path p /\ exists d, dest_before p d (remote w)) (push_targets job).
(** The same for the destination that was chosen. *)
Definition readable_back (dest : bytes) (flags offset len : Z) w : Prop :=
  chunk <= MAX_CHUNK /\ r_ok (remote w) /\ r_path dest
  /\ exists d, dest_before dest d (remote w) /\ sound_plan dest flags offset d /\ (flags = CREATE_WRITE_TRUNC \/ zlen d < len).

Lemma push_body_ends fuel job h dest flags offset created w c
    (Q : presult unit -> wstate S L -> Prop) :
  0 < chunk -> (verify (options job) = VerifyOn -> readable_back dest flags offset (zlen c) w) -> calm Running w ->
  l_at h (source job) (Z.max 0 offset) (local w) ->
  l_content (source job) (local w) = Some c -> zlen c < Z.of_nat fuel -> offset <= zlen c ->
  (forall r w', calm Running w' -> Q r w') ->
  ends (push_body fuel job h dest flags offset created) Q w.
Proof.
  intros Hch Hv Hc Hat Hs Hf Hoff HQ. pose proof (zlen_nonneg c). pose proof (l_size_law _ _ _ Hs) as Hc63.
  apply ends_try, (on_remote_calm _ Running); [done|]. intros [f|e] w3 Hc3 Hl3 Hop; [|by apply HQ].
  apply ends_bind, (ends_mono _ (fun r w' => calm Running w' /\ (verify (options job) = VerifyOn -> r = Ok tt ->
    chunk <= MAX_CHUNK /\ r_path dest /\ r_ok (remote w') /\ r_at f dest (remote w') /\ l_content (source job) (local w') = Some c
    /\ exists x, r_content dest (remote w') = Some x /\ zlen x = zlen c))).
  2:{ apply ends_with; [by apply (push_loop_ends _ _ _ _ (Z.max 0 offset) (source job) c); [done|lia|lia|done|by rewrite Hl3..|]|].
      intros r w4 Hloop Hon ->. destruct (Hv Hon) as (Hmax & Hok & Hp & d & Hd & Hplan & Hlen).
      destruct (r_open_law dest flags 0x1A4 (remote w) f (remote w3) d Hok Hp) as (Hok3 & Hat3 & Hc3'); try done.
      { by destruct Hplan as [[-> _]|[-> _]]. }
      { by destruct Hplan as [[-> _]|[-> _]]. }
      { destruct Hd as [?|[? ?]]; [by left|right]. by destruct Hplan as [[-> _]|[-> _]]. }
      assert (zlen (kept flags d) = offset /\ Z.max 0 offset = offset /\ r_content dest (remote w3) = Some (kept flags d)) as (Hk & Hm & Hk').
      { pose proof (zlen_nonneg d). destruct Hplan as [[-> ->]|[-> ->]]; (split_and!; [done|lia|done]). }
      rewrite Hm, <- Hl3 in Hat. rewrite <- Hl3 in Hs.
      destruct (push_loop_copies _ _ _ _ _ _ _ _ _ _ (conj Hch Hmax) Hc63 Hok3 Hat3 Hk' Hk Hat Hs Hloop) as (Hok4 & Hat4 & Hc4 & Hs4).
      split_and!; try done. eexists. split; [exact Hc4|]. rewrite zlen_app, Hk, zlen_zdrop. lia. }
  intros [[]|e] w4 [Hc4 Hdone].
  - apply ends_bind, (on_remote_calm _ Running); [done|]. intros r w5 Hc5 Hl5 Hcl.
    apply ends_try, ends_ret. destruct r as [[]|e]; cbn [px_err map_err]; [|by apply HQ].
    destruct (verify (options job)); try (by apply ends_ret, HQ).
    destruct (Hdone eq_refl eq_refl) as (Hmax & Hp & Hok & Hat' & Hs4 & x & Hx & Hxl).
    destruct (r_close_law _ _ _ _ _ Hok Hat' Hcl) as [Hok5 Hx5]. rewrite Hx in Hx5.
    apply (verify_paths_ends _ _ _ c x); try done; [|lia]. by rewrite Hl5.
  - apply ends_bind, (on_remote_calm _ Running); [done|]. intros r w5 Hc5 _ _.
    apply ends_bind. destruct created.
    + apply ends_bind, (on_remote_calm _ Running); [done|]. intros r' w6 Hc6 _ _.
      by apply ends_ret, ends_ret, HQ.
    + by apply ends_ret, ends_ret, HQ.
Qed.

Lemma push_to_ends fuel job dest flags offset created w c (Q : presult unit -> wstate S L -> Prop) :
  0 < chunk -> (verify (options job) = VerifyOn -> readable_back dest flags offset (zlen c) w) -> calm Running w ->
  l_content (source job) (local w) = Some c -> zlen c < Z.of_nat fuel -> offset <= zlen c ->
  (forall r w', calm Running w' -> Q r w') ->
  ends (push_to fuel job dest flags offset created) Q w.
Proof.
  intros Hch Hv Hc Hs Hf Hoff HQ.
  apply ends_bind, (on_local_calm _ Running); [done|]. intros r w1 Hc1 Ho Hr1.
  apply ends_try, ends_ret. destruct r as [h|e]; cbn [io_err map_err]; [|by apply HQ].
  destruct (l_open_law _ _ _ _ _ Hs Ho) as [Hs1 Hat1].
  apply ends_try. destruct (Z.gtb_spec offset 0) as [Hpos|Hneg].
  - apply ends_bind, (on_local_calm _ Running); [done|]. intros r w2 Hc2 Hsk Hr2.
    apply ends_try, ends_ret. destruct r as [[]|e]; cbn [io_err map_err]; [|by apply HQ].
    destruct (l_seek_law _ _ _ _ _ _ _ Hat1 Hs1 (Z.lt_le_incl _ _ Hpos) Hsk) as [Hs2 Hat2].
    apply ends_bind, (modify_calm _ Running Running); [done|done|apply Hc2|]. intros w3 Hc3 [Hr3 Hl3].
    apply ends_ret, (push_body_ends _ _ _ _ _ _ _ _ c); try done; rewrite ?Hl3; [| |done].
    + unfold readable_back. by rewrite Hr3, Hr2, Hr1.
    + by rewrite Z.max_r by lia.
  - apply ends_ret, (push_body_ends _ _ _ _ _ _ _ _ c); try done.
    + unfold readable_back. by rewrite Hr1.
    + by rewrite Z.max_l by lia.
Qed.

(** A push returns, with the job Running or Skipped. *)
Lemma push_ends fuel job w c (Q : presult unit -> wstate S L -> Prop) :
  0 < chunk -> (verify (options job) = VerifyOn -> verifiable job w) -> calm Running w ->
  l_content (source job) (local w) = Some c -> zlen c < Z.of_nat fuel ->
  (forall r w', calm Running w' \/ calm Skipped w' /\ r = Ok tt -> Q r w') ->
  ends (push fuel job) Q w.
Proof.
  intros Hch Hv Hc Hs Hf HQ. pose proof (zlen_nonneg c).
  apply ends_bind. eexists _, _. split; [done|].
  apply ends_try, ends_ret. destruct (l_metadata _ _) as [len|e] eqn:Em; cbn [io_err map_err]; [|auto].
  pose proof (l_metadata_law _ _ _ _ Hs Em) as ->.
  apply ends_bind, (ends_mono _ (fun p w' => (calm Running w' /\ local w' = local w
    /\ match p with Skip _ => True | Write _ _ offset _ => offset <= zlen c \/ offset = 0 end)
    /\ match p with Skip _ => True | Write dest flags offset _ => verify (options job) = VerifyOn -> readable_back dest flags offset (zlen c) w' end)).
  2:{ apply ends_with; [by apply (plan_push_ends _ _ _ Running)|]. intros [|dest flags offset created] w1 Hplan; [done|]. intros Hon.
      destruct (Hv Hon) as (Hmax & Hok & Ht). pose proof Ht as [[_ [d Hd]] _]%Forall_cons.
      apply (plan_push_sound _ _ _ _ _ c d) in Hplan as [(Hok1 & d' & Hd' & Hsound & Hkind & Hname) _]; try done.
      split_and!; try done.
      - rewrite Forall_forall in Ht. apply (Ht dest). unfold push_targets. destruct Hname as [->|(-> & Hin & _)]; [by left|].
        by apply elem_of_cons; right.
      - exists d'. split_and!; try done. destruct Hkind as [?|(_ & ? & _ & ->)]; [by left|by right]. }
  intros [size|dest flags offset created] w1 [(Hc1 & Hl1 & Hp) Hback].
  - unfold skip_with.
    apply ends_bind, (modify_calm _ Running Running); [done|done|apply Hc1|]. intros w2 Hc2 _.
    apply ends_bind, (modify_calm _ Running Running); [done|done|apply Hc2|]. intros w3 Hc3 _.
    apply ends_bind, (modify_calm _ Running Skipped); [done|done|done|]. intros w4 Hc4 _.
    apply ends_ret, HQ. auto.
  - apply (push_to_ends _ _ _ _ _ _ _ c); [done|done|done|by rewrite Hl1|done|lia|auto].
Qed.

Lemma finish_ends e st s w (Q : unit -> wstate S L -> Prop) :
  calm s w -> (forall w', calm st w' -> Q tt w') -> ends (finish e st) Q w.
Proof.
  intros Hc HQ. apply ends_bind, (modify_calm _ s s); [done|done|apply Hc|]. intros w1 Hc1 _.
  apply (modify_calm _ s st); [done|done|done|]. intros w2 Hc2 _. auto.
Qed.

Definition ended (r : presult unit) w : Prop := terminal (state (shared w)) = true.

Lemma calm_ended s r w : terminal s = true -> calm s w -> ended r w.
Proof. unfold ended. by intros ? [_ -> _]. Qed.

Lemma run_transfer_ends fuel job total w c :
  0 < chunk -> direction job = Push -> (verify (options job) = VerifyOn -> verifiable job w) ->
  calm Running w -> l_content (source job) (local w) = Some c -> zlen c < Z.of_nat fuel ->
  ends (run_transfer fuel job total) ended w.
Proof.
  intros Hch Hdir Hv Hc5 Hs Hf.
  unfold run_transfer. rewrite Hdir.
  apply ends_bind, (modify_calm _ Running Running); [done|done|apply Hc5|]. intros w6 Hc6 [Hr6 Hl6].
  unfold verifiable in Hv. rewrite <- Hr6 in Hv. rewrite <- Hl6 in Hs.
  apply ends_bind, (push_ends _ _ _ c); try done. intros r w7 H7.
  assert (exists s, calm s w7 /\ s <> Paused /\ (s = Running \/ s = Skipped /\ r = Ok tt)) as (s & Hc7 & Hnp & Hs7).
  { destruct H7 as [?|[? ?]]; [exists Running|exists Skipped]; auto. }
  apply ends_bind, (yield_calm s); [done|done|]. intros w8 Hc8 _.
  apply ends_bind, gets_ends. destruct (cancelled (shared w8)).
  { apply ends_bind, (finish_ends _ _ s); [done|]. intros w9 Hc9. by apply ends_ret, (calm_ended Cancelled). }
  apply ends_bind. destruct r as [[]|e].
  2:{ apply (finish_ends _ _ s); [done|]. intros w9 Hc9. by apply ends_ret, (calm_ended Failed). }
  apply ends_bind, (yield_calm s); [done|done|]. intros w9 Hc9 _.
  apply ends_bind, gets_ends. rewrite (calm_state _ _ Hc9).
  destruct Hs7 as [->|[-> _]].
  - rewrite bool_decide_eq_true_2 by done.
    apply ends_bind, (yield_calm Running); [done|done|]. intros w10 Hc10 _.
    apply (modify_calm _ Running Completed); [done|done|done|]. intros w11 Hc11 _.
    by apply ends_ret, (calm_ended Completed).
  - rewrite bool_decide_eq_false_2 by done. by apply ends_ret, ends_ret, (calm_ended Skipped).
Qed.

(** C37: Every push that nobody pauses ends. If no pause is requested, then with as
    many loop iterations as the source has bytes and one more [run] returns and
    the job is Completed, Skipped, Failed or Cancelled; this holds for every
    overwrite mode, any interleaving of resumes and cancels, and whatever the
    device answers. Only a push that is to be verified, which reads the
    destination back to its end, needs a device that keeps its laws
    ([verifiable]). *)
Theorem push_run_ends (fuel : nat) (job : Job) (w : wstate S L) (c : bytes) :
  0 < chunk -> direction job = Push -> (verify (options job) = VerifyOn -> verifiable job w) ->
  calm Pending w -> l_content (source job) (local w) = Some c -> zlen c < Z.of_nat fuel ->
  exists r w', run fuel job w = Some (r, w') /\ terminal (state (shared w')) = true.
Proof.
  intros Hch Hdir Hv Hc Hs Hf.
  change (ends (run fuel job) ended w).
  apply ends_bind, (yield_calm Pending); [done|done|]. intros w1 Hc1 [Hr1 Hl1].
  apply ends_bind, gets_ends. destruct (cancelled (shared w1)).
  { apply ends_bind, (finish_ends _ _ Pending); [done|]. intros w2 Hc2. by apply ends_ret, (calm_ended Cancelled). }
  apply ends_bind, (yield_calm Pending); [done|done|]. intros w2 Hc2 [Hr2 Hl2].
  apply ends_bind, gets_ends. rewrite (calm_state _ _ Hc2), bool_decide_eq_false_2 by done.
  apply ends_bind, ends_bind, (yield_calm Pending); [done|done|]. intros w3 Hc3 [Hr3 Hl3].
  apply (modify_calm _ Pending Running); [done|done|done|]. intros w4 Hc4 [Hr4 Hl4].
  apply ends_bind. eexists _, _. split; [done|].
  apply ends_bind, (modify_calm _ Running Running); [by destruct Hc4|done|apply Hc4|]. intros w5 Hc5 [Hr5 Hl5].
  rewrite Hdir. apply ends_bind. eexists _, _. split; [done|].
  destruct (io_err _ _) as [len|e].
  2:{ apply ends_bind, (finish_ends _ _ Running); [done|]. intros w6 Hc6. by apply ends_ret, (calm_ended Failed). }
  apply (run_transfer_ends _ _ _ _ c); try done.
  - unfold verifiable. by replace (remote w5) with (remote w) by (simpl in *; congruence).
  - by replace (local w5) with (local w) by (simpl in *; congruence).
Qed.

End ends.
