(* ===== verification/WorkerCases.v ===== *)
(** * The worker on concrete devices, and its edge cases

    [MemLocal], an in-memory instance of the local files; witnesses of the transfer theorems on the real client connected to the
    in-memory device, [SkipExisting] and the choice of alternate names for any
    device, and two executions that end in an unexpected place. *)

From stdpp Require Import base list gmap strings.
From S2P Require Import Prelude RustStd ProxyOps Libc DeviceProxy ProxyClient ProxyRpc Remote Job Queue Worker WorkerSpec WorkerEnds.

(** ** Local files in memory

    An instance of [Local] and [LocalLaws]. A handle keeps the last bytes
    written to it until the next call on it. *)

Module MemLocal.

Record t : Type := mk {
  files : gmap bytes bytes;
  handles : gmap Z (bytes * Z * bytes);
  next : Z;
}.

Definition NOT_FOUND : bytes := bs "No such file or directory".
Definition BAD_FD : bytes := bs "Bad file descriptor".
Definition TOO_LARGE : bytes := bs "File too large".

Definition content (p : bytes) (m : t) : option bytes :=
  c ← files m !! p; if zlen c <? 2 ^ 63 then Some c else None.

Definition open_at (p : bytes) (m : t) : result bytes Z * t :=
  (Ok (next m), mk (files m) (<[next m := (p, 0, [])]> (handles m)) (next m + 1)).
Definition set_file (p c : bytes) (m : t) : t := mk (<[p := c]> (files m)) (handles m) (next m).
Definition hold (h : Z) (p : bytes) (pos : Z) (b : bytes) (m : t) : t :=
  mk (files m) (<[h := (p, pos, b)]> (handles m)) (next m).

(** The bytes a handle keeps go to its file, and [k] goes on with its path and cursor. *)
Definition settle {A} (h : Z) (m : t) (k : bytes -> Z -> bytes -> t -> result bytes A * t) : result bytes A * t :=
  match handles m !! h with
  | Some (p, pos, b) =>
      match files m !! p with
      | Some c =>
          if zlen (splice c pos b) <? 2 ^ 63 then
            k p (pos + zlen b) (splice c pos b) (hold h p (pos + zlen b) [] (set_file p (splice c pos b) m))
          else (Err TOO_LARGE, m)
      | None => (Err BAD_FD, m)
      end
  | None => (Err BAD_FD, m)
  end.

#[global] Instance local : Local t := {|
  l_metadata p m := match files m !! p with Some c => Ok (zlen c) | None => Err NOT_FOUND end;
  l_open p m := match files m !! p with Some _ => open_at p m | None => (Err NOT_FOUND, m) end;
  l_create p m := open_at p (set_file p [] m);
  l_open_rw p m :=
    match files m !! p with Some _ => open_at p m | None => open_at p (set_file p [] m) end;
  l_seek h off m := settle h m (fun p _ _ m => (Ok tt, hold h p off [] m));
  l_read h n m :=
    settle h m (fun p pos c m => let d := slice c pos n in (Ok d, hold h p (pos + zlen d) [] m));
  l_write_all h d m := settle h m (fun p pos _ m => (Ok tt, hold h p pos d m));
  l_flush h m := settle h m (fun _ _ _ m => (Ok tt, m));
  l_remove_file p m := (Ok tt, mk (delete p (files m)) (handles m) (next m));
  l_create_dir_all _ m := (Ok tt, m);
|}.

Lemma content_inv p m c : content p m = Some c -> files m !! p = Some c /\ zlen c < 2 ^ 63.
Proof.
  unfold content. destruct (files m !! p) as [c0|]; [|done]. simpl.
  case_bool; intros; simplify_eq. by bool_to_prop.
Qed.

Lemma content_eq p m c : files m !! p = Some c -> zlen c < 2 ^ 63 -> content p m = Some c.
Proof. unfold content. intros -> ?. simpl. by decide_if. Qed.

Lemma content_set p c m : zlen c < 2 ^ 63 -> content p (set_file p c m) = Some c.
Proof. intros. apply content_eq; [|done]. simpl. by rewrite lookup_insert_eq. Qed.

Definition at_ (h : Z) (p : bytes) (pos : Z) (m : t) : Prop := handles m !! h = Some (p, pos, []).
(** What the file of a handle holds once the handle has let go of its bytes. *)
Definition writes (h : Z) (p : bytes) (pos : Z) (c : bytes) (m : t) : Prop :=
  exists q b c0, handles m !! h = Some (p, q, b) /\ files m !! p = Some c0
    /\ pos = q + zlen b /\ splice c0 q b = c.

Lemma settle_ok {A} h m p pos c (k : bytes -> Z -> bytes -> t -> result bytes A * t) a m' :
  writes h p pos c m -> settle h m k = (Ok a, m') ->
  zlen c < 2 ^ 63 /\ k p pos c (hold h p pos [] (set_file p c m)) = (Ok a, m').
Proof.
  intros (q & b & c0 & Hh & Hf & -> & <-). unfold settle. rewrite Hh, Hf. case_bool; [|done]. bool_to_prop. done.
Qed.

Lemma at_writes h p pos c m : at_ h p pos m -> content p m = Some c -> writes h p pos c m.
Proof. intros Hh [Hf _]%content_inv. exists pos, [], c. split_and!; try done. rewrite zlen_nil. lia. Qed.
Lemma at_hold h p pos m : at_ h p pos (hold h p pos [] m).
Proof. unfold at_, hold. simpl. by rewrite lookup_insert_eq. Qed.
Lemma content_hold h p q b c p' m : zlen c < 2 ^ 63 -> content p (hold h p' q b (set_file p c m)) = Some c.
Proof. intros. apply content_eq; [|done]. simpl. by rewrite lookup_insert_eq. Qed.

#[global] Program Instance laws : LocalLaws t := {|
  l_content := content;
  l_absent p m := files m !! p = None;
  l_at := at_;
  l_writes := writes;
|}.
Next Obligation. intros p c m n [Hc _]%content_inv. simpl. rewrite Hc. intros; by simplify_eq. Qed.
Next Obligation. intros p m n Ha. simpl. by rewrite Ha. Qed.
Next Obligation.
  intros p c m h m' Hc. pose proof (content_inv _ _ _ Hc) as [Hf _]. simpl. rewrite Hf.
  unfold open_at. intros; simplify_eq. split; [exact Hc|]. unfold at_. simpl. by rewrite lookup_insert_eq.
Qed.
Next Obligation.
  intros p m h m' Ho. simpl in Ho. unfold open_at in Ho. simplify_eq.
  split; [by apply content_set|]. unfold at_. simpl. by rewrite lookup_insert_eq.
Qed.
Next Obligation.
  intros p c m h m' Hc. pose proof (content_inv _ _ _ Hc) as [Hf _]. simpl. rewrite Hf.
  unfold open_at. intros; simplify_eq. split; [exact Hc|]. unfold at_. simpl. by rewrite lookup_insert_eq.
Qed.
Next Obligation.
  intros h p pos off c m m' Hh Hc _ Hs. simpl in Hs. destruct (settle_ok _ _ _ _ _ _ _ _ (at_writes _ _ _ _ _ Hh Hc) Hs) as [Hl [= <-]].
  split; [|apply at_hold]. unfold content. simpl. rewrite lookup_insert_eq. simpl. by decide_if.
Qed.
Next Obligation.
  intros h p pos n c m d m' Hh Hc Hn Hp Hs. simpl in Hs. destruct (settle_ok _ _ _ _ _ _ _ _ (at_writes _ _ _ _ _ Hh Hc) Hs) as [Hl [= <- <-]].
  pose proof (zlen_nonneg c).
  assert (zlen (slice c pos n) = Z.max 0 (Z.min n (zlen c - pos))) as Hz by (rewrite zlen_slice; lia).
  split_and!; [unfold content; simpl; rewrite lookup_insert_eq; simpl; by decide_if|apply at_hold|..].
  - unfold slice. rewrite zlen_ztake. set (l := zdrop pos c). pose proof (zlen_nonneg l).
    destruct (Z.le_gt_cases n (zlen l)).
    + f_equal. lia.
    + by rewrite (ztake_all l n), ztake_all by lia.
  - lia.
  - intros E. rewrite E, zlen_nil in Hz. lia.
  - intros Hne. destruct (Z.le_gt_cases (zlen c) pos); [|lia].
    destruct Hne. apply zlen_0_nil. lia.
Qed.
Next Obligation. apply at_writes. Qed.
Next Obligation.
  intros h p pos d c m m' Hw Hp Hs. simpl in Hs. destruct (settle_ok _ _ _ _ _ _ _ _ Hw Hs) as [Hl [= <-]].
  exists pos, d, c. split_and!; try done; simpl; by rewrite lookup_insert_eq.
Qed.
Next Obligation.
  intros h p pos c m m' Hw Hs. simpl in Hs. destruct (settle_ok _ _ _ _ _ _ _ _ Hw Hs) as [Hl [= <-]]. by apply content_hold.
Qed.
Next Obligation. intros dir p m r m'. simpl. intros; by simplify_eq. Qed.
Next Obligation. by intros p c m [_ ?]%content_inv. Qed.

Definition with_files (l : list (bytes * bytes)) : t := mk (list_to_map l) ∅ 0.

End MemLocal.

(** ** An existing destination is skipped *)

Section skip.
Context {S L : Type} `{!Remote S} `{!Local L} {env : WorkerEnv}.
Implicit Types (w : wstate S L).

Lemma yield_ends (Q : unit -> wstate S L -> Prop) w :
  (forall w', same_fs w w' -> (terminal (state (shared w)) = true ->
     state (shared w') = state (shared w)) -> Q tt w') -> ends yield Q w.
Proof.
  intros HQ. destruct (yield w) as [[[] w']|] eqn:E.
  - exists tt, w'. split; [done|]. apply HQ; [by eapply yield_fs|].
    intros. by eapply yield_terminal.
  - unfold yield in E. by destruct (schedule w).
Qed.

Lemma modify_ends f (Q : unit -> wstate S L -> Prop) w :
  (forall w', same_fs w w' -> shared w' = f (shared w) -> Q tt w') -> ends (modify f) Q w.
Proof. intros HQ. eexists _, _. split; [done|]. by apply HQ. Qed.

Lemma finish_cancelled_ends (Q : presult unit -> wstate S L -> Prop) w :
  (forall w', same_fs w w' -> state (shared w') = Cancelled -> Q (Ok tt) w') ->
  ends (finish (bs "cancelled") Cancelled ;; mret (Ok tt)) Q w.
Proof.
  intros HQ. apply ends_bind, ends_bind, modify_ends. intros w1 [? ?] _.
  apply modify_ends. intros w2 [? ?] Hs. apply ends_ret, HQ; [split; congruence|by rewrite Hs].
Qed.

(** The end of a skipped push. *)
Definition skipped (l : L) (s1 : S) (r : presult unit) w : Prop :=
  r = Ok tt /\ local w = l /\ remote w = s1
  /\ (state (shared w) = Skipped \/ state (shared w) = Cancelled).

Lemma run_transfer_skips fuel job total w st s1 n :
  direction job = Push -> overwrite (options job) = SkipExisting ->
  l_metadata (source job) (local w) = Ok n ->
  r_stat (from_utf8_lossy (destination job)) (remote w) = (Ok st, s1) ->
  ends (run_transfer fuel job total) (skipped (local w) s1) w.
Proof.
  intros Hdir Hmode Hn Hst. unfold run_transfer. rewrite Hdir.
  apply ends_bind, modify_ends. intros w5 [Hr5 Hl5] _.
  apply ends_bind, ends_bind. eexists _, _. split; [done|]. rewrite Hl5, Hn.
  apply ends_try, ends_ret. cbn [io_err map_err].
  apply ends_bind, ends_bind. unfold ends at 1, on_remote. rewrite Hr5, Hst.
  eexists _, _. split; [done|]. rewrite Hmode. cbn [ok]. apply ends_ret. unfold skip_with.
  apply ends_bind, modify_ends. intros w6 [Hr6 Hl6] _.
  apply ends_bind, modify_ends. intros w7 [Hr7 Hl7] _.
  apply ends_bind, modify_ends. intros w8 [Hr8 Hl8] Hs8. apply ends_ret.
  assert (state (shared w8) = Skipped) as Es8 by (by rewrite Hs8).
  apply ends_bind, yield_ends. intros w9 [Hr9 Hl9] Hs9. apply ends_bind, gets_ends.
  simpl in *. destruct (cancelled (shared w9)).
  { apply finish_cancelled_ends. intros w10 [? ?] Hs10.
    split_and!; [done|congruence|congruence|by right]. }
  rewrite Es8 in Hs9. specialize (Hs9 eq_refl).
  apply ends_bind, ends_bind, yield_ends. intros w10 [Hr10 Hl10] Hs10. apply ends_bind, gets_ends.
  rewrite Hs9 in Hs10. specialize (Hs10 eq_refl). rewrite Hs10, bool_decide_eq_false_2 by done.
  apply ends_ret, ends_ret. split_and!; [done|congruence|congruence|by left].
Qed.

(** Under [SkipExisting] (the default) a push to a destination that the device
    reports as existing returns success without a single call on the device but
    that one stat and without touching the local files, and the job ends Skipped
    (or Cancelled), whatever is paused, resumed or cancelled meanwhile. *)
Theorem skip_existing_untouched (fuel : nat) (job : Job) (w : wstate S L) (st : Stat.t) (s1 : S)
    (n : Z) :
  direction job = Push -> overwrite (options job) = SkipExisting ->
  l_metadata (source job) (local w) = Ok n ->
  r_stat (from_utf8_lossy (destination job)) (remote w) = (Ok st, s1) ->
  exists w', run fuel job w = Some (Ok tt, w') /\ local w' = local w
    /\ (state (shared w') = Skipped /\ remote w' = s1
        \/ state (shared w') = Cancelled /\ (remote w' = s1 \/ remote w' = remote w)).
Proof.
  intros Hdir Hmode Hn Hst.
  enough (ends (run fuel job) (fun r w' => skipped (local w) s1 r w'
    \/ skipped (local w) (remote w) r w' /\ state (shared w') = Cancelled) w)
    as (r & w' & Hrun & HP).
  { exists w'. unfold skipped in HP. destruct HP as [(-> & ? & ? & ?)|[(-> & ? & ? & ?) ?]]; naive_solver. }
  apply ends_bind, yield_ends. intros w1 [Hr1 Hl1] _. apply ends_bind, gets_ends.
  destruct (cancelled (shared w1)).
  { apply finish_cancelled_ends. intros w2 [? ?] Hs2. right. split; [|done].
    split_and!; [done|congruence|congruence|by right]. }
  apply ends_bind, yield_ends. intros w2 [Hr2 Hl2] _. apply ends_bind, gets_ends, ends_bind.
  apply (ends_mono _ (fun _ w3 => same_fs w2 w3)).
  2:{ destruct (bool_decide _); [by apply ends_ret|]. apply ends_bind, yield_ends.
      intros w3 [? ?] _. apply modify_ends. intros w4 [? ?] _. split; congruence. }
  intros [] w3 [Hr3 Hl3]. apply ends_bind. eexists _, _. split; [done|].
  apply ends_bind, modify_ends. intros w4 [Hr4 Hl4] _. rewrite Hdir.
  apply ends_bind. eexists _, _. split; [done|].
  assert (local w4 = local w) as El by (simpl in *; congruence).
  assert (remote w4 = remote w) as Er by (simpl in *; congruence).
  rewrite El, Hn. cbn [io_err map_err]. rewrite <- El in *. rewrite <- Er in Hst.
  eapply ends_mono; [|by eapply run_transfer_skips]. auto.
Qed.

(** ** Alternate names *)

(** The [k]-th candidate. *)
Definition candidate (original : bytes) (k : Z) : bytes :=
  let c := RenameCandidates.new original in
  from_utf8_lossy (RenameCandidates.cand (RenameCandidates.mk (RenameCandidates.dir c)
    (RenameCandidates.stem c) (RenameCandidates.ext c) k)).

Lemma pick_remote_loop_spec (I : S -> Prop) (taken : bytes -> bool) original n k w :
  (forall p s, I s -> is_ok (r_stat p s).1 = taken p /\ I (r_stat p s).2) ->
  I (remote w) -> 0 <= k -> k + Z.of_nat n < 2 ^ 32 ->
  let c := RenameCandidates.new original in
  exists r w', pick_remote_loop n (RenameCandidates.mk (RenameCandidates.dir c)
      (RenameCandidates.stem c) (RenameCandidates.ext c) k) w = Some (r, w') /\
    match r with
    | Some name => exists j, k < j <= k + Z.of_nat n /\ name = candidate original j
        /\ taken name = false /\ forall i, k < i < j -> taken (candidate original i) = true
    | None => forall i, k < i <= k + Z.of_nat n -> taken (candidate original i) = true
    end.
Proof.
  intros Hst. revert k w. induction n as [|n IH]; intros k w Hw Hk Hn c; cbn [pick_remote_loop].
  { exists None, w. split; [done|]. lia. }
  unfold RenameCandidates.next, RenameCandidates.bump. cbn [RenameCandidates.n RenameCandidates.dir
    RenameCandidates.stem RenameCandidates.ext]. rewrite as_u32_id by lia.
  fold (candidate original (k + 1)). unfold mbind, M_bind, on_remote.
  destruct (Hst (candidate original (k + 1)) (remote w) Hw) as [Ht Hi].
  destruct (r_stat _ (remote w)) as [[st|e] s']; simpl in Ht, Hi.
  - destruct (IH (k + 1) (mkW (shared w) s' (local w) (schedule w) (ticks w)) Hi ltac:(lia) ltac:(lia))
      as (r & w' & Hr & Hspec). exists r, w'. split; [exact Hr|]. destruct r as [name|].
    + destruct Hspec as (j & ? & ? & ? & Hall). exists j. split_and!; [lia|lia|done|done|].
      intros i Hi'. destruct (decide (i = k + 1)) as [->|]; [done|]. apply Hall. lia.
    + intros i Hi'. destruct (decide (i = k + 1)) as [->|]; [done|]. apply Hspec. lia.
  - eexists _, _. split; [done|]. exists (k + 1). split_and!; [lia|lia|done|done|lia].
Qed.

(** Alternate names. On a device whose files do not change meanwhile,
    [pick_remote_rename] always returns; it returns the first of "name (1).ext",
    "name (2).ext", ... that the device does not report as existing, and only if
    all 999 exist the name with [.adbshare-new] appended. *)
Theorem pick_remote_rename_first_free (I : S -> Prop) (taken : bytes -> bool) (original : bytes)
    (w : wstate S L) :
  (forall p s, I s -> is_ok (r_stat p s).1 = taken p /\ I (r_stat p s).2) -> I (remote w) ->
  exists name w', pick_remote_rename original w = Some (name, w') /\
    ((exists k, 1 <= k <= 999 /\ name = candidate original k /\ taken name = false
        /\ forall j, 1 <= j < k -> taken (candidate original j) = true)
     \/ name = original ++ bs ".adbshare-new"
        /\ forall j, 1 <= j <= 999 -> taken (candidate original j) = true).
Proof.
  intros Hst Hw.
  destruct (pick_remote_loop_spec I taken original 999 0 w Hst Hw ltac:(lia) ltac:(lia))
    as (r & w' & Hr & Hspec).
  eexists _, w'. split.
  { unfold pick_remote_rename, mbind, M_bind, mret, M_ret.
    replace (RenameCandidates.new original) with (RenameCandidates.mk
      (RenameCandidates.dir (RenameCandidates.new original))
      (RenameCandidates.stem (RenameCandidates.new original))
      (RenameCandidates.ext (RenameCandidates.new original)) 0); [by rewrite Hr|].
    unfold RenameCandidates.new. by repeat case_match. }
  destruct r as [name|]; simpl.
  - left. destruct Hspec as (j & ? & -> & ? & Hall). exists j. split_and!; try done; try lia.
    intros i Hi. apply Hall. lia.
  - right. split; [done|]. intros j Hj. apply Hspec. lia.
Qed.

End skip.

(** ** Concrete runs *)

(** Chunks of two bytes; the hash is not evaluated. *)
#[local] Instance demo_env : WorkerEnv :=
  {| clock t := t; speed_now _ _ := 0; eta_now _ _ := 0; sha256_hex b := b; chunk := 2 |}.

Definition push_job (m : OverwriteMode) : Job :=
  mkJob 1 Push (bs "/tmp/a") (bs "/d/a") (mkOptions 2 VerifyOff m) None 1.
Definition pull_job (src : string) : Job :=
  mkJob 1 Pull (bs src) (bs "/tmp/b") (mkOptions 2 VerifyOn Always) None 1.

Definition device_with (l : list (bytes * bytes)) : client (OwnedFds * MemFs.t) :=
  one_conn (∅, MemFs.with_files l).
Definition host_with (l : list (bytes * bytes)) : MemLocal.t := MemLocal.with_files l.

Definition start_state (dev host : list (bytes * bytes)) (sch : list (list control))
    : wstate (client (OwnedFds * MemFs.t)) MemLocal.t :=
  mkW fresh_cell (device_with dev) (host_with host) sch 0.

Definition final {S L A} (m : M S L A) (w : wstate S L) : wstate S L :=
  match m w with Some (_, w') => w' | None => w end.

(** A pause and a resume in the middle of a resumed push. *)
Definition push_start := start_state [(bs "a", [1; 2])] [(bs "/tmp/a", [1; 2; 3; 4; 5])]
  [[]; []; []; []; [DoPause]; [DoResume]].

Lemma device_path_d : device_path (bs "/d/a").
Proof. split; [by vm_compute|done]. Qed.

Lemma push_copies_witness :
  r_content (bs "/d/a") (remote (final (run 10 (push_job Resume)) push_start)) = Some [1; 2; 3; 4; 5].
Proof.
  destruct (push_copies 10 (push_job Resume) push_start
    (final (run 10 (push_job Resume)) push_start) [1; 2; 3; 4; 5] [1; 2]) as (p & [Hp|[Hp _]] & H);
    [..|rewrite Hp in H; destruct H as [H|(_ & _ & H)]; exact H|discriminate Hp].
  - unfold MAX_CHUNK; simpl; lia.
  - reflexivity.
  - apply one_conn_idle.
  - constructor; [|constructor]. split; [apply device_path_d|]. exists [1; 2]. left. vm_compute. reflexivity.
  - left. vm_compute. reflexivity.
  - vm_compute. reflexivity.
  - vm_compute. reflexivity.
  - vm_compute. reflexivity.
  - vm_compute. reflexivity.
Defined.

Definition pull_start := start_state [(bs "a", [1; 2; 3; 4; 5])] [(bs "/tmp/b", [9])] [].

Lemma pull_copies_witness :
  l_content (bs "/tmp/b") (local (final (run 10 (pull_job "/d/a")) pull_start)) = Some [1; 2; 3; 4; 5].
Proof.
  destruct (pull_copies 10 (pull_job "/d/a") pull_start
    (final (run 10 (pull_job "/d/a")) pull_start) [1; 2; 3; 4; 5]) as (p & [Hp|[Hp _]] & H);
    [..|rewrite Hp in H; destruct H as [H|(d & Hm & _)]; [exact H|discriminate Hm]|discriminate Hp].
  - unfold MAX_CHUNK; simpl; lia.
  - reflexivity.
  - apply device_path_d.
  - apply one_conn_idle.
  - vm_compute. reflexivity.
  - right. exists [9]. vm_compute. reflexivity.
  - vm_compute. reflexivity.
  - vm_compute. reflexivity.
Defined.

Definition verified_job : Job := mkJob 1 Push (bs "/tmp/a") (bs "/d/a") (mkOptions 2 VerifyOn Always) None 1.

Lemma push_run_ends_witness :
  exists r w', run 6 verified_job (start_state [(bs "a", [])] [(bs "/tmp/a", [1; 2; 3; 4; 5])] [[DoResume]; [DoCancel]])
    = Some (r, w') /\ terminal (state (shared w')) = true.
Proof.
  apply (push_run_ends 6 verified_job _ [1; 2; 3; 4; 5]).
  - reflexivity.
  - reflexivity.
  - intros _. split; [unfold MAX_CHUNK; simpl; lia|]. split; [apply one_conn_idle|].
    constructor; [|constructor]. split; [apply device_path_d|]. exists []. left. vm_compute. reflexivity.
  - split; [reflexivity|reflexivity|]. simpl. repeat constructor; discriminate.
  - vm_compute. reflexivity.
  - vm_compute. reflexivity.
Defined.

Lemma skip_existing_untouched_witness :
  exists w', run 1 (push_job SkipExisting)
      (start_state [(bs "a", [7])] [(bs "/tmp/a", [1])] [[DoPause]]) = Some (Ok tt, w')
    /\ local w' = host_with [(bs "/tmp/a", [1])].
Proof.
  set (w := start_state [(bs "a", [7])] [(bs "/tmp/a", [1])] [[DoPause]]).
  destruct (skip_existing_untouched 1 (push_job SkipExisting) w
    (host_stat (MemFs.node_stat (MemFs.File [7]))) (r_stat (bs "/d/a") (remote w)).2 1)
    as (w' & H & Hl & _).
  - reflexivity.
  - reflexivity.
  - vm_compute. reflexivity.
  - vm_compute. reflexivity.
  - exists w'. split; [exact H|exact Hl].
Defined.

(** A device on which the first two alternates of /d/a.txt are taken. *)
Module FixedNames.
Definition taken (p : bytes) : bool :=
  bool_decide (p ∈ [bs "/d/a.txt"; bs "/d/a (1).txt"; bs "/d/a (2).txt"]).
Definition answer (p : bytes) : presult Stat.t :=
  if taken p then Ok (Stat.mk 0 0 0 0 0 0 0 0 0 0) else Err Closed.
#[local] Instance remote : Remote unit := {|
  r_stat p s := (answer p, s);
  r_open _ _ _ s := (Err Closed, s); r_read_at _ _ _ s := (Err Closed, s);
  r_write_at _ _ _ s := (Err Closed, s); r_close _ s := (Err Closed, s);
  r_unlink _ s := (Err Closed, s);
|}.

Lemma pick_remote_rename_first_free_witness :
  exists name w', pick_remote_rename (bs "/d/a.txt") (mkW fresh_cell tt (host_with []) [] 0)
    = Some (name, w')
    /\ ((exists k, 1 <= k <= 999 /\ name = candidate (bs "/d/a.txt") k /\ taken name = false
         /\ forall j, 1 <= j < k -> taken (candidate (bs "/d/a.txt") j) = true)
        \/ name = bs "/d/a.txt" ++ bs ".adbshare-new"
         /\ forall j, 1 <= j <= 999 -> taken (candidate (bs "/d/a.txt") j) = true).
Proof.
  apply (pick_remote_rename_first_free (fun _ => True) taken).
  - intros p s _. split; [|exact I]. simpl. unfold answer. destruct (taken p); reflexivity.
  - exact I.
Defined.

Example third_alternate :
  (fst <$> pick_remote_rename (bs "/d/a.txt") (mkW fresh_cell tt (host_with []) [] 0))
  = Some (bs "/d/a (3).txt").
Proof. by vm_compute. Qed.
End FixedNames.

(** ** Edge cases *)

(** A pause that arrives after the last chunk is not undone: the worker copies
    the whole file and returns success, but the job is left Paused, neither
    Completed nor retryable; resuming it later relabels it Running for good. *)
Theorem late_pause_ends_paused :
  exists w', run 4 (push_job Always)
      (start_state [] [(bs "/tmp/a", [1; 2; 3])] [[]; []; []; []; []; []; [DoPause]]) = Some (Ok tt, w')
    /\ r_content (bs "/d/a") (remote w') = Some [1; 2; 3]
    /\ state (shared w') = Paused /\ Queue.retryable (state (shared w')) = false
    /\ state (resume (shared w')) = Running.
Proof. eexists. split; [vm_compute; reflexivity|]. by vm_compute. Qed.

(** A pull whose source cannot be opened fails the job and leaves an empty file
    at a destination that did not exist: the clean-up of a file the job itself
    created covers the copying loop but not the opening of the source. *)
Theorem pull_open_failure_leaves_file :
  exists e w', run 4 (pull_job "/d/missing") (start_state [] [] []) = Some (Err e, w')
    /\ state (shared w') = Failed
    /\ l_content (bs "/tmp/b") (local (start_state [] [] [])) = None
    /\ l_content (bs "/tmp/b") (local w') = Some [].
Proof. eexists _, _. split; [vm_compute; reflexivity|]. by vm_compute. Qed.
