(* ===== verification/Cache.v ===== *)
(** * The FUSE layer's caches (adbfs/src/cache.rs)

    [StatCache] and [DirCache] at explicit clock readings, and the maps they
    implement: an unbounded map from which only invalidations remove. *)

From stdpp Require Import base list gmap strings.
From S2P Require Import Prelude ProxyOps.

(** [Path::starts_with] on absolute normalised paths. *)
Definition starts_with (p prefix : bytes) : bool :=
  bool_decide (p = prefix)
  || bool_decide (prefix = bs "/" /\ ztake 1 p = bs "/")
  || bool_decide (ztake (zlen prefix + 1) p = prefix ++ bs "/").

(** ** Stats *)

Module StatCache.

Definition MAX_ENTRIES : Z := 8192.

Record t : Type := mk { inner : gmap bytes (Stat.t * Z); ttl : Z }.

Definition new (ttl : Z) : t := mk ∅ ttl.

Definition live (ttl now : Z) (e : Stat.t * Z) : bool := now - e.2 <? ttl.

Definition get (now : Z) (path : bytes) (c : t) : option Stat.t * t :=
  match inner c !! path with
  | Some (s, when) =>
      if now - when <? ttl c then (Some s, c)
      else (None, mk (delete path (inner c)) (ttl c))
  | None => (None, c)
  end.

Definition len (m : gmap bytes (Stat.t * Z)) : Z := Z.of_nat (size m).

Definition put (now : Z) (path : bytes) (stat : Stat.t) (c : t) : t :=
  let m := inner c in
  let m :=
    if len m >=? MAX_ENTRIES then
      let m := filter (fun kv => live (ttl c) now kv.2 = true) m in
      if len m >=? MAX_ENTRIES then ∅ else m
    else m in
  mk (<[path := (stat, now)]> m) (ttl c).

Definition invalidate (path : bytes) (c : t) : t := mk (delete path (inner c)) (ttl c).

Definition invalidate_prefix (prefix : bytes) (c : t) : t :=
  mk (filter (fun kv => starts_with kv.1 prefix = false) (inner c)) (ttl c).

(** *** The map it implements *)

Inductive op : Type :=
| Get (now : Z) (path : bytes)
| Put (now : Z) (path : bytes) (stat : Stat.t)
| Invalidate (path : bytes)
| InvalidatePrefix (prefix : bytes).

Definition step (o : op) (c : t) : t :=
  match o with
  | Get now p => (get now p c).2
  | Put now p s => put now p s c
  | Invalidate p => invalidate p c
  | InvalidatePrefix p => invalidate_prefix p c
  end.

Definition spec_step (o : op) (m : gmap bytes (Stat.t * Z)) : gmap bytes (Stat.t * Z) :=
  match o with
  | Get _ _ => m
  | Put now p s => <[p := (s, now)]> m
  | Invalidate p => delete p m
  | InvalidatePrefix p => filter (fun kv => starts_with kv.1 p = false) m
  end.

Definition run (ttl : Z) (os : list op) : t := foldl (fun c o => step o c) (new ttl) os.
Definition spec (os : list op) : gmap bytes (Stat.t * Z) := foldl (fun m o => spec_step o m) ∅ os.

Definition refines (m : gmap bytes (Stat.t * Z)) (c : t) : Prop :=
  inner c ⊆ m /\ len (inner c) <= MAX_ENTRIES.

Lemma len_insert_le p x m : len (<[p := x]> m) <= len m + 1.
Proof. unfold len. rewrite map_size_insert. destruct (m !! p); simpl; lia. Qed.
Lemma len_delete_le p m : len (delete p m) <= len m.
Proof.
  unfold len. enough (size (delete p m) <= size m)%nat by lia.
  apply map_subseteq_size. apply delete_subseteq.
Qed.
Lemma len_filter_le (P : bytes * (Stat.t * Z) -> Prop) `{!forall x, Decision (P x)} m :
  len (filter P m) <= len m.
Proof.
  unfold len. enough (size (filter P m) <= size m)%nat by lia.
  apply map_subseteq_size. apply map_filter_subseteq.
Qed.

Lemma put_refines now p s m c : refines m c -> refines (<[p := (s, now)]> m) (put now p s c).
Proof.
  intros [Hs Hl]. unfold put, refines, MAX_ENTRIES in *. simpl.
  assert (forall k : gmap bytes (Stat.t * Z), k ⊆ inner c -> len k < 8192 ->
    <[p := (s, now)]> k ⊆ <[p := (s, now)]> m /\ len (<[p := (s, now)]> k) <= 8192) as Hk.
  { intros k Hk Hn. split; [apply insert_mono; by etransitivity|].
    pose proof (len_insert_le p (s, now) k). lia. }
  destruct (Z.geb_spec (len (inner c)) 8192); [|by apply Hk].
  match goal with |- context [if len ?f >=? 8192 then _ else _] => destruct (Z.geb_spec (len f) 8192) end.
  - apply Hk; [apply map_empty_subseteq|done].
  - apply Hk; [apply map_filter_subseteq|done].
Qed.

Lemma step_refines o m c : refines m c -> refines (spec_step o m) (step o c).
Proof.
  destruct o as [now p|now p s|p|p]; cbn [step spec_step]; intros H.
  - destruct H as [Hs Hl]. unfold get. destruct (inner c !! p) as [[s when]|]; [|done].
    case_bool; [done|]. split; simpl.
    + transitivity (inner c); [apply delete_subseteq|done].
    + pose proof (len_delete_le p (inner c)). lia.
  - by apply put_refines.
  - destruct H as [Hs Hl]. split; simpl; [by apply delete_mono|].
    pose proof (len_delete_le p (inner c)). lia.
  - destruct H as [Hs Hl]. split; simpl.
    + apply map_subseteq_spec. intros k x. rewrite !map_lookup_filter_Some.
      intros [? ?]. split; [by eapply lookup_weaken|done].
    + etransitivity; [apply len_filter_le|done].
Qed.

Lemma run_refines ttl os : refines (spec os) (run ttl os).
Proof.
  induction os as [|o os IH] using rev_ind; [split; [done|by vm_compute]|].
  unfold run, spec. rewrite !foldl_app. by apply step_refines.
Qed.

Lemma run_ttl ttl0 os : ttl (run ttl0 os) = ttl0.
Proof.
  unfold run. induction os as [|o os IH] using rev_ind; [done|]. rewrite foldl_app. simpl.
  destruct o; cbn [step]; try done. unfold get. by repeat case_match.
Qed.

End StatCache.

(** C12: The stat cache implements a map with invalidation. After any sequence of
    gets, puts and invalidations (of a path, or of everything under a prefix),
    whatever was evicted meanwhile: a hit returns the value last put for that
    path, not invalidated since and younger than the TTL; and the cache never
    holds more than 8192 entries. *)
Theorem stat_cache_sound (ttl : Z) (os : list StatCache.op) (now : Z) (path : bytes) (s : Stat.t)
    (c' : StatCache.t) :
  StatCache.get now path (StatCache.run ttl os) = (Some s, c') ->
  (exists when, StatCache.spec os !! path = Some (s, when) /\ now - when < ttl)
  /\ StatCache.len (StatCache.inner (StatCache.run ttl os)) <= StatCache.MAX_ENTRIES.
Proof.
  intros Hg. destruct (StatCache.run_refines ttl os) as [Hs Hl]. split; [|done].
  unfold StatCache.get in Hg.
  destruct (StatCache.inner _ !! path) as [[s0 when]|] eqn:E; [|done].
  rewrite StatCache.run_ttl in Hg. destruct (Z.ltb_spec (now - when) ttl); simplify_eq.
  exists when. split; [|done]. by eapply lookup_weaken.
Qed.

Definition some_stat : Stat.t := Stat.mk 0x81A4 3 0 0 0 0 0 1 4096 8.

Lemma stat_cache_sound_witness :
  exists when, StatCache.spec [StatCache.Put 5 (bs "/a") some_stat; StatCache.InvalidatePrefix (bs "/b")]
                 !! bs "/a" = Some (some_stat, when) /\ 6 - when < 2.
Proof.
  destruct (stat_cache_sound 2
    [StatCache.Put 5 (bs "/a") some_stat; StatCache.InvalidatePrefix (bs "/b")] 6 (bs "/a") some_stat
    (StatCache.run 2 [StatCache.Put 5 (bs "/a") some_stat; StatCache.InvalidatePrefix (bs "/b")]))
    as [H _]; [vm_compute; reflexivity|exact H].
Defined.

(** ** Directory listings *)

Module DirCache.

Abbreviation listing := (list DirEntry.t).

Record t : Type := mk {
  map : gmap bytes (listing * Z);
  order : list bytes;
  epoch : Z;
  ttl : Z;
  capacity : Z;
}.

Definition new (ttl cap : Z) : t := mk ∅ [] 0 ttl (Z.max cap 1).

Definition remove_entry (path : bytes) (c : t) : t :=
  mk (delete path (map c)) (List.filter (fun k => negb (bool_decide (k = path))) (order c))
    (epoch c) (ttl c) (capacity c).

Definition get (now : Z) (path : bytes) (c : t) : option listing * t :=
  match map c !! path with
  | None => (None, c)
  | Some (entries, when) =>
      if now - when <? ttl c then (Some entries, c) else (None, remove_entry path c)
  end.

(** [while order.len() >= capacity { pop_front; map.remove }] *)
Fixpoint evict (cap : Z) (order : list bytes) (m : gmap bytes (listing * Z))
    : list bytes * gmap bytes (listing * Z) :=
  match order with
  | [] => ([], m)
  | oldest :: rest =>
      if zlen order >=? cap then evict cap rest (delete oldest m) else (order, m)
  end.

(** [position] then [remove]: without the first occurrence. *)
Fixpoint remove_first (path : bytes) (l : list bytes) : list bytes :=
  match l with
  | [] => []
  | k :: l => if bool_decide (k = path) then l else k :: remove_first path l
  end.

Definition put (now : Z) (path : bytes) (entries : listing) (e : Z) (c : t) : t :=
  if negb (epoch c =? e) then c
  else
    let '(o, m) := evict (capacity c) (remove_first path (order c)) (map c) in
    mk (<[path := (entries, now)]> m) (o ++ [path]) (epoch c) (ttl c) (capacity c).

Definition bump (c : t) : t := mk (map c) (order c) (as_u64 (epoch c + 1)) (ttl c) (capacity c).

Definition invalidate (path : bytes) (c : t) : t := remove_entry path (bump c).

Definition invalidate_prefix (prefix : bytes) (c : t) : t :=
  let c := bump c in
  let dropped := List.filter (fun k => starts_with k prefix) (map_to_list (map c)).*1 in
  mk (foldr delete (map c) dropped)
    (List.filter (fun k => negb (bool_decide (k ∈ dropped))) (order c))
    (epoch c) (ttl c) (capacity c).

(** *** The invariant: the order lists the map's keys, each once, within capacity *)

Record inv (c : t) : Prop := {
  inv_nodup : NoDup (order c);
  inv_dom : forall p, p ∈ order c <-> is_Some (map c !! p);
  inv_cap : zlen (order c) <= capacity c;
  inv_pos : 1 <= capacity c;
}.

Lemma new_inv ttl cap : inv (new ttl cap).
Proof.
  split; simpl; [constructor| |rewrite zlen_nil; lia|lia].
  intros p. rewrite lookup_empty. split; [by intros ?%not_elem_of_nil|by intros [? ?]].
Qed.

Lemma elem_of_filter_bool {A} (f : A -> bool) l x : x ∈ List.filter f l <-> x ∈ l /\ f x = true.
Proof. rewrite !list_elem_of_In. apply List.filter_In. Qed.

Lemma zlen_filter_le {A} (f : A -> bool) l : zlen (List.filter f l) <= zlen l.
Proof. unfold zlen. pose proof (List.filter_length_le f l). lia. Qed.

Lemma NoDup_filter_bool {A} (f : A -> bool) l : NoDup l -> NoDup (List.filter f l).
Proof. rewrite !NoDup_ListNoDup. apply List.NoDup_filter. Qed.

Lemma remove_entry_inv p c : inv c -> inv (remove_entry p c).
Proof.
  intros [H1 H2 H3 H4]. split; simpl; [by apply NoDup_filter_bool| | |done].
  - intros q. rewrite elem_of_filter_bool, H2, negb_true_iff, bool_decide_eq_false.
    destruct (decide (q = p)) as [->|Hne]; [rewrite lookup_delete_eq; by naive_solver|].
    rewrite lookup_delete_ne by done. naive_solver.
  - pose proof (zlen_filter_le (fun k => negb (bool_decide (k = p))) (order c)). lia.
Qed.

(** Eviction keeps a suffix of the order and the map's agreement with it. *)
Lemma evict_spec cap path o m o' m' :
  1 <= cap -> NoDup o -> (forall p, p <> path -> p ∈ o <-> is_Some (m !! p)) -> path ∉ o ->
  evict cap o m = (o', m') ->
  NoDup o' /\ zlen o' < cap /\ (forall p, p <> path -> p ∈ o' <-> is_Some (m' !! p))
  /\ path ∉ o'.
Proof.
  intros Hcap. revert m. induction o as [|k o IH]; intros m Hnd Hdom Hp; cbn [evict].
  { intros; simplify_eq. rewrite zlen_nil. split_and!; [done|lia|done|done]. }
  apply NoDup_cons in Hnd as [Hk Hnd]. apply not_elem_of_cons in Hp as [Hpk Hp].
  destruct (Z.geb_spec (zlen (k :: o)) cap).
  - apply IH; [done| |done]. intros p Hpp. destruct (decide (p = k)) as [->|Hne].
    + rewrite lookup_delete_eq. by split; [|intros [? ?]].
    + rewrite lookup_delete_ne by done. rewrite <- Hdom by done. rewrite elem_of_cons. naive_solver.
  - intros; simplify_eq. split_and!; [by constructor|lia|done|]. by apply not_elem_of_cons.
Qed.

Lemma remove_first_spec path l : NoDup l -> NoDup (remove_first path l) /\
  (forall p, p ∈ remove_first path l <-> p ∈ l /\ p <> path).
Proof.
  induction 1 as [|k l Hk Hnd [IH1 IH2]]; simpl; [split; [constructor|set_solver]|].
  case_bool; bool_to_prop.
  - subst k. split; [done|]. intros p. rewrite elem_of_cons. split; [|naive_solver].
    intros Hp. split; [by right|]. by intros ->.
  - split; [constructor; [by rewrite IH2; intros [? ?]|done]|].
    intros p. rewrite !elem_of_cons, IH2. naive_solver.
Qed.

Lemma put_inv now path entries e c : inv c -> inv (put now path entries e c).
Proof.
  intros [H1 H2 H3 H4]. unfold put. case_bool; [done|].
  destruct (remove_first_spec path (order c) H1) as [Hnd Hdom].
  destruct (evict _ _ _) as [o m] eqn:E.
  apply (evict_spec _ path) in E as (E1 & E2 & E3 & E4); [|done|done| |].
  - split; simpl; [|  |len_lia|done].
    + apply NoDup_app. split_and!; [done| |apply NoDup_singleton].
      intros p Hp ->%list_elem_of_singleton. done.
    + intros p. rewrite elem_of_app, list_elem_of_singleton.
      destruct (decide (p = path)) as [->|Hne]; [rewrite lookup_insert_eq; naive_solver|].
      rewrite lookup_insert_ne, <- E3 by done. naive_solver.
  - intros p Hp. rewrite Hdom, H2. naive_solver.
  - rewrite Hdom. naive_solver.
Qed.

Lemma bump_inv c : inv c -> inv (bump c).
Proof. by intros [? ? ? ?]. Qed.

Lemma lookup_foldr_delete {V} (l : list bytes) (m : gmap bytes V) p :
  foldr delete m l !! p = if bool_decide (p ∈ l) then None else m !! p.
Proof.
  induction l as [|k l IH]; simpl; [done|].
  destruct (decide (p = k)) as [->|Hne].
  - rewrite lookup_delete_eq, bool_decide_eq_true_2; [done|set_solver].
  - rewrite lookup_delete_ne, IH by done.
    by rewrite (bool_decide_ext (p ∈ l) (p ∈ k :: l)) by set_solver.
Qed.

(** Exactly the directories at or under the prefix are dropped. *)
Lemma invalidate_prefix_lookup prefix c p :
  map (invalidate_prefix prefix c) !! p = if starts_with p prefix then None else map c !! p.
Proof.
  unfold invalidate_prefix; simpl. rewrite lookup_foldr_delete.
  destruct (map c !! p) as [x|] eqn:E.
  - erewrite (bool_decide_ext _ (starts_with p prefix = true)).
    + by destruct (starts_with p prefix).
    + rewrite elem_of_filter_bool, list_elem_of_fmap. split; [naive_solver|]. intros H. split; [|done].
      exists (p, x). split; [done|]. by apply elem_of_map_to_list.
  - by repeat case_bool.
Qed.

Lemma invalidate_prefix_inv prefix c : inv c -> inv (invalidate_prefix prefix c).
Proof.
  intros Hi. pose proof (invalidate_prefix_lookup prefix c) as Hl. destruct Hi as [H1 H2 H3 H4].
  split; [by apply NoDup_filter_bool| | |done].
  - intros p. rewrite Hl. simpl. rewrite elem_of_filter_bool, negb_true_iff, bool_decide_eq_false.
    rewrite elem_of_filter_bool, list_elem_of_fmap, H2.
    destruct (starts_with p prefix) eqn:Ep.
    + split; [|by intros [? ?]]. intros [[x Hx] Hn]. destruct Hn. split; [|done].
      exists (p, x). split; [done|]. by apply elem_of_map_to_list.
    + split; [naive_solver|]. intros Hs. split; [done|]. naive_solver.
  - simpl. match goal with |- zlen (List.filter ?f ?l) <= _ => pose proof (zlen_filter_le f l) end. lia.
Qed.

(** *** Traces *)

Inductive op : Type :=
| Get (now : Z) (path : bytes)
| Put (now : Z) (path : bytes) (entries : listing) (e : Z)
| Invalidate (path : bytes)
| InvalidatePrefix (prefix : bytes).

Definition step (o : op) (c : t) : t :=
  match o with
  | Get now p => (get now p c).2
  | Put now p l e => put now p l e c
  | Invalidate p => invalidate p c
  | InvalidatePrefix p => invalidate_prefix p c
  end.
Definition steps (os : list op) (c : t) : t := foldl (fun c o => step o c) c os.

Definition invalidations (os : list op) : Z :=
  zlen (List.filter (fun o => match o with Invalidate _ | InvalidatePrefix _ => true | _ => false end) os).

Lemma step_inv o c : inv c -> inv (step o c).
Proof.
  destruct o; simpl; intros H.
  - unfold get. repeat case_match; simpl; auto using remove_entry_inv.
  - by apply put_inv.
  - by apply remove_entry_inv, bump_inv.
  - by apply invalidate_prefix_inv.
Qed.

Lemma steps_inv os c : inv c -> inv (steps os c).
Proof. revert c. induction os; simpl; auto using step_inv. Qed.

Lemma steps_epoch os c :
  0 <= epoch c < 2 ^ 64 -> epoch (steps os c) = (epoch c + invalidations os) mod 2 ^ 64.
Proof.
  revert c. induction os as [|o os IH]; intros c Hc.
  { simpl. change (invalidations []) with 0. by rewrite Z.add_0_r, Z.mod_small. }
  change (steps (o :: os) c) with (steps os (step o c)).
  assert (epoch (step o c) = (epoch c + invalidations [o]) mod 2 ^ 64) as E.
  { destruct o; simpl.
    - change (invalidations [Get now path]) with 0. rewrite Z.add_0_r, Z.mod_small by done.
      unfold get. by repeat case_match.
    - change (invalidations [Put now path entries e]) with 0. rewrite Z.add_0_r, Z.mod_small by done.
      unfold put. by repeat case_match.
    - done.
    - done. }
  rewrite IH, E; [|rewrite E; apply Z.mod_pos_bound; lia].
  rewrite Zplus_mod_idemp_l. f_equal. rewrite <- Z.add_assoc. f_equal.
  unfold invalidations. cbn [List.filter]. destruct o; rewrite ?zlen_cons, ?zlen_nil; lia.
Qed.

End DirCache.

(** No listing survives its invalidation. A reader takes the epoch, fetches a
    listing and stores it; if anything was invalidated in between (by another
    thread, fewer than 2^64 times), the store changes nothing, and otherwise the
    listing is stored. Throughout, the eviction order lists exactly the cached
    directories, each once, and never more than the capacity. *)
Theorem dir_cache_no_stale_listing (ttl cap now : Z) (before during : list DirCache.op)
    (path : bytes) (entries : list DirEntry.t) :
  DirCache.invalidations during < 2 ^ 64 ->
  let c0 := DirCache.steps before (DirCache.new ttl cap) in
  let c1 := DirCache.steps during c0 in
  let c2 := DirCache.put now path entries (DirCache.epoch c0) c1 in
  (0 < DirCache.invalidations during -> c2 = c1)
  /\ (DirCache.invalidations during = 0 -> DirCache.map c2 !! path = Some (entries, now))
  /\ DirCache.inv c2.
Proof.
  intros Hn c0 c1 c2.
  assert (0 <= DirCache.epoch c0 < 2 ^ 64) as He0.
  { unfold c0. rewrite DirCache.steps_epoch by done. apply Z.mod_pos_bound. lia. }
  pose proof (DirCache.steps_epoch during c0 He0) as He1. fold c1 in He1.
  split_and!.
  - intros Hpos. unfold c2, DirCache.put. rewrite He1.
    replace (_ =? DirCache.epoch c0) with false; [done|]. symmetry. apply Z.eqb_neq.
    destruct (Z.lt_ge_cases (DirCache.epoch c0 + DirCache.invalidations during) (2 ^ 64)).
    + rewrite Z.mod_small; lia.
    + rewrite <- (Z.mod_unique_pos _ _ 1 (DirCache.epoch c0 + DirCache.invalidations during - 2 ^ 64)); lia.
  - intros H0. unfold c2, DirCache.put. rewrite He1, H0, Z.add_0_r, Z.mod_small, Z.eqb_refl by done.
    cbn [negb]. destruct (DirCache.evict _ _ _). simpl. by rewrite lookup_insert_eq.
  - apply DirCache.put_inv, DirCache.steps_inv, DirCache.steps_inv, DirCache.new_inv.
Qed.

Lemma dir_cache_no_stale_listing_witness :
  let c0 := DirCache.new 2 8 in
  let c1 := DirCache.steps [DirCache.Invalidate (bs "/a")] c0 in
  DirCache.put 1 (bs "/a") [] (DirCache.epoch c0) c1 = c1.
Proof.
  destruct (dir_cache_no_stale_listing 2 8 1 [] [DirCache.Invalidate (bs "/a")] (bs "/a") [])
    as [H _]; [vm_compute; reflexivity|]. apply H. vm_compute. reflexivity.
Defined.
