(* ===== verification/Filesystem.v ===== *)
(** * The FUSE file system (adbfs/src/filesystem.rs)

    Every handler as a state transformer of [fs]: the inode tables, the two
    caches, the open files and the proxy. The proxy connection is the class
    [FsProxy] (the methods of [SyncProxy]); the kernel's directory buffer is
    the class [DirBuf]. A handler runs at one reading [now] of the clock. *)

From stdpp Require Import base list gmap strings.
From S2P Require Import Prelude RustStd ProxyOps Libc ProxyClient Cache.

(** The synchronous wrapper: one method per proxy operation. *)
Class FsProxy (P : Type) : Type := {
  p_stat : bytes -> P -> presult Stat.t * P;
  p_lstat : bytes -> P -> presult Stat.t * P;
  p_readlink : bytes -> P -> presult bytes * P;
  p_symlink : bytes -> bytes -> P -> presult unit * P;
  p_listdir : bytes -> P -> presult (list DirEntry.t) * P;
  p_open : bytes -> Z -> Z -> P -> presult ProxyFile * P;
  p_read_at : ProxyFile -> Z -> Z -> P -> presult bytes * P;
  p_write_at : ProxyFile -> Z -> bytes -> P -> presult unit * P;
  p_close : ProxyFile -> P -> presult unit * P;
  p_fstat : ProxyFile -> P -> presult Stat.t * P;
  p_mkdir : bytes -> Z -> P -> presult unit * P;
  p_unlink : bytes -> P -> presult unit * P;
  p_rmdir : bytes -> P -> presult unit * P;
  p_rename : bytes -> bytes -> P -> presult unit * P;
  p_truncate : bytes -> Z -> P -> presult unit * P;
}.

(** The proxy thread: each request is the client method of the same name.
    [fuel] bounds the pages of a listing. *)
Definition client_proxy {S : Type} `{!Net S} (fuel : nat) : FsProxy (client S) := {|
  p_stat := stat;
  p_lstat := lstat;
  p_readlink := ProxyClient.readlink;
  p_symlink := ProxyClient.symlink;
  p_listdir p c :=
    match listdir fuel p c with (Some r, c) => (r, c) | (None, c) => (Err Closed, c) end;
  p_open := ProxyClient.open;
  p_read_at := read_at;
  p_write_at := write_at;
  p_close f c := let '(r, _, c) := ProxyClient.close f c in (r, c);
  p_fstat := ProxyClient.fstat;
  p_mkdir := ProxyClient.mkdir;
  p_unlink := ProxyClient.unlink;
  p_rmdir := ProxyClient.rmdir;
  p_rename := ProxyClient.rename;
  p_truncate := ProxyClient.truncate;
|}.

(** ** Constants and replies *)

Definition TTL : Z := 2.
Definition DIR_TTL : Z := 2.
Definition DIR_CACHE_CAPACITY : Z := 8.
Definition BLOCK_SIZE : Z := 4096.
Definition ADB_UID : Z := 2000.
Definition ADB_GID : Z := 2000.
Definition ROOT : Z := 1.

Definition EIO : Z := 5.
Definition EBADF : Z := 9.
Definition EAGAIN : Z := 11.
Definition ENOSYS : Z := 38.
Definition ENOTEMPTY : Z := 39.

Definition RENAME_NOREPLACE : Z := 1.
Definition RENAME_EXCHANGE : Z := 2.

Inductive FileType : Type := Directory | Symlink | RegularFile.

Record FileAttr : Type := mkAttr {
  fa_ino : Z; fa_size : Z; fa_blocks : Z; fa_atime : Z; fa_mtime : Z; fa_ctime : Z;
  fa_crtime : Z; fa_kind : FileType; fa_perm : Z; fa_nlink : Z; fa_uid : Z; fa_gid : Z;
  fa_rdev : Z; fa_blksize : Z; fa_flags : Z;
}.

(** One [ReplyDirectory::add]: inode, next offset, kind, name. *)
Record dirent : Type := mkDirent { de_ino : Z; de_off : Z; de_kind : FileType; de_name : bytes }.

(** The reply buffer of a [readdir]: [true] is "full", the entry was not added. *)
Class DirBuf (B : Type) : Type := { dir_add : dirent -> B -> bool * B }.

Inductive reply (B : Type) : Type :=
| RError (errno : Z)
| REntry (attr : FileAttr)
| RAttr (attr : FileAttr)
| RData (data : bytes)
| ROpened (fh : Z)
| RWritten (n : Z)
| RCreated (attr : FileAttr) (fh : Z)
| RDirectory (buf : B)
| RStatfs (blocks bfree bavail files ffree bsize namelen frsize : Z)
| ROk.
Arguments RError {B} _. Arguments REntry {B} _. Arguments RAttr {B} _. Arguments RData {B} _.
Arguments ROpened {B} _. Arguments RWritten {B} _. Arguments RCreated {B} _ _.
Arguments RDirectory {B} _. Arguments RStatfs {B} _ _ _ _ _ _ _ _. Arguments ROk {B}.

(** ** State *)

Record fs (P : Type) : Type := mkFs {
  proxy : P;
  cache : StatCache.t;
  dir_cache : DirCache.t;
  ino_to_path : gmap Z bytes;
  path_to_ino : gmap bytes Z;
  next_ino : Z;
  open_files : gmap Z ProxyFile;
  next_fh : Z;
}.
Arguments mkFs {P} _ _ _ _ _ _ _ _.
Arguments proxy {P} f. Arguments cache {P} f. Arguments dir_cache {P} f.
Arguments ino_to_path {P} f. Arguments path_to_ino {P} f. Arguments next_ino {P} f.
Arguments open_files {P} f. Arguments next_fh {P} f.

Definition with_proxy {P} (p : P) : fs P :=
  mkFs p (StatCache.new TTL) (DirCache.new DIR_TTL DIR_CACHE_CAPACITY)
    {[ROOT := bs "/"]} {[bs "/" := ROOT]} 100 ∅ 1.

(** ** Pure helpers *)

Definition kind_from_mode (mode : Z) : FileType :=
  if FileMode.is_dir mode then Directory
  else if FileMode.is_symlink mode then Symlink
  else RegularFile.

Definition attr_from_stat (ino : Z) (s : Stat.t) : FileAttr :=
  mkAttr ino (Stat.size s) (Stat.blocks s) (Z.max (Stat.atime s) 0) (Z.max (Stat.mtime s) 0)
    (Z.max (Stat.ctime s) 0) (Z.max (Stat.ctime s) 0) (kind_from_mode (Stat.mode s))
    (FileMode.permissions (Stat.mode s) mod 2 ^ 16) (Stat.nlink s) ADB_UID ADB_GID 0
    (Z.max (Stat.blksize s) BLOCK_SIZE) 0.

Definition proxy_to_errno (e : ProxyError) : Z :=
  match e with
  | StatusErr Status.NotFound _ => ENOENT
  | StatusErr Status.PermissionDenied _ => EACCES
  | StatusErr Status.IsDir _ => EISDIR
  | StatusErr Status.NotDir _ => ENOTDIR
  | StatusErr Status.Exists _ => EEXIST
  | StatusErr Status.NotEmpty _ => ENOTEMPTY
  | StatusErr Status.NoSpace _ => ENOSPC
  | StatusErr Status.NameTooLong _ => ENAMETOOLONG
  | StatusErr Status.InvalidArg _ => EINVAL
  | Busy => EAGAIN
  | _ => EIO
  end.

(** [path_to_string] *)
Definition path_to_string (p : bytes) : option bytes := if utf8_valid p then Some p else None.

(** [old.strip_prefix(src).unwrap_or("")] for [old] at or under [src]. *)
Definition strip_prefix (old src : bytes) : bytes :=
  if bool_decide (old = src) then []
  else if bool_decide (src = bs "/") then zdrop 1 old
  else zdrop (zlen src + 1) old.

(** ** Handlers *)

Section handlers.
Context {P B : Type} `{!FsProxy P} `{!DirBuf B}.
#[local] Abbreviation state := (fs P).

Definition F (A : Type) : Type := state -> A * state.
#[local] Instance F_ret : MRet F := fun A a f => (a, f).
#[local] Instance F_bind : MBind F := fun A C k m f => let '(a, f) := m f in k a f.

Definition gets {A} (g : state -> A) : F A := fun f => (g f, f).
Definition modify (g : state -> state) : F unit := fun f => (tt, g f).
Definition call {A} (op : P -> A * P) : F A := fun f =>
  let '(a, p) := op (proxy f) in
  (a, mkFs p (cache f) (dir_cache f) (ino_to_path f) (path_to_ino f) (next_ino f)
         (open_files f) (next_fh f)).

Definition set_cache (c : StatCache.t) (f : state) : state :=
  mkFs (proxy f) c (dir_cache f) (ino_to_path f) (path_to_ino f) (next_ino f) (open_files f)
    (next_fh f).
Definition set_dir_cache (d : DirCache.t) (f : state) : state :=
  mkFs (proxy f) (cache f) d (ino_to_path f) (path_to_ino f) (next_ino f) (open_files f)
    (next_fh f).
Definition set_maps (i2p : gmap Z bytes) (p2i : gmap bytes Z) (f : state) : state :=
  mkFs (proxy f) (cache f) (dir_cache f) i2p p2i (next_ino f) (open_files f) (next_fh f).
Definition set_open_files (o : gmap Z ProxyFile) (n : Z) (f : state) : state :=
  mkFs (proxy f) (cache f) (dir_cache f) (ino_to_path f) (path_to_ino f) (next_ino f) o n.

Definition cache_put (now : Z) (p : bytes) (s : Stat.t) : F unit :=
  modify (fun f => set_cache (StatCache.put now p s (cache f)) f).
Definition cache_invalidate (p : bytes) : F unit :=
  modify (fun f => set_cache (StatCache.invalidate p (cache f)) f).
Definition cache_invalidate_prefix (p : bytes) : F unit :=
  modify (fun f => set_cache (StatCache.invalidate_prefix p (cache f)) f).
Definition cache_get (now : Z) (p : bytes) : F (option Stat.t) := fun f =>
  let '(r, c) := StatCache.get now p (cache f) in (r, set_cache c f).
Definition dir_invalidate (p : bytes) : F unit :=
  modify (fun f => set_dir_cache (DirCache.invalidate p (dir_cache f)) f).
Definition dir_invalidate_prefix (p : bytes) : F unit :=
  modify (fun f => set_dir_cache (DirCache.invalidate_prefix p (dir_cache f)) f).
Definition dir_get (now : Z) (p : bytes) : F (option (list DirEntry.t)) := fun f =>
  let '(r, c) := DirCache.get now p (dir_cache f) in (r, set_dir_cache c f).

Definition invalidate_parent_listing (path : bytes) : F unit :=
  match parent path with
  | Some dir => dir_invalidate dir ;; cache_invalidate dir
  | None => mret tt
  end.

Definition invalidate_after_rename (src dst : bytes) (is_dir : bool) : F unit :=
  invalidate_parent_listing src ;;
  invalidate_parent_listing dst ;;
  if is_dir then
    cache_invalidate_prefix src ;; cache_invalidate_prefix dst ;;
    dir_invalidate_prefix src ;; dir_invalidate_prefix dst
  else cache_invalidate src ;; cache_invalidate dst.

Definition forget_ino (ino : Z) : F unit :=
  if ino =? ROOT then mret tt
  else modify (fun f =>
    match ino_to_path f !! ino with
    | Some path => set_maps (delete ino (ino_to_path f)) (delete path (path_to_ino f)) f
    | None => f
    end).

Definition ino_for (path : bytes) : F Z := fun f =>
  match path_to_ino f !! path with
  | Some ino => (ino, f)
  | None =>
      let ino := next_ino f in
      (ino, mkFs (proxy f) (cache f) (dir_cache f) (<[ino := path]> (ino_to_path f))
              (<[path := ino]> (path_to_ino f)) (as_u64 (ino + 1)) (open_files f) (next_fh f))
  end.

Definition resolve_child (par : Z) (name : bytes) : F (option bytes) :=
  gets (fun f => (fun p => path_join p name) <$> ino_to_path f !! par).

Definition adopt_listing_entry (now : Z) (par : bytes) (e : DirEntry.t) (fresh : bool) : F Z :=
  let child := path_join par (DirEntry.name e) in
  ino ← ino_for child;
  (if fresh then cache_put now child (DirEntry.stat e) else mret tt) ;;
  mret ino.

(** The inode's path, as a string for the proxy, or EINVAL. *)
Definition with_path (ino : Z) (k : bytes -> F (reply B)) : F (reply B) :=
  p ← gets (fun f => ino_to_path f !! ino);
  match p with
  | None => mret (RError EINVAL)
  | Some path =>
      match path_to_string path with None => mret (RError EINVAL) | Some s => k s end
  end.
(** The same for a child of [par]. *)
Definition with_child (par : Z) (name : bytes) (k : bytes -> F (reply B)) : F (reply B) :=
  p ← resolve_child par name;
  match p with
  | None => mret (RError EINVAL)
  | Some path =>
      match path_to_string path with None => mret (RError EINVAL) | Some s => k s end
  end.

Definition fail {A} (e : ProxyError) : F (reply A) := mret (RError (proxy_to_errno e)).

Definition lookup (now par : Z) (name : bytes) : F (reply B) :=
  with_child par name (fun path =>
    res ← call (p_lstat path);
    match res with
    | Ok s =>
        cache_put now path s ;; ino ← ino_for path; mret (REntry (attr_from_stat ino s))
    | Err (StatusErr Status.NotFound _) => mret (RError ENOENT)
    | Err e => fail e
    end).

(** The lookup count is ignored. *)
Definition forget (ino nlookup : Z) : F unit := forget_ino ino.

(** [fh.and_then(|fh| self.open_files.lock().get(&fh)...)] *)
Definition opened (fh : option Z) : F (option ProxyFile) :=
  gets (fun f => h ← fh; open_files f !! h).

(** [getattr]: the path's string form is needed only past the cache. *)
Definition getattr (now ino : Z) (fh : option Z) : F (reply B) :=
  p ← gets (fun f => ino_to_path f !! ino);
  match p with
  | None => mret (RError EINVAL)
  | Some path =>
      open ← opened fh;
      match open with
      | Some file =>
          r ← call (p_fstat file);
          match r with Ok s => mret (RAttr (attr_from_stat ino s)) | Err e => fail e end
      | None =>
          cached ← cache_get now path;
          match cached with
          | Some s => mret (RAttr (attr_from_stat ino s))
          | None =>
              match path_to_string path with
              | None => mret (RError EINVAL)
              | Some path_str =>
                  r ← call (p_lstat path_str);
                  match r with
                  | Ok s => cache_put now path s ;; mret (RAttr (attr_from_stat ino s))
                  | Err e => fail e
                  end
              end
          end
      end
  end.

(** The entries of a directory from position [n] on; the result of [add] is ignored. *)
Fixpoint add_entries (now : Z) (path : bytes) (fresh : bool) (n : Z) (l : list DirEntry.t) (buf : B)
    : F B :=
  match l with
  | [] => mret buf
  | e :: l =>
      child_ino ← adopt_listing_entry now path e fresh;
      let '(_, buf) :=
        dir_add (mkDirent child_ino (n + 3) (kind_from_mode (Stat.mode (DirEntry.stat e)))
                   (DirEntry.name e)) buf in
      add_entries now path fresh (n + 1) l buf
  end.

(** [self.dir_cache.put(...)] under the epoch read before the fetch. *)
Definition dir_put (now : Z) (path : bytes) (l : list DirEntry.t) (epoch : Z) : F unit :=
  modify (fun f => set_dir_cache (DirCache.put now path l epoch (dir_cache f)) f).

Definition list_directory (now : Z) (path : bytes) : F (presult (list DirEntry.t * bool)) :=
  cached ← dir_get now path;
  match cached with
  | Some l => mret (Ok (l, false))
  | None =>
      epoch ← gets (fun f => DirCache.epoch (dir_cache f));
      r ← call (p_listdir path);
      match r with
      | Ok l => dir_put now path l epoch ;; mret (Ok (l, true))
      | Err e => mret (Err e)
      end
  end.

Definition readdir (now ino offset : Z) (buf : B) : F (reply B) :=
  with_path ino (fun path =>
    r ← list_directory now path;
    match r with
    | Err e => fail e
    | Ok (entries, fresh) =>
        let cur := offset in
        let '(buf, cur) :=
          if cur =? 0 then ((dir_add (mkDirent ino 1 Directory (bs ".")) buf).2, 1) else (buf, cur) in
        let '(buf, cur) :=
          if cur =? 1 then ((dir_add (mkDirent ROOT 2 Directory (bs "..")) buf).2, 2) else (buf, cur) in
        let skip := Z.max 0 (cur - 2) in
        buf ← add_entries now path fresh skip (zdrop skip entries) buf;
        mret (RDirectory buf)
    end).

Definition default_stat (mode size nlink blocks : Z) : Stat.t :=
  Stat.mk mode size 0 0 0 ADB_UID ADB_GID nlink BLOCK_SIZE blocks.

Definition symlink (now par : Z) (name target : bytes) : F (reply B) :=
  p ← resolve_child par name;
  match p with
  | None => mret (RError EINVAL)
  | Some path =>
      r ← call (p_symlink target path);
      match r with
      | Err e => fail e
      | Ok _ =>
          st ← call (p_lstat (from_utf8_lossy path));
          ino ← ino_for path;
          let s := default (default_stat FileMode.symlink (zlen target) 1 0) (ok st) in
          invalidate_parent_listing path ;;
          cache_put now path s ;;
          mret (REntry (attr_from_stat ino s))
      end
  end.

Definition readlink (ino : Z) : F (reply B) :=
  with_path ino (fun path =>
    r ← call (p_readlink path);
    match r with Ok target => mret (RData target) | Err e => fail e end).

(** The wire flags of an [open(2)]. *)
Definition open_flags (flags : Z) : Z :=
  let has b := negb (Z.land flags b =? 0) in
  let o := OpenFlags.READ in
  let o := if has O_WRONLY then OpenFlags.WRITE else o in
  let o := if has O_RDWR then Z.lor OpenFlags.READ OpenFlags.WRITE else o in
  let o := if has O_CREAT then Z.lor o OpenFlags.CREATE else o in
  let o := if has O_TRUNC then Z.lor o OpenFlags.TRUNC else o in
  if has O_APPEND then Z.lor o OpenFlags.APPEND else o.

(** A new file handle for an open device file. *)
Definition new_handle (file : ProxyFile) : F Z := fun f =>
  let fh := next_fh f in
  (fh, set_open_files (<[fh := file]> (open_files f)) (as_u64 (fh + 1)) f).

Definition open (ino flags : Z) : F (reply B) :=
  with_path ino (fun path =>
    let oflags := open_flags flags in
    res ← call (p_open path oflags 0x1A4);
    (if OpenFlags.contains oflags OpenFlags.TRUNC
     then cache_invalidate path ;; invalidate_parent_listing path else mret tt) ;;
    match res with
    | Ok file => fh ← new_handle file; mret (ROpened fh)
    | Err e => fail e
    end).

Definition read (fh offset size : Z) : F (reply B) :=
  file ← gets (fun f => open_files f !! fh);
  match file with
  | None => mret (RError EBADF)
  | Some file =>
      r ← call (p_read_at file offset size);
      match r with Ok d => mret (RData d) | Err e => fail e end
  end.

Definition write (ino fh offset : Z) (data : bytes) : F (reply B) :=
  file ← gets (fun f => open_files f !! fh);
  match file with
  | None => mret (RError EBADF)
  | Some file =>
      r ← call (p_write_at file offset data);
      match r with
      | Ok _ =>
          p ← gets (fun f => ino_to_path f !! ino);
          match p with
          | Some path => cache_invalidate path ;; invalidate_parent_listing path
          | None => mret tt
          end ;;
          mret (RWritten (as_u32 (zlen data)))
      | Err e => fail e
      end
  end.

Definition release (ino fh : Z) : F (reply B) :=
  file ← gets (fun f => open_files f !! fh);
  modify (fun f => set_open_files (delete fh (open_files f)) (next_fh f) f) ;;
  match file with Some file => call (p_close file) ;; mret tt | None => mret tt end ;;
  p ← gets (fun f => ino_to_path f !! ino);
  match p with Some path => cache_invalidate path | None => mret tt end ;;
  mret ROk.

Definition create (now par : Z) (name : bytes) (mode flags : Z) : F (reply B) :=
  with_child par name (fun path =>
    let has b := negb (Z.land flags b =? 0) in
    let o := Z.lor (Z.lor OpenFlags.READ OpenFlags.WRITE) OpenFlags.CREATE in
    let o := if has O_TRUNC then Z.lor o OpenFlags.TRUNC else o in
    let o := if has O_EXCL then Z.lor o OpenFlags.EXCL else o in
    res ← call (p_open path o mode);
    match res with
    | Err e => fail e
    | Ok file =>
        fh ← new_handle file;
        ino ← ino_for path;
        st ← call (p_stat path);
        let s := default (default_stat FileMode.file 0 1 0) (ok st) in
        invalidate_parent_listing path ;;
        cache_put now path s ;;
        mret (RCreated (attr_from_stat ino s) fh)
    end).

Definition mkdir (now par : Z) (name : bytes) (mode : Z) : F (reply B) :=
  with_child par name (fun path =>
    r ← call (p_mkdir path mode);
    match r with
    | Err e => fail e
    | Ok _ =>
        ino ← ino_for path;
        st ← call (p_stat path);
        let s := default (default_stat FileMode.dir 4096 2 8) (ok st) in
        invalidate_parent_listing path ;;
        cache_put now path s ;;
        mret (REntry (attr_from_stat ino s))
    end).

Definition unlink (par : Z) (name : bytes) : F (reply B) :=
  with_child par name (fun path =>
    r ← call (p_unlink path);
    match r with
    | Ok _ => invalidate_parent_listing path ;; cache_invalidate path ;; mret ROk
    | Err e => fail e
    end).

Definition rmdir (par : Z) (name : bytes) : F (reply B) :=
  with_child par name (fun path =>
    r ← call (p_rmdir path);
    match r with
    | Ok _ =>
        dir_invalidate path ;; invalidate_parent_listing path ;; cache_invalidate path ;; mret ROk
    | Err e => fail e
    end).

(** The inode tables after a successful rename: the inode of an overwritten
    destination is dropped, the source's is moved and, for a directory, those
    of everything known under it. *)
Definition drop_dst (dst : bytes) (i2p : gmap Z bytes) (p2i : gmap bytes Z)
    : gmap Z bytes * gmap bytes Z :=
  match p2i !! dst with
  | Some dst_ino => (delete dst_ino i2p, delete dst p2i)
  | None => (i2p, p2i)
  end.

(** The inodes taken out of [path_to_ino], with their new paths. *)
Definition take_moved (src dst : bytes) (is_dir : bool) (p2i : gmap bytes Z)
    : list (Z * bytes) * gmap bytes Z :=
  let '(moved, p2i) :=
    match p2i !! src with
    | Some ino => ([(ino, dst)], delete src p2i)
    | None => ([], p2i)
    end in
  if is_dir then
    let stale := List.filter (fun p => starts_with p src) (map_to_list p2i).*1 in
    foldl (fun '(moved, p2i) old =>
      match p2i !! old with
      | Some ino => (moved ++ [(ino, path_join dst (strip_prefix old src))], delete old p2i)
      | None => (moved, p2i)
      end) (moved, p2i) stale
  else (moved, p2i).

Definition put_moved (moved : list (Z * bytes)) (i2p : gmap Z bytes) (p2i : gmap bytes Z)
    : gmap Z bytes * gmap bytes Z :=
  foldl (fun '(i2p, p2i) '(ino, new) => (<[ino := new]> i2p, <[new := ino]> p2i)) (i2p, p2i) moved.

Definition move_maps (src dst : bytes) (is_dir : bool) (i2p : gmap Z bytes) (p2i : gmap bytes Z)
    : gmap Z bytes * gmap bytes Z :=
  let '(i2p, p2i) := drop_dst dst i2p p2i in
  let '(moved, p2i) := take_moved src dst is_dir p2i in
  put_moved moved i2p p2i.

Definition src_is_dir (now : Z) (src : bytes) : F bool :=
  cached ← cache_get now src;
  match cached with
  | Some s => mret (FileMode.is_dir (Stat.mode s))
  | None =>
      r ← call (p_stat src);
      mret (match r with Ok s => FileMode.is_dir (Stat.mode s) | Err _ => false end)
  end.

Definition do_rename (now : Z) (src dst : bytes) : F (reply B) :=
  is_dir ← src_is_dir now src;
  r ← call (p_rename src dst);
  match r with
  | Err e => fail e
  | Ok _ =>
      modify (fun f => let '(i2p, p2i) := move_maps src dst is_dir (ino_to_path f) (path_to_ino f) in
                       set_maps i2p p2i f) ;;
      invalidate_after_rename src dst is_dir ;;
      mret ROk
  end.

Definition rename (now par : Z) (name : bytes) (newpar : Z) (newname : bytes) (flags : Z)
    : F (reply B) :=
  s ← resolve_child par name;
  match s with
  | None => mret (RError EINVAL)
  | Some src =>
      d ← resolve_child newpar newname;
      match d with
      | None => mret (RError EINVAL)
      | Some dst =>
          match path_to_string src, path_to_string dst with
          | Some src, Some dst =>
              if negb (Z.land flags RENAME_EXCHANGE =? 0) then mret (RError ENOSYS)
              else if negb (Z.land flags RENAME_NOREPLACE =? 0) then
                r ← call (p_lstat dst);
                match r with
                | Ok _ => mret (RError EEXIST)
                | Err (StatusErr Status.NotFound _) => do_rename now src dst
                | Err e => fail e
                end
              else do_rename now src dst
          | _, _ => mret (RError EINVAL)
          end
      end
  end.

Definition setattr (now ino : Z) (mode uid gid size atime mtime fh : option Z) : F (reply B) :=
  let is_some (o : option Z) := match o with Some _ => true | None => false end in
  with_path ino (fun path =>
    t ← match size with
        | Some s =>
            r ← call (p_truncate path s);
            match r with
            | Ok _ => invalidate_parent_listing path ;; mret None
            | Err e => mret (Some e)
            end
        | None => mret None
        end;
    match t with
    | Some e => fail e
    | None =>
        if is_some mode || is_some uid || is_some gid || is_some atime || is_some mtime then mret (RError ENOSYS)
        else
          open ← opened fh;
          st ← match open with Some file => call (p_fstat file) | None => call (p_lstat path) end;
          match st with
          | Ok s => cache_put now path s ;; mret (RAttr (attr_from_stat ino s))
          | Err e => fail e
          end
    end).

Definition statfs (ino : Z) : F (reply B) :=
  mret (RStatfs (2 ^ 32) (2 ^ 31) (2 ^ 31) (2 ^ 20) (2 ^ 20) BLOCK_SIZE 256 4096).

(** ** The kernel's requests *)

Inductive request : Type :=
| QLookup (par : Z) (name : bytes)
| QForget (ino nlookup : Z)
| QGetattr (ino : Z) (fh : option Z)
| QReaddir (ino offset : Z) (buf : B)
| QSymlink (par : Z) (name target : bytes)
| QReadlink (ino : Z)
| QOpen (ino flags : Z)
| QRead (fh offset size : Z)
| QWrite (ino fh offset : Z) (data : bytes)
| QRelease (ino fh : Z)
| QCreate (par : Z) (name : bytes) (mode flags : Z)
| QMkdir (par : Z) (name : bytes) (mode : Z)
| QUnlink (par : Z) (name : bytes)
| QRmdir (par : Z) (name : bytes)
| QRename (par : Z) (name : bytes) (newpar : Z) (newname : bytes) (flags : Z)
| QSetattr (ino : Z) (mode uid gid size atime mtime fh : option Z)
| QStatfs (ino : Z).

Definition handle (now : Z) (q : request) : F (option (reply B)) :=
  match q with
  | QLookup par name => r ← lookup now par name; mret (Some r)
  | QForget ino nlookup => forget ino nlookup ;; mret None
  | QGetattr ino fh => r ← getattr now ino fh; mret (Some r)
  | QReaddir ino offset buf => r ← readdir now ino offset buf; mret (Some r)
  | QSymlink par name target => r ← symlink now par name target; mret (Some r)
  | QReadlink ino => r ← readlink ino; mret (Some r)
  | QOpen ino flags => r ← open ino flags; mret (Some r)
  | QRead fh offset size => r ← read fh offset size; mret (Some r)
  | QWrite ino fh offset data => r ← write ino fh offset data; mret (Some r)
  | QRelease ino fh => r ← release ino fh; mret (Some r)
  | QCreate par name mode flags => r ← create now par name mode flags; mret (Some r)
  | QMkdir par name mode => r ← mkdir now par name mode; mret (Some r)
  | QUnlink par name => r ← unlink par name; mret (Some r)
  | QRmdir par name => r ← rmdir par name; mret (Some r)
  | QRename par name newpar newname flags =>
      r ← rename now par name newpar newname flags; mret (Some r)
  | QSetattr ino mode uid gid size atime mtime fh =>
      r ← setattr now ino mode uid gid size atime mtime fh; mret (Some r)
  | QStatfs ino => r ← statfs ino; mret (Some r)
  end.

(** Requests at their clock readings. *)
Definition serve (f : state) (qs : list (Z * request)) : state :=
  foldl (fun f '(now, q) => (handle now q f).2) f qs.

End handlers.
