(* ===== verification/Paths.v ===== *)
(** * Absolute paths as lists of components

    [path_of] writes a list of names as an absolute path; on such paths the
    byte-level [path_join], [starts_with] and [strip_prefix] are appending,
    the prefix order and dropping a prefix. *)

From stdpp Require Import base list gmap strings.
From S2P Require Import Prelude RustStd ProxyOps Libc ProxyClient Cache Filesystem.

(** A directory entry's name: what the kernel and [readdir(3)] deliver. *)
Definition good_name (n : bytes) : Prop :=
  n <> [] /\ Forall (fun b => b <> 47) n /\ n <> bs "." /\ n <> bs "..".
#[export] Instance good_name_dec n : Decision (good_name n).
Proof. unfold good_name. apply _. Defined.

Fixpoint slashed (ns : list bytes) : bytes :=
  match ns with [] => [] | n :: ns => [47] ++ n ++ slashed ns end.
Definition path_of (ns : list bytes) : bytes :=
  match ns with [] => [47] | _ => slashed ns end.
(** The components of a path. *)
Definition comps (p : bytes) : list bytes := filter (fun n => n <> []) (split_on 47 p).

Definition clean (p : bytes) : Prop := exists ns, Forall good_name ns /\ p = path_of ns.

Lemma split_on_sep c a b : split_on c (a ++ c :: b) = split_on c a ++ split_on c b.
Proof.
  induction a as [|x a IH]; simpl.
  - destruct (split_on c b) eqn:E; [by apply split_on_nonempty in E|]. by rewrite Z.eqb_refl.
  - rewrite IH. destruct (split_on c a) eqn:E; [by apply split_on_nonempty in E|]. simpl.
    by case_match.
Qed.
Lemma comps_sep a b : comps (a ++ 47 :: b) = comps a ++ comps b.
Proof. unfold comps. by rewrite split_on_sep, filter_app. Qed.
Lemma comps_slash b : comps (47 :: b) = comps b.
Proof. apply (comps_sep [] b). Qed.
Lemma comps_name n : good_name n -> comps n = [n].
Proof.
  intros (Hn & Hs & _). unfold comps. rewrite split_on_none by done.
  by rewrite filter_cons_True.
Qed.
Lemma comps_slashed ns : Forall good_name ns -> comps (slashed ns) = ns.
Proof.
  intros H. induction H as [|n ns Hn Hns IH]; [done|]. simpl.
  rewrite comps_slash.
  destruct ns as [|m ns]; [simpl; rewrite app_nil_r; by apply comps_name|].
  simpl in *. rewrite comps_sep, comps_name by done. f_equal.
  by rewrite comps_slash in IH.
Qed.
Lemma comps_path ns : Forall good_name ns -> comps (path_of ns) = ns.
Proof. destruct ns; [done|]. apply comps_slashed. Qed.

Lemma path_of_inj ns ms :
  Forall good_name ns -> Forall good_name ms -> path_of ns = path_of ms -> ns = ms.
Proof. intros Hn Hm E. by rewrite <- (comps_path ns), <- (comps_path ms), E. Qed.

Lemma slashed_app ns ms : slashed (ns ++ ms) = slashed ns ++ slashed ms.
Proof. induction ns as [|n ns IH]; simpl; [done|]. by rewrite IH, app_assoc. Qed.

Lemma last_slashed ns n : good_name n -> exists c, last (slashed (ns ++ [n])) = Some c /\ c <> 47.
Proof.
  intros (Hne & Hs & _). rewrite slashed_app. simpl. rewrite app_nil_r.
  destruct (exists_last Hne) as (n' & c & ->). exists c. apply Forall_app in Hs as [_ Hc].
  split; [by rewrite app_comm_cons, app_assoc, last_snoc|by inv Hc].
Qed.

(** Joining a relative path. *)
Definition rel (ns : list bytes) : bytes := zdrop 1 (slashed ns).
Lemma rel_cons n ns : rel (n :: ns) = n ++ slashed ns.
Proof. done. Qed.

Lemma path_join_rel ms n ns :
  Forall good_name ms -> good_name n -> path_join (path_of ms) (rel (n :: ns)) = path_of (ms ++ n :: ns).
Proof.
  intros Hms Hn. rewrite rel_cons. destruct Hn as (Hne & Hs & _).
  destruct n as [|b n]; [done|]. inv Hs.
  assert (Hj : path_join (path_of ms) ((b :: n) ++ slashed ns) =
    match last (path_of ms) with None => (b :: n) ++ slashed ns
    | Some c => if c =? 47 then path_of ms ++ (b :: n) ++ slashed ns
                else path_of ms ++ [47] ++ (b :: n) ++ slashed ns end).
  { unfold path_join. simpl app. repeat case_match; simplify_eq; done. }
  rewrite Hj. destruct ms as [|m ms] using rev_ind; [done|].
  apply Forall_app in Hms as [_ Hm]. inv Hm.
  assert (E : path_of (ms ++ [m]) = slashed (ms ++ [m])) by (by destruct ms).
  destruct (last_slashed ms m) as (c & Hl & Hc); [done|].
  rewrite E, Hl. apply Z.eqb_neq in Hc. rewrite Hc.
  replace (path_of ((ms ++ [m]) ++ (b :: n) :: ns)) with (slashed ((ms ++ [m]) ++ (b :: n) :: ns))
    by (by destruct ms).
  by rewrite (slashed_app (ms ++ [m])).
Qed.

Lemma path_join_name ms n :
  Forall good_name ms -> good_name n -> path_join (path_of ms) n = path_of (ms ++ [n]).
Proof.
  intros Hms Hn. rewrite <- (path_join_rel ms n []) by done. f_equal.
  rewrite rel_cons. simpl. by rewrite app_nil_r.
Qed.

Lemma path_of_snoc_app ms n ns :
  path_of ((ms ++ [n]) ++ ns) = path_of (ms ++ [n]) ++ slashed ns.
Proof.
  replace (path_of (ms ++ [n])) with (slashed (ms ++ [n])) by (by destruct ms).
  rewrite <- slashed_app. by destruct ms.
Qed.

(** [Path::starts_with] is the prefix order. *)
Lemma starts_with_path ns ms :
  Forall good_name ns -> Forall good_name ms ->
  starts_with (path_of ns) (path_of ms) = true <-> exists k, ns = ms ++ k.
Proof.
  intros Hn Hm. unfold starts_with. rewrite !orb_true_iff, !bool_decide_eq_true. split.
  - intros [[E|[E _]]|E].
    + exists []. rewrite app_nil_r. by apply path_of_inj.
    + exists ns. by apply (path_of_inj ms []) in E as ->.
    + pose proof (ztake_zdrop (path_of ns) (zlen (path_of ms) + 1)) as Hp.
      revert Hp. generalize (zdrop (zlen (path_of ms) + 1) (path_of ns)). intros r Hp.
      exists (comps r). rewrite E, <- app_assoc in Hp. change (bs "/") with [47] in Hp. simpl in Hp. apply (f_equal comps) in Hp.
      rewrite (comps_sep (path_of ms) r), !comps_path in Hp by done. done.
  - intros [k ->]. destruct k as [|n k]. { left; left. by rewrite app_nil_r. }
    destruct ms as [|m ms _] using rev_ind. { left; right. by split. } right.
    rewrite path_of_snoc_app. simpl. rewrite (app_assoc _ [47] (n ++ slashed k)).
    change (bs "/") with [47]. apply ztake_app. rewrite zlen_app. done.
Qed.

Lemma strip_prefix_path ms n ns :
  Forall good_name ms -> Forall good_name (n :: ns) ->
  strip_prefix (path_of (ms ++ n :: ns)) (path_of ms) = rel (n :: ns).
Proof.
  intros Hm Hn. unfold strip_prefix.
  rewrite bool_decide_eq_false_2.
  2:{ intros E%path_of_inj; [|by apply Forall_app|done].
      apply (f_equal length) in E. rewrite length_app in E. simpl in E. lia. }
  destruct ms as [|m ms _] using rev_ind; [done|].
  rewrite bool_decide_eq_false_2.
  2:{ intros E. apply (path_of_inj _ []) in E; [|done|done]. by destruct ms. }
  rewrite path_of_snoc_app. rewrite zdrop_app by lia.
  replace (zlen _ + 1 - zlen _) with 1 by lia. done.
Qed.
