(* ===== verification/FilesystemSpec.v ===== *)
(** * Inodes, offsets and renames of the FUSE file system

    The inode tables stay consistent under every sequence of kernel requests,
    [readdir] can be resumed at any offset it handed out, and a
    no-replace rename never replaces; and two cases where an entry gets lost. *)

From stdpp Require Import base list gmap strings.
From S2P Require Import Prelude RustStd ProxyOps Libc ProxyClient Cache Filesystem Paths.

#[local] Existing Instances F_ret F_bind.

Section spec.
Context {P B : Type} `{!FsProxy P} `{!DirBuf B}.
Implicit Types (f : fs P) (mv : list (Z * bytes)) (i2p : gmap Z bytes) (p2i : gmap bytes Z).
Implicit Types (p q src dst : bytes) (i : Z).

(** ** The tables' invariant

    [n] bounds the inode numbers handed out. A path known under an inode
    resolves back to that path; the root never moves. (The converse does not
    hold: see [forget_stale_inode].) *)
Record tables (n : Z) (i2p : gmap Z bytes) (p2i : gmap bytes Z) : Prop := {
  t_back : forall p i, p2i !! p = Some i -> i2p !! i = Some p;
  t_root : p2i !! bs "/" = Some ROOT;
  t_only : forall i, i2p !! i = Some (bs "/") -> i = ROOT;
  t_bound : forall i p, i2p !! i = Some p -> i = ROOT \/ 100 <= i < n;
  t_clean : forall i p, i2p !! i = Some p -> clean p;
}.

(** What a directory listing is: names of entries, fewer than 2^32 of them,
    as the paging offset has 32 bits. *)
Definition good_listing (l : list DirEntry.t) : Prop :=
  zlen l < 2 ^ 32 /\ Forall (fun e => good_name (DirEntry.name e)) l.
Definition good_listings (d : DirCache.t) : Prop :=
  forall p l t, DirCache.map d !! p = Some (l, t) -> good_listing l.

Record inv (n : Z) f : Prop := {
  i_tables : tables (next_ino f) (ino_to_path f) (path_to_ino f);
  i_next : 100 <= next_ino f <= n;
  i_dirs : good_listings (dir_cache f);
}.

Lemma inv_mono n n' f : n <= n' -> inv n f -> inv n' f.
Proof. intros ? [? ? ?]. split; [done|lia|done]. Qed.

(** ** A program logic for the handlers *)

Definition wp {A} (m : F A) (Q : A -> fs P -> Prop) f : Prop := Q (m f).1 (m f).2.

Lemma wp_ret {A} (a : A) (Q : A -> fs P -> Prop) f : Q a f -> wp (mret a) Q f.
Proof. done. Qed.
Lemma wp_bind {A C} (m : F A) (k : A -> F C) (Q : C -> fs P -> Prop) f :
  wp m (fun a => wp (k a) Q) f -> wp (m ≫= k) Q f.
Proof. unfold wp, mbind, F_bind. by destruct (m f). Qed.
Lemma wp_mono {A} (m : F A) (Q R : A -> fs P -> Prop) f :
  wp m Q f -> (forall a f, Q a f -> R a f) -> wp m R f.
Proof. unfold wp. auto. Qed.

(** A handler step that leaves the tables and the listings alone. *)
Definition quiet f f' : Prop :=
  ino_to_path f' = ino_to_path f /\ path_to_ino f' = path_to_ino f /\ next_ino f' = next_ino f
  /\ (good_listings (dir_cache f) -> good_listings (dir_cache f')).

Lemma quiet_inv n f f' : quiet f f' -> inv n f -> inv n f'.
Proof. intros (H1 & H2 & H3 & H4) [? ? ?]. split; rewrite ?H1, ?H2, ?H3; auto. Qed.

Definition quietly {A} (m : F A) : Prop := forall f, quiet f (m f).2.

Lemma wp_quiet {A} (m : F A) n (Q : A -> fs P -> Prop) f :
  quietly m -> inv n f -> (forall a f', inv n f' -> Q a f') -> wp m Q f.
Proof. intros Hm Hi HQ. apply HQ. by eapply quiet_inv. Qed.

Lemma quiet_gets {A} (g : fs P -> A) : quietly (gets g).
Proof. done. Qed.
Lemma quiet_call {A} (op : P -> A * P) : quietly (call op).
Proof. intros f. unfold call. by destruct (op (proxy f)). Qed.
Lemma quiet_cache (g : StatCache.t -> StatCache.t) :
  quietly (modify (fun f => set_cache (g (cache f)) f)).
Proof. done. Qed.
Lemma quiet_cache_get now p : quietly (cache_get now p).
Proof. intros f. unfold cache_get. by destruct (StatCache.get now p (cache f)). Qed.

Lemma good_delete p d : good_listings d -> good_listings (DirCache.remove_entry p d).
Proof. intros H q l t Hq. simpl in Hq. apply lookup_delete_Some in Hq as [_ Hq]. eauto. Qed.

Lemma quiet_dir_get now p : quietly (dir_get now p).
Proof.
  intros f. unfold dir_get, DirCache.get. repeat case_match; simplify_eq; try done.
  split_and!; try done. apply good_delete.
Qed.
Lemma quiet_dir_invalidate p : quietly (dir_invalidate p).
Proof. intros f. split_and!; try done. intros H. apply good_delete, H. Qed.
Lemma quiet_dir_invalidate_prefix p : quietly (dir_invalidate_prefix p).
Proof.
  intros f. split_and!; try done. intros H q l t Hq.
  change (DirCache.map (DirCache.invalidate_prefix p (dir_cache f)) !! q = Some (l, t)) in Hq.
  rewrite DirCache.invalidate_prefix_lookup in Hq. destruct (starts_with q p); [done|eauto].
Qed.
Lemma quiet_bind {A C} (m : F A) (k : A -> F C) :
  quietly m -> (forall a, quietly (k a)) -> quietly (m ≫= k).
Proof.
  intros Hm Hk f. unfold mbind, F_bind. specialize (Hm f). destruct (m f) as [a f1].
  specialize (Hk a f1). unfold quiet in *. naive_solver congruence.
Qed.
Lemma quiet_ret {A} (a : A) : quietly (mret a).
Proof. done. Qed.
Lemma quiet_parent p : quietly (invalidate_parent_listing p).
Proof.
  unfold invalidate_parent_listing. destruct (parent p); [|done].
  apply quiet_bind; [apply quiet_dir_invalidate|intros; apply quiet_cache].
Qed.
Lemma quiet_open_files (g : gmap Z ProxyFile -> gmap Z ProxyFile) (h : Z -> Z) :
  quietly (modify (fun f => set_open_files (g (open_files f)) (h (next_fh f)) f)).
Proof. done. Qed.
Lemma quiet_new_handle file : quietly (new_handle file).
Proof. done. Qed.

(** ** Allocating and forgetting *)

Lemma tables_new n p i2p p2i :
  100 <= n -> clean p -> p2i !! p = None -> tables n i2p p2i ->
  tables (n + 1) (<[n := p]> i2p) (<[p := n]> p2i).
Proof.
  intros Hn Hp Hnew [Hb Hr Ho Hbd Hc]. split.
  - intros q i [[<- <-]|[Hq Hi]]%lookup_insert_Some; [by rewrite lookup_insert_eq|].
    apply Hb in Hi. rewrite lookup_insert_ne; [done|]. intros <-.
    apply Hbd in Hi. unfold ROOT in *. lia.
  - rewrite lookup_insert_ne; [done|]. intros ->. congruence.
  - intros i [[<- ->]|[? Hi]]%lookup_insert_Some; [congruence|by apply Ho].
  - intros i q [[<- <-]|[? Hi]]%lookup_insert_Some; [lia|]. apply Hbd in Hi. lia.
  - intros i q [[<- <-]|[? Hi]]%lookup_insert_Some; eauto.
Qed.

Lemma tables_forget n i p i2p p2i :
  i <> ROOT -> i2p !! i = Some p -> tables n i2p p2i -> tables n (delete i i2p) (delete p p2i).
Proof.
  intros Hi Hp [Hb Hr Ho Hbd Hc]. split.
  - intros q j [Hq Hj]%lookup_delete_Some. apply Hb in Hj.
    rewrite lookup_delete_ne; [done|]. intros <-. congruence.
  - rewrite lookup_delete_ne; [done|]. intros ->. by apply Hi, Ho.
  - intros j [? Hj]%lookup_delete_Some. by apply Ho.
  - intros j q [? Hj]%lookup_delete_Some. eauto.
  - intros j q [? Hj]%lookup_delete_Some. eauto.
Qed.

Lemma tables_inj n i2p p2i p q i :
  tables n i2p p2i -> p2i !! p = Some i -> p2i !! q = Some i -> p = q.
Proof. intros [Hb _ _ _ _] Hp%Hb Hq%Hb. congruence. Qed.

(** ** Moving a subtree *)

(** The paths a rename takes out of the table. *)
Definition moves (src : bytes) (is_dir : bool) (p : bytes) : bool :=
  bool_decide (p = src) || (is_dir && starts_with p src).
Definition moved_to (src dst p : bytes) : bytes :=
  if bool_decide (p = src) then dst else path_join dst (strip_prefix p src).

Definition take_step (g : bytes -> bytes) :
    list (Z * bytes) * gmap bytes Z -> bytes -> list (Z * bytes) * gmap bytes Z :=
  fun '(moved, p2i) old =>
  match p2i !! old with
  | Some ino => (moved ++ [(ino, g old)], delete old p2i)
  | None => (moved, p2i)
  end.

Lemma take_fold (g : bytes -> bytes) (olds : list bytes) (mv : list (Z * bytes)) (p2i : gmap bytes Z) : NoDup olds ->
  (forall e, e ∈ (foldl (take_step g) (mv, p2i) olds).1 <->
     e ∈ mv \/ exists old, old ∈ olds /\ p2i !! old = Some e.1 /\ e.2 = g old)
  /\ (forall p, (foldl (take_step g) (mv, p2i) olds).2 !! p =
        if bool_decide (p ∈ olds) then None else p2i !! p).
Proof.
  intros Hnd. revert mv p2i. induction Hnd as [|o olds Ho Hnd IH]; intros mv p2i.
  { split; [intros e; set_solver|]. intros p. by rewrite bool_decide_eq_false_2 by set_solver. }
  simpl. destruct (p2i !! o) as [ino|] eqn:E.
  - destruct (IH (mv ++ [(ino, g o)]) (delete o p2i)) as [IH1 IH2]. split.
    + intros e. rewrite IH1, elem_of_app, list_elem_of_singleton. split.
      * intros [[?| ->]|(old & Hin & Hl & ?)]; [by left|right; exists o; set_solver|].
        apply lookup_delete_Some in Hl as [? Hl]. right. exists old. set_solver.
      * intros [?|(old & Hin & Hl & ?)]; [by left; left|].
        apply elem_of_cons in Hin as [->|Hin].
        -- left. right. destruct e; simpl in *. congruence.
        -- right. exists old. rewrite lookup_delete_ne; [done|]. by intros ->.
    + intros p. rewrite IH2. destruct (decide (p = o)) as [->|Hne].
      * rewrite lookup_delete_eq, (bool_decide_eq_true_2 (o ∈ o :: olds)) by set_solver.
        by case_match.
      * rewrite lookup_delete_ne by done.
        by rewrite (bool_decide_ext (p ∈ o :: olds) (p ∈ olds)) by set_solver.
  - destruct (IH mv p2i) as [IH1 IH2]. split.
    + intros e. rewrite IH1. split; [set_solver|].
      intros [?|(old & Hin & Hl & ?)]; [by left|]. right. exists old. split_and!; [|done|done].
      apply elem_of_cons in Hin as [->|Hin]; [congruence|done].
    + intros p. rewrite IH2. destruct (decide (p = o)) as [->|Hne].
      * rewrite (bool_decide_eq_true_2 (o ∈ o :: olds)) by set_solver. by case_match.
      * by rewrite (bool_decide_ext (p ∈ o :: olds) (p ∈ olds)) by set_solver.
Qed.

(** The inodes taken out are distinct and no longer in the table. *)
Record taken (mv : list (Z * bytes)) (p2i : gmap bytes Z) : Prop := {
  tk_nodup : NoDup mv.*1;
  tk_out : forall i p, i ∈ mv.*1 -> p2i !! p <> Some i;
  tk_inj : forall p q i, p2i !! p = Some i -> p2i !! q = Some i -> p = q;
}.

Lemma taken_step (g : bytes -> bytes) mv p2i old :
  taken mv p2i -> taken (take_step g (mv, p2i) old).1 (take_step g (mv, p2i) old).2.
Proof.
  intros [Hnd Hout Hinj]. simpl. destruct (p2i !! old) as [ino|] eqn:E; [|done]. split; simpl.
  - rewrite fmap_app, NoDup_app. split_and!; [done| |apply NoDup_singleton].
    intros i Hi ->%list_elem_of_singleton. by eapply Hout.
  - intros i p. rewrite fmap_app, elem_of_app. simpl. rewrite list_elem_of_singleton.
    intros [Hi| ->] [Hne Hp]%lookup_delete_Some; [by eapply Hout|]. by apply Hne, (Hinj _ _ ino).
  - intros p q i [_ Hp]%lookup_delete_Some [_ Hq]%lookup_delete_Some. eauto.
Qed.

Lemma taken_fold (g : bytes -> bytes) olds mv p2i :
  taken mv p2i -> taken (foldl (take_step g) (mv, p2i) olds).1 (foldl (take_step g) (mv, p2i) olds).2.
Proof.
  revert mv p2i. induction olds as [|o olds IH]; intros mv p2i Ht; [done|].
  apply (taken_step g _ _ o) in Ht. cbn [foldl]. destruct (take_step g (mv, p2i) o). by apply IH.
Qed.

Definition take_first (src dst : bytes) (p2i : gmap bytes Z) := take_step (fun _ => dst) ([], p2i) src.

Lemma take_moved_fold src dst is_dir p2i :
  take_moved src dst is_dir p2i =
  if is_dir then
    foldl (take_step (fun old => path_join dst (strip_prefix old src))) (take_first src dst p2i)
      (List.filter (fun p => starts_with p src) (map_to_list (take_first src dst p2i).2).*1)
  else take_first src dst p2i.
Proof. unfold take_moved, take_first, take_step. by destruct (p2i !! src). Qed.

Lemma take_moved_taken src dst is_dir n i2p p2i :
  tables n i2p p2i ->
  taken (take_moved src dst is_dir p2i).1 (take_moved src dst is_dir p2i).2.
Proof.
  intros Ht. rewrite take_moved_fold.
  assert (H1 : taken (take_first src dst p2i).1 (take_first src dst p2i).2).
  { apply taken_step. split; [constructor|by intros ? ? ?%not_elem_of_nil|].
    intros. by eapply tables_inj. }
  destruct is_dir; [|done]. destruct (take_first src dst p2i). by apply taken_fold.
Qed.

Lemma take_first_spec src dst p2i :
  (forall e, e ∈ (take_first src dst p2i).1 <-> p2i !! src = Some e.1 /\ e.2 = dst)
  /\ (forall p, (take_first src dst p2i).2 !! p = if bool_decide (p = src) then None else p2i !! p).
Proof.
  unfold take_first, take_step. destruct (p2i !! src) as [ino|] eqn:E; simpl; split.
  - intros [i p]. rewrite list_elem_of_singleton. simpl. naive_solver.
  - intros p. case_bool; bool_to_prop; [subst; apply lookup_delete_eq|by apply lookup_delete_ne].
  - intros e. split; [by intros ?%not_elem_of_nil|naive_solver].
  - intros p. case_bool; bool_to_prop; by subst.
Qed.

Lemma elem_of_keys (m : gmap bytes Z) p : p ∈ (map_to_list m).*1 <-> is_Some (m !! p).
Proof.
  rewrite list_elem_of_fmap. split.
  - intros ([q x] & -> & Hq%elem_of_map_to_list). by exists x.
  - intros [x Hx]. exists (p, x). split; [done|]. by apply elem_of_map_to_list.
Qed.

Lemma take_moved_spec src dst is_dir p2i :
  (forall i q, (i, q) ∈ (take_moved src dst is_dir p2i).1 <->
     exists p, moves src is_dir p = true /\ p2i !! p = Some i /\ q = moved_to src dst p)
  /\ (forall p, (take_moved src dst is_dir p2i).2 !! p =
        if moves src is_dir p then None else p2i !! p).
Proof.
  rewrite take_moved_fold. destruct (take_first_spec src dst p2i) as [F1 F2].
  unfold moves, moved_to. destruct is_dir; simpl.
  2:{ split.
      - intros i q. rewrite F1. simpl. split.
        + intros [? ->]. exists src. by rewrite bool_decide_eq_true_2.
        + intros (p & Hp & ? & ->). rewrite orb_false_r in Hp. rewrite Hp. by bool_to_prop; subst.
      - intros p. by rewrite F2, orb_false_r. }
  destruct (take_first src dst p2i) as [mv p1]. simpl in *.
  edestruct (take_fold (fun old => path_join dst (strip_prefix old src))
    (List.filter (fun p => starts_with p src) (map_to_list p1).*1) mv p1) as [G1 G2].
  { apply DirCache.NoDup_filter_bool, NoDup_fst_map_to_list. }
  assert (Hin : forall p, p ∈ List.filter (fun p => starts_with p src) (map_to_list p1).*1 <->
            (p <> src /\ is_Some (p2i !! p)) /\ starts_with p src = true).
  { intros p. rewrite DirCache.elem_of_filter_bool, elem_of_keys, F2.
    case_bool; bool_to_prop; [|naive_solver]. split; [by intros [[? ?] _]|naive_solver]. }
  split.
  - intros i q. rewrite G1, F1. simpl. setoid_rewrite Hin. split.
    + intros [[? ->]|(old & ((Hne & _) & Hs) & Hl & ->)].
      * exists src. by rewrite bool_decide_eq_true_2.
      * exists old. rewrite F2 in Hl. rewrite bool_decide_eq_false_2 in Hl |- * by done.
        by rewrite Hs.
    + intros (p & Hp & Hl & ->). destruct (decide (p = src)) as [->|Hne].
      { left. by rewrite bool_decide_eq_true_2. }
      rewrite bool_decide_eq_false_2 in Hp |- * by done. right. exists p.
      rewrite F2, bool_decide_eq_false_2 by done. naive_solver.
  - intros p. rewrite G2, F2. destruct (decide (p = src)) as [->|Hne].
    { rewrite (bool_decide_eq_true_2 (src = src)) by done. by case_match. }
    rewrite (bool_decide_eq_false_2 (p = src)) by done. simpl.
    destruct (starts_with p src) eqn:Hs.
    + destruct (p2i !! p) as [i|] eqn:E; [|by case_match].
      rewrite bool_decide_eq_true_2; [done|]. apply Hin. by rewrite E.
    + rewrite bool_decide_eq_false_2; [done|]. intros [_ Hs']%Hin. congruence.
Qed.


(** Putting them back under their new paths. *)
Lemma put_moved_cons i q mv (i2p : gmap Z bytes) (p2i : gmap bytes Z) :
  put_moved ((i, q) :: mv) i2p p2i = put_moved mv (<[i := q]> i2p) (<[q := i]> p2i).
Proof. done. Qed.

Lemma put_moved_tables n mv i2p p2i :
  taken mv p2i -> tables n i2p p2i ->
  (forall i q, (i, q) ∈ mv -> i <> ROOT /\ q <> bs "/" /\ clean q /\ 100 <= i < n) ->
  tables n (put_moved mv i2p p2i).1 (put_moved mv i2p p2i).2.
Proof.
  revert i2p p2i. induction mv as [|[i q] mv IH]; intros i2p p2i [Hnd Hout Hinj] Ht Hmv; [done|].
  destruct (Hmv i q) as (Hi & Hq & Hcl & Hbd); [by left|]. simpl in Hnd.
  apply NoDup_cons in Hnd as [Hi' Hnd]. rewrite put_moved_cons. apply IH.
  - split; [done| |].
    + intros j p Hj [[<- ->]|[? Hp]]%lookup_insert_Some; [done|]. eapply Hout; [|done]. by right.
    + intros p r j [[<- <-]|[? Hp]]%lookup_insert_Some [[<- E]|[? Hr]]%lookup_insert_Some; eauto.
      * exfalso. eapply Hout; [|exact Hr]. by left.
      * subst j. exfalso. eapply Hout; [|exact Hp]. by left.
  - destruct Ht as [Hb Hr Ho Hb' Hc]. split.
    + intros p j [[<- <-]|[? Hp]]%lookup_insert_Some; [by rewrite lookup_insert_eq|].
      rewrite lookup_insert_ne; [by apply Hb|]. intros <-. eapply Hout; [|exact Hp]. by left.
    + by rewrite lookup_insert_ne.
    + intros j [[<- E]|[? Hj]]%lookup_insert_Some; [done|eauto].
    + intros j p [[<- <-]|[? Hj]]%lookup_insert_Some; [by right|eauto].
    + intros j p [[<- <-]|[? Hj]]%lookup_insert_Some; [done|eauto].
  - intros j p Hj. apply Hmv. by right.
Qed.

Lemma put_moved_out mv i2p p2i :
  (forall i, i ∉ mv.*1 -> (put_moved mv i2p p2i).1 !! i = i2p !! i)
  /\ (forall q, q ∉ mv.*2 -> (put_moved mv i2p p2i).2 !! q = p2i !! q).
Proof.
  revert i2p p2i. induction mv as [|[i q] mv IH]; intros i2p p2i; [done|].
  rewrite put_moved_cons. destruct (IH (<[i := q]> i2p) (<[q := i]> p2i)) as [H1 H2].
  split; intros x Hx; simpl in Hx; apply not_elem_of_cons in Hx as [Hne Hx].
  - by rewrite H1, lookup_insert_ne.
  - by rewrite H2, lookup_insert_ne.
Qed.

Lemma put_moved_in mv i2p p2i i q :
  NoDup mv.*1 -> NoDup mv.*2 -> (i, q) ∈ mv ->
  (put_moved mv i2p p2i).1 !! i = Some q /\ (put_moved mv i2p p2i).2 !! q = Some i.
Proof.
  revert i2p p2i. induction mv as [|[j r] mv IH]; intros i2p p2i Hnd Hnd' Hin.
  { by apply not_elem_of_nil in Hin. }
  simpl in Hnd, Hnd'. apply NoDup_cons in Hnd as [Hj Hnd]. apply NoDup_cons in Hnd' as [Hr Hnd'].
  rewrite put_moved_cons. apply elem_of_cons in Hin as [E|Hin]; [|by apply IH].
  simplify_eq. destruct (put_moved_out mv (<[j := r]> i2p) (<[r := j]> p2i)) as [H1 H2].
  by rewrite H1, H2, !lookup_insert_eq.
Qed.

(** Overwriting the destination. *)
Lemma drop_dst_tables n dst i2p p2i :
  dst <> bs "/" -> tables n i2p p2i -> tables n (drop_dst dst i2p p2i).1 (drop_dst dst i2p p2i).2.
Proof.
  intros Hd Ht. unfold drop_dst. destruct (p2i !! dst) as [i|] eqn:E; [|done].
  pose proof (t_back _ _ _ Ht _ _ E) as Hi. apply tables_forget; [|done|done].
  intros ->. apply Hd. pose proof (t_back _ _ _ Ht _ _ (t_root _ _ _ Ht)). congruence.
Qed.

Lemma moves_path ms is_dir ns :
  Forall good_name ms -> Forall good_name ns ->
  moves (path_of ms) is_dir (path_of ns) = true <->
  exists k, ns = ms ++ k /\ (k = [] \/ is_dir = true).
Proof.
  intros Hms Hns. unfold moves. rewrite orb_true_iff, andb_true_iff, bool_decide_eq_true, starts_with_path by done.
  split.
  - intros [->%path_of_inj|[? [k ->]]]; [exists []; rewrite app_nil_r; auto|done|done|eauto].
  - intros (k & -> & [->| ->]); [left; by rewrite app_nil_r|right; eauto].
Qed.

Lemma moved_to_path ms ds k :
  Forall good_name ms -> Forall good_name ds -> Forall good_name k ->
  moved_to (path_of ms) (path_of ds) (path_of (ms ++ k)) = path_of (ds ++ k).
Proof.
  intros Hms Hds Hk. unfold moved_to. destruct k as [|n k].
  { by rewrite !app_nil_r, bool_decide_eq_true_2. }
  rewrite bool_decide_eq_false_2.
  - rewrite strip_prefix_path by done. inv Hk. by apply path_join_rel.
  - intros E%path_of_inj; [|by apply Forall_app|done].
    apply (f_equal length) in E. rewrite length_app in E. simpl in E. lia.
Qed.

(** A known path has components. *)
Lemma tables_comps n i2p p2i p i :
  tables n i2p p2i -> p2i !! p = Some i -> exists ns, Forall good_name ns /\ p = path_of ns.
Proof. intros Ht Hp%(t_back _ _ _ Ht). by eapply t_clean. Qed.

(** What a rename takes: the inodes at the source and, for a directory, below it. *)
Lemma take_moved_paths n i2p p2i ms ds is_dir i q :
  tables n i2p p2i -> Forall good_name ms -> Forall good_name ds ->
  (i, q) ∈ (take_moved (path_of ms) (path_of ds) is_dir p2i).1 <->
  exists k, Forall good_name k /\ (k = [] \/ is_dir = true)
    /\ p2i !! path_of (ms ++ k) = Some i /\ q = path_of (ds ++ k).
Proof.
  intros Ht Hms Hds. destruct (take_moved_spec (path_of ms) (path_of ds) is_dir p2i) as [-> _].
  split.
  - intros (p & Hp & Hl & ->). destruct (tables_comps _ _ _ _ _ Ht Hl) as (ns & Hns & ->).
    apply moves_path in Hp as (k & -> & Hk); [|done|done]. apply Forall_app in Hns as [_ Hgk].
    exists k. by rewrite moved_to_path.
  - intros (k & Hgk & Hk & Hl & ->). exists (path_of (ms ++ k)).
    rewrite moved_to_path, moves_path; [eauto|done|by apply Forall_app|done|done|done].
Qed.

Lemma tables_weaken n i2p p2i p2i' :
  tables n i2p p2i -> (forall p i, p2i' !! p = Some i -> p2i !! p = Some i) ->
  p2i' !! bs "/" = Some ROOT -> tables n i2p p2i'.
Proof. intros [Hb Hr Ho Hbd Hc] Hs Hr'. split; eauto. Qed.

Lemma path_of_root ns : Forall good_name ns -> path_of ns = bs "/" <-> ns = [].
Proof. intros H. split; [|by intros ->]. by intros E%(path_of_inj _ []). Qed.

Lemma NoDup_snd mv :
  NoDup mv.*1 -> (forall i j q, (i, q) ∈ mv -> (j, q) ∈ mv -> i = j) -> NoDup mv.*2.
Proof.
  induction mv as [|[i q] mv IH]; simpl; [constructor|].
  intros [Hi Hnd]%NoDup_cons Hfun. constructor.
  - intros ([j r] & E & Hj)%list_elem_of_fmap. simpl in E. subst r. apply Hi.
    rewrite (Hfun i j q); [|by left|by right]. apply list_elem_of_fmap. by exists (j, q).
  - apply IH; [done|]. intros ?? r ??. apply (Hfun _ _ r); by right.
Qed.

Lemma drop_dst_lookup dst q i2p p2i : q <> dst -> (drop_dst dst i2p p2i).2 !! q = p2i !! q.
Proof. intros. unfold drop_dst. case_match; simpl; [by apply lookup_delete_ne|done]. Qed.

Section move.
Context (n : Z) (ms ds : list bytes) (is_dir : bool) (i2p : gmap Z bytes) (p2i : gmap bytes Z).
Context (Ht : tables n i2p p2i) (Hms : Forall good_name ms) (Hds : Forall good_name ds).
Context (Hms0 : ms <> []) (Hds0 : ds <> []).

#[local] Abbreviation src := (path_of ms).
#[local] Abbreviation dst := (path_of ds).
Let i1 := (drop_dst dst i2p p2i).1.
Let p1 := (drop_dst dst i2p p2i).2.
Let mv := (take_moved src dst is_dir p1).1.
Let p2 := (take_moved src dst is_dir p1).2.

Lemma move_maps_eq : move_maps src dst is_dir i2p p2i = put_moved mv i1 p2.
Proof. unfold move_maps, mv, p2, p1, i1. destruct (drop_dst _ _ _); simpl. by destruct (take_moved _ _ _ _). Qed.

Lemma dropped_tables : tables n i1 p1.
Proof using Ht Hds Hds0. apply drop_dst_tables; [|done]. by rewrite path_of_root. Qed.

Lemma root_not_moved k : ms ++ k <> [].
Proof using Hms0. by intros [? _]%app_nil. Qed.

Lemma taken_tables : tables n i1 p2.
Proof.
  pose proof dropped_tables as Ht1. destruct (take_moved_spec src dst is_dir p1) as [_ H2].
  eapply tables_weaken; [exact Ht1| |].
  - intros p i. unfold p2. rewrite H2. by case_match.
  - unfold p2. rewrite H2. rewrite (t_root _ _ _ Ht1). change (bs "/") with (path_of []).
    destruct (moves _ _ _) eqn:E; [|done].
    apply moves_path in E as (k & Hk & _); [|done|done]. by apply eq_sym, app_nil in Hk as [? _].
Qed.

Lemma move_maps_tables :
  tables n (move_maps src dst is_dir i2p p2i).1 (move_maps src dst is_dir i2p p2i).2.
Proof.
  rewrite move_maps_eq. apply put_moved_tables; [eapply take_moved_taken, dropped_tables|apply taken_tables|].
  intros i q Hq. unfold mv in Hq. rewrite take_moved_paths in Hq by (done || apply dropped_tables).
  destruct Hq as (k & Hgk & _ & Hl & ->).
  pose proof (t_back _ _ _ dropped_tables _ _ Hl) as Hi.
  assert (Hne : i <> ROOT).
  { intros ->. pose proof (t_root _ _ _ dropped_tables) as Hr.
    pose proof (tables_inj _ _ _ _ _ _ dropped_tables Hl Hr) as E.
    apply path_of_root in E; [by apply root_not_moved in E|by apply Forall_app]. }
  split_and!; [done| |by exists (ds ++ k); split; [apply Forall_app|] |
    pose proof (t_bound _ _ _ dropped_tables _ _ Hi); lia | pose proof (t_bound _ _ _ dropped_tables _ _ Hi); lia].
  rewrite path_of_root by (by apply Forall_app). by intros [? _]%app_nil.
Qed.

Lemma taken_moved : taken mv p2.
Proof. eapply take_moved_taken, dropped_tables. Qed.

Lemma moved_nodup : NoDup mv.*2.
Proof.
  apply NoDup_snd; [apply taken_moved|]. unfold mv. intros i j q Hi Hj.
  rewrite take_moved_paths in Hi, Hj by (done || apply dropped_tables).
  destruct Hi as (k & Hk & _ & Hi & ->), Hj as (k' & Hk' & _ & Hj & E).
  apply path_of_inj in E; [|by apply Forall_app|by apply Forall_app].
  apply app_inv_head in E as ->. congruence.
Qed.

(** Everything at or under the source is found under the destination, by the same inode. *)
Lemma move_maps_moved k i :
  Forall good_name k -> k = [] \/ is_dir = true -> p2i !! path_of (ms ++ k) = Some i ->
  ds <> ms ++ k ->
  (move_maps src dst is_dir i2p p2i).1 !! i = Some (path_of (ds ++ k))
  /\ (move_maps src dst is_dir i2p p2i).2 !! path_of (ds ++ k) = Some i.
Proof.
  intros Hk Hd Hl Hne. rewrite move_maps_eq.
  apply put_moved_in; [apply taken_moved|apply moved_nodup|].
  unfold mv. rewrite take_moved_paths by (done || apply dropped_tables). exists k. split_and!; try done.
  unfold p1. rewrite drop_dst_lookup; [done|].
  intros E%path_of_inj; [by apply Hne|by apply Forall_app|done].
Qed.

(** Everything outside the source and the destination keeps its inode. *)
Lemma move_maps_kept ns i :
  Forall good_name ns -> p2i !! path_of ns = Some i ->
  ~ (exists k, ns = ms ++ k /\ (k = [] \/ is_dir = true)) -> ~ (exists k, ns = ds ++ k) ->
  (move_maps src dst is_dir i2p p2i).1 !! i = Some (path_of ns)
  /\ (move_maps src dst is_dir i2p p2i).2 !! path_of ns = Some i.
Proof.
  intros Hns Hl Hm Hd. rewrite move_maps_eq.
  destruct (put_moved_out mv i1 p2) as [H1 H2].
  assert (Hp2 : p2 !! path_of ns = Some i).
  { destruct (take_moved_spec src dst is_dir p1) as [_ Hp]. unfold p2. rewrite Hp.
    destruct (moves _ _ _) eqn:E; [apply moves_path in E; done|].
    unfold p1. rewrite drop_dst_lookup; [done|]. intros E'%path_of_inj; [|done|done].
    apply Hd. exists []. by rewrite app_nil_r. }
  split.
  - rewrite H1; [apply (t_back _ _ _ taken_tables _ _ Hp2)|].
    intros Hi. by apply (tk_out _ _ taken_moved _ (path_of ns)) in Hi.
  - rewrite H2; [done|]. intros ([j q] & E & Hj)%list_elem_of_fmap. simpl in E. subst q.
    unfold mv in Hj. rewrite take_moved_paths in Hj by (done || apply dropped_tables).
    destruct Hj as (k & Hk & _ & _ & E). apply path_of_inj in E; [|done|by apply Forall_app].
    apply Hd. by exists k.
Qed.

End move.

(** ** The handlers keep the invariant *)

Ltac quiet_tac :=
  repeat first
    [ apply quiet_ret | apply quiet_gets | apply quiet_call | apply quiet_cache
    | apply quiet_cache_get | apply quiet_dir_get | apply quiet_dir_invalidate
    | apply quiet_dir_invalidate_prefix | apply quiet_parent | apply quiet_new_handle
    | apply quiet_bind; [|intros ?] | case_match ].

Lemma quiet_getattr now ino fh : quietly (getattr (B:=B) now ino fh).
Proof. unfold getattr, opened, fail. quiet_tac. Qed.
Lemma quiet_readlink ino : quietly (readlink (B:=B) ino).
Proof. unfold readlink, with_path, fail. quiet_tac. Qed.
Lemma quiet_open ino flags : quietly (open (B:=B) ino flags).
Proof. unfold open, with_path, fail. quiet_tac. Qed.
Lemma quiet_read fh off size : quietly (read (B:=B) fh off size).
Proof. unfold read, fail. quiet_tac. Qed.
Lemma quiet_write ino fh off d : quietly (write (B:=B) ino fh off d).
Proof. unfold write, fail. quiet_tac. Qed.
Lemma quiet_release ino fh : quietly (release (B:=B) ino fh).
Proof.
  unfold release. repeat (quiet_tac || apply (quiet_open_files (delete fh) id)).
Qed.
Lemma quiet_unlink par name : quietly (unlink (B:=B) par name).
Proof. unfold unlink, with_child, resolve_child, fail. quiet_tac. Qed.
Lemma quiet_rmdir par name : quietly (rmdir (B:=B) par name).
Proof. unfold rmdir, with_child, resolve_child, fail. quiet_tac. Qed.
Lemma quiet_setattr now ino mode uid gid size atime mtime fh :
  quietly (setattr (B:=B) now ino mode uid gid size atime mtime fh).
Proof. unfold setattr, with_path, opened, fail. quiet_tac. Qed.
Lemma quiet_after_rename src dst d : quietly (invalidate_after_rename src dst d).
Proof. unfold invalidate_after_rename. quiet_tac. Qed.
Lemma quiet_src_is_dir now src : quietly (src_is_dir now src).
Proof. unfold src_is_dir. quiet_tac. Qed.

Lemma wp_ino_for n p f :
  n + 1 < 2 ^ 64 -> clean p -> inv n f -> wp (ino_for p) (fun _ => inv (n + 1)) f.
Proof.
  intros Hn Hp Hi. unfold wp, ino_for. destruct (path_to_ino f !! p) as [i|] eqn:E; simpl.
  { eapply inv_mono; [|done]. lia. }
  destruct Hi as [Ht Hnx Hd]. unfold as_u64. split; simpl.
  - rewrite Z.mod_small by lia. apply tables_new; [lia|done|done|done].
  - rewrite Z.mod_small by lia. lia.
  - done.
Qed.

Lemma wp_forget n ino nl f : inv n f -> wp (forget ino nl) (fun _ => inv n) f.
Proof.
  intros Hi. unfold wp, forget, forget_ino. case_bool; bool_to_prop; [done|]. simpl.
  destruct (ino_to_path f !! ino) as [p|] eqn:E; [|done].
  destruct Hi as [Ht Hnx Hd]. split; simpl; [|done|done]. by apply tables_forget.
Qed.

Lemma wp_resolve_child n par name f :
  good_name name -> inv n f ->
  wp (resolve_child par name)
    (fun o f' => inv n f' /\ forall p, o = Some p ->
       exists ns, Forall good_name ns /\ ns <> [] /\ p = path_of ns) f.
Proof.
  intros Hn Hi. split; [done|]. simpl. intros p Hp.
  apply fmap_Some in Hp as (q & Hq & ->).
  destruct (t_clean _ _ _ (i_tables _ _ Hi) _ _ Hq) as (ns & Hns & ->).
  exists (ns ++ [name]). rewrite path_join_name by done. split_and!; [|by intros [? ?]%app_nil|done].
  apply Forall_app. auto.
Qed.

Lemma wp_with_child n par name (k : bytes -> F (reply B)) f (Q : reply B -> fs P -> Prop) :
  good_name name -> inv n f -> (forall r f, inv n f -> Q r f) ->
  (forall p f, clean p -> inv n f -> wp (k p) Q f) -> wp (with_child par name k) Q f.
Proof.
  intros Hn Hi HQ Hk. unfold with_child. apply wp_bind.
  eapply wp_mono; [by apply wp_resolve_child|]. intros [p|] f' [Hi' Hp]; [|by apply HQ].
  destruct (Hp p eq_refl) as (ns & ? & _ & ->). unfold path_to_string. destruct (utf8_valid _); [|by apply HQ].
  apply Hk; [by exists ns|done].
Qed.

Lemma wp_with_path n ino (k : bytes -> F (reply B)) f (Q : reply B -> fs P -> Prop) :
  inv n f -> (forall r f, inv n f -> Q r f) ->
  (forall p f, clean p -> inv n f -> wp (k p) Q f) -> wp (with_path ino k) Q f.
Proof.
  intros Hi HQ Hk. unfold with_path. apply wp_bind. unfold wp, gets; simpl.
  destruct (ino_to_path f !! ino) as [p|] eqn:E; [|by apply HQ].
  unfold path_to_string. destruct (utf8_valid _); [|by apply HQ].
  apply Hk; [|done]. by apply (t_clean _ _ _ (i_tables _ _ Hi) ino).
Qed.

(** One step of a handler proof: run a quiet action, or return. *)
Ltac wp_step n :=
  lazymatch goal with
  | |- wp (mret _) _ _ => apply wp_ret
  | |- wp (fail _) _ _ => apply wp_ret
  | |- wp (_ ≫= _) _ _ =>
      apply wp_bind; eapply (wp_quiet _ n); [solve [quiet_tac]|eassumption|intros ? ? ?]
  | |- wp (match ?x with _ => _ end) _ _ => destruct x
  end.

Lemma wp_adopt now par e fresh n f :
  n + 1 < 2 ^ 64 -> clean par -> good_name (DirEntry.name e) -> inv n f ->
  wp (adopt_listing_entry now par e fresh) (fun _ => inv (n + 1)) f.
Proof.
  intros Hn (ns & Hns & ->) He Hi. unfold adopt_listing_entry. apply wp_bind.
  eapply wp_mono; [apply (wp_ino_for n); [done| |done]|].
  - rewrite path_join_name by done. exists (ns ++ [DirEntry.name e]). split; [|done].
    apply Forall_app. auto.
  - intros i f' Hi'. wp_step (n + 1). by wp_step (n + 1).
Qed.

Lemma wp_add_entries now par fresh l m buf n f :
  n + zlen l < 2 ^ 64 -> clean par -> Forall (fun e => good_name (DirEntry.name e)) l -> inv n f ->
  wp (add_entries now par fresh m l buf) (fun _ => inv (n + zlen l)) f.
Proof.
  intros Hn Hp Hl. revert m buf n f Hn. induction Hl as [|e l He Hl IH]; intros m buf n f Hn Hi.
  { apply wp_ret. by rewrite zlen_nil, Z.add_0_r. }
  cbn [add_entries]. rewrite zlen_cons in *. apply wp_bind.
  eapply wp_mono; [apply (wp_adopt _ _ _ _ n); [pose proof (zlen_nonneg l); lia|done|done|done]|].
  intros i f' Hi'. simpl. destruct (dir_add _ buf) as [full buf']. rewrite (Z.add_comm 1), Z.add_assoc in *.
  replace (n + zlen l + 1) with (n + 1 + zlen l) in * by lia. by apply IH.
Qed.

Section served.
(** The device lists entries by their names, fewer than 2^32 of them. *)
Context (Hlist : forall path (s s' : P) l, p_listdir path s = (Ok l, s') -> good_listing l).

Lemma evict_keeps cap o m : map_Forall (fun _ lt => good_listing lt.1) m ->
  map_Forall (fun _ lt => good_listing lt.1) (DirCache.evict cap o m).2.
Proof.
  revert m. induction o as [|k o IH]; intros m Hm; cbn [DirCache.evict]; [done|].
  case_bool; [|done]. apply IH. by apply map_Forall_delete.
Qed.

Lemma good_put now path l e d :
  good_listing l -> good_listings d -> good_listings (DirCache.put now path l e d).
Proof.
  intros Hl Hd. unfold DirCache.put. case_bool; [done|].
  pose proof (evict_keeps (DirCache.capacity d) (DirCache.remove_first path (DirCache.order d)) (DirCache.map d)) as He.
  destruct (DirCache.evict _ _ _) as [o m]. simpl in *.
  intros q l' t Hq. simpl in Hq.
  apply lookup_insert_Some in Hq as [[<- E]|[_ Hq]]; [by simplify_eq|].
  assert (Hm : map_Forall (fun _ lt => good_listing lt.1) m).
  { apply He. intros r [l'' t'']. apply Hd. }
  by apply Hm in Hq.
Qed.

Lemma wp_list_directory now path n f :
  inv n f ->
  wp (list_directory now path)
    (fun r f' => inv n f' /\ forall l b, r = Ok (l, b) -> good_listing l) f.
Proof.
  intros Hi. unfold list_directory. apply wp_bind.
  assert (Hg : forall l, (dir_get now path f).1 = Some l -> good_listing l).
  { unfold dir_get, DirCache.get. destruct (DirCache.map (dir_cache f) !! path) as [[l t]|] eqn:E; [|done].
    intros l'. case_bool; simpl; intros; simplify_eq. by eapply i_dirs. }
  pose proof (quiet_inv n _ _ (quiet_dir_get now path f) Hi) as Hi1. unfold wp at 1.
  destruct (dir_get now path f) as [[l|] f1]; simpl in *.
  { apply wp_ret. split; [done|]. intros ?? [= <- <-]. auto. }
  apply wp_bind. unfold wp at 1; simpl. apply wp_bind. unfold wp at 1, call.
  destruct (p_listdir path (proxy f1)) as [[l|er] s'] eqn:E; simpl.
  - apply wp_bind. unfold wp; simpl. split; [|intros ?? [= <- <-]; eauto].
    destruct Hi1 as [Ht Hn Hd]. split; simpl; [done|done|]. apply good_put; [eauto|done].
  - apply wp_ret. split; [|done]. by destruct Hi1.
Qed.

(** Inode numbers a request may allocate. *)
#[local] Abbreviation quota := (2 ^ 32).

Lemma wp_readdir now ino off buf n f :
  n + quota < 2 ^ 64 -> inv n f -> wp (readdir now ino off buf) (fun _ => inv (n + quota)) f.
Proof.
  intros Hn Hi.
  assert (HQ : forall f', inv n f' -> inv (n + quota) f') by (intros f'; apply inv_mono; lia).
  unfold readdir. apply (wp_with_path n); [done|by intros; apply HQ|].
  intros p f1 Hp Hi1. apply wp_bind. eapply wp_mono; [by apply (wp_list_directory _ _ n)|].
  intros [[l fresh]|e] f2 [Hi2 Hl]; [|by apply wp_ret, HQ].
  destruct (Hl l fresh eq_refl) as [Hlen Hnames].
  destruct (off =? 0); [set (b1 := (dir_add _ buf).2)|set (b1 := buf)];
    [change (1 =? 1) with true|destruct (off =? 1)]; cbv iota beta;
    apply wp_bind; (eapply wp_mono;
      [ apply (wp_add_entries _ _ _ _ _ _ n); [rewrite zlen_zdrop; lia|done|by apply Forall_drop|done]
      | intros b f3 Hi3; apply wp_ret; eapply inv_mono; [|exact Hi3]; rewrite zlen_zdrop; lia ]).
Qed.

Lemma wp_lookup now par name n f :
  n + 1 < 2 ^ 64 -> good_name name -> inv n f -> wp (lookup (B:=B) now par name) (fun _ => inv (n + 1)) f.
Proof.
  intros Hn Hname Hi.
  assert (HQ : forall f', inv n f' -> inv (n + 1) f') by (intros f'; apply inv_mono; lia).
  unfold lookup. apply (wp_with_child n); [done|done|by intros; apply HQ|].
  intros p f1 Hp Hi1. wp_step n. destruct a as [st|e]; [|repeat case_match; by apply wp_ret, HQ].
  wp_step n. apply wp_bind. eapply wp_mono; [by apply (wp_ino_for n)|].
  intros i f2 Hi2. by apply wp_ret.
Qed.

Lemma wp_symlink now par name target n f :
  n + 1 < 2 ^ 64 -> good_name name -> inv n f ->
  wp (symlink (B:=B) now par name target) (fun _ => inv (n + 1)) f.
Proof.
  intros Hn Hname Hi.
  assert (HQ : forall f', inv n f' -> inv (n + 1) f') by (intros f'; apply inv_mono; lia).
  unfold symlink. apply wp_bind. eapply wp_mono; [by apply (wp_resolve_child n)|].
  intros [p|] f1 [Hi1 Hp]; [|by apply wp_ret, HQ].
  destruct (Hp p eq_refl) as (ns & Hns & _ & ->).
  wp_step n. destruct a as [u|e]; [|by apply wp_ret, HQ]. wp_step n.
  apply wp_bind. eapply wp_mono; [apply (wp_ino_for n); [done|by exists ns|done]|].
  intros i f2 Hi2. cbv beta. repeat (wp_step (n + 1)). done.
Qed.

Lemma wp_create now par name mode flags n f :
  n + 1 < 2 ^ 64 -> good_name name -> inv n f ->
  wp (create (B:=B) now par name mode flags) (fun _ => inv (n + 1)) f.
Proof.
  intros Hn Hname Hi.
  assert (HQ : forall f', inv n f' -> inv (n + 1) f') by (intros f'; apply inv_mono; lia).
  unfold create. apply (wp_with_child n); [done|done|by intros; apply HQ|].
  intros p f1 Hp Hi1. wp_step n. destruct a as [u|e]; [|by apply wp_ret, HQ]. wp_step n.
  apply wp_bind. eapply wp_mono; [by apply (wp_ino_for n)|].
  intros i f2 Hi2. repeat (wp_step (n + 1)). done.
Qed.

Lemma wp_mkdir now par name mode n f :
  n + 1 < 2 ^ 64 -> good_name name -> inv n f ->
  wp (mkdir (B:=B) now par name mode) (fun _ => inv (n + 1)) f.
Proof.
  intros Hn Hname Hi.
  assert (HQ : forall f', inv n f' -> inv (n + 1) f') by (intros f'; apply inv_mono; lia).
  unfold mkdir. apply (wp_with_child n); [done|done|by intros; apply HQ|].
  intros p f1 Hp Hi1. wp_step n. destruct a as [u|e]; [|by apply wp_ret, HQ].
  apply wp_bind. eapply wp_mono; [by apply (wp_ino_for n)|].
  intros i f2 Hi2. repeat (wp_step (n + 1)). done.
Qed.

Lemma wp_do_rename now ms ds n f :
  Forall good_name ms -> Forall good_name ds -> ms <> [] -> ds <> [] -> inv n f ->
  wp (do_rename (B:=B) now (path_of ms) (path_of ds)) (fun _ => inv n) f.
Proof.
  intros Hms Hds Hm0 Hd0 Hi. unfold do_rename. apply wp_bind.
  eapply (wp_quiet _ n); [apply quiet_src_is_dir|done|]. intros d f1 Hi1.
  wp_step n. destruct a as [u|e]; [|by apply wp_ret].
  apply wp_bind. unfold wp at 1, modify. simpl.
  destruct H as [Ht Hn Hd].
  pose proof (move_maps_tables _ ms ds d _ _ Ht Hms Hds Hm0 Hd0) as Ht'.
  destruct (move_maps _ _ _ _ _) as [i2p p2i]. apply wp_bind.
  eapply (wp_quiet _ n); [apply quiet_after_rename|by split|]. intros _ f3 Hi3. by apply wp_ret.
Qed.

Lemma wp_rename now par name newpar newname flags n f :
  good_name name -> good_name newname -> inv n f ->
  wp (rename (B:=B) now par name newpar newname flags) (fun _ => inv n) f.
Proof.
  intros Hn1 Hn2 Hi. unfold rename. apply wp_bind. eapply wp_mono; [by apply (wp_resolve_child n)|].
  intros [p|] f1 [Hi1 Hp]; [|by apply wp_ret]. destruct (Hp p eq_refl) as (ms & Hms & Hm0 & ->).
  apply wp_bind. eapply wp_mono; [by apply (wp_resolve_child n)|].
  intros [q|] f2 [Hi2 Hq]; [|by apply wp_ret]. destruct (Hq q eq_refl) as (ds & Hds & Hd0 & ->).
  unfold path_to_string. destruct (utf8_valid (path_of ms)), (utf8_valid (path_of ds)); try by apply wp_ret.
  case_bool; [by apply wp_ret|]. case_bool; [|by apply wp_do_rename].
  wp_step n. repeat case_match; try (by apply wp_ret); by apply wp_do_rename.
Qed.

(** *** Every request *)

Definition good_request (q : request (B:=B)) : Prop :=
  match q with
  | QLookup _ n | QSymlink _ n _ | QCreate _ n _ _ | QMkdir _ n _ | QUnlink _ n | QRmdir _ n => good_name n
  | QRename _ n _ n' _ => good_name n /\ good_name n'
  | _ => True
  end.

Lemma wp_handle now (q : request (B:=B)) n f :
  n + quota < 2 ^ 64 -> good_request q -> inv n f -> wp (handle now q) (fun _ => inv (n + quota)) f.
Proof.
  intros Hn Hq Hi.
  assert (HQ : forall m f', m <= n + 1 -> inv m f' -> inv (n + quota) f')
    by (intros m f' ?; apply inv_mono; lia).
  assert (Hquiet : forall A (m : F A), quietly m -> wp m (fun _ => inv (n + quota)) f).
  { intros A m Hm. eapply (wp_quiet _ n); [done|done|]. intros _ f'. apply HQ. lia. }
  assert (Hwrap : forall A m (h : F A) (g : A -> option (reply B)),
    m <= n + quota -> wp h (fun _ => inv m) f -> wp (r ← h; mret (g r)) (fun _ => inv (n + quota)) f).
  { intros A m h g Hm Hh. apply wp_bind. eapply wp_mono; [exact Hh|]. intros r f' Hf.
    apply wp_ret. by apply (inv_mono m). }
  destruct q; simpl in Hq; unfold handle.
  - apply (Hwrap _ (n + 1)); [lia|]. apply wp_lookup; [lia|done|done].
  - apply (Hwrap _ n); [lia|]. by apply wp_forget.
  - apply Hquiet, quiet_bind; [apply quiet_getattr|intros; apply quiet_ret].
  - apply (Hwrap _ (n + quota)); [lia|]. by apply wp_readdir.
  - apply (Hwrap _ (n + 1)); [lia|]. apply wp_symlink; [lia|done|done].
  - apply Hquiet, quiet_bind; [apply quiet_readlink|intros; apply quiet_ret].
  - apply Hquiet, quiet_bind; [apply quiet_open|intros; apply quiet_ret].
  - apply Hquiet, quiet_bind; [apply quiet_read|intros; apply quiet_ret].
  - apply Hquiet, quiet_bind; [apply quiet_write|intros; apply quiet_ret].
  - apply Hquiet, quiet_bind; [apply quiet_release|intros; apply quiet_ret].
  - apply (Hwrap _ (n + 1)); [lia|]. apply wp_create; [lia|done|done].
  - apply (Hwrap _ (n + 1)); [lia|]. apply wp_mkdir; [lia|done|done].
  - apply Hquiet, quiet_bind; [apply quiet_unlink|intros; apply quiet_ret].
  - apply Hquiet, quiet_bind; [apply quiet_rmdir|intros; apply quiet_ret].
  - apply (Hwrap _ n); [lia|]. by apply wp_rename; destruct Hq.
  - apply Hquiet, quiet_bind; [apply quiet_setattr|intros; apply quiet_ret].
  - apply Hquiet, quiet_bind; [apply quiet_ret|intros; apply quiet_ret].
Qed.

Lemma with_proxy_inv (s : P) : inv 100 (with_proxy s).
Proof.
  split; simpl; [|lia|by intros p l t Hp].
  split; unfold ROOT; intros *; rewrite ?lookup_singleton_Some; try done.
  - by intros [<- <-].
  - by intros [<- _].
  - intros [<- _]. by left.
  - intros [_ <-]. by exists [].
Qed.

Lemma serve_inv (qs : list (Z * request (B:=B))) n f :
  n + zlen qs * quota < 2 ^ 64 -> Forall (fun nq => good_request nq.2) qs -> inv n f ->
  inv (n + zlen qs * quota) (serve f qs).
Proof.
  revert n f. induction qs as [|[now q] qs IH]; intros n f Hn Hqs Hi.
  { change (zlen _) with 0. by replace (n + 0 * quota) with n by lia. }
  inv Hqs. rewrite zlen_cons in *. pose proof (zlen_nonneg qs).
  replace (n + (1 + zlen qs) * quota) with (n + quota + zlen qs * quota) in * by lia.
  apply IH; [done|done|]. simpl. apply (wp_handle now q n f); [lia|done|done].
Qed.

(** C8: The inode tables stay consistent: after any sequence of fewer than
    2^31 kernel requests with well-formed names, whatever the device answers
    as long as it lists names, every path known under an inode resolves back to that path, so
    no two paths share an inode; the root keeps inode 1 and is the only path that has it; and
    every inode in use is 1 or was allocated, below the next one, which has not wrapped. *)
Theorem inode_tables_consistent (s : P) (qs : list (Z * request (B:=B))) :
  zlen qs < 2 ^ 31 -> Forall (fun nq => good_request nq.2) qs ->
  let f := serve (with_proxy s) qs in
  (forall p i, path_to_ino f !! p = Some i -> ino_to_path f !! i = Some p)
  /\ path_to_ino f !! bs "/" = Some ROOT
  /\ (forall i, ino_to_path f !! i = Some (bs "/") <-> i = ROOT)
  /\ (forall i p, ino_to_path f !! i = Some p -> i = ROOT \/ 100 <= i < next_ino f)
  /\ next_ino f < 2 ^ 64.
Proof.
  intros Hlen Hqs f. pose proof (zlen_nonneg qs).
  destruct (serve_inv qs 100 (with_proxy s)) as [Ht Hn _]; [lia|done|apply with_proxy_inv|].
  split_and!; [apply Ht|apply Ht| |apply Ht|subst f; lia].
  intros i. split; [apply Ht|intros ->]. apply Ht, Ht.
Qed.

End served.

(** ** Renames *)

Lemma do_rename_maps now src dst f f' :
  do_rename (B:=B) now src dst f = (ROk, f') ->
  (ino_to_path f', path_to_ino f') =
  move_maps src dst (src_is_dir now src f).1 (ino_to_path f) (path_to_ino f).
Proof.
  unfold do_rename, mbind, F_bind. pose proof (quiet_src_is_dir now src f) as (Q1 & Q2 & _ & _).
  destruct (src_is_dir now src f) as [d f1]. simpl in *. unfold call at 1.
  destruct (p_rename src dst (proxy f1)) as [[u|e] s']; simpl; [|by intros].
  rewrite Q1, Q2. destruct (move_maps _ _ _ _ _) as [i2p p2i].
  match goal with |- context [invalidate_after_rename src dst d ?g] =>
    pose proof (quiet_after_rename src dst d g) as (R1 & R2 & _ & _) end.
  destruct (invalidate_after_rename _ _ _ _) as [u' f3]. intros [= <-]. simpl in *. by rewrite R1, R2.
Qed.

(** After a successful rename the kernel's inode numbers stay valid: the
    renamed path keeps its inode and, for a directory, so does every known
    path below it, at the same place under the new name; everything known
    outside the source and the destination is left alone. *)
Theorem rename_keeps_inodes now par name newpar newname flags ps qs n f f' :
  let src := ps ++ [name] in let dst := qs ++ [newname] in
  inv n f -> Forall good_name src -> Forall good_name dst ->
  ino_to_path f !! par = Some (path_of ps) -> ino_to_path f !! newpar = Some (path_of qs) ->
  Z.land flags RENAME_NOREPLACE = 0 ->
  rename (B:=B) now par name newpar newname flags f = (ROk, f') ->
  let is_dir := (src_is_dir now (path_of src) f).1 in
  (forall k i, k = [] \/ is_dir = true -> Forall good_name k -> dst <> src ++ k ->
     path_to_ino f !! path_of (src ++ k) = Some i ->
     ino_to_path f' !! i = Some (path_of (dst ++ k)) /\ path_to_ino f' !! path_of (dst ++ k) = Some i)
  /\ (forall ns i, Forall good_name ns -> path_to_ino f !! path_of ns = Some i ->
     ~ (exists k, ns = src ++ k /\ (k = [] \/ is_dir = true)) -> ~ (exists k, ns = dst ++ k) ->
     ino_to_path f' !! i = Some (path_of ns) /\ path_to_ino f' !! path_of ns = Some i).
Proof.
  intros src dst Hi Hsrc Hdst Hpar Hnew Hflags Hr.
  assert (Hs0 : src <> []) by (by intros [_ ?]%app_nil).
  assert (Hd0 : dst <> []) by (by intros [_ ?]%app_nil).
  assert (Hm : do_rename (B:=B) now (path_of src) (path_of dst) f = (ROk, f')).
  { revert Hr. unfold rename, mbind, F_bind, resolve_child, gets; rewrite Hpar; simpl. rewrite Hnew; simpl.
    destruct (proj1 (Forall_app _ _ _) Hsrc) as [Hps Hname]. destruct (proj1 (Forall_app _ _ _) Hdst) as [Hqs Hname'].
    inv Hname. inv Hname'. rewrite !path_join_name by done. fold src dst.
    unfold path_to_string. rewrite Hflags. destruct (utf8_valid (path_of src)); [|done].
    destruct (utf8_valid (path_of dst)); [|done].
    by case_bool. }
  apply do_rename_maps in Hm. destruct (i_tables _ _ Hi) as [Hb Hro Hon Hbd Hc].
  pose proof (Build_tables _ _ _ Hb Hro Hon Hbd Hc) as Ht.
  split; [intros k i Hk Hgk Hne Hl|intros ns i Hns Hl Hk Hd].
  - pose proof (move_maps_moved _ _ _ _ _ _ Ht Hsrc Hdst Hd0 k i Hgk Hk Hl Hne) as [H1 H2].
    rewrite <- Hm in H1, H2. done.
  - pose proof (move_maps_kept _ _ _ _ _ _ Ht Hsrc Hdst Hs0 Hd0 ns i Hns Hl Hk Hd) as [H1 H2].
    rewrite <- Hm in H1, H2. done.
Qed.

(** C11: A rename asked not to replace never renames over an existing name:
    unless the device answers NotFound for the destination's own name, the
    reply is an error and nothing but that one query happened. *)
Theorem rename_noreplace_safe now par name newpar newname flags dst f :
  Z.land flags RENAME_NOREPLACE <> 0 ->
  (resolve_child newpar newname f).1 = Some dst ->
  (forall m s', p_lstat dst (proxy f) <> (Err (StatusErr Status.NotFound m), s')) ->
  let '(r, f') := rename (B:=B) now par name newpar newname flags f in
  (exists e, r = RError e) /\ (f' = f \/ f' = (call (p_lstat dst) f).2).
Proof.
  intros Hflags Hdst Hex. unfold rename, mbind, F_bind. unfold resolve_child, gets in *; simpl in *.
  destruct (_ <$> ino_to_path f !! par) as [b|]; [|by split; eauto]. rewrite Hdst.
  unfold path_to_string. destruct (utf8_valid b), (utf8_valid dst); try (by split; eauto).
  case_bool; [by split; eauto|]. apply Z.eqb_neq in Hflags. rewrite Hflags. simpl. unfold call.
  destruct (p_lstat dst (proxy f)) as [[st|e] s'] eqn:E; [by split; eauto|].
  destruct e as [| | |[] ?| | | | |]; simpl; try (by split; eauto).
  exfalso. by eapply Hex.
Qed.

(** ** Directory listings *)

(** The buffer after each entry was offered to it. *)
Definition offered (ds : list dirent) (buf : B) : B := foldl (fun b d => (dir_add d b).2) buf ds.

(** The names of a directory, in the order of their offsets. *)
Definition dir_names (l : list DirEntry.t) : list bytes := bs "." :: bs ".." :: (DirEntry.name <$> l).

Lemma ino_for_spec p f :
  path_to_ino (ino_for p f).2 !! p = Some (ino_for p f).1
  /\ forall q j, path_to_ino f !! q = Some j -> path_to_ino (ino_for p f).2 !! q = Some j.
Proof.
  unfold ino_for. destruct (path_to_ino f !! p) as [i|] eqn:E; simpl; [done|].
  rewrite lookup_insert_eq. split; [done|]. intros q j Hq. rewrite lookup_insert_ne; congruence.
Qed.

Lemma adopt_spec now par e fresh f :
  let '(i, f') := adopt_listing_entry now par e fresh f in
  path_to_ino f' !! path_join par (DirEntry.name e) = Some i
  /\ forall q j, path_to_ino f !! q = Some j -> path_to_ino f' !! q = Some j.
Proof.
  unfold adopt_listing_entry, mbind, F_bind.
  pose proof (ino_for_spec (path_join par (DirEntry.name e)) f) as H.
  destruct (ino_for _ f) as [i f1]. by destruct fresh.
Qed.

(** What is offered for the entry [e] of [par] under the offset [off]. *)
Definition offer_for (f : fs P) (par : bytes) (off : Z) (e : DirEntry.t) (d : dirent) : Prop :=
  de_off d = off /\ de_name d = DirEntry.name e
  /\ de_kind d = kind_from_mode (Stat.mode (DirEntry.stat e))
  /\ path_to_ino f !! path_join par (DirEntry.name e) = Some (de_ino d).

Lemma add_entries_offered now par fresh l n buf f :
  exists ds f', add_entries now par fresh n l buf f = (offered ds buf, f')
  /\ (forall q j, path_to_ino f !! q = Some j -> path_to_ino f' !! q = Some j)
  /\ de_name <$> ds = DirEntry.name <$> l
  /\ forall k d e, ds !! k = Some d -> l !! k = Some e -> offer_for f' par (n + 3 + Z.of_nat k) e d.
Proof.
  revert n buf f. induction l as [|e l IH]; intros n buf f; [by exists [], f|].
  cbn [add_entries]. unfold mbind at 1, F_bind. pose proof (adopt_spec now par e fresh f) as Ha.
  destruct (adopt_listing_entry now par e fresh f) as [i f1]. destruct Ha as [Hi Hm].
  set (d := mkDirent i (n + 3) _ _). destruct (dir_add d buf) as [full buf'] eqn:Hd.
  destruct (IH (n + 1) buf' f1) as (ds & f' & -> & Hm' & Hn & Hk).
  exists (d :: ds), f'. split_and!.
  - unfold offered; cbn [foldl]. by rewrite Hd.
  - auto.
  - cbn. by f_equal.
  - intros [|k] d' e' Hd' He'; simplify_eq/=.
    + split_and!; [simpl; lia|done|done|]. apply Hm', Hi.
    + replace (n + 3 + Z.of_nat (S k)) with (n + 1 + 3 + Z.of_nat k) by lia. by apply Hk.
Qed.

(** Offers [ds] are right for a request at [off]. *)
Definition right_offers (f : fs P) (path : bytes) (l : list DirEntry.t) (off : Z) (ds : list dirent) : Prop :=
  de_name <$> ds = zdrop off (dir_names l)
  /\ (forall k d, ds !! k = Some d -> de_off d = off + Z.of_nat k + 1)
  /\ (forall k d e, ds !! k = Some d -> l !! Z.to_nat (off + Z.of_nat k - 2) = Some e ->
        2 <= off + Z.of_nat k -> offer_for f path (off + Z.of_nat k + 1) e d).

(** The listing's own entries, after the dots. *)
Lemma right_offers_entries f path l skip ds :
  0 <= skip -> de_name <$> ds = DirEntry.name <$> zdrop skip l ->
  (forall k d e, ds !! k = Some d -> zdrop skip l !! k = Some e ->
     offer_for f path (skip + 3 + Z.of_nat k) e d) ->
  right_offers f path l (skip + 2) ds.
Proof.
  intros Hs Hn Hk. split_and!.
  - rewrite Hn. unfold dir_names, zdrop. replace (Z.to_nat (skip + 2)) with (S (S (Z.to_nat skip))) by lia.
    simpl. apply fmap_drop.
  - intros k d Hd. destruct (zdrop skip l !! k) as [e|] eqn:He.
    + destruct (Hk k d e Hd He) as [-> _]. lia.
    + apply lookup_ge_None in He. apply lookup_lt_Some in Hd.
      apply (f_equal length) in Hn. rewrite !length_fmap in Hn. lia.
  - intros k d e Hd He _. replace (skip + 2 + Z.of_nat k + 1) with (skip + 3 + Z.of_nat k) by lia.
    apply Hk; [done|]. unfold zdrop. rewrite lookup_drop. rewrite <- He. f_equal. lia.
Qed.

(** One of the dots in front. *)
Lemma right_offers_dot f path l off i k n ds :
  0 <= off < 2 -> dir_names l !! Z.to_nat off = Some n -> right_offers f path l (off + 1) ds ->
  right_offers f path l off (mkDirent i (off + 1) k n :: ds).
Proof.
  intros Ho Hn (H1 & H2 & H3). split_and!.
  - cbn [fmap list_fmap]. rewrite H1. unfold zdrop. rewrite (drop_S _ n _ Hn). cbn [de_name]. do 2 f_equal. lia.
  - intros [|j] d Hd; simplify_eq/=; [lia|]. rewrite (H2 j d Hd). lia.
  - intros [|j] d e Hd He Hj; [lia|]. simplify_eq/=.
    replace (off + Z.of_nat (S j) + 1) with (off + 1 + Z.of_nat j + 1) by lia.
    apply H3; [done| |lia]. rewrite <- He. f_equal. lia.
Qed.

(** [readdir] at offset [off] offers the kernel exactly the names of the
    directory from position [off] on (["."], [".."], then the listing), the
    entry at position [p] with the resume offset [p + 1], its kind and the
    inode its path is known by: resuming at the offset of any accepted entry
    continues right after it. *)
Theorem readdir_offers now ino off buf b f path :
  0 <= off -> ino_to_path f !! ino = Some path ->
  (readdir now ino off buf f).1 = RDirectory b ->
  exists l fresh ds, (list_directory now path f).1 = Ok (l, fresh) /\ b = offered ds buf
  /\ right_offers (readdir now ino off buf f).2 path l off ds.
Proof.
  intros Hoff Hpath. unfold readdir, with_path, mbind, F_bind, gets. rewrite Hpath.
  unfold path_to_string. destruct (utf8_valid path); [|done].
  destruct (list_directory now path f) as [[[l fresh]|e] f1]; [|done]. simpl.
  assert (Hgo : forall bf skip, 0 <= skip -> exists ds f',
    add_entries now path fresh skip (zdrop skip l) bf f1 = (offered ds bf, f')
    /\ right_offers f' path l (skip + 2) ds).
  { intros bf skip Hs. destruct (add_entries_offered now path fresh (zdrop skip l) skip bf f1)
      as (ds & f' & Ha & _ & Hn & Hk). exists ds, f'. split; [done|]. by apply right_offers_entries. }
  destruct (Z.eqb_spec off 0) as [->|H0]; [|destruct (Z.eqb_spec off 1) as [->|H1]].
  - change (1 =? 1) with true. cbv iota beta. change (Z.max 0 (2 - 2)) with 0.
    destruct (Hgo (offered [mkDirent ino 1 Directory (bs "."); mkDirent ROOT 2 Directory (bs "..")] buf) 0)
      as (ds & f' & Ha & Hr); [done|].
    cbn [offered foldl] in Ha. rewrite Ha. intros [= <-]. exists l, fresh. eexists. split_and!; [done| |].
    2:{ do 2 (apply right_offers_dot; [lia|done|]). exact Hr. }
    done.
  - change (Z.max 0 (2 - 2)) with 0.
    destruct (Hgo (offered [mkDirent ROOT 2 Directory (bs "..")] buf) 0) as (ds & f' & Ha & Hr); [done|].
    cbn [offered foldl] in Ha. rewrite Ha. intros [= <-]. exists l, fresh. eexists. split_and!; [done| |].
    2:{ apply right_offers_dot; [lia|done|]. exact Hr. }
    done.
  - destruct (Hgo buf (off - 2)) as (ds & f' & Ha & Hr); [lia|].
    replace (Z.max 0 (off - 2)) with (off - 2) by lia. rewrite Ha. intros [= <-].
    exists l, fresh, ds. split_and!; [done|done|]. by replace off with (off - 2 + 2) by lia.
Qed.

End spec.
