(* ===== verification/FilesystemCases.v ===== *)
(** * A small device tree and what the FUSE handlers do with it

    [TinyFs] is a device whose tree is a list of paths, [SizedBuf] a reply
    buffer of a fixed size; on them the theorems on inodes and listings are
    applied, and three sequences of requests are followed in which the kernel
    loses an inode or a name. *)

From stdpp Require Import base list gmap strings.
From S2P Require Import Prelude RustStd ProxyOps Libc ProxyClient Cache Filesystem Paths FilesystemSpec.

(** The paths of the device, in directory order, with their modes. *)
Module TinyFs.

Definition t : Type := list (bytes * Z).

Definition not_found : ProxyError := StatusErr Status.NotFound (bs "not found").
Definition unsupported : ProxyError := StatusErr Status.InvalidArg (bs "unsupported").

Definition find (p : bytes) (s : t) : option Z := snd <$> List.find (fun e => bool_decide (e.1 = p)) s.
Definition stat_of (m : Z) : Stat.t := Stat.mk m 0 0 0 0 0 0 1 4096 0.

Definition lstat (p : bytes) (s : t) : presult Stat.t * t :=
  (match find p s with Some m => Ok (stat_of m) | None => Err not_found end, s).
Definition add (p : bytes) (m : Z) (s : t) : t := s ++ [(p, m)].
Definition remove (p : bytes) (s : t) : t := List.filter (fun e => negb (bool_decide (e.1 = p))) s.
Definition rename (src dst : bytes) (s : t) : t :=
  (fun e => if starts_with e.1 src then (moved_to src dst e.1, e.2) else e) <$> remove dst s.

(** The children of [p], at most 1000. *)
Definition children (p : bytes) (s : t) : list DirEntry.t :=
  ztake 1000 ((fun e => DirEntry.mk (last_component e.1) (stat_of e.2)) <$>
    List.filter (fun e => bool_decide (parent e.1 = Some p) && bool_decide (good_name (last_component e.1))) s).

#[export] Instance proxy : FsProxy t := {|
  p_stat := lstat;
  p_lstat := lstat;
  p_readlink _ s := (Err unsupported, s);
  p_symlink _ p s := (Ok tt, add p FileMode.symlink s);
  p_listdir p s := (Ok (children p s), s);
  p_open p _ m s :=
    match find p s with
    | Some _ => (Ok (mkFile (Some 3) p), s)
    | None => (Ok (mkFile (Some 3) p), add p (Z.lor FileMode.file m) s)
    end;
  p_read_at _ _ _ s := (Err unsupported, s);
  p_write_at _ _ _ s := (Err unsupported, s);
  p_close _ s := (Ok tt, s);
  p_fstat f s := lstat (file_path f) s;
  p_mkdir p m s := (Ok tt, add p (Z.lor FileMode.dir m) s);
  p_unlink p s := (Ok tt, remove p s);
  p_rmdir p s := (Ok tt, remove p s);
  p_rename src dst s := (Ok tt, rename src dst s);
  p_truncate _ _ s := (Err unsupported, s);
|}.

Lemma lists_names path (s s' : t) l : p_listdir path s = (Ok l, s') -> good_listing l.
Proof.
  intros [= <- <-]. split.
  - unfold children. rewrite zlen_ztake. lia.
  - unfold children, ztake. apply Forall_take, Forall_forall. intros e He.
    apply list_elem_of_fmap in He as ([p m] & -> & He).
    apply DirCache.elem_of_filter_bool in He as [_ He]. apply andb_true_iff in He as [_ He].
    by apply bool_decide_eq_true in He.
Qed.

End TinyFs.

(** A reply buffer with [room] bytes left, as [ReplyDirectory] has: a record
    is 24 bytes and the name, rounded up to 8; one that does not fit is not
    added. *)
Module SizedBuf.

Record t : Type := mk { room : Z; got : list dirent }.
Definition size (d : dirent) : Z := (24 + zlen (de_name d) + 7) / 8 * 8.
#[export] Instance buf : DirBuf t := {|
  dir_add d b := if size d >? room b then (true, b) else (false, mk (room b - size d) (got b ++ [d]));
|}.

End SizedBuf.

#[local] Existing Instances TinyFs.proxy SizedBuf.buf.
#[local] Abbreviation req := (request (B:=SizedBuf.t)).

(** ** Inodes *)

(** [/d] and [/s], with a file [x] each. *)
Definition two_dirs : TinyFs.t :=
  [(bs "/d", FileMode.dir); (bs "/d/x", FileMode.file); (bs "/s", FileMode.dir); (bs "/s/x", FileMode.file)].

(** [/d/x] is removed while its inode is still known, then [/s] is renamed to [/d]. *)
Definition replace_dir : list (Z * req) :=
  [(0, QLookup 1 (bs "d")); (0, QLookup 100 (bs "x")); (0, QLookup 1 (bs "s")); (0, QLookup 102 (bs "x"));
   (0, QUnlink 100 (bs "x")); (0, QRename 1 (bs "s") 1 (bs "d") 0)].

Lemma inode_tables_consistent_witness :
  zlen replace_dir < 2 ^ 31
  /\ let f := serve (with_proxy two_dirs) replace_dir in
     path_to_ino f !! bs "/d/x" = Some 103 /\ ino_to_path f !! 103 = Some (bs "/d/x")
     /\ (forall p i, path_to_ino f !! p = Some i -> ino_to_path f !! i = Some p).
Proof.
  assert (Hlen : zlen replace_dir < 2 ^ 31) by done.
  destruct (inode_tables_consistent TinyFs.lists_names two_dirs replace_dir Hlen) as (Hb & _).
  { repeat constructor; by vm_compute. }
  split; [done|]. split; [by vm_compute|]. split; [apply Hb; by vm_compute|exact Hb].
Defined.

Lemma rename_keeps_inodes_witness :
  let f := serve (with_proxy two_dirs) (take 5 replace_dir) in
  let f' := serve (with_proxy two_dirs) replace_dir in
  path_to_ino f !! bs "/s/x" = Some 103
  /\ ino_to_path f' !! 103 = Some (bs "/d/x") /\ path_to_ino f' !! bs "/d/x" = Some 103.
Proof.
  intros f f'. split; [by vm_compute|].
  assert (Hi : inv (100 + 5 * 2 ^ 32) f).
  { apply (serve_inv TinyFs.lists_names (take 5 replace_dir)); [done| |apply with_proxy_inv].
    repeat constructor; by vm_compute. }
  destruct (rename_keeps_inodes (B:=SizedBuf.t) 0 1 (bs "s") 1 (bs "d") 0 [] [] _ f f' Hi) as [Hm _];
    [| |by vm_compute|by vm_compute|done|by vm_compute|].
  1,2: repeat constructor; by vm_compute.
  apply (Hm [bs "x"] 103); [right; by vm_compute|repeat constructor; by vm_compute|by vm_compute|by vm_compute].
Defined.

(** [mv -n /s /d] is refused, and the tables and the device are as before. *)
Lemma rename_noreplace_safe_witness :
  let '(r, f') := rename (B:=SizedBuf.t) 0 1 (bs "s") 1 (bs "d") RENAME_NOREPLACE (with_proxy two_dirs) in
  (exists e, r = RError e) /\ f' = with_proxy two_dirs.
Proof.
  pose proof (rename_noreplace_safe (B:=SizedBuf.t) 0 1 (bs "s") 1 (bs "d") RENAME_NOREPLACE (bs "/d")
    (with_proxy two_dirs) ltac:(done) ltac:(by vm_compute) ltac:(by vm_compute)) as H.
  destruct (rename _ _ _ _ _ _ _) as [r f']. destruct H as [He Hf]. split; [exact He|].
  destruct Hf as [->| ->]; done.
Defined.

(** [forget] drops an inode whatever the count it carries: a name looked up
    twice and forgotten once is still referenced by the kernel, but its inode
    is gone, its attributes cannot be read and the next look-up of the name
    hands out another inode. *)
Theorem forget_ignores_count :
  let f := serve (with_proxy two_dirs)
    ([(0, QLookup 1 (bs "d")); (0, QLookup 1 (bs "d")); (0, QForget 100 1)] : list (Z * req)) in
  (getattr (B:=SizedBuf.t) 0 100 None f).1 = RError EINVAL
  /\ (lookup (B:=SizedBuf.t) 0 1 (bs "d") f).1 =
     REntry (attr_from_stat 101 (TinyFs.stat_of FileMode.dir)).
Proof. split; by vm_compute. Qed.

(** Forgetting the inode of a deleted file can drop the entry of another
    file: when a directory replaces the one the file was in and has a file of
    the same name, both inodes carry the same path, and forgetting the dead
    one removes the live one's path, so the next look-up gives the same file
    a second inode. *)
Theorem forget_stale_inode :
  let f := serve (with_proxy two_dirs) replace_dir in
  let f' := (forget 101 1 f).2 in
  path_to_ino f !! bs "/d/x" = Some 103
  /\ ino_to_path f' !! 103 = Some (bs "/d/x") /\ path_to_ino f' !! bs "/d/x" = None
  /\ (lookup (B:=SizedBuf.t) 0 102 (bs "x") f').1 =
     REntry (attr_from_stat 104 (TinyFs.stat_of FileMode.file)).
Proof. split_and!; by vm_compute. Qed.

(** ** Listings *)

Definition names_of (r : reply SizedBuf.t) : list (Z * bytes) :=
  match r with RDirectory b => (fun d => (de_off d, de_name d)) <$> SizedBuf.got b | _ => [] end.

(** A directory with a long name before a short one. *)
Definition long_short : TinyFs.t :=
  [(bs "/a-name-of-more-than-eight-letters", FileMode.file); (bs "/b", FileMode.file)].

Lemma readdir_offers_witness :
  exists ds, (readdir 0 ROOT 1 (SizedBuf.mk 4096 []) (with_proxy long_short)).1 =
    RDirectory (offered ds (SizedBuf.mk 4096 []))
  /\ de_name <$> ds = [bs ".."; bs "a-name-of-more-than-eight-letters"; bs "b"]
  /\ forall k d, ds !! k = Some d -> de_off d = 1 + Z.of_nat k + 1.
Proof.
  destruct (readdir_offers (P:=TinyFs.t) 0 ROOT 1 (SizedBuf.mk 4096 [])
    (match (readdir 0 ROOT 1 (SizedBuf.mk 4096 []) (with_proxy long_short)).1 with
     | RDirectory b => b | _ => SizedBuf.mk 0 [] end) (with_proxy long_short) (bs "/"))
    as (l & fresh & ds & Hl & Hb & Hn & Ho & _); [done|done|by vm_compute|].
  exists ds. split_and!; [rewrite <- Hb; by vm_compute| |exact Ho].
  assert (Hc : (list_directory 0 (bs "/") (with_proxy long_short)).1 =
    Ok (E:=ProxyError) (TinyFs.children (bs "/") long_short, true)) by (by vm_compute).
  rewrite Hc in Hl. injection Hl as <- <-. rewrite Hn. by vm_compute.
Defined.

(** [readdir] goes on after the reply buffer refused an entry: a shorter
    name further on still fits, the kernel resumes after it, and the refused
    entry is never delivered, although the device lists it. *)
Theorem readdir_loses_entry :
  let room := SizedBuf.mk 96 [] in
  let '(r1, f1) := readdir 0 ROOT 0 room (with_proxy long_short) in
  let '(r2, _) := readdir 0 ROOT 4 room f1 in
  DirEntry.name <$> TinyFs.children (bs "/") long_short = [bs "a-name-of-more-than-eight-letters"; bs "b"]
  /\ names_of r1 = [(1, bs "."); (2, bs ".."); (4, bs "b")] /\ names_of r2 = [].
Proof. by vm_compute. Qed.
