(* ===== verification/DaemonTree.v ===== *)
(** * Deleting a tree on the device (adb-daemon/src/main.rs)

    [delete] and [delete_recursive] over the file operations of a proxy, the
    class [FsProxy]. What the device does with a path is stated once, as
    [tree_laws] between the operations and the tree of entries below a
    directory; the theorem is proved against those laws and a device of
    entries in memory satisfies them. *)

From stdpp Require Import base list gmap strings.
From S2P Require Import Prelude RustStd Text ProxyOps Libc ProxyClient Cache Filesystem Paths Job DaemonInput.

(** ** The code *)

(** [s.trim_end_matches('/')] *)
Definition trim_end_slashes (s : bytes) : bytes := reverse (drop_while (fun b => b =? 47) (reverse s)).
Definition child_path (parent name : bytes) : bytes := trim_end_slashes parent ++ bs "/" ++ name.

(** [DELETE_MAX_DEPTH]; the recursion is structural on the levels levels. *)
Definition DELETE_MAX_DEPTH : nat := 64.

Definition fail_with {A E F P} (f : E -> F) (x : result E A * P) : result F A * P :=
  match x with (Ok a, p) => (Ok a, p) | (Err e, p) => (Err (f e), p) end.

(** [for x in l { f(x)?; }] *)
Fixpoint for_each {A E S} (f : A -> S -> result E unit * S) (l : list A) (s : S) : result E unit * S :=
  match l with
  | [] => (Ok tt, s)
  | x :: l => match f x s with (Ok _, s) => for_each f l s | (Err e, s) => (Err e, s) end
  end.

Section delete.
Context {P : Type} `{!FsProxy P}.

(** [levels] is [DELETE_MAX_DEPTH + 1 - depth]. *)
Fixpoint delete_recursive (levels : nat) (path : bytes) (p : P) : result bytes unit * P :=
  match levels with
  | O => (Err (bs "delete: recursion deeper than 64 levels at '" ++ path ++ bs "'"), p)
  | S levels =>
      match p_lstat path p with
      | (Err e, p) => (Err (display e), p)
      | (Ok st, p) =>
          if FileMode.is_symlink (Stat.mode st) || negb (FileMode.is_dir (Stat.mode st)) then
            fail_with display (p_unlink path p)
          else
            match p_listdir path p with
            | (Err e, p) => (Err (display e), p)
            | (Ok entries, p) =>
                match for_each (fun entry => delete_recursive levels (child_path path (DirEntry.name entry))) entries p with
                | (Err e, p) => (Err e, p)
                | (Ok _, p) => fail_with display (p_rmdir path p)
                end
            end
      end
  end.

(** [client_for] on the map of connected devices; a call changes the state
    behind the client it got. *)
Definition client_for (devices : gmap bytes P) (device : bytes) : result bus_error P :=
  match devices !! device with
  | Some client => Ok client
  | None => Err (ServiceUnknown (bs "device not connected"))
  end.
Definition with_client {A} (what device : bytes) (f : P -> result bytes A * P) (devices : gmap bytes P)
    : result bus_error A * gmap bytes P :=
  match client_for devices device with
  | Err e => (Err e, devices)
  | Ok client =>
      let '(r, client) := fail_with (fun e => Failed_ (what ++ e)) (f client) in (r, <[device := client]> devices)
  end.

Definition mkdir (device path : bytes) : gmap bytes P -> result bus_error unit * gmap bytes P :=
  with_client (bs "mkdir: ") device (fun p => fail_with display (p_mkdir path 0x1ED p)).
Definition rename (device src dst : bytes) : gmap bytes P -> result bus_error unit * gmap bytes P :=
  with_client (bs "rename: ") device (fun p => fail_with display (p_rename src dst p)).

Definition normalized (path : bytes) : list bytes :=
  filter (fun c => c <> [] /\ c <> bs ".") (split_on 47 path).

Definition delete (device path : bytes) (devices : gmap bytes P) : result bus_error unit * gmap bytes P :=
  if bool_decide (normalized path = [] \/ bs ".." ∈ normalized path) then
    (Err (InvalidArgs (bs "refusing to delete the device root")), devices)
  else with_client (bs "delete: ") device (delete_recursive (S DELETE_MAX_DEPTH) path) devices.

(** ** What the device promises

    [view p] is the tree below the directory [dir], a path that does not
    end in a slash (the empty one is the root): the mode of each entry,
    under its names relative to [dir]. An operation may fail at any
    time, also after the device carried it out. *)

Definition below (dir : bytes) (ns : list bytes) : bytes := dir ++ slashed ns.

Definition tree_wf (t : gmap (list bytes) Z) : Prop :=
  forall ms n, ms <> [] -> is_Some (t !! (ms ++ [n])) -> exists m, t !! ms = Some m /\ FileMode.is_dir m = true.

Definition entry_at (ns : list bytes) : Prop := ns <> [] /\ Forall good_name ns.

Record tree_laws (dir : bytes) (Inv : P -> Prop) (view : P -> gmap (list bytes) Z) : Prop := {
  dir_open : last dir <> Some 47;
  inv_wf p : Inv p -> tree_wf (view p);
  names_good p ms n : Inv p -> is_Some (view p !! (ms ++ [n])) -> good_name n;
  lstat_law ns p r p' : Inv p -> entry_at ns -> p_lstat (below dir ns) p = (r, p') ->
    Inv p' /\ view p' = view p /\ forall st, r = Ok st -> view p !! ns = Some (Stat.mode st);
  listdir_law ns p r p' : Inv p -> entry_at ns -> p_listdir (below dir ns) p = (r, p') ->
    Inv p' /\ view p' = view p /\ forall es, r = Ok es -> NoDup (DirEntry.name <$> es)
    /\ forall n, n ∈ (DirEntry.name <$> es) <-> is_Some (view p !! (ns ++ [n]));
  unlink_law ns p r p' : Inv p -> entry_at ns -> p_unlink (below dir ns) p = (r, p') ->
    Inv p' /\ (view p' = base.delete ns (view p) \/ (exists e, r = Err e) /\ view p' = view p);
  rmdir_law ns p r p' : Inv p -> entry_at ns -> p_rmdir (below dir ns) p = (r, p') ->
    Inv p' /\ (view p' = base.delete ns (view p) \/ (exists e, r = Err e) /\ view p' = view p);
}.

(** A device and a connection on which an operation that can be done is done. *)
Record reliable (dir : bytes) (Inv : P -> Prop) (view : P -> gmap (list bytes) Z) : Prop := {
  lstat_ok ns p : Inv p -> is_Some (view p !! ns) -> is_ok (p_lstat (below dir ns) p).1 = true;
  listdir_ok ns p m : Inv p -> view p !! ns = Some m -> FileMode.is_dir m = true ->
    is_ok (p_listdir (below dir ns) p).1 = true;
  unlink_ok ns p m : Inv p -> view p !! ns = Some m -> FileMode.is_dir m = false ->
    is_ok (p_unlink (below dir ns) p).1 = true;
  rmdir_ok ns p m : Inv p -> view p !! ns = Some m -> FileMode.is_dir m = true ->
    (forall n, view p !! (ns ++ [n]) = None) -> is_ok (p_rmdir (below dir ns) p).1 = true;
}.

(** ** Deleting exactly the subtree *)

Lemma last_app_some {A} (l k : list A) c : last k = Some c -> last (l ++ k) = Some c.
Proof. destruct k as [|x k _] using rev_ind; [done|]. by rewrite app_assoc, !last_snoc. Qed.
Lemma trim_end_slashes_id s c : last s = Some c -> c <> 47 -> trim_end_slashes s = s.
Proof.
  destruct s as [|x s _] using rev_ind; [done|]. rewrite last_snoc. intros [= ->] Hc.
  unfold trim_end_slashes. rewrite reverse_snoc. simpl. apply Z.eqb_neq in Hc. rewrite Hc.
  by rewrite reverse_cons, reverse_involutive.
Qed.
Lemma child_below dir ns n : entry_at ns -> child_path (below dir ns) n = below dir (ns ++ [n]).
Proof.
  intros [Hne Hg]. destruct ns as [|x ns _] using rev_ind; [done|]. apply Forall_app in Hg as [_ Hg].
  apply Forall_inv in Hg. destruct (last_slashed ns x Hg) as (c & Hl & Hc). unfold child_path, below.
  rewrite (trim_end_slashes_id _ c); [|by apply last_app_some|done].
  rewrite (slashed_app (ns ++ [x])), <- app_assoc. simpl. by rewrite app_nil_r.
Qed.
Lemma entry_snoc ns n : entry_at ns -> good_name n -> entry_at (ns ++ [n]).
Proof. intros [Hne Hg] Hn. split; [by destruct ns|]. by apply Forall_app; auto. Qed.

Section exact.
Context (dir : bytes) (Inv : P -> Prop) (view : P -> gmap (list bytes) Z).
Hypothesis laws : tree_laws dir Inv view.

(** From [p] to [p'] only entries among [gone] were removed. *)
Definition removes (gone : list bytes -> Prop) (p p' : P) : Prop :=
  Inv p' /\ forall ms, view p' !! ms = view p !! ms \/ (gone ms /\ view p' !! ms = None).
Definition under (ns ms : list bytes) : Prop := exists k, ms = ns ++ k.
Definition empties (ns : list bytes) (p : P) : Prop := forall k, view p !! (ns ++ k) = None.
Definition fits (levels : nat) (ns : list bytes) (p : P) : Prop :=
  is_Some (view p !! ns) /\ forall k, is_Some (view p !! (ns ++ k)) -> (length k < levels)%nat.

Definition deletes (levels : nat) (ns : list bytes) (p : P) (x : result bytes unit * P) : Prop :=
  removes (under ns) p x.2 /\ (x.1 = Ok tt -> empties ns x.2)
  /\ (reliable dir Inv view -> fits levels ns p -> x.1 = Ok tt).

Lemma removes_refl gone p p' : Inv p' -> view p' = view p -> removes gone p p'.
Proof. intros HI Hv. split; [done|]. intros ms. left. by rewrite Hv. Qed.
Lemma removes_trans gone p1 p2 p3 : removes gone p1 p2 -> removes gone p2 p3 -> removes gone p1 p3.
Proof.
  intros [_ H1] [HI H2]. split; [done|]. intros ms. destruct (H2 ms) as [E|[]]; [|by auto].
  rewrite E. apply H1.
Qed.
Lemma removes_mono (g g' : list bytes -> Prop) p p' : (forall ms, g ms -> g' ms) -> removes g p p' -> removes g' p p'.
Proof. intros Hg [HI H]. split; [done|]. intros ms. destruct (H ms) as [|[]]; auto. Qed.
Lemma removes_none gone p p' ms : removes gone p p' -> view p !! ms = None -> view p' !! ms = None.
Proof. intros [_ H] E. destruct (H ms) as [->|[]]; done. Qed.
Lemma removes_keeps gone p p' ms : removes gone p p' -> ~ gone ms -> view p' !! ms = view p !! ms.
Proof. intros [_ H] E. by destruct (H ms) as [|[]]. Qed.
Lemma removes_some gone p p' ms : removes gone p p' -> is_Some (view p' !! ms) -> is_Some (view p !! ms).
Proof. intros H [m E]. destruct (view p !! ms) eqn:E'; [done|]. by rewrite (removes_none _ _ _ _ H E') in E. Qed.
Lemma removes_delete ns p p' : Inv p' -> view p' = base.delete ns (view p) -> removes (under ns) p p'.
Proof.
  intros HI Hv. split; [done|]. intros ms. rewrite Hv. destruct (decide (ms = ns)) as [->|E].
  - right. split; [exists []; by rewrite app_nil_r|apply lookup_delete_eq].
  - left. by apply lookup_delete_ne.
Qed.

Lemma nothing_below p ns n k : Inv p -> ns <> [] ->
  view p !! (ns ++ [n]) = None -> view p !! (ns ++ n :: k) = None.
Proof.
  intros HI Hne E. induction k as [|x k IH] using rev_ind; [done|].
  destruct (view p !! (ns ++ n :: k ++ [x])) eqn:E'; [|done].
  destruct (inv_wf _ _ _ laws p HI (ns ++ n :: k) x) as (m & Hm & _); [by destruct ns|by rewrite <- app_assoc; eauto|].
  by rewrite IH in Hm.
Qed.
(** An entry that is not a directory has nothing below it. *)
Lemma leaf_below p ns k m : Inv p -> ns <> [] -> view p !! ns = Some m -> FileMode.is_dir m = false ->
  k <> [] -> view p !! (ns ++ k) = None.
Proof.
  intros HI Hne Hm Hd Hk. destruct k as [|n k]; [done|]. apply nothing_below; [done|done|].
  destruct (view p !! (ns ++ [n])) eqn:E; [|done].
  destruct (inv_wf _ _ _ laws p HI ns n) as (m' & Hm' & Hd'); [done|by eauto|]. congruence.
Qed.
Lemma childless_below p ns k : Inv p -> ns <> [] -> (forall n, view p !! (ns ++ [n]) = None) -> k <> [] ->
  view p !! (ns ++ k) = None.
Proof. intros HI Hne H Hk. destruct k as [|n k]; [done|]. by apply nothing_below. Qed.

(** The last step: removing an entry that has nothing below it. *)
Lemma remove_entry {X} ns p (r : result X unit) p' : Inv p' ->
  (view p' = base.delete ns (view p) \/ (exists e, r = Err e) /\ view p' = view p) ->
  (forall k, k <> [] -> view p !! (ns ++ k) = None) ->
  removes (under ns) p p' /\ (r = Ok tt -> empties ns p').
Proof.
  intros HI [Hv|[[e ->] Hv]] Hb.
  - split; [by apply removes_delete|]. intros _ k. rewrite Hv. destruct k as [|n k].
    { rewrite app_nil_r. apply lookup_delete_eq. }
    rewrite lookup_delete_ne; [by apply Hb|]. intros E. apply (f_equal length) in E.
    rewrite length_app in E. simpl in E. lia.
  - split; [by apply removes_refl|done].
Qed.

Definition child_of (ns : list bytes) (names : list bytes) (ms : list bytes) : Prop :=
  exists n, n ∈ names /\ under (ns ++ [n]) ms.

Lemma fits_after gone levels ns p p' : removes gone p p' -> (forall k, ~ gone (ns ++ k)) -> fits levels ns p -> fits levels ns p'.
Proof.
  intros H Hg [Hs Hl]. split.
  - rewrite (removes_keeps _ _ _ _ H); [done|]. pose proof (Hg []) as G. by rewrite app_nil_r in G.
  - intros k Hk. apply Hl. by apply (removes_some _ _ _ _ H).
Qed.

(** The loop over the entries of a directory. *)
Lemma delete_entries levels ns : entry_at ns ->
  (forall ms p, Inv p -> entry_at ms -> deletes levels ms p (delete_recursive levels (below dir ms) p)) ->
  forall es p, Inv p -> Forall good_name (DirEntry.name <$> es) -> NoDup (DirEntry.name <$> es) ->
  let x := for_each (fun e => delete_recursive levels (child_path (below dir ns) (DirEntry.name e))) es p in
  removes (child_of ns (DirEntry.name <$> es)) p x.2
  /\ (x.1 = Ok tt -> forall n, n ∈ (DirEntry.name <$> es) -> empties (ns ++ [n]) x.2)
  /\ (reliable dir Inv view -> (forall n, n ∈ (DirEntry.name <$> es) -> fits levels (ns ++ [n]) p) -> x.1 = Ok tt).
Proof.
  intros Hns IH es. induction es as [|e es IHes]; intros p HI Hg Hd; simpl in *.
  { split; [by apply removes_refl|]. split; [|done]. intros _ n Hn. by apply elem_of_nil in Hn. }
  rewrite Forall_cons in Hg. destruct Hg as [Hn Hg]. apply NoDup_cons in Hd as [Hx Hd].
  rewrite (child_below dir ns _ Hns).
  destruct (IH (ns ++ [DirEntry.name e]) p HI (entry_snoc _ _ Hns Hn)) as (Hr & Hk & Hf).
  destruct (delete_recursive levels _ p) as [[[]|err] p1]; simpl in *.
  - assert (HI1 : Inv p1) by apply Hr. destruct (IHes p1 HI1 Hg Hd) as (Hr' & Hk' & Hf').
    set (y := for_each _ es p1) in *. clearbody y. split; [|split].
    + apply (removes_trans _ _ p1).
      * eapply removes_mono; [|exact Hr]. intros ms U. exists (DirEntry.name e). split; [by apply elem_of_cons; left|done].
      * eapply removes_mono; [|exact Hr']. intros ms (n & Hn' & U). exists n. split; [by apply elem_of_cons; right|done].
    + intros Hy n [->|Hin]%elem_of_cons; [|by apply Hk'].
      intros k. apply (removes_none _ _ _ _ Hr'). by apply Hk.
    + intros Hrel Hall. apply Hf'; [done|]. intros n Hin.
      apply (fits_after _ _ _ _ _ Hr); [|apply Hall; by apply elem_of_cons; right].
      intros k [k' E]. rewrite <- !app_assoc in E. apply app_inv_head in E. injection E as E _. by subst n.
  - split; [|split; [done|]].
    + eapply removes_mono; [|exact Hr]. intros ms U. exists (DirEntry.name e). split; [by apply elem_of_cons; left|done].
    + intros Hrel Hall. discriminate Hf; [done|]. apply Hall. by apply elem_of_cons; left.
Qed.

Lemma delete_leaf levels ns p m : Inv p -> entry_at ns -> view p !! ns = Some m -> FileMode.is_dir m = false ->
  deletes (S levels) ns p (fail_with display (p_unlink (below dir ns) p)).
Proof.
  intros HI Hns Hm Hd. destruct (p_unlink (below dir ns) p) as [r p'] eqn:E.
  destruct (unlink_law _ _ _ laws ns p r p' HI Hns E) as [HI' Hv].
  destruct (remove_entry ns p r p' HI' Hv) as [Hr He].
  { intros k Hk. by apply (leaf_below p ns k m HI); [apply Hns|..]. }
  split; [by destruct r as [[]|]|]. split; [destruct r as [[]|]; by auto|].
  intros Hrel _. pose proof (unlink_ok _ _ _ Hrel ns p m HI Hm Hd) as Hok. rewrite E in Hok.
  destruct r as [[]|]; done.
Qed.

Lemma fits_child levels ns p n : fits (S levels) ns p -> is_Some (view p !! (ns ++ [n])) -> fits levels (ns ++ [n]) p.
Proof.
  intros [_ Hl] Hs. split; [done|]. intros k Hk. rewrite <- app_assoc in Hk. specialize (Hl _ Hk). simpl in Hl. lia.
Qed.

Lemma delete_last levels ns p p2 m : Inv p -> Inv p2 -> entry_at ns -> view p !! ns = Some m -> FileMode.is_dir m = true ->
  removes (under ns) p p2 -> (forall n, view p2 !! (ns ++ [n]) = None) ->
  (reliable dir Inv view -> fits (S levels) ns p -> view p2 !! ns = Some m) ->
  deletes (S levels) ns p (fail_with display (p_rmdir (below dir ns) p2)).
Proof.
  intros HI HI2 Hns Hm Hd Hr Hno Hstay. destruct (p_rmdir (below dir ns) p2) as [r p'] eqn:E.
  destruct (rmdir_law _ _ _ laws ns p2 r p' HI2 Hns E) as [HI' Hv].
  destruct (remove_entry ns p2 r p' HI' Hv) as [Hr' He].
  { intros k Hk. by apply childless_below; [|apply Hns|..]. }
  split; [by destruct r as [[]|]; apply (removes_trans _ _ p2)|]. split; [destruct r as [[]|]; by auto|].
  intros Hrel Hfit. pose proof (rmdir_ok _ _ _ Hrel ns p2 m HI2 (Hstay Hrel Hfit) Hd Hno) as Hok. rewrite E in Hok.
  destruct r as [[]|]; done.
Qed.

Lemma delete_directory levels ns p m : Inv p -> entry_at ns -> view p !! ns = Some m -> FileMode.is_dir m = true ->
  (forall ms p, Inv p -> entry_at ms -> deletes levels ms p (delete_recursive levels (below dir ms) p)) ->
  deletes (S levels) ns p
    match p_listdir (below dir ns) p with
    | (Err e, p) => (Err (display e), p)
    | (Ok entries, p) =>
        match for_each (fun entry => delete_recursive levels (child_path (below dir ns) (DirEntry.name entry))) entries p with
        | (Err e, p) => (Err e, p)
        | (Ok _, p) => fail_with display (p_rmdir (below dir ns) p)
        end
    end.
Proof.
  intros HI Hns Hm Hd IH. destruct (p_listdir (below dir ns) p) as [[es|e] p1] eqn:E1;
    destruct (listdir_law _ _ _ laws ns p _ p1 HI Hns E1) as (HI1 & Hv1 & Hes).
  2:{ split; [by apply removes_refl|]. split; [done|]. intros Hrel _.
      pose proof (listdir_ok _ _ _ Hrel ns p m HI Hm Hd) as Hok. by rewrite E1 in Hok. }
  destruct (Hes es eq_refl) as [Hnd Hin]. rewrite <- Hv1 in Hin. clear Hes.
  assert (Hg : Forall good_name (DirEntry.name <$> es)).
  { apply Forall_forall. intros n Hn. apply Hin in Hn. by apply (names_good _ _ _ laws p1 ns n). }
  destruct (delete_entries levels ns Hns IH es p1 HI1 Hg Hnd) as (Hr & Hk & Hf).
  assert (Hf1 : reliable dir Inv view -> fits (S levels) ns p ->
    (for_each (fun e => delete_recursive levels (child_path (below dir ns) (DirEntry.name e))) es p1).1 = Ok tt).
  { intros Hrel Hfit. apply Hf; [done|]. intros n Hn. apply Hin in Hn. apply fits_child; [|done].
    unfold fits in *. by rewrite Hv1. }
  destruct (for_each _ es p1) as [r p2]. simpl in *.
  assert (Hr2 : removes (under ns) p p2).
  { apply (removes_trans _ _ p1); [by apply removes_refl|]. eapply removes_mono; [|exact Hr].
    intros ms (n & _ & k & ->). exists (n :: k). by rewrite <- app_assoc. }
  destruct r as [[]|e]. 2:{ split; [done|]. split; [done|]. intros Hrel Hfit. by specialize (Hf1 Hrel Hfit). }
  assert (HI2 : Inv p2) by apply Hr2. assert (Hno : forall n, view p2 !! (ns ++ [n]) = None).
  { intros n. destruct (view p2 !! (ns ++ [n])) eqn:E2; [|done].
    assert (Hn : n ∈ (DirEntry.name <$> es)).
    { apply Hin. apply (removes_some _ _ _ _ Hr). by eauto. }
    pose proof (Hk eq_refl n Hn []) as G. rewrite app_nil_r in G. congruence. }
  apply (delete_last levels ns p p2 m); try done. intros _ _. rewrite <- Hm, <- Hv1.
  apply (removes_keeps _ _ _ _ Hr). intros (n & _ & k & E2). apply (f_equal length) in E2.
  rewrite !length_app in E2. simpl in E2. lia.
Qed.

(** [delete_recursive] removes only entries of the subtree, all of it when it
    succeeds, and succeeds on a reliable device when the tree is not too deep. *)
Lemma delete_recursive_spec levels : forall ns p, Inv p -> entry_at ns ->
  deletes levels ns p (delete_recursive levels (below dir ns) p).
Proof.
  induction levels as [|levels IH]; intros ns p HI Hns.
  { split; [by apply removes_refl|]. split; [done|]. intros _ [Hs Hl]. specialize (Hl []). rewrite app_nil_r in Hl.
    specialize (Hl Hs). lia. }
  cbn [delete_recursive]. destruct (p_lstat (below dir ns) p) as [[st|e] p1] eqn:E1.
  2:{ destruct (lstat_law _ _ _ laws ns p _ p1 HI Hns E1) as (HI1 & Hv1 & _).
      split; [by apply removes_refl|]. split; [done|]. intros Hrel [Hs _].
      pose proof (lstat_ok _ _ _ Hrel ns p HI Hs) as Hok. by rewrite E1 in Hok. }
  destruct (lstat_law _ _ _ laws ns p _ p1 HI Hns E1) as (HI1 & Hv1 & Hst). specialize (Hst st eq_refl).
  rewrite <- Hv1 in Hst. assert (Hback : forall x, deletes (S levels) ns p1 x -> deletes (S levels) ns p x).
  { intros x (A & B & C). split; [|split; [done|]].
    - apply (removes_trans _ _ p1); [by apply removes_refl|done].
    - intros Hrel Hf. apply C; [done|]. unfold fits in *. by rewrite Hv1. }
  apply Hback. clear Hback E1. destruct (FileMode.is_dir (Stat.mode st)) eqn:Hd.
  2:{ rewrite orb_true_r. by apply (delete_leaf levels ns p1 _ HI1 Hns Hst). }
  rewrite (FileMode.dir_not_symlink _ Hd). simpl.
  by apply (delete_directory levels ns p1 (Stat.mode st)).
Qed.

End exact.
End delete.

Lemma normalized_below dir ns : entry_at ns -> normalized (below dir ns) <> [].
Proof.
  intros [Hne Hg] E. destruct ns as [|n ns _] using rev_ind; [done|].
  apply Forall_app in Hg as [_ Hg]. apply Forall_inv in Hg. destruct Hg as (Hn & Hs & Hd & _).
  assert (G : n ∈ normalized (below dir (ns ++ [n]))); [|rewrite E in G; by apply elem_of_nil in G].
  unfold normalized, below. rewrite slashed_app. simpl. rewrite app_nil_r, app_assoc.
  rewrite split_on_sep, (split_on_none 47 n) by done.
  apply list_elem_of_filter. split; [done|]. apply elem_of_app. right. by apply list_elem_of_singleton.
Qed.

(** C15: Deleting removes the named tree and nothing else. [delete] refuses the
    root, in any spelling, and every path with a [..], and an unknown device,
    without touching anything. Otherwise, whatever fails on the way, entries
    outside the named tree and the other devices are untouched and no entry
    is changed; when it reports success nothing of the tree is left; and on
    a device that carries out what it can, every present tree of at
    most 64 levels below the named entry is deleted. *)
Theorem delete_exact {P : Type} `{!FsProxy P} (device path : bytes) (devices : gmap bytes P) :
  let x := delete device path devices in
  (normalized path = [] \/ bs ".." ∈ normalized path \/ devices !! device = None ->
     x.2 = devices /\ is_ok x.1 = false)
  /\ (forall d, d <> device -> x.2 !! d = devices !! d)
  /\ forall dir Inv view ns p, tree_laws dir Inv view -> entry_at ns -> path = below dir ns ->
     devices !! device = Some p -> Inv p ->
     exists p', x.2 !! device = Some p' /\ Inv p'
     /\ (forall ms, ~ under ns ms -> view p' !! ms = view p !! ms)
     /\ (forall ms, view p' !! ms = view p !! ms \/ view p' !! ms = None)
     /\ (x.1 = Ok tt -> forall k, view p' !! (ns ++ k) = None)
     /\ (reliable dir Inv view -> bs ".." ∉ normalized path -> is_Some (view p !! ns) ->
         (forall k, is_Some (view p !! (ns ++ k)) -> (length k <= DELETE_MAX_DEPTH)%nat) -> x.1 = Ok tt).
Proof.
  intros x. unfold x, delete, with_client, client_for. split; [|split].
  - intros H. case_bool_decide as G; [done|]. destruct H as [H|[H| ->]]; [by destruct G; auto..|done].
  - intros d Hd. case_bool_decide; [done|]. destruct (devices !! device); [|done].
    destruct (fail_with _ _). simpl. by rewrite lookup_insert_ne.
  - intros dir Inv view ns p laws Hns -> Hp HI.
    destruct (delete_recursive_spec dir Inv view laws (S DELETE_MAX_DEPTH) ns p HI Hns) as ([HI' Hr] & Hk & Hf).
    case_bool_decide as G.
    { exists p. split; [done|]. split; [done|]. split; [done|]. split; [by auto|]. split; [done|]. intros _ Hdd.
      destruct G as [G|]; [|done]. exfalso. revert G. apply normalized_below, Hns. }
    rewrite Hp. destruct (delete_recursive _ _ p) as [r p']. simpl in *. exists p'.
    split; [destruct r; simpl; by rewrite lookup_insert_eq|]. split; [done|].
    split; [intros ms Hms; by destruct (Hr ms) as [|[]]|]. split; [intros ms; destruct (Hr ms) as [|[]]; auto|].
    split; [intros E k; apply Hk; by destruct r as [[]|]|].
    intros Hrel _ Hs Hl. rewrite Hf; [done|done|]. split; [done|]. intros k Hsk. specialize (Hl k Hsk). lia.
Qed.

(** ** A device of entries in memory *)
Module MemTree.

Abbreviation t := (gmap (list bytes) Z).
Definition stat_of (m : Z) : Stat.t := Stat.mk m 0 0 0 0 0 0 1 4096 0.
Definition error {A} (s : Status.t) : presult A := Err (StatusErr s []).

Definition is_directory (ns : list bytes) (s : t) : bool :=
  match ns with [] => true | _ => match s !! ns with Some m => FileMode.is_dir m | None => false end end.
Definition child_entry (ns : list bytes) (e : list bytes * Z) : option DirEntry.t :=
  match reverse e.1 with
  | n :: r => if bool_decide (reverse r = ns) then Some (DirEntry.mk n (stat_of e.2)) else None
  | [] => None
  end.
Definition children (ns : list bytes) (s : t) : list DirEntry.t := omap (child_entry ns) (map_to_list s).
Definition add (ns : list bytes) (m : Z) (s : t) : presult unit * t :=
  match reverse ns with
  | [] => (error Status.Exists, s)
  | _ :: r => if bool_decide (is_Some (s !! ns)) then (error Status.Exists, s)
              else if is_directory (reverse r) s then (Ok tt, <[ns := m]> s) else (error Status.NotFound, s)
  end.

#[global] Instance proxy : FsProxy t := {|
  p_stat p s := (match s !! comps p with Some m => Ok (stat_of m) | None => error Status.NotFound end, s);
  p_lstat p s := (match s !! comps p with Some m => Ok (stat_of m) | None => error Status.NotFound end, s);
  p_readlink _ s := (error Status.InvalidArg, s);
  p_symlink _ p s := add (comps p) FileMode.symlink s;
  p_listdir p s :=
    (if is_directory (comps p) s then Ok (children (comps p) s) else error Status.NotDir, s);
  p_open p _ m s := (error Status.InvalidArg, s);
  p_read_at _ _ _ s := (error Status.InvalidArg, s);
  p_write_at _ _ _ s := (error Status.InvalidArg, s);
  p_close _ s := (Ok tt, s);
  p_fstat _ s := (error Status.InvalidArg, s);
  p_mkdir p m s := add (comps p) (Z.lor FileMode.S_IFDIR m) s;
  p_unlink p s :=
    match s !! comps p with
    | Some m => if FileMode.is_dir m then (error Status.IsDir, s) else (Ok tt, base.delete (comps p) s)
    | None => (error Status.NotFound, s)
    end;
  p_rmdir p s :=
    match s !! comps p with
    | Some m => if FileMode.is_dir m then
                  match children (comps p) s with
                  | [] => (Ok tt, base.delete (comps p) s)
                  | _ => (error Status.NotEmpty, s)
                  end
                else (error Status.NotDir, s)
    | None => (error Status.NotFound, s)
    end;
  p_rename _ _ s := (error Status.InvalidArg, s);
  p_truncate _ _ s := (error Status.InvalidArg, s);
|}.

Definition wf (s : t) : Prop :=
  tree_wf s /\ forall ns, is_Some (s !! ns) -> Forall good_name ns.

Lemma child_entry_some ns e d : child_entry ns e = Some d <-> e.1 = ns ++ [DirEntry.name d] /\ d = DirEntry.mk (DirEntry.name d) (stat_of e.2).
Proof.
  unfold child_entry. destruct e as [k m]; simpl. destruct k as [|n k _] using rev_ind.
  { split; [done|]. intros [E _]. by destruct ns. }
  rewrite reverse_snoc, reverse_involutive. case_bool_decide as H.
  - split; [intros [= <-]; by subst|]. intros [E ->]. apply app_inj_tail in E as [_ E]. simpl in *. by rewrite E.
  - split; [done|]. intros [E _]. by apply app_inj_tail in E as [].
Qed.
Lemma child_names ns (l : list (list bytes * Z)) n :
  n ∈ (DirEntry.name <$> omap (child_entry ns) l) <-> exists m, (ns ++ [n], m) ∈ l.
Proof.
  rewrite list_elem_of_fmap. split.
  - intros (d & -> & H). apply list_elem_of_omap in H as ([k m] & Hin & H). apply child_entry_some in H as [E _].
    simpl in E. subst. by eauto.
  - intros (m & Hin). exists (DirEntry.mk n (stat_of m)). split; [done|]. apply list_elem_of_omap.
    exists (ns ++ [n], m). split; [done|]. by apply child_entry_some.
Qed.
Lemma children_names ns s n : n ∈ (DirEntry.name <$> children ns s) <-> is_Some (s !! (ns ++ [n])).
Proof.
  unfold children. rewrite child_names. split; intros [m H]; exists m; by apply elem_of_map_to_list.
Qed.
Lemma child_nodup ns (l : list (list bytes * Z)) : NoDup (l.*1) -> NoDup (DirEntry.name <$> omap (child_entry ns) l).
Proof.
  induction l as [|e l IH]; simpl; [constructor|]. intros [Hn Hd]%NoDup_cons.
  destruct (child_entry ns e) as [d|] eqn:E; [|by apply IH]. simpl. apply NoDup_cons. split; [|by apply IH].
  apply child_entry_some in E as [E _]. rewrite child_names. intros (m & Hm). apply Hn.
  rewrite E. apply list_elem_of_fmap. by exists (ns ++ [DirEntry.name d], m).
Qed.
Lemma comps_below ns : entry_at ns -> comps (below [] ns) = ns.
Proof. intros [_ Hg]. by apply comps_slashed. Qed.
Lemma wf_delete ns s : wf s -> (forall n, s !! (ns ++ [n]) = None) -> wf (base.delete ns s).
Proof.
  intros [Hw Hg] Hno. split.
  - intros ms n Hne [m Hm]. rewrite lookup_delete_ne in Hm by (intros ->; by rewrite lookup_delete_eq in Hm).
    destruct (Hw ms n Hne) as (m' & Hm' & Hd); [by eauto|]. exists m'. split; [|done].
    rewrite lookup_delete_ne; [done|]. intros ->. by rewrite Hno in Hm.
  - intros ms [m Hm]. apply Hg. exists m. by apply lookup_delete_Some in Hm as [].
Qed.
Lemma leaf ns s m : wf s -> ns <> [] -> s !! ns = Some m -> FileMode.is_dir m = false -> forall n, s !! (ns ++ [n]) = None.
Proof.
  intros [Hw _] Hne Hm Hd n. destruct (s !! (ns ++ [n])) eqn:E; [|done].
  destruct (Hw ns n Hne) as (m' & Hm' & Hd'); [by eauto|]. congruence.
Qed.
Lemma no_children ns s : children ns s = [] <-> forall n, s !! (ns ++ [n]) = None.
Proof.
  split; intros H.
  - intros n. destruct (s !! (ns ++ [n])) eqn:E; [|done].
    assert (G : n ∈ (DirEntry.name <$> children ns s)) by (apply children_names; by eauto).
    rewrite H in G. by apply elem_of_nil in G.
  - destruct (children ns s) as [|d l] eqn:E; [done|].
    assert (G : DirEntry.name d ∈ (DirEntry.name <$> children ns s)) by (rewrite E; by left).
    apply children_names in G as [m G]. by rewrite H in G.
Qed.

Lemma laws : tree_laws [] wf (fun s => s).
Proof.
  split.
  - done.
  - by intros s [].
  - intros s ms n [_ Hg] Hs. specialize (Hg _ Hs). apply Forall_app in Hg as [_ Hg]. by apply Forall_inv in Hg.
  - intros ns s r s' Hw Hns [= <- <-]. rewrite (comps_below ns Hns). split; [done|]. split; [done|].
    intros st. destruct (s !! ns); [|done]. by intros [= <-].
  - intros ns s r s' Hw Hns [= <- <-]. rewrite (comps_below ns Hns). split; [done|]. split; [done|].
    intros es. destruct (is_directory ns s); [|done]. intros [= <-]. split; [|intros; apply children_names].
    apply child_nodup, NoDup_fst_map_to_list.
  - intros ns s r s'. simpl. intros Hw Hns. rewrite (comps_below ns Hns).
    destruct (s !! ns) as [m|] eqn:Hm; [|intros [= <- <-]; by eauto 6].
    destruct (FileMode.is_dir m) eqn:Hd; intros [= <- <-]; [by eauto 6|].
    split; [|by auto]. apply wf_delete; [done|]. by apply (leaf ns s m); [|apply Hns|..].
  - intros ns s r s'. simpl. intros Hw Hns. rewrite (comps_below ns Hns).
    destruct (s !! ns) as [m|] eqn:Hm; [|intros [= <- <-]; by eauto 6].
    destruct (FileMode.is_dir m) eqn:Hd; [|intros [= <- <-]; by eauto 6].
    destruct (children ns s) as [|d l] eqn:E; intros [= <- <-]; [|by eauto 6].
    split; [|by auto]. apply wf_delete; [done|]. by apply no_children.
Qed.
Lemma dependable : reliable [] wf (fun s => s).
Proof.
  assert (G : forall ns s, wf s -> is_Some (s !! ns) -> comps (below [] ns) = ns).
  { intros ns s [_ Hg] Hs. by apply comps_slashed, Hg. }
  split.
  - intros ns s Hw Hs. simpl. rewrite (G ns s Hw Hs). by destruct Hs as [m ->].
  - intros ns s m Hw Hm Hd. simpl. rewrite (G ns s Hw) by eauto. unfold is_directory.
    destruct ns; [done|]. by rewrite Hm, Hd.
  - intros ns s m Hw Hm Hd. simpl. rewrite (G ns s Hw) by eauto. by rewrite Hm, Hd.
  - intros ns s m Hw Hm Hd Hno. simpl. rewrite (G ns s Hw) by eauto. rewrite Hm, Hd.
    apply no_children in Hno. by rewrite Hno.
Qed.

Lemma listdir_directory path s : is_directory (comps path) s = true ->
  p_listdir path s = (Ok (children (comps path) s), s).
Proof. intros H. simpl. by rewrite H. Qed.

Lemma listdir_children path s es : (p_listdir path s).1 = Ok es -> es = children (comps path) s.
Proof. simpl. destruct (is_directory _ _); [|done]. by intros [= <-]. Qed.

Definition wf_check (s : t) : bool :=
  forallb (fun e => is_directory (reverse (tail (reverse e.1))) s && bool_decide (Forall good_name e.1)) (map_to_list s).
Lemma wf_check_sound s : wf_check s = true -> wf s.
Proof.
  intros H. unfold wf_check in H. rewrite forallb_forall in H. split.
  - intros ms n Hne [m Hm]. apply elem_of_map_to_list, list_elem_of_In in Hm. apply H in Hm. simpl in Hm.
    rewrite reverse_snoc in Hm. simpl in Hm. rewrite reverse_involutive in Hm.
    apply andb_true_iff in Hm as [Hm _]. unfold is_directory in Hm.
    destruct ms; [done|]. destruct (s !! _) as [m'|]; [|done]. by eauto.
  - intros ns [m Hm]. apply elem_of_map_to_list, list_elem_of_In in Hm. apply H in Hm.
    apply andb_true_iff in Hm as [_ Hm]. by apply bool_decide_eq_true in Hm.
Qed.

End MemTree.

(** A phone with a folder, a link in it, and a neighbour. *)
Definition phone : MemTree.t := {[
  [bs "sdcard"] := FileMode.dir; [bs "sdcard"; bs "a"] := FileMode.dir;
  [bs "sdcard"; bs "a"; bs "x"] := FileMode.file; [bs "sdcard"; bs "a"; bs "l"] := FileMode.symlink;
  [bs "sdcard"; bs "ab"] := FileMode.file ]}.
Definition devices_1 : gmap bytes MemTree.t := {[bs "p1" := phone]}.
Lemma phone_wf : MemTree.wf phone.
Proof. apply MemTree.wf_check_sound. by vm_compute. Qed.

Lemma delete_exact_witness : exists p : MemTree.t,
  (delete (bs "p1") (bs "/sdcard/a") devices_1).2 !! bs "p1" = Some p
  /\ p !! [bs "sdcard"; bs "ab"] = Some FileMode.file /\ p !! [bs "sdcard"; bs "a"; bs "x"] = None.
Proof.
  destruct (delete_exact (bs "p1") (bs "/sdcard/a") devices_1) as (_ & _ & H).
  destruct (H [] MemTree.wf (fun s => s) [bs "sdcard"; bs "a"] phone) as (p & Hp & _ & Hout & _ & Hgone & Hok).
  - apply MemTree.laws.
  - split; [done|]. apply (bool_decide_unpack _). by vm_compute.
  - reflexivity.
  - reflexivity.
  - apply phone_wf.
  - exists p. split; [exact Hp|]. split.
    + rewrite Hout; [reflexivity|]. by intros [k [=]].
    + apply (Hgone ltac:(vm_compute; reflexivity) [bs "x"]).
Defined.
