(* ===== verification/DaemonWalk.v ===== *)
(** * Transfers and copies of whole trees (adb-daemon/src/main.rs)

    [enqueue_tree_push], [enqueue_tree_pull] and [copy_tree]: three handlers
    that walk a tree with a stack of directories, under a depth and a file
    limit. Their loop is [walk], over what each does when it opens a directory and with
    each entry; a handler is proved through the lemmas on [walk]. *)

From stdpp Require Import base list gmap strings.
From S2P Require Import Prelude RustStd Text ProxyOps Libc ProxyClient Cache Filesystem Paths Job Queue DaemonInput DaemonTree.

(** ** The limits and the checks *)

Definition TREE_MAX_DEPTH : Z := 32.
Definition TREE_MAX_FILES : Z := 10000.
Definition MAX_PATH : Z := 4096.

Definition check_tree_path (path : bytes) : result bus_error unit :=
  if negb (has_prefix (bs "/") path) then Err (InvalidArgs (bs "tree paths must be absolute"))
  else if contains [0] path || (zlen path >? MAX_PATH) then
    Err (InvalidArgs (bs "tree paths must be non-NUL and at most 4096 bytes"))
  else Ok tt.

Definition tree_file_cap_error (count : Z) : option bytes :=
  if count >=? TREE_MAX_FILES then Some (bs "too many files (limit 10000)") else None.
Definition tree_depth_error (path : bytes) (depth : Z) : option bytes :=
  if depth >=? TREE_MAX_DEPTH then Some (path ++ bs ": directory nesting too deep") else None.

Record TreeEnqueueResult : Type := mkResult { enqueued : list Z; copied : Z; errors : list bytes }.
Definition no_result : TreeEnqueueResult := mkResult [] 0 [].

(** ** The loop

    [stack.pop()], then the entries of the directory: each is passed over,
    pushes a directory, or ends the whole walk. Directories popped are
    counted by the fuel. *)
Inductive flow (F : Type) : Type := Next | Descend (f : F) | Return.
Arguments Next {F}. Arguments Descend {F} f. Arguments Return {F}.

Section walk.
Context {F E W : Type}.
Context (open_ : F -> W -> result bus_error (list E) * W).
Context (each : F -> E -> W -> result bus_error (flow F) * W).

Fixpoint entries (f : F) (es : list E) (stack : list F) (w : W) : result bus_error (option (list F)) * W :=
  match es with
  | [] => (Ok (Some stack), w)
  | e :: es =>
      match each f e w with
      | (Err x, w) => (Err x, w)
      | (Ok Next, w) => entries f es stack w
      | (Ok (Descend d), w) => entries f es (d :: stack) w
      | (Ok Return, w) => (Ok None, w)
      end
  end.

Fixpoint walk (fuel : nat) (stack : list F) (w : W) : option (result bus_error unit * W) :=
  match stack with
  | [] => Some (Ok tt, w)
  | f :: stack =>
      match fuel with
      | O => None
      | S fuel =>
          match open_ f w with
          | (Err x, w) => Some (Err x, w)
          | (Ok es, w) =>
              match entries f es stack w with
              | (Err x, w) => Some (Err x, w)
              | (Ok None, w) => Some (Ok tt, w)
              | (Ok (Some stack), w) => walk fuel stack w
              end
          end
      end
  end.

Lemma sum_list_ext {A} (g h : A -> nat) l : (forall x, x ∈ l -> g x = h x) -> sum_list_with g l = sum_list_with h l.
Proof.
  induction l as [|x l IH]; [done|]. intros H. cbn [sum_list_with]. rewrite H by (by left).
  f_equal. apply IH. intros y Hy. apply H. by right.
Qed.
(** Collecting in reverse, one entry at a time. *)
Lemma omap_cons_list {A B} (g : A -> option B) x l : omap g (x :: l) = option_list (g x) ++ omap g l.
Proof. cbn. by destruct (g x). Qed.

(** ** The walk reaches everything

    [good] directories can be opened, and lead to such. [R l w]: in the world [w] the walk has dealt with the items [l]. Opening a
    directory yields its entries [ents f] and the items [pre f]; an entry
    is passed over, is a directory, or is an item. *)
Section exact.
Context {X : Type} (good : F -> Prop) (R : list X -> W -> Prop) (cap : nat) (rank : F -> nat).
Context (ents : F -> list E) (pre : F -> list X) (kind : F -> E -> option (F + X)).

Definition dir_of (f : F) (e : E) : option F := match kind f e with Some (inl d) => Some d | _ => None end.
Definition item_of (f : F) (e : E) : option X := match kind f e with Some (inr x) => Some x | _ => None end.

Fixpoint items (n : nat) (f : F) : list X :=
  match n with
  | O => []
  | S n => pre f ++ omap (item_of f) (ents f) ++ concat (items n <$> reverse (omap (dir_of f) (ents f)))
  end.
Fixpoint pops (n : nat) (f : F) : nat :=
  match n with
  | O => O
  | S n => S (sum_list_with (pops n) (reverse (omap (dir_of f) (ents f))))
  end.
Definition all_items (stack : list F) : list X := concat ((fun f => items (S (rank f)) f) <$> stack).
Definition all_pops (stack : list F) : nat := sum_list_with (fun f => pops (S (rank f)) f) stack.

Definition visit (f : F) (e : E) : flow F := match dir_of f e with Some d => Descend d | None => Next end.

Hypothesis deeper : forall f e d, e ∈ ents f -> dir_of f e = Some d -> (rank d < rank f)%nat.
Hypothesis good_dir : forall f e d, e ∈ ents f -> dir_of f e = Some d -> good f -> good d.
Hypothesis open_spec : forall f w l, good f -> R l w -> exists w', open_ f w = (Ok (ents f), w') /\ R (l ++ pre f) w'.
Hypothesis each_under : forall f e w l, good f -> e ∈ ents f -> R l w -> (length l < cap)%nat ->
  exists w', each f e w = (Ok (visit f e), w') /\ R (l ++ option_list (item_of f e)) w'.

Lemma dirs_rank f d : d ∈ reverse (omap (dir_of f) (ents f)) -> (rank d < rank f)%nat.
Proof. rewrite elem_of_reverse, list_elem_of_omap. intros (e & He & Hd). by apply (deeper f e d). Qed.

Lemma dirs_good f : good f -> Forall good (reverse (omap (dir_of f) (ents f))).
Proof.
  intros Hf. apply Forall_forall. intros d. rewrite elem_of_reverse, list_elem_of_omap.
  intros (e & He & Hd). by apply (good_dir f e d).
Qed.

Lemma enough n f : (rank f < n)%nat -> items n f = items (S (rank f)) f /\ pops n f = pops (S (rank f)) f.
Proof.
  revert f. induction (lt_wf (n)) as [n _ IH]. intros f Hn. destruct n as [|n]; [lia|].
  assert (G : forall d, d ∈ reverse (omap (dir_of f) (ents f)) ->
    items n d = items (rank f) d /\ pops n d = pops (rank f) d).
  { intros d Hd. apply dirs_rank in Hd. destruct (decide (rank f = n)) as [->|Hne]; [done|].
    destruct (IH n (ltac:(lia)) d) as [-> ->]; [lia|]. by destruct (IH (rank f) (ltac:(lia)) d) as [-> ->]. }
  cbn [items pops]. split.
  - do 3 f_equal. apply list_fmap_ext. intros i d Hd. apply G. by apply list_elem_of_lookup_2 in Hd.
  - f_equal. apply sum_list_ext. intros d Hd. by apply G.
Qed.

Lemma all_items_cons f stack :
  all_items (f :: stack) = pre f ++ omap (item_of f) (ents f)
    ++ all_items (reverse (omap (dir_of f) (ents f)) ++ stack).
Proof.
  unfold all_items. rewrite fmap_cons. cbn [concat]. cbn [items]. rewrite fmap_app, concat_app, <- !app_assoc.
  do 2 f_equal. f_equal. f_equal. apply list_fmap_ext. intros i d Hd. apply list_elem_of_lookup_2, dirs_rank in Hd.
  by apply enough.
Qed.
Lemma all_pops_cons f stack :
  all_pops (f :: stack) = S (all_pops (reverse (omap (dir_of f) (ents f)) ++ stack)).
Proof.
  unfold all_pops. rewrite sum_list_with_app. cbn [sum_list_with pops]. rewrite Nat.add_succ_l. do 2 f_equal.
  apply sum_list_ext. intros d Hd%dirs_rank. by apply enough.
Qed.

Lemma entries_cons f e es stack w w' : each f e w = (Ok (visit f e), w') ->
  entries f (e :: es) stack w = entries f es (option_list (dir_of f e) ++ stack) w'.
Proof. intros H. cbn [entries]. rewrite H. unfold visit. by destruct (dir_of f e). Qed.
Lemma stack_cons f e es stack :
  reverse (omap (dir_of f) es) ++ option_list (dir_of f e) ++ stack = reverse (omap (dir_of f) (e :: es)) ++ stack.
Proof.
  rewrite omap_cons_list, reverse_app, <- app_assoc. f_equal. by destruct (dir_of f e).
Qed.

Lemma entries_under f es : forall stack w l, good f -> (forall e, e ∈ es -> e ∈ ents f) -> R l w ->
  (length (l ++ omap (item_of f) es) < cap)%nat ->
  exists w', entries f es stack w = (Ok (Some (reverse (omap (dir_of f) es) ++ stack)), w')
  /\ R (l ++ omap (item_of f) es) w'.
Proof.
  induction es as [|e es IH]; intros stack w l Hgf Hin HR Hl. { exists w. split; [done|]. by rewrite app_nil_r. }
  assert (Hl0 : (length l < cap)%nat) by (rewrite length_app in Hl; lia).
  destruct (each_under f e w l) as (w1 & E1 & HR1); [done|apply Hin; by left|done|done|].
  rewrite omap_cons_list, app_assoc in Hl.
  destruct (IH (option_list (dir_of f e) ++ stack) w1 _ Hgf (fun e' He => Hin e' (list_elem_of_further _ _ _ He)) HR1 Hl) as (w2 & E2 & HR2).
  exists w2. split; [by rewrite (entries_cons _ _ _ _ _ _ E1), E2, stack_cons|].
  by rewrite omap_cons_list, app_assoc.
Qed.

(** Below the limit, everything is dealt with. *)
Lemma walk_under : forall fuel stack w l, Forall good stack -> R l w -> (all_pops stack <= fuel)%nat ->
  (length (l ++ all_items stack) < cap)%nat ->
  exists w', walk fuel stack w = Some (Ok tt, w') /\ R (l ++ all_items stack) w'.
Proof.
  induction fuel as [|fuel IH]; intros [|f stack] w l Hg HR Hf Hl.
  1,3: exists w; split; [done|]; unfold all_items; simpl; by rewrite app_nil_r.
  { rewrite all_pops_cons in Hf. lia. }
  rewrite all_pops_cons in Hf. rewrite all_items_cons in Hl. cbn [walk].
  apply Forall_cons in Hg as [Hgf Hg]. destruct (open_spec f w l Hgf HR) as (w1 & -> & HR1).
  destruct (entries_under f (ents f) stack w1 _ Hgf (fun _ H => H) HR1) as (w2 & -> & HR2).
  { rewrite !length_app in *. lia. }
  destruct (IH (reverse (omap (dir_of f) (ents f)) ++ stack) w2 _ ltac:(apply Forall_app; split; [by apply dirs_good|done]) HR2) as (w3 & -> & HR3);
    [lia|by rewrite <- !app_assoc|].
  exists w3. split; [done|]. by rewrite all_items_cons, !app_assoc.
Qed.

Section capped.
Hypothesis no_pre : forall f, pre f = [].
Hypothesis each_over : forall f e w l, good f -> e ∈ ents f -> R l w -> (cap <= length l)%nat ->
  exists w', each f e w = (Ok Return, w') /\ R l w'.

Lemma entries_capped f es : forall stack w l, good f -> (forall e, e ∈ es -> e ∈ ents f) -> R l w -> (length l <= cap)%nat ->
  exists w', (entries f es stack w = (Ok (Some (reverse (omap (dir_of f) es) ++ stack)), w')
     /\ R (l ++ omap (item_of f) es) w' /\ (length (l ++ omap (item_of f) es) <= cap)%nat)
  \/ (entries f es stack w = (Ok None, w') /\ exists l', R l' w' /\ length l' = cap
     /\ l' `prefix_of` (l ++ omap (item_of f) es)).
Proof.
  induction es as [|e es IH]; intros stack w l Hgf Hin HR Hl.
  { exists w. left. split; [done|]. by rewrite app_nil_r. }
  destruct (decide (length l < cap)%nat) as [Hlt|Hge].
  - destruct (each_under f e w l) as (w1 & E1 & HR1); [done|apply Hin; by left|done|done|].
    destruct (IH (option_list (dir_of f e) ++ stack) w1 _ Hgf (fun e' He => Hin e' (list_elem_of_further _ _ _ He)) HR1) as (w2 & H).
    { rewrite length_app. destruct (item_of f e); simpl; lia. }
    exists w2. rewrite (entries_cons _ _ _ _ _ _ E1), <- stack_cons, (omap_cons_list (item_of f)), (app_assoc l). exact H.
  - destruct (each_over f e w l) as (w1 & E1 & HR1); [done|apply Hin; by left|done|lia|]. exists w1. right. cbn [entries]. rewrite E1.
    split; [done|]. exists l. split; [done|]. split; [lia|]. by eexists.
Qed.

(** The walk deals with the first [cap] items. *)
Lemma walk_capped : forall fuel stack w l, Forall good stack -> R l w -> (all_pops stack <= fuel)%nat -> (length l <= cap)%nat ->
  exists w', walk fuel stack w = Some (Ok tt, w') /\ R (take cap (l ++ all_items stack)) w'.
Proof.
  induction fuel as [|fuel IH]; intros [|f stack] w l Hg HR Hf Hl.
  1,3: exists w; split; [done|]; unfold all_items; simpl; by rewrite app_nil_r, take_ge by lia.
  { rewrite all_pops_cons in Hf. lia. }
  rewrite all_pops_cons in Hf. cbn [walk]. rewrite all_items_cons.
  apply Forall_cons in Hg as [Hgf Hg]. destruct (open_spec f w l Hgf HR) as (w1 & -> & HR1). rewrite no_pre, app_nil_r in *.
  destruct (entries_capped f (ents f) stack w1 _ Hgf (fun _ H => H) HR1 Hl) as (w2 & [(-> & HR2 & Hl2)|(-> & l' & HR2 & Hl2 & k & Hk)]).
  - destruct (IH (reverse (omap (dir_of f) (ents f)) ++ stack) w2 _
      ltac:(apply Forall_app; split; [by apply dirs_good|done]) HR2) as (w3 & -> & HR3); [lia|done|].
    exists w3. split; [done|]. by rewrite <- app_assoc in HR3.
  - exists w2. split; [done|]. simpl. rewrite app_assoc, Hk, <- app_assoc, <- Hl2, take_app_length. done.
Qed.
End capped.
End exact.

(** ** The walk ends

    Whatever the directories say, when a listing has at most [b] entries and
    every step down has a smaller rank. *)
Section ends.
Context (b : nat) (rank : F -> nat).
Fixpoint weight (n : nat) : nat := match n with O => 1 | S n => S (b * weight n) end.

Hypothesis open_bound : forall f w es w', open_ f w = (Ok es, w') -> (length es <= match rank f with O => 0 | _ => b end)%nat.
Hypothesis each_deeper : forall f e w d w', rank f <> O -> each f e w = (Ok (Descend d), w') -> (S (rank d) <= rank f)%nat.

Lemma weight_pos n : (1 <= weight n)%nat.
Proof. destruct n; simpl; lia. Qed.
Lemma weight_mono n m : (n <= m)%nat -> (weight n <= weight m)%nat.
Proof.
  intros H. revert n H. induction m as [|m IH]; intros n H; [by replace n with O by lia|].
  destruct n as [|n]; simpl; [lia|]. specialize (IH n ltac:(lia)). nia.
Qed.
Definition stack_weight (stack : list F) : nat := sum_list_with (fun f => weight (rank f)) stack.

Lemma entries_weight f es : (es <> [] -> rank f <> O) -> forall stack w stack' w', entries f es stack w = (Ok (Some stack'), w') ->
  (stack_weight stack' <= stack_weight stack + length es * weight (pred (rank f)))%nat.
Proof.
  induction es as [|e es IH]; intros Hr stack w stack' w' H; cbn [entries] in H.
  { injection H as <- <-. simpl. lia. }
  specialize (Hr ltac:(done)). specialize (IH (fun _ => Hr)).
  destruct (each f e w) as [[[|d|]|x] w1] eqn:Ee; try discriminate.
  - specialize (IH _ _ _ _ H). simpl. lia.
  - specialize (IH _ _ _ _ H). apply each_deeper in Ee; [|done].
    assert (Hw := weight_mono (rank d) (pred (rank f)) ltac:(lia)).
    unfold stack_weight in *. cbn [sum_list_with length] in *. lia.
Qed.

Lemma walk_ends : forall fuel stack w, (stack_weight stack <= fuel)%nat -> is_Some (walk fuel stack w).
Proof.
  induction fuel as [|fuel IH]; intros [|f stack] w Hf; [by eexists| |by eexists|];
    unfold stack_weight in Hf; cbn [sum_list_with] in Hf; [pose proof (weight_pos (rank f)); lia|].
  cbn [walk]. destruct (open_ f w) as [[es|x] w1] eqn:Eo; [|by eexists]. apply open_bound in Eo.
  destruct (entries f es stack w1) as [[[stack'|]|x] w2] eqn:En; [|by eexists..].
  apply IH. apply entries_weight in En; [|by destruct es, (rank f); simpl in *; [..|lia|]]. etrans; [exact En|]. unfold stack_weight.
  destruct (rank f) as [|n]; simpl in *; [assert (length es = O) as -> by lia; lia|].
  assert (length es * weight n <= b * weight n)%nat by (apply Nat.mul_le_mono_r; lia). lia.
Qed.
End ends.
End walk.

(** ** The handlers *)

(** The kind [DirEntry::file_type] reports, and the two calls on local files. *)
Inductive local_kind : Type := LSymlink | LDir | LFile | LOther.
Class LocalTree (L : Type) : Type := {
  read_dir : bytes -> L -> result bytes (list (result bytes (bytes * result bytes local_kind)));
  create_dir_all : bytes -> L -> result bytes unit * L;
}.
Class CopyProxy (P : Type) : Type := { p_copy_file : bytes -> bytes -> P -> presult unit * P }.

(** The method of the proxy client. *)
Definition client_copy {S : Type} `{!Net S} : CopyProxy (client S) := {| p_copy_file := ProxyClient.copy_file |}.

Section handlers.
Context {P L : Type} `{!FsProxy P, !CopyProxy P, !LocalTree L}.

(** The client the handler holds, the local files, the queue and [out]. *)
Record tree_world : Type := mkTree {
  tclient : P; disk : L; jobs : Queue.world; out : TreeEnqueueResult }.

Definition set_out (o : TreeEnqueueResult) (w : tree_world) : tree_world := mkTree (tclient w) (disk w) (jobs w) o.
Definition push_error (e : bytes) (w : tree_world) : tree_world :=
  set_out (mkResult (enqueued (out w)) (copied (out w)) (errors (out w) ++ [e])) w.
Definition set_client (p : P) (w : tree_world) : tree_world := mkTree p (disk w) (jobs w) (out w).

(** [out.enqueued.push(self.queue.submit(job))] *)
Definition submit_job (dir : Direction) (src dst : bytes) (o : JobOptions) (device : bytes) (w : tree_world) : tree_world :=
  let q := queue (jobs w) in
  let job := (with_device 0 dir src dst o (Some device) (next_id q) (heap (jobs w))).1 in
  mkTree (tclient w) (disk w) (submit_whole dir src dst o (Some device) (jobs w))
    (mkResult (enqueued (out w) ++ [(submit job q).1]) (copied (out w)) (errors (out w))).

Definition show (p : bytes) : bytes := from_utf8_lossy p.

(** Two paths and a depth. *)
Definition frame : Type := bytes * bytes * Z.

Definition push_open (f : frame) (w : tree_world) : result bus_error (list (result bytes (bytes * result bytes local_kind))) * tree_world :=
  let '(local, _, depth) := f in
  match tree_depth_error (show local) depth with
  | Some e => (Ok [], push_error e w)
  | None =>
      match read_dir local (disk w) with
      | Err e => (Err (Failed_ (bs "read " ++ show local ++ bs ": " ++ e)), w)
      | Ok es => (Ok es, w)
      end
  end.

Definition push_each (o : JobOptions) (device : bytes) (f : frame) (entry : result bytes (bytes * result bytes local_kind))
    (w : tree_world) : result bus_error (flow frame) * tree_world :=
  let '(local, remote, depth) := f in
  match entry with
  | Err e => (Err (Failed_ (bs "read " ++ show local ++ bs ": " ++ e)), w)
  | Ok (name, file_type) =>
      match tree_file_cap_error (zlen (enqueued (out w))) with
      | Some e => (Ok Return, push_error e w)
      | None =>
          match file_type with
          | Err e => (Err (Failed_ (bs "stat " ++ show (path_join local name) ++ bs ": " ++ e)), w)
          | Ok LSymlink => (Ok Next, w)
          | Ok kind =>
              let remote_child := path_join remote name in
              let remote_str := show remote_child in
              match kind with
              | LDir =>
                  let '(_, p) := p_mkdir remote_str 0x1ED (tclient w) in
                  (Ok (Descend (path_join local name, remote_child, depth + 1)), set_client p w)
              | LFile => (Ok Next, submit_job Push (path_join local name) remote_str o device w)
              | _ => (Ok Next, w)
              end
          end
      end
  end.

Definition pull_open (f : frame) (w : tree_world) : result bus_error (list DirEntry.t) * tree_world :=
  let '(remote, _, depth) := f in
  match tree_depth_error remote depth with
  | Some e => (Ok [], push_error e w)
  | None =>
      match p_listdir remote (tclient w) with
      | (Err e, p) => (Err (Failed_ (bs "list " ++ remote ++ bs ": " ++ display e)), set_client p w)
      | (Ok es, p) => (Ok es, set_client p w)
      end
  end.

Definition pull_each (o : JobOptions) (device : bytes) (f : frame) (entry : DirEntry.t) (w : tree_world)
    : result bus_error (flow frame) * tree_world :=
  let '(remote, local, depth) := f in
  match tree_file_cap_error (zlen (enqueued (out w))) with
  | Some e => (Ok Return, push_error e w)
  | None =>
      let mode := Stat.mode (DirEntry.stat entry) in
      if FileMode.is_symlink mode then (Ok Next, w)
      else
        let remote_child := child_path remote (DirEntry.name entry) in
        let local_child := path_join local (DirEntry.name entry) in
        if FileMode.is_dir mode then
          match create_dir_all local_child (disk w) with
          | (Err e, l) => (Err (Failed_ (bs "mkdir " ++ show local_child ++ bs ": " ++ e)), mkTree (tclient w) l (jobs w) (out w))
          | (Ok _, l) => (Ok (Descend (remote_child, local_child, depth + 1)), mkTree (tclient w) l (jobs w) (out w))
          end
        else (Ok Next, submit_job Pull remote_child local_child o device w)
  end.

Definition copy_open (f : frame) (w : tree_world) : result bus_error (list DirEntry.t) * tree_world :=
  let '(src, dst, depth) := f in
  match tree_depth_error src depth with
  | Some e => (Ok [], push_error e w)
  | None =>
      let '(_, p) := p_mkdir dst 0x1ED (tclient w) in
      match p_listdir src p with
      | (Err e, p) => (Err (Failed_ (bs "list " ++ src ++ bs ": " ++ display e)), set_client p w)
      | (Ok es, p) => (Ok es, set_client p w)
      end
  end.

Definition copy_each (f : frame) (entry : DirEntry.t) (w : tree_world) : result bus_error (flow frame) * tree_world :=
  let '(src, dst, depth) := f in
  match tree_file_cap_error (copied (out w) + zlen (errors (out w))) with
  | Some e => (Ok Return, push_error e w)
  | None =>
      let mode := Stat.mode (DirEntry.stat entry) in
      if FileMode.is_symlink mode then (Ok Next, w)
      else
        let src_child := child_path src (DirEntry.name entry) in
        let dst_child := child_path dst (DirEntry.name entry) in
        if FileMode.is_dir mode then (Ok (Descend (src_child, dst_child, depth + 1)), w)
        else
          match p_copy_file src_child dst_child (tclient w) with
          | (Ok _, p) =>
              (Ok Next, set_out (mkResult (enqueued (out w)) (copied (out w) + 1) (errors (out w))) (set_client p w))
          | (Err e, p) => (Ok Next, push_error (bs "copy " ++ src_child ++ bs ": " ++ display e) (set_client p w))
          end
  end.

(** What the handlers share: the connected devices, the local files and the queue. *)
Record daemon : Type := mkDaemon { devices : gmap bytes P; files : L; daemon_jobs : Queue.world }.

Definition answer : Type := option (result bus_error TreeEnqueueResult * daemon).

(** [?] on a check, and the end of a handler. *)
Definition check {A} (r : result bus_error A) (d : daemon) (k : A -> answer) : answer :=
  match r with Err e => Some (Err e, d) | Ok a => k a end.
Definition tree_result (device : bytes) (d : daemon) (x : option (result bus_error unit * tree_world)) : answer :=
  match x with
  | None => None
  | Some (r, w) =>
      Some (match r with Ok _ => Ok (out w) | Err e => Err e end,
            mkDaemon (<[device := tclient w]> (devices d)) (disk w) (jobs w))
  end.

Definition enqueue_tree_push (fuel : nat) (device local_dir device_dir overwrite : bytes) (verify : bool) (d : daemon) : answer :=
  check (parse_job_options overwrite verify) d (fun o =>
  check (check_tree_path local_dir) d (fun _ =>
  check (check_tree_path device_dir) d (fun _ =>
  check (client_for (devices d) device) d (fun client =>
  tree_result device d
    (walk push_open (push_each o device) fuel [(local_dir, device_dir, 0)]
       (mkTree client (files d) (daemon_jobs d) no_result)))))).

Definition enqueue_tree_pull (fuel : nat) (device device_dir local_dir overwrite : bytes) (verify : bool) (d : daemon) : answer :=
  check (parse_job_options overwrite verify) d (fun o =>
  check (check_tree_path device_dir) d (fun _ =>
  check (check_tree_path local_dir) d (fun _ =>
  let '(r, l) := create_dir_all local_dir (files d) in
  let d := mkDaemon (devices d) l (daemon_jobs d) in
  check (map_err (fun e => Failed_ (bs "mkdir " ++ show local_dir ++ bs ": " ++ e)) r) d (fun _ =>
  check (client_for (devices d) device) d (fun client =>
  tree_result device d
    (walk pull_open (pull_each o device) fuel [(device_dir, local_dir, 0)]
       (mkTree client (files d) (daemon_jobs d) no_result))))))).

Definition copy_tree (fuel : nat) (device src_dir dst_dir : bytes) (d : daemon) : answer :=
  check (check_tree_path src_dir) d (fun _ =>
  check (check_tree_path dst_dir) d (fun _ =>
  if bool_decide (src_dir = dst_dir) then Some (Err (InvalidArgs (bs "source and destination are the same")), d)
  else
    check (client_for (devices d) device) d (fun client =>
    tree_result device d
      (walk copy_open copy_each fuel [(src_dir, dst_dir, 0)]
         (mkTree client (files d) (daemon_jobs d) no_result))))).

End handlers.
Arguments tree_world : clear implicits. Arguments daemon : clear implicits. Arguments answer : clear implicits.
