(* ===== verification/DaemonWalkSpec.v ===== *)
(** * What the tree handlers do with a tree

    The handlers of [DaemonWalk] against a reference traversal of the tree,
    [tree_items]: a directory's files in the order listed, then its
    subdirectories from the last to the first, down to 32 levels. *)

From stdpp Require Import base list gmap strings.
From S2P Require Import Prelude RustStd Text ProxyOps Libc ProxyClient Cache Filesystem Paths Job Queue DaemonInput DaemonTree DaemonWalk.

(** ** The reference traversal *)

Inductive node : Type := Skip | Folder | Leaf.

Section tree.
Context {E X : Type} (ls : bytes -> list E) (look : E -> bytes * node).
Context (sub1 sub2 : bytes -> bytes -> bytes) (leaf : bytes -> bytes -> X) (deep : bytes -> list X).

Definition folder (e : E) : option bytes := match look e with (n, Folder) => Some n | _ => None end.
Definition file_at (a b : bytes) (e : E) : option X :=
  match look e with (n, Leaf) => Some (leaf (sub1 a n) (sub2 b n)) | _ => None end.

Fixpoint tree_items (levels : nat) (a b : bytes) : list X :=
  match levels with
  | O => deep a
  | S levels => omap (file_at a b) (ls a)
      ++ concat ((fun n => tree_items levels (sub1 a n) (sub2 b n)) <$> reverse (omap folder (ls a)))
  end.
(** The directories visited. *)
Fixpoint tree_dirs (levels : nat) (a : bytes) : nat :=
  match levels with
  | O => 1
  | S levels => S (sum_list_with (fun n => tree_dirs levels (sub1 a n)) (reverse (omap folder (ls a))))
  end.

(** The directories a traversal from [root] can come to. *)
Inductive visited (root : bytes) : bytes -> Prop :=
| visited_root : visited root root
| visited_child a e n : visited root a -> e ∈ ls a -> folder e = Some n -> visited root (sub1 a n).

Lemma visited_closed root (l : list bytes) a : root ∈ l ->
  forallb (fun a => forallb (fun e => match folder e with Some n => bool_decide (sub1 a n ∈ l) | None => true end) (ls a)) l = true ->
  visited root a -> a ∈ l.
Proof.
  intros Hr Hc Hv. induction Hv as [|a e n Hv IH He Hf]; [done|].
  rewrite forallb_forall in Hc. apply list_elem_of_In, Hc in IH. rewrite forallb_forall in IH.
  apply list_elem_of_In, IH in He. rewrite Hf in He. by apply bool_decide_eq_true in He.
Qed.

(** The paths on the other side. *)
Definition reached (root2 b : bytes) : Prop := exists ns, b = foldl sub2 root2 ns.
Lemma reached_child root2 b n : reached root2 b -> reached root2 (sub2 b n).
Proof. intros [ns ->]. exists (ns ++ [n]). by rewrite foldl_app. Qed.

Definition on_tree (root root2 : bytes) (f : bytes * bytes * Z) : Prop := visited root f.1.1 /\ reached root2 f.1.2.

(** The traversal as the walk sees it. *)
Definition rank (f : frame) : nat := Z.to_nat (32 - f.2).
Definition ents (f : frame) : list E := if TREE_MAX_DEPTH <=? f.2 then [] else ls f.1.1.
Definition pre (f : frame) : list X := if TREE_MAX_DEPTH <=? f.2 then deep f.1.1 else [].
Definition kind (f : frame) (e : E) : option (frame + X) :=
  let '(a, b, d) := f in
  match look e with
  | (n, Folder) => Some (inl (sub1 a n, sub2 b n, d + 1))
  | (n, Leaf) => Some (inr (leaf (sub1 a n) (sub2 b n)))
  | (_, Skip) => None
  end.

Lemma kind_deeper f e d : e ∈ ents f -> dir_of kind f e = Some d -> (rank d < rank f)%nat.
Proof.
  destruct f as [[a b] z]. unfold ents, dir_of, kind, rank, TREE_MAX_DEPTH. simpl.
  case_bool; [by intros ?%elem_of_nil|]. bool_to_prop. destruct (look e) as [n []]; try done.
  intros _ [= <-]. simpl. lia.
Qed.

Lemma kind_on_tree root root2 f e d : e ∈ ents f -> dir_of kind f e = Some d -> on_tree root root2 f -> on_tree root root2 d.
Proof.
  destruct f as [[a b] z]. unfold ents, dir_of, kind, on_tree. simpl. case_bool; [by intros ?%elem_of_nil|].
  intros He Hd [Hv Hr]. assert (Hf : folder e = folder e) by done. unfold folder in Hf at 2.
  destruct (look e) as [n []]; try done. injection Hd as <-.
  split; [by apply (visited_child root a e n)|by apply reached_child].
Qed.
Lemma root_on_tree a b : Forall (on_tree a b) [(a, b, 0)].
Proof. apply Forall_singleton. split; [constructor|]. by exists []. Qed.

Lemma kind_items a b d (es : list E) : omap (item_of kind (a, b, d)) es = omap (file_at a b) es.
Proof.
  induction es as [|e es IH]; [done|]. rewrite !omap_cons_list, IH. f_equal.
  unfold item_of, kind, file_at. by destruct (look e) as [n []].
Qed.
Lemma kind_dirs a b d (es : list E) :
  omap (dir_of kind (a, b, d)) es = (fun n => (sub1 a n, sub2 b n, d + 1)) <$> omap folder es.
Proof.
  induction es as [|e es IH]; [done|]. rewrite !omap_cons_list, IH, fmap_app. f_equal.
  unfold dir_of, kind, folder. by destruct (look e) as [n []].
Qed.

Lemma items_tree n a b : (n <= 32)%nat ->
  items ents pre kind (S n) (a, b, 32 - Z.of_nat n) = tree_items n a b.
Proof.
  revert a b. induction n as [|n IH]; intros a b Hn.
  { cbn [items]. unfold ents, pre, TREE_MAX_DEPTH. simpl. by rewrite !app_nil_r. }
  assert (Hd : (TREE_MAX_DEPTH <=? 32 - Z.of_nat (S n)) = false) by (apply Z.leb_gt; unfold TREE_MAX_DEPTH; lia).
  remember (S n) as m. cbn [items]. unfold ents, pre. cbn [fst snd]. rewrite Hd. subst m. cbn [tree_items].
  rewrite kind_items. simpl. f_equal. f_equal. rewrite kind_dirs, <- fmap_reverse, <- list_fmap_compose.
  apply list_fmap_ext. intros i nm _. unfold compose.
  replace (32 - Z.of_nat (S n) + 1) with (32 - Z.of_nat n) by lia. apply IH. lia.
Qed.
Lemma pops_tree n a b : (n <= 32)%nat ->
  pops ents kind (S n) (a, b, 32 - Z.of_nat n) = tree_dirs n a.
Proof.
  revert a b. induction n as [|n IH]; intros a b Hn; [done|].
  assert (Hd : (TREE_MAX_DEPTH <=? 32 - Z.of_nat (S n)) = false) by (apply Z.leb_gt; unfold TREE_MAX_DEPTH; lia).
  remember (S n) as m. cbn [pops]. unfold ents. cbn [fst snd]. rewrite Hd. subst m. cbn [tree_dirs]. f_equal.
  rewrite kind_dirs, <- fmap_reverse. generalize (reverse (omap folder (ls a))). intros l.
  induction l as [|nm l IHl]; [done|]. rewrite fmap_cons. cbn [sum_list_with]. rewrite IHl. f_equal.
  replace (32 - Z.of_nat (S n) + 1) with (32 - Z.of_nat n) by lia. apply IH. lia.
Qed.

(** An item is a leaf reached by one list of names on both sides. *)
Lemma tree_items_names root levels : (forall a, deep a = []) -> forall a b x, visited root a ->
  x ∈ tree_items levels a b -> exists ns, ns <> [] /\ (length ns <= levels)%nat
  /\ x = leaf (foldl sub1 a ns) (foldl sub2 b ns)
  /\ Forall (fun n => exists a' e, visited root a' /\ e ∈ ls a' /\ n = (look e).1) ns.
Proof.
  intros Hd. induction levels as [|levels IH]; intros a b x Hv; cbn [tree_items].
  { rewrite Hd. by intros ?%elem_of_nil. }
  intros [Hx|Hx]%elem_of_app.
  - apply list_elem_of_omap in Hx as (e & He & Hx). unfold file_at in Hx. destruct (look e) as [n []] eqn:El; try done.
    injection Hx as <-. exists [n]. split; [done|]. split; [simpl; lia|]. split; [done|].
    apply Forall_singleton. exists a, e. by rewrite El.
  - apply list_elem_of_In, in_concat in Hx as (l & Hl & Hx). apply list_elem_of_In in Hl, Hx.
    apply list_elem_of_fmap in Hl as (n & -> & Hn).
    rewrite elem_of_reverse, list_elem_of_omap in Hn. destruct Hn as (e & He & Hf).
    destruct (IH (sub1 a n) (sub2 b n) x) as (ns & Hne & Hlen & -> & Hns); [by apply (visited_child root a e n)|done|].
    exists (n :: ns). split; [done|]. split; [simpl; lia|]. split; [done|]. apply Forall_cons. split; [|done].
    exists a, e. split; [done|]. split; [done|]. unfold folder in Hf. destruct (look e) as [m []]; simplify_eq; done.
Qed.

Lemma root_items a b : all_items rank ents pre kind [(a, b, 0)] = tree_items 32 a b.
Proof. unfold all_items. simpl. rewrite app_nil_r. apply (items_tree 32). lia. Qed.
Lemma root_pops a b : all_pops rank ents kind [(a, b, 0)] = tree_dirs 32 a.
Proof. unfold all_pops. cbn [sum_list_with]. rewrite Nat.add_0_r. apply (pops_tree 32). lia. Qed.
End tree.

(** ** Jobs submitted *)

Definition ends_of (j : Job) : bytes * bytes := (source j, destination j).

(** From the queue [q] a handler submitted one job for each pair of [l], in
    order, and reports their ids. *)
Definition submitted (dir : Direction) (o : JobOptions) (device : bytes) (q q' : JobQueue)
    (l : list (bytes * bytes)) (r : TreeEnqueueResult) : Prop :=
  exists new, pending q' = pending q ++ new /\ in_flight q' = in_flight q /\ completed q' = completed q
  /\ enqueued r = id <$> new /\ ends_of <$> new = l
  /\ Forall (fun j => direction j = dir /\ options j = o /\ Job.device j = Some device) new.

Section submitting.
Context {P L : Type}.
Lemma submit_job_spec dir o device q l src dst (w : tree_world P L) :
  submitted dir o device q (queue (jobs w)) l (out w) ->
  submitted dir o device q (queue (jobs (submit_job dir src dst o device w))) (l ++ [(src, dst)])
    (out (submit_job dir src dst o device w)).
Proof.
  intros (new & Hp & Hf & Hc & He & Hl & Hn). unfold submit_job.
  set (j := (with_device 0 dir src dst o (Some device) (next_id (queue (jobs w))) (heap (jobs w))).1).
  exists (new ++ [with_id (next_id (queue (jobs w))) j]). cbn [jobs out enqueued]. unfold submit_whole.
  destruct (send_keeps (exec (Submit dir src dst o (Some device)) (jobs w))) as (-> & -> & -> & _). cbn. rewrite Hp, !fmap_app, He, <- Hl, app_assoc.
  split; [done|]. split; [done|]. split; [done|]. split; [done|]. split; [done|].
  apply Forall_app. split; [done|]. by apply Forall_singleton.
Qed.
Lemma enqueued_length dir o device q q' l r : submitted dir o device q q' l r -> zlen (enqueued r) = Z.of_nat (length l).
Proof. intros (new & _ & _ & _ & -> & <- & _). unfold zlen. by rewrite !length_fmap. Qed.
Lemma submitted_none dir o device q : submitted dir o device q q [] no_result.
Proof. exists []. by rewrite app_nil_r. Qed.
Lemma submitted_error dir o device q l e (w : tree_world P L) :
  submitted dir o device q (queue (jobs w)) l (out w) ->
  submitted dir o device q (queue (jobs (push_error e w))) l (out (push_error e w)).
Proof. done. Qed.
End submitting.

(** The limit on files, over the pairs dealt with. *)
Definition MAX_FILES : nat := Z.to_nat TREE_MAX_FILES.
Lemma cap_under n : (n < MAX_FILES)%nat -> tree_file_cap_error (Z.of_nat n) = None.
Proof. unfold tree_file_cap_error, MAX_FILES, TREE_MAX_FILES. intros H. case_bool; [bool_to_prop; lia|done]. Qed.
Lemma cap_over n : (MAX_FILES <= n)%nat -> exists e, tree_file_cap_error (Z.of_nat n) = Some e.
Proof. unfold tree_file_cap_error, MAX_FILES, TREE_MAX_FILES. intros H. case_bool; [by eexists|bool_to_prop; lia]. Qed.
Lemma depth_error path depth :
  tree_depth_error path depth = if TREE_MAX_DEPTH <=? depth then Some (path ++ bs ": directory nesting too deep") else None.
Proof. unfold tree_depth_error. by rewrite Z.geb_leb. Qed.

(** ** Pulling a tree *)

Definition remote_node (e : DirEntry.t) : bytes * node :=
  (DirEntry.name e,
   if FileMode.is_symlink (Stat.mode (DirEntry.stat e)) then Skip
   else if FileMode.is_dir (Stat.mode (DirEntry.stat e)) then Folder else Leaf).

Definition pair_of (a b : bytes) : bytes * bytes := (a, b).

Section pull.
Context {P L : Type} `{!FsProxy P, !LocalTree L}.
Context (ls : bytes -> list DirEntry.t) (InvP : P -> Prop) (InvL : L -> Prop) (root root2 : bytes).

(** A device on which the directories of the tree do not change, and a disk
    with room for directories. *)
Definition listing_stays : Prop := forall p path, InvP p -> visited ls remote_node child_path root path ->
  exists p', p_listdir path p = (Ok (ls path), p') /\ InvP p'.
Definition folders_made : Prop :=
  forall d path, InvL d -> reached path_join root2 path -> exists d', create_dir_all path d = (Ok tt, d') /\ InvL d'.

Context (Hls : listing_stays) (Hmk : folders_made).
Context (o : JobOptions) (device : bytes) (q : JobQueue).

Definition pull_R (l : list (bytes * bytes)) (w : tree_world P L) : Prop :=
  InvP (tclient w) /\ InvL (disk w) /\ submitted Pull o device q (queue (jobs w)) l (out w).
Definition pull_good : frame -> Prop := on_tree ls remote_node child_path path_join root root2.
Definition pull_kind := kind remote_node child_path path_join pair_of.
Definition no_pre : frame -> list (bytes * bytes) := pre (fun _ => []).

Lemma no_pre_nil f : no_pre f = [].
Proof. unfold no_pre, pre. by case_bool. Qed.

Lemma pull_open_spec f w l : pull_good f -> pull_R l w ->
  exists w', pull_open f w = (Ok (ents ls f), w') /\ pull_R (l ++ no_pre f) w'.
Proof.
  rewrite no_pre_nil, app_nil_r. intros [Hg _] (HP & HL & HS). destruct f as [[a b] d]. unfold pull_open, ents.
  rewrite depth_error. cbn [fst snd]. case_bool; [by eexists|].
  destruct (Hls (tclient w) a HP Hg) as (p' & -> & HP'). by eexists.
Qed.

Lemma pull_each_under f e w l : pull_good f -> e ∈ ents ls f -> pull_R l w -> (length l < MAX_FILES)%nat ->
  exists w', pull_each o device f e w = (Ok (visit pull_kind f e), w')
  /\ pull_R (l ++ option_list (item_of pull_kind f e)) w'.
Proof.
  intros [_ Hg] _ (HP & HL & HS) Hl. destruct f as [[a b] d]. unfold pull_each.
  rewrite (enqueued_length _ _ _ _ _ _ _ HS), cap_under by done.
  unfold visit, dir_of, item_of, pull_kind, kind, remote_node.
  destruct (FileMode.is_symlink _); [exists w; by rewrite app_nil_r|].
  destruct (FileMode.is_dir _).
  - destruct (Hmk (disk w) (path_join b (DirEntry.name e)) HL) as (d' & -> & HL').
    { by apply reached_child. }
    eexists. split; [done|]. by rewrite app_nil_r.
  - eexists. split; [done|]. split; [done|]. split; [done|]. by apply submit_job_spec.
Qed.
Lemma pull_each_over f e w l : pull_good f -> e ∈ ents ls f -> pull_R l w -> (MAX_FILES <= length l)%nat ->
  exists w', pull_each o device f e w = (Ok Return, w') /\ pull_R l w'.
Proof.
  intros _ _ (HP & HL & HS) Hl. destruct f as [[a b] d]. unfold pull_each.
  rewrite (enqueued_length _ _ _ _ _ _ _ HS). destruct (cap_over _ Hl) as [x ->]. by eexists.
Qed.

Definition pull_items : list (bytes * bytes) :=
  tree_items ls remote_node child_path path_join pair_of (fun _ => []) 32 root root2.

Lemma pull_walk fuel w : (tree_dirs ls remote_node child_path 32 root <= fuel)%nat -> pull_R [] w ->
  exists w', walk pull_open (pull_each o device) fuel [(root, root2, 0)] w = Some (Ok tt, w')
  /\ pull_R (take MAX_FILES pull_items) w'.
Proof.
  intros Hf HR. rewrite <- (root_pops ls remote_node child_path path_join pair_of root root2) in Hf.
  unfold pull_items. rewrite <- root_items.
  by apply (walk_capped _ _ pull_good pull_R MAX_FILES rank (ents ls) no_pre pull_kind
    (kind_deeper ls remote_node child_path path_join pair_of)
    (kind_on_tree ls remote_node child_path path_join pair_of root root2)
    pull_open_spec pull_each_under no_pre_nil pull_each_over fuel [(root, root2, 0)] w []
    (root_on_tree _ _ _ _ _ _) HR Hf ltac:(simpl; lia)).
Qed.
End pull.

(** ** Pushing a tree *)

Definition local_entry : Type := result bytes (bytes * result bytes local_kind).
Definition local_node (e : local_entry) : bytes * node :=
  match e with
  | Ok (n, Ok LDir) => (n, Folder)
  | Ok (n, Ok LFile) => (n, Leaf)
  | Ok (n, _) => (n, Skip)
  | Err _ => ([], Skip)
  end.
Definition shown_pair (a b : bytes) : bytes * bytes := (a, show b).

Section push.
Context {P L : Type} `{!FsProxy P, !LocalTree L}.
Context (local : L) (root root2 : bytes).

Definition local_ls (path : bytes) : list local_entry :=
  match read_dir path local with Ok es => es | Err _ => [] end.
(** Every directory of the tree and the kind of every entry can be read. *)
Definition tree_readable : Prop := forall path, visited local_ls local_node path_join root path ->
  exists es, read_dir path local = Ok es /\ Forall (fun e => exists n k, e = Ok (n, Ok k)) es.

Context (Hls : tree_readable).
Context (o : JobOptions) (device : bytes) (q : JobQueue).

Definition push_R (l : list (bytes * bytes)) (w : tree_world P L) : Prop :=
  disk w = local /\ submitted Push o device q (queue (jobs w)) l (out w).
Definition push_good : frame -> Prop := on_tree local_ls local_node path_join path_join root root2.
Definition push_kind := kind local_node path_join path_join shown_pair.

Lemma push_open_spec f w l : push_good f -> push_R l w ->
  exists w', push_open f w = (Ok (ents local_ls f), w') /\ push_R (l ++ no_pre f) w'.
Proof.
  rewrite no_pre_nil, app_nil_r. intros [Hg _] (HL & HS). destruct f as [[a b] d]. unfold push_open, ents.
  rewrite depth_error. cbn [fst snd]. case_bool; [by eexists|]. rewrite HL. unfold local_ls.
  destruct (Hls a Hg) as (es & -> & _). by eexists.
Qed.
Lemma push_entry f e : push_good f -> e ∈ ents local_ls f -> exists n k, e = Ok (n, Ok k).
Proof.
  intros [Hg _]. unfold ents. case_bool; [by intros ?%elem_of_nil|]. unfold local_ls.
  destruct (Hls _ Hg) as (es & -> & Hes). intros He. rewrite Forall_forall in Hes. by apply Hes.
Qed.
Lemma push_each_under f e w l : push_good f -> e ∈ ents local_ls f -> push_R l w -> (length l < MAX_FILES)%nat ->
  exists w', push_each o device f e w = (Ok (visit push_kind f e), w')
  /\ push_R (l ++ option_list (item_of push_kind f e)) w'.
Proof.
  intros Hg He (HL & HS) Hl. destruct (push_entry f e Hg He) as (n & k & ->). destruct f as [[a b] d]. unfold push_each.
  rewrite (enqueued_length _ _ _ _ _ _ _ HS), cap_under by done.
  unfold visit, dir_of, item_of, push_kind, kind, local_node.
  destruct k; [exists w; by rewrite app_nil_r| | |exists w; by rewrite app_nil_r].
  - destruct (p_mkdir _ _ _) as [x p]. eexists. split; [done|]. by rewrite app_nil_r.
  - eexists. split; [done|]. split; [done|]. by apply submit_job_spec.
Qed.
Lemma push_each_over f e w l : push_good f -> e ∈ ents local_ls f -> push_R l w -> (MAX_FILES <= length l)%nat ->
  exists w', push_each o device f e w = (Ok Return, w') /\ push_R l w'.
Proof.
  intros Hg He (HL & HS) Hl. destruct (push_entry f e Hg He) as (n & k & ->). destruct f as [[a b] d]. unfold push_each.
  rewrite (enqueued_length _ _ _ _ _ _ _ HS). destruct (cap_over _ Hl) as [x ->]. by eexists.
Qed.

Definition push_items : list (bytes * bytes) :=
  tree_items local_ls local_node path_join path_join shown_pair (fun _ => []) 32 root root2.

Lemma push_walk fuel w : (tree_dirs local_ls local_node path_join 32 root <= fuel)%nat -> push_R [] w ->
  exists w', walk push_open (push_each o device) fuel [(root, root2, 0)] w = Some (Ok tt, w')
  /\ push_R (take MAX_FILES push_items) w'.
Proof.
  intros Hf HR. rewrite <- (root_pops local_ls local_node path_join path_join shown_pair root root2) in Hf.
  unfold push_items. rewrite <- root_items.
  by apply (walk_capped _ _ push_good push_R MAX_FILES rank (ents local_ls) no_pre push_kind
    (kind_deeper local_ls local_node path_join path_join shown_pair)
    (kind_on_tree local_ls local_node path_join path_join shown_pair root root2)
    push_open_spec push_each_under no_pre_nil push_each_over fuel [(root, root2, 0)] w []
    (root_on_tree _ _ _ _ _ _) HR Hf ltac:(simpl; lia)).
Qed.
End push.

Lemma foldl_join_path ns ms : Forall good_name ms -> Forall good_name ns ->
  foldl path_join (path_of ms) ns = path_of (ms ++ ns).
Proof.
  revert ms. induction ns as [|n ns IH]; intros ms Hm Hn; simpl; [by rewrite app_nil_r|].
  apply Forall_cons in Hn as [Hn Hns]. rewrite path_join_name by done. rewrite IH; [by rewrite <- app_assoc| |done].
  apply Forall_app. split; [done|by apply Forall_singleton].
Qed.

Section transfers.
Context {P L : Type} `{!FsProxy P, !LocalTree L}.

(** C14: Pulling a tree queues each of its files once, in its place. On a
    device that lists every directory of the tree with success, and the same each time, and
    with a disk on which every local directory can be made, [enqueue_tree_pull]
    returns, and has submitted, in order and with the caller's options,
    exactly one job for each of the first 10000 files of the tree down to 32
    levels, links excepted, and reports their ids; the queue is
    otherwise untouched. The source and the destination of a job are the two roots followed by
    the same names; if all the names the device reports are file names (not empty, without
    a slash, not a dot or two), no destination is outside the local directory. A device that reports
    other names can make it so ([pull_escapes]). *)
Theorem tree_pull_exact (fuel : nat) (device device_dir local_dir overwrite : bytes) (verify : bool) (o : JobOptions)
    (d : daemon P L) (client : P) (ls : bytes -> list DirEntry.t) (InvP : P -> Prop) (InvL : L -> Prop) :
  parse_job_options overwrite verify = Ok o -> check_tree_path device_dir = Ok tt -> check_tree_path local_dir = Ok tt ->
  devices d !! device = Some client -> InvP client -> InvL (files d) ->
  listing_stays ls InvP device_dir -> folders_made InvL local_dir ->
  (tree_dirs ls remote_node child_path 32 device_dir <= fuel)%nat ->
  exists out d', enqueue_tree_pull fuel device device_dir local_dir overwrite verify d = Some (Ok out, d')
  /\ submitted Pull o device (queue (daemon_jobs d)) (queue (daemon_jobs d'))
       (take MAX_FILES (pull_items ls device_dir local_dir)) out
  /\ forall src dst, (src, dst) ∈ pull_items ls device_dir local_dir ->
     exists ns, ns <> [] /\ (length ns <= 32)%nat /\ src = foldl child_path device_dir ns /\ dst = foldl path_join local_dir ns
     /\ forall base, local_dir = path_of base -> Forall good_name base ->
        (forall path e, visited ls remote_node child_path device_dir path -> e ∈ ls path -> good_name (DirEntry.name e)) ->
        dst = path_of (base ++ ns).
Proof.
  intros Ho H1 H2 Hc HP HL Hls Hmk Hf. unfold enqueue_tree_pull, check, client_for. rewrite Ho, H1, H2.
  destruct (Hmk (files d) local_dir HL) as (l' & -> & HL'); [by exists []|]. cbn. rewrite Hc.
  destruct (pull_walk ls InvP InvL device_dir local_dir Hls Hmk o device (queue (daemon_jobs d)) fuel
    (mkTree client l' (daemon_jobs d) no_result) Hf) as (w & -> & (_ & _ & HS)).
  { split; [done|]. split; [done|]. apply submitted_none. }
  exists (out w). eexists. split; [done|]. split; [exact HS|]. intros src dst Hin.
  apply (tree_items_names ls remote_node child_path path_join pair_of (fun _ => []) device_dir 32) in Hin
    as (ns & Hne & Hlen & [= -> ->] & Hns); [|done|constructor].
  exists ns. split; [done|]. split; [done|]. split; [done|]. split; [done|].
  intros base -> Hb Hg. apply foldl_join_path; [done|]. eapply Forall_impl; [exact Hns|].
  intros n (a & e & Hv & He & ->). by apply (Hg a).
Qed.

(** Pushing a tree likewise: one job for each of the first 10000 regular
    files, whatever the device answers to the folders made on the way. *)
Theorem tree_push_exact (fuel : nat) (device local_dir device_dir overwrite : bytes) (verify : bool) (o : JobOptions)
    (d : daemon P L) (client : P) :
  parse_job_options overwrite verify = Ok o -> check_tree_path device_dir = Ok tt -> check_tree_path local_dir = Ok tt ->
  devices d !! device = Some client -> tree_readable (files d) local_dir ->
  (tree_dirs (local_ls (files d)) local_node path_join 32 local_dir <= fuel)%nat ->
  exists out d', enqueue_tree_push fuel device local_dir device_dir overwrite verify d = Some (Ok out, d')
  /\ files d' = files d
  /\ submitted Push o device (queue (daemon_jobs d)) (queue (daemon_jobs d'))
       (take MAX_FILES (push_items (files d) local_dir device_dir)) out
  /\ forall src dst, (src, dst) ∈ push_items (files d) local_dir device_dir ->
     exists ns, ns <> [] /\ (length ns <= 32)%nat /\ src = foldl path_join local_dir ns
     /\ dst = show (foldl path_join device_dir ns).
Proof.
  intros Ho H1 H2 Hc Hls Hf. unfold enqueue_tree_push, check, client_for. rewrite Ho, H1, H2, Hc.
  destruct (push_walk (files d) local_dir device_dir Hls o device (queue (daemon_jobs d)) fuel
    (mkTree client (files d) (daemon_jobs d) no_result) Hf) as (w & -> & (HD & HS)).
  { split; [done|]. apply submitted_none. }
  exists (out w). eexists. split; [done|]. split; [done|]. split; [exact HS|]. intros src dst Hin.
  apply (tree_items_names (local_ls (files d)) local_node path_join path_join shown_pair (fun _ => []) local_dir 32) in Hin
    as (ns & Hne & Hlen & [= -> ->] & _); [|done|constructor].
  by exists ns.
Qed.
End transfers.

(** ** Copying a tree *)

(** A file to copy, or a directory that is too deep. *)
Definition copy_item : Type := (bytes * bytes) + bytes.
Definition copy_leaf (a b : bytes) : copy_item := inl (a, b).
Definition too_deep (a : bytes) : list copy_item := [inr (a ++ bs ": directory nesting too deep")].
Definition copies (l : list copy_item) : list (bytes * bytes) :=
  omap (fun x => match x with inl y => Some y | inr _ => None end) l.
Definition refusals (l : list copy_item) : list bytes :=
  omap (fun x => match x with inr y => Some y | inl _ => None end) l.

Lemma copies_refusals l : (length (copies l) + length (refusals l))%nat = length l.
Proof.
  induction l as [|x l IH]; [done|]. unfold copies, refusals in *. rewrite !omap_cons_list.
  destruct x; simpl; lia.
Qed.

Section copy.
Context {P L : Type} `{!FsProxy P, !CopyProxy P, !LocalTree L}.
Context (ls : bytes -> list DirEntry.t) (Inv : P -> Prop) (did : P -> list (bytes * bytes)) (root root2 : bytes).

(** A device on which the directories of the tree stay as they are while
    it copies; [did] are the files it has copied. *)
Record copying : Prop := {
  copy_lists p path : Inv p -> visited ls remote_node child_path root path ->
    exists p', p_listdir path p = (Ok (ls path), p') /\ Inv p' /\ did p' = did p;
  copy_mkdir p path m : Inv p -> reached child_path root2 path -> Inv (p_mkdir path m p).2 /\ did (p_mkdir path m p).2 = did p;
  copy_copies p src dst : Inv p -> reached child_path root2 dst ->
    exists p', p_copy_file src dst p = (Ok tt, p') /\ Inv p' /\ did p' = did p ++ [(src, dst)];
}.
Context (laws : copying) (p0 : P) (j0 : Queue.world).

Definition copy_R (l : list copy_item) (w : tree_world P L) : Prop :=
  Inv (tclient w) /\ did (tclient w) = did p0 ++ copies l /\ jobs w = j0 /\ enqueued (out w) = []
  /\ copied (out w) = zlen (copies l) /\ errors (out w) = refusals l.
Definition copy_good : frame -> Prop := on_tree ls remote_node child_path child_path root root2.
Definition copy_kind := kind remote_node child_path child_path copy_leaf.

Lemma copies_app l k : copies (l ++ k) = copies l ++ copies k.
Proof. apply omap_app. Qed.
Lemma refusals_app l k : refusals (l ++ k) = refusals l ++ refusals k.
Proof. apply omap_app. Qed.

Lemma copy_open_spec f w l : copy_good f -> copy_R l w ->
  exists w', copy_open f w = (Ok (ents ls f), w') /\ copy_R (l ++ pre too_deep f) w'.
Proof.
  intros [Hg Hg2] (HI & Hd & Hj & He & Hc & Hx). destruct f as [[a b] d]. unfold copy_open, ents, pre.
  rewrite depth_error. cbn [fst snd]. case_bool.
  - eexists. split; [done|]. unfold copy_R. cbn. rewrite copies_app, refusals_app, Hx. simpl. by rewrite app_nil_r.
  - rewrite app_nil_r. destruct (copy_mkdir laws (tclient w) b 0x1ED HI Hg2) as [HI1 Hd1].
    destruct (p_mkdir b 0x1ED (tclient w)) as [r p1]. simpl in *.
    destruct (copy_lists laws p1 a HI1 Hg) as (p2 & -> & HI2 & Hd2). eexists. split; [done|]. unfold copy_R. cbn.
    by rewrite Hd2, Hd1.
Qed.
Lemma copy_each_under f e w l : copy_good f -> e ∈ ents ls f -> copy_R l w -> (length l < MAX_FILES)%nat ->
  exists w', copy_each f e w = (Ok (visit copy_kind f e), w') /\ copy_R (l ++ option_list (item_of copy_kind f e)) w'.
Proof.
  intros [_ Hg2] _ (HI & Hd & Hj & He & Hc & Hx) Hl. destruct f as [[a b] d]. unfold copy_each.
  replace (copied (out w) + zlen (errors (out w))) with (Z.of_nat (length l))
    by (rewrite Hc, Hx, <- copies_refusals; unfold zlen; lia).
  rewrite cap_under by done. unfold visit, dir_of, item_of, copy_kind, kind, remote_node.
  destruct (FileMode.is_symlink _); [exists w; by rewrite app_nil_r|].
  destruct (FileMode.is_dir _); [exists w; by rewrite app_nil_r|].
  destruct (copy_copies laws (tclient w) (child_path a (DirEntry.name e)) (child_path b (DirEntry.name e)) HI
    (reached_child _ _ _ _ Hg2))
    as (p' & -> & HI' & Hd'). eexists. split; [done|]. unfold copy_R. cbn.
  rewrite copies_app, refusals_app, Hd', Hd, Hx, Hc, zlen_app, app_assoc. simpl. by rewrite app_nil_r.
Qed.

Definition copy_items : list copy_item :=
  tree_items ls remote_node child_path child_path copy_leaf too_deep 32 root root2.

(** Copying a tree copies each of its files once. On a device whose source
    directories do not change while it copies, [copy_tree] returns and
    the device has copied, in the order of the traversal, exactly the
    files of the tree down to 32 levels, links excepted, to the same
    names under the destination; it reports their number and one error
    for each directory at the 32nd level, and submits nothing. *)
Theorem tree_copy_exact (fuel : nat) (device : bytes) (d : daemon P L) :
  check_tree_path root = Ok tt -> check_tree_path root2 = Ok tt -> root <> root2 ->
  devices d !! device = Some p0 -> daemon_jobs d = j0 -> Inv p0 ->
  (tree_dirs ls remote_node child_path 32 root <= fuel)%nat ->
  (length copy_items < MAX_FILES)%nat ->
  exists out d' p, copy_tree fuel device root root2 d = Some (Ok out, d')
  /\ devices d' = <[device := p]> (devices d) /\ daemon_jobs d' = j0 /\ enqueued out = []
  /\ did p = did p0 ++ copies copy_items
  /\ copied out = zlen (copies copy_items) /\ errors out = refusals copy_items.
Proof.
  intros H1 H2 Hne Hc Hj HI Hf Hl. unfold copy_tree, check, client_for. rewrite H1, H2, Hc.
  rewrite bool_decide_eq_false_2 by done.
  rewrite <- (root_pops ls remote_node child_path child_path copy_leaf root root2) in Hf.
  unfold copy_items in Hl. rewrite <- root_items in Hl.
  destruct (walk_under copy_open copy_each (copy_good) copy_R MAX_FILES rank (ents ls) (pre too_deep) copy_kind
    (kind_deeper ls remote_node child_path child_path copy_leaf)
    (kind_on_tree ls remote_node child_path child_path copy_leaf root root2)
    copy_open_spec copy_each_under fuel [(root, root2, 0)] (mkTree p0 (files d) (daemon_jobs d) no_result) [])
    as (w & -> & (HI' & Hd & Hj' & He & Hcp & Hx)); [apply root_on_tree|by rewrite Hj; unfold copy_R; cbn; rewrite app_nil_r|done|done|].
  unfold copy_items. rewrite <- root_items. by eexists _, _, (tclient w).
Qed.
End copy.

(** ** Every call ends *)

Section ends.
Context {P L : Type} `{!FsProxy P, !CopyProxy P, !LocalTree L}.

(** No directory has more than [b] entries. *)
Definition narrow (b : nat) : Prop :=
  (forall path (p p' : P) es, p_listdir path p = (Ok es, p') -> (length es <= b)%nat)
  /\ (forall path (l : L) es, read_dir path l = Ok es -> (length es <= b)%nat).

Lemma open_bound_of {E} b d (es : list E) :
  (if TREE_MAX_DEPTH <=? d then es = [] else (length es <= b)%nat) ->
  (length es <= match Z.to_nat (32 - d) with O => 0 | _ => b end)%nat.
Proof.
  unfold TREE_MAX_DEPTH. case_bool; bool_to_prop; [by intros ->; simpl; lia|]. destruct (Z.to_nat (32 - d)) eqn:En; lia.
Qed.
Lemma push_walk_ends b o device fuel a c w : narrow b -> (weight b 32 <= fuel)%nat ->
  is_Some (walk (W := tree_world P L) push_open (push_each o device) fuel [(a, c, 0)] w).
Proof.
  intros [_ Hb] Hf. apply (walk_ends _ _ b rank).
  - intros [[x y] d] u es u'. unfold push_open, rank. rewrite depth_error. intros H. apply open_bound_of. simpl. revert H.
    case_bool; [by intros [= <- _]|]. destruct (read_dir x _) eqn:Er; [|done]. intros [= <- _]. by apply Hb in Er.
  - intros [[x y] d] e u f u' Hr. unfold push_each, rank in *. simpl in Hr. repeat case_match; intros; simplify_eq. simpl. lia.
  - unfold stack_weight, rank. cbn [sum_list_with snd]. change (Z.to_nat (32 - 0)) with 32%nat. lia.
Qed.
Lemma pull_walk_ends b o device fuel a c w : narrow b -> (weight b 32 <= fuel)%nat ->
  is_Some (walk (W := tree_world P L) pull_open (pull_each o device) fuel [(a, c, 0)] w).
Proof.
  intros [Hb _] Hf. apply (walk_ends _ _ b rank).
  - intros [[x y] d] u es u'. unfold pull_open, rank. rewrite depth_error. intros H. apply open_bound_of. simpl. revert H.
    case_bool; [by intros [= <- _]|]. destruct (p_listdir x _) as [[l|] p] eqn:Er; [|done]. intros [= <- _]. by apply Hb in Er.
  - intros [[x y] d] e u f u' Hr. unfold pull_each, rank in *. simpl in Hr. repeat case_match; intros; simplify_eq. simpl. lia.
  - unfold stack_weight, rank. cbn [sum_list_with snd]. change (Z.to_nat (32 - 0)) with 32%nat. lia.
Qed.
Lemma copy_walk_ends b fuel a c w : narrow b -> (weight b 32 <= fuel)%nat ->
  is_Some (walk (W := tree_world P L) copy_open copy_each fuel [(a, c, 0)] w).
Proof.
  intros [Hb _] Hf. apply (walk_ends _ _ b rank).
  - intros [[x y] d] u es u'. unfold copy_open, rank. rewrite depth_error. intros H. apply open_bound_of. simpl. revert H.
    case_bool; [by intros [= <- _]|]. destruct (p_mkdir _ _ _) as [r p1].
    destruct (p_listdir x _) as [[l|] p] eqn:Er; [|done]. intros [= <- _]. by apply Hb in Er.
  - intros [[x y] d] e u f u' Hr. unfold copy_each, rank in *. simpl in Hr. repeat case_match; intros; simplify_eq. simpl. lia.
  - unfold stack_weight, rank. cbn [sum_list_with snd]. change (Z.to_nat (32 - 0)) with 32%nat. lia.
Qed.

Lemma check_some {A} (r : result bus_error A) (d : daemon P L) k : (forall a, is_Some (k a)) -> is_Some (check r d k).
Proof. intros H. destruct r; [apply H|by eexists]. Qed.
Lemma tree_result_some device (d : daemon P L) x : is_Some x -> is_Some (tree_result device d x).
Proof. intros [[r w] ->]. by eexists. Qed.

(** C40: Every tree call returns. Whatever the device and the disk answer,
    also when the tree changes under the walk or links back to itself,
    the three handlers end after opening a number of directories that
    depends only on the longest listing. *)
Theorem tree_calls_end (b fuel : nat) (device x y overwrite : bytes) (verify : bool) (d : daemon P L) :
  narrow b -> (weight b 32 <= fuel)%nat ->
  is_Some (enqueue_tree_push fuel device x y overwrite verify d)
  /\ is_Some (enqueue_tree_pull fuel device x y overwrite verify d)
  /\ is_Some (copy_tree fuel device x y d).
Proof.
  intros Hb Hf. split; [|split].
  - repeat (apply check_some; intros). apply tree_result_some. by apply (push_walk_ends b).
  - unfold enqueue_tree_pull. do 3 (apply check_some; intros). destruct (create_dir_all _ _).
    repeat (apply check_some; intros). apply tree_result_some. by apply (pull_walk_ends b).
  - unfold copy_tree. do 2 (apply check_some; intros). case_bool_decide; [by eexists|].
    apply check_some; intros. apply tree_result_some. by apply (copy_walk_ends b).
Qed.
End ends.

(** ** Examples *)

(** A disk that records the directories made. *)
#[global] Instance made_dirs : LocalTree (list bytes) := {|
  read_dir _ _ := Ok [];
  create_dir_all p l := (Ok tt, l ++ [p]);
|}.
#[global] Instance mem_copy : CopyProxy MemTree.t := {|
  p_copy_file src dst s :=
    match s !! comps src with Some m => MemTree.add (comps dst) m s | None => (MemTree.error Status.NotFound, s) end;
|}.

Definition phone_ls (path : bytes) : list DirEntry.t := MemTree.children (comps path) phone.
Definition phone_daemon : daemon MemTree.t (list bytes) := mkDaemon devices_1 [] (start 4).

Lemma phone_visited path : visited phone_ls remote_node child_path (bs "/sdcard") path ->
  path ∈ [bs "/sdcard"; bs "/sdcard/a"].
Proof. apply visited_closed; [by left|by vm_compute]. Qed.

Lemma phone_lists path : visited phone_ls remote_node child_path (bs "/sdcard") path ->
  p_listdir path phone = (Ok (phone_ls path), phone).
Proof.
  intros Hv%phone_visited. apply MemTree.listdir_directory.
  rewrite !elem_of_cons in Hv. destruct Hv as [-> | [-> | Hv]]; [vm_compute; reflexivity..|by apply elem_of_nil in Hv].
Qed.

Lemma tree_pull_exact_witness : exists out d',
  enqueue_tree_pull 3 (bs "p1") (bs "/sdcard") (bs "/home/ann/dl") (bs "skip") false phone_daemon = Some (Ok out, d')
  /\ submitted Pull default_options (bs "p1") (new 4) (queue (daemon_jobs d'))
       [(bs "/sdcard/ab", bs "/home/ann/dl/ab"); (bs "/sdcard/a/x", bs "/home/ann/dl/a/x")] out.
Proof.
  destruct (tree_pull_exact 3 (bs "p1") (bs "/sdcard") (bs "/home/ann/dl") (bs "skip") false default_options phone_daemon
    phone phone_ls (fun p => p = phone) (fun _ => True)) as (out & d' & E & HS & _).
  1-3: vm_compute; reflexivity. 1-3: reflexivity || exact I.
  - intros p path -> Hv. exists phone. split; [|done]. by apply phone_lists.
  - intros d path _ _. by eexists.
  - apply Nat.leb_le. vm_compute. reflexivity.
  - exists out, d'. split; [exact E|].
    assert (G : take MAX_FILES (pull_items phone_ls (bs "/sdcard") (bs "/home/ann/dl"))
      = [(bs "/sdcard/ab", bs "/home/ann/dl/ab"); (bs "/sdcard/a/x", bs "/home/ann/dl/a/x")]) by (vm_compute; reflexivity).
    rewrite G in HS. exact HS.
Defined.

(** A device that shows [phone] and records what it copies. *)
Module Copier.
Definition t : Type := list (bytes * bytes).
Definition no {A} : presult A := MemTree.error Status.InvalidArg.
#[global] Instance fs : FsProxy t := {|
  p_stat p s := ((p_stat p phone).1, s);
  p_lstat p s := ((p_lstat p phone).1, s);
  p_readlink _ s := (no, s);
  p_symlink _ _ s := (no, s);
  p_listdir p s := ((p_listdir p phone).1, s);
  p_open _ _ _ s := (no, s);
  p_read_at _ _ _ s := (no, s);
  p_write_at _ _ _ s := (no, s);
  p_close _ s := (Ok tt, s);
  p_fstat _ s := (no, s);
  p_mkdir _ _ s := (Ok tt, s);
  p_unlink _ s := (no, s);
  p_rmdir _ s := (no, s);
  p_rename _ _ s := (no, s);
  p_truncate _ _ s := (no, s);
|}.
#[global] Instance copier : CopyProxy t := {| p_copy_file src dst s := (Ok tt, s ++ [(src, dst)]) |}.

Lemma copier_laws : copying (P := t) phone_ls (fun _ => True) (fun s => s) (bs "/sdcard") (bs "/data/c").
Proof.
  split; [|done|by eexists]. intros p path _ Hv. exists p. split; [|done].
  apply phone_lists in Hv. cbn [p_listdir fs]. by rewrite Hv.
Qed.
Lemma children_bound ns : (length (MemTree.children ns phone) <= 5)%nat.
Proof.
  unfold MemTree.children. assert (E : length (map_to_list phone) = 5%nat) by (vm_compute; reflexivity). rewrite <- E.
  generalize (map_to_list phone). intros l. induction l as [|e l IH]; [done|]. rewrite omap_cons_list, length_app.
  destruct (MemTree.child_entry ns e); simpl; lia.
Qed.
Lemma narrow_5 : narrow (P := t) (L := list bytes) 5.
Proof.
  split; [|intros path l es [= <-]; simpl; lia]. intros path p p' es H. apply (f_equal fst) in H.
  apply (MemTree.listdir_children path phone) in H. subst es. apply children_bound.
Qed.
End Copier.

Definition copier_daemon : daemon Copier.t (list bytes) := mkDaemon {[bs "p1" := []]} [] (start 4).

Lemma tree_copy_exact_witness : exists out d' p,
  copy_tree 3 (bs "p1") (bs "/sdcard") (bs "/data/c") copier_daemon = Some (Ok out, d')
  /\ devices d' = <[bs "p1" := p]> (devices copier_daemon)
  /\ p = [(bs "/sdcard/ab", bs "/data/c/ab"); (bs "/sdcard/a/x", bs "/data/c/a/x")] /\ copied out = 2 /\ errors out = [].
Proof.
  assert (G : copy_items phone_ls (bs "/sdcard") (bs "/data/c")
    = [inl (bs "/sdcard/ab", bs "/data/c/ab"); inl (bs "/sdcard/a/x", bs "/data/c/a/x")]) by (vm_compute; reflexivity).
  destruct (tree_copy_exact phone_ls (fun _ => True) (fun s : Copier.t => s) (bs "/sdcard") (bs "/data/c") Copier.copier_laws
    [] (start 4) 3 (bs "p1") copier_daemon) as (out & d' & p & E & Hd & _ & _ & Hp & Hc & He).
  1-2: vm_compute; reflexivity. 1: done. 1-2: reflexivity. 1: exact I.
  - apply Nat.leb_le. vm_compute. reflexivity.
  - rewrite G. unfold MAX_FILES, TREE_MAX_FILES. simpl length. lia.
  - exists out, d', p. rewrite G in Hp, Hc, He. split; [exact E|]. split; [exact Hd|]. split; [exact Hp|].
    split; [exact Hc|exact He].
Defined.

Lemma tree_calls_end_witness :
  is_Some (enqueue_tree_push (weight 5 32) (bs "p1") (bs "/home/ann") (bs "/sdcard") (bs "skip") true copier_daemon)
  /\ is_Some (enqueue_tree_pull (weight 5 32) (bs "p1") (bs "/home/ann") (bs "/sdcard") (bs "skip") true copier_daemon)
  /\ is_Some (copy_tree (weight 5 32) (bs "p1") (bs "/home/ann") (bs "/sdcard") copier_daemon).
Proof. exact (tree_calls_end 5 (weight 5 32) _ _ _ _ _ _ Copier.narrow_5 (Nat.le_refl _)). Defined.

(** A name the device made up: [local.join] follows it out of the directory
    the caller asked for. *)
Definition lying_ls (path : bytes) : list DirEntry.t :=
  [DirEntry.mk (bs "/home/ann/.bashrc") (MemTree.stat_of FileMode.file); DirEntry.mk (bs "../../x") (MemTree.stat_of FileMode.file)].
Example pull_escapes : pull_items lying_ls (bs "/sdcard") (bs "/home/ann/dl")
  = [(bs "/sdcard//home/ann/.bashrc", bs "/home/ann/.bashrc"); (bs "/sdcard/../../x", bs "/home/ann/dl/../../x")].
Proof. vm_compute. reflexivity. Qed.

(** A directory copied into itself: the copy is found by the walk and copied
    again, down to the depth limit. *)
Definition selfish : daemon MemTree.t (list bytes) :=
  mkDaemon {[bs "p1" := {[ [bs "a"] := FileMode.dir; [bs "a"; bs "f"] := FileMode.file ]}]} [] (start 4).
Example copy_into_itself :
  match copy_tree 100 (bs "p1") (bs "/a") (bs "/a/b") selfish with
  | Some (Ok out, d) => copied out = 32 /\ length (errors out) = 1%nat
      /\ option_map (fun p => bool_decide (is_Some (p !! (bs "a" :: replicate 32 (bs "b") ++ [bs "f"])))) (devices d !! bs "p1") = Some true
  | _ => False
  end.
Proof. vm_compute. auto. Qed.
