(* ===== verification/DaemonInstall.v ===== *)
(** * Package installs (adb-daemon/src/main.rs)

    The installs the daemon runs beside the transfer queue: [start_install],
    the pipeline task it spawns, and the map of statuses they share under a
    lock. What [adb] answers is an argument of each step. *)

From stdpp Require Import base list gmap strings sorting.
From S2P Require Import Prelude RustStd Text Job DaemonInput.

Record InstallStatus : Type := mkStatus {
  id : Z; device : bytes; label : bytes; source : bytes; from_device : bool;
  stage : Z; percent : Z; bytes_done : Z; bytes_total : Z; state : bytes;
  error_code : option bytes; message : option bytes; raw : option bytes; finished : bool;
}.

(** The part of [State] installs use. *)
Record State : Type := mkState { installs : gmap Z InstallStatus; install_running : bool; next_install_id : Z }.

Definition INSTALL_HISTORY_CAP : Z := 25.

(** ** Bookkeeping *)

Definition done_ids (m : gmap Z InstallStatus) : list Z :=
  (filter (fun e => finished e.2 = true) (map_to_list m)).*1.
Definition prune_installs (m : gmap Z InstallStatus) : gmap Z InstallStatus :=
  let done := done_ids m in
  if zlen done <=? INSTALL_HISTORY_CAP then m
  else
    let done := merge_sort Z.le done in
    let surplus := zlen done - INSTALL_HISTORY_CAP in
    foldl (fun m i => base.delete i m) m (ztake surplus done).

Definition set_installs (m : gmap Z InstallStatus) (s : State) : State := mkState m (install_running s) (next_install_id s).

Definition update_install (i : Z) (mutate : InstallStatus -> InstallStatus) (s : State) : State :=
  match installs s !! i with
  | Some status => set_installs (<[i := mutate status]> (installs s)) s
  | None => s
  end.

(** The fields the mutations of the pipeline write. *)
Definition set_stage (st : bytes) (n : Z) (x : InstallStatus) : InstallStatus :=
  mkStatus (id x) (device x) (label x) (source x) (from_device x) n (percent x) (bytes_done x) (bytes_total x) st
    (error_code x) (message x) (raw x) (finished x).
Definition set_progress (pct done : Z) (x : InstallStatus) : InstallStatus :=
  mkStatus (id x) (device x) (label x) (source x) (from_device x) (stage x) pct done (bytes_total x) (state x)
    (error_code x) (message x) (raw x) (finished x).
Definition set_end (success : bool) (code msg out : option bytes) (x : InstallStatus) : InstallStatus :=
  mkStatus (id x) (device x) (label x) (source x) (from_device x) 5 (if success then 100 else percent x)
    (bytes_done x) (bytes_total x) (if success then bs "Done" else bs "Failed") code msg out true.

Definition add_install_signed (i : Z) (code msg out : option bytes) (success : bool) (s : State) : State :=
  let s := mkState (installs s) false (next_install_id s) in
  let s := update_install i (set_end success code msg out) s in
  set_installs (prune_installs (installs s)) s.
Definition install_failed (i : Z) (code : option bytes) (msg : bytes) (out : option bytes) : State -> State :=
  add_install_signed i code (Some msg) out false.
Definition install_succeeded (i : Z) (out : bytes) : State -> State :=
  add_install_signed i None None (Some out) true.

(** ** Reading what [pm] said *)

Definition to_ascii_lowercase (s : bytes) : bytes := (fun b => if in_range 65 90 b then b + 32 else b) <$> s.

(** The codes [pm] prints, the code of the daemon and its sentence. *)
Definition FAILURES : list (bytes * (bytes * bytes)) := [
  (bs "INSTALL_FAILED_VERSION_DOWNGRADE", (bs "downgrade",
    bs "A newer version of this application is already installed on the device."));
  (bs "INSTALL_FAILED_UPDATE_INCOMPATIBLE", (bs "signature_mismatch",
    bs "Signatures do not match the installed version. The old app has to be uninstalled" ++ [10]
    ++ bs "             before installing this one; its data will be lost."));
  (bs "INSTALL_FAILED_INSUFFICIENT_STORAGE", (bs "insufficient_storage",
    bs "The device does not have enough storage space for this package."));
  (bs "INSTALL_FAILED_CONFLICTING_PROVIDER", (bs "conflicting_provider",
    bs "Another app already registers the same content provider."));
  (bs "INSTALL_FAILED_NO_MATCHING_ABIS", (bs "no_matching_abis",
    bs "This package does not support the device's CPU architecture."));
  (bs "INSTALL_PARSE_FAILED", (bs "parse_failed", bs "The file appears damaged or is not a valid APK."))].
Definition OFFLINE : list bytes :=
  [bs "device not found"; bs "no devices"; bs "device offline"; bs "closed"; bs "more than one"].

Definition classify_install_failure (trimmed : bytes) : option bytes * bytes :=
  match List.find (fun f => contains f.1 trimmed) FAILURES with
  | Some (_, (code, sentence)) => (Some code, sentence)
  | None =>
      if existsb (fun needle => contains needle (to_ascii_lowercase trimmed)) OFFLINE then
        (Some (bs "device_offline"), bs "The phone disconnected (or is not authorised for debugging).")
      else (Some (bs "unknown"), trimmed)
  end.

(** ** The steps *)

(** [std::process::Output] *)
Record output : Type := mkOutput { success : bool; stdout : bytes; stderr : bytes }.
Definition text_of (out : output) : bytes := trim (from_utf8_lossy (stdout out) ++ from_utf8_lossy (stderr out)).

Definition start_install (dev path : bytes) (connected : bool) (exists_ : bytes -> bool) (len : N) (s : State)
    : result bus_error Z * State :=
  if bool_decide (dev = [] \/ path = []) then (Err (InvalidArgs (bs "device and path are required")), s)
  else if negb connected then (Err (ServiceUnknown (bs "device not connected")), s)
  else
    let from := is_device_local_path exists_ path in
    let host_exists := exists_ path in
    if negb from && negb host_exists then
      (Err (InvalidArgs (path ++ bs " does not exist on this computer")), s)
    else if install_running s then
      (Err (Failed_ (bs "another installation is already running; wait for it to finish")), s)
    else
      let i := next_install_id s in
      let label := match file_name path with Some n => from_utf8_lossy n | None => path end in
      let status := mkStatus i dev label path from 0 0 0 (if from || negb host_exists then 0 else Z.of_N len)
        (bs "Pending") None None None false in
      (Ok i, mkState (prune_installs (<[i := status]> (installs s))) true (as_u64 (i + 1))).

(** Before the first [await] of the pipeline. *)
Definition stage_begin (i : Z) (s : State) : bool * State :=
  (match installs s !! i with Some st => from_device st | None => false end,
   update_install i (set_stage (bs "Copying") 2) s).

Definition installing (i : Z) : State -> State := update_install i (set_stage (bs "Installing") 4).

(** After [cp] on the device; [true] goes on to [pm install]. *)
Definition after_copy (i : Z) (path : bytes) (r : result bytes bytes) (s : State) : bool * State :=
  match r with
  | Err e =>
      let msg := bs "copying " ++ path ++ bs " into the staging area: " ++ e in
      (false, install_failed i (Some (bs "unknown")) msg (Some msg) s)
  | Ok _ => (true, installing i s)
  end.

(** After [adb push]; [None] is an error or a timeout. *)
Definition after_push (i : Z) (r : option output) (s : State) : bool * State :=
  match r with
  | None =>
      let e := bs "push never returned" in (false, install_failed i (Some (bs "device_offline")) e (Some e) s)
  | Some out =>
      if negb (success out) then
        let trimmed := text_of out in
        let '(code, msg) := classify_install_failure trimmed in
        let msg := if bool_decide (msg <> trimmed) then msg ++ [10; 10] ++ trimmed else msg in
        (false, install_failed i code msg (Some trimmed) s)
      else
        (true, installing i (update_install i (fun x => set_progress 100 (bytes_total x) x) s))
  end.

(** One round of the task that watches the staged file grow. *)
Definition poll_size (i : Z) (out : bytes) (s : State) : State :=
  let done := default 0 (parse_dec (2 ^ 64 - 1) (trim out)) in
  update_install i (fun x =>
    set_progress (if bytes_total x =? 0 then percent x else Z.min (as_u64 (done * 100) / bytes_total x) 100) done x) s.

Inductive pm_outcome : Type := PmTimeout | PmError (e : bytes) | PmOutput (out : output).

Definition pm_failed (out : output) (trimmed : bytes) : bool :=
  negb (success out) || contains (bs "Failure [") trimmed || has_prefix (bs "Failure") trimmed
  || contains (bs "INSTALL_FAILED") trimmed.

Definition after_pm (i : Z) (r : pm_outcome) (s : State) : State :=
  match r with
  | PmTimeout => install_failed i (Some (bs "timeout")) (bs "pm install did not answer in time.") None s
  | PmError e => let msg := bs "pm install: " ++ e in install_failed i (Some (bs "device_offline")) msg (Some msg) s
  | PmOutput out =>
      let trimmed := text_of out in
      if pm_failed out trimmed then
        let '(code, msg) := classify_install_failure trimmed in
        install_failed i code (msg ++ [10; 10] ++ trimmed) (Some trimmed) s
      else install_succeeded i trimmed s
  end.

(** ** The daemon as a machine

    A task is a pipeline at its next [await]; an event is a call of
    [start_install], or what a task does when its [adb] command has
    answered. A poll may come at any time, also from a task being aborted. *)
Inductive point : Type := Spawned | Copying | Pushing | Committing.
Record pipeline : Type := mkPipeline { p_id : Z; p_path : bytes; p_at : point }.
Record world : Type := mkWorld { st : State; tasks : list pipeline }.

Inductive event : Type :=
| Start (dev path : bytes) (connected : bool) (exists_ : bytes -> bool) (len : N)
| Begin (i : Z)
| Copied (i : Z) (r : result bytes bytes)
| Pushed (i : Z) (r : option output)
| Polled (i : Z) (out : bytes)
| Committed (i : Z) (r : pm_outcome).

Definition is_task (i : Z) (at_ : point) (t : pipeline) : bool :=
  (p_id t =? i) && match p_at t, at_ with
    Spawned, Spawned | Copying, Copying | Pushing, Pushing | Committing, Committing => true | _, _ => false end.
Definition find_task (i : Z) (at_ : point) (w : world) : option pipeline := List.find (is_task i at_) (tasks w).
(** A task goes on at another point, or ends. *)
Definition move (i : Z) (to : option point) (ts : list pipeline) : list pipeline :=
  omap (fun t => if p_id t =? i then (fun a => mkPipeline (p_id t) (p_path t) a) <$> to else Some t) ts.

Definition exec (e : event) (w : world) : world :=
  match e with
  | Start dev path connected exists_ len =>
      match start_install dev path connected exists_ len (st w) with
      | (Ok i, s) => mkWorld s (tasks w ++ [mkPipeline i path Spawned])
      | (Err _, s) => mkWorld s (tasks w)
      end
  | Begin i =>
      match find_task i Spawned w with
      | Some t => let '(from, s) := stage_begin i (st w) in
          mkWorld s (move i (Some (if from then Copying else Pushing)) (tasks w))
      | None => w
      end
  | Copied i r =>
      match find_task i Copying w with
      | Some t => let '(go, s) := after_copy i (p_path t) r (st w) in
          mkWorld s (move i (if go then Some Committing else None) (tasks w))
      | None => w
      end
  | Pushed i r =>
      match find_task i Pushing w with
      | Some t => let '(go, s) := after_push i r (st w) in
          mkWorld s (move i (if go then Some Committing else None) (tasks w))
      | None => w
      end
  | Polled i out => mkWorld (poll_size i out (st w)) (tasks w)
  | Committed i r =>
      match find_task i Committing w with
      | Some t => mkWorld (after_pm i r (st w)) (move i None (tasks w))
      | None => w
      end
  end.

Definition start : world := mkWorld (mkState ∅ false 0) [].
Definition run (es : list event) : world := foldl (fun w e => exec e w) start es.

(** ** The history *)

Lemma elem_done i m : i ∈ done_ids m <-> exists x, m !! i = Some x /\ finished x = true.
Proof.
  unfold done_ids. rewrite list_elem_of_fmap. split.
  - intros ([j x] & -> & H). apply list_elem_of_filter in H as [Hf H]. apply elem_of_map_to_list in H. by exists x.
  - intros (x & Hx & Hf). exists (i, x). split; [done|]. apply list_elem_of_filter. split; [done|].
    by apply elem_of_map_to_list.
Qed.
Lemma done_nodup m : NoDup (done_ids m).
Proof.
  unfold done_ids. eapply sublist_NoDup; [apply (NoDup_fst_map_to_list m)|].
  apply fmap_sublist, sublist_filter.
Qed.
Lemma delete_all_lookup (l : list Z) (m : gmap Z InstallStatus) i :
  foldl (fun m i => base.delete i m) m l !! i = if bool_decide (i ∈ l) then None else m !! i.
Proof.
  revert m. induction l as [|j l IH]; intros m; simpl; [done|]. rewrite IH.
  destruct (decide (i = j)) as [->|Hne].
  - rewrite (bool_decide_eq_true_2 (j ∈ j :: l)) by (by left). rewrite lookup_delete_eq. by case_bool_decide.
  - rewrite lookup_delete_ne by done. case_bool_decide as H1; case_bool_decide as H2; try done.
    + destruct H2. by right.
    + apply elem_of_cons in H2 as [|]; done.
Qed.

(** What pruning drops, and what it keeps. *)
Lemma prune_split m : exists gone kept, done_ids m ≡ₚ gone ++ kept /\ zlen kept <= INSTALL_HISTORY_CAP
  /\ (forall i j, i ∈ gone -> j ∈ kept -> i < j)
  /\ (forall i, prune_installs m !! i = if bool_decide (i ∈ gone) then None else m !! i)
  /\ (gone <> [] -> zlen kept = INSTALL_HISTORY_CAP).
Proof.
  unfold prune_installs, INSTALL_HISTORY_CAP. case_bool; bool_to_prop.
  { exists [], (done_ids m). split; [done|]. split; [done|]. split; [by intros i j ?%elem_of_nil|].
    split; [|done]. intros i. by case_bool_decide as H; [apply elem_of_nil in H|]. }
  set (l := merge_sort Z.le (done_ids m)). assert (Hp : l ≡ₚ done_ids m) by apply merge_sort_Permutation.
  assert (Hl : zlen l = zlen (done_ids m)) by (unfold zlen; by rewrite (Permutation_length Hp)).
  assert (Hs : StronglySorted Z.le l) by (apply StronglySorted_merge_sort; apply _).
  assert (Hn : NoDup l) by (rewrite Hp; apply done_nodup).
  exists (ztake (zlen l - 25) l), (zdrop (zlen l - 25) l). rewrite ztake_zdrop. split; [done|].
  assert (Hz : zlen (zdrop (zlen l - 25) l) = 25) by (rewrite zlen_zdrop; lia). split; [lia|].
  rewrite <- (ztake_zdrop l (zlen l - 25)) in Hs, Hn. apply StronglySorted_app in Hs as (Hs & _ & _).
  apply NoDup_app in Hn as (_ & Hn & _). split; [|split; [|done]].
  - intros i j Hi Hj. assert (i <> j) by (intros ->; by apply (Hn j)). specialize (Hs i j Hi Hj). lia.
  - intros i. apply delete_all_lookup.
Qed.

Lemma prune_subset m i x : prune_installs m !! i = Some x -> m !! i = Some x.
Proof. destruct (prune_split m) as (gone & kept & _ & _ & _ & -> & _). by case_bool_decide. Qed.
Lemma prune_unfinished m i x : m !! i = Some x -> finished x = false -> prune_installs m !! i = Some x.
Proof.
  intros Hx Hf. destruct (prune_split m) as (gone & kept & Hp & _ & _ & -> & _).
  case_bool_decide as H; [|done]. assert (G : i ∈ done_ids m) by (rewrite Hp; apply elem_of_app; by left).
  apply elem_done in G as (y & Hy & Hfy). congruence.
Qed.
Lemma prune_done m : zlen (done_ids (prune_installs m)) <= INSTALL_HISTORY_CAP.
Proof.
  destruct (prune_split m) as (gone & kept & Hp & Hk & _ & Hl & _).
  assert (G : done_ids (prune_installs m) ⊆+ kept).
  { apply NoDup_submseteq; [apply done_nodup|]. intros i (x & Hx & Hf)%elem_done. rewrite Hl in Hx.
    case_bool_decide as H; [done|]. assert (Hi : i ∈ done_ids m) by (apply elem_done; by exists x).
    rewrite Hp in Hi. apply elem_of_app in Hi as [|]; done. }
  apply submseteq_length in G. unfold zlen in *. lia.
Qed.
(** The newest finished install stays. *)
Lemma prune_newest m i x : m !! i = Some x -> (forall j, is_Some (m !! j) -> j <= i) -> prune_installs m !! i = Some x.
Proof.
  intros Hx Hmax. destruct (prune_split m) as (gone & kept & Hp & _ & Hlt & -> & Hc).
  case_bool_decide as H; [|done]. destruct kept as [|j kept].
  { assert (gone <> []) as Hg by (intros ->; by apply elem_of_nil in H). specialize (Hc Hg). done. }
  specialize (Hlt i j H ltac:(by left)). assert (Hj : j ∈ done_ids m) by (rewrite Hp; apply elem_of_app; right; by left).
  apply elem_done in Hj as (y & Hy & _). specialize (Hmax j ltac:(by eexists)). lia.
Qed.

(** ** One install at a time *)

(** The progress shown is a percentage. *)
Definition bars (x : InstallStatus) : Prop := 0 <= percent x <= 100 /\ 0 <= bytes_total x.

(** The state while the install [r], if any, is running. *)
Record state_ok (r : option Z) (s : State) : Prop := {
  slot : install_running s = bool_decide (is_Some r);
  running i : r = Some i -> i = next_install_id s - 1 /\ exists x, installs s !! i = Some x /\ finished x = false;
  entry i x : installs s !! i = Some x ->
    id x = i /\ 0 <= i < next_install_id s /\ bars x /\ (finished x = false -> r = Some i);
  history : zlen (done_ids (installs s)) <= INSTALL_HISTORY_CAP;
}.

Definition keeps (f : InstallStatus -> InstallStatus) : Prop := forall x,
  id (f x) = id x /\ finished (f x) = finished x /\ (bars x -> bars (f x)).

Lemma update_ok r i f s : keeps f -> state_ok r s -> state_ok r (update_install i f s).
Proof.
  intros Hf H. unfold update_install. destruct (installs s !! i) as [x|] eqn:Hx; [|done].
  destruct (Hf x) as (Hid & Hfin & Hpct). destruct (entry _ _ H i x Hx) as (Ei & Bi & Pi & Ri).
  assert (G : forall j y, <[i := f x]> (installs s) !! j = Some y ->
    exists z, installs s !! j = Some z /\ finished y = finished z /\ (j = i /\ y = f x \/ y = z)).
  { intros j y Hy. apply lookup_insert_Some in Hy as [[-> <-]|[_ Hy]]; [|by exists y; auto].
    exists x. auto. }
  split; cbn.
  - apply (slot _ _ H).
  - intros j Hj. destruct (running _ _ H j Hj) as (E & z & Hz & Fz). split; [done|].
    destruct (decide (i = j)) as [->|Hne]; [|by exists z; rewrite lookup_insert_ne].
    exists (f x). rewrite lookup_insert_eq. split; [done|]. rewrite Hfin. congruence.
  - intros j y Hy. destruct (G j y Hy) as (z & Hz & Ez & [[-> ->]|<-]); [|by apply (entry _ _ H)].
    rewrite Hid, Hfin. split; [done|]. split; [done|]. split; [by apply Hpct|done].
  - etrans; [|apply (history _ _ H)]. unfold zlen. apply inj_le, submseteq_length, NoDup_submseteq; [apply done_nodup|].
    intros j (y & Hy & Fy)%elem_done. destruct (G j y Hy) as (z & Hz & Ez & _). apply elem_done. exists z. by rewrite <- Ez.
Qed.

Lemma keeps_stage st0 n : keeps (set_stage st0 n).
Proof. done. Qed.
Lemma keeps_progress pct done : (forall x, bars x -> 0 <= pct x <= 100) ->
  keeps (fun x => set_progress (pct x) (done x) x).
Proof. intros H x. split; [done|]. split; [done|]. intros B. split; [by apply H|apply B]. Qed.

Lemma end_ok i s code msg out ok : state_ok (Some i) s -> state_ok None (add_install_signed i code msg out ok s)
  /\ exists x, installs s !! i = Some x
     /\ installs (add_install_signed i code msg out ok s) !! i = Some (set_end ok code msg out x).
Proof.
  intros H. destruct (running _ _ H i eq_refl) as (Hn & x & Hx & Fx). unfold add_install_signed, update_install. cbn.
  rewrite Hx. cbn. set (m := <[i := _]> (installs s)).
  assert (Hm : forall j y, m !! j = Some y -> 0 <= j <= i /\ id y = j /\ bars y /\ finished y = true).
  { intros j y Hy. unfold m in Hy. apply lookup_insert_Some in Hy as [[<- <-]|[Hne Hy]].
    - destruct (entry _ _ H i x Hx) as (E1 & E2 & E3 & _). cbn. split; [lia|]. split; [done|].
      split; [split; [destruct ok; [cbn; lia|apply E3]|apply E3]|done].
    - destruct (entry _ _ H j y Hy) as (E1 & E2 & E3 & E4). split; [lia|]. split; [done|]. split; [done|].
      destruct (finished y); [done|]. by specialize (E4 eq_refl) as [= ->]. }
  split; [split; cbn|].
  - done.
  - done.
  - intros j y Hy%prune_subset. destruct (Hm j y Hy) as (E1 & E2 & E3 & E4). split; [done|]. split; [lia|].
    split; [done|]. by rewrite E4.
  - apply prune_done.
  - exists x. split; [done|]. apply prune_newest; [apply lookup_insert_eq|].
    intros j [y Hy]. apply Hm in Hy. lia.
Qed.

Lemma start_ok dev path connected ex len s i s' : state_ok None s -> 0 <= next_install_id s < 2 ^ 64 - 1 ->
  start_install dev path connected ex len s = (Ok i, s') ->
  state_ok (Some i) s' /\ next_install_id s' = next_install_id s + 1.
Proof.
  intros H Hn. unfold start_install. repeat (case_match; [done|]). intros [= <- <-]. cbn.
  rewrite as_u64_id by (unfold u64_ok; lia). split; [|done]. set (x := mkStatus _ _ _ _ _ _ _ _ _ _ _ _ _ _).
  set (m := <[next_install_id s := x]> (installs s)). split; cbn.
  - done.
  - intros j [= <-]. split; [lia|]. exists x. split; [|done]. apply prune_unfinished; [apply lookup_insert_eq|done].
  - intros j y Hy%prune_subset. apply lookup_insert_Some in Hy as [[<- <-]|[Hne Hy]]; [cbn; split_and!; [done|lia..| |done]; split; cbn; [lia|case_match; lia]|].
    destruct (entry _ _ H j y Hy) as (E1 & E2 & E3 & E4). split; [done|]. split; [lia|]. split; [done|].
    intros F. by specialize (E4 F).
  - apply prune_done.
Qed.
Lemma start_refused dev path connected ex len s e s' :
  start_install dev path connected ex len s = (Err e, s') -> s' = s.
Proof. unfold start_install. repeat (case_match; [by intros [= _ <-]|]). done. Qed.
Lemma start_running dev path connected ex len s i s' :
  start_install dev path connected ex len s = (Ok i, s') -> install_running s = false.
Proof. unfold start_install. repeat (case_match; [done|]). by destruct (install_running s). Qed.

Definition world_ok (n : Z) (w : world) : Prop :=
  0 <= next_install_id (st w) <= n
  /\ (tasks w = [] /\ state_ok None (st w) \/ exists t, tasks w = [t] /\ state_ok (Some (p_id t)) (st w)).

Lemma update_next i f s : next_install_id (update_install i f s) = next_install_id s.
Proof. unfold update_install. by case_match. Qed.
Lemma end_next i code msg out ok s : next_install_id (add_install_signed i code msg out ok s) = next_install_id s.
Proof. unfold add_install_signed. cbn. by rewrite update_next. Qed.

Lemma find_only i at_ w t t' : tasks w = [t] -> find_task i at_ w = Some t' -> t' = t /\ p_id t = i /\ p_at t = at_.
Proof.
  unfold find_task. intros ->. simpl. unfold is_task. destruct (p_id t =? i) eqn:E; [|done]. apply Z.eqb_eq in E.
  destruct (p_at t), at_; simpl; try done; by intros [= <-].
Qed.
Lemma move_only i to t : p_id t = i -> move i to [t] = option_list ((fun a => mkPipeline (p_id t) (p_path t) a) <$> to).
Proof. intros <-. unfold move. simpl. rewrite Z.eqb_refl. by destruct to. Qed.

(** What a step of the pipeline of [i] may do to the state: stay with the
    install running, or end it. *)
Definition stepped (i : Z) (s : State) (go : bool) (s' : State) : Prop :=
  next_install_id s' = next_install_id s
  /\ if go then state_ok (Some i) s'
     else state_ok None s' /\ exists x, installs s' !! i = Some x /\ finished x = true.

Lemma stepped_end i s code msg out ok : state_ok (Some i) s -> stepped i s false (add_install_signed i code msg out ok s).
Proof.
  intros H. split; [apply end_next|]. destruct (end_ok i s code msg out ok H) as (Hok & x & _ & Hx).
  split; [done|]. by eexists.
Qed.
Lemma stepped_stage i s st0 n : state_ok (Some i) s -> stepped i s true (update_install i (set_stage st0 n) s).
Proof. intros H. split; [apply update_next|]. by apply update_ok. Qed.
Lemma copy_step i path r s : state_ok (Some i) s ->
  stepped i s (after_copy i path r s).1 (after_copy i path r s).2.
Proof. intros H. destruct r; [by apply stepped_stage|by apply stepped_end]. Qed.
Lemma push_step i r s : state_ok (Some i) s -> stepped i s (after_push i r s).1 (after_push i r s).2.
Proof.
  intros H. unfold after_push. destruct r as [out|]; [|by apply stepped_end].
  destruct (success out); simpl; [|case_match; by apply stepped_end].
  assert (H' : state_ok (Some i) (update_install i (fun x => set_progress 100 (bytes_total x) x) s)).
  { apply update_ok; [|done]. apply (keeps_progress (fun _ => 100)). lia. }
  split; [by unfold installing; rewrite !update_next|]. by apply update_ok.
Qed.
Lemma pm_step i r s : state_ok (Some i) s -> stepped i s false (after_pm i r s).
Proof.
  intros H. destruct r; [by apply stepped_end..|]. unfold after_pm.
  case_match; [case_match|]; by apply stepped_end.
Qed.
Lemma poll_ok r i out s : state_ok r s -> state_ok r (poll_size i out s).
Proof.
  apply update_ok. set (done := default 0 _).
  apply (keeps_progress (fun x => if bytes_total x =? 0 then percent x else Z.min (as_u64 (done * 100) / bytes_total x) 100) (fun _ => done)).
  intros x [Hp Ht]. case_bool; [done|]. bool_to_prop.
  assert (Hu : 0 <= as_u64 (done * 100)) by (unfold as_u64; apply Z.mod_pos_bound; lia). assert (0 <= as_u64 (done * 100) / bytes_total x); [|lia].
  apply Z.div_pos; lia.
Qed.

Lemma task_ok n w t (x : bool * State) : 0 <= next_install_id (st w) <= n -> tasks w = [t] -> stepped (p_id t) (st w) x.1 x.2 ->
  world_ok n (let '(go, s) := x in mkWorld s (move (p_id t) (if go then Some Committing else None) (tasks w))).
Proof.
  destruct x as [go s]. intros Hn Ht [En Hs]. unfold world_ok. cbn in *. rewrite En, Ht, move_only by done. split; [done|].
  destruct go; [right; by eexists|left; by destruct Hs].
Qed.

Lemma exec_ok e n w : n < 2 ^ 64 - 1 -> world_ok n w -> world_ok (n + 1) (exec e w).
Proof.
  intros Hn [Hx Hw]. destruct e as [dev path c ex len|i|i r|i r|i out|i r]; cbn [exec].
  - destruct (start_install _ _ _ _ _ _) as [[i|err] s'] eqn:E.
    + destruct Hw as [[Ht H]|(t & _ & H)].
      * destruct (start_ok _ _ _ _ _ _ _ _ H ltac:(lia) E) as [H' En]. split; [cbn; rewrite En; lia|]. right. eexists. cbn. by rewrite Ht.
      * apply start_running in E. by rewrite (slot _ _ H) in E.
    + apply start_refused in E as ->. split; [cbn; lia|done].
  - destruct (find_task i Spawned w) as [t'|] eqn:E; [|split; [lia|done]].
    destruct Hw as [[Ht _]|(t & Ht & H)]; [by unfold find_task in E; rewrite Ht in E|].
    destruct (find_only _ _ _ _ _ Ht E) as (-> & <- & _). split; [cbn; rewrite update_next; lia|].
    right. eexists. split; [cbn; by rewrite Ht, move_only|]. by apply update_ok.
  - destruct (find_task i Copying w) as [t'|] eqn:E; [|split; [lia|done]].
    destruct Hw as [[Ht _]|(t & Ht & H)]; [by unfold find_task in E; rewrite Ht in E|].
    destruct (find_only _ _ _ _ _ Ht E) as (-> & <- & _). apply (task_ok (n + 1) w t); [lia|done|]. by apply copy_step.
  - destruct (find_task i Pushing w) as [t'|] eqn:E; [|split; [lia|done]].
    destruct Hw as [[Ht _]|(t & Ht & H)]; [by unfold find_task in E; rewrite Ht in E|].
    destruct (find_only _ _ _ _ _ Ht E) as (-> & <- & _). apply (task_ok (n + 1) w t); [lia|done|]. by apply push_step.
  - split; [cbn; unfold poll_size; rewrite update_next; lia|].
    destruct Hw as [[Ht H]|(t & Ht & H)]; [left|right; exists t]; (split; [done|]); by apply poll_ok.
  - destruct (find_task i Committing w) as [t'|] eqn:E; [|split; [lia|done]].
    destruct Hw as [[Ht _]|(t & Ht & H)]; [by unfold find_task in E; rewrite Ht in E|].
    destruct (find_only _ _ _ _ _ Ht E) as (-> & <- & _).
    apply (task_ok (n + 1) w t (false, after_pm (p_id t) r (st w))); [lia|done|]. by apply pm_step.
Qed.

Lemma run_ok es : zlen es < 2 ^ 64 -> world_ok (zlen es) (run es).
Proof.
  induction es as [|e es IH] using rev_ind; intros Hl.
  { split; [change (0 <= 0 <= 0); lia|]. left. split; [done|]. split; [done|done| |]; cbn; [|unfold done_ids; rewrite map_to_list_empty; done].
    intros i x H. by rewrite lookup_empty in H. }
  unfold run. rewrite foldl_snoc. rewrite zlen_app in *. change (zlen [e]) with 1 in *.
  apply exec_ok; [lia|]. apply IH. lia.
Qed.

(** The rest of a pipeline, whatever [adb] answers. *)
Definition finish (i : Z) (cp : result bytes bytes) (push : option output) (pm : pm_outcome) (w : world) : world :=
  foldl (fun w e => exec e w) w [Begin i; Copied i cp; Pushed i push; Committed i pm].

Definition ended (i : Z) (w : world) : Prop :=
  tasks w = [] /\ install_running (st w) = false /\ exists x, installs (st w) !! i = Some x /\ finished x = true.

Lemma ended_stays i w : ended i w -> forall cp push pm, exec (Copied i cp) w = w /\ exec (Pushed i push) w = w /\ exec (Committed i pm) w = w.
Proof. intros (Ht & _) cp push pm. cbn [exec]. unfold find_task. by rewrite Ht. Qed.

Lemma ended_step w t s : tasks w = [t] -> stepped (p_id t) (st w) false s -> ended (p_id t) (mkWorld s (move (p_id t) None (tasks w))).
Proof.
  intros Ht (_ & H & x & Hx). split; [cbn; by rewrite Ht, move_only|]. split; [apply (slot _ _ H)|by eexists].
Qed.

Lemma find_here w i path a : tasks w = [mkPipeline i path a] -> find_task i a w = Some (mkPipeline i path a).
Proof. intros Ht. unfold find_task. rewrite Ht. cbn. unfold is_task. cbn. rewrite Z.eqb_refl. by destruct a. Qed.
Lemma find_elsewhere w i path a b : tasks w = [mkPipeline i path a] -> a <> b -> find_task i b w = None.
Proof.
  intros Ht Ha. destruct (find_task i b w) as [t'|] eqn:E; [|done].
  by destruct (find_only _ _ _ _ _ Ht E) as (_ & _ & ?).
Qed.

(** A task of [i] at a given point, or nothing left. *)
Definition waiting (i : Z) (at_ : point) (w : world) : Prop :=
  exists path, tasks w = [mkPipeline i path at_] /\ state_ok (Some i) (st w).

Lemma commit_ends i w pm : waiting i Committing w \/ ended i w -> ended i (exec (Committed i pm) w).
Proof.
  intros [(path & Ht & H)|H]; [|by destruct (ended_stays i w H (Ok []) None pm) as (_ & _ & ->)].
  cbn [exec]. rewrite (find_here w i path Committing Ht). apply (ended_step w (mkPipeline i path Committing)); [done|]. by apply pm_step.
Qed.
Lemma task_next w i path at_ (x : bool * State) : tasks w = [mkPipeline i path at_] -> stepped i (st w) x.1 x.2 ->
  let w' := (let '(go, s) := x in mkWorld s (move i (if go then Some Committing else None) (tasks w))) in
  waiting i Committing w' \/ ended i w'.
Proof.
  destruct x as [[] s]; intros Ht Hs; [left|right; by apply (ended_step w (mkPipeline i path at_))].
  exists path. cbn. rewrite Ht, move_only by done. split; [done|]. apply Hs.
Qed.
Lemma push_next i w push : waiting i Pushing w \/ waiting i Committing w \/ ended i w ->
  waiting i Committing (exec (Pushed i push) w) \/ ended i (exec (Pushed i push) w).
Proof.
  intros [(path & Ht & H)|[(path & Ht & H)|H]]; [| |destruct (ended_stays i w H (Ok []) push PmTimeout) as (_ & -> & _); by right].
  - cbn [exec]. rewrite (find_here w i path Pushing Ht). apply (task_next w i path Pushing); [done|]. by apply push_step.
  - cbn [exec]. rewrite (find_elsewhere w i path _ Pushing Ht) by done. left. by exists path.
Qed.
Lemma copy_next i w cp : waiting i Copying w \/ waiting i Pushing w \/ waiting i Committing w ->
  let w' := exec (Copied i cp) w in waiting i Pushing w' \/ waiting i Committing w' \/ ended i w'.
Proof.
  intros [(path & Ht & H)|[(path & Ht & H)|(path & Ht & H)]]; cbn [exec].
  - rewrite (find_here w i path Copying Ht). right. apply (task_next w i path Copying); [done|]. by apply copy_step.
  - rewrite (find_elsewhere w i path _ Copying Ht) by done. left. by exists path.
  - rewrite (find_elsewhere w i path _ Copying Ht) by done. right; left. by exists path.
Qed.
Lemma begin_next i w t : tasks w = [t] -> p_id t = i -> state_ok (Some i) (st w) ->
  let w' := exec (Begin i) w in waiting i Copying w' \/ waiting i Pushing w' \/ waiting i Committing w'.
Proof.
  intros Ht <- H. destruct t as [i path a]. cbn [exec p_id] in *. destruct a.
  1:{ rewrite (find_here w i path Spawned Ht). cbn. rewrite Ht, move_only by done.
      assert (H' : state_ok (Some i) (update_install i (set_stage (bs "Copying") 2) (st w))) by (by apply update_ok).
      case_match; [left|right; left]; by exists path. }
  all: rewrite (find_elsewhere w i path _ Spawned Ht) by done.
  - left. by exists path.
  - right; left. by exists path.
  - right; right. by exists path.
Qed.

(** C17: Installs run one at a time and the slot is never lost. After any
    sequence of requests and answers of [adb], at most one pipeline exists;
    [install_running] is set exactly while one does, and the only unfinished
    status is that pipeline's, so a further request is refused just as
    long as one runs. Progress stays a percentage and at most 25
    finished installs are kept. Whatever [adb] answers from there
    on, a pipeline ends, its status finished and still in the list, and
    releases the slot. *)
Theorem installs_one_at_a_time (es : list event) : zlen es < 2 ^ 64 ->
  let w := run es in
  (tasks w = [] \/ exists t, tasks w = [t])
  /\ (install_running (st w) = true <-> tasks w <> [])
  /\ zlen (done_ids (installs (st w))) <= INSTALL_HISTORY_CAP
  /\ (forall i x, installs (st w) !! i = Some x -> id x = i /\ 0 <= percent x <= 100
        /\ (finished x = false -> exists t, tasks w = [t] /\ p_id t = i))
  /\ (forall t cp push pm, t ∈ tasks w -> ended (p_id t) (finish (p_id t) cp push pm w)).
Proof.
  intros Hl w. destruct (run_ok es Hl) as [_ [[Ht H]|(t & Ht & H)]]; fold w in Ht, H; rewrite Ht.
  - split; [by left|]. split; [by rewrite (slot _ _ H)|]. split; [apply (history _ _ H)|]. split.
    + intros i x Hx. destruct (entry _ _ H i x Hx) as (E1 & _ & E3 & E4). split; [done|]. split; [apply E3|].
      intros F. by specialize (E4 F).
    + intros t cp push pm Hin. by apply elem_of_nil in Hin.
  - split; [right; by exists t|]. split; [rewrite (slot _ _ H); by rewrite bool_decide_eq_true_2|].
    split; [apply (history _ _ H)|]. split.
    + intros i x Hx. destruct (entry _ _ H i x Hx) as (E1 & _ & E3 & E4). split; [done|]. split; [apply E3|].
      intros F. specialize (E4 F) as [= <-]. by exists t.
    + intros t' cp push pm Hin%list_elem_of_singleton. subst t'. unfold finish. cbn [foldl].
      apply commit_ends, push_next, copy_next. by apply (begin_next _ _ t).
Qed.

Definition ok_output : output := mkOutput true (bs "Success") [].
Lemma installs_one_at_a_time_witness :
  let w := run [Start (bs "p1") (bs "/tmp/a.apk") true (fun _ => true) 100%N; Begin 0; Polled 0 (bs "50")] in
  exists t, tasks w = [t] /\ ended (p_id t) (finish (p_id t) (Ok []) (Some ok_output) (PmOutput ok_output) w).
Proof.
  intros w. destruct (installs_one_at_a_time
    [Start (bs "p1") (bs "/tmp/a.apk") true (fun _ => true) 100%N; Begin 0; Polled 0 (bs "50")])
    as (_ & _ & _ & _ & H); [by vm_compute|].
  exists (mkPipeline 0 (bs "/tmp/a.apk") Pushing). split; [vm_compute; reflexivity|].
  apply H. apply list_elem_of_singleton. vm_compute. reflexivity.
Defined.
