(* ===== verification/DaemonState.v ===== *)
(** * Readings the daemon keeps (adb-daemon/src/main.rs)

    The cache in front of the device readings and the three handlers that
    serve from it, the ring buffer of a logcat stream and its cursor, and
    the pairing session the QR handlers share. *)

From stdpp Require Import base list gmap strings.
From S2P Require Import Prelude RustStd Text Job DaemonInput PairPacket Mdns.

(** ** The cache *)
Module TimedCache.

(** [Instant]s are readings of the clock, in nanoseconds. *)
Record t : Type := mk { ttl : Z; entries : gmap bytes (Z * bytes) }.
Definition new (ttl : Z) : t := mk ttl ∅.

Definition fresh (now : Z) (serial : bytes) (c : t) : option bytes :=
  match entries c !! serial with
  | Some (when, json) => if now - when <? ttl c then Some json else None
  | None => None
  end.
Definition stale (serial : bytes) (c : t) : option bytes := snd <$> entries c !! serial.
Definition store (now : Z) (serial json : bytes) (c : t) : t := mk (ttl c) (<[serial := (now, json)]> (entries c)).
Definition forget_missing (present : list bytes) (c : t) : t :=
  mk (ttl c) (filter (fun e => e.1 ∈ present) (entries c)).
Definition forget (key : bytes) (c : t) : t := mk (ttl c) (base.delete key (entries c)).
(** The part of a key before the NUL. *)
Definition device_of (key : bytes) : bytes := default key (head (split_on 0 key)).
Definition forget_missing_devices (present : list bytes) (c : t) : t :=
  mk (ttl c) (filter (fun e => device_of e.1 ∈ present) (entries c)).

(** The body of [device_info], [package_info] and [list_packages]: [reading] is
    what the device answers when it is asked, stored at [later]. *)
Definition serve (now later : Z) (what key : bytes) (reading : result bytes bytes) (c : t) : result bus_error bytes * t :=
  match fresh now key c with
  | Some cached => (Ok cached, c)
  | None =>
      match reading with
      | Ok json => (Ok json, store later key json c)
      | Err e =>
          match stale key c with
          | Some cached => (Ok cached, c)
          | None => (Err (Failed_ (what ++ bs ": " ++ e)), c)
          end
      end
  end.

End TimedCache.

(** The three caches of the interface. *)
Record caches : Type := mkCaches {
  device_info_cache : TimedCache.t; package_info_cache : TimedCache.t; packages_cache : TimedCache.t }.

Definition DEVICE_INFO_TTL : Z := 15 * 10 ^ 9.
Definition PACKAGE_INFO_TTL : Z := 30 * 10 ^ 9.

(** [list_devices] *)
Definition list_devices (devices : list bytes) (c : caches) : list bytes * caches :=
  (devices, mkCaches (TimedCache.forget_missing devices (device_info_cache c))
     (TimedCache.forget_missing_devices devices (package_info_cache c)) (packages_cache c)).

Definition with_packages (f : TimedCache.t -> result bus_error bytes * TimedCache.t) (c : caches) : result bus_error bytes * caches :=
  let '(r, p) := f (packages_cache c) in (r, mkCaches (device_info_cache c) (package_info_cache c) p).

Definition device_info (now later : Z) (serial : bytes) (reading : result bytes bytes) (c : caches) : result bus_error bytes * caches :=
  let '(r, d) := TimedCache.serve now later (bs "device_info") serial reading (device_info_cache c) in
  (r, mkCaches d (package_info_cache c) (packages_cache c)).

Definition package_info (now later : Z) (device package : bytes) (reading : result bytes bytes) (c : caches) : result bus_error bytes * caches :=
  if bool_decide (device = [] \/ package = []) then (Err (InvalidArgs (bs "device and package are required")), c)
  else if negb (is_package_name package) then (Err (InvalidArgs (package ++ bs " does not look like a package name")), c)
  else
    let '(r, p) := TimedCache.serve now later (bs "package_info") (device ++ [0] ++ package) reading (package_info_cache c) in
    (r, mkCaches (device_info_cache c) p (packages_cache c)).

Definition list_packages (now later : Z) (device : bytes) (user : Z) (connected : bool) (reading : result bytes bytes) (c : caches)
    : result bus_error bytes * caches :=
  if bool_decide (device = []) then (Err (InvalidArgs (bs "device is required")), c)
  else if negb connected then (Err (ServiceUnknown (bs "device not connected")), c)
  else with_packages (TimedCache.serve now later (bs "list_packages") (device ++ [0] ++ fmt_dec user) reading) c.

(** ** The readings of a device *)

Definition find_map {A B} (f : A -> option B) (l : list A) : option B := head (omap f l).

Definition getprop_line (line : bytes) : option (bytes * bytes) :=
  match strip_pre (bs "[") (trim line) with
  | None => None
  | Some l =>
      match split_once (bs "]: [") l with
      | None => None
      | Some (k, v) => Some (k, default v (strip_suffix (bs "]") v))
      end
  end.
Definition parse_getprop (raw : bytes) : gmap bytes bytes :=
  foldl (fun m line => match getprop_line line with Some (k, v) => <[k := v]> m | None => m end) ∅ (lines raw).

Record DeviceInfoDto : Type := mkDto {
  serial : bytes; model : option bytes; transport : bytes; battery_pct : option Z; battery_health : option bytes;
  battery_temp_c : option Z; battery_voltage_mv : option Z; storage_used : option Z; storage_total : option Z; abi : option bytes;
  android_version : option bytes; api_level : option Z; display_width : option Z; display_height : option Z;
}.

Definition nonempty (o : option bytes) : option bytes := match o with Some [] => None | _ => o end.
Definition u32_of (s : bytes) : option Z := parse_dec (2 ^ 32 - 1) s.
(** [s.parse::<i32>()] *)
Definition i32_of (s : bytes) : option Z :=
  match s with
  | 45 :: d => match d with 43 :: _ => None | _ => Z.opp <$> parse_dec (2 ^ 31) d end
  | _ => parse_dec (2 ^ 31 - 1) s
  end.
Definition u64_of (s : bytes) : option Z := parse_dec (2 ^ 64 - 1) s.

Definition model_of (props : gmap bytes bytes) : option bytes :=
  let market := match nonempty (props !! bs "ro.product.marketname") with
    | Some m => if bool_decide (m = bs "UNRECOGNIZED") then None else Some m | None => None end in
  nonempty (match market with Some m => Some m | None => props !! bs "ro.product.model" end).

Definition battery_field (battery key : bytes) : option bytes :=
  find_map (fun line => match strip_pre key (trim line) with Some v => nonempty (Some (trim v)) | None => None end) (lines battery).

Definition display_size (raw : bytes) : option (Z * Z) :=
  find_map (fun line =>
    match strip_pre (bs "Physical size: ") (trim line) with
    | None => None
    | Some size =>
        match split_once (bs "x") (trim size) with
        | None => None
        | Some (w, h) =>
            match u32_of (trim w), u32_of (trim h) with Some w, Some h => Some (w, h) | _, _ => None end
        end
    end) (lines raw).

(** [k * 1024] wraps. *)
Definition storage (raw : bytes) : option (Z * Z) :=
  match find_map (fun l => nonempty (Some (trim l)) ≫= fun _ => Some l) (reverse (lines raw)) with
  | None => None
  | Some line =>
      match split_whitespace line with
      | _ :: total :: used :: _ =>
          match u64_of used, u64_of total with
          | Some u, Some t => Some (as_u64 (u * 1024), as_u64 (t * 1024))
          | _, _ => None
          end
      | _ => None
      end
  end.

(** The record [device_info_json] serialises from what four commands answer. *)
Definition device_dto (ser : bytes) (props_raw battery_raw df_raw wm_raw : result bytes bytes) : DeviceInfoDto :=
  let props := match props_raw with Ok raw => parse_getprop raw | Err _ => ∅ end in
  let battery := match battery_raw with Ok raw => raw | Err _ => [] end in
  let display := match wm_raw with Ok raw => display_size raw | Err _ => None end in
  let disk := match df_raw with Ok raw => storage raw | Err _ => None end in
  mkDto ser (model_of props) (if is_wireless_serial ser then bs "wifi" else bs "usb")
    (Z.min 100 <$> (battery_field battery (bs "level:") ≫= parse_dec 255))
    (match battery_field battery (bs "health:") with Some v => if bool_decide (v = bs "unknown") then None else Some v | None => None end)
    ((fun tenths => Z.quot tenths 10) <$> (battery_field battery (bs "temperature:") ≫= i32_of))
    (battery_field battery (bs "voltage:") ≫= u32_of)
    (fst <$> disk) (snd <$> disk) (nonempty (props !! bs "ro.product.cpu.abi"))
    (nonempty (props !! bs "ro.build.version.release")) (props !! bs "ro.build.version.sdk" ≫= u32_of)
    (fst <$> display) (snd <$> display).

Example device_dto_1 :
  device_dto (bs "10.0.0.2:5555") (Ok (bs "[ro.product.model]: [Pixel 9]" ++ [10] ++ bs "[ro.build.version.sdk]: [35]"))
    (Ok (bs "  level: 87" ++ [10] ++ bs "  temperature: -21" ++ [10])) (Err [])
    (Ok (bs "Physical size: 1080x2400"))
  = mkDto (bs "10.0.0.2:5555") (Some (bs "Pixel 9")) (bs "wifi") (Some 87) None (Some (-2)) None None None None None (Some 35)
      (Some 1080) (Some 2400).
Proof. vm_compute. reflexivity. Qed.

(** ** What the cache serves *)

Inductive cache_event : Type :=
| Serve (now later : Z) (key : bytes) (reading : result bytes bytes)
| ForgetKey (key : bytes)
| ForgetMissing (present : list bytes)
| ForgetMissingDevices (present : list bytes).

Definition cache_step (c : TimedCache.t) (e : cache_event) : TimedCache.t :=
  match e with
  | Serve now later key r => (TimedCache.serve now later [] key r c).2
  | ForgetKey k => TimedCache.forget k c
  | ForgetMissing p => TimedCache.forget_missing p c
  | ForgetMissingDevices p => TimedCache.forget_missing_devices p c
  end.
Definition cache_run (ttl : Z) (es : list cache_event) : TimedCache.t := foldl cache_step (TimedCache.new ttl) es.

(** [json] was read for [key] at [later] and not forgotten since. *)
Definition was_read (es : list cache_event) (key json : bytes) (later : Z) : Prop :=
  exists before now after, es = before ++ Serve now later key (Ok json) :: after
  /\ Forall (fun e => match e with
       | ForgetKey k => k <> key
       | ForgetMissing p => key ∈ p
       | ForgetMissingDevices p => TimedCache.device_of key ∈ p
       | _ => True end) after.

Lemma was_read_snoc es e key json when : was_read es key json when ->
  match e with
  | ForgetKey k => k <> key
  | ForgetMissing p => key ∈ p
  | ForgetMissingDevices p => TimedCache.device_of key ∈ p
  | _ => True end -> was_read (es ++ [e]) key json when.
Proof.
  intros (before & now & after & -> & Ha) He. exists before, now, (after ++ [e]).
  split; [by rewrite <- app_assoc|]. apply Forall_app. split; [done|]. by apply Forall_singleton.
Qed.

Lemma serve_entries now later what key r c : (TimedCache.serve now later what key r c).2 = c
  \/ exists json, r = Ok json /\ (TimedCache.serve now later what key r c).2 = TimedCache.store later key json c.
Proof.
  unfold TimedCache.serve. destruct (TimedCache.fresh now key c); [by left|].
  destruct r as [json|e]; [right; by exists json|]. destruct (TimedCache.stale key c); by left.
Qed.
Lemma cache_ttl ttl es : TimedCache.ttl (cache_run ttl es) = ttl.
Proof.
  induction es as [|e es IH] using rev_ind; [done|]. unfold cache_run in *. rewrite foldl_snoc.
  destruct e; cbn [cache_step]; try done. destruct (serve_entries now later [] key reading (foldl cache_step (TimedCache.new ttl) es)) as [-> | (j & _ & ->)]; done.
Qed.
Lemma cache_entries ttl es key when json :
  TimedCache.entries (cache_run ttl es) !! key = Some (when, json) -> was_read es key json when.
Proof.
  revert when json. induction es as [|e es IH] using rev_ind; intros when json; [by intros [=]|].
  unfold cache_run in *. rewrite foldl_snoc. set (c := foldl cache_step (TimedCache.new ttl) es) in *.
  destruct e as [now later k r|k|p|p]; cbn [cache_step].
  - destruct (serve_entries now later [] k r c) as [-> | (j & -> & ->)]; [intros H; by apply was_read_snoc; [apply IH|]|].
    cbn. intros [[<- [= <- <-]]|[Hne H]]%lookup_insert_Some; [|by apply was_read_snoc; [apply IH|]].
    by exists es, now, [].
  - cbn. intros [Hne H]%lookup_delete_Some. by apply was_read_snoc; [apply IH|].
  - cbn. intros [H Hp]%map_lookup_filter_Some. by apply was_read_snoc; [apply IH|].
  - cbn. intros [H Hp]%map_lookup_filter_Some. by apply was_read_snoc; [apply IH|].
Qed.

(** A served reading is what the device said about that key. Whatever was
    read, forgotten and pruned before, an answer is the reading just
    taken, or one taken for the same key, not forgotten since, that is either
    younger than the cache's lifetime or the best there is because the device did not
    answer now; an error means the device did not answer and nothing was
    kept. After [list_devices] no device or package reading of an
    absent device is left. *)
Theorem cache_honest (ttl : Z) (es : list cache_event) (now later : Z) (what key : bytes) (reading : result bytes bytes)
    (present : list bytes) (c : caches) :
  let kept := cache_run ttl es in
  match (TimedCache.serve now later what key reading kept).1 with
  | Ok v => reading = Ok v
      \/ exists when, was_read es key v when /\ (now - when < ttl \/ is_ok reading = false)
  | Err e => exists x, reading = Err x /\ e = Failed_ (what ++ bs ": " ++ x) /\ TimedCache.entries kept !! key = None
  end
  /\ (forall k, is_Some (TimedCache.entries (device_info_cache (list_devices present c).2) !! k) -> k ∈ present)
  /\ (forall k, is_Some (TimedCache.entries (package_info_cache (list_devices present c).2) !! k) -> TimedCache.device_of k ∈ present).
Proof.
  intros kept. split; [|split].
  - unfold TimedCache.serve, TimedCache.fresh, TimedCache.stale.
    destruct (TimedCache.entries kept !! key) as [[when json]|] eqn:E; [|by destruct reading; [left|eexists]].
    pose proof (cache_entries ttl es key when json E) as HR. unfold kept at 1. rewrite cache_ttl.
    case_bool; bool_to_prop; [right; exists when; by auto|]. destruct reading as [v|x]; [by left|]. cbn.
    right. exists when. by auto.
  - intros k [x Hx]. cbn in Hx. by apply map_lookup_filter_Some in Hx as [_ Hx].
  - intros k [x Hx]. cbn in Hx. by apply map_lookup_filter_Some in Hx as [_ Hx].
Qed.

(** [device_info_json] with the serializer as an argument: every command that
    fails only leaves its fields empty. *)
Definition device_info_json (to_json : DeviceInfoDto -> bytes) (ser : bytes) (props battery df wm : result bytes bytes)
    : result bytes bytes := Ok (to_json (device_dto ser props battery df wm)).
Definition empty_dto (ser : bytes) : DeviceInfoDto :=
  mkDto ser None (if is_wireless_serial ser then bs "wifi" else bs "usb") None None None None None None None None None None None.

(** A phone that answers nothing empties its own card: the reading does not
    fail, so the last good one is replaced instead of being served. *)
Theorem quiet_phone_is_blank (to_json : DeviceInfoDto -> bytes) (now later : Z) (ser e1 e2 e3 e4 : bytes) (c : caches) :
  TimedCache.fresh now ser (device_info_cache c) = None ->
  let x := device_info now later ser (device_info_json to_json ser (Err e1) (Err e2) (Err e3) (Err e4)) c in
  x.1 = Ok (to_json (empty_dto ser))
  /\ TimedCache.stale ser (device_info_cache x.2) = Some (to_json (empty_dto ser)).
Proof.
  intros H. unfold device_info, TimedCache.serve. rewrite H. cbn. split; [done|].
  unfold TimedCache.stale. cbn. by rewrite lookup_insert_eq.
Qed.

(** The inventories are kept for devices that have gone. *)
Lemma packages_never_forgotten present c : packages_cache (list_devices present c).2 = packages_cache c.
Proof. done. Qed.

(** ** Logcat *)

Definition LOGCAT_CAP : Z := 10000.
Record LogcatBuffer : Type := mkBuffer { blines : list (Z * bytes); bnext : Z }.
Definition empty_buffer : LogcatBuffer := mkBuffer [] 0.

(** [while lines.len() > LOGCAT_CAP { lines.pop_front(); }] *)
Fixpoint pop_excess (l : list (Z * bytes)) : list (Z * bytes) :=
  match l with
  | [] => []
  | x :: l' => if zlen l >? LOGCAT_CAP then pop_excess l' else l
  end.
Definition trim_newlines (s : bytes) : bytes :=
  reverse (drop_while (fun b => bool_decide (b ∈ [10; 13])) (reverse s)).
(** One line read from the child. *)
Definition logcat_line (line : bytes) (b : LogcatBuffer) : LogcatBuffer :=
  match trim_newlines line with
  | [] => b
  | text => mkBuffer (pop_excess (blines b ++ [(bnext b, text)])) (as_u64 (bnext b + 1))
  end.
(** [logcat_lines_json] on the buffer of a running stream: [next] and the lines. *)
Definition logcat_lines (since max : Z) (b : LogcatBuffer) : Z * list (Z * bytes) :=
  (bnext b, ztake (Z.max max 1) (filter (fun e => since <= e.1) (blines b))).

(** The texts of a log, numbered. *)
Definition texts (log : list bytes) : list bytes := filter (fun t => t <> []) (trim_newlines <$> log).
Fixpoint numbered (n : Z) (l : list bytes) : list (Z * bytes) :=
  match l with [] => [] | t :: l => (n, t) :: numbered (n + 1) l end.
Definition buffer_of (log : list bytes) : LogcatBuffer := foldl (fun b l => logcat_line l b) empty_buffer log.

Lemma pop_excess_drop l : pop_excess l = zdrop (zlen l - LOGCAT_CAP) l.
Proof.
  induction l as [|x l IH]; [done|]. cbn [pop_excess]. unfold LOGCAT_CAP in *. case_bool; bool_to_prop.
  - rewrite IH. rewrite zlen_cons in *. unfold zdrop.
    replace (Z.to_nat (1 + zlen l - 10000)) with (S (Z.to_nat (zlen l - 10000))) by lia. done.
  - unfold zdrop. by replace (Z.to_nat (zlen (x :: l) - 10000)) with O by lia.
Qed.
Lemma numbered_app n l k : numbered n (l ++ k) = numbered n l ++ numbered (n + zlen l) k.
Proof.
  revert n. induction l as [|t l IH]; intros n; simpl; [f_equal; unfold zlen; simpl; lia|]. rewrite IH, zlen_cons.
  do 3 f_equal. lia.
Qed.
Lemma numbered_len n l : zlen (numbered n l) = zlen l.
Proof. revert n. induction l as [|t l IH]; intros n; [done|]. cbn [numbered]. by rewrite !zlen_cons, IH. Qed.
Lemma zdrop_neg {A} (l : list A) n : n <= 0 -> zdrop n l = l.
Proof. intros H. unfold zdrop. by replace (Z.to_nat n) with O by lia. Qed.
Lemma zdrop_cons {A} (x : A) l n : 0 < n -> zdrop n (x :: l) = zdrop (n - 1) l.
Proof. intros H. unfold zdrop. by replace (Z.to_nat n) with (S (Z.to_nat (n - 1))) by lia. Qed.

Lemma numbered_since n l since : filter (fun e => since <= e.1) (numbered n l) = zdrop (since - n) (numbered n l).
Proof.
  revert n. induction l as [|t l IH]; intros n; [by unfold zdrop; destruct (Z.to_nat _)|]. cbn [numbered].
  destruct (decide (since <= n)).
  - rewrite filter_cons_True by done. rewrite IH, !zdrop_neg by lia. done.
  - rewrite filter_cons_False by (simpl; lia). rewrite IH, zdrop_cons by lia. f_equal. lia.
Qed.
Lemma numbered_drop n l k : 0 <= k -> zdrop k (numbered n l) = numbered (n + k) (zdrop k l).
Proof.
  revert n k. induction l as [|t l IH]; intros n k Hk; [by unfold zdrop; destruct (Z.to_nat _)|]. cbn [numbered].
  destruct (decide (k = 0)) as [->|]; [rewrite !zdrop_neg, Z.add_0_r by lia; done|].
  rewrite !zdrop_cons, IH by lia. f_equal. lia.
Qed.

Lemma texts_snoc log line : texts (log ++ [line]) = texts log ++ match trim_newlines line with [] => [] | t => [t] end.
Proof.
  unfold texts. rewrite fmap_app, filter_app. f_equal. simpl.
  destruct (trim_newlines line); [by rewrite filter_cons_False by auto|by rewrite filter_cons_True].
Qed.

(** The buffer is the end of the numbered log. *)
Lemma buffer_of_log log : zlen (texts log) < 2 ^ 64 ->
  buffer_of log = mkBuffer (zdrop (zlen (texts log) - LOGCAT_CAP) (numbered 0 (texts log))) (zlen (texts log)).
Proof.
  induction log as [|line log IH] using rev_ind; intros Hl; [done|]. unfold buffer_of in *. rewrite foldl_snoc.
  rewrite texts_snoc in *. set (b0 := foldl _ empty_buffer log) in *. unfold logcat_line. destruct (trim_newlines line) as [|b t] eqn:E.
  { rewrite app_nil_r in *. by apply IH. }
  set (T := texts log) in *. set (x := b :: t) in *. assert (HN : zlen (T ++ [x]) = zlen T + 1) by (by rewrite zlen_app).
  pose proof (zlen_nonneg T). rewrite HN in *. rewrite IH by lia. cbn [blines bnext].
  rewrite as_u64_id by lia. f_equal. rewrite pop_excess_drop, numbered_app.
  assert (HL : zlen (numbered 0 T) = zlen T) by apply numbered_len.
  change (0 + zlen T) with (zlen T). change (numbered (zlen T) [x]) with [(zlen T, x)].
  rewrite <- (zdrop_app_l (numbered 0 T)) by (unfold LOGCAT_CAP; lia).
  rewrite zlen_zdrop, zlen_app, HL. change (zlen [(zlen T, x)]) with 1. unfold LOGCAT_CAP.
  destruct (decide (zlen T < 10000)).
  - rewrite !zdrop_neg by lia. done.
  - rewrite zdrop_zdrop by lia. f_equal. lia.
Qed.

(** Where a poll begins: its cursor, or the oldest line kept. *)
Definition from_line (since n : Z) : Z := Z.max since (Z.max 0 (n - LOGCAT_CAP)).

Lemma logcat_lines_log log since max : zlen (texts log) < 2 ^ 64 -> 0 <= since ->
  logcat_lines since max (buffer_of log) =
    (zlen (texts log), ztake (Z.max max 1) (numbered (from_line since (zlen (texts log)))
       (zdrop (from_line since (zlen (texts log))) (texts log)))).
Proof.
  intros Hl Hs. unfold logcat_lines. rewrite buffer_of_log by done. cbn [blines bnext]. f_equal. f_equal.
  set (T := texts log). set (k := Z.max 0 (zlen T - LOGCAT_CAP)).
  replace (zdrop (zlen T - LOGCAT_CAP) (numbered 0 T)) with (zdrop k (numbered 0 T)).
  2:{ unfold k. destruct (decide (0 <= zlen T - LOGCAT_CAP)); [f_equal; lia|]. by rewrite !zdrop_neg by lia. }
  rewrite numbered_drop by lia. rewrite numbered_since. unfold from_line. fold k.
  destruct (decide (since <= k)).
  - rewrite zdrop_neg by lia. by rewrite Z.max_r.
  - rewrite numbered_drop, zdrop_zdrop by lia. rewrite Z.max_l by lia. f_equal; [lia|]. f_equal. lia.
Qed.
Lemma numbered_ge n l i t : (i, t) ∈ numbered n l -> n <= i.
Proof.
  revert n. induction l as [|x l IH]; intros n; cbn [numbered]; [by intros ?%elem_of_nil|].
  intros [[= -> ->]|H]%elem_of_cons; [lia|]. apply IH in H. lia.
Qed.

(** What a client that follows the cursor sees of a log. A poll returns
    the oldest lines it has not seen, in order and numbered as they came, as
    far as the last 10000 reach and at most [max] of them; when no
    more than [max] lines have come and none was pushed out, that is every
    line since the last poll. But the cursor it is given is the end of
    the log: when more than [max] lines were waiting, no later poll returns
    those that did not fit. *)
Theorem logcat_follow (log more : list bytes) (since max : Z) :
  zlen (texts (log ++ more)) < 2 ^ 64 -> 1 <= max -> 0 <= since <= zlen (texts log) ->
  let reply := logcat_lines since max (buffer_of log) in
  let n := zlen (texts log) in
  reply = (n, ztake max (numbered (from_line since n) (zdrop (from_line since n) (texts log))))
  /\ (n - since <= max -> n <= LOGCAT_CAP -> reply.2 = numbered since (zdrop since (texts log)))
  /\ (forall max' i t, i < n -> (i, t) ∉ (logcat_lines reply.1 max' (buffer_of (log ++ more))).2).
Proof.
  intros Hl Hm Hs reply n. assert (Hn : n <= zlen (texts (log ++ more))).
  { unfold n, texts. rewrite fmap_app, filter_app, zlen_app. pose proof (zlen_nonneg (filter (fun t => t <> []) (trim_newlines <$> more))). lia. }
  assert (E : reply = (n, ztake max (numbered (from_line since n) (zdrop (from_line since n) (texts log))))).
  { unfold reply. rewrite logcat_lines_log by lia. by rewrite (Z.max_l max 1) by lia. }
  split; [done|]. split.
  - intros H1 H2. rewrite E. cbn. unfold from_line. rewrite (Z.max_l since) by (unfold LOGCAT_CAP in *; lia).
    apply ztake_all. rewrite numbered_len, zlen_zdrop. lia.
  - intros max' i t Hi Hin. rewrite E in Hin. cbn [fst] in Hin. rewrite logcat_lines_log in Hin by lia. cbn [snd] in Hin.
    unfold ztake in Hin. apply elem_of_take in Hin as (j & Hin & _). apply list_elem_of_lookup_2, numbered_ge in Hin.
    unfold from_line in Hin. lia.
Qed.

Lemma logcat_follow_witness :
  (logcat_lines 0 2 (buffer_of [bs "a"; bs "b"; bs "c"])).2 = [(0, bs "a"); (1, bs "b")]
  /\ (forall max' t, (2, t) ∉ (logcat_lines 3 max' (buffer_of ([bs "a"; bs "b"; bs "c"] ++ [bs "d"]))).2).
Proof.
  destruct (logcat_follow [bs "a"; bs "b"; bs "c"] [bs "d"] 0 2) as (E & _ & H); [by vm_compute|lia|by vm_compute|].
  split; [exact (f_equal snd E)|]. intros max' t. apply (H max' 2 t). by vm_compute.
Defined.

(** ** The QR pairing session *)

Record QrState : Type := mkQr {
  session : QrSession; qr_state : bytes; guid : option bytes; connect_address : option bytes; qr_error : option bytes }.

(** [qr_pair_start] replaces the session and starts a task for it. The public
    key sent is the stored text without its final NUL. *)
Definition qr_pubkey (raw : bytes) : bytes :=
  from_utf8_lossy (if bool_decide (cut_nuls raw = []) then raw else cut_nuls raw).
Definition qr_pair_start (s : QrSession) (qr : option QrState) : option QrState :=
  Some (mkQr s (bs "waiting") None None None).

(** [set_state] of a task: it changes the session that is there. *)
Definition set_qr (f : QrState -> QrState) (qr : option QrState) : option QrState := f <$> qr.
Definition fail_qr (msg : bytes) : option QrState -> option QrState :=
  set_qr (fun q => mkQr (session q) (bs "failed") (guid q) (connect_address q) (Some msg)).

Definition NOT_SEEN : bytes :=
  bs "The phone did not appear. On the phone open Wireless debugging " ++ [0xE2; 0x86; 0x92]
  ++ bs " Pair with QR code, scan, and wait here.".

(** The steps of the task; [None] for the outcome of a blocking task that
    panicked. [true] goes on. *)
Definition after_discover (r : option (result Error ServiceEndpoint)) (qr : option QrState) : bool * option QrState :=
  match r with
  | Some (Ok _) => (true, set_qr (fun q => mkQr (session q) (bs "discovered") (guid q) (connect_address q) (qr_error q)) qr)
  | _ => (false, fail_qr NOT_SEEN qr)
  end.

(** The device's name in its [PeerInfo] of type 1. *)
Definition trim_nuls (s : bytes) : bytes := cut_nuls (drop_while (fun b => b =? 0) s).
Definition guid_of (peer_info : bytes) : option bytes :=
  match peer_info with 1 :: rest => Some (trim_nuls (from_utf8_lossy rest)) | _ => None end.

Definition after_pair (display : Error -> bytes) (r : option (result Error bytes)) (qr : option QrState) : option bytes * bool * option QrState :=
  match r with
  | Some (Ok info) =>
      (guid_of info, true, set_qr (fun q => mkQr (session q) (bs "paired") (guid_of info) (connect_address q) (qr_error q)) qr)
  | Some (Err e) =>
      let msg := match e with
        | CodeMismatch => bs "The phone refused the pairing. Start a new QR code and scan again."
        | other => bs "Pairing failed: " ++ display other end in
      (None, false, fail_qr msg qr)
  | None => (None, false, fail_qr (bs "Pairing was interrupted.") qr)
  end.

(** After the endpoint was looked for and [adb connect] run on it. *)
Definition after_connect (address : option bytes) (connected : bool) (qr : option QrState) : option QrState :=
  match address with
  | Some a => if connected then
      set_qr (fun q => mkQr (session q) (bs "connected") (guid q) (Some a) (qr_error q)) qr else qr
  | None => qr
  end.

(** The task of one session against the state it shares. *)
Definition qr_pair_run (display : Error -> bytes) (found : option (result Error ServiceEndpoint))
    (paired : option (result Error bytes)) (address : option bytes) (connected : bool) (qr : option QrState) : option QrState :=
  match after_discover found qr with
  | (false, qr) => qr
  | (true, qr) =>
      match after_pair display paired qr with
      | (_, false, qr) => qr
      | (None, true, qr) => qr
      | (Some _, true, qr) => after_connect address connected qr
      end
  end.

(** What a session shows is what happened, when it is the only one: failed
    exactly when the phone was not seen or refused, and connected only
    after a pairing whose device was found again. *)
Theorem qr_session_outcome (display : Error -> bytes) (s : QrSession) (found : option (result Error ServiceEndpoint))
    (paired : option (result Error bytes)) (address : option bytes) (connected : bool) (qr0 : option QrState) :
  exists q, qr_pair_run display found paired address connected (qr_pair_start s qr0) = Some q /\ session q = s
  /\ (qr_state q = bs "failed" <-> is_Some (qr_error q))
  /\ (qr_state q = bs "failed" <-> ~ (exists ep info, found = Some (Ok ep) /\ paired = Some (Ok info)))
  /\ (is_Some (connect_address q) -> qr_state q = bs "connected" /\ connected = true
      /\ exists info, paired = Some (Ok info) /\ is_Some (guid_of info)).
Proof.
  unfold qr_pair_run, qr_pair_start, after_discover.
  destruct found as [[ep|e]|].
  2,3: eexists; split; [done|]; split; [done|]; split; [done|]; split; [|by intros []]; split; [|done];
    intros _ (ep & info & H & _); discriminate.
  destruct paired as [[info|e]|]; cbn.
  2,3: eexists; split; [done|]; split; [done|]; split; [done|]; split; [|by intros []]; split; [|done];
    intros _ (ep' & info & _ & H); discriminate.
  destruct (guid_of info) as [g|] eqn:Eg; [destruct address as [a|]; [destruct connected|]|]; cbn;
    eexists; (split; [done|]); (split; [done|]); cbn; (split; [split; [done|by intros []]|]);
    (split; [split; [done|intros H; destruct H; by exists ep, info]|]); try (by intros []).
  intros _. split; [done|]. split; [done|]. exists info. by rewrite Eg.
Qed.

(** A task whose session was replaced reports on its successor: an old QR code
    that nobody scanned marks the new one failed. *)
Theorem old_session_fails_new (display : Error -> bytes) (new_one : QrSession) (qr0 : option QrState) (e : Error)
    (paired : option (result Error bytes)) (address : option bytes) (connected : bool) :
  exists q, qr_pair_run display (Some (Err e)) paired address connected (qr_pair_start new_one qr0) = Some q
  /\ session q = new_one /\ qr_state q = bs "failed" /\ qr_error q = Some NOT_SEEN.
Proof. by eexists. Qed.
