(* ===== verification/DaemonDispatch.v ===== *)
(** * The daemon's worker loop

    [adb-daemon/src/main.rs]: the task that waits for the queue's messages,
    takes jobs off it and starts a worker for each, or fails the job when its
    device has no client; and [MarkDoneOnDrop], which gives the slot back when
    the worker ends or panics. The steps of the loop, of the workers and of
    the callers of the queue interleave in any order, a step being what is
    done under one lock or the sending of one message. *)

From stdpp Require Import base list gmap strings.
From S2P Require Import Prelude Job Queue.

(** Where the loop is: in [recv], about to take a job, with a job [j] taken,
    or failing it: its state, its error, the two critical sections of
    [mark_done] and its message. *)
Inductive stage : Type :=
| Waiting | Draining | Got (j : Job) | NoClient (j : Job) | Marked (j : Job) | Errored (j : Job) | Leaving (j : Job) | Telling.

(** Where a worker is: at work, or in [mark_done], with its job out of
    [in_flight], or with its job in the history and its message not yet sent. *)
Inductive phase : Type := Working | Removed | Pushed.
#[global] Instance phase_eq : EqDecision phase.
Proof. solve_decision. Defined.

(** [taken]: the messages received. [workers]: the ids of the jobs with a
    worker. [clients]: the serials with a slot. [callers]: the callers of the
    queue that have changed its lists and not yet sent their message. *)
Record daemon := mkDaemon {
  engine : world;
  taken : Z;
  at_ : stage;
  workers : list (Z * phase);
  clients : gset bytes;
  callers : Z;
}.

Inductive action : Type :=
| Caller (e : event)
| Recv
| TryDispatch
| Lookup
| FailStep
| WorkerWrites (i : Z) (f : cell -> cell)
| WorkerEnds (i : Z)     (* it returns or panics: [mark_done] begins *)
| WorkerGone (i : Z)
| WorkerTold (i : Z)
| Plug (d : bytes)
| Unplug (d : bytes).

(** What the callers of the queue do; the rest is for the loop and the workers. *)
Definition is_caller (e : event) : bool :=
  match e with Dispatch | DoneRemove _ | DonePush _ | Send | Work _ _ => false | _ => true end.

Definition has_worker (i : Z) (p : phase) (d : daemon) : bool := bool_decide ((i, p) ∈ workers d).
Fixpoint drop_worker (x : Z * phase) (ws : list (Z * phase)) : list (Z * phase) :=
  match ws with
  | [] => []
  | y :: ws => if bool_decide (y = x) then ws else y :: drop_worker x ws
  end.

Definition on_engine (e : event) (st : stage) (d : daemon) : daemon :=
  mkDaemon (exec e (engine d)) (taken d) st (workers d) (clients d) (callers d).
(** A step of the [mark_done] of worker [i]. *)
Definition on_worker (e : event) (i : Z) (p : phase) (next : option phase) (d : daemon) : daemon :=
  if has_worker i p d then
    let ws := drop_worker (i, p) (workers d) in
    mkDaemon (exec e (engine d)) (taken d) (at_ d) (match next with Some p => (i, p) :: ws | None => ws end) (clients d) (callers d)
  else d.
Definition at_stage (st : stage) (d : daemon) : daemon :=
  mkDaemon (engine d) (taken d) st (workers d) (clients d) (callers d).

Definition step (a : action) (d : daemon) : daemon :=
  let q := queue (engine d) in
  match a with
  | Caller Send =>
      if 0 <? callers d then mkDaemon (exec Send (engine d)) (taken d) (at_ d) (workers d) (clients d) (callers d - 1) else d
  | Caller e =>
      if is_caller e then
        let w := exec e (engine d) in
        mkDaemon w (taken d) (at_ d) (workers d) (clients d) (callers d + (owed w - owed (engine d)))
      else d
  | Recv =>
      match at_ d with
      | Waiting =>
          if taken d <? notified q then mkDaemon (engine d) (taken d + 1) Draining (workers d) (clients d) (callers d) else d
      | _ => d
      end
  | TryDispatch =>
      match at_ d with
      | Draining =>
          match (try_dispatch q).1 with
          | Some job => on_engine Dispatch (Got job) d
          | None => at_stage Waiting d
          end
      | _ => d
      end
  | Lookup =>
      match at_ d with
      | Got job =>
          if bool_decide (default [] (device job) ∈ clients d)
          then mkDaemon (engine d) (taken d) Draining ((id job, Working) :: workers d) (clients d) (callers d)
          else at_stage (NoClient job) d
      | _ => d
      end
  | FailStep =>
      match at_ d with
      | NoClient job => on_engine (Work (id job) (set_state Failed)) (Marked job) d
      | Marked job => on_engine (Work (id job) (set_error (bs "device not connected"))) (Errored job) d
      | Errored job => on_engine (DoneRemove (id job)) (Leaving job) d
      | Leaving job => on_engine (DonePush (id job)) Telling d
      | Telling => on_engine Send Draining d
      | _ => d
      end
  | WorkerWrites i f => if has_worker i Working d then on_engine (Work i f) (at_ d) d else d
  | WorkerEnds i => on_worker (DoneRemove i) i Working (Some Removed) d
  | WorkerGone i => on_worker (DonePush i) i Removed (Some Pushed) d
  | WorkerTold i => on_worker Send i Pushed None d
  | Plug s => mkDaemon (engine d) (taken d) (at_ d) (workers d) (clients d ∪ {[s]}) (callers d)
  | Unplug s => mkDaemon (engine d) (taken d) (at_ d) (workers d) (clients d ∖ {[s]}) (callers d)
  end.

Definition boot (par : Z) : daemon := mkDaemon (start par) 0 Waiting [] ∅ 0.
Definition runs (par : Z) (acts : list action) : daemon := foldl (fun d a => step a d) (boot par) acts.

(** ** Who holds a slot *)

(** The job the loop itself holds, before and behind the removal; whether it owes a message. *)
Definition loop_flight (st : stage) : list Z :=
  match st with Got j | NoClient j | Marked j | Errored j => [id j] | _ => [] end.
Definition loop_leaving (st : stage) : list Z := match st with Leaving j => [id j] | _ => [] end.
Definition loop_owes (st : stage) : Z := match st with Telling => 1 | _ => 0 end.
Definition in_phase (p : phase) (ws : list (Z * phase)) : list Z :=
  omap (fun x => if bool_decide (x.2 = p) then Some x.1 else None) ws.
Arguments in_phase : simpl never.

Record owned (par n : Z) (d : daemon) : Prop := {
  o_queue : queue_inv par n (engine d);
  o_flight : ids (in_flight (queue (engine d))) ≡ₚ in_phase Working (workers d) ++ loop_flight (at_ d);
  o_leaving : ids (finishing (engine d)) ≡ₚ in_phase Removed (workers d) ++ loop_leaving (at_ d);
  o_callers : 0 <= callers d;
  o_owed : owed (engine d) = callers d + zlen (in_phase Pushed (workers d)) + loop_owes (at_ d);
  o_taken : taken d <= notified (queue (engine d));
  o_awake : at_ d = Waiting -> can_dispatch (queue (engine d)) = true -> taken d < wakeups (engine d);
}.

(** ** What the events do to the slots *)

Lemma exec_caller e w :
  is_caller e = true ->
  in_flight (queue (exec e w)) = in_flight (queue w) /\ finishing (exec e w) = finishing w
  /\ notified (queue (exec e w)) = notified (queue w) /\ owed w <= owed (exec e w).
Proof.
  destruct w as [q h fin re fo ow]. destruct e; try done; intros _; cbn [exec queue heap finishing requeueing forgotten owed].
  all: unfold cancel_job, on_found, retry_take, retry_push, retry_failed_for_lists, retry_failed_lists, retry_where, submit_push, with_device, set_heap, set_lists.
  all: repeat case_match; simplify_eq/=; split_and!; try done; try lia.
Qed.
Lemma exec_work i f w :
  in_flight (queue (exec (Work i f) w)) = in_flight (queue w) /\ finishing (exec (Work i f) w) = finishing w
  /\ notified (queue (exec (Work i f) w)) = notified (queue w) /\ owed (exec (Work i f) w) = owed w.
Proof. destruct w. cbn. by destruct (List.find _ _). Qed.
Lemma exec_dispatch w j :
  (try_dispatch (queue w)).1 = Some j ->
  in_flight (queue (exec Dispatch w)) = in_flight (queue w) ++ [j] /\ finishing (exec Dispatch w) = finishing w
  /\ notified (queue (exec Dispatch w)) = notified (queue w) /\ owed (exec Dispatch w) = owed w.
Proof. destruct w. cbn. unfold try_dispatch. repeat case_match; intros; simplify_eq/=; done. Qed.
Lemma exec_send w :
  0 < owed w ->
  in_flight (queue (exec Send w)) = in_flight (queue w) /\ finishing (exec Send w) = finishing w
  /\ notified (queue (exec Send w)) = notified (queue w) + 1 /\ owed (exec Send w) = owed w - 1.
Proof. intros H. destruct w. cbn in *. by rewrite (proj2 (Z.ltb_lt _ _)). Qed.

Lemma find_id i l : i ∈ ids l -> exists j, List.find (is_id i) l = Some j /\ id j = i.
Proof.
  intros (j & -> & Hj)%list_elem_of_fmap. destruct (List.find (is_id (id j)) l) as [k|] eqn:E.
  - exists k. split; [done|]. apply List.find_some in E as [_ E]. unfold is_id in E. by bool_to_prop.
  - apply list_elem_of_In in Hj. apply (List.find_none _ _ E) in Hj. unfold is_id in Hj. by rewrite Z.eqb_refl in Hj.
Qed.
Lemma exec_remove i w :
  NoDup (ids (in_flight (queue w))) -> i ∈ ids (in_flight (queue w)) ->
  ids (in_flight (queue w)) ≡ₚ i :: ids (in_flight (queue (exec (DoneRemove i) w)))
  /\ ids (finishing (exec (DoneRemove i) w)) = i :: ids (finishing w)
  /\ notified (queue (exec (DoneRemove i) w)) = notified (queue w) /\ owed (exec (DoneRemove i) w) = owed w.
Proof.
  intros Hnd (j & Hf & <-)%find_id. destruct w as [q h fin re fo ow]. cbn in *. rewrite Hf. cbn. split; [|done].
  destruct (filter_id_perm _ _ _ Hnd Hf) as [_ Hp]. unfold ids. by rewrite Hp at 1.
Qed.
Lemma take_first_id i l : i ∈ ids l -> exists j k, take_first (is_id i) l = Some (j, k) /\ id j = i.
Proof.
  induction l as [|a l IH]; [by intros ?%elem_of_nil|]. cbn [ids fmap list_fmap take_first].
  destruct (is_id i a) eqn:E; unfold is_id in E; bool_to_prop; [eauto|]. intros [->|Hi]%elem_of_cons; [done|].
  destruct (IH Hi) as (j & k & -> & Hj). eauto.
Qed.
Lemma exec_push i w :
  i ∈ ids (finishing w) ->
  in_flight (queue (exec (DonePush i) w)) = in_flight (queue w)
  /\ ids (finishing w) ≡ₚ i :: ids (finishing (exec (DonePush i) w))
  /\ notified (queue (exec (DonePush i) w)) = notified (queue w) /\ owed (exec (DonePush i) w) = owed w + 1.
Proof.
  intros (j & k & Ht & <-)%take_first_id. destruct w as [q h fin re fo ow]. cbn in *. rewrite Ht. cbn. split; [done|]. split; [|done].
  apply take_first_perm in Ht. unfold ids. by rewrite Ht.
Qed.

Lemma elem_of_in_phase p ws i : i ∈ in_phase p ws <-> (i, p) ∈ ws.
Proof.
  unfold in_phase. rewrite list_elem_of_omap. split.
  - intros ([k p'] & Hin & H). cbn in H. case_bool_decide; by simplify_eq.
  - intros H. exists (i, p). cbn. by rewrite bool_decide_eq_true_2.
Qed.
Lemma drop_worker_perm x ws : x ∈ ws -> ws ≡ₚ x :: drop_worker x ws.
Proof.
  induction ws as [|y ws IH]; intros Hx; [by apply elem_of_nil in Hx|]. cbn [drop_worker].
  case_bool_decide as E; [by rewrite E|]. apply elem_of_cons in Hx as [->|Hx]; [done|]. rewrite (IH Hx) at 1. apply Permutation_swap.
Qed.
#[local] Instance in_phase_proper p : Proper ((≡ₚ) ==> (≡ₚ)) (in_phase p).
Proof. intros ws ws' H. by apply omap_Permutation. Qed.
(** A worker taken out of the list leaves its phase and no other. *)
Lemma in_phase_same i p ws : (i, p) ∈ ws -> in_phase p ws ≡ₚ i :: in_phase p (drop_worker (i, p) ws).
Proof. intros Hx. rewrite (drop_worker_perm _ _ Hx) at 1. unfold in_phase. cbn. by rewrite bool_decide_eq_true_2. Qed.
Lemma in_phase_other i p p' ws : (i, p) ∈ ws -> p <> p' -> in_phase p' ws ≡ₚ in_phase p' (drop_worker (i, p) ws).
Proof. intros Hx Hp. rewrite (drop_worker_perm _ _ Hx) at 1. unfold in_phase. cbn. by rewrite bool_decide_eq_false_2. Qed.

(** ** The invariant *)

Definition submitted (a : action) : Z := match a with Caller e => if is_caller e then is_submit e else 0 | _ => 0 end.

Lemma stays_awake e t w :
  (can_dispatch (queue w) = true -> t < wakeups w) -> t <= notified (queue w) -> 0 <= owed w ->
  can_dispatch (queue (exec e w)) = true -> t < wakeups (exec e w).
Proof.
  intros Hw Ht Ho Hc. destruct (no_lost_wakeup e w) as [Hm Hn]. destruct (can_dispatch (queue w)) eqn:E; [specialize (Hw eq_refl); lia|].
  specialize (Hn eq_refl Hc). unfold wakeups in Hn at 1. pose proof (zlen_nonneg (finishing w)). lia.
Qed.

Section Steps.
Context (par n : Z) (d : daemon).
Hypothesis Hn : 0 <= n < 2 ^ 64 - 2.
Hypothesis Ho : owned par n d.

Lemma owed_nonneg : 0 <= owed (engine d).
Proof.
  rewrite (o_owed _ _ _ Ho). pose proof (o_callers _ _ _ Ho). pose proof (zlen_nonneg (in_phase Pushed (workers d))).
  destruct (at_ d); cbn; lia.
Qed.
Lemma exec_queue e : is_submit e = 0 -> queue_inv par n (exec e (engine d)).
Proof. intros He. pose proof (exec_inv par n e (engine d) (o_queue _ _ _ Ho) Hn) as H. by rewrite He, Z.add_0_r in H. Qed.
Lemma exec_awake e : at_ d = Waiting ->
  can_dispatch (queue (exec e (engine d))) = true -> taken d < wakeups (exec e (engine d)).
Proof. intros Hs. apply stays_awake; [by apply (o_awake _ _ _ Ho)|apply (o_taken _ _ _ Ho)|apply owed_nonneg]. Qed.

Lemma caller_owned e : is_caller e = true ->
  owned par (n + is_submit e)
    (mkDaemon (exec e (engine d)) (taken d) (at_ d) (workers d) (clients d) (callers d + (owed (exec e (engine d)) - owed (engine d)))).
Proof.
  intros He. destruct (exec_caller e (engine d) He) as (E1 & E2 & E3 & E4). pose proof (exec_awake e) as Hw.
  destruct Ho as [Hq Hf Hl Hc Hd Ht Ha].
  split; cbn [engine taken at_ workers callers]; [by apply exec_inv|by rewrite E1|by rewrite E2|lia|lia|lia|done].
Qed.
Lemma send_owned : 0 < callers d ->
  owned par n (mkDaemon (exec Send (engine d)) (taken d) (at_ d) (workers d) (clients d) (callers d - 1)).
Proof.
  intros Hpos. pose proof (exec_awake Send) as Hw. pose proof (exec_queue Send eq_refl) as Hq'.
  assert (0 < owed (engine d)) as Hod.
  { rewrite (o_owed _ _ _ Ho). pose proof (zlen_nonneg (in_phase Pushed (workers d))). destruct (at_ d); cbn; lia. }
  destruct (exec_send (engine d) Hod) as (E1 & E2 & E3 & E4). destruct Ho as [Hq Hf Hl Hc Hd Ht Ha].
  split; cbn [engine taken at_ workers callers]; [done|by rewrite E1|by rewrite E2|lia|lia|lia|done].
Qed.
Lemma recv_owned : owned par n (step Recv d).
Proof.
  unfold step. destruct (at_ d) eqn:E; try exact Ho. destruct (taken d <? _) eqn:Et; [|exact Ho]. bool_to_prop.
  destruct Ho as [Hq Hf Hl Hc Hd Ht Ha]. rewrite E in Hf, Hl, Hd. split; cbn; try done. lia.
Qed.
Lemma dispatch_owned : owned par n (step TryDispatch d).
Proof.
  unfold step. destruct (at_ d) eqn:E; try exact Ho. pose proof (exec_queue Dispatch eq_refl) as Hq'.
  destruct Ho as [Hq Hf Hl Hc Hd Ht Ha]. rewrite E in Hf, Hl, Hd. destruct ((try_dispatch (queue (engine d))).1) as [j|] eqn:Ej.
  - destruct (exec_dispatch _ _ Ej) as (E1 & E2 & E3 & E4). split; cbn [on_engine engine taken at_ workers callers]; [done| | |done| | |done].
    + rewrite E1, ids_app, Hf. cbn. by rewrite app_nil_r.
    + by rewrite E2.
    + rewrite E4, Hd. done.
    + by rewrite E3.
  - split; cbn; try done. intros _. unfold can_dispatch. by rewrite Ej.
Qed.
Lemma lookup_owned : owned par n (step Lookup d).
Proof.
  unfold step. destruct (at_ d) eqn:E; try exact Ho. destruct Ho as [Hq Hf Hl Hc Hd Ht Ha]. rewrite E in Hf, Hl, Hd.
  case_bool_decide; split; cbn in *; try done. rewrite Hf. by rewrite app_nil_r, Permutation_app_comm.
Qed.
Lemma work_owned i f st : loop_flight st = loop_flight (at_ d) -> loop_leaving st = loop_leaving (at_ d) -> loop_owes st = loop_owes (at_ d) ->
  (st = Waiting -> at_ d = Waiting) -> owned par n (on_engine (Work i f) st d).
Proof.
  intros Hst Hst' Hst2 Hw. pose proof (exec_queue (Work i f) eq_refl) as Hq'. pose proof (exec_awake (Work i f)) as Hwk.
  destruct (exec_work i f (engine d)) as (E1 & E2 & E3 & E4).
  destruct Ho as [Hq Hf Hl Hc Hd Ht Ha].
  split; cbn [on_engine engine taken at_ workers callers]; [done|by rewrite E1, Hst|by rewrite E2, Hst'|done|by rewrite E4, Hst2|by rewrite E3|auto].
Qed.
Lemma fail_owned : owned par n (step FailStep d).
Proof.
  unfold step. destruct (at_ d) as [| |j|j|j|j|j|] eqn:E; try exact Ho; try (apply work_owned; by rewrite ?E).
  - pose proof (exec_queue (DoneRemove (id j)) eq_refl) as Hq'. pose proof (inv_in_flight_nodup _ _ _ (o_queue _ _ _ Ho)) as Hnd.
    destruct Ho as [Hq Hf Hl Hc Hd Ht Ha]. rewrite E in Hf, Hl, Hd.
    destruct (exec_remove (id j) (engine d) Hnd) as (E1 & E2 & E3 & E4); [rewrite Hf; set_solver|].
    split; cbn [on_engine engine taken at_ workers callers loop_flight loop_leaving loop_owes] in *; [done| | |done|by rewrite E4|by rewrite E3|done].
    + rewrite app_nil_r. rewrite Hf in E1. rewrite (Permutation_app_comm _ [id j]) in E1. by apply Permutation_cons_inv in E1.
    + rewrite E2, Hl, app_nil_r. apply Permutation_cons_append.
  - pose proof (exec_queue (DonePush (id j)) eq_refl) as Hq'. destruct Ho as [Hq Hf Hl Hc Hd Ht Ha]. rewrite E in Hf, Hl, Hd.
    destruct (exec_push (id j) (engine d)) as (E1 & E2 & E3 & E4); [rewrite Hl; set_solver|].
    split; cbn [on_engine engine taken at_ workers callers loop_flight loop_leaving loop_owes] in *; [done|by rewrite E1| |done|lia|lia|done].
    rewrite app_nil_r. rewrite Hl in E2. rewrite (Permutation_app_comm _ [id j]) in E2. by apply Permutation_cons_inv in E2.
  - pose proof (exec_queue Send eq_refl) as Hq'.
    assert (0 < owed (engine d)) as Hod.
    { rewrite (o_owed _ _ _ Ho), E. pose proof (zlen_nonneg (in_phase Pushed (workers d))). pose proof (o_callers _ _ _ Ho). cbn. lia. }
    destruct (exec_send (engine d) Hod) as (E1 & E2 & E3 & E4). destruct Ho as [Hq Hf Hl Hc Hd Ht Ha]. rewrite E in Hf, Hl, Hd.
    split; cbn [on_engine engine taken at_ workers callers loop_flight loop_leaving loop_owes] in *; [done|by rewrite E1|by rewrite E2|done|lia|lia|done].
Qed.
Lemma ends_owned i : owned par n (step (WorkerEnds i) d).
Proof.
  cbn [step]. unfold on_worker, has_worker. case_bool_decide as Hi; [|exact Ho]. pose proof (exec_queue (DoneRemove i) eq_refl) as Hq'.
  pose proof (inv_in_flight_nodup _ _ _ (o_queue _ _ _ Ho)) as Hnd. pose proof (exec_awake (DoneRemove i)) as Hwk.
  pose proof (in_phase_same _ _ _ Hi) as D1. pose proof (in_phase_other _ _ Removed _ Hi ltac:(done)) as D2.
  pose proof (zlen_perm _ _ (in_phase_other _ _ Pushed _ Hi ltac:(done))) as D3.
  destruct Ho as [Hq Hf Hl Hc Hd Ht Ha].
  destruct (exec_remove i (engine d) Hnd) as (E1 & E2 & E3 & E4); [rewrite Hf; apply elem_of_app; left; by apply elem_of_in_phase|].
  split; cbn [engine taken at_ workers callers].
  - done.
  - rewrite Hf, D1 in E1. by apply Permutation_cons_inv in E1.
  - change (in_phase Removed ((i, Removed) :: ?l)) with (i :: in_phase Removed l). by rewrite E2, Hl, D2.
  - done.
  - change (in_phase Pushed ((i, Removed) :: ?l)) with (in_phase Pushed l). by rewrite E4, Hd, D3.
  - by rewrite E3.
  - done.
Qed.
Lemma gone_owned i : owned par n (step (WorkerGone i) d).
Proof.
  cbn [step]. unfold on_worker, has_worker. case_bool_decide as Hi; [|exact Ho]. pose proof (exec_queue (DonePush i) eq_refl) as Hq'.
  pose proof (exec_awake (DonePush i)) as Hwk.
  pose proof (in_phase_other _ _ Working _ Hi ltac:(done)) as D1. pose proof (in_phase_same _ _ _ Hi) as D2.
  pose proof (zlen_perm _ _ (in_phase_other _ _ Pushed _ Hi ltac:(done))) as D3.
  destruct Ho as [Hq Hf Hl Hc Hd Ht Ha].
  destruct (exec_push i (engine d)) as (E1 & E2 & E3 & E4); [rewrite Hl; apply elem_of_app; left; by apply elem_of_in_phase|].
  split; cbn [engine taken at_ workers callers].
  - done.
  - change (in_phase Working ((i, Pushed) :: ?l)) with (in_phase Working l). by rewrite E1, Hf, D1.
  - change (in_phase Removed ((i, Pushed) :: ?l)) with (in_phase Removed l). rewrite Hl, D2 in E2. by apply Permutation_cons_inv in E2.
  - done.
  - change (in_phase Pushed ((i, Pushed) :: ?l)) with (i :: in_phase Pushed l). rewrite zlen_cons, E4, Hd, D3. lia.
  - by rewrite E3.
  - done.
Qed.
Lemma told_owned i : owned par n (step (WorkerTold i) d).
Proof.
  cbn [step]. unfold on_worker, has_worker. case_bool_decide as Hi; [|exact Ho]. pose proof (exec_queue Send eq_refl) as Hq'.
  pose proof (exec_awake Send) as Hwk.
  pose proof (in_phase_other _ _ Working _ Hi ltac:(done)) as D1. pose proof (in_phase_other _ _ Removed _ Hi ltac:(done)) as D2.
  pose proof (zlen_perm _ _ (in_phase_same _ _ _ Hi)) as D3. rewrite zlen_cons in D3.
  pose proof (zlen_nonneg (in_phase Pushed (drop_worker (i, Pushed) (workers d)))) as Hz.
  destruct Ho as [Hq Hf Hl Hc Hd Ht Ha].
  destruct (exec_send (engine d)) as (E1 & E2 & E3 & E4); [rewrite Hd, D3; destruct (at_ d); cbn; lia|].
  split; cbn [engine taken at_ workers callers]; [done|by rewrite E1, Hf, D1|by rewrite E2, Hl, D2|done|lia|lia|done].
Qed.

Lemma step_owned a : owned par (n + submitted a) (step a d).
Proof.
  destruct a as [e| | | | |i f|i|i|i|s|s]; cbn [submitted]; rewrite ?Z.add_0_r.
  - destruct (is_caller e) eqn:E; [pose proof (caller_owned e E) as H; by destruct e|]. rewrite Z.add_0_r.
    destruct e; try done. cbn [step]. destruct (0 <? callers d) eqn:Ec; [|exact Ho]. bool_to_prop. by apply send_owned.
  - apply recv_owned.
  - apply dispatch_owned.
  - apply lookup_owned.
  - apply fail_owned.
  - cbn [step]. destruct (has_worker i Working d); [by apply work_owned|exact Ho].
  - apply ends_owned.
  - apply gone_owned.
  - apply told_owned.
  - destruct Ho. by split.
  - destruct Ho. by split.
Qed.

End Steps.

Lemma boot_owned par : owned par 0 (boot par).
Proof. split; [apply start_inv|done|done|done|done|done|]. intros _ Hc. by apply can_dispatch_spec in Hc as [_ []]. Qed.

Lemma submitted_bound a : 0 <= submitted a <= 1.
Proof. destruct a as [e| | | | | | | | | |]; cbn; try lia. destruct (is_caller e); [|lia]. destruct e; cbn; lia. Qed.

Lemma runs_from par acts : forall n d, owned par n d -> 0 <= n -> n + zlen acts < 2 ^ 64 - 2 ->
  exists n', owned par n' (foldl (fun d a => step a d) d acts).
Proof.
  induction acts as [|a acts IH]; intros n d Ho Hn Hl; cbn [foldl]; [eauto|]. rewrite zlen_cons in Hl.
  pose proof (zlen_nonneg acts). pose proof (submitted_bound a).
  apply (IH (n + submitted a)); [|lia..]. apply step_owned; [lia|done].
Qed.

(** A task that is about to send the message the loop sleeps for: a worker behind its
    slot or a caller of the queue. *)
Definition will_tell (d : daemon) (a : action) : Prop :=
  (exists i, a = WorkerTold i /\ (i, Pushed) ∈ workers d) \/ (a = Caller Send /\ 0 < callers d).

Lemma told_wakes par n d a : owned par n d -> at_ d = Waiting -> will_tell d a -> at_ (step Recv (step a d)) = Draining.
Proof.
  intros Ho Hw Ha. pose proof (o_owed _ _ _ Ho) as Hd. rewrite Hw in Hd. cbn in Hd.
  pose proof (o_callers _ _ _ Ho) as Hc. pose proof (zlen_nonneg (in_phase Pushed (workers d))) as Hz.
  pose proof (o_taken _ _ _ Ho) as Ht.
  destruct Ha as [(i & -> & Hi)|[-> Hpos]].
  - assert (0 < owed (engine d)) as Hod.
    { assert (i ∈ in_phase Pushed (workers d)) as Hin by (by apply elem_of_in_phase).
      destruct (in_phase Pushed (workers d)); [by apply elem_of_nil in Hin|]. rewrite zlen_cons in Hd.
      pose proof (zlen_nonneg l). lia. }
    destruct (exec_send (engine d) Hod) as (_ & _ & E3 & _).
    cbn [step]. unfold on_worker, has_worker. rewrite bool_decide_eq_true_2 by done. cbn [at_ engine taken]. rewrite Hw, E3.
    rewrite (proj2 (Z.ltb_lt _ _)) by lia. done.
  - destruct (exec_send (engine d)) as (_ & _ & E3 & _); [lia|].
    cbn [step]. rewrite (proj2 (Z.ltb_lt _ _)) by lia. cbn [at_ engine taken]. rewrite Hw, E3.
    rewrite (proj2 (Z.ltb_lt _ _)) by lia. done.
Qed.

(** C19: No job is stranded, whatever the order of the loop, the workers, the
    callers of the queue and the phones, where a change of the lists and the message
    about it are two steps: every slot of the queue is held by
    exactly one worker or by the loop itself, also when workers panic; and
    while the loop sleeps with no message left and a job is queued, all slots
    are taken, or a worker is just giving one back or a caller has just queued a job, and has its message still to send;
    this message wakes the loop. So with no worker left and no message to be sent nothing is queued or in
    flight. *)
Theorem no_job_stranded par acts :
  0 < par -> zlen acts < 2 ^ 64 - 2 ->
  let d := runs par acts in let q := queue (engine d) in
  ids (in_flight q) ≡ₚ in_phase Working (workers d) ++ loop_flight (at_ d)
  /\ ids (finishing (engine d)) ≡ₚ in_phase Removed (workers d) ++ loop_leaving (at_ d)
  /\ (at_ d = Waiting -> taken d = notified q ->
      (pending q <> [] -> par <= zlen (in_flight q) \/ (exists i, (i, Removed) ∈ workers d) \/ exists a, will_tell d a)
      /\ (forall a, will_tell d a -> at_ (step Recv (step a d)) = Draining)
      /\ (workers d = [] -> callers d = 0 -> pending q = [] /\ in_flight q = [] /\ finishing (engine d) = [])).
Proof.
  intros Hpar Hl d q. destruct (runs_from par acts 0 (boot par) (boot_owned par) ltac:(lia) ltac:(lia)) as [n Ho].
  change (owned par n d) in Ho. pose proof (b_par _ _ (qi_bounds _ _ _ (o_queue _ _ _ Ho))) as Hp. fold q in Hp.
  pose proof (fun a Hw => told_wakes par n d a Ho Hw) as Hwake.
  destruct Ho as [Hq Hf Hlv Hcl Hod Ht Ha]. fold q in Hf, Ht, Ha. split; [done|]. split; [done|].
  intros Hw Hm. rewrite Hw in Hf, Hlv, Hod. cbn in Hf, Hlv, Hod. rewrite app_nil_r in Hf, Hlv. specialize (Ha Hw).
  assert (Hmain : pending q <> [] -> par <= zlen (in_flight q) \/ (exists i, (i, Removed) ∈ workers d) \/ exists a, will_tell d a).
  { intros Hpend. destruct (Z.le_gt_cases par (zlen (in_flight q))) as [|Hlt]; [by left|right].
    assert (Hc : can_dispatch q = true) by (apply can_dispatch_spec; rewrite Hp; done).
    specialize (Ha Hc). unfold wakeups in Ha. fold q in Ha. destruct (finishing (engine d)) as [|j fin] eqn:E.
    - right. change (zlen (@nil Job)) with 0 in Ha. rewrite Hod in Ha. destruct (in_phase Pushed (workers d)) as [|i l] eqn:Ep.
      + exists (Caller Send). right. rewrite zlen_nil in Ha. split; [done|lia].
      + exists (WorkerTold i). left. exists i. split; [done|]. apply elem_of_in_phase. rewrite Ep. by left.
    - left. exists (id j). apply elem_of_in_phase. rewrite <- Hlv. by left. }
  split; [done|]. split; [auto|]. intros Hnone Hc0. rewrite Hnone in Hf, Hlv. cbn in Hf, Hlv.
  apply Permutation_nil_r in Hf, Hlv. apply fmap_nil_inv in Hf, Hlv. split; [|done].
  destruct (decide (pending q = [])) as [|Hne]; [done|]. destruct (Hmain Hne) as [Hge|[[i Hi]|[a [(i & _ & Hi)|[_ Hpos]]]]].
  - rewrite Hf in Hge. unfold zlen in Hge. cbn in Hge. lia.
  - rewrite Hnone in Hi. by apply elem_of_nil in Hi.
  - rewrite Hnone in Hi. by apply elem_of_nil in Hi.
  - lia.
Qed.

(** Two jobs on one slot: the worker of the first panics after its phone has
    gone, and the second fails for want of a client. *)
Definition panicking : list action :=
  [Plug (bs "A"); Caller (Submit Pull (bs "/a") (bs "/b") default_options (Some (bs "A")));
   Caller (Submit Pull (bs "/c") (bs "/d") default_options (Some (bs "A"))); Caller Send; Caller Send; Recv; TryDispatch; Lookup; TryDispatch;
   Unplug (bs "A"); Recv; TryDispatch; WorkerEnds 1; WorkerGone 1; WorkerTold 1; Recv; TryDispatch; Lookup;
   FailStep; FailStep; FailStep; FailStep; FailStep; TryDispatch; Recv; TryDispatch].
Example second_job_fails :
  let d := runs 1 panicking in
  ids (completed (queue (engine d))) = [1; 2] /\ at_ d = Waiting /\ workers d = [] /\ in_flight (queue (engine d)) = []
  /\ (fun j => (state (cell_of (heap (engine d)) j), error (cell_of (heap (engine d)) j))) <$> completed (queue (engine d))
     = [(Pending, None); (Failed, Some (bs "device not connected"))].
Proof. vm_compute. done. Qed.

(** A worker that panics leaves its job in the history as running, where
    neither retrying it nor retrying all that failed finds it. *)
Example panicked_job_stays_running :
  let d := runs 1 ([Plug (bs "A"); Caller (Submit Pull (bs "/a") (bs "/b") default_options (Some (bs "A"))); Caller Send; Recv; TryDispatch; Lookup;
    WorkerWrites 1 (set_state Running); WorkerEnds 1; WorkerGone 1; WorkerTold 1; Caller RetryFailed; Caller (RetryTake 1)]) in
  ids (completed (queue (engine d))) = [1] /\ pending (queue (engine d)) = [] /\ requeueing (engine d) = []
  /\ state <$> (cell_of (heap (engine d)) <$> completed (queue (engine d))) = [Running].
Proof. vm_compute. done. Qed.

Lemma no_job_stranded_witness :
  pending (queue (engine (runs 1 panicking))) = [] /\ in_flight (queue (engine (runs 1 panicking))) = [].
Proof.
  destruct (no_job_stranded 1 panicking) as (_ & _ & H); [lia|vm_compute; reflexivity|].
  destruct H as (_ & _ & H); [vm_compute; reflexivity|vm_compute; reflexivity|].
  destruct H as (H1 & H2 & _); [vm_compute; reflexivity|vm_compute; reflexivity|]. exact (conj H1 H2).
Defined.
