(* ===== verification/DaemonDevices.v ===== *)
(** * The life of a device in the daemon

    [adb-daemon/src/main.rs]: what the watcher's events make the daemon do:
    push and start the proxy, forward a port to it, check it, mount it, and
    take all of this back. A task is a [prog]: a tree of commands to the
    outside (adb, the disk, the proxy, the shared state) with a branch for
    every answer. Log lines and sleeps are left out. *)

From stdpp Require Import base gmap list strings.
From S2P Require Import Prelude RustStd Text Watcher ProxyClient DaemonInput.

(** ** Commands *)

(** The exit status of a child, with how it is shown. *)
Record status := mkStatus { success : bool; shown : bytes }.

Definition PROXY_BIN_PATH : bytes := bs "/data/local/tmp/adbshare-proxy".
Definition DEFAULT_PROXY_PORT : Z := 31337.

(** A connected client, by name. *)
Definition client := Z.

Record DeviceSlot := mkSlot { mountpoint : option bytes; slot_client : client; host_port : Z }.

(** The calls of [adb_run], and their arguments. *)
Inductive adb_call :=
| Push (device src : bytes) | Chmod (device : bytes) | Forward (device : bytes) (port : Z)
| Unforward (device : bytes) (port : Z) | Pkill (device : bytes).

Definition tcp (port : Z) : bytes := bs "tcp:" ++ fmt_dec port.
Definition argv (c : adb_call) : list bytes :=
  match c with
  | Push d src => [bs "-s"; d; bs "push"; src; PROXY_BIN_PATH]
  | Chmod d => [bs "-s"; d; bs "shell"; bs "chmod"; bs "755"; PROXY_BIN_PATH]
  | Forward d p => [bs "-s"; d; bs "forward"; tcp p; tcp DEFAULT_PROXY_PORT]
  | Unforward d p => [bs "-s"; d; bs "forward"; bs "--remove"; tcp p]
  | Pkill d => [bs "-s"; d; bs "shell"; bs "pkill"; bs "-f"; PROXY_BIN_PATH]
  end.

(** A command and the type of its answers. [option] around the answer of a
    call with a time limit: [None] when it ran out. *)
Inductive cmd : Type -> Type :=
| Adb (c : adb_call) : cmd (result bytes status)
| AdbOutput (args : list bytes) : cmd (option bytes)
| AdbShell (device command : bytes) : cmd (result bytes bytes)
| Launch (device command : bytes) : cmd (option unit)
| EnvProxyBin : cmd (option bytes)
| EnvPath : cmd (option bytes)
| CurrentExe : cmd (option bytes)
| Exists (path : bytes) : cmd bool
| IsFile (path : bytes) : cmd bool
| ReadFile (path : bytes) : cmd (option bytes)
| BindEphemeral : cmd (result bytes Z)
| Connect (addr : bytes) (conns : Z) : cmd (option (result ProxyError client))
| StatRoot (c : client) : cmd (option (result ProxyError unit))
| SpawnFuse (device : bytes) (c : client) (mp : bytes) : cmd (result bytes unit)
| CreateDirAll (path : bytes) : cmd bool
| Fusermount (path : bytes) : cmd unit
| UmountLazy (path : bytes) : cmd unit
| FindSlot (device : bytes) : cmd (option DeviceSlot)
| RemoveSlot (device : bytes) : cmd (option DeviceSlot)
| InsertSlot (device : bytes) (s : DeviceSlot) : cmd unit
| TakeSlots : cmd (list (bytes * DeviceSlot))
| RetryFailedFor (device : bytes) : cmd Z
| StopLogcat (device : bytes) : cmd unit.

Inductive prog (A : Type) : Type :=
| Ret (a : A)
| Do (R : Type) (c : cmd R) (k : R -> prog A).
Arguments Ret {A} a.
Arguments Do {A R} c k.

Definition do {R} (c : cmd R) : prog R := Do c Ret.
Global Instance prog_ret : MRet prog := fun A => Ret.
Global Instance prog_bind : MBind prog :=
  fun A B f => fix go m := match m with Ret a => f a | Do c k => Do c (fun r => go (k r)) end.

(** ** Finding the proxy binary *)

(** [None] when the file cannot be read. *)
Definition is_x86 (file : option bytes) : bool :=
  match file with
  | Some b =>
      (20 <=? zlen b) && bool_decide (ztake 4 b = [0x7f; 0x45; 0x4c; 0x46])
      && let machine := le_val (ztake 2 (zdrop 18 b)) in (machine =? 0x3E) || (machine =? 0x03)
  | None => false
  end.
Definition is_x86_binary (path : bytes) : prog bool := b ← do (ReadFile path); mret (is_x86 b).

Fixpoint which_in (dirs : list bytes) (name : bytes) : prog (option bytes) :=
  match dirs with
  | [] => mret None
  | d :: dirs => found ← do (IsFile (path_join d name)); if (found : bool) then mret (Some (path_join d name)) else which_in dirs name
  end.
Definition which_ (name : bytes) : prog (option bytes) :=
  path ← do EnvPath;
  match path with Some p => which_in (split_on 58 p) name | None => mret None end.

Fixpoint first_candidate (is_arm : bool) (cs : list bytes) : prog (option bytes) :=
  match cs with
  | [] => mret None
  | c :: cs =>
      there ← do (Exists c);
      if (there : bool) then
        if is_arm then x86 ← is_x86_binary c; if (x86 : bool) then first_candidate is_arm cs else mret (Some c)
        else mret (Some c)
      else first_candidate is_arm cs
  end.

Definition candidates (is_arm : bool) (exe_dir : bytes) : list bytes :=
  (if is_arm then
     [bs "target/aarch64-unknown-linux-musl/release/adbshare-proxy"; bs "target/aarch64-linux-android/release/adbshare-proxy";
      path_join exe_dir (bs "../aarch64-unknown-linux-musl/release/adbshare-proxy");
      path_join exe_dir (bs "../aarch64-linux-android/release/adbshare-proxy")]
   else [])
  ++ [bs "/usr/lib/adbshare/adbshare-proxy"; bs "/app/bin/adbshare-proxy"; path_join exe_dir (bs "adbshare-proxy");
      bs "target/release/adbshare-proxy"; bs "target/debug/adbshare-proxy"].

Definition not_found (abi : bytes) : bytes :=
  bs "adbshare-proxy binary not found for device ABI '" ++ abi
  ++ bs "'. Build with `cargo build --release --target aarch64-unknown-linux-musl --bin adbshare-proxy` or set ADBSHARE_PROXY_BIN.".

Definition locate_by_abi (device : bytes) : prog (result bytes bytes) :=
  out ← do (AdbOutput [bs "-s"; device; bs "shell"; bs "getprop"; bs "ro.product.cpu.abi"]);
  let text := match out with Some o => if utf8_valid o then o else [] | None => [] end in
  let abi := trim text in
  let is_arm := contains (bs "arm") abi || contains (bs "aarch64") abi in
  exe ← do CurrentExe;
  let exe_dir := default (bs ".") (parent (default [] exe)) in
  found ← first_candidate is_arm (candidates is_arm exe_dir);
  match found with
  | Some c => mret (Ok c)
  | None =>
      on_path ← which_ (bs "adbshare-proxy");
      match on_path with
      | Some p =>
          if is_arm then x86 ← is_x86_binary p; mret (if (x86 : bool) then Err (not_found abi) else Ok p)
          else mret (Ok p)
      | None => mret (Err (not_found abi))
      end
  end.

Definition locate_proxy_binary (device : bytes) : prog (result bytes bytes) :=
  env ← do EnvProxyBin;
  match env with
  | Some p => there ← do (Exists p); if (there : bool) then mret (Ok p) else locate_by_abi device
  | None => locate_by_abi device
  end.

(** ** Setting a device up *)

(** [format!("{x}")] of the errors of [anyhow], which carry their text. *)
Definition push_failed (e : bytes) : bytes := bs "adb push failed: " ++ e.
Definition forward_failed (st : status) : bytes := bs "adb forward failed: " ++ shown st.

(** The rounds of the push loop, [attempt] counting up to 15: the last status
    and the last error. *)
Fixpoint push_tries (rounds : nat) (attempt : Z) (device src : bytes)
    (st : option status) (err : option bytes) : prog (option status * option bytes) :=
  match rounds with
  | O => mret (st, err)
  | S rounds =>
      r ← do (Adb (Push device src));
      match r with
      | Ok s => if success s then mret (Some s, None) else push_tries rounds (attempt + 1) device src (Some s) err
      | Err e => if 2 <=? attempt then mret (st, Some e) else push_tries rounds (attempt + 1) device src st (Some e)
      end
  end.

Definition allocate_host_port : prog (result bytes Z) := do BindEphemeral.

Definition teardown_device (serial : bytes) (port : Z) : prog unit :=
  _ ← do (AdbShell serial (bs "pkill -f " ++ PROXY_BIN_PATH));
  _ ← do (Adb (Unforward serial port));
  mret tt.

Definition host_addr (port : Z) : bytes := bs "127.0.0.1:" ++ fmt_dec port.

Definition proxy_cmd : bytes :=
  bs "setsid sh -c '" ++ PROXY_BIN_PATH ++ bs " " ++ fmt_dec DEFAULT_PROXY_PORT
  ++ bs " >/data/local/tmp/adbshare-proxy.log 2>&1 &' </dev/null".

(** One look at the proxy: [attempt_err]. *)
Definition attempt (addr : bytes) : prog (option bytes) :=
  c ← do (Connect addr 1);
  match c with
  | Some (Ok c) =>
      st ← do (StatRoot c);
      mret (match st with
            | Some (Ok _) => None
            | Some (Err e) => Some (display e)
            | None => Some (bs "proxy stat timed out")
            end)
  | Some (Err e) => mret (Some (display e))
  | None => mret (Some (bs "proxy connect timed out"))
  end.

(** The last error of at most [rounds] looks, the earlier one being [err]. *)
Fixpoint probe_loop (rounds : nat) (addr : bytes) (err : option bytes) : prog (option bytes) :=
  match rounds with
  | O => mret err
  | S rounds =>
      e ← attempt addr;
      match e with None => mret None | Some e => probe_loop rounds addr (Some e) end
  end.

Definition never_came_up (e log : bytes) : bytes :=
  bs "proxy never came up: " ++ e ++ bs ". Device log: " ++ log.

Definition finish_setup (device : bytes) (mp : option bytes) (proxy_conns port : Z)
    : prog (result bytes (client * Z)) :=
  let addr := host_addr port in
  _ ← do (Adb (Pkill device));
  _ ← do (Launch device proxy_cmd);
  last_err ← probe_loop 25 addr None;
  match last_err with
  | Some e =>
      out ← do (AdbOutput [bs "-s"; device; bs "shell"; bs "cat"; bs "/data/local/tmp/adbshare-proxy.log"]);
      mret (Err (never_came_up e (match out with Some o => if utf8_valid o then o else [] | None => [] end)))
  | None =>
      c ← do (Connect addr proxy_conns);
      match c with
      | None => mret (Err (bs "proxy connect timed out"))
      | Some (Err e) => mret (Err (display e))
      | Some (Ok c) =>
          match mp with
          | None => mret (Ok (c, port))
          | Some mp =>
              t ← do (SpawnFuse device c mp);
              match t with Ok _ => mret (Ok (c, port)) | Err e => mret (Err e) end
          end
      end
  end.

(** [None]: the [expect] on the push status panics. *)
Definition setup (device : bytes) (mp : option bytes) (proxy_conns : Z)
    : prog (option (result bytes (client * Z))) :=
  src ← locate_proxy_binary device;
  match src with
  | Err e => mret (Some (Err e))
  | Ok src =>
      pushed ← push_tries 15 0 device src None None;
      match pushed with
      | (_, Some e) => mret (Some (Err (push_failed e)))
      | (None, None) => mret None
      | (Some st, None) =>
          if negb (success st) then mret (Some (Err (push_failed (shown st)))) else
          _ ← do (Adb (Chmod device));
          port ← allocate_host_port;
          match port with
          | Err e => mret (Some (Err e))
          | Ok port =>
              st ← do (Adb (Forward device port));
              match st with
              | Err e => mret (Some (Err e))
              | Ok st =>
                  if negb (success st) then mret (Some (Err (forward_failed st))) else
                  done ← finish_setup device mp proxy_conns port;
                  match done with
                  | Ok ready => mret (Some (Ok ready))
                  | Err e => _ ← teardown_device device port; mret (Some (Err e))
                  end
              end
          end
      end
  end.

(** ** Events *)

Definition device_healthy (c : client) : prog bool :=
  st ← do (StatRoot c);
  mret (match st with Some (Ok _) => true | Some (Err Busy) => true | _ => false end).

(** The mount point is there, or could be made after clearing a stale mount. *)
Definition make_mountpoint (mp : option bytes) : prog bool :=
  match mp with
  | None => mret true
  | Some p =>
      made ← do (CreateDirAll p);
      if (made : bool) then mret true else
      _ ← do (Fusermount p);
      _ ← do (UmountLazy p);
      do (CreateDirAll p)
  end.

(** The slot that is no longer healthy is torn down; [true] to go on. *)
Definition clear_broken (device : bytes) : prog bool :=
  existing ← do (FindSlot device);
  match existing with
  | None => mret true
  | Some slot =>
      healthy ← device_healthy (slot_client slot);
      if (healthy : bool) then mret false else
      _ ← teardown_device device (host_port slot);
      _ ← do (RemoveSlot device);
      mret true
  end.

Record config := mkConfig { mount_base : bytes; no_fuse : bool; proxy_conns : Z }.

(** [true] when the task is still alive: [setup] did not panic. *)
Definition ensure_device_ready (cfg : config) (device : bytes) : prog bool :=
  go_on ← clear_broken device;
  if negb (go_on : bool) then mret true else
  let mp := mountpoint_for (mount_base cfg) device (no_fuse cfg) in
  made ← make_mountpoint mp;
  if negb (made : bool) then mret true else
  out ← setup device mp (proxy_conns cfg);
  match out with
  | None => mret false
  | Some (Ok (c, port)) =>
      _ ← do (InsertSlot device (mkSlot mp c port));
      _ ← do (RetryFailedFor device);
      mret true
  | Some (Err _) => mret true
  end.

(** A slot taken out of the state: the tail of the [Removed] arm and of the
    shutdown loop. *)
Definition release_slot (device : bytes) (slot : DeviceSlot) : prog unit :=
  _ ← teardown_device device (host_port slot);
  match mountpoint slot with Some mp => do (Fusermount mp) | None => mret tt end.

Definition handle_event (cfg : config) (ev : WatchEvent) : prog bool :=
  match ev with
  | Added d | Changed d => ensure_device_ready cfg d
  | Removed d =>
      _ ← do (StopLogcat d);
      slot ← do (RemoveSlot d);
      match slot with
      | Some slot => _ ← release_slot d slot; mret true
      | None => mret true
      end
  end.

Fixpoint handle_events (cfg : config) (evs : list WatchEvent) : prog bool :=
  match evs with
  | [] => mret true
  | ev :: evs => alive ← handle_event cfg ev; if (alive : bool) then handle_events cfg evs else mret false
  end.

Fixpoint release_all (slots : list (bytes * DeviceSlot)) : prog unit :=
  match slots with
  | [] => mret tt
  | (d, slot) :: slots => _ ← release_slot d slot; release_all slots
  end.
Definition shutdown : prog unit := slots ← do TakeSlots; release_all slots.
