(* ===== verification/DaemonDevicesSpec.v ===== *)
(** * The outside of the device tasks, and what they leave behind

    [outside] answers the commands of [DaemonDevices] in any way it likes; the
    shared slots and the forwards of the adb server are state. The log of the
    commands played is the history the theorems speak of. *)

From stdpp Require Import base gmap list strings.
From S2P Require Import Prelude RustStd Text Watcher ProxyClient DaemonInput DaemonDevices.

(** A command played and its answer. *)
Inductive played := Played (R : Type) (c : cmd R) (r : R).
Arguments Played {R} c r.

(** [answer n] is what the [n]-th command is answered; [port_of n used] the
    free port the system gives; [took n] whether an adb call that failed has
    taken effect; [drops n p] whether adb has by then dropped the forward at
    [p] by itself, as when its device is unplugged. *)
Record outside := mkOutside {
  answer : nat -> forall R, cmd R -> R;
  port_of : nat -> gset Z -> result bytes Z;
  took : nat -> bool;
  drops : nat -> Z -> bool;
  port_free : forall n used p, port_of n used = Ok p -> p ∉ used;
}.

(** [forwards]: the host port and the device of every forward adb holds. *)
Record world := mkWorld {
  devices : gmap bytes DeviceSlot;
  forwards : gmap Z bytes;
  log : list played;
}.

Definition start : world := mkWorld ∅ ∅ [].

Definition worked (r : result bytes status) : bool := match r with Ok st => success st | Err _ => false end.
(** A non-zero exit is a refusal; a call that timed out may have been served. *)
Definition effective (o : outside) (n : nat) (r : result bytes status) : bool :=
  match r with Ok st => success st | Err _ => took o n end.

Definition adb_effect (o : outside) (n : nat) (c : adb_call) (r : result bytes status) (f : gmap Z bytes) : gmap Z bytes :=
  if effective o n r then
    match c with
    | Forward d p => <[p := d]> f
    | Unforward _ p => delete p f
    | _ => f
    end
  else f.

Definition react (o : outside) (n : nat) {R} (c : cmd R) (ds : gmap bytes DeviceSlot) (f : gmap Z bytes)
    : R * gmap bytes DeviceSlot * gmap Z bytes :=
  match c in cmd R return R * gmap bytes DeviceSlot * gmap Z bytes with
  | Adb a => let r := answer o n _ (Adb a) in (r, ds, adb_effect o n a r f)
  | BindEphemeral => (port_of o n (dom f), ds, f)
  | FindSlot d => (ds !! d, ds, f)
  | RemoveSlot d => (ds !! d, delete d ds, f)
  | InsertSlot d s => (tt, <[d := s]> ds, f)
  | TakeSlots => (map_to_list ds, ∅, f)
  | c => (answer o n _ c, ds, f)
  end.

Definition kept_by (o : outside) (n : nat) (f : gmap Z bytes) : gmap Z bytes :=
  filter (fun '(p, _) => drops o n p = false) f.

Definition play (o : outside) {R} (c : cmd R) (w : world) : R * world :=
  let n := length (log w) in
  let '(r, ds, f) := react o n c (devices w) (kept_by o n (forwards w)) in
  (r, mkWorld ds f (log w ++ [Played c r])).

Fixpoint run (o : outside) {A} (p : prog A) (w : world) : A * world :=
  match p with
  | Ret a => (a, w)
  | Do c k => let '(r, w) := play o c w in run o (k r) w
  end.

Lemma run_bind o {A B} (p : prog A) (k : A -> prog B) w :
  run o (p ≫= k) w = let '(a, w) := run o p w in run o (k a) w.
Proof.
  revert w. induction p as [a|R c k' IH]; intros w; [done|]. cbn [run mbind prog_bind].
  destruct (play o c w) as [r w']. apply IH.
Qed.
Lemma run_do o {R} (c : cmd R) w : run o (do c) w = play o c w.
Proof. cbn. by destruct (play o c w). Qed.

(** ** A logic of programs *)

Section Logic.
Context (o : outside).

(** From a world in [P], the program ends in [Q], whatever is answered. *)
Definition triple {A} (P : world -> Prop) (p : prog A) (Q : A -> world -> Prop) : Prop :=
  forall w, P w -> let '(a, w') := run o p w in Q a w'.

Lemma triple_ret {A} (a : A) P (Q : A -> world -> Prop) : (forall w, P w -> Q a w) -> triple P (mret a) Q.
Proof. intros H w. apply H. Qed.
Lemma triple_bind {A B} (p : prog A) (k : A -> prog B) P R Q :
  triple P p R -> (forall a, triple (R a) (k a) Q) -> triple P (p ≫= k) Q.
Proof.
  intros Hp Hk w Hw. rewrite run_bind. specialize (Hp w Hw).
  destruct (run o p w) as [a w']. by apply Hk.
Qed.
Lemma triple_do {R} (c : cmd R) P (Q : R -> world -> Prop) :
  (forall w, P w -> Q (play o c w).1 (play o c w).2) -> triple P (do c) Q.
Proof. intros H w Hw. specialize (H w Hw). unfold do. cbn. by destruct (play o c w). Qed.
Lemma triple_conseq {A} (p : prog A) P P' (Q Q' : A -> world -> Prop) :
  triple P' p Q' -> (forall w, P w -> P' w) -> (forall a w, Q' a w -> Q a w) -> triple P p Q.
Proof.
  intros H HP HQ w Hw. specialize (H w (HP _ Hw)). destruct (run o p w). by apply HQ.
Qed.

(** ** The commands that leave forwards and slots alone *)

Definition quiet {R} (c : cmd R) : bool :=
  match c with
  | Adb (Forward _ _) | Adb (Unforward _ _) | BindEphemeral | RemoveSlot _ | InsertSlot _ _ | TakeSlots => false
  | _ => true
  end.
Fixpoint calm {A} (p : prog A) : Prop :=
  match p with Ret _ => True | Do c k => quiet c = true /\ forall r, calm (k r) end.

Lemma calm_bind {A B} (p : prog A) (k : A -> prog B) : calm p -> (forall a, calm (k a)) -> calm (p ≫= k).
Proof. induction p as [a|R c k' IH]; cbn; intros Hp Hk; [apply Hk|]. destruct Hp. auto. Qed.
Lemma calm_do {R} (c : cmd R) : quiet c = true -> calm (do c).
Proof. by cbn. Qed.
Lemma calm_ret {A} (a : A) : calm (mret a).
Proof. done. Qed.

Create HintDb calm.
#[local] Hint Resolve calm_bind calm_ret : calm.
#[local] Hint Extern 1 (calm (do _)) => apply calm_do; reflexivity : calm.
Ltac calm_step :=
  match goal with
  | |- calm (_ ≫= _) => apply calm_bind; [|intros ?]
  | |- calm (do _) => by apply calm_do
  | |- calm (mret _) => apply calm_ret
  | |- calm (if ?b then _ else _) => destruct b
  | |- calm (match ?x with _ => _ end) => destruct x
  | _ => progress auto with calm
  end.

Lemma calm_which_in dirs name : calm (which_in dirs name).
Proof. induction dirs; cbn [which_in]; repeat calm_step. Qed.
Lemma calm_is_x86 p : calm (is_x86_binary p).
Proof. unfold is_x86_binary. repeat calm_step. Qed.
#[local] Hint Resolve calm_which_in calm_is_x86 : calm.
Lemma calm_first_candidate arm cs : calm (first_candidate arm cs).
Proof. induction cs; cbn [first_candidate]; repeat calm_step. Qed.
#[local] Hint Resolve calm_first_candidate : calm.
Lemma calm_locate d : calm (locate_proxy_binary d).
Proof. unfold locate_proxy_binary, locate_by_abi, which_. repeat calm_step. Qed.
Lemma calm_push_tries n i d src st err : calm (push_tries n i d src st err).
Proof. revert i st err. induction n; intros; cbn [push_tries]; repeat calm_step. Qed.
Lemma calm_attempt addr : calm (attempt addr).
Proof. unfold attempt. repeat calm_step. Qed.
#[local] Hint Resolve calm_locate calm_push_tries calm_attempt : calm.
Lemma calm_probe_loop n addr err : calm (probe_loop n addr err).
Proof. revert err. induction n; intros; cbn [probe_loop]; repeat calm_step. Qed.
#[local] Hint Resolve calm_probe_loop : calm.
Lemma calm_finish_setup d mp conns p : calm (finish_setup d mp conns p).
Proof. unfold finish_setup. repeat calm_step. Qed.
Lemma calm_make_mountpoint mp : calm (make_mountpoint mp).
Proof. unfold make_mountpoint. repeat calm_step. Qed.
Lemma calm_device_healthy c : calm (device_healthy c).
Proof. unfold device_healthy. repeat calm_step. Qed.
#[local] Hint Resolve calm_finish_setup calm_make_mountpoint calm_device_healthy : calm.

(** What every branch of a program returns. *)
Fixpoint leaves {A} (Q : A -> Prop) (p : prog A) : Prop :=
  match p with Ret a => Q a | Do c k => forall r, leaves Q (k r) end.
Lemma leaves_bind {A B} (p : prog A) (k : A -> prog B) P Q :
  leaves P p -> (forall a, P a -> leaves Q (k a)) -> leaves Q (p ≫= k).
Proof. induction p as [a|R c k' IH]; cbn; auto. Qed.
Lemma leaves_any {A} (p : prog A) : leaves (fun _ => True) p.
Proof. induction p; cbn; auto. Qed.

(** ** Whose forward is it? *)

(** An [adb forward] that reported a failure and may have been served, or one
    that could not be removed. *)
Definition troubled (l : list played) (d : bytes) (p : Z) : Prop :=
  exists r, worked r = false /\ (Played (Adb (Forward d p)) r ∈ l \/ Played (Adb (Unforward d p)) r ∈ l).
Definition slotted (ds : gmap bytes DeviceSlot) (d : bytes) (p : Z) : Prop :=
  exists s, ds !! d = Some s /\ host_port s = p.

(** Every forward has a slot, a failed call, or is excused by [K]. *)
Definition tidy (K : bytes -> Z -> Prop) (w : world) : Prop :=
  forall p d, forwards w !! p = Some d -> slotted (devices w) d p \/ troubled (log w) d p \/ K d p.

Definition steady : Prop := forall n p, drops o n p = false.
(** The slots but that of [d] hold their forward. *)
Definition others (d : bytes) (w : world) : Prop :=
  forall d' s, d' <> d -> devices w !! d' = Some s -> forwards w !! host_port s = Some d'.

Definition Inv (K : bytes -> Z -> Prop) (d : bytes) (S : option DeviceSlot) (E : gmap Z bytes -> Prop) (w : world) : Prop :=
  tidy K w /\ devices w !! d = S /\ (steady -> others d w /\ E (forwards w)).

Lemma troubled_more l l' d p : troubled l d p -> troubled (l ++ l') d p.
Proof. intros (r & Hr & H). exists r. split; [done|]. rewrite !elem_of_app. tauto. Qed.
Lemma kept_lookup n f p d : kept_by o n f !! p = Some d -> f !! p = Some d.
Proof. unfold kept_by. rewrite map_lookup_filter_Some. tauto. Qed.
Lemma kept_steady n f : steady -> kept_by o n f = f.
Proof. intros H. apply map_filter_id. intros p d _. apply H. Qed.

Lemma quiet_react {R} (c : cmd R) n ds f :
  quiet c = true -> (react o n c ds f).1.2 = ds /\ (react o n c ds f).2 = f.
Proof. destruct c as [[]| | | | | | | | | | | | | | | | | | | | | |]; try done; cbn; unfold adb_effect; by destruct (effective _ _ _). Qed.

Lemma inv_quiet {R} (c : cmd R) K d S E : quiet c = true -> triple (Inv K d S E) (do c) (fun _ => Inv K d S E).
Proof.
  intros Hq. apply triple_do. intros w (Ht & Hd & Hs). unfold play.
  pose proof (quiet_react c (length (log w)) (devices w) (kept_by o (length (log w)) (forwards w)) Hq) as [E1 E2].
  destruct (react _ _ _ _ _) as [[r ds] f]. cbn in E1, E2 |- *. subst ds f. split; [|split; [done|]].
  - intros p d' Hp%kept_lookup. cbn in *. destruct (Ht p d' Hp) as [|[|]]; auto using troubled_more.
  - intros Hst. cbn. rewrite kept_steady by done. by apply Hs.
Qed.
Lemma inv_leaves {A} (p : prog A) K d S E Q :
  calm p -> leaves Q p -> triple (Inv K d S E) p (fun a w => Q a /\ Inv K d S E w).
Proof.
  induction p as [a|R c k IH]; intros Hc Hl w Hw; [done|]. destruct Hc as [Hq Hc]. cbn [run].
  pose proof (inv_quiet c K d S E Hq w Hw) as H. unfold do in H. cbn [run] in H.
  destruct (play o c w) as [r w']. by apply IH.
Qed.
Lemma inv_calm {A} (p : prog A) K d S E : calm p -> triple (Inv K d S E) p (fun _ => Inv K d S E).
Proof.
  intros Hc. eapply triple_conseq; [apply (inv_leaves p K d S E (fun _ => True)); auto using leaves_any|done|].
  by intros ? ? [_ ?].
Qed.

(** ** The commands that change them *)

Definition nobody (_ : bytes) (_ : Z) : Prop := False.
Definition just (d : bytes) (p : Z) (d' : bytes) (p' : Z) : Prop := d' = d /\ p' = p.
Definition any (_ : gmap Z bytes) : Prop := True.
Definition free (p : Z) (f : gmap Z bytes) : Prop := f !! p = None.
Definition held (d : bytes) (p : Z) (f : gmap Z bytes) : Prop := f !! p = Some d.

Lemma inv_weaken K d S E w : Inv K d S E w -> Inv K d S any w.
Proof. intros (? & ? & H). repeat split; try done. by apply H. Qed.

Lemma inv_bind K d S E :
  triple (Inv K d S E) (do BindEphemeral) (fun r => Inv K d S (match r with Ok p => free p | Err _ => any end)).
Proof.
  apply triple_do. intros w (Ht & Hd & Hs). unfold play; cbn. set (n := length _). split; [|split; [done|]].
  - intros p d' Hp%kept_lookup. cbn. destruct (Ht p d' Hp) as [|[|]]; auto using troubled_more.
  - intros Hst. cbn. rewrite !kept_steady by done. split; [by apply Hs|].
    destruct (port_of o n _) eqn:Hp; [|done]. apply port_free in Hp. by apply not_elem_of_dom in Hp.
Qed.

(** What is at a port after a forward: the new one, or what was there. *)
Lemma others_insert d p f ds l :
  free p f -> others d (mkWorld ds f l) -> forall l', others d (mkWorld ds (<[p := d]> f) l').
Proof.
  intros Hf Ho l' d' s Hne Hs. cbn in *. specialize (Ho d' s Hne Hs). cbn in Ho.
  rewrite lookup_insert_ne; [done|]. intros E. rewrite <- E in Ho. unfold free in Hf. congruence.
Qed.

Lemma inv_forward d p :
  triple (Inv nobody d None (free p)) (do (Adb (Forward d p)))
    (fun r => if worked r then Inv (just d p) d None (held d p) else Inv nobody d None any).
Proof.
  apply triple_do. intros w (Ht & Hd & Hs). unfold play; cbn. set (n := length _). set (r := answer _ _ _ _).
  assert (Hold : forall K p' d', forwards w !! p' = Some d' ->
    slotted (devices w) d' p' \/ troubled (log w ++ [Played (Adb (Forward d p)) r]) d' p' \/ K d' p').
  { intros K p' d' H. destruct (Ht p' d' H) as [|[|[]]]; auto using troubled_more. }
  unfold adb_effect. destruct (worked r) eqn:Hw.
  - assert (effective o n r = true) as -> by (by destruct r). split; [|split; [done|]]; cbn.
    + intros p' d'. cbn. rewrite lookup_insert_Some. intros [[<- <-]|[_ Hp%kept_lookup]]; [|by apply Hold].
      do 2 right. done.
    + intros Hst. rewrite kept_steady by done. destruct (Hs Hst) as [Ho Hf]. split; [|apply lookup_insert_eq].
      by apply (others_insert d p (forwards w) _ (log w)).
  - assert (Htr : troubled (log w ++ [Played (Adb (Forward d p)) r]) d p).
    { exists r. split; [done|]. left. apply elem_of_app. right. by apply list_elem_of_singleton. }
    split; [|split; [done|]]; cbn.
    + intros p' d'. cbn. destruct (effective o n r); [rewrite lookup_insert_Some; intros [[<- <-]|[_ Hp%kept_lookup]]|intros Hp%kept_lookup];
        try (by apply Hold). by right; left.
    + intros Hst. rewrite kept_steady by done. destruct (Hs Hst) as [Ho Hf]. split; [|done].
      destruct (effective o n r); [|done]. by apply (others_insert d p (forwards w) _ (log w)).
Qed.

(** After its removal was tried, the forward of [d] at [p] is gone or troubled. *)
Definition cleared (d : bytes) (p : Z) (w : world) : Prop := forwards w !! p = Some d -> troubled (log w) d p.

Lemma others_delete d p f ds l :
  held d p f -> others d (mkWorld ds f l) -> forall l', others d (mkWorld ds (delete p f) l').
Proof.
  intros Hf Ho l' d' s Hne Hs. cbn in *. specialize (Ho d' s Hne Hs). cbn in Ho.
  rewrite lookup_delete_ne; [done|]. intros E. rewrite <- E in Ho. unfold held in Hf. congruence.
Qed.

Lemma inv_unforward K d p S :
  triple (Inv K d S (held d p)) (do (Adb (Unforward d p))) (fun _ w => Inv K d S any w /\ cleared d p w).
Proof.
  apply triple_do. intros w (Ht & Hd & Hs). unfold play; cbn. set (n := length _). set (r := answer _ _ _ _).
  assert (Hsub : forall p' d', adb_effect o n (Unforward d p) r (kept_by o n (forwards w)) !! p' = Some d' -> forwards w !! p' = Some d').
  { intros p' d'. unfold adb_effect. destruct (effective _ _ _); [rewrite lookup_delete_Some; intros [_ H]|intros H]; by apply kept_lookup in H. }
  split; [split; [|split; [done|]]|]; cbn.
  - intros p' d' Hp%Hsub. cbn. destruct (Ht p' d' Hp) as [|[|]]; auto using troubled_more.
  - intros Hst. rewrite kept_steady by done. destruct (Hs Hst) as [Ho Hf]. split; [|done].
    unfold adb_effect. destruct (effective _ _ _); [|done]. by apply (others_delete d p (forwards w) _ (log w)).
  - unfold cleared, adb_effect. cbn. destruct (effective o n r) eqn:He; [by rewrite lookup_delete_eq|]. intros _.
    exists r. split; [by destruct r|]. right. apply elem_of_app. right. by apply list_elem_of_singleton.
Qed.

Lemma inv_find K d S E : triple (Inv K d S E) (do (FindSlot d)) (fun r w => r = S /\ Inv K d S E w).
Proof.
  apply triple_do. intros w Hw. split; [by destruct Hw as (_ & Hd & _)|].
  pose proof (inv_quiet (FindSlot d) K d S E eq_refl w Hw) as H. exact H.
Qed.

Definition excuse (d : bytes) (S : option DeviceSlot) : bytes -> Z -> Prop :=
  match S with Some s => just d (host_port s) | None => nobody end.

Lemma inv_remove d S E :
  triple (Inv nobody d S E) (do (RemoveSlot d)) (fun r w => r = S /\ Inv (excuse d S) d None E w).
Proof.
  apply triple_do. intros w (Ht & Hd & Hs). unfold play; cbn. split; [done|]. split; [|split].
  - intros p d' Hp%kept_lookup. cbn. destruct (Ht p d' Hp) as [(s & Hs' & Hport)|[|[]]]; [|auto using troubled_more].
    destruct (decide (d' = d)) as [->|Hne].
    + do 2 right. rewrite <- Hd, Hs'. done.
    + left. exists s. by rewrite lookup_delete_ne.
  - cbn. apply lookup_delete_eq.
  - intros Hst. cbn. rewrite kept_steady by done. destruct (Hs Hst) as [Ho HE]. split; [|done].
    intros d' s Hne. cbn. rewrite lookup_delete_ne by done. by apply Ho.
Qed.
Lemma cleared_remove d p w : cleared d p w -> cleared d p (play o (RemoveSlot d) w).2.
Proof. intros H Hp%kept_lookup. cbn. apply troubled_more. by apply H. Qed.

Lemma inv_insert d p s :
  host_port s = p -> triple (Inv (just d p) d None (held d p)) (do (InsertSlot d s)) (fun _ => Inv nobody d (Some s) (held d p)).
Proof.
  intros <-. apply triple_do. intros w (Ht & Hd & Hs). unfold play; cbn. split; [|split].
  - intros p d' Hp%kept_lookup. cbn. destruct (decide (d' = d)) as [->|Hne].
    + destruct (Ht p d Hp) as [(s' & Hs' & _)|[|[_ ->]]]; [congruence|auto using troubled_more|].
      left. exists s. by rewrite lookup_insert_eq.
    + destruct (Ht p d' Hp) as [(s' & Hs' & Hport)|[|[]]]; [|auto using troubled_more|done].
      left. exists s'. by rewrite lookup_insert_ne.
  - cbn. apply lookup_insert_eq.
  - intros Hst. cbn. rewrite kept_steady by done. destruct (Hs Hst) as [Ho HE]. split; [|done].
    intros d' s' Hne. cbn. rewrite lookup_insert_ne by done. by apply Ho.
Qed.

(** ** The tasks *)

Lemma inv_settle d p S w : Inv (just d p) d S any w -> cleared d p w -> Inv nobody d S any w.
Proof.
  intros (Ht & Hd & Hs) Hc. split; [|done]. intros p' d' Hp.
  destruct (Ht p' d' Hp) as [|[|[-> ->]]]; auto.
Qed.

Lemma teardown_clears K d p S :
  triple (Inv K d S (held d p)) (teardown_device d p) (fun _ w => Inv K d S any w /\ cleared d p w).
Proof.
  eapply triple_bind; [by apply inv_quiet|]. intros ?. eapply triple_bind; [apply inv_unforward|]. intros ?.
  by apply triple_ret.
Qed.

Lemma teardown_settles d p :
  triple (Inv (just d p) d None (held d p)) (teardown_device d p) (fun _ => Inv nobody d None any).
Proof. eapply triple_conseq; [apply teardown_clears|done|]. intros ? w [? ?]. by eapply inv_settle. Qed.

Lemma push_tries_decides n i d src st err :
  (n <> 0%nat \/ st <> None \/ err <> None) -> leaves (fun r => r <> (None, None)) (push_tries n i d src st err).
Proof.
  revert i st err. induction n as [|n IH]; intros i st err H; cbn [push_tries].
  - cbn. destruct H as [|[|]]; congruence.
  - intros [s|e]; cbn [mbind prog_bind do].
    + destruct (success s); [done|]. apply IH. right; left; done.
    + destruct (2 <=? i); [done|]. apply IH. right; right; done.
Qed.

Lemma finish_setup_port d mp conns p :
  leaves (fun r => forall c p', r = Ok (c, p') -> p' = p) (finish_setup d mp conns p).
Proof.
  unfold finish_setup. repeat first
    [ eapply leaves_bind; [apply leaves_any|intros ? _] | case_match ]; cbn; naive_solver.
Qed.

Definition setup_post (d : bytes) (out : option (result bytes (client * Z))) : world -> Prop :=
  match out with
  | None => fun _ => False
  | Some (Ok (_, p)) => Inv (just d p) d None (held d p)
  | Some (Err _) => Inv nobody d None any
  end.

Lemma pure_pre {A} (p : prog A) (X : Prop) P Q : (X -> triple P p Q) -> triple (fun w => X /\ P w) p Q.
Proof. intros H w [HX Hw]. by apply H. Qed.

Lemma forwarded_setup d mp conns p :
  triple (Inv (just d p) d None (held d p))
    (finish_setup d mp conns p ≫= fun r =>
       match r with Ok ready => mret (Some (Ok ready)) | Err e => _ ← teardown_device d p; mret (Some (Err e)) end)
    (setup_post d).
Proof.
  eapply triple_bind; [apply inv_leaves; [apply calm_finish_setup|apply finish_setup_port]|].
  intros r. apply pure_pre. intros Hp. destruct r as [[c p']|e].
  - rewrite (Hp c p' eq_refl) in *. by apply triple_ret.
  - eapply triple_bind; [apply teardown_settles|]. intros ?. by apply triple_ret.
Qed.

Lemma setup_settles d mp conns : triple (Inv nobody d None any) (setup d mp conns) (setup_post d).
Proof.
  eapply triple_bind; [apply inv_calm, calm_locate|]. intros [src|e]; [|by apply triple_ret].
  eapply triple_bind; [apply inv_leaves; [apply calm_push_tries|apply push_tries_decides; auto]|].
  intros [st err]. apply pure_pre. intros Hne. destruct st as [st|], err as [e|]; try (by apply triple_ret).
  destruct (success st); cbn [negb]; [|by apply triple_ret].
  eapply triple_bind; [by apply inv_quiet|]. intros ?. eapply triple_bind; [apply inv_bind|].
  intros [p|e]; [|by apply triple_ret]. eapply triple_bind; [apply inv_forward|].
  intros [fs|e]; [|by apply triple_ret]. cbn [worked]. destruct (success fs); cbn [negb]; [|by apply triple_ret].
  apply forwarded_setup.
Qed.

(** The slot of [d], if any, holds its forward. *)
Definition own (d : bytes) (S : option DeviceSlot) (f : gmap Z bytes) : Prop :=
  forall s, S = Some s -> held d (host_port s) f.

Definition accounted (w : world) : Prop :=
  tidy nobody w /\ (steady -> forall d s, devices w !! d = Some s -> forwards w !! host_port s = Some d).

Lemma accounted_open d w : accounted w -> Inv nobody d (devices w !! d) (own d (devices w !! d)) w.
Proof. intros [Ht Hs]. split; [done|]. split; [done|]. intros Hst. split; intros d'; intros; by apply Hs. Qed.
Lemma accounted_close d S w : Inv nobody d S (own d S) w -> accounted w.
Proof.
  intros (Ht & Hd & Hs). split; [done|]. intros Hst d' s Hs'. destruct (Hs Hst) as [Ho HE].
  destruct (decide (d' = d)) as [->|]; [apply HE; congruence|by apply Ho].
Qed.
Lemma accounted_none d E w : Inv nobody d None E w -> accounted w.
Proof.
  intros (Ht & Hd & Hs). apply (accounted_close d None). repeat split; try done. by apply Hs.
Qed.

Lemma inv_own d s w : Inv nobody d (Some s) (own d (Some s)) w -> Inv nobody d (Some s) (held d (host_port s)) w.
Proof. intros (? & ? & Hs). repeat split; try done; [by apply Hs|]. destruct (Hs H1). by apply H3. Qed.

Lemma clear_broken_ok d S :
  triple (Inv nobody d S (own d S)) (clear_broken d)
    (fun go w => if go : bool then Inv nobody d None any w else Inv nobody d S (own d S) w).
Proof.
  eapply triple_bind; [apply inv_find|]. intros r. apply pure_pre. intros ->. destruct S as [s|].
  - eapply triple_bind; [apply inv_calm, calm_device_healthy|]. intros []; [by apply triple_ret|].
    eapply triple_bind.
    { eapply triple_conseq; [apply teardown_clears|apply inv_own|]. by intros ? ? ?. }
    intros ?. eapply (triple_bind _ _ _ (fun _ => Inv nobody d None any)); [|intros ?; by apply triple_ret].
    apply triple_do. intros w [Hi Hc]. pose proof (inv_remove d (Some s) any w Hi) as [_ H].
    eapply inv_settle; [exact H|by apply cleared_remove].
  - apply triple_ret. intros w H. by eapply inv_weaken.
Qed.

Lemma ensure_ok cfg d S :
  triple (Inv nobody d S (own d S)) (ensure_device_ready cfg d) (fun alive w => alive = true /\ accounted w).
Proof.
  eapply triple_bind; [apply clear_broken_ok|]. intros []; cbn [negb].
  2: { apply triple_ret. intros w H. by eauto using accounted_close. }
  eapply triple_bind; [apply inv_calm, calm_make_mountpoint|]. intros []; cbn [negb].
  2: { apply triple_ret. intros w H. by eauto using accounted_none. }
  eapply triple_bind; [apply setup_settles|]. intros [[[c p]|e]|]; cbn [setup_post].
  - eapply triple_bind; [by apply (inv_insert d p)|]. intros ?. eapply triple_bind; [by apply inv_quiet|]. intros ?.
    apply triple_ret. intros w (? & ? & Hs). split; [done|]. eapply accounted_close. split; [done|]. split; [done|].
    intros Hst. destruct (Hs Hst) as [? Hh]. split; [done|]. intros s [= <-]. exact Hh.
  - apply triple_ret. intros w H. by eauto using accounted_none.
  - by intros w [].
Qed.

Lemma removed_ok cfg d S :
  triple (Inv nobody d S (own d S)) (handle_event cfg (Removed d)) (fun alive w => alive = true /\ accounted w).
Proof.
  cbn [handle_event]. eapply triple_bind; [by apply inv_quiet|]. intros ?. eapply triple_bind; [apply inv_remove|].
  intros r. apply pure_pre. intros ->. destruct S as [s|].
  - eapply (triple_bind _ _ _ (fun _ => Inv nobody d None any)).
    2: { intros ?. apply triple_ret. intros w H. by eauto using accounted_none. }
    eapply triple_bind.
    { eapply triple_conseq; [apply teardown_settles| |by intros ? ? ?]. intros w (? & ? & Hs). split; [done|]. split; [done|].
      intros Hst. destruct (Hs Hst) as [? Ho]. split; [done|]. by apply Ho. }
    intros ?. apply inv_calm. destruct (mountpoint s); repeat calm_step.
  - apply triple_ret. intros w H. by eauto using accounted_none.
Qed.

Lemma event_ok cfg ev : triple accounted (handle_event cfg ev) (fun alive w => alive = true /\ accounted w).
Proof.
  intros w Hw. destruct ev as [d|d|d]; apply (accounted_open d) in Hw; [by eapply ensure_ok|by eapply removed_ok|by eapply ensure_ok].
Qed.

Lemma events_ok cfg evs : triple accounted (handle_events cfg evs) (fun alive w => alive = true /\ accounted w).
Proof.
  induction evs as [|ev evs IH]; [by apply triple_ret|].
  eapply triple_bind; [apply event_ok|]. intros []; cbn; apply pure_pre; intros E; [exact IH|done].
Qed.

(** ** Shutdown *)

Definition Gone (K : bytes -> Z -> Prop) (w : world) : Prop := forall d, Inv K d None any w.

Lemma gone_calm {A} (p : prog A) K : calm p -> triple (Gone K) p (fun _ => Gone K).
Proof.
  intros Hc w Hw. pose proof (fun d => inv_calm p K d None any Hc w (Hw d)) as H. by destruct (run o p w).
Qed.

Lemma gone_unforward K d p :
  triple (Gone K) (do (Adb (Unforward d p))) (fun _ => Gone (fun d' p' => K d' p' /\ ~ just d p d' p')).
Proof.
  apply triple_do. intros w Hw. unfold play; cbn. set (n := length _). set (r := answer _ _ _ _). intros d0.
  destruct (Hw d0) as (Ht & Hd & _). split; [|split; [done|]]; cbn.
  - intros p' d' Hp. cbn in *. assert (Hold : forwards w !! p' = Some d').
    { revert Hp. unfold adb_effect. destruct (effective _ _ _); [rewrite lookup_delete_Some; intros [_ H]|intros H]; by apply kept_lookup in H. }
    destruct (Ht p' d' Hold) as [|[|HK]]; auto using troubled_more.
    destruct (decide (d' = d /\ p' = p)) as [[-> ->]|Hne]; [|auto]. right; left.
    unfold adb_effect in Hp. destruct (effective o n r) eqn:He; [by rewrite lookup_delete_eq in Hp|].
    exists r. split; [by destruct r|]. right. apply elem_of_app. right. by apply list_elem_of_singleton.
  - intros _. split; [|done]. intros d' s _ Hs. cbn in Hs. destruct (Hw d') as (_ & E & _). congruence.
Qed.

Lemma gone_mono K K' w : (forall d p, K d p -> K' d p) -> Gone K w -> Gone K' w.
Proof.
  intros HK Hw d. destruct (Hw d) as (Ht & ? & ?). split; [|done]. intros p' d' Hp.
  destruct (Ht p' d' Hp) as [|[|]]; auto.
Qed.

Definition of_slots (l : list (bytes * DeviceSlot)) (d : bytes) (p : Z) : Prop := exists s, (d, s) ∈ l /\ host_port s = p.

Lemma release_all_ok l : triple (Gone (of_slots l)) (release_all l) (fun _ => Gone nobody).
Proof.
  induction l as [|[d s] l IH]; cbn [release_all].
  - apply triple_ret. intros w. apply gone_mono. intros d p (s & Hs & _). by apply elem_of_nil in Hs.
  - eapply (triple_bind _ _ _ (fun _ => Gone (of_slots l))); [|by intros ?].
    eapply (triple_bind _ _ _ (fun _ => Gone (of_slots l))).
    + eapply triple_bind; [by apply gone_calm, calm_do|]. intros ?.
      eapply triple_bind; [apply gone_unforward|]. intros ?. apply triple_ret. intros w. apply gone_mono.
      intros d' p' [(s' & [Heq|Hin]%elem_of_cons & Hp) Hn]; [|by exists s']. simplify_eq. by destruct Hn.
    + intros ?. apply gone_calm. destruct (mountpoint s); repeat calm_step.
Qed.

Lemma shutdown_ok : triple accounted shutdown (fun _ => Gone nobody).
Proof.
  eapply (triple_bind _ _ _ (fun l => Gone (of_slots l))); [|apply release_all_ok].
  apply triple_do. intros w [Ht _] d. unfold play; cbn. split; [|split; [done|]]; cbn.
  - intros p d' Hp%kept_lookup. cbn in *. destruct (Ht p d' Hp) as [(s & Hs & Hport)|[|[]]]; [|auto using troubled_more].
    do 2 right. exists s. split; [by apply elem_of_map_to_list|done].
  - intros _. split; [|done]. intros d' s _ Hs. cbn in Hs. by rewrite lookup_empty in Hs.
Qed.

Lemma start_accounted : accounted start.
Proof. split; [|intros _ d s H]; [intros p d H|]; cbn in H; by rewrite lookup_empty in H. Qed.

(** ** What a slot was built on *)

(** In this order: the proxy was pushed, its port forwarded, a connection
    through the forward answered, and the pool of the slot was opened. *)
Definition evidence (conns : Z) (d src : bytes) (st st' : status) (c : client) (s : DeviceSlot) : list played :=
  [Played (Adb (Push d src)) (Ok st); Played (Adb (Forward d (host_port s))) (Ok st');
   Played (Connect (host_addr (host_port s)) 1) (Some (Ok c)); Played (StatRoot c) (Some (Ok tt));
   Played (Connect (host_addr (host_port s)) conns) (Some (Ok (slot_client s)))]
  ++ match mountpoint s with Some mp => [Played (SpawnFuse d (slot_client s) mp) (Ok tt)] | None => [] end.
Definition backed (conns : Z) (l : list played) (d : bytes) (s : DeviceSlot) : Prop :=
  exists src st st' c, success st = true /\ success st' = true /\ evidence conns d src st st' c s `sublist_of` l.

Definition Ev (conns : Z) (F : list played) (w : world) : Prop :=
  (forall d s, devices w !! d = Some s -> backed conns (log w) d s) /\ F `sublist_of` log w.

Definition inserts {R} (c : cmd R) : bool := match c with InsertSlot _ _ => true | _ => false end.

Lemma backed_more conns l l' d s : backed conns l d s -> backed conns (l ++ l') d s.
Proof. intros (src & st & st' & c & ? & ? & H). exists src, st, st', c. repeat split; try done. by apply sublist_inserts_r. Qed.

Lemma react_slots {R} (c : cmd R) n ds f d s :
  inserts c = false -> (react o n c ds f).1.2 !! d = Some s -> ds !! d = Some s.
Proof.
  destruct c; try done; cbn; intros _; rewrite ?lookup_delete_Some, ?lookup_empty; naive_solver.
Qed.

Lemma ev_do {R} (c : cmd R) conns F : inserts c = false -> triple (Ev conns F) (do c) (fun r => Ev conns (F ++ [Played c r])).
Proof.
  intros Hc. apply triple_do. intros w [Hd HF]. unfold play.
  pose proof (react_slots c (length (log w)) (devices w) (kept_by o (length (log w)) (forwards w))) as Hr.
  destruct (react _ _ _ _ _) as [[r ds] f]. cbn in *. split; cbn.
  - intros d s Hs. apply backed_more. eauto.
  - by apply sublist_app.
Qed.
Lemma ev_less conns F F' w : F' `sublist_of` F -> Ev conns F w -> Ev conns F' w.
Proof. intros HF [? ?]. split; [done|]. by etransitivity. Qed.
Lemma ev_step {R} (c : cmd R) conns F : inserts c = false -> triple (Ev conns F) (do c) (fun _ => Ev conns F).
Proof.
  intros Hc. eapply triple_conseq; [by apply ev_do|done|]. intros r w. apply ev_less. by apply sublist_inserts_r.
Qed.
Lemma ev_calm {A} (p : prog A) conns F : calm p -> triple (Ev conns F) p (fun _ => Ev conns F).
Proof.
  induction p as [a|R c k IH]; intros Hc w Hw; [done|]. destruct Hc as [Hq Hc]. cbn [run].
  assert (Hi : inserts c = false) by (by destruct c).
  pose proof (ev_step c conns F Hi w Hw) as H. unfold do in H. cbn [run] in H.
  destruct (play o c w) as [r w']. by apply IH.
Qed.

Lemma ev_teardown d p conns F : triple (Ev conns F) (teardown_device d p) (fun _ => Ev conns F).
Proof.
  eapply triple_bind; [by apply ev_step|]. intros ?. eapply triple_bind; [by apply ev_step|]. intros ?. by apply triple_ret.
Qed.

Definition pushed (d : bytes) (F : list played) (r : option status * option bytes) (conns : Z) (w : world) : Prop :=
  match r with
  | (Some st, None) => if success st then exists src, Ev conns (F ++ [Played (Adb (Push d src)) (Ok st)]) w else Ev conns F w
  | _ => Ev conns F w
  end.
Lemma ev_push_tries n i d src st err conns F :
  (forall s, st = Some s -> success s = false) ->
  triple (Ev conns F) (push_tries n i d src st err) (fun r => pushed d F r conns).
Proof.
  assert (Hgive : forall st err w, (forall s, st = Some s -> success s = false) -> Ev conns F w -> pushed d F (st, err) conns w).
  { intros [s|] [e|] w Hs Hw; cbn; try done. by rewrite (Hs s eq_refl). }
  revert i st err. induction n as [|n IH]; intros i st err Hst; cbn [push_tries].
  - apply triple_ret. intros w. by apply Hgive.
  - eapply triple_bind; [by apply ev_do|]. intros [s|e].
    + destruct (success s) eqn:Hs.
      * apply triple_ret. intros w Hw. cbn. rewrite Hs. by exists src.
      * eapply triple_conseq; [apply IH|intros w; apply ev_less; by apply sublist_inserts_r|done]. by intros ? [= <-].
    + destruct (2 <=? i).
      * apply triple_ret. intros w Hw. apply Hgive; [done|]. eapply ev_less; [|done]. by apply sublist_inserts_r.
      * eapply triple_conseq; [by apply IH|intros w; apply ev_less; by apply sublist_inserts_r|done].
Qed.

Definition answered (addr : bytes) : list played -> Prop :=
  fun l => exists c, l = [Played (Connect addr 1) (Some (Ok c)); Played (StatRoot c) (Some (Ok tt))].

Lemma ev_attempt addr conns F :
  triple (Ev conns F) (attempt addr)
    (fun e w => Ev conns F w /\ (e = None -> exists l, answered addr l /\ Ev conns (F ++ l) w)).
Proof.
  assert (Hl : forall l w, Ev conns (F ++ l) w -> Ev conns F w).
  { intros l w. apply ev_less. by apply sublist_inserts_r. }
  eapply triple_bind; [by apply ev_do|]. intros [[c|e]|].
  2,3: apply triple_ret; intros w Hw; split; [by eapply Hl|done].
  eapply triple_bind; [by apply ev_do|]. intros st. apply triple_ret. intros w Hw. rewrite <- app_assoc in Hw.
  split; [by eapply Hl|]. destruct st as [[[]|]|]; try done. intros _. eexists; split; [|exact Hw]. by exists c.
Qed.
Lemma ev_probe n addr conns F err :
  err <> None \/ n <> 0%nat ->
  triple (Ev conns F) (probe_loop n addr err)
    (fun e w => Ev conns F w /\ (e = None -> exists l, answered addr l /\ Ev conns (F ++ l) w)).
Proof.
  revert err. induction n as [|n IH]; intros err Hn; cbn [probe_loop].
  - apply triple_ret. intros w Hw. split; [done|]. intros ->. by destruct Hn.
  - eapply triple_bind; [apply ev_attempt|]. intros [e|].
    + eapply triple_conseq; [apply IH; by left|by intros w [? _]|done].
    + by apply triple_ret.
Qed.

Definition mounted (d : bytes) (c : client) (mp : option bytes) : list played :=
  match mp with Some mp => [Played (SpawnFuse d c mp) (Ok tt)] | None => [] end.

Definition finished d mp conns p F (r : result bytes (client * Z)) (w : world) : Prop :=
  Ev conns F w /\ forall c p', r = Ok (c, p') -> p' = p /\ exists l, answered (host_addr p) l
    /\ Ev conns (F ++ l ++ Played (Connect (host_addr p) conns) (Some (Ok c)) :: mounted d c mp) w.

Lemma finished_err d mp conns p F G e w : Ev conns (F ++ G) w -> finished d mp conns p F (Err e) w.
Proof. intros Hw. split; [|done]. eapply ev_less; [|done]. by apply sublist_inserts_r. Qed.

(** Behind the probe: the pool, and the mount. *)
Lemma ev_open d mp conns p F l :
  answered (host_addr p) l ->
  triple (Ev conns (F ++ l))
    (c ← do (Connect (host_addr p) conns);
     match c with
     | None => mret (Err (bs "proxy connect timed out"))
     | Some (Err e) => mret (Err (display e))
     | Some (Ok c) =>
         match mp with
         | None => mret (Ok (c, p))
         | Some mp => t ← do (SpawnFuse d c mp); match t with Ok _ => mret (Ok (c, p)) | Err e => mret (Err e) end
         end
     end) (finished d mp conns p F).
Proof.
  intros Ha. eapply triple_bind; [by apply ev_do|].
  intros [[c|e]|]; [|apply triple_ret; intros w; rewrite <- app_assoc; apply finished_err..].
  assert (Hok : forall G w, Ev conns (F ++ l ++ Played (Connect (host_addr p) conns) (Some (Ok c)) :: G) w ->
                  G = mounted d c mp -> finished d mp conns p F (Ok (c, p)) w).
  { intros G w Hw ->. split; [eapply ev_less; [|done]; by apply sublist_inserts_r|]. intros ? ? [= <- <-]. eauto. }
  destruct mp as [mp|].
  - eapply triple_bind; [by apply ev_do|].
    intros [[]|e]; apply triple_ret; intros w; rewrite <- !app_assoc; [intros H; by eapply Hok|apply finished_err].
  - apply triple_ret. intros w. rewrite <- !app_assoc. intros H. by eapply Hok.
Qed.

Lemma ev_finish d mp conns p F : triple (Ev conns F) (finish_setup d mp conns p) (finished d mp conns p F).
Proof.
  unfold finish_setup. cbv zeta. eapply triple_bind; [by apply ev_step|]. intros ?. eapply triple_bind; [by apply ev_step|]. intros ?.
  eapply triple_bind; [apply ev_probe; auto|]. intros [e|].
  - eapply triple_bind; [eapply triple_conseq; [by apply (ev_step _ conns F)|by intros w [? _]|done]|]. intros ?.
    apply triple_ret. intros w Hw. apply (finished_err _ _ _ _ _ []). by rewrite app_nil_r.
  - intros w [_ Hl]. destruct (Hl eq_refl) as (l & Ha & Hw). by apply (ev_open d mp conns p F l Ha).
Qed.

Definition checked d mp conns (out : option (result bytes (client * Z))) (w : world) : Prop :=
  Ev conns [] w /\ forall c p, out = Some (Ok (c, p)) -> backed conns (log w) d (mkSlot mp c p).

Lemma ev_nil conns F w : Ev conns F w -> Ev conns [] w.
Proof. apply ev_less, sublist_nil_l. Qed.
Lemma checked_err d mp conns F out w : Ev conns F w -> (forall r, out <> Some (Ok r)) -> checked d mp conns out w.
Proof. intros Hw Hout. split; [by eapply ev_nil|]. intros c p E. by destruct (Hout (c, p)). Qed.

Lemma ev_forwarded d src mp conns p st st' :
  success st = true -> success st' = true ->
  triple (Ev conns [Played (Adb (Push d src)) (Ok st); Played (Adb (Forward d p)) (Ok st')])
    (finish_setup d mp conns p ≫= fun r =>
       match r with Ok ready => mret (Some (Ok ready)) | Err e => _ ← teardown_device d p; mret (Some (Err e)) end)
    (checked d mp conns).
Proof.
  intros Hs Hs'. eapply triple_bind; [apply ev_finish|]. intros [[c p']|e].
  - apply triple_ret. intros w [Hw Hok]. destruct (Hok c p' eq_refl) as (-> & l & [c0 ->] & HF).
    split; [by eapply ev_nil|]. intros ? ? [= <- <-]. exists src, st, st', c0. split; [done|]. split; [done|].
    by destruct HF as [_ ?].
  - eapply triple_bind; [eapply triple_conseq; [apply ev_teardown|by intros w [Hw _]|done]|]. intros ?.
    apply triple_ret. intros w Hw. by eapply checked_err.
Qed.

Lemma ev_setup d mp conns : triple (Ev conns []) (setup d mp conns) (checked d mp conns).
Proof.
  assert (Hend : forall F out, (forall r, out <> Some (Ok r)) -> triple (Ev conns F) (mret out) (checked d mp conns)).
  { intros F out Hout. apply triple_ret. intros w Hw. by eapply checked_err. }
  eapply triple_bind; [apply ev_calm, calm_locate|]. intros [src|e]; [|by apply Hend].
  eapply triple_bind; [by apply ev_push_tries|]. intros [[st|] [e|]]; unfold pushed; try (by apply Hend).
  destruct (success st) eqn:Hst; cbn [negb]; [|by apply Hend]. clear src. intros w [src Hw]. revert w Hw.
  match goal with |- forall w, ?P w -> let '(a, w') := run o ?p w in _ => change (triple P p (checked d mp conns)) end.
  eapply triple_bind; [by apply ev_step|]. intros ?. eapply triple_bind; [by apply ev_step|].
  intros [p|e]; [|by apply Hend]. eapply triple_bind; [by apply ev_do|].
  intros [fs|e]; [|by apply Hend]. destruct (success fs) eqn:Hfs; cbn [negb]; [|by apply Hend]. by apply ev_forwarded.
Qed.

Definition all_backed (conns : Z) (w : world) : Prop := forall d s, devices w !! d = Some s -> backed conns (log w) d s.
Lemma ev_all conns w : Ev conns [] w <-> all_backed conns w.
Proof. split; [by intros [? _]|]. intros H. split; [done|apply sublist_nil_l]. Qed.

Lemma ev_insert d mp conns c p :
  triple (checked d mp conns (Some (Ok (c, p)))) (do (InsertSlot d (mkSlot mp c p))) (fun _ => Ev conns []).
Proof.
  apply triple_do. intros w [[Hd _] Hb]. apply ev_all. intros d' s. unfold play; cbn.
  rewrite lookup_insert_Some. intros [[<- <-]|[_ Hs]]; apply backed_more; auto.
Qed.

Lemma ev_ensure cfg d : triple (Ev (proxy_conns cfg) []) (ensure_device_ready cfg d) (fun _ => Ev (proxy_conns cfg) []).
Proof.
  eapply (triple_bind _ _ _ (fun _ => Ev (proxy_conns cfg) [])).
  { eapply triple_bind; [by apply ev_step|]. intros [s|]; [|by apply triple_ret].
    eapply triple_bind; [apply ev_calm, calm_device_healthy|]. intros []; [by apply triple_ret|].
    eapply triple_bind; [apply ev_teardown|]. intros ?. eapply triple_bind; [by apply ev_step|]. intros ?. by apply triple_ret. }
  intros []; cbn [negb]; [|by apply triple_ret].
  eapply triple_bind; [apply ev_calm, calm_make_mountpoint|]. intros []; cbn [negb]; [|by apply triple_ret].
  eapply triple_bind; [apply ev_setup|]. intros [[[c p]|e]|]; [|by apply triple_ret; intros w [? _]..].
  eapply triple_bind; [apply ev_insert|]. intros ?. eapply triple_bind; [by apply ev_step|]. intros ?. by apply triple_ret.
Qed.

Lemma ev_events cfg evs : triple (Ev (proxy_conns cfg) []) (handle_events cfg evs) (fun _ => Ev (proxy_conns cfg) []).
Proof.
  induction evs as [|ev evs IH]; [by apply triple_ret|].
  eapply (triple_bind _ _ _ (fun _ => Ev (proxy_conns cfg) [])); [|intros []; [exact IH|by apply triple_ret]].
  destruct ev as [d|d|d]; [apply ev_ensure| |apply ev_ensure]. cbn [handle_event].
  eapply triple_bind; [by apply ev_step|]. intros ?. eapply triple_bind; [by apply ev_step|].
  intros [s|]; [|by apply triple_ret]. eapply (triple_bind _ _ _ (fun _ => Ev (proxy_conns cfg) [])); [|intros ?; by apply triple_ret].
  eapply triple_bind; [apply ev_teardown|]. intros ?. apply ev_calm. destruct (mountpoint s); repeat calm_step.
Qed.

End Logic.

(** ** Only phones the watcher lists *)

(** The only device the program inserts a slot for is [d]. *)
Fixpoint inserts_only {A} (d : bytes) (p : prog A) : Prop :=
  match p with
  | Ret _ => True
  | Do c k => match c with InsertSlot d' _ => d' = d | _ => True end /\ forall r, inserts_only d (k r)
  end.
Lemma inserts_only_bind {A B} d (p : prog A) (k : A -> prog B) :
  inserts_only d p -> (forall a, inserts_only d (k a)) -> inserts_only d (p ≫= k).
Proof. induction p as [a|R c k' IH]; cbn; intros Hp Hk; [apply Hk|]. destruct Hp. auto. Qed.
Lemma calm_inserts_only {A} d (p : prog A) : calm p -> inserts_only d p.
Proof. induction p as [a|R c k IH]; cbn; [done|]. intros [Hq Hc]. split; [by destruct c|auto]. Qed.
Ltac inserts_step :=
  match goal with
  | |- inserts_only _ (_ ≫= _) => apply inserts_only_bind; [|intros ?]
  | |- inserts_only _ (if ?b then _ else _) => destruct b
  | |- inserts_only _ (match ?x with _ => _ end) => destruct x
  | |- inserts_only _ (do _) => by cbn
  | |- inserts_only _ (mret _) => by cbn
  | |- inserts_only _ _ => apply calm_inserts_only; auto using calm_device_healthy, calm_make_mountpoint, calm_locate, calm_push_tries, calm_finish_setup
  end.
Lemma ensure_inserts_only cfg d : inserts_only d (ensure_device_ready cfg d).
Proof. unfold ensure_device_ready, clear_broken, setup, teardown_device, allocate_host_port. repeat inserts_step. Qed.
Lemma release_inserts_only d d' s : inserts_only d' (release_slot d s).
Proof. unfold release_slot, teardown_device. repeat inserts_step. Qed.

Lemma run_slots o {A} d (p : prog A) w : inserts_only d p -> dom (devices (run o p w).2) ⊆ dom (devices w) ∪ {[d]}.
Proof.
  revert w. induction p as [a|R c k IH]; intros w Hp; cbn [run]; [set_solver|]. destruct Hp as [Hc Hk].
  destruct (play o c w) as [r w'] eqn:Hpl. etransitivity; [apply IH, Hk|].
  assert (dom (devices w') ⊆ dom (devices w) ∪ {[d]}); [|set_solver].
  revert Hpl Hc. unfold play.
  destruct c; cbn; intros [= _ <-] Hc; cbn; rewrite ?dom_insert_L, ?dom_delete_L, ?dom_empty_L; set_solver.
Qed.

Definition slots (w : world) : gset bytes := dom (devices w).

Lemma event_slots o cfg ev w :
  let w' := (run o (handle_event cfg ev) w).2 in
  slots w' ⊆ match ev with Added d | Changed d => slots w ∪ {[d]} | Removed d => slots w ∖ {[d]} end.
Proof.
  destruct ev as [d|d|d]; [apply run_slots, ensure_inserts_only| |apply run_slots, ensure_inserts_only].
  cbn [handle_event]. rewrite run_bind, run_do. unfold play at 1; cbn [react]. rewrite run_bind, run_do.
  unfold play at 1; cbn [react devices log]. destruct (devices w !! d) as [s|] eqn:Hd; cbv iota beta zeta.
  2: { cbn. unfold slots. by rewrite dom_delete_L. }
  rewrite run_bind. match goal with |- context [run o (release_slot d s) ?v] => set (w1 := v) end.
  assert (Hr : forall d', slots (run o (release_slot d s) w1).2 ⊆ (slots w ∖ {[d]}) ∪ {[d']}).
  { intros d'. unfold slots. etransitivity; [apply (run_slots o d'), release_inserts_only|]. cbn. by rewrite dom_delete_L. }
  destruct (run o (release_slot d s) w1) as [? w2]. cbn in *.
  pose proof (Hr d). pose proof (Hr (0 :: d)). assert (0 :: d <> d) by (intros E; apply (f_equal length) in E; cbn in E; lia).
  set_solver.
Qed.

Lemma events_app o cfg evs evs' w :
  let '(alive, w') := run o (handle_events cfg evs) w in
  run o (handle_events cfg (evs ++ evs')) w = if alive then run o (handle_events cfg evs') w' else (false, w').
Proof.
  revert w. induction evs as [|ev evs IH]; intros w; [done|]. cbn [handle_events app]. rewrite !run_bind.
  destruct (run o (handle_event cfg ev) w) as [[] w']; [apply IH|done].
Qed.

(** A run of events: slots come only with [Added] and [Changed]; a list of
    removals takes all of its devices. *)
Lemma events_slots o cfg evs w :
  accounted o w -> let w' := (run o (handle_events cfg evs) w).2 in
  accounted o w' /\ (forall d, d ∈ slots w' -> d ∈ slots w \/ Added d ∈ evs \/ Changed d ∈ evs)
  /\ ((forall ev, ev ∈ evs -> exists d, ev = Removed d) -> forall d, d ∈ slots w' -> d ∈ slots w /\ Removed d ∉ evs).
Proof.
  revert w. induction evs as [|ev evs IH]; intros w Hw.
  { cbn. split; [done|]. split; [by auto|]. intros _ d Hd. split; [done|apply not_elem_of_nil]. }
  cbn [handle_events]. rewrite run_bind. pose proof (event_ok o cfg ev w Hw) as Ho. pose proof (event_slots o cfg ev w) as He.
  destruct (run o (handle_event cfg ev) w) as [alive w1]. destruct Ho as [-> Hw1]. cbn in He.
  destruct (IH w1 Hw1) as (Hacc & Hin & Hrem). split; [done|]. split.
  - intros d Hd. rewrite !elem_of_cons. destruct (Hin d Hd) as [H1|[|]]; auto. apply He in H1.
    destruct ev as [d'|d'|d']; set_unfold in H1; intuition (subst; auto).
  - intros Hall d Hd. destruct (Hrem (fun e He => Hall e (list_elem_of_further _ _ _ He)) d Hd) as [H1 Hn]. apply He in H1.
    destruct (Hall ev (list_elem_of_here _ _)) as [d' ->]. rewrite elem_of_cons.
    apply elem_of_difference in H1 as [? Hne]. split; [done|]. intros [[= ->]|]; [|done]. by apply Hne, elem_of_singleton.
Qed.

Lemma poll_slots o cfg f last w :
  accounted o w -> (forall d, d ∈ slots w -> d ∈ ids last) ->
  let w' := (run o (handle_events cfg (poll f last).1) w).2 in
  accounted o w' /\ forall d, d ∈ slots w' -> d ∈ ids (poll f last).2.
Proof.
  intros Hw Hs. unfold poll. destruct f as [cur|e]; [|done]. cbn [fst snd].
  pose proof (events_app o cfg (omap (appeared last) cur) (removed last cur) w) as Happ.
  pose proof (events_ok o cfg (omap (appeared last) cur) w Hw) as Hal.
  destruct (events_slots o cfg (omap (appeared last) cur) w Hw) as (_ & Hin & _).
  destruct (run o (handle_events cfg (omap _ cur)) w) as [alive w1]. destruct Hal as [-> Hw1]. rewrite Happ. cbn [snd] in Hin.
  destruct (events_slots o cfg (removed last cur) w1 Hw1) as (Hacc & _ & Hrem). split; [done|]. intros d Hd.
  apply Hrem in Hd as [Hd Hn].
  2: { intros ev (p & Hp & Hev)%list_elem_of_omap. case_bool_decide; [done|]. simplify_eq. eauto. }
  assert (Happeared : forall ev, ev ∈ omap (appeared last) cur -> exists q, q ∈ cur /\ (ev = Added (id q) \/ ev = Changed (id q))).
  { intros ev (q & Hq & Hev)%list_elem_of_omap. exists q. split; [done|]. revert Hev. unfold appeared. repeat case_match; naive_solver. }
  apply Hin in Hd as [Hd|[Hd|Hd]].
  - apply Hs in Hd. destruct (decide (d ∈ ids cur)); [done|]. exfalso. apply Hn. apply elem_of_ids in Hd as (p & -> & Hp).
    apply list_elem_of_omap. exists p. by rewrite bool_decide_eq_false_2.
  - apply Happeared in Hd as (q & Hq & [[= ->]|[=]]). apply elem_of_ids. eauto.
  - apply Happeared in Hd as (q & Hq & [[=]|[= ->]]). apply elem_of_ids. eauto.
Qed.

(** Every slot is of a phone of the last list the server gave. *)
Lemma slots_are_listed o cfg polls :
  let '(evs, listed) := watch polls in
  forall d, d ∈ slots (run o (handle_events cfg evs) start).2 -> d ∈ ids listed.
Proof.
  enough (H : let '(evs, listed) := watch polls in
    accounted o (run o (handle_events cfg evs) start).2
    /\ forall d, d ∈ slots (run o (handle_events cfg evs) start).2 -> d ∈ ids listed) by (destruct (watch polls); apply H).
  induction polls as [|f polls IH] using rev_ind.
  { split; [apply start_accounted|]. intros d. cbn. set_solver. }
  unfold watch in *. rewrite foldl_app. cbn [foldl]. destruct (foldl _ _ polls) as [evs last].
  pose proof (poll_slots o cfg f last) as Hp. destruct (poll f last) as [e listed]. cbn [fst snd] in Hp.
  pose proof (events_app o cfg evs e start) as Happ. pose proof (events_ok o cfg evs start (start_accounted o)) as Hal.
  destruct (run o (handle_events cfg evs) start) as [alive w]. destruct Hal as [-> Hw]. rewrite Happ. by apply Hp; apply IH.
Qed.

(** Every slot was built on what it needs. *)
Lemma slots_are_backed o cfg evs :
  let w := (run o (handle_events cfg evs) start).2 in
  forall d s, devices w !! d = Some s -> backed (proxy_conns cfg) (log w) d s.
Proof.
  assert (Hs : Ev (proxy_conns cfg) [] start) by (apply ev_all; intros d s H; cbn in H; by rewrite lookup_empty in H).
  pose proof (ev_events o cfg evs start Hs) as H. destruct (run o (handle_events cfg evs) start) as [? w].
  destruct H as [H _]. exact H.
Qed.


(** A phone that is set up and answers, or whose pool is only busy, is left
    alone by [Added] and [Changed]: nothing is killed, pushed or forwarded. *)
Theorem healthy_left_alone o cfg d s w :
  devices w !! d = Some s ->
  (answer o (S (length (log w))) _ (StatRoot (slot_client s)) = Some (Ok tt)
   \/ answer o (S (length (log w))) _ (StatRoot (slot_client s)) = Some (Err Busy)) ->
  let '(alive, w') := run o (ensure_device_ready cfg d) w in
  alive = true /\ devices w' = devices w
  /\ exists r, log w' = log w ++ [Played (FindSlot d) (Some s); Played (StatRoot (slot_client s)) r].
Proof.
  intros Hd Ha. unfold ensure_device_ready, clear_broken. rewrite !run_bind, run_do.
  unfold play at 1; cbn [react]. rewrite Hd. unfold device_healthy. rewrite !run_bind, run_do.
  unfold play; cbn [react log devices]. rewrite length_app, Nat.add_1_r.
  destruct Ha as [-> | ->]; cbn; (split; [done|]; split; [done|]; eexists; by rewrite <- app_assoc).
Qed.

(** ** Runs *)

Definition fine : result bytes status := Ok (mkStatus true (bs "exit status: 0")).
(** A machine where all goes well, but for the [adb forward] when [slow]. *)
Definition calm_answer (slow : bool) (n : nat) (R : Type) (c : cmd R) : R :=
  match c in cmd R return R with
  | Adb (Forward _ _) => if slow then Err (bs "timed out") else fine
  | Adb _ => fine
  | AdbOutput _ => Some (bs "arm64-v8a")
  | AdbShell _ _ => Ok []
  | Launch _ _ => Some tt
  | EnvProxyBin => None
  | EnvPath => None
  | CurrentExe => Some (bs "/usr/bin/adb-daemon")
  | Exists p => bool_decide (p = bs "/usr/lib/adbshare/adbshare-proxy")
  | IsFile _ => false
  | ReadFile _ => None
  | BindEphemeral => Err []
  | Connect _ _ => Some (Ok (Z.of_nat n))
  | StatRoot _ => Some (Ok tt)
  | SpawnFuse _ _ _ => Ok tt
  | CreateDirAll _ => true
  | Fusermount _ => tt
  | UmountLazy _ => tt
  | FindSlot _ => None
  | RemoveSlot _ => None
  | InsertSlot _ _ => tt
  | TakeSlots => []
  | RetryFailedFor _ => 0
  | StopLogcat _ => tt
  end.
Definition calm_port (n : nat) (used : gset Z) : result bytes Z :=
  let p := 40000 + Z.of_nat n in if decide (p ∈ used) then Err (bs "in use") else Ok p.
Lemma calm_port_free n used p : calm_port n used = Ok p -> p ∉ used.
Proof. unfold calm_port. by case_decide; intros [= <-]. Qed.
Definition machine (slow : bool) : outside := mkOutside (calm_answer slow) calm_port (fun _ => true) (fun _ _ => false) calm_port_free.
Definition cfg0 : config := mkConfig (bs "/run/user/1000/adbshare") false 4.

Definition outcome (o : outside) (evs : list WatchEvent) : list (bytes * DeviceSlot) * list (Z * bytes) :=
  let w := (run o (handle_events cfg0 evs) start).2 in (map_to_list (devices w), map_to_list (forwards w)).

(** A phone comes, changes, and goes. *)
Example phone_comes_and_goes :
  outcome (machine false) [Added (bs "A"); Changed (bs "A")]
    = ([(bs "A", mkSlot (Some (bs "/run/user/1000/adbshare/A")) 19 40013)], [(40013, bs "A")])
  /\ outcome (machine false) [Added (bs "A"); Changed (bs "A"); Removed (bs "A")] = ([], []).
Proof. split; vm_compute; reflexivity. Qed.

(** An [adb forward] that is served after its time limit is never taken back:
    the phone has no slot, and neither unplugging it nor the shutdown removes
    the forward. *)
Example late_forward_stays :
  outcome (machine true) [Added (bs "A"); Removed (bs "A")] = ([], [(40013, bs "A")])
  /\ forwards (run (machine true) shutdown (run (machine true) (handle_events cfg0 [Added (bs "A"); Removed (bs "A")]) start).2).2
     = {[40013 := bs "A"]}.
Proof. split; vm_compute; reflexivity. Qed.

