(* ===== verification/DaemonShutdown.v ===== *)
(** * The end of the daemon beside its watcher task

    [adb-daemon/src/main.rs]: ctrl-c ends the wait of [main], which then takes
    the slots and releases them, while the spawned watcher task goes on with the
    events of the devices. Here the two tasks of [DaemonDevices] take turns
    command by command, in any order, over the outside of [DaemonDevicesSpec]. *)

From stdpp Require Import base gmap list strings.
From S2P Require Import Prelude RustStd Text Watcher ProxyClient DaemonInput DaemonDevices DaemonDevicesSpec.

(** ** The two tasks *)

(** What is left of the watcher task and of [main] behind ctrl-c. *)
Record tasks := mkTasks { watching : prog bool; closing : prog unit; outer : world }.

Definition advance (o : outside) {A} (p : prog A) (w : world) : prog A * world :=
  match p with
  | Ret a => (Ret a, w)
  | Do c k => let '(r, w) := play o c w in (k r, w)
  end.

(** [true]: the watcher task is scheduled. *)
Definition turn (o : outside) (t : tasks) (watcher : bool) : tasks :=
  if watcher then let '(p, w) := advance o (watching t) (outer t) in mkTasks p (closing t) w
  else let '(p, w) := advance o (closing t) (outer t) in mkTasks (watching t) p w.

Definition together (o : outside) (cfg : config) (evs : list WatchEvent) (schedule : list bool) : tasks :=
  foldl (turn o) (mkTasks (handle_events cfg evs) shutdown start) schedule.

(** Every branch of what is left removes the forward at [p] of [d], or
    hands it to a slot: [d] is being set up or taken down. *)
Definition settles {R} (d : bytes) (p : Z) (c : cmd R) : Prop :=
  match c with
  | Adb (Unforward d' p') => d' = d /\ p' = p
  | InsertSlot d' s => d' = d /\ host_port s = p
  | _ => False
  end.
Fixpoint settling {A} (d : bytes) (p : Z) (q : prog A) : Prop :=
  match q with
  | Ret _ => False
  | Do c k => settles d p c \/ forall r, settling d p (k r)
  end.

(** ** What the watcher task knows and owes *)

(** Nothing; the slot it found for [d], and whether its forward has been taken
    back; that [d] has no slot; that moreover it has the forward of [d] at [p]
    to account for. *)
Inductive ghost :=
| GNone | GFound (d : bytes) (s : DeviceSlot) (back : bool) | GAbsent (d : bytes) | GOwes (d : bytes) (p : Z).

Definition free (g : ghost) : Prop := match g with GOwes _ _ => False | _ => True end.
Definition owing (g : ghost) (d : bytes) (p : Z) : Prop := g = GOwes d p.

Definition holds (g : ghost) (w : world) : Prop :=
  match g with
  | GNone => True
  | GFound d s back =>
      (forall s', devices w !! d = Some s' -> s' = s)
      /\ (back = true -> forwards w !! host_port s = Some d -> troubled (log w) d (host_port s))
  | GAbsent d | GOwes d _ => devices w !! d = None
  end.

(** What a command with its answer may do to this. *)
Definition gstep {R} (c : cmd R) : R -> ghost -> ghost -> Prop :=
  match c in cmd R return R -> ghost -> ghost -> Prop with
  | FindSlot d => fun r g g' =>
      g' = g \/ (free g /\ g' = match r with Some s => GFound d s false | None => GAbsent d end)
  | RemoveSlot d => fun r g g' =>
      free g /\ match r with
                | None => g' = GAbsent d
                | Some s => g' = GOwes d (host_port s) \/ exists s', g = GFound d s' true /\ g' = GAbsent d
                end
  | InsertSlot d s => fun _ g g' => g = GOwes d (host_port s) /\ g' = GNone
  | TakeSlots => fun _ _ _ => False
  | Adb (Forward d p) => fun r g g' => g = GAbsent d /\ g' = (if worked r then GOwes d p else GAbsent d)
  | Adb (Unforward d p) => fun _ g g' =>
      (g = GOwes d p /\ g' = GAbsent d) \/ exists s b, g = GFound d s b /\ p = host_port s /\ g' = GFound d s true
  | _ => fun _ g g' => g' = g
  end.

Fixpoint obeys {A} (g : ghost) (p : prog A) (Q : A -> ghost -> Prop) : Prop :=
  match p with
  | Ret a => Q a g
  | Do c k => forall r, exists g', gstep c r g g' /\ obeys g' (k r) Q
  end.

Lemma obeys_bind {A B} g (p : prog A) (k : A -> prog B) Q :
  obeys g p (fun a g' => obeys g' (k a) Q) -> obeys g (p ≫= k) Q.
Proof.
  revert g. induction p as [a|R c k' IH]; intros g; [done|]. cbn. intros H r. destruct (H r) as (g' & Hs & Ho). eauto.
Qed.
Lemma obeys_mono {A} g (p : prog A) (Q Q' : A -> ghost -> Prop) :
  (forall a g, Q a g -> Q' a g) -> obeys g p Q -> obeys g p Q'.
Proof.
  intros HQ. revert g. induction p as [a|R c k IH]; intros g; cbn; [apply HQ|].
  intros H r. destruct (H r) as (g' & Hs & Ho). eauto.
Qed.
Lemma quiet_gstep {R} (c : cmd R) r g : quiet c = true -> gstep c r g g.
Proof. destruct c as [[]| | | | | | | | | | | | | | | | | | | | | |]; cbn; try done; auto. Qed.
Lemma obeys_calm {A} g (p : prog A) (P : A -> Prop) Q :
  calm p -> leaves P p -> (forall a, P a -> Q a g) -> obeys g p Q.
Proof.
  induction p as [a|R c k IH]; cbn; [auto|]. intros [Hq Hc] Hl HQ r. exists g. split; [by apply quiet_gstep|auto].
Qed.
Lemma obeys_quiet {R} (c : cmd R) g (Q : R -> ghost -> Prop) : quiet c = true -> (forall r, Q r g) -> obeys g (do c) Q.
Proof. intros Hq HQ r. exists g. split; [by apply quiet_gstep|apply HQ]. Qed.
Lemma obeys_any {A} g (p : prog A) (Q : A -> ghost -> Prop) : calm p -> (forall a, Q a g) -> obeys g p Q.
Proof. intros Hc HQ. apply (obeys_calm g p (fun _ => True)); auto using leaves_any. Qed.

(** ** The watcher task keeps to it *)

(** [free], and the task has not panicked. *)
Definition rested (alive : bool) (g : ghost) : Prop := alive = true /\ free g.

Lemma teardown_obeys d p g g' (Q : unit -> ghost -> Prop) :
  (forall r, gstep (Adb (Unforward d p)) r g g') -> Q tt g' -> obeys g (teardown_device d p) Q.
Proof.
  intros Hg HQ. unfold teardown_device. apply obeys_bind, obeys_quiet; [done|]. intros ?.
  apply obeys_bind. intros r'. exists g'. split; [apply Hg|]. exact HQ.
Qed.

Lemma release_obeys d s (Q : unit -> ghost -> Prop) :
  Q tt (GAbsent d) -> obeys (GOwes d (host_port s)) (release_slot d s) Q.
Proof.
  intros HQ. unfold release_slot. apply obeys_bind. eapply teardown_obeys; [by left|].
  destruct (mountpoint s); [|done]. apply obeys_quiet; [done|]. by intros [].
Qed.

Lemma clear_broken_obeys d g : free g ->
  obeys g (clear_broken d) (fun go g' => if go : bool then g' = GAbsent d else free g').
Proof.
  intros Hf. unfold clear_broken. apply obeys_bind. intros [s|]; [exists (GFound d s false)|exists (GAbsent d)]; (split; [by right|]);
    [|done].
  apply obeys_bind, obeys_any; [apply calm_device_healthy|]. intros []; [done|].
  apply obeys_bind. eapply teardown_obeys; [intros ?; right; eauto|].
  apply obeys_bind. intros r. exists (GAbsent d). split; [|done]. split; [done|].
  destruct r; [right; eauto|done].
Qed.

Lemma setup_obeys d mp conns :
  obeys (GAbsent d) (setup d mp conns) (fun out g' =>
    match out with None => False | Some (Ok (_, p)) => g' = GOwes d p | Some (Err _) => g' = GAbsent d end).
Proof.
  unfold setup. apply obeys_bind, obeys_any; [apply calm_locate|]. intros [src|e]; [|done].
  apply obeys_bind. eapply obeys_calm; [apply calm_push_tries|apply push_tries_decides; auto|].
  intros [[st|] [e|]] Hne; try done. destruct (success st); cbn [negb]; [|done].
  apply obeys_bind, obeys_quiet; [done|]. intros ?. unfold allocate_host_port. apply obeys_bind. intros [p|e]; (eexists; split; [reflexivity|]); [|done].
  apply obeys_bind. intros fwd. eexists. split; [by split|]. cbn [obeys].
  destruct fwd as [st'|e]; cbn [worked]; [|done]. destruct (success st'); cbn [negb]; [|done].
  apply obeys_bind. eapply obeys_calm; [apply calm_finish_setup|apply finish_setup_port|].
  intros [[c p']|e] Hp; [by rewrite (Hp c p' eq_refl)|].
  apply obeys_bind. eapply teardown_obeys; [by left|]. done.
Qed.

Lemma ensure_obeys cfg d g : free g -> obeys g (ensure_device_ready cfg d) rested.
Proof.
  intros Hf. unfold ensure_device_ready. apply obeys_bind. eapply obeys_mono; [|by apply clear_broken_obeys].
  intros [] g' Hg; cbn [negb]; [|by split]. subst g'. apply obeys_bind, obeys_any; [apply calm_make_mountpoint|].
  intros []; cbn [negb]; [|by split]. apply obeys_bind. eapply obeys_mono; [|apply setup_obeys].
  intros [[[c p]|e]|] g' Hg; [| |done]; [|by subst; split]. subst g'. apply obeys_bind. intros []. exists GNone. split; [done|].
  apply obeys_bind, obeys_quiet; [done|]. intros ?. by split.
Qed.

Lemma event_obeys cfg ev g : free g -> obeys g (handle_event cfg ev) rested.
Proof.
  intros Hf. destruct ev as [d|d|d]; [by apply ensure_obeys| |by apply ensure_obeys]. cbn [handle_event].
  apply obeys_bind, obeys_quiet; [done|]. intros ?. apply obeys_bind.
  intros [s|]; [exists (GOwes d (host_port s))|exists (GAbsent d)]; (split; [split; auto|]); [|by split].
  cbn [obeys]. apply obeys_bind, release_obeys. by split.
Qed.

Lemma events_obeys cfg evs g : free g -> obeys g (handle_events cfg evs) rested.
Proof.
  revert g. induction evs as [|ev evs IH]; intros g Hf; [by split|]. cbn [handle_events]. apply obeys_bind.
  eapply obeys_mono; [|by apply event_obeys]. intros alive g' [-> Hf']. by apply IH.
Qed.

(** A task that owes a forward is settling it. *)
Lemma owes_settles {A} d p (q : prog A) Q : (forall a g, Q a g -> free g) -> obeys (GOwes d p) q Q -> settling d p q.
Proof.
  intros HQ. induction q as [a|R c k IH]; intros H; [by apply HQ in H|]. cbn [settling].
  assert (Hc : settles d p c \/ forall r g', gstep c r (GOwes d p) g' -> g' = GOwes d p).
  { destruct c as [[]| | | | | | | | | | | | | | | | | | | | | |]; cbn; try (right; by intros ? ? ?);
      try (right; intros ? ? H'; naive_solver).
    - left. destruct (H (Err [])) as (g' & Hs & _). cbn in Hs. destruct Hs as [[[= -> ->] _]|(s & b & [=] & _)]. done.
    - left. destruct (H tt) as (g' & Hs & _). cbn in Hs. destruct Hs as [[= -> ->] _]. done. }
  destruct Hc as [|Hc]; [by left|right]. intros r. destruct (H r) as (g' & Hs & Ho). rewrite (Hc r g' Hs) in Ho. auto.
Qed.

(** ** What the shutdown owes *)

Definition cstep {R} (c : cmd R) : R -> list (bytes * Z) -> list (bytes * Z) -> Prop :=
  match c in cmd R return R -> list (bytes * Z) -> list (bytes * Z) -> Prop with
  | TakeSlots => fun r K K' => K' = ((fun x => (x.1, host_port x.2)) <$> r) ++ K
  | Adb (Unforward d p) => fun _ K K' => K = (d, p) :: K'
  | c => fun _ K K' => quiet c = true /\ K' = K
  end.

Fixpoint pays {A} (K : list (bytes * Z)) (p : prog A) : Prop :=
  match p with
  | Ret _ => K = []
  | Do c k => forall r, exists K', cstep c r K K' /\ pays K' (k r)
  end.

Lemma release_all_pays l : pays ((fun x => (x.1, host_port x.2)) <$> l) (release_all l).
Proof.
  induction l as [|[d s] l IH]; [done|]. cbn. intros _. eexists. split; [by split|]. intros r. eexists. split; [done|].
  destruct (mountpoint s); cbn; [|exact IH]. intros []. eexists. split; [by split|]. exact IH.
Qed.
Lemma shutdown_pays : pays [] shutdown.
Proof. intros l. eexists. split; [done|]. rewrite app_nil_r. apply release_all_pays. Qed.

(** ** The invariant *)

(** Every forward has a slot, a failed call, or is owed by one of the tasks. *)
Definition owned (g : ghost) (K : list (bytes * Z)) (w : world) : Prop :=
  forall p d, forwards w !! p = Some d ->
    slotted (devices w) d p \/ troubled (log w) d p \/ owing g d p \/ (d, p) ∈ K.

Definition safe (t : tasks) : Prop :=
  exists g K, holds g (outer t) /\ obeys g (watching t) rested /\ pays K (closing t) /\ owned g K (outer t).

(** A step that adds neither forwards nor slots. *)
Lemma holds_shrink g w w' :
  holds g w -> (forall d s, devices w' !! d = Some s -> devices w !! d = Some s) ->
  (forall p d, forwards w' !! p = Some d -> forwards w !! p = Some d) -> (exists l, log w' = log w ++ l) -> holds g w'.
Proof.
  intros Hg Hd Hf [l Hl].
  assert (Hn : forall d, devices w !! d = None -> devices w' !! d = None).
  { intros d Hn. destruct (devices w' !! d) as [s|] eqn:E; [|done]. apply Hd in E. congruence. }
  destruct g as [|d s b|d|d p]; cbn in *; auto. destruct Hg as [H1 H2]. split; [auto|]. intros Hb Hp. rewrite Hl.
  auto using troubled_more.
Qed.

Section Steps.
Context (o : outside).

(** The outside of a quiet command. *)
Lemma play_quiet {R} (c : cmd R) w : quiet c = true ->
  devices (play o c w).2 = devices w /\ forwards (play o c w).2 = kept_by o (length (log w)) (forwards w)
  /\ log (play o c w).2 = log w ++ [Played c (play o c w).1].
Proof.
  intros Hq. unfold play. destruct c as [[]| | | | | | | | | | | | | | | | | | | | | |]; cbn in *; try done.
  all: unfold adb_effect; by destruct (effective _ _ _).
Qed.

Lemma play_unforward d p w :
  let '(r, w') := play o (Adb (Unforward d p)) w in
  devices w' = devices w /\ (forall p' d', forwards w' !! p' = Some d' -> forwards w !! p' = Some d')
  /\ (forwards w' !! p = Some d -> troubled (log w') d p) /\ (exists l, log w' = log w ++ l).
Proof.
  unfold play. cbn. set (n := length _). set (r := answer _ _ _ _). split; [done|]. split_and!; [|intros Hp|by eexists].
  - intros p' d'. unfold adb_effect. destruct (effective o n r); [rewrite lookup_delete_Some; intros [_ H]|intros H]; by apply kept_lookup in H.
  - unfold adb_effect in Hp. destruct (effective o n r) eqn:He; [by rewrite lookup_delete_eq in Hp|].
    exists r. split; [by destruct r|]. right. apply elem_of_app. right. by apply list_elem_of_singleton.
Qed.

(** A quiet step of either task. *)
Lemma quiet_owned {R} (c : cmd R) g K w : quiet c = true -> holds g w -> owned g K w ->
  holds g (play o c w).2 /\ owned g K (play o c w).2.
Proof.
  intros Hq Hg Ho. destruct (play_quiet c w Hq) as (E1 & E2 & E3).
  assert (Hf : forall p d, forwards (play o c w).2 !! p = Some d -> forwards w !! p = Some d) by (intros p d; rewrite E2; apply kept_lookup).
  split.
  - eapply holds_shrink; [done| |done|by eexists]. by rewrite E1.
  - intros p d Hp%Hf. destruct (Ho p d Hp) as [|[|]]; rewrite ?E1, ?E3; auto using troubled_more.
Qed.

Lemma watcher_step {R} (c : cmd R) g g' K w :
  holds g w -> owned g K w -> gstep c (play o c w).1 g g' ->
  holds g' (play o c w).2 /\ owned g' K (play o c w).2.
Proof.
  intros Hg Ho Hs. destruct (quiet c) eqn:Hq.
  { destruct (quiet_owned c g K w Hq Hg Ho) as [Hg2 Ho2].
    destruct c as [[]| | | | | | | | | | | | | | | | | | | | | |]; cbn in Hs; try discriminate Hq; try (by subst g').
    destruct Hs as [->|[Hfree ->]]; [done|].
    assert (Ho3 : forall g3, owned g3 K (play o (FindSlot device) w).2).
    { intros g3 p d Hp. destruct (Ho2 p d Hp) as [|[|[Hx|]]]; auto. rewrite Hx in Hfree. done. }
    split; [|apply Ho3]. cbn in *. destruct (devices w !! device) as [s|] eqn:Ed; [|done]. split; [intros s' Hs'; cbn in Hs'; congruence|done]. }
  destruct c as [[| |d p|d p|]| | | | | | | | | | | | | | | | | |d|d s| | | ]; try discriminate Hq; cbn [gstep] in Hs.
  - (* forward *)
    destruct Hs as [-> ->]. unfold play in *. cbn in *. set (n := length _) in *. set (r := answer _ _ _ _) in *.
    split; [by destruct (worked r)|]. intros p' d' Hp. cbn in Hp |- *.
    assert (Hold : forwards w !! p' = Some d' -> slotted (devices w) d' p' \/ troubled (log w ++ [Played (Adb (Forward d p)) r]) d' p'
      \/ owing (if worked r then GOwes d p else GAbsent d) d' p' \/ (d', p') ∈ K).
    { intros H. destruct (Ho p' d' H) as [|[|[[=]|]]]; auto using troubled_more. }
    unfold adb_effect in Hp. destruct (effective o n r) eqn:He; [|by apply Hold, (kept_lookup o n)].
    apply lookup_insert_Some in Hp as [[<- <-]|[_ Hp]]; [|by apply Hold, (kept_lookup o n)].
    destruct (worked r) eqn:Hw; [by do 2 right; left|]. right; left. exists r. split; [done|]. left.
    apply elem_of_app. right. by apply list_elem_of_singleton.
  - (* unforward *)
    pose proof (play_unforward d p w) as Hu. destruct (play o (Adb (Unforward d p)) w) as [r w']. cbn in Hs |- *.
    destruct Hu as (E1 & E2 & E3 & [l E4]).
    assert (Hold : forall p' d', forwards w' !! p' = Some d' -> slotted (devices w') d' p' \/ troubled (log w') d' p' \/ owing g d' p' \/ (d', p') ∈ K).
    { intros p' d' Hp%E2. destruct (Ho p' d' Hp) as [|[|]]; rewrite E1, E4; auto using troubled_more. }
    destruct Hs as [[-> ->]|(s & b & -> & -> & ->)].
    + split; [cbn in *; by rewrite E1|]. intros p' d' Hp. destruct (Hold p' d' Hp) as [|[|[Hx|]]]; auto.
      injection Hx as <- <-. right; left. by apply E3.
    + cbn in Hg |- *. split; [split; [by rewrite E1; apply Hg|by intros _]|].
      intros p' d' Hp. destruct (Hold p' d' Hp) as [|[|[Hx|]]]; auto. discriminate Hx.
  - (* a port *)
    subst g'. unfold play. cbn. split.
    + eapply holds_shrink; [done|done| |by eexists]. intros p d. cbn. apply kept_lookup.
    + intros p d Hp. cbn in Hp |- *. apply kept_lookup in Hp. destruct (Ho p d Hp) as [|[|]]; auto using troubled_more.
  - (* a slot is taken out *)
    unfold play in *. cbn in *. destruct Hs as [Hfree Hr].
    assert (Hgone : delete d (devices w) !! d = None) by apply lookup_delete_eq.
    assert (Hold : forall p' d', kept_by o (length (log w)) (forwards w) !! p' = Some d' ->
      slotted (delete d (devices w)) d' p' \/ troubled (log w ++ [Played (RemoveSlot d) (devices w !! d)]) d' p' \/ (d', p') ∈ K
      \/ (d' = d /\ slotted (devices w) d p')).
    { intros p' d' Hp. apply kept_lookup in Hp. destruct (Ho p' d' Hp) as [(s' & Hs' & Hh)|[|[Hx|]]]; auto using troubled_more.
      - destruct (decide (d' = d)) as [->|Hne]; [do 3 right; split; [done|by exists s']|]. left. exists s'. by rewrite lookup_delete_ne.
      - rewrite Hx in Hfree. done. }
    destruct (devices w !! d) as [s|] eqn:Ed.
    + destruct Hr as [->|(s' & -> & ->)]; (split; [done|]); intros p' d' Hp; destruct (Hold p' d' Hp) as [|[|[|(-> & s2 & Hs2 & <-)]]]; auto;
        rewrite Ed in Hs2; injection Hs2 as <-.
      * by do 2 right; left.
      * right; left. cbn in Hg. destruct Hg as [Hsame Hback]. rewrite (Hsame s Ed) in *. apply troubled_more, Hback; [done|]. by apply kept_lookup in Hp.
    + subst g'. split; [done|]. intros p' d' Hp. destruct (Hold p' d' Hp) as [|[|[|(-> & s2 & Hs2 & _)]]]; auto. congruence.
  - (* a slot is put in *)
    destruct Hs as [-> ->]. unfold play. cbn in *. split; [done|]. intros p' d' Hp. cbn in Hp |- *. apply kept_lookup in Hp.
    destruct (Ho p' d' Hp) as [(s' & Hs' & Hh)|[|[Hx|]]]; auto using troubled_more.
    + left. exists s'. split; [|done]. rewrite lookup_insert_ne; [done|]. intros <-. congruence.
    + injection Hx as <- <-. left. exists s. by rewrite lookup_insert_eq.
  - done.
Qed.

Lemma closing_step {R} (c : cmd R) g K K' w :
  holds g w -> owned g K w -> cstep c (play o c w).1 K K' ->
  holds g (play o c w).2 /\ owned g K' (play o c w).2.
Proof.
  intros Hg Ho Hs. destruct (quiet c) eqn:Hq.
  { destruct (quiet_owned c g K w Hq Hg Ho) as [Hg2 Ho2].
    destruct c as [[]| | | | | | | | | | | | | | | | | | | | | |]; cbn in Hs; try discriminate Hq; by destruct Hs as [_ ->]. }
  destruct c as [[| | |d p|]| | | | | | | | | | | | | | | | | | | | | |]; try discriminate Hq; cbn [cstep quiet] in Hs; try (by destruct Hs).
  - pose proof (play_unforward d p w) as Hu. destruct (play o (Adb (Unforward d p)) w) as [r w']. cbn in Hs |- *.
    destruct Hu as (E1 & E2 & E3 & [l E4]). subst K. split; [eapply holds_shrink; [done|by rewrite E1|done|by eexists]|].
    intros p' d' Hp. destruct (Ho p' d' (E2 _ _ Hp)) as [|[|[|[[= -> ->]|]%elem_of_cons]]]; rewrite ?E1, ?E4; auto using troubled_more.
    right; left. rewrite <- E4. by apply E3.
  - unfold play in *. cbn in *. subst K'. split.
    + eapply holds_shrink; [done| | |by eexists]; cbn; [intros d s; by rewrite lookup_empty|intros p d; apply kept_lookup].
    + intros p d Hp. cbn in Hp |- *. apply kept_lookup in Hp.
      destruct (Ho p d Hp) as [(s & Hs & <-)|[|[|]]]; auto using troubled_more; do 3 right; apply elem_of_app; [left|by right].
      apply list_elem_of_fmap. exists (d, s). split; [done|]. by apply elem_of_map_to_list.
Qed.

Lemma turn_safe t b : safe t -> safe (turn o t b).
Proof.
  intros (g & K & Hg & Hw & Hc & Ho). destruct t as [p q w]. unfold turn. cbn in *. destruct b.
  - destruct p as [a|R c k]; cbn; [by exists g, K|]. specialize (Hw (play o c w).1) as (g' & Hs & Hw).
    destruct (watcher_step c g g' K w Hg Ho Hs). destruct (play o c w) as [r w']. by exists g', K.
  - destruct q as [a|R c k]; cbn; [by exists g, K|]. specialize (Hc (play o c w).1) as (K' & Hs & Hc).
    destruct (closing_step c g K K' w Hg Ho Hs). destruct (play o c w) as [r w']. by exists g, K'.
Qed.

Lemma together_safe cfg evs schedule : safe (together o cfg evs schedule).
Proof.
  unfold together. assert (H : safe (mkTasks (handle_events cfg evs) shutdown start)).
  { exists GNone, []. split_and!; [done|by apply events_obeys|apply shutdown_pays|]. intros p d Hp. cbn in Hp. by rewrite lookup_empty in Hp. }
  revert H. generalize (mkTasks (handle_events cfg evs) shutdown start). induction schedule as [|b s IH]; intros t H; [done|].
  cbn. apply IH, turn_safe, H.
Qed.

End Steps.

(** C22: Whatever adb, the disk and the phones answer, and whatever devices
    come, change and go, the watcher task never panics, and every forward adb
    holds for it belongs to a device that is set up, or to an [adb forward] or
    [forward --remove] that reported a failure. As long as adb drops no forward by
    itself ([steady]; it does when a phone is unplugged), every device set up has its forward, on a port of its own. The
    shutdown, when the watcher task is between two events, leaves no device, and no forward but those of failed calls. Run
    beside the watcher task, in whatever order their commands are
    served, it leaves moreover only the forwards of the device
    the watcher is just setting up or taking down, and of those set up after the shutdown took the slots. *)
Theorem forwards_have_owners o cfg evs schedule :
  let '(alive, w) := run o (handle_events cfg evs) start in
  alive = true
  /\ (forall p d, forwards w !! p = Some d ->
        (exists s, devices w !! d = Some s /\ host_port s = p) \/ troubled (log w) d p)
  /\ (steady o -> forall d s, devices w !! d = Some s ->
        forwards w !! host_port s = Some d
        /\ forall d' s', devices w !! d' = Some s' -> host_port s' = host_port s -> d' = d)
  /\ (let w' := (run o shutdown w).2 in
      devices w' = ∅ /\ forall p d, forwards w' !! p = Some d -> troubled (log w') d p)
  /\ let t := together o cfg evs schedule in
     (forall alive, watching t = Ret alive -> alive = true)
     /\ (closing t = Ret tt -> forall p d, forwards (outer t) !! p = Some d ->
          (exists s, devices (outer t) !! d = Some s /\ host_port s = p) \/ troubled (log (outer t)) d p
          \/ settling d p (watching t)).
Proof.
  pose proof (events_ok o cfg evs start (start_accounted o)) as H.
  destruct (run o (handle_events cfg evs) start) as [alive w]. destruct H as [-> Hw]. split; [done|].
  pose proof (shutdown_ok o w Hw) as Hg. destruct (run o shutdown w) as [? w']. destruct Hw as [Ht Hs]. split.
  { intros p d Hp. destruct (Ht p d Hp) as [|[|[]]]; auto. }
  split.
  { intros Hst d s Hd. split; [by apply Hs|]. intros d' s' Hd' E.
    pose proof (Hs Hst d s Hd). pose proof (Hs Hst d' s' Hd'). congruence. }
  split.
  { cbn. split; [apply map_eq; intros d; rewrite lookup_empty; by destruct (Hg d) as (_ & ? & _)|].
    intros p d Hp. destruct (Hg d) as (Ht' & Hn & _). destruct (Ht' p d Hp) as [(s & Hs' & _)|[|[]]]; [congruence|done]. }
  destruct (together_safe o cfg evs schedule) as (g & K & _ & Hw & Hc & Ho). split.
  - intros a Ha. rewrite Ha in Hw. by destruct Hw.
  - intros Hr p d Hp. rewrite Hr in Hc. cbn in Hc. subst K. destruct (Ho p d Hp) as [|[|[->|[]%elem_of_nil]]]; auto.
    do 2 right. eapply owes_settles; [|exact Hw]. by intros ? ? [_ ?].
Qed.

(** The daemon is ended while a phone is being set up, right behind the [adb forward]:
    no slot is there to take, and the forward outlives the daemon. *)
Example forward_outlives_daemon :
  let t := together (machine false) cfg0 [Added (bs "A")] (replicate 15 true ++ [false]) in
  closing t = Ret tt /\ devices (outer t) = ∅ /\ forwards (outer t) = {[40013 := bs "A"]}.
Proof. vm_compute. done. Qed.

Lemma forwards_have_owners_witness :
  steady (machine false) /\ forall d s,
    devices (run (machine false) (handle_events cfg0 [Added (bs "A"); Added (bs "B")]) start).2 !! d = Some s ->
    forwards (run (machine false) (handle_events cfg0 [Added (bs "A"); Added (bs "B")]) start).2 !! host_port s = Some d.
Proof.
  split; [done|]. intros d s Hd. pose proof (forwards_have_owners (machine false) cfg0 [Added (bs "A"); Added (bs "B")] []) as H.
  destruct (run _ _ start) as [? w]. destruct H as (_ & _ & H & _). by apply (H (fun _ _ => eq_refl) d s Hd).
Defined.
