(* ===== verification/DaemonApi.v ===== *)
(** * Listings, jobs and status over the bus (adb-daemon/src/main.rs)

    The handlers of [ManagerInterface] that list a directory of a phone, put
    transfers on the queue and control them, and report the state of the
    daemon; and the readers of the logcat streams. A reply is the value
    [serde_json] serialises. *)

From stdpp Require Import base list gmap strings sorting.
From S2P Require Import Prelude RustStd Text ProxyOps Libc ProxyClient Cache Filesystem Job Queue PairPacket DaemonInput DaemonTree DaemonWalk DaemonDevices DaemonState DaemonInstall.

(** ** Directories *)

Record DirEntryDto : Type := mkEntry {
  e_name : bytes; e_is_dir : bool; e_is_symlink : bool; e_size : Z; e_mode : Z; e_mtime : Z }.

(** [DirEntryDto::from] *)
Definition entry_dto (e : DirEntry.t) : DirEntryDto :=
  let st := DirEntry.stat e in
  mkEntry (DirEntry.name e) (FileMode.is_dir (Stat.mode st)) (FileMode.is_symlink (Stat.mode st))
    (Stat.size st) (Stat.mode st) (Stat.mtime st).
Definition as_dir (d : DirEntryDto) : DirEntryDto :=
  mkEntry (e_name d) true (e_is_symlink d) (e_size d) (e_mode d) (e_mtime d).

Section handlers.
Context {P : Type} `{!FsProxy P, !CopyProxy P}.

(** One turn of the loop: a link that leads to a directory is shown as one. *)
Definition follow (path : bytes) (e : DirEntry.t) (p : P) : DirEntryDto * P :=
  let dto := entry_dto e in
  if e_is_symlink dto && negb (e_is_dir dto) then
    match p_stat (child_path path (e_name dto)) p with
    | (Ok st, p) => (if FileMode.is_dir (Stat.mode st) then as_dir dto else dto, p)
    | (Err _, p) => (dto, p)
    end
  else (dto, p).
Fixpoint follow_all (path : bytes) (es : list DirEntry.t) (p : P) : list DirEntryDto * P :=
  match es with
  | [] => ([], p)
  | e :: es =>
      let '(d, p) := follow path e p in
      let '(ds, p) := follow_all path es p in (d :: ds, p)
  end.

Definition list_dir (device path : bytes) : gmap bytes P -> result bus_error (list DirEntryDto) * gmap bytes P :=
  with_client (bs "listdir: ") device (fun p =>
    match p_listdir path p with
    | (Err e, p) => (Err (display e), p)
    | (Ok entries, p) => let '(dtos, p) := follow_all path entries p in (Ok dtos, p)
    end).

Definition copy_path_ok (path : bytes) : bool :=
  has_prefix (bs "/") path && negb (contains [0] path) && negb (zlen path >? 4096).
Definition copy_file (device src dst : bytes) (devices : gmap bytes P) : result bus_error unit * gmap bytes P :=
  if copy_path_ok src && copy_path_ok dst then
    with_client (bs "copy_file: ") device (fun p => fail_with display (p_copy_file src dst p)) devices
  else (Err (InvalidArgs (bs "copy paths must be absolute, non-NUL, and at most 4096 bytes")), devices).
End handlers.

(** ** Jobs *)

Record JobDto : Type := mkJobDto {
  d_id : Z; d_direction : Direction; d_source : bytes; d_destination : bytes; d_state : JobState;
  d_done : Z; d_total : Z; d_speed : Z; d_eta : Z; d_error : option bytes; d_device : option bytes }.

(** [JobDto::from], which reads the shared state of the job. *)
Definition job_dto (s : store) (j : Job) : JobDto :=
  let c := cell_of s j in
  mkJobDto (Job.id j) (direction j) (from_utf8_lossy (Job.source j)) (from_utf8_lossy (destination j))
    (Job.state c) (Job.bytes_done c) (Job.bytes_total c) (speed_bps c) (eta_secs c) (Job.error c) (Job.device j).

Definition list_jobs (w : Queue.world) : list JobDto := job_dto (heap w) <$> jobs_snapshot (queue w).

(** [self.queue.submit(Job::with_device(0, ..))] *)
Definition enqueue_job (dir : Direction) (src dst : bytes) (o : JobOptions) (device : bytes) (w : Queue.world) : Z * Queue.world :=
  let q := queue w in
  ((submit (with_device 0 dir src dst o (Some device) (next_id q) (heap w)).1 q).1,
   submit_whole dir src dst o (Some device) w).

Definition enqueue_push (device local_path device_path : bytes) : Queue.world -> Z * Queue.world :=
  enqueue_job Job.Push local_path device_path default_options device.
Definition enqueue_pull (device device_path local_path : bytes) : Queue.world -> Z * Queue.world :=
  enqueue_job Job.Pull device_path local_path default_options device.

Definition enqueue_with (dir : Direction) (device src dst overwrite : bytes) (verify : bool) (w : Queue.world)
    : result bus_error Z * Queue.world :=
  match parse_job_options overwrite verify with
  | Err e => (Err e, w)
  | Ok o => let '(i, w) := enqueue_job dir src dst o device w in (Ok i, w)
  end.
Definition enqueue_push_with_options (device local_path device_path : bytes) : bytes -> bool -> Queue.world -> result bus_error Z * Queue.world :=
  enqueue_with Job.Push device local_path device_path.
Definition enqueue_pull_with_options (device device_path local_path : bytes) : bytes -> bool -> Queue.world -> result bus_error Z * Queue.world :=
  enqueue_with Job.Pull device device_path local_path.

Definition pause_job (i : Z) (w : Queue.world) : bool * Queue.world :=
  ((Queue.pause_job i (queue w) (heap w)).1, Queue.exec (PauseJob i) w).
Definition resume_job (i : Z) (w : Queue.world) : bool * Queue.world :=
  ((Queue.resume_job i (queue w) (heap w)).1, Queue.exec (ResumeJob i) w).
Definition cancel_job (i : Z) (w : Queue.world) : bool * Queue.world :=
  ((Queue.cancel_job i (queue w) (heap w)).1.1, Queue.exec (CancelJob i) w).
Definition retry_failed (w : Queue.world) : Z * Queue.world :=
  ((Queue.retry_failed (queue w) (heap w)).1.1, retry_failed_whole w).

(** ** Status *)

(** The handler [mountpoint_for], on the slots. *)
Definition mountpoint_of (device : bytes) (slots : gmap bytes DeviceSlot) : result bus_error bytes :=
  ok_or (s ← slots !! device; m ← mountpoint s; Some (from_utf8_lossy m)) (ServiceUnknown (bs "device not mounted")).

(** Latest first. *)
Definition newer (a b : InstallStatus) : Prop := DaemonInstall.id b <= DaemonInstall.id a.
#[global] Instance newer_dec : RelDecision newer := fun a b => Z_le_dec _ _.
Definition install_status_all (s : DaemonInstall.State) : list InstallStatus :=
  merge_sort newer (snd <$> map_to_list (installs s)).

Record DeviceDiag : Type := mkDiag { diag_serial : bytes; mounted : bool }.
Record DiagnosticReport : Type := mkReport {
  adb_ok : bool; adb_version : bytes; adb_server : bytes; report_base : bytes; report_conns : Z; report_no_fuse : bool;
  helper_env_present : bool; helper_env_exists : bool; auth_key_path : bytes; diag_devices : list DeviceDiag }.

(** [version]: the exit status and output of [adb version], [None] when it did
    not run or not end in time; [helper]: the variable [ADBSHARE_PROXY_BIN];
    [is_file]: the files of this computer. *)
Definition diagnostics (slots : gmap bytes DeviceSlot) (server : bytes) (cfg : config) (key : option bytes)
    (version : option (bool * bytes)) (helper : option bytes) (is_file : bytes -> bool) : DiagnosticReport :=
  let '(ok, v) := match version with
    | Some (true, out) => (true, default [] (head (lines (from_utf8_lossy out))))
    | _ => (false, []) end in
  mkReport ok v server (from_utf8_lossy (mount_base cfg)) (proxy_conns cfg) (no_fuse cfg)
    (bool_decide (is_Some helper)) (match helper with Some p => is_file p | None => false end)
    (default [] (from_utf8_lossy <$> key))
    ((fun '(d, s) => mkDiag d (bool_decide (is_Some (mountpoint s)))) <$> map_to_list slots).

(** The fields of the object: [None] is [{"state": "none"}]. *)
Record QrStatus : Type := mkQrStatus {
  s_state : bytes; s_instance : bytes; s_guid : option bytes; s_address : option bytes; s_error : option bytes }.
Definition qr_pair_status (qr : option QrState) : option QrStatus :=
  (fun q => mkQrStatus (qr_state q) (PairPacket.instance (session q)) (guid q) (connect_address q) (qr_error q)) <$> qr.

(** ** Logcat streams *)

(** A reader task: not yet running, reading its child, or ended. *)
Inductive phase : Type := Spawning | Reading | Ended.
Record reader : Type := mkReader { r_serial : bytes; r_buffer : LogcatBuffer; r_stopped : bool; r_phase : phase }.

(** [streams] is the map of the state, to the number of the reader; [readers]
    are all the tasks ever started. *)
Record logcats : Type := mkLogcats { streams : gmap bytes nat; readers : list reader }.

Definition tell_stop (r : reader) : reader := mkReader (r_serial r) (r_buffer r) true (r_phase r).
Definition stop_logcat (serial : bytes) (s : logcats) : logcats :=
  match streams s !! serial with
  | Some i => mkLogcats (base.delete serial (streams s)) (alter tell_stop i (readers s))
  | None => s
  end.
Definition start_logcat (serial : bytes) (s : logcats) : logcats :=
  let s := stop_logcat serial s in
  mkLogcats (<[serial := length (readers s)]> (streams s)) (readers s ++ [mkReader serial empty_buffer false Spawning]).

(** A step of a reader: the child was started or not; a line came, which
    ends the stream when it is not UTF-8; the stop arrived; the output ended. *)
Inductive reading : Type := Spawned (ok : bool) | Line (text : bytes) | StopSeen | OutputEnds.
Definition read_step (x : reading) (r : reader) : reader :=
  match r_phase r, x with
  | Spawning, Spawned ok => mkReader (r_serial r) (r_buffer r) (r_stopped r) (if ok then Reading else Ended)
  | Reading, Line text =>
      if utf8_valid text then mkReader (r_serial r) (logcat_line text (r_buffer r)) (r_stopped r) Reading
      else mkReader (r_serial r) (r_buffer r) (r_stopped r) Ended
  | Reading, StopSeen => if r_stopped r then mkReader (r_serial r) (r_buffer r) true Ended else r
  | Reading, OutputEnds => mkReader (r_serial r) (r_buffer r) (r_stopped r) Ended
  | _, _ => r
  end.

(** [logcat_lines_json] *)
Definition stream_lines (serial : bytes) (since max : Z) (s : logcats) : Z * list (Z * bytes) :=
  match streams s !! serial ≫= (fun i => readers s !! i) with
  | Some r => logcat_lines since max (r_buffer r)
  | None => (since, [])
  end.

(** The handlers, with the devices that are set up. *)
Definition start_logcat_call (devices : gset bytes) (device : bytes) (s : logcats) : result bus_error bool * logcats :=
  if bool_decide (device = []) then (Err (InvalidArgs (bs "device is required")), s)
  else if bool_decide (device ∈ devices) then (Ok true, start_logcat device s)
  else (Err (ServiceUnknown (bs "device not connected")), s).
Definition stop_logcat_call (device : bytes) (s : logcats) : result bus_error bool * logcats := (Ok true, stop_logcat device s).

(** ** What a listing shows *)

Section listing.
Context {P : Type} `{!FsProxy P}.
(** [leads_to_dir]: the paths that lead to a directory, links followed, in
    every state [Inv] of the proxy. *)
Context (Inv : P -> Prop) (leads_to_dir : bytes -> bool).
Hypothesis stat_tells : forall q p, Inv p -> exists r p', p_stat q p = (r, p') /\ Inv p'
  /\ leads_to_dir q = match r with Ok st => FileMode.is_dir (Stat.mode st) | Err _ => false end.

(** How an entry of [path] is shown. *)
Definition shown_entry (path : bytes) (e : DirEntry.t) : DirEntryDto :=
  let st := DirEntry.stat e in
  mkEntry (DirEntry.name e)
    (FileMode.is_dir (Stat.mode st) || FileMode.is_symlink (Stat.mode st) && leads_to_dir (child_path path (DirEntry.name e)))
    (FileMode.is_symlink (Stat.mode st)) (Stat.size st) (Stat.mode st) (Stat.mtime st).

Lemma follow_spec path e p : Inv p -> exists p', follow path e p = (shown_entry path e, p') /\ Inv p'.
Proof.
  intros Hp. unfold follow, shown_entry. cbn [e_is_symlink e_is_dir e_name entry_dto].
  destruct (FileMode.is_symlink _) eqn:Hl, (FileMode.is_dir (Stat.mode (DirEntry.stat e))) eqn:Hd; cbn [andb negb orb].
  all: try (exists p; split; [unfold entry_dto; by rewrite Hl, Hd|done]).
  destruct (stat_tells (child_path path (DirEntry.name e)) p Hp) as (r & p' & -> & Hp' & ->).
  exists p'. split; [|done]. unfold as_dir, entry_dto. rewrite Hl, Hd. destruct r as [st|]; [|done].
  by destruct (FileMode.is_dir (Stat.mode st)).
Qed.
Lemma follow_all_spec path es p : Inv p -> exists p', follow_all path es p = (shown_entry path <$> es, p') /\ Inv p'.
Proof.
  revert p. induction es as [|e es IH]; intros p Hp; cbn [follow_all]; [by exists p|].
  destruct (follow_spec path e p Hp) as (p1 & -> & H1). destruct (IH p1 H1) as (p2 & -> & H2). by exists p2.
Qed.

(** A listing shows every entry the device lists, in its order, with
    its kind, size and time; a link is shown as a directory exactly when it leads
    to one. A device that is not set up is refused, and an error of the
    device is passed on. *)
Theorem list_dir_shows (device path : bytes) (devices : gmap bytes P) (p p' : P) (r : presult (list DirEntry.t)) :
  (devices !! device = None -> list_dir device path devices = (Err (ServiceUnknown (bs "device not connected")), devices))
  /\ (devices !! device = Some p -> p_listdir path p = (r, p') -> Inv p' ->
      exists p'', Inv p'' /\ list_dir device path devices
        = (match r with Ok es => Ok (shown_entry path <$> es) | Err e => Err (Failed_ (bs "listdir: " ++ display e)) end,
           <[device := p'']> devices)).
Proof.
  unfold list_dir, with_client, DaemonTree.client_for. split; [by intros ->|]. intros -> Hl Hp. rewrite Hl.
  destruct r as [es|e]; [|by exists p']. destruct (follow_all_spec path es p' Hp) as (p2 & -> & H2). by exists p2.
Qed.
End listing.

(** ** Jobs over the bus *)

Lemma list_jobs_ids w : d_id <$> list_jobs w = ids (jobs_snapshot (queue w)).
Proof. unfold list_jobs, ids. rewrite <- list_fmap_compose. by apply list_fmap_ext. Qed.

(** What the display makes of a change of the shared state. *)
Definition after_control (f : cell -> cell) (s : store) (i : Z) (j : Job) : JobDto :=
  if Job.id j =? i then job_dto (update f j s) j else job_dto s j.

Lemma snapshot_sub w j : j ∈ jobs_snapshot (queue w) -> j ∈ all_jobs w.
Proof. unfold jobs_snapshot, all_jobs. rewrite !elem_of_app. tauto. Qed.

Section reached.
Context (par n : Z) (w : Queue.world) (Hinv : queue_inv par n w).

Lemma same_id j k : j ∈ jobs_snapshot (queue w) -> k ∈ jobs_snapshot (queue w) -> Job.id j = Job.id k -> j = k.
Proof.
  intros Hj%snapshot_sub Hk%snapshot_sub Hid. pose proof (inv_nodup _ _ _ Hinv) as Hnd. unfold ids in Hnd.
  apply list_elem_of_lookup in Hj as [a Ha]. apply list_elem_of_lookup in Hk as [b Hb].
  assert (a = b) as ->; [|congruence]. eapply (NoDup_lookup _ a b (Job.id j) Hnd).
  - by rewrite list_lookup_fmap, Ha.
  - rewrite list_lookup_fmap, Hb. cbn. by rewrite Hid.
Qed.
Lemma arc_id j : j ∈ jobs_snapshot (queue w) -> arc j = Job.id j.
Proof. intros Hj%snapshot_sub. pose proof (qi_arcs _ _ _ Hinv) as H. rewrite Forall_forall in H. by apply H. Qed.

Lemma find_in i : Queue.find i (queue w) = List.find (is_id i) (jobs_snapshot (queue w)).
Proof.
  assert (H : forall (l k : list Job), List.find (is_id i) (l ++ k) = match List.find (is_id i) l with Some j => Some j | None => List.find (is_id i) k end).
  { induction l as [|j l IH]; intros k; [done|]. cbn. by destruct (is_id i j). }
  unfold Queue.find, jobs_snapshot. by rewrite !H.
Qed.

(** Pausing and resuming touch one job of the list, the one with the id. *)
Lemma on_found_shows f i :
  job_dto (Queue.on_found f i (queue w) (heap w)).2 <$> jobs_snapshot (queue w)
  = after_control f (heap w) i <$> jobs_snapshot (queue w)
  /\ (Queue.on_found f i (queue w) (heap w)).1 = bool_decide (i ∈ ids (jobs_snapshot (queue w))).
Proof.
  unfold Queue.on_found. rewrite find_in. destruct (List.find (is_id i) _) as [j|] eqn:E; cbn [fst snd].
  - pose proof (List.find_some _ _ E) as [Hj Hi]. apply list_elem_of_In in Hj. unfold is_id in Hi. bool_to_prop. split.
    + apply list_fmap_ext. intros a k Hk%list_elem_of_lookup_2. unfold after_control. case_bool; bool_to_prop.
      * by rewrite (same_id k j) by (done || lia).
      * unfold job_dto, update, cell_of. rewrite lookup_insert_ne; [done|]. rewrite !arc_id by done. lia.
    + symmetry. apply bool_decide_eq_true. apply list_elem_of_fmap. by exists j.
  - pose proof (List.find_none _ _ E) as Hn. assert (Hne : forall k, k ∈ jobs_snapshot (queue w) -> Job.id k <> i).
    { intros k Hk%list_elem_of_In. specialize (Hn k Hk). unfold is_id in Hn. bool_to_prop. done. }
    split.
    + apply list_fmap_ext. intros a k Hk%list_elem_of_lookup_2. unfold after_control. by rewrite (proj2 (Z.eqb_neq _ _)) by (by apply Hne).
    + symmetry. apply bool_decide_eq_false. intros (k & Hik & Hk)%list_elem_of_fmap. by apply (Hne k).
Qed.
End reached.

(** The new job, as it is shown. *)
Definition new_dto (i : Z) (dir : Direction) (src dst device : bytes) : JobDto :=
  mkJobDto i dir (from_utf8_lossy src) (from_utf8_lossy dst) Pending 0 0 0 0 None (Some device).

Lemma enqueue_shows par n w dir src dst o device : queue_inv par n w -> 0 <= n < 2 ^ 64 - 2 ->
  let '(i, w') := enqueue_job dir src dst o device w in
  i = n + 1
  /\ List.filter (fun d => d_id d =? i) (list_jobs w') = [new_dto i dir src dst device]
  /\ List.filter (fun d => negb (d_id d =? i)) (list_jobs w') = list_jobs w.
Proof.
  intros Hinv Hn. destruct Hinv as [Hnext Hids Harcs _]. unfold enqueue_job, submit_whole.
  destruct (send_keeps (Queue.exec (Submit dir src dst o (Some device)) w)) as (S1 & S2 & S3 & _ & S5).
  unfold list_jobs, jobs_snapshot. rewrite S1, S2, S3, S5. clear S1 S2 S3 S5. cbn [Queue.exec with_device fst snd submit submit_push Job.id Z.eqb].
  cbn [queue heap pending in_flight completed notify].
  split; [simpl; lia|]. set (i := next_id (queue w)). set (j := mkJob _ _ _ _ _ _ _). set (s' := <[i := fresh_cell]> (heap w)).
  assert (Hold : forall k, k ∈ jobs_snapshot (queue w) -> Job.id k <> i /\ job_dto s' k = job_dto (heap w) k).
  { intros k Hk%snapshot_sub. assert (Hki : Job.id k <> i).
    { assert (H : Job.id k ∈ seqZ 1 n). { rewrite <- Hids. unfold ids. apply list_elem_of_fmap. by exists k. }
      apply elem_of_seqZ in H. unfold i. lia. }
    split; [done|]. unfold job_dto, cell_of, s'. rewrite Forall_forall in Harcs. rewrite lookup_insert_ne; [done|].
    rewrite Harcs by done. done. }
  assert (Hf : forall l, (forall k, k ∈ l -> k ∈ jobs_snapshot (queue w)) ->
    List.filter (fun d => d_id d =? i) (job_dto s' <$> l) = []
    /\ List.filter (fun d => negb (d_id d =? i)) (job_dto s' <$> l) = job_dto (heap w) <$> l).
  { induction l as [|k l IH]; intros Hl; [done|]. destruct (Hold k) as [Hk Hd]; [apply Hl; by left|].
    destruct IH as [IH1 IH2]; [intros x Hx; apply Hl; by right|]. rewrite !fmap_cons. cbn [List.filter].
    rewrite Hd. cbn [d_id job_dto]. rewrite (proj2 (Z.eqb_neq _ _)) by done. cbn [negb]. split; [done|by rewrite IH2]. }
  rewrite !fmap_app, !List.filter_app. unfold jobs_snapshot in *.
  change (Job.id (with_id i j)) with i. destruct (Hf (pending (queue w))) as [-> ->]; [intros; rewrite !elem_of_app; tauto|].
  destruct (Hf (in_flight (queue w))) as [-> ->]; [intros; rewrite !elem_of_app; tauto|].
  destruct (Hf (completed (queue w))) as [-> ->]; [intros; rewrite !elem_of_app; tauto|].
  assert (Hj : job_dto s' (with_id i j) = new_dto i dir src dst device).
  { unfold job_dto, cell_of, s', j. cbn [arc with_id]. rewrite lookup_insert_eq. done. }
  cbn [fmap list_fmap List.filter]. rewrite Hj. cbn [d_id new_dto]. rewrite Z.eqb_refl. split; [done|]. cbn [negb app]. by rewrite app_nil_r.
Qed.

Lemma take_first_some p l j k : take_first p l = Some (j, k) -> p j = true /\ j ∈ l.
Proof.
  revert j k. induction l as [|x l IH]; intros j k; [done|]. cbn [take_first]. destruct (p x) eqn:Hp.
  - intros [= <- <-]. split; [done|by left].
  - destruct (take_first p l) as [[y r]|]; [|done]. intros [= <- <-]. destruct (IH y r eq_refl). split; [done|by right].
Qed.
Lemma take_first_none p l : take_first p l = None -> forall j, j ∈ l -> p j = false.
Proof.
  induction l as [|x l IH]; intros H j Hj; [by apply elem_of_nil in Hj|]. cbn [take_first] in H. destruct (p x) eqn:Hp; [done|].
  destruct (take_first p l) as [[y r]|]; [done|]. apply elem_of_cons in Hj as [->|Hj]; [done|]. by apply IH.
Qed.
Lemma trim_keeps_last l (j : Job) : exists l', trim_completed (l ++ [j]) = l' ++ [j].
Proof.
  unfold trim_completed. case_bool; [|by exists l]. bool_to_prop. unfold MAX_COMPLETED in *.
  exists (zdrop (zlen (l ++ [j]) - 200) l). unfold zdrop. rewrite drop_app_le; [done|]. len_lia.
Qed.

(** A job still waiting is cancelled at once; another is asked to stop. *)
Lemma cancel_shows par n w i : queue_inv par n w ->
  (cancel_job i w).1 = bool_decide (i ∈ ids (jobs_snapshot (queue w)))
  /\ (i ∈ ids (pending (queue w)) -> exists d, d ∈ list_jobs (cancel_job i w).2 /\ d_id d = i
      /\ d_state d = Cancelled /\ d_error d = Some (bs "cancelled"))
  /\ (i ∉ ids (pending (queue w)) -> list_jobs (cancel_job i w).2 = after_control Job.cancel (heap w) i <$> jobs_snapshot (queue w)).
Proof.
  intros Hinv. unfold cancel_job, Queue.exec, Queue.cancel_job. destruct (take_first (is_id i) (pending (queue w))) as [[j l]|] eqn:E.
  - destruct (take_first_some _ _ _ _ E) as [Hi Hj]. unfold is_id in Hi. bool_to_prop. subst i. cbn [fst snd].
    assert (Hin : Job.id j ∈ ids (pending (queue w))) by (apply list_elem_of_fmap; by exists j).
    split_and!; [|intros _|done].
    + symmetry. apply bool_decide_eq_true. unfold jobs_snapshot. rewrite ids_app, elem_of_app. by left.
    + destruct (trim_keeps_last (completed (queue w)) j) as [c Hc].
      eexists (job_dto _ j). split_and!.
      * unfold list_jobs, jobs_snapshot. cbn [queue heap set_lists pending in_flight completed]. apply list_elem_of_fmap. exists j.
        split; [done|]. rewrite Hc, !elem_of_app, list_elem_of_singleton. auto.
      * done.
      * unfold job_dto, cell_of, update. by rewrite lookup_insert_eq.
      * unfold job_dto, cell_of, update. by rewrite lookup_insert_eq.
  - pose proof (take_first_none _ _ E) as Hn. destruct (on_found_shows par n w Hinv Job.cancel i) as [H1 H2].
    destruct (Queue.on_found Job.cancel i (queue w) (heap w)) as [b s] eqn:Ef. cbn [fst snd] in *. split_and!; [done| |done].
    intros (k & Hk1 & Hk2)%list_elem_of_fmap. specialize (Hn k Hk2). unfold is_id in Hn. bool_to_prop. by symmetry in Hk1.
Qed.

Lemma options_words overwrite verify :
  match parse_job_options overwrite verify with
  | Ok o => overwrite ∈ [bs "skip"; bs "replace"; bs "keep-both"] /\ chunk_size o = DEFAULT_CHUNK
  | Err e => ~ overwrite ∈ [bs "skip"; bs "replace"; bs "keep-both"]
      /\ e = InvalidArgs (bs "overwrite must be skip, replace, or keep-both")
  end.
Proof.
  unfold parse_job_options.
  destruct (bool_decide_reflect (overwrite = bs "skip")) as [->|]; [cbn; split; [set_solver|done]|].
  destruct (bool_decide_reflect (overwrite = bs "replace")) as [->|]; [cbn; split; [set_solver|done]|].
  destruct (bool_decide_reflect (overwrite = bs "keep-both")) as [->|]; cbn; split; try done; set_solver.
Qed.

(** Transfers over the bus. In every state the queue can reach: an enqueue
    call with a proper overwrite word returns an id no listed job has, after which
    the job list holds exactly one job with that id, waiting, nothing
    transferred, with the direction, paths and device of the call, and
    otherwise the jobs it held before; an improper word is refused and changes
    nothing. Pause, resume and cancel say whether the id is listed; pause and resume
    change how that one job is shown and no other; a cancelled job that was still
    waiting is listed as cancelled at once, and a cancelled one that is not waiting is the only
    job that changes. *)
Theorem bus_jobs (par : Z) (es : list Queue.event) :
  zlen es < 2 ^ 64 - 3 ->
  let w := Queue.run par es in
  (forall dir device src dst overwrite verify,
     match enqueue_with dir device src dst overwrite verify w with
     | (Ok i, w') => overwrite ∈ [bs "skip"; bs "replace"; bs "keep-both"]
         /\ ~ i ∈ (d_id <$> list_jobs w)
         /\ List.filter (fun d => d_id d =? i) (list_jobs w') = [new_dto i dir src dst device]
         /\ List.filter (fun d => negb (d_id d =? i)) (list_jobs w') = list_jobs w
     | (Err e, w') => ~ overwrite ∈ [bs "skip"; bs "replace"; bs "keep-both"] /\ w' = w
     end)
  /\ (forall i, let listed := bool_decide (i ∈ (d_id <$> list_jobs w)) in
     (pause_job i w).1 = listed /\ (resume_job i w).1 = listed /\ (cancel_job i w).1 = listed
     /\ list_jobs (pause_job i w).2 = after_control Job.pause (heap w) i <$> jobs_snapshot (queue w)
     /\ list_jobs (resume_job i w).2 = after_control Job.resume (heap w) i <$> jobs_snapshot (queue w)
     /\ (i ∈ ids (pending (queue w)) -> exists d, d ∈ list_jobs (cancel_job i w).2 /\ d_id d = i
         /\ d_state d = Cancelled /\ d_error d = Some (bs "cancelled"))
     /\ (i ∉ ids (pending (queue w)) -> list_jobs (cancel_job i w).2 = after_control Job.cancel (heap w) i <$> jobs_snapshot (queue w))).
Proof.
  intros Hl w. pose proof (run_inv par es ltac:(lia)) as Hinv. fold w in Hinv. pose proof (submits_bound es) as Hs. split.
  - intros dir device src dst overwrite verify. unfold enqueue_with. pose proof (options_words overwrite verify) as Ho.
    destruct (parse_job_options overwrite verify) as [o|e]; [|by destruct Ho]. destruct Ho as [Ho _].
    pose proof (enqueue_shows par _ w dir src dst o device Hinv ltac:(lia)) as He.
    destruct (enqueue_job dir src dst o device w) as [i w']. destruct He as (Hi & H1 & H2). split_and!; try done.
    rewrite <- H2. intros (d & Hd & Hin)%list_elem_of_fmap. apply list_elem_of_In, List.filter_In in Hin as [_ Hin].
    bool_to_prop. done.
  - intros i. cbv zeta. rewrite list_jobs_ids. destruct (on_found_shows par _ w Hinv Job.pause i) as [P1 P2].
    destruct (on_found_shows par _ w Hinv Job.resume i) as [R1 R2]. destruct (cancel_shows par _ w i Hinv) as (C1 & C2 & C3).
    by split_and!.
Qed.

Definition two_jobs : list Queue.event := [demo_submit; Dispatch; demo_submit].
Lemma bus_jobs_witness :
  (pause_job 2 (Queue.run 1 two_jobs)).1 = bool_decide (2 ∈ (d_id <$> list_jobs (Queue.run 1 two_jobs)))
  /\ bool_decide (2 ∈ (d_id <$> list_jobs (Queue.run 1 two_jobs))) = true
  /\ (cancel_job 7 (Queue.run 1 two_jobs)).1 = bool_decide (7 ∈ (d_id <$> list_jobs (Queue.run 1 two_jobs))).
Proof.
  destruct (bus_jobs 1 two_jobs) as [_ H]; [by vm_compute|].
  split; [exact (proj1 (H 2))|split; [by vm_compute|exact (proj1 (proj2 (proj2 (H 7))))]].
Defined.

(** ** One reader for a device *)

Inductive logcat_event : Type := StartLog (device : bytes) | StopLog (device : bytes) | Step (i : nat) (x : reading).
Definition logcat_step (s : logcats) (e : logcat_event) : logcats :=
  match e with
  | StartLog d => start_logcat d s
  | StopLog d => stop_logcat d s
  | Step i x => mkLogcats (streams s) (alter (read_step x) i (readers s))
  end.
Definition logcat_run (es : list logcat_event) : logcats := foldl logcat_step (mkLogcats ∅ []) es.

(** The lines the child of reader [i] printed. *)
Definition printed (i : nat) (es : list logcat_event) : list bytes :=
  omap (fun e => match e with Step j (Line t) => if bool_decide (i = j) then Some t else None | _ => None end) es.

Record one_each (s : logcats) : Prop := {
  in_map : forall d i, streams s !! d = Some i -> exists r, readers s !! i = Some r /\ r_serial r = d /\ r_stopped r = false;
  in_use : forall i r, readers s !! i = Some r -> r_stopped r = false -> streams s !! r_serial r = Some i;
}.

Lemma read_step_same x r : r_serial (read_step x r) = r_serial r /\ r_stopped (read_step x r) = r_stopped r.
Proof. unfold read_step. destruct (r_phase r), x; try done; [by destruct (utf8_valid text)|]. destruct (r_stopped r) eqn:E; by rewrite ?E. Qed.

Lemma stop_one_each d s : one_each s -> one_each (stop_logcat d s) /\ streams (stop_logcat d s) !! d = None.
Proof.
  intros [Hm Hu]. unfold stop_logcat. destruct (streams s !! d) as [i|] eqn:E; [|by split]. split; [|apply lookup_delete_eq].
  destruct (Hm d i E) as (r & Hr & Hd & Hs). split; cbn [streams readers].
  - intros d' i' [Hne Hi]%lookup_delete_Some. destruct (Hm d' i' Hi) as (r' & Hr' & Hd' & Hs').
    assert (i <> i') by (intros ->; congruence). exists r'. by rewrite list_lookup_alter_ne.
  - intros i' r' Hr' Hs'. destruct (decide (i = i')) as [<-|Hne].
    + rewrite list_lookup_alter_eq, Hr in Hr'. injection Hr' as <-. done.
    + rewrite list_lookup_alter_ne in Hr' by done. rewrite lookup_delete_ne; [by apply Hu|].
      intros Heq. specialize (Hu i' r' Hr' Hs'). congruence.
Qed.
Lemma logcat_one_each es : one_each (logcat_run es).
Proof.
  unfold logcat_run. induction es as [|e es IH] using rev_ind; [by split|]. rewrite foldl_snoc.
  set (s := foldl _ _ _) in *. destruct e as [d|d|i x]; cbn [logcat_step]; [|by apply stop_one_each|].
  - destruct (stop_one_each d s IH) as [[Hm Hu] Hnone]. unfold start_logcat. set (s' := stop_logcat d s) in *. split; cbn [streams readers].
    + intros d' i' [[<- <-]|[Hne Hi]]%lookup_insert_Some.
      * eexists. rewrite lookup_app_r, Nat.sub_diag by lia. done.
      * destruct (Hm d' i' Hi) as (r & Hr & ?). exists r. split; [|done]. by apply lookup_app_l_Some.
    + intros i' r' [Hr|[Hge Hr]]%lookup_app_Some Hs.
      * rewrite lookup_insert_ne; [by apply Hu|]. intros Heq. specialize (Hu i' r' Hr Hs). congruence.
      * apply list_lookup_singleton_Some in Hr as [Hi <-]. cbn. rewrite lookup_insert_eq. f_equal. lia.
  - destruct IH as [Hm Hu]. split; cbn [streams readers].
    + intros d' i' Hi. destruct (Hm d' i' Hi) as (r & Hr & Hd & Hs). destruct (decide (i = i')) as [<-|Hne].
      * exists (read_step x r). rewrite list_lookup_alter_eq, Hr. destruct (read_step_same x r) as [-> ->]. done.
      * exists r. by rewrite list_lookup_alter_ne.
    + intros i' r' Hr Hs. destruct (decide (i = i')) as [<-|Hne]; [|rewrite list_lookup_alter_ne in Hr by done; by apply Hu].
      rewrite list_lookup_alter_eq in Hr. destruct (readers s !! i) as [r|] eqn:E; [|done]. injection Hr as <-.
      destruct (read_step_same x r) as [Hd Hss]. rewrite Hd. apply Hu; [done|]. congruence.
Qed.

Definition buffered (es : list logcat_event) (i : nat) (r : reader) : Prop :=
  exists log, r_buffer r = buffer_of log /\ log `sublist_of` printed i es /\ Forall (fun t => utf8_valid t = true) log.
Lemma printed_snoc i es e : printed i (es ++ [e]) = printed i es ++ printed i [e].
Proof. unfold printed. by rewrite omap_app. Qed.
Lemma buffered_more es e i r r' : buffered es i r -> r_buffer r' = r_buffer r -> buffered (es ++ [e]) i r'.
Proof. intros (log & Hb & Hs & Hv) Hr. exists log. rewrite Hr, printed_snoc. split_and!; [done|by apply sublist_inserts_r|done]. Qed.

Lemma logcat_buffered es i r : readers (logcat_run es) !! i = Some r -> buffered es i r.
Proof.
  unfold logcat_run. revert i r. induction es as [|e es IH] using rev_ind; [done|]. intros i r. rewrite foldl_snoc.
  set (s := foldl _ _ _) in *.
  assert (Hstop : forall d, readers (stop_logcat d s) !! i = Some r -> buffered (es ++ [e]) i r).
  { intros d. unfold stop_logcat. destruct (streams s !! d) as [j|]; [|intros H; by eapply buffered_more; [by apply IH|]].
    cbn [readers]. destruct (decide (j = i)) as [->|Hne].
    - rewrite list_lookup_alter_eq. destruct (readers s !! i) as [r0|] eqn:E; [|done]. intros [= <-]. by eapply buffered_more; [by apply IH|].
    - rewrite list_lookup_alter_ne by done. intros H. by eapply buffered_more; [by apply IH|]. }
  destruct e as [d|d|j x]; cbn [logcat_step].
  - unfold start_logcat. cbn [readers]. intros [Hr|[_ Hr]]%lookup_app_Some; [by apply (Hstop d)|].
    apply list_lookup_singleton_Some in Hr as [_ <-]. exists []. split_and!; [done|apply sublist_nil_l|constructor].
  - apply Hstop.
  - cbn [readers]. destruct (decide (j = i)) as [->|Hne].
    2: { rewrite list_lookup_alter_ne by done. intros H. by eapply buffered_more; [by apply IH|]. }
    rewrite list_lookup_alter_eq. destruct (readers s !! i) as [r0|] eqn:E; [|done]. intros [= <-].
    specialize (IH i r0 E). unfold read_step.
    destruct (r_phase r0), x as [ok|text| |]; try (by eapply buffered_more).
    + destruct (utf8_valid text) eqn:Hv; [|by eapply buffered_more]. destruct IH as (log & Hb & Hs & Hl). exists (log ++ [text]).
      split_and!; [|rewrite printed_snoc; cbn; rewrite bool_decide_eq_true_2 by done; by apply sublist_app|by apply Forall_app; split; [|constructor]].
      cbn [r_buffer]. unfold buffer_of. by rewrite foldl_snoc, Hb.
    + destruct (r_stopped r0); by eapply buffered_more.
Qed.

(** One logcat stream for a device. However streams are started,
    stopped and restarted, and however the readers and their children go
    on or fail: the map of streams holds for a device exactly the one reader of
    that device that was not told to stop, so that no two readers
    for a device go on, and none after a stop; the lines a caller
    is given are lines the child of that reader printed, in their order and
    numbered from zero as [logcat_lines] says, and a device without a
    stream gives none. *)
Theorem logcat_streams (es : list logcat_event) (device : bytes) (since max : Z) :
  let s := logcat_run es in
  (forall i r, readers s !! i = Some r -> r_stopped r = false -> r_serial r = device -> streams s !! device = Some i)
  /\ streams (stop_logcat device s) !! device = None
  /\ Forall (fun r => r_serial r = device -> r_stopped r = true) (readers (stop_logcat device s))
  /\ match streams s !! device with
     | None => stream_lines device since max s = (since, [])
     | Some i => exists log, log `sublist_of` printed i es
         /\ stream_lines device since max s = logcat_lines since max (buffer_of log)
     end.
Proof.
  intros s. pose proof (logcat_one_each es) as Hs. fold s in Hs. destruct (stop_one_each device s Hs) as [Hstop Hnone]. split_and!.
  - intros i r Hr Hst <-. by apply (in_use _ Hs).
  - done.
  - apply Forall_lookup. intros i r Hr Hd. destruct (r_stopped r) eqn:E; [done|].
    pose proof (in_use _ Hstop i r Hr E) as H. congruence.
  - unfold stream_lines. destruct (streams s !! device) as [i|] eqn:E; [|done]. cbn [mbind option_bind].
    destruct (in_map _ Hs device i E) as (r & Hr & _). rewrite Hr. destruct (logcat_buffered es i r Hr) as (log & -> & Hsub & _).
    by exists log.
Qed.

(** A line that is not UTF-8 ends the stream: what the phone prints after it is never seen. *)
Theorem logcat_ends_at_bad_line (device text : bytes) : utf8_valid text = false ->
  let s := logcat_run [StartLog device; Step 0 (Spawned true); Step 0 (Line text); Step 0 (Line (bs "next" ++ [10]))] in
  streams s !! device = Some O /\ r_phase <$> (readers s !! O) = Some Ended /\ stream_lines device 0 100 s = (0, []).
Proof.
  intros Hv. unfold logcat_run. cbn [foldl logcat_step]. unfold start_logcat, stop_logcat. cbn [streams readers]. rewrite lookup_empty.
  cbn [streams readers length app alter list_alter]. unfold read_step at 2. cbn [r_phase]. unfold read_step. cbn [r_phase r_serial r_buffer r_stopped].
  rewrite Hv. cbn [r_phase]. unfold stream_lines. cbn [streams readers]. rewrite lookup_insert_eq. split_and!; done.
Qed.

Lemma logcat_streams_witness :
  stream_lines (bs "A") 0 5 (logcat_run [StartLog (bs "A"); Step 0 (Spawned true); Step 0 (Line (bs "one" ++ [10])); StartLog (bs "A")]) = (0, [])
  /\ Forall (fun r => r_serial r = bs "A" -> r_stopped r = true)
      (readers (stop_logcat (bs "A") (logcat_run [StartLog (bs "A"); StartLog (bs "A")]))).
Proof.
  split; [by vm_compute|]. exact (proj1 (proj2 (proj2 (logcat_streams [StartLog (bs "A"); StartLog (bs "A")] (bs "A") 0 5)))).
Defined.

(** ** Installs, latest first *)

#[global] Instance newer_trans : Transitive newer.
Proof. unfold newer. intros a b c. lia. Qed.
#[global] Instance newer_total : Total newer.
Proof. unfold newer. intros a b. lia. Qed.
(** Every install the daemon remembers is reported once, the newest first. *)
Theorem installs_newest_first (s : DaemonInstall.State) :
  StronglySorted newer (install_status_all s) /\ install_status_all s ≡ₚ snd <$> map_to_list (installs s).
Proof. split; [apply StronglySorted_merge_sort; apply _|apply merge_sort_Permutation]. Qed.
