(* ===== verification/Packages.v ===== *)
(** * The package inventory and the package actions (adb-daemon/src/packages.rs)

    Parsing what [pm] lists, the verdict on what it answers to an action, and
    the batch that runs the actions eight at a time. What the phone answers
    is an argument. *)

From stdpp Require Import base list gmap strings sets sorting relations.
From S2P Require Import Prelude RustStd Text Job DaemonInput.

Definition PM_CONCURRENCY : nat := 8.

Inductive PackageState : Type := Enabled | Disabled | Uninstalled.
Inductive PackageAction : Type := Disable | Enable | Uninstall | Restore.

Definition target_state (a : PackageAction) : PackageState :=
  match a with Disable => Disabled | Enable | Restore => Enabled | Uninstall => Uninstalled end.

Definition command (a : PackageAction) (package : bytes) (user : Z) : bytes :=
  let quoted := bs "'" ++ package ++ bs "'" in
  match a with
  | Disable => bs "pm disable-user --user " ++ fmt_dec user ++ bs " " ++ quoted
  | Enable => bs "pm enable --user " ++ fmt_dec user ++ bs " " ++ quoted
  | Uninstall => bs "pm uninstall -k --user " ++ fmt_dec user ++ bs " " ++ quoted
  | Restore => bs "cmd package install-existing " ++ quoted
  end.

Record PackageRow : Type := mkRow { row_id : bytes; row_state : PackageState; system : bool; apk_path : option bytes }.
Record PackageRequest : Type := mkRequest { package : bytes; action : PackageAction }.
Record PackageResult : Type := mkResult {
  r_package : bytes; r_action : PackageAction; ok : bool; r_state : option PackageState;
  code : option bytes; message : option bytes; raw : option bytes }.

(** ** The inventory *)

Record ListedPackage : Type := mkListed { l_id : bytes; l_path : option bytes }.

Definition listed_line (line : bytes) : option ListedPackage :=
  match strip_pre (bs "package:") (trim line) with
  | None => None
  | Some rest =>
      let rest := trim rest in
      match rsplit_once (bs "=") rest with
      | Some (path, i) =>
          let path := trim path in
          let i := trim i in
          if has_prefix (bs "/") path && bool_decide (i <> []) then Some (mkListed i (Some path)) else None
      | None => Some (mkListed rest None)
      end
  end.
Definition parse_package_list (out : bytes) : list ListedPackage :=
  filter (fun p => l_id p <> []) (omap listed_line (lines out)).
Definition ids (out : bytes) : list bytes := l_id <$> parse_package_list out.

(** [String::cmp]: bytewise. *)
Fixpoint bytes_leb (a b : bytes) : bool :=
  match a, b with
  | [], _ => true
  | _, [] => false
  | x :: a, y :: b => if x =? y then bytes_leb a b else x <? y
  end.
(** [sort_by], which keeps the order of equal rows. *)
Fixpoint insert_row (r : PackageRow) (l : list PackageRow) : list PackageRow :=
  match l with
  | [] => [r]
  | x :: l' => if bytes_leb (row_id r) (row_id x) then r :: l else x :: insert_row r l'
  end.
Definition sort_rows (l : list PackageRow) : list PackageRow := foldr insert_row [] l.

Definition row_of (enabled disabled system : list bytes) (p : ListedPackage) : PackageRow :=
  mkRow (l_id p)
    (if bool_decide (l_id p ∈ enabled) then Enabled else if bool_decide (l_id p ∈ disabled) then Disabled else Uninstalled)
    (bool_decide (l_id p ∈ system)) (l_path p).

(** The four listings, each behind a [?]. *)
Definition inventory (all enabled disabled system : result bytes bytes) : result bytes (list PackageRow) :=
  match all, enabled, disabled, system with
  | Ok all, Ok enabled, Ok disabled, Ok system =>
      Ok (sort_rows (row_of (ids enabled) (ids disabled) (ids system) <$> parse_package_list all))
  | Err e, _, _, _ | Ok _, Err e, _, _ | Ok _, Ok _, Err e, _ | Ok _, Ok _, Ok _, Err e => Err e
  end.

(** ** One action *)

Definition is_failure (out : bytes) : bool :=
  contains (bs "Failure") out || contains (bs "Error") out || contains (bs "Exception") out
  || contains (bs "not installed for") out || contains (bs "Unknown package") out.

Definition first_line (out : bytes) : bytes :=
  default (bs "the package manager refused")
    (List.find (fun l => bool_decide (l <> []) && negb (has_prefix (bs "at ") l)) (trim <$> lines out)).

(** The words looked for in turn, the code and the sentence. *)
Definition REASONS : list (list bytes * (bytes * bytes)) := [
  ([bs "only root can delete system app"], (bs "system_uninstall_blocked",
    bs "This Android version does not let ADB remove a system app. Removing it needs root."));
  ([bs "Cannot disable system packages"], (bs "system_disable_blocked",
    bs "This Android version does not let ADB switch a system app off. Only apps you installed yourself can be changed."));
  ([bs "DELETE_FAILED_DEVICE_POLICY_MANAGER"], (bs "blocked_by_policy",
    bs "A device administrator or work profile blocks removing this app."));
  ([bs "DELETE_FAILED_OWNER_BLOCKED"], (bs "blocked_by_owner", bs "The device owner blocks removing this app."));
  ([bs "DELETE_FAILED_INTERNAL_ERROR"], (bs "internal_error",
    bs "The package manager refused without saying why. The app is probably in use or is depended on by another app."));
  ([bs "not installed for"; bs "Unknown package"], (bs "not_installed",
    bs "The app is not installed for this user, so there was nothing to change."));
  ([bs "INSTALL_FAILED_VERSION_DOWNGRADE"], (bs "version_downgrade",
    bs "Restoring the app failed: a newer version is already installed."));
  ([bs "INSTALL_FAILED_UPDATE_INCOMPATIBLE"], (bs "signature_mismatch",
    bs "Restoring the app failed: its signature does not match the installed one."));
  ([bs "Unknown command"; bs "not found"], (bs "unsupported",
    bs "This Android version does not support that command."))].
Definition classify (out : bytes) : option bytes * bytes :=
  match List.find (fun r => existsb (fun w => contains w out) r.1) REASONS with
  | Some (_, (c, m)) => (Some c, m)
  | None =>
      if contains (bs "SecurityException") out || contains (bs "Exception occurred") out then
        (Some (bs "refused"), bs "The package manager refused: " ++ first_line out)
      else (Some (bs "unknown"), first_line out)
  end.

(** What the command came back with: nothing in time, an error of [adb], or
    an exit status and two outputs. *)
Inductive pm_answer : Type :=
| NoAnswer
| AdbError (e : bytes)
| Said (success : bool) (stdout stderr : bytes).
Definition pm (a : pm_answer) : result bytes bytes :=
  match a with
  | NoAnswer => Err (bs "the phone did not answer in time")
  | AdbError e => Err (bs "adb shell failed: " ++ e)
  | Said success out err =>
      let text := from_utf8_lossy out ++ from_utf8_lossy err in
      if bool_decide (trim text = []) && negb success then Err (bs "the phone did not answer") else Ok text
  end.

(** [answer] is what the phone says to a command. *)
Definition apply_one (user : Z) (answer : bytes -> pm_answer) (request : PackageRequest) : PackageResult :=
  let package := trim (package request) in
  let a := action request in
  let failed c m r := mkResult package a false None c m r in
  if negb (is_package_name package) then
    failed (Some (bs "not_a_package_name")) (Some (package ++ bs " is not a package name.")) None
  else
    match pm (answer (command a package user)) with
    | Err e => failed (Some (bs "device_unreachable")) (Some e) None
    | Ok out =>
        let trimmed := trim out in
        if bool_decide (trimmed = []) then mkResult package a true (Some (target_state a)) None None None
        else if is_failure trimmed then
          let '(c, m) := classify trimmed in failed c (Some m) (Some trimmed)
        else mkResult package a true (Some (target_state a)) None None (Some trimmed)
    end.

(** ** The batch *)

Definition not_run : PackageResult :=
  mkResult [] Disable false None (Some (bs "not_run")) (Some (bs "the action did not run")) None.

(** The slots, the tasks in flight and the requests not started, by their index. *)
Record batch : Type := mkBatch {
  slots : list (option PackageResult); flying : list (nat * PackageRequest); next : list (nat * PackageRequest) }.

Definition enumerate (l : list PackageRequest) : list (nat * PackageRequest) := imap pair l.
Definition batch_start (requests : list PackageRequest) : batch :=
  mkBatch (replicate (length requests) None) (take PM_CONCURRENCY (enumerate requests))
    (drop PM_CONCURRENCY (enumerate requests)).

(** [join_next] yields any task in flight; [None] when it panicked. *)
Definition joined (i : nat) (r : option PackageResult) (flying' : list (nat * PackageRequest)) (b : batch) : batch :=
  let slots := match r with Some x => <[i := Some x]> (slots b) | None => slots b end in
  match next b with
  | [] => mkBatch slots flying' []
  | n :: rest => mkBatch slots (flying' ++ [n]) rest
  end.
(** [run] is what the task of a request ends with. *)
Inductive join_step (run : nat -> PackageRequest -> option PackageResult) : batch -> batch -> Prop :=
| join_any b i req before after :
    flying b = before ++ (i, req) :: after ->
    join_step run b (joined i (run i req) (before ++ after) b).

Definition results (b : batch) : list PackageResult := default not_run <$> slots b.

(** ** The batch answers in order *)

Lemma enumerate_lookup l i r : (i, r) ∈ enumerate l <-> l !! i = Some r.
Proof.
  unfold enumerate. rewrite list_elem_of_lookup. split.
  - intros [j H]. rewrite list_lookup_imap in H. destruct (l !! j) eqn:E; [|done]. simpl in H. by simplify_eq.
  - intros H. exists i. by rewrite list_lookup_imap, H.
Qed.
Lemma enumerate_fst l : (enumerate l).*1 = seq 0 (length l).
Proof.
  unfold enumerate. apply list_eq. intros i. rewrite list_lookup_fmap, list_lookup_imap.
  destruct (l !! i) as [r|] eqn:E; simpl.
  - apply lookup_lt_Some in E. by rewrite lookup_seq_lt.
  - apply lookup_ge_None in E. by rewrite lookup_seq_ge.
Qed.
Lemma enumerate_nodup l : NoDup (enumerate l).
Proof. apply (NoDup_fmap_1 fst). rewrite enumerate_fst. apply NoDup_seq. Qed.
Lemma enumerate_length l : length (enumerate l) = length l.
Proof. apply length_imap. Qed.

Section batch.
Context (run : nat -> PackageRequest -> option PackageResult) (requests : list PackageRequest).

(** [gone] are the requests whose task has ended. *)
Record batch_ok (gone : list (nat * PackageRequest)) (b : batch) : Prop := {
  all_there : gone ++ flying b ++ next b ≡ₚ enumerate requests;
  slot_count : length (slots b) = length requests;
  slot_done i r : (i, r) ∈ gone -> slots b !! i = Some (run i r);
  slot_open i r : (i, r) ∈ flying b ++ next b -> slots b !! i = Some None;
  in_flight : (length (flying b) <= PM_CONCURRENCY)%nat;
  kept_busy : next b <> [] -> length (flying b) = PM_CONCURRENCY;
}.

Lemma batch_start_ok : batch_ok [] (batch_start requests).
Proof.
  assert (T : take PM_CONCURRENCY (enumerate requests) ++ drop PM_CONCURRENCY (enumerate requests) = enumerate requests)
    by apply take_drop.
  split; unfold batch_start; cbn [slots flying next app].
  - by rewrite T.
  - apply length_replicate.
  - intros i r H. by apply elem_of_nil in H.
  - intros i r H. rewrite T in H. apply enumerate_lookup, lookup_lt_Some in H. by apply lookup_replicate_2.
  - rewrite length_take. lia.
  - intros H. rewrite length_take, enumerate_length. destruct (decide (PM_CONCURRENCY < length requests)%nat); [lia|].
    destruct H. apply drop_ge. rewrite enumerate_length. lia.
Qed.

Lemma fst_unique l i r r' : l ≡ₚ enumerate requests -> (i, r) ∈ l -> (i, r') ∈ l -> r = r'.
Proof. intros Hp H H'. rewrite Hp in H, H'. apply enumerate_lookup in H, H'. congruence. Qed.

Lemma step_ok gone b i req before after : batch_ok gone b -> flying b = before ++ (i, req) :: after ->
  batch_ok (gone ++ [(i, req)]) (joined i (run i req) (before ++ after) b).
Proof.
  intros H Hf. pose proof (all_there _ _ H) as Hp. rewrite Hf in Hp.
  set (b' := joined i (run i req) (before ++ after) b).
  assert (Hrest : flying b' ++ next b' ≡ₚ before ++ after ++ next b).
  { unfold b', joined. destruct (next b); cbn; [by rewrite !app_nil_r|]. by rewrite <- !app_assoc. }
  assert (Hperm : gone ++ (before ++ (i, req) :: after) ++ next b ≡ₚ (gone ++ [(i, req)]) ++ before ++ after ++ next b).
  { rewrite <- !app_assoc. apply Permutation_app_head. rewrite <- app_comm_cons. by rewrite <- Permutation_middle. }
  assert (Hslots : slots b' = match run i req with Some x => <[i := Some x]> (slots b) | None => slots b end).
  { unfold b', joined. by destruct (next b). }
  assert (Hopen : slots b !! i = Some None).
  { apply (slot_open _ _ H i req). rewrite Hf. rewrite !elem_of_app, elem_of_cons. auto. }
  assert (Hnd : NoDup (gone ++ (before ++ (i, req) :: after) ++ next b)) by (rewrite Hp; apply enumerate_nodup).
  rewrite Hperm in Hnd. rewrite Hperm in Hp.
  assert (Hne : forall j r, (j, r) ∈ gone \/ (j, r) ∈ before ++ after ++ next b -> j <> i).
  { intros j r Hin ->. assert (r = req) as ->.
    { apply (fst_unique _ i r req Hp); rewrite !elem_of_app; rewrite ?elem_of_app in Hin; [tauto|]. left. right. by left. }
    apply NoDup_app in Hnd as (Hg & Hdis & _). destruct Hin as [Hin|Hin].
    - apply NoDup_app in Hg as (_ & Hg & _). apply (Hg (i, req)); [done|]. by left.
    - apply (Hdis (i, req)); [|done]. rewrite elem_of_app. right. by left. }
  split.
  - rewrite Hrest. done.
  - rewrite Hslots. destruct (run i req); [rewrite length_insert|]; apply (slot_count _ _ H).
  - intros j r [Hj|Hj]%elem_of_app; rewrite Hslots.
    + rewrite <- (slot_done _ _ H j r Hj). destruct (run i req); [|done]. apply list_lookup_insert_ne.
      apply not_eq_sym, (Hne j r). by left.
    + apply list_elem_of_singleton in Hj as [= -> ->]. destruct (run i req); [|done].
      apply list_lookup_insert_eq. by apply lookup_lt_Some in Hopen.
  - intros j r Hj. rewrite Hrest in Hj. rewrite Hslots.
    assert (Hb : slots b !! j = Some None).
    { apply (slot_open _ _ H j r). rewrite Hf. rewrite !elem_of_app, elem_of_cons. rewrite !elem_of_app in Hj. tauto. }
    destruct (run i req); [|done]. rewrite <- Hb. apply list_lookup_insert_ne. apply not_eq_sym, (Hne j r). by right.
  - pose proof (in_flight _ _ H) as Hl. rewrite Hf in Hl. rewrite length_app in Hl. cbn in Hl.
    unfold b', joined. destruct (next b); cbn; rewrite ?length_app; cbn; lia.
  - pose proof (kept_busy _ _ H) as Hk. rewrite Hf, length_app in Hk. cbn in Hk.
    unfold b', joined. destruct (next b) as [|n rest]; cbn; [done|]. intros _. rewrite !length_app. cbn.
    specialize (Hk ltac:(done)). lia.
Qed.

Lemma reach_ok n b b' gone : batch_ok gone b -> nsteps (join_step run) n b b' ->
  exists gone', batch_ok gone' b' /\ length gone' = (length gone + n)%nat.
Proof.
  intros H Hn. revert gone H. induction Hn as [b|n b b1 b' Hs Hn IH]; intros gone H; [exists gone; split; [done|lia]|].
  destruct Hs as [b i req before after Hf]. destruct (IH _ (step_ok gone b i req before after H Hf)) as (gone' & H' & Hl).
  exists gone'. split; [done|]. rewrite length_app in Hl. cbn in Hl. lia.
Qed.

Lemma ended_results gone b : batch_ok gone b -> flying b = [] ->
  results b = imap (fun i r => default not_run (run i r)) requests.
Proof.
  intros H Hf. assert (Hn : next b = []).
  { destruct (next b) eqn:E; [done|]. pose proof (kept_busy _ _ H) as Hk. rewrite E, Hf in Hk. by specialize (Hk ltac:(done)). }
  pose proof (all_there _ _ H) as Hp. rewrite Hf, Hn, app_nil_r in Hp.
  unfold results. apply list_eq. intros i. rewrite list_lookup_fmap, list_lookup_imap.
  destruct (requests !! i) as [r|] eqn:E.
  - rewrite (slot_done _ _ H i r); [done|]. rewrite Hp. by apply enumerate_lookup.
  - apply lookup_ge_None in E. rewrite <- (slot_count _ _ H) in E. apply lookup_ge_None in E. by rewrite E.
Qed.
End batch.

(** A batch answers every request, in the order asked. Whatever order the
    tasks end in, and whichever of them panic, at most eight run at a
    time, the batch cannot get stuck or run longer than one step for each
    request, and when no task is left the results are, request by request,
    what its own task ended with. *)
Theorem batch_in_order (run : nat -> PackageRequest -> option PackageResult) (requests : list PackageRequest) (n : nat) (b : batch) :
  nsteps (join_step run) n (batch_start requests) b ->
  (length (flying b) <= PM_CONCURRENCY)%nat
  /\ (n + length (flying b) + length (next b) = length requests)%nat
  /\ (n < length requests -> exists b', join_step run b b')%nat
  /\ (n = length requests -> results b = imap (fun i r => default not_run (run i r)) requests).
Proof.
  intros Hn. destruct (reach_ok run requests n _ b [] (batch_start_ok run requests) Hn) as (gone & H & Hl).
  assert (Hc : (n + length (flying b) + length (next b) = length requests)%nat).
  { rewrite <- (enumerate_length requests), <- (Permutation_length (all_there _ _ _ _ H)), !length_app, Hl. cbn. lia. }
  split; [apply (in_flight _ _ _ _ H)|]. split; [done|]. split.
  - intros Hlt. destruct (flying b) as [|[i r] fl] eqn:E.
    + cbn in Hc. destruct (next b) eqn:En; [cbn in Hc; lia|]. pose proof (kept_busy _ _ _ _ H) as Hk.
      rewrite En, E in Hk. by specialize (Hk ltac:(done)).
    + eexists. by apply (join_any run b i r [] fl).
  - intros ->. apply (ended_results run requests gone); [done|]. destruct (flying b); [done|]. cbn in Hc. lia.
Qed.

Definition two_requests : list PackageRequest := [mkRequest (bs "com.a") Disable; mkRequest (bs "com.b") Enable].
Definition says (i : nat) (r : PackageRequest) : option PackageResult :=
  Some (apply_one 0 (fun _ => Said true (bs "done") []) r).
(** The second task ends first. *)
Lemma batch_in_order_witness : exists b, nsteps (join_step says) 2 (batch_start two_requests) b
  /\ r_package <$> results b = [bs "com.a"; bs "com.b"].
Proof.
  assert (H : nsteps (join_step says) 2 (batch_start two_requests)
    (joined 0 (says 0 (mkRequest (bs "com.a") Disable)) []
      (joined 1 (says 1 (mkRequest (bs "com.b") Enable)) [(0%nat, mkRequest (bs "com.a") Disable)] (batch_start two_requests)))).
  { eapply nsteps_l; [apply (join_any says (batch_start two_requests) 1 (mkRequest (bs "com.b") Enable) [(0%nat, mkRequest (bs "com.a") Disable)] []); reflexivity|].
    eapply nsteps_l; [|apply nsteps_O]. apply (join_any says _ 0 (mkRequest (bs "com.a") Disable) [] []). reflexivity. }
  eexists. split; [exact H|]. destruct (batch_in_order says two_requests 2 _ H) as (_ & _ & _ & ->); [reflexivity|].
  vm_compute. reflexivity.
Defined.

(** ** The inventory is what the phone listed *)

(** A path and a package id as [pm list packages] prints them. *)
Definition good_id (i : bytes) : Prop := is_word i /\ Forall (fun b => b <> 61) i.
Definition good_path (p : bytes) : Prop := is_word p /\ head p = Some 47.
Definition print_listed (p : ListedPackage) : bytes :=
  bs "package:" ++ match l_path p with Some path => path ++ bs "=" | None => [] end ++ l_id p.
Definition good_listed (p : ListedPackage) : Prop :=
  good_id (l_id p) /\ match l_path p with Some path => good_path path | None => True end.
#[export] Instance good_id_dec i : Decision (good_id i).
Proof. unfold good_id, is_word, ascii. apply _. Defined.
#[export] Instance good_listed_dec p : Decision (good_listed p).
Proof. unfold good_listed, good_path, is_word, ascii. destruct (l_path p); apply _. Defined.
Definition print_list (l : list ListedPackage) : bytes := concat ((fun x => x ++ [10]) <$> (print_listed <$> l)).

Lemma is_word_app a b : is_word a -> is_word b -> is_word (a ++ b).
Proof.
  intros (A1 & A2 & A3) (B1 & B2 & _). split; [by apply Forall_app|]. split; [by apply Forall_app|]. by destruct a.
Qed.
Lemma word_package : is_word (bs "package:").
Proof. split; [|split; [|done]]; apply (bool_decide_unpack _); by vm_compute. Qed.
Lemma word_equals : is_word (bs "=").
Proof. split; [|split; [|done]]; apply (bool_decide_unpack _); by vm_compute. Qed.

Lemma printed_word p : good_listed p -> is_word (match l_path p with Some path => path ++ bs "=" | None => [] end ++ l_id p).
Proof.
  intros [[Hi _] Hp]. destruct (l_path p) as [path|]; [|done]. destruct Hp as [Hp _].
  apply is_word_app; [|done]. apply is_word_app; [done|apply word_equals].
Qed.
Lemma listed_line_printed p : good_listed p -> listed_line (print_listed p) = Some p.
Proof.
  intros Hg. pose proof (printed_word p Hg) as Hw. unfold listed_line, print_listed.
  rewrite (trim_word (bs "package:" ++ _)) by (by apply is_word_app; [apply word_package|]).
  rewrite strip_pre_app, trim_word by done. destruct p as [i path], Hg as [[Hi Heq] Hp]. cbn [l_id l_path] in *.
  destruct path as [path|]; cbn [app].
  - rewrite <- app_assoc. change (bs "=") with [61]. rewrite (rsplit_once_last 61 path i) by done. destruct Hp as [Hw1 Hh].
    rewrite !trim_word by done. destruct path as [|b path]; [done|]. injection Hh as ->.
    change (has_prefix (bs "/") (47 :: path)) with (has_prefix (bs "/") (bs "/" ++ path)). rewrite has_prefix_app.
    rewrite bool_decide_eq_true_2; [done|]. by destruct Hi as (_ & _ & ?).
  - change (bs "=") with [61]. by rewrite rsplit_once_none.
Qed.
Lemma parse_printed l : Forall good_listed l -> parse_package_list (print_list l) = l.
Proof.
  intros H. unfold parse_package_list, print_list. rewrite lines_printed.
  - induction H as [|p l Hp Hl IH]; [done|]. cbn [fmap list_fmap omap list_omap]. rewrite listed_line_printed by done.
    rewrite filter_cons_True; [by f_equal|]. by destruct Hp as [[(_ & _ & ?) _] _].
  - apply Forall_fmap. eapply Forall_impl; [exact H|]. intros p Hp. apply word_no_newline.
    apply is_word_app; [apply word_package|]. by apply printed_word.
Qed.

Definition listed_ids (l : list bytes) : list ListedPackage := (fun i => mkListed i None) <$> l.
Lemma ids_printed l : Forall good_id l -> ids (print_list (listed_ids l)) = l.
Proof.
  intros H. unfold ids. rewrite parse_printed.
  - unfold listed_ids. induction l as [|i l IH]; [done|]. cbn. f_equal. apply IH. by apply Forall_cons in H as [].
  - apply Forall_fmap. eapply Forall_impl; [exact H|]. by intros i Hi.
Qed.

Definition row_le (a b : PackageRow) : Prop := bytes_leb (row_id a) (row_id b) = true.
Lemma bytes_leb_total a b : bytes_leb a b = true \/ bytes_leb b a = true.
Proof.
  revert b. induction a as [|x a IH]; intros [|y b]; cbn; auto. rewrite (Z.eqb_sym y x).
  destruct (Z.eqb_spec x y) as [->|]; [apply IH|]. rewrite !Z.ltb_lt. lia.
Qed.
Lemma insert_row_perm r l : insert_row r l ≡ₚ r :: l.
Proof.
  induction l as [|x l IH]; [done|]. cbn. case_match; [done|]. rewrite IH. apply Permutation_swap.
Qed.
Lemma insert_row_sorted r l : Sorted row_le l -> Sorted row_le (insert_row r l).
Proof.
  induction 1 as [|x l Hl IH Hx]; cbn; [by repeat constructor|]. case_match eqn:E.
  - constructor; [by constructor|]. by constructor.
  - constructor; [done|]. assert (Hxr : row_le x r) by (unfold row_le; destruct (bytes_leb_total (row_id r) (row_id x)); congruence).
    destruct l as [|y l]; cbn; [by constructor|]. case_match; constructor; [done|]. by inv Hx.
Qed.

Lemma sort_rows_sorted l : Sorted row_le (sort_rows l).
Proof. induction l as [|r l IH]; [constructor|]. by apply insert_row_sorted. Qed.
Lemma sort_rows_perm l : sort_rows l ≡ₚ l.
Proof. induction l as [|r l IH]; [done|]. cbn. by rewrite insert_row_perm, IH. Qed.

(** The inventory is the phone's. From the four listings as [pm] prints
    them, [inventory] makes one row for each package listed, with its path,
    in the order of the ids: enabled when it is in the enabled list,
    disabled when only in the disabled one, otherwise uninstalled for the
    user. *)
Theorem inventory_reads (all : list ListedPackage) (enabled disabled system : list bytes) :
  Forall good_listed all -> Forall good_id enabled -> Forall good_id disabled -> Forall good_id system ->
  exists rows, inventory (Ok (print_list all)) (Ok (print_list (listed_ids enabled)))
      (Ok (print_list (listed_ids disabled))) (Ok (print_list (listed_ids system))) = Ok rows
  /\ Sorted row_le rows
  /\ rows ≡ₚ (fun p => mkRow (l_id p)
       (if decide (l_id p ∈ enabled) then Enabled else if decide (l_id p ∈ disabled) then Disabled else Uninstalled)
       (bool_decide (l_id p ∈ system)) (l_path p)) <$> all.
Proof.
  intros Ha He Hd Hs. unfold inventory. rewrite parse_printed, !ids_printed by done.
  eexists. split; [done|]. split; [apply sort_rows_sorted|]. rewrite sort_rows_perm.
  apply Permutation_refl', list_fmap_ext. intros i p _. unfold row_of. f_equal.
  by repeat case_bool_decide; repeat case_decide.
Qed.

Lemma inventory_reads_witness : exists rows,
  inventory (Ok (print_list [mkListed (bs "com.b") (Some (bs "/data/app/x==/base.apk")); mkListed (bs "com.a") None]))
    (Ok (print_list (listed_ids [bs "com.b"]))) (Ok (print_list (listed_ids [bs "com.a"]))) (Ok (print_list (listed_ids []))) = Ok rows
  /\ Sorted row_le rows.
Proof.
  destruct (inventory_reads [mkListed (bs "com.b") (Some (bs "/data/app/x==/base.apk")); mkListed (bs "com.a") None]
    [bs "com.b"] [bs "com.a"] []) as (rows & E & Hs & _).
  1-4: apply (bool_decide_unpack _); by vm_compute.
  exists rows. split; [exact E|exact Hs].
Defined.

(** ** Verdicts *)

(** The answer of a phone that did what it was asked, for a package whose own name
    holds a word the verdict looks for: it is reported as a failure. *)
Definition DISABLED_OK (package : bytes) : bytes := bs "Package " ++ package ++ bs " new state: disabled-user".
Example name_taken_for_failure :
  let r := apply_one 0 (fun _ => Said true (DISABLED_OK (bs "com.acme.ErrorReporter")) []) (mkRequest (bs "com.acme.ErrorReporter") Disable) in
  ok r = false /\ code r = Some (bs "unknown") /\ message r = Some (DISABLED_OK (bs "com.acme.ErrorReporter")).
Proof. vm_compute. auto. Qed.

Lemma classify_some out : (classify out).1 <> None.
Proof. unfold classify. by repeat case_match. Qed.

(** What a result says: a success names the state the action leads to, a
    failure a code and a sentence; nothing is run for a word that is not a
    package name. *)
Theorem apply_one_verdict (user : Z) (answer : bytes -> pm_answer) (request : PackageRequest) :
  let r := apply_one user answer request in
  r_package r = trim (package request) /\ r_action r = action request
  /\ (ok r = true <-> r_state r = Some (target_state (action request)))
  /\ (ok r = true <-> code r = None)
  /\ (ok r = true -> is_package_name (trim (package request)) = true
      /\ exists out, pm (answer (command (action request) (trim (package request)) user)) = Ok out /\ is_failure (trim out) = false)
  /\ (is_package_name (trim (package request)) = false ->
      forall answer', apply_one user answer' request = r).
Proof.
  intros r. unfold r, apply_one. destruct (is_package_name (trim (package request))) eqn:Hn; cbn [negb].
  2:{ cbn. split_and!; done. }
  destruct (pm _) as [out|e] eqn:Hp; [|cbn; split_and!; done].
  case_bool_decide as Ht; cbn.
  { split_and!; try done. intros _. split; [done|]. exists out. split; [done|]. rewrite Ht. by vm_compute. }
  destruct (is_failure (trim out)) eqn:Hf; [destruct (classify (trim out)) as [c m] eqn:Hc|]; cbn; split_and!; try done.
  - split; [done|]. intros ->. exfalso. by apply (classify_some (trim out)); rewrite Hc.
  - intros _. split; [done|]. by exists out.
Qed.
