(* ===== verification/DaemonTools.v ===== *)
(** * The device tools of the daemon's interface (adb-daemon/src/main.rs)

    The handlers behind the tools of the window: shell commands, screenshots,
    recordings, forwards, reboots, bug reports, wireless connections, package
    queries and changes. A handler is a [prog]: a tree of commands to the outside
    (adb, the disk, the clock, the shared state) with a branch for every
    answer, so that handlers running at the same time interleave between
    commands. JSON is read and written by [serde_json], which is a
    parameter. *)

From stdpp Require Import base gmap list strings.
From S2P Require Import Prelude RustStd Text DaemonInput DaemonDevices DaemonState Packages.

(** ** Commands *)

(** [std::process::Output] *)
Record output := mkOutput { ended : status; stdout : bytes; stderr : bytes }.

(** [chrono::Local::now()], down to the second. *)
Record datetime := mkTime { year : Z; month : Z; day : Z; hour : Z; minute : Z; second : Z }.

Definition pad (width : nat) (z : Z) : bytes :=
  let d := fmt_dec z in replicate (width - length d) 48 ++ d.
(** [now.format("%Y%m%d-%H%M%S")], for the years 0 to 9999. *)
Definition stamp (t : datetime) : bytes :=
  pad 4 (year t) ++ pad 2 (month t) ++ pad 2 (day t) ++ bs "-" ++ pad 2 (hour t) ++ pad 2 (minute t) ++ pad 2 (second t).

Inductive user_dir := Pictures | Videos | Downloads.

(** A command and the type of its answers. [AdbRun] and [AdbRunOutput] are
    [adb_run] and [adb_run_output], whose errors carry their text; [AdbWait] is
    a child under a time limit, [None] when it ran out; [Detach] starts
    [adb] in a task of its own and does not wait for it. *)
Inductive tcmd : Type -> Type :=
| FindClient (device : bytes) : tcmd bool
| AdbRun (args : list bytes) : tcmd (result bytes status)
| AdbRunOutput (args : list bytes) : tcmd (result bytes output)
| AdbWait (args : list bytes) : tcmd (option (result bytes output))
| Detach (args : list bytes) : tcmd unit
| LocalNow : tcmd datetime
| UserDir (d : user_dir) : tcmd (option bytes)
| HomeDir : tcmd (option bytes)
| MakeDirs (path : bytes) : tcmd (result bytes unit)
| WriteFile (path data : bytes) : tcmd (result bytes unit)
| InsertRecording (device remote : bytes) : tcmd unit
| TakeRecording (device : bytes) : tcmd (option bytes)
| FreshInfo (key : bytes) : tcmd (option bytes)
| StaleInfo (key : bytes) : tcmd (option bytes)
| StoreInfo (key json : bytes) : tcmd unit
| ApplyAll (device : bytes) (user : Z) (requests : list PackageRequest) : tcmd (list PackageResult)
| ForgetPackages (key : bytes) : tcmd unit.

Inductive tprog (A : Type) : Type :=
| Done (a : A)
| Ask (R : Type) (c : tcmd R) (k : R -> tprog A).
Arguments Done {A} a.
Arguments Ask {A R} c k.

Definition ask {R} (c : tcmd R) : tprog R := Ask c Done.
Global Instance tprog_ret : MRet tprog := fun A => Done.
Global Instance tprog_bind : MBind tprog :=
  fun A B f => fix go m := match m with Done a => f a | Ask c k => Ask c (fun r => go (k r)) end.

(** [f(..).await.map_err(e)?] and the rest. *)
Definition try_ {E F A B} (p : tprog (result E A)) (e : E -> F) (k : A -> tprog (result F B)) : tprog (result F B) :=
  r ← p; match r with Ok a => k a | Err x => mret (Err (e x)) end.
(** [.map_err(|e| zbus::fdo::Error::Failed(format!("{what}: {e}")))] *)
Definition failed (what : bytes) (e : bytes) : bus_error := Failed_ (what ++ bs ": " ++ e).
Definition the_error {E} (e : E) : E := e.
(** [.map(|_| true)] *)
Definition as_true {E A} (r : result E A) : result E bool := match r with Ok _ => Ok true | Err e => Err e end.

(** ** adb *)

Definition adb_args (serial : bytes) (rest : list bytes) : list bytes := bs "-s" :: serial :: rest.

Definition adb_shell_with (serial cmd : bytes) : tprog (result bytes bytes) :=
  out ← ask (AdbWait (adb_args serial [bs "shell"; cmd]));
  mret (match out with
        | None => Err (bs "adb shell timed out")
        | Some (Err e) => Err e
        | Some (Ok o) =>
            if success (ended o) then Ok (from_utf8_lossy (stdout o))
            else Err (bs "adb shell '" ++ cmd ++ bs "' failed: " ++ from_utf8_lossy (stderr o))
        end).
Definition adb_shell (serial cmd : bytes) : tprog (result bytes bytes) := adb_shell_with serial cmd.

(** The guard of [client_for]. *)
Definition client_for (device : bytes) : tprog (result bus_error unit) :=
  found ← ask (FindClient device);
  mret (if (found : bool) then Ok tt else Err (ServiceUnknown (bs "device not connected"))).

Definition DEVICE_REQUIRED : bus_error := InvalidArgs (bs "device is required").
(** The first lines of most handlers. *)
Definition on_device {A} (device : bytes) (k : tprog (result bus_error A)) : tprog (result bus_error A) :=
  if bool_decide (device = []) then mret (Err DEVICE_REQUIRED)
  else try_ (client_for device) the_error (fun _ => k).

(** ** Shell commands *)

Section json.
(** [serde_json::from_str] of the words and of the package requests; the
    replies of the package handlers. *)
Context (argv_of_json : bytes -> result bytes (list bytes)).
Context (requests_of_json : bytes -> result bytes (list PackageRequest)).
Context (results_to_json : list PackageResult -> bytes).

(** [None]: the cut of the reply panics. *)
Definition run_shell_json (serial argv_json : bytes) : tprog (option (result bytes bytes)) :=
  match argv_of_json argv_json with
  | Err e => mret (Some (Err (bs "argv is not a JSON array: " ++ e)))
  | Ok argv =>
      match validate_shell_argv argv with
      | Err e => mret (Some (Err e))
      | Ok _ =>
          out ← ask (AdbRunOutput ([bs "-s"; serial; bs "shell"] ++ argv));
          mret (match out with
                | Err e => Some (Err e)
                | Ok o => Ok <$> cap_output (from_utf8_lossy (stdout o))
                end)
      end
  end.

Definition run_shell (device argv : bytes) : tprog (option (result bus_error bytes)) :=
  if bool_decide (device = []) then mret (Some (Err DEVICE_REQUIRED)) else
  c ← client_for device;
  match c with
  | Err e => mret (Some (Err e))
  | Ok _ => r ← run_shell_json device argv; mret (map_err (failed (bs "run_shell")) <$> r)
  end.

(** ** Files of this computer *)

(** [dirs::picture_dir().or_else(|| dirs::home_dir().map(|h| h.join("Pictures")))] *)
Definition dir_or_home (d : user_dir) (name : bytes) : tprog (option bytes) :=
  dir ← ask (UserDir d);
  match dir with
  | Some p => mret (Some p)
  | None => home ← ask HomeDir; mret ((fun h => path_join h name) <$> home)
  end.

Definition NO_HOME : bytes := bs "no home directory".
Definition ready_dir {E} (d : user_dir) (name : bytes) (none : E) (mkdir : bytes -> E) : tprog (result E bytes) :=
  dir ← dir_or_home d name;
  match dir with
  | None => mret (Err none)
  | Some dir => try_ (ask (MakeDirs dir)) mkdir (fun _ => mret (Ok dir))
  end.

Definition screenshot_json (serial : bytes) : tprog (result bytes bytes) :=
  try_ (ask (AdbRunOutput (adb_args serial [bs "exec-out"; bs "screencap"; bs "-p"]))) the_error (fun out =>
  if bool_decide (stdout out = []) then mret (Err (bs "screencap produced no output")) else
  try_ (ready_dir Pictures (bs "Pictures") NO_HOME the_error) the_error (fun dir =>
  now ← ask LocalNow;
  let path := path_join dir (bs "adbshare-screenshot-" ++ stamp now ++ bs ".png") in
  try_ (ask (WriteFile path (stdout out))) the_error (fun _ => mret (Ok (from_utf8_lossy path))))).

Definition screenshot (device : bytes) : tprog (result bus_error bytes) :=
  on_device device (try_ (screenshot_json device) (failed (bs "screenshot")) (fun p => mret (Ok p))).

(** ** Reboots, forwards and bug reports *)

Definition reboot (device mode : bytes) : tprog (result bus_error bool) :=
  if bool_decide (device = []) then mret (Err DEVICE_REQUIRED)
  else if negb (one_of mode [[]; bs "bootloader"; bs "recovery"]) then
    mret (Err (InvalidArgs (bs "unknown reboot mode: " ++ mode)))
  else
    try_ (client_for device) the_error (fun _ =>
    let args := adb_args device [bs "reboot"] ++ (if bool_decide (mode = []) then [] else [mode]) in
    r ← ask (AdbRun args); mret (map_err (failed (bs "reboot")) (as_true r))).

Definition list_forwards : tprog (result bus_error bytes) :=
  try_ (ask (AdbRunOutput [bs "forward"; bs "--list"])) (failed (bs "forward --list")) (fun out =>
  mret (Ok (from_utf8_lossy (stdout out)))).

Definition add_forward (device : bytes) (local_port : Z) (remote : bytes) : tprog (result bus_error bool) :=
  if bool_decide (device = []) || bool_decide (remote = []) || negb (is_safe_shell_arg remote) then
    mret (Err (InvalidArgs (bs "device and a safe remote endpoint are required")))
  else
    try_ (client_for device) the_error (fun _ =>
    r ← ask (AdbRun (adb_args device [bs "forward"; tcp local_port; remote]));
    mret (map_err (failed (bs "forward")) (as_true r))).

Definition remove_forward (device : bytes) (local_port : Z) : tprog (result bus_error bool) :=
  on_device device (
    r ← ask (AdbRun (adb_args device [bs "forward"; bs "--remove"; tcp local_port]));
    mret (map_err (failed (bs "forward --remove")) (as_true r))).

Definition bugreport (device : bytes) : tprog (result bus_error bytes) :=
  on_device device (
    try_ (ready_dir Downloads (bs "Downloads") (Failed_ NO_HOME) (failed (bs "mkdir"))) the_error (fun dir =>
    now ← ask LocalNow;
    let path_str := from_utf8_lossy (path_join dir (bs "adbshare-bugreport-" ++ stamp now ++ bs ".zip")) in
    try_ (ask (AdbRun (adb_args device [bs "bugreport"; path_str]))) (failed (bs "bugreport")) (fun _ =>
    mret (Ok path_str)))).

(** ** Recordings *)

Definition record_path (now : datetime) : bytes := bs "/sdcard/adbshare-rec-" ++ stamp now ++ bs ".mp4".
Definition record_command (remote : bytes) : bytes := bs "screenrecord --time-limit 180 " ++ remote.

Definition start_record (device : bytes) : tprog (result bus_error bool) :=
  on_device device (
    now ← ask LocalNow;
    let remote := record_path now in
    _ ← ask (InsertRecording device remote);
    _ ← ask (Detach (adb_args device [bs "shell"; record_command remote]));
    mret (Ok true)).

Definition stop_record (device : bytes) : tprog (result bus_error bytes) :=
  remote ← ask (TakeRecording device);
  match remote with
  | None => mret (Err (Failed_ (bs "no recording in progress")))
  | Some remote =>
      _ ← ask (AdbRun (adb_args device [bs "shell"; bs "pkill"; bs "-INT"; bs "screenrecord"]));
      try_ (ready_dir Videos (bs "Videos") (Failed_ NO_HOME) (failed (bs "mkdir"))) the_error (fun dir =>
      let name := match file_name remote with Some n => from_utf8_lossy n | None => bs "adbshare-recording.mp4" end in
      let local_str := from_utf8_lossy (path_join dir name) in
      try_ (ask (AdbRun (adb_args device [bs "pull"; remote; local_str]))) (failed (bs "pull recording")) (fun _ =>
      _ ← ask (AdbRun (adb_args device [bs "shell"; bs "rm -f " ++ remote]));
      mret (Ok local_str)))
  end.

(** ** Wireless *)

Definition both_outputs (o : output) : bytes := from_utf8_lossy (stdout o) ++ from_utf8_lossy (stderr o).

(** A child under a time limit, its two failures named. *)
Definition waited (what address : bytes) (args : list bytes) : tprog (result bus_error output) :=
  out ← ask (AdbWait args);
  mret (match out with
        | None => Err (Failed_ (what ++ bs " " ++ address ++ bs " timed out"))
        | Some (Err e) => Err (failed what e)
        | Some (Ok o) => Ok o
        end).

Definition connect_wireless (address : bytes) : tprog (result bus_error bytes) :=
  match validate_host_port address with
  | Err e => mret (Err e)
  | Ok _ =>
      try_ (waited (bs "adb connect") address [bs "connect"; address]) the_error (fun out =>
      mret (if success (ended out) then Ok (both_outputs out) else Err (Failed_ (both_outputs out))))
  end.

Definition code_ok (code : bytes) : bool := (zlen code =? 6) && forallb is_digit code.

Definition pair_wireless (address code : bytes) : tprog (result bus_error bytes) :=
  match validate_host_port address with
  | Err e => mret (Err e)
  | Ok _ =>
      if negb (code_ok code) then mret (Err (InvalidArgs (bs "pairing code must be six digits"))) else
      try_ (waited (bs "adb pair") address [bs "pair"; address; code]) the_error (fun out =>
      let text := both_outputs out in
      mret (if success (ended out) then Ok text
            else Err (Failed_ (if bool_decide (trim text = []) then bs "adb pair failed with status " ++ shown (ended out) else text))))
  end.

(** ** Packages *)

Record PackageInfo := mkInfo { info_package : bytes; installed : bool; version_name : option bytes; version_code : option Z }.

(** The first word after [key] on a line. *)
Definition field_word (key line : bytes) : option bytes := strip_pre key (trim line) ≫= fun v => head (split_whitespace v).
Definition version_name_of (dump : bytes) : option bytes :=
  find_map (fun line => nonempty (field_word (bs "versionName=") line)) (lines dump).
Definition version_code_of (dump : bytes) : option Z :=
  find_map (fun line => field_word (bs "versionCode=") line ≫= fun v => u64_of (trim v)) (lines dump).
Definition package_versions (package dump : bytes) : PackageInfo :=
  let n := version_name_of dump in
  let c := version_code_of dump in
  mkInfo package (bool_decide (is_Some n) || bool_decide (is_Some c)) n c.

Context (info_to_json : PackageInfo -> bytes).

Definition read_package_info (device package : bytes) : tprog (result bytes bytes) :=
  try_ (adb_shell_with device (dumpsys_command package)) the_error (fun dump =>
  mret (Ok (info_to_json (package_versions package dump)))).

Definition NOT_A_PACKAGE (package : bytes) : bus_error := InvalidArgs (package ++ bs " does not look like a package name").
Definition BOTH_REQUIRED : bus_error := InvalidArgs (bs "device and package are required").

Definition package_info (device package : bytes) : tprog (result bus_error bytes) :=
  if bool_decide (device = []) || bool_decide (package = []) then mret (Err BOTH_REQUIRED)
  else if negb (is_package_name package) then mret (Err (NOT_A_PACKAGE package))
  else
    let key := device ++ [0] ++ package in
    cached ← ask (FreshInfo key);
    match cached with
    | Some c => mret (Ok c)
    | None =>
        r ← read_package_info device package;
        match r with
        | Ok json => _ ← ask (StoreInfo key json); mret (Ok json)
        | Err e =>
            old ← ask (StaleInfo key);
            mret (match old with Some c => Ok c | None => Err (failed (bs "package_info") e) end)
        end
    end.

Definition uninstall_package (device package : bytes) : tprog (result bus_error unit) :=
  if bool_decide (device = []) || bool_decide (package = []) then mret (Err BOTH_REQUIRED)
  else if negb (is_package_name package) then mret (Err (NOT_A_PACKAGE package))
  else
    try_ (client_for device) the_error (fun _ =>
    try_ (adb_shell_with device (uninstall_command package)) (failed (bs "uninstall")) (fun out =>
    let trimmed := trim out in
    mret (if bool_decide (trimmed = bs "Success") then Ok tt
          else Err (Failed_ (bs "uninstall " ++ package ++ bs ": "
                 ++ (if bool_decide (trimmed = []) then bs "device did not answer" else trimmed)))))).

Definition MAX_PACKAGE_ACTIONS : Z := 1000.

Definition apply_package_actions (device : bytes) (user : Z) (actions : bytes) : tprog (result bus_error bytes) :=
  on_device device (
    match requests_of_json actions with
    | Err e => mret (Err (InvalidArgs (bs "actions: " ++ e)))
    | Ok requests =>
        if zlen requests >? MAX_PACKAGE_ACTIONS then
          mret (Err (InvalidArgs (bs "at most " ++ fmt_dec MAX_PACKAGE_ACTIONS ++ bs " packages can be changed at once")))
        else
          results ← ask (ApplyAll device user requests);
          _ ← ask (ForgetPackages (device ++ [0] ++ fmt_dec user));
          mret (Ok (results_to_json results))
    end).

(** ** The calls *)

Inductive call :=
| RunShell (device argv : bytes) | Screenshot (device : bytes) | Reboot (device mode : bytes)
| ListForwards | AddForward (device : bytes) (port : Z) (remote : bytes) | RemoveForward (device : bytes) (port : Z)
| Bugreport (device : bytes) | StartRecord (device : bytes) | StopRecord (device : bytes)
| ConnectWireless (address : bytes) | PairWireless (address code : bytes)
| PackageInfoOf (device package : bytes) | UninstallPackage (device package : bytes)
| ApplyPackageActions (device : bytes) (user : Z) (actions : bytes).

Inductive reply := Text (t : bytes) | Flag (b : bool) | Unit.

(** A reply, an error, or [None] when the handler panicked. *)
Definition reply_with {A} (f : A -> reply) (r : result bus_error A) : result bus_error reply :=
  match r with Ok a => Ok (f a) | Err e => Err e end.
Definition replies {A} (f : A -> reply) (p : tprog (result bus_error A)) : tprog (option (result bus_error reply)) :=
  r ← p; mret (Some (reply_with f r)).

Definition handle (c : call) : tprog (option (result bus_error reply)) :=
  match c with
  | RunShell d a => (r ← run_shell d a; mret (option_map (reply_with Text) r))
  | Screenshot d => replies Text (screenshot d)
  | Reboot d m => replies Flag (reboot d m)
  | ListForwards => replies Text list_forwards
  | AddForward d p r => replies Flag (add_forward d p r)
  | RemoveForward d p => replies Flag (remove_forward d p)
  | Bugreport d => replies Text (bugreport d)
  | StartRecord d => replies Flag (start_record d)
  | StopRecord d => replies Text (stop_record d)
  | ConnectWireless a => replies Text (connect_wireless a)
  | PairWireless a c => replies Text (pair_wireless a c)
  | PackageInfoOf d p => replies Text (package_info d p)
  | UninstallPackage d p => replies (fun _ => Unit) (uninstall_package d p)
  | ApplyPackageActions d u a => replies Text (apply_package_actions d u a)
  end.
End json.

Example stamp_1 : record_path (mkTime 2025 3 9 7 5 12) = bs "/sdcard/adbshare-rec-20250309-070512.mp4"
  /\ code_ok (bs "012345") = true /\ code_ok (bs "12345") = false
  /\ package_versions (bs "a.b") (bs "  versionCode=42 minSdk=21" ++ [10] ++ bs "    versionName=1.2" ++ [10])
     = mkInfo (bs "a.b") true (Some (bs "1.2")) (Some 42).
Proof. by vm_compute. Qed.
