(* ===== verification/DaemonToolsSpec.v ===== *)
(** * What the device tools make adb do

    The handlers of [DaemonTools] run together: calls arrive, devices come and
    go, and any handler may take its next step. The answers of the
    outside are arbitrary; the devices and the recordings are state. The
    theorem is a policy on every [adb] command line the tools ever run. *)

From stdpp Require Import base gmap list strings pretty sets.
From S2P Require Import Prelude RustStd Text DaemonInput DaemonDevices DaemonState Packages DaemonTools.

(** ** The interface at work *)

(** A command and its answer. *)
Inductive turn := Answered (R : Type) (c : tcmd R) (r : R).
Arguments Answered {R} c r.

Record tools := mkTools { known : gset bytes; recordings : gmap bytes bytes; history : list turn }.

Section machine.
Context (answer : nat -> forall R, tcmd R -> R).
Context (argv_of_json : bytes -> result bytes (list bytes)).
Context (requests_of_json : bytes -> result bytes (list PackageRequest)).
Context (results_to_json : list PackageResult -> bytes).
Context (info_to_json : PackageInfo -> bytes).

Definition respond {R} (c : tcmd R) (w : tools) : R * gmap bytes bytes :=
  match c in tcmd R return R * gmap bytes bytes with
  | FindClient d => (bool_decide (d ∈ known w), recordings w)
  | InsertRecording d r => (tt, <[d := r]> (recordings w))
  | TakeRecording d => (recordings w !! d, delete d (recordings w))
  | c => (answer (length (history w)) _ c, recordings w)
  end.
Definition perform {R} (c : tcmd R) (w : tools) : R * tools :=
  let '(r, recs) := respond c w in (r, mkTools (known w) recs (history w ++ [Answered c r])).

Abbreviation handler := (tprog (option (result bus_error reply))).

Inductive event :=
| Plug (device : bytes) | Unplug (device : bytes)   (* a slot appears or goes *)
| Arrive (c : call)                                  (* a call starts its handler *)
| Advance (i : nat).                                 (* the [i]-th handler takes a step *)

Definition happen (s : list handler * tools) (e : event) : list handler * tools :=
  let '(hs, w) := s in
  match e with
  | Plug d => (hs, mkTools ({[ d ]} ∪ known w) (recordings w) (history w))
  | Unplug d => (hs, mkTools (known w ∖ {[ d ]}) (recordings w) (history w))
  | Arrive c => (hs ++ [handle argv_of_json requests_of_json results_to_json info_to_json c], w)
  | Advance i =>
      match hs !! i with
      | Some (Ask c k) => let '(r, w) := perform c w in (<[i := k r]> hs, w)
      | _ => (hs, w)
      end
  end.
Definition idle : list handler * tools := ([], mkTools ∅ ∅ []).
Definition session (es : list event) : list handler * tools := foldl happen idle es.

(** ** The policy *)

(** What a history has established: a device was found set up; a pull of a
    recording of a device came to an end. *)
Inductive fact := Known (device : bytes) | Pulled (device remote : bytes).

Definition pull_args (device remote local : bytes) : list bytes := adb_args device [bs "pull"; remote; local].
Definition teaches {R} (c : tcmd R) : R -> fact -> Prop :=
  match c with
  | FindClient d => fun r f => r = true /\ f = Known d
  | AdbRun args => fun r f => is_ok r = true /\ exists d remote local, args = pull_args d remote local /\ f = Pulled d remote
  | _ => fun _ _ => False
  end.
Definition established (l : list turn) (f : fact) : Prop :=
  exists R (c : tcmd R) r, Answered c r ∈ l /\ teaches c r f.

Definition is_recording (remote : bytes) : Prop := exists now, remote = record_path now.

(** The words of a package change. *)
Definition change_words (a : PackageAction) (user : Z) (p : bytes) : list bytes :=
  match a with
  | Disable => [bs "pm"; bs "disable-user"; bs "--user"; fmt_dec user; p]
  | Enable => [bs "pm"; bs "enable"; bs "--user"; fmt_dec user; p]
  | Uninstall => [bs "pm"; bs "uninstall"; bs "-k"; bs "--user"; fmt_dec user; p]
  | Restore => [bs "cmd"; bs "package"; bs "install-existing"; p]
  end.

(** The words the shell of the device [d] may be given. *)
Inductive phone_words (K : fact -> Prop) (d : bytes) : list bytes -> Prop :=
| pw_tool argv : Forall (fun a => is_safe_shell_arg a = true) argv -> policy argv -> phone_words K d argv
| pw_uninstall p : is_package_name p = true -> phone_words K d [bs "pm"; bs "uninstall"; p]
| pw_change a user p : is_package_name p = true -> phone_words K d (change_words a user p)
| pw_record remote : is_recording remote -> phone_words K d [bs "screenrecord"; bs "--time-limit"; bs "180"; remote]
| pw_finish : phone_words K d [bs "pkill"; bs "-INT"; bs "screenrecord"]
| pw_clean remote : is_recording remote -> K (Pulled d remote) -> phone_words K d [bs "rm"; bs "-f"; remote].

(** The arguments [adb] may be given when [K] is established. *)
Inductive adb_allowed (K : fact -> Prop) : list bytes -> Prop :=
| al_shell d line ws : K (Known d) -> sh_words (join [32] line) = Some ws -> phone_words K d ws ->
    adb_allowed K (adb_args d (bs "shell" :: line))
| al_query d p line : is_package_name p = true -> sh_words line = Some [bs "dumpsys"; bs "package"; p] ->
    adb_allowed K (adb_args d [bs "shell"; line])
| al_screen d : K (Known d) -> adb_allowed K (adb_args d [bs "exec-out"; bs "screencap"; bs "-p"])
| al_reboot d mode : K (Known d) -> mode ∈ [[]; [bs "bootloader"]; [bs "recovery"]] ->
    adb_allowed K (adb_args d (bs "reboot" :: mode))
| al_forward d port remote : K (Known d) -> is_safe_shell_arg remote = true ->
    adb_allowed K (adb_args d [bs "forward"; tcp port; remote])
| al_unforward d port : K (Known d) -> adb_allowed K (adb_args d [bs "forward"; bs "--remove"; tcp port])
| al_forwards : adb_allowed K [bs "forward"; bs "--list"]
| al_bugreport d path : K (Known d) -> adb_allowed K (adb_args d [bs "bugreport"; path])
| al_pull d remote local : K (Known d) -> is_recording remote -> adb_allowed K (pull_args d remote local)
| al_connect a : host_port_ok a = true -> adb_allowed K [bs "connect"; a]
| al_pair a code : host_port_ok a = true -> code_ok code = true -> adb_allowed K [bs "pair"; a; code].

(** The command lines a command runs; [apply_all] runs one for each request
    with a valid name, in an order of its own. *)
Definition change_args (device : bytes) (user : Z) (r : PackageRequest) : list (list bytes) :=
  let p := trim (package r) in
  if is_package_name p then [adb_args device [bs "shell"; command (action r) p user]] else [].
Definition argvs {R} (c : tcmd R) : list (list bytes) :=
  match c with
  | AdbRun a | AdbRunOutput a | AdbWait a | Detach a => [a]
  | ApplyAll d u rs => rs ≫= change_args d u
  | _ => []
  end.
Definition ran (e : turn) : list (list bytes) := match e with Answered c _ => argvs c end.

(** ** Programs within the policy *)

Definition permits (K : fact -> Prop) {R} (c : tcmd R) : Prop :=
  Forall (adb_allowed K) (argvs c)
  /\ match c with InsertRecording d r => K (Known d) /\ is_recording r | _ => True end.
Definition honest (K : fact -> Prop) {R} (c : tcmd R) : R -> Prop :=
  match c with
  | TakeRecording d => fun r => match r with Some x => K (Known d) /\ is_recording x | None => True end
  | _ => fun _ => True
  end.

Fixpoint within {A} (Q : A -> (fact -> Prop) -> Prop) (K : fact -> Prop) (p : tprog A) : Prop :=
  match p with
  | Done a => Q a K
  | Ask c k => permits K c
      /\ forall r (K' : fact -> Prop), (forall f, K f -> K' f) -> (forall f, teaches c r f -> K' f) -> honest K' c r -> within Q K' (k r)
  end.

Lemma within_bind {A B} (p : tprog A) (k : A -> tprog B) Q K :
  within (fun a K' => within Q K' (k a)) K p -> within Q K (p ≫= k).
Proof.
  revert K. induction p as [a|R c k' IH]; intros K; cbn; [done|]. intros [Hp Hk]. split; [done|].
  intros r K' HK HT HH. apply IH. by apply Hk.
Qed.

Lemma within_try {E F A B} (p : tprog (result E A)) (e : E -> F) (k : A -> tprog (result F B)) Q K :
  within (fun r K' => match r with Ok a => within Q K' (k a) | Err x => Q (Err (e x)) K' end) K p ->
  within Q K (try_ p e k).
Proof.
  unfold try_. revert K. induction p as [r|R c k' IH]; intros K; cbn; [by destruct r|]. intros [Hp Hk].
  split; [done|]. intros r K' HK HT HH. apply IH. by apply Hk.
Qed.

Lemma within_mono_post {A} (p : tprog A) (Q Q' : A -> (fact -> Prop) -> Prop) K :
  within Q K p -> (forall a K', (forall f, K f -> K' f) -> Q a K' -> Q' a K') -> within Q' K p.
Proof.
  revert K. induction p as [a|R c k IH]; intros K; cbn; [by auto|]. intros [Hp Hk] HQ. split; [done|].
  intros r K' HK HT HH. eapply IH; [by apply Hk|]. intros a K'' HK'. apply HQ. auto.
Qed.

Lemma phone_words_mono (K K' : fact -> Prop) d ws : (forall f, K f -> K' f) -> phone_words K d ws -> phone_words K' d ws.
Proof. intros HK []; eauto using phone_words. Qed.
Lemma adb_allowed_mono (K K' : fact -> Prop) args : (forall f, K f -> K' f) -> adb_allowed K args -> adb_allowed K' args.
Proof. intros HK []; eauto using adb_allowed, phone_words_mono. Qed.
Lemma within_mono {A} (p : tprog A) Q (K K' : fact -> Prop) :
  (forall a K1 K2, (forall f, K1 f -> K2 f) -> Q a K1 -> Q a K2) ->
  (forall f, K f -> K' f) -> within Q K p -> within Q K' p.
Proof.
  intros HQ HK. destruct p as [a|R c k]; cbn; [by apply HQ|]. intros [[Ha Hc] Hk]. split; [split|].
  - eapply Forall_impl; [done|]. intros x. by apply adb_allowed_mono.
  - destruct c; naive_solver.
  - intros r K'' HK'. apply Hk. auto.
Qed.

(** ** The lines read as their words *)

Definition plain_word (w : bytes) : Prop := Forall (fun b => plain b = true) w /\ w <> [].

Lemma digits_plain w : Forall (fun b => is_digit b = true) w -> Forall (fun b => plain b = true) w.
Proof. intros H. eapply Forall_impl; [done|]. intros b Hb. apply alnum_plain. unfold is_alnum. by rewrite Hb. Qed.
Lemma fmt_dec_plain z : plain_word (fmt_dec z).
Proof. destruct (fmt_dec_digits z). split; [by apply digits_plain|done]. Qed.
Lemma pad_plain n z : Forall (fun b => plain b = true) (pad n z).
Proof.
  apply digits_plain. unfold pad. apply Forall_app. split; [|apply fmt_dec_digits].
  apply Forall_replicate. done.
Qed.
Lemma stamp_plain t : Forall (fun b => plain b = true) (stamp t).
Proof. unfold stamp. rewrite !Forall_app. split_and!; try apply pad_plain. by repeat constructor. Qed.
Lemma record_path_plain t : plain_word (record_path t).
Proof.
  split; [|done]. unfold record_path. rewrite !Forall_app. split_and!; [|apply stamp_plain|];
    apply (bool_decide_unpack _); by vm_compute.
Qed.
Lemma package_plain p : is_package_name p = true -> plain_word p.
Proof.
  intros (Hp & Hn & _)%package_bytes. split; [|done]. eapply Forall_impl; [done|]. intros b Hb.
  unfold alnum_or in Hb. apply orb_true_iff in Hb as [Hb|Hb]; [by apply alnum_plain|]. bool_to_prop.
  assert (Hall : Forall (fun b => plain b = true) (bs "_.")) by (apply (bool_decide_unpack _); by vm_compute).
  rewrite Forall_forall in Hall. by apply Hall.
Qed.

(** Plainness of a closed word. *)
Ltac closed_word := split; [apply (bool_decide_unpack _); by vm_compute|done].

Lemma record_line r : plain_word r -> sh_words (record_command r) = Some [bs "screenrecord"; bs "--time-limit"; bs "180"; r].
Proof.
  intros Hr. change (record_command r) with (join [32] [bs "screenrecord"; bs "--time-limit"; bs "180"; r]).
  apply sh_join; [done|]. apply Forall_cons; split; [closed_word|]. apply Forall_cons; split; [closed_word|].
  apply Forall_cons; split; [closed_word|]. by apply Forall_singleton.
Qed.
Lemma clean_line r : plain_word r -> sh_words (bs "rm -f " ++ r) = Some [bs "rm"; bs "-f"; r].
Proof.
  intros Hr. change (bs "rm -f " ++ r) with (join [32] [bs "rm"; bs "-f"; r]).
  apply sh_join; [done|]. apply Forall_cons; split; [closed_word|]. apply Forall_cons; split; [closed_word|]. by apply Forall_singleton.
Qed.
(** A quoted name at the end of a line of plain words. *)
Lemma sh_quoted_last ws p : Forall (fun w => plain_word w) ws -> Forall (fun b => b <> 39) p ->
  sh_words (foldr (fun w l => w ++ 32 :: l) (39 :: p ++ [39]) ws) = Some (ws ++ [p]).
Proof.
  intros Hws Hp. unfold sh_words. induction Hws as [|w ws [Hw Hn] Hws IH]; cbn [foldr].
  - change (sh (39 :: ?l) None false) with (sh l (Some []) true). by rewrite sh_quoted.
  - rewrite sh_word by done. rewrite IH. done.
Qed.
Lemma change_line a user p : is_package_name p = true -> sh_words (command a p user) = Some (change_words a user p).
Proof.
  intros Hp%package_no_quote.
  assert (H : command a p user = foldr (fun w l => w ++ 32 :: l) (39 :: p ++ [39]) (take (length (change_words a user p) - 1) (change_words a user p))).
  { unfold command, change_words. generalize (fmt_dec user) as n. intros n. by destruct a. }
  rewrite H, sh_quoted_last; [|..|done]; [by destruct a|]. clear H.
  destruct a; cbn [length change_words Nat.sub take]; rewrite !Forall_cons; split_and!; try apply Forall_nil_2;
    match goal with |- plain_word (fmt_dec _) => apply fmt_dec_plain | |- _ => closed_word end.
Qed.

(** ** Every handler is within the policy *)

Definition safe {A} (K : fact -> Prop) (p : tprog A) : Prop := within (fun _ _ => True) K p.

Lemma within_ask {R} (c : tcmd R) (Q : R -> (fact -> Prop) -> Prop) (K : fact -> Prop) : permits K c ->
  (forall r (K' : fact -> Prop), (forall f, K f -> K' f) -> (forall f, teaches c r f -> K' f) -> honest K' c r -> Q r K') ->
  within Q K (ask c).
Proof. done. Qed.
Lemma permits_quiet (K : fact -> Prop) {R} (c : tcmd R) :
  argvs c = [] -> match c with InsertRecording _ _ => False | _ => True end -> permits K c.
Proof. intros Ha Hc. split; [rewrite Ha; constructor|by destruct c]. Qed.
Lemma permits_adb (K : fact -> Prop) args {R} (c : tcmd R) : argvs c = [args] -> adb_allowed K args ->
  match c with InsertRecording _ _ => False | _ => True end -> permits K c.
Proof. intros Ha HK Hc. split; [rewrite Ha; by constructor|by destruct c]. Qed.

Ltac tool_step :=
  lazymatch goal with
  | |- safe _ _ => unfold safe
  | |- within _ _ (try_ _ _ _) => apply within_try
  | |- within _ _ (_ ≫= _) => apply within_bind
  | |- within ?Q ?K (mret ?a) => change (Q a K); cbv beta
  | |- within _ _ (ask _) => apply within_ask; [first [by apply permits_quiet | eapply permits_adb; [done| |done]]
                                               |intros ?r ?K' ?HK ?HT ?HH]
  | |- within _ _ (if ?b then _ else _) => destruct b eqn:?
  | |- within _ _ (match ?x with _ => _ end) => destruct x eqn:?
  | |- match ?x with _ => _ end => destruct x eqn:?
  | |- True => exact I
  end.

Lemma within_client_for d (Q : result bus_error unit -> (fact -> Prop) -> Prop) (K : fact -> Prop) :
  (forall K' : fact -> Prop, (forall f, K f -> K' f) -> K' (Known d) -> Q (Ok tt) K') ->
  (forall (K' : fact -> Prop) e, Q (Err e) K') -> within Q K (client_for d).
Proof.
  intros Hok Herr. unfold client_for. repeat tool_step. destruct r; [|apply Herr].
  apply Hok; [done|]. by apply HT.
Qed.

Lemma safe_on_device {A} d (k : tprog (result bus_error A)) (K : fact -> Prop) :
  (forall K' : fact -> Prop, (forall f, K f -> K' f) -> K' (Known d) -> safe K' k) -> safe K (on_device d k).
Proof.
  intros Hk. unfold on_device. repeat tool_step. by apply within_client_for.
Qed.

Lemma within_ready_dir {E} u name (none : E) mk (Q : result E bytes -> (fact -> Prop) -> Prop) (K : fact -> Prop) :
  (forall r (K' : fact -> Prop), (forall f, K f -> K' f) -> Q r K') -> within Q K (ready_dir u name none mk).
Proof. intros HQ. unfold ready_dir, dir_or_home. repeat tool_step; apply HQ; auto. Qed.

Lemma within_shell d cmd (Q : result bytes bytes -> (fact -> Prop) -> Prop) (K : fact -> Prop) :
  adb_allowed K (adb_args d [bs "shell"; cmd]) ->
  (forall r (K' : fact -> Prop), (forall f, K f -> K' f) -> Q r K') -> within Q K (adb_shell_with d cmd).
Proof. intros Ha HQ. unfold adb_shell_with. tool_step. tool_step; [done|]. tool_step. by apply HQ. Qed.

Lemma safe_run_shell d argv K : safe K (run_shell argv_of_json d argv).
Proof.
  unfold run_shell, run_shell_json. repeat tool_step. apply within_client_for; [|by intros]. intros K' HK Hd.
  repeat tool_step.
  match goal with H : validate_shell_argv ?l = Ok ?x |- _ =>
    destruct x; apply validate_sound in H as [Hs Hp]; apply (al_shell _ d l l); [done| |by apply pw_tool] end.
  apply sh_join; [by destruct Hp|]. eapply Forall_impl; [done|]. intros x Hx%safe_arg_plain. naive_solver.
Qed.
Lemma safe_screenshot d K : safe K (screenshot d).
Proof.
  apply safe_on_device. intros K' HK Hd. unfold screenshot_json. repeat tool_step; [by apply al_screen|].
  apply within_ready_dir. intros [dir|e] K'' HK'; repeat tool_step.
Qed.
Lemma safe_reboot d mode K : safe K (reboot d mode).
Proof.
  unfold reboot. repeat tool_step. apply within_client_for; [|by intros]. intros K' HK Hd. repeat tool_step.
  bool_to_prop. apply one_of_spec in Heqb0. unfold adb_args. cbn [app].
  apply (al_reboot _ d (if bool_decide (mode = []) then [] else [mode])); [done|].
  apply list_elem_of_In. apply list_elem_of_In in Heqb0. cbn in *. destruct Heqb0 as [<-|[<-|[<-|[]]]]; vm_compute; tauto.
Qed.
Lemma safe_add_forward d port remote K : safe K (add_forward d port remote).
Proof.
  unfold add_forward. repeat tool_step. apply within_client_for; [|by intros]. intros K' HK Hd. repeat tool_step.
  bool_to_prop. by apply al_forward.
Qed.
Lemma safe_remove_forward d port K : safe K (remove_forward d port).
Proof. apply safe_on_device. intros K' HK Hd. repeat tool_step. by apply al_unforward. Qed.
Lemma safe_bugreport d K : safe K (bugreport d).
Proof.
  apply safe_on_device. intros K' HK Hd. unfold safe. repeat tool_step.
  apply within_ready_dir. intros [dir|e] K'' HK'; repeat tool_step. apply al_bugreport. auto.
Qed.
Lemma safe_start_record d K : safe K (start_record d).
Proof.
  apply safe_on_device. intros K' HK Hd. do 4 tool_step.
  apply within_ask; [split; [constructor|split; [by auto|by exists r]]|]. intros _ K2 HK2 _ _. repeat tool_step.
  apply (al_shell _ _ [_] _ (HK2 _ (HK0 _ Hd)) (record_line _ (record_path_plain r))). apply pw_record. by exists r.
Qed.
Lemma safe_stop_record d K : safe K (stop_record d).
Proof.
  unfold stop_record. do 3 tool_step. destruct r as [remote|]; [|by tool_step]. destruct HH as [Hd [now ->]].
  apply within_bind. tool_step; [apply (al_shell _ _ _ [bs "pkill"; bs "-INT"; bs "screenrecord"]); [by auto|done|apply pw_finish]|].
  apply within_try, within_ready_dir. intros [dir|e] K2 HK2; [|done]. apply within_try.
  tool_step; [apply al_pull; [by auto|by exists now]|]. destruct r0 as [st|e]; [|done].
  apply within_bind. tool_step; [|done].
  eapply (al_shell _ _ [_]); [by auto 10|apply clean_line, record_path_plain|]. apply pw_clean; [by exists now|].
  apply HT1. split; [done|]. by eexists _, _, _.
Qed.
Lemma safe_wireless what a args K (k : output -> tprog (result bus_error bytes)) : adb_allowed K args ->
  (forall o (K' : fact -> Prop), safe K' (k o)) -> safe K (try_ (waited what a args) the_error k).
Proof.
  intros Ha Hk. unfold safe, waited. tool_step. tool_step. tool_step; [done|]. tool_step. destruct r as [[o|e]|]; by try apply Hk.
Qed.
Lemma safe_connect a K : safe K (connect_wireless a).
Proof.
  unfold connect_wireless, validate_host_port. destruct (host_port_ok a) eqn:Ha; [|done].
  apply safe_wireless; [by apply al_connect|done].
Qed.
Lemma safe_pair a code K : safe K (pair_wireless a code).
Proof.
  unfold pair_wireless, validate_host_port. destruct (host_port_ok a) eqn:Ha; [|done].
  destruct (code_ok code) eqn:Hc; [|done]. apply safe_wireless; [by apply al_pair|done].
Qed.
Lemma safe_package_info d p K : safe K (package_info info_to_json d p).
Proof.
  unfold package_info, read_package_info. repeat tool_step. apply within_shell.
  - apply (al_query _ _ p); [by bool_to_prop|]. apply (quoted_words [] p). by bool_to_prop.
  - intros [x|e] K2 HK2; repeat tool_step.
Qed.
Lemma safe_uninstall d p K : safe K (uninstall_package d p).
Proof.
  unfold uninstall_package. repeat tool_step. apply within_client_for; [|by intros]. intros K' HK Hd.
  apply within_try, within_shell; [|by intros [x|e] K2 HK2]. bool_to_prop.
  apply (al_shell _ _ [_] [bs "pm"; bs "uninstall"; p]); [done|by apply (quoted_words [] p)|by apply pw_uninstall].
Qed.
Lemma safe_apply d u actions K : safe K (apply_package_actions requests_of_json results_to_json d u actions).
Proof.
  apply safe_on_device. intros K' HK Hd. destruct (requests_of_json actions) as [rs|e]; [|done]. tool_step. tool_step; [done|].
  apply within_bind, within_ask; [|intros r K2 HK2 _ _; by repeat tool_step]. split; [|done]. cbn [argvs].
  apply Forall_forall. intros args (r & Hargs & _)%list_elem_of_bind. unfold change_args in Hargs.
  destruct (is_package_name (trim (package r))) eqn:Hp; [|by apply elem_of_nil in Hargs]. apply list_elem_of_singleton in Hargs as ->.
  apply (al_shell _ _ [_] _ Hd (change_line _ _ _ Hp)). by apply pw_change.
Qed.

Lemma safe_replies {A} (f : A -> reply) p K : safe K p -> safe K (replies f p).
Proof. intros H. unfold replies. apply within_bind. eapply within_mono_post; [exact H|]. done. Qed.

Lemma safe_handle c K : safe K (handle argv_of_json requests_of_json results_to_json info_to_json c).
Proof.
  destruct c; cbn [handle]; try (apply safe_replies); auto using safe_screenshot, safe_reboot, safe_add_forward,
    safe_remove_forward, safe_bugreport, safe_start_record, safe_stop_record, safe_connect, safe_pair, safe_package_info,
    safe_uninstall, safe_apply.
  - apply within_bind. eapply within_mono_post; [apply safe_run_shell|]. done.
  - unfold list_forwards. repeat tool_step. apply al_forwards.
Qed.

(** ** The machine keeps to it *)

Record lawful (hs : list handler) (w : tools) : Prop := {
  law_handlers : Forall (safe (established (history w))) hs;
  law_recordings : map_Forall (fun d r => established (history w) (Known d) /\ is_recording r) (recordings w);
  law_history : forall l e l', history w = l ++ e :: l' -> Forall (adb_allowed (established l)) (ran e);
}.

Lemma established_more l l' f : established l f -> established (l ++ l') f.
Proof. intros (R & c & r & Hc & Hf). exists R, c, r. split; [|done]. apply elem_of_app. by left. Qed.

Lemma perform_lawful hs w {R} (c : tcmd R) : lawful hs w -> permits (established (history w)) c ->
  lawful hs (perform c w).2 /\ honest (established (history (perform c w).2)) c (perform c w).1
  /\ (forall f, teaches c (perform c w).1 f -> established (history (perform c w).2) f).
Proof.
  intros [Hh Hr Hl] [Ha Hc]. unfold perform. destruct (respond c w) as [r recs] eqn:E. cbn [fst snd history].
  assert (Hmore : forall f, established (history w) f -> established (history w ++ [Answered c r]) f) by (intros; by apply established_more).
  split_and!.
  - split; cbn [history recordings].
    + eapply Forall_impl; [exact Hh|]. intros p. by apply within_mono.
    + assert (Hr' : map_Forall (fun d r => established (history w) (Known d) /\ is_recording r) recs).
      { destruct c; cbn in E; simplify_eq; try done.
        - by apply map_Forall_insert_2.
        - by apply map_Forall_delete. }
      eapply map_Forall_impl; [exact Hr'|]. naive_solver.
    + intros l e l' Hs. destruct l' as [|e' l' _] using rev_ind.
      * by apply app_inj_tail in Hs as [<- <-].
      * rewrite app_comm_cons, app_assoc in Hs. apply app_inj_tail in Hs as [Hs _]. by eapply Hl.
  - destruct c; try done. cbn in E. simplify_eq. destruct (recordings w !! device) as [x|] eqn:Ex; [|done].
    cbn. destruct (Hr _ _ Ex). auto.
  - intros f Hf. exists R, c, r. split; [|done]. apply elem_of_app. right. by apply list_elem_of_singleton.
Qed.

Lemma lawful_happen s e : lawful s.1 s.2 -> lawful (happen s e).1 (happen s e).2.
Proof.
  destruct s as [hs w]. intros Hw. cbn [fst snd] in Hw. destruct e as [d|d|c|i]; cbn [happen fst snd].
  - by destruct Hw.
  - by destruct Hw.
  - destruct Hw as [Hh Hr Hl]. split; [|done|done]. apply Forall_app. split; [done|]. apply Forall_singleton, safe_handle.
  - destruct (hs !! i) as [[x|R c k]|] eqn:E; [done| |done]. pose proof (proj1 (Forall_lookup _ _) (law_handlers _ _ Hw) _ _ E) as [Hc Hk].
    destruct (perform_lawful hs w c Hw Hc) as (Hw' & Hh & Ht). destruct (perform c w) as [r w'] eqn:Ep. cbn [fst snd] in *.
    destruct Hw' as [Hh' Hr Hl]. split; [|done|done]. apply Forall_insert; [done|]. apply Hk; [|done|done].
    intros f Hf. unfold perform in Ep. destruct (respond c w). simplify_eq. by apply established_more.
Qed.

(** C27: What the device tools can make [adb] do. Whatever calls arrive, with
    whatever arguments, however their handlers interleave with each other and
    with devices coming and going, and whatever [adb], the disk and the clock answer:
    every [adb] command line the tools ever run is one of a fixed list. It names
    a device that a lookup had found set up, but for the reading of package
    information, which is run on whatever device is named; its arguments are checked ones, and what it gives to the shell of
    a phone is read there as the words of one permitted command: a
    tool of the allowlist with harmless arguments, a change of one valid
    package, a recording under its own name; a file is deleted on a phone only if it
    is such a recording, after a pull of that same file from that phone has ended. *)
Theorem tools_policy (es : list event) (before after : list turn) (e : turn) :
  history (session es).2 = before ++ e :: after -> Forall (adb_allowed (established before)) (ran e).
Proof.
  assert (H : lawful (session es).1 (session es).2).
  { unfold session. induction es as [|x es IH] using rev_ind; [|rewrite foldl_snoc; by apply lawful_happen].
    split; [constructor|apply map_Forall_empty|]. by intros [|??]. }
  apply (law_history _ _ H).
Qed.
End machine.

(** ** A phone that refuses everything *)

(** Children that end with a failure and print nothing; the directories are there. *)
Definition refusing (n : nat) (R : Type) (c : tcmd R) : R :=
  match c in tcmd R return R with
  | FindClient _ => true
  | AdbRun _ => Ok (mkStatus false (bs "exit status: 1"))
  | AdbRunOutput _ => Ok (mkOutput (mkStatus false (bs "exit status: 1")) [] [])
  | AdbWait _ => Some (Ok (mkOutput (mkStatus false (bs "exit status: 1")) [] []))
  | Detach _ => tt
  | LocalNow => mkTime 2025 3 9 7 5 (Z.of_nat n)
  | UserDir _ => Some (bs "/home/u/files")
  | HomeDir => Some (bs "/home/u")
  | MakeDirs _ => Ok tt
  | WriteFile _ _ => Ok tt
  | InsertRecording _ _ => tt
  | TakeRecording _ => None
  | FreshInfo _ | StaleInfo _ => None
  | StoreInfo _ _ => tt
  | ApplyAll _ _ rs => []
  | ForgetPackages _ => tt
  end.
Definition refused : list event -> list (tprog (option (result bus_error reply))) * tools :=
  session refusing (fun _ => Err []) (fun _ => Err []) (fun _ => []) (fun _ => []).
(** A call run to its end, alone. *)
Definition alone (i : nat) (c : call) : list event := Arrive c :: replicate 12 (Advance i).

Definition phone : bytes := bs "R58".
Definition record_session : list event := Plug phone :: alone 0 (StartRecord phone) ++ alone 1 (StopRecord phone).

Lemma tools_policy_witness :
  exists before after e, history (refused record_session).2 = before ++ e :: after
  /\ ran e = [adb_args phone [bs "shell"; bs "rm -f /sdcard/adbshare-rec-20250309-070501.mp4"]]
  /\ Forall (adb_allowed (established before)) (ran e).
Proof.
  set (h := history (refused record_session).2).
  exists (take 9 h), [], (default (Answered LocalNow (mkTime 0 0 0 0 0 0)) (h !! 9%nat)).
  assert (H : h = take 9 h ++ [default (Answered LocalNow (mkTime 0 0 0 0 0 0)) (h !! 9%nat)]) by (by vm_compute).
  split; [exact H|split; [by vm_compute|]]. refine (tools_policy _ _ _ _ _ record_session _ [] _ H).
Defined.

(** A recording that could not be pulled is deleted from the phone all the
    same, and its path here reported: the exit status of the pull is not
    looked at. *)
Theorem failed_pull_loses_recording :
  (refused record_session).1 !! 1%nat = Some (Done (Some (Ok (Text (bs "/home/u/files/adbshare-rec-20250309-070501.mp4")))))
  /\ (ran <$> drop 8 (history (refused record_session).2))
     = [[pull_args phone (bs "/sdcard/adbshare-rec-20250309-070501.mp4") (bs "/home/u/files/adbshare-rec-20250309-070501.mp4")];
        [adb_args phone [bs "shell"; bs "rm -f /sdcard/adbshare-rec-20250309-070501.mp4"]]]
  /\ recordings (refused record_session).2 = ∅.
Proof. split_and!; by vm_compute. Qed.

(** Calls that [adb] refused are answered with success. *)
Theorem refusals_reported_as_success :
  let s := refused (Plug phone :: alone 0 (Reboot phone []) ++ alone 1 (AddForward phone 8080 (bs "tcp:8080"))
    ++ alone 2 (RemoveForward phone 8080) ++ alone 3 (Bugreport phone)) in
  s.1 = [Done (Some (Ok (Flag true))); Done (Some (Ok (Flag true))); Done (Some (Ok (Flag true)));
         Done (Some (Ok (Text (bs "/home/u/files/adbshare-bugreport-20250309-070509.zip"))))].
Proof. by vm_compute. Qed.

(** A second recording of a device takes the place of the first, which is never pulled. *)
Theorem second_recording_hides_first :
  let s := refused (Plug phone :: alone 0 (StartRecord phone) ++ alone 1 (StartRecord phone) ++ alone 2 (StopRecord phone) ++ alone 3 (StopRecord phone)) in
  s.1 !! 3%nat = Some (Done (Some (Err (Failed_ (bs "no recording in progress")))))
  /\ forallb (fun args => negb (bool_decide (record_path (mkTime 2025 3 9 7 5 1) ∈ args))) (mjoin (ran <$> history s.2)) = true.
Proof. by vm_compute. Qed.
