(* ===== verification/Checked.v ===== *)
(** * Code that can panic

    Rust code that returns a [Result] and indexes, slices and adds on the way:
    each of these panics when it leaves the buffer or the word. [run E A] is
    the outcome of such code, and the operations below are the ones the archive
    and manifest readers use. *)

From stdpp Require Import base list.
From S2P Require Import Prelude.

(** The outcome of a call: a value, an error that is returned, or a panic. *)
Inductive run (E A : Type) : Type :=
| Ret (a : A)
| Bail (e : E)
| Panic.
Arguments Ret {E A} a.
Arguments Bail {E A} e.
Arguments Panic {E A}.

Global Instance run_ret (E : Type) : MRet (run E) := fun A a => Ret a.
Global Instance run_bind (E : Type) : MBind (run E) :=
  fun A B f r => match r with Ret a => f a | Bail e => Bail e | Panic => Panic end.

(** A call that does not panic, and whose value satisfies [Q]. *)
Definition safe {E A} (Q : A -> Prop) (r : run E A) : Prop :=
  match r with Ret a => Q a | Bail _ => True | Panic => False end.

Section Ops.
Context {E A : Type}.

(** [l[i]] *)
Definition index (l : list A) (i : Z) : run E A :=
  match zget l i with Some x => Ret x | None => Panic end.

(** [&l[a..b]] *)
Definition range (l : list A) (a b : Z) : run E (list A) :=
  if (0 <=? a) && (a <=? b) && (b <=? zlen l) then Ret (slice l a (b - a)) else Panic.

(** [&l[a..]] *)
Definition range_from (l : list A) (a : Z) : run E (list A) := range l a (zlen l).
End Ops.

Definition usize_max : Z := 2 ^ 64 - 1.

(** [a + b] at [usize]. *)
Definition uadd {E} (a b : Z) : run E Z := if a + b <=? usize_max then Ret (a + b) else Panic.

(** [a.checked_add(b)] at [usize]. *)
Definition checked_add (a b : Z) : option Z := if a + b <=? usize_max then Some (a + b) else None.

(** [o.ok_or_else(|| e)?] *)
Definition or_bail {E A} (o : option A) (e : E) : run E A :=
  match o with Some a => Ret a | None => Bail e end.

(** [u16::from_le_bytes([l[i], l[i + 1]])] and the [u32] version. *)
Definition u16_at {E} (l : bytes) (i : Z) : run E Z :=
  a ← index l i; b ← index l (i + 1); Ret (le_val [a; b]).
Definition u32_at {E} (l : bytes) (i : Z) : run E Z :=
  a ← index l i; b ← index l (i + 1); c ← index l (i + 2); d ← index l (i + 3);
  Ret (le_val [a; b; c; d]).

(** ** When they come back *)

Lemma bind_ret {E A B} (a : A) (f : A -> run E B) : (x ← Ret a; f x) = f a.
Proof. done. Qed.

Lemma run_bind_inv {E A B} (m : run E A) (f : A -> run E B) b :
  (x ← m; f x) = Ret b -> exists a, m = Ret a /\ f a = Ret b.
Proof. destruct m; try discriminate. intros H. by exists a. Qed.

Lemma safe_bind {E A B} (P : A -> Prop) (Q : B -> Prop) (m : run E A) (f : A -> run E B) :
  safe P m -> (forall a, P a -> safe Q (f a)) -> safe Q (x ← m; f x).
Proof. destruct m; simpl; auto. Qed.

Lemma safe_mono {E A} (P Q : A -> Prop) (m : run E A) :
  safe P m -> (forall a, P a -> Q a) -> safe Q m.
Proof. destruct m; simpl; auto. Qed.

Lemma safe_or_bail {E A} (Q : A -> Prop) (o : option A) (e : E) :
  (forall a, o = Some a -> Q a) -> safe Q (or_bail o e).
Proof. destruct o; simpl; auto. Qed.

Lemma safe_no_panic {E A} (Q : A -> Prop) (m : run E A) : safe Q m -> m <> Panic.
Proof. by destruct m. Qed.

Lemma zget_lt {A} (l : list A) i : 0 <= i < zlen l -> exists x, zget l i = Some x.
Proof.
  intros H. unfold zget. decide_if. unfold zlen in H.
  destruct (lookup_lt_is_Some_2 l (Z.to_nat i)) as [x Hx]; [lia|]. eauto.
Qed.

Lemma zget_Forall {A} (P : A -> Prop) l i x : Forall P l -> zget l i = Some x -> P x.
Proof. intros Hl. unfold zget. case_bool; [done|]. by apply Forall_lookup_1. Qed.

Lemma index_lt {E A} (l : list A) i : 0 <= i < zlen l -> exists x, zget l i = Some x /\ @index E A l i = Ret x.
Proof. intros H. destruct (zget_lt l i H) as [x Hx]. exists x. unfold index. by rewrite Hx. Qed.

Lemma range_ok {E A} (l : list A) a b :
  0 <= a <= b -> b <= zlen l -> @range E A l a b = Ret (slice l a (b - a)).
Proof. intros ??. unfold range. by replace ((0 <=? a) && (a <=? b) && (b <=? zlen l)) with true by lia. Qed.

Lemma range_from_ok {E A} (l : list A) a : 0 <= a <= zlen l -> @range_from E A l a = Ret (zdrop a l).
Proof.
  intros. unfold range_from. rewrite range_ok by lia. unfold slice. rewrite ztake_all; [done|len_lia].
Qed.

Lemma uadd_ok {E} a b : a + b <= usize_max -> @uadd E a b = Ret (a + b).
Proof. intros. unfold uadd. by decide_if. Qed.

Lemma slice_Forall {A} (P : A -> Prop) l i n : Forall P l -> Forall P (slice l i n).
Proof. intros H. unfold slice, ztake, zdrop. by apply Forall_take, Forall_drop. Qed.

(** A checked little-endian read is the value of the bytes there. *)
Lemma zget_app_r {A} (l k : list A) i : zlen l <= i -> zget (l ++ k) i = zget k (i - zlen l).
Proof.
  intros H. unfold zget, zlen in *.
  replace (i <? 0) with false by lia. replace (i - Z.of_nat (length l) <? 0) with false by lia.
  rewrite lookup_app_r by lia. f_equal. lia.
Qed.

Lemma drop_to {A} (l : list A) i : 0 <= i <= zlen l -> l = ztake i l ++ zdrop i l /\ zlen (ztake i l) = i.
Proof. intros H. split; [by rewrite ztake_zdrop|len_lia]. Qed.

Lemma u16_at_val {E} l i : 0 <= i -> i + 2 <= zlen l -> @u16_at E l i = Ret (le_val (slice l i 2)).
Proof.
  intros Hi Hl. destruct (drop_to l i ltac:(len_lia)) as [Hsplit Hlen].
  unfold u16_at, index. rewrite Hsplit, !zget_app_r, slice_skip by lia. rewrite Hlen.
  assert (2 <= zlen (zdrop i l)) as Hd by len_lia.
  destruct (zdrop i l) as [|a [|b k]]; [len_lia..|].
  rewrite Z.sub_diag. by replace (i + 1 - i) with 1 by lia.
Qed.

Lemma u32_at_val {E} l i : 0 <= i -> i + 4 <= zlen l -> @u32_at E l i = Ret (le_val (slice l i 4)).
Proof.
  intros Hi Hl. destruct (drop_to l i ltac:(len_lia)) as [Hsplit Hlen].
  unfold u32_at, index. rewrite Hsplit, !zget_app_r, slice_skip by lia. rewrite Hlen.
  assert (4 <= zlen (zdrop i l)) as Hd by len_lia.
  destruct (zdrop i l) as [|a [|b [|c [|d k]]]]; [len_lia..|].
  rewrite Z.sub_diag. by replace (i + 1 - i) with 1 by lia;
    replace (i + 2 - i) with 2 by lia; replace (i + 3 - i) with 3 by lia.
Qed.

Lemma le_val_slice l i n :
  Forall u8_ok l -> 0 <= n -> 0 <= le_val (slice l i n) < 2 ^ (8 * n).
Proof.
  intros Hl Hn. pose proof (le_val_bound _ (slice_Forall u8_ok l i n Hl)) as [? Hb].
  split; [done|]. eapply Z.lt_le_trans; [exact Hb|]. apply Z.pow_le_mono_r; len_lia.
Qed.

Lemma safe_u16_at {E} l i :
  Forall u8_ok l -> 0 <= i -> i + 2 <= zlen l -> @safe E _ u16_ok (u16_at l i).
Proof. intros. rewrite u16_at_val by done. by apply le_val_slice. Qed.

Lemma safe_u32_at {E} l i :
  Forall u8_ok l -> 0 <= i -> i + 4 <= zlen l -> @safe E _ u32_ok (u32_at l i).
Proof. intros. rewrite u32_at_val by done. by apply le_val_slice. Qed.

Lemma safe_range {E A} (l : list A) a b :
  0 <= a <= b -> b <= zlen l -> @safe E _ (fun s => s = slice l a (b - a)) (range l a b).
Proof. intros. by rewrite range_ok. Qed.

Lemma safe_range_from {E A} (l : list A) a :
  0 <= a <= zlen l -> @safe E _ (fun s => s = zdrop a l) (range_from l a).
Proof. intros. by rewrite range_from_ok. Qed.

Lemma zdrop_Forall {A} (P : A -> Prop) l i : Forall P l -> Forall P (zdrop i l).
Proof. apply Forall_drop. Qed.

Lemma safe_uadd {E} a b : a + b <= usize_max -> @safe E _ (fun s => s = a + b) (uadd a b).
Proof. intros. by rewrite uadd_ok. Qed.

#[export] Hint Resolve slice_Forall zdrop_Forall safe_u16_at safe_u32_at safe_range safe_uadd : adb.

(** One step of a sequence of checked operations, by the rules of the database. *)
Ltac safe_step := eapply safe_bind; [solve [eauto with adb]|].
