(* ===== verification/Apk.v ===== *)
(** * Reading an APK as a zip archive

    [adb-gui/src/state/apk.rs]: the bounds-checked cursor, the central
    directory, the extraction of one member, and the tests that tell an APK
    from another file. The inflater is the flate2 crate's, an argument. *)

From stdpp Require Import base list strings.
From S2P Require Import Prelude RustStd Text Checked.

(** ** Definitions *)

Inductive apk_error :=
| TooSmall | NoEocd | BadSignature (entry : Z) | PastEnd (pos : Z) | OffsetOverflow
| EndsInside (pos : Z) | LocalSignature | SizeOverflow | DataBeyondEnd
| Unsupported (method : Z) | Inflate | NoMember (name : bytes) | IoError
| PoolTooSmall | ElementTooSmall | AttributeSize (n : Z) | NotAxml.

Abbreviation res := (run apk_error).

Definition MANIFEST_NAME : bytes := bs "AndroidManifest.xml".

(** [Cursor]: a slice and a position, every read checked. *)
Module Cursor.
Record t := mk { data : bytes; pos : Z }.

Definition at_ (data : bytes) (pos : Z) : res t :=
  if pos >? zlen data then Bail (PastEnd pos) else Ret (mk data pos).

Definition take (n : Z) (c : t) : res (bytes * t) :=
  e ← or_bail (checked_add (pos c) n) OffsetOverflow;
  if e >? zlen (data c) then Bail (EndsInside (pos c))
  else out ← range (data c) (pos c) e; Ret (out, mk (data c) e).

Definition u16 (c : t) : res (Z * t) :=
  '(b, c) ← take 2 c; v ← u16_at b 0; Ret (v, c).

Definition u32 (c : t) : res (Z * t) :=
  '(b, c) ← take 4 c; v ← u32_at b 0; Ret (v, c).

Definition skip (n : Z) (c : t) : res t := '(_, c) ← take n c; Ret c.

Definition string (n : Z) (c : t) : res (bytes * t) :=
  '(b, c) ← take n c; Ret (from_utf8_lossy b, c).
End Cursor.

Record ZipEntry := mkZipEntry {
  name : bytes;
  method : Z;
  compressed_size : Z;
  local_offset : Z }.

(** The end-of-central-directory signature, searched backwards from
    [scan + steps] down to [scan]. *)
Definition EOCD_SIG : bytes := [0x50; 0x4b; 0x05; 0x06].
Fixpoint find_eocd (data : bytes) (scan : Z) (steps : nat) : res (option Z) :=
  let i := scan + Z.of_nat steps in
  d ← range_from data i;
  if has_prefix EOCD_SIG d then Ret (Some i)
  else match steps with
       | O => Ret None
       | S steps => find_eocd data scan steps
       end.

(** One round of the loop over the entries: the entry and where the next one
    is. *)
Definition read_entry (data : bytes) (index pos : Z) : res (ZipEntry * Z) :=
  cur ← Cursor.at_ data pos;
  '(sig, cur) ← Cursor.u32 cur;
  if negb (sig =? 0x02014b50) then Bail (BadSignature index)
  else
    cur ← Cursor.skip 6 cur;
    '(method, cur) ← Cursor.u16 cur;
    cur ← Cursor.skip 4 cur;
    '(_crc, cur) ← Cursor.u32 cur;
    '(compressed_size, cur) ← Cursor.u32 cur;
    '(_uncompressed_size, cur) ← Cursor.u32 cur;
    '(name_len, cur) ← Cursor.u16 cur;
    '(extra_len, cur) ← Cursor.u16 cur;
    '(comment_len, cur) ← Cursor.u16 cur;
    cur ← Cursor.skip 4 cur;
    '(_external_attributes, cur) ← Cursor.u32 cur;
    '(local_offset, cur) ← Cursor.u32 cur;
    '(name, cur) ← Cursor.string name_len cur;
    p ← uadd (Cursor.pos cur) extra_len;
    p ← uadd p comment_len;
    Ret (mkZipEntry name method compressed_size local_offset, p).

Fixpoint read_entries (data : bytes) (count : nat) (index pos : Z) : res (list ZipEntry) :=
  match count with
  | O => Ret []
  | S count =>
      '(e, pos) ← read_entry data index pos;
      es ← read_entries data count (index + 1) pos;
      Ret (e :: es)
  end.

Definition central_directory (data : bytes) : res (list ZipEntry) :=
  if zlen data <? 22 then Bail TooSmall
  else
    let scan := Z.max 0 (zlen data - (22 + 65536)) in
    eocd ← find_eocd data scan (Z.to_nat (zlen data - 22 - scan));
    eocd ← or_bail eocd NoEocd;
    d ← range_from data eocd;
    count ← u16_at d 10;
    cd_offset ← u32_at d 16;
    read_entries data (Z.to_nat count) 0 cd_offset.

Definition LOCAL_SIG : bytes := [0x50; 0x4b; 0x03; 0x04].

(** [extract]; [inflate] is [DeflateDecoder::read_to_end]. *)
Definition extract (inflate : bytes -> option bytes) (entry : ZipEntry) (data : bytes) : res bytes :=
  cur ← Cursor.at_ data (local_offset entry);
  '(signature, cur) ← Cursor.take 4 cur;
  if negb (bool_decide (signature = LOCAL_SIG)) then Bail LocalSignature
  else
    cur ← Cursor.skip 22 cur;
    '(name_len, cur) ← Cursor.u16 cur;
    '(extra_len, cur) ← Cursor.u16 cur;
    s ← uadd (Cursor.pos cur) name_len;
    data_start ← uadd s extra_len;
    data_end ← or_bail (checked_add data_start (compressed_size entry)) SizeOverflow;
    if data_end >? zlen data then Bail DataBeyondEnd
    else if method entry =? 0 then range data data_start data_end
    else if method entry =? 8 then
      b ← range data data_start data_end;
      or_bail (inflate b) Inflate
    else Bail (Unsupported (method entry)).

(** The name of the first entry, from its local header. *)
Definition local_header_name (head : bytes) : res (option bytes) :=
  if zlen head <? 30 then Ret None
  else
    name_len ← u16_at head 26;
    match checked_add 30 name_len with
    | None => Ret None
    | Some e =>
        if e >? zlen head then Ret None
        else b ← range head 30 e; Ret (Some (from_utf8_lossy b))
    end.

(** [e.eq_ignore_ascii_case("apk")] *)
Definition ascii_lower (b : Z) : Z := if in_range 65 90 b then b + 32 else b.
Definition eq_ignore_ascii_case (a b : bytes) : bool :=
  bool_decide (ascii_lower <$> a = ascii_lower <$> b).

(** ** Files

    What a path opens to, and how much of a request the [k]-th [read] call
    gives at most. *)
Section Files.
Context (open : bytes -> option bytes) (grant : nat -> Z).

(** The loop of [read_head]: [rest] is the file from its position on, each
    [read] gives what is left, the room asked for or what is granted,
    whichever is least. *)
Fixpoint read_loop (fuel : nat) (k : nat) (n : Z) (buf rest : bytes) : option bytes :=
  match fuel with
  | O => None
  | S fuel =>
      if zlen buf <? n then
        let got := ztake (Z.min (n - zlen buf) (grant k)) rest in
        if zlen got =? 0 then Some buf
        else read_loop fuel (S k) n (buf ++ got) (zdrop (zlen got) rest)
      else Some buf
  end.

Definition read_head (path : bytes) (n : Z) : option bytes :=
  content ← open path; read_loop (S (Z.to_nat n)) 0 n [] content.

(** [read_exact] of what the file holds from [start] on. *)
Definition read_tail (path : bytes) (n : Z) : option bytes :=
  content ← open path;
  let start := Z.max 0 (zlen content - n) in
  Some (zdrop start content).

Definition is_apk_magic (path : bytes) : res bool :=
  match read_head path 4096 with
  | None => Ret false
  | Some head =>
      if negb (has_prefix LOCAL_SIG head) then Ret false
      else
        n ← local_header_name head;
        if bool_decide (n = Some MANIFEST_NAME) then Ret true
        else match read_tail path (2 ^ 20) with
             | None => Ret false
             | Some tail => Ret (contains MANIFEST_NAME tail)
             end
  end.

Definition is_apk (path : bytes) : res bool :=
  let extension := match file_name path with Some f => (stem_ext f).2 | None => None end in
  if match extension with Some e => eq_ignore_ascii_case e (bs "apk") | None => false end
  then Ret true
  else is_apk_magic path.
End Files.

(** ** The reader never panics *)

Module CursorFacts.
Import Cursor.

(** The invariant of a cursor: inside a buffer of bytes that fits in memory. *)
Definition good (d : bytes) (c : t) : Prop :=
  data c = d /\ Forall u8_ok d /\ zlen d < 2 ^ 63 /\ 0 <= pos c <= zlen d.

Lemma safe_at d p :
  Forall u8_ok d -> zlen d < 2 ^ 63 -> 0 <= p -> safe (good d) (at_ d p).
Proof. intros. unfold at_. case_bool; bool_to_prop; [done|]. repeat split; simpl; auto. Qed.

Lemma safe_take d n c :
  good d c -> 0 <= n < 2 ^ 63 ->
  safe (fun '(b, c') => good d c' /\ Forall u8_ok b /\ zlen b = n /\ b = slice d (pos c) n) (take n c).
Proof.
  intros (<- & Hb & Hlen & Hp) Hn. unfold take, checked_add, usize_max. decide_if. simpl.
  case_bool; bool_to_prop; [done|]. rewrite range_ok by lia. simpl.
  replace (pos c + n - pos c) with n by lia.
  repeat split; simpl; auto with adb; try lia. len_lia.
Qed.

Lemma safe_u16 d c : good d c -> safe (fun '(v, c') => good d c' /\ u16_ok v) (u16 c).
Proof.
  intros Hc. eapply safe_bind; [by apply (safe_take d)|]. intros [b c'] (? & ? & ? & _).
  eapply safe_bind; [apply safe_u16_at; auto; lia|]. by intros.
Qed.

Lemma safe_u32 d c : good d c -> safe (fun '(v, c') => good d c' /\ u32_ok v) (u32 c).
Proof.
  intros Hc. eapply safe_bind; [by apply (safe_take d)|]. intros [b c'] (? & ? & ? & _).
  eapply safe_bind; [apply safe_u32_at; auto; lia|]. by intros.
Qed.

Lemma safe_skip d n c : good d c -> 0 <= n < 2 ^ 63 -> safe (good d) (skip n c).
Proof. intros Hc Hn. eapply safe_bind; [by apply (safe_take d)|]. by intros [b c'] [? _]. Qed.

Lemma safe_string d n c :
  good d c -> 0 <= n < 2 ^ 63 -> safe (fun '(_, c') => good d c') (string n c).
Proof. intros Hc Hn. eapply safe_bind; [by apply (safe_take d)|]. by intros [b c'] [? _]. Qed.
End CursorFacts.
Import CursorFacts.

(** Run the next checked step of a sequence, naming what it leaves. *)
Ltac cursor_step :=
  let go L := eapply safe_bind; [eapply L; eauto; lia|] in
  match goal with
  | |- safe _ (mbind _ (Cursor.u16 _)) => go safe_u16; intros [? ?] [? ?]
  | |- safe _ (mbind _ (Cursor.u32 _)) => go safe_u32; intros [? ?] [? ?]
  | |- safe _ (mbind _ (Cursor.skip _ _)) => go safe_skip; intros ? ?
  end.

Lemma safe_read_entry data index pos :
  Forall u8_ok data -> zlen data < 2 ^ 63 -> 0 <= pos ->
  safe (fun '(e, p) => 0 <= p /\ u32_ok (local_offset e) /\ u32_ok (compressed_size e)) (read_entry data index pos).
Proof.
  intros Hb Hlen Hp. unfold read_entry. eapply safe_bind; [by apply safe_at|]. intros c Hc.
  cursor_step. case_bool; [done|]. do 12 cursor_step.
  autounfold with adb in *.
  eapply safe_bind; [eapply safe_string; [eassumption|lia]|]. intros [nm c'] (? & _ & _ & Hc').
  unfold usize_max in *.
  eapply safe_bind; [apply safe_uadd; unfold usize_max; lia|]. intros ? ->.
  eapply safe_bind; [apply safe_uadd; unfold usize_max; lia|]. intros ? ->. simpl. lia.
Qed.

Definition entry_ok (e : ZipEntry) : Prop := u32_ok (local_offset e) /\ u32_ok (compressed_size e).

Lemma safe_read_entries data count index pos :
  Forall u8_ok data -> zlen data < 2 ^ 63 -> 0 <= pos ->
  safe (fun es => length es = count /\ Forall entry_ok es) (read_entries data count index pos).
Proof.
  intros Hb Hlen. revert index pos. induction count as [|count IH]; intros index pos Hp; [by repeat constructor|].
  simpl. eapply safe_bind; [by apply safe_read_entry|]. intros [e p] (? & ?).
  eapply safe_bind; [by apply IH|]. intros es [<- ?]. split; [done|]. by constructor.
Qed.

(** The scan stops at the last signature at or below its start. *)
Lemma safe_find_eocd data scan steps :
  0 <= scan -> scan + Z.of_nat steps <= zlen data ->
  safe (fun o => forall i, o = Some i ->
          scan <= i <= scan + Z.of_nat steps /\ has_prefix EOCD_SIG (zdrop i data) = true)
       (find_eocd data scan steps).
Proof.
  intros Hs. induction steps as [|steps IH]; intros Hle; cbn [find_eocd];
    (eapply safe_bind; [apply safe_range_from; lia|]); intros d ->.
  all: case_bool; simpl; try (intros i [= <-]; split; [lia|done]).
  - done.
  - eapply safe_mono; [apply IH; lia|]. intros o Ho i Hi. apply Ho in Hi as [? ?]. split; [lia|done].
Qed.

Lemma safe_central_directory data :
  Forall u8_ok data -> zlen data < 2 ^ 63 -> safe (Forall entry_ok) (central_directory data).
Proof.
  intros Hb Hlen. unfold central_directory. case_bool; bool_to_prop; [done|].
  eapply safe_bind; [apply safe_find_eocd; lia|]. intros o Ho.
  eapply safe_bind; [apply safe_or_bail; exact Ho|]. intros i [Hi _].
  eapply safe_bind; [apply safe_range_from; lia|]. intros d ->.
  eapply safe_bind; [apply safe_u16_at; auto with adb; len_lia|]. intros n Hn.
  eapply safe_bind; [apply safe_u32_at; auto with adb; len_lia|]. intros off [? _].
  eapply safe_mono; [by apply safe_read_entries|]. by intros es [_ ?].
Qed.

Lemma safe_extract inflate e data :
  Forall u8_ok data -> zlen data < 2 ^ 63 -> u64_ok (local_offset e) -> u64_ok (compressed_size e) ->
  safe (fun _ => True) (extract inflate e data).
Proof.
  intros Hb Hlen [? _] Hsize. unfold extract. eapply safe_bind; [by apply safe_at|]. intros c Hc.
  eapply safe_bind; [by apply (safe_take data)|]. intros [sg c1] [Hc1 _].
  case_bool; [done|]. do 3 cursor_step.
  repeat match goal with H : CursorFacts.good _ ?c |- _ => destruct H as (? & _ & _ & ?) end.
  autounfold with adb in *.
  eapply safe_bind; [apply safe_uadd; unfold usize_max; lia|]. intros ? ->.
  eapply safe_bind; [apply safe_uadd; unfold usize_max; lia|]. intros st ->.
  eapply safe_bind; [apply safe_or_bail; unfold checked_add; intros e' He'; exact He'|]. intros en Hen. simpl in Hen.
  case_bool; bool_to_prop; [done|]. repeat case_bool; [..|done].
  all: unfold checked_add in *; destruct (_ <=? usize_max); simplify_eq.
  - eapply safe_mono; [apply safe_range; lia|]. done.
  - eapply safe_bind; [apply safe_range; lia|]. intros b _. by apply safe_or_bail.
Qed.

Lemma local_header_name_ret head :
  Forall u8_ok head -> exists o, local_header_name head = Ret o.
Proof.
  intros Hb. unfold local_header_name. case_bool; bool_to_prop; [by eexists|].
  rewrite u16_at_val by lia. cbn [mbind run_bind].
  pose proof (le_val_slice head 26 2 Hb ltac:(lia)) as [Hn _]. unfold checked_add.
  case_bool; [|by eexists]. case_bool; bool_to_prop; [by eexists|]. rewrite range_ok by lia. by eexists.
Qed.

(** ** Archives as they are written

    The layout of a zip file (APPNOTE 4.3): the members with their local
    headers, anything (the APK signing block), the central directory, its end
    record and a comment. Fields the reader skips are arbitrary bytes. *)

Record member := mkMember {
  m_name : bytes; m_method : Z; m_body : bytes;
  m_local : bytes; m_extra : bytes;
  c_version : bytes; c_time : bytes; c_crc : bytes; c_size : bytes;
  c_disk : bytes; c_attrs : bytes; c_extra : bytes; c_comment : bytes }.

Definition local (m : member) : bytes :=
  LOCAL_SIG ++ m_local m ++ le_bytes 2 (zlen (m_name m)) ++ le_bytes 2 (zlen (m_extra m))
  ++ m_name m ++ m_extra m ++ m_body m.

Definition central_head (m : member) (off : Z) : bytes :=
  [0x50; 0x4b; 0x01; 0x02] ++ c_version m ++ le_bytes 2 (m_method m) ++ c_time m ++ c_crc m
  ++ le_bytes 4 (zlen (m_body m)) ++ c_size m ++ le_bytes 2 (zlen (m_name m))
  ++ le_bytes 2 (zlen (c_extra m)) ++ le_bytes 2 (zlen (c_comment m)) ++ c_disk m ++ c_attrs m
  ++ le_bytes 4 off.
Definition central (m : member) (off : Z) : bytes :=
  central_head m off ++ m_name m ++ c_extra m ++ c_comment m.

Definition locals (ms : list member) : bytes := concat (local <$> ms).
Fixpoint centrals (off : Z) (ms : list member) : bytes :=
  match ms with
  | [] => []
  | m :: ms => central m off ++ centrals (off + zlen (local m)) ms
  end.

Definition end_record (ms : list member) (dir_len dir_off : Z) (comment : bytes) : bytes :=
  EOCD_SIG ++ [0; 0; 0; 0] ++ le_bytes 2 (Z.of_nat (length ms)) ++ le_bytes 2 (Z.of_nat (length ms))
  ++ le_bytes 4 dir_len ++ le_bytes 4 dir_off ++ le_bytes 2 (zlen comment).

Definition zip (ms : list member) (gap comment : bytes) : bytes :=
  (locals ms ++ gap) ++ centrals 0 ms
  ++ end_record ms (zlen (centrals 0 ms)) (zlen (locals ms ++ gap)) comment ++ comment.

Definition member_ok (m : member) : Prop :=
  utf8_valid (m_name m) = true /\ u16_ok (zlen (m_name m)) /\ u16_ok (m_method m)
  /\ zlen (m_local m) = 22 /\ u16_ok (zlen (m_extra m)) /\ zlen (c_version m) = 6
  /\ zlen (c_time m) = 4 /\ zlen (c_crc m) = 4 /\ zlen (c_size m) = 4 /\ zlen (c_disk m) = 4
  /\ zlen (c_attrs m) = 4 /\ u16_ok (zlen (c_extra m)) /\ u16_ok (zlen (c_comment m)).

(** Sizes that fit the format, and no second end record in the comment. *)
Definition zip_ok (ms : list member) (gap comment : bytes) : Prop :=
  Forall member_ok ms /\ u16_ok (Z.of_nat (length ms)) /\ u16_ok (zlen comment)
  /\ u32_ok (zlen (zip ms gap comment))
  /\ contains EOCD_SIG
       (zdrop 1 (end_record ms (zlen (centrals 0 ms)) (zlen (locals ms ++ gap)) comment ++ comment)) = false.

(** What a member unpacks to. *)
Definition unpack (inflate : bytes -> option bytes) (m : member) : res bytes :=
  if m_method m =? 0 then Ret (m_body m)
  else if m_method m =? 8 then or_bail (inflate (m_body m)) Inflate
  else Bail (Unsupported (m_method m)).

Definition entry_of (m : member) (off : Z) : ZipEntry :=
  mkZipEntry (m_name m) (m_method m) (zlen (m_body m)) off.
Fixpoint entries_of (off : Z) (ms : list member) : list ZipEntry :=
  match ms with
  | [] => []
  | m :: ms => entry_of m off :: entries_of (off + zlen (local m)) ms
  end.

(** ** Reading where the data is *)

Lemma take_val d p n :
  0 <= p -> 0 <= n -> p + n <= zlen d -> zlen d < 2 ^ 63 ->
  Cursor.take n (Cursor.mk d p) = Ret (slice d p n, Cursor.mk d (p + n)).
Proof.
  intros. unfold Cursor.take, checked_add, usize_max. simpl. decide_if. simpl. decide_if.
  rewrite range_ok by lia. simpl. by replace (p + n - p) with n by lia.
Qed.

Lemma cursor_u16_val d p :
  0 <= p -> p + 2 <= zlen d -> zlen d < 2 ^ 63 ->
  Cursor.u16 (Cursor.mk d p) = Ret (le_val (slice d p 2), Cursor.mk d (p + 2)).
Proof.
  intros. unfold Cursor.u16. rewrite take_val by lia. simpl.
  rewrite u16_at_val by len_lia. simpl. by rewrite slice_all by len_lia.
Qed.

Lemma cursor_u32_val d p :
  0 <= p -> p + 4 <= zlen d -> zlen d < 2 ^ 63 ->
  Cursor.u32 (Cursor.mk d p) = Ret (le_val (slice d p 4), Cursor.mk d (p + 4)).
Proof.
  intros. unfold Cursor.u32. rewrite take_val by lia. simpl.
  rewrite u32_at_val by len_lia. simpl. by rewrite slice_all by len_lia.
Qed.

Lemma cursor_skip_val d p n :
  0 <= p -> 0 <= n -> p + n <= zlen d -> zlen d < 2 ^ 63 ->
  Cursor.skip n (Cursor.mk d p) = Ret (Cursor.mk d (p + n)).
Proof. intros. unfold Cursor.skip. by rewrite take_val by lia. Qed.

Lemma cursor_at_val d p : p <= zlen d -> Cursor.at_ d p = Ret (Cursor.mk d p).
Proof. intros. unfold Cursor.at_. by decide_if. Qed.

(** Run the cursor operations that are known to fit. *)
Ltac cursor_vals :=
  cbn [mbind run_bind];
  repeat (first [rewrite cursor_u16_val by lia | rewrite cursor_u32_val by lia | rewrite cursor_skip_val by lia];
          cbn [mbind run_bind]).

(** Add up the constants behind [p]. *)
Ltac sum_offsets p :=
  rewrite <- ?Z.add_assoc;
  repeat match goal with
  | |- context [p + (?a + ?b)] => 
      let k := eval vm_compute in (a + b) in match k with Zpos _ => change (p + (a + b)) with (p + k) end
  end.

Lemma slice_in_rest {A} (d : list A) p k n : 0 <= p -> 0 <= k -> slice d (p + k) n = slice (zdrop p d) k n.
Proof. intros. unfold slice. by rewrite zdrop_zdrop by lia. Qed.

Lemma le_val_u16 z : u16_ok z -> le_val (le_bytes 2 z) = z.
Proof. intros H. rewrite le_val_le_bytes. by apply Z.mod_small. Qed.

Lemma zlen_central m off :
  member_ok m -> zlen (central m off) = 46 + zlen (m_name m) + zlen (c_extra m) + zlen (c_comment m).
Proof. intros (?&?&?&?&?&?&?&?&?&?&?&?&?). unfold central, central_head. len_lia. Qed.

Lemma zdrop_len {A} (d : list A) p x y :
  0 <= p <= zlen d -> zdrop p d = x ++ y -> zlen d = p + zlen x + zlen y.
Proof. intros Hp H. apply (f_equal zlen) in H. len_lia. Qed.

Lemma slice_at {A} (l k : list A) i n : i = 0 -> zlen l = n -> slice (l ++ k) i n = l.
Proof. intros ->. apply slice_here. Qed.

(** Find the field at an offset of a record. *)
Ltac field_at :=
  rewrite <- ?(assoc_L (++));
  repeat first [rewrite slice_at by len_lia; reflexivity | rewrite slice_skip by len_lia].

Lemma central_fields m off rest (d := central m off ++ rest) :
  member_ok m ->
  slice d 0 4 = [0x50; 0x4b; 0x01; 0x02] /\ slice d 10 2 = le_bytes 2 (m_method m)
  /\ slice d 20 4 = le_bytes 4 (zlen (m_body m)) /\ slice d 28 2 = le_bytes 2 (zlen (m_name m))
  /\ slice d 30 2 = le_bytes 2 (zlen (c_extra m)) /\ slice d 32 2 = le_bytes 2 (zlen (c_comment m))
  /\ slice d 42 4 = le_bytes 4 off /\ slice d 46 (zlen (m_name m)) = m_name m.
Proof.
  intros (?&?&?&?&?&?&?&?&?&?&?&?&?). subst d. unfold central, central_head. split_and!; field_at.
Qed.

(** A directory entry is read back, and the position moves behind it. *)
Lemma read_entry_val data index p m off rest :
  0 <= p <= zlen data -> zlen data < 2 ^ 63 -> member_ok m -> u32_ok off -> u32_ok (zlen (m_body m)) ->
  zdrop p data = central m off ++ rest ->
  read_entry data index p = Ret (entry_of m off, p + zlen (central m off)).
Proof.
  intros Hp Hlen Hm Hoff Hbody Hd. pose proof (zdrop_len _ _ _ _ Hp Hd) as HL.
  rewrite zlen_central in HL |- * by done.
  destruct (central_fields m off rest Hm) as (F0&F10&F20&F28&F30&F32&F42&F46). rewrite <- Hd in *.
  rewrite <- slice_in_rest in F0, F10, F20, F28, F30, F32, F42, F46 by lia. rewrite Z.add_0_r in F0.
  destruct Hm as (Hv&Hn&Hmeth&_&_&_&_&_&_&_&_&He&Hc).
  pose proof (zlen_nonneg rest). unfold u16_ok in Hn, He, Hc.
  unfold read_entry. rewrite cursor_at_val by lia. cursor_vals. rewrite F0.
  change (le_val [80; 75; 1; 2] =? 33639248) with true. cbn [negb].
  cursor_vals. sum_offsets p. rewrite F28, le_val_u16 by done.
  unfold Cursor.string. rewrite take_val by lia. cbn [mbind run_bind Cursor.pos].
  rewrite F10, F20, F30, F32, F42, F46, !le_val_u16, !le_val_u32, from_utf8_lossy_valid by done.
  rewrite !uadd_ok by (unfold usize_max; lia). cbn [mbind run_bind].
  rewrite uadd_ok by (unfold usize_max; lia). cbn [mbind run_bind]. unfold entry_of.
  match goal with |- Ret (_, ?a) = Ret (_, ?b) => by replace a with b by lia end.
Qed.

Lemma read_entries_val data ms index p off rest :
  0 <= p <= zlen data -> zlen data < 2 ^ 32 -> Forall member_ok ms -> 0 <= off ->
  off + zlen (locals ms) < 2 ^ 32 -> zdrop p data = centrals off ms ++ rest ->
  read_entries data (length ms) index p = Ret (entries_of off ms).
Proof.
  revert index p off. induction ms as [|m ms IH]; intros index p off Hp Hlen Hms Hoff Hend Hd; [done|].
  apply Forall_cons in Hms as [Hm Hms]. cbn [length read_entries centrals entries_of] in *.
  change (locals (m :: ms)) with (local m ++ locals ms) in Hend.
  rewrite <- (assoc_L (++)) in Hd. rewrite zlen_app in Hend.
  pose proof (zlen_nonneg (locals ms)). pose proof (zlen_nonneg (local m)) as Hl0.
  pose proof (zlen_nonneg (m_body m)).
  assert (zlen (m_body m) <= zlen (local m)) as Hbl by (unfold local; len_lia).
  rewrite (read_entry_val data index p m off _ Hp ltac:(lia) Hm ltac:(unfold u32_ok; lia) ltac:(unfold u32_ok; lia) Hd).
  cbn [mbind run_bind]. pose proof (zdrop_len _ _ _ _ Hp Hd). pose proof (zlen_nonneg (central m off)).
  rewrite (IH _ _ (off + zlen (local m))); [done|..]; try lia; [|done|].
  - pose proof (zlen_nonneg (centrals (off + zlen (local m)) ms ++ rest)). lia.
  - rewrite <- zdrop_zdrop, Hd by lia. by apply zdrop_app_exact.
Qed.

(** ** Finding the end record *)

Lemma contains_false p l i : contains p l = false -> has_prefix p (drop i l) = false.
Proof.
  revert i. induction l as [|b l IH]; intros i H; cbn [contains] in H; bool_to_prop.
  - by rewrite drop_nil.
  - destruct i; [done|]. by apply IH.
Qed.

Lemma find_eocd_val data scan steps e :
  0 <= scan <= e -> e <= scan + Z.of_nat steps -> scan + Z.of_nat steps <= zlen data ->
  has_prefix EOCD_SIG (zdrop e data) = true ->
  (forall i, e < i -> has_prefix EOCD_SIG (zdrop i data) = false) ->
  find_eocd data scan steps = Ret (Some e).
Proof.
  intros Hs He Hl Hsig Hno. induction steps as [|steps IH]; cbn [find_eocd];
    rewrite range_from_ok by lia; cbn [mbind run_bind].
  - replace (scan + Z.of_nat 0) with e by lia. by rewrite Hsig.
  - destruct (decide (e = scan + Z.of_nat (S steps))) as [<-|]; [by rewrite Hsig|].
    rewrite Hno by lia. apply IH; lia.
Qed.

Lemma end_record_fields ms dl dof comment rest (d := end_record ms dl dof comment ++ rest) :
  slice d 10 2 = le_bytes 2 (Z.of_nat (length ms)) /\ slice d 16 4 = le_bytes 4 dof
  /\ has_prefix EOCD_SIG d = true /\ zlen (end_record ms dl dof comment) = 22.
Proof.
  subst d. unfold end_record. split_and!; [unfold EOCD_SIG; field_at..| |].
  - by rewrite <- app_assoc, has_prefix_app.
  - unfold EOCD_SIG. len_lia.
Qed.

Lemma zdrop_1_plus {A} (l : list A) i : 0 < i -> zdrop i l = drop (Z.to_nat (i - 1)) (zdrop 1 l).
Proof. intros. unfold zdrop. rewrite drop_drop. f_equal. lia. Qed.

Lemma zip_parts ms gap comment :
  zip ms gap comment
  = (locals ms ++ gap) ++ centrals 0 ms
    ++ end_record ms (zlen (centrals 0 ms)) (zlen (locals ms ++ gap)) comment ++ comment.
Proof. done. Qed.

Lemma central_directory_zip ms gap comment :
  zip_ok ms gap comment -> central_directory (zip ms gap comment) = Ret (entries_of 0 ms).
Proof.
  intros (Hms & Hcount & Hcom & Hlen & Hno).
  set (dof := zlen (locals ms ++ gap)) in *. set (dl := zlen (centrals 0 ms)) in *.
  destruct (end_record_fields ms dl dof comment comment) as (F10 & F16 & Hsig & HE).
  assert (zlen (zip ms gap comment) = dof + dl + 22 + zlen comment) as HL.
  { rewrite zip_parts. fold dof dl. rewrite !zlen_app. fold dof dl. rewrite HE. subst dof. rewrite zlen_app. lia. }
  assert (zdrop (dof + dl) (zip ms gap comment) = end_record ms dl dof comment ++ comment) as Hd.
  { rewrite zip_parts. fold dof dl. rewrite (assoc_L (++)). apply zdrop_app_exact. rewrite zlen_app. done. }
  assert (zdrop dof (zip ms gap comment) = centrals 0 ms ++ end_record ms dl dof comment ++ comment) as Hc.
  { rewrite zip_parts. fold dof dl. by apply zdrop_app_exact. }
  assert (0 <= zlen (locals ms) <= dof) as Hloc by (subst dof; len_lia).
  assert (0 <= dl) by apply zlen_nonneg. unfold u32_ok, u16_ok in *.
  set (data := zip ms gap comment) in *. clearbody data.
  unfold central_directory. decide_if.
  rewrite (find_eocd_val _ _ _ (dof + dl)); [..|by rewrite Hd|]; try lia.
  - cbn [mbind run_bind or_bail]. rewrite range_from_ok by lia. cbn [mbind run_bind].
    rewrite Hd, u16_at_val, F10, le_val_u16 by (unfold u16_ok; len_lia). cbn [mbind run_bind].
    rewrite u32_at_val, F16, le_val_u32 by (unfold u32_ok; len_lia). cbn [mbind run_bind].
    rewrite Nat2Z.id. by apply (read_entries_val data ms 0 dof 0 (end_record ms dl dof comment ++ comment)); try lia.
  - intros i Hi. replace i with (dof + dl + (i - (dof + dl))) by lia.
    rewrite <- zdrop_zdrop, Hd, zdrop_1_plus by lia. by apply contains_false.
Qed.

(** ** Extracting a member *)

Lemma local_fields m rest (d := local m ++ rest) (n := zlen (m_name m) + zlen (m_extra m)) :
  member_ok m ->
  slice d 0 4 = LOCAL_SIG /\ slice d 26 2 = le_bytes 2 (zlen (m_name m))
  /\ slice d 28 2 = le_bytes 2 (zlen (m_extra m))
  /\ slice d (30 + n) (zlen (m_body m)) = m_body m /\ zlen (local m) = 30 + n + zlen (m_body m).
Proof.
  intros (?&?&?&?&?&?&?&?&?&?&?&?&?). subst d n. unfold local.
  split_and!; unfold LOCAL_SIG; [field_at..|len_lia].
Qed.

Lemma extract_local inflate m off data rest :
  0 <= off <= zlen data -> zlen data < 2 ^ 32 -> member_ok m -> zdrop off data = local m ++ rest ->
  extract inflate (entry_of m off) data = unpack inflate m.
Proof.
  intros Hoff Hlen Hm Hd. pose proof (zdrop_len _ _ _ _ Hoff Hd) as HL.
  destruct (local_fields m rest Hm) as (F0 & F26 & F28 & Fb & HLm). rewrite HLm in HL. rewrite <- Hd in *.
  rewrite <- slice_in_rest in F0, F26, F28, Fb by (try lia; len_lia). rewrite Z.add_0_r in F0.
  destruct Hm as (_&Hn&_&_&He&_). unfold u16_ok in Hn, He.
  pose proof (zlen_nonneg rest). pose proof (zlen_nonneg (m_body m)).
  unfold extract, entry_of. cbn [local_offset compressed_size method].
  rewrite cursor_at_val by lia. cbn [mbind run_bind]. rewrite take_val by lia. cbn [mbind run_bind].
  rewrite F0, bool_decide_true by done. cbn [negb]. cursor_vals. sum_offsets off. cbn [Cursor.pos].
  rewrite F26, F28, !le_val_u16 by done. rewrite uadd_ok by (unfold usize_max; lia). cbn [mbind run_bind].
  rewrite uadd_ok by (unfold usize_max; lia). cbn [mbind run_bind].
  unfold checked_add, usize_max. decide_if. cbn [or_bail mbind run_bind]. decide_if.
  rewrite !range_ok by lia. cbn [mbind run_bind].
  assert (forall a b, a = off + (30 + (zlen (m_name m) + zlen (m_extra m))) -> b = zlen (m_body m) ->
          slice data a b = m_body m) as Hb by (intros ?? -> ->; exact Fb).
  rewrite Hb by lia. reflexivity.
Qed.

Lemma extract_entries inflate ms off data rest :
  0 <= off <= zlen data -> zlen data < 2 ^ 32 -> Forall member_ok ms -> zdrop off data = locals ms ++ rest ->
  Forall2 (fun e m => name e = m_name m /\ extract inflate e data = unpack inflate m) (entries_of off ms) ms.
Proof.
  revert off. induction ms as [|m ms IH]; intros off Hoff Hlen Hms Hd; [constructor|].
  apply Forall_cons in Hms as [Hm Hms]. cbn [entries_of].
  change (locals (m :: ms)) with (local m ++ locals ms) in Hd. rewrite <- (assoc_L (++)) in Hd.
  pose proof (zdrop_len _ _ _ _ Hoff Hd). pose proof (zlen_nonneg (local m)).
  pose proof (zlen_nonneg (locals ms ++ rest)).
  constructor; [split; [done|by eapply extract_local]|].
  apply IH; [lia|done..|]. rewrite <- zdrop_zdrop, Hd by lia. by apply zdrop_app_exact.
Qed.

Lemma zip_entries inflate ms gap comment :
  zip_ok ms gap comment ->
  exists es, central_directory (zip ms gap comment) = Ret es
    /\ Forall2 (fun e m => name e = m_name m /\ extract inflate e (zip ms gap comment) = unpack inflate m) es ms.
Proof.
  intros Hok. exists (entries_of 0 ms). split; [by apply central_directory_zip|].
  destruct Hok as (Hms & _ & _ & [_ Hlen] & _).
  pose proof (zlen_nonneg (zip ms gap comment)).
  apply (extract_entries _ _ 0 _ (gap ++ centrals 0 ms
    ++ end_record ms (zlen (centrals 0 ms)) (zlen (locals ms ++ gap)) comment ++ comment)); [lia|done..|].
  by rewrite (assoc_L (++)).
Qed.

(** ** Claims on the reader *)

(** a zip archive is read back as it was written: the directory lists its
    members in order under their names, and extracting each gives its stored
    bytes, what the inflater makes of them, or the error for its method,
    whatever the bytes between members and directory, the fields that are
    skipped and the comment. *)
Theorem zip_reads inflate ms gap comment :
  zip_ok ms gap comment ->
  exists es, central_directory (zip ms gap comment) = Ret es
    /\ Forall2 (fun e m => name e = m_name m /\ extract inflate e (zip ms gap comment) = unpack inflate m) es ms.
Proof. apply zip_entries. Qed.

(** On any bytes that fit in memory the zip reader answers with a value or
    an error and never panics: listing the directory, extracting any entry,
    whatever offset and size it claims, and reading the name in a local header. *)
Theorem zip_never_panics data :
  Forall u8_ok data -> zlen data < 2 ^ 63 ->
  central_directory data <> Panic /\ local_header_name data <> Panic
  /\ forall inflate e, u64_ok (local_offset e) -> u64_ok (compressed_size e) -> extract inflate e data <> Panic.
Proof.
  intros Hb Hlen. split_and!.
  - eapply safe_no_panic. by apply safe_central_directory.
  - by destruct (local_header_name_ret data Hb) as [o ->].
  - intros inflate e Ho Hs. eapply safe_no_panic. by apply safe_extract.
Qed.

(** ** Telling an APK from another file *)

Lemma read_loop_val grant fuel k n buf rest :
  (forall i, 1 <= grant i) -> zlen buf <= n -> n - zlen buf < Z.of_nat fuel ->
  read_loop grant fuel k n buf rest = Some (buf ++ ztake (n - zlen buf) rest).
Proof.
  intros Hg. revert k buf rest. induction fuel as [|fuel IH]; intros k buf rest Hn Hf; [lia|].
  cbn [read_loop]. case_bool; bool_to_prop.
  - specialize (Hg k). set (a := Z.min (n - zlen buf) (grant k)).
    assert (1 <= a <= n - zlen buf) as Ha by lia. clearbody a.
    case_bool; bool_to_prop.
    + assert (zlen rest = 0) as ->%zlen_0_nil by len_lia. unfold ztake. by rewrite take_nil, app_nil_r.
    + assert (0 < zlen (ztake a rest) <= a) as Hl by len_lia.
      rewrite IH by (autorewrite with adb_len in *; lia). rewrite <- (assoc_L (++)). do 2 f_equal.
      rewrite zlen_app. set (g := zlen (ztake a rest)) in *.
      assert (ztake a rest = ztake g rest) as ->.
      { subst g. unfold ztake, zlen. rewrite length_take.
        destruct (decide (Z.to_nat a <= length rest)%nat); [f_equal; lia|].
        rewrite !take_ge by lia. done. }
      unfold ztake, zdrop. replace (Z.to_nat (n - zlen buf)) with (Z.to_nat g + Z.to_nat (n - (zlen buf + g)))%nat by lia.
      rewrite <- take_take_drop. reflexivity.
  - replace (n - zlen buf) with 0 by lia. by rewrite ztake_0, app_nil_r.
Qed.

(** Short reads do not matter: [read_head] is the first [n] bytes. *)
Lemma read_head_val open grant path n content :
  (forall i, 1 <= grant i) -> 0 <= n -> open path = Some content ->
  read_head open grant path n = Some (ztake n content).
Proof.
  intros Hg Hn Ho. unfold read_head. rewrite Ho. cbn [mbind option_bind].
  rewrite read_loop_val; [|done|rewrite zlen_nil; lia..]. by rewrite zlen_nil, Z.sub_0_r.
Qed.

Lemma contains_step p l :
  contains p l = has_prefix p l || match l with [] => false | _ :: l => contains p l end.
Proof. by destruct l. Qed.

Lemma contains_app p a b : contains p (a ++ p ++ b) = true.
Proof.
  induction a as [|x a IH]; rewrite contains_step; cbn [app].
  - by rewrite has_prefix_app.
  - by rewrite IH, orb_true_r.
Qed.

Lemma contains_inv p l : contains p l = true -> exists a b, l = a ++ p ++ b.
Proof.
  induction l as [|x l IH]; rewrite contains_step; intros H; bool_to_prop; destruct H as [H|H]; try done.
  - exists [], (zdrop (zlen p) []). by apply has_prefix_spec.
  - exists [], (zdrop (zlen p) (x :: l)). by apply has_prefix_spec.
  - destruct (IH H) as (a & b & ->). by exists (x :: a), b.
Qed.

Lemma centrals_name off ms m :
  m ∈ ms -> exists a b, centrals off ms = a ++ m_name m ++ b.
Proof.
  intros Hm. revert off. induction Hm as [m ms|m m' ms _ IH]; intros off; cbn [centrals].
  - unfold central. rewrite <- !(assoc_L (++)). eauto.
  - destruct (IH (off + zlen (local m'))) as (a & b & ->).
    exists (central m' off ++ a), b. by rewrite <- (assoc_L (++)).
Qed.

(** The tail [is_apk_magic] reads holds the central directory. *)
Lemma tail_has_directory ms gap comment :
  zlen (centrals 0 ms) + 22 + zlen comment <= 2 ^ 20 ->
  exists x, zdrop (Z.max 0 (zlen (zip ms gap comment) - 2 ^ 20)) (zip ms gap comment)
    = x ++ centrals 0 ms ++ end_record ms (zlen (centrals 0 ms)) (zlen (locals ms ++ gap)) comment ++ comment.
Proof.
  intros Hs. set (dl := zlen (centrals 0 ms)) in *. set (dof := zlen (locals ms ++ gap)) in *.
  destruct (end_record_fields ms dl dof comment comment) as (_ & _ & _ & HE).
  rewrite zip_parts. fold dl dof. rewrite zdrop_app_l; [by eexists|].
  rewrite !zlen_app, HE. fold dl. rewrite <- zlen_app. fold dof.
  assert (0 <= dof) by apply zlen_nonneg. lia.
Qed.

Lemma has_prefix_ztake p l n : zlen p <= n -> has_prefix p (ztake n (p ++ l)) = true.
Proof.
  intros H. unfold has_prefix. apply bool_decide_true. unfold ztake, zlen in *.
  rewrite take_take, Nat2Z.id, Nat.min_l by lia. apply take_app_length.
Qed.

Lemma zip_starts m ms gap comment : exists r, zip (m :: ms) gap comment = LOCAL_SIG ++ r.
Proof.
  rewrite zip_parts. change (locals (m :: ms)) with (local m ++ locals ms). unfold local.
  rewrite <- !(assoc_L (++)). by eexists.
Qed.

(** Lossy decoding gives ASCII text only for that text. *)
Lemma utf8_lossy_ascii_inv fuel l :
  (length l <= fuel)%nat -> ascii (utf8_lossy_fuel fuel l) -> utf8_lossy_fuel fuel l = l.
Proof.
  revert l. induction fuel as [|fuel IH]; intros [|b l] Hf Ha; try done; [simpl in Hf; lia|].
  cbn [utf8_lossy_fuel] in *. destruct (utf8_head b l) as [ok n] eqn:E.
  apply Forall_app in Ha as [Hh Ht]. destruct ok; [|by inversion Hh; lia].
  rewrite IH; [by rewrite take_drop|..|done]. rewrite length_drop. simpl in *.
  assert (1 <= n)%nat; [|lia]. unfold utf8_head in E. repeat case_match; simplify_eq; lia.
Qed.

Lemma local_header_name_inv head :
  Forall u8_ok head -> local_header_name head = Ret (Some MANIFEST_NAME) ->
  exists a b, head = a ++ MANIFEST_NAME ++ b.
Proof.
  intros Hb. unfold local_header_name. case_bool; bool_to_prop; [done|].
  rewrite u16_at_val by lia. cbn [mbind run_bind].
  pose proof (le_val_slice head 26 2 Hb ltac:(lia)) as Hn. set (n := le_val _) in *. clearbody n.
  unfold checked_add, usize_max. decide_if. case_bool; bool_to_prop; [done|].
  rewrite range_ok by lia. cbn [mbind run_bind]. intros [= Hl].
  unfold from_utf8_lossy in Hl. rewrite utf8_lossy_ascii_inv in Hl; [|done|].
  - exists (ztake 30 head), (zdrop (30 + n - 30) (zdrop 30 head)).
    rewrite <- Hl. unfold slice. by rewrite ztake_zdrop, ztake_zdrop.
  - rewrite Hl. unfold ascii. apply Forall_forall. intros x Hx.
    assert (forallb (fun x => (0 <=? x) && (x <? 128)) MANIFEST_NAME = true) as HF by reflexivity.
    rewrite forallb_forall in HF. apply list_elem_of_In in Hx. apply HF in Hx. lia.
Qed.

(** a zip archive with a member of the manifest's name is taken for an APK
    whatever its file name and however short the reads are, provided its
    directory lies in the last mebibyte; and a file whose name does not end in
    apk is taken for one only if it starts like a zip and holds the manifest's
    name. *)
Theorem apk_recognised open grant path content :
  (forall i, 1 <= grant i) -> open path = Some content -> Forall u8_ok content ->
  (forall ms gap comment m, content = zip ms gap comment -> Forall member_ok ms ->
     m ∈ ms -> m_name m = MANIFEST_NAME -> zlen (centrals 0 ms) + 22 + zlen comment <= 2 ^ 20 ->
     is_apk open grant path = Ret true)
  /\ (is_apk open grant path = Ret true ->
      (exists e, (file_name path ≫= fun f => (stem_ext f).2) = Some e /\ eq_ignore_ascii_case e (bs "apk") = true)
      \/ (exists rest, content = LOCAL_SIG ++ rest) /\ (exists a b, content = a ++ MANIFEST_NAME ++ b)).
Proof.
  intros Hg Ho Hb. pose proof (read_head_val open grant path 4096 content Hg ltac:(lia) Ho) as Hh.
  assert (Forall u8_ok (ztake 4096 content)) as Hbh by by apply Forall_take.
  destruct (local_header_name_ret _ Hbh) as [nm Hn].
  unfold is_apk, is_apk_magic, read_tail. rewrite Hh, Ho. cbn [mbind option_bind]. split.
  - intros ms gap comment m -> Hms Hm Hname Hdir. case_bool; [done|].
    destruct ms as [|m0 ms]; [by apply elem_of_nil in Hm|].
    destruct (zip_starts m0 ms gap comment) as [r Hr]. rewrite Hr at 1.
    rewrite has_prefix_ztake by done. cbn [negb].
    rewrite Hn. cbn [mbind run_bind]. case_bool; [done|].
    destruct (tail_has_directory (m0 :: ms) gap comment Hdir) as [x ->].
    destruct (centrals_name 0 (m0 :: ms) m Hm) as (a & b & ->). rewrite Hname, <- (assoc_L (++)), <- (assoc_L (++)).
    by rewrite (assoc_L (++) x), contains_app.
  - case_match eqn:Hext; [intros _; left|].
    + destruct (file_name path); cbn [mbind option_bind]; [|done]. case_match; [|done]. eauto.
    + intros H. right. destruct (has_prefix _ _) eqn:Hp; [|done]. cbn [negb] in H.
      rewrite Hn in H. cbn [mbind run_bind] in H.
      apply has_prefix_spec in Hp. split.
      * exists (zdrop (zlen LOCAL_SIG) (ztake 4096 content) ++ zdrop 4096 content).
        by rewrite (assoc_L (++)), <- Hp, ztake_zdrop.
      * destruct (bool_decide _) eqn:Hm in H.
        -- apply bool_decide_eq_true in Hm as ->.
           destruct (local_header_name_inv _ Hbh Hn) as (a & b & Hab).
           exists a, (b ++ zdrop 4096 content). by rewrite !(assoc_L (++)), <- (assoc_L (++) a), <- Hab, ztake_zdrop.
        -- injection H as Hc. apply contains_inv in Hc as (a & b & Hab).
           eexists (_ ++ a), b. rewrite <- (assoc_L (++)), <- Hab. by rewrite ztake_zdrop.
Qed.

(** ** Witnesses *)

Definition demo_member (nm : bytes) (meth : Z) (body : bytes) : member :=
  mkMember nm meth body (replicate 22 0) [7; 7] (replicate 6 0) (replicate 4 0) (replicate 4 1)
    (replicate 4 0) (replicate 4 0) (replicate 4 0) [] (bs "c").
Definition demo_members : list member :=
  [demo_member (bs "lib/x86/a.so") 8 [1; 2; 3]; demo_member MANIFEST_NAME 0 (bs "manifest")].

Ltac eval_bytes := repeat split; repeat first [apply Forall_cons; repeat split | apply Forall_nil; exact I]; vm_compute; done.

Lemma demo_zip_ok : zip_ok demo_members (bs "APK Sig Block 42") (bs "hello").
Proof. unfold zip_ok, member_ok. eval_bytes. Defined.

Lemma zip_reads_witness :
  exists es, central_directory (zip demo_members (bs "APK Sig Block 42") (bs "hello")) = Ret es /\ length es = 2%nat.
Proof.
  destruct (zip_reads (fun _ => Some []) demo_members (bs "APK Sig Block 42") (bs "hello") demo_zip_ok) as (es & He & HF).
  exists es. split; [exact He|]. exact (Forall2_length _ _ _ HF).
Defined.

Lemma zip_never_panics_witness : central_directory (replicate 30 0) <> Panic.
Proof. refine (proj1 (zip_never_panics (replicate 30 0) _ _)); [by apply Forall_replicate|done]. Defined.

Lemma u8_bytes l : forallb (in_range 0 255) l = true -> Forall u8_ok l.
Proof.
  intros H. apply Forall_forall. intros x Hx. rewrite forallb_forall in H.
  apply list_elem_of_In in Hx. apply H in Hx. unfold in_range, u8_ok in *. lia.
Qed.

Lemma apk_recognised_witness :
  is_apk (fun _ => Some (zip demo_members [] [])) (fun _ => 7) (bs "/tmp/download.bin") = Ret true.
Proof.
  eapply (apk_recognised _ (fun _ => 7) (bs "/tmp/download.bin") (zip demo_members [] [])).
  - intros _. lia.
  - reflexivity.
  - apply u8_bytes. vm_compute. reflexivity.
  - reflexivity.
  - unfold member_ok. eval_bytes.
  - right. left.
  - reflexivity.
  - vm_compute. discriminate.
Defined.

(** The lists the source's tests build: a directory entry whose name runs off
    the end is an error. *)
Example truncated_is_error :
  central_directory
    (EOCD_SIG ++ [0; 0; 0; 0; 1; 0; 1; 0; 46; 0; 0; 0; 22; 0; 0; 0; 0; 0]
     ++ [0x50; 0x4b; 0x01; 0x02; 0x14; 0; 0x0a; 0; 0; 0; 8; 0] ++ replicate 16 0 ++ [0xff; 0xff] ++ replicate 16 0)
  = Bail (EndsInside 68).
Proof. by vm_compute. Qed.
