(* ===== verification/Axml.v ===== *)
(** * Reading the manifest of an APK

    [adb-gui/src/state/apk/manifest.rs]: the chunks of compiled Android XML,
    its string pools, the attributes the install card shows, the package name
    in a resource table; and [apk_info], which puts them together. *)

From stdpp Require Import base list strings.
From S2P Require Import Prelude RustStd Text Checked Apk.

(** ** UTF-16 *)

(** [char::encode_utf8] *)
Definition encode_utf8 (c : Z) : bytes :=
  if c <? 0x80 then [c]
  else if c <? 0x800 then [0xC0 + c / 64; 0x80 + c mod 64]
  else if c <? 0x10000 then [0xE0 + c / 4096; 0x80 + c / 64 mod 64; 0x80 + c mod 64]
  else [0xF0 + c / 262144; 0x80 + c / 4096 mod 64; 0x80 + c / 64 mod 64; 0x80 + c mod 64].

(** [String::from_utf16_lossy]: an unpaired surrogate becomes U+FFFD. *)
Fixpoint from_utf16_lossy (us : list Z) : bytes :=
  match us with
  | [] => []
  | u :: us' =>
      if negb (Z.land u 0xF800 =? 0xD800) then encode_utf8 u ++ from_utf16_lossy us'
      else if u >=? 0xDC00 then REPLACEMENT ++ from_utf16_lossy us'
      else match us' with
           | [] => REPLACEMENT
           | u2 :: us'' =>
               if (u2 <? 0xDC00) || (u2 >? 0xDFFF) then REPLACEMENT ++ from_utf16_lossy us'
               else encode_utf8 (Z.lor (Z.shiftl (Z.land u 0x3FF) 10) (Z.land u2 0x3FF) + 0x10000)
                    ++ from_utf16_lossy us''
           end
  end.

(** [as_chunks::<2>().0] read as little-endian units: an odd last byte is left
    out. *)
Fixpoint units (l : bytes) : list Z :=
  match l with
  | a :: b :: l => le_val [a; b] :: units l
  | _ => []
  end.

(** ** String pools *)

Definition decode_length (data : bytes) : Z * Z :=
  match data with
  | [] => (0, 0)
  | b :: rest =>
      match rest with
      | b1 :: _ =>
          if negb (Z.land b 0x80 =? 0) then (Z.lor (Z.shiftl (Z.land b1 0x7f) 7) (Z.land b 0x7f), 2)
          else (Z.land b 0x7f, 1)
      | [] => (Z.land b 0x7f, 1)
      end
  end.

Definition read_utf8_string (data : bytes) : res bytes :=
  match data with
  | [] => Ret []
  | _ =>
      let '(skip, _) := decode_length data in
      rest ← range_from data skip;
      let '(hlen, hskip) := decode_length rest in
      e ← uadd hskip hlen;
      b ← range rest hskip (Z.min e (zlen rest));
      Ret (from_utf8_lossy b)
  end.

Definition read_utf16_string (data : bytes) : res bytes :=
  if zlen data <? 2 then Ret []
  else
    len ← u16_at data 0;
    let bytes_start := 2 in
    let bytes_end := Z.min (bytes_start + len * 2) (zlen data) in
    b ← range data bytes_start bytes_end;
    Ret (from_utf16_lossy (units b)).

(** The loop over the string offsets. It breaks at the first offset that is
    outside the chunk, so it never makes more rounds than the chunk has bytes. *)
Fixpoint pool_strings (chunk : bytes) (strings_start : Z) (utf8 : bool) (rounds : nat) (i : Z) : res (list bytes) :=
  match rounds with
  | O => Ret []
  | S rounds =>
      let off := 28 + i * 4 in
      if off + 4 >? zlen chunk then Ret []
      else
        so ← u32_at chunk off;
        s ← uadd strings_start so;
        string ← (if s >=? zlen chunk then Ret []
                  else d ← range_from chunk s;
                       if utf8 then read_utf8_string d else read_utf16_string d);
        strings ← pool_strings chunk strings_start utf8 rounds (i + 1);
        Ret (string :: strings)
  end.

Definition parse_string_pool (chunk : bytes) : res (list bytes) :=
  if zlen chunk <? 28 then Bail PoolTooSmall
  else
    count ← u32_at chunk 8;
    flags ← u32_at chunk 16;
    strings_start ← u32_at chunk 20;
    let utf8 := negb (Z.land flags 0x100 =? 0) in
    pool_strings chunk strings_start utf8 (Z.to_nat (Z.min count (zlen chunk))) 0.

(** ** Elements *)

Record Attribute := mkAttribute {
  id : Z;
  name_index : Z;
  string_index : Z;
  int_value : option Z }.

(** [StartElement]; [name_index] is always set and [name_string] never. *)
Record StartElement := mkStartElement {
  el_name : option Z;
  name_string : option bytes;
  attributes : list Attribute }.

Fixpoint parse_attributes (chunk : bytes) (resource_map : list Z) (base attribute_size : Z)
    (count : nat) (i : Z) : res (list Attribute) :=
  match count with
  | O => Ret []
  | S count =>
      let a := base + i * attribute_size in
      if a + attribute_size >? zlen chunk then Ret []
      else
        name_idx ← u32_at chunk (a + 4);
        string_index ← u32_at chunk (a + 8);
        data_type ← index chunk (a + 15);
        data ← u32_at chunk (a + 16);
        let id := default 0 (zget resource_map name_idx) in
        let int_value := if (data_type =? 0x10) || (data_type =? 0x11) || (data_type =? 0x04)
                         then Some data else None in
        attrs ← parse_attributes chunk resource_map base attribute_size count (i + 1);
        Ret (mkAttribute id name_idx string_index int_value :: attrs)
  end.

Definition StartElement_parse (chunk : bytes) (header : Z) (resource_map : list Z) : res StartElement :=
  let attr_ext := header in
  if zlen chunk <? attr_ext + 20 then Bail ElementTooSmall
  else
    name_index ← u32_at chunk (attr_ext + 4);
    attribute_start ← u16_at chunk (attr_ext + 8);
    attribute_size ← u16_at chunk (attr_ext + 10);
    attribute_count ← u16_at chunk (attr_ext + 12);
    if attribute_size <? 20 then Bail (AttributeSize attribute_size)
    else
      let base := attr_ext + attribute_start in
      attrs ← parse_attributes chunk resource_map base attribute_size (Z.to_nat attribute_count) 0;
      Ret (mkStartElement (Some name_index) None attrs).

Definition element_name (strings : list bytes) (node : StartElement) : option bytes :=
  match el_name node ≫= zget strings with
  | Some s => Some s
  | None => name_string node
  end.

Definition string_value (strings : list bytes) (attr : Attribute) : bytes :=
  default [] (zget strings (string_index attr)).

Definition label_value (strings : list bytes) (attr : Attribute) : bytes := string_value strings attr.

Record AxmlManifest := mkManifest {
  package : bytes;
  version_name : option bytes;
  version_code : option Z;
  min_sdk : option Z;
  target_sdk : option Z;
  label : option bytes;
  permissions : list bytes }.

Definition manifest_default : AxmlManifest := mkManifest [] None None None None None [].

Definition ATTR_VERSION_CODE : Z := 0x0101021b.
Definition ATTR_PACKAGE : Z := 0x01010146.
Definition ATTR_VERSION_NAME : Z := 0x0101021c.
Definition ATTR_MIN_SDK : Z := 0x0101020c.
Definition ATTR_TARGET_SDK : Z := 0x01010270.
Definition ATTR_LABEL : Z := 0x01010001.
Definition ATTR_PERMISSION_NAME : Z := 0x01010003.

(** ** The walk over the chunks *)

(** What the loop keeps: the manifest so far, the string pool, the resource
    map. *)
Record pstate := mkP { p_manifest : AxmlManifest; p_strings : list bytes; p_map : list Z }.

Definition RES_STRING_POOL : Z := 0x0001.
Definition RES_XML_TYPE : Z := 0x0003.
Definition RES_XML_START_ELEMENT : Z := 0x0102.
Definition RES_XML_RESOURCE_MAP : Z := 0x0180.

(** [for i in (header..size).step_by(4)], [rounds] entries from [i] on. *)
Fixpoint map_ids (chunk : bytes) (rounds : nat) (i : Z) : res (list Z) :=
  match rounds with
  | O => Ret []
  | S rounds => x ← u32_at chunk i; xs ← map_ids chunk rounds (i + 4); Ret (x :: xs)
  end.

Definition manifest_attr (strings : list bytes) (m : AxmlManifest) (a : Attribute) : AxmlManifest :=
  if (id a =? ATTR_PACKAGE) || bool_decide (zget strings (name_index a) = Some (bs "package")) then
    mkManifest (string_value strings a) (version_name m) (version_code m) (min_sdk m) (target_sdk m) (label m) (permissions m)
  else if id a =? ATTR_VERSION_CODE then
    match int_value a with
    | Some v => mkManifest (package m) (version_name m) (Some v) (min_sdk m) (target_sdk m) (label m) (permissions m)
    | None => m
    end
  else if id a =? ATTR_VERSION_NAME then
    mkManifest (package m) (Some (string_value strings a)) (version_code m) (min_sdk m) (target_sdk m) (label m) (permissions m)
  else m.

Definition sdk_attr (m : AxmlManifest) (a : Attribute) : AxmlManifest :=
  if id a =? ATTR_MIN_SDK then
    mkManifest (package m) (version_name m) (version_code m) (int_value a) (target_sdk m) (label m) (permissions m)
  else if id a =? ATTR_TARGET_SDK then
    mkManifest (package m) (version_name m) (version_code m) (min_sdk m) (int_value a) (label m) (permissions m)
  else m.

Definition permission_attr (strings : list bytes) (m : AxmlManifest) (a : Attribute) : AxmlManifest :=
  if id a =? ATTR_PERMISSION_NAME then
    let name := string_value strings a in
    if bool_decide (name <> []) && negb (bool_decide (name ∈ permissions m)) then
      mkManifest (package m) (version_name m) (version_code m) (min_sdk m) (target_sdk m) (label m) (permissions m ++ [name])
    else m
  else m.

Definition label_attr (strings : list bytes) (m : AxmlManifest) (a : Attribute) : AxmlManifest :=
  if id a =? ATTR_LABEL then
    match label_value strings a with
    | [] => m
    | l => mkManifest (package m) (version_name m) (version_code m) (min_sdk m) (target_sdk m) (Some l) (permissions m)
    end
  else m.

(** The body of the [RES_XML_START_ELEMENT] case. *)
Definition on_element (strings : list bytes) (node : StartElement) (m : AxmlManifest) : AxmlManifest :=
  if bool_decide (el_name node = None /\ name_string node = None) then m
  else match element_name strings node with
       | None => m
       | Some n =>
           if bool_decide (n = bs "manifest") then fold_left (manifest_attr strings) (attributes node) m
           else if bool_decide (n = bs "uses-sdk") then fold_left sdk_attr (attributes node) m
           else if bool_decide (n = bs "uses-permission") then fold_left (permission_attr strings) (attributes node) m
           else if bool_decide (n = bs "application") then fold_left (label_attr strings) (attributes node) m
           else m
       end.

(** [match kind]: what a chunk does to the state. *)
Definition on_chunk (kind header size : Z) (chunk : bytes) (st : pstate) : res pstate :=
  if kind =? RES_STRING_POOL then
    strings ← parse_string_pool chunk;
    Ret (mkP (p_manifest st) strings (p_map st))
  else if kind =? RES_XML_RESOURCE_MAP then
    ids ← map_ids chunk (Z.to_nat ((size - header + 3) / 4)) header;
    Ret (mkP (p_manifest st) (p_strings st) (p_map st ++ ids))
  else if kind =? RES_XML_START_ELEMENT then
    node ← StartElement_parse chunk header (p_map st);
    Ret (mkP (on_element (p_strings st) node (p_manifest st)) (p_strings st) (p_map st))
  else Ret st.

(** One round of the loop: [None] ends it. *)
Definition parse_step (data : bytes) (st : pstate) (pos : Z) : res (option (pstate * Z)) :=
  p8 ← uadd pos 8;
  if negb (p8 <=? zlen data) then Ret None
  else
    kind ← u16_at data pos;
    header ← u16_at data (pos + 2);
    size ← u32_at data (pos + 4);
    if (size <? header) || (size =? 0) then Ret None
    else
      e ← uadd pos size;
      if e >? zlen data then Ret None
      else
        chunk ← range data pos e;
        if kind =? RES_XML_TYPE then Ret (Some (st, pos + header))
        else st ← on_chunk kind header size chunk st; Ret (Some (st, e)).

(** The loop, cut off after [fuel] rounds: [None] when it is still running. *)
Fixpoint parse_loop (fuel : nat) (data : bytes) (st : pstate) (pos : Z) : option (res pstate) :=
  match fuel with
  | O => None
  | S fuel =>
      match parse_step data st pos with
      | Ret None => Some (Ret st)
      | Ret (Some (st, pos)) => parse_loop fuel data st pos
      | Bail e => Some (Bail e)
      | Panic => Some Panic
      end
  end.

(** The checks after the loop. *)
Definition parse_end (r : res pstate) : res AxmlManifest :=
  st ← r;
  let m := p_manifest st in
  if bool_decide (package m = []) && bool_decide (version_code m = None) then Bail NotAxml else Ret m.

Definition parse (fuel : nat) (data : bytes) : option (res AxmlManifest) :=
  parse_end <$> parse_loop fuel data (mkP manifest_default [] []) 0.

(** ** Members of the archive *)

Section Archive.
Context (inflate : bytes -> option bytes).

Definition member_from (nm : bytes) (data : bytes) : res bytes :=
  entries ← central_directory data;
  entry ← or_bail (list_find (fun e => name e = nm) entries) (NoMember nm);
  extract inflate entry.2 data.

Definition manifest_from (data : bytes) : res bytes := member_from MANIFEST_NAME data.
Definition resources_arsc_from (data : bytes) : res bytes := member_from (bs "resources.arsc") data.
End Archive.

(** The directory under [lib/] an entry's name names, if any. *)
Definition abi_of (nm : bytes) : option bytes :=
  rest ← strip_pre (bs "lib/") nm;
  abi ← head (split_on 47 rest);
  if bool_decide (abi = []) then None else Some abi.

Definition native_abis_in (data : bytes) : res (list bytes) :=
  entries ← central_directory data;
  Ret (fold_left (fun seen e => match abi_of (name e) with Some abi => set_insert abi seen | None => seen end) entries []).

(** ** The package name in a resource table *)

Definition name_char (u : Z) : bool := (u =? 46) || is_alnum (as_u8 u) || (u =? 95) || (u =? 45).

Fixpoint take_while (f : Z -> bool) (l : list Z) : list Z :=
  match l with
  | [] => []
  | x :: l => if f x then x :: take_while f l else []
  end.

Definition package_name_from_package_chunk (chunk : bytes) (hdr : Z) : res (option bytes) :=
  if zlen chunk <? hdr + 132 then Ret None
  else
    blob ← range chunk (hdr + 4) (hdr + 4 + 256);
    let utf16 := take_while (fun u => negb (u =? 0)) (units blob) in
    if (zlen utf16 >? 3) && forallb name_char utf16 then Ret (Some (from_utf16_lossy utf16))
    else
      let b := take_while (fun u => negb (u =? 0)) blob in
      if (zlen b >? 3) && forallb name_char b then Ret (Some (from_utf8_lossy b)) else Ret None.

Fixpoint arsc_chunks (data : bytes) (rounds : nat) (pos : Z) : res (option bytes) :=
  match rounds with
  | O => Ret None
  | S rounds =>
      if pos + 8 >? zlen data then Ret None
      else
        kind ← u16_at data pos;
        hdr ← u16_at data (pos + 2);
        size ← u32_at data (pos + 4);
        found ← (if kind =? 0x0200 then
                   chunk ← range data pos (Z.min (pos + size) (zlen data));
                   package_name_from_package_chunk chunk hdr
                 else Ret None);
        match found with
        | Some (_ :: _) => Ret found
        | _ => if size =? 0 then Ret None else arsc_chunks data rounds (pos + size)
        end
  end.

Definition package_name_from_arsc (data : bytes) : res (option bytes) :=
  if zlen data <? 12 then Ret None
  else
    table_size ← u32_at data 4;
    let pos := Z.max (Z.min table_size (zlen data)) 12 in
    arsc_chunks data 4 pos.

(** ** The card of one APK *)

Record ApkInfo := mkApkInfo {
  i_package : bytes; i_version_name : option bytes; i_version_code : option Z;
  i_min_sdk : option Z; i_target_sdk : option Z; i_label : option bytes;
  i_permissions : list bytes; i_size : option Z; i_native_abis : list bytes }.

(** [apk_info] of a file that reads as [file], with the size its metadata
    says; [None] while the manifest loop is still running. *)
Definition apk_info (fuel : nat) (inflate : bytes -> option bytes) (size : option Z) (file : option bytes)
    : option (res ApkInfo) :=
  match file with
  | None => Some (Bail IoError)
  | Some data =>
      match manifest_from inflate data with
      | Bail e => Some (Bail e)
      | Panic => Some Panic
      | Ret manifest_bytes =>
          (fun r => m ← r;
             abis ← native_abis_in data;
             package ←
               (if bool_decide (package m = []) then
                  match resources_arsc_from inflate data with
                  | Ret arsc => name ← package_name_from_arsc arsc;
                                Ret (default (package m) name)
                  | Bail _ => Ret (package m)
                  | Panic => Panic
                  end
                else Ret (package m));
             Ret (mkApkInfo package (version_name m) (version_code m) (min_sdk m) (target_sdk m)
                    (label m) (permissions m) size abis))
          <$> parse fuel manifest_bytes
      end
  end.
