(* ===== verification/AxmlSpec.v ===== *)
(** * The manifest reader: what it promises

    On which files [Axml.parse] comes back, that a manifest compiled in the
    usual layout is read back, and what the reader does on the layouts it gets
    wrong. *)

From stdpp Require Import base list strings.
From S2P Require Import Prelude RustStd Text Checked Apk Axml.

(** ** The chunks a parse visits *)

Record chunk_head := mkHead { k_kind : Z; k_header : Z; k_size : Z }.

Definition head_at (data : bytes) (p : Z) : chunk_head :=
  mkHead (le_val (slice data p 2)) (le_val (slice data (p + 2) 2)) (le_val (slice data (p + 4) 4)).

(** Where the loop goes from [p]; [None] when it stops there. *)
Definition next (data : bytes) (p : Z) : option Z :=
  let h := head_at data p in
  if negb (p + 8 <=? zlen data) then None
  else if (k_size h <? k_header h) || (k_size h =? 0) || (p + k_size h >? zlen data) then None
  else Some (if k_kind h =? RES_XML_TYPE then p + k_header h else p + k_size h).

Inductive visited (data : bytes) : Z -> Prop :=
| visited_first : visited data 0
| visited_next p q : visited data p -> next data p = Some q -> visited data q.

(** A wrapper that moves on, a resource map of whole ids, a UTF-16 pool. *)
Definition sane_chunk (data : bytes) (p : Z) : Prop :=
  let h := head_at data p in
  (k_kind h = RES_XML_TYPE -> k_header h <> 0)
  /\ (k_kind h = RES_XML_RESOURCE_MAP -> (k_size h - k_header h) mod 4 = 0)
  /\ (k_kind h = RES_STRING_POOL -> Z.land (le_val (slice data (p + 16) 4)) 0x100 = 0).

Definition sane (data : bytes) : Prop :=
  forall p q, visited data p -> next data p = Some q -> sane_chunk data p.

Lemma head_bounds data p :
  Forall u8_ok data -> let h := head_at data p in
  0 <= k_kind h < 2 ^ 16 /\ 0 <= k_header h < 2 ^ 16 /\ 0 <= k_size h < 2 ^ 32.
Proof. intros Hb. split_and!; try apply (le_val_slice _ _ 2 Hb); try apply (le_val_slice _ _ 4 Hb); lia. Qed.

(** One round in terms of [next]. *)
Lemma parse_step_val data st p :
  Forall u8_ok data -> zlen data < 2 ^ 63 -> 0 <= p <= zlen data ->
  let h := head_at data p in
  parse_step data st p
  = match next data p with
    | None => Ret None
    | Some q =>
        if k_kind h =? RES_XML_TYPE then Ret (Some (st, q))
        else st' ← on_chunk (k_kind h) (k_header h) (k_size h) (slice data p (k_size h)) st; Ret (Some (st', q))
    end.
Proof.
  intros Hb Hlen Hp h. destruct (head_bounds data p Hb) as (_ & Hh & Hs). fold h in Hh, Hs.
  unfold parse_step, next. fold h. rewrite uadd_ok by (unfold usize_max; lia). cbn [mbind run_bind].
  case_bool; [done|]. bool_to_prop.
  rewrite !u16_at_val, u32_at_val by lia. cbn [mbind run_bind].
  change (le_val (slice data p 2)) with (k_kind h). change (le_val (slice data (p + 2) 2)) with (k_header h).
  change (le_val (slice data (p + 4) 4)) with (k_size h).
  destruct ((k_size h <? k_header h) || (k_size h =? 0)) eqn:Hst; cbn [orb]; [done|]. bool_to_prop.
  rewrite uadd_ok by (unfold usize_max; lia). cbn [mbind run_bind]. case_bool; bool_to_prop; [done|].
  rewrite range_ok by lia. cbn [mbind run_bind]. replace (p + k_size h - p) with (k_size h) by lia.
  by case_bool.
Qed.

Lemma next_bounds data p q :
  Forall u8_ok data -> next data p = Some q -> 0 <= p ->
  let h := head_at data p in
  p + 8 <= zlen data /\ 0 <= k_header h <= k_size h /\ 0 < k_size h /\ p + k_size h <= zlen data
  /\ q = (if k_kind h =? RES_XML_TYPE then p + k_header h else p + k_size h).
Proof.
  intros Hb Hn Hp h. destruct (head_bounds data p Hb) as (_ & Hh & Hs). fold h in Hh, Hs.
  unfold next in Hn. fold h in Hn.
  destruct (p + 8 <=? zlen data) eqn:?; [|done]. cbn [negb] in Hn.
  destruct (_ || _ || _) eqn:Ho in Hn; [done|]. bool_to_prop. simplify_eq. split_and!; lia.
Qed.

Lemma next_inside data p q :
  Forall u8_ok data -> next data p = Some q -> 0 <= p -> p <= q <= zlen data.
Proof.
  intros Hb Hn Hp. destruct (next_bounds _ _ _ Hb Hn Hp) as (? & ? & ? & ? & ->). case_bool; lia.
Qed.

Lemma visited_inside data p : Forall u8_ok data -> visited data p -> 0 <= p <= zlen data.
Proof.
  intros Hb. induction 1 as [|p q _ IH Hn]; [split; [done|apply zlen_nonneg]|].
  pose proof (next_inside _ _ _ Hb Hn (proj1 IH)). lia.
Qed.

(** ** No panics *)

Lemma safe_utf16 d : Forall u8_ok d -> safe (fun _ => True) (read_utf16_string d).
Proof.
  intros Hb. unfold read_utf16_string. case_bool; bool_to_prop; [done|].
  eapply safe_bind; [apply safe_u16_at; auto; lia|]. intros n [Hn _].
  eapply safe_bind; [apply safe_range; lia|]. done.
Qed.

Lemma safe_pool_strings chunk start rounds i :
  Forall u8_ok chunk -> u32_ok start -> 0 <= i ->
  safe (fun _ => True) (pool_strings chunk start false rounds i).
Proof.
  intros Hb Hst. revert i. induction rounds as [|rounds IH]; intros i Hi; [done|].
  cbn [pool_strings]. case_bool; bool_to_prop; [done|].
  eapply safe_bind; [apply safe_u32_at; auto; lia|]. intros so Hso. unfold u32_ok in *.
  eapply safe_bind; [apply safe_uadd; unfold usize_max; lia|]. intros s ->.
  apply (safe_bind (fun _ => True)).
  - case_bool; [done|]. rewrite Z.geb_leb in *. bool_to_prop.
    eapply safe_bind; [apply safe_range_from; lia|]. intros d ->. apply safe_utf16. auto with adb.
  - intros x _. eapply safe_bind; [apply IH; lia|]. done.
Qed.

Lemma safe_map_ids chunk rounds i :
  Forall u8_ok chunk -> 0 <= i -> i + 4 * Z.of_nat rounds <= zlen chunk ->
  safe (fun _ => True) (map_ids chunk rounds i).
Proof.
  intros Hb. revert i. induction rounds as [|rounds IH]; intros i Hi Hl; [done|].
  cbn [map_ids]. eapply safe_bind; [apply safe_u32_at; auto; lia|]. intros x _.
  eapply safe_bind; [apply IH; lia|]. done.
Qed.

Lemma safe_attributes chunk rm base size count i :
  Forall u8_ok chunk -> 0 <= base -> 20 <= size -> 0 <= i ->
  safe (fun _ => True) (parse_attributes chunk rm base size count i).
Proof.
  intros Hb Hba Hs. revert i. induction count as [|count IH]; intros i Hi; [done|].
  cbn [parse_attributes]. case_bool; bool_to_prop; [done|].
  assert (0 <= i * size) by lia. set (a := base + i * size) in *.
  do 2 (eapply safe_bind; [apply safe_u32_at; auto; lia|]; intros ? _).
  destruct (@index_lt apk_error _ chunk (a + 15)) as (x & _ & ->); [lia|]. cbn [mbind run_bind].
  eapply safe_bind; [apply safe_u32_at; auto; lia|]. intros ? _.
  eapply safe_bind; [apply IH; lia|]. done.
Qed.

Lemma safe_start_element chunk header rm :
  Forall u8_ok chunk -> 0 <= header -> safe (fun _ => True) (StartElement_parse chunk header rm).
Proof.
  intros Hb Hh. unfold StartElement_parse. case_bool; bool_to_prop; [done|].
  eapply safe_bind; [apply safe_u32_at; auto; lia|]. intros ? _.
  do 3 (eapply safe_bind; [apply safe_u16_at; auto; lia|]; intros ? [? _]).
  case_bool; bool_to_prop; [done|].
  eapply safe_bind; [apply safe_attributes; auto; lia|]. done.
Qed.

Lemma safe_on_chunk data p q st :
  Forall u8_ok data -> zlen data < 2 ^ 63 -> 0 <= p -> next data p = Some q -> sane_chunk data p ->
  let h := head_at data p in
  safe (fun _ => True) (on_chunk (k_kind h) (k_header h) (k_size h) (slice data p (k_size h)) st).
Proof.
  intros Hb Hlen Hp Hn (Hw & Hm & Hpool) h. destruct (next_bounds _ _ _ Hb Hn Hp) as (? & ? & ? & ? & _).
  fold h in Hw, Hm, Hpool, H0, H1, H2.
  assert (Forall u8_ok (slice data p (k_size h))) as Hc by auto with adb.
  assert (zlen (slice data p (k_size h)) = k_size h) as Hcl by len_lia.
  unfold on_chunk. repeat case_bool; bool_to_prop; [..|done].
  - eapply safe_bind with (P := fun _ => True); [|done]. unfold parse_string_pool.
    case_bool; bool_to_prop; [done|]. rewrite !u32_at_val by lia. cbn [mbind run_bind].
    replace (slice (slice data p (k_size h)) 16 4) with (slice data (p + 16) 4).
    + rewrite Hpool by done. apply safe_pool_strings; [done| |done]. by apply (le_val_slice _ _ 4).
    + rewrite slice_in_rest by lia. unfold slice at 2. unfold slice at 2. unfold slice, ztake, zdrop.
      rewrite skipn_firstn_comm, take_take. f_equal. lia.
  - eapply safe_bind with (P := fun _ => True); [|done]. apply safe_map_ids; [done|lia|].
    specialize (Hm ltac:(done)). pose proof (Z.div_mod (k_size h - k_header h) 4 ltac:(lia)).
    replace (k_size h - k_header h + 3) with (3 + (k_size h - k_header h) / 4 * 4) by lia.
    rewrite Z.div_add by lia. change (3 / 4) with 0. rewrite Z2Nat.id by lia. lia.
  - eapply safe_bind with (P := fun _ => True); [|done]. apply safe_start_element; [done|lia].
Qed.

Lemma parse_loop_ends data st p fuel :
  Forall u8_ok data -> zlen data < 2 ^ 63 -> sane data -> visited data p ->
  zlen data - p < Z.of_nat fuel ->
  exists r, parse_loop fuel data st p = Some r /\ r <> Panic.
Proof.
  intros Hb Hlen Hsane. revert st p. induction fuel as [|fuel IH]; intros st p Hv Hf;
    pose proof (visited_inside _ _ Hb Hv) as Hp; [lia|].
  cbn [parse_loop]. rewrite parse_step_val by done.
  destruct (next data p) as [q|] eqn:Hn; [|by eexists].
  pose proof (Hsane p q Hv Hn) as Hs. destruct (next_bounds _ _ _ Hb Hn (proj1 Hp)) as (_ & Hh & Hz & _ & Hq).
  assert (p < q) as Hlt by (destruct Hs as [Hw _]; subst q; case_bool; bool_to_prop; [specialize (Hw ltac:(done))|]; lia).
  pose proof (visited_next _ _ _ Hv Hn) as Hv'.
  case_bool; [apply IH; [done|lia]|].
  pose proof (safe_on_chunk data p q st Hb Hlen (proj1 Hp) Hn Hs) as Hc. cbn zeta in Hc.
  destruct (on_chunk _ _ _ _ _) as [st'|e|]; [|by eexists|done]. cbn [mbind run_bind]. apply IH; [done|lia].
Qed.

(** on any bytes whose visited chunks are sane (no wrapper with an empty
    header, resource maps of whole ids, UTF-16 pools), the manifest reader ends
    within one round for each byte and never panics, whatever the counts,
    offsets and sizes in the chunks say. *)
Theorem parse_comes_back data :
  Forall u8_ok data -> zlen data < 2 ^ 63 -> sane data ->
  exists r, parse (S (length data)) data = Some r /\ r <> Panic.
Proof.
  intros Hb Hlen Hs.
  destruct (parse_loop_ends data (mkP manifest_default [] []) 0 (S (length data)) Hb Hlen Hs
              (visited_first _) ltac:(unfold zlen; lia)) as (r & Hr & Hp).
  exists (parse_end r). split; [unfold parse; by rewrite Hr|].
  destruct r as [st|e|]; [|done..]. unfold parse_end. cbn [mbind run_bind]. by case_bool.
Qed.

(** ** Where the three conditions are needed *)

(** A wrapper chunk with an empty header is visited again and again. *)
Theorem wrapper_hangs data rest size fuel :
  data = [3; 0; 0; 0] ++ le_bytes 4 size ++ rest -> 0 < size <= zlen data -> size < 2 ^ 32 ->
  parse fuel data = None.
Proof.
  intros -> Hs Hz. unfold parse. set (data := _ ++ _) in *.
  assert (forall st, parse_step data st 0 = Ret (Some (st, 0))) as Hstep.
  { intros st. unfold parse_step. assert (8 <= zlen data) as Hl by (subst data; len_lia).
    rewrite uadd_ok by (unfold usize_max; lia). cbn [mbind run_bind].
    replace (0 + 8 <=? zlen data) with true by lia. cbn [negb].
    rewrite !u16_at_val, u32_at_val by lia. cbn [mbind run_bind].
    replace (slice data (0 + 4) 4) with (le_bytes 4 size) by (subst data; symmetry; by field_at).
    replace (slice data 0 2) with [3; 0] by done. replace (slice data (0 + 2) 2) with [0; 0] by done.
    rewrite le_val_u32 by (unfold u32_ok; lia). change (le_val [0; 0]) with 0. change (le_val [3; 0]) with 3.
    replace ((size <? 0) || (size =? 0)) with false by lia.
    rewrite uadd_ok by (unfold usize_max; lia). cbn [mbind run_bind]. decide_if.
    rewrite range_ok by lia. reflexivity. }
  generalize (mkP manifest_default [] []). induction fuel as [|fuel IH]; intros st; [done|].
  cbn [parse_loop]. rewrite Hstep. apply IH.
Qed.

(** A resource map with a byte too many. *)
Example odd_map_panics : parse 5 ([0x80; 1; 8; 0; 9; 0; 0; 0] ++ [7]) = Some Panic.
Proof. by vm_compute. Qed.

(** A UTF-8 pool with a string longer than what is left of the pool. *)
Example utf8_pool_panics :
  parse 5 ([1; 0; 28; 0; 36; 0; 0; 0] ++ [1; 0; 0; 0] ++ [0; 0; 0; 0] ++ [0; 1; 0; 0] ++ [32; 0; 0; 0]
           ++ [0; 0; 0; 0] ++ [0; 0; 0; 0] ++ [100; 100; 97; 0]) = Some Panic.
Proof. by vm_compute. Qed.

(** [read_utf8_string] takes the decoded length for the number of bytes it was
    read from: a string of two to 127 ASCII characters, stored as the format
    says, comes back as its last character, the terminator and whatever
    follows, cut to as many bytes as its last character but one says. *)
Theorem utf8_pool_misread s x y rest :
  ascii s -> 0 <= x < 0x80 -> 0 <= y < 0x80 -> zlen s + 2 < 0x80 ->
  let n := zlen s + 2 in
  read_utf8_string ([n; n] ++ s ++ [x; y] ++ [0] ++ rest)
  = Ret (from_utf8_lossy (ztake x ([y; 0] ++ rest))).
Proof.
  intros Hs Hx Hy Hlen n. pose proof (zlen_nonneg s). unfold read_utf8_string.
  assert (forall b, 0 <= b < 0x80 -> Z.land b 0x80 = 0 /\ Z.land b 0x7f = b) as Hbits.
  { intros b Hb. change 0x7f with (Z.ones 7). rewrite Z.land_ones, Z.mod_small by lia. split; [|done].
    change 0x80 with (2 ^ 7). rewrite land_bit by lia.
    destruct (decide (b = 0)) as [->|]; [done|].
    rewrite Z.bits_above_log2; [done|lia|]. apply Z.log2_lt_pow2; lia. }
  destruct (Hbits n ltac:(lia)) as [Hn1 Hn2]. destruct (Hbits x Hx) as [Hx1 Hx2].
  cbn [app decode_length]. rewrite Hn1, Hn2. cbn [negb Z.eqb].
  change (n :: n :: s ++ x :: y :: 0 :: rest) with ([n; n] ++ s ++ [x; y; 0] ++ rest).
  rewrite range_from_ok by len_lia. cbn [mbind run_bind].
  replace (zdrop n ([n; n] ++ s ++ [x; y; 0] ++ rest)) with ([x; y; 0] ++ rest)
    by (symmetry; rewrite (assoc_L (++)); apply zdrop_app_exact; len_lia).
  cbn [app decode_length]. rewrite Hx1, Hx2. cbn [negb Z.eqb].
  rewrite uadd_ok by (unfold usize_max; lia). cbn [mbind run_bind].
  rewrite range_ok by len_lia. cbn [mbind run_bind]. do 2 f_equal.
  change (slice (x :: y :: 0 :: rest) 1) with (fun k => ztake k (y :: 0 :: rest)). cbn beta.
  unfold ztake. rewrite zlen_cons. set (l := y :: 0 :: rest).
  destruct (decide (x <= zlen l)); [f_equal; lia|].
  unfold zlen in *. rewrite !take_ge by lia. done.
Qed.

(** ** The package name in the resource table *)

(** A table that fills its file, as every resource table does, is never looked
    into: the search starts at its end. *)
Theorem arsc_never_found data :
  12 <= zlen data -> zlen data <= le_val (slice data 4 4) -> package_name_from_arsc data = Ret None.
Proof.
  intros Hl Hs. unfold package_name_from_arsc. decide_if. rewrite u32_at_val by lia. cbn [mbind run_bind].
  rewrite Z.min_r, Z.max_l by lia. cbn [arsc_chunks].
  by replace (zlen data + 8 >? zlen data) with true by lia.
Qed.

(** A package chunk that ends inside the name blob. *)
Example short_package_chunk_panics :
  package_name_from_arsc ([2; 0; 12; 0; 12; 0; 0; 0; 1; 0; 0; 0] ++ [0; 2; 8; 0; 140; 0; 0; 0] ++ replicate 132 65) = Panic.
Proof. by vm_compute. Qed.

(** ** Witness *)

Definition demo_map : bytes := [0x80; 1; 8; 0; 12; 0; 0; 0; 1; 2; 3; 4].

Lemma demo_visited p : visited demo_map p -> p = 0 \/ p = 12.
Proof.
  induction 1 as [|p q _ IH Hq]; [by left|]. destruct IH as [-> | ->]; vm_compute in Hq; [|discriminate Hq].
  right. by injection Hq.
Qed.

Lemma parse_comes_back_witness : exists r, parse 13 demo_map = Some r /\ r <> Panic.
Proof.
  apply (parse_comes_back demo_map).
  - apply u8_bytes. reflexivity.
  - reflexivity.
  - intros p q Hv Hn. destruct (demo_visited p Hv) as [-> | ->]; [|discriminate Hn].
    repeat split; intros; vm_compute; discriminate || reflexivity.
Defined.
