(* ===== verification/AxmlRoundtrip.v ===== *)
(** * Compiled manifests read back

    A manifest laid out as the platform's compiler does: the wrapper, a UTF-16
    string pool, the resource map, and the element chunks; and the proof that
    [Axml.parse] recovers what was compiled. *)

From stdpp Require Import base list strings sorting.
From S2P Require Import Prelude RustStd Text Checked Apk Axml AxmlSpec.

(** ** Text *)

Definition scalar (c : Z) : Prop := 0 <= c < 0xD800 \/ 0xE000 <= c < 0x110000.

(** A text is its scalar values. *)
Definition text_utf8 (s : list Z) : bytes := concat (encode_utf8 <$> s).
Definition encode_utf16 (c : Z) : list Z :=
  if c <? 0x10000 then [c] else [0xD800 + (c - 0x10000) / 1024; 0xDC00 + (c - 0x10000) mod 1024].
Definition text_units (s : list Z) : list Z := concat (encode_utf16 <$> s).

Lemma land_surrogate u : 0 <= u < 2 ^ 16 -> Z.land u 0xF800 = u / 2048 * 2048.
Proof.
  intros Hu. change 0xF800 with (Z.shiftl (Z.ones 5) 11). change 2048 with (2 ^ 11).
  rewrite <- Z.shiftl_mul_pow2, <- Z.shiftr_div_pow2 by lia.
  apply Z.bits_inj'. intros n Hn. rewrite Z.land_spec.
  destruct (decide (n < 11)); [by rewrite !Z.shiftl_spec_low, andb_false_r by lia|].
  rewrite !Z.shiftl_spec by lia. rewrite Z.shiftr_spec by lia.
  replace (n - 11 + 11) with n by lia.
  destruct (decide (n < 16)); [by rewrite Z.ones_spec_low, andb_true_r by lia|].
  rewrite Z.ones_spec_high, andb_false_r by lia. symmetry.
  destruct (decide (u = 0)) as [->|]; [apply Z.bits_0|]. apply Z.bits_above_log2; [lia|].
  apply Z.log2_lt_pow2; [lia|]. eapply Z.lt_le_trans; [apply Hu|]. apply Z.pow_le_mono_r; lia.
Qed.

Lemma from_utf16_one c us :
  scalar c -> from_utf16_lossy (encode_utf16 c ++ us) = encode_utf8 c ++ from_utf16_lossy us.
Proof.
  intros Hc. unfold encode_utf16. case_bool; bool_to_prop; cbn [app from_utf16_lossy].
  - rewrite land_surrogate by (unfold scalar in Hc; lia).
    replace (c / 2048 * 2048 =? 0xD800) with false; [done|]. symmetry. apply Z.eqb_neq.
    intros Hd. assert (c / 2048 = 27) as Hq by lia.
    pose proof (Z.div_mod c 2048 ltac:(lia)). pose proof (Z.mod_pos_bound c 2048 ltac:(lia)).
    unfold scalar in Hc. lia.
  - unfold scalar in Hc. set (d := c - 0x10000).
    assert (0 <= d / 1024 < 1024) as Hq by (split; [apply Z.div_pos|apply Z.div_lt_upper_bound]; lia).
    pose proof (Z.mod_pos_bound d 1024 ltac:(lia)) as Hr.
    rewrite land_surrogate by lia.
    replace ((0xD800 + d / 1024) / 2048) with 27
      by (apply (Z.div_unique _ _ _ (d / 1024)); lia).
    replace (0xD800 + d / 1024 >=? 0xDC00) with false by lia.
    replace ((0xDC00 + d mod 1024 <? 0xDC00) || (0xDC00 + d mod 1024 >? 0xDFFF)) with false by lia.
    cbn [Z.mul Z.eqb negb]. change (negb (27 * 2048 =? 0xD800)) with false. cbv iota.
    change 0x3FF with (Z.ones 10). rewrite !Z.land_ones by lia. change (2 ^ 10) with 1024.
    replace ((0xD800 + d / 1024) mod 1024) with (d / 1024) by (apply (Z.mod_unique _ _ 54); lia).
    replace ((0xDC00 + d mod 1024) mod 1024) with (d mod 1024) by (apply (Z.mod_unique _ _ 55); lia).
    rewrite lor_shiftl by lia. change (2 ^ 10) with 1024.
    pose proof (Z.div_mod d 1024 ltac:(lia)).
    by replace (d / 1024 * 1024 + d mod 1024 + 65536) with c by lia.
Qed.

Lemma from_utf16_text s : Forall scalar s -> from_utf16_lossy (text_units s) = text_utf8 s.
Proof.
  unfold text_units, text_utf8. induction 1 as [|c s Hc _ IH]; [done|].
  cbn [fmap list_fmap concat]. by rewrite from_utf16_one, IH.
Qed.

Lemma text_units_ok s : Forall scalar s -> Forall u16_ok (text_units s).
Proof.
  unfold text_units. induction 1 as [|c s Hc _ IH]; [constructor|]. cbn [fmap list_fmap concat].
  apply Forall_app. split; [|done]. unfold encode_utf16, scalar in *. case_bool; bool_to_prop.
  - repeat constructor; lia.
  - pose proof (Z.mod_pos_bound (c - 0x10000) 1024 ltac:(lia)).
    assert (0 <= (c - 0x10000) / 1024 < 1024) by (split; [apply Z.div_pos|apply Z.div_lt_upper_bound]; lia).
    repeat constructor; unfold u16_ok; lia.
Qed.

(** ** Bytes of the pieces *)

Definition words_le (us : list Z) : bytes := concat (le_bytes 2 <$> us).
Definition dwords_le (us : list Z) : bytes := concat (le_bytes 4 <$> us).

Lemma units_words us : Forall u16_ok us -> units (words_le us) = us.
Proof.
  induction 1 as [|u us Hu _ IH]; [done|]. unfold words_le in *. cbn [fmap list_fmap concat].
  pose proof (le_val_u16 u Hu) as Hv. destruct (le_bytes 2 u) as [|a [|b [|]]] eqn:E.
  all: pose proof (zlen_le_bytes 2 u) as Hl; rewrite E in Hl; try (unfold zlen in Hl; simpl in Hl; lia).
  cbn [app units]. by rewrite Hv, IH.
Qed.

Lemma zlen_words us : zlen (words_le us) = 2 * zlen us.
Proof.
  unfold words_le. induction us as [|u us IH]; [done|]. cbn [fmap list_fmap concat].
  rewrite zlen_app, zlen_le_bytes, zlen_cons, IH. lia.
Qed.
Lemma zlen_dwords us : zlen (dwords_le us) = 4 * zlen us.
Proof.
  unfold dwords_le. induction us as [|u us IH]; [done|]. cbn [fmap list_fmap concat].
  rewrite zlen_app, zlen_le_bytes, zlen_cons, IH. lia.
Qed.
#[export] Hint Rewrite zlen_words zlen_dwords : adb_len.

(** One pool string: its length in code units, the units, a terminator. *)
Definition pool_string (s : list Z) : bytes :=
  le_bytes 2 (zlen (text_units s)) ++ words_le (text_units s) ++ [0; 0].

Definition text_ok (s : list Z) : Prop := Forall scalar s /\ zlen (text_units s) < 2 ^ 15.

Lemma read_pool_string s rest :
  text_ok s -> read_utf16_string (pool_string s ++ rest) = Ret (text_utf8 s).
Proof.
  intros [Hs Hl]. pose proof (zlen_nonneg (text_units s)).
  unfold read_utf16_string, pool_string. rewrite <- !(assoc_L (++)). decide_if.
  rewrite u16_at_val by len_lia. cbn [mbind run_bind]. rewrite slice_here by len_lia.
  rewrite le_val_u16 by (unfold u16_ok; lia). rewrite Z.min_l by len_lia.
  rewrite range_ok by len_lia. cbn [mbind run_bind].
  rewrite slice_skip by len_lia. rewrite slice_at by len_lia.
  by rewrite units_words, from_utf16_text by auto using text_units_ok.
Qed.

(** The offsets of the strings, and their bytes. *)
Fixpoint pool_offsets (o : Z) (ss : list (list Z)) : list Z :=
  match ss with
  | [] => []
  | s :: ss => o :: pool_offsets (o + zlen (pool_string s)) ss
  end.
Definition pool_data (ss : list (list Z)) : bytes := concat (pool_string <$> ss).

Lemma zlen_pool_offsets o ss : zlen (pool_offsets o ss) = zlen ss.
Proof. revert o. induction ss as [|s ss IH]; intros o; [done|]. cbn. by rewrite !zlen_cons, IH. Qed.
#[export] Hint Rewrite zlen_pool_offsets : adb_len.

Lemma slice_from {A} (d : list A) p n : slice d p n = slice (zdrop p d) 0 n.
Proof. done. Qed.

Lemma pool_strings_val chunk start ss i o x y :
  zlen chunk < 2 ^ 32 -> 0 <= i -> 0 <= o -> 0 <= start -> Forall text_ok ss ->
  28 + i * 4 <= zlen chunk -> start + o <= zlen chunk ->
  zdrop (28 + i * 4) chunk = dwords_le (pool_offsets o ss) ++ x ->
  zdrop (start + o) chunk = pool_data ss ++ y ->
  pool_strings chunk start false (length ss) i = Ret (text_utf8 <$> ss).
Proof.
  intros Hc. revert i o. induction ss as [|s ss IH]; intros i o Hi Ho Hst Hss Hi2 Ho2 Hoff Hdat; [done|].
  apply Forall_cons in Hss as [Hs Hss]. cbn [length pool_strings fmap list_fmap].
  change (dwords_le (pool_offsets o (s :: ss))) with (le_bytes 4 o ++ dwords_le (pool_offsets (o + zlen (pool_string s)) ss)) in Hoff.
  change (pool_data (s :: ss)) with (pool_string s ++ pool_data ss) in Hdat.
  rewrite <- (assoc_L (++)) in Hoff, Hdat.
  pose proof (zdrop_len chunk (28 + i * 4) _ _ ltac:(lia) Hoff) as HLo.
  pose proof (zdrop_len chunk (start + o) _ _ ltac:(lia) Hdat) as HLd.
  match type of HLo with _ = _ + _ + zlen ?r => pose proof (zlen_nonneg r) end.
  match type of HLd with _ = _ + _ + zlen ?r => pose proof (zlen_nonneg r) end.
  assert (4 <= zlen (pool_string s)) as Hp by (unfold pool_string; pose proof (zlen_nonneg (text_units s)); len_lia).
  rewrite zlen_le_bytes in HLo. decide_if.
  rewrite u32_at_val by lia. cbn [mbind run_bind].
  rewrite slice_from, Hoff.
  rewrite slice_here by len_lia. rewrite le_val_u32 by (unfold u32_ok; lia).
  rewrite uadd_ok by (unfold usize_max; lia). cbn [mbind run_bind].
  replace (start + o >=? zlen chunk) with false by lia.
  rewrite range_from_ok by lia. cbn [mbind run_bind]. rewrite Hdat, read_pool_string by done. cbn [mbind run_bind].
  rewrite (IH (i + 1) (o + zlen (pool_string s))); [done|lia..|done|lia|lia| |].
  - replace (28 + (i + 1) * 4) with (28 + i * 4 + 4) by lia. rewrite <- zdrop_zdrop, Hoff by lia.
    apply zdrop_app_exact, zlen_le_bytes.
  - rewrite Z.add_assoc, <- zdrop_zdrop, Hdat by lia. by apply zdrop_app_exact.
Qed.

(** ** Chunks *)

Definition chunk (kind header : Z) (body : bytes) : bytes :=
  le_bytes 2 kind ++ le_bytes 2 header ++ le_bytes 4 (8 + zlen body) ++ body.

Definition pool_chunk (ss : list (list Z)) : bytes :=
  chunk RES_STRING_POOL 28
    (le_bytes 4 (zlen ss) ++ le_bytes 4 0 ++ le_bytes 4 0 ++ le_bytes 4 (28 + 4 * zlen ss) ++ le_bytes 4 0
     ++ dwords_le (pool_offsets 0 ss) ++ pool_data ss).

Definition map_chunk (ids : list Z) : bytes := chunk RES_XML_RESOURCE_MAP 8 (dwords_le ids).

Record attr := mkAttr { a_ns : Z; a_name : Z; a_raw : Z; a_type : Z; a_data : Z }.
Record elem := mkElem { e_line : Z; e_ns : Z; e_name : Z; e_attrs : list attr }.

Definition attr_bytes (a : attr) : bytes :=
  le_bytes 4 (a_ns a) ++ le_bytes 4 (a_name a) ++ le_bytes 4 (a_raw a) ++ le_bytes 2 8 ++ [0]
  ++ le_bytes 1 (a_type a) ++ le_bytes 4 (a_data a).

Definition elem_chunk (e : elem) : bytes :=
  chunk RES_XML_START_ELEMENT 16
    (le_bytes 4 (e_line e) ++ le_bytes 4 0xFFFFFFFF ++ le_bytes 4 (e_ns e) ++ le_bytes 4 (e_name e)
     ++ le_bytes 2 20 ++ le_bytes 2 20 ++ le_bytes 2 (zlen (e_attrs e)) ++ [0; 0; 0; 0; 0; 0]
     ++ concat (attr_bytes <$> e_attrs e)).

Definition attr_ok (a : attr) : Prop := u32_ok (a_name a) /\ u32_ok (a_raw a) /\ u8_ok (a_type a) /\ u32_ok (a_data a).
Definition elem_ok (e : elem) : Prop := u32_ok (e_name e) /\ u16_ok (zlen (e_attrs e)) /\ Forall attr_ok (e_attrs e).

(** What an attribute is to the reader. *)
Definition resolve (ids : list Z) (a : attr) : Attribute :=
  mkAttribute (default 0 (zget ids (a_name a))) (a_name a) (a_raw a)
    (if (a_type a =? 0x10) || (a_type a =? 0x11) || (a_type a =? 0x04) then Some (a_data a) else None).

Lemma parse_pool_chunk ss :
  Forall text_ok ss -> zlen (pool_chunk ss) < 2 ^ 32 ->
  parse_string_pool (pool_chunk ss) = Ret (text_utf8 <$> ss).
Proof.
  intros Hss Hl. pose proof (zlen_nonneg ss). pose proof (zlen_nonneg (pool_data ss)).
  assert (zlen (pool_chunk ss) = 28 + 4 * zlen ss + zlen (pool_data ss)) as HL by (unfold pool_chunk, chunk; len_lia).
  unfold parse_string_pool. decide_if.
  rewrite !u32_at_val by lia. cbn [mbind run_bind].
  replace (slice (pool_chunk ss) 8 4) with (le_bytes 4 (zlen ss)) by (unfold pool_chunk, chunk; symmetry; field_at).
  replace (slice (pool_chunk ss) 16 4) with (le_bytes 4 0) by (unfold pool_chunk, chunk; symmetry; field_at).
  replace (slice (pool_chunk ss) 20 4) with (le_bytes 4 (28 + 4 * zlen ss)) by (unfold pool_chunk, chunk; symmetry; field_at).
  rewrite !le_val_u32 by (unfold u32_ok; lia). change (negb (Z.land 0 256 =? 0)) with false.
  rewrite Z.min_l by lia. replace (Z.to_nat (zlen ss)) with (length ss) by (unfold zlen; lia).
  apply (pool_strings_val _ _ _ 0 0 (pool_data ss) []); try done; try lia.
  unfold pool_chunk, chunk. rewrite app_nil_r, !(assoc_L (++)). apply zdrop_app_exact. len_lia.
Qed.

Lemma map_ids_val chunk ids i x :
  0 <= i <= zlen chunk -> Forall u32_ok ids -> zdrop i chunk = dwords_le ids ++ x ->
  map_ids chunk (length ids) i = Ret ids.
Proof.
  intros Hi Hids. revert i Hi. induction Hids as [|v ids Hv _ IH]; intros i Hi Hd; [done|].
  change (dwords_le (v :: ids)) with (le_bytes 4 v ++ dwords_le ids) in Hd. rewrite <- (assoc_L (++)) in Hd.
  pose proof (zdrop_len chunk i _ _ Hi Hd) as HL. rewrite zlen_le_bytes in HL.
  pose proof (zlen_nonneg (dwords_le ids ++ x)).
  cbn [length map_ids]. rewrite u32_at_val by lia. cbn [mbind run_bind].
  rewrite slice_from, Hd, slice_here, le_val_u32 by (done || lia).
  rewrite IH; [done|lia|]. rewrite <- zdrop_zdrop, Hd by lia. apply zdrop_app_exact, zlen_le_bytes.
Qed.

Lemma zlen_attr a : zlen (attr_bytes a) = 20.
Proof. unfold attr_bytes. len_lia. Qed.
#[export] Hint Rewrite zlen_attr : adb_len.

Lemma zlen_attrs l : zlen (concat (attr_bytes <$> l)) = 20 * zlen l.
Proof. induction l as [|a l IH]; [done|]. cbn [fmap list_fmap concat]. rewrite zlen_app, zlen_attr, zlen_cons, IH. lia. Qed.

Lemma parse_attributes_val chunk ids base attrs i x :
  0 <= base -> 0 <= i -> base + i * 20 <= zlen chunk -> Forall attr_ok attrs ->
  zdrop (base + i * 20) chunk = concat (attr_bytes <$> attrs) ++ x ->
  parse_attributes chunk ids base 20 (length attrs) i = Ret (resolve ids <$> attrs).
Proof.
  intros Hb Hi Hl Ha. revert i Hi Hl. induction Ha as [|a attrs (Hn & Hr & Ht & Hdt) _ IH]; intros i Hi Hl Hd; [done|].
  cbn [fmap list_fmap concat length parse_attributes] in *. rewrite <- (assoc_L (++)) in Hd.
  set (p := base + i * 20) in *. pose proof (zdrop_len chunk p _ _ ltac:(lia) Hd) as HL. rewrite zlen_attr in HL.
  set (r := concat _ ++ x) in *. pose proof (zlen_nonneg r). decide_if.
  rewrite !u32_at_val by lia. cbn [mbind run_bind]. rewrite !slice_in_rest, Hd by lia.
  assert (slice (attr_bytes a ++ r) 4 4 = le_bytes 4 (a_name a)) as -> by (unfold attr_bytes; field_at).
  assert (slice (attr_bytes a ++ r) 8 4 = le_bytes 4 (a_raw a)) as -> by (unfold attr_bytes; field_at).
  assert (slice (attr_bytes a ++ r) 16 4 = le_bytes 4 (a_data a)) as -> by (unfold attr_bytes; field_at).
  rewrite !le_val_u32 by done.
  assert (@index apk_error _ chunk (p + 15) = Ret (a_type a)) as ->.
  { unfold index. destruct (drop_to chunk p ltac:(lia)) as [Hsp Hpl].
    rewrite Hsp, zget_app_r, Hpl by lia. replace (p + 15 - p) with 15 by lia. rewrite Hd.
    unfold attr_bytes. rewrite <- !(assoc_L (++)). do 5 (rewrite zget_app_r by len_lia). autorewrite with adb_len.
    unfold u8_ok in Ht. change (2 ^ 8) with 256 in Ht. unfold le_bytes at 1. cbn [app]. by rewrite Z.mod_small. }
  cbn [mbind run_bind]. rewrite (IH (i + 1)); [done|lia|subst p; lia|].
  replace (base + (i + 1) * 20) with (p + 20) by (subst p; lia). rewrite <- zdrop_zdrop, Hd by lia.
  apply zdrop_app_exact, zlen_attr.
Qed.

Lemma parse_elem_chunk e ids :
  elem_ok e -> StartElement_parse (elem_chunk e) 16 ids
               = Ret (mkStartElement (Some (e_name e)) None (resolve ids <$> e_attrs e)).
Proof.
  intros (Hn & Hc & Ha). pose proof (zlen_nonneg (e_attrs e)).
  assert (zlen (elem_chunk e) = 36 + 20 * zlen (e_attrs e)) as HL
    by (unfold elem_chunk, chunk; autorewrite with adb_len; rewrite zlen_attrs; lia).
  unfold StartElement_parse. decide_if. rewrite u32_at_val, !u16_at_val by lia. cbn [mbind run_bind].
  replace (slice (elem_chunk e) (16 + 4) 4) with (le_bytes 4 (e_name e)) by (unfold elem_chunk, chunk; symmetry; field_at).
  replace (slice (elem_chunk e) (16 + 8) 2) with (le_bytes 2 20) by (unfold elem_chunk, chunk; symmetry; field_at).
  replace (slice (elem_chunk e) (16 + 10) 2) with (le_bytes 2 20) by (unfold elem_chunk, chunk; symmetry; field_at).
  replace (slice (elem_chunk e) (16 + 12) 2) with (le_bytes 2 (zlen (e_attrs e))) by (unfold elem_chunk, chunk; symmetry; field_at).
  rewrite le_val_u32, !le_val_u16 by (done || unfold u16_ok; lia). cbn [Z.ltb Z.compare Pos.compare Pos.compare_cont].
  replace (Z.to_nat (zlen (e_attrs e))) with (length (e_attrs e)) by (unfold zlen; lia).
  change (20 <? 20) with false. cbv iota.
  erewrite (parse_attributes_val _ _ (16 + 20) _ 0 []); [done|lia..|done|].
  unfold elem_chunk, chunk. rewrite app_nil_r, !(assoc_L (++)). apply zdrop_app_exact. len_lia.
Qed.

(** ** Documents *)

(** An element, or a chunk the reader passes over (ends of elements, name
    spaces, text). *)
Inductive node := Start (e : elem) | Other (kind header : Z) (body : bytes).

Definition node_bytes (n : node) : bytes :=
  match n with Start e => elem_chunk e | Other k h b => chunk k h b end.

Definition node_ok (n : node) : Prop :=
  match n with
  | Start e => elem_ok e
  | Other k h b =>
      u16_ok k /\ (k ∉ [RES_STRING_POOL; RES_XML_TYPE; RES_XML_START_ELEMENT; RES_XML_RESOURCE_MAP])
      /\ u16_ok h /\ h <= 8 + zlen b /\ Forall u8_ok b
  end.

Record doc := mkDoc { d_strings : list (list Z); d_ids : list Z; d_nodes : list node }.

Definition doc_body (d : doc) : bytes :=
  pool_chunk (d_strings d) ++ map_chunk (d_ids d) ++ concat (node_bytes <$> d_nodes d).
Definition doc_bytes (d : doc) : bytes := chunk RES_XML_TYPE 8 (doc_body d).

Definition doc_ok (d : doc) : Prop :=
  Forall text_ok (d_strings d) /\ Forall u32_ok (d_ids d) /\ Forall node_ok (d_nodes d)
  /\ zlen (doc_bytes d) < 2 ^ 32.

(** What a document means to the reader. *)
Definition node_meaning (strings : list bytes) (ids : list Z) (m : AxmlManifest) (n : node) : AxmlManifest :=
  match n with
  | Start e => on_element strings (mkStartElement (Some (e_name e)) None (resolve ids <$> e_attrs e)) m
  | Other _ _ _ => m
  end.
Definition doc_meaning (d : doc) : AxmlManifest :=
  fold_left (node_meaning (text_utf8 <$> d_strings d) (d_ids d)) (d_nodes d) manifest_default.

(** The bytes are bytes. *)
Lemma concat_u8 {A} (f : A -> bytes) l : (forall x, x ∈ l -> Forall u8_ok (f x)) -> Forall u8_ok (concat (f <$> l)).
Proof.
  induction l as [|x l IH]; intros H; [constructor|]. cbn [fmap list_fmap concat].
  apply Forall_app. split; [apply H; left|apply IH; intros; apply H; by right].
Qed.

Ltac bytes_u8 :=
  repeat first [ apply Forall_app; split | apply le_bytes_u8 | apply concat_u8; intros
               | done | (repeat constructor; unfold u8_ok; lia) ].

Lemma node_u8 n : node_ok n -> Forall u8_ok (node_bytes n).
Proof.
  destruct n as [e|k h b]; simpl; [intros _|intros (_ & _ & _ & _ & Hb)]; unfold elem_chunk, chunk, attr_bytes; bytes_u8.
Qed.

Lemma doc_u8 d : doc_ok d -> Forall u8_ok (doc_bytes d).
Proof.
  intros (_ & _ & Hn & _). unfold doc_bytes, doc_body, pool_chunk, map_chunk, pool_data, chunk, dwords_le, pool_string, words_le.
  rewrite Forall_forall in Hn. bytes_u8. by apply node_u8, Hn.
Qed.

(** ** Walking a document *)

Lemma zlen_chunk k h b : zlen (chunk k h b) = 8 + zlen b.
Proof. unfold chunk. len_lia. Qed.

Section Walk.
Context (data : bytes) (Hb : Forall u8_ok data) (Hlen : zlen data < 2 ^ 32).

Lemma head_of p kind header body rest :
  0 <= p <= zlen data -> zdrop p data = chunk kind header body ++ rest -> u16_ok kind -> u16_ok header ->
  header <= 8 + zlen body ->
  head_at data p = mkHead kind header (8 + zlen body)
  /\ next data p = Some (if kind =? RES_XML_TYPE then p + header else p + (8 + zlen body))
  /\ slice data p (8 + zlen body) = chunk kind header body.
Proof using Hlen.
  intros Hp Hd Hk Hh Hle. pose proof (zdrop_len data p _ _ Hp Hd) as HL. rewrite zlen_chunk in HL.
  pose proof (zlen_nonneg body). pose proof (zlen_nonneg rest). unfold u16_ok in Hh.
  assert (head_at data p = mkHead kind header (8 + zlen body)) as Hhd.
  { unfold head_at. rewrite (slice_from data p 2), !slice_in_rest, Hd by lia. unfold chunk.
    rewrite <- !(assoc_L (++)), slice_here by len_lia.
    replace (slice _ 2 2) with (le_bytes 2 header) by (symmetry; field_at).
    replace (slice _ 4 4) with (le_bytes 4 (8 + zlen body)) by (symmetry; field_at).
    by rewrite !le_val_u16, le_val_u32 by (done || unfold u32_ok; lia). }
  split_and!; [done| |].
  - unfold next. rewrite Hhd. cbn [k_kind k_header k_size].
    replace (p + 8 <=? zlen data) with true by lia. cbn [negb].
    replace ((8 + zlen body <? header) || (8 + zlen body =? 0) || (p + (8 + zlen body) >? zlen data)) with false by lia.
    done.
  - rewrite slice_from, Hd. apply slice_here, zlen_chunk.
Qed.

Lemma loop_chunk fuel st st' p kind header body rest :
  0 <= p <= zlen data -> zdrop p data = chunk kind header body ++ rest -> u16_ok kind -> u16_ok header ->
  header <= 8 + zlen body -> kind <> RES_XML_TYPE ->
  on_chunk kind header (8 + zlen body) (chunk kind header body) st = Ret st' ->
  parse_loop (S fuel) data st p = parse_loop fuel data st' (p + zlen (chunk kind header body)).
Proof using Hb Hlen.
  intros Hp Hd Hk Hh Hle Hne Hon. destruct (head_of p kind header body rest Hp Hd Hk Hh Hle) as (H1 & H2 & H3).
  cbn [parse_loop]. rewrite parse_step_val by (done || lia). rewrite H1, H2. cbn [k_kind k_header k_size].
  replace (kind =? RES_XML_TYPE) with false by lia. rewrite H3, Hon. cbn [mbind run_bind]. by rewrite zlen_chunk.
Qed.

Lemma loop_wrapper fuel st p header body rest :
  0 <= p <= zlen data -> zdrop p data = chunk RES_XML_TYPE header body ++ rest -> u16_ok header ->
  header <= 8 + zlen body -> parse_loop (S fuel) data st p = parse_loop fuel data st (p + header).
Proof using Hb Hlen.
  intros Hp Hd Hh Hle. destruct (head_of p RES_XML_TYPE header body rest Hp Hd ltac:(done) Hh Hle) as (H1 & H2 & _).
  cbn [parse_loop]. rewrite parse_step_val by (done || lia). by rewrite H1, H2.
Qed.

Lemma loop_pool ss fuel m strings ids p rest :
  0 <= p <= zlen data -> Forall text_ok ss -> zdrop p data = pool_chunk ss ++ rest ->
  parse_loop (S fuel) data (mkP m strings ids) p
  = parse_loop fuel data (mkP m (text_utf8 <$> ss) ids) (p + zlen (pool_chunk ss)).
Proof using Hb Hlen.
  intros Hp Hss Hd. pose proof (zdrop_len data p _ _ Hp Hd) as HL. pose proof (zlen_nonneg rest).
  pose proof (parse_pool_chunk ss Hss ltac:(lia)) as Hparse. unfold pool_chunk in *.
  set (pb := le_bytes 4 (zlen ss) ++ _) in *. assert (20 <= zlen pb) by (subst pb; len_lia).
  apply (loop_chunk _ _ _ p _ _ _ rest); try done; try lia.
  unfold on_chunk. change (RES_STRING_POOL =? RES_STRING_POOL) with true. cbv iota. by rewrite Hparse.
Qed.

Lemma loop_map new fuel m strings ids p rest :
  0 <= p <= zlen data -> Forall u32_ok new -> zdrop p data = map_chunk new ++ rest ->
  parse_loop (S fuel) data (mkP m strings ids) p
  = parse_loop fuel data (mkP m strings (ids ++ new)) (p + zlen (map_chunk new)).
Proof using Hb Hlen.
  intros Hp Hids Hd. pose proof (zlen_nonneg new).
  assert (map_ids (map_chunk new) (length new) 8 = Ret new) as Hparse.
  { apply (map_ids_val _ _ 8 []); [unfold map_chunk; rewrite zlen_chunk, zlen_dwords; lia|done|].
    rewrite app_nil_r. unfold map_chunk, chunk. rewrite !(assoc_L (++)). apply zdrop_app_exact. len_lia. }
  unfold map_chunk in *. apply (loop_chunk _ _ _ p _ _ _ rest); try done; [rewrite zlen_dwords; lia|].
  unfold on_chunk. change (RES_XML_RESOURCE_MAP =? RES_STRING_POOL) with false.
  change (RES_XML_RESOURCE_MAP =? RES_XML_RESOURCE_MAP) with true. cbv iota. rewrite zlen_dwords.
  replace (8 + 4 * zlen new - 8 + 3) with (3 + zlen new * 4) by lia.
  rewrite Z.div_add by lia. replace (Z.to_nat (3 / 4 + zlen new)) with (length new) by (change (3 / 4) with 0; unfold zlen; lia).
  by rewrite Hparse.
Qed.

Lemma loop_nodes ns fuel m strings ids p :
  0 <= p <= zlen data -> Forall node_ok ns -> zdrop p data = concat (node_bytes <$> ns) ->
  parse_loop (S (length ns + fuel)) data (mkP m strings ids) p
  = Some (Ret (mkP (fold_left (node_meaning strings ids) ns m) strings ids)).
Proof using Hb Hlen.
  intros Hp Hns. revert m p Hp. induction Hns as [|n ns Hn _ IH]; intros m p Hp Hd.
  - cbn [length fold_left Nat.add parse_loop]. rewrite parse_step_val by (done || lia).
    assert (p = zlen data) as -> by (apply (f_equal zlen) in Hd; rewrite zlen_zdrop in Hd; simpl in Hd; unfold zlen in *; simpl in *; lia).
    unfold next. by replace (zlen data + 8 <=? zlen data) with false by lia.
  - cbn [fmap list_fmap concat] in Hd. pose proof (zdrop_len data p _ _ Hp Hd) as HL.
    pose proof (zlen_nonneg (concat (node_bytes <$> ns))).
    cbn [length fold_left Nat.add].
    assert (parse_loop (S (S (length ns + fuel))) data (mkP m strings ids) p
            = parse_loop (S (length ns + fuel)) data (mkP (node_meaning strings ids m n) strings ids) (p + zlen (node_bytes n))) as ->.
    { destruct n as [e|k h b]; cbn [node_bytes node_meaning] in *.
      - assert (Hw := Hn). destruct Hn as (_ & _ & _).
        unfold elem_chunk in Hd. set (body := le_bytes 4 (e_line e) ++ _) in Hd.
        unfold elem_chunk at 1. fold body.
        assert (8 <= zlen body) by (subst body; len_lia).
        apply (loop_chunk _ _ _ p RES_XML_START_ELEMENT 16 body (concat (node_bytes <$> ns))); try done; try lia.
        unfold on_chunk. change (RES_XML_START_ELEMENT =? RES_STRING_POOL) with false.
        change (RES_XML_START_ELEMENT =? RES_XML_RESOURCE_MAP) with false.
        change (RES_XML_START_ELEMENT =? RES_XML_START_ELEMENT) with true. cbv iota.
        change (chunk RES_XML_START_ELEMENT 16 body) with (elem_chunk e). by rewrite parse_elem_chunk.
      - destruct Hn as (Hk & Hnk & Hh & Hle & _).
        repeat (apply not_elem_of_cons in Hnk as [? Hnk]).
        apply (loop_chunk _ _ _ p k h b (concat (node_bytes <$> ns))); try done.
        unfold on_chunk. by repeat (case_bool; bool_to_prop; [congruence|]). }
    pose proof (zlen_nonneg (node_bytes n)). apply IH; [lia|].
    rewrite <- zdrop_zdrop, Hd by lia. by apply zdrop_app_exact.
Qed.
End Walk.

Lemma parse_doc d fuel :
  doc_ok d ->
  parse (4 + (length (d_nodes d) + fuel)) (doc_bytes d)
  = Some (parse_end (Ret (mkP (doc_meaning d) (text_utf8 <$> d_strings d) (d_ids d)))).
Proof.
  intros Hok. pose proof (doc_u8 d Hok) as Hb. destruct Hok as (Hs & Hids & Hn & Hlen).
  assert (zdrop 8 (doc_bytes d) = doc_body d) as H8
    by (unfold doc_bytes, chunk; rewrite !(assoc_L (++)); apply zdrop_app_exact; len_lia).
  assert (zlen (doc_bytes d) = 8 + zlen (doc_body d)) as HL by apply zlen_chunk.
  assert (zdrop 0 (doc_bytes d) = chunk RES_XML_TYPE 8 (doc_body d) ++ []) as H0 by (by rewrite app_nil_r).
  set (data := doc_bytes d) in *. pose proof (zlen_nonneg (doc_body d)) as Hb0. clearbody data.
  set (ps := pool_chunk (d_strings d)) in *. set (ms := map_chunk (d_ids d)) in *.
  assert (zlen (doc_body d) = zlen ps + zlen ms + zlen (concat (node_bytes <$> d_nodes d))) as HLb
    by (unfold doc_body; rewrite !zlen_app; fold ps ms; lia).
  pose proof (zlen_nonneg (concat (node_bytes <$> d_nodes d))). pose proof (zlen_nonneg ps). pose proof (zlen_nonneg ms).
  assert (zdrop (8 + zlen ps) data = ms ++ concat (node_bytes <$> d_nodes d)) as Hm
    by (rewrite <- zdrop_zdrop, H8 by lia; by apply zdrop_app_exact).
  assert (zdrop (8 + zlen ps + zlen ms) data = concat (node_bytes <$> d_nodes d)) as Hc
    by (rewrite <- zdrop_zdrop, Hm by lia; by apply zdrop_app_exact).
  unfold parse. change (4 + (length (d_nodes d) + fuel))%nat with (S (S (S (S (length (d_nodes d) + fuel))))).
  rewrite (loop_wrapper data Hb Hlen _ _ 0 8 (doc_body d) []) by (done || lia).
  rewrite (loop_pool data Hb Hlen (d_strings d) _ _ _ _ (0 + 8) (ms ++ concat (node_bytes <$> d_nodes d))) by (done || lia).
  rewrite (loop_map data Hb Hlen (d_ids d) _ _ _ _ _ (concat (node_bytes <$> d_nodes d))); [|fold ps; lia|done|done].
  rewrite (loop_nodes data Hb Hlen); [done|fold ps ms; lia|done|done].
Qed.

(** ** Compiling a manifest *)

Record application := mkApp {
  p_package : list Z; p_version_name : option (list Z); p_version_code : option Z;
  p_min_sdk : option Z; p_target_sdk : option Z; p_label : option (list Z);
  p_permissions : list (list Z) }.

Definition NAMES : list (list Z) :=
  [bs "versionCode"; bs "versionName"; bs "minSdkVersion"; bs "targetSdkVersion"; bs "label"; bs "name";
   bs "package"; bs "manifest"; bs "uses-sdk"; bs "uses-permission"; bs "application"].
Definition IDS : list Z :=
  [ATTR_VERSION_CODE; ATTR_VERSION_NAME; ATTR_MIN_SDK; ATTR_TARGET_SDK; ATTR_LABEL; ATTR_PERMISSION_NAME].

Definition int_attr (nm v : Z) : attr := mkAttr 0 nm 0xFFFFFFFF 0x10 v.
Definition str_attr (nm i : Z) : attr := mkAttr 0 nm i 0x03 i.
Definition opt {A B} (f : A -> B) (o : option A) : list B := match o with Some x => [f x] | None => [] end.

Definition pool_of (a : application) : list (list Z) :=
  NAMES ++ [p_package a; default [] (p_version_name a); default [] (p_label a)] ++ p_permissions a.

Definition end_element : node := Other 0x103 16 (replicate 16 0).

Definition permission_nodes (first : Z) (n : nat) : list node :=
  concat ((fun i => [Start (mkElem 5 0 9 [str_attr 5 (first + Z.of_nat i)]); end_element]) <$> seq 0 n).

Definition compile (a : application) : doc :=
  mkDoc (pool_of a) IDS
    ([Other 0x100 16 (replicate 16 0);
      Start (mkElem 1 0 7 (opt (int_attr 0) (p_version_code a) ++ opt (fun _ => str_attr 1 12) (p_version_name a)
                           ++ [str_attr 6 11]));
      Start (mkElem 2 0 8 (opt (int_attr 2) (p_min_sdk a) ++ opt (int_attr 3) (p_target_sdk a))); end_element]
     ++ permission_nodes 14 (length (p_permissions a))
     ++ [Start (mkElem 9 0 10 (opt (fun _ => str_attr 4 13) (p_label a))); end_element; end_element;
         Other 0x101 16 (replicate 16 0)]).

(** What the card should show. *)
Definition app_manifest (a : application) : AxmlManifest :=
  mkManifest (text_utf8 (p_package a)) (text_utf8 <$> p_version_name a) (p_version_code a)
    (p_min_sdk a) (p_target_sdk a) (text_utf8 <$> p_label a) (text_utf8 <$> p_permissions a).

Definition u32_opt (o : option Z) : Prop := match o with Some v => u32_ok v | None => True end.

Definition app_ok (a : application) : Prop :=
  Forall text_ok (pool_of a) /\ u32_opt (p_version_code a) /\ u32_opt (p_min_sdk a) /\ u32_opt (p_target_sdk a)
  /\ (text_utf8 (p_package a) <> [] \/ p_version_code a <> None)
  /\ (forall l, p_label a = Some l -> text_utf8 l <> [])
  /\ NoDup (text_utf8 <$> p_permissions a) /\ Forall (fun p => text_utf8 p <> []) (p_permissions a)
  /\ zlen (p_permissions a) < 2 ^ 16 /\ zlen (doc_bytes (compile a)) < 2 ^ 32.

Lemma names_utf8 : text_utf8 <$> NAMES = NAMES.
Proof. by vm_compute. Qed.

Section Meaning.
Context (pkg vn lb : bytes) (perms : list bytes).
Let S := NAMES ++ [pkg; vn; lb] ++ perms.

Lemma manifest_meaning vc (has_vn : option (list Z)) m :
  permissions m = [] ->
  node_meaning S IDS m (Start (mkElem 1 0 7 (opt (int_attr 0) vc ++ opt (fun _ => str_attr 1 12) has_vn ++ [str_attr 6 11])))
  = mkManifest pkg (match has_vn with Some _ => Some vn | None => version_name m end)
      (match vc with Some v => Some v | None => version_code m end) (min_sdk m) (target_sdk m) (label m) [].
Proof. destruct m as [???????]. intros [= ->]. by destruct vc, has_vn. Qed.

Lemma sdk_meaning mi ta m :
  node_meaning S IDS m (Start (mkElem 2 0 8 (opt (int_attr 2) mi ++ opt (int_attr 3) ta)))
  = mkManifest (package m) (version_name m) (version_code m)
      (match mi with Some v => Some v | None => min_sdk m end) (match ta with Some v => Some v | None => target_sdk m end)
      (label m) (permissions m).
Proof. destruct m as [???????]. by destruct mi, ta. Qed.

Lemma label_meaning (has : option (list Z)) m :
  lb <> [] \/ has = None ->
  node_meaning S IDS m (Start (mkElem 9 0 10 (opt (fun _ => str_attr 4 13) has)))
  = mkManifest (package m) (version_name m) (version_code m) (min_sdk m) (target_sdk m)
      (match has with Some _ => Some lb | None => label m end) (permissions m).
Proof.
  destruct m as [???????]. intros Hl. destruct has as [x|]; [|done]. destruct Hl as [Hl|]; [|done].
  destruct lb as [|b l]; [done|]. reflexivity.
Qed.
End Meaning.

Definition with_permissions (ps : list bytes) (m : AxmlManifest) : AxmlManifest :=
  mkManifest (package m) (version_name m) (version_code m) (min_sdk m) (target_sdk m) (label m) ps.

Lemma zget_nat {A} (l : list A) (i : nat) : zget l (Z.of_nat i) = l !! i.
Proof. unfold zget. decide_if. by rewrite Nat2Z.id. Qed.

Lemma permission_meaning pkg vn lb ps q rest m (S := NAMES ++ [pkg; vn; lb] ++ ps ++ q :: rest) :
  q ∉ ps -> q <> [] -> permissions m = ps ->
  fold_left (node_meaning S IDS)
    [Start (mkElem 5 0 9 [str_attr 5 (14 + Z.of_nat (length ps))]); end_element] m
  = with_permissions (ps ++ [q]) m.
Proof.
  intros Hq Hne Hps.
  assert (zget S (14 + Z.of_nat (length ps)) = Some q) as Hget.
  { subst S. rewrite zget_app_r by (unfold zlen; simpl; lia). rewrite zget_app_r by (unfold zlen; simpl; lia).
    replace (14 + Z.of_nat (length ps) - zlen NAMES - zlen [pkg; vn; lb]) with (Z.of_nat (length ps)) by (unfold zlen; simpl; lia).
    rewrite zget_nat. by apply list_lookup_middle. }
  transitivity (permission_attr S m (resolve IDS (str_attr 5 (14 + Z.of_nat (length ps))))); [reflexivity|].
  assert (string_value S (resolve IDS (str_attr 5 (14 + Z.of_nat (length ps)))) = q) as Hv
    by (unfold string_value; cbn [resolve str_attr string_index a_raw]; by rewrite Hget).
  unfold permission_attr. rewrite Hv. clear Hv Hget. cbn [id resolve str_attr a_name].
  change (default 0 (zget IDS 5) =? ATTR_PERMISSION_NAME) with true. cbv iota.
  rewrite Hps, bool_decide_true, bool_decide_false by done. done.
Qed.

Lemma permissions_meaning pkg vn lb ps qs m (S := NAMES ++ [pkg; vn; lb] ++ ps ++ qs) :
  NoDup (ps ++ qs) -> Forall (fun q => q <> []) qs -> permissions m = ps ->
  fold_left (node_meaning S IDS)
    (concat ((fun i => [Start (mkElem 5 0 9 [str_attr 5 (14 + Z.of_nat i)]); end_element]) <$> seq (length ps) (length qs))) m
  = with_permissions (ps ++ qs) m.
Proof.
  intros Hnd Hne. revert ps m S Hnd. induction Hne as [|q qs Hq _ IH]; intros ps m S Hnd Hps.
  - rewrite app_nil_r. destruct m as [???????]. cbn in Hps. by subst.
  - cbn [length seq fmap list_fmap concat]. rewrite fold_left_app. subst S.
    rewrite permission_meaning; [|by apply NoDup_app in Hnd as (_ & Hd & _); intros Hin; apply (Hd q Hin); left|done|done].
    specialize (IH (ps ++ [q]) (with_permissions (ps ++ [q]) m)).
    rewrite length_app, Nat.add_1_r, <- (assoc_L (++) ps) in IH. exact (IH Hnd eq_refl).
Qed.

Lemma other_meaning strings ids m k h b : node_meaning strings ids m (Other k h b) = m.
Proof. done. Qed.

Lemma compile_meaning a : app_ok a -> doc_meaning (compile a) = app_manifest a.
Proof.
  intros (_ & _ & _ & _ & _ & Hlabel & Hnd & Hperm & _). unfold doc_meaning, compile. cbn [d_strings d_ids d_nodes].
  unfold pool_of. rewrite !fmap_app, names_utf8. cbn [fmap list_fmap].
  set (ps := text_utf8 <$> p_permissions a) in *. set (lb := text_utf8 (default [] (p_label a))).
  rewrite !fold_left_app. cbn [fold_left]. unfold permission_nodes, end_element. rewrite !other_meaning.
  rewrite manifest_meaning, sdk_meaning by done. cbn [package version_name version_code min_sdk target_sdk label permissions manifest_default].
  assert (length (p_permissions a) = length ps) as -> by (subst ps; by rewrite length_fmap).
  rewrite (permissions_meaning _ _ _ [] ps); [|done| |done].
  2:{ subst ps. apply Forall_fmap. exact Hperm. }
  rewrite label_meaning.
  2:{ subst lb. destruct (p_label a) as [l|]; [left; by apply Hlabel|by right]. }
  unfold app_manifest. subst lb. cbn. f_equal; by repeat case_match.
Qed.

Lemma int_attr_ok nm o : u32_ok nm -> u32_opt o -> Forall attr_ok (opt (int_attr nm) o).
Proof. intros ??. destruct o as [v|]; [|constructor]. apply Forall_cons_2; [|constructor].
  refine (conj _ (conj _ (conj _ _))); done.
Qed.

Lemma str_attr_ok nm i : u32_ok nm -> u32_ok i -> attr_ok (str_attr nm i).
Proof. intros ??. refine (conj _ (conj _ (conj _ _))); done. Qed.

Lemma compile_nodes_ok a : app_ok a -> Forall node_ok (d_nodes (compile a)).
Proof.
  intros (_ & Hvc & Hmi & Hta & _ & _ & _ & _ & Hn & _).
  assert (forall k, k ∉ [RES_STRING_POOL; RES_XML_TYPE; RES_XML_START_ELEMENT; RES_XML_RESOURCE_MAP] -> u16_ok k ->
          node_ok (Other k 16 (replicate 16 0))) as Hother.
  { intros k Hk Hu. repeat split; try done; try apply Hu. by apply Forall_replicate. }
  assert (forall k, k = 0x100 \/ k = 0x101 \/ k = 0x103 -> node_ok (Other k 16 (replicate 16 0))) as Hend.
  { intros k Hk. apply Hother; [|unfold u16_ok; lia]. rewrite !not_elem_of_cons.
    unfold RES_STRING_POOL, RES_XML_TYPE, RES_XML_START_ELEMENT, RES_XML_RESOURCE_MAP. split_and!; [lia..|apply not_elem_of_nil]. }
  cbn [compile d_nodes]. unfold end_element, permission_nodes.
  repeat apply Forall_app_2.
  - repeat apply Forall_cons_2; [apply Hend; lia| | |apply Hend; lia|constructor].
    + split; [done|]. cbn [e_attrs e_name]. split; [destruct (p_version_code a), (p_version_name a); done|].
      repeat apply Forall_app_2; [by apply int_attr_ok|destruct (p_version_name a); constructor; by try constructor|].
      by repeat constructor.
    + split; [done|]. cbn [e_attrs e_name]. split; [destruct (p_min_sdk a), (p_target_sdk a); done|].
      apply Forall_app_2; by apply int_attr_ok.
  - apply Forall_concat, Forall_fmap, Forall_seq. intros j Hj. unfold zlen in Hn. cbn [compose].
    repeat constructor; cbn; try lia; try done. all: try apply Hend; try lia.
  - repeat apply Forall_cons_2; [|apply Hend; lia..|constructor].
    split; [done|]. cbn [e_attrs e_name]. split; [by destruct (p_label a)|].
    destruct (p_label a); repeat constructor; done.
Qed.

Lemma compile_doc_ok a : app_ok a -> doc_ok (compile a).
Proof.
  intros Hok. pose proof (compile_nodes_ok a Hok). destruct Hok as (Hpool & _ & _ & _ & _ & _ & _ & _ & _ & Hlen).
  split_and!; [done| |done|done]. cbn. repeat constructor; done.
Qed.

Lemma parse_compiled a fuel :
  app_ok a -> parse (4 + (length (d_nodes (compile a)) + fuel)) (doc_bytes (compile a)) = Some (Ret (app_manifest a)).
Proof.
  intros Hok. rewrite parse_doc, compile_meaning by auto using compile_doc_ok.
  destruct Hok as (_ & _ & _ & _ & Hp & _). unfold parse_end. cbn [mbind run_bind p_manifest app_manifest package version_code].
  destruct (bool_decide (text_utf8 (p_package a) = [])) eqn:E1; [|done].
  destruct (bool_decide (p_version_code a = None)) eqn:E2; [|done]. bool_to_prop. by destruct Hp.
Qed.

(** ** The card of a written archive *)

Lemma list_find_entry inflate data nm es ms m :
  Forall2 (fun e m => name e = m_name m /\ extract inflate e data = unpack inflate m) es ms ->
  m ∈ ms -> m_name m = nm -> NoDup (m_name <$> ms) ->
  exists e, snd <$> list_find (fun e => name e = nm) es = Some e /\ extract inflate e data = unpack inflate m.
Proof.
  intros HF. induction HF as [|e m' es ms [Hn He] HF IH]; intros Hm Hnm Hnd; [by apply elem_of_nil in Hm|].
  cbn [fmap list_fmap] in Hnd. apply NoDup_cons in Hnd as [Hni Hnd]. cbn [list_find].
  apply elem_of_cons in Hm as [->|Hm].
  - rewrite decide_True by congruence. by exists e.
  - rewrite decide_False.
    + destruct (IH Hm Hnm Hnd) as (e' & Hf & He'). exists e'. split; [|done].
      destruct (list_find _ es) as [[i x]|]; [|done]. done.
    + intros Heq. apply Hni. rewrite <- Hn, Heq, <- Hnm. by apply list_elem_of_fmap_2.
Qed.

Lemma abis_of es ms seen :
  Forall2 (fun e m => name e = m_name m) es ms ->
  forall abi, abi ∈ fold_left (fun seen e => match abi_of (name e) with Some abi => set_insert abi seen | None => seen end) es seen
  <-> abi ∈ omap (fun m => abi_of (m_name m)) ms \/ abi ∈ seen.
Proof.
  intros HF abi. revert seen. induction HF as [|e m es ms Hn _ IH]; intros seen; cbn [fold_left omap list_omap].
  - rewrite elem_of_nil. naive_solver.
  - rewrite IH, Hn. destruct (abi_of (m_name m)) as [x|]; [|done].
    rewrite elem_of_set_insert, elem_of_cons. naive_solver.
Qed.

(** Strictly ascending in the order of the bytes, so without repetition. *)
Definition ascending : list bytes -> Prop := StronglySorted (fun a b => bytes_cmp a b = Lt).

Lemma bytes_cmp_swap a b : bytes_cmp a b = Gt -> bytes_cmp b a = Lt.
Proof.
  revert b. induction a as [|x a IH]; intros [|y b]; cbn [bytes_cmp]; try done.
  rewrite (Z.compare_antisym x y). destruct (x ?= y); cbn [CompOpp]; auto.
Qed.
Lemma bytes_cmp_trans a b c : bytes_cmp a b = Lt -> bytes_cmp b c = Lt -> bytes_cmp a c = Lt.
Proof.
  revert b c. induction a as [|x a IH]; intros [|y b] [|z c]; cbn [bytes_cmp]; try done.
  destruct (Z.compare_spec x y) as [->|Hxy|Hxy], (Z.compare_spec y z) as [->|Hyz|Hyz]; try done; eauto; intros _ _;
    rewrite (proj2 (Z.compare_lt_iff _ _)) by lia; done.
Qed.

Lemma set_insert_ascending x s : ascending s -> ascending (set_insert x s).
Proof.
  induction 1 as [|y s Hs IH Hy]; cbn [set_insert]; [by repeat constructor|].
  destruct (bytes_cmp x y) eqn:E; [by constructor| |].
  - constructor; [by constructor|]. constructor; [done|]. eapply Forall_impl; [exact Hy|]. intros z. by apply bytes_cmp_trans.
  - constructor; [done|]. apply Forall_forall. intros z [->|Hz]%elem_of_set_insert; [by apply bytes_cmp_swap|].
    by eapply Forall_forall in Hy.
Qed.

Lemma abis_ascending es seen :
  ascending seen ->
  ascending (fold_left (fun seen e => match abi_of (name e) with Some abi => set_insert abi seen | None => seen end) es seen).
Proof.
  revert seen. induction es as [|e es IH]; intros seen Hs; cbn [fold_left]; [done|]. apply IH.
  destruct (abi_of (name e)); [by apply set_insert_ascending|done].
Qed.

(** C36: the install card of an APK shows what was compiled into its manifest:
    for every archive, in any layout the format allows, that holds the compiled
    manifest of an application under the manifest's name, stored or deflated,
    [apk_info] returns its package, versions, SDK bounds, label and permissions,
    within a number of rounds the manifest fixes, and the native architectures of
    the archive, each once and in ascending order. The compiled manifest has its
    strings as UTF-16 (a pool in UTF-8 is misread, [utf8_pool_misread]). *)
Theorem apk_card inflate a ms gap comment m size fuel :
  app_ok a -> text_utf8 (p_package a) <> [] ->
  zip_ok ms gap comment -> NoDup (m_name <$> ms) -> m ∈ ms -> m_name m = MANIFEST_NAME ->
  unpack inflate m = Ret (doc_bytes (compile a)) ->
  (4 + length (d_nodes (compile a)) <= fuel)%nat ->
  exists abis,
    apk_info fuel inflate size (Some (zip ms gap comment))
    = Some (Ret (mkApkInfo (text_utf8 (p_package a)) (text_utf8 <$> p_version_name a) (p_version_code a)
                   (p_min_sdk a) (p_target_sdk a) (text_utf8 <$> p_label a) (text_utf8 <$> p_permissions a) size abis))
    /\ ascending abis
    /\ forall abi, abi ∈ abis <-> abi ∈ omap (fun m => abi_of (m_name m)) ms.
Proof.
  intros Ha Hpkg Hz Hnd Hm Hnm Hu Hf. destruct (zip_entries inflate ms gap comment Hz) as (es & Hes & HF).
  destruct (list_find_entry _ _ _ _ _ m HF Hm Hnm Hnd) as (e & Hfind & Hex). rewrite Hu in Hex.
  destruct (list_find _ es) as [[i e']|] eqn:Hl; [|done]. injection Hfind as ->.
  exists (fold_left (fun seen e => match abi_of (name e) with Some abi => set_insert abi seen | None => seen end) es []). split_and!.
  - unfold apk_info, manifest_from, member_from. rewrite Hes. cbn [mbind run_bind]. rewrite Hl. cbn [or_bail mbind run_bind snd].
    rewrite Hex. replace fuel with (4 + (length (d_nodes (compile a)) + (fuel - 4 - length (d_nodes (compile a)))))%nat by lia.
    rewrite parse_compiled by done. cbn [fmap option_fmap option_map mbind run_bind].
    unfold native_abis_in. rewrite Hes. cbn [mbind run_bind app_manifest package].
    by rewrite bool_decide_false.
  - apply abis_ascending. constructor.
  - intros abi. rewrite (abis_of es ms []); [rewrite elem_of_nil; naive_solver|].
    eapply Forall2_impl; [exact HF|]. by intros ?? [? _].
Qed.

(** ** A witness *)

Definition demo_app : application :=
  mkApp (bs "org.example.app") (Some (bs "1.2")) (Some 7) (Some 21) None (Some [0x1F4F1; 0x48; 0x69])
    [bs "android.permission.INTERNET"; bs "android.permission.CAMERA"].

Lemma bool_scalar s : forallb (fun c => in_range 0 0xD7FF c || in_range 0xE000 0x10FFFF c) s = true -> Forall scalar s.
Proof.
  intros H. apply Forall_forall. intros c Hc. rewrite forallb_forall in H. apply list_elem_of_In, H in Hc.
  unfold in_range, scalar in *. lia.
Qed.

Lemma demo_app_ok : app_ok demo_app.
Proof.
  refine (conj _ (conj _ (conj _ (conj _ (conj _ (conj _ (conj _ (conj _ (conj _ _))))))))); try done.
  - repeat apply Forall_cons_2; try constructor; (apply bool_scalar || idtac); vm_compute; done.
  - left. done.
  - intros l [= <-]. done.
  - apply (bool_decide_unpack _). by vm_compute.
  - repeat constructor; done.
Qed.

Definition demo_apk : list member := [demo_member MANIFEST_NAME 0 (doc_bytes (compile demo_app)); demo_member (bs "lib/x86/a.so") 0 []].

Lemma demo_apk_ok : zip_ok demo_apk [] [].
Proof. unfold zip_ok, member_ok. eval_bytes. Qed.

Lemma apk_card_witness :
  exists abis, apk_info 30 (fun _ => None) (Some 5) (Some (zip demo_apk [] []))
    = Some (Ret (mkApkInfo (bs "org.example.app") (Some (bs "1.2")) (Some 7) (Some 21) None
                   (Some [0xF0; 0x9F; 0x93; 0xB1; 0x48; 0x69])
                   [bs "android.permission.INTERNET"; bs "android.permission.CAMERA"] (Some 5) abis)).
Proof.
  destruct (apk_card (fun _ => None) demo_app demo_apk [] [] (demo_member MANIFEST_NAME 0 (doc_bytes (compile demo_app)))
              (Some 5) 30) as (abis & H & _).
  - exact demo_app_ok.
  - discriminate.
  - exact demo_apk_ok.
  - apply (bool_decide_unpack _). reflexivity.
  - left.
  - reflexivity.
  - reflexivity.
  - vm_compute. lia.
  - exists abis. exact H.
Defined.
