(* ===== verification/GuiModels.v ===== *)
(** * What the window shows

    [adb-gui/src/protocol.rs]: the rows of a listing, their order, the search,
    the jobs and the package actions as the window knows them. *)

From stdpp Require Import base list strings sorting.
From S2P Require Import Prelude RustStd Text Apk Packages.

(** ** Rows of a listing *)

Record DirEntry := mkEntry {
  e_name : bytes; is_dir : bool; is_symlink : bool; e_size : Z; e_mode : Z; e_mtime : Z }.

Global Instance DirEntry_eq_dec : EqDecision DirEntry.
Proof. solve_decision. Defined.

Definition looks_like_dir (e : DirEntry) : bool := is_dir e.

Definition to_ascii_lower (l : bytes) : bytes := ascii_lower <$> l.

(** [Path::extension] of the name, in lower case; a name that is not text has
    none. *)
Definition ext (e : DirEntry) : bytes :=
  let x := match file_name (e_name e) with Some f => (stem_ext f).2 | None => None end in
  to_ascii_lower (match x with Some x => if utf8_valid x then x else [] | None => [] end).

(** [mode_string]: the nine permission bits as [ls -l] prints them. *)
Definition mode_bit (mode bit : Z) (c : Z) : Z := if negb (Z.land mode bit =? 0) then c else 45.
Definition mode_string (e : DirEntry) : bytes :=
  let m := e_mode e in
  let bits := if negb (Z.land m 73 =? 0) then 120 else 45 in
  [mode_bit m 256 114; mode_bit m 128 119; mode_bit m 64 bits;
   mode_bit m 32 114; mode_bit m 16 119; mode_bit m 8 bits;
   mode_bit m 4 114; mode_bit m 2 119; mode_bit m 1 bits].

(** ** Order *)

Inductive SortKey := ByName | BySize | ByModified.

Definition as_name (k : SortKey) : bytes :=
  match k with ByName => bs "name" | BySize => bs "size" | ByModified => bs "modified" end.
Definition from_name (n : bytes) : option SortKey :=
  if bool_decide (n = bs "name") then Some ByName
  else if bool_decide (n = bs "size") then Some BySize
  else if bool_decide (n = bs "modified") then Some ByModified
  else None.
(** Reading a preference: an unknown name is the default. *)
Definition deserialize_key (n : bytes) : SortKey := default ByName (from_name n).

Inductive SortField := FName (n : bytes) | FSize (z : Z) | FModified (z : Z).

(** The derived [Ord]: variants in order, then their values. *)
Definition field_compare (a b : SortField) : comparison :=
  match a, b with
  | FName x, FName y => bytes_cmp x y
  | FName _, _ => Lt
  | FSize _, FName _ => Gt
  | FSize x, FSize y => x ?= y
  | FSize _, FModified _ => Lt
  | FModified x, FModified y => x ?= y
  | FModified _, _ => Gt
  end.

Definition bool_compare (a b : bool) : comparison :=
  match a, b with true, false => Gt | false, true => Lt | _, _ => Eq end.

Definition then_with (a b : comparison) : comparison := match a with Eq => b | _ => a end.

(** [sort_by]: the stable sort, by insertion: an element goes behind every
    element it does not precede. *)
Section Sort.
Context {A : Type} (cmp : A -> A -> comparison).
Fixpoint sort_insert (x : A) (l : list A) : list A :=
  match l with
  | [] => [x]
  | y :: l' => match cmp x y with Gt => y :: sort_insert x l' | _ => x :: l end
  end.
Definition sort_by (l : list A) : list A := foldr sort_insert [] l.
End Sort.

(** [apply_permutation]: [None] where the code panics, on an index out of range
    or taken twice. *)
Fixpoint drain_slots {A} (slots : list (option A)) (order : list nat) : option (list A) :=
  match order with
  | [] => Some []
  | i :: order =>
      match slots !! i with
      | Some (Some x) => cons x <$> drain_slots (<[i := None]> slots) order
      | _ => None
      end
  end.
Definition apply_permutation {A} (entries : list A) (order : list nat) : option (list A) :=
  drain_slots (Some <$> entries) order.

Section Lower.
(** [str::to_lowercase] *)
Context (to_lowercase : bytes -> bytes).

Definition sort_field (e : DirEntry) (k : SortKey) : SortField :=
  match k with
  | ByName => FName (to_lowercase (e_name e))
  | BySize => FSize (e_size e)
  | ByModified => FModified (e_mtime e)
  end.

Definition keyed_compare (descending : bool) (a b : bool * SortField * nat) : comparison :=
  then_with (bool_compare b.1.1 a.1.1)
    (let o := field_compare a.1.2 b.1.2 in if descending then CompOpp o else o).

Fixpoint keyed (entries : list DirEntry) (k : SortKey) (i : nat) : list (bool * SortField * nat) :=
  match entries with
  | [] => []
  | e :: entries => (is_dir e, sort_field e k, i) :: keyed entries k (S i)
  end.

(** The new order of the entries, and the entries in it. *)
Definition sort_order (entries : list DirEntry) (k : SortKey) (descending : bool) : list nat :=
  snd <$> sort_by (keyed_compare descending) (keyed entries k 0).
Definition sort_entries (entries : list DirEntry) (k : SortKey) (descending : bool)
    : option (list DirEntry * list nat) :=
  let order := sort_order entries k descending in
  es ← apply_permutation entries order; Some (es, order).

(** ** Search *)

Definition is_ascii (l : bytes) : bool := forallb (fun b => b <? 0x80) l.

(** [windows(n).any(...)] *)
Fixpoint any_window (f : bytes -> bool) (n : nat) (l : bytes) : bool :=
  (bool_decide (n <= length l)%nat && f (take n l)) || match l with [] => false | _ :: l => any_window f n l end.

Definition contains_ignore_case (haystack needle : bytes) : bool :=
  if bool_decide (needle = []) then true
  else if is_ascii haystack && is_ascii needle then
    if (length haystack <? length needle)%nat then false
    else any_window (fun w => eq_ignore_ascii_case w needle) (length needle) haystack
  else contains needle (to_lowercase haystack).
End Lower.

(** ** Jobs *)

Record JobInfo := mkJob {
  j_id : Z; j_direction : bytes; j_name : bytes; j_state : bytes;
  j_done : Z; j_total : Z; j_speed : Z; j_eta : Z; j_error : option bytes; j_device : option bytes }.

Definition is_active (j : JobInfo) : bool :=
  bool_decide (j_state j = bs "Pending" \/ j_state j = bs "Running" \/ j_state j = bs "Paused").

(** ** Results of a tree operation *)

(** [tree_result_message]: the ids queued, the files copied, the errors. *)
Definition tree_result_message (action : bytes) (enqueued copied : Z) (errors : list bytes) : result bytes bytes :=
  let total := enqueued + copied in
  if (total =? 0) && bool_decide (errors <> []) then Err (join [10] errors)
  else
    let message := action ++ bs " queued " ++ fmt_dec total ++ bs " file(s)" in
    Ok (if bool_decide (errors <> []) then message ++ [10; 10] ++ bs "Some entries failed:" ++ [10] ++ join [10] errors
        else message).

(** ** Package actions *)

(** [PackageActionDto::inverse] *)
Definition inverse (a : PackageAction) : PackageAction :=
  match a with
  | Disable => Enable
  | Enable => Disable
  | Uninstall => Restore
  | Restore => Disable
  end.

(** ** Comparisons *)

(** A comparison that orders its type up to equivalence. *)
Class TotalCmp {A} (cmp : A -> A -> comparison) : Prop := {
  cmp_opp x y : cmp y x = CompOpp (cmp x y);
  cmp_trans x y z : cmp x y <> Gt -> cmp y z <> Gt -> cmp x z <> Gt }.

Global Instance Z_cmp : TotalCmp Z.compare.
Proof.
  split; [intros; apply Z.compare_antisym|]. intros x y z H1 H2 H3.
  apply Z.compare_gt_iff in H3. apply Z.compare_ngt_iff in H1, H2. lia.
Qed.

Global Instance bool_cmp : TotalCmp bool_compare.
Proof. split; [by intros [] []|by intros [] [] []]. Qed.

(** What antisymmetry makes of the other cases. *)
Lemma cmp_lt_le {A} (cmp : A -> A -> comparison) `{TotalCmp A cmp} x y z :
  cmp x y = Lt -> cmp y z <> Gt -> cmp x z = Lt.
Proof.
  intros H1 H2. destruct (cmp x z) eqn:E; [|done|].
  - exfalso. assert (cmp y x <> Gt) as Hyx; [|rewrite cmp_opp, H1 in Hyx; done].
    apply (cmp_trans y z x); [done|]. by rewrite cmp_opp, E.
  - exfalso. apply (cmp_trans x y z); [by rewrite H1|done|done].
Qed.

Lemma cmp_le_lt {A} (cmp : A -> A -> comparison) `{TotalCmp A cmp} x y z :
  cmp x y <> Gt -> cmp y z = Lt -> cmp x z = Lt.
Proof.
  intros H1 H2. destruct (cmp x z) eqn:E; [|done|].
  - exfalso. assert (cmp z y <> Gt) as Hzy; [|rewrite cmp_opp, H2 in Hzy; done].
    apply (cmp_trans z x y); [by rewrite cmp_opp, E|done].
  - exfalso. apply (cmp_trans x y z); [done|by rewrite H2|done].
Qed.

Global Instance then_with_cmp {A} (c1 c2 : A -> A -> comparison) :
  TotalCmp c1 -> TotalCmp c2 -> TotalCmp (fun x y => then_with (c1 x y) (c2 x y)).
Proof.
  intros H1 H2. split.
  - intros x y. rewrite (cmp_opp x y), (cmp_opp (cmp := c2) x y). by destruct (c1 x y).
  - intros x y z. destruct (c1 x y) eqn:E1; destruct (c1 y z) eqn:E2; cbn; try done; intros L1 L2.
    + assert (c1 x z = Eq) as ->; [|by apply (cmp_trans x y z)].
      assert (c1 x z <> Gt) as Hn by (apply (cmp_trans x y z); congruence).
      destruct (c1 x z) eqn:E; try done. exfalso.
      assert (c1 z x <> Gt) as Hc; [|rewrite (cmp_opp x z), E in Hc; done].
      apply (cmp_trans z y x); rewrite (cmp_opp (cmp := c1) _ _); [by rewrite E2|by rewrite E1].
    + by rewrite (cmp_le_lt c1 x y z) by congruence.
    + by rewrite (cmp_lt_le c1 x y z) by congruence.
    + by rewrite (cmp_lt_le c1 x y z) by congruence.
Qed.

Lemma opp_cmp {A} (c : A -> A -> comparison) : TotalCmp c -> TotalCmp (fun x y => CompOpp (c x y)).
Proof.
  intros H. split; [intros; by rewrite (cmp_opp x y)|]. intros x y z H1 H2 H3.
  apply (cmp_trans z y x); rewrite 1?(cmp_opp (cmp := c) y z), 1?(cmp_opp (cmp := c) x y), ?(cmp_opp (cmp := c) x z).
  - by destruct (c y z).
  - by destruct (c x y).
  - by destruct (c x z).
Qed.

Lemma on_cmp {A B} (f : B -> A) (c : A -> A -> comparison) : TotalCmp c -> TotalCmp (fun x y => c (f x) (f y)).
Proof. intros H. split; [intros; apply cmp_opp|intros x y z; apply cmp_trans]. Qed.

Global Instance bytes_cmp_total : TotalCmp bytes_cmp.
Proof.
  split.
  - intros x. induction x as [|a x IH]; intros [|b y]; cbn; try done. rewrite (cmp_opp a b), IH. by destruct (a ?= b).
  - intros x. induction x as [|a x IH]; intros [|b y] [|c z]; cbn; try done.
    destruct (a ?= b) eqn:E1; destruct (b ?= c) eqn:E2; try done; intros L1 L2.
    + apply Z.compare_eq in E1 as ->, E2 as ->. rewrite Z.compare_refl. by apply (IH y z).
    + apply Z.compare_eq in E1 as ->. by rewrite E2.
    + apply Z.compare_eq in E2 as ->. by rewrite E1.
    + by rewrite (cmp_lt_le Z.compare a b c) by congruence.
Qed.

Global Instance field_cmp : TotalCmp field_compare.
Proof.
  split.
  - intros [x|x|x] [y|y|y]; try done; first [apply (cmp_opp (cmp := bytes_cmp))|apply (cmp_opp (cmp := Z.compare))].
  - intros [x|x|x] [y|y|y] [z|z|z]; try done;
      first [apply (cmp_trans (cmp := bytes_cmp))|apply (cmp_trans (cmp := Z.compare))].
Qed.

Global Instance keyed_cmp descending : TotalCmp (keyed_compare descending).
Proof.
  apply (then_with_cmp (fun a b => bool_compare b.1.1 a.1.1)
           (fun a b => let o := field_compare a.1.2 b.1.2 in if descending then CompOpp o else o)).
  - split; [intros; apply cmp_opp|]. intros x y z H1 H2. by apply (cmp_trans z.1.1 y.1.1 x.1.1).
  - destruct descending; [apply opp_cmp|]; apply (on_cmp (fun a : bool * SortField * nat => a.1.2)), field_cmp.
Qed.

(** ** The stable sort *)

Section SortFacts.
Context {A : Type} (cmp : A -> A -> comparison) `{!TotalCmp cmp} (pos : A -> nat).

Lemma sort_insert_perm x l : sort_insert cmp x l ≡ₚ x :: l.
Proof using. induction l as [|y l IH]; cbn [sort_insert]; [done|]. destruct (cmp x y); [done..|]. rewrite IH. constructor. Qed.

Lemma sort_by_perm l : sort_by cmp l ≡ₚ l.
Proof using. induction l as [|x l IH]; cbn; [done|]. by rewrite sort_insert_perm, IH. Qed.

(** In order, and equals in the order they came in. *)
Definition before (x y : A) : Prop := cmp x y = Lt \/ (cmp x y = Eq /\ (pos x < pos y)%nat).

Lemma sort_insert_sorted x l :
  StronglySorted before l -> Forall (fun y => (pos x < pos y)%nat) l -> StronglySorted before (sort_insert cmp x l).
Proof using TotalCmp0.
  induction 1 as [|y l Hs IH Hy]; intros Hx; cbn [sort_insert]; [by repeat constructor|].
  apply Forall_cons in Hx as [Hxy Hx]. destruct (cmp x y) eqn:E.
  3:{ constructor; [by apply IH|]. rewrite sort_insert_perm. constructor; [|done].
      left. by rewrite cmp_opp, E. }
  all: constructor; [by constructor|]; constructor; [unfold before; rewrite E; tauto|].
  all: apply Forall_forall; intros z Hz; rewrite Forall_forall in Hx, Hy; specialize (Hx z Hz); specialize (Hy z Hz).
  all: assert (cmp x z <> Gt) as Hle by (apply (cmp_trans x y z); [by rewrite E|destruct Hy as [->|[-> _]]; done]).
  all: unfold before; destruct (cmp x z); tauto.
Qed.

Lemma sort_by_sorted l :
  StronglySorted (fun x y => (pos x < pos y)%nat) l -> StronglySorted before (sort_by cmp l).
Proof using TotalCmp0.
  induction 1 as [|x l _ IH Hx]; cbn; [constructor|]. apply sort_insert_sorted; [done|].
  fold (sort_by cmp l). by rewrite sort_by_perm.
Qed.
End SortFacts.

(** ** Applying a permutation *)

Lemma Forall2_impl_in {A B} (P Q : A -> B -> Prop) l k :
  Forall2 P l k -> (forall x y, x ∈ l -> P x y -> Q x y) -> Forall2 Q l k.
Proof.
  induction 1 as [|x y l k Hxy _ IH]; intros H; constructor; [apply H; [left|done]|].
  apply IH. intros a b Ha. apply H. by right.
Qed.

Lemma drain_slots_val {A} (slots : list (option A)) order l :
  NoDup order -> Forall2 (fun i x => slots !! i = Some (Some x)) order l -> drain_slots slots order = Some l.
Proof.
  intros Hnd HF. revert slots HF. revert l. induction Hnd as [|i order Hi _ IH]; intros l slots HF.
  - by apply Forall2_nil_inv_l in HF as ->.
  - apply Forall2_cons_inv_l in HF as (x & l' & Hx & HF & ->). cbn [drain_slots]. rewrite Hx.
    rewrite (IH l'); [done|]. eapply Forall2_impl_in; [exact HF|]. intros j y Hj Hy.
    rewrite list_lookup_insert_ne; [done|]. intros ->. done.
Qed.

Lemma omap_seq {A} (pre l : list A) : omap ((pre ++ l) !!.) (seq (length pre) (length l)) = l.
Proof.
  revert pre. induction l as [|x l IH]; intros pre; [done|]. cbn [length seq omap list_omap].
  rewrite list_lookup_middle by done. f_equal. specialize (IH (pre ++ [x])).
  by rewrite <- (assoc_L (++)), length_app, Nat.add_1_r in IH.
Qed.

Lemma apply_permutation_val {A} (entries : list A) order :
  order ≡ₚ seq 0 (length entries) ->
  exists es, apply_permutation entries order = Some es /\ Forall2 (fun i x => entries !! i = Some x) order es.
Proof.
  intros Hp. assert (NoDup order) as Hnd by (rewrite Hp; apply NoDup_seq).
  assert (exists es, Forall2 (fun i x => entries !! i = Some x) order es) as [es HF].
  { assert (Forall (fun i => (i < length entries)%nat) order) as Hlt
      by (apply Forall_forall; intros i Hi; rewrite Hp in Hi; apply elem_of_seq in Hi; lia).
    clear Hp Hnd. induction Hlt as [|i order Hi _ (es & IH)]; [by exists []|].
    apply lookup_lt_is_Some_2 in Hi as [x Hx]. exists (x :: es). by constructor. }
  exists es. split; [|done]. apply drain_slots_val; [done|].
  eapply Forall2_impl; [exact HF|]. intros i x Hx. cbn in Hx. by rewrite list_lookup_fmap, Hx.
Qed.

(** ** The order of a listing *)

Section Listing.
Context (to_lowercase : bytes -> bytes).

Lemma keyed_lookup entries k i j :
  keyed to_lowercase entries k i !! j
  = (fun e => (is_dir e, sort_field to_lowercase e k, (i + j)%nat)) <$> entries !! j.
Proof using.
  revert i j. induction entries as [|e entries IH]; intros i [|j]; cbn; [done..| |].
  - by rewrite Nat.add_0_r.
  - rewrite IH. by rewrite Nat.add_succ_r.
Qed.

Lemma keyed_indices entries k i : snd <$> keyed to_lowercase entries k i = seq i (length entries).
Proof using. revert i. induction entries as [|e entries IH]; intros i; cbn; [done|]. f_equal. apply IH. Qed.

Lemma keyed_ascending entries k i :
  StronglySorted (fun x y : bool * SortField * nat => (x.2 < y.2)%nat) (keyed to_lowercase entries k i).
Proof using.
  revert i. induction entries as [|e entries IH]; intros i; constructor; [apply IH|].
  apply Forall_lookup. intros j x. rewrite keyed_lookup. destruct (entries !! j); [|done]. intros [= <-]. cbn. lia.
Qed.

Lemma sort_order_perm entries k d : sort_order to_lowercase entries k d ≡ₚ seq 0 (length entries).
Proof using. unfold sort_order. rewrite sort_by_perm. by rewrite keyed_indices. Qed.

(** Entry [x] at [i] goes before entry [y] at [j]. *)
Definition goes_before (k : SortKey) (d : bool) (entries : list DirEntry) (i j : nat) : Prop :=
  exists x y, entries !! i = Some x /\ entries !! j = Some y
    /\ (is_dir x = true /\ is_dir y = false
        \/ is_dir x = is_dir y
           /\ let c := field_compare (sort_field to_lowercase x k) (sort_field to_lowercase y k) in
              ((if d then CompOpp c else c) = Lt \/ c = Eq /\ (i < j)%nat)).

Lemma sort_order_sorted entries k d : StronglySorted (goes_before k d entries) (sort_order to_lowercase entries k d).
Proof using.
  unfold sort_order. set (ks := keyed to_lowercase entries k 0).
  pose proof (sort_by_sorted (keyed_compare d) snd ks (keyed_ascending entries k 0)) as Hs.
  assert (Forall (fun x => x ∈ ks) (sort_by (keyed_compare d) ks)) as Hin
    by (apply Forall_forall; intros x; by rewrite sort_by_perm).
  induction Hs as [|x l _ IH Hx]; cbn; constructor; apply Forall_cons in Hin as [Hin Hl]; [by apply IH|].
  apply Forall_fmap, Forall_forall. intros y Hy. cbn. rewrite Forall_forall in Hx, Hl.
  specialize (Hx y Hy). specialize (Hl y Hy).
  apply list_elem_of_lookup in Hin as [i Hi], Hl as [j Hj]. subst ks. rewrite keyed_lookup in Hi, Hj.
  destruct (entries !! i) as [a|] eqn:Ei; [|done]. destruct (entries !! j) as [b|] eqn:Ej; [|done].
  injection Hi as <-. injection Hj as <-. cbn. exists a, b. split_and!; [done..|].
  unfold before, keyed_compare in Hx. cbn in Hx.
  destruct (is_dir a), (is_dir b); cbn in Hx; try tauto.
  - right. split; [done|]. cbv zeta in *. destruct d; [|exact Hx]. revert Hx. destruct (field_compare _ _); cbn; intuition congruence.
  - destruct Hx as [|[]]; discriminate.
  - right. split; [done|]. cbv zeta in *. destruct d; [|exact Hx]. revert Hx. destruct (field_compare _ _); cbn; intuition congruence.
Qed.

(** Sorting a listing always succeeds; it permutes the entries by the order it
    returns, folders first, then by the key, and keeps equals as they were. *)
Lemma sort_entries_spec entries k d :
  exists es, sort_entries to_lowercase entries k d = Some (es, sort_order to_lowercase entries k d)
    /\ Forall2 (fun i x => entries !! i = Some x) (sort_order to_lowercase entries k d) es.
Proof using.
  destruct (apply_permutation_val entries _ (sort_order_perm entries k d)) as (es & He & HF).
  exists es. unfold sort_entries. by rewrite He.
Qed.

Lemma sort_entries_perm entries k d es order :
  sort_entries to_lowercase entries k d = Some (es, order) -> es ≡ₚ entries.
Proof using.
  intros H. destruct (sort_entries_spec entries k d) as (es' & He & HF). rewrite H in He. injection He as <- ->.
  assert (es = omap (entries !!.) (sort_order to_lowercase entries k d)) as ->.
  { clear H. induction HF as [|i x o es Hx _ IH]; cbn; [done|]. rewrite Hx. by f_equal. }
  rewrite sort_order_perm. apply reflexive_eq, (omap_seq []).
Qed.

(** ** The search *)

Hypothesis lower_ascii : forall l, ascii l -> to_lowercase l = to_ascii_lower l.

Lemma is_ascii_spec l : Forall u8_ok l -> is_ascii l = true -> ascii l.
Proof using.
  intros Hb H. unfold is_ascii in H. rewrite forallb_forall in H. apply Forall_forall. intros x Hx.
  rewrite Forall_forall in Hb. specialize (Hb x Hx). apply list_elem_of_In, H in Hx. unfold u8_ok in Hb. lia.
Qed.

Lemma any_window_contains p l :
  p <> [] -> any_window (fun w => bool_decide (to_ascii_lower w = p)) (length p) l = contains p (to_ascii_lower l).
Proof using.
  intros Hp. induction l as [|b l IH]; cbn [any_window contains to_ascii_lower fmap list_fmap].
  - unfold has_prefix. destruct p; [done|]. cbn. unfold ztake. by rewrite take_nil.
  - f_equal; [|exact IH]. unfold has_prefix. apply eq_iff_eq_true.
    rewrite andb_true_iff, !bool_decide_eq_true. unfold ztake, zlen. rewrite Nat2Z.id.
    change (ascii_lower b :: list_fmap Z Z ascii_lower l) with (to_ascii_lower (b :: l)).
    unfold to_ascii_lower. rewrite fmap_take. split; [tauto|]. intros He. split; [|done].
    apply (f_equal length) in He. rewrite length_take in He.
    pose proof (length_fmap ascii_lower (b :: l)) as Hf. cbn [fmap list_fmap length] in *. lia.
Qed.

(** the search that does not allocate answers as the reference search:
    for a needle in lower case, [contains_ignore_case] is whether the name in
    lower case contains it. *)
Theorem search_is_lowercase_contains haystack needle :
  Forall u8_ok haystack -> Forall u8_ok needle -> to_lowercase needle = needle ->
  contains_ignore_case to_lowercase haystack needle = contains needle (to_lowercase haystack).
Proof using lower_ascii.
  intros Hh Hn Hl. unfold contains_ignore_case.
  destruct (decide (needle = [])) as [->|Hne]; [symmetry; exact (contains_app [] [] (to_lowercase haystack))|].
  rewrite bool_decide_false by done.
  destruct (is_ascii haystack && is_ascii needle) eqn:Ha; [|done]. bool_to_prop.
  assert (to_ascii_lower needle = needle) as Hln by (rewrite <- lower_ascii by (by apply is_ascii_spec); done).
  rewrite lower_ascii by (by apply is_ascii_spec).
  rewrite <- any_window_contains by done.
  assert (forall l, any_window (fun w => eq_ignore_ascii_case w needle) (length needle) l
                    = any_window (fun w => bool_decide (to_ascii_lower w = needle)) (length needle) l) as Heq.
  { intros l. unfold eq_ignore_ascii_case. fold (to_ascii_lower needle). rewrite Hln.
    induction l as [|b l IH]; cbn [any_window]; [done|]. by rewrite IH. }
  rewrite Heq. destruct (_ <? _)%nat eqn:Hlt; [|done]. apply Nat.ltb_lt in Hlt.
  clear -Hlt. symmetry. induction haystack as [|b l IH]; cbn [any_window].
  - rewrite bool_decide_false by (cbn in *; lia). done.
  - rewrite bool_decide_false by (cbn in *; lia). apply IH. cbn in Hlt. lia.
Qed.
End Listing.

(** ASCII lower case alone is such a function. *)
Lemma search_is_lowercase_contains_witness :
  contains_ignore_case to_ascii_lower (bs "IMG_20.JPG") (bs "jpg") = true.
Proof.
  rewrite (search_is_lowercase_contains to_ascii_lower (fun _ _ => eq_refl) (bs "IMG_20.JPG") (bs "jpg")).
  - reflexivity.
  - apply u8_bytes. reflexivity.
  - apply u8_bytes. reflexivity.
  - reflexivity.
Defined.

(** ** Modes *)

Definition read_mode (s : bytes) : Z :=
  fold_left (fun acc '(c, bit) => if c =? 45 then acc else acc + bit) (zip_with pair s [256; 128; 64; 32; 16; 8; 4; 2; 1]) 0.

(** The nine characters say the nine permission bits. *)
Lemma mode_string_reads e : read_mode (mode_string e) = Z.land (e_mode e) 511.
Proof.
  set (r := Z.land (e_mode e) 511).
  assert (forall b, Z.land b 511 = b -> Z.land (e_mode e) b = Z.land r b) as Hr.
  { intros b Hb. subst r. rewrite <- Z.land_assoc, (Z.land_comm 511 b), Hb. done. }
  assert (0 <= r < 512) as Hrange
    by (subst r; change 511 with (Z.ones 9); rewrite Z.land_ones by lia; apply Z.mod_pos_bound; lia).
  transitivity (read_mode (mode_string (mkEntry [] false false 0 r 0))).
  { f_equal. unfold mode_string, mode_bit. cbn [e_mode]. by rewrite !Hr by done. }
  clearbody r. clear Hr.
  assert (forallb (fun i => read_mode (mode_string (mkEntry [] false false 0 (Z.of_nat i) 0)) =? Z.of_nat i) (seq 0 512) = true) as HF
    by reflexivity.
  rewrite forallb_forall in HF. specialize (HF (Z.to_nat r)). rewrite Z2Nat.id in HF by lia.
  apply Z.eqb_eq, HF. apply list_elem_of_In, elem_of_seq. lia.
Qed.

(** ** Preferences and actions *)

Lemma sort_key_reads k : deserialize_key (as_name k) = k.
Proof. by destruct k. Qed.

(** Undoing an action brings the package back to the state the action is for,
    except after a restore: the package that was not there is left disabled. *)
Example undo_restore_disables :
  target_state (inverse Restore) = Disabled /\ target_state Uninstall = Uninstalled
  /\ (forall a, inverse a <> Uninstall).
Proof. split_and!; [done..|]. by intros []. Qed.
