(* ===== verification/Browser.v ===== *)
(** * The file browser pane

    [adb-gui/src/views/browser.rs]: the state of the pane and every operation
    on it that does not draw. The fields of [Browser] are grouped; zoom,
    geometry, thumbnails and scrolling, which only affect drawing, are left
    out, and what a pointer position hits is an argument. An operation that
    could panic returns an option. *)

From stdpp Require Import base list strings sorting.
From S2P Require Import Prelude RustStd Text GuiModels.

(** ** [BTreeSet<usize>] as an ascending list *)

Module IndexSet.
Fixpoint insert (x : nat) (s : list nat) : list nat :=
  match s with
  | [] => [x]
  | y :: s' => if (x <? y)%nat then x :: s else if (x =? y)%nat then s else y :: insert x s'
  end.
Definition remove (x : nat) (s : list nat) : list nat := filter (fun y => y <> x) s.
Definition of_list (l : list nat) : list nat := foldr insert [] l.
Definition contains (x : nat) (s : list nat) : bool := bool_decide (x ∈ s).
Definition retain (f : nat -> bool) (s : list nat) : list nat := filter (fun y => f y = true) s.
End IndexSet.

(** ** State *)

Record Target := mkTarget {
  device : option bytes; device_display : bytes; current_path : bytes; local_mode : bool; fuse_mount : option bytes }.
Record Lists := mkLists {
  entries : list DirEntry; visible : list nat; selection : list nat;
  focused : option nat; extend_anchor : option nat }.
(** The stacks with their tops first. *)
Record History := mkHistory { back : list bytes; forward : list bytes; navigating_history : bool }.
Record View := mkView {
  show_hidden : bool; sort_key : SortKey; sort_descending : bool; search_query : bytes; search_active : bool;
  path_entry_active : bool }.
(** [dragging]: whether [drag_anchor] is set. *)
Record Drag := mkDrag { dragging : bool; drag_base : list nat; drag_extend : bool }.

Record Browser := mkBrowser {
  target : Target; lists : Lists; history : History; view : View; drag : Drag; loading : bool; status_text : bytes }.

Definition LOCAL_DEVICE : bytes := bs "__local__".

Definition empty_lists : Lists := mkLists [] [] [] None None.
Definition new_browser : Browser :=
  mkBrowser (mkTarget None [] (bs "/") false None) empty_lists (mkHistory [] [] false)
    (mkView false ByName false [] false false) (mkDrag false [] false) false [].

Definition with_lists (l : Lists) (b : Browser) : Browser :=
  mkBrowser (target b) l (history b) (view b) (drag b) (loading b) (status_text b).
Definition with_selection (s : list nat) (l : Lists) : Lists :=
  mkLists (entries l) (visible l) s (focused l) (extend_anchor l).
Definition with_target (t : Target) (b : Browser) : Browser :=
  mkBrowser t (lists b) (history b) (view b) (drag b) (loading b) (status_text b).
Definition with_history (h : History) (b : Browser) : Browser :=
  mkBrowser (target b) (lists b) h (view b) (drag b) (loading b) (status_text b).
Definition with_view (v : View) (b : Browser) : Browser :=
  mkBrowser (target b) (lists b) (history b) v (drag b) (loading b) (status_text b).
Definition with_drag (d : Drag) (b : Browser) : Browser :=
  mkBrowser (target b) (lists b) (history b) (view b) d (loading b) (status_text b).
Definition with_loading (x : bool) (b : Browser) : Browser :=
  mkBrowser (target b) (lists b) (history b) (view b) (drag b) x (status_text b).
Definition with_status (s : bytes) (b : Browser) : Browser :=
  mkBrowser (target b) (lists b) (history b) (view b) (drag b) (loading b) s.
Definition with_path (p : bytes) (b : Browser) : Browser :=
  let t := target b in
  with_target (mkTarget (device t) (device_display t) p (local_mode t) (fuse_mount t)) b.

(** ** What the app reads *)

Definition selected (b : Browser) : list DirEntry := omap (entries (lists b) !!.) (selection (lists b)).

Definition focused_entry (b : Browser) : option DirEntry :=
  let l := lists b in
  match focused l ≫= (entries l !!.) with
  | Some e => Some e
  | None => head (selection l) ≫= (entries l !!.)
  end.

Definition can_go_back (b : Browser) : bool := bool_decide (back (history b) <> []).
Definition can_go_forward (b : Browser) : bool := bool_decide (forward (history b) <> []).
Definition can_go_up (b : Browser) : bool :=
  match parent (current_path (target b)) with
  | Some p => bool_decide (p <> current_path (target b))
  | None => false
  end.

Definition full_path (b : Browser) (e : DirEntry) : bytes := path_join (current_path (target b)) (e_name e).

(** [p.strip_prefix("/")]: what is left behind the root, without the separators
    and current-directory components it starts with. *)
Fixpoint trim_left (p : bytes) : bytes :=
  match p with
  | 47 :: p => trim_left p
  | 46 :: ((47 :: p') as q) => trim_left q
  | [46] => []
  | _ => p
  end.
Definition strip_root (p : bytes) : option bytes :=
  match p with 47 :: p => Some (trim_left p) | _ => None end.

Definition on_mount (b : Browser) (p : bytes) : option bytes :=
  mount ← fuse_mount (target b);
  relative ← strip_root p;
  Some (path_join mount relative).

Definition local_path_of (b : Browser) (e : DirEntry) : option bytes :=
  if local_mode (target b) then Some (full_path b e) else on_mount b (full_path b e).
Definition local_current_dir (b : Browser) : option bytes :=
  if local_mode (target b) then Some (current_path (target b)) else on_mount b (current_path (target b)).

Definition thumbnail_source (b : Browser) (e : DirEntry) : option bytes :=
  let device_path := path_join (current_path (target b)) (e_name e) in
  if local_mode (target b) then Some device_path
  else (fun mount => path_join mount device_path) <$> fuse_mount (target b).

Definition delete_is_recoverable (b : Browser) : bool := local_mode (target b).

(** ** Events *)

(** Of [ContextMenu] the row, not the position. *)
Inductive BrowserEvent :=
| EvOpen (e : DirEntry) | EvNavigate (p : bytes) | EvUp | EvRefresh | EvNewFolder (n : bytes)
| EvRename (e : DirEntry) (n : bytes) | EvTrash (es : list DirEntry) | EvDeletePermanently (es : list DirEntry)
| EvCopy (es : list DirEntry) | EvPaste | EvUpload | EvDownload (es : list DirEntry) | EvInstallApk (e : DirEntry)
| EvTogglePauseTransfers | EvCancelTransfers | EvContextMenu (i : option nat) | EvOpenedDirectory (p : bytes)
| EvFocusSearch | EvFocusPathEntry | EvDroppedPaths (ps : list bytes) | EvDroppedOnFolder (e : DirEntry) (ps : list bytes)
| EvDraggedOntoFolder (e : DirEntry) (es : list DirEntry).

Inductive OpenOutcome := ODirectory (p : bytes) | OInstallApk (e : DirEntry) | ODownload (e : DirEntry).

Definition into_event (o : OpenOutcome) : BrowserEvent :=
  match o with
  | ODirectory p => EvOpenedDirectory p
  | OInstallApk e => EvInstallApk e
  | ODownload e => EvOpen e
  end.

Inductive Extend := ExNone | ExToggle | ExRange.

Section Ops.
Context (to_lowercase : bytes -> bytes).

(** ** Filtering *)

Definition shown (v : View) (e : DirEntry) : bool :=
  (show_hidden v || negb (has_prefix (bs ".") (e_name e)))
  && contains_ignore_case to_lowercase (e_name e) (to_lowercase (search_query v)).

Fixpoint filter_indices (v : View) (es : list DirEntry) (i : nat) : list nat :=
  match es with
  | [] => []
  | e :: es => if shown v e then i :: filter_indices v es (S i) else filter_indices v es (S i)
  end.

Definition recompute (v : View) (l : Lists) : Lists :=
  let vis := filter_indices v (entries l) 0 in
  let keep o := match o with Some i => if bool_decide (i ∈ vis) then Some i else None | None => None end in
  mkLists (entries l) vis (IndexSet.retain (fun i => bool_decide (i ∈ vis)) (selection l))
    (keep (focused l)) (keep (extend_anchor l)).
Definition recompute_visible (b : Browser) : Browser := with_lists (recompute (view b) (lists b)) b.

(** ** Sorting *)

(** [moved_to[old] = new] for every [order[new] = old]; [None] is a panic. *)
Fixpoint moved_table (table : list nat) (order : list nat) (new : nat) : option (list nat) :=
  match order with
  | [] => Some table
  | old :: order =>
      if (old <? length table)%nat then moved_table (<[old := new]> table) order (S new) else None
  end.

Definition apply_sort (b : Browser) : option Browser :=
  let l := lists b in let v := view b in
  '(es, order) ← sort_entries to_lowercase (entries l) (sort_key v) (sort_descending v);
  moved_to ← moved_table (replicate (length order) 0%nat) order 0;
  let moved i := moved_to !! i in
  let l := mkLists es (visible l) (IndexSet.of_list (omap moved (selection l)))
             (focused l ≫= moved) (extend_anchor l ≫= moved) in
  Some (recompute_visible (with_lists l b)).

Definition set_sort (key : SortKey) (descending : bool) (b : Browser) : option Browser :=
  let v := view b in
  apply_sort (with_view (mkView (show_hidden v) key descending (search_query v) (search_active v) (path_entry_active v)) b).

Definition apply_preferences (hidden : bool) (key : SortKey) (descending : bool) (b : Browser) : Browser :=
  let v := view b in
  recompute_visible (with_view (mkView hidden key descending (search_query v) (search_active v) (path_entry_active v)) b).

Definition set_show_hidden (show : bool) (b : Browser) : Browser :=
  let v := view b in
  recompute_visible
    (with_view (mkView show (sort_key v) (sort_descending v) (search_query v) (search_active v) (path_entry_active v)) b).
Definition toggle_hidden (b : Browser) : Browser := set_show_hidden (negb (show_hidden (view b))) b.

Definition set_search_query_raw (query : bytes) (b : Browser) : Browser :=
  let v := view b in
  recompute_visible
    (with_view (mkView (show_hidden v) (sort_key v) (sort_descending v) query (search_active v) (path_entry_active v)) b).

Definition set_search_active (active : bool) (b : Browser) : Browser :=
  let v := view b in
  if Bool.eqb (search_active v) active then b
  else
    let b := with_view (mkView (show_hidden v) (sort_key v) (sort_descending v) (search_query v) active (path_entry_active v)) b in
    if negb active && bool_decide (search_query v <> []) then set_search_query_raw [] b else b.

(** ** Listings *)

Definition clear_lists (b : Browser) : Browser := with_loading false (with_lists empty_lists b).

Definition install_entries (es : list DirEntry) (b : Browser) : option Browser :=
  '(es, _) ← sort_entries to_lowercase es (sort_key (view b)) (sort_descending (view b));
  let b := with_loading false b in
  Some (recompute_visible (with_lists (mkLists es (visible (lists b)) [] None None) b)).

Definition set_error (message : bytes) (b : Browser) : Browser :=
  let l := lists b in
  with_status message (with_loading false (with_lists (mkLists [] [] [] (focused l) None) b)).

Definition begin_load (b : Browser) : bool * Browser :=
  if loading b then (false, b) else (true, with_loading true b).
Definition cancel_load (b : Browser) : Browser := if loading b then with_loading false b else b.

(** ** Targets *)

Definition clear_history (b : Browser) : Browser := with_history (mkHistory [] [] (navigating_history (history b))) b.

Definition set_device (serial display : bytes) (b : Browser) : Browser :=
  let t := target b in
  let b := with_target (mkTarget (Some serial) display (current_path t) false (fuse_mount t)) b in
  let b := clear_lists b in
  let b := with_path (bs "/sdcard/Download") b in
  with_status (bs "Browsing " ++ display) (clear_history b).

Definition set_local (path : bytes) (b : Browser) : Browser :=
  let b := with_target (mkTarget (Some LOCAL_DEVICE) [] (current_path (target b)) true None) b in
  let b := clear_lists b in
  let b := with_path path b in
  with_status (bs "Browsing " ++ from_utf8_lossy path) (clear_history b).

Definition set_idle (b : Browser) : Browser :=
  let b := with_target (mkTarget None (device_display (target b)) (current_path (target b)) false None) b in
  with_path (bs "/") (clear_lists b).

Definition set_fuse_mount (mount : option bytes) (b : Browser) : Browser :=
  let t := target b in with_target (mkTarget (device t) (device_display t) (current_path t) (local_mode t) mount) b.

(** ** Navigation *)

Definition push_history (leaving : bytes) (b : Browser) : Browser :=
  let h := history b in
  if navigating_history h then with_history (mkHistory (back h) (forward h) false) b
  else with_history (mkHistory (leaving :: back h) [] false) b.

Definition navigate (path : bytes) (b : Browser) : Browser :=
  clear_lists (with_path path (push_history (current_path (target b)) b)).

Definition go_back (b : Browser) : option bytes * Browser :=
  let h := history b in
  match back h with
  | [] => (None, b)
  | dest :: rest =>
      let b' := with_history (mkHistory rest (current_path (target b) :: forward h) (navigating_history h)) b in
      (Some dest, clear_lists (with_path dest b'))
  end.

Definition go_forward (b : Browser) : option bytes * Browser :=
  let h := history b in
  match forward h with
  | [] => (None, b)
  | dest :: rest =>
      let b' := with_history (mkHistory (current_path (target b) :: back h) rest (navigating_history h)) b in
      (Some dest, clear_lists (with_path dest b'))
  end.

Definition open_index (i : nat) (b : Browser) : option OpenOutcome * Browser :=
  match entries (lists b) !! i with
  | None => (None, b)
  | Some e =>
      if looks_like_dir e then
        let dest := full_path b e in
        (Some (ODirectory dest), clear_lists (with_path dest (push_history (current_path (target b)) b)))
      else if bool_decide (ext e = bs "apk") then (Some (OInstallApk e), b)
      else (Some (ODownload e), b)
  end.
End Ops.

(** ** Selection *)

(** [iter().position(|v| v == x)] *)
Fixpoint position (x : nat) (l : list nat) : option nat :=
  match l with
  | [] => None
  | y :: l => if (x =? y)%nat then Some 0%nat else S <$> position x l
  end.

(** Insert [visible[slot]] for the slots from [lo], [n] of them; [None] is a
    panic. *)
Fixpoint insert_slots (vis : list nat) (lo n : nat) (sel : list nat) : option (list nat) :=
  match n with
  | O => Some sel
  | S n => i ← vis !! lo; insert_slots vis (S lo) n (IndexSet.insert i sel)
  end.

Definition extend_range (anchor index : nat) (l : Lists) : option Lists :=
  match position anchor (visible l), position index (visible l) with
  | Some from, Some to =>
      let lo := Nat.min from to in let hi := Nat.max from to in
      sel ← insert_slots (visible l) lo (S hi - lo) (selection l);
      Some (with_selection sel l)
  | _, _ => Some l
  end.

Definition only (i : nat) (l : Lists) : Lists := mkLists (entries l) (visible l) [i] (focused l) (Some i).
Definition with_focus (i : nat) (l : Lists) : Lists := mkLists (entries l) (visible l) (selection l) (Some i) (extend_anchor l).

Definition click_lists (index : nat) (extend : Extend) (l : Lists) : option Lists :=
  l ← match extend with
      | ExToggle =>
          let sel := if IndexSet.contains index (selection l) then IndexSet.remove index (selection l)
                     else IndexSet.insert index (selection l) in
          Some (mkLists (entries l) (visible l) sel (focused l) (Some index))
      | ExRange =>
          match extend_anchor l with
          | Some anchor => extend_range anchor index l
          | None => Some (only index l)
          end
      | ExNone => Some (only index l)
      end;
  Some (with_focus index l).
Definition click_row (index : nat) (extend : Extend) (b : Browser) : option Browser :=
  l ← click_lists index extend (lists b); Some (with_lists l b).

(** A click with its modifiers; the second of a double click opens the row. *)
Definition on_item_click (index : nat) (shift control : bool) (count : nat) (b : Browser)
    : option (option BrowserEvent * Browser) :=
  b ← click_row index (if shift then ExRange else if control then ExToggle else ExNone) b;
  if (2 <=? count)%nat then let '(o, b) := open_index index b in Some (into_event <$> o, b)
  else Some (None, b).

Definition on_item_right_click (index : nat) (b : Browser) : option (option BrowserEvent * Browser) :=
  b ← (if IndexSet.contains index (selection (lists b)) then Some b else click_row index ExNone b);
  Some (Some (EvContextMenu (Some index)), with_lists (with_focus index (lists b)) b).

(** Move the focus and with it the selection, around the ends. *)
Definition focus_step (delta : Z) (extend : bool) (b : Browser) : option (bool * Browser) :=
  let l := lists b in
  if bool_decide (visible l = []) then Some (false, b)
  else
    let len := zlen (visible l) in
    let current := focused l ≫= (fun i => position i (visible l)) in
    let next := match current with
                | Some p => (Z.of_nat p + delta) mod len
                | None => if delta <? 0 then len - 1 else 0
                end in
    index ← visible l !! Z.to_nat next;
    let sel := if extend then selection l else [] in
    Some (true, with_lists (mkLists (entries l) (visible l) (IndexSet.insert index sel) (Some index) (extend_anchor l)) b).

(** To the first row, or with a negative index to the last. *)
Definition jump_focus (index : Z) (b : Browser) : option Browser :=
  let l := lists b in
  if bool_decide (visible l = []) then Some b
  else
    let i := if index <? 0 then zlen (visible l) - 1 else Z.min index (zlen (visible l) - 1) in
    e ← visible l !! Z.to_nat i;
    Some (with_lists (mkLists (entries l) (visible l) [e] (Some e) (extend_anchor l)) b).

Definition select_all (b : Browser) : Browser :=
  with_lists (with_selection (IndexSet.of_list (visible (lists b))) (lists b)) b.

Definition deselect_action (b : Browser) : Browser :=
  let d := drag b in
  with_drag (mkDrag false (drag_base d) (drag_extend d)) (with_lists (with_selection [] (lists b)) b).

(** ** Actions on the selection *)

Definition copy_selection (b : Browser) : option BrowserEvent :=
  match selected b with [] => None | es => Some (EvCopy es) end.
Definition download (b : Browser) : option BrowserEvent :=
  match selected b with [] => None | es => Some (EvDownload es) end.
Definition delete_selection (b : Browser) : option BrowserEvent :=
  match selected b with
  | [] => None
  | es => Some (if delete_is_recoverable b then EvTrash es else EvDeletePermanently es)
  end.
Definition delete_permanently (b : Browser) : option BrowserEvent :=
  match selected b with [] => None | es => Some (EvDeletePermanently es) end.
Definition rename_focused (b : Browser) : option BrowserEvent :=
  (fun e => EvRename e (e_name e)) <$> focused_entry b.
Definition new_folder (b : Browser) : option BrowserEvent :=
  match device (target b) with Some _ => Some (EvNewFolder []) | None => None end.
Definition step_up (b : Browser) : option BrowserEvent := if can_go_up b then Some EvUp else None.

(** Where an entry of this name is in the listing. *)
Fixpoint index_of_name (n : bytes) (es : list DirEntry) : option nat :=
  match es with
  | [] => None
  | e :: es => if bool_decide (e_name e = n) then Some 0%nat else S <$> index_of_name n es
  end.
Definition index_of (e : DirEntry) (b : Browser) : option nat := index_of_name (e_name e) (entries (lists b)).

Definition open_focused (b : Browser) : option BrowserEvent * Browser :=
  match focused_entry b ≫= (fun e => index_of e b) with
  | None => (None, b)
  | Some i => let '(o, b) := open_index i b in (into_event <$> o, b)
  end.

Definition step_back (b : Browser) : option BrowserEvent * Browser :=
  let '(p, b) := go_back b in (EvOpenedDirectory <$> p, b).
Definition step_forward (b : Browser) : option BrowserEvent * Browser :=
  let '(p, b) := go_forward b in (EvOpenedDirectory <$> p, b).

(** ** Rubber band

    [slots]: what [slots_under] says of the pointer's position. *)

Definition row_contains (slots : option (nat * nat)) (vis : list nat) (index : nat) : bool :=
  match position index vis, slots with
  | Some slot, Some (lo, hi) => (lo <=? slot)%nat && (slot <? hi)%nat
  | _, _ => false
  end.

Definition on_drag_start (modifier : bool) (slots : option (nat * nat)) (b : Browser) : Browser :=
  let l := lists b in
  let on_item := existsb (row_contains slots (visible l)) (visible l) in
  let base := if modifier || on_item then selection l else [] in
  let b := with_drag (mkDrag true base modifier) b in
  if negb modifier && negb on_item then with_lists (with_selection [] l) b else b.

Definition on_drag_move (slots : option (nat * nat)) (b : Browser) : option Browser :=
  let l := lists b in
  if negb (dragging (drag b)) then Some b
  else
    sel ← match slots with
          | Some (lo, hi) => insert_slots (visible l) lo (Nat.min hi (length (visible l)) - lo) (drag_base (drag b))
          | None => Some (drag_base (drag b))
          end;
    Some (with_lists (with_selection sel l) b).

Definition on_drag_end (b : Browser) : Browser := with_drag (mkDrag false [] (drag_extend (drag b))) b.
