(* ===== verification/BrowserSpec.v ===== *)
(** * What the browser pane promises

    The rows an action would act on are rows the user sees; sorting moves the
    selection with the files; back and forward walk the visited folders. *)

From stdpp Require Import base list strings sorting.
From S2P Require Import Prelude RustStd Text GuiModels Browser.

Section Spec.
Context (to_lowercase : bytes -> bytes).

(** ** Steps of the pane *)

Inductive op :=
| SetDevice (serial display : bytes) | SetLocal (path : bytes) | SetIdle | SetFuseMount (m : option bytes)
| SetSort (k : SortKey) (d : bool) | Preferences (hidden : bool) (k : SortKey) (d : bool)
| ShowHidden (s : bool) | SearchQuery (q : bytes) | SearchActive (a : bool)
| SetEntries (es : list DirEntry) | SetError (m : bytes) | BeginLoad | CancelLoad
| Navigate (p : bytes) | GoBack | GoForward
| Click (i : nat) (shift control : bool) (count : nat) | RightClick (i : nat) | OpenFocused
| FocusStep (delta : Z) (extend : bool) | JumpFocus (i : Z) | SelectAll | Deselect
| DragStart (modifier : bool) (slots : option (nat * nat)) | DragMove (slots : option (nat * nat)) | DragEnd.

(** [None] is a panic. *)
Definition exec (o : op) (b : Browser) : option Browser :=
  match o with
  | SetDevice s d => Some (set_device s d b)
  | SetLocal p => Some (set_local p b)
  | SetIdle => Some (set_idle b)
  | SetFuseMount m => Some (set_fuse_mount m b)
  | SetSort k d => set_sort to_lowercase k d b
  | Preferences h k d => Some (apply_preferences to_lowercase h k d b)
  | ShowHidden s => Some (set_show_hidden to_lowercase s b)
  | SearchQuery q => Some (set_search_query_raw to_lowercase q b)
  | SearchActive a => Some (set_search_active to_lowercase a b)
  | SetEntries es => install_entries to_lowercase es b
  | SetError m => Some (set_error m b)
  | BeginLoad => Some (begin_load b).2
  | CancelLoad => Some (cancel_load b)
  | Navigate p => Some (navigate p b)
  | GoBack => Some (go_back b).2
  | GoForward => Some (go_forward b).2
  | Click i s c n => snd <$> on_item_click i s c n b
  | RightClick i => snd <$> on_item_right_click i b
  | OpenFocused => Some (open_focused b).2
  | FocusStep d e => snd <$> focus_step d e b
  | JumpFocus i => jump_focus i b
  | SelectAll => Some (select_all b)
  | Deselect => Some (deselect_action b)
  | DragStart m s => Some (on_drag_start m s b)
  | DragMove s => on_drag_move s b
  | DragEnd => Some (on_drag_end b)
  end.

(** Operations that replace, filter or reorder the listing. *)
Definition relists (o : op) : bool :=
  match o with
  | SetDevice _ _ | SetLocal _ | SetIdle | SetSort _ _ | Preferences _ _ _ | ShowHidden _ | SearchQuery _
  | SearchActive _ | SetEntries _ | SetError _ | Navigate _ | GoBack | GoForward | Click _ _ _ _ | OpenFocused => true
  | _ => false
  end.

(** A click lands on a row that is drawn. *)
Definition possible (o : op) (b : Browser) : Prop :=
  match o with Click i _ _ _ | RightClick i => i ∈ visible (lists b) | _ => True end.

(** Operations that compute the listing, and what is selected in it, anew. *)
Definition resets (o : op) : bool :=
  match o with
  | SetDevice _ _ | SetLocal _ | SetIdle | SetSort _ _ | Preferences _ _ _ | ShowHidden _ | SearchQuery _
  | SetEntries _ | SetError _ | Navigate _ => true
  | _ => false
  end.

(** [fresh]: the listing is still the one the rubber band was started on.
    [sound]: since the listing was computed no band older than it has been
    pulled on, which selects rows by their old numbers (see [stale_band]). *)
Definition next_fresh (o : op) (fresh sound : bool) : bool :=
  match o with DragStart _ _ => sound | _ => fresh && negb (relists o) end.
Definition next_sound (o : op) (b : Browser) (fresh sound : bool) : bool :=
  resets o || match o with DragMove _ => sound && (fresh || negb (dragging (drag b))) | _ => sound end.

(** Runs of the pane. *)
Inductive reaches : Browser -> bool -> bool -> Prop :=
| reach_new : reaches new_browser true true
| reach_step o b b' fresh sound :
    reaches b fresh sound -> possible o b -> exec o b = Some b' ->
    reaches b' (next_fresh o fresh sound) (next_sound o b fresh sound).

(** ** The invariant *)

Definition inv (b : Browser) : Prop :=
  let l := lists b in
  visible l = filter_indices to_lowercase (view b) (entries l) 0
  /\ (forall i, i ∈ selection l -> i ∈ visible l)
  /\ (forall i, extend_anchor l = Some i -> i ∈ visible l)
  /\ (forall i, focused l = Some i -> entries l <> [] -> i ∈ visible l).

Definition band_ok (b : Browser) (fresh : bool) : Prop :=
  fresh = true -> dragging (drag b) = true -> forall i, i ∈ drag_base (drag b) -> i ∈ visible (lists b).

Lemma elem_of_insert x y s : x ∈ IndexSet.insert y s <-> x = y \/ x ∈ s.
Proof using.
  induction s as [|z s IH]; cbn [IndexSet.insert]; [by rewrite list_elem_of_singleton, elem_of_nil; naive_solver|].
  destruct (Nat.ltb_spec y z); [by rewrite !elem_of_cons; naive_solver|].
  destruct (Nat.eqb_spec y z) as [->|]; rewrite !elem_of_cons, ?IH; naive_solver.
Qed.

Lemma elem_of_of_list x l : x ∈ IndexSet.of_list l <-> x ∈ l.
Proof using.
  unfold IndexSet.of_list. induction l as [|y l IH]; cbn; [done|].
  by rewrite elem_of_insert, IH, elem_of_cons.
Qed.

Lemma elem_of_filter_indices v es i n :
  i ∈ filter_indices to_lowercase v es n <-> exists j e, i = (n + j)%nat /\ es !! j = Some e /\ shown to_lowercase v e = true.
Proof using.
  revert n. induction es as [|e es IH]; intros n; cbn [filter_indices].
  - rewrite elem_of_nil. split; [done|]. intros (j & e & _ & H & _). by rewrite lookup_nil in H.
  - assert (i ∈ filter_indices to_lowercase v es (S n) <->
            exists j e', i = (n + S j)%nat /\ es !! j = Some e' /\ shown to_lowercase v e' = true) as Ht.
    { rewrite IH. split; intros (j & e' & -> & ?); exists j, e'; (split; [lia|done]). }
    destruct (shown to_lowercase v e) eqn:Hs; [rewrite elem_of_cons|]; rewrite Ht.
    + split; [intros [->|(j & e' & -> & H)]|intros ([|j] & e' & -> & H)].
      * exists 0%nat, e. split; [lia|done].
      * by exists (S j), e'.
      * left. lia.
      * right. by exists j, e'.
    + split; [intros (j & e' & -> & H); by exists (S j), e'|].
      intros ([|j] & e' & -> & H & Hs'); [cbn in H; congruence|]. by exists j, e'.
Qed.

Lemma elem_of_visible v es i :
  i ∈ filter_indices to_lowercase v es 0 <-> exists e, es !! i = Some e /\ shown to_lowercase v e = true.
Proof using.
  rewrite elem_of_filter_indices. split; [intros (j & e & -> & H)|intros (e & H)]; [by exists e|by exists i, e].
Qed.

Lemma recompute_inv b : inv (recompute_visible to_lowercase b).
Proof using.
  unfold inv, recompute_visible. cbn. split_and!; [done|..].
  - intros i Hi. apply list_elem_of_filter in Hi as [Hi _]. by apply bool_decide_eq_true in Hi.
  - intros i Hi. destruct (extend_anchor _) as [j|]; [|done]. case_bool_decide; [|done]. by injection Hi as <-.
  - intros i Hi _. destruct (focused _) as [j|]; [|done]. case_bool_decide; [|done]. by injection Hi as <-.
Qed.
(** ** Sorting *)

Lemma moved_table_val table order k :
  NoDup order -> Forall (fun i => (i < length table)%nat) order ->
  exists t, moved_table table order k = Some t /\ length t = length table
    /\ (forall j old, order !! j = Some old -> t !! old = Some (k + j)%nat)
    /\ (forall old, old ∉ order -> t !! old = table !! old).
Proof using.
  intros Hnd. revert table k. induction Hnd as [|i order Hi Hnd IH]; intros table k Hlt; cbn [moved_table].
  - exists table. split_and!; try done.
  - apply Forall_cons in Hlt as [Hlti Hlt]. apply Nat.ltb_lt in Hlti as Hb. rewrite Hb.
    destruct (IH (<[i := k]> table) (S k)) as (t & Ht & Hlen & Hin & Hout); [by rewrite length_insert|].
    exists t. rewrite length_insert in Hlen. split_and!; [done..| |].
    + intros [|j] old H; cbn in H.
      * injection H as <-. rewrite Hout by done. rewrite list_lookup_insert_eq by done. f_equal. lia.
      * rewrite (Hin j old H). f_equal. lia.
    + intros old Ho. apply not_elem_of_cons in Ho as [Hne Ho]. rewrite Hout by done. by apply list_lookup_insert_ne.
Qed.

(** Where a sort sends the rows. *)
Lemma sort_moves es k d :
  exists es' order t,
    sort_entries to_lowercase es k d = Some (es', order)
    /\ moved_table (replicate (length order) 0%nat) order 0 = Some t
    /\ (forall i, t !! i = None <-> es !! i = None)
    /\ (forall i j, t !! i = Some j -> es' !! j = es !! i)
    /\ (forall i i' j, t !! i = Some j -> t !! i' = Some j -> i = i').
Proof using.
  destruct (sort_entries_spec to_lowercase es k d) as (es' & He & HF). set (order := sort_order to_lowercase es k d) in *.
  assert (order ≡ₚ seq 0 (length es)) as Hp by apply sort_order_perm.
  assert (NoDup order) as Hnd by (rewrite Hp; apply NoDup_seq).
  assert (length order = length es) as Hlo by (rewrite Hp; apply length_seq).
  destruct (moved_table_val (replicate (length order) 0%nat) order 0) as (t & Ht & Hlen & Hin & _); [done| |].
  { rewrite length_replicate, Hlo. apply Forall_forall. intros i Hi. rewrite Hp in Hi. apply elem_of_seq in Hi. lia. }
  rewrite length_replicate in Hlen.
  assert (forall i, (i < length es)%nat -> exists j, order !! j = Some i /\ t !! i = Some j) as Hex.
  { intros i Hi. assert (i ∈ order) as Hio by (rewrite Hp; apply elem_of_seq; lia).
    apply list_elem_of_lookup in Hio as [j Hj]. exists j. split; [done|]. by apply (Hin j i). }
  assert (forall i j, t !! i = Some j -> order !! j = Some i) as Hinv.
  { intros i j Hj. destruct (Hex i) as (j' & Ho & Ht'); [rewrite <- Hlo, <- Hlen; by apply lookup_lt_Some in Hj|]. congruence. }
  exists es', order, t. split_and!; [done..| | |].
  - intros i. rewrite !lookup_ge_None. lia.
  - intros i j Hj. apply Hinv in Hj. destruct (Forall2_lookup_l _ _ _ _ _ HF Hj) as (x & -> & ->). done.
  - intros i i' j H1 H2. apply Hinv in H1, H2. congruence.
Qed.

Lemma apply_sort_some b : exists b', apply_sort to_lowercase b = Some b' /\ inv b'.
Proof using.
  unfold apply_sort. destruct (sort_moves (entries (lists b)) (sort_key (view b)) (sort_descending (view b)))
    as (es' & order & t & -> & Ht & _). cbn [mbind option_bind]. rewrite Ht. cbn [mbind option_bind].
  eexists. split; [done|]. apply recompute_inv.
Qed.

Lemma install_entries_some es b : exists b', install_entries to_lowercase es b = Some b' /\ inv b'.
Proof using.
  unfold install_entries. destruct (sort_entries_spec to_lowercase es (sort_key (view b)) (sort_descending (view b)))
    as (es' & -> & _). cbn [mbind option_bind]. eexists. split; [done|]. apply recompute_inv.
Qed.

(** ** Selecting *)

Lemma insert_slots_some vis lo n sel :
  (lo + n <= length vis)%nat ->
  exists sel', insert_slots vis lo n sel = Some sel'
    /\ forall i, i ∈ sel' <-> i ∈ sel \/ exists k, (lo <= k < lo + n)%nat /\ vis !! k = Some i.
Proof using.
  revert lo sel. induction n as [|n IH]; intros lo sel Hl; cbn [insert_slots].
  - exists sel. split; [done|]. intros i. split; [by left|]. intros [|(k & Hk & _)]; [done|lia].
  - destruct (lookup_lt_is_Some_2 vis lo) as [x Hx]; [lia|]. rewrite Hx. cbn [mbind option_bind].
    destruct (IH (S lo) (IndexSet.insert x sel)) as (sel' & -> & Hs); [lia|]. exists sel'. split; [done|].
    intros i. rewrite Hs, elem_of_insert. split.
    + intros [[->|]|(k & Hk & Hv)]; [right; exists lo; split; [lia|done]|by left|right; exists k; split; [lia|done]].
    + intros [|(k & Hk & Hv)]; [tauto|]. destruct (decide (k = lo)) as [->|]; [left; left; congruence|].
      right. exists k. split; [lia|done].
Qed.

Lemma position_lookup x l p : position x l = Some p -> l !! p = Some x.
Proof using.
  revert p. induction l as [|y l IH]; intros p; cbn [position]; [done|].
  destruct (Nat.eqb_spec x y) as [->|]; [by intros [= <-]|].
  destruct (position x l) as [q|]; [|done]. intros [= <-]. by apply IH.
Qed.

(** A selection operation keeps the listing and selects only visible rows. *)
Definition keeps (l l' : Lists) : Prop :=
  entries l' = entries l /\ visible l' = visible l
  /\ (forall i, i ∈ selection l' -> i ∈ selection l \/ i ∈ visible l)
  /\ (forall i, extend_anchor l' = Some i -> extend_anchor l = Some i \/ i ∈ visible l)
  /\ (forall i, focused l' = Some i -> focused l = Some i \/ i ∈ visible l).

Lemma keeps_inv b l' : inv b -> keeps (lists b) l' -> inv (with_lists l' b).
Proof using.
  intros (Hv & Hs & Ha & Hf) (He & Hvis & Hs' & Ha' & Hf'). unfold inv. cbn. rewrite He, Hvis.
  split_and!; [done|..]; intros i Hi; [apply Hs' in Hi as [|]|apply Ha' in Hi as [|]|apply Hf' in Hi as [|]]; auto.
Qed.

Lemma click_lists_some i x l :
  i ∈ visible l -> exists l', click_lists i x l = Some l' /\ keeps l l' /\ focused l' = Some i.
Proof using.
  intros Hi. unfold click_lists. destruct x.
  - eexists. split; [done|]. split; [|done]. repeat split; cbn; auto; intros j; try (intros [= <-]; auto).
    rewrite list_elem_of_singleton. intros ->. auto.
  - eexists. split; [done|]. split; [|done]. repeat split; cbn; auto; intros j; try (intros [= <-]; auto).
    destruct (IndexSet.contains i (selection l)).
    + intros Hj. apply list_elem_of_filter in Hj as [_ Hj]. auto.
    + rewrite elem_of_insert. intros [->|]; auto.
  - destruct (extend_anchor l) as [a|] eqn:Ea.
    + unfold extend_range. destruct (position a (visible l)) as [f|] eqn:Ef.
      2:{ eexists. split; [done|]. split; [|done]. repeat split; cbn; auto. intros j [= <-]. auto. }
      destruct (position i (visible l)) as [t|] eqn:Et.
      2:{ eexists. split; [done|]. split; [|done]. repeat split; cbn; auto. intros j [= <-]. auto. }
      apply position_lookup, lookup_lt_Some in Ef, Et.
      destruct (insert_slots_some (visible l) (Nat.min f t) (S (Nat.max f t) - Nat.min f t) (selection l)) as (sel & -> & Hsel); [lia|].
      eexists. split; [done|]. split; [|done]. repeat split; cbn; auto.
      * intros j Hj. apply Hsel in Hj as [|(k & _ & Hk)]; [auto|]. right. by apply list_elem_of_lookup_2 in Hk.
      * intros j [= <-]. auto.
    + eexists. split; [done|]. split; [|done]. repeat split; cbn; auto; intros j; try (intros [= <-]; auto).
      rewrite list_elem_of_singleton. intros ->. auto.
Qed.
Lemma inv_ext b b' : lists b' = lists b -> view b' = view b -> inv b -> inv b'.
Proof using. unfold inv. by intros -> ->. Qed.

Lemma inv_empty b : lists b = empty_lists -> inv b.
Proof using. intros H. unfold inv. rewrite H. cbn. split_and!; [done| |done..]. intros i Hi. by apply elem_of_nil in Hi. Qed.

Lemma keeps_refl l : keeps l l.
Proof using. repeat split; auto. Qed.

Lemma open_index_inv i b : inv b -> inv (open_index i b).2.
Proof using.
  intros H. unfold open_index. destruct (_ !! i) as [e|]; [|done]. destruct (looks_like_dir e); [by apply inv_empty|].
  by case_bool_decide.
Qed.

(** The selection operations, as far as the listing goes. *)
Lemma select_exec o b :
  possible o b -> relists o = false ->
  exists b', exec o b = Some b' /\ view b' = view b
    /\ entries (lists b') = entries (lists b) /\ visible (lists b') = visible (lists b)
    /\ ((forall s, o = DragMove s -> band_ok b true) -> keeps (lists b) (lists b'))
    /\ (match o with DragStart _ _ => drag_base (drag b') = [] \/ drag_base (drag b') = selection (lists b)
        | _ => drag_base (drag b') = drag_base (drag b) \/ dragging (drag b') = false end)
    /\ (match o with DragStart _ _ => True | DragEnd | Deselect => dragging (drag b') = false
        | _ => dragging (drag b') = dragging (drag b) end).
Proof using.
  intros Hpos Hrel.
  destruct o; try discriminate Hrel; cbn [exec possible] in *.
  - eexists; split; [done|]. split_and!; auto using keeps_refl.
  - unfold begin_load. eexists; split; [done|]. destruct (loading b); split_and!; auto using keeps_refl.
  - unfold cancel_load. eexists; split; [done|]. destruct (loading b); split_and!; auto using keeps_refl.
  - unfold on_item_right_click, click_row. destruct (IndexSet.contains _ _).
    + eexists; split; [done|]. split_and!; auto. intros Hband. repeat split; cbn; auto. intros j [= <-]. auto.
    + destruct (click_lists_some i ExNone (lists b) Hpos) as (l' & -> & (K1 & K2 & K3 & K4 & K5) & Hfoc).
      eexists; split; [done|]. split_and!; auto. intros Hband. repeat split; cbn; auto. intros j [= <-]. auto.
  - unfold focus_step. case_bool_decide as Hn; [eexists; split; [done|]; split_and!; auto using keeps_refl|].
    set (len := zlen (visible (lists b))).
    assert (0 < len) as Hlen by (subst len; unfold zlen; destruct (visible (lists b)); [done|cbn; lia]).
    match goal with |- context [visible (lists b) !! Z.to_nat ?n] => set (next := n) end.
    assert (0 <= next < len) as Hnext.
    { subst next. destruct (_ ≫= _); [by apply Z.mod_pos_bound|]. case_bool; lia. }
    destruct (lookup_lt_is_Some_2 (visible (lists b)) (Z.to_nat next)) as [x Hx]; [subst len; unfold zlen in *; lia|].
    rewrite Hx. cbn [mbind option_bind fmap option_fmap option_map snd].
    eexists; split; [done|]. split_and!; auto. intros Hband. apply list_elem_of_lookup_2 in Hx.
    repeat split; cbn; auto; intros j; [rewrite elem_of_insert; intros [->|Hj]; [auto|]|intros [= <-]; auto].
    destruct extend; [auto|]. by apply elem_of_nil in Hj.
  - unfold jump_focus. case_bool_decide as Hn; [eexists; split; [done|]; split_and!; auto using keeps_refl|].
    assert (0 < zlen (visible (lists b))) as Hlen by (unfold zlen; destruct (visible (lists b)); [done|cbn; lia]).
    match goal with |- context [visible (lists b) !! Z.to_nat ?n] => set (next := n) end.
    assert (next < zlen (visible (lists b))) as Hnext by (subst next; case_bool; lia).
    destruct (lookup_lt_is_Some_2 (visible (lists b)) (Z.to_nat next)) as [x Hx]; [unfold zlen in *; lia|].
    rewrite Hx. cbn [mbind option_bind].
    eexists; split; [done|]. split_and!; auto. intros Hband. apply list_elem_of_lookup_2 in Hx.
    repeat split; cbn; auto; intros j; [rewrite list_elem_of_singleton; intros ->; auto|intros [= <-]; auto].
  - eexists; split; [done|]. split_and!; auto. intros Hband. repeat split; cbn; auto. intros j. rewrite elem_of_of_list. auto.
  - eexists; split; [done|]. split_and!; auto. intros Hband. repeat split; cbn; auto. intros j Hj. by apply elem_of_nil in Hj.
  - eexists; split; [done|]. unfold on_drag_start.
    destruct modifier, (existsb _ _); cbn; split_and!; auto using keeps_refl.
    intros Hband. repeat split; cbn; auto. intros j Hj. by apply elem_of_nil in Hj.
  - unfold on_drag_move. destruct (dragging (drag b)) eqn:Hd; cbn [negb];
      [|eexists; split; [done|]; split_and!; auto using keeps_refl].
    assert (Hbase : (forall s, DragMove slots = DragMove s -> band_ok b true) -> forall i, i ∈ drag_base (drag b) -> i ∈ visible (lists b)).
    { intros Hband. exact (Hband slots eq_refl eq_refl Hd). }
    destruct slots as [[lo hi]|].
    + destruct (decide (lo <= length (visible (lists b)))%nat) as [Hlo|Hlo].
      * destruct (insert_slots_some (visible (lists b)) lo (Nat.min hi (length (visible (lists b))) - lo) (drag_base (drag b)))
          as (sel & -> & Hsel); [lia|]. cbn [mbind option_bind].
        eexists; split; [done|]. split_and!; auto. intros Hband. repeat split; cbn; auto.
        intros j Hj. apply Hsel in Hj as [|(k & _ & Hk)]; [right; by apply Hbase|]. right. by apply list_elem_of_lookup_2 in Hk.
      * replace (Nat.min hi (length (visible (lists b))) - lo)%nat with 0%nat by lia. cbn [insert_slots mbind option_bind].
        eexists; split; [done|]. split_and!; auto. intros Hband. repeat split; cbn; auto.
    + cbn [mbind option_bind]. eexists; split; [done|]. split_and!; auto. intros Hband. repeat split; cbn; auto.
  - eexists; split; [done|]. split_and!; auto using keeps_refl.
Qed.

Lemma filter_indices_ext v v' es n :
  show_hidden v = show_hidden v' -> search_query v = search_query v' ->
  filter_indices to_lowercase v es n = filter_indices to_lowercase v' es n.
Proof using.
  intros H1 H2. revert n. induction es as [|e es IH]; intros n; cbn [filter_indices]; [done|].
  unfold shown. by rewrite H1, H2, !IH.
Qed.

(** The operations that change the listing. *)
Lemma relist_exec o b :
  possible o b -> relists o = true -> exists b', exec o b = Some b' /\ (resets o = true \/ inv b -> inv b').
Proof using.
  intros Hpos Hrel. destruct o; try discriminate Hrel; cbn [exec possible resets] in *.
  1-3: eexists; split; [done|]; intros _; by apply inv_empty.
  - unfold set_sort. match goal with |- context [apply_sort _ ?x] => destruct (apply_sort_some x) as (b' & He & Hi) end. eauto.
  - eexists; split; [done|]. intros _. apply recompute_inv.
  - eexists; split; [done|]. intros _. apply recompute_inv.
  - eexists; split; [done|]. intros _. apply recompute_inv.
  - eexists; split; [done|]. intros [|Hinv]; [done|]. unfold set_search_active. destruct (Bool.eqb _ _); [done|].
    destruct (negb a && bool_decide (search_query (view b) <> [])); [apply recompute_inv|].
    destruct Hinv as [Hv Hrest]. split; [|exact Hrest]. cbn. rewrite Hv at 1. by apply filter_indices_ext.
  - destruct (install_entries_some es b) as (b' & He & Hi). eauto.
  - eexists; split; [done|]. intros _. unfold inv. cbn. split_and!; done.
  - eexists; split; [done|]. intros _. by apply inv_empty.
  - eexists; split; [done|]. intros [|Hinv]; [done|]. unfold go_back. destruct (back (history b)); [done|]. by apply inv_empty.
  - eexists; split; [done|]. intros [|Hinv]; [done|]. unfold go_forward. destruct (forward (history b)); [done|]. by apply inv_empty.
  - unfold on_item_click, click_row.
    destruct (click_lists_some i (if shift then ExRange else if control then ExToggle else ExNone) (lists b) Hpos)
      as (l' & -> & Hk & _). cbn [mbind option_bind].
    assert (Hi : inv b -> inv (with_lists l' b)) by (intros; by apply keeps_inv).
    destruct (2 <=? count)%nat; [|eexists; split; [done|]; intros [|Hinv]; [done|by apply Hi]].
    pose proof (open_index_inv i (with_lists l' b)) as Ho. destruct (open_index i (with_lists l' b)) as [oo b'].
    cbn in *. eexists; split; [done|]. intros [|Hinv]; [done|auto].
  - eexists; split; [done|]. intros [|Hinv]; [done|]. unfold open_focused. destruct (_ ≫= _) as [i|]; [|done].
    pose proof (open_index_inv i b Hinv). by destruct (open_index i b).
Qed.

(** Every operation comes back; it keeps the invariant while [sound]. *)
Lemma pane_step_inv o b fresh sound :
  (sound = true -> inv b) -> band_ok b fresh -> possible o b ->
  exists b', exec o b = Some b' /\ (next_sound o b fresh sound = true -> inv b')
    /\ band_ok b' (next_fresh o fresh sound).
Proof using.
  intros Hinv Hband Hpos. unfold next_sound, next_fresh. destruct (relists o) eqn:Hrel.
  - destruct (relist_exec o b Hpos Hrel) as (b' & He & Hi). exists b'. split_and!; [done|..].
    + intros Hs. apply Hi. destruct (resets o); [by left|right]. apply Hinv.
      destruct o; try discriminate Hrel; exact Hs.
    + destruct o; try discriminate Hrel; cbn; rewrite andb_false_r; by intros.
  - destruct (select_exec o b Hpos Hrel) as (b' & He & Hview & _ & Hvis & Hk & Hbase & Hdrag).
    exists b'. split_and!; [done| |].
    + replace (resets o) with false by (by destruct o). cbn [orb]. intros Hs.
      assert (sound = true) as Hsd by (destruct o; try exact Hs; by apply andb_true_iff in Hs as [? _]).
      apply (inv_ext (with_lists (lists b') b)); [done|by rewrite Hview|]. apply keeps_inv; [auto|]. apply Hk.
      intros s ->. apply andb_true_iff in Hs as [_ Hf]. destruct fresh; [done|]. cbn in Hf.
      intros _ Hd. by rewrite Hd in Hf.
    + rewrite andb_true_r. intros Hf Hd i Hi. rewrite Hvis.
      destruct o; try discriminate Hrel; cbn in *; try congruence;
        try (destruct Hbase as [Hbase|Hbase]; [rewrite Hbase in Hi|congruence]; apply Hband; [done|congruence|done]).
      destruct (Hinv Hf) as (_ & Hsel & _). destruct Hbase as [Hb|Hb]; rewrite Hb in Hi; [by apply elem_of_nil in Hi|auto].
Qed.

Lemma reaches_inv b fresh sound : reaches b fresh sound -> (sound = true -> inv b) /\ band_ok b fresh.
Proof using.
  induction 1 as [|o b b' fresh sound _ [Hi Hb] Hp He].
  - split; [intros _; by apply inv_empty|]. by intros _ H.
  - destruct (pane_step_inv o b fresh sound Hi Hb Hp) as (b'' & He' & Hi' & Hb'). rewrite He in He'. by injection He' as <-.
Qed.

(** C35: whatever the user and the daemon do, nothing the pane does panics, and
    every row that is selected, focused in a listing, or the anchor of a range
    is a row on the screen: it is in the listing, passes the hidden-file and
    the search filter, and so Copy, Delete and Rename act on nothing the user
    cannot see. The rows are promised unless a rubber band that was begun before the
    listing changed has been pulled on since; this selects
    hidden rows ([stale_band]) until the listing is computed again. Clicks are on rows
    that are drawn. *)
Theorem acts_on_visible_rows b fresh sound o :
  reaches b fresh sound -> possible o b ->
  exists b', exec o b = Some b'
    /\ (next_sound o b fresh sound = true ->
        (forall e, e ∈ selected b' -> exists i, i ∈ visible (lists b') /\ entries (lists b') !! i = Some e
          /\ shown to_lowercase (view b') e = true)
        /\ (forall e, focused_entry b' = Some e -> shown to_lowercase (view b') e = true)
        /\ (forall i, extend_anchor (lists b') = Some i ->
              exists e, entries (lists b') !! i = Some e /\ shown to_lowercase (view b') e = true)
        /\ (forall i, i ∈ visible (lists b') <-> exists e, entries (lists b') !! i = Some e /\ shown to_lowercase (view b') e = true)).
Proof using.
  intros Hr Hp. destruct (reaches_inv b fresh sound Hr) as [Hi Hb].
  destruct (pane_step_inv o b fresh sound Hi Hb Hp) as (b' & He & Hinv & _). exists b'. split; [done|].
  intros Hsd. destruct (Hinv Hsd) as (Hv & Hs & Ha & Hf).
  assert (forall i, i ∈ visible (lists b') <-> exists e, entries (lists b') !! i = Some e /\ shown to_lowercase (view b') e = true)
    as Hvis by (intros i; rewrite Hv; apply elem_of_visible).
  split_and!; [| | |done].
  - intros e Hin. apply list_elem_of_omap in Hin as (i & Hi' & Hl). exists i. split; [auto|]. split; [done|].
    apply Hs, Hvis in Hi' as (e' & Hl' & Hsh). congruence.
  - intros e. unfold focused_entry. destruct (focused (lists b') ≫= _) as [e'|] eqn:Ef.
    + intros [= <-]. destruct (focused (lists b')) as [i|] eqn:Ei; [|done]. cbn in Ef.
      assert (i ∈ visible (lists b')) as Hiv by (apply Hf; [done|intros Hn; by rewrite Hn, lookup_nil in Ef]).
      apply Hvis in Hiv as (e'' & Hl & Hsh). congruence.
    + destruct (selection (lists b')) as [|i sel] eqn:Es; [done|]. cbn. intros Hl.
      assert (i ∈ visible (lists b')) as Hiv by (apply Hs; left).
      apply Hvis in Hiv as (e' & Hl' & Hsh). congruence.
  - intros i Hai. by apply Hvis, Ha.
Qed.

(** ** The sets stay sets *)

Definition ascending : list nat -> Prop := StronglySorted lt.

Lemma insert_ascending x s : ascending s -> ascending (IndexSet.insert x s).
Proof using.
  induction 1 as [|y s Hs IH Hy]; cbn [IndexSet.insert]; [by repeat constructor|].
  destruct (Nat.ltb_spec x y).
  - constructor; [by constructor|]. constructor; [done|]. eapply Forall_impl; [exact Hy|]. cbn. lia.
  - destruct (Nat.eqb_spec x y); [by constructor|]. constructor; [done|].
    apply Forall_forall. intros z. rewrite elem_of_insert. rewrite Forall_forall in Hy. intros [->|]; [lia|auto].
Qed.

Lemma filter_ascending (P : nat -> Prop) `{!forall x, Decision (P x)} s : ascending s -> ascending (filter P s).
Proof using.
  induction 1 as [|y s Hs IH Hy]; [constructor|]. rewrite filter_cons. destruct (decide (P y)); [|done].
  constructor; [done|]. apply Forall_forall. intros z Hz. apply list_elem_of_filter in Hz as [_ Hz].
  rewrite Forall_forall in Hy. auto.
Qed.

Lemma of_list_ascending l : ascending (IndexSet.of_list l).
Proof using. unfold IndexSet.of_list. induction l as [|x l IH]; cbn; [constructor|by apply insert_ascending]. Qed.

Lemma insert_slots_ascending vis lo n sel sel' :
  ascending sel -> insert_slots vis lo n sel = Some sel' -> ascending sel'.
Proof using.
  revert lo sel. induction n as [|n IH]; intros lo sel Hs; cbn [insert_slots]; [by intros [= <-]|].
  destruct (vis !! lo); [|done]. cbn. apply IH. by apply insert_ascending.
Qed.

Lemma one_ascending i : ascending [i].
Proof using. repeat constructor. Qed.

Lemma click_ascending i x l l' : ascending (selection l) -> click_lists i x l = Some l' -> ascending (selection l').
Proof using.
  intros Hs. unfold click_lists. destruct x; cbn.
  - intros [= <-]. apply one_ascending.
  - intros [= <-]. cbn. destruct (IndexSet.contains _ _); [by apply filter_ascending|by apply insert_ascending].
  - destruct (extend_anchor l); [|intros [= <-]; apply one_ascending].
    unfold extend_range. repeat case_match; try (by intros [= <-]).
    destruct (insert_slots _ _ _ _) as [sel|] eqn:E; [|done]. intros [= <-]. cbn. by eapply insert_slots_ascending.
Qed.

Definition sets_ok (b : Browser) : Prop := ascending (selection (lists b)) /\ ascending (drag_base (drag b)).

Lemma open_index_sets i b : sets_ok b -> sets_ok (open_index i b).2.
Proof using.
  intros [Hs Hb]. unfold open_index. repeat case_match; try done. split; [constructor|].
  cbn. unfold push_history. by destruct (navigating_history (history b)).
Qed.

Lemma recompute_sets b : sets_ok b -> sets_ok (recompute_visible to_lowercase b).
Proof using. intros [Hs Hb]. split; [by apply filter_ascending|done]. Qed.

Lemma exec_sets o b b' : sets_ok b -> exec o b = Some b' -> sets_ok b'.
Proof using.
  intros Hok. pose proof Hok as [Hs Hb]. destruct o; cbn [exec]; intros He.
  1-3: injection He as <-; split; [constructor|done].
  - by injection He as <-.
  - unfold set_sort, apply_sort in He. destruct (sort_entries _ _ _ _) as [[es order]|]; [|done]. cbn in He.
    destruct (moved_table _ _ _) as [t|]; [|done]. injection He as <-. apply recompute_sets. split; [apply of_list_ascending|done].
  - injection He as <-. by apply recompute_sets.
  - injection He as <-. by apply recompute_sets.
  - injection He as <-. by apply recompute_sets.
  - injection He as <-. unfold set_search_active. repeat case_match; try done. by apply recompute_sets.
  - unfold install_entries in He. destruct (sort_entries _ _ _ _) as [[es' order]|]; [|done]. injection He as <-.
    apply recompute_sets. split; [constructor|done].
  - injection He as <-. split; [constructor|done].
  - injection He as <-. unfold begin_load. by destruct (loading b).
  - injection He as <-. unfold cancel_load. by destruct (loading b).
  - injection He as <-. split; [constructor|]. cbn. unfold push_history. by destruct (navigating_history (history b)).
  - injection He as <-. unfold go_back. destruct (back (history b)); [done|]. split; [constructor|done].
  - injection He as <-. unfold go_forward. destruct (forward (history b)); [done|]. split; [constructor|done].
  - unfold on_item_click, click_row in He. destruct (click_lists _ _ _) as [l|] eqn:E; [|done].
    cbn [mbind option_bind] in He. apply click_ascending in E; [|done]. assert (sets_ok (with_lists l b)) as Hl by done.
    destruct (2 <=? count)%nat; [|by injection He as <-].
    pose proof (open_index_sets i _ Hl) as Ho. destruct (open_index i (with_lists l b)). by injection He as <-.
  - unfold on_item_right_click, click_row in He. destruct (IndexSet.contains _ _); [by injection He as <-|].
    destruct (click_lists _ _ _) as [l|] eqn:E; [|done]. apply click_ascending in E; [|done]. by injection He as <-.
  - injection He as <-. unfold open_focused. destruct (_ ≫= _) as [i|]; [|done].
    pose proof (open_index_sets i b Hok). by destruct (open_index i b).
  - unfold focus_step in He. case_bool_decide; [by injection He as <-|]. destruct (_ !! _); [|done]. injection He as <-.
    split; [|done]. apply insert_ascending. destruct extend; [done|constructor].
  - unfold jump_focus in He. case_bool_decide; [by injection He as <-|]. destruct (_ !! _); [|done]. injection He as <-.
    split; [apply one_ascending|done].
  - injection He as <-. split; [apply of_list_ascending|done].
  - injection He as <-. split; [constructor|done].
  - injection He as <-. unfold on_drag_start. destruct modifier, (existsb _ _); split; cbn; try done; constructor.
  - unfold on_drag_move in He. destruct (dragging (drag b)); [|by injection He as <-]. cbn [negb] in He.
    destruct slots as [[lo hi]|]; cbn [mbind option_bind] in He; [|by injection He as <-].
    destruct (insert_slots _ _ _ _) as [sel|] eqn:E; [|done]. injection He as <-. split; [|done].
    by eapply insert_slots_ascending.
  - injection He as <-. split; [done|constructor].
Qed.

Lemma reaches_sets b fresh sound : reaches b fresh sound -> sets_ok b.
Proof using. induction 1 as [|o b b' fresh sound _ IH _ He]; [by repeat constructor|by eapply exec_sets]. Qed.

(** ** Sorting moves the selection with the files *)

Lemma ascending_NoDup l : ascending l -> NoDup l.
Proof using.
  induction 1 as [|x l _ IH Hx]; constructor; [|done]. intros Hin. rewrite Forall_forall in Hx. specialize (Hx x Hin). lia.
Qed.

Lemma omap_moved (t : list nat) sel :
  (forall i i' j, t !! i = Some j -> t !! i' = Some j -> i = i') -> NoDup sel -> NoDup (omap (t !!.) sel).
Proof using.
  intros Hinj. induction 1 as [|i sel Hi _ IH]; cbn; [constructor|]. destruct (t !! i) as [j|] eqn:E; [|done].
  constructor; [|done]. intros Hin. apply list_elem_of_omap in Hin as (i' & Hi' & Hj). by rewrite (Hinj i i' j E Hj) in Hi.
Qed.

(** sorting by another key permutes the listing into the new order,
    folders first, then by the key, equals as they were, and takes everything
    that refers to rows along: the same files are selected, the same file has
    the focus and the same file is the anchor. *)
Theorem sort_follows_files b fresh k d :
  reaches b fresh true ->
  exists b' order,
    set_sort to_lowercase k d b = Some b'
    /\ Forall2 (fun i e => entries (lists b) !! i = Some e) order (entries (lists b'))
    /\ order ≡ₚ seq 0 (length (entries (lists b)))
    /\ StronglySorted (goes_before to_lowercase k d (entries (lists b))) order
    /\ selected b' ≡ₚ selected b
    /\ (entries (lists b) <> [] -> focused (lists b') ≫= (entries (lists b') !!.) = focused (lists b) ≫= (entries (lists b) !!.))
    /\ extend_anchor (lists b') ≫= (entries (lists b') !!.) = extend_anchor (lists b) ≫= (entries (lists b) !!.).
Proof using.
  intros Hr. destruct (proj1 (reaches_inv b fresh true Hr) eq_refl) as (Hv & Hs & Ha & Hf). destruct (reaches_sets b fresh true Hr) as [Hasc _].
  set (es := entries (lists b)) in *.
  destruct (sort_moves es k d) as (es' & order & t & Hsort & Ht & Hnone & Hmove & Hinj).
  destruct (sort_entries_spec to_lowercase es k d) as (es2 & Hsort2 & HF).
  pose proof Hsort as Heq. rewrite Hsort2 in Heq. injection Heq as <- <-.
  unfold set_sort, apply_sort. cbn [lists with_view view sort_key sort_descending]. fold es. rewrite Hsort. cbn [mbind option_bind].
  rewrite Ht. cbn [mbind option_bind]. eexists _, _. split; [done|].
  cbn [recompute_visible with_lists lists recompute entries selection focused extend_anchor view with_view].
  set (v := mkView _ k d _ _ _). set (vis := filter_indices to_lowercase v es2 0).
  assert (forall i j, i ∈ visible (lists b) -> t !! i = Some j -> j ∈ vis) as Hvis.
  { intros i j Hi Hj. rewrite Hv in Hi. apply elem_of_visible in Hi as (e & He & Hsh). apply elem_of_visible.
    exists e. split; [by rewrite (Hmove i j Hj)|done]. }
  assert (forall o, (forall i, o = Some i -> i ∈ visible (lists b)) ->
    match o ≫= (t !!.) with Some i => if bool_decide (i ∈ vis) then Some i else None | None => None end ≫= (es2 !!.)
    = o ≫= (es !!.)) as Hopt.
  { intros [i|] Ho; [|done]. cbn. specialize (Ho i eq_refl). destruct (t !! i) as [j|] eqn:Ej.
    - rewrite bool_decide_true by (by apply (Hvis i)). by apply Hmove.
    - apply Hnone in Ej. by rewrite Ej. }
  split_and!; [exact HF|apply sort_order_perm|apply sort_order_sorted| |intros Hne; apply Hopt; auto|apply Hopt; auto].
  change (omap (es2 !!.) (IndexSet.retain (fun i => bool_decide (i ∈ vis)) (IndexSet.of_list (omap (t !!.) (selection (lists b)))))
          ≡ₚ omap (es !!.) (selection (lists b))).
  assert (IndexSet.retain (fun i => bool_decide (i ∈ vis)) (IndexSet.of_list (omap (t !!.) (selection (lists b))))
          ≡ₚ omap (t !!.) (selection (lists b))) as ->.
  { apply NoDup_Permutation.
    - apply ascending_NoDup, filter_ascending, of_list_ascending.
    - apply omap_moved; [done|]. by apply ascending_NoDup.
    - intros j. unfold IndexSet.retain. rewrite list_elem_of_filter, elem_of_of_list, bool_decide_eq_true.
      split; [tauto|]. intros Hj. split; [|done]. apply list_elem_of_omap in Hj as (i & Hi & Hj). by apply (Hvis i); [apply Hs|]. }
  apply reflexive_eq. clear Hasc. induction (selection (lists b)) as [|i sel IH]; [done|]. cbn.
  destruct (t !! i) as [j|] eqn:Ej; cbn.
  - rewrite (Hmove i j Ej). destruct (es !! i); [f_equal|]; apply IH; intros; apply Hs; by right.
  - apply Hnone in Ej. rewrite Ej. apply IH. intros; apply Hs; by right.
Qed.
End Spec.

(** ** Back and forward *)

(** The folders visited in order, and which one is shown. *)
Record trail := mkTrail { stops : list bytes; here : nat }.

Definition trail_visit (p : bytes) (t : trail) : trail := mkTrail (take (S (here t)) (stops t) ++ [p]) (S (here t)).
Definition trail_back (t : trail) : trail := mkTrail (stops t) (here t - 1).
Definition trail_forward (t : trail) : trail :=
  if (S (here t) <? length (stops t))%nat then mkTrail (stops t) (S (here t)) else t.

Definition trail_of (b : Browser) : trail :=
  let h := history b in
  mkTrail (reverse (back h) ++ current_path (target b) :: forward h) (length (back h)).

Definition not_replaying (b : Browser) : Prop := navigating_history (history b) = false.

Lemma trail_here b : stops (trail_of b) !! here (trail_of b) = Some (current_path (target b)).
Proof. cbn. rewrite <- (length_reverse (back (history b))). by apply list_lookup_middle. Qed.

Lemma push_trail p b :
  not_replaying b ->
  trail_of (clear_lists (with_path p (push_history (current_path (target b)) b))) = trail_visit p (trail_of b)
  /\ not_replaying (clear_lists (with_path p (push_history (current_path (target b)) b))).
Proof.
  unfold not_replaying, push_history. intros ->. split; [|done].
  set (h := history b). set (c := current_path (target b)).
  change (mkTrail (reverse (c :: back h) ++ [p]) (S (length (back h)))
          = mkTrail (take (S (length (back h))) (reverse (back h) ++ c :: forward h) ++ [p]) (S (length (back h)))).
  f_equal. f_equal. rewrite reverse_cons, (cons_middle c (reverse (back h)) (forward h)), (assoc_L (++) (reverse (back h))).
  rewrite take_app_le by (rewrite length_app, length_reverse; cbn; lia).
  by rewrite take_ge by (rewrite length_app, length_reverse; cbn; lia).
Qed.

(** back and forward walk the trail of visited folders as in any browser:
    going somewhere (a path, the folder that is opened) drops what lies ahead
    and appends it, back and forward move along the trail without changing it,
    stop at its ends, and return the folder they move to; none of them can
    leave the pane showing a folder that is not the one on the trail. *)
Theorem history_is_a_trail b :
  not_replaying b ->
  (forall p, trail_of (navigate p b) = trail_visit p (trail_of b) /\ not_replaying (navigate p b))
  /\ (forall i e, entries (lists b) !! i = Some e -> is_dir e = true ->
        (open_index i b).1 = Some (ODirectory (full_path b e))
        /\ trail_of (open_index i b).2 = trail_visit (full_path b e) (trail_of b) /\ not_replaying (open_index i b).2)
  /\ (trail_of (go_back b).2 = trail_back (trail_of b) /\ not_replaying (go_back b).2
      /\ (forall p, (go_back b).1 = Some p <-> (0 < here (trail_of b))%nat /\ current_path (target (go_back b).2) = p))
  /\ (trail_of (go_forward b).2 = trail_forward (trail_of b) /\ not_replaying (go_forward b).2
      /\ (forall p, (go_forward b).1 = Some p <->
            (S (here (trail_of b)) < length (stops (trail_of b)))%nat /\ current_path (target (go_forward b).2) = p)).
Proof.
  intros Hn. split_and!.
  - intros p. by apply push_trail.
  - intros i e He Hd. unfold open_index, looks_like_dir. rewrite He, Hd. split; [done|]. by apply push_trail.
  - unfold go_back, trail_of, trail_back. destruct (back (history b)) as [|p rest] eqn:E; cbn -[reverse]; rewrite ?E; [done|].
    rewrite reverse_cons, <- (assoc_L (++)). cbn -[reverse]. f_equal. lia.
  - unfold go_back. by destruct (back (history b)).
  - intros p. unfold go_back, trail_of. destruct (back (history b)) as [|q rest]; cbn; [split; [done|lia]|].
    split; [intros [= <-]; split; [lia|done]|by intros [_ ->]].
  - unfold go_forward, trail_of, trail_forward. cbn -[reverse Nat.ltb]. rewrite length_app, length_reverse.
    destruct (forward (history b)) as [|p rest] eqn:E; cbn -[reverse Nat.ltb]; rewrite ?E.
    + destruct (Nat.ltb_spec (S (length (back (history b)))) (length (back (history b)) + 1)); [lia|done].
    + destruct (Nat.ltb_spec (S (length (back (history b)))) (length (back (history b)) + S (S (length rest)))); [|lia].
      by rewrite reverse_cons, <- (assoc_L (++)).
  - unfold go_forward. by destruct (forward (history b)).
  - intros p. unfold go_forward, trail_of. cbn. rewrite length_app, length_reverse.
    destruct (forward (history b)) as [|q rest] eqn:E; cbn.
    + split; [done|lia].
    + split; [intros [= <-]; split; [lia|done]|by intros [_ ->]].
Qed.

(** ** Where the pane gets it wrong *)

(** A rubber band remembers rows of the listing it was started on. When the
    listing is replaced under it, the next pointer move selects whatever lies
    at those places now: here a file that was never selected, and a hidden one. *)
Definition file (n : bytes) : DirEntry := mkEntry n false false 0 0 0.
Example stale_band :
  let run := fold_left (fun ob o => b ← ob; exec to_ascii_lower o b)
    [SetEntries [file (bs "b"); file (bs "c")]; Click 1 false false 1; DragStart true None;
     SetEntries [file (bs "x"); file (bs ".secret")]; DragMove None] (Some new_browser) in
  (selected <$> run) = Some [file (bs "x")]
  /\ (selected <$> fold_left (fun ob o => b ← ob; exec to_ascii_lower o b)
    [SetEntries [file (bs "b"); file (bs "c")]; Click 0 false false 1; DragStart true None;
     SetEntries [file (bs "x"); file (bs ".secret")]; DragMove None] (Some new_browser)) = Some [file (bs ".secret")].
Proof. by vm_compute. Qed.

(** The preview of a phone's file is looked for at the phone's path on this
    machine: an absolute path joined to the mount replaces it. *)
Theorem preview_leaves_the_mount b e p mount :
  local_mode (target b) = false -> fuse_mount (target b) = Some mount -> current_path (target b) = 47 :: p ->
  hd 0 (e_name e) <> 47 ->
  thumbnail_source b e = Some (full_path b e).
Proof.
  intros Hl Hm Hp Hn. unfold thumbnail_source, full_path. rewrite Hl, Hm, Hp. cbn. f_equal.
  assert (exists q, path_join (47 :: p) (e_name e) = 47 :: q) as [q ->]; [|done].
  assert (is_Some (last (47 :: p))) as [c Hc] by (rewrite last_cons; by destruct (last p)).
  unfold path_join. rewrite Hc. destruct (e_name e) as [|x n]; cbn [hd] in Hn; repeat case_match; try congruence; by eexists.
Qed.

(** Another phone is chosen, and until its mount is known its files resolve
    into the first phone's. *)
Example mount_of_the_other_phone :
  let b := set_device (bs "B") (bs "B") (set_fuse_mount (Some (bs "/run/A")) (set_device (bs "A") (bs "A") new_browser)) in
  device (target b) = Some (bs "B") /\ local_path_of b (file (bs "x")) = Some (bs "/run/A/sdcard/Download/x").
Proof. by vm_compute. Qed.

(** ** Witnesses *)

Lemma demo_reaches :
  reaches to_ascii_lower (default new_browser (exec to_ascii_lower (SetEntries [file (bs "b"); file (bs "c")]) new_browser)) false true.
Proof.
  exact (reach_step to_ascii_lower (SetEntries [file (bs "b"); file (bs "c")]) new_browser _ true true
           (reach_new _) I eq_refl).
Defined.

Lemma acts_on_visible_rows_witness :
  exists b', exec to_ascii_lower SelectAll (default new_browser (exec to_ascii_lower (SetEntries [file (bs "b"); file (bs "c")]) new_browser)) = Some b'
    /\ length (selected b') = 2%nat /\ forall e, e ∈ selected b' -> shown to_ascii_lower (view b') e = true.
Proof.
  destruct (acts_on_visible_rows to_ascii_lower _ false true SelectAll demo_reaches I) as (b' & He & Hr).
  exists b'. split; [exact He|]. destruct (Hr eq_refl) as (Hsel & _). split; [|intros e Hin; destruct (Hsel e Hin) as (i & _ & _ & Hs); exact Hs].
  injection He as <-. reflexivity.
Defined.

Lemma sort_follows_files_witness :
  exists b', set_sort to_ascii_lower BySize true
    (default new_browser (exec to_ascii_lower (SetEntries [file (bs "b"); file (bs "c")]) new_browser)) = Some b'.
Proof. destruct (sort_follows_files to_ascii_lower _ false BySize true demo_reaches) as (b' & _ & He & _). exists b'. exact He. Defined.

Lemma history_is_a_trail_witness : here (trail_of (navigate (bs "/a") new_browser)) = 1%nat.
Proof. rewrite (proj1 (proj1 (history_is_a_trail new_browser eq_refl) (bs "/a"))). reflexivity. Defined.
