(* ===== verification/AppListing.v ===== *)
(** * Which listing the window shows

    The part of [adb-gui/src/app.rs] that chooses what is browsed and fetches
    its listing: the poll of the devices, the selection of a phone or a local
    folder, the requests in flight and what is done with their answers, in
    whatever order they arrive. Toasts, dialogs and counters are left out. *)

From stdpp Require Import base list strings sorting.
From S2P Require Import Prelude RustStd Text GuiModels Browser BrowserSpec.

(** ** State *)

Record DeviceEntry := mkDevice {
  serial : bytes; model : option bytes; transport : bytes; storage : option (Z * Z);
  battery_pct : option Z; abi : option bytes }.

Global Instance DeviceEntry_eq_dec : EqDecision DeviceEntry.
Proof. solve_decision. Defined.

Definition display_name (d : DeviceEntry) : bytes := default (serial d) (model d).

Inductive Selection := SelDevice (serial : bytes) | SelLocal (path : bytes).

(** A listing asked for: of a device, or of the disk. *)
Record request := mkRequest { r_device : option bytes; r_path : bytes }.

Record App := mkApp {
  browser : Browser;
  app_selection : option Selection;
  last_device : option bytes;
  devices : list DeviceEntry;
  auto_selected : bool;
  in_flight : list request;
  mounts_asked : list bytes }.

Definition app_new : App := mkApp new_browser None None [] false [] [].

Definition with_browser (b : Browser) (a : App) : App :=
  mkApp b (app_selection a) (last_device a) (devices a) (auto_selected a) (in_flight a) (mounts_asked a).
Definition with_choice (s : option Selection) (l : option bytes) (a : App) : App :=
  mkApp (browser a) s l (devices a) (auto_selected a) (in_flight a) (mounts_asked a).

(** [PartialEq for Path]: by components. *)
Definition components (p : bytes) : bool * list bytes :=
  let pieces := split_on 47 p in
  let absolute := match p with 47 :: _ => true | _ => false end in
  let keep := filter (fun c => c <> [] /\ c <> bs ".") in
  (absolute,
   match pieces with
   | c :: cs => if negb absolute && bool_decide (c = bs ".") then c :: keep cs else keep pieces
   | [] => []
   end).
Definition path_eqb (p q : bytes) : bool := bool_decide (components p = components q).

Section App.
(** [str::to_lowercase], and the [{:?}] form of a path. *)
Context (to_lowercase path_debug : bytes -> bytes).

(** ** Asking for a listing *)

Definition ask (r : request) (a : App) : App :=
  let '(started, b) := begin_load (browser a) in
  let a := with_browser b a in
  if started then
    mkApp (browser a) (app_selection a) (last_device a) (devices a) (auto_selected a) (in_flight a ++ [r]) (mounts_asked a)
  else a.

Definition fetch_dir_at (device path : bytes) (a : App) : App := ask (mkRequest (Some device) path) a.
Definition fetch_dir (device : bytes) (a : App) : App := fetch_dir_at device (current_path (target (browser a))) a.
Definition list_local (path : bytes) (a : App) : App := ask (mkRequest None path) a.

(** Whether an answer is still wanted. *)
Definition wanted (r : request) (b : Browser) : bool :=
  match r_device r with
  | Some d => bool_decide (device (target b) = Some d) && path_eqb (current_path (target b)) (r_path r)
  | None => path_eqb (current_path (target b)) (r_path r) && local_mode (target b)
  end.

(** What is done with the answer to a request. *)
Definition apply_answer (r : request) (answer : result bytes (list DirEntry)) (b : Browser) : option Browser :=
  if negb (wanted r b) then Some (cancel_load b)
  else match answer with
       | Ok es => install_entries to_lowercase es b
       | Err err =>
           Some (set_error (match r_device r with
                            | Some _ => bs "Could not read " ++ path_debug (r_path r) ++ bs ": " ++ err
                            | None => err
                            end) b)
       end.

Definition on_answer (i : nat) (answer : result bytes (list DirEntry)) (a : App) : option App :=
  match in_flight a !! i with
  | None => Some a
  | Some r =>
      b ← apply_answer r answer (browser a);
      Some (mkApp b (app_selection a) (last_device a) (devices a) (auto_selected a) (delete i (in_flight a)) (mounts_asked a))
  end.

Definition fetch_mountpoint (device : bytes) (a : App) : App :=
  mkApp (browser a) (app_selection a) (last_device a) (devices a) (auto_selected a) (in_flight a) (mounts_asked a ++ [device]).

(** The mount of a device is known: [None] for a failure or no mount. *)
Definition on_mount_answer (i : nat) (mount : option bytes) (a : App) : App :=
  match mounts_asked a !! i with
  | None => a
  | Some d =>
      let b := if bool_decide (device (target (browser a)) = Some d)
               then set_fuse_mount mount (browser a) else browser a in
      mkApp b (app_selection a) (last_device a) (devices a) (auto_selected a) (in_flight a) (delete i (mounts_asked a))
  end.

(** ** Choosing what to browse *)

Definition target_device (a : App) : option bytes :=
  match app_selection a with Some (SelDevice s) => Some s | _ => None end.

Definition select_device (s : bytes) (a : App) : App :=
  let display := match list_find (fun d => serial d = s) (devices a) with
                 | Some (_, d) => display_name d
                 | None => s
                 end in
  let a := with_choice (Some (SelDevice s)) (Some s) a in
  let a := with_browser (set_device s display (browser a)) a in
  fetch_mountpoint s (fetch_dir s a).

Definition select_local (path : bytes) (a : App) : App :=
  let a := with_choice (Some (SelLocal path)) (last_device a) a in
  list_local path (with_browser (set_local path (browser a)) a).

Definition refresh_current (a : App) : App :=
  let a := with_browser (cancel_load (browser a)) a in
  if local_mode (target (browser a)) then list_local (current_path (target (browser a))) a
  else match target_device a with Some d => fetch_dir d a | None => a end.

(** A folder has been entered and needs its listing. *)
Definition fetch_for (path : bytes) (a : App) : App :=
  if local_mode (target (browser a)) then list_local path a
  else match target_device a with Some d => fetch_dir_at d path a | None => a end.

(** [BrowserEvent::Navigate] and [BrowserEvent::Up]. *)
Definition on_navigate (path : bytes) (a : App) : App := fetch_for path (with_browser (navigate path (browser a)) a).
Definition on_up (a : App) : App :=
  match parent (current_path (target (browser a))) with
  | Some p => on_navigate p a
  | None => a
  end.

(** The events of the pane that concern the listing. *)
Definition on_browser_event (e : option BrowserEvent) (a : App) : App :=
  match e with
  | Some (EvOpenedDirectory p) => fetch_for p a
  | Some (EvNavigate p) => on_navigate p a
  | Some EvUp => on_up a
  | Some EvRefresh => refresh_current a
  | _ => a
  end.

(** A path typed into the path bar. *)
Definition on_path_submitted (p : bytes) (a : App) : App :=
  on_browser_event (Some (EvOpenedDirectory p)) (with_browser (navigate p (browser a)) a).

(** The menu's Open, for a folder. *)
Definition on_menu_open (a : App) : App :=
  match focused_entry (browser a) with
  | Some e => if looks_like_dir e then on_path_submitted (full_path (browser a) e) a else a
  | None => a
  end.

(** ** The poll of the devices *)

Definition is_listed (s : bytes) (ds : list DeviceEntry) : bool := existsb (fun d => bool_decide (serial d = s)) ds.

Definition set_devices (ds : list DeviceEntry) (a : App) : App :=
  let a := match app_selection a with
           | Some (SelDevice s) =>
               if is_listed s ds then a else with_browser (set_idle (browser a)) (with_choice None None a)
           | _ => a
           end in
  let a := match last_device a with
           | Some s => if is_listed s ds then a else with_choice (app_selection a) None a
           | None => a
           end in
  if bool_decide (ds = devices a) then a
  else
    let a := mkApp (browser a) (app_selection a) (last_device a) ds (auto_selected a) (in_flight a) (mounts_asked a) in
    match auto_selected a, app_selection a, ds with
    | false, None, first :: _ =>
        select_device (serial first)
          (mkApp (browser a) (app_selection a) (last_device a) ds true (in_flight a) (mounts_asked a))
    | _, _, _ => a
    end.

(** The poll failed. *)
Definition devices_failed (a : App) : App :=
  mkApp (set_idle (browser a)) None (last_device a) [] (auto_selected a) (in_flight a) (mounts_asked a).
End App.
