(* ===== verification/AppListingSpec.v ===== *)
(** * What the window shows is the folder it names

    Runs of the listing part of the window: the user acts, answers come back
    in any order, phones come and go. *)

From stdpp Require Import base list strings sorting.
From S2P Require Import Prelude RustStd Text GuiModels Browser BrowserSpec AppListing.

Section Spec.
Context (to_lowercase path_debug : bytes -> bytes).

(** ** Steps *)

(** The operations of the pane the user has; the others are the window's. *)
Definition by_user (o : op) : bool :=
  match o with
  | SetDevice _ _ | SetLocal _ | SetIdle | SetFuseMount _ | SetEntries _ | SetError _ | BeginLoad | CancelLoad
  | Navigate _ => false
  | _ => true
  end.

(** An operation of the pane with the event it emits. *)
Definition pane (o : op) (b : Browser) : option (option BrowserEvent * Browser) :=
  match o with
  | Click i s c n => on_item_click i s c n b
  | RightClick i => on_item_right_click i b
  | OpenFocused => Some (open_focused b)
  | GoBack => Some (step_back b)
  | GoForward => Some (step_forward b)
  | _ => b' ← exec to_lowercase o b; Some (None, b')
  end.

Inductive act :=
| Pane (o : op) | Up | Refresh | Breadcrumb (p : bytes) | PathBar (p : bytes) | MenuOpen
| PickDevice (s : bytes) | PickLocal (p : bytes)
| Answer (i : nat) (answer : result bytes (list DirEntry)) | MountAnswer (i : nat) (mount : option bytes)
| Poll (ds : list DeviceEntry) | PollFailed.

(** The events are handled when the operation that emitted them is over. *)
Definition run (x : act) (a : App) : option App :=
  match x with
  | Pane o =>
      '(e, b) ← pane o (browser a);
      Some (on_browser_event e (with_browser b a))
  | Up => Some (on_browser_event (step_up (browser a)) a)
  | Refresh => Some (on_browser_event (Some EvRefresh) a)
  | Breadcrumb p => Some (on_browser_event (Some (EvNavigate p)) a)
  | PathBar p => Some (on_path_submitted p a)
  | MenuOpen => Some (on_menu_open a)
  | PickDevice s => Some (select_device s a)
  | PickLocal p => Some (select_local p a)
  | Answer i ans => on_answer to_lowercase path_debug i ans a
  | MountAnswer i m => Some (on_mount_answer i m a)
  | Poll ds => Some (set_devices ds a)
  | PollFailed => Some (devices_failed a)
  end.

(** The answer the pane has taken since its folder was opened. *)
Definition taken : Type := option (request * result bytes (list DirEntry)).

Definition reopened (a a' : App) (g : taken) : taken :=
  if bool_decide (app_selection a' = None) then None
  else if bool_decide (length (in_flight a) < length (in_flight a'))%nat then None
  else g.
Definition answered (x : act) (a a' : App) (g : taken) : taken :=
  match x with
  | Answer i ans =>
      match in_flight a !! i with
      | Some r => if wanted r (browser a) then Some (r, ans) else g
      | None => g
      end
  | Refresh => g
  | _ => reopened a a' g
  end.

(** No phone has the serial that stands for the disk. *)
Definition possible_act (x : act) (a : App) : Prop :=
  match x with
  | Pane o => by_user o = true
  | PickDevice s => s <> LOCAL_DEVICE
  | Poll ds => Forall (fun d => serial d <> LOCAL_DEVICE) ds
  | _ => True
  end.

Inductive shows : App -> taken -> Prop :=
| shows_new : shows app_new None
| shows_step x a a' g : shows a g -> possible_act x a -> run x a = Some a' -> shows a' (answered x a a' g).

(** ** The invariant *)

Definition coherent (a : App) : Prop :=
  let t := target (browser a) in
  match app_selection a with
  | Some (SelDevice s) => s <> LOCAL_DEVICE /\ device t = Some s /\ local_mode t = false
  | Some (SelLocal _) => device t = Some LOCAL_DEVICE /\ local_mode t = true
  | None => device t = None /\ local_mode t = false
  end.
Definition real (r : request) : Prop := r_device r <> Some LOCAL_DEVICE.
Definition base (a : App) : Prop := coherent a /\ Forall real (in_flight a).

Definition asked (a : App) : Prop := exists r, r ∈ in_flight a /\ wanted r (browser a) = true.
Definition holds (answer : result bytes (list DirEntry)) (b : Browser) : Prop :=
  match answer with Ok es => entries (lists b) ≡ₚ es | Err _ => entries (lists b) = [] end.

Definition sound (a : App) (g : taken) : Prop :=
  base a
  /\ (loading (browser a) = true -> asked a)
  /\ match g with
     | Some (r, ans) => real r /\ wanted r (browser a) = true /\ holds ans (browser a)
     | None => entries (lists (browser a)) = [] /\ (app_selection a <> None -> asked a)
     end.

Lemma path_eqb_refl p : path_eqb p p = true.
Proof using. unfold path_eqb. by rewrite bool_decide_eq_true. Qed.

(** Without a selection no answer is wanted. *)
Lemma idle_unwanted a r : coherent a -> app_selection a = None -> wanted r (browser a) = false.
Proof using.
  unfold coherent, wanted. intros Hc Hs. rewrite Hs in Hc. destruct Hc as [Hd Hl].
  destruct (r_device r); [|by rewrite Hl, andb_false_r]. rewrite bool_decide_eq_false_2; [done|]. by rewrite Hd.
Qed.

(** Steps that leave the open folder open. *)
Definition same_target (b b' : Browser) : Prop :=
  device (target b') = device (target b) /\ current_path (target b') = current_path (target b)
  /\ local_mode (target b') = local_mode (target b).
Definition quiet (b b' : Browser) : Prop :=
  same_target b b' /\ (loading b' = true -> loading b = true) /\ entries (lists b') ≡ₚ entries (lists b).

Lemma same_target_wanted b b' r : same_target b b' -> wanted r b' = wanted r b.
Proof using. intros (H1 & H2 & H3). unfold wanted. by rewrite H1, H2, H3. Qed.

Lemma same_target_base a b' : same_target (browser a) b' -> base a -> base (with_browser b' a).
Proof using.
  intros (H1 & H2 & H3) [Hc Hr]. split; [|done]. unfold coherent in *. cbn. by rewrite H1, H3.
Qed.

Lemma holds_perm ans b b' : entries (lists b') ≡ₚ entries (lists b) -> holds ans b -> holds ans b'.
Proof using.
  intros He. destruct ans as [es|e]; cbn; [by rewrite He|]. intros H. rewrite H in He. by apply Permutation_nil_r in He.
Qed.

Lemma quiet_sound a b' g : quiet (browser a) b' -> sound a g -> sound (with_browser b' a) g.
Proof using.
  intros (Ht & Hl & He) (Hb & Hload & Hg). pose proof (same_target_base _ _ Ht Hb) as Hb'.
  assert (asked a -> asked (with_browser b' a)) as Ha.
  { intros (r & Hin & Hw). exists r. split; [done|]. cbn. by rewrite (same_target_wanted _ _ _ Ht). }
  split; [done|]. split; [by eauto|]. destruct g as [[r ans]|].
  - destruct Hg as (Hr & Hw & Hh). cbn. rewrite (same_target_wanted _ _ _ Ht). split_and!; [done..|by eapply holds_perm].
  - destruct Hg as [Hn Hs]. cbn. rewrite Hn in He. apply Permutation_nil_r in He. by eauto.
Qed.

(** A folder has just been opened: nothing is shown or awaited. *)
Definition opened (a : App) : Prop :=
  base a /\ loading (browser a) = false /\ entries (lists (browser a)) = [].

(** Opening a folder asks for it, whichever way the folder is reached. *)
Definition asks (a a' : App) : Prop :=
  sound a' None /\ app_selection a' = app_selection a
  /\ (app_selection a <> None -> (length (in_flight a) < length (in_flight a'))%nat).

Lemma ask_asks r a : opened a -> real r -> wanted r (browser a) = true -> asks a (ask r a).
Proof using.
  intros ((Hc & Hf) & Hl & He) Hr Hw. unfold asks, ask, begin_load. rewrite Hl. cbn.
  split; [|split; [done|intros _; rewrite length_app; cbn; lia]].
  assert (asked (mkApp (with_loading true (browser a)) (app_selection a) (last_device a) (devices a) (auto_selected a)
    (in_flight a ++ [r]) (mounts_asked a))) as Ha.
  { exists r. cbn. split; [apply elem_of_app; right; by left|done]. }
  split; [split; [done|]|by split]. cbn. apply Forall_app. split; [done|by repeat constructor].
Qed.

Lemma fetch_for_asks p a :
  opened a -> current_path (target (browser a)) = p -> asks a (fetch_for p a).
Proof using.
  intros Ho Hp. pose proof Ho as ((Hc & Hf) & Hl & He). unfold fetch_for, target_device, coherent in *.
  destruct (app_selection a) as [[s|q]|] eqn:Hs.
  - destruct Hc as (Hs' & Hd & Hlm). rewrite Hlm. apply ask_asks; [done|unfold real; cbn; congruence|].
    unfold wanted. cbn. by rewrite Hd, Hp, path_eqb_refl, bool_decide_eq_true_2.
  - destruct Hc as [Hd Hlm]. rewrite Hlm. apply ask_asks; [done..|]. unfold wanted. cbn. by rewrite Hp, path_eqb_refl, Hlm.
  - destruct Hc as [Hd Hlm]. rewrite Hlm. split; [|done]. split; [split; [|done]|split; [by rewrite Hl|done]].
    unfold coherent. by rewrite Hs.
Qed.

(** ** The operations of the pane *)

Definition enters (p : bytes) (b b' : Browser) : Prop :=
  device (target b') = device (target b) /\ local_mode (target b') = local_mode (target b)
  /\ current_path (target b') = p /\ loading b' = false /\ entries (lists b') = [].

Lemma enters_opened p a b' : enters p (browser a) b' -> base a -> opened (with_browser b' a).
Proof using.
  intros (Hd & Hm & _ & Hl & He) [Hc Hf]. split; [|done]. split; [|done]. unfold coherent in *. cbn. by rewrite Hd, Hm.
Qed.

(** What the window makes of an operation: nothing, or a folder was entered. *)
Definition outcome (e : option BrowserEvent) (b b' : Browser) : Prop :=
  ((forall a, on_browser_event e a = a) /\ quiet b b') \/ exists p, e = Some (EvOpenedDirectory p) /\ enters p b b'.

Lemma quiet_lists b b' :
  target b' = target b -> loading b' = loading b -> entries (lists b') ≡ₚ entries (lists b) -> quiet b b'.
Proof using. unfold quiet, same_target. by intros -> -> ?. Qed.

Lemma still b b' :
  target b' = target b -> loading b' = loading b -> entries (lists b') ≡ₚ entries (lists b) -> outcome None b b'.
Proof using. left. split; [done|by apply quiet_lists]. Qed.

Lemma open_index_outcome i b b0 :
  target b = target b0 -> loading b = loading b0 -> entries (lists b) = entries (lists b0) ->
  outcome (into_event <$> (open_index i b).1) b0 (open_index i b).2.
Proof using.
  intros Ht Hl He. assert (quiet b0 b) as Hq by (apply quiet_lists; [done..|by rewrite He]). unfold open_index. destruct (entries (lists b) !! i) as [x|]; [|by left].
  destruct (looks_like_dir x).
  - right. eexists. split; [done|]. unfold enters, push_history. by destruct (navigating_history _); cbn; rewrite Ht.
  - left. by case_bool_decide.
Qed.

Lemma click_row_keeps i x b b' :
  click_row i x b = Some b' -> target b' = target b /\ loading b' = loading b /\ entries (lists b') = entries (lists b).
Proof using.
  unfold click_row. destruct (click_lists i x (lists b)) as [l|] eqn:Hc; [|done]. intros [= <-]. cbn.
  split_and!; [done..|]. revert Hc. unfold click_lists, extend_range. destruct x; [by intros [= <-]..|].
  destruct (extend_anchor _); [|by intros [= <-]]. destruct (position _ _); [|by intros [= <-]].
  destruct (position _ _); [|by intros [= <-]]. destruct (insert_slots _ _ _ _); [|done]. by intros [= <-].
Qed.

Lemma apply_sort_keeps b b' :
  apply_sort to_lowercase b = Some b' ->
  target b' = target b /\ loading b' = loading b /\ entries (lists b') ≡ₚ entries (lists b).
Proof using.
  unfold apply_sort. destruct (sort_entries _ _ _ _) as [[es order]|] eqn:He; [|done]. cbn [mbind option_bind].
  destruct (moved_table _ _ _); [|done]. intros [= <-]. split_and!; [done..|]. by apply sort_entries_perm in He.
Qed.

Lemma pane_outcome o b e b' : by_user o = true -> pane o b = Some (e, b') -> outcome e b b'.
Proof using.
  intros Hu. destruct o; try discriminate Hu; cbn [pane exec]; try (cbn [mbind option_bind]; intros [= <- <-]; by apply still).
  - destruct (set_sort _ _ _ _) as [b1|] eqn:Hs; [|done]. intros [= <- <-].
    apply apply_sort_keeps in Hs as (Ht & Hl & He). by apply still.
  - cbn [mbind option_bind]. intros [= <- <-]. unfold set_search_active. destruct (Bool.eqb _ _); [by apply still|].
    by destruct (_ && _); apply still.
  - unfold step_back, go_back. destruct (back (history b)) as [|p rest]; intros [= <- <-]; [by apply still|].
    right. exists p. by split.
  - unfold step_forward, go_forward. destruct (forward (history b)) as [|p rest]; intros [= <- <-]; [by apply still|].
    right. exists p. by split.
  - unfold on_item_click. destruct (click_row _ _ _) as [b1|] eqn:Hc; [|done]. cbn [mbind option_bind].
    apply click_row_keeps in Hc as (Ht & Hl & He). destruct (2 <=? count)%nat.
    + pose proof (open_index_outcome i b1 b Ht Hl He) as Ho. destruct (open_index i b1). by intros [= <- <-].
    + intros [= <- <-]. apply still; [done..|by rewrite He].
  - unfold on_item_right_click. destruct (IndexSet.contains _ _); cbn [mbind option_bind].
    + intros [= <- <-]. left. split; [done|by apply quiet_lists].
    + destruct (click_row _ _ _) as [b1|] eqn:Hc; [|done]. cbn [mbind option_bind]. intros [= <- <-].
      apply click_row_keeps in Hc as (Ht & Hl & He). left. split; [done|]. apply quiet_lists; [done..|cbn; by rewrite He].
  - unfold open_focused. destruct (_ ≫= _) as [i|]; [|intros [= <- <-]; by apply still].
    pose proof (open_index_outcome i b b eq_refl eq_refl eq_refl) as Ho. destruct (open_index i b). by intros [= <- <-].
  - unfold focus_step. case_bool_decide; [intros [= <- <-]; by apply still|].
    destruct (_ !! _); [|done]. intros [= <- <-]. by apply still.
  - unfold jump_focus. case_bool_decide; [intros [= <- <-]; by apply still|].
    destruct (_ !! _); [|done]. intros [= <- <-]. by apply still.
  - intros [= <- <-]. unfold on_drag_start. by destruct modifier, (existsb _ _); apply still.
  - unfold on_drag_move. destruct (dragging (drag b)); cbn [negb]; [|intros [= <- <-]; by apply still].
    destruct (match slots with Some _ => _ | None => _ end); [|done]. intros [= <- <-]. by apply still.
Qed.

(** ** Every step keeps it *)

Lemma sound_idle a g : sound a g -> app_selection a = None -> g = None.
Proof using.
  intros ((Hc & _) & _ & Hg) Hs. destruct g as [[r ans]|]; [|done]. destruct Hg as (_ & Hw & _).
  by rewrite (idle_unwanted a r Hc Hs) in Hw.
Qed.

Lemma reopened_same a a' g : sound a' g -> in_flight a' = in_flight a -> sound a' (reopened a a' g).
Proof using.
  intros Hs Hf. unfold reopened. case_bool_decide as Hn; [by rewrite (sound_idle a' g Hs Hn) in Hs|].
  rewrite Hf. by rewrite bool_decide_eq_false_2 by lia.
Qed.

Lemma reopened_asks a a0 a' g : asks a0 a' -> in_flight a0 = in_flight a -> sound a' (reopened a a' g).
Proof using.
  intros (Hs & Hsel & Hlt) Hf. unfold reopened. case_bool_decide as Hn; [done|]. rewrite <- Hf.
  rewrite bool_decide_eq_true_2; [done|]. apply Hlt. congruence.
Qed.

Lemma navigate_enters p b : enters p b (navigate p b).
Proof using. unfold enters, navigate, push_history. by destruct (navigating_history _). Qed.

Lemma entered_sound p a b' g :
  base a -> enters p (browser a) b' -> sound (fetch_for p (with_browser b' a)) (reopened a (fetch_for p (with_browser b' a)) g).
Proof using.
  intros Hb He. apply (reopened_asks a (with_browser b' a)); [|done]. apply fetch_for_asks.
  - by eapply enters_opened.
  - by destruct He as (_ & _ & ? & _).
Qed.

Lemma select_device_asks s a : base a -> s <> LOCAL_DEVICE ->
  exists a0, in_flight a0 = in_flight a /\ app_selection a0 = Some (SelDevice s) /\ asks a0 (select_device s a).
Proof using.
  intros [Hc Hf] Hs. unfold select_device, fetch_dir, fetch_dir_at. set (dn := match list_find _ _ with Some _ => _ | None => _ end).
  set (a0 := with_browser (set_device s dn (browser a)) (with_choice (Some (SelDevice s)) (Some s) a)).
  exists a0. split; [done|]. split; [done|].
  assert (asks a0 (ask (mkRequest (Some s) (current_path (target (browser a0)))) a0)) as (H1 & H2 & H3);
    [apply ask_asks|split; [exact H1|split; [exact H2|exact H3]]].
  - split; [|done]. split; [done|exact Hf].
  - unfold real. cbn. congruence.
  - unfold wanted. cbn. by rewrite path_eqb_refl, bool_decide_eq_true_2.
Qed.

Lemma select_local_asks p a : base a ->
  exists a0, in_flight a0 = in_flight a /\ asks a0 (select_local p a).
Proof using.
  intros [Hc Hf]. unfold select_local, list_local.
  set (a0 := with_browser (set_local p (browser a)) (with_choice (Some (SelLocal p)) (last_device a) a)).
  exists a0. split; [done|].
  apply (ask_asks (mkRequest None p) a0); [|done|].
  - split; [|done]. split; [done|exact Hf].
  - unfold wanted. cbn. by rewrite path_eqb_refl.
Qed.

(** A request on top of what is shown. *)
Lemma ask_more r a g :
  sound a g -> real r -> loading (browser a) = false -> wanted r (browser a) = true -> sound (ask r a) g.
Proof using.
  intros ((Hc & Hf) & Hl & Hg) Hr Hload Hw. unfold ask, begin_load. rewrite Hload. cbn.
  assert (forall q, asked (mkApp (with_loading true (browser a)) (app_selection a) (last_device a) (devices a) q
    (in_flight a ++ [r]) (mounts_asked a))) as Ha.
  { intros q. exists r. cbn. split; [apply elem_of_app; right; by left|done]. }
  split; [split; [done|]|split; [done|]].
  - cbn. apply Forall_app. split; [done|by repeat constructor].
  - destruct g as [[q ans]|]; [exact Hg|]. by destruct Hg.
Qed.

Lemma cancel_quiet b : quiet b (cancel_load b) /\ loading (cancel_load b) = false.
Proof using. unfold cancel_load. destruct (loading b) eqn:Hl; (split; [|done]); repeat split; congruence || done. Qed.

Lemma refresh_sound a g : sound a g -> sound (refresh_current a) g.
Proof using.
  intros Hs. destruct (cancel_quiet (browser a)) as [Hq Hl]. unfold refresh_current.
  apply (quiet_sound _ _ _ Hq) in Hs. set (a1 := with_browser (cancel_load (browser a)) a) in *.
  pose proof Hs as ((Hc & _) & _). unfold target_device, coherent in *.
  destruct (app_selection a1) as [[s|q]|] eqn:Hsel.
  - destruct Hc as (Hne & Hd & Hlm). rewrite Hlm. apply ask_more; [done|unfold real; cbn; congruence|done|].
    unfold wanted. cbn [r_device r_path]. by rewrite Hd, path_eqb_refl, bool_decide_eq_true_2.
  - destruct Hc as [Hd Hlm]. rewrite Hlm. apply ask_more; [done..|]. unfold wanted. cbn [r_device r_path].
    by rewrite path_eqb_refl, Hlm.
  - destruct Hc as [_ ->]. done.
Qed.

(** An answer: taken when it is wanted, dropped otherwise. *)
Lemma answer_sound i ans a a' g :
  sound a g -> on_answer to_lowercase path_debug i ans a = Some a' -> sound a' (answered (Answer i ans) a a' g).
Proof using.
  intros Hs. pose proof Hs as ((Hc & Hf) & Hl & Hg). unfold on_answer, answered.
  destruct (in_flight a !! i) as [r|] eqn:Hi; [|by intros [= <-]]. unfold apply_answer.
  pose proof (proj1 (Forall_lookup _ _) Hf i r Hi) as Hr.
  assert (Forall real (delete i (in_flight a))) as Hf' by (by apply Forall_delete).
  destruct (wanted r (browser a)) eqn:Hw; cbn [negb].
  - destruct ans as [es|e].
    + destruct (install_entries _ _ _) as [b'|] eqn:Hb; [|done]. intros [= <-].
      unfold install_entries in Hb. destruct (sort_entries _ _ _ _) as [[es' order]|] eqn:He; [|done].
      injection Hb as <-. apply sort_entries_perm in He. by split; [split|split; [done|split]].
    + intros [= <-]. by split; [split|split; [done|split]].
  - cbn [mbind option_bind]. intros [= <-]. destruct (cancel_quiet (browser a)) as [Hq Hload].
    apply (quiet_sound _ _ _ Hq) in Hs as ((Hc' & _) & _ & Hg').
    split; [by split|]. split; [cbn; by rewrite Hload|]. destruct g as [[q ans']|]; [exact Hg'|].
    destruct Hg' as [Hn Ha]. split; [done|]. intros Hsel. destruct (Ha Hsel) as (q & Hin & Hwq).
    exists q. split; [|done]. cbn in *. rewrite (same_target_wanted _ _ q (proj1 Hq)) in Hwq.
    apply list_elem_of_lookup in Hin as [j Hj]. destruct (decide (i = j)) as [->|Hne]; [congruence|].
    apply list_elem_of_lookup. destruct (decide (j < i)%nat).
    + exists j. by rewrite list_lookup_delete_lt.
    + exists (j - 1)%nat. rewrite list_lookup_delete_ge by lia. by replace (S (j - 1)) with j by lia.
Qed.

Lemma idle_sound a l ds auto m f :
  Forall real f -> sound (mkApp (set_idle (browser a)) None l ds auto f m) None.
Proof using. intros Hf. by split; [split|]. Qed.

Lemma sound_ext a a' g :
  browser a' = browser a -> app_selection a' = app_selection a -> in_flight a' = in_flight a -> sound a g -> sound a' g.
Proof using. destruct a, a'. cbn. by intros -> -> ->. Qed.

(** The phones that are gone are let go of. *)
Definition let_go (ds : list DeviceEntry) (a : App) : App :=
  let a := match app_selection a with
           | Some (SelDevice s) =>
               if is_listed s ds then a else with_browser (set_idle (browser a)) (with_choice None None a)
           | _ => a
           end in
  match last_device a with
  | Some s => if is_listed s ds then a else with_choice (app_selection a) None a
  | None => a
  end.

Lemma let_go_sound ds a g :
  sound a g -> exists g', sound (let_go ds a) g' /\ in_flight (let_go ds a) = in_flight a
    /\ (g' = g \/ app_selection (let_go ds a) = None).
Proof using.
  intros Hs. assert (exists a1 g', sound a1 g' /\ in_flight a1 = in_flight a /\ (g' = g \/ app_selection a1 = None)
    /\ let_go ds a = match last_device a1 with
                     | Some s => if is_listed s ds then a1 else with_choice (app_selection a1) None a1
                     | None => a1
                     end) as (a1 & g' & Hs1 & Hf1 & Hg1 & ->).
  { unfold let_go. destruct (app_selection a) as [[s|p]|]; [destruct (is_listed s ds)|..];
      try (eexists a, g; split_and!; [apply Hs..|done|by left|done]).
    eexists _, None. split; [apply (idle_sound a); apply Hs|]. split_and!; [done|by right|done]. }
  exists g'. destruct (last_device a1) as [s|]; [destruct (is_listed s ds)|]; [done| |done].
  split_and!; [by apply (sound_ext a1)..|done|done].
Qed.

Lemma poll_sound ds a g :
  sound a g -> Forall (fun d => serial d <> LOCAL_DEVICE) ds ->
  sound (set_devices ds a) (reopened a (set_devices ds a) g).
Proof using.
  intros Hs Hds. destruct (let_go_sound ds a g Hs) as (g' & Hs1 & Hf1 & Hg1).
  assert (forall a', browser a' = browser (let_go ds a) -> app_selection a' = app_selection (let_go ds a) ->
    in_flight a' = in_flight (let_go ds a) -> sound a' (reopened a a' g)) as Hsame.
  { intros a' Hb' Hsel' Hf'. assert (sound a' g') as Hs' by (by apply (sound_ext (let_go ds a))).
    destruct Hg1 as [->|Hn]; [apply reopened_same; [done|congruence]|].
    unfold reopened. rewrite bool_decide_eq_true_2 by congruence.
    by rewrite (sound_idle a' g') in Hs' by (done || congruence). }
  change (set_devices ds a) with
    (let a1 := let_go ds a in
     if bool_decide (ds = devices a1) then a1
     else
       let a := mkApp (browser a1) (app_selection a1) (last_device a1) ds (auto_selected a1) (in_flight a1) (mounts_asked a1) in
       match auto_selected a, app_selection a, ds with
       | false, None, first :: _ =>
           select_device (serial first)
             (mkApp (browser a) (app_selection a) (last_device a) ds true (in_flight a) (mounts_asked a))
       | _, _, _ => a
       end).
  cbv zeta. case_bool_decide; [by apply Hsame|]. cbn [auto_selected app_selection].
  destruct (auto_selected (let_go ds a)); [by apply Hsame|].
  destruct (app_selection (let_go ds a)) as [sel|] eqn:Hsel; [by apply Hsame|].
  destruct ds as [|d ds']; [by apply Hsame|]. apply Forall_cons in Hds as [Hd _].
  match goal with |- sound (select_device _ ?x) _ => destruct (select_device_asks (serial d) x) as (a0 & Hf0 & _ & Ha) end.
  - destruct Hs1 as ((Hc & Hfr) & _). split; [|exact Hfr]. unfold coherent in *. by rewrite Hsel in Hc.
  - done.
  - apply (reopened_asks a a0); [done|]. by rewrite Hf0.
Qed.

Lemma step_sound x a a' g : sound a g -> possible_act x a -> run x a = Some a' -> sound a' (answered x a a' g).
Proof using.
  intros Hs Hp. pose proof (proj1 Hs) as Hb. destruct x; cbn [run possible_act] in *;
    try (intros [= <-]; cbn [answered]).
  - destruct (pane o (browser a)) as [[e b']|] eqn:Hpane; [|done]. cbn [mbind option_bind]. intros [= <-]. cbn [answered].
    destruct (pane_outcome o (browser a) e b' Hp Hpane) as [[He Hq]|(p & -> & He)].
    + rewrite He. apply reopened_same; [by apply quiet_sound|done].
    + by apply entered_sound.
  - unfold step_up. destruct (can_go_up _); [|by apply reopened_same]. cbn [on_browser_event]. unfold on_up.
    destruct (parent _) as [p|]; [|by apply reopened_same]. apply entered_sound; [done|apply navigate_enters].
  - by apply refresh_sound.
  - apply entered_sound; [done|apply navigate_enters].
  - apply entered_sound; [done|apply navigate_enters].
  - unfold on_menu_open. destruct (focused_entry _) as [e|]; [|by apply reopened_same].
    destruct (looks_like_dir e); [|by apply reopened_same]. apply entered_sound; [done|apply navigate_enters].
  - destruct (select_device_asks s a Hb Hp) as (a0 & Hf0 & _ & Ha). by apply (reopened_asks a a0).
  - destruct (select_local_asks p a Hb) as (a0 & Hf0 & Ha). by apply (reopened_asks a a0).
  - by apply answer_sound.
  - unfold on_mount_answer. destruct (mounts_asked a !! i) as [d|]; [|by apply reopened_same].
    apply reopened_same; [|done].
    match goal with |- sound (mkApp ?b _ _ _ _ _ _) _ => apply (sound_ext (with_browser b a)); [done..|] end.
    apply quiet_sound; [|done]. by case_bool_decide.
  - by apply poll_sound.
  - unfold devices_failed, reopened. cbn. apply idle_sound. apply Hb.
Qed.

Lemma shows_sound a g : shows a g -> sound a g.
Proof using. induction 1; [by split; [split|]|by eapply step_sound]. Qed.

(** ** What the user sees *)

(** The listing the window should show. *)
Definition open_folder (a : App) : option request :=
  sel ← app_selection a;
  Some (mkRequest (match sel with SelDevice s => Some s | SelLocal _ => None end) (current_path (target (browser a)))).
Definition same_folder (r q : request) : Prop := r_device r = r_device q /\ path_eqb (r_path r) (r_path q) = true.

Lemma wanted_folder a r :
  base a -> real r -> wanted r (browser a) = true -> exists f, open_folder a = Some f /\ same_folder f r.
Proof using.
  intros [Hc _] Hr Hw. unfold open_folder, same_folder, coherent, wanted, real in *.
  destruct (r_device r) as [d|] eqn:Hd; apply andb_prop in Hw as [H1 H2].
  - apply bool_decide_eq_true in H1.
    destruct (app_selection a) as [[s|p]|]; [|destruct Hc; congruence..].
    eexists. split; [done|]. cbn. destruct Hc as (_ & Hs & _). split; [congruence|done].
  - destruct (app_selection a) as [[s|p]|]; [destruct Hc as (_ & _ & Hm); congruence| |destruct Hc; congruence].
    by eexists.
Qed.

(** C24: whatever the user does, in whatever order the listings come back and
    the phones come and go, the window never shows one folder's files under
    another's name and never sits on a folder without a listing of it being
    on its way. Without a selection it shows nothing and waits for nothing.
    With one: what it shows is the last answer it took since the folder was
    opened, and that answer is for the selected phone (or the disk) and the
    path in the path bar; before the first answer it shows nothing and a
    request for just that folder is in flight, and so is one whenever the
    pane says it is loading. No answer makes the pane panic. *)
Theorem listing_is_of_the_open_folder a g :
  shows a g ->
  match open_folder a with
  | None => entries (lists (browser a)) = [] /\ loading (browser a) = false
  | Some f =>
      (loading (browser a) = true -> exists r, r ∈ in_flight a /\ same_folder f r)
      /\ match g with
         | Some (r, Ok es) => same_folder f r /\ entries (lists (browser a)) ≡ₚ es
         | Some (r, Err _) => same_folder f r /\ entries (lists (browser a)) = []
         | None => entries (lists (browser a)) = [] /\ exists r, r ∈ in_flight a /\ same_folder f r
         end
  end
  /\ forall i ans, exists a', run (Answer i ans) a = Some a'.
Proof using.
  intros Hsh. pose proof (shows_sound a g Hsh) as Hs. pose proof Hs as (Hb & Hl & Hg). split.
  2:{ intros i ans. cbn. unfold on_answer. destruct (in_flight a !! i) as [r|]; [|by eexists]. unfold apply_answer.
      destruct (wanted r _), ans as [es|e]; cbn [negb]; try by eexists.
      destruct (install_entries_some to_lowercase es (browser a)) as (b' & -> & _). by eexists. }
  assert (asked a -> exists f r, open_folder a = Some f /\ r ∈ in_flight a /\ same_folder f r) as Hask.
  { intros (r & Hin & Hw). destruct (wanted_folder a r Hb) as (f & Hf & Hsame); [|done|by exists f, r].
    destruct Hb as [_ Hr]. by apply (proj1 (Forall_forall _ _) Hr). }
  destruct (open_folder a) as [f|] eqn:Hf.
  - split; [intros H; destruct (Hask (Hl H)) as (f' & r & [= <-] & ?); by exists r|].
    destruct g as [[r ans]|].
    + destruct Hg as (Hr & Hw & Hh). destruct (wanted_folder a r Hb Hr Hw) as (f' & Hf' & Hsame).
      rewrite Hf in Hf'. injection Hf' as <-. by destruct ans.
    + destruct Hg as [Hn Ha]. split; [done|].
      assert (app_selection a <> None) as Hsel by (intros H; unfold open_folder in Hf; by rewrite H in Hf).
      destruct (Hask (Ha Hsel)) as (f' & r & [= <-] & ?). by exists r.
  - assert (app_selection a = None) as Hsel by (unfold open_folder in Hf; by destruct (app_selection a)).
    rewrite (sound_idle a g Hs Hsel) in Hg. split; [apply Hg|]. destruct (loading (browser a)) eqn:Hlo; [|done].
    by destruct (Hask (Hl eq_refl)) as (f & r & ? & _).
Qed.
End Spec.

(** ** Witness and findings *)

Definition phone : DeviceEntry := mkDevice (bs "emulator-5554") (Some (bs "Pixel 8")) (bs "usb") None None None.
Definition listed (n : string) : DirEntry := mkEntry (bs n) false false 1 420 0.

Definition runs (xs : list act) (a : option App) : option App :=
  fold_left (fun oa x => a ← oa; run to_ascii_lower id x a) xs a.

Definition demo_asked : App := Eval vm_compute in default app_new (runs [Poll [phone]] (Some app_new)).
Definition demo_shown : App :=
  Eval vm_compute in default app_new (runs [Poll [phone]; Answer 0 (Ok [listed "b"; listed "a"])] (Some app_new)).
Definition demo_folder : request := Eval vm_compute in mkRequest (Some (bs "emulator-5554")) (bs "/sdcard/Download").

Lemma demo_shows : shows to_ascii_lower id demo_shown (Some (demo_folder, Ok [listed "b"; listed "a"])).
Proof.
  assert (shows to_ascii_lower id demo_asked None) as H1.
  { apply (shows_step to_ascii_lower id (Poll [phone]) app_new demo_asked None (shows_new _ _)); [|by vm_compute].
    repeat constructor; vm_compute; discriminate. }
  apply (shows_step to_ascii_lower id (Answer 0 (Ok [listed "b"; listed "a"])) demo_asked demo_shown None H1 I).
  by vm_compute.
Defined.

(** A phone is plugged in and its listing comes. *)
Lemma listing_is_of_the_open_folder_witness :
  same_folder demo_folder demo_folder /\ entries (lists (browser demo_shown)) ≡ₚ [listed "b"; listed "a"].
Proof. exact (proj2 (proj1 (listing_is_of_the_open_folder to_ascii_lower id demo_shown _ demo_shows))). Defined.

(** Two listings of the same folder can be in flight, since a refresh
    interrupts the first: the older one, when it comes last, replaces the
    newer. *)
Example older_answer_wins :
  (entries ∘ lists ∘ browser) <$> runs [Poll [phone]; Refresh; Answer 1 (Ok [listed "new"]); Answer 0 (Ok [listed "old"])] (Some app_new)
  = Some [listed "old"].
Proof. by vm_compute. Qed.

(** When the daemon stops answering, the selected phone is forgotten but not
    the remembered one. *)
Theorem failed_poll_remembers a : last_device (devices_failed a) = last_device a /\ devices (devices_failed a) = [].
Proof. by destruct a. Qed.
