(* ===== verification/TextField.v ===== *)
(** * The text field

    [adb-gui/src/views/textinput.rs]: the value, the selection in bytes, the
    marked text of an input method in UTF-16 units, and every operation on
    them that does not paint. A [str] is the list of its characters; a slice
    that does not fall between two characters panics, as [None]. Where a
    pointer lands in the text and where its graphemes begin are arguments. *)

From stdpp Require Import base list strings sorting.
From S2P Require Import Prelude RustStd Text.

(** ** Strings *)

Definition len_utf8 (c : Z) : nat := if c <? 0x80 then 1 else if c <? 0x800 then 2 else if c <? 0x10000 then 3 else 4.
Definition len_utf16 (c : Z) : nat := if c <? 0x10000 then 1 else 2.

(** [s.len()] *)
Definition str_len (s : list Z) : nat := sum_list (len_utf8 <$> s).

(** [&s[..n]] and [&s[n..]] *)
Fixpoint slice_to (s : list Z) (n : nat) : option (list Z) :=
  match n, s with
  | O, _ => Some []
  | _, [] => None
  | _, c :: s => if (len_utf8 c <=? n)%nat then cons c <$> slice_to s (n - len_utf8 c) else None
  end.
Fixpoint slice_from (s : list Z) (n : nat) : option (list Z) :=
  match n, s with
  | O, _ => Some s
  | _, [] => None
  | _, c :: s => if (len_utf8 c <=? n)%nat then slice_from s (n - len_utf8 c) else None
  end.

(** [&s[a..b]] *)
Definition slice_range (s : list Z) (a b : nat) : option (list Z) :=
  if (a <=? b)%nat then t ← slice_to s b; slice_from t a else None.

(** ** Offsets *)

Fixpoint utf8_to_utf16_from (text : list Z) (offset utf8_count utf16_offset : nat) : nat :=
  match text with
  | [] => utf16_offset
  | ch :: text =>
      if (offset <=? utf8_count)%nat then utf16_offset
      else utf8_to_utf16_from text offset (utf8_count + len_utf8 ch) (utf16_offset + len_utf16 ch)
  end.
Definition utf8_to_utf16 (text : list Z) (offset : nat) : nat := utf8_to_utf16_from text offset 0 0.

Fixpoint utf16_to_utf8_from (text : list Z) (offset utf16_count utf8_offset : nat) : nat :=
  match text with
  | [] => utf8_offset
  | ch :: text =>
      if (offset <=? utf16_count)%nat then utf8_offset
      else utf16_to_utf8_from text offset (utf16_count + len_utf16 ch) (utf8_offset + len_utf8 ch)
  end.
Definition utf16_to_utf8 (text : list Z) (offset : nat) : nat := utf16_to_utf8_from text offset 0 0.

(** ** State *)

(** [Range<usize>] *)
Record span := mkRange { r_start : nat; r_end : nat }.
Definition range_is_empty (r : span) : bool := negb (r_start r <? r_end r)%nat.

Record TextField := mkField {
  content : list Z;
  selected_range : span;
  selection_reversed : bool;
  marked_range : option span;
  is_selecting : bool }.

Inductive TextFieldEvent := Submitted (value : list Z) | Changed (value : list Z).

Definition new_field : TextField := mkField [] (mkRange 0 0) false None false.
Definition with_value (value : list Z) : TextField := mkField value (mkRange 0 (str_len value)) false None false.

Definition with_selection (r : span) (reversed : bool) (f : TextField) : TextField :=
  mkField (content f) r reversed (marked_range f) (is_selecting f).

Definition set_value (value : list Z) (f : TextField) : TextField :=
  mkField value (mkRange (str_len value) (str_len value)) (selection_reversed f) (marked_range f) (is_selecting f).

(** ** Selecting *)

Definition move_to (offset : nat) (f : TextField) : TextField := with_selection (mkRange offset offset) false f.

Definition cursor_offset (f : TextField) : nat :=
  if selection_reversed f then r_start (selected_range f) else r_end (selected_range f).

Definition select_to (offset : nat) (f : TextField) : TextField :=
  let r := selected_range f in
  let r := if selection_reversed f then mkRange offset (r_end r) else mkRange (r_start r) offset in
  if (r_end r <? r_start r)%nat then with_selection (mkRange (r_end r) (r_start r)) (negb (selection_reversed f)) f
  else with_selection r (selection_reversed f) f.

Definition select_everything (f : TextField) : TextField :=
  let f := move_to 0 f in select_to (str_len (content f)) f.

(** ** Editing *)

(** [content[0..start] + new_text + content[end..]] *)
Definition splice (s : list Z) (r : span) (new_text : list Z) : option (list Z) :=
  before ← slice_to s (r_start r);
  after ← slice_from s (r_end r);
  Some (before ++ new_text ++ after).

Definition target_range (range : option span) (f : TextField) : span :=
  match range with
  | Some r => r
  | None => match marked_range f with Some r => r | None => selected_range f end
  end.

(** Replace a range, the marked text or the selection. *)
Definition replace (range : option span) (new_text : list Z) (f : TextField) : option (TextFieldEvent * TextField) :=
  let r := target_range range f in
  content ← splice (content f) r new_text;
  let e := (r_start r + str_len new_text)%nat in
  Some (Changed content, mkField content (mkRange e e) (selection_reversed f) None (is_selecting f)).

Section Actions.
(** Where the graphemes of a text begin ([grapheme_indices]). *)
Context (graphemes : list Z -> list nat).

Definition previous_boundary (offset : nat) (f : TextField) : nat :=
  default 0%nat (snd <$> list_find (fun i => (i < offset)%nat) (reverse (graphemes (content f)))).
Definition next_boundary (offset : nat) (f : TextField) : nat :=
  default (str_len (content f)) (snd <$> list_find (fun i => (offset < i)%nat) (graphemes (content f))).

Definition left_ (f : TextField) : TextField :=
  if range_is_empty (selected_range f) then move_to (previous_boundary (cursor_offset f) f) f
  else move_to (r_start (selected_range f)) f.
Definition right_ (f : TextField) : TextField :=
  if range_is_empty (selected_range f) then move_to (next_boundary (r_end (selected_range f)) f) f
  else move_to (r_end (selected_range f)) f.
Definition select_left (f : TextField) : TextField := select_to (previous_boundary (cursor_offset f) f) f.
Definition select_right (f : TextField) : TextField := select_to (next_boundary (cursor_offset f) f) f.
Definition select_all (f : TextField) : TextField :=
  let f := move_to 0 f in select_to (str_len (content f)) f.
Definition home (f : TextField) : TextField := move_to 0 f.
Definition end_ (f : TextField) : TextField := move_to (str_len (content f)) f.

Definition backspace (f : TextField) : option (TextFieldEvent * TextField) :=
  let f := if range_is_empty (selected_range f) then select_to (previous_boundary (cursor_offset f) f) f else f in
  replace None [] f.
Definition delete (f : TextField) : option (TextFieldEvent * TextField) :=
  let f := if range_is_empty (selected_range f) then select_to (next_boundary (r_end (selected_range f)) f) f else f in
  replace None [] f.

(** The text of the clipboard, if it has one. *)
Definition paste (text : option (list Z)) (f : TextField) : option (option TextFieldEvent * TextField) :=
  match text with
  | Some t => '(e, f) ← replace None ((fun c => if c =? 10 then 32 else c) <$> t) f; Some (Some e, f)
  | None => Some (None, f)
  end.

Definition submit (f : TextField) : TextFieldEvent := Submitted (content f).

(** ** Mouse: [index] is where the pointer is in the text *)

Definition on_mouse_down (index : nat) (shift : bool) (f : TextField) : TextField :=
  let f := mkField (content f) (selected_range f) (selection_reversed f) (marked_range f) true in
  if shift then select_to index f else move_to index f.
Definition on_mouse_up (f : TextField) : TextField :=
  mkField (content f) (selected_range f) (selection_reversed f) (marked_range f) false.
Definition on_mouse_move (index : nat) (f : TextField) : TextField :=
  if is_selecting f then select_to index f else f.
End Actions.

(** ** The input method *)

Definition range_to_utf16 (f : TextField) (r : span) : span :=
  mkRange (utf8_to_utf16 (content f) (r_start r)) (utf8_to_utf16 (content f) (r_end r)).
Definition range_from_utf16 (f : TextField) (r : span) : span :=
  mkRange (utf16_to_utf8 (content f) (r_start r)) (utf16_to_utf8 (content f) (r_end r)).

Definition text_for_range (range_utf16 : span) (f : TextField) : option (span * list Z) :=
  let r := range_from_utf16 f range_utf16 in
  t ← slice_range (content f) (r_start r) (r_end r);
  Some (range_to_utf16 f r, t).
Definition selected_text_range (f : TextField) : span * bool :=
  (range_to_utf16 f (selected_range f), selection_reversed f).
Definition marked_text_range (f : TextField) : option span := range_to_utf16 f <$> marked_range f.
Definition unmark_text (f : TextField) : TextField :=
  mkField (content f) (selected_range f) (selection_reversed f) None (is_selecting f).

Definition replace_text_in_range (range_utf16 : option span) (new_text : list Z) (f : TextField)
    : option (TextFieldEvent * TextField) :=
  replace (range_from_utf16 f <$> range_utf16) new_text f.

(** The new selection is looked up in the new content, then moved by the start
    of what was replaced. *)
Definition replace_and_mark_text_in_range (range_utf16 : option span) (new_text : list Z) (new_selected : option span)
    (f : TextField) : option (TextFieldEvent * TextField) :=
  let r := target_range (range_from_utf16 f <$> range_utf16) f in
  content ← splice (content f) r new_text;
  let start := r_start r in
  let e := (start + str_len new_text)%nat in
  let marked := if bool_decide (new_text <> []) then Some (mkRange start e) else None in
  let f' := mkField content (selected_range f) (selection_reversed f) marked (is_selecting f) in
  let sel := match new_selected with
             | Some s => let s := range_from_utf16 f' s in mkRange (start + r_start s) (start + r_end s)
             | None => mkRange e e
             end in
  Some (Changed content, with_selection sel (selection_reversed f') f').
