(* ===== verification/TextFieldSpec.v ===== *)
(** * What the text field promises

    Offsets always fall between two characters, so nothing panics; the keys
    edit at the caret; the input method's UTF-16 ranges name the characters
    they mean. *)

From stdpp Require Import base list strings sorting.
From S2P Require Import Prelude RustStd Text TextField.

(** ** Offsets between characters *)

Definition units (s : list Z) : nat := sum_list (len_utf16 <$> s).

Definition boundary (s : list Z) (n : nat) : Prop := exists u v, s = u ++ v /\ n = str_len u.

Lemma len_utf8_pos c : (1 <= len_utf8 c)%nat.
Proof. unfold len_utf8. repeat case_bool; lia. Qed.
Lemma len_utf16_pos c : (1 <= len_utf16 c)%nat.
Proof. unfold len_utf16. case_bool; lia. Qed.

Lemma str_len_app u v : str_len (u ++ v) = (str_len u + str_len v)%nat.
Proof. unfold str_len. rewrite fmap_app. induction u; cbn in *; lia. Qed.
Lemma units_app u v : units (u ++ v) = (units u + units v)%nat.
Proof. unfold units. rewrite fmap_app. induction u; cbn in *; lia. Qed.
Lemma str_len_cons c u : str_len (c :: u) = (len_utf8 c + str_len u)%nat.
Proof. done. Qed.
Lemma units_cons c u : units (c :: u) = (len_utf16 c + units u)%nat.
Proof. done. Qed.

Lemma slice_to_app u v : slice_to (u ++ v) (str_len u) = Some u.
Proof.
  induction u as [|c u IH]; [by destruct v|]. rewrite str_len_cons. pose proof (len_utf8_pos c). cbn [app slice_to].
  destruct (len_utf8 c + str_len u)%nat as [|n] eqn:Hn; [lia|]. rewrite <- Hn.
  rewrite (proj2 (Nat.leb_le _ _)) by lia. replace (len_utf8 c + str_len u - len_utf8 c)%nat with (str_len u) by lia. by rewrite IH.
Qed.
Lemma slice_from_app u v : slice_from (u ++ v) (str_len u) = Some v.
Proof.
  induction u as [|c u IH]; [by destruct v|]. rewrite str_len_cons. pose proof (len_utf8_pos c). cbn [app slice_from].
  destruct (len_utf8 c + str_len u)%nat as [|n] eqn:Hn; [lia|]. rewrite <- Hn.
  rewrite (proj2 (Nat.leb_le _ _)) by lia. replace (len_utf8 c + str_len u - len_utf8 c)%nat with (str_len u) by lia. by rewrite IH.
Qed.

Lemma boundary_0 s : boundary s 0.
Proof. by exists [], s. Qed.
Lemma boundary_end s : boundary s (str_len s).
Proof. exists s, []. by rewrite app_nil_r. Qed.
Lemma boundary_mid u v : boundary (u ++ v) (str_len u).
Proof. by exists u, v. Qed.

(** Two boundaries cut a text in three. *)
Lemma boundary_cut s a b :
  boundary s a -> boundary s b -> (a <= b)%nat ->
  exists u m v, s = u ++ m ++ v /\ a = str_len u /\ b = (str_len u + str_len m)%nat.
Proof.
  intros (u & v & -> & ->) (u' & v' & He & ->) Hle. apply app_eq_inv in He as [(k & -> & ->)|(k & -> & ->)].
  - rewrite str_len_app in Hle. destruct k as [|c k]; [|rewrite str_len_cons in Hle; pose proof (len_utf8_pos c); lia].
    exists u', [], v. rewrite app_nil_r. cbn. split_and!; [done..|lia].
  - exists u, k, v'. by rewrite str_len_app.
Qed.

(** ** UTF-16 offsets *)

Lemma utf8_to_utf16_app u v : utf8_to_utf16 (u ++ v) (str_len u) = units u.
Proof.
  unfold utf8_to_utf16.
  assert (forall a b, utf8_to_utf16_from (u ++ v) (a + str_len u) a b = (b + units u)%nat) as H; [|apply (H 0 0)%nat].
  induction u as [|c u IH]; intros a b; cbn [app utf8_to_utf16_from].
  - destruct v as [|c v]; cbn [utf8_to_utf16_from]; [|rewrite (proj2 (Nat.leb_le _ _)) by (cbn; lia)]; cbn; lia.
  - rewrite str_len_cons, units_cons. pose proof (len_utf8_pos c). rewrite (proj2 (Nat.leb_gt _ _)) by lia.
    replace (a + (len_utf8 c + str_len u))%nat with (a + len_utf8 c + str_len u)%nat by lia. rewrite IH. lia.
Qed.

Lemma utf16_to_utf8_app u v : utf16_to_utf8 (u ++ v) (units u) = str_len u.
Proof.
  unfold utf16_to_utf8.
  assert (forall a b, utf16_to_utf8_from (u ++ v) (a + units u) a b = (b + str_len u)%nat) as H; [|apply (H 0 0)%nat].
  induction u as [|c u IH]; intros a b; cbn [app utf16_to_utf8_from].
  - destruct v as [|c v]; cbn [utf16_to_utf8_from]; [|rewrite (proj2 (Nat.leb_le _ _)) by (cbn; lia)]; cbn; lia.
  - rewrite str_len_cons, units_cons. pose proof (len_utf16_pos c). rewrite (proj2 (Nat.leb_gt _ _)) by lia.
    replace (a + (len_utf16 c + units u))%nat with (a + len_utf16 c + units u)%nat by lia. rewrite IH. lia.
Qed.

(** Any UTF-16 offset leads to a boundary: the first one not before it. *)
Lemma utf16_to_utf8_cut s k :
  exists u v, s = u ++ v /\ utf16_to_utf8 s k = str_len u /\ (v = [] \/ k <= units u)%nat
    /\ (forall u', u' `prefix_of` s -> (k <= units u')%nat -> u `prefix_of` u').
Proof.
  unfold utf16_to_utf8.
  assert (forall a b, exists u v, s = u ++ v /\ utf16_to_utf8_from s (a + k) a b = (b + str_len u)%nat
    /\ (v = [] \/ k <= units u)%nat /\ (forall u', u' `prefix_of` s -> (k <= units u')%nat -> u `prefix_of` u')) as H;
    [|destruct (H 0 0)%nat as (u & v & ? & Hr & ?); by exists u, v].
  revert k. induction s as [|c s IH]; intros k a b; cbn [utf16_to_utf8_from].
  - exists [], []. split_and!; [done|cbn; lia|by left|by intros; apply prefix_nil].
  - destruct (Nat.leb_spec (a + k) a).
    + exists [], (c :: s). split_and!; [done|cbn; lia|right; lia|by intros; apply prefix_nil].
    + pose proof (len_utf16_pos c). destruct (IH (k - len_utf16 c)%nat (a + len_utf16 c)%nat (b + len_utf8 c)%nat)
        as (u & v & -> & Hr & Hv & Hp).
      exists (c :: u), v. rewrite units_cons, str_len_cons. split_and!; [done| |destruct Hv; [by left|right; lia]|].
      * destruct (decide (len_utf16 c <= k)%nat) as [|Hk].
        -- replace (a + len_utf16 c + (k - len_utf16 c))%nat with (a + k)%nat in Hr by lia. rewrite Hr. lia.
        -- replace (k - len_utf16 c)%nat with 0%nat in * by lia.
           assert (u = []) as -> by (apply prefix_nil_inv, (Hp []); [apply prefix_nil|cbn; lia]).
           destruct v as [|c' v]; cbn [app utf16_to_utf8_from]; [cbn; lia|]. rewrite (proj2 (Nat.leb_le _ _)) by lia. cbn. lia.
      * intros u' Hu' Hk. destruct u' as [|c' u']; [cbn in Hk; lia|].
        apply prefix_cons_inv_1 in Hu' as Hc. subst c'. apply prefix_cons_inv_2 in Hu'.
        apply prefix_cons. apply Hp; [done|]. rewrite units_cons in Hk. lia.
Qed.

(** ** Steps *)

Section Spec.
Context (graphemes : list Z -> list nat).

Inductive op :=
| SetValue (v : list Z) | SelectEverything | LeftKey | RightKey | SelectLeft | SelectRight | SelectAll | HomeKey | EndKey
| Backspace | DeleteKey | Paste (t : option (list Z))
| MouseDown (i : nat) (shift : bool) | MouseUp | MouseMove (i : nat)
| TextFor (r : span) | Unmark | ReplaceText (r : option span) (t : list Z) | MarkText (r : option span) (t : list Z) (sel : option span).

(** [None] is a panic. *)
Definition exec (o : op) (f : TextField) : option TextField :=
  match o with
  | SetValue v => Some (set_value v f)
  | SelectEverything => Some (select_everything f)
  | LeftKey => Some (left_ graphemes f)
  | RightKey => Some (right_ graphemes f)
  | SelectLeft => Some (select_left graphemes f)
  | SelectRight => Some (select_right graphemes f)
  | SelectAll => Some (select_all f)
  | HomeKey => Some (home f)
  | EndKey => Some (end_ f)
  | Backspace => snd <$> backspace graphemes f
  | DeleteKey => snd <$> delete graphemes f
  | Paste t => snd <$> paste t f
  | MouseDown i shift => Some (on_mouse_down i shift f)
  | MouseUp => Some (on_mouse_up f)
  | MouseMove i => Some (on_mouse_move i f)
  | TextFor r => (fun _ => f) <$> text_for_range r f
  | Unmark => Some (unmark_text f)
  | ReplaceText r t => snd <$> replace_text_in_range r t f
  | MarkText r t sel => snd <$> replace_and_mark_text_in_range r t sel f
  end.

Definition ordered (r : span) : Prop := (r_start r <= r_end r)%nat.
Definition plain (s : list Z) : Prop := Forall (fun c => c < 0x80) s.

(** What the toolkit asks for: a pointer between two characters, ranges in
    order, a new selection inside the new text. Two cases are left out where
    the field goes wrong, see [value_under_mark] and [mark_behind_accent]: a
    value set while text is marked, and a selection in text marked behind
    characters that are not ASCII. *)
Definition possible (o : op) (f : TextField) : Prop :=
  match o with
  | SetValue _ => marked_range f = None
  | MouseDown i _ | MouseMove i => boundary (content f) i
  | TextFor r => ordered r
  | ReplaceText r _ => forall r', r = Some r' -> ordered r'
  | MarkText r t sel =>
      (forall r', r = Some r' -> ordered r')
      /\ (forall s, sel = Some s -> ordered s /\ (r_end s <= units t)%nat
            /\ (r_start (target_range (range_from_utf16 f <$> r) f) = 0%nat \/ (plain (content f) /\ plain t)))
  | _ => True
  end.

Inductive reaches : TextField -> Prop :=
| reach_new : reaches new_field
| reach_value v : reaches (with_value v)
| reach_step o f f' : reaches f -> possible o f -> exec o f = Some f' -> reaches f'.

(** ** The invariant *)

Definition span_ok (s : list Z) (r : span) : Prop := boundary s (r_start r) /\ boundary s (r_end r) /\ ordered r.
Definition ok (f : TextField) : Prop :=
  span_ok (content f) (selected_range f) /\ (forall r, marked_range f = Some r -> span_ok (content f) r).

(** A grapheme begins between two characters. *)
Hypothesis graphemes_boundary : forall s i, i ∈ graphemes s -> boundary s i.

Lemma previous_ok n f : boundary (content f) (previous_boundary graphemes n f).
Proof using graphemes_boundary.
  unfold previous_boundary. destruct (list_find _ _) as [[k i]|] eqn:Hf; cbn; [|apply boundary_0].
  apply list_find_Some in Hf as (Hi & _). apply graphemes_boundary, elem_of_reverse. by apply list_elem_of_lookup_2 in Hi.
Qed.
Lemma next_ok n f : boundary (content f) (next_boundary graphemes n f).
Proof using graphemes_boundary.
  unfold next_boundary. destruct (list_find _ _) as [[k i]|] eqn:Hf; cbn; [|apply boundary_end].
  apply list_find_Some in Hf as (Hi & _). apply graphemes_boundary. by apply list_elem_of_lookup_2 in Hi.
Qed.

Lemma move_to_ok n f : boundary (content f) n -> ok f -> ok (move_to n f).
Proof using. intros Hn [_ Hm]. split; [split_and!; [done..|unfold ordered; cbn; lia]|exact Hm]. Qed.

Lemma select_to_ok n f : boundary (content f) n -> ok f -> ok (select_to n f).
Proof using.
  intros Hn [(Hs & He & Ho) Hm]. unfold select_to. set (r := if selection_reversed f then _ else _).
  assert (boundary (content f) (r_start r) /\ boundary (content f) (r_end r)) as [H1 H2]
    by (subst r; by destruct (selection_reversed f)).
  destruct (Nat.ltb_spec (r_end r) (r_start r)); (split; [split_and!; [done..|unfold ordered; cbn; lia]|exact Hm]).
Qed.

Lemma cursor_ok f : ok f -> boundary (content f) (cursor_offset f).
Proof using. intros [(Hs & He & _) _]. unfold cursor_offset. by destruct (selection_reversed f). Qed.

Lemma splice_ok s r t :
  span_ok s r -> exists u m v, s = u ++ m ++ v /\ r_start r = str_len u /\ r_end r = (str_len u + str_len m)%nat
    /\ splice s r t = Some (u ++ t ++ v).
Proof using.
  intros (Hs & He & Ho). destruct (boundary_cut s _ _ Hs He Ho) as (u & m & v & -> & H1 & H2).
  exists u, m, v. split_and!; [done..|]. unfold splice. rewrite H1, slice_to_app. cbn [mbind option_bind].
  rewrite H2, <- str_len_app, app_assoc, slice_from_app. done.
Qed.

Lemma target_ok r f : ok f -> (forall r', r = Some r' -> span_ok (content f) r') -> span_ok (content f) (target_range r f).
Proof using. intros [Hs Hm] Hr. unfold target_range. destruct r as [r|]; [by apply Hr|]. destruct (marked_range f) eqn:E; auto. Qed.

Lemma replace_ok r t f :
  ok f -> (forall r', r = Some r' -> span_ok (content f) r') -> exists e f', replace r t f = Some (e, f') /\ ok f'.
Proof using.
  intros Hok Hr. unfold replace.
  destruct (splice_ok (content f) (target_range r f) t) as (u & m & v & Hc & H1 & H2 & ->); [by apply target_ok|].
  cbn [mbind option_bind]. eexists _, _. split; [done|]. rewrite H1, <- str_len_app. split; [|done]. cbn.
  rewrite app_assoc. split_and!; [apply boundary_mid..|unfold ordered; cbn; lia].
Qed.

Lemma from_utf16_ok f r : ordered r -> span_ok (content f) (range_from_utf16 f r).
Proof using.
  intros Ho. unfold range_from_utf16. destruct (utf16_to_utf8_cut (content f) (r_start r)) as (u & v & Hs & Hu & Hv & Hp).
  destruct (utf16_to_utf8_cut (content f) (r_end r)) as (u' & v' & Hs' & Hu' & Hv' & _).
  split_and!; cbn; [exists u, v; by rewrite Hu|exists u', v'; by rewrite Hu'|]. unfold ordered in *. cbn. rewrite Hu, Hu'.
  destruct Hv' as [->|Hv'].
  - rewrite app_nil_r in Hs'. rewrite Hs in Hs'. subst u'. rewrite str_len_app. lia.
  - destruct (Hp u') as [k ->]; [by exists v'|lia|]. rewrite str_len_app. lia.
Qed.

Lemma plain_len s : plain s -> str_len s = length s /\ units s = length s.
Proof using.
  induction 1 as [|c s Hc _ [IH1 IH2]]; [done|]. rewrite str_len_cons, units_cons, IH1, IH2.
  unfold len_utf8, len_utf16. rewrite !(proj2 (Z.ltb_lt _ _)) by lia. cbn. lia.
Qed.

Lemma plain_boundary s n : plain s -> (n <= length s)%nat -> boundary s n.
Proof using.
  intros Hs Hn. exists (take n s), (drop n s). rewrite take_drop. split; [done|].
  rewrite (proj1 (plain_len _ (Forall_take _ n _ Hs))), length_take. lia.
Qed.

Lemma plain_offset s k : plain s -> utf16_to_utf8 s k = Nat.min k (length s).
Proof using.
  intros Hs. destruct (utf16_to_utf8_cut s k) as (u & v & -> & -> & Hv & Hp).
  pose proof (proj1 (proj1 (Forall_app _ _ _) Hs)) as Hu. destruct (plain_len u Hu) as [-> Hun]. rewrite length_app.
  assert (length u <= k)%nat.
  { destruct (decide (k < length u)%nat); [|lia]. destruct (Hp (take k u)) as [w Hw].
    - apply prefix_app_r. exists (drop k u). by rewrite take_drop.
    - rewrite (proj2 (plain_len _ (Forall_take _ k _ Hu))), length_take. lia.
    - apply (f_equal length) in Hw. rewrite length_take, length_app in Hw. lia. }
  destruct Hv as [->|Hk]; [cbn; lia|lia].
Qed.

Lemma str_len_0 u : str_len u = 0%nat -> u = [].
Proof using. destruct u as [|c u]; [done|]. rewrite str_len_cons. pose proof (len_utf8_pos c). lia. Qed.

Lemma mark_ok r t sel f :
  ok f -> possible (MarkText r t sel) f -> exists e f', replace_and_mark_text_in_range r t sel f = Some (e, f') /\ ok f'.
Proof using.
  intros Hok [Hr Hsel]. unfold replace_and_mark_text_in_range. set (tr := target_range _ f) in *.
  destruct (splice_ok (content f) tr t) as (u & m & v & Hc & H1 & H2 & ->).
  { apply target_ok; [done|]. intros r' Hr'. destruct r as [r0|]; [|done]. injection Hr' as <-. by apply from_utf16_ok, Hr. }
  cbn [mbind option_bind]. eexists _, _. split; [done|]. cbn zeta. split.
  2:{ cbn. intros q Hq. case_bool_decide; [|done]. injection Hq as <-. cbn. rewrite H1, <- str_len_app.
      split_and!; cbn; [apply boundary_mid|rewrite app_assoc; apply boundary_mid|unfold ordered; cbn; rewrite str_len_app; lia]. }
  unfold with_selection. cbn [content selected_range]. destruct sel as [s|].
  2:{ rewrite H1, <- str_len_app, app_assoc. split_and!; [apply boundary_mid..|unfold ordered; cbn; lia]. }
  destruct (Hsel s eq_refl) as (Hos & Hle & Hcase).
  match goal with |- span_ok _ (mkRange (_ + r_start (range_from_utf16 ?g s)) _) => set (f' := g) end.
  pose proof (from_utf16_ok f' s Hos) as Hb. destruct Hcase as [H0|[Hp Hpt]].
  - by rewrite H0.
  - rewrite Hc in Hp. apply Forall_app in Hp as [Hpu Hp]. apply Forall_app in Hp as [_ Hpv].
    assert (plain (u ++ t ++ v)) as Hp' by (by repeat apply Forall_app_2).
    rewrite H1, (proj1 (plain_len u Hpu)). rewrite (proj2 (plain_len t Hpt)) in Hle. unfold ordered in Hos.
    unfold range_from_utf16. subst f'. cbn [content r_start r_end]. rewrite !(plain_offset _ _ Hp').
    split_and!; unfold ordered; cbn [r_start r_end]; [apply plain_boundary; [done|]..|]; rewrite !length_app; lia.
Qed.

Lemma text_for_ok r f : ordered r -> exists x, text_for_range r f = Some x.
Proof using.
  intros Ho. destruct (from_utf16_ok f r Ho) as (Hs & He & Hle). unfold text_for_range, slice_range.
  destruct (boundary_cut _ _ _ Hs He Hle) as (u & m & v & Hc & H1 & H2). rewrite (proj2 (Nat.leb_le _ _)) by exact Hle.
  rewrite H2, Hc, app_assoc, <- str_len_app, slice_to_app. cbn [mbind option_bind]. rewrite H1, slice_from_app. by eexists.
Qed.

Lemma field_exec_ok o f : ok f -> possible o f -> exists f', exec o f = Some f' /\ ok f'.
Proof using graphemes_boundary.
  intros Hok Hp. pose proof Hok as [(Hs & He & Ho) Hm].
  assert (forall g, ok g -> exists e f', replace None [] g = Some (e, f') /\ ok f') as Hrep by (intros g Hg; by apply replace_ok).
  destruct o; cbn [exec possible] in *; try (eexists; split; [reflexivity|]).
  - split; [split_and!; [apply boundary_end..|unfold ordered; cbn; lia]|]. cbn. by rewrite Hp.
  - apply select_to_ok; [apply boundary_end|]. apply move_to_ok; [apply boundary_0|done].
  - unfold left_. destruct (range_is_empty _); apply move_to_ok; auto using previous_ok.
  - unfold right_. destruct (range_is_empty _); apply move_to_ok; auto using next_ok.
  - by apply select_to_ok; [apply previous_ok|].
  - by apply select_to_ok; [apply next_ok|].
  - apply select_to_ok; [apply boundary_end|]. apply move_to_ok; [apply boundary_0|done].
  - apply move_to_ok; [apply boundary_0|done].
  - apply move_to_ok; [apply boundary_end|done].
  - unfold backspace. destruct (range_is_empty _); [|by destruct (Hrep f Hok) as (e & f' & -> & ?); exists f'].
    destruct (Hrep (select_to (previous_boundary graphemes (cursor_offset f) f) f)) as (e & f' & -> & ?);
      [by apply select_to_ok; [apply previous_ok|]|by exists f'].
  - unfold delete. destruct (range_is_empty _); [|by destruct (Hrep f Hok) as (e & f' & -> & ?); exists f'].
    destruct (Hrep (select_to (next_boundary graphemes (r_end (selected_range f)) f) f)) as (e & f' & -> & ?);
      [by apply select_to_ok; [apply next_ok|]|by exists f'].
  - destruct t as [t|]; [|by eexists]. unfold paste.
    destruct (replace_ok None ((fun c => if c =? 10 then 32 else c) <$> t) f Hok) as (e & f' & -> & ?); [done|by exists f'].
  - destruct shift; [by apply select_to_ok|by apply move_to_ok].
  - done.
  - unfold on_mouse_move. destruct (is_selecting f); [by apply select_to_ok|done].
  - destruct (text_for_ok r f Hp) as (x & ->). by exists f.
  - done.
  - unfold replace_text_in_range. destruct (replace_ok (range_from_utf16 f <$> r) t f Hok) as (e & f' & -> & ?); [|by exists f'].
    intros r' Hr. destruct r as [r0|]; [|done]. injection Hr as <-. by apply from_utf16_ok, Hp.
  - destruct (mark_ok r t sel f Hok Hp) as (e & f' & -> & ?). by exists f'.
Qed.

Lemma reaches_ok f : reaches f -> ok f.
Proof using graphemes_boundary.
  induction 1 as [|v|o f f' _ IH Hp He].
  - split; [split_and!; [apply boundary_0..|unfold ordered; cbn; lia]|done].
  - split; [split_and!; [apply boundary_0|apply boundary_end|unfold ordered; cbn; lia]|done].
  - destruct (field_exec_ok o f IH Hp) as (f'' & He' & Hok). congruence.
Qed.


(** ** Editing *)

(** The graphemes are listed from left to right. *)
Hypothesis graphemes_ascending : forall s, StronglySorted lt (graphemes s).

Lemma replace_at u m v t rev sel :
  replace None t (mkField (u ++ m ++ v) (mkRange (str_len u) (str_len u + str_len m)) rev None sel)
  = Some (Changed (u ++ t ++ v), mkField (u ++ t ++ v) (mkRange (str_len (u ++ t)) (str_len (u ++ t))) rev None sel).
Proof using.
  unfold replace, target_range, splice. cbn [content marked_range selected_range r_start r_end].
  rewrite slice_to_app. cbn [mbind option_bind]. rewrite <- (str_len_app u m), (app_assoc u m v), slice_from_app. cbn [mbind option_bind].
  by rewrite (str_len_app u t).
Qed.

Lemma ascending_lookup (l : list nat) i j x y :
  StronglySorted lt l -> l !! i = Some x -> l !! j = Some y -> (i < j)%nat -> (x < y)%nat.
Proof using.
  intros Hs. revert i j. induction Hs as [|z l Hs IH Hz]; intros [|i] [|j] Hx Hy Hij; cbn in *; try done; try lia.
  - injection Hx as <-. apply (proj1 (Forall_lookup _ _) Hz j y Hy).
  - apply (IH i j); [done..|lia].
Qed.

(** The grapheme in front of an offset and the one behind it. *)
Lemma previous_spec f u v :
  content f = u ++ v ->
  exists u' g, u = u' ++ g /\ previous_boundary graphemes (str_len u) f = str_len u' /\ (u <> [] -> g <> [])
    /\ forall i, i ∈ graphemes (content f) -> (i < str_len u)%nat -> (i <= str_len u')%nat.
Proof using graphemes_boundary graphemes_ascending.
  intros Hc. pose proof (previous_ok (str_len u) f) as Hb. rewrite Hc in Hb.
  assert (previous_boundary graphemes (str_len u) f <= str_len u)%nat as Hle.
  { unfold previous_boundary. destruct (list_find _ _) as [[k i]|] eqn:Hf; cbn; [|lia]. apply list_find_Some in Hf. lia. }
  destruct (boundary_cut (u ++ v) _ (str_len u) Hb (boundary_mid u v) Hle) as (u' & g & v' & He & Hp & Hl).
  rewrite app_assoc in He. apply app_inj_1 in He as [Hu ->].
  2:{ rewrite <- str_len_app in Hl. revert He Hl. generalize (u' ++ g). clear. intros w He Hl.
      apply app_eq_inv in He as [(k & -> & ->)|(k & -> & ->)]; rewrite str_len_app in Hl;
        rewrite (str_len_0 k) by lia; by rewrite app_nil_r. }
  exists u', g. split_and!; [done..| |].
  - intros Hne ->. rewrite app_nil_r in Hu. subst u'. unfold previous_boundary in Hp.
    destruct (list_find _ _) as [[k i]|] eqn:Hf; cbn in Hp; [apply list_find_Some in Hf; lia|].
    by apply Hne, str_len_0.
  - intros i Hi Hlt. rewrite <- Hp. unfold previous_boundary. destruct (list_find _ _) as [[k j]|] eqn:Hf; cbn.
    + apply list_find_Some in Hf as (Hj & _ & Hfirst).
      apply elem_of_reverse, list_elem_of_lookup in Hi as [k' Hk'].
      destruct (decide (k' < k)%nat) as [Hlt'|Hge]; [by specialize (Hfirst k' i Hk' Hlt')|].
      destruct (decide (k' = k)) as [->|]; [assert (i = j) by congruence; lia|].
      apply reverse_lookup_Some in Hj as [Hj Hjl], Hk' as [Hk' Hkl].
      enough (i < j)%nat by lia. apply (ascending_lookup _ _ _ _ _ (graphemes_ascending (content f)) Hk' Hj). lia.
    + apply list_find_None in Hf. apply elem_of_reverse in Hi. rewrite Forall_forall in Hf. by apply Hf in Hi.
Qed.

Lemma next_spec f u v :
  content f = u ++ v ->
  exists g v', v = g ++ v' /\ next_boundary graphemes (str_len u) f = (str_len u + str_len g)%nat /\ (v <> [] -> g <> [])
    /\ forall i, i ∈ graphemes (content f) -> (str_len u < i)%nat -> (str_len u + str_len g <= i)%nat.
Proof using graphemes_boundary graphemes_ascending.
  intros Hc. pose proof (next_ok (str_len u) f) as Hb. rewrite Hc in Hb.
  assert (str_len u <= next_boundary graphemes (str_len u) f)%nat as Hle.
  { unfold next_boundary. destruct (list_find _ _) as [[k i]|] eqn:Hf; cbn; [apply list_find_Some in Hf; lia|].
    rewrite Hc, str_len_app. lia. }
  destruct (boundary_cut (u ++ v) (str_len u) _ (boundary_mid u v) Hb Hle) as (u' & g & v' & He & Hu & Hn).
  assert (u' = u /\ v = g ++ v') as [-> ->].
  { apply app_eq_inv in He as [(k & -> & Hv)|(k & -> & Hv)]; rewrite str_len_app in Hu;
      (assert (k = []) as -> by (apply str_len_0; lia)); cbn in Hv; (split; [by rewrite app_nil_r|congruence]). }
  exists g, v'. split_and!; [done..| |].
  - intros Hne ->. cbn in Hn. rewrite Nat.add_0_r in Hn. unfold next_boundary in Hn.
    destruct (list_find _ _) as [[k i]|] eqn:Hf; cbn in Hn; [apply list_find_Some in Hf; lia|].
    rewrite Hc, str_len_app in Hn. apply Hne, str_len_0. lia.
  - intros i Hi Hlt. rewrite <- Hn. unfold next_boundary. destruct (list_find _ _) as [[k j]|] eqn:Hf; cbn.
    + apply list_find_Some in Hf as (Hj & _ & Hfirst). apply list_elem_of_lookup in Hi as [k' Hk'].
      destruct (decide (k' < k)%nat) as [Hlt'|Hge]; [by specialize (Hfirst k' i Hk' Hlt')|].
      destruct (decide (k' = k)) as [->|]; [assert (i = j) by congruence; lia|].
      enough (j < i)%nat by lia. apply (ascending_lookup _ _ _ _ _ (graphemes_ascending (content f)) Hj Hk'). lia.
    + apply list_find_None in Hf. rewrite Forall_forall in Hf. by apply Hf in Hi.
Qed.

(** the keys edit at the caret. With no text marked the value is what is
    before the selection, the selection and what is behind it; typed or pasted
    text takes the place of the selection and the caret stands behind it;
    Backspace and Delete remove the selection, and with nothing selected just
    the grapheme before or behind the caret. *)
Theorem keys_edit_at_the_caret f :
  reaches f -> marked_range f = None ->
  exists b s a, content f = b ++ s ++ a /\ selected_range f = mkRange (str_len b) (str_len b + str_len s)
    /\ (forall t, exists f', replace None t f = Some (Changed (b ++ t ++ a), f')
          /\ content f' = b ++ t ++ a /\ selected_range f' = mkRange (str_len (b ++ t)) (str_len (b ++ t)))
    /\ (exists f' b' g, backspace graphemes f = Some (Changed (b' ++ a), f') /\ content f' = b' ++ a
          /\ cursor_offset f' = str_len b' /\ b = b' ++ g /\ (s <> [] -> g = [])
          /\ (s = [] -> (b <> [] -> g <> [])
                /\ forall i, i ∈ graphemes (content f) -> (i < str_len b)%nat -> (i <= str_len b')%nat))
    /\ (exists f' a' g, delete graphemes f = Some (Changed (b ++ a'), f') /\ content f' = b ++ a'
          /\ cursor_offset f' = str_len b /\ a = g ++ a' /\ (s <> [] -> g = [])
          /\ (s = [] -> (a <> [] -> g <> [])
                /\ forall i, i ∈ graphemes (content f) -> (str_len b < i)%nat -> (str_len b + str_len g <= i)%nat)).
Proof using graphemes_boundary graphemes_ascending.
  intros Hr Hmark. destruct (reaches_ok f Hr) as [(Hs & He & Ho) _]. destruct f as [c [p q] rev mk sel]. cbn [content selected_range marked_range r_start r_end] in *. subst mk.
  destruct (boundary_cut c p q Hs He Ho) as (b & s & a & -> & -> & ->). exists b, s, a.
  split; [done|]. split; [done|]. split; [intros t; eexists; by rewrite replace_at|].
  unfold backspace, delete, range_is_empty. cbn [selected_range r_start r_end].
  destruct s as [|x s].
  - cbn [app str_len fmap list_fmap sum_list foldr]. change (sum_list []) with 0%nat. rewrite Nat.add_0_r, Nat.ltb_irrefl. cbn [negb].
    set (f := mkField (b ++ a) _ _ _ _). assert (cursor_offset f = str_len b) as Hcur by (by destruct rev).
    rewrite Hcur. split.
    + destruct (previous_spec f b a eq_refl) as (b' & g & Hb & Hp & Hne & Hbest). rewrite Hp.
      assert (exists rev', select_to (str_len b') f
        = mkField (b' ++ g ++ a) (mkRange (str_len b') (str_len b' + str_len g)) rev' None sel) as [rev' ->].
      { unfold select_to, f, with_selection. cbn [selection_reversed selected_range r_start r_end content marked_range is_selecting negb]. rewrite Hb, <- app_assoc, str_len_app.
        destruct rev; cbn [r_start r_end]; match goal with |- context [(?x <? ?y)%nat] => destruct (Nat.ltb_spec x y) end; eexists;
          match goal with |- mkField _ ?r _ _ _ = mkField _ ?r' _ _ _ => replace r with r' by (f_equal; lia) end; reflexivity. }
      rewrite replace_at, app_nil_r. eexists _, b', g. split; [done|]. split_and!; [done|by destruct rev'|done|done|by auto].
    + destruct (next_spec f b a eq_refl) as (g & a' & Ha & Hn & Hne & Hbest). cbn [selected_range r_end f] in *. rewrite Hn.
      assert (exists rev', select_to (str_len b + str_len g)%nat f
        = mkField (b ++ g ++ a') (mkRange (str_len b) (str_len b + str_len g)) rev' None sel) as [rev' ->].
      { unfold select_to, f, with_selection. cbn [selection_reversed selected_range r_start r_end content marked_range is_selecting negb]. rewrite Ha.
        destruct rev; cbn [r_start r_end]; match goal with |- context [(?x <? ?y)%nat] => destruct (Nat.ltb_spec x y) end; eexists;
          match goal with |- mkField _ ?r _ _ _ = mkField _ ?r' _ _ _ => replace r with r' by (f_equal; lia) end; reflexivity. }
      rewrite replace_at, app_nil_r. eexists _, a', g. split; [done|]. split_and!; [done|by destruct rev'|done|done|by auto].
  - rewrite str_len_cons. pose proof (len_utf8_pos x). rewrite (proj2 (Nat.ltb_lt _ _)) by lia. cbn [negb].
    rewrite <- str_len_cons, replace_at, app_nil_r. split.
    + eexists _, b, []. split; [done|]. rewrite app_nil_r. split_and!; [done|by destruct rev|done..].
    + eexists _, a, []. split; [done|]. split_and!; [done|by destruct rev|done..].
Qed.
End Spec.

(** ** The input method *)

(** a UTF-16 range of the input method names the characters it means, also
    behind characters of any width: in a value [u ++ m ++ v] the range from the
    units of [u] over those of [m] reads [m] and is reported back as the same
    range; replacing it gives [u ++ t ++ v], whatever text was marked or
    selected, with the caret, told in UTF-16, behind [t]. *)
Theorem ime_names_characters u m v t r rev mark sel :
  let f := mkField (u ++ m ++ v) r rev mark sel in
  let named := mkRange (units u) (units u + units m) in
  text_for_range named f = Some (named, m)
  /\ exists f', replace_text_in_range (Some named) t f = Some (Changed (u ++ t ++ v), f')
       /\ content f' = u ++ t ++ v /\ marked_range f' = None
       /\ selected_text_range f' = (mkRange (units (u ++ t)) (units (u ++ t)), rev).
Proof.
  intros f named.
  assert (range_from_utf16 f named = mkRange (str_len u) (str_len (u ++ m))) as Hfrom.
  { unfold range_from_utf16. cbn [r_start r_end named content f]. rewrite utf16_to_utf8_app, <- units_app, app_assoc.
    by rewrite utf16_to_utf8_app. }
  split.
  - unfold text_for_range. rewrite Hfrom. cbn [r_start r_end content f]. unfold slice_range.
    rewrite (proj2 (Nat.leb_le _ _)) by (rewrite str_len_app; lia).
    rewrite app_assoc, slice_to_app. cbn [mbind option_bind]. rewrite slice_from_app. cbn [mbind option_bind].
    unfold range_to_utf16. cbn [r_start r_end content f]. rewrite utf8_to_utf16_app, app_assoc, utf8_to_utf16_app.
    unfold named. by rewrite units_app.
  - unfold replace_text_in_range. cbn [fmap option_fmap option_map]. rewrite Hfrom.
    unfold replace, target_range, splice. cbn [r_start r_end content f]. rewrite slice_to_app. cbn [mbind option_bind].
    rewrite (app_assoc u m v), slice_from_app. cbn [mbind option_bind]. eexists. split; [done|]. split; [done|]. split; [done|].
    unfold selected_text_range, range_to_utf16. cbn [r_start r_end content selected_range selection_reversed].
    rewrite <- str_len_app, app_assoc. by rewrite utf8_to_utf16_app.
Qed.

(** ** Witnesses and findings *)

(** A grapheme for each character. *)
Fixpoint char_starts (n : nat) (s : list Z) : list nat :=
  match s with
  | [] => []
  | c :: s => n :: char_starts (n + len_utf8 c) s
  end.

Lemma char_starts_boundary n s i : i ∈ char_starts n s -> exists u v, s = u ++ v /\ i = (n + str_len u)%nat.
Proof.
  revert n. induction s as [|c s IH]; intros n; cbn [char_starts]; [by intros ?%elem_of_nil|].
  intros [->|Hi]%elem_of_cons; [exists [], (c :: s); split; [done|cbn; lia]|].
  destruct (IH _ Hi) as (u & v & -> & ->). exists (c :: u), v. split; [done|]. rewrite str_len_cons. lia.
Qed.

Lemma char_starts_ascending n s : StronglySorted lt (char_starts n s).
Proof.
  revert n. induction s as [|c s IH]; intros n; cbn [char_starts]; constructor; [apply IH|].
  apply Forall_forall. intros i Hi. destruct (char_starts_boundary _ _ _ Hi) as (u & v & _ & ->).
  pose proof (len_utf8_pos c). lia.
Qed.

Lemma starts_boundary s i : i ∈ char_starts 0 s -> boundary s i.
Proof. intros (u & v & -> & ->)%char_starts_boundary. by exists u, v. Qed.

(** "é" *)
Definition e_acute : Z := 233.


Lemma keys_edit_at_the_caret_witness :
  exists b s a, [97; e_acute] = b ++ s ++ a /\ mkRange 0 3 = mkRange (str_len b) (str_len b + str_len s).
Proof.
  destruct (keys_edit_at_the_caret (char_starts 0) starts_boundary (char_starts_ascending 0) (with_value [97; e_acute])
    (reach_value _ _) eq_refl) as (b & s & a & H1 & H2 & _).
  exists b, s, a. split; [exact H1|exact H2].
Defined.

Definition runs (os : list op) (f : TextField) : option TextField :=
  fold_left (fun acc o => f ← acc; exec (char_starts 0) o f) os (Some f).

(** A value set while text is marked leaves the mark behind: the next key
    slices the new value with the offsets of the old one. *)
Example value_under_mark :
  runs [MarkText None [97; 98; 99] None; SetValue []] new_field = Some (mkField [] (mkRange 0 0) false (Some (mkRange 0 3)) false)
  /\ runs [MarkText None [97; 98; 99] None; SetValue []; Backspace] new_field = None.
Proof. by vm_compute. Qed.

(** The selection in marked text is looked up from the start of the value: behind
    "é", the caret in a marked "n" of one byte is put at the fourth byte of
    three, and the next key panics. *)
Example mark_behind_accent :
  (fun f => (str_len (content f), selected_range f)) <$> runs [SetValue [e_acute]; MarkText None [110] (Some (mkRange 1 1))] new_field
  = Some (3%nat, mkRange 4 4)
  /\ runs [SetValue [e_acute]; MarkText None [110] (Some (mkRange 1 1)); Unmark; Backspace] new_field = None.
Proof. by vm_compute. Qed.
