(* ===== verification/Debloat.v ===== *)
(** * Package changes and their ledger

    [adb-gui/src/state/debloat.rs], [state/history.rs], the state of
    [views/debloat.rs] and the part of [app.rs] that carries out package
    changes and puts them back. The bundled list, its fields as decoded, is an
    argument; so is the JSON codec of the ledger. Drawing and dialogs are left
    out: a dialog is its requests. *)

From stdpp Require Import base list strings sorting.
From S2P Require Import Prelude RustStd Text Packages GuiModels.

(** ** The curated list *)

Inductive Removal := Recommended | Advanced | Expert | Unsafe.
Inductive ListKind := LAosp | LCarrier | LGoogle | LMisc | LOem | LPending.
Inductive Vendor :=
| Aosp | Google | Samsung | Xiaomi | Huawei | Motorola | Lenovo | Oppo | Vivo | Transsion | Asus | Sony | Lg | Zte | Tcl
| Nothing | Meizu | Nubia | Carrier | Preinstalled | Chipset | Other.

Global Instance Removal_eq_dec : EqDecision Removal.
Proof. solve_decision. Defined.
Global Instance ListKind_eq_dec : EqDecision ListKind.
Proof. solve_decision. Defined.
Global Instance Vendor_eq_dec : EqDecision Vendor.
Proof. solve_decision. Defined.

Definition needs_confirmation (r : Removal) : bool := match r with Expert | Unsafe => true | _ => false end.

Definition VENDOR_RULES : list (bytes * Vendor) :=
  [(bs "com.sec.android", Samsung); (bs "com.samsung", Samsung); (bs "com.osp.app", Samsung); (bs "com.miui", Xiaomi);
   (bs "com.xiaomi", Xiaomi); (bs "com.mi.android", Xiaomi); (bs "com.mi.global", Xiaomi); (bs "com.mi.", Xiaomi);
   (bs "android.miui", Xiaomi); (bs "com.huawei", Huawei); (bs "com.hihonor", Huawei); (bs "com.honor", Huawei);
   (bs "com.motorola", Motorola); (bs "com.lenovo", Lenovo); (bs "com.zui", Lenovo); (bs "com.oneplus", Oppo);
   (bs "net.oneplus", Oppo); (bs "cn.oneplus", Oppo); (bs "com.oppo", Oppo); (bs "com.realme", Oppo); (bs "com.coloros", Oppo);
   (bs "com.heytap", Oppo); (bs "com.oplus", Oppo); (bs "com.vivo", Vivo); (bs "com.iqoo", Vivo); (bs "com.bbk", Vivo);
   (bs "com.nearme", Vivo); (bs "com.transsion", Transsion); (bs "com.itel", Transsion); (bs "com.infinix", Transsion);
   (bs "com.asus", Asus); (bs "com.ape", Asus); (bs "com.sonymobile", Sony); (bs "com.sonyericsson", Sony); (bs "com.sony", Sony);
   (bs "com.lge", Lg); (bs "com.zte", Zte); (bs "com.tcl", Tcl); (bs "com.tct", Tcl); (bs "com.nothing", Nothing);
   (bs "com.meizu", Meizu); (bs "com.flyme", Meizu); (bs "cn.nubia", Nubia); (bs "com.nubia", Nubia);
   (bs "com.qualcomm", Chipset); (bs "com.qti", Chipset); (bs "com.qcom", Chipset); (bs "com.mediatek", Chipset);
   (bs "com.mtk", Chipset); (bs "com.sprd", Chipset); (bs "com.spreadtrum", Chipset); (bs "com.unisoc", Chipset);
   (bs "com.google", Google); (bs "com.android", Aosp); (bs "android.", Aosp); (bs "org.lineageos", Aosp);
   (bs "com.evenwell", Preinstalled); (bs "com.monotype", Preinstalled); (bs "com.baidu", Preinstalled);
   (bs "com.goodix", Preinstalled); (bs "com.fingerprints", Preinstalled)].

Definition vendor_of (id : bytes) (list : ListKind) : Vendor :=
  if bool_decide (list = LCarrier) then Carrier
  else match list_find (fun rule => has_prefix (fst rule) id = true) VENDOR_RULES with
       | Some (_, (_, v)) => v
       | None => Other
       end.

Record Entry := mkListEntry {
  list_ : ListKind; description : bytes; dependencies : list bytes; needed_by : list bytes; removal : Removal }.

(** A package as the daemon reports it. *)
Record PackageDto := mkPackage { pkg_id : bytes; pkg_state : bytes; pkg_system : bool; pkg_path : option bytes }.

Record Counts := mkCounts { total : nat; listed_count : nat; recommended : nat }.

(** ** The view *)

Inductive StateFilter := AllStates | Installed | DisabledOnly | NotInstalled.
Record Filters := mkFilters {
  f_vendor : option Vendor; f_removal : option Removal; f_state : StateFilter; show_unlisted : bool }.
Definition next_state (s : StateFilter) : StateFilter :=
  match s with AllStates => Installed | Installed => DisabledOnly | DisabledOnly => NotInstalled | NotInstalled => AllStates end.
Definition default_filters : Filters := mkFilters None None AllStates false.

Record Row := mkViewRow {
  id : bytes; state : bytes; system_ : bool; r_description : option bytes; vendor : Vendor; r_removal : option Removal;
  listed : bool; r_dependencies : list bytes; r_needed_by : list bytes }.

Definition is_enabled (r : Row) : bool := bool_decide (state r = bs "enabled").
Definition is_disabled (r : Row) : bool := bool_decide (state r = bs "disabled").
Definition is_uninstalled (r : Row) : bool := bool_decide (state r = bs "uninstalled").

Record Debloat := mkDebloat {
  device : option bytes; user : Z; rows : list Row; visible : list nat; selected : list bytes; filters : Filters;
  vendors : list Vendor; query : bytes; loading : bool; error : option bytes }.

Definition new_debloat : Debloat := mkDebloat None 0 [] [] [] default_filters [] [] false None.

Definition with_rows (rs : list Row) (vis : list nat) (d : Debloat) : Debloat :=
  mkDebloat (device d) (user d) rs vis (selected d) (filters d) (vendors d) (query d) (loading d) (error d).
Definition with_selected (s : list bytes) (d : Debloat) : Debloat :=
  mkDebloat (device d) (user d) (rows d) (visible d) s (filters d) (vendors d) (query d) (loading d) (error d).

Definition find_row (i : bytes) (rs : list Row) : option Row := snd <$> list_find (fun r => id r = i) rs.

Definition visible_rows (d : Debloat) : list Row := omap (rows d !!.) (visible d).
Definition rows_for (ids : list bytes) (d : Debloat) : list Row := omap (fun i => find_row i (rows d)) ids.
Definition states_for (ids : list bytes) (d : Debloat) : list (bytes * bytes) :=
  omap (fun i => (fun r => (id r, state r)) <$> find_row i (rows d)) ids.

Definition set_remove (x : bytes) (s : list bytes) : list bytes := filter (fun y => y <> x) s.

Definition toggle (i : bytes) (d : Debloat) : Debloat :=
  with_selected (if bool_decide (i ∈ selected d) then set_remove i (selected d) else set_insert i (selected d)) d.

Definition toggle_all (d : Debloat) : Debloat :=
  let ids := id <$> visible_rows d in
  let all := bool_decide (ids <> []) && forallb (fun i => bool_decide (i ∈ selected d)) ids in
  with_selected (fold_left (fun s i => if all then set_remove i s else set_insert i s) ids (selected d)) d.

Definition clear_selection (d : Debloat) : Debloat := with_selected [] d.

(** What can be done to the selection. *)
Definition applicable_actions (d : Debloat) : list PackageAction :=
  let picked := rows_for (selected d) d in
  (if existsb is_enabled picked then [Disable] else [])
  ++ (if existsb is_disabled picked then [Enable] else [])
  ++ (if existsb (fun r => is_enabled r || is_disabled r) picked then [Uninstall] else [])
  ++ (if existsb is_uninstalled picked then [Restore] else []).

Definition broken_by_removing (rs : list Row) (ids : list bytes) : list bytes :=
  let dependents := concat ((fun r => if bool_decide (id r ∈ ids) then r_dependencies r ++ r_needed_by r else []) <$> rs) in
  fold_left (fun s d => if negb (bool_decide (d ∈ ids)) && bool_decide (d ∈ (id <$> rs)) then set_insert d s else s) dependents [].

Definition requests (a : PackageAction) (packages : list bytes) : list PackageRequest := (fun p => mkRequest p a) <$> packages.

Section View.
(** The bundled list, and [str::to_lowercase]. *)
Context (list_get : bytes -> option Entry) (to_lowercase : bytes -> bytes).

Definition counts_of (packages : list PackageDto) : Counts :=
  let entries := omap (fun p => list_get (pkg_id p)) packages in
  mkCounts (length packages) (length entries) (length (filter (fun e => removal e = Recommended) entries)).

Definition list_kind (i : bytes) : ListKind := default LMisc (list_ <$> list_get i).

(** The derived orders of the two enumerations. *)
Definition removal_rank (r : Removal) : Z := match r with Recommended => 0 | Advanced => 1 | Expert => 2 | Unsafe => 3 end.
Definition vendor_rank (v : Vendor) : Z :=
  match v with
  | Aosp => 0 | Google => 1 | Samsung => 2 | Xiaomi => 3 | Huawei => 4 | Motorola => 5 | Lenovo => 6 | Oppo => 7 | Vivo => 8
  | Transsion => 9 | Asus => 10 | Sony => 11 | Lg => 12 | Zte => 13 | Tcl => 14 | Nothing => 15 | Meizu => 16 | Nubia => 17
  | Carrier => 18 | Preinstalled => 19 | Chipset => 20 | Other => 21
  end.
Definition removal_compare (a b : option Removal) : comparison :=
  match a, b with
  | None, None => Eq
  | None, Some _ => Lt
  | Some _, None => Gt
  | Some x, Some y => removal_rank x ?= removal_rank y
  end.

Definition row_compare (a b : Row) : comparison :=
  then_with (bool_compare (listed b) (listed a))
    (then_with (removal_compare (r_removal a) (r_removal b))
      (then_with (vendor_rank (vendor a) ?= vendor_rank (vendor b)) (bytes_cmp (id a) (id b)))).

Definition join_row (p : PackageDto) : Row :=
  let v := vendor_of (pkg_id p) (list_kind (pkg_id p)) in
  match list_get (pkg_id p) with
  | Some e => mkViewRow (pkg_id p) (pkg_state p) (pkg_system p) (Some (description e)) v (Some (removal e)) true (dependencies e) (needed_by e)
  | None => mkViewRow (pkg_id p) (pkg_state p) (pkg_system p) None v None false [] []
  end.
Definition join (packages : list PackageDto) : list Row := sort_by row_compare (join_row <$> packages).

(** Sorted and without repetition. *)
Fixpoint vendor_insert (v : Vendor) (s : list Vendor) : list Vendor :=
  match s with
  | [] => [v]
  | w :: s' => match vendor_rank v ?= vendor_rank w with Lt => v :: s | Eq => s | Gt => w :: vendor_insert v s' end
  end.
Definition collect_vendors (rs : list Row) : list Vendor := foldr vendor_insert [] (vendor <$> rs).

Definition passes (f : Filters) (needle : bytes) (r : Row) : bool :=
  (show_unlisted f || listed r)
  && match f_vendor f with Some v => bool_decide (vendor r = v) | None => true end
  && match f_removal f with Some x => bool_decide (r_removal r = Some x) | None => true end
  && match f_state f with
     | AllStates => true | Installed => is_enabled r | DisabledOnly => is_disabled r | NotInstalled => is_uninstalled r
     end
  && (bool_decide (needle = []) || contains needle (to_lowercase (id r))
      || match r_description r with Some d => contains needle (to_lowercase d) | None => false end).

Fixpoint visible_from (f : Filters) (needle : bytes) (rs : list Row) (i : nat) : list nat :=
  match rs with
  | [] => []
  | r :: rs => if passes f needle r then i :: visible_from f needle rs (S i) else visible_from f needle rs (S i)
  end.

Definition recompute (d : Debloat) : Debloat :=
  with_rows (rows d) (visible_from (filters d) (to_lowercase (query d)) (rows d) 0) d.

Definition set_query (q : bytes) (d : Debloat) : Debloat :=
  recompute (mkDebloat (device d) (user d) (rows d) (visible d) (selected d) (filters d) (vendors d) q (loading d) (error d)).
Definition set_filters (f : Filters) (d : Debloat) : Debloat :=
  recompute (mkDebloat (device d) (user d) (rows d) (visible d) (selected d) f (vendors d) (query d) (loading d) (error d)).

(** The first row of the package takes the state. *)
Fixpoint note_state (p : bytes * bytes) (rs : list Row) : list Row :=
  match rs with
  | [] => []
  | r :: rs =>
      if bool_decide (id r = fst p)
      then mkViewRow (id r) (snd p) (system_ r) (r_description r) (vendor r) (r_removal r) (listed r) (r_dependencies r) (r_needed_by r) :: rs
      else r :: note_state p rs
  end.
Definition note_states (states : list (bytes * bytes)) (d : Debloat) : Debloat :=
  recompute (with_rows (fold_left (fun rs p => note_state p rs) states (rows d)) (visible d) d).

(** The phone whose packages are asked for, if any. *)
Definition reload (d : Debloat) : option bytes * Debloat :=
  match device d with
  | None => (None, d)
  | Some s =>
      (Some s, mkDebloat (device d) (user d) (rows d) (visible d) (selected d) (filters d) (vendors d) (query d) true None)
  end.

Definition set_device (s : option bytes) (d : Debloat) : option bytes * Debloat :=
  if bool_decide (device d = s) then (None, d)
  else
    let d := mkDebloat s (user d) [] [] [] (filters d) (vendors d) (query d) (loading d) None in
    match s with Some _ => reload d | None => (None, d) end.

(** The packages have been read, for whichever phone they were asked for. *)
Definition on_packages (answer : result bytes (list PackageDto)) (d : Debloat) : Debloat :=
  match answer with
  | Ok ps =>
      let rs := join ps in
      recompute (mkDebloat (device d) (user d) rs (visible d) (selected d) (filters d) (collect_vendors rs) (query d) false (error d))
  | Err e => mkDebloat (device d) (user d) (rows d) (visible d) (selected d) (filters d) (vendors d) (query d) false (Some e)
  end.
End View.

(** ** The ledger *)

Record DebloatRecord := mkRecord {
  rec_when : bytes; rec_device : bytes; rec_user : Z; rec_package : bytes; rec_action : bytes; before : bytes; after : bytes;
  rec_ok : bool; rec_error : option bytes }.

Global Instance DebloatRecord_eq_dec : EqDecision DebloatRecord.
Proof. solve_decision. Defined.

Definition LEDGER_CAP : nat := 2000.

Section Ledger.
(** The JSON form of the records. *)
Context (to_json : list DebloatRecord -> option bytes) (from_json : bytes -> option (list DebloatRecord)).

(** The file, if it can be read. *)
Definition load_ledger (file : option bytes) : list DebloatRecord :=
  match file with
  | None => []
  | Some text => default [] (from_json text)
  end.

(** [writable]: whether the file can be written. *)
Definition record_change (rec : DebloatRecord) (writable : bool) (file : option bytes) : option bytes :=
  let records := load_ledger file ++ [rec] in
  let records := if (LEDGER_CAP <? length records)%nat then drop (length records - LEDGER_CAP) records else records in
  match to_json records with
  | Some text => if writable then Some text else file
  | None => file
  end.

Definition undoable (device : bytes) (user : Z) (file : option bytes) : list DebloatRecord :=
  reverse (filter (fun r => rec_device r = device /\ rec_user r = user /\ rec_ok r = true) (load_ledger file)).

(** ** Carrying out changes and putting them back *)

Definition DEBLOAT_USER : Z := 0.

Definition action_name (a : PackageAction) : bytes :=
  match a with Disable => bs "disable" | Enable => bs "enable" | Uninstall => bs "uninstall" | Restore => bs "restore" end.
Definition action_from_name (n : bytes) : option PackageAction :=
  if bool_decide (n = bs "disable") then Some Disable
  else if bool_decide (n = bs "enable") then Some Enable
  else if bool_decide (n = bs "uninstall") then Some Uninstall
  else if bool_decide (n = bs "restore") then Some Restore
  else None.

(** One request per package: the opposite of its most recent change. *)
Fixpoint undo_actions (seen : list bytes) (records : list DebloatRecord) : list PackageRequest :=
  match records with
  | [] => []
  | r :: records =>
      if bool_decide (rec_package r ∈ seen) then undo_actions seen records
      else
        let seen := set_insert (rec_package r) seen in
        match action_from_name (rec_action r) with
        | Some a => mkRequest (rec_package r) (inverse a) :: undo_actions seen records
        | None => undo_actions seen records
        end
  end.
(** What the dialog asks the user to confirm; empty when there is nothing. *)
Definition confirm_undo (device : bytes) (file : option bytes) : list PackageRequest :=
  undo_actions [] (undoable device DEBLOAT_USER file).

(** What the daemon answered about one package, as the window reads it. *)
Record PackageResultDto := mkResultDto {
  res_package : bytes; res_ok : bool; res_state : option bytes; res_message : option bytes }.

Definition ledger_record (now device : bytes) (was : bytes) (a : PackageAction) (r : PackageResultDto) : DebloatRecord :=
  mkRecord now device DEBLOAT_USER (res_package r) (action_name a) was (default [] (res_state r)) (res_ok r) (res_message r).

(** The results of a batch, one by one: the packages that were changed with
    their new states, and the ledger. *)
Fixpoint take_results (now device : bytes) (before : list (bytes * bytes)) (actions : list PackageRequest) (index : nat)
    (results : list PackageResultDto) (writable : bool) (file : option bytes) : list (bytes * bytes) * option bytes :=
  match results with
  | [] => ([], file)
  | r :: results =>
      let a := default Disable (action <$> actions !! index) in
      let was := default [] (snd ∘ snd <$> list_find (fun p => fst p = res_package r) before) in
      let file := record_change (ledger_record now device was a r) writable file in
      let '(states, file) := take_results now device before actions (S index) results writable file in
      (match res_ok r, res_state r with true, Some s => (res_package r, s) :: states | _, _ => states end, file)
  end.
Definition on_debloat_results (to_lowercase : bytes -> bytes) (now device : bytes) (packages : list bytes)
    (actions : list PackageRequest) (results : list PackageResultDto) (writable : bool) (d : Debloat) (file : option bytes)
    : Debloat * option bytes :=
  let before := states_for packages d in
  let '(states, file) := take_results now device before actions 0 results writable file in
  (note_states to_lowercase states d, file).
End Ledger.
