(* ===== verification/DebloatSpec.v ===== *)
(** * What the ledger puts back

    The window, the ledger and the daemon's batch together: a change that the
    phone carried out is on record, and putting it back asks for its
    opposite. *)

From stdpp Require Import base relations countable list strings sorting.
From S2P Require Import Prelude RustStd Text DaemonInput Packages GuiModels Debloat.

(** ** The ledger keeps the newest records *)

Section Ledger.
Context (to_json : list DebloatRecord -> option bytes) (from_json : bytes -> option (list DebloatRecord)).

(** What is written can be read back. *)
Hypothesis json_reads : forall l, exists text, to_json l = Some text /\ from_json text = Some l.

Definition recent (l : list DebloatRecord) : list DebloatRecord := drop (length l - LEDGER_CAP) l.

Lemma recent_app l k : recent (recent l ++ k) = recent (l ++ k).
Proof using.
  unfold recent. rewrite !length_app, length_drop.
  destruct (decide (LEDGER_CAP <= length l)%nat).
  - rewrite !drop_app. f_equal.
    + rewrite drop_drop. f_equal. lia.
    + f_equal. rewrite length_drop. lia.
  - replace (length l - LEDGER_CAP)%nat with 0%nat by lia. by rewrite drop_0, Nat.sub_0_r.
Qed.

Lemma record_change_recent rec file :
  load_ledger from_json (record_change to_json from_json rec true file) = recent (load_ledger from_json file ++ [rec]).
Proof using json_reads.
  unfold record_change. set (l := load_ledger from_json file ++ [rec]).
  assert ((if (LEDGER_CAP <? length l)%nat then drop (length l - LEDGER_CAP) l else l) = recent l) as ->.
  { unfold recent. destruct (Nat.ltb_spec LEDGER_CAP (length l)); [done|].
    by replace (length l - LEDGER_CAP)%nat with 0%nat by lia. }
  destruct (json_reads (recent l)) as (text & -> & Hr). cbn. by rewrite Hr.
Qed.

(** The records a batch leaves. *)
Fixpoint batch_records (now device : bytes) (before : list (bytes * bytes)) (actions : list PackageRequest) (index : nat)
    (results : list PackageResultDto) : list DebloatRecord :=
  match results with
  | [] => []
  | r :: results =>
      ledger_record now device (default [] (snd ∘ snd <$> list_find (fun p => fst p = res_package r) before))
        (default Disable (action <$> actions !! index)) r
      :: batch_records now device before actions (S index) results
  end.

Lemma recent_idem l : recent (recent l) = recent l.
Proof using. pose proof (recent_app l []) as H. by rewrite !app_nil_r in H. Qed.

Lemma take_results_ledger now device before actions index results file :
  recent (load_ledger from_json file) = load_ledger from_json file ->
  load_ledger from_json (take_results to_json from_json now device before actions index results true file).2
  = recent (load_ledger from_json file ++ batch_records now device before actions index results).
Proof using json_reads.
  revert index file. induction results as [|r results IH]; intros index file Hfile; cbn [take_results batch_records].
  - by rewrite app_nil_r, Hfile.
  - set (rec := ledger_record _ _ _ _ _). specialize (IH (S index) (record_change to_json from_json rec true file)).
    destruct (take_results _ _ _ _ _ _ (S index) results true _) as [states file'] eqn:E. cbn [snd] in *.
    destruct (res_ok r), (res_state r); cbn [snd]; rewrite IH; rewrite ?record_change_recent, ?recent_idem; try done;
      by rewrite recent_app, <- app_assoc.
Qed.

(** ** What is asked for to put things back *)

(** The successful changes of a package on a phone. *)
Definition changes (device p : bytes) (l : list DebloatRecord) : list DebloatRecord :=
  filter (fun r => rec_device r = device /\ rec_user r = DEBLOAT_USER /\ rec_ok r = true /\ rec_package r = p) l.
Definition undo_of (p : bytes) (r : option DebloatRecord) : list PackageRequest :=
  match r ≫= (fun r => action_from_name (rec_action r)) with Some a => [mkRequest p (inverse a)] | None => [] end.

Lemma undo_actions_for p seen l :
  filter (fun q => package q = p) (undo_actions seen l)
  = if bool_decide (p ∈ seen) then [] else undo_of p (head (filter (fun r => rec_package r = p) l)).
Proof using.
  revert seen. induction l as [|r l IH]; intros seen; cbn [undo_actions]; [by case_bool_decide|].
  rewrite filter_cons. case_bool_decide as Hr.
  - rewrite IH. case_bool_decide as Hp; [done|]. by rewrite decide_False by (intros <-; done).
  - assert (forall k, filter (fun q => package q = p) (k ++ undo_actions (set_insert (rec_package r) seen) l)
      = filter (fun q => package q = p) k ++ (if bool_decide (p = rec_package r \/ p ∈ seen) then [] else
          undo_of p (head (filter (fun r => rec_package r = p) l)))) as Hstep.
    { intros k. rewrite filter_app, IH. f_equal. by rewrite (bool_decide_ext _ _ (elem_of_set_insert p (rec_package r) seen)). }
    pose proof (fun q => Hstep [q]) as Hone. pose proof (Hstep []) as Hnil. cbn [app] in Hone, Hnil.
    destruct (decide (rec_package r = p)) as [Hp|Hp].
    + rewrite bool_decide_eq_false_2 by congruence. cbn [head]. unfold undo_of at 1. cbn [mbind option_bind].
      destruct (action_from_name (rec_action r)) as [a|].
      * rewrite Hone. rewrite bool_decide_eq_true_2 by auto. rewrite filter_cons, decide_True by done.
        cbn. by rewrite Hp.
      * rewrite Hnil. by rewrite bool_decide_eq_true_2 by auto.
    + assert (bool_decide (p = rec_package r \/ p ∈ seen) = bool_decide (p ∈ seen)) as Hbd.
      { apply bool_decide_ext. split; [intros [->|]; done|by right]. }
      destruct (action_from_name (rec_action r)) as [a|].
      * rewrite Hone, Hbd. rewrite filter_cons, decide_False by done. done.
      * by rewrite Hnil, Hbd.
Qed.

Lemma confirm_undo_for device p file :
  filter (fun q => package q = p) (confirm_undo from_json device file)
  = undo_of p (last (changes device p (load_ledger from_json file))).
Proof using.
  unfold confirm_undo, undoable. rewrite undo_actions_for. cbn [bool_decide]. rewrite bool_decide_eq_false_2 by (by intros ?%elem_of_nil).
  rewrite filter_reverse, head_reverse. f_equal. f_equal. unfold changes. rewrite list_filter_filter.
  apply list_filter_iff. intros r. tauto.
Qed.

(** What a batch writes, for results in the order of the requests. *)
Definition was_of (before : list (bytes * bytes)) (r : PackageResultDto) : bytes :=
  default [] (snd ∘ snd <$> list_find (fun p => fst p = res_package r) before).
Definition record_of (now device : bytes) (before : list (bytes * bytes)) (q : PackageRequest) (r : PackageResultDto) : DebloatRecord :=
  ledger_record now device (was_of before r) (action q) r.

Lemma batch_records_zip now device before pre reqs rs :
  length reqs = length rs ->
  batch_records now device before (pre ++ reqs) (length pre) rs = zip_with (record_of now device before) reqs rs.
Proof using.
  revert pre rs. induction reqs as [|q reqs IH]; intros pre [|r rs] Hlen; try done. cbn [batch_records zip_with].
  f_equal.
  - rewrite lookup_app_r, Nat.sub_diag by lia. done.
  - replace (S (length pre)) with (length (pre ++ [q])) by (rewrite length_app; cbn; lia).
    rewrite <- (IH (pre ++ [q]) rs) by (cbn in Hlen; lia). by rewrite <- app_assoc.
Qed.

(** A result is about the package that was asked for. *)
Definition answers (q : PackageRequest) (r : PackageResultDto) : Prop := res_ok r = true -> res_package r = package q.

Lemma changes_cons device p r l :
  changes device p (r :: l)
  = if decide (rec_device r = device /\ rec_user r = DEBLOAT_USER /\ rec_ok r = true /\ rec_package r = p)
    then r :: changes device p l else changes device p l.
Proof using. unfold changes. by rewrite filter_cons. Qed.

Lemma changes_none now device before p reqs rs :
  Forall2 answers reqs rs -> (forall i q r, reqs !! i = Some q -> rs !! i = Some r -> package q = p -> res_ok r = false) ->
  changes device p (zip_with (record_of now device before) reqs rs) = [].
Proof using.
  intros HF. induction HF as [|q r reqs rs Hqr HF IH]; intros Hno; [done|]. cbn [zip_with]. rewrite changes_cons.
  rewrite decide_False; [apply IH; intros i q' r' H1 H2; by apply (Hno (S i))|].
  cbn. intros (_ & _ & Hok & Hp). rewrite (Hno 0%nat q r eq_refl eq_refl) in Hok; [done|]. rewrite <- Hp. symmetry. by apply Hqr.
Qed.

Lemma changes_one now device before i q r reqs rs :
  Forall2 answers reqs rs -> NoDup (package <$> reqs) -> reqs !! i = Some q -> rs !! i = Some r -> res_ok r = true ->
  changes device (package q) (zip_with (record_of now device before) reqs rs) = [record_of now device before q r].
Proof using.
  intros HF. revert i. induction HF as [|q' r' reqs rs Hqr HF IH]; intros i Hnd Hq Hr Hok; [done|].
  cbn [fmap list_fmap] in Hnd. apply NoDup_cons in Hnd as [Hni Hnd]. cbn [zip_with]. rewrite changes_cons. destruct i as [|i]; cbn in Hq, Hr.
  - injection Hq as ->. injection Hr as ->. rewrite decide_True by (cbn; by rewrite Hqr).
    rewrite (changes_none now device before (package q) reqs rs); [done|done|].
    intros j q' r' Hj _ Hp. exfalso. apply Hni, list_elem_of_fmap. exists q'. split; [done|]. by apply list_elem_of_lookup_2 in Hj.
  - rewrite decide_False; [by apply (IH i)|]. cbn. intros (_ & _ & Hok' & Hp). apply Hni, list_elem_of_fmap. exists q.
    split; [rewrite <- Hp; symmetry; by apply Hqr|by apply list_elem_of_lookup_2 in Hq].
Qed.

Lemma changes_app device p l k : changes device p (l ++ k) = changes device p l ++ changes device p k.
Proof using. apply filter_app. Qed.

Lemma recent_keeps l k : (length k <= LEDGER_CAP)%nat -> exists l', recent (l ++ k) = l' ++ k /\ l' `suffix_of` l.
Proof using.
  intros Hk. unfold recent. rewrite length_app, drop_app. replace (length l + length k - LEDGER_CAP - length l)%nat with 0%nat by lia.
  eexists. split; [done|]. apply suffix_drop.
Qed.

(** ** Together with the daemon *)

(** A result as the window decodes it. *)
Definition state_name (s : PackageState) : bytes :=
  match s with Enabled => bs "enabled" | Disabled => bs "disabled" | Uninstalled => bs "uninstalled" end.
Definition dto_of (r : PackageResult) : PackageResultDto := mkResultDto (r_package r) (ok r) (state_name <$> r_state r) (message r).

(** The task of a request: it ends with the verdict on what the phone says, or
    panics. *)
Definition task (panics : nat -> bool) (answer : nat -> bytes -> pm_answer) (i : nat) (q : PackageRequest) : option PackageResult :=
  if panics i then None else Some (apply_one DEBLOAT_USER (answer i) q).

(** The states of a phone's packages after requests it carried out. *)
Definition carry_out (qs : list PackageRequest) (phone : bytes -> PackageState) : bytes -> PackageState :=
  fold_left (fun phone q p => if bool_decide (p = package q) then target_state (action q) else phone p) qs phone.

Lemma carry_out_last qs phone p :
  carry_out qs phone p = default (phone p) (target_state ∘ action <$> last (filter (fun q => package q = p) qs)).
Proof using.
  revert phone. induction qs as [|q qs IH]; intros phone; [done|]. cbn [carry_out fold_left]. fold (carry_out qs).
  unfold carry_out in IH. rewrite IH. rewrite filter_cons. destruct (decide (package q = p)) as [Hp|Hp].
  - rewrite last_cons. destruct (last (filter _ qs)); [done|]. cbn. by rewrite bool_decide_eq_true_2.
  - destruct (last (filter _ qs)); [done|]. cbn. by rewrite bool_decide_eq_false_2 by congruence.
Qed.

(** A change of a package that was in the state its opposite leads to. *)
Definition reversible (s : PackageState) (a : PackageAction) : Prop :=
  match a with Disable | Uninstall => s = Enabled | Enable => s = Disabled | Restore => False end.

Lemma reversible_back s a : reversible s a -> target_state (inverse a) = s.
Proof using. destruct a; cbn; congruence || done. Qed.

Lemma action_name_reads a : action_from_name (action_name a) = Some a.
Proof using. by destruct a. Qed.

Lemma task_answers panics answer reqs :
  Forall (fun q => trim (package q) = package q) reqs ->
  Forall2 answers reqs (dto_of <$> imap (fun i q => default not_run (task panics answer i q)) reqs).
Proof using.
  intros Htrim. apply Forall2_same_length_lookup. split; [by rewrite length_fmap, length_imap|].
  intros i q r Hq Hr. rewrite list_lookup_fmap, list_lookup_imap, Hq in Hr. cbn in Hr. injection Hr as <-.
  unfold answers, task. destruct (panics i); cbn; [done|]. intros _.
  destruct (apply_one_verdict DEBLOAT_USER (answer i) q) as (-> & _). by apply (proj1 (Forall_lookup _ _) Htrim i).
Qed.

Lemma ledger_after to_lowercase now device packages reqs rs d file :
  (length (load_ledger from_json file) <= LEDGER_CAP)%nat -> length reqs = length rs ->
  exists before, load_ledger from_json (on_debloat_results to_json from_json to_lowercase now device packages reqs rs true d file).2
  = recent (load_ledger from_json file ++ zip_with (record_of now device before) reqs rs).
Proof using json_reads.
  intros Hcap Hlen. exists (states_for packages d). unfold on_debloat_results.
  pose proof (take_results_ledger now device (states_for packages d) reqs 0 rs file) as H.
  destruct (take_results _ _ _ _ _ _ _ _ _ _) as [states file']. cbn [snd] in *. rewrite H.
  - f_equal. f_equal. apply (batch_records_zip now device (states_for packages d) [] reqs rs Hlen).
  - unfold recent. by replace (length (load_ledger from_json file) - LEDGER_CAP)%nat with 0%nat by lia.
Qed.

(** C25: what was changed can be put back, where the opposite change does it. The daemon runs a batch of package
    changes to its end, its tasks ending in any order, failing or panicking,
    and the window records the results. Then Undo asks, once for each package
    the phone did change, for the opposite of that change; for a [reversible] change (an enabled package that was disabled or
    uninstalled, a disabled one that was enabled) carrying this out,
    whatever the phone's state by then, brings the package back to the state it
    was in before the batch; other changes are not promised to come back. For every other package,
    as long as the ledger has room for the batch, Undo asks for what it would have asked
    for before the batch. The batch names no package twice, is no longer than the ledger, and the
    ledger can be written. *)
Theorem undo_puts_back to_lowercase now device reqs panics answer n b d file :
  (length (load_ledger from_json file) <= LEDGER_CAP)%nat -> (length reqs <= LEDGER_CAP)%nat ->
  NoDup (package <$> reqs) -> Forall (fun q => trim (package q) = package q) reqs ->
  nsteps (join_step (task panics answer)) n (batch_start reqs) b -> flying b = [] ->
  let file' := (on_debloat_results to_json from_json to_lowercase now device (package <$> reqs) reqs (dto_of <$> results b) true d file).2 in
  let undo := confirm_undo from_json device file' in
  (forall i q r, reqs !! i = Some q -> results b !! i = Some r -> ok r = true ->
     filter (fun u => package u = package q) undo = [mkRequest (package q) (inverse (action q))]
     /\ forall phone phone', reversible (phone (package q)) (action q) -> carry_out undo phone' (package q) = phone (package q))
  /\ (forall p, (length (load_ledger from_json file) + length reqs <= LEDGER_CAP)%nat ->
       (forall i q r, reqs !! i = Some q -> results b !! i = Some r -> package q = p -> ok r = false) ->
       filter (fun u => package u = p) undo = filter (fun u => package u = p) (confirm_undo from_json device file)).
Proof using json_reads.
  intros Hcap Hlen Hnd Htrim Hrun Hend file' undo.
  destruct (reach_ok (task panics answer) reqs n _ b [] (batch_start_ok _ _) Hrun) as (gone & Hb & _).
  pose proof (ended_results _ _ gone b Hb Hend) as Hres. pose proof (task_answers panics answer reqs Htrim) as HF.
  rewrite <- Hres in HF. pose proof (Forall2_length _ _ _ HF) as Hl.
  destruct (ledger_after to_lowercase now device (package <$> reqs) reqs (dto_of <$> results b) d file Hcap Hl) as (before & Hled).
  fold file' in Hled. set (new := zip_with _ reqs _) in Hled.
  assert (length new = length reqs) as Hnl by (unfold new; rewrite length_zip_with; lia).
  split.
  - intros i q r Hq Hr Hok.
    assert (filter (fun u => package u = package q) undo = [mkRequest (package q) (inverse (action q))]) as Hone.
    { unfold undo. rewrite confirm_undo_for, Hled. destruct (recent_keeps (load_ledger from_json file) new) as (l' & -> & _); [lia|].
      rewrite changes_app. unfold new. rewrite (changes_one now device before i q (dto_of r)); [|done|done|done| |done].
      - rewrite last_snoc. unfold undo_of, record_of, ledger_record. cbn [mbind option_bind rec_action]. by rewrite action_name_reads.
      - by rewrite list_lookup_fmap, Hr. }
    split; [done|]. intros phone phone' Hrev. rewrite carry_out_last, Hone. cbn. by apply reversible_back.
  - intros p Hroom Hno. unfold undo. rewrite !confirm_undo_for, Hled. unfold recent.
    replace (length (load_ledger from_json file ++ new) - LEDGER_CAP)%nat with 0%nat by (rewrite length_app; lia).
    rewrite drop_0, changes_app. unfold new. rewrite (changes_none now device before p), app_nil_r; [done|done|].
    intros i q r Hq Hr Hp. rewrite list_lookup_fmap in Hr. destruct (results b !! i) as [r0|] eqn:Hr0; [|done].
    injection Hr as <-. by apply (Hno i q r0).
Qed.
End Ledger.

(** ** What removing packages breaks *)

(** The warning names exactly the packages of the phone, not chosen themselves,
    that a chosen one names as a dependency or as needing it. *)
Theorem broken_exact rs ids x :
  x ∈ broken_by_removing rs ids
  <-> x ∉ ids /\ x ∈ (id <$> rs) /\ exists r, r ∈ rs /\ id r ∈ ids /\ (x ∈ r_dependencies r \/ x ∈ r_needed_by r).
Proof.
  unfold broken_by_removing. set (deps := concat _).
  assert (forall s, x ∈ fold_left (fun s d => if negb (bool_decide (d ∈ ids)) && bool_decide (d ∈ (id <$> rs)) then set_insert d s else s) deps s
    <-> x ∈ s \/ (x ∉ ids /\ x ∈ (id <$> rs) /\ x ∈ deps)) as ->.
  { induction deps as [|d deps IH]; intros s; cbn [fold_left]; [rewrite elem_of_nil; tauto|]. rewrite IH, elem_of_cons.
    repeat case_bool_decide; cbn [negb andb]; rewrite ?elem_of_set_insert; naive_solver. }
  rewrite elem_of_nil. assert (x ∈ deps <-> exists r, r ∈ rs /\ id r ∈ ids /\ (x ∈ r_dependencies r \/ x ∈ r_needed_by r)) as ->; [|tauto].
  unfold deps. rewrite list_elem_of_In, List.in_concat. setoid_rewrite <- list_elem_of_In. split.
  - intros (l & Hl & Hx). apply list_elem_of_fmap in Hl as (r & -> & Hr). case_bool_decide; [|by apply elem_of_nil in Hx].
    apply elem_of_app in Hx. by exists r.
  - intros (r & Hr & Hid & Hx). exists (r_dependencies r ++ r_needed_by r). split; [|by apply elem_of_app].
    apply list_elem_of_fmap. exists r. split; [|done]. by rewrite bool_decide_eq_true_2.
Qed.

(** ** A codec, a run and findings *)

Definition tuple_of (r : DebloatRecord) :=
  (rec_when r, rec_device r, rec_user r, rec_package r, rec_action r, before r, after r, rec_ok r, rec_error r).
Global Instance DebloatRecord_countable : Countable DebloatRecord.
Proof.
  refine (inj_countable' tuple_of (fun '(a, b, c, d, e, f, g, h, i) => mkRecord a b c d e f g h i) _). by intros [].
Defined.

Fixpoint bits (p : positive) : bytes :=
  match p with xH => [] | xO p => 0 :: bits p | xI p => 1 :: bits p end.
Fixpoint number (l : bytes) : positive :=
  match l with [] => xH | b :: l => if b =? 0 then xO (number l) else xI (number l) end.
Lemma number_bits p : number (bits p) = p.
Proof. induction p as [p IH|p IH|]; cbn; by rewrite ?IH. Qed.

Definition to_bits (l : list DebloatRecord) : option bytes := Some (bits (encode l)).
Definition from_bits (t : bytes) : option (list DebloatRecord) := decode (number t).
Lemma bits_read l : exists text, to_bits l = Some text /\ from_bits text = Some l.
Proof. eexists. split; [done|]. unfold from_bits. by rewrite number_bits, decode_encode. Qed.

Definition one_change : list PackageRequest := [mkRequest (bs "com.a") Disable].
Definition done_says (i : nat) (c : bytes) : pm_answer := Said true (bs "done") [].

Lemma undo_puts_back_witness :
  exists b, results b !! 0%nat = Some (apply_one DEBLOAT_USER (done_says 0) (mkRequest (bs "com.a") Disable))
    /\ filter (fun u => package u = bs "com.a")
         (confirm_undo from_bits (bs "phone")
           (on_debloat_results to_bits from_bits (fun l => l) [] (bs "phone") [bs "com.a"] one_change (dto_of <$> results b) true new_debloat None).2)
       = [mkRequest (bs "com.a") Enable].
Proof.
  set (b := joined 0 (task (fun _ => false) done_says 0 (mkRequest (bs "com.a") Disable)) [] (batch_start one_change)).
  assert (nsteps (join_step (task (fun _ => false) done_says)) 1 (batch_start one_change) b) as Hrun.
  { eapply nsteps_l; [|apply nsteps_O]. exact (join_any _ (batch_start one_change) 0 (mkRequest (bs "com.a") Disable) [] [] eq_refl). }
  exists b. split; [reflexivity|].
  apply (proj1 (undo_puts_back to_bits from_bits bits_read (fun l => l) [] (bs "phone") one_change (fun _ => false) done_says 1 b new_debloat None
    ltac:(cbn; lia) ltac:(cbn; unfold LEDGER_CAP; lia) ltac:(repeat constructor; intros H; by apply elem_of_nil in H)
    ltac:(repeat constructor) Hrun eq_refl) 0%nat (mkRequest (bs "com.a") Disable)
    (apply_one DEBLOAT_USER (done_says 0) (mkRequest (bs "com.a") Disable)) eq_refl eq_refl ltac:(by vm_compute)).
Defined.

Definition changed (p : bytes) (a : PackageAction) : DebloatRecord :=
  mkRecord [] (bs "phone") 0 p (action_name a) [] [] true None.

(** Putting back is itself on record, so putting back once more does the change
    again. *)
Example undo_twice_redoes : undo_actions [] (reverse [changed (bs "com.a") Disable; changed (bs "com.a") Enable])
  = [mkRequest (bs "com.a") Disable].
Proof. by vm_compute. Qed.

Definition no_list (p : bytes) : option Entry := None.
Definition pkg (i : bytes) : PackageDto := mkPackage i (bs "enabled") false None.

(** The packages of the phone looked at before, when they come late, are shown
    as those of the phone looked at now. *)
Example packages_of_the_other_phone :
  let d := (set_device (Some (bs "B")) (set_device (Some (bs "A")) new_debloat).2).2 in
  let d := on_packages no_list (fun l => l) (Ok [pkg (bs "com.of.a")]) (on_packages no_list (fun l => l) (Ok [pkg (bs "com.of.b")]) d) in
  device d = Some (bs "B") /\ id <$> rows d = [bs "com.of.a"].
Proof. by vm_compute. Qed.

(** A dependency that only the dependent package names is not found. *)
Example one_sided_dependency :
  let row i deps := mkViewRow i (bs "enabled") false None Other None true deps [] in
  broken_by_removing [row (bs "com.a") [bs "com.b"]; row (bs "com.b") []] [bs "com.b"] = [].
Proof. by vm_compute. Qed.
