(* ===== verification/Clipboard.v ===== *)
(** * Files on the clipboard

    [adb-gui/src/state/clipboard.rs]: a selection is written to the system
    clipboard as a list of paths or of [file://] URIs and read back, from this
    program or another file manager. *)

From stdpp Require Import base list strings.
From S2P Require Import Prelude RustStd Text Apk GuiModels.

(** ** Definitions *)

Record ClipboardFiles := mkFiles {
  from_local : bool; files_device : option bytes; from_dir : bytes; files : list DirEntry }.

Definition is_absolute (p : bytes) : bool := match p with 47 :: _ => true | _ => false end.

Definition absolute_paths (entries : list DirEntry) (dir : bytes) : list bytes :=
  (fun e => if is_absolute (e_name e) then e_name e else path_join dir (e_name e)) <$> entries.

(** A byte that stands for itself in a URI, and the other ones as [%XX]. *)
Definition unreserved (b : Z) : bool := is_alnum b || (b =? 45) || (b =? 46) || (b =? 95) || (b =? 126) || (b =? 47).
Definition hex_upper (n : Z) : Z := if n <? 10 then 48 + n else 55 + n.
Definition encode_byte (b : Z) : bytes := if unreserved b then [b] else [37; hex_upper (b / 16); hex_upper (b mod 16)].
Definition encode_uri (path : bytes) : bytes := bs "file://" ++ concat (encode_byte <$> from_utf8_lossy path).

(** What is put on the clipboard, if anything. *)
Definition breaks_line (p : bytes) : bool := existsb (fun b => (b =? 10) || (b =? 13)) (from_utf8_lossy p).
Definition mirror_to_system (entries : list DirEntry) (dir : bytes) : option bytes :=
  match absolute_paths entries dir with
  | [] => None
  | paths => Some (join [10] ((if existsb breaks_line paths then encode_uri else from_utf8_lossy) <$> paths))
  end.

(** [u8::from_str_radix(h, 16)] of two bytes. *)
Definition from_hex2 (h l : Z) : option Z :=
  if is_hex l then
    if is_hex h then Some (16 * hex_val h + hex_val l) else if h =? 43 then Some (hex_val l) else None
  else None.
Fixpoint unescape (l : bytes) : bytes :=
  match l with
  | [] => []
  | b :: l' =>
      match l' with
      | h1 :: h2 :: rest =>
          match (if b =? 37 then from_hex2 h1 h2 else None) with
          | Some x => x :: unescape rest
          | None => b :: unescape l'
          end
      | _ => b :: unescape l'
      end
  end.
Definition percent_decode (l : bytes) : bytes := from_utf8_lossy (unescape l).

Definition from_uri (line : bytes) : option bytes :=
  rest ← strip_pre (bs "file://") line;
  '(host, path) ← split_once [47] rest;
  if bool_decide (host = []) || eq_ignore_ascii_case host (bs "localhost") then Some (percent_decode (47 :: path)) else None.

Definition decode (text : bytes) : list bytes :=
  omap (fun line =>
    if bool_decide (line = []) || has_prefix [35] line then None
    else let path := default line (from_uri line) in if is_absolute path then Some path else None)
    (trim <$> lines text).

(** Where the files of a snapshot would be pasted. *)
Definition resolve_destination (snapshot : ClipboardFiles) (target_dir : bytes) (target_device : option bytes)
    : result bytes (list bytes) :=
  match files_device snapshot, target_device with
  | Some origin, Some target =>
      if bool_decide (origin <> target)
      then Err (bs "These files were copied from " ++ origin ++ bs ". Paste into that device, or copy them again.")
      else Ok ((fun src => path_join target_dir (default (bs "untitled") (file_name src))) <$> absolute_paths (files snapshot) (from_dir snapshot))
  | _, _ => Ok ((fun src => path_join target_dir (default (bs "untitled") (file_name src))) <$> absolute_paths (files snapshot) (from_dir snapshot))
  end.

(** ** What is copied can be pasted *)

Definition is_byte (b : Z) : Prop := 0 <= b < 256.

Lemma from_hex2_upper b : is_byte b -> from_hex2 (hex_upper (b / 16)) (hex_upper (b mod 16)) = Some b.
Proof.
  intros Hb. assert (forall n, 0 <= n < 16 -> is_hex (hex_upper n) = true /\ hex_val (hex_upper n) = n) as Hh.
  { intros n Hn. destruct (decide (n < 10)) as [H|H]; unfold hex_upper; [rewrite (proj2 (Z.ltb_lt _ _) H)|rewrite (proj2 (Z.ltb_ge _ _)) by lia].
    - assert (is_digit (48 + n) = true) as Hd by (unfold is_digit, in_range; apply andb_true_iff; rewrite !Z.leb_le; lia).
      unfold is_hex, hex_val. rewrite Hd. cbn. split; [done|lia].
    - assert (is_digit (55 + n) = false) as Hd by (unfold is_digit, in_range; apply andb_false_iff; rewrite !Z.leb_gt; lia).
      assert (in_range 65 70 (55 + n) = true) as Hu by (unfold in_range; apply andb_true_iff; rewrite !Z.leb_le; lia).
      assert (in_range 97 102 (55 + n) = false) as Hl by (unfold in_range; apply andb_false_iff; rewrite !Z.leb_gt; lia).
      unfold is_hex, hex_val. rewrite Hd, Hu, Hl. cbn. split; [done|lia]. }
  unfold is_byte in Hb. destruct (Hh (b / 16)) as [H1 H2]; [split; [apply Z.div_pos; lia|apply Z.div_lt_upper_bound; lia]|].
  destruct (Hh (b mod 16)) as [H3 H4]; [apply Z.mod_pos_bound; lia|]. unfold from_hex2. rewrite H1, H3, H2, H4. f_equal.
  symmetry. apply Z.div_mod. lia.
Qed.

Lemma unescape_cons b l : b <> 37 -> unescape (b :: l) = b :: unescape l.
Proof. intros Hb. apply Z.eqb_neq in Hb. cbn [unescape]. rewrite Hb. by destruct l as [|h1 [|h2 rest]]. Qed.

Lemma unescape_encoded l : Forall is_byte l -> unescape (concat (encode_byte <$> l)) = l.
Proof.
  induction 1 as [|b l Hb _ IH]; [done|]. cbn [fmap list_fmap concat]. unfold encode_byte at 1. destruct (unreserved b) eqn:Hu.
  - cbn [app]. rewrite unescape_cons; [by rewrite IH|]. intros ->. by vm_compute in Hu.
  - cbn [app]. change (unescape (37 :: hex_upper (b / 16) :: hex_upper (b mod 16) :: concat (encode_byte <$> l)))
      with (match from_hex2 (hex_upper (b / 16)) (hex_upper (b mod 16)) with
            | Some x => x :: unescape (concat (encode_byte <$> l))
            | None => 37 :: unescape (hex_upper (b / 16) :: hex_upper (b mod 16) :: concat (encode_byte <$> l))
            end).
    rewrite from_hex2_upper by done. by rewrite IH.
Qed.

Lemma strip_cr_none l : Forall (fun b => b <> 13) l -> strip_cr l = l.
Proof.
  intros Hl. unfold strip_cr. destruct (strip_suffix [13] l) as [l'|] eqn:Es; [|done]. exfalso. unfold strip_suffix in Es.
  case_match eqn:Hm; simplify_eq. apply andb_true_iff in Hm as [_ Hm]. apply bool_decide_eq_true in Hm.
  assert (13 ∈ l) as H13.
  { rewrite <- (ztake_zdrop l (zlen l - zlen [13])), Hm. apply elem_of_app. right. by left. }
  rewrite Forall_forall in Hl. by apply Hl in H13.
Qed.

(** Joined lines are read back. *)
Lemma lines_joined ls :
  ls <> [] -> Forall (fun l => l <> [] /\ Forall (fun b => b <> 10 /\ b <> 13) l) ls -> lines (join [10] ls) = ls.
Proof.
  intros Hne Hls. unfold lines. rewrite split_join; [|done|].
  - clear Hne. induction Hls as [|l ls [Hl Hb] Hls IH]; [done|]. destruct ls as [|k ls]; [by destruct l|].
    change (lines_of (l :: k :: ls)) with (strip_cr l :: lines_of (k :: ls)). rewrite IH, strip_cr_none; [done|].
    eapply Forall_impl; [exact Hb|]. naive_solver.
  - eapply Forall_impl; [exact Hls|]. intros l [_ Hb]. eapply Forall_impl; [exact Hb|]. naive_solver.
Qed.

Lemma encode_byte_plain b : is_byte b -> Forall (fun c => 0 <= c < 0x80 /\ blank c = false) (encode_byte b).
Proof.
  intros Hb. assert (forall n, 0 <= n < 16 -> 0 <= hex_upper n < 0x80 /\ blank (hex_upper n) = false) as Hh.
  { intros n Hn. unfold hex_upper, blank, in_range. destruct (Z.ltb_spec n 10);
      (split; [lia|]); rewrite orb_false_iff, andb_false_iff, !Z.leb_gt, Z.eqb_neq; lia. }
  unfold is_byte in Hb. unfold encode_byte. destruct (unreserved b) eqn:Hu.
  - repeat constructor; unfold unreserved, is_alnum, is_digit, is_alpha, in_range in Hu; bool_to_prop || idtac.
    all: repeat (apply orb_true_iff in Hu as [Hu|Hu]); try apply andb_true_iff in Hu as [? ?]; rewrite ?Z.leb_le, ?Z.eqb_eq in *; try lia;
      unfold blank, in_range; rewrite orb_false_iff, andb_false_iff, !Z.leb_gt, Z.eqb_neq; lia.
  - repeat constructor; try lia; try done; apply Hh; try (apply Z.mod_pos_bound; lia);
      (split; [apply Z.div_pos; lia|apply Z.div_lt_upper_bound; lia]).
Qed.

Lemma encode_uri_word p : Forall is_byte p -> utf8_valid p = true -> is_word (encode_uri p).
Proof.
  intros Hp Hv. unfold encode_uri. rewrite from_utf8_lossy_valid by done.
  assert (Forall (fun c => 0 <= c < 0x80 /\ blank c = false) (bs "file://" ++ concat (encode_byte <$> p))) as H.
  { apply Forall_app. split; [by repeat constructor|]. apply Forall_concat, Forall_fmap. eapply Forall_impl; [exact Hp|].
    apply encode_byte_plain. }
  split_and!; [eapply Forall_impl; [exact H|]; naive_solver|eapply Forall_impl; [exact H|]; naive_solver|done].
Qed.

Lemma is_absolute_cons p : is_absolute p = true -> exists q, p = 47 :: q.
Proof. destruct p as [|[|q|q] p]; try done. do 6 (destruct q as [q|q|]; try done). intros _. by exists p. Qed.

Lemma from_uri_encoded p :
  Forall is_byte p -> utf8_valid p = true -> is_absolute p = true -> from_uri (encode_uri p) = Some p.
Proof.
  intros Hp Hv Ha. destruct (is_absolute_cons p Ha) as [q ->]. rename q into p.
  unfold from_uri, encode_uri. rewrite from_utf8_lossy_valid, strip_pre_app by done. cbn [mbind option_bind].
  change (concat (encode_byte <$> 47 :: p)) with ([47] ++ concat (encode_byte <$> p)).
  assert (forall l, split_once [47] ([47] ++ l) = Some ([], l)) as ->.
  { intros l. cbn [app split_once]. change (47 :: l) with ([47] ++ l). rewrite has_prefix_app. by rewrite zdrop_app_exact. }
  cbn [mbind option_bind]. unfold percent_decode.
  change (47 :: concat (encode_byte <$> p)) with (concat (encode_byte <$> 47 :: p)).
  by rewrite unescape_encoded, from_utf8_lossy_valid.
Qed.

(** A line that is read as the path it was written for. *)
Definition read_as (line p : bytes) : Prop :=
  line <> [] /\ Forall (fun b => b <> 10 /\ b <> 13) line /\ trim line = line /\ has_prefix [35] line = false
  /\ default line (from_uri line) = p /\ is_absolute p = true.

Lemma decode_lines ls ps : ls <> [] -> Forall2 read_as ls ps -> decode (join [10] ls) = ps.
Proof.
  intros Hne HF. unfold decode. rewrite lines_joined; [|done|].
  - clear Hne. induction HF as [|l p ls ps (Hl & _ & Ht & Hc & Hd & Ha) _ IH]; [done|]. cbn [fmap list_fmap omap list_omap].
    rewrite Ht, bool_decide_eq_false_2, Hc by done. cbn [orb]. rewrite Hd, Ha. by rewrite IH.
  - clear Hne. induction HF as [|l p ls ps (Hl & Hb & _) _ IH]; constructor; auto.
Qed.

Lemma breaks_line_none p : utf8_valid p = true -> breaks_line p = false -> Forall (fun b => b <> 10 /\ b <> 13) p.
Proof.
  unfold breaks_line. intros Hv. rewrite from_utf8_lossy_valid by done. intros H. apply Forall_forall. intros b Hb.
  rewrite <- not_true_iff_false, existsb_exists in H. split; intros ->; apply H; [exists 10|exists 13]; (split; [by apply list_elem_of_In|done]).
Qed.

(** what is copied can be pasted. A selection of files with UTF-8 names is
    written to the clipboard so that reading it gives the same paths, in
    order: as bare paths when no name holds a line break, and then provided
    no path ends in white space, and as URIs, with every byte of the names
    back in place, when some name does. *)
Theorem clipboard_round_trip entries dir text :
  let paths := absolute_paths entries dir in
  Forall (fun p => is_absolute p = true /\ utf8_valid p = true /\ Forall is_byte p) paths ->
  (existsb breaks_line paths = true \/ Forall (fun p => trim p = p) paths) ->
  mirror_to_system entries dir = Some text -> decode text = paths.
Proof.
  intros paths Hok Hkind. unfold mirror_to_system. fold paths. destruct (decide (paths = [])) as [->|Hne]; [done|].
  intros Htext. assert (text = join [10] ((if existsb breaks_line paths then encode_uri else from_utf8_lossy) <$> paths)) as ->
    by (destruct paths; [done|congruence]).
  apply decode_lines; [by destruct paths|]. apply Forall2_fmap_l, Forall_Forall2_diag, Forall_forall. intros p Hin.
  destruct (proj1 (Forall_forall _ _) Hok p Hin) as (Ha & Hv & Hb). destruct (existsb breaks_line paths) eqn:Hbr.
  - pose proof (encode_uri_word p Hb Hv) as Hw. split_and!.
    + by destruct Hw as (_ & _ & ?).
    + by apply word_no_newline.
    + by apply trim_word.
    + done.
    + by rewrite from_uri_encoded.
    + done.
  - destruct Hkind as [|Htrim]; [done|]. change (read_as (from_utf8_lossy p) p). rewrite from_utf8_lossy_valid by done.
    assert (breaks_line p = false) as Hp.
    { apply not_true_iff_false. intros H. rewrite <- not_true_iff_false in Hbr. apply Hbr, existsb_exists. exists p.
      split; [by apply list_elem_of_In|done]. }
    destruct (is_absolute_cons p Ha) as [q ->].
    split_and!; [done|by apply breaks_line_none|by apply (proj1 (Forall_forall _ _) Htrim)|done|done|done].
Qed.

(** ** Witness and finding *)

Definition copied (n : bytes) : DirEntry := mkEntry n false false 0 420 0.

Lemma clipboard_round_trip_witness :
  decode (default [] (mirror_to_system [copied (bs "a b"); copied (bs "50%" ++ [10])] (bs "/home/x")))
  = [bs "/home/x/a b"; bs "/home/x/50%" ++ [10]].
Proof.
  apply (clipboard_round_trip [copied (bs "a b"); copied (bs "50%" ++ [10])] (bs "/home/x")).
  - repeat constructor; vm_compute; congruence.
  - left. reflexivity.
  - reflexivity.
Defined.

(** A bare path loses the white space at its end. *)
Example trailing_blank_lost :
  decode (default [] (mirror_to_system [copied (bs "notes ")] (bs "/home/x"))) = [bs "/home/x/notes"].
Proof. by vm_compute. Qed.
