(* ===== verification/AppWindow.v ===== *)
(** * The window

    What the handlers of [adb-gui/src/app.rs] share: the state of the window
    with its dialog and toasts, the commands they give and the
    programs made of them. A handler runs on the thread of the window
    and forks tasks that call the daemon ([adb-gui/src/state/daemon.rs]) and then update
    the window; a [gprog] is either, a tree of commands with a branch for every
    answer. Redrawing is left out. *)

From stdpp Require Import base list strings.
From S2P Require Import Prelude RustStd Text Axml GuiModels Clipboard Browser AppListing.

(** ** Toasts *)

(** [MessageTone] of the dialogs has the same constructors. *)
Inductive ToastTone := Info | Success | Warning | Error.
Inductive ActionId := RetryFailed | OpenDownloads | CopyDiagnostics.
#[global] Instance ActionId_eq : EqDecision ActionId.
Proof. solve_decision. Defined.

(** A toast, and when it runs out, in milliseconds. *)
Record Toast := mkToast { t_message : bytes; tone : ToastTone; action : option (bytes * ActionId); expires_at : Z }.
Definition LIFETIME : Z := 4000.
Definition GRACE : Z := 600.
Definition MAX_VISIBLE : nat := 4.

(** [ToastStack], the oldest first *)
Definition stack_push (now : Z) (message : bytes) (tone : ToastTone) (action : option (bytes * ActionId)) (items : list Toast) : list Toast :=
  let items := List.filter (fun t => negb (bool_decide (t_message t = message))) items in
  let items := items ++ [mkToast message tone action (now + LIFETIME + GRACE)] in
  if (MAX_VISIBLE <? length items)%nat then drop (length items - MAX_VISIBLE) items else items.
Definition prune (now : Z) (items : list Toast) : bool * list Toast :=
  let kept := List.filter (fun t => now <? expires_at t) items in
  (negb (bool_decide (length kept = length items)), kept).
Definition dismiss_action (id : ActionId) (items : list Toast) : list Toast :=
  List.filter (fun t => match action t with Some (_, a) => negb (bool_decide (a = id)) | None => true end) items.

(** ** Dialogs *)

Record InstallStatusDto := mkInstall {
  is_id : Z; is_device : bytes; is_label : bytes; is_source : bytes; is_from_device : bool; is_state : bytes; is_percent : Z;
  is_bytes_done : Z; is_bytes_total : Z; is_error_code : option bytes; is_message : option bytes; is_raw : option bytes; is_finished : bool }.
Definition is_done (s : InstallStatusDto) : bool := bool_decide (is_state s = bs "Done").

Record PackageInfoDto := mkPackage {
  pi_package : bytes; pi_installed : bool; pi_version_name : option bytes; pi_version_code : option Z }.

Inductive ItemState :=
| Queued | Running (percent : Z) (state : bytes) | Succeeded | ItemFailed (code message : option bytes).
Record BatchItem := mkItem { item_name : bytes; item_local : bytes; item_state : ItemState }.

Inductive WifiStep :=
| Address | WifiPairing (address : bytes) | Qr (payload instance password status : bytes) | Paired (address : bytes)
| WifiFailed (message : bytes).

(** The card of an APK. *)
Record Card := mkCard {
  card_local : bytes; card_info : option ApkInfo; parse_error : option bytes; card_installed : option PackageInfoDto;
  card_device : bytes; device_abi : option bytes; can_copy : bool }.

(** The dialogs of package changes, the image preview and those that only show a text
    are [DlgOther]. *)
Inductive Dialog :=
| DlgNone
| DlgNewFolder
| DlgRename (entry : DirEntry)
| DlgConfirmDelete (label : bytes) (entries : list DirEntry) (trash : bool)
| DlgConnectWifi (step : WifiStep)
| DlgDiagnostics (report : bytes)
| DlgSideloadApk (card : Card)
| DlgInstalling (label : bytes) (status : option InstallStatusDto)
| DlgConfirmDeviceInstall (name device_path : bytes)
| DlgSideloadBatch (items : list BatchItem) (device : bytes)
| DlgInstallFailed (label : bytes) (code message raw : option bytes) (device : bytes) (package : option bytes) (path : bytes) (from_device : bool)
| DlgMessage (title body : bytes) (tone : ToastTone)
| DlgOther.

(** ** The state *)

Record TransferPolicy := mkPolicy { overwrite : bytes; verify : bool }.
Definition default_policy : TransferPolicy := mkPolicy (bs "skip") false.

Record InstallWatch := mkWatch {
  watch_id : Z; watch_device : bytes; watch_source : bytes; watch_package : option bytes; watch_version : option bytes }.

Record InstallRecord := mkRecord {
  rec_when : bytes; rec_package : bytes; rec_version : option bytes; rec_source : bytes; rec_device : bytes; rec_success : bool;
  rec_error : option bytes }.

(** [install_history] is the file of that name. *)
Record Win := mkWin {
  app : App; clipboard : option ClipboardFiles; toasts : list Toast; dialog : Dialog; jobs : list JobInfo; policy : TransferPolicy;
  install_watch : option InstallWatch; install_history : list InstallRecord }.

Definition with_app (a : App) (w : Win) : Win :=
  mkWin a (clipboard w) (toasts w) (dialog w) (jobs w) (policy w) (install_watch w) (install_history w).
Definition with_clipboard (c : option ClipboardFiles) (w : Win) : Win :=
  mkWin (app w) c (toasts w) (dialog w) (jobs w) (policy w) (install_watch w) (install_history w).
Definition with_toasts (f : list Toast -> list Toast) (w : Win) : Win :=
  mkWin (app w) (clipboard w) (f (toasts w)) (dialog w) (jobs w) (policy w) (install_watch w) (install_history w).
Definition with_dialog (d : Dialog) (w : Win) : Win :=
  mkWin (app w) (clipboard w) (toasts w) d (jobs w) (policy w) (install_watch w) (install_history w).
Definition with_watch (x : option InstallWatch) (w : Win) : Win :=
  mkWin (app w) (clipboard w) (toasts w) (dialog w) (jobs w) (policy w) x (install_history w).
Definition with_records (l : list InstallRecord) (w : Win) : Win :=
  mkWin (app w) (clipboard w) (toasts w) (dialog w) (jobs w) (policy w) (install_watch w) l.

(** A JSON object: the text of a field that has one. *)
Definition json : Type := bytes -> option bytes.

Record TreeEnqueueResult := mkTree { enqueued : list Z; copied : Z; errors : list bytes }.

(** ** Commands

    First the calls of [state/daemon.rs], then those of the disk and the
    desktop, then the window. The two enqueue calls fall back to methods without a
    policy for a daemon that has no others, which is left out. *)
Inductive gcmd : Type -> Type :=
| EnqueuePush (device local remote : bytes) (p : TransferPolicy) : gcmd (result bytes Z)
| EnqueuePull (device remote local : bytes) (p : TransferPolicy) : gcmd (result bytes Z)
| EnqueueTreePush (device local remote : bytes) (p : TransferPolicy) : gcmd (result bytes TreeEnqueueResult)
| EnqueueTreePull (device remote local : bytes) (p : TransferPolicy) : gcmd (result bytes TreeEnqueueResult)
| CopyTreeOn (device src dst : bytes) : gcmd (result bytes TreeEnqueueResult)
| CopyFileOn (device src dst : bytes) : gcmd (result bytes unit)
| MkdirOn (device path : bytes) : gcmd (result bytes unit)
| RenameOn (device src dst : bytes) : gcmd (result bytes unit)
| DeleteOn (device path : bytes) : gcmd (result bytes unit)
| PauseOn (id : Z) : gcmd (result bytes bool)
| ResumeOn (id : Z) : gcmd (result bytes bool)
| CancelOn (id : Z) : gcmd (result bytes bool)
| RetryOn : gcmd (result bytes Z)
| StartInstall (device path : bytes) : gcmd (result bytes Z)
| InstallStatuses : gcmd (result bytes (list InstallStatusDto))
| PackageInfoOn (device package : bytes) : gcmd (result bytes PackageInfoDto)
| UninstallOn (device package : bytes) : gcmd (result bytes unit)
| PairOn (address code : bytes) : gcmd (result bytes bytes)
| ConnectOn (address : bytes) : gcmd (result bytes bytes)
| QrStart : gcmd (result bytes json)
| QrStatus : gcmd (result bytes json)
| DiagnosticsOn : gcmd (result bytes bytes)
| CopyFile (src dst : bytes) : gcmd (result bytes unit)
| CopyTree (src dst : bytes) : gcmd (result bytes Z)
| MovePath (src dst : bytes) : gcmd (result bytes unit)
| RenamePath (src dst : bytes) : gcmd (result bytes unit)
| MakeDir (path : bytes) : gcmd (result bytes unit)
| DeletePath (path : bytes) : gcmd (result bytes unit)
| TrashPath (path : bytes) : gcmd (result bytes unit)
| IsDirHere (path : bytes) : gcmd bool
| IsApk (path : bytes) : gcmd bool
| MetadataHere (path : bytes) : gcmd (option (bool * Z))
| PathExists (path : bytes) : gcmd bool
| ApkInfoOf (path : bytes) : gcmd (result bytes ApkInfo)
| DownloadDir : gcmd (option bytes)
| SystemText : gcmd (option bytes)
| SetSystemText (t : bytes) : gcmd unit
| OpenExternal (path : bytes) : gcmd (result bytes unit)
| PickPaths (folder : bool) (title : bytes) : gcmd (option (list bytes))
| PickSave (title name : bytes) : gcmd (option (list bytes))
| Now : gcmd Z
| UtcNow : gcmd bytes
| Look : gcmd Win
| Change (f : Win -> Win) : gcmd unit.

Inductive gprog : Type -> Type :=
| GRet {A : Type} (a : A) : gprog A
| GDo {A R : Type} (c : gcmd R) (k : R -> gprog A) : gprog A
| Fork {A : Type} (task : gprog unit) (k : gprog A) : gprog A.

Fixpoint gbind {A B : Type} (m : gprog A) : (A -> gprog B) -> gprog B :=
  match m in gprog A return (A -> gprog B) -> gprog B with
  | GRet a => fun f => f a
  | GDo c k => fun f => GDo c (fun r => gbind (k r) f)
  | Fork t k => fun f => Fork t (gbind k f)
  end.
Global Instance gprog_ret : MRet gprog := fun A => GRet.
Global Instance gprog_bind : MBind gprog := fun A B f m => gbind m f.
Definition gdo {R : Type} (c : gcmd R) : gprog R := GDo c GRet.
Definition fork (t : gprog unit) : gprog unit := Fork t (GRet tt).

Fixpoint each {A : Type} (l : list A) (f : A -> gprog unit) : gprog unit :=
  match l with [] => mret tt | x :: l => _ ← f x; each l f end.

(** ** Small updates *)

Definition push_toast (msg : bytes) (tone : ToastTone) (action : option (bytes * ActionId)) : gprog unit :=
  now ← gdo Now; gdo (Change (with_toasts (stack_push now msg tone action))).
Definition push (msg : bytes) (tone : ToastTone) : gprog unit := push_toast msg tone None.
Definition push_with_action (msg : bytes) (tone : ToastTone) (label : bytes) (id : ActionId) : gprog unit :=
  push_toast msg tone (Some (label, id)).
Definition set_dialog (d : Dialog) : gprog unit :=
  gdo (Change (with_dialog d)).
Definition message (title body : bytes) (tone : ToastTone) : gprog unit := set_dialog (DlgMessage title body tone).
Definition refresh : gprog unit :=
  gdo (Change (fun w => with_app (refresh_current (app w)) w)).

Definition show_path (p : bytes) : bytes := from_utf8_lossy p.
Definition here (w : Win) : bytes := current_path (target (browser (app w))).
Definition phone (w : Win) : option bytes := target_device (app w).

Definition file_name_of (path : bytes) : bytes :=
  match file_name path with Some n => from_utf8_lossy n | None => bs "untitled" end.

(** ** Running *)

(** A command and its answer. *)
Inductive deed := Did (R : Type) (c : gcmd R) (r : R).
Arguments Did {R} c r.

Section run.
(** The answers of the daemon, the disk and the desktop. *)
Context (answer : nat -> forall R, gcmd R -> R).

Record scene := mkScene { win : Win; tasks : list (gprog unit); deeds : list deed }.

Definition perform {R : Type} (c : gcmd R) (s : scene) : R * scene :=
  let r : R * Win := match c in gcmd R return R * Win with
    | Look => (win s, win s)
    | Change f => (tt, f (win s))
    | c => (answer (length (deeds s)) _ c, win s)
    end in
  (r.1, mkScene r.2 (tasks s) (deeds s ++ [Did c r.1])).

(** A handler, to its end. *)
Fixpoint run {A : Type} (p : gprog A) (s : scene) : A * scene :=
  match p with
  | GRet a => (a, s)
  | GDo c k => let '(r, s) := perform c s in run (k r) s
  | Fork t k => run k (mkScene (win s) (tasks s ++ [t]) (deeds s))
  end.

(** One of the tasks, to its end. *)
Definition run_task (i : nat) (s : scene) : scene :=
  match tasks s !! i with
  | Some t => (run t (mkScene (win s) (delete i (tasks s)) (deeds s))).2
  | None => s
  end.
End run.
