(* ===== verification/AppInstalls.v ===== *)
(** * Installs and pairing from the window

    The part of [adb-gui/src/app.rs] that installs packages, watches the
    installs of the daemon and keeps their history
    ([adb-gui/src/state/history.rs]), and pairs and connects phones over the network. *)

From stdpp Require Import base list strings.
From S2P Require Import Prelude RustStd Text DaemonInput Axml GuiModels Clipboard Browser AppListing AppWindow.

(** ** The card of an APK *)

Definition with_card (f : Card -> Card) (w : Win) : Win :=
  match dialog w with DlgSideloadApk c => with_dialog (DlgSideloadApk (f c)) w | _ => w end.
Definition set_info (info : ApkInfo) (c : Card) : Card :=
  mkCard (card_local c) (Some info) (parse_error c) (card_installed c) (card_device c) (device_abi c) (can_copy c).
Definition set_parse_error (e : bytes) (c : Card) : Card :=
  mkCard (card_local c) (card_info c) (Some e) (card_installed c) (card_device c) (device_abi c) (can_copy c).
Definition set_installed (i : option PackageInfoDto) (c : Card) : Card :=
  mkCard (card_local c) (card_info c) (parse_error c) i (card_device c) (device_abi c) (can_copy c).

(** The package of a watched install that was not known. *)
Definition fill_watch (info : ApkInfo) (w : Win) : Win :=
  match install_watch w with
  | Some x =>
      match watch_package x with
      | None => with_watch (Some (mkWatch (watch_id x) (watch_device x) (watch_source x) (Some (i_package info)) (i_version_name info))) w
      | Some _ => w
      end
  | None => w
  end.

Definition is_card (d : Dialog) : bool := match d with DlgSideloadApk _ => true | _ => false end.

Definition open_sideload (local device : bytes) : gprog unit :=
  w ← gdo Look;
  let device_abi := match List.find (fun d => bool_decide (serial d = device)) (devices (app w)) with Some d => abi d | None => None end in
  _ ← set_dialog (DlgSideloadApk (mkCard local None None None device device_abi true));
  fork (
    r ← gdo (ApkInfoOf local);
    w ← gdo Look;
    if negb (is_card (dialog w)) then mret tt else
    match r with
    | Ok info =>
        let wanted := i_package info in
        _ ← gdo (Change (fun w => fill_watch info (with_card (set_info info) w)));
        let device := default [] (phone w) in
        fork (
          installed ← (if bool_decide (wanted = []) then mret None
                       else r ← gdo (PackageInfoOn device wanted); mret (match r with Ok i => Some i | Err _ => None end));
          gdo (Change (with_card (set_installed installed))))
    | Err err => gdo (Change (with_card (set_parse_error err)))
    end).

(** ** Choosing what to install *)

Definition batch_of (paths : list bytes) : list BatchItem := (fun p => mkItem (file_name_of p) p Queued) <$> paths.

Fixpoint partition_apks (paths : list bytes) : gprog (list bytes * list bytes) :=
  match paths with
  | [] => mret ([], [])
  | p :: paths =>
      a ← gdo (IsApk p);
      '(apks, rest) ← partition_apks paths;
      mret (if (a : bool) then (p :: apks, rest) else (apks, p :: rest))
  end.

(** The paths that are left to be copied. *)
Definition route_apks (paths : list bytes) : gprog (list bytes) :=
  '(apks, rest) ← partition_apks paths;
  match apks with
  | [] => mret rest
  | _ =>
      w ← gdo Look;
      match phone w with
      | None => mret (apks ++ rest)
      | Some device =>
          _ ← match apks with
              | [only] => open_sideload only device
              | _ => set_dialog (DlgSideloadBatch (batch_of apks) device)
              end;
          mret rest
      end
  end.

Definition pick_for_install : gprog unit :=
  w ← gdo Look;
  match phone w with
  | None => message (bs "No phone selected") (bs "Pick a device in the sidebar first, then install to it.") Info
  | Some _ =>
      fork (
        picked ← gdo (PickPaths false (bs "Install APK"));
        match picked with Some paths => _ ← route_apks paths; mret tt | None => mret tt end)
  end.

Definition install_apk (entry : DirEntry) : gprog unit :=
  w ← gdo Look;
  let full := full_path (browser (app w)) entry in
  if local_mode (target (browser (app w))) then
    match phone w with
    | None => push (bs "Pick a phone in the sidebar to install on") Info
    | Some device => open_sideload full device
    end
  else
    match phone w with
    | None => mret tt
    | Some _ => set_dialog (DlgConfirmDeviceInstall (e_name entry) (show_path full))
    end.

(** ** One install *)

Definition run_install (device path : bytes) (package version : option bytes) : gprog unit :=
  let label := file_name_of path in
  fork (
    r ← gdo (StartInstall device path);
    match r with
    | Ok id =>
        gdo (Change (fun w => with_dialog (DlgInstalling label None) (with_watch (Some (mkWatch id device path package version)) w)))
    | Err err =>
        here ← gdo (PathExists path);
        set_dialog (DlgInstallFailed label None (Some err) None device None path (negb here))
    end).

Definition HISTORY_CAP : nat := 200.
(** [history::record], where the file can be read and written. *)
Definition record (rec : InstallRecord) (records : list InstallRecord) : list InstallRecord :=
  let records := records ++ [rec] in
  if (HISTORY_CAP <? length records)%nat then drop (length records - HISTORY_CAP) records else records.

Definition record_of (now : bytes) (x : InstallWatch) (s : InstallStatusDto) : InstallRecord :=
  mkRecord now (default (bs "unknown") (watch_package x)) (watch_version x) (watch_source x) (watch_device x) (is_done s)
    (if is_done s then None else is_message s).
Definition verdict (x : InstallWatch) (s : InstallStatusDto) : Dialog :=
  if is_done s then DlgMessage (bs "Installed") (is_label s ++ bs " is on the phone.") Success
  else DlgInstallFailed (is_label s) (is_error_code s) (is_message s) (is_raw s) (watch_device x) (watch_package x)
         (watch_source x) (is_from_device s).

Definition find_status (id : Z) (l : list InstallStatusDto) : option InstallStatusDto := List.find (fun s => is_id s =? id) l.

Definition on_installs_result (now : bytes) (r : result bytes (list InstallStatusDto)) (w : Win) : Win :=
  match install_watch w, r with
  | Some x, Ok statuses =>
      match find_status (watch_id x) statuses with
      | None => w
      | Some s =>
          if negb (is_finished s) then
            match dialog w with DlgInstalling label _ => with_dialog (DlgInstalling label (Some s)) w | _ => w end
          else
            with_dialog (verdict x s) (with_records (record (record_of now x s) (install_history w)) (with_watch None w))
      end
  | _, _ => w
  end.

(** One round of the poll of installs. *)
Definition poll_installs : gprog unit :=
  r ← gdo InstallStatuses; now ← gdo UtcNow; gdo (Change (on_installs_result now r)).

Definition uninstall_and_retry (device package path : bytes) : gprog unit :=
  fork (
    r ← gdo (UninstallOn device package);
    match r with
    | Ok _ => run_install device path None None
    | Err err => message (bs "Could not uninstall") (package ++ bs ": " ++ err) Error
    end).

(** ** Several installs *)

Definition set_row (local : bytes) (st : ItemState) (w : Win) : Win :=
  match dialog w with
  | DlgSideloadBatch rows device =>
      match list_find (fun r => item_local r = local) rows with
      | Some (i, r) => with_dialog (DlgSideloadBatch (<[i := mkItem (item_name r) (item_local r) st]> rows) device) w
      | None => w
      end
  | _ => w
  end.
Definition row_state (s : option InstallStatusDto) : ItemState :=
  match s with
  | None => ItemFailed None (Some (bs "the install disappeared from the queue"))
  | Some s =>
      if is_done s then Succeeded
      else if is_finished s then ItemFailed (is_error_code s) (is_message s)
      else Running (is_percent s) (is_state s)
  end.

(** Polling one install; [false] when it is not over after [polls] rounds. *)
Fixpoint poll_item (polls : nat) (id : Z) (local : bytes) : gprog bool :=
  match polls with
  | O => mret false
  | S polls =>
      r ← gdo InstallStatuses;
      let status := find_status id (match r with Ok l => l | Err _ => [] end) in
      _ ← gdo (Change (set_row local (row_state status)));
      if match status with Some s => is_finished s | None => true end then mret true else poll_item polls id local
  end.
Fixpoint batch_items (polls : nat) (device : bytes) (items : list BatchItem) : gprog bool :=
  match items with
  | [] => mret true
  | item :: items =>
      r ← gdo (StartInstall device (show_path (item_local item)));
      match r with
      | Ok id =>
          over ← poll_item polls id (item_local item);
          if (over : bool) then batch_items polls device items else mret false
      | Err err =>
          _ ← gdo (Change (set_row (item_local item) (ItemFailed None (Some err))));
          batch_items polls device items
      end
  end.
Definition run_batch (polls : nat) (device : bytes) (items : list BatchItem) : gprog unit :=
  fork (_ ← batch_items polls device items; mret tt).

(** ** Pairing *)

Definition pairing_step (step : WifiStep) : gprog unit := set_dialog (DlgConnectWifi step).

Definition host_char (b : Z) : bool := alnum_or (bs ".-_%") b.
Definition v6_char (b : Z) : bool := is_digit b || in_range 65 70 b || in_range 97 102 b || (b =? 58) || (b =? 37).
Definition address_is_well_formed (address : bytes) : bool :=
  match rsplit_once (bs ":") address with
  | None => false
  | Some (host, port) =>
      if bool_decide (port = []) || negb (forallb is_digit port) then false
      else match port_of port with
           | None => false
           | Some port =>
               if port =? 0 then false
               else if bool_decide (host = []) then false
               else if has_prefix (bs "[") host || bool_decide (is_Some (strip_suffix (bs "]") host)) then
                 match h ← strip_pre (bs "[") host; strip_suffix (bs "]") h with
                 | None => false
                 | Some inner => bool_decide (inner <> []) && negb (bool_decide (91 ∈ inner) || bool_decide (93 ∈ inner))
                 end
               else if bool_decide (58 ∈ host) then (count_byte 58 host <=? 4)%nat && all_chars v6_char host
               else all_chars host_char host
           end
  end.

Definition validate_pair_input (address code : bytes) : result bytes unit :=
  if negb (address_is_well_formed address) then Err (bs "Pairing address must look like 192.168.1.20:37001.")
  else if negb (zlen code =? 6) || negb (forallb is_digit code) then
    Err (bs "Pairing code must be the six digits shown on the phone.")
  else Ok tt.

Definition run_pair (address code : bytes) : gprog unit :=
  fork (
    r ← gdo (PairOn address code);
    pairing_step (match r with Ok _ => Paired address | Err err => WifiFailed (bs "Pairing failed: " ++ err) end)).

Definition run_connect (address : bytes) : gprog unit :=
  fork (
    r ← gdo (ConnectOn address);
    match r with
    | Ok ok => push (if bool_decide (trim ok = []) then bs "Connected to " ++ address
                     else bs "Connected to " ++ address ++ bs ": " ++ ok) Success
    | Err err => pairing_step (WifiFailed (bs "Could not connect to " ++ address ++ bs ": " ++ err))
    end).

(** Polling the session; [false] when it is not over after [polls] rounds. *)
Fixpoint poll_pairing (polls : nat) : gprog bool :=
  match polls with
  | O => mret false
  | S polls =>
      r ← gdo QrStatus;
      match r with
      | Err _ => poll_pairing polls
      | Ok status =>
          let state := default (bs "waiting") (status (bs "state")) in
          if bool_decide (state = bs "failed") then
            _ ← pairing_step (WifiFailed (default (bs "pairing failed") (status (bs "error")))); mret true
          else if bool_decide (state = bs "connected") then
            _ ← pairing_step (Paired (default [] (status (bs "connect_address")))); mret true
          else if bool_decide (state = bs "paired") then _ ← pairing_step (Paired []); mret true
          else poll_pairing polls
      end
  end.
Definition WAITING : bytes := bs "Waiting for the phone to scan" ++ [0xE2; 0x80; 0xA6].
Definition run_qr_pair (polls : nat) : gprog unit :=
  fork (
    r ← gdo QrStart;
    match r with
    | Err err => pairing_step (WifiFailed (bs "Could not start QR pairing: " ++ err))
    | Ok v =>
        let field k := default [] (v (bs k)) in
        _ ← pairing_step (Qr (field "payload"%string) (field "instance"%string) (field "password"%string) WAITING);
        _ ← poll_pairing polls; mret tt
    end).
