(* ===== verification/AppTransfers.v ===== *)
(** * Transfers and file changes from the window

    The part of [adb-gui/src/app.rs] that copies, pastes, uploads, downloads,
    drops, drags, renames, deletes and controls transfers. *)

From stdpp Require Import base list strings.
From S2P Require Import Prelude RustStd Text Axml GuiModels Clipboard Browser AppListing AppWindow AppInstalls.

Definition device_download_dir : bytes := bs "/sdcard/Download".

(** [daemon::transfer_policy] *)
Definition transfer_policy : gprog TransferPolicy := w ← gdo Look; mret (policy w).

(** ** Results of trees *)

Definition on_tree_result (action : bytes) (r : result bytes TreeEnqueueResult) : gprog unit :=
  match r with
  | Ok o =>
      match tree_result_message action (zlen (enqueued o)) (copied o) (errors o) with
      | Ok msg => if bool_decide (errors o = []) then push msg Success
                  else message (action ++ bs " partly finished") msg Warning
      | Err msg => message (action ++ bs " failed") msg Error
      end
  | Err err => message (action ++ bs " failed") err Error
  end.

(** ** Calls of the daemon *)

Definition enqueue_push (device local remote : bytes) : gprog unit :=
  p ← transfer_policy;
  let label := show_path remote in
  fork (
    r ← gdo (EnqueuePush device (show_path local) (show_path remote) p);
    match r with
    | Ok _ => push (bs "Queued " ++ label) Info
    | Err err => push_with_action (bs "Could not queue " ++ label ++ bs ": " ++ err) Error (bs "Open downloads") OpenDownloads
    end).

Definition enqueue_pull (device remote local : bytes) : gprog unit :=
  p ← transfer_policy;
  let label := show_path remote in
  fork (
    r ← gdo (EnqueuePull device (show_path remote) (show_path local) p);
    match r with
    | Ok _ => push (bs "Queued " ++ label) Info
    | Err err => push_with_action (bs "Could not queue " ++ label ++ bs ": " ++ err) Error (bs "Retry") RetryFailed
    end).

Definition enqueue_tree (local remote device : bytes) : gprog unit :=
  p ← transfer_policy;
  let label := show_path remote in
  fork (
    r ← gdo (EnqueueTreePush device (show_path local) (show_path remote) p);
    match r with
    | Ok o =>
        match tree_result_message (bs "Upload") (zlen (enqueued o)) (copied o) (errors o) with
        | Ok msg => if bool_decide (errors o = []) then push msg Success
                    else message (bs "Upload partly finished") msg Warning
        | Err msg => message (bs "Upload partly finished") msg Warning
        end
    | Err err => push (bs "Could not queue " ++ label ++ bs ": " ++ err) Error
    end).

Definition copy_on_device (device source destination : bytes) : gprog unit :=
  fork (
    r ← gdo (CopyFileOn device (show_path source) (show_path destination));
    match r with
    | Ok _ => push (bs "Copied to " ++ show_path destination) Success
    | Err err => push (bs "Could not copy: " ++ err) Error
    end).

Definition move_on_device (device from to : bytes) : gprog unit :=
  fork (
    r ← gdo (RenameOn device (show_path from) (show_path to));
    match r with
    | Ok _ => push (bs "Moved to " ++ show_path to) Success
    | Err err => push (bs "Could not move: " ++ err) Error
    end).

(** ** Copy and paste *)

Definition count (n : nat) : bytes := fmt_dec (Z.of_nat n).

Definition copy (entries : list DirEntry) : gprog unit :=
  w ← gdo Look;
  let from_dir := here w in
  let snapshot := mkFiles (local_mode (target (browser (app w)))) (phone w) from_dir entries in
  _ ← gdo (Change (with_clipboard (Some snapshot)));
  _ ← match mirror_to_system entries from_dir with Some t => gdo (SetSystemText t) | None => mret tt end;
  push (bs "Copied " ++ count (length entries) ++ bs " item(s)") Info.

Definition paste_tree (snapshot : ClipboardFiles) (source destination : bytes) (target_device : option bytes) : gprog unit :=
  match from_local snapshot, target_device with
  | true, None =>
      r ← gdo (CopyTree source destination);
      match r with
      | Ok n => push (bs "Copied " ++ fmt_dec n ++ bs " file(s) to " ++ show_path destination) Success
      | Err err => push (bs "Could not copy: " ++ err) Error
      end
  | true, Some device => enqueue_tree source destination device
  | false, Some device =>
      if is_absolute source then
        let parent := match parent destination with Some p => show_path p | None => bs "/" end in
        fork (r ← gdo (CopyTreeOn device (show_path source) parent); on_tree_result (bs "Copy") r)
      else enqueue_tree source destination device
  | false, None => push (bs "Those files are on a phone; open one to save it to this computer.") Warning
  end.

Definition enqueue_one (source destination : bytes) (source_device target_device : option bytes) : gprog unit :=
  match source_device, target_device with
  | None, Some to => enqueue_push to source destination
  | Some from, _ => enqueue_pull from source destination
  | None, None =>
      r ← gdo (CopyFile source destination);
      match r with
      | Ok _ => push (bs "Copied " ++ show_path source) Success
      | Err err => push (bs "Could not copy: " ++ err) Error
      end
  end.

(** The only source, when it is a directory, and where it goes. *)
Definition single_dir (sources destinations : list bytes) (entries : list DirEntry) : option (bytes * bytes) :=
  match sources, destinations, entries with
  | [source], destination :: _, e :: _ => if looks_like_dir e then Some (source, destination) else None
  | _, _, _ => None
  end.
Definition same_phone (here origin : option bytes) : option bytes :=
  match here, origin with Some d, Some o => if bool_decide (d = o) then Some d else None | _, _ => None end.

Definition paste_snapshot (snapshot : ClipboardFiles) : gprog unit :=
  w ← gdo Look;
  match resolve_destination snapshot (here w) (phone w) with
  | Err reason => push reason Error
  | Ok destinations =>
      let sources := absolute_paths (files snapshot) (from_dir snapshot) in
      match single_dir sources destinations (files snapshot) with
      | Some (source, destination) => paste_tree snapshot source destination (phone w)
      | None =>
          match same_phone (phone w) (files_device snapshot) with
          | Some device => each (zip sources destinations) (fun '(s, d) => copy_on_device device s d)
          | None => each (zip sources destinations) (fun '(s, d) => enqueue_one s d (files_device snapshot) (phone w))
          end
      end
  end.

(** An entry for a path of the system clipboard. *)
Definition entry_of_path (path : bytes) : gprog DirEntry :=
  m ← gdo (MetadataHere path);
  mret (mkEntry (file_name_of path) (match m with Some (d, _) => d | None => false end) false
          (match m with Some (_, n) => n | None => 0 end) 0 0).
Fixpoint entries_of_paths (paths : list bytes) : gprog (list DirEntry) :=
  match paths with
  | [] => mret []
  | p :: paths => e ← entry_of_path p; es ← entries_of_paths paths; mret (e :: es)
  end.

(** [clipboard::paths_from_system] *)
Definition paths_from_system : gprog (list bytes) :=
  t ← gdo SystemText; mret (match t with Some t => decode t | None => [] end).

Definition paste : gprog unit :=
  w ← gdo Look;
  match clipboard w with
  | Some snapshot => paste_snapshot snapshot
  | None =>
      paths ← paths_from_system;
      match paths with
      | [] => push (bs "Nothing copied yet") Warning
      | first :: _ =>
          let base := default (bs "/") (parent first) in
          entries ← entries_of_paths paths;
          let snapshot := mkFiles true None base entries in
          _ ← gdo (Change (with_clipboard (Some snapshot)));
          paste_snapshot snapshot
      end
  end.

(** ** Uploads and downloads *)

Definition NO_PHONE : gprog unit :=
  message (bs "No phone selected") (bs "Pick a device in the sidebar first, then send files to it.") Info.

Definition pick_for_upload : gprog unit :=
  w ← gdo Look;
  match phone w with
  | None => NO_PHONE
  | Some device =>
      let destination := here w in
      fork (
        picked ← gdo (PickPaths false (bs "Send to the phone"));
        each (default [] picked) (fun path => enqueue_push device path (path_join destination (file_name_of path))))
  end.

Definition pick_folder_for_upload : gprog unit :=
  w ← gdo Look;
  match phone w with
  | None => push (bs "Select a phone before sending a folder") Warning
  | Some device =>
      let destination := here w in
      fork (
        picked ← gdo (PickPaths true (bs "Send a folder to the phone"));
        each (default [] picked) (fun path => enqueue_tree path (path_join destination (file_name_of path)) device))
  end.

Definition upload : gprog unit :=
  w ← gdo Look;
  if bool_decide (is_Some (phone w)) then pick_for_upload else
  match last_device (app w) with
  | None => NO_PHONE
  | Some device =>
      match selected (browser (app w)) with
      | [] => push (bs "Select something to send first") Warning
      | entries =>
          each (zip (absolute_paths entries (here w)) entries) (fun '(source, entry) =>
            if looks_like_dir entry then enqueue_tree source (path_join device_download_dir (file_name_of source)) device
            else enqueue_push device source (path_join device_download_dir (e_name entry)))
      end
  end.

(** A batch of copies on the disk: how many succeeded, and the failures. *)
Fixpoint copy_each {A : Type} (step : A -> gprog (bytes * result bytes unit)) (l : list A) (done : nat) (failures : list bytes)
    : gprog (nat * list bytes) :=
  match l with
  | [] => mret (done, failures)
  | x :: l =>
      r ← step x;
      match r with
      | (_, Ok _) => copy_each step l (S done) failures
      | (name, Err err) => copy_each step l done (failures ++ [name ++ bs ": " ++ err])
      end
  end.
Definition copy_local (is_dir : bool) (source dest : bytes) : gprog (result bytes unit) :=
  if is_dir then r ← gdo (CopyTree source dest); mret (match r with Ok _ => Ok tt | Err e => Err e end)
  else gdo (CopyFile source dest).

Definition copy_to_downloads (entries : list DirEntry) : gprog unit :=
  dir ← gdo DownloadDir;
  match dir with
  | None => push (bs "Could not find a Downloads folder") Error
  | Some dest_dir =>
      w ← gdo Look;
      '(copied, failures) ← copy_each (fun '(source, entry) =>
          r ← copy_local (looks_like_dir entry) source (path_join dest_dir (e_name entry)); mret (e_name entry, r))
        (zip (absolute_paths entries (here w)) entries) 0 [];
      if bool_decide (failures = []) then
        push (bs "Copied " ++ count copied ++ bs " item(s) to " ++ show_path dest_dir) Success
      else message (bs "Copy to Downloads partly finished")
             (bs "Copied " ++ count copied ++ bs " item(s). These could not be copied:" ++ [10; 10] ++ join [10] failures) Warning
  end.

(** [BrowserView::entry_named] *)
Definition entry_named (name : bytes) (b : Browser) : option DirEntry := List.find (fun e => bool_decide (e_name e = name)) (entries (lists b)).

Definition download (entries : list DirEntry) : gprog unit :=
  w ← gdo Look;
  match phone w with
  | None => copy_to_downloads entries
  | Some device =>
      let sources := (fun e => (e_name e, show_path (full_path (browser (app w)) e))) <$> entries in
      fork (
        picked ← gdo (PickPaths true (bs "Save to the computer"));
        match picked with
        | Some (folder :: _) =>
            each sources (fun '(name, source) =>
              w ← gdo Look;
              let is_dir := match entry_named name (browser (app w)) with Some e => looks_like_dir e | None => false end in
              let local := path_join folder name in
              if is_dir then
                p ← transfer_policy;
                fork (r ← gdo (EnqueueTreePull device source (show_path local) p); on_tree_result (bs "Download") r)
              else enqueue_pull device source local)
        | _ => mret tt
        end)
  end.

(** ** Drops and drags *)

Definition report_local_copies (action : bytes) (copied : nat) (failures : list bytes) : gprog unit :=
  if bool_decide (failures = []) then
    if (0 <? copied)%nat then push (action ++ bs ": " ++ count copied ++ bs " item(s)") Success else mret tt
  else message (action ++ bs " partly finished")
         (bs "Completed " ++ count copied ++ bs " item(s). These could not be copied:" ++ [10; 10] ++ join [10] failures) Warning.

(** Paths from outside into a folder of the phone, or of the disk. *)
Definition send_paths (device destination : bytes) (paths : list bytes) : gprog unit :=
  each paths (fun path =>
    let remote := path_join destination (file_name_of path) in
    d ← gdo (IsDirHere path);
    if (d : bool) then enqueue_tree path remote device else enqueue_push device path remote).
Definition copy_paths (action destination : bytes) (paths : list bytes) : gprog unit :=
  '(copied, failures) ← copy_each (fun path =>
      d ← gdo (IsDirHere path);
      r ← copy_local d path (path_join destination (file_name_of path));
      mret (show_path path, r)) paths 0 [];
  report_local_copies action copied failures.

Definition on_dropped_paths (paths : list bytes) : gprog unit :=
  match paths with
  | [] => mret tt
  | _ =>
      paths ← route_apks paths;
      match paths with
      | [] => mret tt
      | _ =>
          w ← gdo Look;
          match phone w with
          | Some device => send_paths device (here w) paths
          | None => copy_paths (bs "Copy") (here w) paths
          end
      end
  end.

Definition on_dropped_onto_folder (folder : DirEntry) (paths : list bytes) : gprog unit :=
  if negb (looks_like_dir folder) || bool_decide (paths = []) then mret tt else
  w ← gdo Look;
  let destination := path_join (here w) (e_name folder) in
  paths ← route_apks paths;
  w ← gdo Look;
  _ ← match phone w with
      | Some device => send_paths device destination paths
      | None => copy_paths (bs "Copy into folder") destination paths
      end;
  refresh.

Definition on_dragged_onto_folder (folder : DirEntry) (entries : list DirEntry) : gprog unit :=
  if negb (looks_like_dir folder) || bool_decide (entries = []) then mret tt
  else if existsb (fun e => bool_decide (e_name e = e_name folder)) entries then
    push (bs "A folder cannot be moved into itself") Warning
  else
    w ← gdo Look;
    let parent := here w in
    let destination := path_join parent (e_name folder) in
    _ ← each entries (fun entry =>
          let source := path_join parent (e_name entry) in
          let dest := path_join destination (e_name entry) in
          match phone w with
          | Some device => move_on_device device source dest
          | None =>
              r ← gdo (MovePath source dest);
              match r with
              | Ok _ => mret tt
              | Err err => push (bs "Could not move " ++ e_name entry ++ bs ": " ++ err) Error
              end
          end);
    refresh.

(** ** Control of transfers *)

Definition toggle_pause : gprog unit :=
  w ← gdo Look;
  match List.filter is_active (jobs w) with
  | [] => push (bs "No active transfers") Info
  | active =>
      let resume := forallb (fun j => bool_decide (j_state j = bs "Paused")) active in
      fork (each active (fun j =>
        if resume then _ ← gdo (ResumeOn (j_id j)); mret tt else _ ← gdo (PauseOn (j_id j)); mret tt))
  end.

(** The calls, one after the other: how many were answered, and the errors. *)
Fixpoint cancel_each (ids : list Z) (cancelled : nat) (errs : list bytes) : gprog (nat * list bytes) :=
  match ids with
  | [] => mret (cancelled, errs)
  | i :: ids =>
      r ← gdo (CancelOn i);
      match r with
      | Ok _ => cancel_each ids (S cancelled) errs
      | Err e => cancel_each ids cancelled (errs ++ [bs "job " ++ fmt_dec i ++ bs ": " ++ e])
      end
  end.
Definition cancel_transfers : gprog unit :=
  w ← gdo Look;
  match List.filter is_active (jobs w) with
  | [] => mret tt
  | active =>
      fork (
        '(cancelled, errs) ← cancel_each (j_id <$> active) 0 [];
        match cancelled, errs with
        | _, [] => push (bs "Cancelled " ++ count cancelled ++ bs " transfer(s)") Info
        | O, _ => push (bs "Could not cancel transfers: " ++ join (bs "; ") errs) Error
        | n, _ => push (bs "Cancelled " ++ count n ++ bs " transfer(s); " ++ count (length errs) ++ bs " could not be cancelled") Warning
        end)
  end.

Definition retry_failed : gprog unit :=
  fork (
    r ← gdo RetryOn;
    match r with
    | Ok n => push (bs "Re-queued " ++ fmt_dec n ++ bs " transfer(s)") Success
    | Err err => push (bs "Could not retry: " ++ err) Error
    end).

(** ** Changes of files *)

(** [localfs::trash] of each, and then [localfs::delete]: how many succeeded, and the errors. *)
Fixpoint try_each (step : bytes -> gcmd (result bytes unit)) (paths : list bytes) (done : nat) (failures : list bytes)
    : gprog (nat * list bytes) :=
  match paths with
  | [] => mret (done, failures)
  | p :: paths =>
      r ← gdo (step p);
      match r with
      | Ok _ => try_each step paths (S done) failures
      | Err err => try_each step paths done (failures ++ [err])
      end
  end.
Definition inside (base : bytes) (entries : list DirEntry) : list bytes := (fun e => path_join base (e_name e)) <$> entries.

Definition trash_entries (entries : list DirEntry) : gprog unit :=
  w ← gdo Look;
  '(moved, failures) ← try_each TrashPath (inside (here w) entries) 0 [];
  _ ← (if (0 <? moved)%nat then push (bs "Moved " ++ count moved ++ bs " item(s) to Trash") Success else mret tt);
  _ ← (if bool_decide (failures = []) then mret tt
       else push (bs "Could not move " ++ count (length failures) ++ bs " item(s) to Trash: " ++ join (bs "; ") failures) Error);
  refresh.

(** [dialogs::validate_name] *)
Definition FORBIDDEN : list Z := [47; 92; 58; 42; 63; 34; 60; 62; 124; 0].
Definition validate_name (name : bytes) : result bytes bytes :=
  let trimmed := trim name in
  if bool_decide (trimmed = []) then Err (bs "Please enter a name.")
  else if bool_decide (trimmed = bs "." \/ trimmed = bs "..") then Err (bs "That name is reserved.")
  else if 255 <? Z.of_nat (length (chars trimmed)) then Err (bs "Names must be 255 characters or fewer.")
  else match List.find (fun c => existsb (fun b => bool_decide (c = [b])) FORBIDDEN) (chars trimmed) with
       | Some bad => Err (bs "A name cannot contain " ++ [0xE2; 0x80; 0x9C] ++ bad ++ [0xE2; 0x80; 0x9D] ++ bs ".")
       | None => if bool_decide (last trimmed = Some 46) then Err (bs "Names cannot end with a dot.") else Ok trimmed
       end.

Definition create_folder (name : bytes) : gprog unit :=
  match validate_name name with
  | Err reason => push reason Error
  | Ok name =>
      w ← gdo Look;
      let path := path_join (here w) name in
      match phone w with
      | None =>
          r ← gdo (MakeDir path);
          _ ← match r with
              | Ok _ => push (bs "Created " ++ name) Success
              | Err err => push (bs "Could not create " ++ name ++ bs ": " ++ err) Error
              end;
          refresh
      | Some device =>
          fork (
            r ← gdo (MkdirOn device (show_path path));
            _ ← match r with
                | Ok _ => push (bs "Created " ++ name) Success
                | Err err => push (bs "Could not create " ++ name ++ bs ": " ++ err) Error
                end;
            refresh)
      end
  end.

Definition rename_entry (entry : DirEntry) (name : bytes) : gprog unit :=
  match validate_name name with
  | Err reason => push reason Error
  | Ok name =>
      w ← gdo Look;
      let from := full_path (browser (app w)) entry in
      let to := match parent from with Some base => path_join base name | None => name end in
      _ ← match phone w with
          | Some device =>
              fork (
                r ← gdo (RenameOn device (show_path from) (show_path to));
                match r with
                | Ok _ => push (bs "Renamed to " ++ name) Success
                | Err err => push (bs "Could not rename: " ++ err) Error
                end)
          | None =>
              r ← gdo (RenamePath from to);
              match r with
              | Ok _ => push (bs "Renamed to " ++ name) Success
              | Err err => push (bs "Could not rename: " ++ err) Error
              end
          end;
      refresh
  end.

Definition delete_permanently (entries : list DirEntry) : gprog unit :=
  w ← gdo Look;
  let paths := inside (here w) entries in
  match phone w with
  | None =>
      '(_, failures) ← try_each DeletePath paths 0 [];
      _ ← (if bool_decide (failures = []) then push (bs "Deleted " ++ count (length entries) ++ bs " item(s)") Success
           else push (join (bs "; ") failures) Error);
      refresh
  | Some device =>
      fork (
        '(_, failures) ← try_each (fun p => DeleteOn device (show_path p)) paths 0 [];
        _ ← (if bool_decide (failures = []) then push (bs "Deleted " ++ count (length entries) ++ bs " item(s) from the phone") Success
             else push (join (bs "; ") failures) Error);
        refresh)
  end.

Definition copy_apk_to_device (local : bytes) : gprog unit :=
  w ← gdo Look;
  match phone w with
  | None => mret tt
  | Some device => enqueue_push device local (show_path (path_join (here w) (file_name_of local)))
  end.

(** ** Opening *)

Definition NEEDS_MOUNT : bytes := bs "Opening a file from the phone needs a FUSE mount ".
Definition open_entry (entry : DirEntry) : gprog unit :=
  w ← gdo Look;
  match local_path_of (browser (app w)) entry with
  | Some local =>
      r ← gdo (OpenExternal local);
      match r with Ok _ => mret tt | Err err => push err Error end
  | None =>
      if local_mode (target (browser (app w))) then mret tt
      else push (NEEDS_MOUNT ++ [0xE2; 0x80; 0x94] ++ bs " use the transfers list to save it instead.") Warning
  end.

(** ** Events *)

(** The label of a deletion. *)
Definition describe_selection (entries : list DirEntry) : bytes :=
  match entries with [] => [] | [one] => e_name one | many => count (length many) ++ bs " items" end.

(** [on_browser_event], for the events about files and transfers. *)
Definition on_file_event (e : BrowserEvent) : gprog unit :=
  match e with
  | EvOpen entry => open_entry entry
  | EvNewFolder _ => set_dialog DlgNewFolder
  | EvRename entry _ => set_dialog (DlgRename entry)
  | EvTrash es => trash_entries es
  | EvDeletePermanently es => set_dialog (DlgConfirmDelete (describe_selection es) es false)
  | EvCopy es => copy es
  | EvPaste => paste
  | EvUpload => upload
  | EvDownload es => download es
  | EvDroppedPaths ps => on_dropped_paths ps
  | EvDroppedOnFolder f ps => on_dropped_onto_folder f ps
  | EvDraggedOntoFolder f es => on_dragged_onto_folder f es
  | EvTogglePauseTransfers => toggle_pause
  | EvCancelTransfers => cancel_transfers
  | _ => mret tt
  end.

(** ** Dialogs *)

(** The answers of the dialogs; [DebloatApply] is left out. *)
Inductive DialogResult :=
| ResDismiss | ResCreateFolder (name : bytes) | ResRename (entry : DirEntry) (name : bytes) | ResTrash (entries : list DirEntry)
| ResDeletePermanently (entries : list DirEntry) | ResCopyDiagnostics (text : bytes) | ResCopyText (text : bytes)
| ResPairAddress (address : bytes) | ResStartQrPairing | ResPairCode (address code : bytes) | ResConnectWireless (address : bytes)
| ResOpenExternal (path : bytes) | ResInstallApk (path : bytes) | ResCopyApk (path : bytes) | ResInstallFromDevice (device_path : bytes)
| ResUninstallAndRetry (device package path : bytes) (from_device : bool) | ResInstallAll | ResCopyAll.

Definition close : gprog unit := set_dialog DlgNone.
Definition batch_rows (d : Dialog) : list BatchItem := match d with DlgSideloadBatch items _ => items | _ => [] end.
(** On the selected phone, if there is one. *)
Definition on_phone (k : bytes -> gprog unit) : gprog unit :=
  w ← gdo Look; match phone w with Some d => k d | None => mret tt end.

(** [polls] bounds the rounds of the loops that poll the daemon. *)
Definition on_dialog_result (polls : nat) (r : DialogResult) : gprog unit :=
  match r with
  | ResDismiss => close
  | ResCreateFolder name => _ ← close; create_folder name
  | ResRename entry name => _ ← close; rename_entry entry name
  | ResTrash es => _ ← close; trash_entries es
  | ResDeletePermanently es => _ ← close; delete_permanently es
  | ResCopyText text => gdo (SetSystemText text)
  | ResCopyDiagnostics text => _ ← gdo (SetSystemText text); push (bs "Report copied to the clipboard") Info
  | ResPairAddress address =>
      if negb (address_is_well_formed address) then push (bs "Pairing address must look like 192.168.1.20:37001") Error
      else pairing_step (WifiPairing address)
  | ResPairCode address code =>
      match validate_pair_input address code with
      | Err reason => push reason Error
      | Ok _ => run_pair address code
      end
  | ResStartQrPairing => run_qr_pair polls
  | ResConnectWireless address => _ ← close; run_connect address
  | ResOpenExternal path => r ← gdo (OpenExternal path); match r with Ok _ => mret tt | Err err => push err Error end
  | ResInstallApk path =>
      w ← gdo Look;
      let info := match dialog w with DlgSideloadApk c => card_info c | _ => None end in
      _ ← close;
      on_phone (fun device => run_install device (show_path path) (i_package <$> info) (info ≫= i_version_name))
  | ResCopyApk path => _ ← close; copy_apk_to_device path
  | ResInstallFromDevice path => _ ← close; on_phone (fun device => run_install device path None None)
  | ResUninstallAndRetry device package path _ => _ ← close; uninstall_and_retry device package path
  | ResInstallAll =>
      w ← gdo Look;
      _ ← close;
      on_phone (fun device => run_batch polls device (batch_rows (dialog w)))
  | ResCopyAll =>
      w ← gdo Look;
      _ ← close;
      on_phone (fun _ => each (batch_rows (dialog w)) (fun item => copy_apk_to_device (item_local item)))
  end.
