(* ===== verification/AppTransfersSpec.v ===== *)
(** * Where the window sends files

    What a paste, a drop or an upload asks for, read off the calls its handler
    and tasks make, against what the user sees: every file goes from where
    it was copied to the folder that is open, under its own name. Then the calls
    are followed over the bus into the job queue. *)

From stdpp Require Import base list strings gmap.
From S2P Require Import Prelude RustStd Text Job Queue DaemonInput DaemonApi GuiModels Axml Clipboard Browser AppListing AppWindow AppInstalls AppTransfers.

(** ** Toasts *)

Lemma last_drop_app {A : Type} (n : nat) (l : list A) x : (n <= length l)%nat -> last (drop n (l ++ [x])) = Some x.
Proof. intros H. rewrite drop_app_le by done. apply last_snoc. Qed.
(** What is pushed is the newest toast, whatever was shown. *)
Lemma last_stack_push now msg tn act l : last (stack_push now msg tn act l) = Some (mkToast msg tn act (now + LIFETIME + GRACE)).
Proof.
  unfold stack_push. set (k := List.filter _ l). destruct (MAX_VISIBLE <? _)%nat; [|apply last_snoc].
  apply last_drop_app. rewrite length_app. unfold MAX_VISIBLE. cbn. lia.
Qed.
(** At most four toasts, no text twice: kept by every operation. *)
Definition stack_ok (l : list Toast) : Prop := (length l <= MAX_VISIBLE)%nat /\ NoDup (t_message <$> l).

Lemma filter_messages f l : NoDup (t_message <$> l) -> NoDup (t_message <$> List.filter f l).
Proof.
  intros H. eapply sublist_NoDup; [exact H|]. apply fmap_sublist. clear. induction l as [|x l IH]; [done|].
  cbn. destruct (f x); by constructor.
Qed.
Theorem toast_stack (now : Z) (msg : bytes) (tn : ToastTone) (act : option (bytes * ActionId)) (id : ActionId) (l : list Toast) :
  stack_ok l -> stack_ok (stack_push now msg tn act l) /\ stack_ok (prune now l).2 /\ stack_ok (dismiss_action id l).
Proof.
  intros [Hn Hd].
  assert (Hf : forall f, stack_ok (List.filter f l)).
  { intros f. split; [|by apply filter_messages]. etrans; [apply List.filter_length_le|done]. }
  split_and!; [|apply Hf|apply Hf]. unfold stack_push.
  set (k := List.filter _ l). set (k' := k ++ _).
  assert (Hk : NoDup (t_message <$> k')).
  { unfold k'. rewrite fmap_app. apply NoDup_app. split_and!; [by apply filter_messages| |apply NoDup_singleton].
    intros m Hm Hm'. apply list_elem_of_singleton in Hm'. apply list_elem_of_fmap in Hm as (t & -> & Ht).
    apply list_elem_of_In, filter_In in Ht as [_ Ht]. apply negb_true_iff, bool_decide_eq_false in Ht. by apply Ht. }
  case_match eqn:E.
  - split; [rewrite length_drop; apply Nat.ltb_lt in E; lia|]. rewrite fmap_drop. eapply sublist_NoDup; [exact Hk|apply sublist_drop].
  - split; [by apply Nat.ltb_ge in E|done].
Qed.

(** ** What a call moves *)

Inductive place := Disk | Phone (serial : bytes).
(** A file or a whole tree, from a path somewhere to a path somewhere, under
    a policy when it goes through the queue. *)
Record intent := mkIntent {
  whole : bool; from_place : place; from_path : bytes; to_place : place; to_path : bytes; under : option TransferPolicy }.

Definition intent_of {R : Type} (c : gcmd R) : option intent :=
  match c with
  | EnqueuePush d l r p => Some (mkIntent false Disk l (Phone d) r (Some p))
  | EnqueuePull d r l p => Some (mkIntent false (Phone d) r Disk l (Some p))
  | EnqueueTreePush d l r p => Some (mkIntent true Disk l (Phone d) r (Some p))
  | EnqueueTreePull d r l p => Some (mkIntent true (Phone d) r Disk l (Some p))
  | CopyTreeOn d s t => Some (mkIntent true (Phone d) s (Phone d) t None)
  | CopyFileOn d s t => Some (mkIntent false (Phone d) s (Phone d) t None)
  | CopyFile s t => Some (mkIntent false Disk s Disk t None)
  | CopyTree s t => Some (mkIntent true Disk s Disk t None)
  | _ => None
  end.
Definition deed_intent (d : deed) : option intent := match d with Did c _ => intent_of c end.

(** Nothing more is moved, whatever is answered. *)
Fixpoint moves_nothing {A : Type} (p : gprog A) : Prop :=
  match p with
  | GRet _ => True
  | GDo c k => intent_of c = None /\ forall r, moves_nothing (k r)
  | Fork t k => moves_nothing t /\ moves_nothing k
  end.
(** A task that makes one call, and then only reports. *)
Definition task_of (t : gprog unit) (i : intent) : Prop :=
  exists R (c : gcmd R) (k : R -> gprog unit), t = GDo c k /\ intent_of c = Some i /\ forall r, moves_nothing (k r).

Lemma moves_nothing_bind {A B : Type} (p : gprog A) (k : A -> gprog B) :
  moves_nothing p -> (forall a, moves_nothing (k a)) -> moves_nothing (p ≫= k).
Proof.
  unfold mbind, gprog_bind. induction p as [A a|A R c k' IH|A t _ k' IH]; cbn; [by auto| |].
  - intros [Hc Hk'] Hk. split; [done|]. intros r. by apply IH.
  - intros [Ht Hk'] Hk. split; [done|]. by apply IH.
Qed.
Lemma push_toast_nothing msg tone a : moves_nothing (push_toast msg tone a).
Proof. by split. Qed.
Lemma push_nothing msg tone : moves_nothing (push msg tone).
Proof. apply push_toast_nothing. Qed.
Lemma push_action_nothing msg tone l a : moves_nothing (push_with_action msg tone l a).
Proof. apply push_toast_nothing. Qed.
Lemma message_nothing t b tone : moves_nothing (message t b tone).
Proof. done. Qed.
Lemma tree_result_nothing a r : moves_nothing (on_tree_result a r).
Proof. unfold on_tree_result. destruct r as [o|e]; [|done]. destruct (tree_result_message _ _ _ _); [|done]. by case_bool. Qed.
Create HintDb nothing.
#[local] Hint Resolve push_nothing push_action_nothing message_nothing tree_result_nothing : nothing.

Section requests.
Context (answer : nat -> forall R, gcmd R -> R).
Abbreviation running := (run answer).

Lemma grun_bind {A B : Type} (p : gprog A) (k : A -> gprog B) s :
  running (p ≫= k) s = let '(a, s') := running p s in running (k a) s'.
Proof.
  unfold mbind, gprog_bind. revert s. induction p as [A a|A R c k' IH|A t _ k' IH]; intros s; cbn [gbind run]; [done| |].
  - destruct (perform answer c s) as [r s']. apply IH.
  - apply IH.
Qed.

(** From [s] to [s'], exactly [wants] was asked for: by calls already made, or
    by tasks that are about to make one each. *)
Record requests (s s' : scene) (wants : list intent) : Prop := mkRequests {
  rq_app : app (win s') = app (win s);
  rq_policy : policy (win s') = policy (win s);
  rq_asked : exists ts l ds, tasks s' = tasks s ++ ts /\ Forall2 task_of ts l
    /\ deeds s' = deeds s ++ ds /\ omap deed_intent ds ++ l ≡ₚ wants;
}.

Lemma requests_none s : requests s s [].
Proof. split; [done|done|]. exists [], [], []. rewrite !app_nil_r. by split_and!; try constructor. Qed.
Lemma requests_trans s s1 s2 a b : requests s s1 a -> requests s1 s2 b -> requests s s2 (a ++ b).
Proof.
  intros [Ha Hp (ts & l & ds & Ht & Hf & Hd & Hl)] [Ha' Hp' (ts' & l' & ds' & Ht' & Hf' & Hd' & Hl')].
  split; [congruence|congruence|]. exists (ts ++ ts'), (l ++ l'), (ds ++ ds').
  rewrite Ht', Ht, Hd', Hd, <- !app_assoc. split_and!; [done|by apply Forall2_app|done|].
  rewrite omap_app, <- Hl, <- Hl'. solve_Permutation.
Qed.

(** Commands that move nothing, and updates of toasts and dialogs. *)
Definition harmless {R : Type} (c : gcmd R) : Prop :=
  match c with Change f => forall w, app (f w) = app w /\ policy (f w) = policy w | _ => True end.
Lemma requests_do {R : Type} (c : gcmd R) s : harmless c ->
  requests s (perform answer c s).2 (option_list (intent_of c)).
Proof.
  intros Hc. unfold perform. cbn [snd]. split; cbn [win].
  - destruct c; try done. cbn. apply Hc.
  - destruct c; try done. cbn. apply Hc.
  - eexists [], [], [_]. cbn [tasks deeds]. rewrite !app_nil_r. split_and!; [done|constructor|done|].
    cbn. by destruct (intent_of c).
Qed.

Definition asks {A : Type} (p : gprog A) (s : scene) (wants : list intent) : Prop := requests s (running p s).2 wants.

Lemma asks_bind {A B : Type} (p : gprog A) (k : A -> gprog B) s a b :
  asks p s a -> asks (k (running p s).1) (running p s).2 b -> asks (p ≫= k) s (a ++ b).
Proof.
  unfold asks. intros Ha Hb. rewrite grun_bind. destruct (running p s) as [x s']. cbn [fst snd] in *. by eapply requests_trans.
Qed.
Lemma asks_do {R : Type} (c : gcmd R) s : harmless c -> asks (gdo c) s (option_list (intent_of c)).
Proof.
  intros Hc. unfold asks, gdo. cbn [run]. pose proof (requests_do c s Hc) as H. by destruct (perform answer c s).
Qed.
Lemma asks_ret {A : Type} (a : A) s : asks (mret a) s [].
Proof. apply requests_none. Qed.
Lemma asks_push msg tone s : asks (push msg tone) s [].
Proof. apply (asks_bind _ _ _ [] []); by apply asks_do. Qed.
Lemma asks_message t b tone s : asks (message t b tone) s [].
Proof. by apply asks_do. Qed.
Lemma asks_fork t s i : task_of t i -> asks (fork t) s [i].
Proof.
  intros Ht. split; [done|done|]. exists [t], [i], []. cbn [run snd tasks deeds]. rewrite app_nil_r. by split_and!; try constructor; try constructor.
Qed.
Lemma asks_each {A : Type} (l : list A) (f : A -> gprog unit) (g : A -> list intent) s :
  (forall x s', x ∈ l -> app (win s') = app (win s) -> policy (win s') = policy (win s) -> asks (f x) s' (g x)) ->
  asks (each l f) s (l ≫= g).
Proof.
  revert s. induction l as [|x l IH]; intros s Hl; [apply asks_ret|]. cbn [each].
  assert (Hx : asks (f x) s (g x)) by (apply Hl; [by left|done|done]). apply asks_bind; [done|].
  apply IH. intros y s' Hy Ha Hp. destruct Hx as [Ha' Hp' _]. apply Hl; [by right|congruence|congruence].
Qed.

Lemma one_call_task {R : Type} (c : gcmd R) (k : R -> gprog unit) i :
  intent_of c = Some i -> (forall r, moves_nothing (k r)) -> task_of (r ← gdo c; k r) i.
Proof. intros Hc Hk. by exists R, c, k. Qed.

Lemma asks_enqueue_push d l r s : asks (enqueue_push d l r) s [mkIntent false Disk (show_path l) (Phone d) (show_path r) (Some (policy (win s)))].
Proof.
  unfold enqueue_push, transfer_policy. apply (asks_bind _ _ _ []).
  - apply (asks_bind _ _ _ [] []); [by apply asks_do|apply asks_ret].
  - apply asks_fork, one_call_task; [done|]. intros [x|e]; auto with nothing.
Qed.
Lemma asks_enqueue_pull d r l s : asks (enqueue_pull d r l) s [mkIntent false (Phone d) (show_path r) Disk (show_path l) (Some (policy (win s)))].
Proof.
  unfold enqueue_pull, transfer_policy. apply (asks_bind _ _ _ []).
  - apply (asks_bind _ _ _ [] []); [by apply asks_do|apply asks_ret].
  - apply asks_fork, one_call_task; [done|]. intros [x|e]; auto with nothing.
Qed.
Lemma asks_enqueue_tree l r d s : asks (enqueue_tree l r d) s [mkIntent true Disk (show_path l) (Phone d) (show_path r) (Some (policy (win s)))].
Proof.
  unfold enqueue_tree, transfer_policy. apply (asks_bind _ _ _ []).
  - apply (asks_bind _ _ _ [] []); [by apply asks_do|apply asks_ret].
  - apply asks_fork, one_call_task; [done|]. intros [x|e]; auto with nothing.
    destruct (tree_result_message _ _ _ _); [case_bool|]; auto with nothing.
Qed.
Lemma asks_copy_on_device d a b s : asks (copy_on_device d a b) s [mkIntent false (Phone d) (show_path a) (Phone d) (show_path b) None].
Proof. unfold copy_on_device. apply asks_fork, one_call_task; [done|]. intros [x|e]; auto with nothing. Qed.

Lemma asks_then {R : Type} (c : gcmd R) (k : R -> gprog unit) s : harmless c -> (forall r s', asks (k r) s' []) ->
  asks (r ← gdo c; k r) s (option_list (intent_of c)).
Proof. intros Hc Hk. rewrite <- (app_nil_r (option_list _)). apply asks_bind; [by apply asks_do|apply Hk]. Qed.

(** ** Paste *)

Definition place_of (device : option bytes) : place := match device with Some d => Phone d | None => Disk end.
(** Transfers between a phone and this computer go through the queue. *)
Definition rules (p : TransferPolicy) (a b : place) : option TransferPolicy :=
  match a, b with Disk, Phone _ | Phone _, Disk => Some p | _, _ => None end.
Definition moved (p : TransferPolicy) (tree : bool) (a : place) (src : bytes) (b : place) (dst : bytes) : intent :=
  mkIntent tree a src b dst (rules p a b).
Definition landing (dir src : bytes) : bytes := path_join dir (default (bs "untitled") (file_name src)).
(** What a paste into [dir] of [device] should move. *)
Definition pasted (p : TransferPolicy) (snap : ClipboardFiles) (tree : bool) (dir : bytes) (device : option bytes) : list intent :=
  (fun src => moved p tree (place_of (files_device snap)) src (place_of device) (landing dir src))
    <$> absolute_paths (files snap) (from_dir snap).
Definition sources (snap : ClipboardFiles) : list bytes := absolute_paths (files snap) (from_dir snap).
Definition across_phones (origin target : option bytes) : bool :=
  match origin, target with Some o, Some t => bool_decide (o <> t) | _, _ => false end.

Lemma resolve_cases snap dir target :
  resolve_destination snap dir target
  = if across_phones (files_device snap) target
    then Err (bs "These files were copied from " ++ default [] (files_device snap) ++ bs ". Paste into that device, or copy them again.")
    else Ok (landing dir <$> sources snap).
Proof. unfold resolve_destination, across_phones. by destruct (files_device snap), target; try case_bool. Qed.

Lemma single_dir_some ss ds es x : single_dir ss ds es = Some x -> exists e, head es = Some e /\ looks_like_dir e = true.
Proof. unfold single_dir. destruct ss as [|? [|? ?]], ds, es as [|e es]; try done. intros H. exists e. split; [done|]. by destruct (looks_like_dir e). Qed.

Lemma zip_landing dir l : zip l (landing dir <$> l) = (fun src => (src, landing dir src)) <$> l.
Proof. induction l as [|x l IH]; [done|]. cbn. by rewrite IH. Qed.
Lemma asks_each_map {A : Type} (l : list A) (f : A -> gprog unit) (g : A -> intent) s :
  (forall x s', x ∈ l -> app (win s') = app (win s) -> policy (win s') = policy (win s) -> asks (f x) s' [g x]) ->
  asks (each l f) s (g <$> l).
Proof.
  intros H. replace (g <$> l) with (l ≫= fun x => [g x]); [by apply asks_each|].
  clear. induction l as [|x l IH]; [done|]. cbn. by rewrite <- IH.
Qed.

Lemma asks_each_pair (l : list bytes) (h : bytes -> bytes) (f : bytes * bytes -> gprog unit) (g : bytes -> intent) s :
  (forall x s', x ∈ l -> policy (win s') = policy (win s) -> asks (f (x, h x)) s' [g x]) -> asks (each ((fun x => (x, h x)) <$> l) f) s (g <$> l).
Proof.
  intros H. replace (g <$> l) with ((fun p : bytes * bytes => g p.1) <$> ((fun x => (x, h x)) <$> l)) by (by rewrite <- list_fmap_compose).
  apply asks_each_map. intros [a b] s' Hin _ Hp. apply list_elem_of_fmap in Hin as (x & [= -> ->] & Hin). by apply H.
Qed.

Lemma asks_enqueue_one a b origin target s : across_phones origin target = false ->
  same_phone target origin = None -> show_path a = a -> show_path b = b ->
  asks (enqueue_one a b origin target) s [moved (policy (win s)) false (place_of origin) a (place_of target) b].
Proof.
  intros Hx Hs Ha Hb. unfold enqueue_one. destruct origin as [o|], target as [t|].
  - exfalso. unfold across_phones in Hx. unfold same_phone in Hs. apply bool_decide_eq_false in Hx.
    destruct (decide (t = o)) as [->|Hne]; [by rewrite bool_decide_eq_true_2 in Hs|]. apply Hx. congruence.
  - pose proof (asks_enqueue_pull o a b s) as H. by rewrite Ha, Hb in H.
  - pose proof (asks_enqueue_push t a b s) as H. by rewrite Ha, Hb in H.
  - apply (asks_then (CopyFile a b)); [done|]. intros [x|e] s'; apply asks_push.
Qed.

Lemma asks_paste_files snap dir target s :
  Forall (fun p => utf8_valid p = true) (sources snap ++ (landing dir <$> sources snap)) ->
  across_phones (files_device snap) target = false ->
  asks (match same_phone target (files_device snap) with
          | Some device => each (zip (sources snap) (landing dir <$> sources snap)) (fun '(s, d) => copy_on_device device s d)
          | None => each (zip (sources snap) (landing dir <$> sources snap)) (fun '(s, d) => enqueue_one s d (files_device snap) target)
          end) s (pasted (policy (win s)) snap false dir target).
Proof.
  intros [Hv1 Hv2]%Forall_app Hx. rewrite Forall_fmap in Hv2. rewrite zip_landing. unfold pasted. fold (sources snap).
  assert (Hs : forall x, x ∈ sources snap -> show_path x = x /\ show_path (landing dir x) = landing dir x).
  { intros x Hin. rewrite Forall_forall in Hv1, Hv2. split; apply from_utf8_lossy_valid; [by apply Hv1|by apply Hv2]. }
  destruct (same_phone target (files_device snap)) as [d|] eqn:Es.
  - assert (target = Some d /\ files_device snap = Some d) as [-> ->].
    { unfold same_phone in Es. destruct target as [t|], (files_device snap) as [o|]; try done.
      destruct (decide (t = o)) as [->|Hne]; [rewrite bool_decide_eq_true_2 in Es by done; by simplify_eq|by rewrite bool_decide_eq_false_2 in Es]. }
    apply asks_each_pair. intros x s' Hin _. destruct (Hs x Hin) as [H1 H2].
    pose proof (asks_copy_on_device d x (landing dir x) s') as H. by rewrite H1, H2 in H.
  - apply asks_each_pair. intros x s' Hin Hp. destruct (Hs x Hin) as [H1 H2]. rewrite <- Hp. by apply asks_enqueue_one.
Qed.

Lemma asks_paste_tree snap src dst target s : from_local snap = true -> files_device snap = None ->
  show_path src = src -> show_path dst = dst ->
  asks (paste_tree snap src dst target) s [moved (policy (win s)) true Disk src (place_of target) dst].
Proof.
  intros Hl Hd H1 H2. unfold paste_tree. rewrite Hl. destruct target as [t|].
  - pose proof (asks_enqueue_tree src dst t s) as H. by rewrite H1, H2 in H.
  - apply (asks_then (CopyTree src dst)); [done|]. intros [x|e] s'; apply asks_push.
Qed.

(** What can be pasted as the window means it: files, or one folder of this computer. *)
Definition pasteable (snap : ClipboardFiles) (tree : bool) : Prop :=
  if tree then (exists e, files snap = [e] /\ looks_like_dir e = true) /\ files_device snap = None
  else Forall (fun e => looks_like_dir e = false) (files snap).

Lemma paste_asks (s : scene) (snap : ClipboardFiles) (tree : bool) :
  clipboard (win s) = Some snap ->
  from_local snap = bool_decide (files_device snap = None) ->
  pasteable snap tree ->
  Forall (fun p => utf8_valid p = true) (sources snap ++ (landing (here (win s)) <$> sources snap)) ->
  if across_phones (files_device snap) (phone (win s)) then
    asks paste s [] /\ exists t, last (toasts (win (run answer paste s).2)) = Some t /\ tone t = Error
  else asks paste s (pasted (policy (win s)) snap tree (here (win s)) (phone (win s))).
Proof.
  intros Hc Hl Hp Hv. unfold paste. destruct (across_phones _ _) eqn:Hx.
  - split.
    + apply (asks_bind _ _ _ [] []); [by apply asks_do|]. cbn [run gdo perform fst]. rewrite Hc. unfold paste_snapshot.
      apply (asks_bind _ _ _ [] []); [by apply asks_do|]. cbn [run gdo perform fst snd win]. rewrite resolve_cases, Hx. apply asks_push.
    + eexists. rewrite grun_bind. cbn [run gdo perform fst snd]. rewrite Hc. unfold paste_snapshot. rewrite grun_bind.
      cbn [run gdo perform fst snd win]. rewrite resolve_cases, Hx. cbn. split; [apply last_stack_push|done].
  - apply (asks_bind _ _ _ []); [by apply asks_do|]. cbn [run gdo perform fst]. rewrite Hc. unfold paste_snapshot.
    apply (asks_bind _ _ _ []); [by apply asks_do|]. cbn [run gdo perform fst snd win]. rewrite resolve_cases, Hx. fold (sources snap).
    match goal with |- asks _ ?s2 _ => change (policy (win s)) with (policy (win s2)) end.
    destruct tree.
    + destruct Hp as [(e & He & Hd) Hn]. unfold pasted, sources in *. rewrite He in *. cbn [absolute_paths fmap list_fmap app] in *.
      set (src := if is_absolute (e_name e) then _ else _) in *. cbn [single_dir]. rewrite Hd.
      apply Forall_app in Hv as [[V1 _]%Forall_cons [V2 _]%Forall_cons]. rewrite Hn.
      apply asks_paste_tree; [by rewrite Hl, Hn|done|exact (from_utf8_lossy_valid _ V1)|exact (from_utf8_lossy_valid _ V2)].
    + destruct (single_dir _ _ _) as [[a b]|] eqn:Esd; [|by apply asks_paste_files].
      exfalso. apply single_dir_some in Esd as (e & He & Hd). cbn in Hp. destruct (files snap) as [|x es]; [done|].
      injection He as ->. apply Forall_cons in Hp as [Hp _]. congruence.
Qed.

(** Pasted files go where the user sees them go. For files, or one folder of this
    computer, copied in the window from a phone or the disk: a paste
    into the open folder asks, for each of them and for nothing else,
    for one transfer from where it was copied to that folder under its own name, by an
    upload, a download, a copy on the phone or a copy on the disk as the two
    places require, whatever the calls answer; only from one phone to another
    nothing is asked for and the reason is shown. *)
Theorem paste_places (s : scene) (snap : ClipboardFiles) (tree : bool) :
  clipboard (win s) = Some snap ->
  from_local snap = bool_decide (files_device snap = None) ->
  pasteable snap tree ->
  Forall (fun p => utf8_valid p = true) (sources snap ++ (landing (here (win s)) <$> sources snap)) ->
  if across_phones (files_device snap) (phone (win s)) then
    asks paste s [] /\ exists t, last (toasts (win (run answer paste s).2)) = Some t /\ tone t = Error
  else asks paste s (pasted (policy (win s)) snap tree (here (win s)) (phone (win s))).
Proof. apply paste_asks. Qed.
End requests.

(** ** From the paste to the queue *)

(** The daemon serves a call of a transfer, as its handlers do. *)
Definition serve (w : Queue.world) (i : intent) : Queue.world :=
  match i with
  | mkIntent false Disk local (Phone d) remote (Some p) => (enqueue_push_with_options d local remote (overwrite p) (AppWindow.verify p) w).2
  | mkIntent false (Phone d) remote Disk local (Some p) => (enqueue_pull_with_options d remote local (overwrite p) (AppWindow.verify p) w).2
  | _ => w
  end.
(** The job a call puts on the list, as number [n]. *)
Definition listed (n : Z) (i : intent) : list JobDto :=
  match i with
  | mkIntent false Disk local (Phone d) remote (Some _) => [new_dto n Job.Push local remote d]
  | mkIntent false (Phone d) remote Disk local (Some _) => [new_dto n Job.Pull remote local d]
  | _ => []
  end.
Fixpoint listed_from (n : Z) (l : list intent) : list JobDto :=
  match l with [] => [] | i :: l => listed n i ++ listed_from (n + 1) l end.

Definition POLICIES : list bytes := [bs "skip"; bs "replace"; bs "keep-both"].
(** A call for one file between a phone and this computer, under a proper policy. *)
Definition through_queue (i : intent) : Prop :=
  exists d a b p, overwrite p ∈ POLICIES
  /\ (i = mkIntent false Disk a (Phone d) b (Some p) \/ i = mkIntent false (Phone d) a Disk b (Some p)).

Lemma filter_perm {A : Type} (f : A -> bool) l : l ≡ₚ List.filter (fun x => negb (f x)) l ++ List.filter f l.
Proof.
  induction l as [|x l IH]; [done|]. cbn. destruct (f x); cbn; [|by rewrite <- IH]. rewrite IH at 1. apply Permutation_middle.
Qed.
Lemma options_accepted o v : o ∈ POLICIES -> exists x, parse_job_options o v = Ok x.
Proof. pose proof (options_words o v) as H. destruct (parse_job_options o v) as [x|e]; [by exists x|]. destruct H as [H _]. done. Qed.

Lemma enqueue_listed par n w dir d src dst o v : queue_inv par n w -> 0 <= n < 2 ^ 64 - 2 -> o ∈ POLICIES ->
  queue_inv par (n + 1) (enqueue_with dir d src dst o v w).2
  /\ list_jobs (enqueue_with dir d src dst o v w).2 ≡ₚ list_jobs w ++ [new_dto (n + 1) dir src dst d].
Proof.
  intros Hinv Hn Ho. unfold enqueue_with. destruct (options_accepted o v Ho) as [x ->].
  pose proof (enqueue_shows par n w dir src dst x d Hinv Hn) as H. split.
  - unfold enqueue_job. cbn [snd]. apply submit_whole_inv; [done|lia].
  - destruct (enqueue_job dir src dst x d w) as [i w']. destruct H as (-> & H1 & H2). cbn [snd].
    rewrite (filter_perm (fun j => d_id j =? n + 1) (list_jobs w')), H1, H2. done.
Qed.

Lemma serve_listed par n w i : queue_inv par n w -> 0 <= n < 2 ^ 64 - 2 -> through_queue i ->
  queue_inv par (n + 1) (serve w i) /\ list_jobs (serve w i) ≡ₚ list_jobs w ++ listed (n + 1) i.
Proof. intros Hinv Hn (d & a & b & p & Ho & [->| ->]); by apply enqueue_listed. Qed.

Lemma serve_all_listed par l : forall n w, queue_inv par n w -> 0 <= n -> n + zlen l < 2 ^ 64 - 2 -> Forall through_queue l ->
  list_jobs (foldl serve w l) ≡ₚ list_jobs w ++ listed_from (n + 1) l.
Proof.
  induction l as [|i l IH]; intros n w Hinv Hn Hl Hq; cbn [foldl listed_from]; [by rewrite app_nil_r|].
  rewrite zlen_cons in Hl. pose proof (zlen_nonneg l). apply Forall_cons in Hq as [Hi Hq].
  destruct (serve_listed par n w i Hinv ltac:(lia) Hi) as [Hinv' Hj]. rewrite (IH (n + 1) _ Hinv') by (done || lia).
  by rewrite Hj, <- app_assoc.
Qed.

(** C29: A paste of what was copied in the window ends up as jobs. For files (no directories, paths in UTF-8) copied in the window on
    a phone and pasted on this computer, or the other way: the calls the paste makes, served by the
    daemon in whatever order they arrive and in whatever state its queue is,
    add to the job list one waiting job for each file, with the
    paths of the file and of its place in the open folder, for that
    phone, and nothing else. The window's own clipboard is meant, and not files copied in another program
    ([foreign_paste_wrong_folder]). *)
Theorem paste_is_queued (answer : nat -> forall R, gcmd R -> R) (s : scene) (snap : ClipboardFiles)
    (par : Z) (es : list Queue.event) (order : list intent) :
  clipboard (win s) = Some snap ->
  from_local snap = bool_decide (files_device snap = None) ->
  Forall (fun e => looks_like_dir e = false) (files snap) ->
  Forall (fun p => utf8_valid p = true) (sources snap ++ (landing (here (win s)) <$> sources snap)) ->
  bool_decide (is_Some (files_device snap)) <> bool_decide (is_Some (phone (win s))) ->
  overwrite (policy (win s)) ∈ POLICIES ->
  zlen es + zlen (files snap) < 2 ^ 64 - 3 ->
  let calls := pasted (policy (win s)) snap false (here (win s)) (phone (win s)) in
  order ≡ₚ calls ->
  asks answer paste s calls
  /\ let w := Queue.run par es in
     list_jobs (foldl serve w order) ≡ₚ list_jobs w ++ listed_from (submits es + 1) order.
Proof.
  intros Hc Hl Hf Hv Hd Ho Hz calls Hperm. split.
  - pose proof (paste_asks answer s snap false Hc Hl Hf Hv) as H.
    assert (Hx : across_phones (files_device snap) (phone (win s)) = false) by (by destruct (files_device snap), (phone (win s))).
    by rewrite Hx in H.
  - intros w. pose proof (submits_bound es). pose proof (zlen_nonneg (files snap)).
    assert (Hlen : zlen order = zlen (files snap)).
    { rewrite (zlen_perm _ _ Hperm). unfold calls, pasted, absolute_paths, zlen. by rewrite !length_fmap. }
    apply (serve_all_listed par); [apply run_inv; lia|lia|lia|].
    rewrite Hperm. unfold calls, pasted. apply Forall_fmap, Forall_true. intros src. unfold through_queue, moved, place_of, compose.
    destruct (files_device snap) as [d|], (phone (win s)) as [t|]; try done; eexists _, _, _, _; (split; [exact Ho|]); [by right|by left].
Qed.

(** ** A window to try *)

Definition row (name : bytes) (dir : bool) : DirEntry := mkEntry name dir false 10 0 0.
(** Browsing [path] of a phone or of the disk, where [es] are listed. *)
Definition browsing (device : option bytes) (path : bytes) (es : list DirEntry) : App :=
  let b := match device with Some d => set_device d d new_browser | None => set_local path new_browser end in
  let b := with_lists (mkLists es (seq 0 (length es)) [] None None) (with_path path b) in
  mkApp b (match device with Some d => Some (SelDevice d) | None => Some (SelLocal path) end) device [] true [] [].
Definition window (device : option bytes) (path : bytes) (es : list DirEntry) (clip : option ClipboardFiles) : Win :=
  mkWin (browsing device path es) clip [] DlgNone [] default_policy None [].
Definition scene_of (w : Win) : scene := mkScene w [] [].

(** Everything asked of it is granted. *)
Definition granting (n : nat) (R : Type) (c : gcmd R) : R :=
  match c in gcmd R return R with
  | EnqueuePush _ _ _ _ | EnqueuePull _ _ _ _ | RetryOn | CopyTree _ _ => Ok 1
  | EnqueueTreePush _ _ _ _ | EnqueueTreePull _ _ _ _ | CopyTreeOn _ _ _ => Ok (mkTree [] 1 [])
  | StartInstall _ _ => Ok 1
  | InstallStatuses => Ok []
  | PackageInfoOn _ p => Ok (mkPackage p false None None)
  | UninstallOn _ _ => Ok tt
  | PairOn _ _ | ConnectOn _ | DiagnosticsOn => Ok []
  | QrStart | QrStatus => Ok (fun _ => None)
  | PathExists _ => true
  | ApkInfoOf _ => Err []
  | PickSave _ _ => None
  | UtcNow => []
  | CopyFileOn _ _ _ | MkdirOn _ _ | RenameOn _ _ _ | DeleteOn _ _ | CopyFile _ _ | MovePath _ _ | RenamePath _ _ | MakeDir _
  | DeletePath _ | TrashPath _ | OpenExternal _ => Ok tt
  | PauseOn _ | ResumeOn _ | CancelOn _ => Ok false
  | IsDirHere _ | IsApk _ => false
  | MetadataHere _ => None
  | Now => 0
  | DownloadDir => Some (bs "/home/u/Downloads")
  | SystemText => Some (bs "/home/u/a.txt" ++ [10] ++ bs "/tmp/b.txt")
  | SetSystemText _ => tt
  | PickPaths _ _ => Some [bs "/home/u/saved"]
  | Look => window None [] [] None
  | Change _ => tt
  end.
(** The handler, then its tasks, each to its end. *)
Definition played (rounds : nat) (p : gprog unit) (s : scene) : scene :=
  Nat.iter rounds (run_task granting 0) (run granting p s).2.
Definition intents (s : scene) : list intent := omap deed_intent (deeds s).

Definition two_files : ClipboardFiles := mkFiles true None (bs "/home/u") [row (bs "a.txt") false; row (bs "b.txt") false].
Definition paste_scene : scene := scene_of (window (Some (bs "A")) (bs "/sdcard/Download") [] (Some two_files)).

Lemma paste_places_witness :
  asks granting paste paste_scene
    [mkIntent false Disk (bs "/home/u/a.txt") (Phone (bs "A")) (bs "/sdcard/Download/a.txt") (Some default_policy);
     mkIntent false Disk (bs "/home/u/b.txt") (Phone (bs "A")) (bs "/sdcard/Download/b.txt") (Some default_policy)].
Proof.
  exact (paste_places granting paste_scene two_files false eq_refl eq_refl
    ltac:(repeat constructor) ltac:(apply (bool_decide_unpack _); by vm_compute)).
Defined.
Lemma paste_is_queued_witness :
  list_jobs (foldl serve (Queue.run 2 []) (pasted default_policy two_files false (bs "/sdcard/Download") (Some (bs "A"))))
  ≡ₚ [new_dto 1 Job.Push (bs "/home/u/a.txt") (bs "/sdcard/Download/a.txt") (bs "A");
      new_dto 2 Job.Push (bs "/home/u/b.txt") (bs "/sdcard/Download/b.txt") (bs "A")].
Proof.
  refine (proj2 (paste_is_queued granting paste_scene two_files 2 [] _ eq_refl eq_refl _ _ _ _ _ (Permutation_refl _))).
  - repeat constructor.
  - apply (bool_decide_unpack _). by vm_compute.
  - done.
  - apply (bool_decide_unpack _). by vm_compute.
  - done.
Defined.

(** ** What goes elsewhere *)

(** A folder pasted on the phone it was copied from is copied into the open folder
    itself, not under its own name. *)
Theorem folder_paste_spills :
  intents (played 1 paste (scene_of (window (Some (bs "A")) (bs "/sdcard/B") []
    (Some (mkFiles false (Some (bs "A")) (bs "/sdcard") [row (bs "Trip") true])))))
  = [mkIntent true (Phone (bs "A")) (bs "/sdcard/Trip") (Phone (bs "A")) (bs "/sdcard/B") None].
Proof. by vm_compute. Qed.

(** A folder among several entries is sent as if it were a file. *)
Theorem mixed_paste_sends_folder_as_file :
  whole <$> intents (played 2 paste (scene_of (window (Some (bs "A")) (bs "/sdcard/B") []
    (Some (mkFiles true None (bs "/home/u") [row (bs "notes") true; row (bs "a.txt") false])))))
  = [false; false].
Proof. by vm_compute. Qed.

(** Paths of two folders on the system clipboard: the second is looked for in the folder of the first. *)
Theorem foreign_paste_wrong_folder :
  from_path <$> intents (played 2 paste (scene_of (window (Some (bs "A")) (bs "/sdcard/B") [] None)))
  = [bs "/home/u/a.txt"; bs "/home/u/b.txt"].
Proof. by vm_compute. Qed.

(** A folder whose download was started is asked for as a file when another folder is open once the place is chosen. *)
Theorem late_download_forgets_folder :
  let s := (run granting (download [row (bs "Trip") true]) (scene_of (window (Some (bs "A")) (bs "/sdcard") [row (bs "Trip") true] None))).2 in
  let elsewhere := mkScene (window (Some (bs "A")) (bs "/sdcard/B") [] None) (tasks s) (deeds s) in
  intents (Nat.iter 2 (run_task granting 0) s)
  = [mkIntent true (Phone (bs "A")) (bs "/sdcard/Trip") Disk (bs "/home/u/saved/Trip") (Some default_policy)]
  /\ intents (Nat.iter 2 (run_task granting 0) elsewhere)
  = [mkIntent false (Phone (bs "A")) (bs "/sdcard/Trip") Disk (bs "/home/u/saved/Trip") (Some default_policy)].
Proof. by vm_compute. Qed.

(** Transfers the daemon no longer knows are counted as cancelled. *)
Theorem cancel_counts_refusals :
  toasts (win (played 1 cancel_transfers (scene_of (mkWin (browsing None (bs "/") []) None [] DlgNone
    [GuiModels.mkJob 7 (bs "Push") (bs "a") (bs "Running") 0 0 0 0 None None] default_policy None []))))
  = [mkToast (bs "Cancelled 1 transfer(s)") Info None 4600].
Proof. by vm_compute. Qed.

(** ** Deletions *)

Definition deletion_of {R : Type} (c : gcmd R) : option (place * bytes) :=
  match c with DeletePath p => Some (Disk, p) | DeleteOn d p => Some (Phone d, p) | _ => None end.
Definition deletions (l : list deed) : list (place * bytes) := omap (fun d => match d with Did c _ => deletion_of c end) l.

Section deletions.
Context (answer : nat -> forall R, gcmd R -> R).

Lemma perform_deletion {R : Type} (c : gcmd R) s x : deletion_of c = Some x ->
  exists r, perform answer c s = (r, mkScene (win s) (tasks s) (deeds s ++ [Did c r])).
Proof. intros H. exists (answer (length (deeds s)) R c). unfold perform. by destruct c. Qed.
Lemma try_each_run step f paths : (forall p, deletion_of (step p) = Some (f p)) ->
  forall n fs s, let '(_, s') := run answer (try_each step paths n fs) s in
  deletions (deeds s') = deletions (deeds s) ++ (f <$> paths) /\ win s' = win s /\ tasks s' = tasks s.
Proof.
  intros Hs. induction paths as [|p paths IH]; intros n fs s; cbn [try_each]; [cbn; by rewrite app_nil_r|].
  rewrite grun_bind. cbn [gdo run].
  destruct (perform_deletion (step p) s (f p) (Hs p)) as [r ->]. cbn [run]. destruct r as [u|e].
  1: specialize (IH (S n) fs (mkScene (win s) (tasks s) (deeds s ++ [Did (step p) (Ok u)]))).
  2: specialize (IH n (fs ++ [e]) (mkScene (win s) (tasks s) (deeds s ++ [Did (step p) (Err e)]))).
  all: destruct (run answer _ _) as [x s']; cbn [win tasks deeds] in IH; destruct IH as (H1 & H2 & H3); split_and!; try done;
    rewrite H1; unfold deletions; rewrite omap_app; cbn; rewrite Hs; by rewrite <- app_assoc.
Qed.

Lemma quiet_run {A : Type} (c : gcmd A) s : deletion_of c = None -> deletions (deeds (run answer (gdo c) s).2) = deletions (deeds s).
Proof. intros H. cbn. destruct c; cbn in *; unfold deletions; rewrite omap_app; cbn; try done; by rewrite app_nil_r. Qed.

Lemma quiet_push m tn s : deletions (deeds (run answer (push m tn) s).2) = deletions (deeds s).
Proof. unfold push, push_toast. rewrite grun_bind. pose proof (quiet_run Now s eq_refl) as H. destruct (run answer (gdo Now) s) as [n s']. rewrite quiet_run by done. exact H. Qed.
(** Deletions one by one, a report and a refresh. *)
Lemma delete_batch step f paths (report : nat * list bytes -> bytes * ToastTone) s : (forall p, deletion_of (step p) = Some (f p)) ->
  deletions (deeds (run answer (r ← try_each step paths 0 []; _ ← push (report r).1 (report r).2; refresh) s).2)
  = deletions (deeds s) ++ (f <$> paths).
Proof.
  intros Hs. rewrite grun_bind. pose proof (try_each_run step f paths Hs 0 [] s) as H.
  destruct (run answer (try_each _ _ _ _) s) as [r s2]. destruct H as (H & _ & _). rewrite grun_bind.
  pose proof (quiet_push (report r).1 (report r).2 s2) as H3. destruct (run answer (push _ _) s2) as [u s3].
  unfold refresh. rewrite quiet_run by done. cbn [snd] in H3. by rewrite H3, H.
Qed.

(** What a confirmed deletion deletes: the names, in the folder that is open
    when it is confirmed, of what is selected then. *)
Theorem delete_targets (s : scene) (es : list DirEntry) :
  match phone (win s) with
  | None => deletions (deeds (run answer (delete_permanently es) s).2)
      = deletions (deeds s) ++ ((fun p => (Disk, p)) <$> inside (here (win s)) es)
  | Some d => exists t, (run answer (delete_permanently es) s).2 = mkScene (win s) (tasks s ++ [t]) (deeds s ++ [Did Look (win s)])
      /\ forall s1, deletions (deeds (run answer t s1).2)
           = deletions (deeds s1) ++ ((fun p => (Phone d, show_path p)) <$> inside (here (win s)) es)
  end.
Proof.
  unfold delete_permanently. rewrite grun_bind. cbn [gdo run perform fst snd]. destruct (phone (win s)) as [d|] eqn:Ep.
  - eexists. split; [by cbn|]. intros s1.
    rewrite <- (delete_batch (fun p => DeleteOn d (show_path p)) _ _
      (fun r => if bool_decide (r.2 = []) then (bs "Deleted " ++ count (length es) ++ bs " item(s) from the phone", Success)
                else (join (bs "; ") r.2, Error)) s1 (fun _ => eq_refl)).
    rewrite !grun_bind. destruct (run answer (try_each _ _ _ _) s1) as [[n fs] s2]. cbn [snd]. by case_bool.
  - replace (deletions (deeds s)) with (deletions (deeds (mkScene (win s) (tasks s) (deeds s ++ [Did Look (win s)]))))
      by (unfold deletions; cbn [deeds]; rewrite omap_app; cbn; by rewrite app_nil_r).
    rewrite <- (delete_batch DeletePath _ _
      (fun r => if bool_decide (r.2 = []) then (bs "Deleted " ++ count (length es) ++ bs " item(s)", Success)
                else (join (bs "; ") r.2, Error)) _ (fun _ => eq_refl)).
    rewrite !grun_bind. destruct (run answer (try_each _ _ _ _) _) as [[n fs] s2]. cbn [snd]. by case_bool.
Qed.
End deletions.

(** A phone goes while the question is open: the answer deletes the files
    of those names at the root of this computer. *)
Theorem late_confirmation_deletes_here (answer : nat -> forall R, gcmd R -> R) (w : Win) (d : bytes) (ds : list DeviceEntry) (es : list DirEntry) :
  app_selection (app w) = Some (SelDevice d) -> is_listed d ds = false -> auto_selected (app w) = true ->
  let w' := with_dialog (DlgConfirmDelete (describe_selection es) es false) (with_app (set_devices ds (app w)) w) in
  deletions (deeds (run answer (delete_permanently es) (scene_of w')).2) = (fun e => (Disk, path_join (bs "/") (e_name e))) <$> es.
Proof.
  intros Hs Hd Ha w'.
  assert (H : phone w' = None /\ here w' = bs "/").
  { unfold w', phone, here, set_devices, target_device. cbn [app]. rewrite Hs, Hd. cbn [last_device with_choice with_browser app_selection].
    case_bool; [done|]. cbn [auto_selected with_choice with_browser]. rewrite Ha. by destruct ds. }
  destruct H as [Hp Hh]. pose proof (delete_targets answer (scene_of w') es) as Ht. cbn [scene_of win] in Ht. rewrite Hp, Hh in Ht.
  rewrite Ht. unfold inside. rewrite <- list_fmap_compose. done.
Qed.
