(* ===== verification/AppInstallsSpec.v ===== *)
(** * What the window knows of its installs

    The handlers and polls of the window and the install pipelines of the daemon,
    interleaved command by command: the history the window keeps against
    what the daemon did. *)

From stdpp Require Import base list strings gmap sorting.
From S2P Require Import Prelude RustStd Text Job DaemonInput Axml GuiModels Clipboard Browser AppListing AppListingSpec DaemonApi DaemonInstall AppWindow AppInstalls AppTransfers AppTransfersSpec.

(** ** The statuses of the daemon *)

Definition dto_of (x : InstallStatus) : InstallStatusDto :=
  mkInstall (id x) (DaemonInstall.device x) (label x) (source x) (from_device x) (state x) (percent x) (bytes_done x) (bytes_total x)
    (error_code x) (DaemonInstall.message x) (raw x) (finished x).

(** [s'] has no install that [s] has not, for the same device and path. *)
Definition kept (s s' : State) : Prop :=
  next_install_id s' = next_install_id s
  /\ forall i x', installs s' !! i = Some x' ->
     exists x, installs s !! i = Some x /\ id x' = id x /\ DaemonInstall.device x' = DaemonInstall.device x /\ source x' = source x.

Lemma kept_refl s : kept s s.
Proof. split; [done|]. intros i x Hx. by exists x. Qed.
Lemma kept_trans s s1 s2 : kept s s1 -> kept s1 s2 -> kept s s2.
Proof.
  intros [N1 H1] [N2 H2]. split; [congruence|]. intros i x2 Hx2. destruct (H2 i x2 Hx2) as (x1 & Hx1 & E1 & E2 & E3).
  destruct (H1 i x1 Hx1) as (x & Hx & F1 & F2 & F3). exists x. split_and!; congruence.
Qed.
Lemma kept_update i f s :
  (forall x, id (f x) = id x /\ DaemonInstall.device (f x) = DaemonInstall.device x /\ source (f x) = source x) -> kept s (update_install i f s).
Proof.
  intros Hf. split; [apply update_next|]. unfold update_install. intros j x'. destruct (installs s !! i) as [x|] eqn:Hx; [|intros H; by exists x'].
  cbn. intros [[<- <-]|[_ H]]%lookup_insert_Some; [exists x; by split|by exists x'].
Qed.
Lemma kept_end i code msg out ok s : kept s (add_install_signed i code msg out ok s).
Proof.
  unfold add_install_signed. set (s1 := mkState (installs s) false (next_install_id s)).
  apply (kept_trans s s1); [split; [done|]; intros j x Hx; by exists x|].
  apply (kept_trans s1 (update_install i (set_end ok code msg out) s1)); [by apply kept_update|].
  split; [done|]. cbn. intros j x Hx%prune_subset. by exists x.
Qed.
Create HintDb kept.
#[local] Hint Resolve kept_end kept_refl : kept.
#[local] Hint Extern 3 (kept _ (update_install _ _ _)) => (by apply kept_update) : kept.

Lemma kept_copy i path r s : kept s (after_copy i path r s).2.
Proof. destruct r; cbn; unfold installing, install_failed; eauto with kept. Qed.
Lemma kept_push i r s : kept s (after_push i r s).2.
Proof.
  unfold after_push. destruct r as [out|]; cbn; unfold install_failed; [|eauto with kept].
  destruct (success out); cbn; [|destruct (classify_install_failure _); cbn; eauto with kept].
  unfold installing. apply (kept_trans s (update_install i (fun x => set_progress 100 (bytes_total x) x) s)); by apply kept_update.
Qed.
Lemma kept_pm i r s : kept s (after_pm i r s).
Proof. unfold after_pm, install_failed, install_succeeded. destruct r as [|e|out]; [eauto with kept..|]. case_match; [destruct (classify_install_failure _)|]; eauto with kept. Qed.

(** The devices and paths installs were started for, by number. *)
Definition asked_after (e : event) (w : world) (asked : list (bytes * bytes)) : list (bytes * bytes) :=
  match e with
  | Start dev path c ex len => match (start_install dev path c ex len (st w)).1 with Ok _ => asked ++ [(dev, path)] | Err _ => asked end
  | _ => asked
  end.

Lemma exec_kept e w : (forall dev path c ex len, e <> Start dev path c ex len) -> kept (st w) (st (exec e w)).
Proof.
  intros He. destruct e as [dev path c ex len|i|i r|i r|i out|i r]; cbn [exec]; [by destruct (He dev path c ex len)|..].
  - case_match; [cbn; eauto with kept|apply kept_refl].
  - case_match; [|apply kept_refl]. pose proof (kept_copy i (p_path p) r (st w)). by destruct (after_copy _ _ _ _).
  - case_match; [|apply kept_refl]. pose proof (kept_push i r (st w)). by destruct (after_push _ _ _).
  - cbn. unfold poll_size. eauto with kept.
  - case_match; [apply kept_pm|apply kept_refl].
Qed.

(** Every status is of an install that was asked for. *)
Definition honest (asked : list (bytes * bytes)) (s : State) : Prop :=
  forall i x, installs s !! i = Some x -> id x = i /\ 0 <= i /\ asked !! Z.to_nat i = Some (DaemonInstall.device x, source x).

Lemma honest_more asked asked' s : asked `prefix_of` asked' -> honest asked s -> honest asked' s.
Proof. intros Hp H i x Hx. destruct (H i x Hx) as (E1 & E2 & E3). split_and!; try done. by eapply prefix_lookup_Some. Qed.
Lemma asked_more e w asked : asked `prefix_of` asked_after e w asked.
Proof. unfold asked_after. destruct e; try done. case_match; [by apply prefix_app_r|done]. Qed.

Lemma exec_honest e n w asked : n < 2 ^ 64 - 1 -> world_ok n w -> next_install_id (st w) = zlen asked -> honest asked (st w) ->
  next_install_id (st (exec e w)) = zlen (asked_after e w asked) /\ honest (asked_after e w asked) (st (exec e w)).
Proof.
  intros Hn Hw Hl H. 
  assert (Hc : (exists dev path c ex len, e = Start dev path c ex len) \/ ((forall dev path c ex len, e <> Start dev path c ex len) /\ asked_after e w asked = asked))
    by (destruct e; [left; by repeat eexists|right..]; done).
  destruct Hc as [(dev & path & c & ex & len & ->)|[He Ha]].
  - cbn [exec asked_after]. destruct (start_install dev path c ex len (st w)) as [[i|err] s'] eqn:E; cbn [fst].
    + revert E. unfold start_install. repeat (case_match; [done|]). intros [= <- <-]. cbn [st next_install_id installs].
      destruct Hw as [[Hb Hb'] _]. rewrite as_u64_id by (unfold u64_ok; lia). rewrite zlen_app. change (zlen [(dev, path)]) with 1. split; [lia|].
      intros j x Hx%prune_subset. apply lookup_insert_Some in Hx as [[<- <-]|[_ Hx]]; cbn.
      * split_and!; [done|lia|]. rewrite Hl. unfold zlen. rewrite Nat2Z.id. by rewrite lookup_app_r, Nat.sub_diag.
      * destruct (H j x Hx) as (E1 & E2 & E3). split_and!; [done|done|]. by apply lookup_app_l_Some.
    + apply start_refused in E as ->. cbn [st]. by split.
  - rewrite Ha. destruct (exec_kept e w He) as [Hk1 Hk2]. split; [congruence|]. intros i x' Hx'. destruct (Hk2 i x' Hx') as (x & Hx & E1 & E2 & E3).
    destruct (H i x Hx) as (F1 & F2 & F3). split_and!; congruence.
Qed.

(** ** The window and the daemon together *)

(** What the daemon was asked for and the states it has been in: not part of
    the program, but of what is said about it. *)
Record facts := mkFacts { asked : list (bytes * bytes); past : list State }.
Record joint := mkJoint { j_win : Win; j_tasks : list (gprog unit); j_daemon : world; j_facts : facts }.

Definition daemon_step (e : event) (j : joint) : joint :=
  let w := exec e (j_daemon j) in
  mkJoint (j_win j) (j_tasks j) w (mkFacts (asked_after e (j_daemon j) (asked (j_facts j))) (past (j_facts j) ++ [st w])).

(** What a command meets: whether the phone is connected and the path there,
    whether the answer of the daemon is lost on the way, and the answers of everything else. *)
Record env := mkEnv {
  connected : bool; file_exists : bytes -> bool; file_len : N; lost : bool; reason : bus_error -> bytes; other : forall R, gcmd R -> R }.

Definition serve_install {R : Type} (v : env) (c : gcmd R) (j : joint) : R * joint :=
  match c in gcmd R return R * joint with
  | StartInstall d p =>
      let r := (start_install d p (connected v) (file_exists v) (file_len v) (st (j_daemon j))).1 in
      (if lost v then Err [] else match r with Ok i => Ok i | Err e => Err (reason v e) end,
       daemon_step (Start d p (connected v) (file_exists v) (file_len v)) j)
  | InstallStatuses => (if lost v then Err [] else Ok (dto_of <$> install_status_all (st (j_daemon j))), j)
  | Look => (j_win j, j)
  | Change f => (tt, mkJoint (f (j_win j)) (j_tasks j) (j_daemon j) (j_facts j))
  | c => (other v _ c, j)
  end.

(** The next command of a task: what is left of it, and the task it starts. *)
Definition advance {A : Type} (v : env) (p : gprog A) (j : joint) : option (gprog A) * list (gprog unit) * joint :=
  match p with
  | GRet _ => (None, [], j)
  | GDo c k => let '(r, j) := serve_install v c j in (Some (k r), [], j)
  | Fork t k => (Some k, [t], j)
  end.
Definition with_tasks (l : list (gprog unit)) (j : joint) : joint := mkJoint (j_win j) l (j_daemon j) (j_facts j).
Definition settle (i : nat) (x : option (gprog unit) * list (gprog unit) * joint) : joint :=
  let '(rest, started, j) := x in
  with_tasks (match rest with Some p => <[i := p]> (j_tasks j) | None => delete i (j_tasks j) end ++ started) j.
Definition task_step (v : env) (i : nat) (j : joint) : joint :=
  match j_tasks j !! i with Some p => settle i (advance v p j) | None => j end.

(** The window starts a handler, a task goes on, the daemon goes on. *)
Inductive joint_event :=
| Handle (e : BrowserEvent) | Answered (polls : nat) (r : DialogResult) | InstallAsked (e : DirEntry) | PickAsked | InstallsPolled
| GoOn (v : env) (task : nat) | DaemonDoes (e : event).
Definition handler_of (e : joint_event) : option (gprog unit) :=
  match e with
  | Handle e => Some (on_file_event e)
  | Answered polls r => Some (on_dialog_result polls r)
  | InstallAsked e => Some (install_apk e)
  | PickAsked => Some pick_for_install
  | InstallsPolled => Some poll_installs
  | GoOn _ _ | DaemonDoes _ => None
  end.
Definition joint_step (j : joint) (e : joint_event) : joint :=
  match e with
  | GoOn v i => task_step v i j
  | DaemonDoes e => daemon_step e j
  | _ => match handler_of e with Some h => with_tasks (j_tasks j ++ [h]) j | None => j end
  end.
Definition opening (w : Win) : joint := mkJoint (with_watch None (with_records [] w)) [] start (mkFacts [] [st start]).
Definition joint_run (w : Win) (es : list joint_event) : joint := foldl joint_step (opening w) es.

(** ** What is true of the history *)

Definition leads (F F' : facts) : Prop := asked F `prefix_of` asked F' /\ past F ⊆ past F'.
(** The daemon has reported this status, of an install it was asked for. *)
Definition said (F : facts) (s : InstallStatusDto) : Prop :=
  (exists d x, d ∈ past F /\ installs d !! is_id s = Some x /\ s = dto_of x)
  /\ 0 <= is_id s /\ asked F !! Z.to_nat (is_id s) = Some (is_device s, is_source s).
(** A record of the end of install number [i]. *)
Definition recorded (F : facts) (e : Z * InstallRecord) : Prop :=
  exists s, said F s /\ is_id s = e.1 /\ is_finished s = true /\ rec_device e.2 = is_device s /\ rec_source e.2 = is_source s
    /\ rec_success e.2 = is_done s /\ rec_error e.2 = if is_done s then None else is_message s.
Definition watched (F : facts) (x : InstallWatch) : Prop :=
  0 <= watch_id x /\ asked F !! Z.to_nat (watch_id x) = Some (watch_device x, watch_source x).

Definition newest {A : Type} (n : nat) (l : list A) : list A := drop (length l - n) l.
Definition truth (F : facts) (w : Win) (recs : list (Z * InstallRecord)) : Prop :=
  install_history w = newest HISTORY_CAP recs.*2 /\ Forall (recorded F) recs /\ (forall x, install_watch w = Some x -> watched F x).
Definition watching (w : Win) : list Z := option_list (watch_id <$> install_watch w).

Lemma leads_refl F : leads F F.
Proof. by split. Qed.
Lemma leads_trans F F1 F2 : leads F F1 -> leads F1 F2 -> leads F F2.
Proof. intros [] []. split; [by etrans|set_solver]. Qed.
Lemma said_more F F' s : leads F F' -> said F s -> said F' s.
Proof. intros [Ha Hp] [(d & x & Hd & H) [H0 H1]]. split_and!; [exists d, x; split; [set_solver|done]|done|by eapply prefix_lookup_Some]. Qed.
Lemma recorded_more F F' e : leads F F' -> recorded F e -> recorded F' e.
Proof. intros Hl (s & Hs & H). exists s. split; [by eapply said_more|done]. Qed.
Lemma watched_more F F' x : leads F F' -> watched F x -> watched F' x.
Proof. intros [Ha _] [H0 H1]. split; [done|by eapply prefix_lookup_Some]. Qed.
Lemma truth_more F F' w recs : leads F F' -> truth F w recs -> truth F' w recs.
Proof.
  intros Hl (H1 & H2 & H3). split_and!; [done| |intros x Hx; by eapply watched_more, H3].
  eapply Forall_impl; [done|]. intros e. by apply recorded_more.
Qed.

(** An update of the window that keeps the history true, and turns
    the numbers [own] it may use into [own']: none is used twice. *)
Definition good (F : facts) (own : list Z) (f : Win -> Win) (own' : list Z) : Prop :=
  forall w recs, truth F w recs ->
  exists recs', truth F (f w) recs' /\ own' ++ watching (f w) ++ recs'.*1 ⊆+ own ++ watching w ++ recs.*1.

(** A program whose updates are good, whatever the daemon has come to meanwhile. *)
Fixpoint safe {A : Type} (p : gprog A) (own : list Z) (F : facts) {struct p} : Prop :=
  match p with
  | GRet _ => True
  | GDo c k =>
      match c in gcmd R return (R -> gprog _) -> Prop with
      | StartInstall d p => fun k => forall F', leads F F' ->
          (forall e, safe (k (Err e)) own F')
          /\ forall i, 0 <= i -> asked F' !! Z.to_nat i = Some (d, p) -> safe (k (Ok i)) (i :: own) F'
      | InstallStatuses => fun k => forall F', leads F F' ->
          (forall e, safe (k (Err e)) own F') /\ forall l, Forall (said F') l -> safe (k (Ok l)) own F'
      | Change f => fun k => forall F', leads F F' -> exists own', good F' own f own' /\ safe (k tt) own' F'
      | _ => fun k => forall r, safe (k r) own F
      end k
  | Fork t k => (forall F', leads F F' -> safe t [] F') /\ safe k own F
  end.

Lemma safe_more {A : Type} (p : gprog A) own F F' : leads F F' -> safe p own F -> safe p own F'.
Proof.
  revert own F F'. induction p as [A a|A R c k IH|A t _ k IH]; intros own F F' Hl; cbn; [done| |].
  - destruct c; try (intros H r; by eapply IH, H); intros H F1 Hl1; apply H; by eapply leads_trans.
  - intros [Ht Hk]. split; [intros F1 Hl1; apply Ht; by eapply leads_trans|by eapply IH].
Qed.
Lemma good_own F own f own' extra : good F own f own' -> good F (own ++ extra) f (own' ++ extra).
Proof.
  intros H w recs Hw. destruct (H w recs Hw) as (recs' & Ht & Hs). exists recs'. split; [done|].
  rewrite <- !(assoc_L (++)), (comm (++) extra (watching (f w) ++ _)), (comm (++) extra (watching w ++ _)), !(assoc_L (++)).
  apply submseteq_skips_r. by rewrite <- !(assoc_L (++)).
Qed.
Lemma safe_own {A : Type} (p : gprog A) own extra F : safe p own F -> safe p (own ++ extra) F.
Proof.
  revert own F. induction p as [A a|A R c k IH|A t _ k IH]; intros own F; cbn; [done| |].
  - destruct c; try (intros H r; apply IH, H).
    + intros H F' Hl. destruct (H F' Hl) as [H1 H2]. split; [intros e; apply IH, H1|]. intros i Hi Ha. by apply (IH (Ok i) (i :: own)), H2.
    + intros H F' Hl. destruct (H F' Hl) as [H1 H2]. split; [intros e; apply IH, H1|intros l Hs; by apply IH, H2].
    + intros H F' Hl. destruct (H F' Hl) as (own' & Hg & Hk). exists (own' ++ extra). split; [by apply good_own|by apply IH].
  - intros [Ht Hk]. split; [done|by apply IH].
Qed.

(** A program that is safe wherever it starts. *)
Definition tame {A : Type} (p : gprog A) : Prop := forall F, safe p [] F.
Lemma tame_safe {A : Type} (p : gprog A) own F : tame p -> safe p own F.
Proof. intros H. apply (safe_own p [] own F), H. Qed.

Lemma tame_ret {A : Type} (a : A) : tame (mret a).
Proof. intros F. done. Qed.
Lemma safe_gbind {A B : Type} (p : gprog A) (k : A -> gprog B) own F : safe p own F -> (forall a, tame (k a)) -> safe (p ≫= k) own F.
Proof.
  unfold mbind, gprog_bind. revert own F. induction p as [A a|A R c k' IH|A t _ k' IH]; intros own F Hp Hk; cbn in *; [by apply tame_safe| |].
  - destruct c; try (intros r; by apply IH).
    + intros F' Hl. destruct (Hp F' Hl) as [H1 H2]. split; [intros e; by apply IH|intros i Hi Ha; apply IH; [by apply H2|done]].
    + intros F' Hl. destruct (Hp F' Hl) as [H1 H2]. split; [intros e; by apply IH|intros l Hs; apply IH; [by apply H2|done]].
    + intros F' Hl. destruct (Hp F' Hl) as (own' & Hg & H). exists own'. split; [done|by apply IH].
  - destruct Hp as [Ht Hp]. split; [done|by apply IH].
Qed.
Lemma tame_bind {A B : Type} (p : gprog A) (k : A -> gprog B) : tame p -> (forall a, tame (k a)) -> tame (p ≫= k).
Proof. intros Hp Hk F. by apply safe_gbind. Qed.
Lemma tame_fork t : tame t -> tame (fork t).
Proof. intros Ht F. cbn. split; [intros F' _; apply Ht|done]. Qed.
Lemma tame_each {A : Type} (l : list A) f : (forall x, tame (f x)) -> tame (each l f).
Proof. intros Hf. induction l as [|x l IH]; cbn [each]; [apply tame_ret|]. by apply tame_bind. Qed.

Definition changes {R : Type} (c : gcmd R) : bool := match c with Change _ => true | _ => false end.
Lemma tame_do {R : Type} (c : gcmd R) : changes c = false -> tame (gdo c).
Proof. intros Hc F. cbn. by destruct c. Qed.

(** Updates that leave watch and history alone. *)
Definition quiet (f : Win -> Win) : Prop := forall w, install_watch (f w) = install_watch w /\ install_history (f w) = install_history w.
Lemma quiet_good F own f : quiet f -> good F own f own.
Proof.
  intros Hq w recs (H1 & H2 & H3). destruct (Hq w) as [Ew Eh]. exists recs. unfold truth, watching. rewrite Ew, Eh. by split.
Qed.
Lemma tame_change f : (forall F, good F [] f []) -> tame (gdo (Change f)).
Proof. intros Hf F. cbn. intros F' _. exists []. by split. Qed.
Lemma tame_quiet f : quiet f -> tame (gdo (Change f)).
Proof. intros Hf. apply tame_change. intros F. by apply quiet_good. Qed.

(** ** The handlers *)

Lemma tame_toast msg t a : tame (push_toast msg t a).
Proof. apply tame_bind; [by apply tame_do|]. intros n. by apply tame_quiet. Qed.
Lemma tame_push msg t : tame (push msg t).
Proof. apply tame_toast. Qed.
Lemma tame_push_action msg t l a : tame (push_with_action msg t l a).
Proof. apply tame_toast. Qed.
Lemma tame_dialog d : tame (set_dialog d).
Proof. by apply tame_quiet. Qed.
Lemma tame_refresh : tame refresh.
Proof. by apply tame_quiet. Qed.
Lemma tame_clipboard c : tame (gdo (Change (with_clipboard c))).
Proof. by apply tame_quiet. Qed.
Lemma quiet_card f : quiet (with_card f).
Proof. intros w. unfold with_card. by destruct (dialog w). Qed.
Lemma quiet_row l s : quiet (set_row l s).
Proof. intros w. unfold set_row. destruct (dialog w); try done. by destruct (list_find _ _) as [[]|]. Qed.
Lemma tame_card f : tame (gdo (Change (with_card f))).
Proof. apply tame_quiet, quiet_card. Qed.
Lemma tame_row l s : tame (gdo (Change (set_row l s))).
Proof. apply tame_quiet, quiet_row. Qed.

Create HintDb tame.
#[local] Hint Resolve tame_ret tame_push tame_push_action tame_dialog tame_refresh tame_clipboard tame_card tame_row : tame.
#[local] Hint Extern 1 (tame (gdo _)) => (by apply tame_do) : tame.
(** Through the commands and branches of a handler. *)
Ltac tame_tac :=
  repeat (cbv zeta beta; first
    [ solve [eauto with tame nocore]
    | apply tame_fork | apply tame_each; intros ?
    | apply tame_bind; [|intros ?]
    | match goal with
      | |- tame (if ?b then _ else _) => destruct b
      | |- tame (match ?x with _ => _ end) => destruct x
      | |- tame (mbind _ (match ?x with _ => _ end)) => destruct x
      end ]).

Lemma fill_good F info : good F [] (fun w => fill_watch info (with_card (set_info info) w)) [].
Proof.
  intros w recs (H1 & H2 & H3). exists recs.
  assert (E : install_watch (with_card (set_info info) w) = install_watch w /\ install_history (with_card (set_info info) w) = install_history w)
    by apply quiet_card. destruct E as [Ew Eh].
  unfold truth, watching, fill_watch. rewrite Ew. destruct (install_watch w) as [x|] eqn:Ex; [destruct (watch_package x)|].
  - rewrite Ew, Eh. by split_and!.
  - cbn. rewrite Eh. split_and!; [done|done| |done]. intros y [= <-]. by apply (H3 x).
  - rewrite Ew, Eh. by split_and!.
Qed.
Lemma tame_open_sideload l d : tame (open_sideload l d).
Proof.
  unfold open_sideload. apply tame_bind; [eauto with tame|]. intros w. apply tame_bind; [eauto with tame|]. intros _. apply tame_fork.
  apply tame_bind; [eauto with tame|]. intros r. apply tame_bind; [eauto with tame|]. intros w'. destruct (negb _); [eauto with tame|].
  destruct r as [info|e]; [|eauto with tame]. apply tame_bind; [apply tame_change; intros F; apply fill_good|]. intros _. tame_tac.
Qed.
#[local] Hint Resolve tame_open_sideload : tame.

Lemma tame_route paths : tame (route_apks paths).
Proof.
  assert (Hp : tame (partition_apks paths)).
  { induction paths as [|p paths IH]; cbn [partition_apks]; [apply tame_ret|]. apply tame_bind; [eauto with tame|]. intros a. apply tame_bind; [done|].
    intros [x y]. apply tame_ret. }
  unfold route_apks. apply tame_bind; [done|]. intros [apks rest]. tame_tac.
Qed.
#[local] Hint Resolve tame_route : tame.
Lemma tame_pick_for_install : tame pick_for_install.
Proof. unfold pick_for_install. tame_tac. Qed.
Lemma tame_install_apk e : tame (install_apk e).
Proof. unfold install_apk. tame_tac. Qed.

Lemma start_good F i d p pk v label : 0 <= i -> asked F !! Z.to_nat i = Some (d, p) ->
  good F [i] (fun w => with_dialog (DlgInstalling label None) (with_watch (Some (mkWatch i d p pk v)) w)) [].
Proof.
  intros Hi Ha w recs (H1 & H2 & H3). exists recs. split.
  - split_and!; [done|done|]. intros x [= <-]. by split.
  - cbn. apply submseteq_skip. apply submseteq_inserts_l. done.
Qed.
Lemma safe_start {A : Type} d p (k : result bytes Z -> gprog A) F : (forall e, tame (k (Err e))) ->
  (forall F' i, leads F F' -> 0 <= i -> asked F' !! Z.to_nat i = Some (d, p) -> safe (k (Ok i)) [i] F') ->
  safe (gdo (StartInstall d p) ≫= k) [] F.
Proof. intros He Hk. cbn. intros F' Hl. split; [intros e; apply He|intros i; by apply Hk]. Qed.
Lemma safe_statuses {A : Type} (k : result bytes (list InstallStatusDto) -> gprog A) F : (forall e, tame (k (Err e))) ->
  (forall F' l, leads F F' -> Forall (said F') l -> safe (k (Ok l)) [] F') -> safe (gdo InstallStatuses ≫= k) [] F.
Proof. intros He Hk. cbn. intros F' Hl. split; [intros e; apply He|intros l; by apply Hk]. Qed.
Lemma safe_change own f own' F : (forall F', leads F F' -> good F' own f own') -> safe (gdo (Change f)) own F.
Proof. intros Hf. cbn. intros F' Hl. exists own'. split; [by apply Hf|done]. Qed.
Lemma tame_run_install d p pk v : tame (run_install d p pk v).
Proof.
  apply tame_fork. intros F. apply safe_start; [intros e; tame_tac|]. intros F' i _ Hi Ha. apply (safe_change _ _ []).
  intros F1 [Hp _]. apply start_good; [done|]. by eapply prefix_lookup_Some.
Qed.

Lemma newest_snoc {A : Type} (l : list A) x n : (0 < n)%nat ->
  (if (n <? length (newest n l ++ [x]))%nat then drop (length (newest n l ++ [x]) - n) (newest n l ++ [x]) else newest n l ++ [x])
  = newest n (l ++ [x]).
Proof.
  intros Hn. unfold newest. rewrite !length_app, length_drop. cbn [length].
  destruct (decide (length l < n)%nat) as [Hs|Hs].
  - replace (length l - n)%nat with 0%nat by lia. rewrite drop_0. replace (length l + 1 - n)%nat with 0%nat by lia. rewrite drop_0.
    assert ((n <? length l - 0 + 1)%nat = false) as -> by (apply Nat.ltb_ge; lia). done.
  - assert ((n <? length l - (length l - n) + 1)%nat = true) as -> by (apply Nat.ltb_lt; lia).
    rewrite !drop_app_le by (rewrite ?length_drop; lia). rewrite drop_drop. f_equal. f_equal. lia.
Qed.
Lemma find_status_said F i l s : Forall (said F) l -> find_status i l = Some s -> said F s /\ is_id s = i.
Proof.
  intros Hl H. apply find_some in H as [Hin Hi]. rewrite Forall_forall in Hl. split; [apply Hl; by apply list_elem_of_In|by apply Z.eqb_eq].
Qed.
Lemma poll_good F now l : Forall (said F) l -> good F [] (on_installs_result now (Ok l)) [].
Proof.
  intros Hl w recs Ht. pose proof Ht as (H1 & H2 & H3). unfold on_installs_result. destruct (install_watch w) as [x|] eqn:Ex.
  2: { by exists recs. }
  destruct (find_status _ _) as [s|] eqn:Es; [|by exists recs].
  destruct (find_status_said F _ l s Hl Es) as [Hs Hi]. destruct (is_finished s) eqn:Ef; cbn [negb].
  2: { exists recs. destruct (dialog w); by (split; [exact Ht|]). }
  exists (recs ++ [(watch_id x, record_of now x s)]). destruct (H3 x eq_refl) as [_ Hx].
  destruct Hs as [Hs1 [Hs2 Hs3]]. rewrite Hi in Hs3. rewrite Hx in Hs3. injection Hs3 as Ed Esrc.
  split.
  - split_and!.
    + cbn. rewrite H1. unfold record. rewrite fmap_app. by apply newest_snoc; unfold HISTORY_CAP; lia.
    + apply Forall_app. split; [done|]. apply Forall_singleton. exists s. cbn. split_and!; try done.
      split_and!; try done. by rewrite Hi, Hx, Ed, Esrc.
    + done.
  - unfold watching. cbn. rewrite Ex. cbn. rewrite fmap_app. cbn. by rewrite (comm (++)).
Qed.
Lemma tame_poll_installs : tame poll_installs.
Proof.
  intros F. apply safe_statuses.
  - intros e. apply tame_bind; [by apply tame_do|]. intros now. apply tame_quiet. intros w.
    assert (on_installs_result now (Err e) w = w) as -> by (unfold on_installs_result; by destruct (install_watch w)). done.
  - intros F' l _ Hs. cbn. intros now. apply (safe_change _ _ []). intros F1 Hl1. apply poll_good. eapply Forall_impl; [done|]. intros s. by apply said_more.
Qed.

Lemma tame_uninstall d p path : tame (uninstall_and_retry d p path).
Proof.
  apply tame_fork, tame_bind; [by apply tame_do|]. intros [u|e]; [apply tame_run_install|apply tame_dialog].
Qed.
Lemma tame_poll_item n i l : tame (poll_item n i l).
Proof.
  induction n as [|n IH]; cbn [poll_item]; [apply tame_ret|]. apply tame_bind; [by apply tame_do|]. intros r.
  apply tame_bind; [apply tame_row|]. intros _. by destruct (match find_status _ _ with Some _ => _ | None => _ end); [apply tame_ret|].
Qed.
Lemma tame_run_batch n d items : tame (run_batch n d items).
Proof.
  apply tame_fork, tame_bind; [|intros; apply tame_ret]. induction items as [|x items IH]; cbn [batch_items]; [apply tame_ret|].
  apply tame_bind; [by apply tame_do|]. intros [i|e].
  - apply tame_bind; [apply tame_poll_item|]. intros []; [done|apply tame_ret].
  - apply tame_bind; [apply tame_row|done].
Qed.
Lemma tame_run_qr n : tame (run_qr_pair n).
Proof.
  apply tame_fork, tame_bind; [by apply tame_do|]. intros [v|e]; [|apply tame_dialog]. apply tame_bind; [apply tame_dialog|]. intros _.
  apply tame_bind; [|intros; apply tame_ret]. induction n as [|n IH]; cbn [poll_pairing]; [apply tame_ret|].
  apply tame_bind; [by apply tame_do|]. intros [s|e]; [|done].
  repeat (case_match; [apply tame_bind; [apply tame_dialog|intros; apply tame_ret]|]). done.
Qed.
#[local] Hint Resolve tame_run_install tame_uninstall tame_run_batch tame_run_qr tame_pick_for_install tame_install_apk : tame.

(** The transfers. *)
Lemma tame_policy : tame transfer_policy.
Proof. unfold transfer_policy. tame_tac. Qed.
#[local] Hint Resolve tame_policy : tame.
Lemma tame_tree_result a r : tame (on_tree_result a r).
Proof. unfold on_tree_result, AppWindow.message. tame_tac. Qed.
#[local] Hint Resolve tame_tree_result : tame.
Lemma tame_enqueue_push d l r : tame (AppTransfers.enqueue_push d l r).
Proof. unfold AppTransfers.enqueue_push. tame_tac. Qed.
Lemma tame_enqueue_pull d l r : tame (AppTransfers.enqueue_pull d l r).
Proof. unfold AppTransfers.enqueue_pull. tame_tac. Qed.
Lemma tame_enqueue_tree d l r : tame (enqueue_tree d l r).
Proof. unfold enqueue_tree, AppWindow.message. tame_tac. Qed.
Lemma tame_copy_on d a b : tame (copy_on_device d a b).
Proof. unfold copy_on_device. tame_tac. Qed.
Lemma tame_move_on d a b : tame (move_on_device d a b).
Proof. unfold move_on_device. tame_tac. Qed.
#[local] Hint Resolve tame_enqueue_push tame_enqueue_pull tame_enqueue_tree tame_copy_on tame_move_on : tame.
Lemma tame_paste_snapshot s : tame (paste_snapshot s).
Proof. unfold paste_snapshot, paste_tree, enqueue_one. tame_tac. Qed.
Lemma tame_entries ps : tame (entries_of_paths ps).
Proof. induction ps as [|p ps IH]; cbn [entries_of_paths]; [apply tame_ret|]. unfold entry_of_path. tame_tac; done. Qed.
#[local] Hint Resolve tame_paste_snapshot tame_entries : tame.
Lemma tame_copy_each {A : Type} (f : A -> gprog (bytes * result bytes unit)) l n e : (forall x, tame (f x)) -> tame (copy_each f l n e).
Proof.
  intros Hf. revert n e. induction l as [|x l IH]; intros n e; cbn [copy_each]; [apply tame_ret|].
  apply tame_bind; [done|]. intros [m [u|err]]; apply IH.
Qed.
Lemma tame_try_each f l n e : (forall p, changes (f p) = false) -> tame (try_each f l n e).
Proof.
  intros Hf. revert n e. induction l as [|x l IH]; intros n e; cbn [try_each]; [apply tame_ret|].
  apply tame_bind; [by apply tame_do|]. intros [u|err]; apply IH.
Qed.
Lemma tame_cancel l n e : tame (cancel_each l n e).
Proof. revert n e. induction l as [|x l IH]; intros n e; cbn [cancel_each]; [apply tame_ret|]. apply tame_bind; [by apply tame_do|]. intros [u|err]; apply IH. Qed.
#[local] Hint Resolve tame_cancel : tame.
#[local] Hint Extern 2 (tame (copy_each _ _ _ _)) => (apply tame_copy_each; intros ?; unfold copy_local) : tame.
#[local] Hint Extern 2 (tame (try_each _ _ _ _)) => (by apply tame_try_each) : tame.

Lemma tame_send d t ps : tame (send_paths d t ps).
Proof. unfold send_paths. tame_tac. Qed.
Lemma tame_copy_paths a d ps : tame (copy_paths a d ps).
Proof.
  unfold copy_paths, report_local_copies, AppWindow.message. apply tame_bind; [|intros [n e]; tame_tac].
  apply tame_copy_each. intros x. unfold copy_local. tame_tac.
Qed.
#[local] Hint Resolve tame_send tame_copy_paths : tame.
Lemma tame_copy_to_downloads es : tame (copy_to_downloads es).
Proof.
  unfold copy_to_downloads, AppWindow.message. tame_tac.
  apply tame_copy_each. intros [s e]. unfold copy_local. tame_tac.
Qed.
#[local] Hint Resolve tame_copy_to_downloads : tame.
Lemma tame_file_event e : tame (on_file_event e).
Proof.
  unfold on_file_event, open_entry, trash_entries, copy, paste, paths_from_system, upload, pick_for_upload, NO_PHONE, AppTransfers.download,
    on_dropped_paths, on_dropped_onto_folder, on_dragged_onto_folder, toggle_pause, cancel_transfers, AppWindow.message.
  destruct e; tame_tac.
Qed.
Lemma tame_dialog_result n r : tame (on_dialog_result n r).
Proof.
  unfold on_dialog_result, close, on_phone, create_folder, rename_entry, trash_entries, AppTransfers.delete_permanently,
    copy_apk_to_device, run_pair, run_connect, pairing_step.
  destruct r; tame_tac.
Qed.

(** ** The invariant *)

Fixpoint all_safe (F : facts) (ts : list (gprog unit)) (owns : list (list Z)) : Prop :=
  match ts, owns with
  | [], [] => True
  | t :: ts, own :: owns => safe t own F /\ all_safe F ts owns
  | _, _ => False
  end.
Lemma all_safe_more F F' ts : leads F F' -> forall owns, all_safe F ts owns -> all_safe F' ts owns.
Proof.
  intros Hl. induction ts as [|t ts IH]; intros [|own owns]; cbn; try done. intros [Ht Hts]. split; [by eapply safe_more|by apply IH].
Qed.
Lemma all_safe_lookup F ts : forall owns i p, all_safe F ts owns -> ts !! i = Some p -> exists own, owns !! i = Some own /\ safe p own F.
Proof.
  induction ts as [|t ts IH]; intros [|own owns] [|i] p; cbn; try done.
  - intros [Ht _] [= <-]. by exists own.
  - intros [_ Hts] Hp. by apply IH.
Qed.
Lemma all_safe_insert F ts p own : safe p own F -> forall owns i, all_safe F ts owns -> all_safe F (<[i := p]> ts) (<[i := own]> owns).
Proof.
  intros Hp. induction ts as [|t ts IH]; intros [|own' owns] [|i]; cbn; try done.
  - by intros [_ Hts].
  - intros [Ht Hts]. split; [done|by apply IH].
Qed.
Lemma all_safe_delete F ts : forall owns i, all_safe F ts owns -> all_safe F (delete i ts) (delete i owns).
Proof.
  induction ts as [|t ts IH]; intros [|own owns] [|i]; cbn; try done; [by intros [_ Hts]|].
  intros [Ht Hts]. split; [done|by apply IH].
Qed.
Lemma all_safe_app F ts ts' : forall owns owns', all_safe F ts owns -> all_safe F ts' owns' -> all_safe F (ts ++ ts') (owns ++ owns').
Proof. induction ts as [|t ts IH]; intros [|own owns] owns'; cbn; try done. intros [Ht Hts] H. split; [done|by apply IH]. Qed.

Definition numbers (owns : list (list Z)) (w : Win) (recs : list (Z * InstallRecord)) : list Z := concat owns ++ watching w ++ recs.*1.
Record daemon_inv (n : Z) (F : facts) (d : world) : Prop := mkDaemonInv {
  di_world : world_ok n d; di_next : next_install_id (st d) = zlen (asked F); di_now : st d ∈ past F;
  di_past : Forall (honest (asked F)) (past F) }.
Record window_inv (F : facts) (tasks : list (gprog unit)) (w : Win) (owns : list (list Z)) (recs : list (Z * InstallRecord)) : Prop := mkWindowInv {
  wi_safe : all_safe F tasks owns; wi_truth : truth F w recs;
  wi_once : NoDup (numbers owns w recs); wi_known : Forall (fun i => 0 <= i < zlen (asked F)) (numbers owns w recs) }.
Definition joint_inv (n : Z) (j : joint) : Prop :=
  daemon_inv n (j_facts j) (j_daemon j) /\ exists owns recs, window_inv (j_facts j) (j_tasks j) (j_win j) owns recs.

Lemma window_inv_more F F' ts w owns recs : leads F F' -> window_inv F ts w owns recs -> window_inv F' ts w owns recs.
Proof.
  intros Hl [H1 H2 H3 H4]. split; [|by eapply truth_more|done|].
  - by eapply all_safe_more.
  - eapply Forall_impl; [done|]. intros i Hi. destruct Hl as [Hp _]. apply prefix_length in Hp. unfold zlen in *. lia.
Qed.

Definition next_facts (e : event) (F : facts) (d : world) : facts := mkFacts (asked_after e d (asked F)) (past F ++ [st (exec e d)]).
Lemma next_leads e F d : leads F (next_facts e F d).
Proof. split; cbn; [apply asked_more|set_solver]. Qed.
Lemma daemon_inv_step e n F d : n < 2 ^ 64 - 1 -> daemon_inv n F d -> daemon_inv (n + 1) (next_facts e F d) (exec e d).
Proof.
  intros Hn [H1 H2 H3 H4]. pose proof H4 as H5. rewrite Forall_forall in H5.
  destruct (exec_honest e n d (asked F) Hn H1 H2 (H5 _ H3)) as [E1 E2]. split; cbn.
  - by apply exec_ok.
  - done.
  - set_solver.
  - apply Forall_app. split; [|by apply Forall_singleton]. eapply Forall_impl; [done|]. intros s. apply honest_more, asked_more.
Qed.
Lemma daemon_step_inv e n j : n < 2 ^ 64 - 1 -> joint_inv n j -> joint_inv (n + 1) (daemon_step e j).
Proof.
  intros Hn [Hd (owns & recs & Hw)]. split; [by apply daemon_inv_step|]. exists owns, recs. eapply window_inv_more; [|done]. apply next_leads.
Qed.
Lemma joint_inv_later n m j : n <= m -> joint_inv n j -> joint_inv m j.
Proof. intros Hn [[[Hb H1] H2 H3 H4] Hw]. split; [|done]. split; try done. split; [lia|done]. Qed.

Lemma submseteq_NoDup {A : Type} (l l' : list A) : l ⊆+ l' -> NoDup l' -> NoDup l.
Proof. intros [k ->]%submseteq_Permutation [H _]%NoDup_app. done. Qed.

(** One task goes on: its numbers are [own'] now. *)
Lemma window_inv_task F ts w owns recs i own own' p' w' recs' started :
  window_inv F ts w owns recs -> owns !! i = Some own ->
  safe p' own' F -> all_safe F started (replicate (length started) []) -> truth F w' recs' ->
  own' ++ watching w' ++ recs'.*1 ⊆+ own ++ watching w ++ recs.*1 ->
  exists owns', window_inv F (<[i := p']> ts ++ started) w' owns' recs'.
Proof.
  intros [H1 H2 H3 H4] Hi Hs Hst Ht Hn. exists (<[i := own']> owns ++ replicate (length started) []).
  assert (Hsub : numbers (<[i := own']> owns ++ replicate (length started) []) w' recs' ⊆+ numbers owns w recs).
  { unfold numbers. rewrite concat_app. assert (concat (replicate (length started) ([] : list Z)) = []) as ->
      by (clear; by induction (length started)).
    rewrite app_nil_r. rewrite <- (list_insert_id owns i own Hi) at 2.
    assert (Hc : forall x, concat (<[i := x]> owns) ≡ₚ x ++ concat (delete i owns)).
    { intros x. rewrite insert_take_drop by (by eapply lookup_lt_Some). rewrite delete_take_drop, !concat_app. cbn. solve_Permutation. }
    rewrite !Hc. rewrite <- !(assoc_L (++)). rewrite !(Permutation_app_swap_app _ (concat _)). by apply submseteq_skips_l. }
  split; [|done| |].
  - apply all_safe_app; [by apply all_safe_insert|done].
  - by eapply submseteq_NoDup.
  - rewrite Forall_forall in H4 |- *. intros x Hx. apply H4. by eapply elem_of_submseteq.
Qed.

Lemma window_inv_end F ts w owns recs i : window_inv F ts w owns recs -> window_inv F (delete i ts) w (delete i owns) recs.
Proof.
  intros [H1 H2 H3 H4].
  assert (Hsub : numbers (delete i owns) w recs ⊆+ numbers owns w recs).
  { unfold numbers. apply submseteq_skips_r. destruct (owns !! i) as [own|] eqn:Hi.
    2: { rewrite delete_take_drop. apply lookup_ge_None in Hi. rewrite take_ge, drop_ge by lia. by rewrite app_nil_r. }
    rewrite delete_take_drop. rewrite <- (take_drop_middle owns i own Hi) at 3. rewrite !concat_app. cbn. apply submseteq_skips_l. by apply submseteq_inserts_l. }
  split; [by apply all_safe_delete|done|by eapply submseteq_NoDup|].
  rewrite Forall_forall in H4 |- *. intros x Hx. apply H4. by eapply elem_of_submseteq.
Qed.
(** A task is given a number nobody has. *)
Lemma window_inv_fresh F ts w owns recs i own m p' : window_inv F ts w owns recs -> owns !! i = Some own -> safe p' (m :: own) F ->
  0 <= m < zlen (asked F) -> m ∉ numbers owns w recs -> window_inv F (<[i := p']> ts) w (<[i := m :: own]> owns) recs.
Proof.
  intros [H1 H2 H3 H4] Hi Hs Hm Hf.
  assert (Hp : numbers (<[i := m :: own]> owns) w recs ≡ₚ m :: numbers owns w recs).
  { unfold numbers. rewrite <- (take_drop_middle owns i own Hi) at 2. rewrite insert_take_drop by (by eapply lookup_lt_Some).
    rewrite !concat_app. cbn. solve_Permutation. }
  split; [by apply all_safe_insert|done|rewrite Hp; by constructor|rewrite Hp; by constructor].
Qed.

(** What the daemon answers is what it said. *)
Lemma statuses_said n F d : daemon_inv n F d -> Forall (said F) (dto_of <$> install_status_all (st d)).
Proof.
  intros [_ _ H3 H4]. rewrite Forall_forall in H4. specialize (H4 _ H3). apply Forall_fmap, Forall_forall. intros x Hx.
  unfold install_status_all in Hx. rewrite merge_sort_Permutation in Hx. apply list_elem_of_fmap in Hx as ([i y] & -> & Hx).
  apply elem_of_map_to_list in Hx. destruct (H4 i y Hx) as (E1 & E2 & E3). cbn. subst i. split_and!; [|done|done].
  exists (st d), y. by split_and!.
Qed.

Lemma gprog_cases {A : Type} (p : gprog A) :
  (exists a, p = GRet a) \/ (exists R (c : gcmd R) k, p = GDo c k) \/ (exists t k, p = Fork t k).
Proof. destruct p as [A a|A R c k|A t k]; [left; by exists a|right; left; by exists R, c, k|right; right; by exists t, k]. Qed.

Lemma more_time n F d : daemon_inv n F d -> daemon_inv (n + 1) F d.
Proof. intros [[Hb H1] H2 H3 H4]. split; try done. split; [lia|done]. Qed.
(** A command that does nothing to window and daemon, or changes the window well. *)
Lemma go_on n j i own own' p' w' owns recs recs' : daemon_inv n (j_facts j) (j_daemon j) ->
  window_inv (j_facts j) (j_tasks j) (j_win j) owns recs -> owns !! i = Some own -> safe p' own' (j_facts j) -> truth (j_facts j) w' recs' ->
  own' ++ watching w' ++ recs'.*1 ⊆+ own ++ watching (j_win j) ++ recs.*1 ->
  joint_inv (n + 1) (with_tasks (<[i := p']> (j_tasks j) ++ []) (mkJoint w' (j_tasks j) (j_daemon j) (j_facts j))).
Proof.
  intros Hd Hw Hi Hs Ht Hn. split; [by apply more_time|].
  destruct (window_inv_task _ _ _ _ _ i own own' p' w' recs' [] Hw Hi Hs I Ht Hn) as [owns' H]. by exists owns', recs'.
Qed.

Lemma start_answer dev path c ex len d i s : start_install dev path c ex len d = (Ok i, s) -> i = next_install_id d.
Proof. unfold start_install. repeat (case_match; [done|]). by intros [= <- _]. Qed.

Lemma served_inv {R : Type} v i n j (c : gcmd R) (k : R -> gprog unit) own owns recs : n < 2 ^ 64 - 1 ->
  daemon_inv n (j_facts j) (j_daemon j) -> window_inv (j_facts j) (j_tasks j) (j_win j) owns recs -> owns !! i = Some own ->
  safe (GDo c k) own (j_facts j) -> joint_inv (n + 1) (settle i (advance v (GDo c k) j)).
Proof.
  intros Hn Hd Hw Hi Hs. pose proof (wi_truth _ _ _ _ _ Hw) as Ht.
  destruct c; cbn in Hs; unfold advance, settle, serve_install;
    try (by (destruct j; apply (go_on n _ i own own _ _ owns recs recs); [..|apply Hs| |])).
  - set (e := Start device path (connected v) (file_exists v) (file_len v)). set (F' := next_facts e (j_facts j) (j_daemon j)).
    destruct (Hs F' (next_leads _ _ _)) as [He Hk].
    pose proof (daemon_inv_step e n _ _ Hn Hd) as Hd'. pose proof (window_inv_more _ F' _ _ _ _ (next_leads _ _ _) Hw) as Hw'.
    assert (Herr : forall x, joint_inv (n + 1) (with_tasks (<[i := k (Err x)]> (j_tasks j) ++ []) (daemon_step e j))).
    { intros x. split; [done|]. destruct (window_inv_task _ _ _ _ _ i own own (k (Err x)) (j_win j) recs [] Hw' Hi (He x) I (wi_truth _ _ _ _ _ Hw') (reflexivity _)) as [owns' H].
      by exists owns', recs. }
    destruct (lost v); [apply Herr|]. destruct (start_install device path _ _ _ _) as [[m|err] s'] eqn:E; cbn [fst]; [|apply Herr].
    split; [done|]. exists (<[i := m :: own]> owns), recs. cbn [with_tasks j_tasks j_win j_facts daemon_step]. rewrite app_nil_r.
    change (window_inv F' (<[i := k (Ok m)]> (j_tasks j)) (j_win j) (<[i := m :: own]> owns) recs).
    apply start_answer in E as Em. destruct Hd as [[Hb _] Hnext _ _].
    assert (Ea : asked F' = asked (j_facts j) ++ [(device, path)]) by (unfold F', next_facts, e; cbn; by rewrite E).
    assert (Hm : m = zlen (asked (j_facts j))) by congruence.
    apply window_inv_fresh; [done|done| | |].
    + apply Hk; [lia|]. rewrite Ea, Hm. unfold zlen. by rewrite Nat2Z.id, lookup_app_r, Nat.sub_diag.
    + rewrite Ea, zlen_app. change (zlen [(device, path)]) with 1. lia.
    + intros Hin. pose proof (wi_known _ _ _ _ _ Hw) as Hkn. rewrite Forall_forall in Hkn. specialize (Hkn m Hin). cbn in Hkn. lia.
  - destruct (Hs _ (leads_refl _)) as [He Hk]. destruct j as [w ts d F]. apply (go_on n _ i own own _ _ owns recs recs); try done.
    cbn. destruct (lost v); [apply He|]. apply Hk. by eapply statuses_said.
  - destruct (Hs _ (leads_refl _)) as (own' & Hg & Hk). destruct (Hg (j_win j) recs Ht) as (recs' & Ht' & Hn').
    exact (go_on n j i own own' (k tt) (f (j_win j)) owns recs recs' Hd Hw Hi Hk Ht' Hn').
Qed.

Lemma task_step_inv v i n j : n < 2 ^ 64 - 1 -> joint_inv n j -> joint_inv (n + 1) (task_step v i j).
Proof.
  intros Hn Hj. unfold task_step. destruct (j_tasks j !! i) as [p|] eqn:Hp; [|by apply (joint_inv_later n); [lia|]].
  destruct Hj as [Hd (owns & recs & Hw)]. pose proof Hw as [Hw1 Hw2 Hw3 Hw4].
  destruct (all_safe_lookup _ _ _ _ _ Hw1 Hp) as (own & Hi & Hs).
  destruct (gprog_cases p) as [[a ->]|[(R & c & k & ->)|(t & k & ->)]].
  - split; [by apply more_time|]. exists (delete i owns), recs. cbn. rewrite app_nil_r. by apply window_inv_end.
  - by apply (served_inv v i n j c k own owns recs).
  - destruct Hs as [Ht Hk]. split; [by apply more_time|].
    destruct (window_inv_task _ _ _ _ _ i own own k (j_win j) recs [t] Hw Hi Hk (conj (Ht _ (leads_refl _)) I) Hw2 (reflexivity _)) as [owns' H].
    by exists owns', recs.
Qed.

#[local] Hint Resolve tame_file_event tame_dialog_result tame_poll_installs : tame.
Lemma handle_inv n j h : tame h -> joint_inv n j -> joint_inv n (with_tasks (j_tasks j ++ [h]) j).
Proof.
  intros Hh [Hd (owns & recs & [H1 H2 H3 H4])]. split; [done|]. exists (owns ++ [[]]), recs.
  assert (Hn : numbers (owns ++ [[]]) (j_win j) recs = numbers owns (j_win j) recs) by (unfold numbers; rewrite concat_app; cbn; by rewrite app_nil_r).
  split; cbn; rewrite ?Hn; try done. apply all_safe_app; [done|]. split; [apply Hh|done].
Qed.
Lemma joint_step_inv n j e : n < 2 ^ 64 - 1 -> joint_inv n j -> joint_inv (n + 1) (joint_step j e).
Proof.
  intros Hn Hj. destruct e; cbn [joint_step handler_of];
    try (apply handle_inv; [eauto with tame nocore|apply (joint_inv_later n); [lia|done]]).
  - by apply task_step_inv.
  - by apply daemon_step_inv.
Qed.
Lemma opening_inv w : joint_inv 0 (opening w).
Proof.
  split.
  - split; cbn; [apply (run_ok []); by vm_compute|done|by left|]. apply Forall_singleton. intros i x Hx. change ((∅ : gmap Z InstallStatus) !! i = Some x) in Hx. by rewrite lookup_empty in Hx.
  - exists [], []. split; cbn; [done| |constructor|constructor]. by split_and!.
Qed.
Lemma joint_run_inv w es : zlen es < 2 ^ 64 -> joint_inv (zlen es) (joint_run w es).
Proof.
  induction es as [|e es IH] using rev_ind; intros Hl; [apply opening_inv|]. unfold joint_run. rewrite foldl_snoc.
  rewrite zlen_app in *. change (zlen [e]) with 1 in *. apply joint_step_inv; [lia|]. apply IH. lia.
Qed.

(** A status is found by its number. *)
Lemma find_status_of a s i : honest a s -> find_status i (dto_of <$> install_status_all s) = dto_of <$> installs s !! i.
Proof.
  intros H. assert (Hl : forall x, x ∈ install_status_all s <-> installs s !! id x = Some x).
  { intros x. unfold install_status_all. rewrite merge_sort_Permutation, list_elem_of_fmap. split.
    - intros ([j y] & -> & Hx). apply elem_of_map_to_list in Hx. cbn. by destruct (H j y Hx) as (-> & _).
    - intros Hx. exists (id x, x). split; [done|by apply elem_of_map_to_list]. }
  unfold find_status. destruct (List.find _ _) as [d|] eqn:E.
  - apply find_some in E as [Hin Hi]. apply list_elem_of_In, list_elem_of_fmap in Hin as (x & -> & Hx). apply Hl in Hx.
    apply Z.eqb_eq in Hi. cbn in Hi. subst i. by rewrite Hx.
  - destruct (installs s !! i) as [x|] eqn:Hx; [|done]. exfalso. destruct (H i x Hx) as (Ei & _).
    assert (E' : (is_id (dto_of x) =? i) = false); [|cbn in E'; by rewrite Ei, Z.eqb_refl in E'].
    apply (find_none _ _ E). apply list_elem_of_In, list_elem_of_fmap. exists x. split; [done|]. apply Hl. by rewrite Ei.
Qed.

(** C30: The install history is true and complete. Whatever the user does, however
    the tasks of the window interleave with each other, with the polls and with the
    pipelines of the daemon, and whichever answers are lost: the history
    lists, newest last and up to 200, ends of installs the daemon
    reported, no install twice, each with the phone and the file it was asked for
    and with the outcome and the reason the daemon gave; the watched
    install is one that was asked for and is not listed yet, and the next poll that
    reaches the daemon after it has ended lists it, shows its outcome and ends the watch. *)
Theorem installs_recorded (w0 : Win) (es : list joint_event) : zlen es < 2 ^ 64 ->
  let j := joint_run w0 es in let F := j_facts j in
  exists recs : list (Z * InstallRecord),
    install_history (j_win j) = newest HISTORY_CAP recs.*2
    /\ NoDup recs.*1
    /\ Forall (fun '(i, r) => exists d x, d ∈ past F /\ installs d !! i = Some x /\ finished x = true
         /\ asked F !! Z.to_nat i = Some (rec_device r, rec_source r)
         /\ rec_success r = bool_decide (state x = bs "Done")
         /\ rec_error r = if rec_success r then None else DaemonInstall.message x) recs
    /\ match install_watch (j_win j) with
       | None => True
       | Some x => (watch_id x ∉ recs.*1) /\ asked F !! Z.to_nat (watch_id x) = Some (watch_device x, watch_source x)
           /\ forall now y, installs (st (j_daemon j)) !! watch_id x = Some y -> finished y = true ->
              let w := on_installs_result now (Ok (dto_of <$> install_status_all (st (j_daemon j)))) (j_win j) in
              install_history w = newest HISTORY_CAP (recs.*2 ++ [record_of now x (dto_of y)])
              /\ dialog w = verdict x (dto_of y) /\ install_watch w = None
       end.
Proof.
  intros Hl j F. destruct (joint_run_inv w0 es Hl) as [[_ _ Hnow Hpast] (owns & recs & [_ (H1 & H2 & H3) Hn _])]. fold j F in Hnow, Hpast, H1, H2, H3, Hn.
  exists recs. apply NoDup_app in Hn as (_ & _ & Hn). apply NoDup_app in Hn as (_ & Hw & Hn). split_and!; [done|done| |].
  - eapply Forall_impl; [done|]. intros [i r] (s & [(d & x & Hd & Hx & ->) [_ Ha]] & Hi & Hf & E1 & E2 & E3 & E4).
    cbn [fst snd] in *. subst i. exists d, x. rewrite E1, E2, E3, E4. by split_and!.
  - destruct (install_watch (j_win j)) as [x|] eqn:Ex; [|done]. split_and!.
    + intros Hin. apply (Hw (watch_id x)); [|done]. unfold watching. rewrite Ex. by left.
    + by apply H3.
    + intros now y Hy Hf. unfold on_installs_result. rewrite Ex. rewrite Forall_forall in Hpast.
      rewrite (find_status_of (asked F)) by (by apply Hpast). rewrite Hy. cbn [fmap option_fmap option_map]. cbn [is_finished dto_of]. rewrite Hf. cbn.
      split_and!; [|done|done]. unfold record. rewrite H1. apply newest_snoc. unfold HISTORY_CAP. lia.
Qed.

(** ** A run *)

(** A phone that is there, and answers that do nothing. *)
Definition fine : env := mkEnv true (fun _ => true) 100%N false (fun _ => []) (granting 0).
Definition phone_window : Win := window (Some (bs "A")) (bs "/sdcard") [] None.
(** Everything one task does. *)
Definition goes_on (times : nat) : list joint_event := replicate times (GoOn fine 0).
Definition asks_for (path : bytes) : list joint_event := Answered 9 (ResInstallFromDevice path) :: goes_on 9.
Definition polled : list joint_event := InstallsPolled :: goes_on 4.
Definition carried_out (i : Z) (text : bytes) : list joint_event :=
  DaemonDoes <$> [Begin i; Copied i (Ok []); Pushed i (Some (mkOutput true [] [])); Committed i (PmOutput (mkOutput true text []))].

Definition one_install : list joint_event := asks_for (bs "/sdcard/a.apk") ++ polled ++ carried_out 0 (bs "Success") ++ polled.

Lemma installs_recorded_witness :
  let j := joint_run phone_window one_install in
  install_history (j_win j) = [mkRecord [] (bs "unknown") None (bs "/sdcard/a.apk") (bs "A") true None]
  /\ exists i, asked (j_facts j) !! Z.to_nat i = Some (bs "A", bs "/sdcard/a.apk").
Proof.
  intros j. assert (Hh : install_history (j_win j) = [mkRecord [] (bs "unknown") None (bs "/sdcard/a.apk") (bs "A") true None]) by (by vm_compute).
  split; [exact Hh|].
  destruct (installs_recorded phone_window one_install ltac:(by vm_compute)) as (recs & H1 & _ & H2 & _). fold j in H1, H2.
  rewrite Hh in H1. destruct recs as [|[i r] recs]; [done|]. apply Forall_cons in H2 as [(d & x & _ & _ & _ & Ha & _) _].
  destruct recs as [|e recs]; [|exfalso; revert H1; unfold newest, HISTORY_CAP; rewrite !length_fmap; cbn;
    intros H1; apply (f_equal length) in H1; cbn in H1; rewrite length_drop in H1; cbn in H1; rewrite length_fmap in H1; lia].
  cbn in H1. injection H1 as <-. exists i. exact Ha.
Defined.

(** ** What goes wrong *)

(** A batch says nothing: its card is closed when it starts, and without a card
    its rounds change nothing in the window, its history included. *)
Theorem batch_reports_nothing (answer : nat -> forall R, gcmd R -> R) (polls : nat) (d : bytes) (items : list BatchItem) (s : scene) :
  dialog (win (AppWindow.run answer (on_dialog_result polls ResInstallAll) s).2) = DlgNone
  /\ (dialog (win s) = DlgNone -> win (AppWindow.run answer (batch_items polls d items) s).2 = win s).
Proof.
  split.
  - cbn. unfold on_phone. destruct (phone (with_dialog DlgNone (win s))); done.
  - assert (Hset : forall l st w, dialog w = DlgNone -> set_row l st w = w) by (intros l st0 w Hw; unfold set_row; by rewrite Hw).
    assert (Hpoll : forall n i l s, dialog (win s) = DlgNone -> win (AppWindow.run answer (poll_item n i l) s).2 = win s).
    { clear s. intros n i l. induction n as [|n IH]; intros s Hs; cbn [poll_item]; [done|].
      rewrite grun_bind. cbn [gdo AppWindow.run perform fst snd win].
      rewrite grun_bind. cbn [gdo AppWindow.run perform fst snd win].
      destruct (match find_status _ _ with Some _ => _ | None => _ end); [cbn; by apply Hset|].
      rewrite IH; cbn [win]; by rewrite Hset. }
    revert s. induction items as [|x items IH]; intros s Hs; cbn [batch_items]; [done|].
    rewrite grun_bind. cbn [gdo AppWindow.run perform fst snd]. destruct (answer _ _ _) as [i|e].
    + rewrite grun_bind. specialize (Hpoll polls i (item_local x)).
      match goal with |- context [AppWindow.run answer (poll_item _ _ _) ?s1] => specialize (Hpoll s1 Hs); destruct (AppWindow.run answer (poll_item polls i (item_local x)) s1) as [over s2] end.
      cbn [snd win] in Hpoll. destruct over; [rewrite IH; congruence|done].
    + rewrite grun_bind. cbn [gdo AppWindow.run perform fst snd]. rewrite IH; cbn [win]; by rewrite Hset.
Qed.

(** An install that ended between two polls is forgotten when the next one starts. *)
Theorem unpolled_install_lost :
  let j := joint_run phone_window (asks_for (bs "/sdcard/a.apk") ++ carried_out 0 (bs "Success") ++ asks_for (bs "/sdcard/b.apk")
             ++ carried_out 1 (bs "Success") ++ polled ++ polled) in
  rec_source <$> install_history (j_win j) = [bs "/sdcard/b.apk"] /\ install_watch (j_win j) = None /\ length (asked (j_facts j)) = 2%nat.
Proof. by vm_compute. Qed.

(** The manifest of one APK, read late, is shown on the card of another. *)
Theorem card_of_another_apk :
  let info := mkApkInfo (bs "org.first") None None None None None [] None [] in
  let answer n R (c : gcmd R) : R := match c in gcmd R return R with ApkInfoOf p => Ok info | c => granting n _ c end in
  let s := (AppWindow.run answer (open_sideload (bs "/tmp/first.apk") (bs "A")) (scene_of phone_window)).2 in
  let s := (AppWindow.run answer (open_sideload (bs "/tmp/second.apk") (bs "A")) s).2 in
  exists c, dialog (win (run_task answer 0 s)) = DlgSideloadApk c /\ card_local c = bs "/tmp/second.apk" /\ card_info c = Some info.
Proof. eexists. split; [by vm_compute|]. by split. Qed.

(** An APK of this computer cannot be installed from the listing: with the disk
    open no phone is selected, and the handler asks for one. *)
Theorem local_apk_never_installed (answer : nat -> forall R, gcmd R -> R) (lower debug : bytes -> bytes) (g : taken) (e : DirEntry) (s : scene) :
  shows lower debug (app (win s)) g -> local_mode (target (browser (app (win s)))) = true ->
  exists t, last (toasts (win (AppWindow.run answer (install_apk e) s).2)) = Some t /\ t_message t = bs "Pick a phone in the sidebar to install on".
Proof.
  intros Hs Hl. apply shows_sound in Hs as [[Hc _] _]. unfold coherent in Hc.
  assert (Hp : phone (win s) = None).
  { unfold phone, target_device. destruct (app_selection (app (win s))) as [[d|p]|]; try done. destruct Hc as (_ & _ & Hc). congruence. }
  unfold install_apk. rewrite grun_bind. cbn [gdo AppWindow.run perform fst snd]. rewrite Hl, Hp. eexists. split; [cbn; apply last_stack_push|done].
Qed.

(** The pairing dialog comes back when the phone has connected, also over another dialog. *)
Theorem dismissed_pairing_returns :
  let connected : json := fun k => if bool_decide (k = bs "state") then Some (bs "connected") else None in
  let answer n R (c : gcmd R) : R := match c in gcmd R return R with QrStatus => Ok connected | c => granting n _ c end in
  dialog (win (AppWindow.run answer (poll_pairing 1) (scene_of (with_dialog DlgNewFolder phone_window))).2) = DlgConnectWifi (Paired []).
Proof. by vm_compute. Qed.

(** ** Addresses *)

Lemma all_chars_more (f g : Z -> bool) s : (forall b, f b = true -> g b = true) -> all_chars f s = true -> all_chars g s = true.
Proof.
  intros Hfg. unfold all_chars. rewrite !forallb_forall. intros H c Hc. specialize (H c Hc). unfold char_is in *.
  destruct c as [|b [|]]; try done. by apply Hfg.
Qed.
Lemma chars_alnum f s : (forall b, f b = true -> alnum_or (bs ".-_:%") b = true) -> all_chars f s = true -> (91 ∉ s) /\ (93 ∉ s).
Proof.
  intros Hf H%all_chars_bytes. rewrite Forall_forall in H. split; intros Hin; specialize (Hf _ (H _ Hin)); by vm_compute in Hf.
Qed.
Lemma in_range_alpha b : in_range 65 70 b = true \/ in_range 97 102 b = true -> is_alpha b = true.
Proof. unfold is_alpha, in_range. rewrite orb_true_iff, !andb_true_iff, !Z.leb_le. lia. Qed.
Lemma v6_alnum b : v6_char b = true -> alnum_or (bs ".-_:%") b = true.
Proof.
  unfold v6_char, alnum_or, is_alnum. intros H. apply orb_true_iff. apply orb_true_iff in H as [H|H%Z.eqb_eq].
  - apply orb_true_iff in H as [H|H%Z.eqb_eq].
    + left. apply orb_true_iff in H as [H|H]; [apply orb_true_iff in H as [H|H]|].
      * rewrite H. by destruct (is_alpha b).
      * rewrite in_range_alpha by auto. by destruct (is_digit b).
      * rewrite in_range_alpha by auto. by destruct (is_digit b).
    + subst b. right. by vm_compute.
  - subst b. right. by vm_compute.
Qed.
Lemma host_alnum b : host_char b = true -> alnum_or (bs ".-_:%") b = true.
Proof.
  unfold host_char, alnum_or. intros H. apply orb_true_iff. apply orb_true_iff in H as [H|H]; [by left|right].
  apply bool_decide_eq_true in H. apply bool_decide_eq_true. revert H. change (b ∈ [46; 45; 95; 37] -> b ∈ [46; 45; 95; 58; 37]). set_solver.
Qed.

Definition bracketed (address : bytes) : Prop := exists host port, rsplit_once (bs ":") address = Some (host, port)
  /\ (has_prefix (bs "[") host = true \/ is_Some (strip_suffix (bs "]") host)).
(** An address without brackets that the pairing dialog takes is one the daemon takes. *)
Theorem addresses_reach_daemon (address code : bytes) : validate_pair_input address code = Ok tt -> ~ bracketed address ->
  validate_host_port address = Ok tt.
Proof.
  unfold validate_pair_input. destruct (address_is_well_formed address) eqn:Ha; cbn [negb]; [|done]. intros _ Hb.
  unfold validate_host_port, host_port_ok. unfold address_is_well_formed in Ha.
  destruct (rsplit_once (bs ":") address) as [[host port]|] eqn:E; [|done].
  destruct (bool_decide (port = []) || negb (forallb is_digit port)); [done|]. destruct (port_of port) as [n|]; [|done].
  destruct (n =? 0); [done|]. destruct (bool_decide (host = [])) eqn:Eh; [done|]. apply bool_decide_eq_false in Eh.
  destruct (has_prefix (bs "[") host) eqn:Ep; [destruct Hb; exists host, port; auto|].
  destruct (bool_decide (is_Some (strip_suffix (bs "]") host))) eqn:Es; [destruct Hb; exists host, port; apply bool_decide_eq_true in Es; auto|].
  cbn [orb] in Ha.
  assert (Hn : host_name host = host).
  { unfold host_name, strip_pre. rewrite Ep, Es. done. }
  assert (Hc : exists f, (forall b, f b = true -> alnum_or (bs ".-_:%") b = true) /\ all_chars f host = true).
  { destruct (bool_decide (58 ∈ host)); [apply andb_true_iff in Ha as [_ Ha]; exists v6_char|exists host_char]; (split; [|done]);
      [apply v6_alnum|apply host_alnum]. }
  destruct Hc as (f & Hf & Hc). destruct (chars_alnum f host Hf Hc) as [H1 H2]. rewrite Hn, (all_chars_more f _ host Hf Hc).
  rewrite (bool_decide_eq_false_2 (91 ∈ host)), (bool_decide_eq_false_2 (93 ∈ host)) by done.
  rewrite bool_decide_eq_true_2 by done. done.
Qed.
Lemma addresses_reach_daemon_witness : validate_host_port (bs "192.168.1.20:37001") = Ok tt.
Proof.
  apply (addresses_reach_daemon (bs "192.168.1.20:37001") (bs "123456")); [by vm_compute|].
  intros (host & port & E & H). vm_compute in E. injection E as <- <-. vm_compute in H. destruct H as [H|[x H]]; discriminate H.
Defined.
(** Full addresses of version 6 are refused, which the daemon takes; in brackets anything is taken. *)
Theorem pairing_dialog_differs :
  address_is_well_formed (bs "2001:db8:0:0:0:0:0:1:37001") = false /\ validate_host_port (bs "2001:db8:0:0:0:0:0:1:37001") = Ok tt
  /\ address_is_well_formed (bs "[no host]:37001") = true /\ validate_host_port (bs "[no host]:37001") <> Ok tt.
Proof. by vm_compute. Qed.
