(* ===== verification/AppPackages.v ===== *)
(** * Package changes from the window

    The part of [adb-gui/src/app.rs] around the package view: opening it, the figures of
    the sidebar, asking before a batch, sending it and taking its results. The
    view and the ledger are those of [Debloat], what is browsed that of
    [AppListing]. Calls of the daemon are in flight until an event answers
    them, in any order. *)

From stdpp Require Import base list strings sorting.
From S2P Require Import Prelude RustStd Text Packages GuiModels Debloat DebloatSpec Browser AppListing.

#[global] Instance PackageAction_eq : EqDecision PackageAction.
Proof. solve_decision. Defined.

(** ** State *)

Inductive Pane := PaneBrowser | PaneDebloat | PaneTools.

Record DebloatPackage := mkShown {
  dp_id : bytes; dp_description : option bytes; risk : option Removal; dp_system : bool; dp_needed_by : list bytes }.
Record DebloatFailure := mkFailure { fail_id : bytes; fail_message : option bytes }.

(** The dialogs these handlers open; the code of a failure is left out. *)
Inductive PkDialog :=
| PkNone
| DebloatConfirm (device : bytes) (action : PackageAction) (actions : list PackageRequest) (packages : list DebloatPackage)
    (breaks : list bytes) (undo : bool)
| DebloatWorking (count : nat)
| DebloatResult (action : PackageAction) (done : list bytes) (failed : list DebloatFailure)
| PkMessage (title body : bytes).

(** A call of the daemon that has not been answered. *)
Inductive flight :=
| ReadView (device : bytes)
| ReadCount (device : bytes)
| Batch (device : bytes) (packages : list bytes) (actions : list PackageRequest).

(** [asked] and [sent] keep the confirmations that were opened and the batches
    that were sent. [told] are the toasts. *)
Record Pk := mkPk {
  app : App; pane : Pane; view : Debloat; label : bytes; status : option bytes; counts : list (bytes * Counts); dialog : PkDialog;
  told : list bytes; ledger : option bytes; flights : list flight; asked : list (list PackageRequest); sent : list (bytes * list PackageRequest) }.

Definition with_app (a : App) (s : Pk) : Pk :=
  mkPk a (pane s) (view s) (label s) (status s) (counts s) (dialog s) (told s) (ledger s) (flights s) (asked s) (sent s).
Definition with_view (p : Pane) (v : Debloat) (l : bytes) (st : option bytes) (s : Pk) : Pk :=
  mkPk (app s) p v l st (counts s) (dialog s) (told s) (ledger s) (flights s) (asked s) (sent s).
Definition with_counts (c : list (bytes * Counts)) (s : Pk) : Pk :=
  mkPk (app s) (pane s) (view s) (label s) (status s) c (dialog s) (told s) (ledger s) (flights s) (asked s) (sent s).
Definition with_dialog (d : PkDialog) (s : Pk) : Pk :=
  mkPk (app s) (pane s) (view s) (label s) (status s) (counts s) d (told s) (ledger s) (flights s) (asked s) (sent s).
Definition tell (t : bytes) (s : Pk) : Pk :=
  mkPk (app s) (pane s) (view s) (label s) (status s) (counts s) (dialog s) (told s ++ [t]) (ledger s) (flights s) (asked s) (sent s).
Definition with_ledger (f : option bytes) (s : Pk) : Pk :=
  mkPk (app s) (pane s) (view s) (label s) (status s) (counts s) (dialog s) (told s) f (flights s) (asked s) (sent s).
Definition with_flights (f : list flight) (s : Pk) : Pk :=
  mkPk (app s) (pane s) (view s) (label s) (status s) (counts s) (dialog s) (told s) (ledger s) f (asked s) (sent s).
Definition ask_for (d : PkDialog) (actions : list PackageRequest) (s : Pk) : Pk :=
  mkPk (app s) (pane s) (view s) (label s) (status s) (counts s) d (told s) (ledger s) (flights s) (asked s ++ [actions]) (sent s).
Definition send (device : bytes) (packages : list bytes) (actions : list PackageRequest) (s : Pk) : Pk :=
  mkPk (app s) (pane s) (view s) (label s) (status s) (counts s) (dialog s) (told s) (ledger s)
    (flights s ++ [Batch device packages actions]) (asked s) (sent s ++ [(device, actions)]).
Definition fly (f : option flight) (s : Pk) : Pk := match f with Some f => with_flights (flights s ++ [f]) s | None => s end.

Definition pk_new : Pk := mkPk app_new PaneBrowser new_debloat [] None [] PkNone [] None [] [] [].

(** ** Opening the view *)

Definition name_of (serial : bytes) (s : Pk) : bytes :=
  default serial (display_name <$> List.find (fun d => bool_decide (AppListing.serial d = serial)) (devices (app s))).
Definition open_debloat_for (serial : bytes) (s : Pk) : Pk :=
  let '(ask, v) := Debloat.set_device (Some serial) (view s) in
  let st := if bool_decide (Debloat.device (view s) = Some serial) then status s else None in
  fly (ReadView <$> ask) (with_view PaneDebloat v (name_of serial s) st s).
Definition open_debloat (s : Pk) : Pk :=
  match target_device (app s) with
  | None => with_dialog (PkMessage (bs "No phone selected") (bs "Pick a device in the sidebar first, then debloat it.")) s
  | Some d => open_debloat_for d s
  end.
Definition toggle_pane (s : Pk) : Pk :=
  match pane s with
  | PaneDebloat => with_view PaneBrowser (view s) (label s) (status s) s
  | _ => open_debloat s
  end.

(** ** The figures of the sidebar *)

Definition has_count (d : bytes) (s : Pk) : bool := existsb (fun c => bool_decide (fst c = d)) (counts s).
Definition refresh_debloat_count (d : bytes) (s : Pk) : Pk := if has_count d s then s else fly (Some (ReadCount d)) s.
Definition drop_count (d : bytes) (s : Pk) : Pk := with_counts (List.filter (fun c => negb (bool_decide (fst c = d))) (counts s)) s.

(** [set_devices], which asks for the figures of the phones when the list is another one. *)
Definition on_devices (ds : list DeviceEntry) (s : Pk) : Pk :=
  let s' := if bool_decide (ds = devices (app s)) then s else fold_left (fun s d => refresh_debloat_count (AppListing.serial d) s) ds s in
  with_app (set_devices ds (app s)) s'.

Section Packages.
(** The bundled list, [str::to_lowercase] and the JSON codec of the ledger. *)
Context (list_get : bytes -> option Entry) (to_lowercase : bytes -> bytes)
  (to_json : list DebloatRecord -> option bytes) (from_json : bytes -> option (list DebloatRecord)).

(** ** Asking *)

Definition shown_of (r : Row) : DebloatPackage := mkShown (id r) (r_description r) (r_removal r) (system_ r) (r_needed_by r).
Definition PICK_A_PHONE : bytes := bs "Pick a phone in the sidebar first".

Definition confirm_debloat (a : PackageAction) (packages : list bytes) (undo : bool) (s : Pk) : Pk :=
  match target_device (app s) with
  | None => tell PICK_A_PHONE s
  | Some device =>
      match packages with
      | [] => s
      | _ =>
          let actions := requests a packages in
          ask_for (DebloatConfirm device a actions (shown_of <$> rows_for packages (view s))
                     (broken_by_removing (rows (view s)) packages) undo) actions s
      end
  end.

Definition NOTHING_TO_PUT_BACK : bytes := bs "Nothing on this phone to put back".
Definition confirm_undo (s : Pk) : Pk :=
  match target_device (app s) with
  | None => tell PICK_A_PHONE s
  | Some device =>
      match Debloat.confirm_undo from_json device (ledger s) with
      | [] => tell NOTHING_TO_PUT_BACK s
      | actions =>
          let packages := package <$> actions in
          ask_for (DebloatConfirm device Enable actions (shown_of <$> rows_for packages (view s))
                     (broken_by_removing (rows (view s)) packages) true) actions s
      end
  end.

(** ** Carrying out *)

Definition run_debloat (actions : list PackageRequest) (s : Pk) : Pk :=
  match target_device (app s), actions with
  | None, _ | _, [] => s
  | Some device, _ => send device (package <$> actions) actions (with_dialog (DebloatWorking (length actions)) s)
  end.
(** [DialogResult::DebloatApply], the button of the confirmation. *)
Definition apply_dialog (s : Pk) : Pk :=
  match dialog s with
  | DebloatConfirm _ _ actions _ _ _ => run_debloat actions (with_dialog PkNone s)
  | _ => s
  end.

(** A button of the strip below the list of packages. *)
Definition press (a : PackageAction) (s : Pk) : Pk :=
  if bool_decide (a ∈ applicable_actions (view s)) then
    let packages := Debloat.selected (view s) in
    confirm_debloat a packages false (with_view (pane s) (Debloat.clear_selection (view s)) (label s) (status s) s)
  else s.

Definition past (a : PackageAction) : bytes :=
  match a with Disable => bs "Disabled" | Enable => bs "Enabled" | Uninstall => bs "Uninstalled" | Restore => bs "Restored" end.
Definition done_of (results : list PackageResultDto) : list bytes := res_package <$> List.filter res_ok results.
Definition failed_of (results : list PackageResultDto) : list DebloatFailure :=
  (fun r => mkFailure (res_package r) (res_message r)) <$> List.filter (fun r => negb (res_ok r)) results.
Definition status_of (actions : list PackageRequest) (done : nat) (failed : nat) : bytes :=
  let verb := default [] (past ∘ action <$> head actions) in
  verb ++ bs " " ++ fmt_dec (Z.of_nat done) ++ bs " package(s)"
  ++ (if (failed =? 0)%nat then [] else bs ", " ++ fmt_dec (Z.of_nat failed) ++ bs " failed").

Definition on_results (now device : bytes) (packages : list bytes) (actions : list PackageRequest) (results : list PackageResultDto)
    (writable : bool) (s : Pk) : Pk :=
  let '(v, file) := Debloat.on_debloat_results to_json from_json to_lowercase now device packages actions results writable (view s) (ledger s) in
  let done := done_of results in let failed := failed_of results in
  let s := with_ledger file (with_view (pane s) v (label s) (Some (status_of actions (length done) (length failed))) s) in
  let s := match target_device (app s) with
           | Some d => refresh_debloat_count d (drop_count d s)
           | None => s
           end in
  with_dialog (DebloatResult (default Disable (action <$> head actions)) done failed) s.

(** ** Events *)

Inductive event :=
| SelectPhone (serial : bytes) | SelectFolder (path : bytes) | Polled (ds : list DeviceEntry) | PollFailed
| OpenView | OpenViewFor (serial : bytes) | TogglePane
| Tick (package : bytes) | TickAll | Press (a : PackageAction) | PressUndo | PressApply | PressDismiss
| ViewRead (i : nat) (answer : result bytes (list PackageDto))
| CountRead (i : nat) (answer : result bytes (list PackageDto))
| BatchRan (i : nat) (now : bytes) (writable : bool) (answer : result bytes (list PackageResultDto)).

(** An event that answers another call than the one it names, or none, does nothing. *)
Definition step (s : Pk) (e : event) : Pk :=
  let land i := with_flights (delete i (flights s)) s in
  let on_view f := with_view (pane s) (f (view s)) (label s) (status s) s in
  match e with
  | SelectPhone d => with_app (select_device d (app s)) s
  | SelectFolder p => with_app (select_local p (app s)) s
  | Polled ds => on_devices ds s
  | PollFailed => with_app (devices_failed (app s)) s
  | OpenView => open_debloat s
  | OpenViewFor d => open_debloat_for d s
  | TogglePane => toggle_pane s
  | Tick p => on_view (toggle p)
  | TickAll => on_view toggle_all
  | Press a => press a s
  | PressUndo => confirm_undo s
  | PressApply => apply_dialog s
  | PressDismiss => with_dialog PkNone s
  | ViewRead i answer =>
      match flights s !! i with
      | Some (ReadView _) =>
          let s := land i in with_view (pane s) (on_packages list_get to_lowercase answer (view s)) (label s) (status s) s
      | _ => s
      end
  | CountRead i answer =>
      match flights s !! i with
      | Some (ReadCount d) =>
          match answer with
          | Ok ps => with_counts ((d, counts_of list_get ps) :: List.filter (fun c => negb (bool_decide (fst c = d))) (counts s)) (land i)
          | Err _ => land i
          end
      | _ => s
      end
  | BatchRan i now writable answer =>
      match flights s !! i with
      | Some (Batch d packages actions) =>
          match answer with
          | Ok results => on_results now d packages actions results writable (land i)
          | Err err => with_dialog (PkMessage (bs "Could not change the packages") err) (land i)
          end
      | _ => s
      end
  end.
Definition run : list event -> Pk -> Pk := fold_left step.

(** ** Proofs *)

(** What the confirmations and the batches depend on. *)
Definition core (s : Pk) := (dialog s, asked s, sent s).

Lemma core_fly f s : core (fly f s) = core s.
Proof using. by destruct f. Qed.
Lemma core_count d s : core (refresh_debloat_count d s) = core s.
Proof using. unfold refresh_debloat_count. by destruct (has_count d s). Qed.
Lemma core_counts ds s : core (fold_left (fun s d => refresh_debloat_count (AppListing.serial d) s) ds s) = core s.
Proof using. revert s. induction ds as [|d ds IH]; intros s; cbn; [done|]. by rewrite IH, core_count. Qed.
Lemma core_open d s : core (open_debloat_for d s) = core s.
Proof using. unfold open_debloat_for. destruct (Debloat.set_device _ _) as [a v]. by rewrite core_fly. Qed.

(** What an event does to them: nothing, or it replaces the dialog by one that is
    not a confirmation, or opens a confirmation for the selected phone, or it
    is the button of the confirmation and sends the batch that is asked about to the selected phone. *)
Definition confirms (d : PkDialog) : bool := match d with DebloatConfirm _ _ _ _ _ _ => true | _ => false end.
Inductive moved (e : event) (s s' : Pk) : Prop :=
| MvStay : core s' = core s -> moved e s s'
| MvClose (d : PkDialog) : confirms d = false -> core s' = (d, asked s, sent s) -> moved e s s'
| MvAsk (t : bytes) (a : PackageAction) (acts : list PackageRequest) (ps : list DebloatPackage) (br : list bytes) (u : bool) :
    target_device (app s) = Some t -> acts <> [] ->
    core s' = (DebloatConfirm t a acts ps br u, asked s ++ [acts], sent s) -> app s' = app s -> moved e s s'
| MvSend (d t : bytes) (a : PackageAction) (acts : list PackageRequest) (ps : list DebloatPackage) (br : list bytes) (u : bool) :
    e = PressApply -> dialog s = DebloatConfirm d a acts ps br u -> target_device (app s) = Some t -> acts <> [] ->
    core s' = (DebloatWorking (length acts), asked s, sent s ++ [(t, acts)]) -> moved e s s'.

Lemma moved_confirm e a packages undo s s0 :
  core s0 = core s -> app s0 = app s -> moved e s (confirm_debloat a packages undo s0).
Proof using.
  intros [= Hd Ha Hs] Happ. unfold confirm_debloat. rewrite Happ. destruct (target_device (app s)) as [t|] eqn:E.
  - destruct packages as [|p packages]; [apply MvStay; unfold core; congruence|].
    eapply MvAsk; [exact E| |cbn; unfold core; cbn; by rewrite Ha, Hs|done]. done.
  - apply MvStay. unfold core. cbn. congruence.
Qed.
Lemma moved_undo e s : moved e s (confirm_undo s).
Proof using.
  unfold confirm_undo. destruct (target_device (app s)) as [t|] eqn:E; [|by apply MvStay].
  destruct (Debloat.confirm_undo _ _ _) as [|q acts] eqn:Eu; [by apply MvStay|].
  by eapply (MvAsk _ _ _ t Enable (q :: acts)).
Qed.
Lemma moved_apply s : moved PressApply s (apply_dialog s).
Proof using.
  unfold apply_dialog. destruct (dialog s) eqn:E; try (by apply MvStay).
  unfold run_debloat. cbn [app with_dialog]. destruct (target_device (app s)) as [t|] eqn:Et.
  - destruct actions as [|q acts]; [by apply (MvClose _ _ _ PkNone)|]. by eapply MvSend.
  - destruct actions; by apply (MvClose _ _ _ PkNone).
Qed.
Lemma core_figures s : core (match target_device (app s) with Some d => refresh_debloat_count d (drop_count d s) | None => s end) = core s.
Proof using. destruct (target_device (app s)) as [d|]; [by rewrite core_count|done]. Qed.
Lemma moved_results e now d packages actions results writable s s0 :
  core s0 = core s -> moved e s (on_results now d packages actions results writable s0).
Proof using.
  intros [= _ Ha Hs]. unfold on_results. destruct (Debloat.on_debloat_results _ _ _ _ _ _ _ _ _ _) as [v file].
  set (s1 := with_ledger file _). pose proof (core_figures s1) as H. revert H.
  set (s2 := match target_device (app s1) with Some _ => _ | None => _ end). intros [= _ Ha1 Hs1].
  eapply (MvClose _ _ _ (DebloatResult _ _ _)); [done|]. unfold core. cbn [dialog asked sent with_dialog]. rewrite Ha1, Hs1. cbn. by rewrite Ha, Hs.
Qed.
Lemma step_moved s e : moved e s (step s e).
Proof using.
  destruct e; cbn [step]; try (by apply MvStay).
  - apply MvStay. unfold on_devices. case_bool_decide; [done|]. rewrite <- (core_counts ds s). done.
  - unfold open_debloat. destruct (target_device (app s)) as [d|]; [apply MvStay, core_open|by eapply (MvClose _ _ _ (PkMessage _ _))].
  - apply MvStay, core_open.
  - unfold toggle_pane, open_debloat. destruct (pane s); [|by apply MvStay|];
      (destruct (target_device (app s)) as [d|]; [apply MvStay, core_open|by eapply (MvClose _ _ _ (PkMessage _ _))]).
  - unfold press. case_bool_decide; [by apply moved_confirm|by apply MvStay].
  - apply moved_undo.
  - apply moved_apply.
  - by apply (MvClose _ _ _ PkNone).
  - destruct (flights s !! i) as [[]|]; by apply MvStay.
  - destruct (flights s !! i) as [[]|]; try (by apply MvStay). by destruct answer; apply MvStay.
  - destruct (flights s !! i) as [[]|]; try (by apply MvStay). destruct answer; [by apply moved_results|by eapply (MvClose _ _ _ (PkMessage _ _))].
Qed.

(** The confirmation that is open has been counted, and its batch not been sent. *)
Definition asking (s : Pk) : Prop :=
  Forall (fun c => c.2 <> []) (sent s)
  /\ match dialog s with
     | DebloatConfirm _ _ acts _ _ _ => acts <> [] /\ exists pre, asked s = pre ++ [acts] /\ sublist (snd <$> sent s) pre
     | _ => sublist (snd <$> sent s) (asked s)
     end.
Lemma asking_sublist s : asking s -> sublist (snd <$> sent s) (asked s).
Proof using. intros [_ H]. destruct (dialog s); try done. destruct H as (_ & pre & -> & H). by apply sublist_inserts_r. Qed.
Lemma moved_asking e s s' : moved e s s' -> asking s -> asking s'.
Proof using.
  intros [H|d Hd H|t a acts ps br u Ht Hne H _|d t a acts ps br u He Hd Ht Hne H] Hs; injection H as H1 H2 H3.
  - unfold asking in *. by rewrite H1, H2, H3.
  - unfold asking. rewrite H1, H2, H3. split; [apply Hs|]. pose proof (asking_sublist s Hs). by destruct d.
  - unfold asking. rewrite H1, H2, H3. split; [apply Hs|]. split; [done|]. exists (asked s). split; [done|]. by apply asking_sublist.
  - unfold asking in *. rewrite Hd in Hs. rewrite H1, H2, H3. destruct Hs as (Hn & _ & pre & -> & Hs). split.
    + apply Forall_app. split; [done|]. by constructor.
    + rewrite fmap_app. by apply sublist_app.
Qed.

(** The question that is open names the selected phone. *)
Definition named (s : Pk) : Prop :=
  match dialog s with DebloatConfirm d _ _ _ _ _ => target_device (app s) = Some d | _ => True end.
Definition steady (e : event) : bool :=
  match e with SelectPhone _ | SelectFolder _ | Polled _ | PollFailed => false | _ => true end.

Lemma app_count d s : app (refresh_debloat_count d s) = app s.
Proof using. unfold refresh_debloat_count. by destruct (has_count d s). Qed.
Lemma app_open d s : app (open_debloat_for d s) = app s.
Proof using. unfold open_debloat_for. destruct (Debloat.set_device _ _) as [a v]. by destruct a. Qed.
Lemma app_open_any s : app (open_debloat s) = app s.
Proof using. unfold open_debloat. destruct (target_device (app s)); [apply app_open|done]. Qed.
Lemma steady_app s e : steady e = true -> app (step s e) = app s.
Proof using.
  destruct e; intros H; try done; cbn [step].
  - apply app_open_any.
  - apply app_open.
  - unfold toggle_pane. destruct (pane s); [apply app_open_any|done|apply app_open_any].
  - unfold press, confirm_debloat. case_bool_decide; [|done]. destruct (target_device _); [|done]. by destruct (Debloat.selected (view s)).
  - unfold confirm_undo. destruct (target_device _); [|done]. by destruct (Debloat.confirm_undo _ _ _).
  - unfold apply_dialog, run_debloat. destruct (dialog s); try done. destruct (target_device _); [|done]. by destruct actions.
  - by destruct (flights s !! i) as [[]|].
  - destruct (flights s !! i) as [[]|]; try done. by destruct answer.
  - destruct (flights s !! i) as [[]|]; try done. destruct answer; [|done]. unfold on_results.
    destruct (Debloat.on_debloat_results _ _ _ _ _ _ _ _ _ _) as [v file]. cbn [app with_dialog].
    destruct (target_device _); [by rewrite app_count|done].
Qed.
Lemma steady_named s e : named s -> steady e = true -> named (step s e).
Proof using.
  intros Hn Hs. pose proof (steady_app s e Hs) as Ha. unfold named in *. rewrite Ha.
  destruct (step_moved s e) as [H|d Hd H|t a acts ps br u Ht Hne H _|d t a acts ps br u He Hd Ht Hne H]; injection H as H1 _ _; rewrite H1; try done.
  by destruct d.
Qed.

End Packages.

(** ** The ledger *)

(** Whatever is selected when the answer comes, the results of a batch are put on record for
    the phone it was sent to, one for each result with the action that was asked
    for; no other event changes the ledger. *)
Theorem results_recorded list_get to_lowercase to_json from_json (s : Pk) (e : event) :
  (forall l, exists text, to_json l = Some text /\ from_json text = Some l) ->
  (length (load_ledger from_json (ledger s)) <= LEDGER_CAP)%nat ->
  let s' := step list_get to_lowercase to_json from_json s e in
  ledger s' = ledger s
  \/ exists i now writable results d packages actions, e = BatchRan i now writable (Ok results) /\ flights s !! i = Some (Batch d packages actions)
     /\ (writable = true -> length actions = length results ->
         load_ledger from_json (ledger s')
         = recent (load_ledger from_json (ledger s) ++ zip_with (record_of now d (states_for packages (view s))) actions results)).
Proof.
  intros Hj Hcap s'. assert (Hc : forall d x, ledger (refresh_debloat_count d x) = ledger x) by (intros d x; unfold refresh_debloat_count; by destruct (has_count d x)).
  assert (Ho : forall d x, ledger (open_debloat_for d x) = ledger x).
  { intros d x. unfold open_debloat_for. destruct (Debloat.set_device _ _) as [[] v]; done. }
  assert (Ho' : forall x, ledger (open_debloat x) = ledger x) by (intros x; unfold open_debloat; destruct (target_device _); [apply Ho|done]).
  unfold s'. clear s'. destruct e; cbn [step]; try (by left).
  - left. unfold on_devices. cbn [ledger with_app]. case_bool_decide; [done|].
    assert (Hf : forall x, ledger (fold_left (fun s d => refresh_debloat_count (AppListing.serial d) s) ds x) = ledger x); [|apply Hf].
    clear H. induction ds as [|d ds IH]; intros x; cbn; [done|]. by rewrite IH, Hc.
  - left. unfold toggle_pane. destruct (pane s); [apply Ho'|done|apply Ho'].
  - left. unfold press, confirm_debloat. case_bool_decide; [|done]. destruct (target_device _); [|done]. by destruct (Debloat.selected (view s)).
  - left. unfold confirm_undo. destruct (target_device _); [|done]. by destruct (Debloat.confirm_undo _ _ _).
  - left. unfold apply_dialog, run_debloat. destruct (dialog s); try done. destruct (target_device _); [|done]. by destruct actions.
  - left. by destruct (flights s !! i) as [[]|].
  - left. destruct (flights s !! i) as [[]|]; try done. by destruct answer.
  - destruct (flights s !! i) as [[]|] eqn:Ef; try (by left). destruct answer as [results|err]; [|by left].
    right. exists i, now, writable, results, device, packages, actions. split_and!; try done. intros -> Hlen.
    unfold on_results, Debloat.on_debloat_results. cbn [view ledger with_flights].
    destruct (take_results _ _ _ _ _ _ _ _ _ _) as [states file] eqn:Et. cbn [ledger with_dialog].
    assert (forall x, ledger (match target_device (app x) with Some d => refresh_debloat_count d (drop_count d x) | None => x end) = ledger x) as ->
      by (intros x; destruct (target_device (app x)); [by rewrite Hc|done]).
    cbn [ledger with_ledger]. change file with (states, file).2. rewrite <- Et.
    rewrite (take_results_ledger to_json from_json Hj) by (unfold recent; by replace (_ - _)%nat with 0%nat by lia).
    f_equal. f_equal. exact (batch_records_zip now device _ [] actions results Hlen).
Qed.

(** ** Runs that go wrong *)

Definition phones : list DeviceEntry := [mkDevice (bs "A") None [] None None None; mkDevice (bs "B") None [] None None None].
Definition pk_run : list event -> Pk -> Pk := run no_list (fun l => l) to_bits from_bits.
(** The phones are there, A is selected, its packages are read and shown. *)
Definition looking : list event := [Polled phones; OpenView; ViewRead 2 (Ok [pkg (bs "com.a")])].

(** The card of another phone is chosen while the packages of the first are
    shown: the packages ticked in that list are changed on the other phone. *)
Example changed_on_the_other_phone :
  let s := pk_run (looking ++ [SelectPhone (bs "B"); Tick (bs "com.a"); Press Uninstall; PressApply]) pk_new in
  Debloat.device (view s) = Some (bs "A") /\ sent s = [(bs "B", [Packages.mkRequest (bs "com.a") Uninstall])].
Proof. by vm_compute. Qed.

(** The window was started on the disk, then A chosen. While the question about
    A is open A is unplugged and B plugged in, and the answer changes B. *)
Example confirmed_for_one_done_on_another :
  let s := pk_run ([SelectFolder (bs "/"); Polled (take 1 phones); SelectPhone (bs "A"); OpenView; ViewRead 1 (Ok [pkg (bs "com.a")]);
                    Tick (bs "com.a"); Press Disable; Polled (drop 1 phones)]) pk_new in
  (match dialog s with DebloatConfirm d _ _ _ _ _ => Some d | _ => None end) = Some (bs "A")
  /\ sent (pk_run [PressApply] s) = [(bs "B", [Packages.mkRequest (bs "com.a") Disable])].
Proof. by vm_compute. Qed.

(** Undo is pressed before the packages have been read: the question lists none, and
    its answer changes those on record. *)
Example undo_unseen :
  let s := pk_run [Polled phones; OpenView; PressUndo] (with_ledger (to_bits [mkRecord [] (bs "A") 0 (bs "com.a") (bs "disable") [] [] true None]) pk_new) in
  dialog s = DebloatConfirm (bs "A") Enable [Packages.mkRequest (bs "com.a") Enable] [] [] true.
Proof. by vm_compute. Qed.

(** The figures of a phone, when its batch ends while another phone is selected, are
    not read again. *)
Example figures_stay_old :
  let before := pk_run (looking ++ [CountRead 0 (Ok [pkg (bs "com.a")]); Tick (bs "com.a"); Press Uninstall; PressApply; SelectPhone (bs "B")]) pk_new in
  let s := pk_run [BatchRan 1 [] true (Ok [mkResultDto (bs "com.a") true (Some (bs "uninstalled")) None])] before in
  List.find (fun c => bool_decide (c.1 = bs "A")) (counts s) = Some (bs "A", mkCounts 1 0 0)
  /\ ReadCount (bs "A") ∉ flights s.
Proof. split; [by vm_compute|]. vm_compute. intros H. repeat (apply elem_of_cons in H as [H|H]; [done|]). by apply elem_of_nil in H. Qed.
