(* ===== verification/Thumbnails.v ===== *)
(** * Thumbnails

    [adb-gui/src/thumbnails.rs]: the cache of pictures that is shared with the rest of
    the desktop, what makes a cached picture valid, the pool of workers that make
    them, and [pump_thumbnails] of [adb-gui/src/views/browser.rs], which asks for
    them. The pixels are left out: decoding, scaling and encoding an image is an
    argument, and so are MD5, CRC-32 and the programs that are run. *)

From stdpp Require Import base list strings gmap.
From S2P Require Import Prelude RustStd Text DaemonInstall Apk GuiModels Clipboard.

(** ** Names *)

Inductive Size := Normal | Large.
#[global] Instance Size_eq : EqDecision Size.
Proof. solve_decision. Defined.
#[global] Instance Size_countable : Countable Size.
Proof.
  apply (inj_countable' (fun s => match s with Normal => true | Large => false end) (fun b : bool => if b then Normal else Large)).
  by intros [].
Defined.
Definition dir (s : Size) : bytes := match s with Normal => bs "normal" | Large => bs "large" end.
Definition px (s : Size) : Z := match s with Normal => 128 | Large => 256 end.
Definition FAIL_DIR : bytes := bs "adbshare-1.0".
Definition WORKERS : nat := 4.
Definition MAX_QUEUE : Z := 256.

(** The same escape as on the clipboard. *)
Definition file_uri (path : bytes) : bytes := bs "file://" ++ concat (encode_byte <$> from_utf8_lossy path).

Section Names.
(** The hexadecimal MD5 of a URI, and the cache directory of the user. *)
Context (uri_md5 : bytes -> bytes) (cache_dir : option bytes).
Definition cache_root : bytes := path_join (default (bs "/tmp") cache_dir) (bs "thumbnails").
Definition cache_path (uri : bytes) (s : Size) : bytes := path_join (path_join cache_root (dir s)) (uri_md5 uri ++ bs ".png").
Definition fail_path (uri : bytes) : bytes :=
  path_join (path_join (path_join cache_root (bs "fail")) FAIL_DIR) (uri_md5 uri ++ bs ".png").
End Names.

(** ** Keys in a PNG *)

Definition SIGNATURE : bytes := [0x89; 80; 78; 71; 0x0d; 0x0a; 0x1a; 0x0a].

(** Where the first [IDAT] starts, or the end. *)
Fixpoint insert_point (fuel : nat) (png : bytes) (at_ : Z) : Z :=
  match fuel with
  | O => zlen png
  | S fuel =>
      if at_ + 8 <=? zlen png then
        let len := be_val (slice png at_ 4) in
        let e := at_ + 12 + len in
        if bool_decide (slice png (at_ + 4) 4 = bs "IDAT") || (e >? zlen png) then at_ else insert_point fuel png e
      else zlen png
  end.

Section Png.
Context (crc32 : bytes -> Z).

Definition text_chunk (key : bytes * bytes) : bytes :=
  let '(keyword, value) := key in
  if bool_decide (keyword = []) || (zlen keyword >? 79) || bool_decide (0 ∈ value) then []
  else
    let data := keyword ++ [0] ++ value in
    be_bytes 4 (as_u32 (zlen data)) ++ bs "tEXt" ++ data ++ be_bytes 4 (crc32 (bs "tEXt" ++ data)).

Definition png_with_text (png : bytes) (keys : list (bytes * bytes)) : bytes :=
  if (zlen png <? 8) || bool_decide (ztake 8 png <> SIGNATURE) then png
  else
    let insert_at := insert_point (length png) png 8 in
    ztake insert_at png ++ concat (text_chunk <$> keys) ++ zdrop insert_at png.
End Png.

Fixpoint text_from (fuel : nat) (png wanted : bytes) (at_ : Z) : option bytes :=
  match fuel with
  | O => None
  | S fuel =>
      if at_ + 8 <=? zlen png then
        let len := be_val (slice png at_ 4) in
        data ← get_range png (at_ + 8) len;
        if bool_decide (slice png (at_ + 4) 4 = bs "tEXt") then
          '(k, v) ← split_once [0] data;
          if bool_decide (k = wanted) then (if utf8_valid v then Some v else None)
          else text_from fuel png wanted (at_ + 12 + len)
        else text_from fuel png wanted (at_ + 12 + len)
      else None
  end.
Definition png_text (png wanted : bytes) : option bytes := text_from (length png) png wanted 8.

(** ** Which program makes a picture *)

Definition MIMES : list (list string * list string) := [
  (["jpg"; "jpeg"; "jpe"], ["image/jpeg"; "image/jpg"]);
  (["png"], ["image/png"]);
  (["apng"], ["image/apng"]);
  (["gif"], ["image/gif"]);
  (["webp"], ["image/webp"]);
  (["bmp"], ["image/bmp"; "image/x-bmp"; "image/x-MS-bmp"; "image/vnd.microsoft.icon"]);
  (["tif"; "tiff"], ["image/tiff"]);
  (["tga"], ["image/x-tga"]);
  (["exr"], ["image/x-exr"]);
  (["qoi"], ["image/x-qoi"; "image/qoi"]);
  (["ico"], ["image/vnd.microsoft.icon"; "image/x-icon"; "image/ico"]);
  (["pbm"; "pgm"; "ppm"; "pnm"], ["image/x-portable-bitmap"; "image/x-portable-graymap"; "image/x-portable-pixmap"; "image/x-portable-anymap"]);
  (["svg"; "svgz"], ["image/svg+xml"; "image/svg+xml-compressed"]);
  (["avif"], ["image/avif"; "image/avif-sequence"]);
  (["jxl"], ["image/jxl"]);
  (["heic"; "heif"], ["image/heic"; "image/heif"; "image/heic-sequence"]);
  (["pdf"], ["application/pdf"; "application/x-pdf"]);
  (["ps"; "eps"], ["application/postscript"; "image/x-eps"; "image/eps"]);
  (["dvi"], ["application/x-dvi"; "application/x-evince-dvi"]);
  (["cbz"; "cb7"; "cbt"; "cbr"], ["application/vnd.comicbook+zip"; "application/vnd.comicbook-rar"; "application/x-cbz"; "application/x-cb7"; "application/x-cbt"; "application/x-cbr"]);
  (["mp4"; "m4v"], ["video/mp4"; "video/quicktime"; "video/x-m4v"]);
  (["mkv"; "mka"], ["video/x-matroska"; "video/matroska"; "application/matroska"; "application/x-matroska"]);
  (["webm"], ["video/webm"; "audio/webm"]);
  (["avi"], ["video/vnd.avi"; "video/avi"; "video/x-msvideo"]);
  (["mov"], ["video/quicktime"]);
  (["mpg"; "mpeg"; "mpe"], ["video/mpeg"; "video/x-mpeg"; "video/vnd.mpegurl"]);
  (["wmv"], ["video/x-ms-wmv"]);
  (["flv"], ["video/x-flv"]);
  (["3gp"], ["video/3gpp"]);
  (["ogv"], ["video/ogg"]);
  (["m2ts"; "ts"], ["video/mp2t"]);
  (["mp3"], ["audio/mpeg"; "audio/mp3"; "audio/x-mpeg"; "audio/x-mp3"; "audio/mpeg3"; "audio/x-mpeg-3"]);
  (["flac"], ["audio/flac"; "application/x-flac"; "audio/x-flac"]);
  (["ogg"; "oga"], ["audio/ogg"; "audio/vorbis"; "audio/x-vorbis+ogg"]);
  (["opus"], ["audio/opus"]);
  (["wav"], ["audio/wav"; "audio/x-wav"; "audio/vnd.wave"]);
  (["m4a"], ["audio/mp4"; "audio/m4a"; "audio/x-m4a"; "video/mp4"]);
  (["aac"], ["audio/aac"; "audio/x-aac"]);
  (["wma"], ["audio/x-ms-wma"; "audio/ms-wma"]);
  (["mid"; "midi"], ["audio/midi"; "audio/x-midi"]);
  (["aiff"; "aif"], ["audio/x-aiff"; "audio/x-pn-aiff"]);
  (["ape"], ["audio/x-ape"; "audio/x-musepack"]);
  (["wv"], ["audio/x-wavpack"]);
  (["doc"], ["application/msword"]);
  (["docx"], ["application/vnd.openxmlformats-officedocument.wordprocessingml.document"]);
  (["xls"], ["application/vnd.ms-excel"]);
  (["xlsx"], ["application/vnd.openxmlformats-officedocument.spreadsheetml.sheet"]);
  (["ppt"], ["application/vnd.ms-powerpoint"]);
  (["pptx"], ["application/vnd.openxmlformats-officedocument.presentationml.presentation"]);
  (["odt"; "ott"], ["application/vnd.oasis.opendocument.text"]);
  (["ods"; "ots"], ["application/vnd.oasis.opendocument.spreadsheet"]);
  (["odp"; "otp"], ["application/vnd.oasis.opendocument.presentation"]);
  (["odg"; "otg"], ["application/vnd.oasis.opendocument.graphics"]);
  (["odc"], ["application/vnd.oasis.opendocument.chart"]);
  (["odf"], ["application/vnd.oasis.opendocument.formula"]);
  (["fodt"; "fods"; "fodp"], ["application/vnd.oasis.opendocument.text"])].
Definition mimes_for (ext : bytes) : list bytes :=
  match List.find (fun row => existsb (fun e => bool_decide (bs e = ext)) row.1) MIMES with Some row => bs <$> row.2 | None => [] end.

Fixpoint value_in (key : bytes) (ls : list bytes) : option bytes :=
  match ls with
  | [] => None
  | l :: ls =>
      let line := trim l in
      if has_prefix (bs "#") line || has_prefix (bs "[") line then value_in key ls
      else match split_once (bs "=") line with
           | Some (k, v) => if eq_ignore_ascii_case (trim k) key then Some (trim v) else value_in key ls
           | None => value_in key ls
           end
  end.
Definition keyfile_value (text key : bytes) : option bytes := value_in key (lines text).

Definition parse_thumbnailer (text : bytes) : option (bytes * list bytes) :=
  exec ← keyfile_value text (bs "Exec");
  value ← keyfile_value text (bs "MimeType");
  let mimes := filter (fun m => m <> []) ((fun m => to_ascii_lowercase (trim m)) <$> split_on 59 value) in
  match mimes with [] => None | _ => Some (exec, mimes) end.

Record Thumbnailer := mkThumbnailer { program : bytes; t_exec : bytes; t_mimes : list bytes }.
(** One keyfile; [try_exec] says whether a program named there is to be found. *)
Definition thumbnailer_of (try_exec : bytes -> bool) (text : bytes) : option Thumbnailer :=
  '(exec, mimes) ← parse_thumbnailer text;
  program ← head (split_whitespace exec);
  match keyfile_value text (bs "TryExec") with
  | Some t => if try_exec t then Some (mkThumbnailer program exec mimes) else None
  | None => Some (mkThumbnailer program exec mimes)
  end.
Definition chosen (installed : list Thumbnailer) (path : bytes) : option Thumbnailer :=
  name ← file_name path;
  ext ← (stem_ext name).2;
  if utf8_valid ext then
    match mimes_for ext with
    | [] => None
    | candidates => List.find (fun t => existsb (fun m => bool_decide (m ∈ candidates)) (t_mimes t)) installed
    end
  else None.
Definition argument (path out : bytes) (s : Size) (token : bytes) : bytes :=
  if bool_decide (token = bs "%s") then fmt_dec (px s)
  else if bool_decide (token = bs "%u") then file_uri path
  else if bool_decide (token = bs "%i") then from_utf8_lossy path
  else if bool_decide (token = bs "%o") then from_utf8_lossy out
  else if bool_decide (token = bs "%%") then bs "%" else token.
Definition arguments (t : Thumbnailer) (path out : bytes) (s : Size) : list bytes :=
  argument path out s <$> drop 1 (split_whitespace (t_exec t)).

(** ** The cache *)

(** The files that have previews, with their time in seconds, and the files of the cache. *)
Record store := mkStore { sources : gmap bytes (Z * bytes); disk : gmap bytes bytes }.
Definition key : Type := bytes * Size.

Definition mtime_secs (t : Z) : bytes := fmt_dec (Z.max t 0).
Definition into_thumb (png : bytes) : option bytes := if bool_decide (png = []) then None else Some png.

Section Cache.
Context (uri_md5 : bytes -> bytes) (cache_dir : option bytes) (crc32 : bytes -> Z).
(** [encode_thumb]; the programs that are installed, what running one yields on a
    file with this content, and the temporary file it writes to. *)
Context (encode_thumb : bytes -> Size -> option bytes) (installed : list Thumbnailer)
  (render : bytes -> list bytes -> bytes -> option bytes) (out : bytes).

Abbreviation cache_file := (cache_path uri_md5 cache_dir).
Abbreviation fail_file := (fail_path uri_md5 cache_dir).

Definition other (s : Size) : Size := match s with Large => Normal | Normal => Large end.
Definition read_cache (st : store) (uri : bytes) (s : Size) : option bytes :=
  match disk st !! cache_file uri s with Some png => Some png | None => disk st !! cache_file uri (other s) end.

Definition cached (st : store) (path : bytes) (s : Size) : option bytes :=
  '(mtime, _) ← sources st !! path;
  let uri := file_uri path in
  png ← read_cache st uri s;
  if bool_decide (png_text png (bs "Thumb::MTime") = Some (mtime_secs mtime)) then
    if bool_decide (png_text png (bs "Thumb::URI") = Some uri) then into_thumb png else None
  else None.

Definition run_thumbnailer (path content : bytes) (s : Size) : option bytes :=
  t ← chosen installed path; render (program t) (arguments t path out s) content.
(** The bytes a picture is made of: of the program, or of the file itself. *)
Definition raw_of (path content : bytes) (s : Size) : bytes := default content (run_thumbnailer path content s).

Definition thumb_keys (uri : bytes) (mtime size : Z) : list (bytes * bytes) :=
  [(bs "Thumb::URI", uri); (bs "Thumb::MTime", mtime_secs mtime); (bs "Thumb::Size", fmt_dec size)].
Definition mark_failed (uri : bytes) (st : store) : store := mkStore (sources st) (<[fail_file uri := []]> (disk st)).

(** The end of [generate]: [raw] of a file that was [mtime] old and [size] long. *)
Definition keep_thumb (k : key) (mtime size : Z) (raw : option bytes) (st : store) : option bytes * store :=
  let uri := file_uri k.1 in
  match raw ≫= fun r => encode_thumb r k.2 with
  | None => (None, mark_failed uri st)
  | Some png =>
      let png := png_with_text crc32 png (thumb_keys uri mtime size) in
      (into_thumb png, mkStore (sources st) (<[cache_file uri k.2 := png]> (disk st)))
  end.

(** [generate], while nothing else happens. *)
Definition generate (st : store) (path : bytes) (s : Size) : option bytes * store :=
  if bool_decide (is_Some (disk st !! fail_file (file_uri path))) then (None, st)
  else match sources st !! path with
       | None => (None, st)
       | Some (mtime, content) => keep_thumb (path, s) mtime (zlen content) (Some (raw_of path content s)) st
       end.

(** ** The workers *)

(** Where a worker is with a picture; [cached], the look for a failure and the two reads of the
    metadata come first. *)
Inductive job :=
| Fetched (k : key) | Missed (k : key) | Unfailed (k : key) | Stamped (k : key) (mtime : Z) | Measured (k : key) (mtime size : Z)
| Drawn (k : key) (mtime size : Z) (raw : option bytes).

Record Pool := mkPool { queue : list key; done : list (key * option bytes); busy : list job }.

Definition request (k : key) (p : Pool) : Pool :=
  if zlen (queue p) >=? MAX_QUEUE then p
  else if bool_decide (k ∈ queue p) then p
  else mkPool (queue p ++ [k]) (done p) (busy p).
Definition take_finished (p : Pool) : list (key * option bytes) * Pool := (done p, mkPool (queue p) [] (busy p)).
(** A worker that is free takes the next picture. *)
Definition fetch (p : Pool) : Pool :=
  match queue p with
  | k :: q => if (length (busy p) <? WORKERS)%nat then mkPool q (done p) (busy p ++ [Fetched k]) else p
  | [] => p
  end.

(** One step of a worker: where it is then, or what it has made. *)
Definition work (j : job) (st : store) : (job + key * option bytes) * store :=
  match j with
  | Fetched k => (match cached st k.1 k.2 with Some t => inr (k, Some t) | None => inl (Missed k) end, st)
  | Missed k => (if bool_decide (is_Some (disk st !! fail_file (file_uri k.1))) then inr (k, None) else inl (Unfailed k), st)
  | Unfailed k => (match sources st !! k.1 with Some (m, _) => inl (Stamped k m) | None => inr (k, None) end, st)
  | Stamped k m => (match sources st !! k.1 with Some (_, c) => inl (Measured k m (zlen c)) | None => inr (k, None) end, st)
  | Measured k m n => (inl (Drawn k m n ((fun '(_, c) => raw_of k.1 c k.2) <$> sources st !! k.1)), st)
  | Drawn k m n raw => let '(t, st) := keep_thumb k m n raw st in (inr (k, t), st)
  end.

(** Pool and files; [stamps]: the last time each file had. *)
Record thumbs_world := mkThumbs { t_pool : Pool; t_store : store; stamps : gmap bytes Z }.
Inductive thumbs_event :=
| Requested (k : key) | FetchedNext | Works (i : nat) | Collected
| Written (path : bytes) (mtime : Z) (content : bytes) | Removed (path : bytes).

(** A file that is written gets a later time than it had. *)
Definition thumbs_step (w : thumbs_world) (e : thumbs_event) : thumbs_world :=
  let st := t_store w in
  match e with
  | Requested k => mkThumbs (request k (t_pool w)) st (stamps w)
  | FetchedNext => mkThumbs (fetch (t_pool w)) st (stamps w)
  | Collected => mkThumbs (take_finished (t_pool w)).2 st (stamps w)
  | Works i =>
      match busy (t_pool w) !! i with
      | None => w
      | Some j =>
          let '(r, st) := work j st in
          let p := t_pool w in
          mkThumbs (match r with
                    | inl j => mkPool (queue p) (done p) (<[i := j]> (busy p))
                    | inr d => mkPool (queue p) (done p ++ [d]) (delete i (busy p))
                    end) st (stamps w)
      end
  | Written path m c =>
      if (0 <=? m) && (default (-1) (stamps w !! path) <? m)
      then mkThumbs (t_pool w) (mkStore (<[path := (m, c)]> (sources st)) (disk st)) (<[path := m]> (stamps w)) else w
  | Removed path => mkThumbs (t_pool w) (mkStore (delete path (sources st)) (disk st)) (stamps w)
  end.
Definition thumbs_run (es : list thumbs_event) : thumbs_world :=
  foldl thumbs_step (mkThumbs (mkPool [] [] []) (mkStore ∅ ∅) ∅) es.
End Cache.

(** ** What the view asks for *)

(** The pictures the pane has, and the files it has given up on. *)
Record Previews := mkPreviews { thumbs : gmap key bytes; thumb_missed : gset bytes }.
Definition adopt (v : Previews) (r : key * option bytes) : Previews :=
  match r with
  | (k, Some t) => mkPreviews (<[k := t]> (thumbs v)) (thumb_missed v ∖ {[k.1]})
  | (k, None) => mkPreviews (thumbs v) ({[k.1]} ∪ thumb_missed v)
  end.
(** Whether a row on screen asks for a picture. *)
Definition wants (v : Previews) (k : key) (ext : bytes) : bool :=
  negb (bool_decide (mimes_for ext = [])) && negb (bool_decide (is_Some (thumbs v !! k)) || bool_decide (k.1 ∈ thumb_missed v)).
Definition pump_thumbnails (rows : list (key * bytes)) (v : Previews) (p : Pool) : Previews * Pool :=
  let '(finished, p) := take_finished p in
  let v := foldl adopt v finished in
  (v, foldl (fun p '(k, ext) => if wants v k ext then request k p else p) p rows).
(** A new listing. *)
Definition forget_misses (v : Previews) : Previews := mkPreviews (thumbs v) ∅.
