(* ===== verification/ThumbnailsSpec.v ===== *)
(** * Cached pictures are of the file as it is

    The keys written into a PNG are read back, and with them: whatever the workers
    do while files change, a picture taken from the cache is one of the current
    content of its file. *)

From stdpp Require Import base list strings gmap pretty.
From S2P Require Import Prelude RustStd Text DaemonInstall Apk GuiModels Clipboard Thumbnails.

(** ** Chunks *)

Record chunk := mkChunk { c_kind : bytes; c_data : bytes; c_crc : bytes }.
Definition chunk_bytes (c : chunk) : bytes := be_bytes 4 (zlen (c_data c)) ++ c_kind c ++ c_data c ++ c_crc c.
Definition chunk_ok (c : chunk) : Prop := zlen (c_kind c) = 4 /\ zlen (c_crc c) = 4 /\ zlen (c_data c) < 2 ^ 32.
Definition chunks (cs : list chunk) : bytes := concat (chunk_bytes <$> cs).

(** What the PNG encoder writes: chunks, none of them text, then the picture. *)
Definition plain_png (png : bytes) : Prop := exists cs idat rest,
  png = SIGNATURE ++ chunks cs ++ chunk_bytes idat ++ rest
  /\ Forall chunk_ok (cs ++ [idat]) /\ c_kind idat = bs "IDAT" /\ Forall (fun c => c_kind c <> bs "IDAT" /\ c_kind c <> bs "tEXt") cs.

Lemma zlen_png_chunk c : chunk_ok c -> zlen (chunk_bytes c) = 12 + zlen (c_data c).
Proof. intros (H1 & H2 & H3). unfold chunk_bytes. rewrite !zlen_app, zlen_be_bytes, H1, H2. lia. Qed.

(** A chunk where the reader stands. *)
Lemma at_chunk pre c suf : chunk_ok c -> let png := pre ++ chunk_bytes c ++ suf in
  be_val (slice png (zlen pre) 4) = zlen (c_data c) /\ slice png (zlen pre + 4) 4 = c_kind c
  /\ slice png (zlen pre + 8) (zlen (c_data c)) = c_data c
  /\ zlen png = zlen pre + 12 + zlen (c_data c) + zlen suf.
Proof.
  intros Hc png. pose proof Hc as (H1 & H2 & H3). pose proof (zlen_nonneg (c_data c)). unfold png, chunk_bytes. rewrite <- !(assoc_L (++)).
  split_and!.
  - rewrite slice_skip by lia. rewrite Z.sub_diag. rewrite slice_here by (by rewrite zlen_be_bytes). rewrite be_val_be_bytes. apply Z.mod_small. lia.
  - rewrite slice_skip by lia. replace (zlen pre + 4 - zlen pre) with 4 by lia. rewrite slice_skip by (rewrite zlen_be_bytes; lia).
    rewrite zlen_be_bytes. by rewrite slice_here.
  - rewrite slice_skip by lia. replace (zlen pre + 8 - zlen pre) with 8 by lia. rewrite slice_skip by (rewrite zlen_be_bytes; lia).
    rewrite zlen_be_bytes. rewrite slice_skip by (rewrite H1; lia). rewrite H1. by rewrite slice_here.
  - rewrite !zlen_app, zlen_be_bytes, H1, H2. lia.
Qed.

Lemma insert_point_chunks cs : forall fuel pre idat rest,
  Forall chunk_ok cs -> Forall (fun c => c_kind c <> bs "IDAT" /\ c_kind c <> bs "tEXt") cs -> chunk_ok idat -> c_kind idat = bs "IDAT" ->
  (length cs < fuel)%nat -> insert_point fuel (pre ++ chunks cs ++ chunk_bytes idat ++ rest) (zlen pre) = zlen (pre ++ chunks cs).
Proof.
  induction cs as [|c cs IH]; intros fuel pre idat rest Hok Hk Hi Ei Hf; (destruct fuel as [|fuel]; [cbn in Hf; lia|]); cbn [insert_point].
  - cbn [chunks fmap list_fmap concat app]. destruct (at_chunk pre idat rest Hi) as (_ & E2 & _ & E4).
    pose proof (zlen_nonneg (c_data idat)). pose proof (zlen_nonneg rest).
    rewrite E2, E4. assert ((zlen pre + 8 <=? zlen pre + 12 + zlen (c_data idat) + zlen rest) = true) as -> by (apply Z.leb_le; lia).
    rewrite bool_decide_eq_true_2 by done. cbn. by rewrite app_nil_r.
  - apply Forall_cons in Hok as [Hc Hok]. apply Forall_cons in Hk as [[Hk1 _] Hk].
    change (chunks (c :: cs)) with (chunk_bytes c ++ chunks cs). rewrite <- !(assoc_L (++)).
    set (suf := chunks cs ++ chunk_bytes idat ++ rest). destruct (at_chunk pre c suf Hc) as (E1 & E2 & _ & E4).
    pose proof (zlen_nonneg (c_data c)). pose proof (zlen_nonneg suf). rewrite E1, E2, E4.
    assert ((zlen pre + 8 <=? zlen pre + 12 + zlen (c_data c) + zlen suf) = true) as -> by (apply Z.leb_le; lia).
    rewrite bool_decide_eq_false_2 by done.
    assert ((zlen pre + 12 + zlen (c_data c) >? zlen pre + 12 + zlen (c_data c) + zlen suf) = false) as -> by (rewrite Z.gtb_ltb; apply Z.ltb_ge; lia).
    cbn [orb]. replace (zlen pre + 12 + zlen (c_data c)) with (zlen (pre ++ chunk_bytes c)) by (rewrite zlen_app, zlen_png_chunk by done; lia).
    rewrite (assoc_L (++) pre). unfold suf. rewrite (IH fuel (pre ++ chunk_bytes c) idat rest Hok Hk Hi Ei) by (cbn in Hf; lia). by rewrite <- !(assoc_L (++)).
Qed.

(** The reader passes chunks that do not hold the key. *)
Definition not_key (wanted : bytes) (c : chunk) : Prop :=
  c_kind c <> bs "tEXt" \/ exists k v, split_once [0] (c_data c) = Some (k, v) /\ k <> wanted.

Lemma text_step fuel wanted pre c suf : chunk_ok c -> not_key wanted c ->
  text_from (S fuel) (pre ++ chunk_bytes c ++ suf) wanted (zlen pre)
  = text_from fuel ((pre ++ chunk_bytes c) ++ suf) wanted (zlen (pre ++ chunk_bytes c)).
Proof.
  intros Hc Hn. cbn [text_from]. destruct (at_chunk pre c suf Hc) as (E1 & E2 & E3 & E4).
  pose proof (zlen_nonneg (c_data c)). pose proof (zlen_nonneg suf). unfold get_range. rewrite E1, E2, E3, E4.
  assert ((zlen pre + 8 <=? zlen pre + 12 + zlen (c_data c) + zlen suf) = true) as -> by (apply Z.leb_le; lia).
  assert ((zlen pre + 8 + zlen (c_data c) <=? zlen pre + 12 + zlen (c_data c) + zlen suf) = true) as -> by (apply Z.leb_le; lia).
  cbn [mbind option_bind]. replace (zlen pre + 12 + zlen (c_data c)) with (zlen (pre ++ chunk_bytes c)) by (rewrite zlen_app, zlen_png_chunk by done; lia).
  rewrite (assoc_L (++) pre). case_bool_decide as Hk; [|done]. destruct Hn as [Hn|(k & v & -> & Hn)]; [done|]. cbn [mbind option_bind]. by rewrite bool_decide_eq_false_2.
Qed.
Lemma text_skip wanted cs : forall fuel pre suf, Forall chunk_ok cs -> Forall (not_key wanted) cs -> (length cs <= fuel)%nat ->
  text_from fuel (pre ++ chunks cs ++ suf) wanted (zlen pre)
  = text_from (fuel - length cs) ((pre ++ chunks cs) ++ suf) wanted (zlen (pre ++ chunks cs)).
Proof.
  induction cs as [|c cs IH]; intros fuel pre suf Hok Hn Hf.
  - cbn. rewrite app_nil_r. by rewrite Nat.sub_0_r.
  - apply Forall_cons in Hok as [Hc Hok]. apply Forall_cons in Hn as [Hn1 Hn]. destruct fuel as [|fuel]; [cbn in Hf; lia|].
    change (chunks (c :: cs)) with (chunk_bytes c ++ chunks cs). rewrite <- !(assoc_L (++)). rewrite text_step by done.
    rewrite IH by (done || cbn in Hf; lia). cbn [length Nat.sub]. by rewrite <- !(assoc_L (++)).
Qed.
Lemma text_found fuel wanted pre c suf v : chunk_ok c -> c_kind c = bs "tEXt" -> split_once [0] (c_data c) = Some (wanted, v) -> utf8_valid v = true ->
  text_from (S fuel) (pre ++ chunk_bytes c ++ suf) wanted (zlen pre) = Some v.
Proof.
  intros Hc Hk Hs Hv. cbn [text_from]. destruct (at_chunk pre c suf Hc) as (E1 & E2 & E3 & E4).
  pose proof (zlen_nonneg (c_data c)). pose proof (zlen_nonneg suf). unfold get_range. rewrite E1, E2, E3, E4.
  assert ((zlen pre + 8 <=? zlen pre + 12 + zlen (c_data c) + zlen suf) = true) as -> by (apply Z.leb_le; lia).
  assert ((zlen pre + 8 + zlen (c_data c) <=? zlen pre + 12 + zlen (c_data c) + zlen suf) = true) as -> by (apply Z.leb_le; lia).
  cbn [mbind option_bind]. rewrite bool_decide_eq_true_2 by done. rewrite Hs. cbn [mbind option_bind]. rewrite bool_decide_eq_true_2 by done. by rewrite Hv.
Qed.

(** ** Keys *)

Definition key_ok (kv : bytes * bytes) : Prop :=
  kv.1 <> [] /\ zlen kv.1 <= 79 /\ (0 ∉ kv.1) /\ (0 ∉ kv.2) /\ zlen kv.1 + 1 + zlen kv.2 < 2 ^ 32 /\ utf8_valid kv.2 = true.

Lemma split_once_zero a b : 0 ∉ a -> split_once [0] (a ++ [0] ++ b) = Some (a, b).
Proof.
  induction a as [|x a IH]; intros Ha; [done|]. apply not_elem_of_cons in Ha as [Hx Ha]. cbn [app split_once].
  change ([0] ++ b) with (0 :: b) in IH. rewrite IH by done.
  assert (has_prefix [0] (x :: a ++ 0 :: b) = false) as -> by (apply bool_decide_eq_false_2; intros E; injection E as E; congruence). done.
Qed.

Section Keys.
Context (crc32 : bytes -> Z).
Definition key_chunk (kv : bytes * bytes) : chunk :=
  let data := kv.1 ++ [0] ++ kv.2 in mkChunk (bs "tEXt") data (be_bytes 4 (crc32 (bs "tEXt" ++ data))).
Lemma key_chunk_ok kv : key_ok kv -> chunk_ok (key_chunk kv).
Proof.
  intros (H1 & H2 & H3 & H4 & H5 & H6). split_and!; [done|apply zlen_be_bytes|]. cbn [key_chunk c_data]. rewrite !zlen_app. change (zlen [0]) with 1. lia.
Qed.
Lemma text_chunk_bytes kv : key_ok kv -> text_chunk crc32 kv = chunk_bytes (key_chunk kv).
Proof.
  intros (H1 & H2 & H3 & H4 & H5 & H6). destruct kv as [k v]. cbn [fst snd] in *. unfold text_chunk, chunk_bytes, key_chunk.
  rewrite (bool_decide_eq_false_2 (k = [])) by done. rewrite (bool_decide_eq_false_2 (0 ∈ v)) by done.
  assert ((zlen k >? 79) = false) as -> by (rewrite Z.gtb_ltb; apply Z.ltb_ge; lia). cbn [orb c_data c_kind c_crc fst snd].
  pose proof (zlen_nonneg (k ++ [0] ++ v)).
  rewrite as_u32_id by (unfold u32_ok; rewrite !zlen_app in *; change (zlen [0]) with 1 in *; lia). done.
Qed.
Lemma text_chunks keys : Forall key_ok keys -> concat (text_chunk crc32 <$> keys) = chunks (key_chunk <$> keys).
Proof.
  induction 1 as [|kv keys Hk _ IH]; [done|]. cbn. rewrite text_chunk_bytes by done. unfold chunks in *. by rewrite IH.
Qed.

Lemma length_chunks cs : Forall chunk_ok cs -> (length cs <= length (chunks cs))%nat.
Proof.
  induction 1 as [|c cs Hc _ IH]; [done|]. change (chunks (c :: cs)) with (chunk_bytes c ++ chunks cs). rewrite length_app. cbn.
  pose proof (zlen_png_chunk c Hc). pose proof (zlen_nonneg (c_data c)). unfold zlen in *. lia.
Qed.

(** The keys go between the chunks of the header and the picture, which stay as they are. *)
Lemma with_text_plain png keys : plain_png png -> Forall key_ok keys -> exists cs idat rest,
  png = SIGNATURE ++ chunks cs ++ chunk_bytes idat ++ rest
  /\ png_with_text crc32 png keys = SIGNATURE ++ chunks (cs ++ (key_chunk <$> keys)) ++ chunk_bytes idat ++ rest
  /\ Forall chunk_ok cs /\ Forall (fun c => c_kind c <> bs "tEXt") cs.
Proof.
  intros (cs & idat & rest & -> & Hok & Hi & Hk) Hkeys. apply Forall_app in Hok as [Hok [Hiok _]%Forall_cons].
  exists cs, idat, rest. split_and!; [done| |done|eapply Forall_impl; [done|]; by intros c [_ ?]].
  unfold png_with_text. set (png := SIGNATURE ++ _).
  assert (Hlen : 8 <= zlen png) by (unfold png; rewrite zlen_app; change (zlen SIGNATURE) with 8; pose proof (zlen_nonneg (chunks cs ++ chunk_bytes idat ++ rest)); lia).
  assert ((zlen png <? 8) = false) as -> by (apply Z.ltb_ge; lia).
  rewrite bool_decide_eq_false_2 by (intros H; apply H; unfold png; by rewrite ztake_app). cbn [orb].
  change 8 with (zlen SIGNATURE) at 1. assert (Hins : insert_point (length png) png (zlen SIGNATURE) = zlen (SIGNATURE ++ chunks cs)).
  { apply insert_point_chunks; try done. unfold png. rewrite !length_app. pose proof (length_chunks cs Hok). cbn. lia. }
  rewrite Hins. unfold png. rewrite !(assoc_L (++) SIGNATURE). rewrite ztake_app by done. rewrite zdrop_app_exact by done.
  rewrite text_chunks by done. unfold chunks. rewrite fmap_app, concat_app. by rewrite <- !(assoc_L (++)).
Qed.

(** What is written into a PNG is read back. *)
Theorem keys_read_back png keys k v : plain_png png -> Forall key_ok keys -> NoDup keys.*1 -> (k, v) ∈ keys ->
  png_text (png_with_text crc32 png keys) k = Some v.
Proof.
  intros Hp Hkeys Hn Hin. destruct (with_text_plain png keys Hp Hkeys) as (cs & idat & rest & _ & -> & Hok & Hk).
  apply list_elem_of_split in Hin as (l1 & l2 & ->). rewrite fmap_app in Hn. apply NoDup_app in Hn as (_ & Hn & _).
  apply Forall_app in Hkeys as [H1 [Hkv H2]%Forall_cons]. unfold png_text.
  set (before := cs ++ (key_chunk <$> l1)).
  assert (Hb : SIGNATURE ++ chunks (cs ++ (key_chunk <$> l1 ++ (k, v) :: l2)) ++ chunk_bytes idat ++ rest
    = SIGNATURE ++ chunks before ++ chunk_bytes (key_chunk (k, v)) ++ (chunks (key_chunk <$> l2) ++ chunk_bytes idat ++ rest)).
  { unfold before, chunks. rewrite !fmap_app. rewrite ?fmap_cons, !concat_app. cbn [concat]. by rewrite <- !(assoc_L (++)). }
  rewrite Hb. set (suf := chunks (key_chunk <$> l2) ++ _).
  assert (Hbok : Forall chunk_ok before).
  { apply Forall_app. split; [done|]. apply Forall_fmap. eapply Forall_impl; [exact H1|]. apply key_chunk_ok. }
  assert (Hbn : Forall (not_key k) before).
  { apply Forall_app. split; [eapply Forall_impl; [done|]; intros c Hc; by left|]. apply Forall_fmap, Forall_forall. intros [k' v'] Hin. right.
    rewrite Forall_forall in H1. destruct (H1 _ Hin) as (_ & _ & Hz & _). exists k', v'. split; [by apply split_once_zero|].
    intros ->. apply (Hn k); [|cbn; by left]. apply list_elem_of_fmap. by exists (k, v'). }
  pose proof (length_chunks before Hbok). change 8 with (zlen SIGNATURE).
  rewrite text_skip by (done || rewrite !length_app; lia).
  set (fuel := (length _ - length before)%nat).
  assert (Hf : exists f, fuel = S f).
  { exists (pred fuel). unfold fuel. rewrite !length_app. cbn. lia. }
  destruct Hf as [f ->].
  apply text_found; [by apply key_chunk_ok|done| |apply Hkv]. apply split_once_zero. apply Hkv.
Qed.
End Keys.

(** ** Names and times *)

(** A path that is text, as long as paths are. *)
Definition textual (p : bytes) : Prop := Forall is_byte p /\ utf8_valid p = true /\ zlen p < 2 ^ 16.

Lemma file_uri_inj p q : textual p -> textual q -> file_uri p = file_uri q -> p = q.
Proof.
  intros (Hp & Vp & _) (Hq & Vq & _). unfold file_uri. rewrite !from_utf8_lossy_valid by done. intros E%app_inv_head.
  by rewrite <- (unescape_encoded p Hp), <- (unescape_encoded q Hq), E.
Qed.
Lemma encode_byte_len b : zlen (encode_byte b) <= 3.
Proof. unfold encode_byte. by destruct (unreserved b). Qed.
Lemma unreserved_zero b : unreserved b = true -> b <> 0.
Proof. by intros H ->. Qed.
Lemma encode_byte_nonzero b : is_byte b -> 0 ∉ encode_byte b.
Proof.
  intros Hb. assert (Hh : forall n, 0 <= n -> hex_upper n <> 0) by (intros n Hn; unfold hex_upper; destruct (n <? 10); lia).
  unfold is_byte in Hb. unfold encode_byte. destruct (unreserved b) eqn:E.
  - apply unreserved_zero in E. set_solver.
  - pose proof (Hh (b / 16) ltac:(apply Z.div_pos; lia)). pose proof (Hh (b mod 16) ltac:(apply Z.mod_pos_bound; lia)). set_solver.
Qed.
Lemma file_uri_ok p : textual p -> zlen (file_uri p) < 2 ^ 20 /\ (0 ∉ file_uri p) /\ utf8_valid (file_uri p) = true.
Proof.
  intros (Hp & Vp & Lp). destruct (encode_uri_word p Hp Vp) as [Ha _]. unfold file_uri. rewrite from_utf8_lossy_valid by done.
  assert (Hl : zlen (concat (encode_byte <$> p)) <= 3 * zlen p /\ (0 ∉ concat (encode_byte <$> p))).
  { clear -Hp. induction Hp as [|b p Hb _ [IH1 IH2]]; [split; [done|apply not_elem_of_nil]|]. cbn. rewrite zlen_app, zlen_cons.
    pose proof (encode_byte_len b). split; [lia|]. apply not_elem_of_app. split; [by apply encode_byte_nonzero|done]. }
  destruct Hl as [L1 L2]. split_and!.
  - rewrite zlen_app. change (zlen (bs "file://")) with 7. lia.
  - apply not_elem_of_app. split; [by apply (bool_decide_unpack _)|done].
  - apply utf8_valid_ascii. unfold encode_uri in Ha. by rewrite from_utf8_lossy_valid in Ha.
Qed.

Lemma fmt_dec_text z : z < 2 ^ 64 -> zlen (fmt_dec z) <= 64 /\ (0 ∉ fmt_dec z) /\ utf8_valid (fmt_dec z) = true.
Proof.
  intros Hz. destruct (fmt_dec_digits z) as [Hd _]. split_and!; [by apply (fmt_dec_len 64); [lia|]| |].
  - intros Hin. rewrite Forall_forall in Hd. by specialize (Hd 0 Hin).
  - apply utf8_valid_ascii. eapply Forall_impl; [done|]. intros b Hb. cbn in Hb. unfold is_digit, in_range in Hb. apply andb_true_iff in Hb as [H1 H2].
    apply Z.leb_le in H1, H2. lia.
Qed.
Lemma mtime_secs_inj a b : 0 <= a -> 0 <= b -> mtime_secs a = mtime_secs b -> a = b.
Proof.
  intros Ha Hb E. unfold mtime_secs, fmt_dec in E. rewrite !Z.max_l in E by done.
  assert (H : forall s t, bs s = bs t -> s = t).
  { clear. intros s. induction s as [|x s IH]; intros [|y t] E; try done. injection E as E1 E2.
    f_equal; [|by apply IH]. apply N2Z.inj in E1. by rewrite <- (Ascii.ascii_N_embedding x), <- (Ascii.ascii_N_embedding y), E1. }
  apply H, (inj pretty) in E. lia.
Qed.

(** ** The cache *)

Section Current.
Context (uri_md5 : bytes -> bytes) (cache_dir : option bytes) (crc32 : bytes -> Z) (encode_thumb : bytes -> Size -> option bytes)
  (installed : list Thumbnailer) (render : bytes -> list bytes -> bytes -> option bytes) (out : bytes).
(** The encoder writes PNG files without texts. *)
Hypothesis encodes_png : forall raw s png, encode_thumb raw s = Some png -> plain_png png.

Abbreviation cached_now := (cached uri_md5 cache_dir).
Abbreviation world_after := (thumbs_run uri_md5 cache_dir crc32 encode_thumb installed render out).
Abbreviation raw_now := (raw_of installed render out).

(** A picture of content [c] of file [p], with the keys of a file of time [m]. *)
Definition picture (p : bytes) (m : Z) (c png : bytes) : Prop :=
  exists s n plain, encode_thumb (raw_now p c s) s = Some plain /\ png = png_with_text crc32 plain (thumb_keys (file_uri p) m n).

Lemma thumb_keys_ok p m n : textual p -> m < 2 ^ 64 -> n < 2 ^ 64 -> Forall key_ok (thumb_keys (file_uri p) m n).
Proof.
  intros Hp Hm Hn. destruct (file_uri_ok p Hp) as (U1 & U2 & U3). destruct (fmt_dec_text n Hn) as (N1 & N2 & N3).
  destruct (fmt_dec_text (Z.max m 0) ltac:(lia)) as (M1 & M2 & M3).
  assert (Hk : forall k v, k ∈ [bs "Thumb::URI"; bs "Thumb::MTime"; bs "Thumb::Size"] -> zlen v < 2 ^ 20 -> 0 ∉ v -> utf8_valid v = true -> key_ok (k, v)).
  { intros k v Hk H1 H2 H3. assert (H : k <> [] /\ zlen k <= 79 /\ (0 ∉ k)).
    { repeat (apply elem_of_cons in Hk as [->|Hk]; [by apply (bool_decide_unpack _); vm_compute|]). by apply elem_of_nil in Hk. }
    destruct H as (H4 & H5 & H6). split_and!; try done. cbn. lia. }
  assert (forall x : Z, x <= 64 -> x < 2 ^ 20) as H64 by lia. unfold thumb_keys.
  apply Forall_cons. split; [|apply Forall_cons; split; [|apply Forall_singleton]].
  - apply Hk; [by left|exact U1|exact U2|exact U3].
  - apply Hk; [right; by left|apply H64, M1|exact M2|exact M3].
  - apply Hk; [right; right; by left|apply H64, N1|exact N2|exact N3].
Qed.

(** What a kept picture says it is of. *)
Lemma kept_says p m n raw s png : textual p -> m < 2 ^ 64 -> n < 2 ^ 64 -> encode_thumb raw s = Some png ->
  let kept := png_with_text crc32 png (thumb_keys (file_uri p) m n) in
  png_text kept (bs "Thumb::URI") = Some (file_uri p) /\ png_text kept (bs "Thumb::MTime") = Some (mtime_secs m).
Proof.
  intros Hp Hm Hn He kept. assert (Hk := thumb_keys_ok p m n Hp Hm Hn). apply encodes_png in He.
  assert (Hd : NoDup (thumb_keys (file_uri p) m n).*1) by (apply (bool_decide_unpack _); by vm_compute).
  split; (apply keys_read_back; [done|done|done|]); [by left|right; by left].
Qed.

(** The file [png] in the cache says nothing false about [p]: it is of a
    time that was, and of the content if the time is still that. *)
Definition faithful (w : thumbs_world) (png : bytes) : Prop :=
  forall p m, textual p -> 0 <= m -> png_text png (bs "Thumb::URI") = Some (file_uri p) -> png_text png (bs "Thumb::MTime") = Some (mtime_secs m) ->
  m <= default (-1) (stamps w !! p) /\ forall c, sources (t_store w) !! p = Some (m, c) -> picture p m c png.

(** A worker: its file was that old once, and what it has drawn is the content if the time is still that. *)
Definition sound_job (w : thumbs_world) (j : job) : Prop :=
  let seen (k : key) m := textual k.1 /\ 0 <= m < 2 ^ 64 /\ m <= default (-1) (stamps w !! k.1) in
  match j with
  | Fetched k | Missed k | Unfailed k => textual k.1
  | Stamped k m => seen k m
  | Measured k m n => seen k m /\ n < 2 ^ 64
  | Drawn k m n raw => seen k m /\ n < 2 ^ 64 /\ forall c, sources (t_store w) !! k.1 = Some (m, c) -> raw = Some (raw_now k.1 c k.2)
  end.

Record thumbs_inv (w : thumbs_world) : Prop := mkThumbsInv {
  ti_source p m c : sources (t_store w) !! p = Some (m, c) -> stamps w !! p = Some m /\ 0 <= m < 2 ^ 64 /\ zlen c < 2 ^ 64;
  ti_queue : Forall (fun k : key => textual k.1) (queue (t_pool w));
  ti_busy : Forall (sound_job w) (busy (t_pool w));
  ti_disk f png : disk (t_store w) !! f = Some png -> faithful w png }.

Definition sound_event (e : thumbs_event) : Prop :=
  match e with Requested k => textual k.1 | Written _ m c => m < 2 ^ 64 /\ zlen c < 2 ^ 64 | _ => True end.

(** Nothing of a world but its pool matters. *)
Lemma same_files w w' : t_store w' = t_store w -> stamps w' = stamps w ->
  (forall png, faithful w png -> faithful w' png) /\ (forall j, sound_job w j -> sound_job w' j).
Proof. intros Es Et. unfold faithful, sound_job. rewrite Es, Et. done. Qed.

Lemma pool_inv w p : thumbs_inv w -> Forall (fun k : key => textual k.1) (queue p) -> Forall (sound_job w) (busy p) ->
  thumbs_inv (mkThumbs p (t_store w) (stamps w)).
Proof. intros [H1 H2 H3 H4] Hq Hb. by split. Qed.

(** A file is written, or goes. *)
Lemma files_inv w p entry stamp :
  thumbs_inv w -> default (-1) (stamps w !! p) <= default (-1) stamp ->
  (forall m c, entry = Some (m, c) -> stamp = Some m /\ default (-1) (stamps w !! p) < m /\ 0 <= m < 2 ^ 64 /\ zlen c < 2 ^ 64) ->
  thumbs_inv (mkThumbs (t_pool w) (mkStore (partial_alter (fun _ => entry) p (sources (t_store w))) (disk (t_store w)))
    (partial_alter (fun _ => stamp) p (stamps w))).
Proof.
  intros [H1 H2 H3 H4] Hs He.
  assert (Hst : forall q, default (-1) (stamps w !! q) <= default (-1) (partial_alter (fun _ => stamp) p (stamps w) !! q)).
  { intros q. destruct (decide (q = p)) as [->|Hne]; [by rewrite lookup_partial_alter_eq|by rewrite lookup_partial_alter_ne]. }
  assert (Hold : forall q m c, m <= default (-1) (stamps w !! q) ->
    partial_alter (fun _ => entry) p (sources (t_store w)) !! q = Some (m, c) -> sources (t_store w) !! q = Some (m, c)).
  { intros q m c Hm Hq. destruct (decide (q = p)) as [->|Hne]; [|by rewrite lookup_partial_alter_ne in Hq].
    rewrite lookup_partial_alter_eq in Hq. destruct (He m c Hq) as (_ & Hlt & _). lia. }
  split; cbn [t_store t_pool stamps sources disk].
  - intros q m c Hq. destruct (decide (q = p)) as [->|Hne].
    + rewrite lookup_partial_alter_eq in Hq. rewrite lookup_partial_alter_eq. destruct (He m c Hq) as (-> & _ & H). done.
    + rewrite lookup_partial_alter_ne in Hq by done. rewrite lookup_partial_alter_ne by done. by apply H1.
  - done.
  - eapply Forall_impl; [done|]. intros j. unfold sound_job. cbn [stamps t_store sources].
    destruct j as [k|k|k|k m|k m n|k m n raw]; [done|done|done|..]; pose proof (Hst k.1) as Hk; cbn in Hk.
    + intros (Ha & Hb & Hc). split_and!; [done|lia..].
    + intros ((Ha & Hb & Hc) & Hn). split_and!; [done|lia..].
    + intros ((Ha & Hb & Hc) & Hn & Hd). split_and!; [done|lia..|]. intros c Hq. apply Hd. by apply Hold.
  - intros f png Hf q m Hq Hm Hu Ht. destruct (H4 f png Hf q m Hq Hm Hu Ht) as [Ha Hb]. split; [pose proof (Hst q); cbn; lia|].
    intros c Hc. cbn in Hc. apply Hb. by apply Hold.
Qed.

(** A file of the cache is written. *)
Lemma disk_inv w f png p : thumbs_inv w -> faithful w png -> Forall (fun k : key => textual k.1) (queue p) -> Forall (sound_job w) (busy p) ->
  thumbs_inv (mkThumbs p (mkStore (sources (t_store w)) (<[f := png]> (disk (t_store w)))) (stamps w)).
Proof.
  intros [H1 H2 H3 H4] Hp Hq Hb. split; [done|done|done|]. cbn. intros f' png' [[_ <-]|[_ Hf]]%lookup_insert_Some; [done|]. by apply (H4 f').
Qed.
Lemma faithful_empty w : faithful w [].
Proof. intros p m _ _ H. done. Qed.
(** A job that is over leaves a picture that is faithful. *)
Lemma drawn_faithful w k m n raw png : sound_job w (Drawn k m n raw) -> raw ≫= (fun r => encode_thumb r k.2) = Some png ->
  faithful w (png_with_text crc32 png (thumb_keys (file_uri k.1) m n)).
Proof.
  intros ((Hk & Hm & Hs) & Hn & Hc) He p m' Hp Hm' Hu Ht. destruct raw as [r|]; [|done]. cbn in He.
  destruct (kept_says k.1 m n r k.2 png Hk ltac:(lia) Hn He) as [Eu Em]. rewrite Eu in Hu. rewrite Em in Ht.
  apply (inj Some), file_uri_inj in Hu; [|done..]. apply (inj Some), mtime_secs_inj in Ht; [|lia..]. subst p m'. split; [done|].
  intros c Hsrc. injection (Hc c Hsrc) as ->. by exists k.2, n, png.
Qed.

Lemma Forall_delete {A : Type} (P : A -> Prop) (l : list A) i : Forall P l -> Forall P (delete i l).
Proof. intros H. rewrite delete_take_drop. apply Forall_app. split; [by apply Forall_take|by apply Forall_drop]. Qed.

Lemma works_inv i w : thumbs_inv w -> thumbs_inv (thumbs_step uri_md5 cache_dir crc32 encode_thumb installed render out w (Works i)).
Proof.
  intros Hw. pose proof Hw as [H1 H2 H3 H4]. cbn [thumbs_step]. destruct (busy (t_pool w) !! i) as [j|] eqn:Hi; [|done].
  pose proof (proj1 (Forall_lookup _ _) H3 i j Hi) as Hj. pose proof (Forall_delete _ _ i H3) as Hdel.
  assert (Hgo : forall j', sound_job w j' -> thumbs_inv (mkThumbs (mkPool (queue (t_pool w)) (done (t_pool w)) (<[i := j']> (busy (t_pool w)))) (t_store w) (stamps w))).
  { intros j' Hj'. apply pool_inv; [done|done|]. by apply Forall_insert. }
  assert (Hend : forall d, thumbs_inv (mkThumbs (mkPool (queue (t_pool w)) (done (t_pool w) ++ [d]) (delete i (busy (t_pool w)))) (t_store w) (stamps w))).
  { intros d. by apply pool_inv. }
  destruct j as [k|k|k|k m|k m n|k m n raw]; cbn [work].
  - destruct (cached _ _ _ _ _); [apply Hend|by apply Hgo].
  - case_bool_decide; [apply Hend|by apply Hgo].
  - destruct (sources (t_store w) !! k.1) as [[m c]|] eqn:Hs; [|apply Hend]. apply Hgo. destruct (H1 _ _ _ Hs) as (E1 & E2 & E3).
    split_and!; [done|lia..|rewrite E1; cbn; lia].
  - destruct (sources (t_store w) !! k.1) as [[m' c]|] eqn:Hs; [|apply Hend]. apply Hgo. split; [done|]. by destruct (H1 _ _ _ Hs) as (_ & _ & E3).
  - apply Hgo. destruct Hj as [Hj Hn]. split; [done|]. split; [done|]. intros c Hs. by rewrite Hs.
  - unfold keep_thumb. destruct (raw ≫= _) as [png|] eqn:He.
    + apply (disk_inv w _ _ (mkPool (queue (t_pool w)) _ (delete i (busy (t_pool w))))); try done. by eapply drawn_faithful.
    + apply (disk_inv w _ _ (mkPool (queue (t_pool w)) _ (delete i (busy (t_pool w))))); try done.
Qed.

Lemma thumbs_step_inv w e : sound_event e -> thumbs_inv w -> thumbs_inv (thumbs_step uri_md5 cache_dir crc32 encode_thumb installed render out w e).
Proof.
  intros He Hw. pose proof Hw as [H1 H2 H3 H4]. destruct e as [k| |i| |p m c|p]; [| |by apply works_inv|..]; cbn [thumbs_step].
  - apply pool_inv; [done|..]; unfold request; destruct (_ >=? _); try done; case_bool_decide; try done. cbn. apply Forall_app. by split; [|apply Forall_singleton].
  - unfold fetch. destruct (queue (t_pool w)) as [|k q] eqn:Eq; [by destruct w|]. destruct (_ <? _)%nat; [|by destruct w].
    apply Forall_cons in H2 as [Hk H2]. apply pool_inv; [done|done|]. cbn. apply Forall_app. by split; [|apply Forall_singleton].
  - by apply pool_inv.
  - destruct (_ && _) eqn:E; [|done]. apply andb_true_iff in E as [E1%Z.leb_le E2%Z.ltb_lt].
    apply (files_inv w p (Some (m, c)) (Some m)); [done|cbn; lia|]. intros m' c' [= <- <-]. destruct He. by split_and!.
  - assert (Hst : stamps w = partial_alter (fun _ => stamps w !! p) p (stamps w)).
    { apply map_eq. intros q. destruct (decide (q = p)) as [->|Hne]; [by rewrite lookup_partial_alter_eq|by rewrite lookup_partial_alter_ne]. }
    rewrite Hst. apply (files_inv w p None (stamps w !! p)); [done|done|done].
Qed.
Lemma thumbs_run_inv es : Forall sound_event es -> thumbs_inv (world_after es).
Proof.
  induction es as [|e es IH] using rev_ind; intros He.
  - split; cbn; [|constructor|constructor|]; intros; set_solver.
  - apply Forall_app in He as [Hes [He _]%Forall_cons]. unfold thumbs_run. rewrite foldl_snoc. apply thumbs_step_inv; [done|by apply IH].
Qed.

(** C31: A cached picture is one of the file as it is. Whatever pictures are asked for,
    however the four workers go on while files are written and removed, if
    writing a file gives it a later time in seconds, and names are
    text: a picture the cache has for a file is made from the content the file has
    now, and says so in its keys, also if the file was written while the picture was being made. *)
Theorem cached_is_current (es : list thumbs_event) (p : bytes) (s : Size) (t : bytes) :
  Forall sound_event es -> textual p -> cached_now (t_store (world_after es)) p s = Some t ->
  exists m c, sources (t_store (world_after es)) !! p = Some (m, c) /\ picture p m c t.
Proof.
  intros Hes Hp. set (w := world_after es). destruct (thumbs_run_inv es Hes) as [H1 _ _ H4]. fold w in H1, H4. unfold cached.
  destruct (sources (t_store w) !! p) as [[m c]|] eqn:Hs; [|done]. cbn [mbind option_bind]. destruct (H1 _ _ _ Hs) as (_ & Hm & _).
  destruct (read_cache _ _ _ _ _) as [png|] eqn:Hr; [|done]. cbn [mbind option_bind].
  case_bool_decide as Ht; [|done]. case_bool_decide as Hu; [|done]. unfold into_thumb. case_bool_decide; [done|]. intros [= <-].
  assert (Hd : exists f, disk (t_store w) !! f = Some png).
  { unfold read_cache in Hr. destruct (disk (t_store w) !! _) as [x|] eqn:E in Hr; [injection Hr as <-|]; by eexists. }
  destruct Hd as [f Hf]. destruct (H4 f png Hf p m Hp ltac:(lia) Hu Ht) as [_ Hpic]. exists m, c. split; [done|]. by apply Hpic.
Qed.
End Current.

(** ** A run *)

(** An encoder that puts small contents into one chunk as they are. *)
Definition plain_encode (raw : bytes) (s : Size) : option bytes :=
  if (0 <? zlen raw) && (zlen raw <? 100) then Some (SIGNATURE ++ chunk_bytes (mkChunk (bs "IDAT") raw [0; 0; 0; 0])) else None.
Lemma plain_encode_png raw s png : plain_encode raw s = Some png -> plain_png png.
Proof.
  unfold plain_encode. destruct (_ && _) eqn:E; [|done]. intros [= <-]. apply andb_true_iff in E as [_ E%Z.ltb_lt].
  exists [], (mkChunk (bs "IDAT") raw [0; 0; 0; 0]), []. split_and!; [by rewrite !app_nil_r|apply Forall_singleton; split_and!; [done|done|cbn; lia]|done|constructor].
Qed.

Definition a_photo : bytes := bs "/mnt/phone/a.jpg".
Definition making (rounds : nat) : list thumbs_event := [Requested (a_photo, Large); FetchedNext] ++ replicate rounds (Works 0).
(** The file is written again while its picture is being made. *)
Definition raced : list thumbs_event :=
  Written a_photo 5 [1; 2] :: making 4 ++ [Written a_photo 6 [3]; Works 0; Works 0] ++ making 6.
Abbreviation example_run := (thumbs_run (fun uri => uri) None (fun _ => 0) plain_encode [] (fun _ _ _ => None) []).

Lemma a_photo_textual : textual a_photo.
Proof. split_and!; [apply (bool_decide_unpack _); by vm_compute|by vm_compute|by vm_compute]. Qed.
Lemma raced_sound : Forall sound_event raced.
Proof.
  assert (Hm : forall n, Forall sound_event (making n)).
  { intros n. apply Forall_app. split; [|by apply Forall_replicate]. apply Forall_cons. split; [apply a_photo_textual|]. by apply Forall_singleton. }
  assert (Hw : forall m c, m < 2 ^ 64 -> zlen c < 2 ^ 64 -> sound_event (Written a_photo m c)) by (by split).
  apply Forall_cons. split; [by apply Hw|]. apply Forall_app. split; [apply Hm|]. apply Forall_app. split; [|apply Hm].
  apply Forall_cons. split; [by apply Hw|]. apply Forall_cons. split; [done|by apply Forall_singleton].
Qed.

Lemma cached_is_current_witness :
  exists t m c, cached (fun uri => uri) None (t_store (example_run raced)) a_photo Normal = Some t
  /\ sources (t_store (example_run raced)) !! a_photo = Some (m, c) /\ c = [3]
  /\ picture (fun _ => 0) plain_encode [] (fun _ _ _ => None) [] a_photo m c t.
Proof.
  destruct (cached (fun uri => uri) None (t_store (example_run raced)) a_photo Normal) as [t|] eqn:E; [|by vm_compute in E].
  destruct (cached_is_current (fun uri => uri) None (fun _ => 0) plain_encode [] (fun _ _ _ => None) [] plain_encode_png raced a_photo Normal t)
    as (m & c & Hs & Hp).
  - exact raced_sound.
  - exact a_photo_textual.
  - exact E.
  - exists t, m, c. split_and!; [done|exact Hs| |exact Hp].
    assert (H : sources (t_store (example_run raced)) !! a_photo = Some (6, [3])) by (by vm_compute). congruence.
Defined.

(** ** What goes wrong *)

(** A failure is never forgotten: a file that could not be read once, say because
    it was still being copied, gets no picture when it is whole. *)
Theorem failure_outlives_fix :
  let w := example_run (Written a_photo 5 [] :: making 6 ++ [Written a_photo 6 [1]] ++ making 6) in
  (snd <$> done (t_pool w)) = [None; None]
  /\ (generate (fun uri => uri) None (fun _ => 0) plain_encode [] (fun _ _ _ => None) [] (mkStore (sources (t_store w)) ∅) a_photo Large).1 <> None.
Proof. split; by vm_compute. Qed.

Definition ffmpeg : Thumbnailer := mkThumbnailer (bs "ffmpegthumbnailer") (bs "ffmpegthumbnailer -i %i -o %o -s %s") [bs "video/mp4"].
(** The programs are looked up with the extension as it is written, the requests made with it in lower case. *)
Theorem capital_extension_no_program :
  chosen [ffmpeg] (bs "/mnt/phone/clip.mp4") = Some ffmpeg /\ chosen [ffmpeg] (bs "/mnt/phone/CLIP.MP4") = None
  /\ wants (mkPreviews ∅ ∅) (bs "/mnt/phone/CLIP.MP4", Large) (ext (mkEntry (bs "CLIP.MP4") false false 1 0 0)) = true.
Proof. split_and!; by vm_compute. Qed.

(** A picture that is shown is not asked for again, whatever becomes of the file and its listing. *)
Theorem shown_picture_stays (v : Previews) (k : key) (e : bytes) (t : bytes) : thumbs v !! k = Some t ->
  wants v k e = false /\ wants (forget_misses v) k e = false.
Proof. intros H. unfold wants, forget_misses. cbn. rewrite H. by destruct (negb (bool_decide (mimes_for e = []))). Qed.

(** A picture that is being made is queued once more. *)
Theorem running_picture_requeued :
  queue (t_pool (example_run [Written a_photo 5 [1]; Requested (a_photo, Large); FetchedNext; Requested (a_photo, Large)])) = [(a_photo, Large)].
Proof. by vm_compute. Qed.
