(* ===== verification/Prefs.v ===== *)
(** * Preferences of the window (adb-gui/src/state/prefs.rs)

    What the user last chose, how it is clamped, written to a file and read
    back, and the part of [adb-gui/src/app.rs] that changes and persists it.
    The disk keeps apart what a reader sees and what a loss of power leaves:
    the content of a file is safe once it was synced, and the changes of a
    directory reach the disk in their order, some time later. JSON is read and
    written by [serde_json], which is a parameter. *)

From stdpp Require Import base gmap list strings.
From S2P Require Import Prelude RustStd Text GuiModels.

(** ** Numbers *)

(** An [f32]: a finite one is a multiple of 2^-149, the smallest there is; zero has no sign here. *)
Inductive f32 := Num (k : Z) | Infinite (negative : bool) | NaN.
Definition whole (n : Z) : f32 := Num (n * 2 ^ 149).
Definition is_finite (x : f32) : bool := match x with Num _ => true | _ => false end.
(** [x.clamp(lo, hi)] for finite bounds *)
Definition clamp (x : f32) (lo hi : Z) : f32 :=
  match x with
  | Num k => if k <? lo * 2 ^ 149 then whole lo else if k >? hi * 2 ^ 149 then whole hi else x
  | Infinite negative => if negative then whole lo else whole hi
  | NaN => NaN
  end.
(** [==] of [f32] *)
Definition f32_eqb (x y : f32) : bool :=
  match x, y with
  | Num a, Num b => a =? b
  | Infinite a, Infinite b => Bool.eqb a b
  | _, _ => false
  end.

Definition SIDEBAR_MIN : Z := 200.
Definition SIDEBAR_MAX : Z := 300.
Definition SIDEBAR_DEFAULT : Z := 232.
Definition ZOOM_MIN : Z := 24.
Definition ZOOM_MAX : Z := 128.
Definition ZOOM_DEFAULT : Z := 48.
(** [theme::TEXT_SCALES.len()] and [theme::TEXT_DEFAULT_STEP] *)
Definition TEXT_STEPS : Z := 4.
Definition TEXT_DEFAULT_STEP : Z := 1.

(** ** The preferences *)

Record Preferences := mkPrefs {
  sidebar_width : f32; sidebar_visible : bool; zoom : f32; list_view : bool; show_hidden : bool; sort_key : SortKey;
  sort_descending : bool; text_step : Z }.

Definition default_prefs : Preferences :=
  mkPrefs (whole SIDEBAR_DEFAULT) true (whole ZOOM_DEFAULT) false false ByName false TEXT_DEFAULT_STEP.

Definition sanitised (p : Preferences) : Preferences :=
  let w := if is_finite (sidebar_width p) then sidebar_width p else whole SIDEBAR_DEFAULT in
  let z := if is_finite (zoom p) then zoom p else whole ZOOM_DEFAULT in
  mkPrefs (clamp w SIDEBAR_MIN SIDEBAR_MAX) (sidebar_visible p) (clamp z ZOOM_MIN ZOOM_MAX) (list_view p) (show_hidden p)
    (sort_key p) (sort_descending p) (Z.min (text_step p) (TEXT_STEPS - 1)).

#[global] Instance SortKey_eq : EqDecision SortKey.
Proof. solve_decision. Defined.
(** The derived [PartialEq] *)
Definition prefs_eqb (p q : Preferences) : bool :=
  f32_eqb (sidebar_width p) (sidebar_width q) && Bool.eqb (sidebar_visible p) (sidebar_visible q) && f32_eqb (zoom p) (zoom q)
  && Bool.eqb (list_view p) (list_view q) && Bool.eqb (show_hidden p) (show_hidden q) && bool_decide (sort_key p = sort_key q)
  && Bool.eqb (sort_descending p) (sort_descending q) && (text_step p =? text_step q).

(** ** The disk *)

Inductive dirop := Link (name : bytes) (i : nat) | Unlink (name : bytes) | Move (a b : bytes).
Definition apply_op (dir : gmap bytes nat) (o : dirop) : gmap bytes nat :=
  match o with
  | Link n i => <[n := i]> dir
  | Unlink n => delete n dir
  | Move a b => match dir !! a with Some i => <[b := i]> (delete a dir) | None => dir end
  end.

(** A file's bytes, and whether they are synced. *)
Record inode := mkInode { content : bytes; synced : bool }.
(** [base] is the directory on the disk, [waiting] its changes that are not there yet. *)
Record disk := mkDisk { inodes : list inode; base : gmap bytes nat; waiting : list dirop }.
Definition dir (d : disk) : gmap bytes nat := foldl apply_op (base d) (waiting d).
Definition change_dir (o : dirop) (d : disk) : disk := mkDisk (inodes d) (base d) (waiting d ++ [o]).
Definition change_file (i : nat) (f : inode -> inode) (d : disk) : disk := mkDisk (alter f i (inodes d)) (base d) (waiting d).
Definition read (name : bytes) (d : disk) : option bytes := (dir d !! name) ≫= fun i => content <$> (inodes d !! i).

(** What is left when the power fails: the first [n] changes of the
    directory, and anything in a file that is not synced. *)
Definition power_loss (n : nat) (garbage : nat -> bytes) (d : disk) : disk :=
  mkDisk (imap (fun i f => if synced f then f else mkInode (garbage i) true) (inodes d))
    (foldl apply_op (base d) (take n (waiting d))) [].

(** ** Writing *)

Inductive wcmd := CreateFile (name : bytes) | WriteAll (name bytes : bytes) | SyncAll (name : bytes)
  | RenameFile (a b : bytes) | RemoveFile (name : bytes) | SyncDir.
(** How a call goes; [Failed n]: after [n] bytes of a write. *)
Inductive outcome := Succeeds | Fails (n : nat).
Definition is_ok (o : outcome) : bool := match o with Succeeds => true | Fails _ => false end.

(** The open file is found by its name: nothing else moves it while it is open. *)
Definition on_file (name : bytes) (f : inode -> inode) (d : disk) : disk :=
  match dir d !! name with Some i => change_file i f d | None => d end.
Definition perform (c : wcmd) (o : outcome) (d : disk) : disk :=
  match c, o with
  | CreateFile n, Succeeds =>
      match dir d !! n with
      | Some i => change_file i (fun _ => mkInode [] false) d
      | None => change_dir (Link n (length (inodes d))) (mkDisk (inodes d ++ [mkInode [] false]) (base d) (waiting d))
      end
  | WriteAll n b, Succeeds => on_file n (fun f => mkInode (content f ++ b) false) d
  | WriteAll n b, Fails k => on_file n (fun f => mkInode (content f ++ take k b) false) d
  | SyncAll n, Succeeds => on_file n (fun f => mkInode (content f) true) d
  | RenameFile a b, Succeeds => change_dir (Move a b) d
  | RemoveFile n, Succeeds => change_dir (Unlink n) d
  | SyncDir, Succeeds => mkDisk (inodes d) (dir d) []
  | _, Fails _ => d
  end.

Inductive wprog (A : Type) := WRet (a : A) | WDo (c : wcmd) (k : bool -> wprog A).
Arguments WRet {A} a.
Arguments WDo {A} c k.

Definition tmp_name (path : bytes) : bytes := path ++ bs ".tmp".

Definition write_atomically (path b : bytes) : wprog bool :=
  let tmp := tmp_name path in
  let clean_up := WDo (RemoveFile tmp) (fun _ => WRet false) in
  WDo (CreateFile tmp) (fun created => if negb created then clean_up else
  WDo (WriteAll tmp b) (fun written => if negb written then clean_up else
  WDo (SyncAll tmp) (fun synced => if negb synced then clean_up else
  WDo (RenameFile tmp path) (fun renamed => if negb renamed then clean_up else
  WDo SyncDir (fun _ => WRet true))))).

(** The calls with their outcomes; [None]: the process ended before the last of them. *)
Fixpoint exec {A} (os : list outcome) (p : wprog A) (d : disk) : disk * option A :=
  match p, os with
  | WRet a, _ => (d, Some a)
  | WDo c k, o :: os => exec os (k (is_ok o)) (perform c o d)
  | WDo _ _, [] => (d, None)
  end.

(** ** Loading and saving *)

Section Prefs.
(** [serde_json::to_string_pretty] and [serde_json::from_str]; the file of [config_path]; the sum of two [f32]. *)
Context (to_json : Preferences -> option bytes) (of_json : bytes -> option Preferences) (path : bytes) (f32_add : f32 -> f32 -> f32).

(** [unreadable]: the file cannot be read, for a reason other than that it is not there. *)
Definition load (unreadable : bool) (d : disk) : Preferences :=
  if unreadable then default_prefs else
  match read path d with
  | None => default_prefs
  | Some text => if utf8_valid text then sanitised (default default_prefs (of_json text)) else default_prefs
  end.

(** The directories above the file are there, or [save] ends; [None] as in [exec]. *)
Definition save (p : Preferences) (parent_ok : bool) (os : list outcome) (d : disk) : disk * option bool :=
  if negb parent_ok then (d, Some false) else
  match to_json p with
  | None => (d, Some false)
  | Some text => exec os (write_atomically path text) d
  end.

(** ** The window *)

(** [saved] and the settings in force, as [current_preferences] collects them. *)
Record window := mkWindow { saved : Preferences; current : Preferences; sidebar_shown : bool }.

(** [build]: the settings as loaded; [apply_preferences] clamps the zoom once more. *)
Definition step_zoom (z delta : f32) : f32 := clamp (f32_add z delta) ZOOM_MIN ZOOM_MAX.
Definition ZOOM_STEP : Z := 12.
Definition with_zoom (z : f32) (p : Preferences) : Preferences :=
  mkPrefs (sidebar_width p) (sidebar_visible p) z (list_view p) (show_hidden p) (sort_key p) (sort_descending p) (text_step p).
Definition build (p : Preferences) : window := mkWindow p (with_zoom (step_zoom (zoom p) (whole 0)) p) true.

Definition toggle_sidebar (w : window) : Preferences :=
  let p := current w in
  if sidebar_shown w then
    mkPrefs (sidebar_width p) (negb (sidebar_visible p)) (zoom p) (list_view p) (show_hidden p) (sort_key p) (sort_descending p) (text_step p)
  else p.
Definition drag_sidebar (x : f32) (p : Preferences) : Preferences :=
  mkPrefs (clamp x SIDEBAR_MIN SIDEBAR_MAX) (sidebar_visible p) (zoom p) (list_view p) (show_hidden p) (sort_key p) (sort_descending p) (text_step p).
Definition zoom_by (inwards : bool) (p : Preferences) : Preferences :=
  with_zoom (step_zoom (zoom p) (whole (if inwards then ZOOM_STEP else - ZOOM_STEP))) p.
Definition set_view_mode (l : bool) (p : Preferences) : Preferences :=
  mkPrefs (sidebar_width p) (sidebar_visible p) (zoom p) l (show_hidden p) (sort_key p) (sort_descending p) (text_step p).
Definition set_show_hidden (x : bool) (p : Preferences) : Preferences :=
  mkPrefs (sidebar_width p) (sidebar_visible p) (zoom p) (list_view p) x (sort_key p) (sort_descending p) (text_step p).
Definition set_sort (k : SortKey) (x : bool) (p : Preferences) : Preferences :=
  mkPrefs (sidebar_width p) (sidebar_visible p) (zoom p) (list_view p) (show_hidden p) k x (text_step p).
Definition set_text_step (n : Z) (p : Preferences) : Preferences :=
  mkPrefs (sidebar_width p) (sidebar_visible p) (zoom p) (list_view p) (show_hidden p) (sort_key p) (sort_descending p) (Z.min n (TEXT_STEPS - 1)).

(** What changes a setting. The text size and the rows of the menu call [persist_if_changed]
    at once, the others leave it to the next poll. *)
Inductive change :=
| ToggleSidebar | DragSidebar (x : f32) | ZoomBy (inwards : bool) | SetView (list : bool) | SetHidden (x : bool)
| SetSort (k : SortKey) (descending : bool) | SetText (step : Z).
Definition changed (c : change) (w : window) : Preferences :=
  match c with
  | ToggleSidebar => toggle_sidebar w
  | DragSidebar x => drag_sidebar x (current w)
  | ZoomBy inwards => zoom_by inwards (current w)
  | SetView l => set_view_mode l (current w)
  | SetHidden x => set_show_hidden x (current w)
  | SetSort k x => set_sort k x (current w)
  | SetText n => set_text_step n (current w)
  end.
Definition with_current (p : Preferences) (w : window) : window := mkWindow (saved w) p (sidebar_shown w).

(** [None]: the process ended while it wrote. *)
Definition persist_if_changed (parent_ok : bool) (os : list outcome) (w : window) (d : disk) : disk * option window :=
  if prefs_eqb (current w) (saved w) then (d, Some w)
  else
    let '(d, r) := save (current w) parent_ok os d in
    (d, (fun _ => mkWindow (current w) (current w) (sidebar_shown w)) <$> r).

(** [on_jobs_result], for the preferences: nothing without the daemon's answer. *)
Definition on_jobs_result (answered parent_ok : bool) (os : list outcome) (w : window) (d : disk) : disk * option window :=
  if negb answered then (d, Some w) else persist_if_changed parent_ok os w d.
End Prefs.
