(* ===== verification/PrefsSpec.v ===== *)
(** * Preferences are never torn

    Whatever call fails while the preferences are written, and whenever the
    process ends or the power fails, the file holds a whole text; what is in
    force stays in its bounds and comes back. *)

From stdpp Require Import base gmap list strings.
From S2P Require Import Prelude RustStd Text GuiModels Prefs.

(** ** Bounds *)

Definition between (x : f32) (lo hi : Z) : Prop := exists k, x = Num k /\ lo * 2 ^ 149 <= k <= hi * 2 ^ 149.
Record in_range (p : Preferences) : Prop := {
  width_in : between (sidebar_width p) SIDEBAR_MIN SIDEBAR_MAX;
  zoom_in : between (zoom p) ZOOM_MIN ZOOM_MAX;
  step_in : text_step p < TEXT_STEPS }.

Lemma clamp_between x lo hi : x <> NaN -> lo <= hi -> between (clamp x lo hi) lo hi.
Proof.
  intros Hn Hl. assert (H : 0 < 2 ^ 149) by done. unfold clamp, whole, between. revert H. generalize (2 ^ 149). intros u Hu.
  destruct x as [k|[]|]; [|by eexists; split; [done|nia]..|done].
  case_bool; bool_to_prop; [by eexists; split; [done|nia]|]. case_bool; bool_to_prop; eexists; split; try done; nia.
Qed.
Lemma clamp_id x lo hi : between x lo hi -> clamp x lo hi = x.
Proof. intros (k & -> & Hk). unfold clamp. case_bool; bool_to_prop; [lia|]. case_bool; bool_to_prop; [lia|done]. Qed.
Lemma between_finite x lo hi : between x lo hi -> is_finite x = true.
Proof. by intros (k & -> & _). Qed.
Lemma sanitised_range p : in_range (sanitised p).
Proof.
  split; cbn.
  - apply clamp_between; [|done]. by destruct (sidebar_width p).
  - apply clamp_between; [|done]. by destruct (zoom p).
  - unfold TEXT_STEPS. lia.
Qed.
Lemma sanitised_id p : in_range p -> sanitised p = p.
Proof.
  intros [Hw Hz Ht]. unfold sanitised. rewrite (between_finite _ _ _ Hw), (between_finite _ _ _ Hz), !clamp_id by done.
  rewrite Z.min_l by lia. by destruct p.
Qed.
Lemma default_range : in_range default_prefs.
Proof.
  split; cbn; [..|done]; unfold between, whole; eexists; (split; [done|]); unfold SIDEBAR_MIN, SIDEBAR_MAX, SIDEBAR_DEFAULT, ZOOM_MIN, ZOOM_MAX, ZOOM_DEFAULT;
    generalize (2 ^ 149) (eq_refl : (0 <? 2 ^ 149) = true); intros u Hu; bool_to_prop; lia.
Qed.

(** ** The file *)

Section file.
Context (path : bytes).

Lemma tmp_ne : tmp_name path <> path.
Proof. unfold tmp_name. intros H. apply (f_equal length) in H. rewrite length_app in H. change (length (bs ".tmp")) with 4%nat in H. lia. Qed.

(** The directory after the first [k] of its changes. *)
Definition dirs (d : disk) (k : nat) : gmap bytes nat := foldl apply_op (base d) (take k (waiting d)).
Lemma dirs_all d k : (length (waiting d) <= k)%nat -> dirs d k = dir d.
Proof. intros H. unfold dirs, dir. by rewrite take_ge. Qed.
Lemma dirs_change o d k : dirs (change_dir o d) k = dirs d k \/ dirs (change_dir o d) k = apply_op (dir d) o.
Proof.
  unfold dirs, change_dir, dir. cbn. destruct (decide (k <= length (waiting d))%nat).
  - left. by rewrite take_app_le.
  - right. rewrite take_ge by (rewrite length_app; cbn; lia). by rewrite foldl_snoc.
Qed.

(** Whatever is lost, the file has one of the contents [S], and never shares its bytes
    with the temporary file. *)
Record whole_file (S : option bytes -> Prop) (d : disk) : Prop := {
  refs k name i : dirs d k !! name = Some i -> (i < length (inodes d))%nat;
  absent k : dirs d k !! path = None -> S None;
  present k i : dirs d k !! path = Some i -> exists f, inodes d !! i = Some f /\ synced f = true /\ S (Some (content f));
  apart k j : dirs d k !! (tmp_name path) = Some j -> dirs d k !! path <> Some j;
  apart_now k j : dir d !! (tmp_name path) = Some j -> dirs d k !! path <> Some j }.

Context (S : option bytes -> Prop).

Lemma whole_more (S' : option bytes -> Prop) d : (forall x, S x -> S' x) -> whole_file S d -> whole_file S' d.
Proof. intros HS [H1 H2 H3 H4 H5]. split; eauto. intros k i Hi. destruct (H3 k i Hi) as (f & ? & ? & ?). eauto. Qed.
Lemma whole_read d : whole_file S d -> S (read path d).
Proof.
  intros [H1 H2 H3 H4 H5]. unfold read. rewrite <- (dirs_all d (length (waiting d))) by lia.
  destruct (dirs d _ !! path) as [i|] eqn:E; cbn; [|by eapply H2]. destruct (H3 _ _ E) as (f & -> & _ & Hf). done.
Qed.
Lemma whole_loss n garbage d : whole_file S d -> whole_file S (power_loss n garbage d).
Proof.
  intros [H1 H2 H3 H4 H5]. assert (E : forall k, dirs (power_loss n garbage d) k = dirs d n).
  { intros k. unfold dirs, power_loss. cbn. by destruct k. }
  assert (E' : dir (power_loss n garbage d) = dirs d n) by (rewrite <- (E 0%nat); symmetry; by apply dirs_all).
  split; intros k; rewrite ?E, ?E'; eauto.
  - intros name i Hi. cbn. rewrite length_imap. eauto.
  - intros i Hi. destruct (H3 _ _ Hi) as (f & Hf & Hs & HS). exists f. split; [|done]. cbn. rewrite list_lookup_imap, Hf. cbn. by rewrite Hs.
Qed.

Lemma loss_read n garbage d : whole_file S d -> waiting d = [] -> read path (power_loss n garbage d) = read path d.
Proof.
  intros [H1 H2 H3 H4 H5] Hw. unfold read. assert (E : dir (power_loss n garbage d) = dirs d 0).
  { unfold dir, power_loss, dirs. cbn. rewrite Hw. by destruct n. }
  assert (E' : dir d = dirs d 0) by (unfold dir, dirs; by rewrite Hw). rewrite E, E'.
  destruct (dirs d 0 !! path) as [i|] eqn:Ei; [|done]. cbn. destruct (H3 _ _ Ei) as (f & Hf & Hs & _).
  rewrite list_lookup_imap, Hf. cbn. by rewrite Hs.
Qed.

(** The temporary file has this content. *)
Definition tmp_is (c : bytes) (s : bool) (d : disk) : Prop := exists j, dir d !! (tmp_name path) = Some j /\ inodes d !! j = Some (mkInode c s).

Lemma whole_on_tmp f d : whole_file S d -> whole_file S (on_file (tmp_name path) f d).
Proof.
  intros H. pose proof H as [H1 H2 H3 H4 H5]. unfold on_file. destruct (dir d !! (tmp_name path)) as [j|] eqn:E; [|done].
  assert (E1 : forall k, dirs (change_file j f d) k = dirs d k) by done.
  assert (E2 : dir (change_file j f d) = dir d) by done.
  split; intros k; rewrite ?E1, ?E2; eauto; cbn [inodes change_file].
  - intros name i Hi. rewrite length_alter. by eapply H1.
  - intros i Hi. destruct (H3 k i Hi) as (g & Hg & Hs). exists g. rewrite list_lookup_alter_ne; [done|]. intros ->. by apply (H5 k i).
  - rewrite E. apply H5.
Qed.
Lemma tmp_on_tmp f d c s : tmp_is c s d -> tmp_is (content (f (mkInode c s))) (synced (f (mkInode c s))) (on_file (tmp_name path) f d).
Proof.
  intros (j & Hj & Hi). unfold on_file. rewrite Hj. exists j. split; [done|]. cbn. rewrite list_lookup_alter_eq, Hi. cbn. by destruct (f _).
Qed.

Lemma whole_create d : whole_file S d -> whole_file S (perform (CreateFile (tmp_name path)) Succeeds d) /\ tmp_is [] false (perform (CreateFile (tmp_name path)) Succeeds d).
Proof.
  intros H. cbn. destruct (dir d !! (tmp_name path)) as [j|] eqn:E.
  - split.
    + pose proof (whole_on_tmp (fun _ => mkInode [] false) d H) as K. unfold on_file in K. by rewrite E in K.
    + destruct H as [H1 _ _ _ _]. rewrite <- (dirs_all d (length (waiting d))) in E by lia. pose proof (H1 _ _ _ E) as Hl.
      apply lookup_lt_is_Some in Hl as [f Hf]. rewrite dirs_all in E by lia. exists j. split; [done|]. cbn. by rewrite list_lookup_alter_eq, Hf.
  - destruct H as [H1 H2 H3 H4 H5]. set (d0 := mkDisk (inodes d ++ [mkInode [] false]) (base d) (waiting d)).
    assert (Hd : forall k, dirs (change_dir (Link (tmp_name path) (length (inodes d))) d0) k = dirs d k
               \/ dirs (change_dir (Link (tmp_name path) (length (inodes d))) d0) k = <[(tmp_name path) := length (inodes d)]> (dir d)) by (intros k; exact (dirs_change (Link (tmp_name path) (length (inodes d))) d0 k)).
    assert (Hp : forall k, exists k', dirs (change_dir (Link (tmp_name path) (length (inodes d))) d0) k !! path = dirs d k' !! path).
    { intros k. destruct (Hd k) as [->| ->]; [by eexists|]. exists (length (waiting d)). rewrite dirs_all by lia. apply lookup_insert_ne, tmp_ne. }
    assert (Hn : dir (change_dir (Link (tmp_name path) (length (inodes d))) d0) = <[(tmp_name path) := length (inodes d)]> (dir d)).
    { unfold dir, change_dir. cbn. by rewrite foldl_snoc. }
    split; [|exists (length (inodes d)); rewrite Hn, lookup_insert_eq; split; [done|]; cbn; by rewrite lookup_app_r, Nat.sub_diag by lia].
    split.
    + intros k name i. cbn. rewrite length_app. cbn. destruct (Hd k) as [->| ->]; [intros Hi%H1; lia|].
      rewrite lookup_insert_Some. intros [[_ <-]|[_ Hi]]; [lia|]. rewrite <- (dirs_all d (length (waiting d))) in Hi by lia. apply H1 in Hi. lia.
    + intros k. destruct (Hp k) as [k' ->]. apply H2.
    + intros k i. destruct (Hp k) as [k' ->]. intros Hi. destruct (H3 k' i Hi) as (f & Hf & ?). exists f. split; [|done]. cbn. by apply lookup_app_l_Some.
    + intros k j. destruct (Hd k) as [->| ->]; [apply H4|]. rewrite lookup_insert_eq. intros [= <-]. rewrite lookup_insert_ne by apply tmp_ne.
      rewrite <- (dirs_all d (length (waiting d))) by lia. intros Hi%H1. lia.
    + intros k j. rewrite Hn, lookup_insert_eq. intros [= <-]. destruct (Hp k) as [k' ->]. intros Hi%H1. lia.
Qed.

Lemma whole_rename d t : whole_file S d -> tmp_is t true d -> S (Some t) -> whole_file S (perform (RenameFile (tmp_name path) path) Succeeds d)
  /\ read path (perform (RenameFile (tmp_name path) path) Succeeds d) = Some t.
Proof.
  intros [H1 H2 H3 H4 H5] (j & Hj & Ht) HS. cbn.
  assert (Hd : forall k, dirs (change_dir (Move (tmp_name path) path) d) k = dirs d k
             \/ dirs (change_dir (Move (tmp_name path) path) d) k = <[path := j]> (delete (tmp_name path) (dir d))).
  { intros k. destruct (dirs_change (Move (tmp_name path) path) d k) as [?|E]; [by left|right]. rewrite E. cbn. by rewrite Hj. }
  assert (Hn : dir (change_dir (Move (tmp_name path) path) d) = <[path := j]> (delete (tmp_name path) (dir d))).
  { unfold dir at 1, change_dir. cbn [base waiting]. rewrite foldl_snoc. cbn. fold (dir d). by rewrite Hj. }
  split; [split|unfold read; rewrite Hn, lookup_insert_eq; cbn; by rewrite Ht].
  - intros k name i. cbn [inodes change_dir]. destruct (Hd k) as [->| ->]; [apply H1|].
    rewrite lookup_insert_Some. intros [[_ <-]|[_ Hi]]; [by eapply lookup_lt_Some|].
    apply lookup_delete_Some in Hi as [_ Hi]. rewrite <- (dirs_all d (length (waiting d))) in Hi by lia. by eapply H1.
  - intros k. destruct (Hd k) as [->| ->]; [apply H2|]. by rewrite lookup_insert_eq.
  - intros k i. destruct (Hd k) as [->| ->]; [apply H3|]. rewrite lookup_insert_eq. intros [= <-]. by exists (mkInode t true).
  - intros k i. destruct (Hd k) as [->| ->]; [apply H4|]. rewrite lookup_insert_ne, lookup_delete_eq by (intros E; by apply tmp_ne). done.
  - intros k i. rewrite Hn, lookup_insert_ne, lookup_delete_eq by (intros E; by apply tmp_ne). done.
Qed.
Lemma whole_remove d : whole_file S d -> whole_file S (perform (RemoveFile (tmp_name path)) Succeeds d).
Proof.
  intros [H1 H2 H3 H4 H5]. cbn.
  assert (Hd : forall k, dirs (change_dir (Unlink (tmp_name path)) d) k = dirs d k
             \/ dirs (change_dir (Unlink (tmp_name path)) d) k = delete (tmp_name path) (dir d)) by (intros k; apply dirs_change).
  assert (Hp : forall k, exists k', dirs (change_dir (Unlink (tmp_name path)) d) k !! path = dirs d k' !! path).
  { intros k. destruct (Hd k) as [->| ->]; [by eexists|]. exists (length (waiting d)). rewrite dirs_all by lia. apply lookup_delete_ne, tmp_ne. }
  assert (Hn : dir (change_dir (Unlink (tmp_name path)) d) = delete (tmp_name path) (dir d)).
  { unfold dir, change_dir. cbn. by rewrite foldl_snoc. }
  split.
  - intros k name i. cbn [inodes change_dir]. destruct (Hd k) as [->| ->]; [apply H1|]. intros [_ Hi]%lookup_delete_Some.
    rewrite <- (dirs_all d (length (waiting d))) in Hi by lia. by eapply H1.
  - intros k. destruct (Hp k) as [k' ->]. apply H2.
  - intros k i. destruct (Hp k) as [k' ->]. apply H3.
  - intros k j. destruct (Hd k) as [->| ->]; [apply H4|]. by rewrite lookup_delete_eq.
  - intros k j. by rewrite Hn, lookup_delete_eq.
Qed.
Lemma whole_sync_dir d : whole_file S d -> whole_file S (perform SyncDir Succeeds d).
Proof.
  intros [H1 H2 H3 H4 H5]. assert (E : forall k, dirs (perform SyncDir Succeeds d) k = dirs d (length (waiting d))).
  { intros k. rewrite (dirs_all d) by lia. unfold dirs. cbn. by destruct k. }
  assert (E' : dir (perform SyncDir Succeeds d) = dirs d (length (waiting d))) by (rewrite (dirs_all d) by lia; done).
  split; intros k; rewrite ?E, ?E'; cbn; eauto.
Qed.

(** ** The whole write *)

Lemma whole_fail c n d : (forall name b, c <> WriteAll name b) -> whole_file S d -> whole_file S (perform c (Fails n) d).
Proof. intros Hc H. destruct c; try done. by destruct (Hc name bytes). Qed.
Lemma exec_ret {A} os (a : A) d : exec os (WRet a) d = (d, Some a).
Proof. by destruct os. Qed.
Lemma give_up_whole os d : whole_file S d -> whole_file S (exec os (WDo (RemoveFile (tmp_name path)) (fun _ => WRet false)) d).1.
Proof. intros H. destruct os as [|[|n] os]; cbn [exec]; rewrite ?exec_ret; cbn [fst]; [done|by apply whole_remove|done]. Qed.

(** Every call may fail and the process may end after any of them; what is in the file
    when all went well is the text, also when the power fails then. *)
Lemma write_whole os t d : whole_file S d -> S (Some t) ->
  let x := exec os (write_atomically path t) d in
  whole_file S x.1 /\ (x.2 = Some true -> read path x.1 = Some t)
  /\ (forall rest, os = Succeeds :: Succeeds :: Succeeds :: Succeeds :: Succeeds :: rest ->
       x.2 = Some true /\ forall n garbage, read path (power_loss n garbage x.1) = Some t).
Proof.
  intros H HS. unfold write_atomically. cbv zeta.
  destruct os as [|[|n] os]; cbn [exec is_ok negb fst snd]; [done| |].
  2: { split; [by apply give_up_whole|]. split; [|done]. destruct os as [|[] os]; cbn [exec]; rewrite ?exec_ret; done. }
  destruct (whole_create d H) as [H1 T1]. set (d1 := perform _ _ d) in *.
  destruct os as [|[|n] os]; cbn [exec is_ok negb fst snd]; [done| |].
  2: { split; [apply give_up_whole; by apply whole_on_tmp|]. split; [|done]. destruct os as [|[] os]; cbn [exec]; rewrite ?exec_ret; done. }
  assert (H2 : whole_file S (perform (WriteAll (tmp_name path) t) Succeeds d1)) by by apply whole_on_tmp.
  assert (T2 : tmp_is t false (perform (WriteAll (tmp_name path) t) Succeeds d1)) by exact (tmp_on_tmp _ _ _ _ T1).
  set (d2 := perform _ _ d1) in *.
  destruct os as [|[|n] os]; cbn [exec is_ok negb fst snd]; [done| |].
  2: { split; [by apply give_up_whole|]. split; [|done]. destruct os as [|[] os]; cbn [exec]; rewrite ?exec_ret; done. }
  assert (H3 : whole_file S (perform (SyncAll (tmp_name path)) Succeeds d2)) by by apply whole_on_tmp.
  assert (T3 : tmp_is t true (perform (SyncAll (tmp_name path)) Succeeds d2)) by exact (tmp_on_tmp _ _ _ _ T2).
  set (d3 := perform _ _ d2) in *.
  destruct os as [|[|n] os]; cbn [exec is_ok negb fst snd]; [done| |].
  2: { split; [by apply give_up_whole|]. split; [|done]. destruct os as [|[] os]; cbn [exec]; rewrite ?exec_ret; done. }
  destruct (whole_rename d3 t H3 T3 HS) as [H4 R4]. set (d4 := perform _ _ d3) in *.
  destruct os as [|[|n] os]; cbn [exec is_ok negb fst snd]; rewrite ?exec_ret; cbn [fst snd]; [done| |by split_and!].
  split; [by apply whole_sync_dir|]. split; [done|]. intros rest _. split; [done|]. intros k garbage.
  rewrite loss_read by (first [by apply whole_sync_dir|done]). exact R4.
Qed.
End file.

(** ** The window and the disk *)

Section machine.
Context (to_json : Preferences -> option bytes) (of_json : bytes -> option Preferences) (path : bytes) (f32_add : f32 -> f32 -> f32).
(** The sum of two finite numbers is a number. *)
Hypothesis add_finite : forall a b, f32_add (Num a) (Num b) <> NaN.

Inductive pevent :=
| Launch (unreadable : bool) | Change (c : change) | Resize (shows_sidebar : bool)
| Tick (answered parent_ok : bool) (os : list outcome) | Quit | PowerFails (n : nat) (garbage : nat -> bytes).
Record desk := mkDesk { the_disk : disk; the_window : option window }.
Definition pstep (s : desk) (e : pevent) : desk :=
  match e, the_window s with
  | Launch unreadable, None => mkDesk (the_disk s) (Some (build f32_add (load of_json path unreadable (the_disk s))))
  | Change c, Some w => mkDesk (the_disk s) (Some (with_current (changed f32_add c w) w))
  | Resize b, Some w => mkDesk (the_disk s) (Some (mkWindow (saved w) (current w) b))
  | Tick answered parent_ok os, Some w =>
      let '(d, w) := on_jobs_result to_json path answered parent_ok os w (the_disk s) in mkDesk d w
  | Quit, _ => mkDesk (the_disk s) None
  | PowerFails n garbage, _ => mkDesk (power_loss n garbage (the_disk s)) None
  | _, _ => s
  end.
Definition prun (d : disk) (es : list pevent) : desk := foldl pstep (mkDesk d None) es.
(** The pointer is somewhere. *)
Definition sane (e : pevent) : Prop := match e with Change (DragSidebar x) => x <> NaN | _ => True end.

(** A disk on which everything is written. *)
Record settled (d : disk) : Prop := {
  nothing_waits : waiting d = [];
  all_synced : Forall (fun f => synced f = true) (inodes d);
  names_files name i : base d !! name = Some i -> (i < length (inodes d))%nat;
  own_file i : base d !! tmp_name path = Some i -> base d !! path <> Some i }.

Lemma settled_whole d : settled d -> whole_file path (fun x => x = read path d) d.
Proof.
  intros [Hw Hs Hn Ho]. assert (E : forall k, dirs d k = base d) by (intros k; unfold dirs; rewrite Hw; by destruct k).
  assert (E' : dir d = base d) by (unfold dir; by rewrite Hw).
  split; intros k; rewrite ?E, ?E'; [apply Hn| | |apply Ho|apply Ho].
  - intros Hp. unfold read. by rewrite E', Hp.
  - intros i Hi. pose proof (Hn _ _ Hi) as [f Hf]%lookup_lt_is_Some. exists f. rewrite Forall_lookup in Hs. split; [done|]. split; [by eapply Hs|].
    unfold read. rewrite E', Hi. cbn. by rewrite Hf.
Qed.

(** The texts of the settings in force so far. *)
Definition held (d : disk) (es : list pevent) (x : option bytes) : Prop :=
  x = read path d \/ exists es' w t, es' `prefix_of` es /\ the_window (prun d es') = Some w /\ to_json (current w) = Some t /\ x = Some t.
Lemma held_more d es e x : held d es x -> held d (es ++ [e]) x.
Proof. intros [->|(es' & w & t & Hp & H)]; [by left|right]. exists es', w, t. split; [by apply prefix_app_r|done]. Qed.
Lemma prun_snoc d es e : prun d (es ++ [e]) = pstep (prun d es) e.
Proof. unfold prun. by rewrite foldl_snoc. Qed.

Lemma always_whole d es : settled d -> whole_file path (held d es) (the_disk (prun d es)).
Proof.
  intros Hd. induction es as [|e es IH] using rev_ind.
  { eapply whole_more; [|by apply settled_whole]. intros x ->. by left. }
  assert (Hm : whole_file path (held d (es ++ [e])) (the_disk (prun d es))) by (eapply whole_more; [|exact IH]; intros x; apply held_more).
  rewrite prun_snoc. destruct e as [u|c|b|a po os| |n g]; cbn [pstep]; try (by destruct (the_window (prun d es))); [|by apply whole_loss].
  destruct (the_window (prun d es)) as [w|] eqn:Ew; [|done]. unfold on_jobs_result, persist_if_changed.
  destruct a; cbn [negb]; [|done]. destruct (prefs_eqb (current w) (saved w)); [done|]. unfold save. destruct po; cbn [negb]; [|done].
  destruct (to_json (current w)) as [t|] eqn:Et; [|done].
  destruct (write_whole path (held d (es ++ [Tick true true os])) os t (the_disk (prun d es)) Hm) as [H _].
  { right. exists es, w, t. split; [by apply prefix_app_r|done]. }
  destruct (exec os (write_atomically path t) (the_disk (prun d es))). exact H.
Qed.

Lemma zoomed p k : in_range p -> in_range (with_zoom (step_zoom f32_add (zoom p) (whole k)) p).
Proof.
  intros [Hw (z & Hz & _) Ht]. split; cbn; [done| |done]. unfold step_zoom. apply clamp_between; [|done]. rewrite Hz. apply add_finite.
Qed.
Lemma changed_range c w : sane (Change c) -> in_range (current w) -> in_range (changed f32_add c w).
Proof.
  intros Hs H. pose proof H as [Hw Hz Ht]. destruct c; cbn [changed]; try by apply zoomed.
  all: try (split; cbn; done).
  - unfold toggle_sidebar. by destruct (sidebar_shown w); [split|].
  - split; cbn; [by apply clamp_between|done|done].
  - split; cbn; [done|done|unfold TEXT_STEPS in *; lia].
Qed.
Lemma always_range d es : Forall sane es -> forall w, the_window (prun d es) = Some w -> in_range (current w).
Proof.
  intros Hs. induction es as [|e es IH] using rev_ind; [done|]. apply Forall_app in Hs as [Hs He]. rewrite Forall_singleton in He.
  specialize (IH Hs). intros w. rewrite prun_snoc. destruct (the_window (prun d es)) as [w0|] eqn:Ew.
  - specialize (IH w0 eq_refl). unfold pstep. rewrite Ew. destruct e as [u|c|b|a po os| |n g]; cbn; try done.
    + intros ?. congruence.
    + intros [= <-]. cbn. by apply changed_range.
    + intros [= <-]. done.
    + unfold on_jobs_result, persist_if_changed. destruct a; cbn; [|by intros [= <-]]. destruct (prefs_eqb _ _); cbn; [by intros [= <-]|].
      destruct (save _ _ _ _ _ _) as [d' [r|]]; cbn; [|done]. by intros [= <-].
  - unfold pstep. rewrite Ew. destruct e as [u|c|b|a po os| |n g]; cbn; try (intros ?; congruence).
    intros [= <-]. apply zoomed. unfold load. destruct u; [apply default_range|]. destruct (read path _); [|apply default_range].
    destruct (utf8_valid _); [apply sanitised_range|apply default_range].
Qed.

(** C33: the settings are never lost in the middle. However the window is
    opened, used and closed, whichever call of a save fails and wherever the process ends or
    the power fails: the settings in force are within their bounds; the file
    has what it had at first or the whole text of settings that were in
    force, never a part of one; and once a save of changed settings has gone through, they are
    what is loaded next, even if the power fails. *)
Theorem preferences_kept (d : disk) (es : list pevent) :
  settled d -> Forall sane es ->
  let s := prun d es in
  (forall w, the_window s = Some w -> in_range (current w))
  /\ held d es (read path (the_disk s))
  /\ forall w t rest n garbage, the_window s = Some w -> prefs_eqb (current w) (saved w) = false ->
     to_json (current w) = Some t -> utf8_valid t = true -> of_json t = Some (current w) ->
     let s' := pstep s (Tick true true (Succeeds :: Succeeds :: Succeeds :: Succeeds :: Succeeds :: rest)) in
     (saved <$> the_window s') = Some (current w)
     /\ load of_json path false (power_loss n garbage (the_disk s')) = current w.
Proof.
  intros Hd Hs s. pose proof (always_whole d es Hd) as Hw. pose proof (always_range d es Hs) as Hr. split; [done|]. split; [by apply whole_read|].
  intros w t rest n garbage Ew Hc Ht Hv Hj. cbv zeta. unfold pstep. rewrite Ew. unfold on_jobs_result, persist_if_changed, save. cbn [negb]. rewrite Hc, Ht.
  destruct (write_whole path (fun _ => True) (Succeeds :: Succeeds :: Succeeds :: Succeeds :: Succeeds :: rest) t (the_disk s)) as (_ & _ & H);
    [by eapply whole_more; [|exact Hw]|done|].
  destruct (H rest eq_refl) as [H2 H3]. destruct (exec _ _ _) as [d' r]. cbn in H2, H3. subst r. cbn. split; [done|].
  unfold load. rewrite H3, Hv, Hj. cbn. apply sanitised_id. by apply (Hr w).
Qed.
End machine.

(** An encoding of the text size, the rest as by default. *)
Definition demo_to (p : Preferences) : option bytes := Some [text_step p + 48].
Definition demo_of (t : bytes) : option Preferences :=
  match t with
  | [b] => Some (mkPrefs (sidebar_width default_prefs) true (zoom default_prefs) false false ByName false (b - 48))
  | _ => None
  end.
Definition demo_add (x y : f32) : f32 := match x, y with Num a, Num b => Num (a + b) | _, _ => NaN end.
Definition GUI : bytes := bs "/home/u/.config/adbshare/gui.json".
Definition demo_disk : disk := mkDisk [] ∅ [].
Definition larger : list pevent := [Launch false; Change (SetText 2)].
Definition demo_run : list pevent -> desk := prun demo_to demo_of GUI demo_add demo_disk.
Definition all_go : list outcome := [Succeeds; Succeeds; Succeeds; Succeeds; Succeeds].

Lemma demo_settled : settled GUI demo_disk.
Proof. split; cbn; [done|constructor|by intros ?? ?%lookup_empty_Some|by intros ? ?%lookup_empty_Some]. Qed.

Lemma preferences_kept_witness :
  load demo_of GUI false (power_loss 0 (fun _ => []) (the_disk (pstep demo_to demo_of GUI demo_add (demo_run larger) (Tick true true all_go))))
  = mkPrefs (whole SIDEBAR_DEFAULT) true (whole ZOOM_DEFAULT) false false ByName false 2.
Proof.
  destruct (preferences_kept demo_to demo_of GUI demo_add ltac:(done) demo_disk larger demo_settled ltac:(by repeat constructor)) as (_ & _ & H).
  destruct (H (mkWindow default_prefs (mkPrefs (whole SIDEBAR_DEFAULT) true (whole ZOOM_DEFAULT) false false ByName false 2) true)
    [50] [] 0%nat (fun _ => [])) as [_ E]; [by vm_compute|by vm_compute|done|by vm_compute|by vm_compute|].
  exact E.
Defined.

(** ** Where settings are lost *)

(** A save that failed is not tried again: the settings count as saved. *)
Theorem failed_save_forgotten :
  let s := demo_run (larger ++ [Tick true true [Fails 0; Fails 0]; Tick true true all_go; Quit; Launch false]) in
  (text_step ∘ current <$> the_window s) = Some TEXT_DEFAULT_STEP.
Proof. by vm_compute. Qed.

(** Without the daemon's answers nothing is saved, however long the window is open. *)
Theorem nothing_saved_without_daemon (n : nat) (os : list outcome) :
  let s := demo_run (larger ++ replicate n (Tick false true os) ++ [Quit; Launch false]) in
  (text_step ∘ current <$> the_window s) = Some TEXT_DEFAULT_STEP.
Proof.
  unfold demo_run, prun. cbv zeta. rewrite !foldl_app. set (s := foldl _ _ larger).
  assert (E : foldl (pstep demo_to demo_of GUI demo_add) s (replicate n (Tick false true os)) = s).
  { induction n as [|n IH]; [done|]. cbn [replicate foldl]. exact IH. }
  rewrite E. by vm_compute.
Qed.

(** Two windows write at the same time: they use one temporary file, and the first to
    finish gives the file the content the second has not written yet. *)
Definition commands (t : bytes) : list wcmd :=
  [CreateFile (tmp_name GUI); WriteAll (tmp_name GUI) t; SyncAll (tmp_name GUI); RenameFile (tmp_name GUI) GUI].
Definition play (cs : list wcmd) (d : disk) : disk := foldl (fun d c => perform c Succeeds d) d cs.
Theorem two_windows_tear (t : bytes) :
  let d := play (take 3 (commands t) ++ take 1 (commands t) ++ drop 3 (commands t)) demo_disk in
  read GUI d = Some [].
Proof. by vm_compute. Qed.
