(* ===== verification/ToolsView.v ===== *)
(** * The device tools view (adb-gui/src/views/tools.rs)

    The pane that asks a phone for everything that is not a file transfer:
    its state, what each button does and the tasks the buttons start.
    A task calls the daemon ([adb-gui/src/state/daemon.rs]) and updates the
    view when the answer comes; it is a [vprog], a tree of commands with a
    branch for every answer. Tasks run at the same time, a step of one is what it
    does between two awaits. Drawing is left out: a button is here whenever
    [offered] says the view draws it. *)

From stdpp Require Import base list strings.
From S2P Require Import Prelude RustStd Text GuiModels AppListing Debloat DaemonState.

(** ** State *)

Inductive Pending := Reboot (mode : bytes) | ForceStop (pkg : bytes) | ClearData (pkg : bytes).
#[global] Instance Pending_eq : EqDecision Pending.
Proof. solve_decision. Defined.

Record Settings := mkSettings { wifi : bool; data : bool; bluetooth : bool; airplane : bool }.
Definition LogcatLine : Type := Z * bytes.
Record Logcat := mkLogcat { logcat_running : bool; logcat_cursor : Z; shown_lines : list LogcatLine }.
(** The values of the text fields. *)
Record Fields := mkFields {
  tmp_port : bytes; tmp_remote : bytes; tmp_perm : bytes; tap_x : bytes; tap_y : bytes; swipe : bytes }.

(** [display] is [display_size] and [display_density]. *)
Record Tools := mkTools {
  device : option bytes; device_label : bytes; info : option DeviceInfoDto; apps : list PackageDto;
  selected_app : option bytes; apps_query : bytes; loading : bool; error : option bytes; status : option bytes;
  output : bytes; pending : option Pending; settings : Settings; display : bytes * bytes; logcat : Logcat;
  forwards : bytes; recording : bool; fields : Fields }.

Definition new : Tools :=
  mkTools None [] None [] None [] false None None [] None (mkSettings false false false false) ([], [])
    (mkLogcat false 0 []) [] false (mkFields [] [] [] [] [] []).

Definition with_loading (l : bool) (e : option bytes) (t : Tools) : Tools :=
  mkTools (device t) (device_label t) (info t) (apps t) (selected_app t) (apps_query t) l e (status t) (output t)
    (pending t) (settings t) (display t) (logcat t) (forwards t) (recording t) (fields t).
Definition with_pending (p : option Pending) (t : Tools) : Tools :=
  mkTools (device t) (device_label t) (info t) (apps t) (selected_app t) (apps_query t) (loading t) (error t) (status t)
    (output t) p (settings t) (display t) (logcat t) (forwards t) (recording t) (fields t).
Definition with_logcat (l : Logcat) (t : Tools) : Tools :=
  mkTools (device t) (device_label t) (info t) (apps t) (selected_app t) (apps_query t) (loading t) (error t) (status t)
    (output t) (pending t) (settings t) (display t) l (forwards t) (recording t) (fields t).
Definition with_settings (s : Settings) (t : Tools) : Tools :=
  mkTools (device t) (device_label t) (info t) (apps t) (selected_app t) (apps_query t) (loading t) (error t) (status t)
    (output t) (pending t) s (display t) (logcat t) (forwards t) (recording t) (fields t).
Definition with_app (a : option bytes) (q : bytes) (t : Tools) : Tools :=
  mkTools (device t) (device_label t) (info t) (apps t) a q (loading t) (error t) (status t)
    (output t) (pending t) (settings t) (display t) (logcat t) (forwards t) (recording t) (fields t).
Definition with_recording (r : bool) (t : Tools) : Tools :=
  mkTools (device t) (device_label t) (info t) (apps t) (selected_app t) (apps_query t) (loading t) (error t) (status t)
    (output t) (pending t) (settings t) (display t) (logcat t) (forwards t) r (fields t).
Definition with_fields (f : Fields) (t : Tools) : Tools :=
  mkTools (device t) (device_label t) (info t) (apps t) (selected_app t) (apps_query t) (loading t) (error t) (status t)
    (output t) (pending t) (settings t) (display t) (logcat t) (forwards t) (recording t) f.
Definition with_output (o : bytes) (t : Tools) : Tools :=
  mkTools (device t) (device_label t) (info t) (apps t) (selected_app t) (apps_query t) (loading t) (error t) (status t)
    o (pending t) (settings t) (display t) (logcat t) (forwards t) (recording t) (fields t).

Definition note (msg : bytes) (t : Tools) : Tools :=
  mkTools (device t) (device_label t) (info t) (apps t) (selected_app t) (apps_query t) (loading t) None (Some msg)
    (output t) (pending t) (settings t) (display t) (logcat t) (forwards t) (recording t) (fields t).
Definition fail (err : bytes) (t : Tools) : Tools := with_loading (loading t) (Some err) t.

(** ** Commands *)

(** The calls of the daemon with the types of their answers, a timer, and a look at
    the view or a change of it. *)
Inductive vcmd : Type -> Type :=
| DeviceInfoOn (device : bytes) : vcmd (result bytes DeviceInfoDto)
| ListPackagesOn (device : bytes) (user : Z) : vcmd (result bytes (list PackageDto))
| ListForwardsOn : vcmd (result bytes bytes)
| RunShellOn (device : bytes) (words : list bytes) : vcmd (result bytes bytes)
| ScreenshotOn (device : bytes) : vcmd (result bytes bytes)
| BugreportOn (device : bytes) : vcmd (result bytes bytes)
| RebootOn (device mode : bytes) : vcmd (result bytes bool)
| AddForwardOn (device : bytes) (port : Z) (remote : bytes) : vcmd (result bytes bool)
| RemoveForwardOn (device : bytes) (port : Z) : vcmd (result bytes bool)
| StartRecordOn (device : bytes) : vcmd (result bytes bool)
| StopRecordOn (device : bytes) : vcmd (result bytes bytes)
| StartLogcatOn (device : bytes) : vcmd (result bytes bool)
| StopLogcatOn (device : bytes) : vcmd (result bytes bool)
| LogcatLinesOn (device : bytes) (since max : Z) : vcmd (result bytes (Z * list LogcatLine))
| Timer (ms : Z) : vcmd unit
| See : vcmd Tools
| Become (f : Tools -> Tools) : vcmd unit.

(** [Poll d] is the endless loop of [start_logcat], the last thing its task does. *)
Inductive vprog (A : Type) : Type :=
| VRet (a : A)
| VDo (R : Type) (c : vcmd R) (k : R -> vprog A)
| Poll (device : bytes).
Arguments VRet {A} a.
Arguments VDo {A R} c k.
Arguments Poll {A} device.

Global Instance vprog_ret : MRet vprog := fun A => VRet.
Global Instance vprog_bind : MBind vprog :=
  fun A B f => fix go m := match m with VRet a => f a | VDo c k => VDo c (fun r => go (k r)) | Poll d => Poll d end.
Definition vdo {R} (c : vcmd R) : vprog R := VDo c VRet.

(** What an operation of the view leaves: the view and the task it spawned. *)
Definition act : Type := Tools * list (vprog unit).
Definition quiet (t : Tools) : act := (t, []).

(** ** Reading the phone *)

Definition on (s : bytes) : bool := bool_decide (trim s = bs "1").
(** [f(..).await?] and the rest. *)
Definition then_ {A B} (p : vprog (result bytes A)) (k : A -> vprog (result bytes B)) : vprog (result bytes B) :=
  r ← p; match r with Ok a => k a | Err e => mret (Err e) end.
Definition get_global (device key : bytes) : vprog (result bytes bytes) :=
  vdo (RunShellOn device [bs "settings"; bs "get"; bs "global"; key]).

Definition read_toggles (device : bytes) : vprog (result bytes Settings) :=
  then_ (get_global device (bs "wifi_on")) (fun wifi =>
  then_ (get_global device (bs "mobile_data")) (fun data =>
  then_ (get_global device (bs "bluetooth_on")) (fun bt =>
  then_ (get_global device (bs "airplane_mode_on")) (fun airplane =>
  mret (Ok (mkSettings (on wifi) (on data) (on bt) (on airplane))))))).

Definition read_display (device : bytes) : vprog (result bytes (bytes * bytes)) :=
  then_ (vdo (RunShellOn device [bs "wm"; bs "size"])) (fun size =>
  then_ (vdo (RunShellOn device [bs "wm"; bs "density"])) (fun density =>
  mret (Ok (trim size, trim density)))).

Definition ok_or {A} (old : A) (r : result bytes A) : A := match r with Ok a => a | Err _ => old end.
(** What the end of [reload] does with the answers. *)
Definition reloaded (i : result bytes DeviceInfoDto) (a : result bytes (list PackageDto)) (f : result bytes bytes)
    (s : result bytes Settings) (d : result bytes (bytes * bytes)) (t : Tools) : Tools :=
  mkTools (device t) (device_label t) (match i with Ok dto => Some dto | Err _ => info t end) (ok_or (apps t) a)
    (selected_app t) (apps_query t) false (match i with Ok _ => error t | Err e => Some e end) (status t) (output t)
    (pending t) (ok_or (settings t) s) (ok_or (display t) d) (logcat t) (ok_or (forwards t) f) (recording t) (fields t).

Definition reload_task (device : bytes) : vprog unit :=
  i ← vdo (DeviceInfoOn device);
  a ← vdo (ListPackagesOn device 0);
  f ← vdo ListForwardsOn;
  s ← read_toggles device;
  d ← read_display device;
  vdo (Become (reloaded i a f s d)).

Definition reload (t : Tools) : act :=
  match device t with
  | None => quiet t
  | Some d => (with_loading true None t, [reload_task d])
  end.

Definition set_device (d : option bytes) (t : Tools) : act :=
  if bool_decide (device t = d) then quiet t
  else
    let t := mkTools d (device_label t) None [] None (apps_query t) (loading t) None (status t) (output t) None
               (settings t) (display t) (mkLogcat false 0 []) (forwards t) (recording t) (fields t) in
    match d with Some _ => reload t | None => quiet t end.

Definition set_device_label (l : bytes) (t : Tools) : Tools :=
  mkTools (device t) l (info t) (apps t) (selected_app t) (apps_query t) (loading t) (error t) (status t) (output t)
    (pending t) (settings t) (display t) (logcat t) (forwards t) (recording t) (fields t).
Definition set_apps_query (q : bytes) (t : Tools) : Tools := with_app (selected_app t) q t.

(** [open_tools] of app.rs, for the view. *)
Definition open_tools (a : App) (t : Tools) : act :=
  let d := target_device a in
  let label := default [] (d ≫= fun serial =>
    display_name <$> List.find (fun e => bool_decide (AppListing.serial e = serial)) (devices a)) in
  set_device d (set_device_label label t).

(** ** Running a call *)

Definition finished (done : bytes) (r : result bytes bytes) (t : Tools) : Tools :=
  match r with
  | Ok out => note done (with_output out t)
  | Err e => fail e t
  end.
Definition run (done : bytes) (action : bytes -> vprog (result bytes bytes)) (t : Tools) : act :=
  match device t with
  | None => quiet t
  | Some d => (t, [r ← action d; vdo (Become (finished done r))])
  end.
Definition shell (done : bytes) (words : list bytes) : Tools -> act := run done (fun d => vdo (RunShellOn d words)).
(** [.map(|_| String::new())] *)
Definition no_text {A} (r : result bytes A) : result bytes bytes := match r with Ok _ => Ok [] | Err e => Err e end.
Definition untold {A} (c : vcmd (result bytes A)) : vprog (result bytes bytes) := r ← vdo c; mret (no_text r).

(** ** Logcat *)

Definition SHOWN_CAP : nat := 2000.
Definition add_lines (next : Z) (lines : list LogcatLine) (t : Tools) : Tools :=
  let all := shown_lines (logcat t) ++ lines in
  with_logcat (mkLogcat (logcat_running (logcat t)) next
    (if (SHOWN_CAP <? length all)%nat then drop (length all - SHOWN_CAP) all else all)) t.

(** One round of the loop of [start_logcat]: the timer, the looks at the view, the lines. *)
Definition poll_took (device : bytes) (r : result bytes (Z * list LogcatLine)) : vprog unit :=
  match r with
  | Err _ => mret tt
  | Ok (next, lines) => _ ← vdo (Become (add_lines next lines)); Poll device
  end.
Definition poll_look (device : bytes) : vprog unit :=
  running ← vdo See;
  if negb (logcat_running (logcat running)) then mret tt else
  seen ← vdo See;
  r ← vdo (LogcatLinesOn device (logcat_cursor (logcat seen)) 500);
  poll_took device r.
Definition poll_round (device : bytes) : vprog unit := _ ← vdo (Timer 600); poll_look device.

Definition set_running (r : bool) (t : Tools) : Tools :=
  with_logcat (mkLogcat r (logcat_cursor (logcat t)) (shown_lines (logcat t))) t.
Definition logcat_task (device : bytes) : vprog unit :=
  r ← vdo (StartLogcatOn device);
  match r with
  | Err e => vdo (Become (fun t => fail e (set_running false t)))
  | Ok _ => Poll device
  end.
Definition start_logcat (t : Tools) : act :=
  match device t with
  | None => quiet t
  | Some d => (with_logcat (mkLogcat true 0 []) t, [logcat_task d])
  end.
Definition stop_logcat (t : Tools) : act :=
  let t := set_running false t in
  match device t with
  | None => quiet t
  | Some d => (t, [_ ← vdo (StopLogcatOn d); vdo (Become (note (bs "Logcat stopped")))])
  end.

(** ** Buttons *)

Inductive Toggle := Wifi | MobileData | Bluetooth | Airplane.
Inductive Key := Home | Back | Recents | VolumeUp | VolumeDown.
Inductive button :=
| Refresh | ToggleOf (what : Toggle) | TakeScreenshot | TakeBugreport | AskReboot
| Select (id : bytes) | Launch | AskForceStop | AskClearData | Grant | Revoke
| LogcatStart | LogcatStop | RecordStart | RecordStop
| ForwardAdd | ForwardRemove | ForwardRefresh | Tap | Swipe | KeyOf (k : Key) | Confirm | Cancel.

Definition state_of (what : Toggle) (s : Settings) : bool :=
  match what with Wifi => wifi s | MobileData => data s | Bluetooth => bluetooth s | Airplane => airplane s end.
Definition put_state (what : Toggle) (x : bool) (s : Settings) : Settings :=
  match what with
  | Wifi => mkSettings x (data s) (bluetooth s) (airplane s)
  | MobileData => mkSettings (wifi s) x (bluetooth s) (airplane s)
  | Bluetooth => mkSettings (wifi s) (data s) x (airplane s)
  | Airplane => mkSettings (wifi s) (data s) (bluetooth s) x
  end.
Definition toggle_label (what : Toggle) : bytes :=
  match what with
  | Wifi => bs "Wi-Fi" | MobileData => bs "Mobile data" | Bluetooth => bs "Bluetooth" | Airplane => bs "Airplane mode"
  end.
Definition toggle_words (what : Toggle) (x : bool) : list bytes :=
  let able := if x then bs "enable" else bs "disable" in
  match what with
  | Wifi => [bs "svc"; bs "wifi"; able]
  | MobileData => [bs "svc"; bs "data"; able]
  | Bluetooth => [bs "svc"; bs "bluetooth"; able]
  | Airplane => [bs "settings"; bs "put"; bs "global"; bs "airplane_mode_on"; if x then bs "1" else bs "0"]
  end.
(** The button of [toggle_row]; the row is drawn from the state, so [on] is what it shows. *)
Definition toggle (what : Toggle) (t : Tools) : act :=
  let next := negb (state_of what (settings t)) in
  let '(t, ts) := shell (toggle_label what ++ bs " toggled") (toggle_words what next) t in
  (with_settings (put_state what next (settings t)) t, ts).

Definition key_code (k : Key) : bytes :=
  match k with Home => bs "3" | Back => bs "4" | Recents => bs "187" | VolumeUp => bs "24" | VolumeDown => bs "25" end.

Definition LAUNCHER : bytes := bs "android.intent.category.LAUNCHER".
Definition launch_words (pkg : bytes) : list bytes := [bs "monkey"; bs "-p"; pkg; bs "-c"; LAUNCHER; bs "1"].

(** [value.parse::<u16>().unwrap_or(0)] *)
Definition port_value (v : bytes) : Z := default 0 (parse_dec 65535 v).

(** [p.split([',', '→'])] *)
Definition is_sep (c : bytes) : bool := bool_decide (c ∈ [bs ","; [0xE2; 0x86; 0x92]]).
Fixpoint pieces (cs : list bytes) (cur : bytes) : list bytes :=
  match cs with
  | [] => [cur]
  | c :: cs => if is_sep c then cur :: pieces cs [] else pieces cs (cur ++ c)
  end.
Definition swipe_coords (v : bytes) : list bytes :=
  List.filter (fun p => negb (bool_decide (trim p = []))) (concat ((fun p => pieces (chars p) []) <$> split_whitespace v)).
Definition swipe_call (v d : bytes) : vprog (result bytes bytes) :=
  match swipe_coords v with
  | [x1; y1; x2; y2] => vdo (RunShellOn d [bs "input"; bs "swipe"; trim x1; trim y1; trim x2; trim y2])
  | _ => mret (Err (bs "swipe needs: x1,y1 x2,y2"))
  end.

Definition do_pending (t : Tools) : act :=
  match pending t with
  | None => quiet t
  | Some p =>
      let t := with_pending None t in
      match p with
      | Reboot mode => run (bs "Rebooting" ++ [0xE2; 0x80; 0xA6]) (fun d => untold (RebootOn d mode)) t
      | ForceStop pkg => run (bs "Force-stopped " ++ pkg) (fun d => vdo (RunShellOn d [bs "am"; bs "force-stop"; pkg])) t
      | ClearData pkg => run (bs "Cleared " ++ pkg) (fun d => vdo (RunShellOn d [bs "pm"; bs "clear"; pkg])) t
      end
  end.

(** The packages [apps_section] lists. *)
Definition visible_apps (t : Tools) : list PackageDto :=
  let query := to_ascii_lower (apps_query t) in
  take 50 (List.filter (fun p => bool_decide (query = []) || contains query (to_ascii_lower (pkg_id p)))
    (List.filter (fun p => bool_decide (pkg_state p = bs "enabled") || bool_decide (pkg_state p = bs "disabled")) (apps t))).

(** The buttons the view draws; without a device it draws none. *)
Definition offered (b : button) (t : Tools) : bool :=
  bool_decide (is_Some (device t)) &&
  match b with
  | Select id => bool_decide (id ∈ (pkg_id <$> visible_apps t))
  | Launch | AskForceStop | AskClearData | Grant | Revoke => bool_decide (is_Some (selected_app t))
  | LogcatStart => negb (logcat_running (logcat t))
  | LogcatStop => logcat_running (logcat t)
  | RecordStart => negb (recording t)
  | RecordStop => recording t
  | Confirm | Cancel => bool_decide (is_Some (pending t))
  | _ => true
  end.

(** [selected_app] of the buttons below the list. *)
Definition for_app (t : Tools) (k : bytes -> act) : act := match selected_app t with Some pkg => k pkg | None => quiet t end.

Definition screenshot_button (t : Tools) : act := run (bs "Screenshot saved") (fun d => vdo (ScreenshotOn d)) t.
Definition bugreport_button (t : Tools) : act := run (bs "Bug report saved") (fun d => vdo (BugreportOn d)) t.
Definition reboot_button (t : Tools) : act := quiet (with_pending (Some (Reboot [])) t).
Definition select_row (id : bytes) (t : Tools) : act := quiet (with_app (Some id) (apps_query t) t).
Definition launch_button (t : Tools) : act :=
  for_app t (fun pkg => shell (bs "Launched " ++ pkg) (launch_words pkg) t).
Definition force_stop_button (t : Tools) : act := for_app t (fun pkg => quiet (with_pending (Some (ForceStop pkg)) t)).
Definition clear_button (t : Tools) : act := for_app t (fun pkg => quiet (with_pending (Some (ClearData pkg)) t)).
Definition grant_button (t : Tools) : act :=
  let perm := tmp_perm (fields t) in
  for_app t (fun pkg => shell (bs "Granted " ++ perm) [bs "pm"; bs "grant"; pkg; perm] t).
Definition revoke_button (t : Tools) : act :=
  let perm := tmp_perm (fields t) in
  for_app t (fun pkg => shell (bs "Revoked " ++ perm) [bs "pm"; bs "revoke"; pkg; perm] t).
Definition record_stop (t : Tools) : act :=
  let '(t, ts) := run (bs "Recording saved") (fun d => vdo (StopRecordOn d)) t in (with_recording false t, ts).
Definition record_start (t : Tools) : act :=
  let '(t, ts) := run (bs "Recording started") (fun d => untold (StartRecordOn d)) t in (with_recording true t, ts).
Definition forward_add (t : Tools) : act :=
  let port := port_value (tmp_port (fields t)) in
  let remote := tmp_remote (fields t) in
  run (bs "Forward added") (fun d => untold (AddForwardOn d port remote)) t.
Definition forward_remove (t : Tools) : act :=
  let port := port_value (tmp_port (fields t)) in
  run (bs "Forward removed") (fun d => untold (RemoveForwardOn d port)) t.
Definition forward_refresh (t : Tools) : act := run (bs "Forwards refreshed") (fun _ => vdo ListForwardsOn) t.
Definition tap_button (t : Tools) : act := shell (bs "Tapped") [bs "input"; bs "tap"; tap_x (fields t); tap_y (fields t)] t.
Definition swipe_button (t : Tools) : act := run (bs "Swiped") (swipe_call (swipe (fields t))) t.
Definition key_button (k : Key) (t : Tools) : act := shell (bs "Key sent") [bs "input"; bs "keyevent"; key_code k] t.
Definition cancel_button (t : Tools) : act := quiet (with_pending None t).

Definition press (b : button) : Tools -> act :=
  match b with
  | Refresh => reload
  | ToggleOf what => toggle what
  | TakeScreenshot => screenshot_button
  | TakeBugreport => bugreport_button
  | AskReboot => reboot_button
  | Select id => select_row id
  | Launch => launch_button
  | AskForceStop => force_stop_button
  | AskClearData => clear_button
  | Grant => grant_button
  | Revoke => revoke_button
  | LogcatStart => start_logcat
  | LogcatStop => stop_logcat
  | RecordStart => record_start
  | RecordStop => record_stop
  | ForwardAdd => forward_add
  | ForwardRemove => forward_remove
  | ForwardRefresh => forward_refresh
  | Tap => tap_button
  | Swipe => swipe_button
  | KeyOf k => key_button k
  | Confirm => do_pending
  | Cancel => cancel_button
  end.
Ltac unfold_buttons :=
  unfold screenshot_button, bugreport_button, reboot_button, select_row, launch_button, force_stop_button, clear_button,
    grant_button, revoke_button, record_stop, record_start, forward_add, forward_remove, forward_refresh, tap_button, swipe_button,
    key_button, cancel_button, for_app, shell.

(** ** The view and its tasks *)

(** A task goes on until it awaits: looks and changes of the view take no time. *)
Fixpoint settle (p : vprog unit) : Tools -> vprog unit * Tools :=
  match p with
  | VDo c k =>
      match c in vcmd R return (R -> vprog unit) -> (R -> Tools -> vprog unit * Tools) -> Tools -> vprog unit * Tools with
      | See => fun k go t => go t t
      | Become f => fun k go t => go tt (f t)
      | c => fun k go t => (VDo c k, t)
      end k (fun r => settle (k r))
  | p => fun t => (p, t)
  end.
Definition unfold_poll (p : vprog unit) : vprog unit := match p with Poll d => poll_round d | p => p end.

(** What the user and the window do, a call that is answered or a timer that runs
    out, and a task that goes on after its answer. *)
Inductive vevent :=
| Press (b : button) | Type_ (f : Fields) | Query (q : bytes) | Open (d : option bytes) (label : bytes)
| Served (i : nat) (answer : forall R, vcmd R -> R) | Woken (i : nat).

Record pane := mkPane { tools : Tools; tasks : list (vprog unit); sent : list (sigT vcmd) }.
Definition fresh_pane : pane := mkPane new [] [].

Definition did (a : act) (p : pane) : pane := mkPane a.1 (tasks p ++ a.2) (sent p).

(** An awaited command with its continuation. *)
Definition awaits {R} (c : vcmd R) : bool := match c with See | Become _ => false | _ => true end.
Definition serve (answer : forall R, vcmd R -> R) (p : vprog unit) : option (sigT vcmd * vprog unit) :=
  match unfold_poll p with
  | @VDo _ R c k => if awaits c then Some (existT R c, k (answer R c)) else None
  | _ => None
  end.

Definition vstep (p : pane) (e : vevent) : pane :=
  match e with
  | Press b => if offered b (tools p) then did (press b (tools p)) p else p
  | Type_ f => mkPane (with_fields f (tools p)) (tasks p) (sent p)
  | Query q => mkPane (set_apps_query q (tools p)) (tasks p) (sent p)
  | Open d label => did (set_device d (set_device_label label (tools p))) p
  | Served i answer =>
      match tasks p !! i ≫= serve answer with
      | Some (c, k) => mkPane (tools p) (<[i := k]> (tasks p)) (sent p ++ [c])
      | None => p
      end
  | Woken i =>
      match tasks p !! i with
      | Some k => let '(k, t) := settle k (tools p) in mkPane t (<[i := k]> (tasks p)) (sent p)
      | None => p
      end
  end.
Definition vrun (es : list vevent) : pane := foldl vstep fresh_pane es.
