(* ===== verification/ToolsViewSpec.v ===== *)
(** * What the tools view does to a phone

    Nothing that loses data is sent without a confirmation on the phone it
    was asked for; what the daemon lets through of the buttons; and the runs in which the view is wrong. *)

From stdpp Require Import base gmap list strings.
From S2P Require Import Prelude RustStd Text GuiModels AppListing Debloat DaemonState DaemonInput DaemonApi ToolsView.

(** ** Commands that lose data *)

Definition is_destructive (c : sigT vcmd) : bool :=
  match projT2 c with
  | RebootOn _ _ => true
  | RunShellOn _ (w :: _) as c' => bool_decide (w = bs "am") ||
      match c' with RunShellOn _ (_ :: w2 :: _) => bool_decide (w = bs "pm" /\ w2 = bs "clear") | _ => false end
  | _ => false
  end.
(** The command of a request, on a phone. *)
Definition command (d : bytes) (p : Pending) : sigT vcmd :=
  match p with
  | Reboot mode => existT _ (RebootOn d mode)
  | ForceStop pkg => existT _ (RunShellOn d [bs "am"; bs "force-stop"; pkg])
  | ClearData pkg => existT _ (RunShellOn d [bs "pm"; bs "clear"; pkg])
  end.
(** The request a button makes. *)
Definition asks (b : button) (t : Tools) : option Pending :=
  match b with
  | AskReboot => Some (Reboot [])
  | AskForceStop => ForceStop <$> selected_app t
  | AskClearData => ClearData <$> selected_app t
  | _ => None
  end.

(** The request [p] was made on phone [d] with a button that was there, its strip stayed up
    until now and the phone stayed the same. *)
Definition strip_up (es : list vevent) (d : bytes) (p : Pending) : Prop :=
  exists es1 b es2, es = es1 ++ Press b :: es2
    /\ offered b (tools (vrun es1)) = true /\ asks b (tools (vrun es1)) = Some p
    /\ forall es', es' `prefix_of` es2 ->
         let t := tools (vrun (es1 ++ Press b :: es')) in pending t = Some p /\ device t = Some d.
(** ... and then confirmed. *)
Definition confirmed (es : list vevent) (c : sigT vcmd) : Prop :=
  exists es1 es2 d p, es = es1 ++ Press Confirm :: es2 /\ strip_up es1 d p /\ c = command d p.
Definition is_confirm (e : vevent) : bool := match e with Press Confirm => true | _ => false end.

(** ** Tasks *)

(** A change of the view that leaves the request and the phone alone. *)
Definition keeps (f : Tools -> Tools) : Prop := forall t, pending (f t) = pending t /\ device (f t) = device t.
Definition harmless {R} (c : vcmd R) : Prop :=
  match c with Become f => keeps f | c => is_destructive (existT _ c) = false end.

(** The commands and the loops of a task. *)
Inductive only (P : forall R, vcmd R -> Prop) (Q : bytes -> Prop) {A} : vprog A -> Prop :=
| only_ret a : only P Q (VRet a)
| only_poll d : Q d -> only P Q (Poll d)
| only_do R (c : vcmd R) k : P R c -> (forall r, only P Q (k r)) -> only P Q (VDo c k).

Section only.
Context (P : forall R, vcmd R -> Prop) (Q : bytes -> Prop).
Lemma only_bind {A B} (p : vprog A) (f : A -> vprog B) : only P Q p -> (forall a, only P Q (f a)) -> only P Q (p ≫= f).
Proof. intros Hp Hf. unfold mbind, vprog_bind. induction Hp; cbn; auto; by constructor. Qed.
Lemma only_vdo {R} (c : vcmd R) : P R c -> only P Q (vdo c).
Proof. intros H. unfold vdo. constructor; [done|]. constructor. Qed.
Lemma only_then {A B} (p : vprog (result bytes A)) (k : A -> vprog (result bytes B)) :
  only P Q p -> (forall a, only P Q (k a)) -> only P Q (then_ p k).
Proof. intros Hp Hk. apply only_bind; [done|]. intros [a|e]; [done|constructor]. Qed.
Lemma only_untold {A} (c : vcmd (result bytes A)) : P _ c -> only P Q (untold c).
Proof. intros H. apply only_bind; [by apply only_vdo|]. intros r. constructor. Qed.
(** [run] leaves the view as it is. *)
Lemma only_run done_ action t : (forall d, only P Q (action d)) -> (forall r, P _ (Become (finished done_ r))) ->
  exists ts, run done_ action t = (t, ts) /\ Forall (only P Q) ts.
Proof.
  intros Ha Hf. unfold run. destruct (device t); eexists; (split; [done|]); [|constructor].
  apply Forall_singleton, only_bind; [done|]. intros r. by apply only_vdo.
Qed.
End only.

Ltac only_step :=
  first [ done | progress intros | apply only_then | apply only_bind | apply only_vdo | apply only_ret | apply only_poll
        | match goal with |- only _ _ (match ?x with _ => _ end) => destruct x end
        | match goal with |- only _ _ (if ?x then _ else _) => destruct x end | apply only_do ].

(** A task that loses no data and leaves the request and the phone alone. *)
Definition calm {A} : vprog A -> Prop := only (@harmless) (fun _ => True).

Lemma calm_round d : calm (poll_round d).
Proof. unfold poll_round, poll_look, poll_took. repeat only_step. Qed.
Lemma calm_unfold p : calm p -> calm (unfold_poll p).
Proof. intros [| |]; cbn; [constructor|apply calm_round|by constructor]. Qed.
Lemma calm_reload d : calm (reload_task d).
Proof. unfold reload_task, read_toggles, read_display, get_global. repeat only_step. Qed.
Lemma calm_logcat d : calm (logcat_task d).
Proof. unfold logcat_task. repeat only_step. Qed.

(** A task that will send [c] first, which loses data, and nothing of the kind after. *)
Inductive armed (c : sigT vcmd) : vprog unit -> Prop :=
| armed_do k : is_destructive c = true -> (forall r, calm (k r)) -> armed c (VDo (projT2 c) k).

Lemma finished_keeps done_ r : keeps (finished done_ r).
Proof. intros t. by destruct r. Qed.

Definition closes (b : button) : bool := match b with Confirm | Cancel => true | _ => false end.
(** What pressing a button leaves. *)
Definition press_ok (b : button) (t : Tools) : Prop :=
  device (press b t).1 = device t
  /\ pending (press b t).1 = (if closes b then None else match asks b t with Some p => Some p | None => pending t end)
  /\ match b with
     | Confirm => match device t, pending t with
                  | Some d, Some p => exists k, (press b t).2 = [k] /\ armed (command d p) k
                  | _, _ => (press b t).2 = []
                  end
     | _ => Forall calm (press b t).2
     end.

Lemma swipe_only (P : forall R, vcmd R -> Prop) (Q : bytes -> Prop) v d :
  (forall w, P _ (RunShellOn d (bs "input" :: bs "swipe" :: w))) -> only P Q (swipe_call v d).
Proof. intros H. unfold swipe_call. repeat only_step. Qed.

Ltac runs t :=
  match goal with |- context [run ?d ?a t] =>
    destruct (only_run (@harmless) (fun _ => True) d a t) as (ts & -> & Hts); [|intros r; apply finished_keeps|by cbn] end.

Lemma press_toggle what t : press_ok (ToggleOf what) t.
Proof.
  unfold press_ok. cbn [press asks closes]. unfold toggle, shell. runs t. intros d. apply only_vdo.
  by destruct what, (state_of _ _).
Qed.
Lemma press_confirm t : press_ok Confirm t.
Proof.
  unfold press_ok. cbn [press]. unfold do_pending. destruct (pending t) as [p|] eqn:Ep; [|by cbn; destruct (device t) eqn:Ed].
  destruct (device t) as [d|] eqn:Ed; destruct p; unfold run; cbn; rewrite Ed; cbn; split_and!; try done.
  all: eexists; split; [done|].
  - apply (armed_do (existT _ (RebootOn d mode))); [done|]. intros r. repeat only_step; apply finished_keeps.
  - apply (armed_do (existT _ (RunShellOn d [bs "am"; bs "force-stop"; pkg]))); [done|]. intros r. repeat only_step; apply finished_keeps.
  - apply (armed_do (existT _ (RunShellOn d [bs "pm"; bs "clear"; pkg]))); [done|]. intros r. repeat only_step; apply finished_keeps.
Qed.
Lemma press_reload t : press_ok Refresh t.
Proof.
  unfold press_ok. cbn. unfold reload. destruct (device t) as [d|] eqn:E; cbn; [|done]. split_and!; try done.
  apply Forall_singleton, calm_reload.
Qed.
Lemma press_logcat t : press_ok LogcatStart t /\ press_ok LogcatStop t.
Proof.
  unfold press_ok. cbn. unfold start_logcat, stop_logcat. cbn. destruct (device t) as [d|] eqn:E; cbn; [|done]. split_and!; try done.
  - apply Forall_singleton, calm_logcat.
  - apply Forall_singleton. repeat only_step.
Qed.

Lemma press_spec b t : press_ok b t.
Proof.
  destruct b; try apply press_toggle; try apply press_confirm; try apply press_reload; try apply press_logcat;
    unfold press_ok; cbn [press asks closes]; unfold_buttons; try (destruct (selected_app t); cbn [fmap option_fmap option_map]);
    try (runs t; intros; first [by apply swipe_only|by apply only_untold|by apply only_vdo]); by cbn.
Qed.

(** ** Steps *)

Lemma set_device_spec d l t : Forall calm (set_device d (set_device_label l t)).2
  /\ ((set_device d (set_device_label l t)).1 = set_device_label l t /\ d = device t
      \/ pending (set_device d (set_device_label l t)).1 = None).
Proof.
  unfold set_device. cbn. case_bool; bool_to_prop; [by split; [constructor|left]|]. unfold reload, quiet. destruct d; cbn.
  - split; [apply Forall_singleton, calm_reload|by right].
  - split; [constructor|by right].
Qed.

Lemma settle_calm p t : calm p -> calm (settle p t).1 /\ pending (settle p t).2 = pending t /\ device (settle p t).2 = device t.
Proof.
  intros H. revert t. induction H as [|d Hq|R c k Hc Hk IH]; intros t; cbn; [split; [by constructor|done]..|].
  destruct c; cbn in *; try (split; [by constructor|done]); [apply IH|].
  destruct (IH tt (f t)) as (H1 & H2 & H3). destruct (Hc t) as [E1 E2]. split; [done|]. by rewrite H2, H3.
Qed.
Lemma serve_calm answer p c k : calm p -> serve answer p = Some (c, k) -> is_destructive c = false /\ calm k.
Proof.
  intros H%calm_unfold. unfold serve. destruct H as [| |R c' k' Hc Hk]; [done..|]. destruct (awaits c') eqn:E; [|done].
  intros [= <- <-]. split; [by destruct c'|apply Hk].
Qed.
Lemma command_awaits d p : awaits (projT2 (command d p)) = true.
Proof. by destruct p. Qed.
Lemma command_destructive d p : is_destructive (command d p) = true.
Proof. by destruct p. Qed.
Lemma destructive_awaits c : is_destructive c = true -> awaits (projT2 c) = true.
Proof. by destruct c as [R []]. Qed.
Lemma serve_armed answer p c c' k : armed c p -> serve answer p = Some (c', k) -> c' = c /\ calm k.
Proof.
  intros [k' Hd Hk]. unfold serve. cbn. rewrite destructive_awaits by done. intros [= <- <-]. by destruct c.
Qed.
Lemma settle_armed p c t : armed c p -> settle p t = (p, t).
Proof. intros [k Hd Hk]. destruct c as [R []]; done. Qed.

Lemma vrun_snoc es e : vrun (es ++ [e]) = vstep (vrun es) e.
Proof. unfold vrun. by rewrite foldl_app. Qed.

(** ** Confirmed *)

Lemma prefix_of_snoc {A} (l l' : list A) x : l' `prefix_of` l ++ [x] -> l' = l ++ [x] \/ l' `prefix_of` l.
Proof.
  intros [k Hk]. destruct k as [|y k _] using rev_ind; [left; by rewrite app_nil_r in Hk|right].
  rewrite app_assoc in Hk. apply app_inj_tail in Hk as [-> _]. by exists k.
Qed.

Lemma strip_now es b p d : offered b (tools (vrun es)) = true -> asks b (tools (vrun es)) = Some p ->
  device (tools (vrun es)) = Some d -> strip_up (es ++ [Press b]) d p.
Proof.
  intros Ho Ha Hd. exists es, b, []. split_and!; try done. intros es' ->%prefix_nil_inv. cbv zeta. rewrite vrun_snoc. cbn [vstep].
  rewrite Ho. cbn. destruct (press_spec b (tools (vrun es))) as (-> & -> & _). rewrite Ha. by destruct b.
Qed.
Lemma strip_more es e d p : strip_up es d p ->
  pending (tools (vrun (es ++ [e]))) = Some p -> device (tools (vrun (es ++ [e]))) = Some d -> strip_up (es ++ [e]) d p.
Proof.
  intros (es1 & b & es2 & -> & Ho & Ha & Hall) Hp Hd. exists es1, b, (es2 ++ [e]). split_and!; try done.
  { by rewrite <- app_assoc. }
  intros es' [->|Hpre]%prefix_of_snoc. { rewrite <- app_assoc in *. done. } by apply Hall.
Qed.
Lemma confirmed_more es e c : confirmed es c -> confirmed (es ++ [e]) c.
Proof. intros (es1 & es2 & d & p & -> & H). exists es1, (es2 ++ [e]), d, p. by rewrite <- app_assoc. Qed.

Definition is_armed (k : vprog unit) : bool := match k with @VDo _ R c _ => is_destructive (existT R c) | _ => false end.
Definition tally {A} (f : A -> bool) (l : list A) : nat := length (List.filter f l).
Lemma tally_app {A} (f : A -> bool) l k : tally f (l ++ k) = (tally f l + tally f k)%nat.
Proof. unfold tally. by rewrite List.filter_app, length_app. Qed.
Lemma tally_one {A} (f : A -> bool) x : tally f [x] = if f x then 1%nat else 0%nat.
Proof. unfold tally. cbn. by destruct (f x). Qed.
Lemma tally_none {A} (f : A -> bool) l : Forall (fun x => f x = false) l -> tally f l = 0%nat.
Proof. unfold tally. induction 1 as [|x l H _ IH]; [done|]. cbn. by rewrite H. Qed.
Lemma tally_insert {A} (f : A -> bool) l i x y : l !! i = Some x ->
  (tally f (<[i := y]> l) + (if f x then 1 else 0) = tally f l + (if f y then 1 else 0))%nat.
Proof.
  intros H. rewrite <- (take_drop_middle _ _ _ H) at 2. rewrite insert_take_drop by (by eapply lookup_lt_Some).
  rewrite !tally_app. unfold tally at 2 4. cbn. destruct (f x), (f y); cbn; unfold tally; lia.
Qed.

Lemma calm_not_armed k : calm k -> is_armed k = false.
Proof. intros [| |R c k' Hc Hk]; try done. cbn. by destruct c. Qed.
Lemma armed_is_armed c k : armed c k -> is_armed k = true.
Proof. intros [k' H _]. by destruct c. Qed.

Record sound (es : list vevent) : Prop := {
  sound_strip p : pending (tools (vrun es)) = Some p -> exists d, device (tools (vrun es)) = Some d /\ strip_up es d p;
  sound_tasks : Forall (fun k => calm k \/ exists c, armed c k /\ confirmed es c) (tasks (vrun es));
  sound_sent c : c ∈ sent (vrun es) -> is_destructive c = true -> confirmed es c;
  sound_count : (tally is_armed (tasks (vrun es)) + tally is_destructive (sent (vrun es)) <= tally is_confirm es)%nat }.

Lemma tasks_more es e ks : Forall (fun k => calm k \/ exists c, armed c k /\ confirmed es c) ks ->
  Forall (fun k => calm k \/ exists c, armed c k /\ confirmed (es ++ [e]) c) ks.
Proof.
  intros H. eapply Forall_impl; [exact H|]. intros k [Hk|(c & Hk & Hc)]; [by left|right]. eauto using confirmed_more.
Qed.
Lemma calm_tasks es ks : Forall calm ks -> Forall (fun k => calm k \/ exists c, armed c k /\ confirmed es c) ks.
Proof. intros H. eapply Forall_impl; [exact H|]. by left. Qed.

(** A step that sends nothing and starts only calm tasks. *)
Lemma sound_only_step es e : sound es ->
  sent (vstep (vrun es) e) = sent (vrun es) ->
  (exists ts, tasks (vstep (vrun es) e) = tasks (vrun es) ++ ts /\ Forall calm ts) ->
  (forall p, pending (tools (vstep (vrun es) e)) = Some p ->
     exists d, device (tools (vstep (vrun es) e)) = Some d /\ strip_up (es ++ [e]) d p) ->
  sound (es ++ [e]).
Proof.
  intros [H1 H2 H3 H4] Hs (ts & Ht & Hc) Hp. split; rewrite vrun_snoc; [done|..].
  - rewrite Ht. apply Forall_app. split; [by apply tasks_more|by apply calm_tasks].
  - rewrite Hs. intros c Hin Hd. apply confirmed_more. auto.
  - rewrite Hs, Ht, !tally_app. rewrite (tally_none is_armed ts) by (eapply Forall_impl; [exact Hc|apply calm_not_armed]). lia.
Qed.
Lemma strip_kept es e p : sound es -> pending (tools (vstep (vrun es) e)) = Some p ->
  pending (tools (vrun es)) = Some p -> device (tools (vstep (vrun es) e)) = device (tools (vrun es)) ->
  exists d, device (tools (vstep (vrun es) e)) = Some d /\ strip_up (es ++ [e]) d p.
Proof.
  intros [H1 _ _ _] Hp' Hp Hd. destruct (H1 p Hp) as (d & Hd' & Hs). exists d. rewrite Hd. split; [done|].
  apply strip_more; [done|..]; by rewrite vrun_snoc, ?Hd.
Qed.

Lemma sound_press es b : sound es -> b <> Confirm -> sound (es ++ [Press b]).
Proof.
  intros H Hb. destruct (offered b (tools (vrun es))) eqn:Ho.
  2: { apply sound_only_step; cbn [vstep]; rewrite ?Ho; try done; [by exists []; rewrite app_nil_r|].
       intros p Hp. pose proof (strip_kept es (Press b) p H) as K. cbn [vstep] in K. rewrite Ho in K. auto. }
  destruct (press_spec b (tools (vrun es))) as (Hd & Hp & Hk).
  apply sound_only_step; cbn [vstep]; rewrite ?Ho; cbn; try done.
  - eexists. split; [done|]. by destruct b.
  - intros p. rewrite Hp. intros Hp'. destruct (asks b (tools (vrun es))) as [q|] eqn:Ea.
    + assert (q = p) as -> by (destruct (closes b); congruence).
      pose proof Ho as Ho'. unfold offered in Ho'. apply andb_true_iff in Ho'. destruct Ho' as [[d Hd']%bool_decide_eq_true _].
      exists d. rewrite Hd. split; [done|]. by apply strip_now.
    + pose proof (strip_kept es (Press b) p H) as K. cbn [vstep] in K. rewrite Ho in K. cbn in K. rewrite Hp, Hd in K.
      rewrite Hd. apply K; [done|destruct (closes b); congruence|done].
Qed.

Lemma sound_confirm es : sound es -> sound (es ++ [Press Confirm]).
Proof.
  intros H. destruct (offered Confirm (tools (vrun es))) eqn:Ho.
  2: { apply sound_only_step; cbn [vstep]; rewrite ?Ho; try done; [by exists []; rewrite app_nil_r|].
       intros p Hp. pose proof (strip_kept es (Press Confirm) p H) as K. cbn [vstep] in K. rewrite Ho in K. auto. }
  destruct (press_spec Confirm (tools (vrun es))) as (Hd & Hp & Hk).
  pose proof Ho as Ho'. unfold offered in Ho'. apply andb_true_iff in Ho'. destruct Ho' as [[d Hd']%bool_decide_eq_true [p Hp']%bool_decide_eq_true].
  rewrite Hd', Hp' in Hk. destruct Hk as (k & Hk & Ha).
  destruct (sound_strip _ H p Hp') as (d2 & Hd2 & Hs). assert (d2 = d) as -> by congruence.
  assert (Hc : confirmed (es ++ [Press Confirm]) (command d p)) by (exists es, [], d, p; done).
  split; rewrite vrun_snoc; cbn [vstep]; rewrite Ho; unfold did; cbn [tools tasks sent].
  - rewrite Hp. done.
  - rewrite Hk. apply Forall_app. split; [apply tasks_more, H|]. apply Forall_singleton. right. eauto.
  - intros c Hin Hdc. apply confirmed_more. by apply (sound_sent _ H).
  - rewrite Hk, !tally_app, !tally_one, (armed_is_armed _ _ Ha). cbn [is_confirm]. pose proof (sound_count _ H). lia.
Qed.

Lemma sound_served es i answer : sound es -> sound (es ++ [Served i answer]).
Proof.
  intros H. pose proof H as [H1 H2 H3 H4].
  assert (Hp : forall p, pending (tools (vrun (es ++ [Served i answer]))) = Some p ->
    exists d, device (tools (vrun (es ++ [Served i answer]))) = Some d /\ strip_up (es ++ [Served i answer]) d p).
  { intros p. rewrite vrun_snoc. intros Hp. apply strip_kept; [done|done|..]; revert Hp; cbn;
      destruct (tasks (vrun es) !! i ≫= serve answer) as [[c k]|]; done. }
  destruct (tasks (vrun es) !! i) as [p|] eqn:Ei; [destruct (serve answer p) as [[c k]|] eqn:Es|].
  2-3: apply sound_only_step; rewrite <- ?vrun_snoc; try done; rewrite vrun_snoc; cbn; rewrite Ei; cbn; rewrite ?Es; try done;
    exists []; by rewrite app_nil_r.
  assert (E : vstep (vrun es) (Served i answer) = mkPane (tools (vrun es)) (<[i := k]> (tasks (vrun es))) (sent (vrun es) ++ [c]))
    by (cbn; rewrite Ei; cbn; by rewrite Es).
  assert (Hk : calm k /\ (is_destructive c = true -> confirmed es c) /\ is_destructive c = is_armed p).
  { rewrite Forall_lookup in H2. destruct (H2 i p Ei) as [Hc|(c0 & Ha & Hc)].
    - destruct (serve_calm _ _ _ _ Hc Es) as [Hd Hk]. rewrite Hd, (calm_not_armed _ Hc). by split.
    - destruct (serve_armed _ _ _ _ _ Ha Es) as [-> Hk]. rewrite (armed_is_armed _ _ Ha). split; [done|]. split; [done|]. by destruct Ha. }
  destruct Hk as (Hk & Hc & Hd). split; [done|..]; rewrite vrun_snoc, E; cbn [tools tasks sent].
  - apply Forall_insert; [by apply tasks_more|by left].
  - intros c' [Hin| ->%list_elem_of_singleton]%elem_of_app Hd'; apply confirmed_more; auto.
  - rewrite !tally_app. pose proof (tally_insert is_armed _ i p k Ei) as Hn. rewrite (calm_not_armed _ Hk) in Hn.
    rewrite (tally_one is_destructive c), Hd. destruct (is_armed p); lia.
Qed.

Lemma sound_woken es i : sound es -> sound (es ++ [Woken i]).
Proof.
  intros H. pose proof H as [H1 H2 H3 H4]. destruct (tasks (vrun es) !! i) as [p|] eqn:Ei.
  2: { apply sound_only_step; [done|..]; cbn; rewrite Ei; try done; [by exists []; rewrite app_nil_r|].
       intros p Hp. pose proof (strip_kept es (Woken i) p H) as K. cbn in K. rewrite Ei in K. auto. }
  pose proof H2 as H2'. rewrite Forall_lookup in H2'. specialize (H2' i p Ei).
  assert (Hk : let x := settle p (tools (vrun es)) in
    (calm x.1 \/ exists c, armed c x.1 /\ confirmed es c) /\ is_armed x.1 = is_armed p
    /\ pending x.2 = pending (tools (vrun es)) /\ device x.2 = device (tools (vrun es))).
  { destruct H2' as [Hc|(c & Ha & Hc)]; cbv zeta.
    - destruct (settle_calm p (tools (vrun es)) Hc) as (K & -> & ->). rewrite (calm_not_armed _ K), (calm_not_armed _ Hc). auto.
    - rewrite (settle_armed p c) by done. cbn. split; [right; by exists c|done]. }
  assert (E : vstep (vrun es) (Woken i) = let x := settle p (tools (vrun es)) in mkPane x.2 (<[i := x.1]> (tasks (vrun es))) (sent (vrun es))).
  { cbn. rewrite Ei. by destruct (settle p (tools (vrun es))). }
  cbv zeta in Hk, E. destruct Hk as (Hk & Ha & Hp & Hd). split; rewrite vrun_snoc.
  - intros q Hq. apply strip_kept; [done|done|..]; rewrite E in *; cbn in *; congruence.
  - rewrite E. cbn. apply Forall_insert; [by apply tasks_more|]. destruct Hk as [?|(c & ? & ?)]; [by left|right]. eauto using confirmed_more.
  - rewrite E. cbn. intros c Hin Hdc. apply confirmed_more. auto.
  - rewrite E. cbn [tasks sent]. rewrite tally_app. pose proof (tally_insert is_armed _ i p (settle p (tools (vrun es))).1 Ei) as Hn.
    rewrite Ha in Hn. lia.
Qed.

Lemma always_sound es : sound es.
Proof.
  induction es as [|e es IH] using rev_ind.
  { split; [done|constructor|by intros c ?%elem_of_nil|done]. }
  destruct e as [b|f|q|d l|i answer|i].
  - assert (b = Confirm \/ b <> Confirm) as [->|] by (destruct b; auto); [by apply sound_confirm|by apply sound_press].
  - apply sound_only_step; [done|done|by exists []; rewrite app_nil_r|]. intros p Hp. by apply (strip_kept es (Type_ f)).
  - apply sound_only_step; [done|done|by exists []; rewrite app_nil_r|]. intros p Hp. by apply (strip_kept es (Query q)).
  - destruct (set_device_spec d l (tools (vrun es))) as [Hc Hs].
    apply sound_only_step; [done|done|by eexists|]. intros p Hp. cbn [vstep] in Hp. unfold did in Hp. cbn [tools] in Hp.
    destruct Hs as [[E ->]|E]; [|congruence].
    apply (strip_kept es (Open _ l)); [done|done|..]; cbn [vstep]; unfold did; cbn [tools]; rewrite E in *; done.
  - by apply sound_served.
  - by apply sound_woken.
Qed.

(** C28: nothing that loses data reaches a phone unasked. Whatever the user
    presses and types, whichever phone is opened when and however the
    answers of the daemon come: a reboot, force-stop or clearing of data that the view sends
    is the one a button then offered asked for, on the phone the view was on at that
    moment; until "Do it" was pressed the strip with this very request and this
    phone stayed up; and there are never more such calls than presses of "Do it". *)
Theorem destructive_confirmed (es : list vevent) :
  (forall c, c ∈ sent (vrun es) -> is_destructive c = true -> confirmed es c)
  /\ (tally is_destructive (sent (vrun es)) <= tally is_confirm es)%nat.
Proof. destruct (always_sound es) as [_ _ H Hn]. split; [exact H|lia]. Qed.

(** Answers: every call succeeds, with nothing to tell. *)
Definition all_well (apps : list PackageDto) : forall R, vcmd R -> R := fun R c =>
  match c in vcmd R return R with
  | DeviceInfoOn d => Err (bs "no answer")
  | ListPackagesOn _ _ => Ok apps
  | ListForwardsOn | RunShellOn _ _ | ScreenshotOn _ | BugreportOn _ | StopRecordOn _ => Ok []
  | RebootOn _ _ | AddForwardOn _ _ _ | RemoveForwardOn _ _ | StartRecordOn _ | StartLogcatOn _ | StopLogcatOn _ => Ok true
  | LogcatLinesOn _ since _ => Ok (since, [])
  | Timer _ | Become _ => tt
  | See => new
  end.
Definition served (apps : list PackageDto) (i n : nat) : list vevent := replicate n (Served i (all_well apps)).
(** Phone A is opened and read; the data of one of its apps is cleared. *)
Definition maps : PackageDto := Debloat.mkPackage (bs "org.maps") (bs "enabled") false None.
Definition opened (d : bytes) : list vevent := Open (Some d) (bs "Pixel") :: served [maps] 0 9 ++ [Woken 0].
Definition cleared : list vevent :=
  opened (bs "A") ++ [Press (Select (bs "org.maps")); Press AskClearData; Press Confirm; Served 1 (all_well [])].

Lemma destructive_confirmed_witness :
  command (bs "A") (ClearData (bs "org.maps")) ∈ sent (vrun cleared)
  /\ confirmed cleared (command (bs "A") (ClearData (bs "org.maps"))).
Proof.
  assert (H : command (bs "A") (ClearData (bs "org.maps")) ∈ sent (vrun cleared)).
  { vm_compute. repeat (first [apply list_elem_of_here|apply list_elem_of_further]). }
  split; [exact H|]. by apply (proj1 (destructive_confirmed cleared)).
Defined.

(** ** What the daemon lets through *)

(** The shell command a task begins with. *)
Definition first_shell (k : vprog unit) : option (bytes * list bytes) :=
  match k with VDo (RunShellOn d words) _ => Some (d, words) | _ => None end.
Definition shell_of (a : act) : list (bytes * list bytes) := omap first_shell a.2.
Definition fixed (b : button) : bool := match b with ToggleOf _ | KeyOf _ => true | _ => false end.

Lemma shell_of_shell done_ words t :
  shell_of (run done_ (fun d => vdo (RunShellOn d words)) t) = match device t with Some d => [(d, words)] | None => [] end.
Proof. unfold shell_of, run. by destruct (device t). Qed.
Lemma sub_words t head sub rest d words : (head, sub) ∈ SUBCOMMANDS ->
  (d, words) ∈ match device t with Some d => [(d, head :: sub :: rest)] | None => [] end -> device t = Some d /\ policy words.
Proof.
  intros Hs. destruct (device t); [|by intros ?%elem_of_nil]. intros [= -> ->]%list_elem_of_singleton. split; [done|by apply may_sub].
Qed.
Ltac among := apply (bool_decide_unpack _); by vm_compute.

Lemma buttons_policy b t d words : (d, words) ∈ shell_of (press b t) -> device t = Some d /\ policy words.
Proof.
  destruct b; cbn [press]; unfold_buttons.
  all: try (destruct (selected_app t); [|by intros ?%elem_of_nil]).
  all: try (rewrite shell_of_shell; apply sub_words; among).
  all: try (unfold run, reload, start_logcat, stop_logcat, shell_of; cbn; destruct (device t); by intros ?%elem_of_nil).
  - unfold toggle, shell, run, shell_of. destruct (device t) eqn:E; cbn; [|by intros ?%elem_of_nil].
    intros [= -> ->]%list_elem_of_singleton. split; [done|]. destruct what; cbn.
    1-3: apply may_switch; [among|]; destruct (negb _); among.
    apply may_sub. among.
  - rewrite shell_of_shell. destruct (device t); [|by intros ?%elem_of_nil]. intros [= -> ->]%list_elem_of_singleton. split; [done|apply may_launch].
  - unfold run, swipe_call, shell_of. destruct (device t) eqn:E; [|by intros ?%elem_of_nil].
    destruct (swipe_coords (swipe (fields t))) as [|x1 [|y1 [|x2 [|y2 [|]]]]]; cbn; try by intros ?%elem_of_nil.
    intros [= -> ->]%list_elem_of_singleton. split; [done|]. apply may_sub. among.
  - unfold do_pending. destruct (pending t) as [[m|pkg|pkg]|]; [..|by intros ?%elem_of_nil].
    + unfold run, shell_of. cbn. destruct (device t); by intros ?%elem_of_nil.
    + change (device t) with (device (with_pending None t)). rewrite shell_of_shell. apply sub_words. among.
    + change (device t) with (device (with_pending None t)). rewrite shell_of_shell. apply sub_words. among.
Qed.

Lemma fixed_safe b t d words : fixed b = true -> (d, words) ∈ shell_of (press b t) -> Forall (fun w => is_safe_shell_arg w = true) words.
Proof.
  destruct b; try done; intros _; cbn [press].
  - unfold toggle, shell, run, shell_of. destruct (device t) eqn:E; cbn; [|by intros ?%elem_of_nil].
    intros [= -> ->]%list_elem_of_singleton. destruct what, (state_of _ _); among.
  - unfold_buttons. rewrite shell_of_shell. destruct (device t); [|by intros ?%elem_of_nil]. intros [= -> ->]%list_elem_of_singleton. destruct k; among.
Qed.

(** The view and the daemon agree on the shell commands. What a button sends
    goes to the phone the view is on and is within the daemon's policy, so the daemon
    refuses it only for a character or a length [is_safe_shell_arg] does not allow,
    which only a typed value or the name of a package can have; the switches and the keys
    are never refused. *)
Theorem buttons_within_policy (b : button) (t : Tools) (d : bytes) (words : list bytes) :
  (d, words) ∈ shell_of (press b t) ->
  device t = Some d
  /\ (validate_shell_argv words = Ok tt <-> Forall (fun w => is_safe_shell_arg w = true) words)
  /\ (fixed b = true -> validate_shell_argv words = Ok tt).
Proof.
  intros H. destruct (buttons_policy b t d words H) as [Hd Hp]. split_and!; [done| |].
  - split; [by intros [? _]%validate_sound|intros ?; by apply validate_complete].
  - intros Hf. apply validate_complete; [by eapply fixed_safe|done].
Qed.

(** ** Where the view is wrong *)

(** Phone B is opened while phone A is being read: A's answers are shown
    as B's, and the data of an app chosen from A's list is cleared on B. *)
Definition A_ : bytes := bs "A".
Definition B_ : bytes := bs "B".
Theorem apps_of_the_other_phone :
  let es := [Open (Some A_) (bs "Pixel"); Open (Some B_) (bs "Fold")] ++ served [maps] 0 9 ++ [Woken 0] in
  device (tools (vrun es)) = Some B_ /\ device_label (tools (vrun es)) = bs "Fold" /\ apps (tools (vrun es)) = [maps]
  /\ List.last (sent (vrun (es ++ [Press (Select (bs "org.maps")); Press AskClearData; Press Confirm; Served 2 (all_well [])])))
       (existT _ See) = command B_ (ClearData (bs "org.maps")).
Proof. by vm_compute. Qed.

(** A switch that is refused is shown as switched. *)
Definition refused : forall R, vcmd R -> R := fun R c =>
  match c in vcmd R return R with
  | RunShellOn _ _ => Err (bs "refused")
  | c => all_well [] _ c
  end.
Theorem refused_toggle_shown :
  let p := vrun (opened A_ ++ [Press (ToggleOf Wifi); Served 1 refused; Woken 1]) in
  error (tools p) = Some (bs "refused") /\ wifi (settings (tools p)) = true.
Proof. by vm_compute. Qed.

(** The recording flag is not the phone's: with phone A recording, phone B is
    offered only to stop, and once that has failed A's recording can no longer be stopped
    from here. *)
Theorem recording_of_the_other_phone :
  let es := opened A_ ++ [Press RecordStart; Served 1 (all_well []); Woken 1; Open (Some B_) (bs "Fold")] in
  let es' := es ++ [Press RecordStop; Open (Some A_) (bs "Pixel")] in
  offered RecordStop (tools (vrun es)) = true /\ offered RecordStart (tools (vrun es)) = false
  /\ device (tools (vrun es')) = Some A_ /\ offered RecordStop (tools (vrun es')) = false.
Proof. by vm_compute. Qed.

(** "Refresh list" does not refresh the list: the forwards it reads go to the output. *)
Definition with_forwards (text : bytes) : forall R, vcmd R -> R := fun R c =>
  match c in vcmd R return R with
  | ListForwardsOn => Ok text
  | c => all_well [] _ c
  end.
Theorem refreshed_forwards_not_shown (text : bytes) :
  let p := vrun (opened A_ ++ [Press ForwardRefresh; Served 1 (with_forwards text); Woken 1]) in
  status (tools p) = Some (bs "Forwards refreshed") /\ forwards (tools p) = [] /\ output (tools p) = text.
Proof. split_and!; by vm_compute. Qed.

(** A port that cannot be read is sent as port 0, which asks adb for any free port. *)
Theorem unread_port_is_zero :
  let es := opened A_ ++ [Type_ (mkFields (bs "80 80") (bs "tcp:80") [] [] [] []); Press ForwardAdd; Served 1 (all_well [])] in
  List.last (sent (vrun es)) (existT _ See) = existT _ (AddForwardOn A_ 0 (bs "tcp:80")).
Proof. by vm_compute. Qed.
