(* ===== verification/ToolsLog.v ===== *)
(** * The log the tools view shows

    The tools view and the logcat streams of the daemon together. The calls
    [start_logcat], [stop_logcat] and [logcat_lines] of the view's tasks are
    answered by the daemon's handlers, or fail on the way; every other call has
    any answer. The daemon's readers go on by themselves. *)

From stdpp Require Import base gmap list strings.
From S2P Require Import Prelude RustStd Text GuiModels AppListing Debloat DaemonState DaemonInput DaemonApi ToolsView ToolsViewSpec.

(** ** The two together *)

Record joint := mkJoint { view : pane; log_events : list logcat_event }.
Definition jlogs (s : joint) : logcats := logcat_run (log_events s).

(** [JView]: what the user and the view do, except for calls; [JCall]: the call of a
    task reaches the daemon, unless [lost]; [JRead]: a reader goes on. *)
Inductive jevent :=
| JView (e : vevent) | JCall (i : nat) (lost : option bytes) (answer : forall R, vcmd R -> R) | JRead (i : nat) (x : reading).

Section joint.
(** The devices that are set up, and the text of an error. *)
Context (ready : gset bytes) (show : bus_error -> bytes).

(** The answer of the daemon and what the call does there. *)
Definition reply_of {A} (lost : option bytes) (r : result bus_error A) (es : list logcat_event) : result bytes A * list logcat_event :=
  match lost with
  | Some e => (Err e, [])
  | None => match r with Ok a => (Ok a, es) | Err e => (Err (show e), []) end
  end.
Definition answer_of (lost : option bytes) (answer : forall R, vcmd R -> R) (l : logcats) (R : Type) (c : vcmd R) : R * list logcat_event :=
  match c in vcmd R return R * list logcat_event with
  | StartLogcatOn d => reply_of lost (start_logcat_call ready d l).1 [StartLog d]
  | StopLogcatOn d => reply_of lost (stop_logcat_call d l).1 [StopLog d]
  | LogcatLinesOn d since max => reply_of lost (Ok (stream_lines d since max l)) []
  | c => (answer _ c, [])
  end.

(** The logcat events of the call a task awaits. *)
Definition effect (lost : option bytes) (answer : forall R, vcmd R -> R) (l : logcats) (p : vprog unit) : list logcat_event :=
  match unfold_poll p with @VDo _ R c _ => (answer_of lost answer l R c).2 | _ => [] end.

Definition jstep (s : joint) (e : jevent) : joint :=
  match e with
  | JView (Served _ _) => s
  | JView e => mkJoint (vstep (view s) e) (log_events s)
  | JCall i lost answer =>
      mkJoint (vstep (view s) (Served i (fun R c => (answer_of lost answer (jlogs s) R c).1)))
        (log_events s ++ default [] (effect lost answer (jlogs s) <$> tasks (view s) !! i))
  | JRead i x => mkJoint (view s) (log_events s ++ [Step i x])
  end.
Definition jrun (es : list jevent) : joint := foldl jstep (mkJoint fresh_pane []) es.

(** ** Watching *)

(** How many lines the view is behind the stream of phone [d]. *)
Definition behind (d : bytes) (s : joint) : Z :=
  (stream_lines d 0 1 (jlogs s)).1 - logcat_cursor (logcat (tools (view s))).
(** The log is watched: neither stopped nor started, no other phone is opened. *)
Definition watching (e : jevent) : Prop :=
  match e with JView (Press LogcatStart) | JView (Press LogcatStop) | JView (Open _ _) => False | _ => True end.

(** A task that has nothing to do with the log. *)
Definition off_log {R} (c : vcmd R) : Prop :=
  match c with
  | StartLogcatOn _ | StopLogcatOn _ | LogcatLinesOn _ _ _ => False
  | Become f => forall t, logcat (f t) = logcat t
  | _ => True
  end.
Definition log_free {A} : vprog A -> Prop := only (@off_log) (fun _ => False).

Lemma finished_log done_ r t : logcat (finished done_ r t) = logcat t.
Proof. by destruct r. Qed.
Lemma reload_free d : log_free (reload_task d).
Proof. unfold reload_task, read_toggles, read_display, get_global. repeat only_step. Qed.

Ltac runs_free t :=
  match goal with |- context [run ?d ?a t] =>
    destruct (only_run (@off_log) (fun _ => False) d a t) as (ts & -> & Hts); [|intros r ?; apply finished_log|by cbn] end.
Lemma press_free b t : b <> LogcatStart -> b <> LogcatStop ->
  logcat (press b t).1 = logcat t /\ Forall log_free (press b t).2.
Proof.
  intros H1 H2. destruct b; try done; cbn [press]; unfold_buttons; try match goal with |- context [selected_app t] => destruct (selected_app t) end;
    try (runs_free t; intros; first [by apply swipe_only|by apply only_untold|by apply only_vdo]); try by cbn.
  - unfold reload. destruct (device t); cbn; split; try done. apply Forall_singleton, reload_free.
  - unfold toggle, shell. runs_free t. intros d. by apply only_vdo.
  - unfold do_pending. destruct (pending t) as [[m|pkg|pkg]|]; [..|by cbn].
    all: runs_free (with_pending None t); intros; first [by apply only_untold|by apply only_vdo].
Qed.
Lemma settle_free p t : log_free p -> log_free (settle p t).1 /\ logcat (settle p t).2 = logcat t.
Proof.
  intros H. revert t. induction H as [|d Hq|R c k Hc Hk IH]; intros t; cbn; [by split; [constructor|]|done|].
  destruct c; cbn in *; try (by split; [constructor|]); [apply IH|].
  destruct (IH tt (f t)) as (H1 & H2). by rewrite H2, Hc.
Qed.
Lemma serve_free answer p c k : log_free p -> serve answer p = Some (c, k) -> log_free k.
Proof.
  intros H. unfold serve. destruct H as [|d []|R c' k' Hc Hk]; [done|]. cbn. destruct (awaits c'); [|done]. intros [= <- <-]. apply Hk.
Qed.
Lemma effect_free lost answer l p : log_free p -> effect lost answer l p = [].
Proof. intros H. unfold effect. destruct H as [|d []|R c k Hc Hk]; [done|]. cbn. by destruct c. Qed.

(** ** The stream of a phone *)

(** The stream of [d] has read the lines [log]. *)
Definition stream_is (d : bytes) (log : list bytes) (l : logcats) : Prop :=
  exists i r, streams l !! d = Some i /\ readers l !! i = Some r /\ r_buffer r = buffer_of log.

Lemma stream_start d l : stream_is d [] (DaemonApi.start_logcat d l).
Proof.
  unfold DaemonApi.start_logcat. eexists _, _. cbn. rewrite lookup_insert_eq. split; [done|].
  split; [by rewrite lookup_app_r, Nat.sub_diag by lia|done].
Qed.
Lemma stream_read d log l i x : stream_is d log l ->
  exists more, stream_is d (log ++ more) (logcat_step l (Step i x)) /\ (length more <= 1)%nat.
Proof.
  intros (j & r & Hj & Hr & Hb). destruct (decide (i = j)) as [->|Hne].
  2: { exists []. split; [|cbn; lia]. exists j, r. rewrite app_nil_r. cbn. by rewrite list_lookup_alter_ne. }
  assert (H : exists more, r_buffer (read_step x r) = buffer_of (log ++ more) /\ (length more <= 1)%nat).
  { assert (K : forall r', r_buffer r' = r_buffer r -> exists more, r_buffer r' = buffer_of (log ++ more) /\ (length more <= 1)%nat).
    { intros r' ->. exists []. rewrite app_nil_r. split; [done|cbn; lia]. }
    unfold read_step. destruct (r_phase r), x as [ok|text| |];
      try (by apply K); [|by apply K; destruct (r_stopped r)].
    destruct (utf8_valid text); [|by apply K].
    exists [text]. split; [|done]. cbn. unfold buffer_of. by rewrite foldl_snoc, Hb. }
  destruct H as (more & H & Hl). exists more. split; [|done]. exists j, (read_step x r). cbn. by rewrite list_lookup_alter_eq, Hr.
Qed.
Lemma stream_lines_of d log l since max : stream_is d log l -> stream_lines d since max l = logcat_lines since max (buffer_of log).
Proof. intros (i & r & Hi & Hr & Hb). unfold stream_lines. rewrite Hi. cbn. by rewrite Hr, Hb. Qed.

(** ** The lines *)

Definition last_shown (ls : list LogcatLine) : list LogcatLine := drop (length ls - SHOWN_CAP) ls.
Lemma add_lines_shown next ls t : logcat (add_lines next ls t)
  = mkLogcat (logcat_running (logcat t)) next (last_shown (shown_lines (logcat t) ++ ls)).
Proof.
  unfold add_lines, last_shown. cbn [logcat with_logcat]. f_equal. case_bool; [done|]. apply Nat.ltb_ge in Heqb.
  by replace (length _ - SHOWN_CAP)%nat with 0%nat by lia.
Qed.
Lemma last_shown_app a b : last_shown (last_shown a ++ b) = last_shown (a ++ b).
Proof.
  unfold last_shown. rewrite !length_app, length_drop. set (n := (length a - SHOWN_CAP)%nat).
  replace (drop n a ++ b) with (drop n (a ++ b)) by (by rewrite drop_app_le by (unfold n; lia)).
  rewrite drop_drop. f_equal. unfold n. lia.
Qed.
Lemma last_shown_len ls : (length (last_shown ls) <= SHOWN_CAP)%nat.
Proof. unfold last_shown. rewrite length_drop. lia. Qed.
Lemma last_shown_sublist ls : last_shown ls `sublist_of` ls.
Proof. apply sublist_drop. Qed.

Lemma texts_app a b : texts (a ++ b) = texts a ++ texts b.
Proof. unfold texts. by rewrite fmap_app, filter_app. Qed.
Lemma texts_len log : zlen (texts log) <= zlen log.
Proof.
  unfold zlen, texts. pose proof (length_filter (fun t => t <> []) (trim_newlines <$> log)) as H. rewrite length_fmap in H. lia.
Qed.

(** ** The watching task *)

Definition lines_of_log (log : list bytes) : list LogcatLine := numbered 0 (texts log).
Lemma lines_of_log_len log : zlen (lines_of_log log) = zlen (texts log).
Proof. apply numbered_len. Qed.
Lemma lines_of_log_app a b n : n <= zlen (texts a) -> ztake n (lines_of_log (a ++ b)) = ztake n (lines_of_log a).
Proof. intros H. unfold lines_of_log. rewrite texts_app, numbered_app. apply ztake_app_l. by rewrite numbered_len. Qed.

(** The call has not been made, or it failed. *)
Definition not_begun (d : bytes) (lg : Logcat) (k : vprog unit) : Prop :=
  logcat_cursor lg = 0 /\ shown_lines lg = []
  /\ (k = logcat_task d \/ (exists e, k = VDo (Become (fun t => fail e (set_running false t))) VRet) \/ k = VRet tt).
(** What is shown is of the lines up to the cursor; when [P], the last of all of them. *)
Definition shows (P : Prop) (lg : Logcat) (log : list bytes) : Prop :=
  0 <= logcat_cursor lg <= zlen (texts log)
  /\ shown_lines lg `sublist_of` ztake (logcat_cursor lg) (lines_of_log log)
  /\ (length (shown_lines lg) <= SHOWN_CAP)%nat
  /\ (P -> shown_lines lg = last_shown (ztake (logcat_cursor lg) (lines_of_log log))).
(** Lines on their way to the view. *)
Definition carries (P : Prop) (d : bytes) (lg : Logcat) (log : list bytes) (k : vprog unit) : Prop :=
  exists next ls, k = poll_took d (Ok (next, ls)) /\ logcat_cursor lg <= next <= zlen (texts log)
    /\ ls `sublist_of` zdrop (logcat_cursor lg) (ztake next (lines_of_log log))
    /\ (P -> ls = zdrop (logcat_cursor lg) (ztake next (lines_of_log log))).
Definition going (P : Prop) (d : bytes) (lg : Logcat) (log : list bytes) (k : vprog unit) : Prop :=
  k = Poll d \/ k = poll_look d \/ k = VRet tt \/ k = VDo (LogcatLinesOn d (logcat_cursor lg) 500) (poll_took d)
  \/ carries P d lg log k.
Definition stage (P : Prop) (d : bytes) (lg : Logcat) (evs : list logcat_event) (k : vprog unit) : Prop :=
  not_begun d lg k
  \/ exists log, stream_is d log (logcat_run evs) /\ (length log <= length evs)%nat /\ shows P lg log /\ going P d lg log k.

Lemma stage_weaken (P P' : Prop) d lg evs k : (P' -> P) -> stage P d lg evs k -> stage P' d lg evs k.
Proof.
  intros HP [H|(log & Hs & Hl & (H1 & H2 & H3 & H4) & Hg)]; [by left|right]. exists log. split_and!; try done.
  - unfold shows. split_and!; naive_solver.
  - destruct Hg as [?|[?|[?|[?|(n & ls & ? & ? & ? & ?)]]]]; unfold going; eauto. do 4 right. exists n, ls. naive_solver.
Qed.

Lemma stage_read P d lg evs i x k : stage P d lg evs k -> stage P d lg (evs ++ [Step i x]) k.
Proof.
  intros [H|(log & Hs & Hl & (H1 & H2 & H3 & H4) & Hg)]; [by left|right].
  destruct (stream_read d log _ i x Hs) as (more & Hs' & Hm). exists (log ++ more).
  assert (Ht : zlen (texts log) <= zlen (texts (log ++ more))) by (rewrite texts_app, zlen_app; pose proof (zlen_nonneg (texts more)); lia).
  split_and!.
  - unfold logcat_run. by rewrite foldl_snoc.
  - rewrite !length_app. cbn. lia.
  - unfold shows. rewrite lines_of_log_app by lia. split_and!; [lia|lia|done..].
  - destruct Hg as [?|[?|[?|[?|(n & ls & ? & ? & Hls & ?)]]]]; unfold going; eauto. do 4 right. exists n, ls.
    rewrite lines_of_log_app by lia. split_and!; try done; lia.
Qed.

Lemma stage_woken P d evs t k : stage P d (logcat t) evs k -> stage P d (logcat (settle k t).2) evs (settle k t).1.
Proof.
  intros [(H1 & H2 & Hk)|(log & Hs & Hl & Hsh & Hg)].
  - left. destruct Hk as [->|[[e ->]| ->]]; cbn; unfold not_begun; cbn; eauto 10.
  - right. exists log. split; [done|]. split; [done|].
    destruct Hg as [->|[->|[->|[->|(n & ls & -> & Hn & Hls & Hall)]]]].
    + split; [done|by left].
    + cbn. destruct (logcat_running (logcat t)) eqn:E; cbn; (split; [done|]); unfold going; eauto.
    + split; [done|]. unfold going; eauto.
    + split; [done|]. unfold going; cbn; eauto.
    + cbn [poll_took settle mbind vprog_bind vdo fst snd]. cbn [settle]. rewrite add_lines_shown. split; [|by left].
      destruct Hsh as (H1 & H2 & H3 & H4). unfold shows. cbn [logcat_cursor shown_lines].
      assert (E : ztake n (lines_of_log log) = ztake (logcat_cursor (logcat t)) (lines_of_log log) ++ zdrop (logcat_cursor (logcat t)) (ztake n (lines_of_log log))).
      { rewrite <- (ztake_zdrop (ztake n (lines_of_log log)) (logcat_cursor (logcat t))) at 1. f_equal. unfold ztake. rewrite take_take. f_equal. lia. }
      split_and!; [lia|lia| |apply last_shown_len|].
      * etrans; [apply last_shown_sublist|]. rewrite E. by apply sublist_app.
      * intros HP. rewrite E, H4, <- Hall by done. apply last_shown_app.
Qed.

(** The lines of a poll. *)
Lemma polled P d log l c : stream_is d log l -> zlen (texts log) < 2 ^ 64 -> 0 <= c <= zlen (texts log) ->
  (P -> zlen (texts log) - c <= 500) ->
  exists ls, stream_lines d c 500 l = (zlen (texts log), ls) /\ ls `sublist_of` zdrop c (ztake (zlen (texts log)) (lines_of_log log))
    /\ (P -> ls = zdrop c (ztake (zlen (texts log)) (lines_of_log log))).
Proof.
  intros Hs Hl Hc HP. rewrite (stream_lines_of d log) by done. rewrite logcat_lines_log by lia. set (T := zlen (texts log)).
  eexists. split; [done|]. rewrite (ztake_all (lines_of_log log)) by (by rewrite lines_of_log_len). set (f := from_line c T).
  assert (Hf : c <= f) by (unfold f, from_line; lia).
  assert (E : numbered f (zdrop f (texts log)) = zdrop (f - c) (zdrop c (lines_of_log log))).
  { unfold lines_of_log. rewrite zdrop_zdrop by lia. rewrite numbered_drop by lia. f_equal; [lia|]. f_equal. lia. }
  rewrite E. split.
  - etrans; [apply sublist_take|apply sublist_drop].
  - intros Hp%HP. replace (f - c) with 0 by (unfold f, from_line, LOGCAT_CAP; fold T in Hp; lia). rewrite zdrop_0.
    apply ztake_all. rewrite zlen_zdrop, lines_of_log_len. fold T in Hp |- *. lia.
Qed.

Lemma stage_served P d lg evs k lost answer c k' : zlen evs < 2 ^ 64 ->
  (P -> (stream_lines d 0 1 (logcat_run evs)).1 - logcat_cursor lg <= 500) ->
  stage P d lg evs k ->
  serve (fun R c => (answer_of lost answer (logcat_run evs) R c).1) k = Some (c, k') ->
  stage P d lg (evs ++ effect lost answer (logcat_run evs) k) k'.
Proof.
  intros Hb HP [(H1 & H2 & Hk)|(log & Hs & Hl & Hsh & Hg)] Hsv.
  - destruct Hk as [->|[[e ->]| ->]]; [|done..]. unfold serve, effect in *. cbn in *. injection Hsv as <- <-.
    unfold reply_of. destruct lost as [e|]; cbn; [rewrite app_nil_r; left; unfold not_begun; eauto 10|].
    unfold start_logcat_call. case_bool; cbn; [rewrite app_nil_r; left; unfold not_begun; eauto 10|].
    case_bool; cbn; [|rewrite app_nil_r; left; unfold not_begun; eauto 10]. right. exists []. split_and!.
    + unfold logcat_run. rewrite foldl_snoc. apply stream_start.
    + cbn. lia.
    + unfold shows. rewrite H1, H2. split_and!; try done. cbn. lia.
    + by left.
  - assert (Ht : zlen (texts log) < 2 ^ 64) by (pose proof (texts_len log); unfold zlen in *; lia).
    pose proof Hsh as (Hc & _). rewrite (stream_lines_of d log) in HP by done. rewrite logcat_lines_log in HP by lia. cbn [fst] in HP.
    destruct Hg as [->|[->|[->|[->|(n & ls & -> & Hn & Hls & Hall)]]]]; try done.
    + unfold serve, effect in *. cbn in *. injection Hsv as <- <-. rewrite app_nil_r. right. exists log. unfold going. eauto 10.
    + unfold serve, effect in *. cbn in *. injection Hsv as <- <-. right. exists log.
      destruct lost as [e|]; cbn; rewrite app_nil_r; split_and!; try done; [by right; right; left|].
      do 4 right. destruct (polled P d log _ (logcat_cursor lg) Hs Ht Hc HP) as (ls & -> & Hls & Hall).
      eexists _, ls. split_and!; try done; lia.
Qed.

Lemma unserved_effect lost answer l p : serve (fun R c => (answer_of lost answer l R c).1) p = None -> effect lost answer l p = [].
Proof.
  unfold serve, effect. destruct (unfold_poll p) as [a|R c k|d]; try done. destruct c; cbn; done.
Qed.

(** ** The whole *)

Record watched (P : Prop) (d : bytes) (n : nat) (s : joint) : Prop := {
  w_others i k : tasks (view s) !! i = Some k -> i <> n -> log_free k;
  w_log : exists k, tasks (view s) !! n = Some k /\ stage P d (logcat (tools (view s))) (log_events s) k }.

Lemma watched_quiet P d n s v' ts : watched P d n s -> tasks v' = tasks (view s) ++ ts -> Forall log_free ts ->
  logcat (tools v') = logcat (tools (view s)) -> watched P d n (mkJoint v' (log_events s)).
Proof.
  intros [Ho (k & Hk & Hst)] Ht Hf Hl. split; cbn; rewrite Ht.
  - intros i k' [Hi|[_ Hi]]%lookup_app_Some Hn; [by eapply Ho|]. rewrite Forall_lookup in Hf. by eapply Hf.
  - exists k. rewrite Hl. split; [|done]. by apply lookup_app_l_Some.
Qed.

Lemma watched_step P d n s e : watching e -> zlen (log_events s) < 2 ^ 64 -> (P -> behind d s <= 500) ->
  watched P d n s -> watched P d n (jstep s e).
Proof.
  intros Hw Hb HP H. destruct e as [e|i lost answer|i x].
  - destruct e as [b|f|q|d' l|i answer|i]; try done; cbn [jstep vstep].
    + destruct (offered b (tools (view s))).
      * destruct (press_free b (tools (view s))) as [Hl Ht]; [by intros ->|by intros ->|]. by eapply watched_quiet.
      * eapply watched_quiet; [done|by rewrite app_nil_r|constructor|done].
    + eapply watched_quiet; [done|by rewrite app_nil_r|constructor|done].
    + eapply watched_quiet; [done|by rewrite app_nil_r|constructor|done].
    + destruct H as [Ho (k & Hk & Hst)]. destruct (tasks (view s) !! i) as [p|] eqn:Ei.
      2: { split; cbn; [done|eauto]. }
      destruct (decide (i = n)) as [->|Hne].
      * assert (p = k) as -> by congruence. pose proof (stage_woken P d _ _ _ Hst) as Hst'.
        destruct (settle k (tools (view s))) as [k' t']. cbn in Hst'. split; cbn.
        -- intros j kj Hj Hn. rewrite list_lookup_insert_ne in Hj by done. by eapply Ho.
        -- exists k'. split; [|done]. apply list_lookup_insert_eq. by eapply lookup_lt_Some.
      * destruct (settle_free p (tools (view s)) (Ho i p Ei Hne)) as [Hf Hl].
        destruct (settle p (tools (view s))) as [k' t']. cbn in Hf, Hl. split; cbn.
        -- intros j kj Hj Hn. destruct (decide (i = j)) as [<-|]; [|rewrite list_lookup_insert_ne in Hj by done; by eapply Ho].
           rewrite list_lookup_insert_eq in Hj by (by eapply lookup_lt_Some). by injection Hj as <-.
        -- exists k. rewrite list_lookup_insert_ne, Hl by done. done.
  - destruct H as [Ho (k & Hk & Hst)]. cbn [jstep vstep]. destruct (tasks (view s) !! i) as [p|] eqn:Ei; cbn [mbind option_bind fmap option_fmap option_map default].
    2: { rewrite app_nil_r. split; cbn; eauto. }
    destruct (serve _ p) as [[c k']|] eqn:Es.
    2: { rewrite (unserved_effect _ _ _ _ Es), app_nil_r. split; cbn; eauto. }
    destruct (decide (i = n)) as [->|Hne].
    + assert (p = k) as -> by congruence. pose proof (stage_served P d _ _ _ _ _ _ _ Hb HP Hst Es) as Hst'. split; cbn.
      * intros j kj Hj Hn. rewrite list_lookup_insert_ne in Hj by done. by eapply Ho.
      * exists k'. split; [|done]. apply list_lookup_insert_eq. by eapply lookup_lt_Some.
    + rewrite (effect_free _ _ _ p) by (by eapply Ho). rewrite app_nil_r. split; cbn.
      * intros j kj Hj Hn. destruct (decide (i = j)) as [<-|]; [|rewrite list_lookup_insert_ne in Hj by done; by eapply Ho].
        rewrite list_lookup_insert_eq in Hj by (by eapply lookup_lt_Some). injection Hj as <-. eapply serve_free; [|exact Es]. by eapply Ho.
      * exists k. by rewrite list_lookup_insert_ne.
  - destruct H as [Ho (k & Hk & Hst)]. split; cbn; [done|]. exists k. split; [done|]. by apply stage_read.
Qed.

Lemma jstep_events s e : zlen (log_events s) <= zlen (log_events (jstep s e)).
Proof.
  destruct e as [e|i lost answer|i x]; cbn; [by destruct e| |]; rewrite ?zlen_app.
  - pose proof (zlen_nonneg (default [] (effect lost answer (jlogs s) <$> tasks (view s) !! i))). lia.
  - unfold zlen. cbn. lia.
Qed.

Lemma jrun_snoc es e : jrun (es ++ [e]) = jstep (jrun es) e.
Proof. unfold jrun. by rewrite foldl_snoc. Qed.

(** The view is never more than 500 lines behind from the start of the log on. *)
Definition keeps_up (d : bytes) (es0 es : list jevent) : Prop :=
  forall es', es' `prefix_of` es -> behind d (jrun (es0 ++ JView (Press LogcatStart) :: es')) <= 500.

Lemma watched_run es0 d es : Forall log_free (tasks (view (jrun es0))) ->
  offered LogcatStart (tools (view (jrun es0))) = true -> device (tools (view (jrun es0))) = Some d -> Forall watching es ->
  zlen (log_events (jrun (es0 ++ JView (Press LogcatStart) :: es))) < 2 ^ 64 ->
  watched (keeps_up d es0 es) d (length (tasks (view (jrun es0)))) (jrun (es0 ++ JView (Press LogcatStart) :: es)).
Proof.
  intros Hf Ho Hd. induction es as [|e es IH] using rev_ind; intros Hw Hb.
  - rewrite jrun_snoc. cbn [jstep vstep]. rewrite Ho. cbn [press]. unfold start_logcat. rewrite Hd. split; cbn.
    + intros i k [Hi|[Hi Hk]]%lookup_app_Some Hn; [rewrite Forall_lookup in Hf; by eapply Hf|].
      apply list_lookup_singleton_Some in Hk as [Hk _]. lia.
    + exists (logcat_task d). split; [by rewrite lookup_app_r, Nat.sub_diag by lia|]. left. unfold not_begun. cbn. auto.
  - apply Forall_app in Hw as [Hw He]. rewrite Forall_singleton in He.
    replace (es0 ++ JView (Press LogcatStart) :: es ++ [e]) with ((es0 ++ JView (Press LogcatStart) :: es) ++ [e]) in *
      by (by rewrite <- app_assoc). rewrite jrun_snoc in *.
    assert (Hb' : zlen (log_events (jrun (es0 ++ JView (Press LogcatStart) :: es))) < 2 ^ 64)
      by (pose proof (jstep_events (jrun (es0 ++ JView (Press LogcatStart) :: es)) e); lia).
    apply watched_step; [done|done|intros HP; apply HP; by exists [e]|].
    destruct (IH Hw Hb') as [H1 (k & Hk & Hst)]. split; [done|]. exists k. split; [done|].
    eapply stage_weaken; [|exact Hst]. intros HP es' Hpre. apply HP. by apply prefix_app_r.
Qed.

(** C32: the log the tools view shows. Logcat is started on phone [d]
    while no task of an earlier log is left, and watched: whatever else is pressed
    and typed, however the answers of the calls come or fail and however
    the daemon's reader goes on. Then every line shown is a line of [d]'s stream, with its
    number, in order and once, at most 2000 of them; and as long as the view
    was never more than 500 lines behind, what is shown is exactly the last
    2000 of all the lines up to its cursor. *)
Theorem log_shown (es0 es : list jevent) (d : bytes) :
  Forall log_free (tasks (view (jrun es0))) ->
  offered LogcatStart (tools (view (jrun es0))) = true -> device (tools (view (jrun es0))) = Some d -> Forall watching es ->
  let s := jrun (es0 ++ JView (Press LogcatStart) :: es) in
  zlen (log_events s) < 2 ^ 64 ->
  let lg := logcat (tools (view s)) in
  exists log, (log = [] \/ stream_is d log (jlogs s))
    /\ 0 <= logcat_cursor lg <= zlen (lines_of_log log)
    /\ shown_lines lg `sublist_of` ztake (logcat_cursor lg) (lines_of_log log)
    /\ (length (shown_lines lg) <= SHOWN_CAP)%nat
    /\ (keeps_up d es0 es -> shown_lines lg = last_shown (ztake (logcat_cursor lg) (lines_of_log log))).
Proof.
  intros Hf Ho Hd Hw s Hb lg. destruct (watched_run es0 d es Hf Ho Hd Hw Hb) as [_ (k & _ & Hst)].
  destruct Hst as [(H1 & H2 & _)|(log & Hs & _ & (H1 & H2 & H3 & H4) & _)].
  - exists []. fold s lg in H1, H2. rewrite H1, H2. split_and!; try done; first [by left|apply sublist_nil_l|cbn; lia].
  - exists log. rewrite lines_of_log_len. destruct H1. split_and!; try done. by right.
Qed.
End joint.

(** Phone A prints a line, which is polled. *)
Definition demo_ready : gset bytes := {[ bs "A"; bs "B" ]}.
Definition demo_show (e : bus_error) : bytes := bs "error".
Definition call (i : nat) : jevent := JCall i None (all_well []).
Definition demo_open : list jevent := [JView (Open (Some (bs "A")) (bs "Pixel"))].
Definition prints (i : nat) (t : bytes) : jevent := JRead i (Line (t ++ [10])).
Definition round (i : nat) : list jevent := [call i; JView (Woken i); call i; JView (Woken i)].
Definition demo_watch : list jevent := [call 1; JRead 0 (Spawned true); prints 0 (bs "one")] ++ round 1.

Definition demo_log : Logcat := logcat (tools (view (jrun demo_ready demo_show (demo_open ++ JView (Press LogcatStart) :: demo_watch)))).

Lemma demo_keeps_up : keeps_up demo_ready demo_show (bs "A") demo_open demo_watch.
Proof.
  intros es' [k Hk]. assert (He : es' = take (length es') demo_watch) by (rewrite Hk; symmetry; apply take_app_length).
  assert (Hn : (length es' <= 7)%nat) by (apply (f_equal length) in Hk; rewrite length_app in Hk; cbn in Hk; lia).
  rewrite He. clear He Hk. revert Hn. generalize (length es'). intros n Hn. do 8 (destruct n as [|n]; [by vm_compute|]). lia.
Qed.
Lemma demo_free : Forall log_free (tasks (view (jrun demo_ready demo_show demo_open))).
Proof. apply Forall_singleton, reload_free. Qed.
Lemma demo_facts :
  offered LogcatStart (tools (view (jrun demo_ready demo_show demo_open))) = true
  /\ device (tools (view (jrun demo_ready demo_show demo_open))) = Some (bs "A")
  /\ Forall watching demo_watch
  /\ zlen (log_events (jrun demo_ready demo_show (demo_open ++ JView (Press LogcatStart) :: demo_watch))) < 2 ^ 64
  /\ shown_lines demo_log = [(0, bs "one")].
Proof. split_and!; [by vm_compute|by vm_compute|by repeat constructor|by vm_compute|by vm_compute]. Qed.

Lemma log_shown_witness :
  shown_lines demo_log = [(0, bs "one")]
  /\ exists log, shown_lines demo_log = last_shown (ztake (logcat_cursor demo_log) (lines_of_log log)).
Proof.
  destruct demo_facts as (H1 & H2 & H3 & H4 & H5). split; [exact H5|].
  destruct (log_shown demo_ready demo_show demo_open demo_watch (bs "A") demo_free H1 H2 H3 H4) as (log & _ & _ & _ & _ & H).
  exists log. exact (H demo_keeps_up).
Defined.

(** ** Where the log is wrong *)

Definition demo (es : list jevent) : joint := jrun demo_ready demo_show (demo_open ++ es).
Definition shown (s : joint) : list LogcatLine := shown_lines (logcat (tools (view s))).
Definition begun : list jevent := [JView (Press LogcatStart); call 1; JRead 0 (Spawned true)].

(** Stopped and started again before the first poll has ended: the first task goes on
    polling too, and both show the same line. *)
Theorem two_polls_show_a_line_twice :
  let s := demo (begun ++ [call 1; JView (Woken 1); JView (Press LogcatStop); call 2; JView (Press LogcatStart); call 3;
                 JRead 1 (Spawned true); prints 1 (bs "one"); call 3; JView (Woken 3); call 1; call 3; JView (Woken 1); JView (Woken 3)]) in
  shown s = [(0, bs "one"); (0, bs "one")].
Proof. by vm_compute. Qed.

(** A poll of phone A that ends after phone B was opened shows A's lines as B's. *)
Theorem lines_of_the_other_phone :
  let s := demo (begun ++ [prints 0 (bs "one"); call 1; JView (Woken 1); call 1; JView (Open (Some (bs "B")) (bs "Fold")); JView (Woken 1)]) in
  device (tools (view s)) = Some (bs "B") /\ shown s = [(0, bs "one")].
Proof. by vm_compute. Qed.

(** Another phone is opened: the stream of the first goes on in the daemon, and the task that
    followed it ends without a call to stop it. *)
Theorem stream_left_running :
  let s := demo (begun ++ [JView (Open (Some (bs "B")) (bs "Fold")); call 1; JView (Woken 1)]) in
  streams (jlogs s) !! bs "A" = Some 0%nat /\ r_stopped <$> (readers (jlogs s) !! 0%nat) = Some false
  /\ (match tasks (view s) !! 1%nat with Some (VRet _) => true | _ => false end) = true.
Proof. by vm_compute. Qed.
