(* ===== verification/HostDesktop.v ===== *)
(** * Listings and programs of this computer

    The rest of [adb-gui/src/state/localfs.rs] beside [LocalFs]: listing a
    directory from what the kernel answers for its entries, and starting the
    programs of the desktop. Whether a program starts is an argument. *)

From stdpp Require Import base list strings.
From S2P Require Import Prelude RustStd Text GuiModels DaemonInput.

(** ** Listing *)

(** What [stat] tells of a file; [modified] in seconds since the epoch, negative before it. *)
Record meta := mkMeta { m_dir : bool; m_len : Z; m_perm : Z; modified : option Z }.
(** An entry of the directory: its name, the file behind it, itself, and whether it is a link. *)
Record raw := mkRaw { raw_name : bytes; followed : option meta; itself : option meta; raw_link : option bool }.

Definition mtime_of (m : meta) : Z := match modified m with Some t => if t <? 0 then 0 else t | None => 0 end.
Definition entry_of (r : raw) : option DirEntry :=
  (fun m => mkEntry (from_utf8_lossy (raw_name r)) (m_dir m) (default false (raw_link r)) (m_len m) (Z.land (m_perm m) 0xFFF) (mtime_of m))
    <$> (match followed r with Some m => Some m | None => itself r end).

(** An entry that could not be read is [None]. *)
Definition list_dir (path : bytes) (opened : result bytes (list (option raw))) : result bytes (list DirEntry) :=
  match opened with
  | Err e => Err (from_utf8_lossy path ++ bs ": " ++ e)
  | Ok rs => Ok (omap (fun r => r ≫= entry_of) rs)
  end.

(** ** Programs *)

Section programs.
(** Whether [argv] starts, or the error of it. *)
Context (spawn : list bytes -> result bytes unit).

Definition open_external (path : bytes) : result bytes unit :=
  match spawn [bs "xdg-open"; path] with Ok _ => Ok tt | Err e => Err (bs "xdg-open: " ++ e) end.

(** The candidates in turn: what was started, or why each was not. *)
Fixpoint try_each (argvs : list (list bytes)) (tried : list bytes) : result bytes (list bytes) :=
  match argvs with
  | [] => Err (bs "no terminal emulator found (" ++ join (bs ", ") tried ++ bs ")")
  | argv :: rest =>
      match spawn argv with
      | Ok _ => Ok argv
      | Err e => try_each rest (tried ++ [default [] (head argv) ++ bs ": " ++ e])
      end
  end.

Definition local_terminals (dir : bytes) : list (list bytes) :=
  (fun '(program, flag) => [program; flag; dir]) <$>
    [(bs "gnome-terminal", bs "--working-directory"); (bs "kgx", bs "--working-directory");
     (bs "xfce4-terminal", bs "--working-directory"); (bs "x-terminal-emulator", bs "--working-directory");
     (bs "konsole", bs "--workdir"); (bs "alacritty", bs "--working-directory"); (bs "kitty", bs "--directory")].
Definition open_terminal (dir : bytes) : result bytes (list bytes) := try_each (local_terminals (from_utf8_lossy dir)) [].

Definition shell_quote (value : bytes) : bytes := [39] ++ escape value ++ [39].
Definition device_command (dir : bytes) : bytes := bs "cd " ++ shell_quote dir ++ bs " && exec $SHELL -l".

(** [PATH] is cut at its colons. *)
Definition which (is_file : bytes -> bool) (name : bytes) (path : option bytes) : result bytes bytes :=
  match path with
  | None => Err (bs "no PATH")
  | Some p =>
      match List.find is_file ((fun d => path_join d name) <$> split_on 58 p) with
      | Some c => Ok c
      | None => Err (name ++ bs " not found on PATH")
      end
  end.

Definition terminal_candidates : list (bytes * bytes) :=
  [(bs "gnome-terminal", bs "--"); (bs "kgx", bs "--"); (bs "xfce4-terminal", bs "--command"); (bs "konsole", bs "-e");
   (bs "alacritty", bs "-e"); (bs "kitty", bs "--")].
Definition device_terminals (adb serial dir : bytes) : list (list bytes) :=
  (fun '(program, flag) => [program; flag; from_utf8_lossy adb; bs "-s"; serial; bs "shell"; device_command dir]) <$> terminal_candidates.
Definition open_device_terminal (is_file : bytes -> bool) (env_path : option bytes) (serial dir : bytes) : result bytes (list bytes) :=
  match which is_file (bs "adb") env_path with
  | Err e => Err (bs "adb: " ++ e)
  | Ok adb => try_each (device_terminals adb serial (from_utf8_lossy dir)) []
  end.

(** ** Proofs *)

Lemma try_terminals_spec argvs tried : match try_each argvs tried with
  | Ok argv => exists before after, argvs = before ++ argv :: after /\ spawn argv = Ok tt /\ Forall (fun a => exists e, spawn a = Err e) before
  | Err _ => Forall (fun a => exists e, spawn a = Err e) argvs
  end.
Proof.
  revert tried. induction argvs as [|a rest IH]; intros tried; cbn; [constructor|]. destruct (spawn a) as [[]|e] eqn:E.
  - exists [], rest. split_and!; try done.
  - specialize (IH (tried ++ [default [] (head a) ++ bs ": " ++ e])). destruct (try_each rest _) as [argv|].
    + destruct IH as (before & after & -> & H1 & H2). exists (a :: before), after. split_and!; try done. constructor; eauto.
    + constructor; eauto.
Qed.

(** A shell on the phone opens in the folder that is browsed: the first terminal
    that starts is given adb with one command, whose first words the phone's shell reads as
    [cd] and exactly the folder, whatever its name; if none starts every
    candidate was tried. *)
Theorem device_terminal_opens (is_file : bytes -> bool) (env_path : option bytes) (serial dir : bytes) :
  sh_words (bs "cd " ++ shell_quote dir) = Some [bs "cd"; dir]
  /\ match open_device_terminal is_file env_path serial dir with
     | Ok argv => exists adb program flag, (program, flag) ∈ terminal_candidates /\ is_file adb = true
         /\ argv = [program; flag; from_utf8_lossy adb; bs "-s"; serial; bs "shell"; device_command (from_utf8_lossy dir)]
     | Err _ => forall adb, which is_file (bs "adb") env_path = Ok adb ->
         Forall (fun a => exists e, spawn a = Err e) (device_terminals adb serial (from_utf8_lossy dir))
     end.
Proof.
  split.
  - unfold sh_words, shell_quote. change (bs "cd " ++ [39] ++ ?l) with (bs "cd" ++ 32 :: 39 :: l).
    rewrite sh_word by (done || (apply (bool_decide_unpack _); by vm_compute)).
    change (sh (39 :: ?l) None false) with (sh l (Some []) true). by rewrite sh_escaped.
  - unfold open_device_terminal. destruct (which is_file (bs "adb") env_path) as [adb|e] eqn:Ew; [|done].
    pose proof (try_terminals_spec (device_terminals adb serial (from_utf8_lossy dir)) []) as H. destruct (try_each _ _) as [argv|].
    2: { intros adb' [= <-]. exact H. }
    destruct H as (before & after & Hl & _ & _). assert (Hin : argv ∈ device_terminals adb serial (from_utf8_lossy dir)) by (rewrite Hl; apply elem_of_app; right; left).
    apply list_elem_of_fmap in Hin as ([program flag] & -> & Hc). exists adb, program, flag. split_and!; try done.
    unfold which in Ew. destruct env_path as [p|]; [|done]. destruct (List.find _ _) as [c|] eqn:Ef; [|done]. injection Ew as <-.
    by apply List.find_some in Ef as [_ Ef].
Qed.
End programs.

(** A listing has every entry that can be looked at, in the order they come: a link to a
    directory as a directory, a link to nothing as itself. *)
Theorem listing_complete (path : bytes) (rs : list (option raw)) :
  exists es, list_dir path (Ok rs) = Ok es
  /\ (e_name <$> es) = omap (fun r => r ≫= fun r => (fun _ => from_utf8_lossy (raw_name r)) <$> (match followed r with Some m => Some m | None => itself r end)) rs
  /\ Forall (fun e => 0 <= e_mtime e /\ 0 <= e_mode e < 4096) es.
Proof.
  eexists. split; [done|]. split.
  - induction rs as [|[r|] rs IH]; [done| |exact IH]. cbn [omap list_omap mbind option_bind] in IH |- *.
    unfold entry_of at 1. destruct (match followed r with Some m => Some m | None => itself r end) as [m|]; [|exact IH].
    cbn [fmap option_fmap option_map list_fmap]. f_equal. exact IH.
  - apply Forall_forall. intros e ([r|] & _ & He)%list_elem_of_omap; [|done]. cbn in He. unfold entry_of in He.
    destruct (match followed r with Some m => Some m | None => itself r end) as [m|]; [|done]. injection He as <-. cbn. split.
    + unfold mtime_of. destruct (modified m) as [t|]; [|done]. case_bool; bool_to_prop; lia.
    + change 0xFFF with (Z.ones 12). rewrite Z.land_ones by done. apply Z.mod_pos_bound. done.
Qed.
