(* ===== verification/LocalFs.v ===== *)
(** * Files of this computer

    [adb-gui/src/state/localfs.rs]: copying, moving, deleting and trashing on
    the host's disk. A path is the list of its components from the root, none
    of them a link; the disk maps paths to nodes. Every system call may fail,
    and what a failed one leaves behind is up to the [kernel]. *)

From stdpp Require Import base gmap list strings.
From S2P Require Import Prelude RustStd Text.

(** ** The disk *)

Abbreviation path := (list bytes).
Inductive node : Type :=
| NFile (content : bytes) (mode : Z)
| NDir (mode : Z)
| NLink (target : bytes)
| NOther.
#[global] Instance path_eq_dec : EqDecision path := list_eq_dec.
#[global] Instance path_countable : Countable path := list_countable.
Abbreviation disk := (@gmap path path_eq_dec path_countable node).

Inductive io_error : Type := Os (code : Z) | Custom (msg : bytes).
(** [ErrorKind::NotFound] and the errors the code looks at or the calls give. *)
Definition not_found (e : io_error) : bool := match e with Os 2 => true | _ => false end.
Definition ENOENT : io_error := Os 2.
Definition EEXIST : io_error := Os 17.
Definition EXDEV : io_error := Os 18.
Definition ENOTDIR : io_error := Os 20.
Definition EISDIR : io_error := Os 21.
Definition EINVAL : io_error := Os 22.
Definition ENOTEMPTY : io_error := Os 39.

(** What is outside the program. [fault n]: the error the [n]-th call fails
    with. A failed copy has written [written n] of the content, a failed
    [remove_dir_all] has left what is [spared n]. [resolve] follows the links
    of a path to the end, [order] is the order of a listing, [strerror] the
    text of an error. *)
Record kernel := mkKernel {
  fault : nat -> option io_error;
  written : nat -> bytes -> bytes;
  spared : nat -> path -> bool;
  same_device : path -> path -> bool;
  resolve : disk -> path -> option path;
  order : nat -> list bytes -> list bytes;
  dir_mode : Z;
  strerror : Z -> bytes;
  order_perm : forall n l, order n l ≡ₚ l;
  resolve_plain : forall d p n, d !! p = Some n -> (forall t, n <> NLink t) -> resolve d p = Some p;
  resolve_absent : forall d p, d !! p = None -> resolve d p = None;
  resolve_found : forall d p q, resolve d p = Some q -> exists n, d !! q = Some n /\ forall t, n <> NLink t;
}.

Fixpoint strip (p q : path) : option path :=
  match p, q with
  | [], q => Some q
  | a :: p, b :: q => if bool_decide (a = b) then strip p q else None
  | _ :: _, [] => None
  end.
Definition under (p q : path) : bool := match strip p q with Some _ => true | None => false end.

Definition parent_of (p : path) : option path := match p with [] => None | _ => Some (removelast p) end.
Definition is_ndir (n : option node) : bool := match n with Some (NDir _) => true | _ => false end.
(** There is a directory to put [p] in. *)
Definition has_parent (d : disk) (p : path) : bool :=
  match parent_of p with Some q => is_ndir (d !! q) | None => false end.

(** Below [p]: its tree, the tree put elsewhere, the rest of the disk. *)
Definition subtree (p : path) (d : disk) : disk :=
  list_to_map (omap (fun '(q, n) => (fun r => (r, n)) <$> strip p q) (map_to_list d)).
Definition graft (p : path) (t : disk) : disk := kmap (app p) t.
Definition prune (p : path) (d : disk) : disk := filter (fun '(q, _) => under p q = false) d.
Definition children (d : disk) (p : path) : list bytes :=
  omap (fun '(q, _) => match strip p q with Some [x] => Some x | _ => None end) (map_to_list d).

(** ** Programs *)

Record st := mkSt { disk_of : disk; clock : nat }.
(** A value, an error, or the fuel of a loop ran out. *)
Inductive res (A : Type) : Type := Val (a : A) | Fail (e : io_error) | Stuck.
Arguments Val {A} a.
Arguments Fail {A} e.
Arguments Stuck {A}.
Definition M (A : Type) : Type := st -> res A * st.
Global Instance M_ret : MRet M := fun A a s => (Val a, s).
Global Instance M_bind : MBind M :=
  fun A B f m s => match m s with (Val a, s) => f a s | (Fail e, s) => (Fail e, s) | (Stuck, s) => (Stuck, s) end.
Definition fail {A : Type} (e : io_error) : M A := fun s => (Fail e, s).
(** The [Result] of a call as a value. *)
Definition try {A : Type} (m : M A) : M (result io_error A) :=
  fun s => match m s with (Val a, s) => (Val (Ok a), s) | (Fail e, s) => (Val (Err e), s) | (Stuck, s) => (Stuck, s) end.

Section LocalFs.
Context (K : kernel).

(** ** System calls *)

(** [f] is the call when it works, [broken] what it leaves when it does not. *)
Definition call {A : Type} (broken : nat -> disk -> disk) (f : nat -> disk -> result io_error (A * disk)) : M A := fun s =>
  let n := clock s in
  match fault K n with
  | Some e => (Fail e, mkSt (broken n (disk_of s)) (S n))
  | None =>
      match f n (disk_of s) with
      | Ok (a, d) => (Val a, mkSt d (S n))
      | Err e => (Fail e, mkSt (disk_of s) (S n))
      end
  end.
Definition simple {A : Type} (f : disk -> result io_error (A * disk)) : M A := call (fun _ d => d) (fun _ => f).
Definition look {A : Type} (f : disk -> result io_error A) : M A :=
  simple (fun d => match f d with Ok a => Ok (a, d) | Err e => Err e end).

Definition symlink_metadata (p : path) : M node :=
  look (fun d => match d !! p with Some n => Ok n | None => Err ENOENT end).
(** [fs::metadata]: the node behind the links. *)
Definition followed (d : disk) (p : path) : option node := q ← resolve K d p; d !! q.
Definition metadata (p : path) : M node :=
  look (fun d => match followed d p with Some n => Ok n | None => Err ENOENT end).
Definition exists_ (p : path) : M bool := fun s => (Val (bool_decide (is_Some (followed (disk_of s) p))), s).
Definition is_dir (p : path) : M bool := r ← try (metadata p); mret (match r with Ok (NDir _) => true | _ => false end).

Definition mkdir_one (p : path) : M unit :=
  simple (fun d => match d !! p with
                   | Some _ => Err EEXIST
                   | None => if has_parent d p then Ok (tt, <[p := NDir (dir_mode K)]> d) else Err ENOENT
                   end).
Definition read_dir (p : path) : M (list bytes) :=
  call (fun _ d => d) (fun n d =>
    match resolve K d p with
    | None => Err ENOENT
    | Some q => if is_ndir (d !! q) then Ok (order K n (children d q), d) else Err ENOTDIR
    end).
(** The next entry of a listing: what [readdir] says of it. *)
Definition next_entry (p : path) : M node := symlink_metadata p.
Definition read_link (p : path) : M bytes :=
  look (fun d => match d !! p with Some (NLink t) => Ok t | Some _ => Err EINVAL | None => Err ENOENT end).
Definition symlink (target : bytes) (p : path) : M unit :=
  simple (fun d => match d !! p with
                   | Some _ => Err EEXIST
                   | None => if has_parent d p then Ok (tt, <[p := NLink target]> d) else Err ENOENT
                   end).
Definition remove_file (p : path) : M unit :=
  simple (fun d => match d !! p with
                   | Some (NDir _) => Err EISDIR
                   | Some _ => Ok (tt, delete p d)
                   | None => Err ENOENT
                   end).
Definition remove_dir_all (p : path) : M unit :=
  call (fun n d => filter (fun '(q, _) => under p q && negb (spared K n q) = false) d)
       (fun _ d => match d !! p with
                   | Some (NDir _) => Ok (tt, prune p d)
                   | Some _ => Err ENOTDIR
                   | None => Err ENOENT
                   end).

(** Where a write to [p] goes: behind the links, or to a new file. *)
Definition write_target (d : disk) (p : path) : result io_error path :=
  match d !! p with
  | Some (NLink _) => match resolve K d p with Some q => Ok q | None => Err ENOENT end
  | Some _ => Ok p
  | None => if has_parent d p then Ok p else Err ENOENT
  end.
Definition write_node (p : path) (content : bytes) (mode : Z) (d : disk) : result io_error disk :=
  q ← write_target d p;
  match d !! q with
  | Some (NDir _) => Err EISDIR
  | Some NOther => Err EINVAL
  | _ => Ok (<[q := NFile content mode]> d)
  end.
(** [fs::copy]: content and permissions; a failed one may have begun. *)
Definition fs_copy (src dst : path) : M unit :=
  call (fun n d => match followed d src with
                   | Some (NFile c m) =>
                       match write_node dst (written K n c) m d with Ok d => d | Err _ => d end
                   | _ => d
                   end)
       (fun _ d => match followed d src with
                   | Some (NFile c m) => match write_node dst c m d with Ok d => Ok (tt, d) | Err e => Err e end
                   | Some _ => Err (Custom (bs "the source path is neither a regular file nor a symlink to a regular file"))
                   | None => Err ENOENT
                   end).
Definition mode_of (n : node) : Z := match n with NFile _ m | NDir m => m | _ => 0 end.
Definition chmod (m : Z) (n : node) : node := match n with NFile c _ => NFile c m | NDir _ => NDir m | n => n end.
Definition set_permissions (p : path) (m : Z) : M unit :=
  simple (fun d => match resolve K d p with
                   | Some q => match d !! q with Some n => Ok (tt, <[q := chmod m n]> d) | None => Err ENOENT end
                   | None => Err ENOENT
                   end).
(** [fs::write] of a file for the user; 0o644 with the usual mask. *)
Definition fs_write (p : path) (content : bytes) : M unit :=
  call (fun n d => match write_node p (written K n content) 0x1A4 d with Ok d => d | Err _ => d end)
       (fun _ d => match write_node p content 0x1A4 d with Ok d => Ok (tt, d) | Err e => Err e end).

Definition renamed (src dst : path) (d : disk) : disk := graft dst (subtree src d) ∪ prune src (prune dst d).
Definition fs_rename (src dst : path) : M unit :=
  simple (fun d =>
    if negb (same_device K src dst) then Err EXDEV else
    match d !! src with
    | None => Err ENOENT
    | Some n =>
        if negb (has_parent d dst) then Err ENOENT
        else if bool_decide (src = dst) then Ok (tt, d)
        else if under src dst then Err EINVAL
        else match d !! dst with
             | None => Ok (tt, renamed src dst d)
             | Some n' =>
                 if is_ndir (Some n') then
                   if negb (is_ndir (Some n)) then Err EISDIR
                   else if bool_decide (children d dst = []) then Ok (tt, renamed src dst d) else Err ENOTEMPTY
                 else if is_ndir (Some n) then Err ENOTDIR else Ok (tt, renamed src dst d)
             end
    end).

(** [fs::create_dir_all], on the reversed path. *)
Fixpoint create_rev (rp : path) : M unit :=
  let p := rev rp in
  let make_or_there : M unit :=
    r ← try (mkdir_one p);
    match r with Ok _ => mret tt | Err e => d ← is_dir p; if (d : bool) then mret tt else fail e end in
  r ← try (mkdir_one p);
  match r with
  | Ok _ => mret tt
  | Err e =>
      if not_found e then
        match rp with
        | [] => fail (Custom (bs "failed to create whole tree"))
        | _ :: up => _ ← create_rev up; make_or_there
        end
      else d ← is_dir p; if (d : bool) then mret tt else fail e
  end.
Definition create_dir_all (p : path) : M unit := create_rev (rev p).

(** ** [localfs.rs] *)

Definition mkdir (p : path) : M unit := create_dir_all p.
Definition rename (src dst : path) : M unit := fs_rename src dst.

Definition delete_path (p : path) : M unit :=
  meta ← symlink_metadata p;
  match meta with NDir _ => remove_dir_all p | _ => remove_file p end.

Definition copy_file (src dst : path) : M unit :=
  if bool_decide (src = dst) then mret tt else
  _ ← match parent_of dst with Some parent => create_dir_all parent | None => mret tt end;
  _ ← fs_copy src dst;
  meta ← try (metadata src);
  match meta with
  | Ok meta => _ ← try (set_permissions dst (mode_of meta)); mret tt
  | Err _ => mret tt
  end.

Inductive LinkHandling : Type := Skip | Recreate.

Definition MAX_COPY_FILES : Z := 10000.
Definition MAX_COPY_DEPTH : Z := 32.

(** [Path::display] *)
Definition display_path (p : path) : bytes :=
  match p with [] => bs "/" | _ => concat ((fun x => 47 :: x) <$> p) end.
Definition too_many : io_error := Custom (bs "too many files (limit 10000)").
Definition too_deep (p : path) : io_error := Custom (display_path p ++ bs ": nesting too deep").
Definition into_itself (p : path) : io_error := Custom (bs "cannot copy " ++ display_path p ++ bs " into itself").

Definition task : Type := path * path * Z.

(** The entries of one directory: the tasks pushed, newest first, and the count. *)
Fixpoint copy_entries (links : LinkHandling) (from to : path) (depth : Z) (names : list bytes)
    (stack : list task) (copied : Z) : M (list task * Z) :=
  match names with
  | [] => mret (stack, copied)
  | x :: names =>
      file_type ← next_entry (from ++ [x]);
      match file_type with
      | NLink _ =>
          match links with
          | Skip => copy_entries links from to depth names stack copied
          | Recreate =>
              if MAX_COPY_FILES <=? copied then fail too_many else
              target ← read_link (from ++ [x]);
              _ ← match parent_of (to ++ [x]) with Some parent => create_dir_all parent | None => mret tt end;
              _ ← symlink target (to ++ [x]);
              copy_entries links from to depth names stack (copied + 1)
          end
      | NDir _ => copy_entries links from to depth names ((from ++ [x], to ++ [x], depth + 1) :: stack) copied
      | NFile _ _ =>
          if MAX_COPY_FILES <=? copied then fail too_many else
          _ ← copy_file (from ++ [x]) (to ++ [x]);
          copy_entries links from to depth names stack (copied + 1)
      | NOther => copy_entries links from to depth names stack copied
      end
  end.

Fixpoint copy_loop (fuel : nat) (links : LinkHandling) (stack : list task) (copied : Z) : M Z :=
  match stack with
  | [] => mret copied
  | (from, to, depth) :: stack =>
      match fuel with
      | O => fun s => (Stuck, s)
      | S fuel =>
          if MAX_COPY_DEPTH <? depth then fail (too_deep from) else
          _ ← create_dir_all to;
          names ← read_dir from;
          '(stack, copied) ← copy_entries links from to depth names stack copied;
          copy_loop fuel links stack copied
      end
  end.

Definition copy_tree_inner (fuel : nat) (src dst : path) (links : LinkHandling) : M Z :=
  if under src dst then fail (into_itself src) else copy_loop fuel links [(src, dst, 0)] 0.
Definition copy_tree (fuel : nat) (src dst : path) : M Z := copy_tree_inner fuel src dst Skip.
Definition copy_tree_preserving_links (fuel : nat) (src dst : path) : M Z := copy_tree_inner fuel src dst Recreate.

(** The arm of [move_path] for another file system. *)
Definition move_across (fuel : nat) (src dst : path) : M unit :=
  meta ← symlink_metadata src;
  match meta with
  | NDir _ => _ ← copy_tree_preserving_links fuel src dst; remove_dir_all src
  | NLink _ =>
      _ ← match parent_of dst with Some parent => create_dir_all parent | None => mret tt end;
      target ← read_link src;
      _ ← symlink target dst;
      remove_file src
  | _ => _ ← copy_file src dst; remove_file src
  end.
Definition move_path (fuel : nat) (src dst : path) : M unit :=
  r ← try (fs_rename src dst);
  match r with
  | Ok _ => mret tt
  | Err (Os 18) => move_across fuel src dst
  | Err e => fail e
  end.

(** ** Trash *)

(** [s.replace(c, by)] for a single character. *)
Definition replace_char (c : Z) (by_ s : bytes) : bytes := s ≫= fun b => if b =? c then by_ else [b].
Definition escape_percent (s : bytes) : bytes :=
  replace_char 92 (bs "%5C") (replace_char 10 (bs "%0A") (replace_char 37 (bs "%25") s)).

(** The names tried: [rounds] of them, the next being [candidate]. *)
Fixpoint free_name (rounds : nat) (n : Z) (dir : path) (stem candidate : bytes) : M (option (path * bytes)) :=
  match rounds with
  | O => mret None
  | S rounds =>
      there ← exists_ (dir ++ [candidate]);
      if (there : bool) then free_name rounds (n + 1) dir stem (stem ++ bs "." ++ fmt_dec n)
      else mret (Some (dir ++ [candidate], candidate))
  end.
Definition unique_name (pid : Z) (dir : path) (stem : bytes) : M (path * bytes) :=
  found ← free_name (Z.to_nat 9999) 1 dir stem stem;
  match found with
  | Some r => mret r
  | None => let candidate := stem ++ bs "." ++ fmt_dec pid in mret (dir ++ [candidate], candidate)
  end.

Definition show_error (e : io_error) : bytes := match e with Os c => strerror K c | Custom m => m end.
(** [map_err(|e| format!("{}: {e}", p.display()))] *)
Definition at_path {A : Type} (p : path) (m : M A) : M A :=
  r ← try m;
  match r with Ok a => mret a | Err e => fail (Custom (display_path p ++ bs ": " ++ show_error e)) end.

Definition canonicalize (p : path) : M path :=
  look (fun d => match resolve K d p with Some q => Ok q | None => Err ENOENT end).
Definition file_name (p : path) : M bytes :=
  match last p with Some x => mret x | None => fail (Custom (display_path p ++ bs ": no file name")) end.

Definition trash_info (absolute : path) (now : bytes) : bytes :=
  bs "[Trash Info]" ++ [10] ++ bs "Path=" ++ escape_percent (from_utf8_lossy (display_path absolute)) ++ [10]
  ++ bs "DeletionDate=" ++ now ++ [10].

(** [pid], [data_home] and [now]: the process, the user's data directory and
    the time as the record has it. The path is absolute, so that its parent
    is never empty. *)
Definition trash (fuel : nat) (pid : Z) (data_home : option path) (now : bytes) (p : path) : M path :=
  match data_home with
  | None => fail (Custom (bs "no XDG data directory"))
  | Some data_home =>
      let files_dir := data_home ++ [bs "Trash"; bs "files"] in
      let info_dir := data_home ++ [bs "Trash"; bs "info"] in
      _ ← at_path files_dir (create_dir_all files_dir);
      _ ← at_path info_dir (create_dir_all info_dir);
      name ← file_name p;
      '(target, trash_name) ← unique_name pid files_dir (from_utf8_lossy name);
      let info_target := info_dir ++ [trash_name ++ bs ".trashinfo"] in
      let dir := removelast p in
      dir ← at_path dir (canonicalize dir);
      let absolute := dir ++ [name] in
      _ ← at_path info_target (fs_write info_target (trash_info absolute now));
      moved ← try (move_path fuel p target);
      match moved with
      | Ok _ => mret target
      | Err e => _ ← try (remove_file info_target); fail (Custom (display_path p ++ bs ": " ++ show_error e))
      end
  end.

End LocalFs.
