(* ===== verification/LocalFsSpec.v ===== *)
(** * Moving and copying on this computer: nothing is lost

    The disk after each call as a function of its paths; the loop of
    [copy_tree_inner] by the set of directories still on its stack; moving
    and trashing on top of it, with a failure at any call. *)

From stdpp Require Import base gmap list strings.
From S2P Require Import Prelude RustStd Text LocalFs.

(** ** Paths and trees *)

Lemma strip_Some p q r : strip p q = Some r <-> q = p ++ r.
Proof.
  revert q. induction p as [|a p IH]; intros q; cbn [strip app]; [naive_solver|].
  destruct q as [|b q]; [naive_solver|]. case_bool_decide; subst; [rewrite IH|]; naive_solver.
Qed.
Lemma strip_app p r : strip p (p ++ r) = Some r.
Proof. by apply strip_Some. Qed.
Lemma under_true p q : under p q = true <-> exists r, q = p ++ r.
Proof. unfold under. destruct (strip p q) eqn:E; split; try done; [by apply strip_Some in E; eauto|]. intros [r ->]. by rewrite strip_app in E. Qed.
Lemma under_false p q : under p q = false <-> forall r, q <> p ++ r.
Proof.
  rewrite <- not_true_iff_false, under_true. split; [intros H r ->; eauto|intros H [r ->]; by eapply H].
Qed.
Lemma under_app p r : under p (p ++ r) = true.
Proof. apply under_true. eauto. Qed.
Lemma under_refl p : under p p = true.
Proof. rewrite <- (app_nil_r p) at 2. apply under_app. Qed.

Lemma NoDup_omap_inj {A B} (f : A -> option B) l :
  NoDup l -> (forall x y z, x ∈ l -> y ∈ l -> f x = Some z -> f y = Some z -> x = y) -> NoDup (omap f l).
Proof.
  induction l as [|a l IH]; intros Hl Hf; [constructor|]. apply NoDup_cons in Hl as [Ha Hl]. cbn.
  assert (NoDup (omap f l)) by (apply IH; [done|]; intros; eapply Hf; eauto; by right).
  destruct (f a) as [b|] eqn:E; [|done]. apply NoDup_cons. split; [|done]. intros (y & Hy & Hfy)%list_elem_of_omap.
  apply Ha. by rewrite (Hf a y b (list_elem_of_here _ _) (list_elem_of_further _ _ _ Hy) E Hfy).
Qed.

Lemma lookup_subtree p d r : subtree p d !! r = d !! (p ++ r).
Proof.
  unfold subtree. set (l := omap _ _).
  assert (Hl : forall r n, (r, n) ∈ l <-> d !! (p ++ r) = Some n).
  { intros r' n. unfold l. rewrite list_elem_of_omap. split.
    - intros ([q n'] & Hq & Hs). destruct (strip p q) eqn:E; simplify_option_eq.
      apply elem_of_map_to_list in Hq. apply strip_Some in E. by subst.
    - intros H. exists (p ++ r', n). split; [by apply elem_of_map_to_list|]. by rewrite strip_app. }
  assert (Hnd : NoDup l.*1).
  { unfold l. rewrite (list_fmap_omap _ fst). apply NoDup_omap_inj; [apply NoDup_map_to_list|].
    intros [q n] [q' n'] r' Hq Hq'. apply elem_of_map_to_list in Hq, Hq'. cbn.
    destruct (strip p q) eqn:E, (strip p q') eqn:E'; cbn; try done. intros [= ->] [= ->].
    apply strip_Some in E, E'. subst. congruence. }
  destruct (d !! (p ++ r)) as [n|] eqn:E.
  - apply elem_of_list_to_map; [done|]. by apply Hl.
  - apply not_elem_of_list_to_map. intros ([r' n] & -> & Hin)%list_elem_of_fmap. apply Hl in Hin. cbn in *. congruence.
Qed.
Lemma lookup_graft p t q : graft p t !! q = match strip p q with Some r => t !! r | None => None end.
Proof.
  unfold graft. destruct (strip p q) as [r|] eqn:E.
  - apply strip_Some in E. subst. apply (lookup_kmap (app p)).
  - apply (lookup_kmap_None (app p)). intros r Hr. apply strip_Some in Hr. congruence.
Qed.
Lemma lookup_prune p d q : prune p d !! q = if under p q then None else d !! q.
Proof.
  unfold prune. destruct (under p q) eqn:E.
  - apply map_lookup_filter_None. right. intros n _. cbn. congruence.
  - destruct (d !! q) eqn:Hq; [apply map_lookup_filter_Some; done|apply map_lookup_filter_None; by left].
Qed.
Lemma lookup_renamed src dst d q :
  renamed src dst d !! q =
  match strip dst q with Some r => d !! (src ++ r) | None => if under src q then None else d !! q end.
Proof.
  unfold renamed. destruct (strip dst q) as [r|] eqn:E.
  - rewrite lookup_union, lookup_graft, E, lookup_subtree, !lookup_prune. unfold under at 2. rewrite E.
    destruct (under src q); by rewrite option_union_right_id.
  - rewrite lookup_union, lookup_graft, E, !lookup_prune. unfold under at 2. rewrite E.
    by rewrite option_union_left_id.
Qed.

Lemma elem_of_children d p x : x ∈ children d p <-> is_Some (d !! (p ++ [x])).
Proof.
  unfold children. rewrite list_elem_of_omap. split.
  - intros ([q n] & Hq & Hs). destruct (strip p q) as [[|y []]|] eqn:E; simplify_eq.
    apply strip_Some in E. subst. apply elem_of_map_to_list in Hq. eauto.
  - intros [n Hn]. exists (p ++ [x], n). split; [by apply elem_of_map_to_list|]. by rewrite strip_app.
Qed.
Lemma NoDup_children d p : NoDup (children d p).
Proof.
  unfold children. apply NoDup_omap_inj; [apply NoDup_map_to_list|].
  intros [q n] [q' n'] x Hq Hq'. apply elem_of_map_to_list in Hq, Hq'.
  destruct (strip p q) as [[|y []]|] eqn:E; try done. destruct (strip p q') as [[|z []]|] eqn:E'; try done.
  intros [= ->] [= ->]. apply strip_Some in E, E'. subst. congruence.
Qed.

Lemma parent_snoc p x : parent_of (p ++ [x]) = Some p.
Proof. unfold parent_of. rewrite removelast_last. by destruct p. Qed.
Lemma has_parent_snoc d p x : has_parent d (p ++ [x]) = is_ndir (d !! p).
Proof. unfold has_parent. by rewrite parent_snoc. Qed.

(** ** A logic of programs *)

(** From a disk in [P], [m] ends with a value in [Q] or an error in [E]. *)
Definition spec {A : Type} (P : disk -> Prop) (m : M A) (Q : A -> disk -> Prop) (E : disk -> Prop) : Prop :=
  forall s, P (disk_of s) ->
    match m s with (Val a, s') => Q a (disk_of s') | (Fail _, s') => E (disk_of s') | (Stuck, _) => False end.

Lemma spec_ret {A : Type} (a : A) P (Q : A -> disk -> Prop) E : (forall d, P d -> Q a d) -> spec P (mret a) Q E.
Proof. intros H s. apply H. Qed.
Lemma spec_fail {A} e (P : disk -> Prop) (Q : A -> disk -> Prop) E : (forall d, P d -> E d) -> spec P (fail e) Q E.
Proof. intros H s. apply H. Qed.
Lemma spec_bind {A B : Type} (m : M A) (k : A -> M B) P R Q E :
  spec P m R E -> (forall a, spec (R a) (k a) Q E) -> spec P (m ≫= k) Q E.
Proof.
  intros Hm Hk s Hs. specialize (Hm s Hs). unfold mbind, M_bind. destruct (m s) as [[a|e|] s']; [by apply Hk|done..].
Qed.
Lemma spec_try {A : Type} (m : M A) P Q E E' :
  spec P m Q E -> spec P (try m) (fun r d' => match r with Ok a => Q a d' | Err _ => E d' end) E'.
Proof. intros Hm s Hs. specialize (Hm s Hs). unfold try. by destruct (m s) as [[a|e|] s']. Qed.
Lemma spec_conseq {A : Type} (m : M A) P P' Q Q' (E E' : disk -> Prop) :
  spec P' m Q' E' -> (forall d, P d -> P' d) -> (forall a d, Q' a d -> Q a d) -> (forall d, E' d -> E d) -> spec P m Q E.
Proof. intros Hm HP HQ HE s Hs. specialize (Hm s (HP _ Hs)). destruct (m s) as [[a|e|] s']; auto. Qed.
Lemma spec_pure {A : Type} (m : M A) (X : Prop) P Q E : (X -> spec P m Q E) -> spec (fun d => P d /\ X) m Q E.
Proof. intros H s [Hs HX]. by apply H. Qed.
Lemma spec_pre {A : Type} (m : M A) (P : disk -> Prop) Q E : (forall d, P d -> spec (fun d' => d' = d) m Q E) -> spec P m Q E.
Proof. intros H s Hs. by apply (H (disk_of s)). Qed.

Lemma ndir_some n : is_ndir n = true -> is_Some n.
Proof. by destruct n; eauto. Qed.

Definition wf (d : disk) : Prop := forall p x, is_Some (d !! (p ++ [x])) -> is_ndir (d !! p) = true.

Lemma wf_up d p r : wf d -> is_Some (d !! (p ++ r)) -> r <> [] -> is_ndir (d !! p) = true.
Proof.
  intros Hw. revert p. induction r as [|x r IH]; intros p Hd Hr; [done|]. destruct r as [|y r].
  - by apply (Hw p x).
  - rewrite (cons_middle x p (y :: r)), app_assoc in Hd. apply Hw with x.
    assert (H : is_ndir (d !! (p ++ [x])) = true) by (by apply IH). by destruct (d !! (p ++ [x])).
Qed.
Lemma wf_up_some d p r : wf d -> is_Some (d !! (p ++ r)) -> is_Some (d !! p).
Proof.
  intros Hw Hd. destruct r; [by rewrite app_nil_r in Hd|].
  assert (H : is_ndir (d !! p) = true) by (by eapply wf_up). by destruct (d !! p).
Qed.
Lemma wf_absent d p r : wf d -> d !! p = None -> d !! (p ++ r) = None.
Proof.
  intros Hw Hp. destruct (d !! (p ++ r)) eqn:E; [|done].
  destruct (wf_up_some d p r Hw) as [? ?]; [by rewrite E|congruence].
Qed.
Lemma wf_leaf d p r n : wf d -> d !! p = Some n -> is_ndir (Some n) = false -> r <> [] -> d !! (p ++ r) = None.
Proof.
  intros Hw Hp Hn Hr. destruct (d !! (p ++ r)) eqn:E; [|done].
  assert (H : is_ndir (d !! p) = true) by (eapply wf_up; eauto). rewrite Hp in H. congruence.
Qed.

Section Calls.
Context (K : kernel).

Lemma spec_call {A} broken (f : nat -> disk -> result io_error (A * disk)) d (Q : A -> disk -> Prop) (E : disk -> Prop) :
  (forall n, E (broken n d)) -> (forall n, match f n d with Ok (a, d') => Q a d' | Err _ => E d end) ->
  spec (fun d' => d' = d) (call K broken f) Q E.
Proof.
  intros HE Hf s Hs. subst d. unfold call. destruct (fault K (clock s)); [apply HE|].
  specialize (Hf (clock s)). by destruct (f _ (disk_of s)) as [[a d']|e].
Qed.
Lemma spec_simple {A : Type} (f : disk -> result io_error (A * disk)) d (Q : A -> disk -> Prop) (E : disk -> Prop) :
  E d -> match f d with Ok (a, d') => Q a d' | Err _ => E d end -> spec (fun d' => d' = d) (simple K f) Q E.
Proof. intros HE Hf. by apply spec_call. Qed.
Lemma spec_look {A : Type} (f : disk -> result io_error A) d (Q : A -> disk -> Prop) (E : disk -> Prop) :
  E d -> match f d with Ok a => Q a d | Err _ => E d end -> spec (fun d' => d' = d) (look K f) Q E.
Proof. intros HE Hf. apply spec_simple; [done|]. by destruct (f d). Qed.

(** Looking at a path changes nothing. *)
Lemma spec_is_dir p d E : spec (fun d' => d' = d) (is_dir K p)
  (fun b d' => d' = d /\ (b = true -> exists m, followed K d p = Some (NDir m))) E.
Proof.
  eapply spec_bind.
  - eapply (spec_try _ _ (fun n d' => d' = d /\ followed K d p = Some n) (fun d' => d' = d)).
    apply spec_look; [done|]. by destruct (followed K d p).
  - intros [n|e]; apply spec_ret; intros d'.
    + intros [-> Hf]. split; [done|]. destruct n; try done. eauto.
    + by intros ->.
Qed.

Lemma followed_plain d p n : d !! p = Some n -> (forall t, n <> NLink t) -> followed K d p = Some n.
Proof. intros Hp Hn. unfold followed. by rewrite (resolve_plain K d p n Hp Hn). Qed.

Lemma mkdir_exists p d E :
  is_Some (d !! p) -> spec (fun d' => d' = d) (try (mkdir_one K p)) (fun r d' => match r with Ok _ => False | Err _ => d' = d end) E.
Proof.
  intros [n Hn]. eapply (spec_try _ _ (fun _ _ => False) (fun d' => d' = d)). apply spec_simple; [done|]. by rewrite Hn.
Qed.
Lemma mkdir_fresh p d E :
  d !! p = None -> has_parent d p = true ->
  spec (fun d' => d' = d) (try (mkdir_one K p))
    (fun r d' => match r with Ok _ => d' = <[p := NDir (dir_mode K)]> d | Err _ => d' = d end) E.
Proof.
  intros Hn Hp. eapply (spec_try _ _ (fun _ d' => d' = <[p := NDir (dir_mode K)]> d) (fun d' => d' = d)).
  apply spec_simple; [done|]. by rewrite Hn, Hp.
Qed.
Lemma dir_or_fail p e d Q :
  (is_ndir (followed K d p) = true -> Q d) ->
  spec (fun d' => d' = d) (b ← is_dir K p; if (b : bool) then mret tt else fail e) (fun _ => Q) (fun d' => d' = d).
Proof.
  intros HQ. eapply spec_bind; [apply spec_is_dir|]. intros []; [apply spec_ret|apply spec_fail; by intros d' [-> _]].
  intros d' [-> H]. apply HQ. destruct H as [m ->]; done.
Qed.

(** [create_dir_all] of a directory that is there, and of one whose parent is. *)
Lemma create_there rp d :
  wf d -> is_ndir (d !! rev rp) = true -> spec (fun d' => d' = d) (create_rev K rp) (fun _ d' => d' = d) (fun d' => d' = d).
Proof.
  intros Hw. induction rp as [|x up IH]; intros Hd; cbn [create_rev].
  all: eapply spec_bind; [by apply mkdir_exists, ndir_some|]; intros [|e]; [by intros ? []|].
  all: destruct (not_found e); [|by apply dir_or_fail].
  - by apply spec_fail.
  - cbn [rev] in *. eapply spec_bind; [by apply IH, (Hw _ x), ndir_some|]. intros ?.
    eapply spec_bind; [by apply mkdir_exists, ndir_some|]. intros [|e']; [by intros ? []|]. by apply dir_or_fail.
Qed.
Lemma create_fresh p x d :
  wf d -> is_ndir (d !! p) = true -> d !! (p ++ [x]) = None ->
  spec (fun d' => d' = d) (create_dir_all K (p ++ [x])) (fun _ d' => d' = <[p ++ [x] := NDir (dir_mode K)]> d) (fun d' => d' = d).
Proof.
  intros Hw Hp Hx. unfold create_dir_all. rewrite rev_app_distr. cbn [rev app create_rev]. rewrite rev_involutive.
  assert (Hh : has_parent d (p ++ [x]) = true) by (by rewrite has_parent_snoc).
  assert (Hno : forall e, spec (fun d' => d' = d) (b ← is_dir K (p ++ [x]); if (b : bool) then mret tt else fail e)
                  (fun _ d' => d' = <[p ++ [x] := NDir (dir_mode K)]> d) (fun d' => d' = d)).
  { intros e. apply dir_or_fail. unfold followed. by rewrite resolve_absent. }
  eapply spec_bind; [by apply mkdir_fresh|]. intros [|e]; [by apply spec_ret|].
  destruct (not_found e); [|apply Hno].
  eapply spec_bind; [apply create_there; [done|by rewrite rev_involutive]|]. intros ?.
  eapply spec_bind; [by apply mkdir_fresh|]. intros [|e']; [by apply spec_ret|apply Hno].
Qed.

(** [copy_file] to a new name in a directory that is there. *)
Definition may_begin (p : path) (d d' : disk) : Prop := d' = d \/ exists n, d' = <[p := n]> d.

Lemma copy_file_fresh f q x c m d :
  wf d -> is_ndir (d !! q) = true -> d !! (q ++ [x]) = None -> d !! f = Some (NFile c m) ->
  spec (fun d' => d' = d) (copy_file K f (q ++ [x])) (fun _ d' => d' = <[q ++ [x] := NFile c m]> d) (may_begin (q ++ [x]) d).
Proof.
  intros Hw Hq Hx Hf. assert (Hne : f <> q ++ [x]) by congruence. unfold copy_file. rewrite bool_decide_eq_false_2 by done.
  rewrite parent_snoc. eapply spec_bind.
  { eapply spec_conseq; [apply (create_there _ d Hw); by rewrite rev_involutive|done|done|by left]. }
  intros ?. assert (Hsrc : followed K d f = Some (NFile c m)) by (by apply followed_plain).
  assert (Hwr : forall c', write_node K (q ++ [x]) c' m d = Ok (<[q ++ [x] := NFile c' m]> d)).
  { intros c'. unfold write_node, write_target. rewrite Hx, has_parent_snoc, Hq. cbn. by rewrite Hx. }
  set (d1 := <[q ++ [x] := NFile c m]> d) in *.
  eapply (spec_bind _ _ _ (fun _ d' => d' = d1)).
  { apply spec_call; [|intros n; by rewrite Hsrc, Hwr]. intros n. rewrite Hsrc, Hwr. right. eauto. }
  intros ?. assert (Hsrc1 : followed K d1 f = Some (NFile c m)) by (apply followed_plain; [by unfold d1; rewrite lookup_insert_ne|done]).
  eapply (spec_bind _ _ _ (fun r d' => d' = d1 /\ forall n, r = Ok n -> n = NFile c m)).
  { eapply spec_conseq; [eapply (spec_try _ (fun d' => d' = d1) (fun n d' => d' = d1 /\ n = NFile c m) (fun d' => d' = d1))|done| |intros ? H; exact H].
    - apply spec_look; [done|]. by rewrite Hsrc1.
    - intros [n|e] d'; naive_solver. }
  intros [n|e]; [|by apply spec_ret; intros d' [-> _]]. apply spec_pure. intros Hn. rewrite (Hn n eq_refl). cbn [mode_of].
  eapply (spec_bind _ _ _ (fun _ d' => d' = d1)); [|intros ?; by apply spec_ret; intros ? ->].
  eapply spec_conseq; [eapply (spec_try _ (fun d' => d' = d1) (fun _ d' => d' = d1) (fun d' => d' = d1))|done|by intros [] ?|intros ? H; exact H].
  apply spec_simple; [done|]. assert (Hd1 : d1 !! (q ++ [x]) = Some (NFile c m)) by apply lookup_insert_eq.
  rewrite (resolve_plain K d1 _ _ Hd1) by done. rewrite Hd1. cbn. by rewrite insert_id.
Qed.

(** Making a link again at a new name in a directory that is there. *)
Lemma link_fresh {A : Type} (k : M A) Q (E : disk -> Prop) f q x t d :
  (forall d', may_begin (q ++ [x]) d d' -> E d') ->
  wf d -> is_ndir (d !! q) = true -> d !! (q ++ [x]) = None -> d !! f = Some (NLink t) ->
  spec (fun d' => d' = <[q ++ [x] := NLink t]> d) k Q E ->
  spec (fun d' => d' = d)
    (target ← read_link K f;
     _ ← match parent_of (q ++ [x]) with Some parent => create_dir_all K parent | None => mret tt end;
     _ ← symlink K target (q ++ [x]); k) Q E.
Proof.
  intros HE Hw Hq Hx Hf Hk. assert (E d) by (apply HE; by left). eapply (spec_bind _ _ _ (fun t' d' => d' = d /\ t' = t)).
  { apply spec_look; [done|]. by rewrite Hf. }
  intros t'. apply spec_pure. intros ->. rewrite parent_snoc. eapply spec_bind.
  { eapply spec_conseq; [apply (create_there _ d Hw); by rewrite rev_involutive|done|done|by intros ? ->]. }
  intros ?. eapply spec_bind; [|intros ?; exact Hk]. apply spec_simple; [done|]. by rewrite Hx, has_parent_snoc, Hq.
Qed.

End Calls.

(** ** The copy of a tree *)

(** What a copy makes of a node. *)
Definition copied_node (K : kernel) (links : LinkHandling) (n : node) : option node :=
  match n with
  | NFile c m => Some (NFile c m)
  | NDir _ => Some (NDir (dir_mode K))
  | NLink t => match links with Recreate => Some (NLink t) | Skip => None end
  | NOther => None
  end.

(** At or below one of the paths [l]. *)
Definition pending (l : list path) (r : path) : bool := existsb (fun p => under p r) l.
(** No path of [l] is above another. *)
Definition anti (l : list path) : Prop := NoDup l /\ forall a b, a ∈ l -> b ∈ l -> under a b = true -> a = b.

Lemma pending_true l r : pending l r = true <-> exists p, p ∈ l /\ under p r = true.
Proof. unfold pending. rewrite existsb_exists. setoid_rewrite list_elem_of_In. done. Qed.
Lemma pending_app l l' r : pending (l ++ l') r = pending l r || pending l' r.
Proof. apply existsb_app. Qed.
#[export] Instance pending_perm : Proper ((≡ₚ) ==> (=) ==> (=)) pending.
Proof.
  intros l l' Hl r ? <-. apply eq_true_iff_eq. rewrite !pending_true.
  split; intros (p & Hp & ?); exists p; (split; [|done]); [by rewrite <- Hl|by rewrite Hl].
Qed.
Lemma under_snoc p q x : under p q = true -> under p (q ++ [x]) = true.
Proof. intros [r ->]%under_true. rewrite <- app_assoc. apply under_app. Qed.
Lemma anti_head p l : anti (p :: l) -> pending l p = false /\ anti l.
Proof.
  intros [Hnd Ha]. apply NoDup_cons in Hnd as [Hp Hnd]. split.
  - apply not_true_iff_false. intros (q & Hq & Hu)%pending_true.
    rewrite (Ha q p) in Hq; [done|by right|by left|done].
  - split; [done|]. intros a b Hx Hy. apply Ha; by right.
Qed.
Lemma anti_open p l names : anti (p :: l) -> NoDup names -> anti (((fun x => p ++ [x]) <$> names) ++ l).
Proof.
  intros Hanti Hn. destruct (anti_head p l Hanti) as [Hp [Hl Ha]]. destruct Hanti as [_ Hpa].
  assert (Hfar : forall x b, b ∈ l -> under (p ++ [x]) b = true -> False).
  { intros x b Hb [r ->]%under_true. rewrite <- app_assoc in Hb.
    assert (E : p = p ++ [x] ++ r) by (apply Hpa; [by left|by right|apply under_app]).
    apply (f_equal length) in E. rewrite !length_app in E. cbn in E. lia. }
  assert (Hback : forall x a, a ∈ l -> under a (p ++ [x]) = true -> False).
  { intros x a Hin [r E]%under_true. destruct r as [|y r _] using rev_ind.
    - rewrite app_nil_r in E. apply (Hfar x a Hin). rewrite <- E. apply under_refl.
    - rewrite app_assoc in E. apply app_inj_tail in E as [E _].
      apply not_true_iff_false in Hp. apply Hp. apply pending_true. exists a. split; [done|]. rewrite E. apply under_app. }
  split.
  - apply NoDup_app. split; [apply NoDup_fmap_2; [|done]; intros ? ? E; by apply app_inj_tail in E as [_ ?]|].
    split; [|done]. intros ? (x & -> & _)%list_elem_of_fmap Hin. apply (Hfar x _ Hin), under_refl.
  - intros a b Hin Hin' Hu. apply elem_of_app in Hin, Hin'.
    destruct Hin as [(x & -> & _)%list_elem_of_fmap|Hin], Hin' as [(y & -> & _)%list_elem_of_fmap|Hin'].
    + apply under_true in Hu as [r E]. rewrite <- app_assoc in E. apply app_inv_head in E.
      by destruct r; simplify_eq/=.
    + by destruct (Hfar _ _ Hin' Hu).
    + by destruct (Hback _ _ Hin Hu).
    + by apply Ha.
Qed.

Section Copy.
Context (K : kernel) (links : LinkHandling) (D : disk) (src dp : path) (dx : bytes).
Abbreviation dst := (dp ++ [dx]).
Hypothesis D_wf : wf D.
Hypothesis D_src : is_Some (D !! src).
Hypothesis D_parent : is_ndir (D !! dp) = true.
Hypothesis D_dst : D !! dst = None.
Hypothesis src_dst : under src dst = false.

Abbreviation cp := (copied_node K links).

(** Outside the destination the disk is as it was. *)
Definition Frame (d : disk) : Prop := forall q, under dst q = false -> d !! q = D !! q.
(** The destination holds the copy of all that is not pending. *)
Definition Done (l : list path) (d : disk) : Prop :=
  forall r, d !! (dst ++ r) = if pending l r then None else D !! (src ++ r) ≫= cp.

Lemma apart r r' : src ++ r <> dst ++ r'.
Proof.
  intros [(k & E & _)|(k & E & _)]%app_eq_inv.
  - rewrite E in D_src. destruct (wf_up_some D dst k D_wf D_src). congruence.
  - rewrite E in src_dst. by rewrite under_app in src_dst.
Qed.
Lemma src_outside r : under dst (src ++ r) = false.
Proof. apply under_false. intros r'. apply apart. Qed.
Lemma frame_src d r : Frame d -> d !! (src ++ r) = D !! (src ++ r).
Proof. intros H. apply H, src_outside. Qed.
Lemma frame_insert d r n : Frame d -> Frame (<[dst ++ r := n]> d).
Proof.
  intros H q Hq. rewrite lookup_insert_ne; [by apply H|]. intros <-. by rewrite under_app in Hq.
Qed.
Lemma dp_outside : under dst dp = false.
Proof.
  apply under_false. intros r E. apply (f_equal length) in E. rewrite !length_app in E. cbn in E. lia.
Qed.

Lemma good_wf l d : Frame d -> Done l d -> wf d.
Proof.
  intros HF HD p x [n Hn]. destruct (under dst (p ++ [x])) eqn:Hu.
  - apply under_true in Hu as [r E]. destruct r as [|y r _] using rev_ind.
    + rewrite app_nil_r in E. apply app_inj_tail in E as [-> ->]. by rewrite (HF _ dp_outside).
    + rewrite app_assoc in E. apply app_inj_tail in E as [-> ->].
      rewrite <- app_assoc, HD in Hn. destruct (pending l (r ++ [y])) eqn:Hp; [done|].
      assert (Hp' : pending l r = false).
      { apply not_true_iff_false. intros (q & Hq & Hqu)%pending_true. apply not_true_iff_false in Hp. apply Hp.
        apply pending_true. eauto using under_snoc. }
      rewrite HD, Hp'. destruct (D !! (src ++ r ++ [y])) eqn:E; [|done].
      assert (H : is_ndir (D !! (src ++ r)) = true) by (apply (D_wf _ y); rewrite <- app_assoc, E; eauto).
      by destruct (D !! (src ++ r)) as [[]|].
  - rewrite HF in Hn by done. rewrite HF; [eapply D_wf; eauto|].
    apply not_true_iff_false. intros H. by rewrite under_snoc in Hu.
Qed.

Lemma done_leaf r n l d :
  D !! (src ++ r) = Some n -> is_ndir (Some n) = false -> anti (r :: l) -> Done (r :: l) d ->
  Done l (match cp n with Some n' => <[dst ++ r := n']> d | None => d end).
Proof.
  intros Hn Hleaf Ha HD r'. destruct (anti_head r l Ha) as [Hp _]. specialize (HD r') as HD'. cbn [pending existsb] in HD'.
  fold (pending l r') in HD'. destruct (decide (r' = r)) as [->|Hne].
  - rewrite Hp, Hn. cbn [mbind option_bind]. rewrite under_refl in HD'. cbn in HD'.
    destruct (cp n); [by rewrite lookup_insert_eq|done].
  - assert (Hl : match cp n with Some n' => <[dst ++ r := n']> d | None => d end !! (dst ++ r') = d !! (dst ++ r')).
    { destruct (cp n); [|done]. apply lookup_insert_ne. intros E. by apply app_inv_head in E. }
    rewrite Hl, HD'. destruct (under r r') eqn:Hu; cbn [orb]; [|done]. apply under_true in Hu as [k ->].
    rewrite app_assoc, (wf_leaf D (src ++ r) k n); [destruct (pending l (r ++ k)); [reflexivity|cbn; reflexivity]|done..|]. intros ->. by rewrite app_nil_r in Hne.
Qed.

Lemma done_open p m l d names :
  D !! (src ++ p) = Some (NDir m) -> anti (p :: l) -> (forall x, is_Some (D !! (src ++ p ++ [x])) -> x ∈ names) -> Done (p :: l) d ->
  Done (((fun x => p ++ [x]) <$> names) ++ l) (<[dst ++ p := NDir (dir_mode K)]> d).
Proof.
  intros Hm Ha Hnames HD r. destruct (anti_head p l Ha) as [Hp _]. specialize (HD r) as HD'. cbn [pending existsb] in HD'.
  fold (pending l r) in HD'. rewrite pending_app. destruct (decide (r = p)) as [->|Hne].
  - rewrite lookup_insert_eq, Hp, orb_false_r. replace (pending _ p) with false; [by rewrite Hm|].
    symmetry. apply not_true_iff_false. intros (q & (x & -> & _)%list_elem_of_fmap & [k E]%under_true)%pending_true.
    apply (f_equal length) in E. rewrite !length_app in E. cbn in E. lia.
  - rewrite lookup_insert_ne by (intros E; by apply app_inv_head in E). rewrite HD'. clear HD'.
    destruct (pending l r); [by rewrite !orb_true_r|rewrite !orb_false_r].
    destruct (pending (_ <$> names) r) eqn:Hq.
    + apply pending_true in Hq as (q & (x & -> & _)%list_elem_of_fmap & [k ->]%under_true).
      by rewrite <- !app_assoc, under_app.
    + destruct (under p r) eqn:Hu; [|done]. apply under_true in Hu as [[|x k] ->]; [by rewrite app_nil_r in Hne|].
      destruct (D !! (src ++ p ++ x :: k)) eqn:E; [|done]. exfalso. apply not_true_iff_false in Hq. apply Hq.
      apply pending_true. exists (p ++ [x]). split; [|apply under_true; exists k; by rewrite <- app_assoc].
      apply list_elem_of_fmap. exists x. split; [done|]. apply Hnames.
      apply (wf_up_some D _ k D_wf). rewrite <- !app_assoc. cbn. eauto.
Qed.

Definition Good (l : list path) (d : disk) : Prop := Frame d /\ Done l d.

Lemma good_perm l l' d : l ≡ₚ l' -> Good l d -> Good l' d.
Proof.
  intros Hl [HF HD]. split; [done|]. intros r. by rewrite HD, Hl.
Qed.
Lemma anti_perm l l' : l ≡ₚ l' -> anti l -> anti l'.
Proof. intros Hl [Hn Ha]. split; [by rewrite <- Hl|]. intros a b. rewrite <- Hl. apply Ha. Qed.

(** A directory that is not pending has been made. *)
Lemma good_dir p m l d : Good l d -> pending l p = false -> D !! (src ++ p) = Some (NDir m) -> is_ndir (d !! (dst ++ p)) = true.
Proof. intros [_ HD] Hp Hm. by rewrite HD, Hp, Hm. Qed.
Lemma good_absent p l d : Good (p :: l) d -> d !! (dst ++ p) = None.
Proof. intros [_ HD]. rewrite HD. cbn. by rewrite under_refl. Qed.

Lemma leaf_step r n l d :
  D !! (src ++ r) = Some n -> is_ndir (Some n) = false -> anti (r :: l) -> Good (r :: l) d ->
  Good l (match cp n with Some n' => <[dst ++ r := n']> d | None => d end).
Proof.
  intros Hn Hleaf Ha [HF HD]. split; [|by apply done_leaf]. destruct (cp n); [by apply frame_insert|done].
Qed.

(** The directory an entry is copied to. *)
Lemma good_parent p m x l d :
  Good ((p ++ [x]) :: l) d -> pending ((p ++ [x]) :: l) p = false -> D !! (src ++ p) = Some (NDir m) ->
  wf d /\ is_ndir (d !! (dst ++ p)) = true /\ d !! ((dst ++ p) ++ [x]) = None.
Proof.
  intros HG Hp Hm. split; [destruct HG; by eapply good_wf|]. split; [by eapply good_dir|].
  rewrite <- app_assoc. by eapply good_absent.
Qed.
Lemma may_begin_frame r d d' : Frame d -> may_begin ((dst ++ r)) d d' -> Frame d'.
Proof. intros HF [->|[n ->]]; [done|by apply frame_insert]. Qed.

Lemma copy_file_ok p x m c m' l d :
  Good ((p ++ [x]) :: l) d -> anti ((p ++ [x]) :: l) -> pending ((p ++ [x]) :: l) p = false ->
  D !! (src ++ p) = Some (NDir m) -> D !! (src ++ p ++ [x]) = Some (NFile c m') ->
  spec (fun d' => d' = d) (copy_file K ((src ++ p) ++ [x]) ((dst ++ p) ++ [x])) (fun _ => Good l) Frame.
Proof.
  intros HG Ha Hp Hm Hc. destruct (good_parent p m x l d HG Hp Hm) as (Hw & Hdir & Hno).
  pose proof (leaf_step _ _ _ _ Hc eq_refl Ha HG) as Hstep. cbn [copied_node] in Hstep.
  assert (Hf : d !! ((src ++ p) ++ [x]) = Some (NFile c m')) by (by rewrite <- app_assoc, (frame_src d _ (proj1 HG))).
  eapply spec_conseq; [by apply (copy_file_fresh K _ _ x c m' d)|done| |].
  - intros ? ? ->. by rewrite <- app_assoc.
  - intros d'. rewrite <- (app_assoc dst). apply may_begin_frame, HG.
Qed.

Lemma entry_ok r d :
  Frame d -> spec (fun d' => d' = d) (next_entry K (src ++ r)) (fun n d' => d' = d /\ D !! (src ++ r) = Some n) Frame.
Proof. intros HF. apply spec_look; [done|]. rewrite (frame_src d r HF). by destruct (D !! (src ++ r)). Qed.

Lemma copy_link_ok {A : Type} (k : M A) Q p x m t l d :
  spec (Good l) k Q Frame -> links = Recreate -> Good ((p ++ [x]) :: l) d -> anti ((p ++ [x]) :: l) -> pending ((p ++ [x]) :: l) p = false ->
  D !! (src ++ p) = Some (NDir m) -> D !! (src ++ p ++ [x]) = Some (NLink t) ->
  spec (fun d' => d' = d)
    (target ← read_link K ((src ++ p) ++ [x]);
     _ ← match parent_of ((dst ++ p) ++ [x]) with Some parent => create_dir_all K parent | None => mret tt end;
     _ ← symlink K target ((dst ++ p) ++ [x]); k) Q Frame.
Proof.
  intros Hk Hlinks HG Ha Hp Hm Ht. pose proof (leaf_step _ _ _ _ Ht eq_refl Ha HG) as Hstep.
  cbn [copied_node] in Hstep. rewrite Hlinks in Hstep at 1. rewrite (app_assoc dst) in Hstep.
  destruct (good_parent p m x l d HG Hp Hm) as (Hw & Hdir & Hno).
  apply (link_fresh K k Q Frame _ _ x t d); try done.
  - intros d'. rewrite <- (app_assoc dst). apply may_begin_frame, HG.
  - by rewrite <- app_assoc, (frame_src d _ (proj1 HG)).
  - eapply spec_conseq; [exact Hk|by intros ? ->|done|done].
Qed.

(** A list of tasks, as the tree has them: the directory and its depth. *)
Definition tasks (l : list (path * Z)) : list task := (fun '(p, k) => (src ++ p, dst ++ p, k)) <$> l.
Definition kids (p : path) (names : list bytes) : list path := (fun x => p ++ [x]) <$> names.
Definition all_dirs (l : list path) : Prop := forall q, q ∈ l -> is_ndir (D !! (src ++ q)) = true.

(** What the entries of a directory leave: part of it is pending. *)
Definition left_over (L : list path) (out : list task * Z) (d : disk) : Prop :=
  exists l, out.1 = tasks l /\ Good l.*1 d /\ anti l.*1 /\ all_dirs l.*1 /\ l.*1 ⊆ L.

Lemma copy_entries_ok p m depth names : forall l copied,
  D !! (src ++ p) = Some (NDir m) -> (forall x, x ∈ names -> is_Some (D !! (src ++ p ++ [x]))) ->
  anti (kids p names ++ l.*1) -> pending (kids p names ++ l.*1) p = false -> all_dirs l.*1 ->
  spec (Good (kids p names ++ l.*1)) (copy_entries K links (src ++ p) (dst ++ p) depth names (tasks l) copied)
    (left_over (kids p names ++ l.*1)) Frame.
Proof.
  induction names as [|x names IH]; intros l copied Hm Hnames Ha Hp Hl.
  { apply spec_ret. intros d HG. by exists l. }
  apply spec_pre. intros d HG. change (kids p (x :: names) ++ l.*1) with ((p ++ [x]) :: (kids p names ++ l.*1)) in *.
  set (L := kids p names ++ l.*1) in *. destruct (anti_head _ _ Ha) as [Hx Hanti].
  assert (HpL : pending L p = false) by (cbn in Hp; by apply orb_false_iff in Hp as [_ ?]).
  assert (Hnames' : forall y, y ∈ names -> is_Some (D !! (src ++ p ++ [y]))) by (intros; apply Hnames; by right).
  assert (Hsub : forall out d, left_over L out d -> left_over ((p ++ [x]) :: L) out d).
  { intros out d' (l' & ? & ? & ? & ? & Hs). exists l'. do 4 (split; [done|]). intros q Hq%Hs. by right. }
  assert (Hgo : forall k, spec (Good L) (copy_entries K links (src ++ p) (dst ++ p) depth names (tasks l) k) (left_over ((p ++ [x]) :: L)) Frame).
  { intros k. eapply spec_conseq; [by apply IH|done|apply Hsub|done]. }
  cbn [copy_entries]. eapply spec_bind; [rewrite <- app_assoc; by apply entry_ok, HG|]. intros n. apply spec_pure. intros Hn.
  destruct n as [c m'|m'|t|].
  - destruct (MAX_COPY_FILES <=? copied); [apply spec_fail; intros ? ->; apply HG|].
    eapply spec_bind; [by eapply copy_file_ok|]. intros ?. apply Hgo.
  - clear Hgo. rewrite <- (app_assoc src p [x]), <- (app_assoc dst p [x]). eapply spec_conseq; [apply (IH ((p ++ [x], depth + 1) :: l) copied Hm Hnames')| | |done].
    + eapply anti_perm; [|exact Ha]. cbn. apply Permutation_middle.
    + rewrite <- Hp. cbn [fmap list_fmap fst]. by rewrite <- Permutation_middle.
    + intros q [->|Hq]%elem_of_cons; [cbn [fst]; by rewrite Hn|by apply Hl].
    + intros ? ->. eapply good_perm; [|exact HG]. cbn. apply Permutation_middle.
    + intros out d' (l' & ? & ? & ? & ? & Hs). exists l'. do 4 (split; [done|]).
      intros q Hq%Hs. unfold L. cbn in Hq. by rewrite <- Permutation_middle in Hq.
  - pose proof (leaf_step _ _ _ _ Hn eq_refl Ha HG) as Hstep. cbn [copied_node] in Hstep. case_eq links; intros Hlinks; rewrite <- Hlinks.
    + rewrite Hlinks in Hstep at 1. eapply spec_conseq; [apply Hgo|by intros ? ->|done|done].
    + destruct (MAX_COPY_FILES <=? copied); [apply spec_fail; intros ? ->; apply HG|].
      eapply copy_link_ok; eauto.
  - pose proof (leaf_step _ _ _ _ Hn eq_refl Ha HG) as Hstep. eapply spec_conseq; [apply Hgo|by intros ? ->|done|done].
Qed.

Lemma create_dst_ok p m l d :
  Good (p :: l) d -> anti (p :: l) -> D !! (src ++ p) = Some (NDir m) ->
  spec (fun d' => d' = d) (create_dir_all K (dst ++ p)) (fun _ d' => d' = <[dst ++ p := NDir (dir_mode K)]> d) Frame.
Proof.
  intros HG Ha Hm. assert (Hw : wf d) by (destruct HG; by eapply good_wf). pose proof (good_absent _ _ _ HG) as Hn.
  destruct p as [|y p _] using rev_ind.
  - rewrite app_nil_r in *. eapply spec_conseq; [apply create_fresh; [done| |done]|done|done|intros ? ->; apply HG].
    by rewrite (proj1 HG _ dp_outside).
  - rewrite (app_assoc dst) in *. eapply spec_conseq; [apply create_fresh; [done| |done]|done|done|intros ? ->; apply HG].
    assert (Hdir : is_ndir (D !! (src ++ p)) = true) by (apply (D_wf _ y); rewrite <- app_assoc, Hm; eauto).
    destruct (D !! (src ++ p)) as [[]|] eqn:E; try done. eapply good_dir; [exact HG| |exact E].
    apply not_true_iff_false. intros (q & [->|Hq]%elem_of_cons & Hu)%pending_true.
    + apply under_true in Hu as [k Hk]. apply (f_equal length) in Hk. rewrite !length_app in Hk. cbn in Hk. lia.
    + destruct (anti_head _ _ Ha) as [Hp _]. apply not_true_iff_false in Hp. apply Hp, pending_true. eauto using under_snoc.
Qed.

Lemma read_dir_ok p m d :
  Frame d -> D !! (src ++ p) = Some (NDir m) ->
  spec (fun d' => d' = d) (read_dir K (src ++ p))
    (fun names d' => d' = d /\ (NoDup names /\ forall x, x ∈ names <-> is_Some (D !! (src ++ p ++ [x])))) Frame.
Proof.
  intros HF Hm. apply spec_call; [done|]. intros n.
  assert (Hd : d !! (src ++ p) = Some (NDir m)) by (by rewrite frame_src).
  rewrite (resolve_plain K d _ _ Hd), Hd by done. cbn [is_ndir]. split; [done|]. split.
  - rewrite order_perm. apply NoDup_children.
  - intros x. by rewrite order_perm, elem_of_children, <- app_assoc, (frame_src d).
Qed.

(** What is still to be copied. *)
Definition todo (l : list path) : gset path := filter (fun r => pending l r = true) (dom (subtree src D)).
Lemma elem_of_todo l r : r ∈ todo l <-> pending l r = true /\ is_Some (D !! (src ++ r)).
Proof. unfold todo. by rewrite elem_of_filter, elem_of_dom, lookup_subtree. Qed.

Lemma kids_not_pending p names l : anti (p :: l) -> pending (kids p names ++ l) p = false.
Proof.
  intros Ha. destruct (anti_head _ _ Ha) as [Hp _]. rewrite pending_app, Hp, orb_false_r.
  apply not_true_iff_false. intros (q & (x & -> & _)%list_elem_of_fmap & [k E]%under_true)%pending_true.
  apply (f_equal length) in E. rewrite !length_app in E. cbn in E. lia.
Qed.
Lemma todo_shrinks p names l l' :
  anti (p :: l) -> is_Some (D !! (src ++ p)) -> l' ⊆ kids p names ++ l -> (size (todo l') < size (todo (p :: l)))%nat.
Proof.
  intros Ha Hp Hsub. apply subset_size. split.
  - intros r. rewrite !elem_of_todo. intros [(q & Hq & Hu)%pending_true Hr]. split; [|done].
    apply pending_true. apply Hsub, elem_of_app in Hq as [(x & -> & _)%list_elem_of_fmap|Hq].
    + exists p. split; [by left|]. apply under_true in Hu as [k ->]. rewrite <- app_assoc. apply under_app.
    + exists q. split; [by right|done].
  - intros H. assert (Hin : p ∈ todo l') by (apply H, elem_of_todo; cbn; by rewrite under_refl).
    apply elem_of_todo in Hin as [(q & Hq%Hsub & Hu)%pending_true _].
    pose proof (kids_not_pending p names l Ha) as Hk. apply not_true_iff_false in Hk. apply Hk, pending_true. eauto.
Qed.

Lemma copy_loop_ok fuel : forall l copied,
  anti l.*1 -> all_dirs l.*1 -> (size (todo l.*1) <= fuel)%nat ->
  spec (Good l.*1) (copy_loop K fuel links (tasks l) copied) (fun _ => Good []) Frame.
Proof.
  induction fuel as [|fuel IH]; intros l copied Ha Hdirs Hsize.
  all: destruct l as [|[p k] l]; [by apply spec_ret|]; cbn [tasks fmap list_fmap fst] in *.
  all: assert (Hp : is_ndir (D !! (src ++ p)) = true) by (apply Hdirs; by left).
  all: destruct (D !! (src ++ p)) as [[|m| |]|] eqn:Hm; try done.
  - exfalso. assert (Hin : p ∈ todo (p :: l.*1)) by (apply elem_of_todo; rewrite Hm; cbn; rewrite under_refl; eauto).
    assert (E : todo (p :: l.*1) ≡ ∅) by (apply size_empty_inv; lia). by rewrite E in Hin.
  - cbn [copy_loop]. apply spec_pre. intros d HG. destruct (MAX_COPY_DEPTH <? k); [apply spec_fail; intros ? ->; apply HG|].
    eapply spec_bind; [by eapply create_dst_ok|]. intros ?. set (d1 := <[_ := _]> d).
    assert (HF1 : Frame d1) by apply frame_insert, HG.
    eapply spec_bind; [by eapply read_dir_ok|]. intros names. apply spec_pure. intros [Hnd Hnames].
    eapply (spec_bind _ _ _ (left_over (kids p names ++ l.*1))).
    + eapply spec_conseq; [apply (copy_entries_ok p m k names l copied); [done|intros; by apply Hnames|by apply anti_open|by apply kids_not_pending|]|..].
      * intros q Hq. apply Hdirs. by right.
      * intros ? ->. split; [done|]. eapply done_open; eauto. { intros x. apply Hnames. } apply HG.
      * done.
      * done.
    + intros [stk n] s (l' & E & HG' & Ha' & Hd' & Hsub). cbn in E. subst stk. apply IH; try done.
      pose proof (todo_shrinks p names l.*1 l'.*1 Ha ltac:(by rewrite Hm) Hsub). cbn in Hsize. lia.
Qed.

Lemma copy_tree_ok fuel :
  is_ndir (D !! src) = true -> (size (subtree src D) <= fuel)%nat ->
  spec (fun d => d = D) (copy_tree_inner K fuel src dst links) (fun _ => Good []) Frame.
Proof.
  intros Hdir Hfuel. unfold copy_tree_inner. rewrite src_dst.
  replace [(src, dst, 0)] with (tasks [([], 0)]) by (cbn; by rewrite !app_nil_r).
  eapply spec_conseq; [apply (copy_loop_ok fuel [([], 0)] 0)| |done|done].
  - split; [apply NoDup_singleton|]. by intros a b ->%list_elem_of_singleton ->%list_elem_of_singleton.
  - intros q ->%list_elem_of_singleton. by rewrite app_nil_r.
  - etransitivity; [|exact Hfuel]. rewrite <- size_dom. apply subseteq_size. unfold todo. set_solver.
  - intros ? ->. split; [done|]. intros r. cbn. by rewrite wf_absent.
Qed.


End Copy.

(** ** Moving *)

(** The same node, up to the permissions of a directory. *)
Definition alike (n n' : option node) : Prop :=
  match n, n' with Some (NDir _), Some (NDir _) => True | _, _ => n = n' end.
Definition holds_copy (d0 d : disk) (src dst : path) : Prop := forall r, alike (d0 !! (src ++ r)) (d !! (dst ++ r)).
Definition untouched (d0 d : disk) (but : list path) : Prop := forall q, pending but q = false -> d !! q = d0 !! q.

Lemma alike_refl n : alike n n.
Proof. by destruct n as [[]|]. Qed.
Lemma node_cases n : (exists c m, n = NFile c m) \/ (exists m, n = NDir m) \/ (exists t, n = NLink t) \/ n = NOther.
Proof. destruct n; eauto 8. Qed.
Lemma pending_cons p l q : pending (p :: l) q = under p q || pending l q.
Proof. done. Qed.

Section Move.
Context (K : kernel) (D : disk) (src dp : path) (dx : bytes) (n : node).
Abbreviation dst := (dp ++ [dx]).
Hypothesis D_wf : wf D.
Hypothesis D_src : D !! src = Some n.
Hypothesis D_parent : is_ndir (D !! dp) = true.
Hypothesis D_dst : D !! dst = None.
Hypothesis src_dst : under src dst = false.
Hypothesis plain : forall r, D !! (src ++ r) <> Some NOther.

Definition moved (d : disk) : Prop :=
  holds_copy D d src dst /\ (forall r, d !! (src ++ r) = None) /\ untouched D d [src; dst].
(** An error: nothing but the destination has changed, or it holds all. *)
Definition safe (d : disk) : Prop := untouched D d [dst] \/ (holds_copy D d src dst /\ untouched D d [src; dst]).

Lemma D_src' : is_Some (D !! src).
Proof. rewrite D_src. eauto. Qed.
Lemma apart_under r : under src (dst ++ r) = false /\ strip dst (src ++ r) = None.
Proof.
  split; [apply under_false; intros r' E; by eapply (apart D src dp dx D_wf D_src' D_dst src_dst)|].
  destruct (strip dst (src ++ r)) eqn:E; [|done]. apply strip_Some in E.
  by apply (apart D src dp dx D_wf D_src' D_dst src_dst) in E.
Qed.
Lemma frame_safe d : Frame D dp dx d -> safe d.
Proof. intros H. left. intros q Hq. apply H. by rewrite pending_cons, orb_false_r in Hq. Qed.

(** Taking the source, or some of it, away leaves a copy as it is. *)
Lemma take_source d d' :
  Frame D dp dx d -> holds_copy D d src dst -> (forall q, under src q = false -> d' !! q = d !! q) ->
  safe d' /\ ((forall r, d' !! (src ++ r) = None) -> moved d').
Proof.
  intros HF Hc Hd. assert (holds_copy D d' src dst).
  { intros r. rewrite Hd by apply apart_under. apply Hc. }
  assert (untouched D d' [src; dst]).
  { intros q Hq. rewrite !pending_cons, orb_false_r in Hq. apply orb_false_iff in Hq as [? ?]. rewrite Hd by done. by apply HF. }
  split; [by right|]. done.
Qed.

Lemma renamed_moved : moved (renamed src dst D).
Proof.
  split; [|split].
  - intros r. rewrite lookup_renamed, strip_app. apply alike_refl.
  - intros r. rewrite lookup_renamed. destruct (apart_under r) as [_ ->]. by rewrite under_app.
  - intros q. rewrite !pending_cons, orb_false_r, orb_false_iff. intros [Hs Hq]. rewrite lookup_renamed, Hs.
    unfold under in Hq. by destruct (strip dst q).
Qed.

Lemma good_copy d : Good K Recreate D src dp dx [] d -> Frame D dp dx d /\ holds_copy D d src dst.
Proof.
  intros [HF HD]. split; [done|]. intros r. rewrite HD. cbn. specialize (plain r).
  by destruct (D !! (src ++ r)) as [[]|].
Qed.
Lemma leaf_copy : is_ndir (Some n) = false ->
  Frame D dp dx (<[dst := n]> D) /\ holds_copy D (<[dst := n]> D) src dst.
Proof.
  intros Hleaf. split.
  - intros q Hq. rewrite lookup_insert_ne; [done|]. intros <-. by rewrite under_refl in Hq.
  - intros [|x r].
    + rewrite !app_nil_r, lookup_insert_eq, D_src. apply alike_refl.
    + rewrite (wf_leaf D src (x :: r) n) by done. rewrite lookup_insert_ne.
      * by rewrite wf_absent.
      * intros E. apply (f_equal length) in E. rewrite !length_app in E. cbn in E. lia.
Qed.

Lemma remove_dir_ok d :
  Frame D dp dx d -> holds_copy D d src dst -> is_ndir (Some n) = true ->
  spec (fun d' => d' = d) (remove_dir_all K src) (fun _ => moved) safe.
Proof.
  intros HF Hc Hn. apply spec_call.
  - intros k. apply (take_source d); [done..|]. intros q Hq.
    destruct (d !! q) eqn:E; [apply map_lookup_filter_Some; by rewrite Hq|apply map_lookup_filter_None; by left].
  - intros k. assert (Hd : d !! src = Some n).
    { rewrite HF, D_src; [done|]. destruct (apart_under []) as [_ H]. rewrite app_nil_r in H. unfold under. by rewrite H. }
    rewrite Hd. destruct (node_cases n) as [(? & ? & E)|[(? & E)|[(? & E)|E]]]; rewrite E in Hn; try done.
    rewrite E. apply (take_source d); [done..| |].
    + intros q Hq. by rewrite lookup_prune, Hq.
    + intros r. by rewrite lookup_prune, under_app.
Qed.
Lemma remove_leaf_ok : is_ndir (Some n) = false ->
  spec (fun d' => d' = <[dst := n]> D) (remove_file K src) (fun _ => moved) safe.
Proof.
  intros Hleaf. destruct (leaf_copy Hleaf) as [HF Hc]. set (d := <[dst := n]> D) in *.
  assert (Hne : dst <> src) by (intros E; congruence). apply spec_simple.
  - by apply (take_source d).
  - assert (Hd : d !! src = Some n) by (unfold d; by rewrite lookup_insert_ne). rewrite Hd.
    assert (H : moved (delete src d)).
    { apply (take_source d); [done..| |].
      - intros q Hq. rewrite lookup_delete_ne; [done|]. intros <-. by rewrite under_refl in Hq.
      - intros [|x r]; [by rewrite app_nil_r, lookup_delete_eq|].
        rewrite lookup_delete_ne by (intros E; apply (f_equal length) in E; rewrite length_app in E; cbn in E; lia).
        unfold d. rewrite lookup_insert_ne; [by rewrite (wf_leaf D src (x :: r) n)|].
        intros E. by eapply (apart D src dp dx D_wf D_src' D_dst src_dst (x :: r) []); rewrite app_nil_r. }
    destruct (node_cases n) as [(? & ? & E)|[(? & E)|[(? & E)|E]]]; rewrite E in Hleaf |- *; done.
Qed.
Lemma begun_safe d : may_begin dst D d -> safe d.
Proof.
  intros [->|[n' ->]]; [by left; intros ? ?|]. left. intros q Hq. rewrite pending_cons, orb_false_r in Hq.
  rewrite lookup_insert_ne; [done|]. intros <-. by rewrite under_refl in Hq.
Qed.

Lemma move_across_ok fuel :
  (size (subtree src D) <= fuel)%nat -> spec (fun d => d = D) (move_across K fuel src dst) (fun _ => moved) safe.
Proof.
  intros Hfuel. assert (HD : safe D) by (left; by intros ? ?).
  eapply (spec_bind _ _ _ (fun n' d => d = D /\ n' = n)); [apply spec_look; [done|]; by rewrite D_src|].
  intros n'. apply spec_pure. intros ->. destruct (node_cases n) as [(c & m & En)|[(m & En)|[(t & En)|En]]]; rewrite En.
  - eapply spec_bind; [eapply spec_conseq; [apply (copy_file_fresh K src dp dx c m D); by rewrite <- ?En|done|done|apply begun_safe]|].
    intros ?. rewrite <- En. apply remove_leaf_ok. by rewrite En.
  - eapply spec_bind.
    + eapply spec_conseq; [apply (copy_tree_ok K Recreate D src dp dx D_wf D_src' D_parent D_dst src_dst fuel)|done|done|apply frame_safe]; [by rewrite D_src, En|done].
    + intros ?. apply spec_pre. intros d [HF Hc]%good_copy. apply remove_dir_ok; try done. by rewrite En.
  - rewrite parent_snoc. eapply spec_bind.
    { eapply spec_conseq; [apply (create_there K _ D D_wf); by rewrite rev_involutive|done|done|by intros ? ->]. }
    intros ?. eapply (spec_bind _ _ _ (fun t' d => d = D /\ t' = t)); [apply spec_look; [done|]; by rewrite D_src, En|].
    intros t'. apply spec_pure. intros ->. eapply (spec_bind _ _ _ (fun _ d => d = <[dst := n]> D)).
    { apply spec_simple; [done|]. by rewrite D_dst, has_parent_snoc, D_parent, En. }
    intros ?. apply remove_leaf_ok. by rewrite En.
  - destruct (plain []). by rewrite app_nil_r, D_src, En.
Qed.

Lemma move_path_ok fuel :
  (size (subtree src D) <= fuel)%nat -> spec (fun d => d = D) (move_path K fuel src dst) (fun _ => moved) safe.
Proof.
  intros Hfuel. assert (HD : safe D) by (left; by intros ? ?).
  eapply spec_bind.
  - eapply (spec_try _ _ (fun _ d => d = renamed src dst D) (fun d => d = D)). apply spec_simple; [done|].
    destruct (same_device K src dst); [|done]. rewrite D_src, has_parent_snoc, D_parent, D_dst, src_dst. cbn.
    rewrite bool_decide_eq_false_2 by congruence. done.
  - intros [[]|e].
    + apply spec_ret. intros ? ->. apply renamed_moved.
    + destruct e as [c|msg]; [|by apply spec_fail; intros ? ->].
      destruct (decide (c = 18)) as [->|Hne]; [by apply move_across_ok|].
      assert (Hf : spec (fun d => d = D) (fail (A := unit) (Os c)) (fun _ => moved) safe) by (by apply spec_fail; intros ? ->).
      repeat (case_match; try exact Hf); by subst.
Qed.

End Move.
