(* ===== verification/TrashSpec.v ===== *)
(** * The trash can be emptied out again

    [trash] of [LocalFs]: the directories it makes, the name it finds, the
    record it writes and the move; and closed runs of [localfs.rs]. *)

From stdpp Require Import base gmap list strings.
From S2P Require Import Prelude RustStd Text Clipboard LocalFs LocalFsSpec.

(** ** Making directories *)

(** [d'] is [d] with directories made at some prefixes of [p]. *)
Definition grown (K : kernel) (p : path) (d d' : disk) : Prop :=
  forall q, d' !! q = d !! q \/ (under q p = true /\ d !! q = None /\ d' !! q = Some (NDir (dir_mode K))).
(** Nothing is in the way of the directory [p]. *)
Definition open_way (d : disk) (p : path) : Prop := forall q, under q p = true -> is_Some (d !! q) -> is_ndir (d !! q) = true.

Section Grown.
Context (K : kernel).

Lemma grown_refl p d : grown K p d d.
Proof. by left. Qed.
Lemma grown_snoc p x d d' : grown K p d d' -> grown K (p ++ [x]) d d'.
Proof. intros H q. destruct (H q) as [|(? & ? & ?)]; [by left|right]. eauto using under_snoc. Qed.
Lemma grown_keeps p d d' q n : grown K p d d' -> d !! q = Some n -> d' !! q = Some n.
Proof. intros H Hq. destruct (H q) as [->|(_ & ? & _)]; congruence. Qed.
Lemma grown_outside p d d' q : grown K p d d' -> under q p = false -> d' !! q = d !! q.
Proof. intros H Hq. destruct (H q) as [|(? & _)]; congruence. Qed.
Lemma grown_insert p x d d' :
  grown K p d d' -> d !! (p ++ [x]) = None -> grown K (p ++ [x]) d (<[p ++ [x] := NDir (dir_mode K)]> d').
Proof.
  intros H Hn q. destruct (decide (q = p ++ [x])) as [->|Hne].
  - right. by rewrite under_refl, lookup_insert_eq.
  - rewrite lookup_insert_ne by done. by apply grown_snoc.
Qed.
Lemma not_above p x : under (p ++ [x]) p = false.
Proof. apply under_false. intros r E. apply (f_equal length) in E. rewrite !length_app in E. cbn in E. lia. Qed.

Lemma wf_insert_dir p x d n : wf d -> is_ndir (d !! p) = true -> d !! (p ++ [x]) = None -> wf (<[p ++ [x] := n]> d).
Proof.
  intros Hw Hp Hn q y. destruct (decide (q ++ [y] = p ++ [x])) as [E|Hne].
  - apply app_inj_tail in E as [-> ->]. intros _. rewrite lookup_insert_ne; [done|].
    intros E. apply (f_equal length) in E. rewrite length_app in E. cbn in E. lia.
  - rewrite lookup_insert_ne by done. intros Hq%Hw. destruct (decide (p ++ [x] = q)) as [<-|]; [by rewrite Hn in Hq|].
    by rewrite lookup_insert_ne.
Qed.

(** What [create_dir_all] leaves, whether it works or not. *)
Definition made (p : path) (d d' : disk) : Prop := wf d' /\ grown K p d d'.

Lemma create_all rp d :
  wf d -> open_way d (rev rp) ->
  spec (fun d' => d' = d) (create_rev K rp) (fun _ d' => made (rev rp) d d' /\ is_ndir (d' !! rev rp) = true) (made (rev rp) d).
Proof.
  intros Hw. assert (Hsame : forall p, made p d d) by (split; [done|apply grown_refl]).
  assert (Hdir : forall p d', made p d d' -> open_way d p -> is_ndir (followed K d' p) = true -> is_ndir (d' !! p) = true).
  { intros p d' [_ Hg] Ho Hf. unfold followed in Hf. destruct (d' !! p) eqn:E; [|by rewrite resolve_absent in Hf].
    destruct (Hg p) as [E'|(_ & _ & E')]; rewrite E in E'; [|by simplify_eq]. rewrite E'.
    apply Ho; [apply under_refl|]. by rewrite <- E'. }
  induction rp as [|x up IH]; intros Ho; cbn [create_rev].
  - eapply (spec_bind _ _ _ (fun r d' => match r with Ok _ => False | Err _ => d' = d end)).
    { eapply (spec_try _ _ (fun _ _ => False) (fun d' => d' = d)). apply spec_simple; [done|]. by destruct (d !! rev []). }
    intros [|e]; [by intros ? []|]. destruct (not_found e); [by apply spec_fail; intros ? ->|].
    eapply spec_conseq; [apply (dir_or_fail K _ e d (fun d' => d' = d /\ is_ndir (d !! []) = true))|done|by intros ? ? [-> ?]|by intros ? ->].
    intros Hf. split; [done|]. by apply (Hdir [] d).
  - cbn [rev] in *. set (p := rev up) in *.
    assert (Hmk : forall d1 E, made p d d1 ->
      spec (fun d' => d' = d1) (try (mkdir_one K (p ++ [x])))
        (fun r d' => match r with Ok _ => made (p ++ [x]) d d' /\ is_ndir (d' !! (p ++ [x])) = true | Err _ => d' = d1 end) E).
    { intros d1 E [Hw1 Hg1]. eapply (spec_try _ _ (fun _ d' => made (p ++ [x]) d d' /\ is_ndir (d' !! (p ++ [x])) = true) (fun d' => d' = d1)).
      apply spec_simple; [done|]. destruct (d1 !! (p ++ [x])) eqn:E1; [done|]. rewrite has_parent_snoc.
      destruct (is_ndir (d1 !! p)) eqn:Ep; [|done]. rewrite lookup_insert_eq. split; [|done].
      split; [by apply wf_insert_dir|]. apply grown_insert; [done|].
      by rewrite <- (grown_outside p d d1 _ Hg1 (not_above p x)). }
    assert (Hend : forall d1 e, made p d d1 ->
      spec (fun d' => d' = d1) (b ← is_dir K (p ++ [x]); if (b : bool) then mret tt else fail e)
        (fun _ d' => made (p ++ [x]) d d' /\ is_ndir (d' !! (p ++ [x])) = true) (made (p ++ [x]) d)).
    { intros d1 e [Hw1 Hg1]. assert (Hm : made (p ++ [x]) d d1) by (split; [done|by apply grown_snoc]).
      eapply spec_conseq; [apply (dir_or_fail K _ e d1 (fun d' => d' = d1 /\ is_ndir (d1 !! (p ++ [x])) = true))|done|by intros ? ? [-> ?]|by intros ? ->].
      intros Hf. split; [done|]. by apply Hdir. }
    eapply spec_bind; [by apply Hmk|]. intros [[]|e]; [by apply spec_ret|]. destruct (not_found e); [|by apply Hend].
    eapply spec_bind.
    { eapply spec_conseq; [apply IH|done|intros ? ? H; exact H|].
      - intros q Hq. apply Ho. by apply under_snoc.
      - intros d' [? ?]. split; [done|by apply grown_snoc]. }
    intros ?. apply spec_pre. intros d1 [Hm1 _]. eapply spec_bind; [by apply Hmk|].
    intros [[]|e']; [by apply spec_ret|by apply Hend].
Qed.

End Grown.

(** ** The record *)

(** The [Path] of a record, as a file manager reads it back. *)
Definition restore_path (info : bytes) : option bytes :=
  rest ← strip_pre (bs "[Trash Info]" ++ [10] ++ bs "Path=") info;
  '(line, _) ← split_once [10] rest;
  Some (unescape line).

Lemma replace_char_app c b s t : replace_char c b (s ++ t) = replace_char c b s ++ replace_char c b t.
Proof. apply bind_app. Qed.
Lemma escape_cons b s :
  escape_percent (b :: s) =
  (if b =? 37 then bs "%25" else if b =? 10 then bs "%0A" else if b =? 92 then bs "%5C" else [b]) ++ escape_percent s.
Proof.
  unfold escape_percent. change (b :: s) with ([b] ++ s). rewrite !replace_char_app. f_equal. unfold replace_char. cbn.
  destruct (b =? 37) eqn:E1; [reflexivity|]. cbn. destruct (b =? 10) eqn:E2; [reflexivity|]. cbn.
  by destruct (b =? 92) eqn:E3.
Qed.
Lemma unescape_escaped s : unescape (escape_percent s) = s.
Proof.
  induction s as [|b s IH]; [done|]. rewrite escape_cons.
  destruct (b =? 37) eqn:E1; [apply Z.eqb_eq in E1 as ->; cbn [app bs]|].
  { change (37 :: unescape (escape_percent s) = 37 :: s). by rewrite IH. }
  destruct (b =? 10) eqn:E2; [apply Z.eqb_eq in E2 as ->; change (10 :: unescape (escape_percent s) = 10 :: s); by rewrite IH|].
  destruct (b =? 92) eqn:E3; [apply Z.eqb_eq in E3 as ->; change (92 :: unescape (escape_percent s) = 92 :: s); by rewrite IH|].
  cbn [app]. rewrite unescape_cons; [by rewrite IH|]. by apply Z.eqb_neq.
Qed.
Lemma escape_no_newline s : Forall (fun b => b <> 10) (escape_percent s).
Proof.
  induction s as [|b s IH]; [constructor|]. rewrite escape_cons. apply Forall_app. split; [|done].
  destruct (b =? 37); [by repeat constructor|]. destruct (b =? 10) eqn:E; [by repeat constructor|].
  destruct (b =? 92); [by repeat constructor|]. apply Z.eqb_neq in E. by repeat constructor.
Qed.
Lemma split_once_newline a b : Forall (fun x => x <> 10) a -> split_once [10] (a ++ 10 :: b) = Some (a, b).
Proof.
  induction 1 as [|x a Hx _ IH]; [reflexivity|]. cbn [app split_once]. rewrite IH.
  replace (has_prefix [10] (x :: a ++ 10 :: b)) with false; [done|]. symmetry.
  apply bool_decide_eq_false_2. intros E. by injection E.
Qed.
Lemma record_reads p now : utf8_valid (display_path p) = true -> restore_path (trash_info p now) = Some (display_path p).
Proof.
  intros Hv. unfold restore_path, trash_info. rewrite from_utf8_lossy_valid by done.
  assert (H : forall a b c rest : bytes, strip_pre (a ++ b ++ c) (a ++ b ++ c ++ rest) = Some rest).
  { intros a b c rest. rewrite <- (strip_pre_app (a ++ b ++ c) rest). by rewrite <- !app_assoc. }
  rewrite H. cbn [mbind option_bind].
  cbn [app]. rewrite split_once_newline by apply escape_no_newline. cbn. by rewrite unescape_escaped.
Qed.

(** ** Trashing *)

Section Trash.
Context (K : kernel) (D : disk) (home pp : path) (x : bytes) (n : node) (pid : Z) (now : bytes).
Abbreviation files := (home ++ [bs "Trash"; bs "files"]).
Abbreviation info := (home ++ [bs "Trash"; bs "info"]).
Abbreviation p := (pp ++ [x]).
Abbreviation record_of name := (info ++ [name ++ bs ".trashinfo"]).
Hypothesis D_wf : wf D.
Hypothesis D_p : D !! p = Some n.
Hypothesis plain : forall r, D !! (p ++ r) <> Some NOther.
Hypothesis files_way : open_way D files.
Hypothesis info_way : open_way D info.
Hypothesis p_files : under p files = false.
Hypothesis p_info : under p info = false.
Hypothesis no_links : forall name t, D !! (files ++ [name]) <> Some (NLink t).
Hypothesis records : forall name, D !! (files ++ [name]) = None -> D !! record_of name = None.
Hypothesis pid_free : D !! (files ++ [from_utf8_lossy x ++ bs "." ++ fmt_dec pid]) = None.

(** All that was there and is not trashed is as it was. *)
Definition rest_kept (d : disk) : Prop := forall q n', D !! q = Some n' -> under p q = false -> d !! q = Some n'.
Definition in_trash (d : disk) (t : path) : Prop :=
  exists name, t = files ++ [name] /\ D !! t = None /\ holds_copy D d p t.
Definition trashed (t : path) (d : disk) : Prop :=
  rest_kept d /\ (forall r, d !! (p ++ r) = None)
  /\ exists name m, t = files ++ [name] /\ D !! t = None /\ holds_copy D d p t
     /\ d !! record_of name = Some (NFile (trash_info p now) m).
Definition recoverable (d : disk) : Prop :=
  rest_kept d /\ ((forall r, d !! (p ++ r) = D !! (p ++ r)) \/ exists t, in_trash d t).

(** The disk with the directories of the trash made. *)
Definition ready (d : disk) : Prop :=
  wf d /\ forall q, d !! q = D !! q \/ (D !! q = None /\ (under q files = true \/ under q info = true) /\ is_ndir (d !! q) = true).

Lemma deeper r : under (files ++ [r]) files = false /\ under (files ++ [r]) info = false
                 /\ under (info ++ [r]) files = false /\ under (info ++ [r]) info = false.
Proof.
  repeat split; apply under_false; intros r' E; apply (f_equal length) in E; rewrite !length_app in E; cbn in E; lia.
Qed.
Lemma ready_files d name : ready d -> d !! (files ++ [name]) = D !! (files ++ [name]).
Proof. intros [_ H]. destruct (deeper name) as (E1 & E2 & _). destruct (H (files ++ [name])) as [|(_ & [E|E] & _)]; congruence. Qed.
Lemma ready_info d name : ready d -> d !! (info ++ [name]) = D !! (info ++ [name]).
Proof. intros [_ H]. destruct (deeper name) as (_ & _ & E1 & E2). destruct (H (info ++ [name])) as [|(_ & [E|E] & _)]; congruence. Qed.
Lemma under_trans a b c : under a b = true -> under b c = true -> under a c = true.
Proof. intros [r ->]%under_true [s ->]%under_true. rewrite <- app_assoc. apply under_app. Qed.
Lemma ready_p d r : ready d -> d !! (p ++ r) = D !! (p ++ r).
Proof.
  intros [_ H]. destruct (H (p ++ r)) as [|(_ & [E|E] & _)]; [done| |]; exfalso.
  - assert (under p files = true) by (eapply under_trans; [apply under_app|exact E]). congruence.
  - assert (under p info = true) by (eapply under_trans; [apply under_app|exact E]). congruence.
Qed.
Lemma ready_kept d : ready d -> rest_kept d.
Proof. intros [_ H] q n' Hq _. destruct (H q) as [->|(E & _)]; congruence. Qed.
Lemma ready_recoverable d : ready d -> recoverable d.
Proof. intros H. split; [by apply ready_kept|]. left. intros r. by apply ready_p. Qed.

Lemma made_ready q d d' : (q = files \/ q = info) -> ready d -> made K q d d' -> ready d'.
Proof.
  intros Hq [_ Hd] [Hw Hg]. split; [done|]. intros z. destruct (Hg z) as [->|(Hu & Hn & ->)]; [apply Hd|].
  right. split; [|split; [by destruct Hq as [-> | ->]; auto|done]].
  destruct (Hd z) as [<-|(? & _)]; done.
Qed.
Lemma ready_way q d : ready d -> open_way D q -> open_way d q.
Proof.
  intros [_ Hd] Ho z Hz Hs. destruct (Hd z) as [E|(_ & _ & ?)]; [|done]. rewrite E in *. by apply Ho.
Qed.

Lemma at_path_spec {A : Type} q (m : M A) P Q E : spec P m Q E -> spec P (at_path K q m) Q E.
Proof.
  intros Hm. eapply spec_bind; [by apply spec_try|]. intros [a|e]; [by apply spec_ret|by apply spec_fail].
Qed.

Lemma make_ok q d : (q = files \/ q = info) -> open_way D q -> ready d ->
  spec (fun d' => d' = d) (at_path K q (create_dir_all K q)) (fun _ d' => ready d' /\ is_ndir (d' !! q) = true /\ forall z n', d !! z = Some n' -> d' !! z = Some n') recoverable.
Proof.
  intros Hq Ho Hd. apply at_path_spec. unfold create_dir_all.
  pose proof (create_all K (rev q) d (proj1 Hd)) as Hc. rewrite rev_involutive in Hc.
  eapply spec_conseq; [apply Hc; by apply ready_way|done| |].
  - intros ? d' [Hm ?]. split; [by eapply made_ready|]. split; [done|]. destruct Hm as [_ Hg]. intros z n'. by apply grown_keeps with (p := q) (K := K).
  - intros d' Hm. apply ready_recoverable. by eapply made_ready.
Qed.

(** ** A free name *)

Definition found_name (d : disk) (out : path * bytes) : Prop := out.1 = files ++ [out.2] /\ D !! out.1 = None.

Lemma free_name_ok rounds d E : forall k stem candidate, ready d ->
  spec (fun d' => d' = d) (free_name K rounds k files stem candidate)
    (fun r d' => d' = d /\ forall out, r = Some out -> found_name d out) E.
Proof.
  induction rounds as [|rounds IH]; intros k stem candidate Hd; cbn [free_name]; [by apply spec_ret; intros ? ->|].
  eapply (spec_bind _ _ _ (fun b d' => d' = d /\ (b = false -> D !! (files ++ [candidate]) = None))).
  - intros s Hs. subst d. cbn. split; [done|]. intros Hb%bool_decide_eq_false. rewrite <- (ready_files _ candidate Hd).
    destruct (disk_of s !! (files ++ [candidate])) as [n'|] eqn:E'; [|done]. exfalso. apply Hb.
    rewrite (followed_plain K _ _ n' E'); [eauto|]. intros t ->. rewrite (ready_files _ _ Hd) in E'. by apply no_links in E'.
  - intros []; apply spec_pure; intros Hc; [by apply IH|]. apply spec_ret. intros ? ->. split; [done|].
    intros out [= <-]. split; [done|]. by apply Hc.
Qed.
Lemma unique_name_ok d E : ready d ->
  spec (fun d' => d' = d) (unique_name K pid files (from_utf8_lossy x)) (fun out d' => d' = d /\ found_name d out) E.
Proof.
  intros Hd. eapply spec_bind; [by apply free_name_ok|]. intros [out|]; apply spec_pure; intros Ho; apply spec_ret; intros ? ->.
  - split; [done|]. by apply Ho.
  - done.
Qed.

(** ** With the record written *)

Section Recorded.
Context (d : disk) (name : bytes) (m : Z).
Hypothesis d_ready : ready d.
Hypothesis d_files : is_ndir (d !! files) = true.
Hypothesis d_info : is_ndir (d !! info) = true.
Hypothesis name_free : D !! (files ++ [name]) = None.
Abbreviation t := (files ++ [name]).
Abbreviation d3 content := (<[record_of name := NFile content m]> d).

Lemma record_new : D !! record_of name = None.
Proof. by apply records. Qed.
Lemma not_under_p q y : under p q = false -> D !! (q ++ [y]) = None -> under p (q ++ [y]) = false.
Proof.
  intros Hq Hn. apply under_false. intros r E. destruct r as [|z r _] using rev_ind.
  - rewrite app_nil_r in E. rewrite E in Hn. congruence.
  - rewrite app_assoc in E. apply app_inj_tail in E as [-> _]. by rewrite under_app in Hq.
Qed.
Lemma t_record : under t (record_of name) = false.
Proof.
  apply under_false. intros r E. rewrite <- !app_assoc in E. apply app_inv_head in E. by injection E.
Qed.
Lemma recorded_elsewhere c q : q <> record_of name -> d3 c !! q = d !! q.
Proof. intros H. by rewrite lookup_insert_ne. Qed.
Lemma recorded_p c r : d3 c !! (p ++ r) = D !! (p ++ r).
Proof.
  rewrite recorded_elsewhere; [by apply ready_p|]. intros E.
  pose proof (not_under_p info (name ++ bs ".trashinfo") p_info record_new) as H. rewrite <- E in H. by rewrite under_app in H.
Qed.
Lemma recorded_kept c q n' : D !! q = Some n' -> d3 c !! q = Some n'.
Proof.
  intros Hq. rewrite recorded_elsewhere by (intros ->; rewrite record_new in Hq; done).
  destruct (proj2 d_ready q) as [->|(E & _)]; congruence.
Qed.
(** The record itself is no part of what can be lost. *)
Lemma recoverable_but_record d1 d2 :
  recoverable d1 -> (forall q, q <> record_of name -> d2 !! q = d1 !! q) -> recoverable d2.
Proof.
  intros [Hk Hp] H. assert (Hpr : forall r, p ++ r <> record_of name).
  { intros r E. pose proof (not_under_p info (name ++ bs ".trashinfo") p_info record_new) as Hu. rewrite <- E in Hu. by rewrite under_app in Hu. }
  split.
  - intros q n' Hq Hqp. rewrite H by (intros ->; rewrite record_new in Hq; done). by apply Hk.
  - destruct Hp as [Hp|(t' & name' & -> & Hfree & Hc)]; [left; intros r; rewrite H by apply Hpr; apply Hp|].
    right. exists (files ++ [name']), name'. split; [done|]. split; [done|]. intros r. rewrite H; [apply Hc|].
    intros E. rewrite <- !app_assoc in E. apply app_inv_head in E. discriminate.
Qed.
Lemma recorded_recoverable d' : may_begin (record_of name) d d' -> recoverable d'.
Proof.
  intros Hb. apply (recoverable_but_record d); [by apply ready_recoverable|]. intros q Hq.
  destruct Hb as [->|[n' ->]]; [done|by rewrite lookup_insert_ne].
Qed.

Lemma recorded_move c fuel :
  (size (subtree p D) <= fuel)%nat ->
  spec (fun d' => d' = d3 c) (move_path K fuel p t) (fun _ => moved (d3 c) p files name) (safe (d3 c) p files name).
Proof.
  intros Hfuel. assert (Hne : t <> record_of name) by (intros E; apply app_inj_tail in E as [E _]; apply app_inv_head in E; discriminate).
  apply (move_path_ok K (d3 c) p files name n).
  - apply wf_insert_dir; [apply d_ready|done|]. rewrite ready_info by done. apply record_new.
  - apply recorded_kept. exact D_p.
  - rewrite recorded_elsewhere; [done|]. intros E. apply (f_equal length) in E. rewrite !length_app in E. cbn in E. lia.
  - by rewrite recorded_elsewhere, ready_files.
  - by apply not_under_p.
  - intros r. rewrite recorded_p. apply plain.
  - replace (subtree p (d3 c)) with (subtree p D); [done|]. apply map_eq. intros r. by rewrite !lookup_subtree, recorded_p.
Qed.

Lemma untouched_kept c d' but :
  untouched (d3 c) d' but -> (forall q n', D !! q = Some n' -> under p q = false -> pending but q = false) -> rest_kept d'.
Proof. intros H Hbut q n' Hq Hp. rewrite H by eauto. by apply recorded_kept. Qed.
Lemma t_free q n' : D !! q = Some n' -> under t q = false.
Proof. intros Hq. apply not_true_iff_false. intros [r ->]%under_true. rewrite wf_absent in Hq; done. Qed.
Lemma copy_of_p c d' : holds_copy (d3 c) d' p t -> holds_copy D d' p t.
Proof. intros H r. rewrite <- (recorded_p c). apply H. Qed.

Lemma moved_trashed d' : moved (d3 (trash_info p now)) p files name d' -> trashed t d'.
Proof.
  intros (Hc & Hgone & Hu). split; [|split; [done|]].
  - eapply untouched_kept; [exact Hu|]. intros q n' Hq Hp. rewrite !pending_cons, Hp, (t_free q n') by done. done.
  - exists name, m. split; [done|]. split; [done|]. split; [by eapply copy_of_p|].
    rewrite Hu; [by rewrite lookup_insert_eq|]. rewrite !pending_cons, t_record.
    by rewrite (not_under_p info _ p_info record_new).
Qed.
Lemma safe_recoverable c d' : safe (d3 c) p files name d' -> recoverable d'.
Proof.
  intros [Hu|[Hc Hu]]; split.
  - eapply untouched_kept; [exact Hu|]. intros q n' Hq _. by rewrite pending_cons, (t_free q n').
  - left. intros r. rewrite <- (recorded_p c). apply Hu. rewrite pending_cons, orb_false_r. apply under_false. intros r' E.
    apply (apart D p files name D_wf) in E; [done|by rewrite D_p|done|by apply not_under_p].
  - eapply untouched_kept; [exact Hu|]. intros q n' Hq Hp. rewrite !pending_cons, Hp, (t_free q n') by done. done.
  - right. exists t. exists name. split; [done|]. split; [done|]. by eapply copy_of_p.
Qed.

Lemma record_removed d1 : recoverable d1 -> spec (fun d' => d' = d1) (try (remove_file K (record_of name))) (fun _ => recoverable) recoverable.
Proof.
  intros Hr. eapply spec_conseq; [eapply (spec_try _ (fun d' => d' = d1) (fun _ => recoverable) recoverable recoverable)|done|by intros []|done].
  apply spec_simple; [done|]. destruct (d1 !! record_of name) as [[]|] eqn:E; try done;
    (apply (recoverable_but_record d1); [done|]; intros q Hq; by rewrite lookup_delete_ne).
Qed.


End Recorded.

Lemma write_record d name content :
  ready d -> is_ndir (d !! info) = true -> D !! (files ++ [name]) = None ->
  spec (fun d' => d' = d) (at_path K (record_of name) (fs_write K (record_of name) content))
    (fun _ d' => d' = <[record_of name := NFile content 0x1A4]> d) recoverable.
Proof.
  intros Hd Hi Hn. apply at_path_spec.
  assert (Hw : forall c, write_node K (record_of name) c 0x1A4 d = Ok (<[record_of name := NFile c 0x1A4]> d)).
  { intros c. unfold write_node, write_target. rewrite (ready_info d _ Hd), (records name Hn), has_parent_snoc, Hi. cbn.
    by rewrite (ready_info d _ Hd), (records name Hn). }
  apply spec_call; [|intros k; by rewrite Hw]. intros k. rewrite Hw.
  apply (recorded_recoverable d name); [done..|]. right. eauto.
Qed.

Lemma trash_ok fuel :
  (size (subtree p D) <= fuel)%nat ->
  spec (fun d => d = D) (trash K fuel pid (Some home) now p) trashed recoverable.
Proof.
  intros Hfuel. assert (HD : ready D) by (split; [done|by left]). unfold trash. cbv zeta.
  eapply spec_bind; [by apply make_ok; auto|]. intros ?. apply spec_pre. intros d1 (H1 & Hf1 & _).
  eapply spec_bind; [by apply make_ok; auto|]. intros ?. apply spec_pre. intros d (Hd & Hi & Hkeep).
  assert (Hf : is_ndir (d !! files) = true).
  { destruct (d1 !! files) as [n'|] eqn:E; [|done]. by rewrite (Hkeep _ _ E). }
  unfold file_name. rewrite last_snoc. eapply (spec_bind _ _ _ (fun y d' => d' = d /\ y = x)); [by apply spec_ret|].
  intros y. apply spec_pure. intros ->. eapply spec_bind; [by apply unique_name_ok|]. intros [t name]. apply spec_pure.
  intros [Ht Hfree]. cbn in Ht, Hfree. subst t. rewrite removelast_last.
  assert (Hpp : is_ndir (d !! pp) = true) by (apply (proj1 Hd _ x); rewrite <- (app_nil_r p), (ready_p d []), app_nil_r, D_p by done; eauto).
  eapply (spec_bind _ _ _ (fun q d' => d' = d /\ q = pp)).
  { apply at_path_spec, spec_look; [by apply ready_recoverable|]. destruct (d !! pp) as [n'|] eqn:E; [|done].
    by rewrite (resolve_plain K d pp n' E) by (intros t ->; done). }
  intros q. apply spec_pure. intros ->. eapply spec_bind; [by apply write_record|]. intros ?.
  eapply spec_bind; [eapply (spec_try _ _ _ _ recoverable); by apply recorded_move|]. intros [[]|e].
  - apply spec_ret. intros d'. by apply moved_trashed.
  - apply spec_pre. intros d' Hs. eapply spec_bind; [apply record_removed; [done|by eapply safe_recoverable]|]. intros ?. by apply spec_fail.
Qed.

End Trash.

(** ** The theorems *)

(** C20: Moving to a new name loses no file, directory or link, within a file system or across two, at whatever
    system call it fails: when [move_path] succeeds, the whole
    tree is there with its contents, its links and the permissions of its files (those of directories
    are not promised, [private_dir_opened]), the source
    is gone and the rest of the disk is as it was; when it fails, either only
    the destination has changed, or the destination holds the whole tree. It
    comes back after at most one round per node of the tree. The
    destination does not exist before and does not lie in the tree, its directory does, and the tree holds no sockets or
    pipes (these are lost, [pipe_lost]). *)
Theorem move_loses_nothing K fuel src dp dx n s :
  wf (disk_of s) -> disk_of s !! src = Some n -> is_ndir (disk_of s !! dp) = true ->
  disk_of s !! (dp ++ [dx]) = None -> under src (dp ++ [dx]) = false ->
  (forall r, disk_of s !! (src ++ r) <> Some NOther) -> (size (subtree src (disk_of s)) <= fuel)%nat ->
  let '(r, s') := move_path K fuel src (dp ++ [dx]) s in
  let d := disk_of s in let d' := disk_of s' in let dst := dp ++ [dx] in
  match r with
  | Val _ => holds_copy d d' src dst /\ (forall r, d' !! (src ++ r) = None) /\ untouched d d' [src; dst]
  | Fail _ => untouched d d' [dst] \/ (holds_copy d d' src dst /\ untouched d d' [src; dst])
  | Stuck => False
  end.
Proof.
  intros Hw Hn Hdp Hdst Hu Hplain Hfuel.
  pose proof (move_path_ok K (disk_of s) src dp dx n Hw Hn Hdp Hdst Hu Hplain fuel Hfuel s eq_refl) as H.
  destruct (move_path K fuel src (dp ++ [dx]) s) as [[]  s']; exact H.
Qed.


(** ** Runs *)

Definition plain_resolve (d : disk) (p : path) : option path :=
  match d !! p with Some (NLink _) | None => None | Some _ => Some p end.
Definition quiet_kernel (one_device : bool) : kernel.
Proof.
  refine (mkKernel (fun _ => None) (fun _ c => c) (fun _ _ => true) (fun _ _ => one_device) plain_resolve (fun _ l => l)
    0x1ED (fun _ => bs "error") (fun _ _ => Permutation_refl _) _ _ _); unfold plain_resolve.
  - intros d p n -> Hn. destruct n; try done. by destruct (Hn target).
  - by intros d p ->.
  - intros d p q. destruct (d !! p) as [[]|] eqn:E; intros [= <-]; eauto.
Defined.

Definition path_of_names (l : list string) : path := bs <$> l.
Definition tree0 : disk := list_to_map
  [([], NDir 0x1ED); (path_of_names ["home"%string], NDir 0x1ED); (path_of_names ["usb"%string], NDir 0x1ED);
   (path_of_names ["home"; "a"]%string, NDir 0x1C0); (path_of_names ["home"; "a"; "x"]%string, NFile (bs "data") 0x1A4);
   (path_of_names ["home"; "a"; "l"]%string, NLink (bs "x")); (path_of_names ["home"; "a"; "b"]%string, NDir 0x1ED);
   (path_of_names ["home"; "a"; "b"; "y"]%string, NFile [] 0x1ED)].

Lemma wf_check d : map_Forall (fun q _ => q = [] \/ is_ndir (d !! removelast q) = true) d -> wf d.
Proof.
  intros H p x [n Hn]. destruct (H _ _ Hn) as [E|E]; [by destruct p|]. by rewrite removelast_last in E.
Qed.
Lemma open_way_check d p : Forall (fun q => match d !! q with Some n => is_ndir (Some n) | None => true end = true) ((fun k => take k p) <$> seq 0 (S (length p))) -> open_way d p.
Proof.
  intros H q [r Hq]%under_true [n Hn]. rewrite Forall_forall in H.
  assert (Hin : q ∈ (fun k => take k p) <$> seq 0 (S (length p))).
  { apply list_elem_of_fmap. exists (length q). rewrite Hq, take_app_length. split; [done|]. apply elem_of_seq. rewrite length_app. lia. }
  specialize (H q Hin). by rewrite Hn in H |- *.
Qed.

(** A tree goes to another file system, link and all; but its directories
    come out with the permissions of new ones, so that a private folder is
    open to others; and a pipe in it is gone. *)
Example private_dir_opened :
  let d := disk_of (move_path (quiet_kernel false) 10 (path_of_names ["home"; "a"]%string) (path_of_names ["usb"; "a"]%string) (mkSt tree0 0)).2 in
  d !! path_of_names ["usb"; "a"]%string = Some (NDir 0x1ED) /\ tree0 !! path_of_names ["home"; "a"]%string = Some (NDir 0x1C0)
  /\ d !! path_of_names ["usb"; "a"; "l"]%string = Some (NLink (bs "x")) /\ d !! path_of_names ["home"; "a"]%string = None.
Proof. repeat split; vm_compute; reflexivity. Qed.
Example pipe_lost :
  let d0 := <[path_of_names ["home"; "a"; "pipe"]%string := NOther]> tree0 in
  let '(r, s) := move_path (quiet_kernel false) 10 (path_of_names ["home"; "a"]%string) (path_of_names ["usb"; "a"]%string) (mkSt d0 0) in
  r = Val tt /\ disk_of s !! path_of_names ["usb"; "a"; "pipe"]%string = None
  /\ disk_of s !! path_of_names ["home"; "a"; "pipe"]%string = None.
Proof. vm_compute. repeat split. Qed.

(** A link in the trash that leads nowhere does not count as there: the next
    file of its name takes its place. *)
Definition trashed_link : disk := list_to_map
  [([], NDir 0x1ED); (path_of_names ["d"%string], NDir 0x1ED); (path_of_names ["d"; "Trash"]%string, NDir 0x1ED);
   (path_of_names ["d"; "Trash"; "files"]%string, NDir 0x1ED); (path_of_names ["d"; "Trash"; "files"; "a"]%string, NLink (bs "gone"));
   (path_of_names ["d"; "Trash"; "info"]%string, NDir 0x1ED); (path_of_names ["a"%string], NFile (bs "new") 0x1A4)].
Example dangling_link_overwritten :
  let '(r, s) := trash (quiet_kernel true) 5 7 (Some (path_of_names ["d"%string])) (bs "2026-01-01T00:00:00") (path_of_names ["a"%string]) (mkSt trashed_link 0) in
  r = Val (path_of_names ["d"; "Trash"; "files"; "a"]%string)
  /\ disk_of s !! path_of_names ["d"; "Trash"; "files"; "a"]%string = Some (NFile (bs "new") 0x1A4).
Proof. vm_compute. done. Qed.

Definition is_other (n : node) : bool := match n with NOther => true | _ => false end.
Definition is_link (n : node) : bool := match n with NLink _ => true | _ => false end.
Lemma plain_check (d : disk) p : map_Forall (fun _ n => is_other n = false) d -> forall r, d !! (p ++ r) <> Some NOther.
Proof. intros H r Hr. by specialize (H _ _ Hr). Qed.
Lemma no_links_check (d : disk) p : map_Forall (fun q n => under p q && is_link n = false) d -> forall name t, d !! (p ++ [name]) <> Some (NLink t).
Proof. intros H name t Hr. specialize (H _ _ Hr). cbn in H. by rewrite under_app in H. Qed.
Lemma records_check (d : disk) files info :
  map_Forall (fun q _ => bool_decide (q = info) || negb (under info q) = true) d ->
  forall name, d !! (files ++ [name]) = None -> d !! (info ++ [name ++ bs ".trashinfo"]) = None.
Proof.
  intros H name _. destruct (d !! (info ++ _)) eqn:E; [|done]. specialize (H _ _ E). cbn in H.
  rewrite under_app, orb_false_r in H. apply bool_decide_eq_true in H.
  apply (f_equal length) in H. rewrite length_app in H. cbn in H. lia.
Qed.
Ltac by_check := apply (bool_decide_unpack _); vm_compute; exact I.

Lemma move_loses_nothing_witness :
  let src := path_of_names ["home"; "a"]%string in let dst := path_of_names ["usb"; "new"]%string in
  let '(r, s') := move_path (quiet_kernel false) 10 src dst (mkSt tree0 0) in
  match r with
  | Val _ => holds_copy tree0 (disk_of s') src dst /\ (forall r, disk_of s' !! (src ++ r) = None) /\ untouched tree0 (disk_of s') [src; dst]
  | Fail _ => untouched tree0 (disk_of s') [dst] \/ (holds_copy tree0 (disk_of s') src dst /\ untouched tree0 (disk_of s') [src; dst])
  | Stuck => False
  end.
Proof.
  apply (move_loses_nothing (quiet_kernel false) 10 (path_of_names ["home"; "a"]%string) (path_of_names ["usb"%string]) (bs "new") (NDir 0x1C0) (mkSt tree0 0)).
  - apply wf_check. by_check.
  - vm_compute. reflexivity.
  - vm_compute. reflexivity.
  - vm_compute. reflexivity.
  - vm_compute. reflexivity.
  - apply plain_check. by_check.
  - apply Nat.leb_le. vm_compute. reflexivity.
Defined.

